(* ===== verification/_CoqProject ===== *)
-Q . S2P
Prelude.v
GoBytes.v
GoFloat.v
LogicalTime.v
GoUtf8.v
Encoding.v
EncInteger.v
EncPrimitive.v
EncComposite.v
EncDispatch.v
Sync.v
SyncSnapshot.v
SyncInvariant.v
SyncExport.v
SyncProps.v
SyncTheorems.v
TimeScalar.v
TimeService.v
TimeTheorems.v
TimeSafety.v
TimeTyped.v
TimeEnable.v
TimePromise.v
Own.v
OwnCallback.v
OwnService.v
OwnLifecycle.v
OwnSnapshot.v
OwnLedger.v
OwnWindow.v
OwnInvariant.v
OwnReachable.v
OwnLedgerSteps.v
OwnRestore.v
OwnTransfer.v
FomDimension.v
Ddm.v
DdmRegion.v
DdmSubscribe.v
DdmAssociate.v
DdmRoute.v
DdmInvariant.v
DdmSubscriptionProofs.v
DdmWindow.v
DdmReach.v
DdmTheorems.v
DdmRestore.v
Decl.v
DeclChange.v
DeclService.v
DeclUnpublish.v
DeclSnapshot.v
DeclTables.v
DeclInvariant.v
DeclPreserve.v
DeclRestore.v
DeclAtomic.v
DeclRound.v
DeclTheorems.v
Fed.v
FedService.v
FedRestore.v
FedRoster.v
FedSteps.v
FedHistory.v
FedTheorems.v
FedSession.v
Sav.v
SavService.v
SavReport.v
SavRestore.v
SavCalls.v
SavEffect.v
SavWorld.v
SavInvariant.v
SavPreserve.v
SavDecision.v
SavRound.v
SavLive.v
SavTheorems.v
