(* ===== verification/Prelude.v ===== *)
(** * gorti: a verification library for the run-time infrastructure

    gorti ([src/rti]) is an HLA (IEEE 1516.1-2010) run-time infrastructure in Go:
    a server whose managers keep, for each federation execution, the state of
    one group of services each, and send callbacks to the joined federates
    through an outbox.  This library models the managers of seven groups and the
    codecs every update goes through, and proves what makes them correct.

    ** The parts, and where they are

    - [Prelude]: outcomes of Go calls ([Ret], [Fail], [Panic]), machine integers
      ([wrapU], [wrapS], [maxU], [maxS]), the list, option and map lemmas and the
      tactics the other files share.  [GoBytes], [GoFloat], [GoUtf8]: big-endian
      octets, IEEE 754 binary64 and binary32 with Go's conversions, UTF-8 and
      UTF-16, as the language and its library define them.
    - Logical time ([pkg/logicaltime/value.go]): [LogicalTime].
    - Encoding ([pkg/encoding], data types of [pkg/fom/model]): [Encoding] is the
      interface [Codec] with its contract [lawful]; [EncInteger], [EncPrimitive]
      and [EncComposite] the codecs file by file; [EncDispatch] the construction
      of a codec from a FOM descriptor ([codec_for.go]).
    - Synchronization points ([internal/hla/synchronization]): [Sync] the state
      and the operations, [SyncSnapshot] export, validation, import and
      reconciliation, [SyncInvariant], [SyncExport], [SyncProps] and
      [SyncTheorems] the proofs.
    - Time management ([internal/hla/time], [core/time_scalar.go]): [TimeScalar]
      the type class of logical-time scalars with the two instances and its laws
      [LawfulScalar], [TimeService] the decisions of the manager; [TimeTheorems],
      [TimeSafety], [TimeTyped], [TimeEnable] and [TimePromise] the proofs,
      against the class.
    - Attribute ownership ([internal/hla/ownership]): [Own] the state and the
      registration of terminal callbacks, [OwnCallback] sessions, receipts and
      retries, [OwnService] the services, [OwnLifecycle] resignation, deletion,
      unpublication, MOM adjustments and commands in known coordinates,
      [OwnSnapshot] export, validation and import; [OwnLedger], [OwnWindow],
      [OwnInvariant], [OwnReachable], [OwnLedgerSteps], [OwnRestore] and
      [OwnTransfer] the proofs.

    - Data distribution management ([internal/hla/ddm]): [FomDimension] the
      default regions of a model, [Ddm] the state, [DdmRegion] regions and their
      commit, [DdmSubscribe] subscriptions by region, [DdmAssociate] association
      of attributes, [DdmRoute] the routing of updates and interactions,
      export and import; [DdmInvariant], [DdmSubscriptionProofs], [DdmWindow],
      [DdmReach], [DdmTheorems] and [DdmRestore] the proofs.
    - Declaration management ([internal/hla/declaration]): [Decl] the state,
      relevance and advice, [DeclChange] the transaction that delivers
      advisories, [DeclService] the services, [DeclUnpublish] unpublication with
      its object and ownership plans, [DeclSnapshot] saved states; [DeclTables],
      [DeclInvariant], [DeclPreserve], [DeclRestore], [DeclAtomic], [DeclRound]
      and [DeclTheorems] the proofs.
    - Federation management ([internal/hla/federation]): [Fed] executions, the
      outside world of a call and the queries, [FedService] creation, joining,
      admission, resignation and destruction, [FedRestore] reserved handles and
      restored identities, and calls that interleave at their gates;
      [FedRoster], [FedSteps], [FedHistory], [FedTheorems] and [FedSession] the
      proofs.
    - Save and restore ([internal/hla/save_restore], [core/checkpoint.go]): [Sav]
      the data, the ports and the state of a call, [SavService] history, bundles
      and requests of a save, [SavReport] reports, the decision, scheduled
      progress, aborts, losses, admission and queries, [SavRestore] the restore
      protocol with its routing, translation and preparation; [SavCalls] how to
      reason about calls whose ports may answer anything, [SavEffect] and
      [SavWorld] the ways a request may leave the manager, [SavInvariant],
      [SavPreserve], [SavDecision], [SavRound], [SavLive] and [SavTheorems] the
      proofs.

    The managers meet at their ports: federation management gives the members and
    their handles, ownership moves attributes while a distribution admission
    runs and its plans are part of an unpublication, save and restore calls the
    exports and imports of the other managers (its snapshotters), pauses and
    resumes time, and replaces the roster through a restoration of identities.

    A manager's [map[FederationName]*state] is a [gmap]; where a state is told
    from a later one by its address, the state carries the address
    (declaration) or the manager a heap (federation).  A method is a function
    from the manager to a reply: the new manager, the effects in order (callbacks
    sent, events logged, hooks called) and the returned value or error; a call
    of the save and restore coordinator, which asks its ports between its
    changes, is a computation ([proto]) over the manager and the record of what
    was done, and a port answers as a function of that record.  What is
    not under [src] or belongs to another part (the outbox, the event log, the
    resolvers and preparation ports, the strategy of ownership negotiation, the
    repository of object models) is an argument: a record [Options] or
    [Environment].

    ** What is proved

    - Encoding: codecs round-trip, consume exactly what they wrote, stay in the
      buffer, and composites are lawful when their parts are; [CodecFor] returns
      a lawful codec or an error for every descriptor.  Two panics or overflows
      the code admits are proved as such.
    - Synchronization: reachable states export to valid snapshots, callbacks are
      obligations until reported, a point completes exactly when its last member
      achieves it, delivery is all or nothing, retries end.
    - Time: no grant lets a federate pass a timestamp it can still receive, some
      federate is always granted, promises of lookahead are kept, the enable time
      is the least safe one, the typed service decides as the scalar one.
    - Ownership: the state invariant over every history of services, no transfer
      without its registered callback, callbacks settled exactly by a receipt of
      an attempt that was sent, what each acquisition and each resignation does,
      refused commands change nothing, saved states restore.
    - Data distribution: the state invariant over every history, with services,
      registrations and ownership moves inside a running admission; a refused
      change undoes exactly itself;
      an update reaches exactly the subscribers whose regions meet; subscriptions
      are a table from attribute, federate and region to options; exported
      states import to themselves up to the order of rows.
    - Declaration: the state invariant over every history, refused services are
      without effect (an unpublication whose dispatch fails is committed
      nevertheless), advisories are exactly those owed, the demanded rate does
      not depend on the order of traversal, resignations leave nothing, an
      unpublication among other services acts at one moment and returns, saved
      states restore.
    - Federation: rosters and leases are consistent after every interleaving of
      requests; leases keep executions and sessions (not handles, which a
      restoration under a lease replaces); handles are never answered twice; a
      session that is over is never resigned again; joins and resignations on every
      branch, with what the outside sees; generated names are found; directives
      round-trip and rosters are restored exactly; the one handle a join should
      not answer.
    - Save and restore: the tables are well formed after every history of
      requests, whatever the ports answer; barriers of time never leak; a save
      is decided by its last report, after its bundle was published, and a
      restore imports only what was prepared and only when all succeeded; each
      participant sees the protocol; a save whose participants cooperate
      completes; routing is exact; bundles round-trip and truncated ones are
      refused; a failed import is reverted, save where a rollback fails too,
      and that is reported.

    ** Bounds and fuel

    [int] is 64 bits wide and conversions of out-of-range floats are those of
    amd64.  Recursion is structural, or on a measure that suffices: a JSON-shaped
    descriptor is walked with its size [vsize] as fuel; the binary search of an
    enable time runs 65 rounds over fewer than 2^64 candidates
    ([regulation_enable_least] shows it ends at the least one); the propagation of
    flush horizons one pass for each peer; [advanceCompleted] one step for each
    completed identity; retries one step for each pending callback; an
    unpublication two attempts more than other services interfere with it
    ([unpublication_returns]); the search for a generated name one turn more than
    names are in use ([generated_name_found]).  Counters of federate handles are
    64 bits wide and wrap: the theorems about them are for histories of fewer
    than [2 ^ 63] requests.  A bundle's lengths are checked against the limits of
    its reader when it is written, so that lengths fit their eight octets.

    ** What is not modelled

    Locks: an operation of a manager runs under its lock, so it is one step;
    federation management alone also models its operation gates and leases (not
    the checkpoint admission, another lock, which keeps joins and resignations
    whole when a roster is restored).
    Where a call leaves its lock to call out, the steps are apart: the windows of
    a distribution admission (inside them run the services that need not its
    lock; imports are outside the step relation), the preparations of an
    unpublication, creation, destruction and restoration of an execution.  A
    join and a resignation are one step each, with their hooks, under the
    exclusive gate.  A request of a save or a restore is one step, as under the
    checkpoint admission its callers hold (the reservation of a restore takes
    only the lock of the tables); the bookkeeping of those locks, the clones of
    what is handed out, snapshotters that are nil and the JSON of a manifest are
    not modelled, and digests compared without regard to case are ASCII.
    Contexts are the answers of [ctx.Err()]; the clock is an
    argument.  Of time management the loop that delivers queued messages before a
    grant, the message buffers, retraction, stalls and scheduled saves.  Object
    management (the registry of instances, discovery, updates, transportation),
    the management object model and support services are not
    modelled; adapters (gRPC, protocol buffers, DDS, files), the parser of object
    models, the server's composition and the command line programs are input and
    output. *)

From Stdlib Require Export ZArith Lia Bool.
From stdpp Require Export base option list strings gmap sorting.
#[export] Set Default Goal Selector "!".

(** ** Outcomes of Go calls

    A Go call in the modelled code returns a value, returns a non-nil [error],
    or panics.  [Fail] carries the error, [Panic] the runtime message. *)
Inductive outcome (E A : Type) : Type :=
| Ret (a : A)
| Fail (e : E)
| Panic (msg : string).
Arguments Ret {E A} _.
Arguments Fail {E A} _.
Arguments Panic {E A} _.

#[export] Instance outcome_ret {E} : MRet (outcome E) := fun A a => Ret a.
#[export] Instance outcome_bind {E} : MBind (outcome E) := fun A B f m =>
  match m with
  | Ret a => f a
  | Fail e => Fail e
  | Panic s => Panic s
  end.
#[export] Instance outcome_fmap {E} : FMap (outcome E) := fun A B f m =>
  match m with
  | Ret a => Ret (f a)
  | Fail e => Fail e
  | Panic s => Panic s
  end.

(** [mapErr f m] is the Go idiom [return fmt.Errorf("...: %w", err)]. *)
Definition mapErr {E F A} (f : E -> F) (m : outcome E A) : outcome F A :=
  match m with
  | Ret a => Ret a
  | Fail e => Fail (f e)
  | Panic s => Panic s
  end.

Definition is_Ret {E A} (m : outcome E A) : Prop := exists a, m = Ret a.
Definition no_panic {E A} (m : outcome E A) : Prop := forall s, m <> Panic s.

Declare Scope go_scope.
Delimit Scope go_scope with go.

(** An early return: [check b orelse e ; k] is [if !b { return e }; k]. *)
Notation "'check' b 'orelse' e ;; k" :=
  (if b then k else Fail e)
  (at level 100, b at level 99, e at level 99, k at level 200,
   right associativity) : go_scope.
Open Scope go_scope.

(** ** Automation *)

(** Boolean comparisons of [Z] in hypotheses and goal, turned to [Prop]. *)
Ltac zbool :=
  repeat match goal with
  | H : context [Z.ltb ?a ?b] |- _ => destruct (Z.ltb_spec a b); try discriminate H
  | H : context [Z.leb ?a ?b] |- _ => destruct (Z.leb_spec a b); try discriminate H
  | H : context [Z.eqb ?a ?b] |- _ => destruct (Z.eqb_spec a b); try discriminate H
  | |- context [Z.ltb ?a ?b] => destruct (Z.ltb_spec a b)
  | |- context [Z.leb ?a ?b] => destruct (Z.leb_spec a b)
  | |- context [Z.eqb ?a ?b] => destruct (Z.eqb_spec a b)
  end.

Ltac zcases := zbool; try solve [done | lia].

Create HintDb gorti.

(** ** Outcome lemmas *)
Section Outcome.
Context {E A B : Type}.
Implicit Types (m : outcome E A) (f : A -> outcome E B).

Lemma bind_Ret a f : (Ret a ≫= f) = f a.
Proof. done. Qed.
Lemma bind_Fail e f : (Fail e ≫= f) = Fail e.
Proof. done. Qed.

Lemma bind_Ret_inv m f b :
  (m ≫= f) = Ret b -> exists a, m = Ret a /\ f a = Ret b.
Proof. destruct m; simpl; try discriminate. eauto. Qed.

Lemma bind_no_panic m f :
  no_panic m -> (forall a, m = Ret a -> no_panic (f a)) -> no_panic (m ≫= f).
Proof. intros Hm Hf. destruct m; simpl; [by apply Hf|done|]. by destruct (Hm msg). Qed.

Lemma mapErr_Ret_inv {F} (g : E -> F) m a : mapErr g m = Ret a -> m = Ret a.
Proof. destruct m; simpl; congruence. Qed.

Lemma mapErr_Ret {F} (g : E -> F) m a : m = Ret a -> mapErr g m = Ret a.
Proof. by intros ->. Qed.

Lemma mapErr_no_panic {F} (g : E -> F) m : no_panic m -> no_panic (mapErr g m).
Proof. intros H s. destruct m; simpl; try done. intros [= ->]. by apply (H s). Qed.

Lemma Ret_no_panic a : no_panic (Ret a : outcome E A).
Proof. done. Qed.
Lemma Fail_no_panic e : no_panic (Fail e : outcome E A).
Proof. done. Qed.
Lemma Ret_inj (a b : A) : (Ret a : outcome E A) = Ret b -> a = b.
Proof. congruence. Qed.
End Outcome.
#[export] Hint Resolve Ret_no_panic Fail_no_panic mapErr_no_panic bind_no_panic : gorti.

(** Opens every [Ret] equation of a monadic composition in hypothesis [H]. *)
Ltac bind_inv H :=
  lazymatch type of H with
  | (_ ≫= _) = Ret _ =>
      let a := fresh "r" in let H1 := fresh "Hr" in
      apply bind_Ret_inv in H as (a & H1 & H); simpl in H
  | mapErr _ _ = Ret _ => apply mapErr_Ret_inv in H
  end.

(** ** Powers of two *)
Section Pow2.
Open Scope Z_scope.
Lemma pow2_pos n : 0 < 2 ^ n \/ n < 0.
Proof. destruct (Z_lt_le_dec n 0); [by right|left]. by apply Z.pow_pos_nonneg. Qed.
Lemma pow2_gt0 n : 0 <= n -> 0 < 2 ^ n.
Proof. intros. by apply Z.pow_pos_nonneg. Qed.
Lemma pow2_add a b : 0 <= a -> 0 <= b -> 2 ^ (a + b) = 2 ^ a * 2 ^ b.
Proof. intros. by apply Z.pow_add_r. Qed.
Lemma pow2_le a b : 0 <= a <= b -> 2 ^ a <= 2 ^ b.
Proof. intros. apply Z.pow_le_mono_r; lia. Qed.
Lemma pow2_S a : 0 <= a -> 2 ^ (a + 1) = 2 * 2 ^ a.
Proof. intros. rewrite pow2_add by lia. lia. Qed.
End Pow2.

(** ** Lists *)
Lemma sublist_map {A B} (f : A -> B) l k : sublist l k -> sublist (map f l) (map f k).
Proof. induction 1; simpl; by constructor. Qed.
Lemma sublist_elem {A} (l k : list A) x : sublist l k -> x ∈ l -> x ∈ k.
Proof.
  induction 1 as [|y l k _ IH|y l k _ IH]; rewrite ?elem_of_cons; intuition.
Qed.

(** ** Maps built by a loop of insertions, [for _, a := range l { m[key(a)] = val(a) }] *)
Section FoldInsert.
Context {K A V : Type} `{Countable K} (key : A -> K) (val : A -> V).
Definition fold_insert (l : list A) (m : gmap K V) : gmap K V := fold_left (fun m a => <[key a := val a]> m) l m.

Lemma fold_insert_notin l m k : k ∉ map key l -> fold_insert l m !! k = m !! k.
Proof.
  revert m. unfold fold_insert. induction l as [|a l IH]; intros m; [done|].
  simpl. rewrite not_elem_of_cons. intros [Hk Hl]. rewrite IH by done. by apply lookup_insert_ne.
Qed.
Lemma fold_insert_in l m a : NoDup (map key l) -> a ∈ l -> fold_insert l m !! key a = Some (val a).
Proof.
  revert m. unfold fold_insert. induction l as [|b l IH]; intros m Hnd Ha; [by apply elem_of_nil in Ha|].
  simpl in *. inversion Hnd as [|? ? Hni Hnd']; subst. apply elem_of_cons in Ha as [->|Ha]; [|by apply IH].
  pose proof (fold_insert_notin l (<[key b := val b]> m) (key b) Hni) as E. unfold fold_insert in E.
  rewrite E. apply lookup_insert_eq.
Qed.
(** A list that enumerates [m] rebuilds it. *)
Lemma fold_insert_eq (m : gmap K V) l : NoDup (map key l) ->
  (forall a, a ∈ l -> m !! key a = Some (val a)) -> (forall k, is_Some (m !! k) -> k ∈ map key l) ->
  fold_insert l ∅ = m.
Proof.
  intros Hnd Hin Hall. apply map_eq. intros k. destruct (decide (k ∈ map key l)) as [Hk|Hk].
  - apply list_elem_of_fmap in Hk as (a & -> & Ha). rewrite fold_insert_in by done. by rewrite Hin.
  - rewrite fold_insert_notin by done. rewrite lookup_empty. destruct (m !! k) eqn:E; [|done].
    destruct Hk. apply Hall. by rewrite E.
Qed.
End FoldInsert.

(** ** Slices of handles *)
Section Slices.
Local Open Scope Z_scope.
(** [slices.Sort] and [slices.Compact]. *)
Definition sortHandles (l : list Z) : list Z := merge_sort Z.le l.
Fixpoint compact (l : list Z) : list Z :=
  match l with
  | a :: (b :: _) as l' => if a =? b then compact l' else a :: compact l'
  | _ => l
  end.
Definition sortCompact (l : list Z) : list Z := compact (sortHandles l).

Lemma compact_in l a : a ∈ compact l <-> a ∈ l.
Proof.
  induction l as [|x [|y l] IH]; [done..|]. cbn [compact] in *. destruct (Z.eqb_spec x y) as [->|].
  - rewrite IH. rewrite !elem_of_cons. tauto.
  - rewrite elem_of_cons, IH. by rewrite (elem_of_cons (y :: l)).
Qed.
Lemma compact_sorted l : StronglySorted Z.le l -> StronglySorted Z.lt (compact l).
Proof.
  induction l as [|x [|y l] IH]; intros H; [constructor|by repeat constructor|]. inversion H as [|? ? Hs Hf]; subst. cbn [compact] in *.
  destruct (Z.eqb_spec x y) as [->|Hne]; [by apply IH|]. constructor; [by apply IH|].
  apply Forall_forall. intros z Hz. apply (proj1 (compact_in (y :: l) z)) in Hz. rewrite Forall_forall in Hf. pose proof (Hf y ltac:(by left)).
  inversion Hs as [|? ? _ Hf']; subst. rewrite Forall_forall in Hf'. apply elem_of_cons in Hz as [->|Hz]; [lia|]. specialize (Hf' z Hz). lia.
Qed.
Lemma sorted_lt_NoDup l : StronglySorted Z.lt l -> NoDup l.
Proof.
  induction 1 as [|x l _ IH Hf]; constructor; [|done]. intros Hx. rewrite Forall_forall in Hf. specialize (Hf x Hx). lia.
Qed.
Lemma sortHandles_sorted l : StronglySorted Z.le (sortHandles l).
Proof. apply StronglySorted_merge_sort; apply _. Qed.
Lemma sortCompact_in l a : a ∈ sortCompact l <-> a ∈ l.
Proof. unfold sortCompact, sortHandles. by rewrite compact_in, merge_sort_Permutation. Qed.
Lemma sortCompact_NoDup l : NoDup (sortCompact l).
Proof. apply sorted_lt_NoDup, compact_sorted, sortHandles_sorted. Qed.
Lemma sortHandles_NoDup l : NoDup l -> NoDup (sortHandles l).
Proof. unfold sortHandles. by rewrite merge_sort_Permutation. Qed.
Lemma sortHandles_in l a : a ∈ sortHandles l <-> a ∈ l.
Proof. unfold sortHandles. by rewrite merge_sort_Permutation. Qed.
Lemma sortCompact_sorted l : StronglySorted Z.lt (sortCompact l).
Proof. apply compact_sorted, sortHandles_sorted. Qed.
(** A sorted slice without duplicates is determined by its elements. *)
Lemma sorted_lt_ext l k : StronglySorted Z.lt l -> StronglySorted Z.lt k -> (forall a, a ∈ l <-> a ∈ k) -> l = k.
Proof.
  intros Hl Hk E. apply (StronglySorted_unique_strong Z.lt); [|done|done|].
  - intros x1 x2 _ _ ??. lia.
  - apply NoDup_Permutation; [by apply sorted_lt_NoDup..|done].
Qed.
Lemma sortCompact_ext l k : (forall a, a ∈ l <-> a ∈ k) -> sortCompact l = sortCompact k.
Proof. intros E. apply sorted_lt_ext; [apply sortCompact_sorted..|]. intros a. by rewrite !sortCompact_in. Qed.
Lemma sortCompact_id l : StronglySorted Z.lt l -> sortCompact l = l.
Proof. intros H. apply sorted_lt_ext; [apply sortCompact_sorted|done|]. intros a. apply sortCompact_in. Qed.
End Slices.
