(* ===== verification/GoBytes.v ===== *)
(** * Go's fixed-width integers and byte slices

    Bytes are [Byte.byte]; a [w]-bit Go integer is a [Z] in its range, with the
    conversions ([intN(x)], [uintN(x)]) written as wrap-around.  [putBE]/[getBE]
    and [putLE]/[getLE] are [encoding/binary]'s [BigEndian]/[LittleEndian]
    [PutUintN]/[UintN] for any width in bytes. *)
From Stdlib Require Import Strings.Byte.
From S2P Require Import Prelude.
Open Scope Z_scope.

#[export] Instance byte_eq_dec : EqDecision byte := Byte.byte_eq_dec.

(** ** Fixed-width integers *)
Definition wrapU (w z : Z) : Z := z mod 2 ^ w.
Definition wrapS (w z : Z) : Z :=
  let u := z mod 2 ^ w in if u <? 2 ^ (w - 1) then u else u - 2 ^ w.
Definition minS (w : Z) : Z := - 2 ^ (w - 1).
Definition maxS (w : Z) : Z := 2 ^ (w - 1) - 1.
Definition maxU (w : Z) : Z := 2 ^ w - 1.
Definition inS (w z : Z) : Prop := minS w <= z <= maxS w.
Definition inU (w z : Z) : Prop := 0 <= z <= maxU w.

Lemma pow2_half w : 0 < w -> 2 ^ w = 2 * 2 ^ (w - 1).
Proof. intros. replace w with ((w - 1) + 1) at 1 by lia. apply pow2_S. lia. Qed.

Lemma wrapU_range w z : 0 <= w -> inU w (wrapU w z).
Proof.
  intros. unfold inU, maxU, wrapU. pose proof (pow2_gt0 w H).
  pose proof (Z.mod_pos_bound z (2 ^ w)). lia.
Qed.

Lemma wrapU_id w z : inU w z -> wrapU w z = z.
Proof. unfold inU, maxU, wrapU. intros. apply Z.mod_small. lia. Qed.

Lemma wrapS_range w z : 0 < w -> inS w (wrapS w z).
Proof.
  intros Hw. unfold inS, minS, maxS, wrapS. pose proof (pow2_half w Hw).
  pose proof (pow2_gt0 w). pose proof (Z.mod_pos_bound z (2 ^ w)). zbool; lia.
Qed.

(** Reinterpreting a signed integer as bits and back is the identity. *)
Lemma wrapS_wrapU w z : 0 < w -> inS w z -> wrapS w (wrapU w z) = z.
Proof.
  intros Hw [H1 H2]. unfold minS, maxS in *. unfold wrapS, wrapU.
  pose proof (pow2_half w Hw). pose proof (pow2_gt0 (w - 1)).
  rewrite Z.mod_mod by lia. destruct (Z_lt_le_dec z 0) as [Hz|Hz].
  - replace (z mod 2 ^ w) with (z + 2 ^ w).
    + zbool; lia.
    + symmetry. rewrite <- (Z.mod_small (z + 2 ^ w) (2 ^ w)) by lia.
      rewrite <- (Z.mul_1_l (2 ^ w)) at 2. by rewrite Z_mod_plus_full.
  - rewrite Z.mod_small by lia. zbool; lia.
Qed.

Lemma wrapU_wrapS w z : 0 < w -> inU w z -> wrapU w (wrapS w z) = z.
Proof.
  intros Hw H. unfold inU, maxU in H. unfold wrapS, wrapU.
  rewrite (Z.mod_small z) by lia. pose proof (pow2_half w Hw). zbool.
  - apply Z.mod_small; lia.
  - replace (z - 2 ^ w) with (z + -1 * 2 ^ w) by lia.
    rewrite Z_mod_plus_full. apply Z.mod_small. lia.
Qed.

Lemma wrapS_of_U w z : wrapS w (wrapU w z) = wrapS w z.
Proof. unfold wrapS, wrapU. by rewrite Zmod_mod. Qed.
Lemma wrapU_of_S w z : 0 < w -> wrapU w (wrapS w z) = wrapU w z.
Proof.
  intros Hw. rewrite <- (wrapS_of_U w z), wrapU_wrapS; [done|lia|].
  apply wrapU_range. lia.
Qed.
Lemma wrapS_id w z : 0 < w -> inS w z -> wrapS w z = z.
Proof. intros. rewrite <- wrapS_of_U. by apply wrapS_wrapU. Qed.
Lemma wrapU_idem w z : wrapU w (wrapU w z) = wrapU w z.
Proof. unfold wrapU. by rewrite Zmod_mod. Qed.

(** ** Bytes *)
Definition byteZ (b : byte) : Z := Z.of_N (Byte.to_N b).
Definition byteOf (z : Z) : byte :=
  match Byte.of_N (Z.to_N (z mod 256)) with Some b => b | None => Byte.x00 end.

Lemma byteZ_range b : 0 <= byteZ b < 256.
Proof. destruct b; vm_compute; split; congruence. Qed.

Lemma byteOf_byteZ b : byteOf (byteZ b) = b.
Proof.
  unfold byteOf, byteZ. rewrite Z.mod_small by apply byteZ_range.
  by rewrite N2Z.id, Byte.of_to_N.
Qed.

Lemma byteZ_byteOf z : byteZ (byteOf z) = z mod 256.
Proof.
  unfold byteOf, byteZ. pose proof (Z.mod_pos_bound z 256).
  destruct (Byte.of_N _) as [b|] eqn:E.
  - apply Byte.to_of_N in E. rewrite E. lia.
  - apply Byte.of_N_None_iff in E. lia.
Qed.

Lemma byteZ_inj a b : byteZ a = byteZ b -> a = b.
Proof. intros H. by rewrite <- (byteOf_byteZ a), H, byteOf_byteZ. Qed.

(** ** encoding/binary *)
Fixpoint putLE (n : nat) (z : Z) : list byte :=
  match n with
  | O => []
  | S n => byteOf z :: putLE n (z / 256)
  end.
Fixpoint getLE (bs : list byte) : Z :=
  match bs with
  | [] => 0
  | b :: bs => byteZ b + 256 * getLE bs
  end.
Definition putBE (n : nat) (z : Z) : list byte := reverse (putLE n z).
Definition getBE (bs : list byte) : Z := getLE (reverse bs).

Lemma length_putLE n z : length (putLE n z) = n.
Proof. revert z. induction n; simpl; auto. Qed.
Lemma length_putBE n z : length (putBE n z) = n.
Proof. unfold putBE. by rewrite length_reverse, length_putLE. Qed.

Lemma getLE_putLE n z : getLE (putLE n z) = z mod 2 ^ (8 * Z.of_nat n).
Proof.
  revert z. induction n as [|n IH]; intros z.
  - simpl. by rewrite Z.mod_1_r.
  - cbn [putLE getLE]. rewrite byteZ_byteOf, IH.
    replace (8 * Z.of_nat (S n)) with (8 + 8 * Z.of_nat n) by lia.
    rewrite pow2_add by lia. change (2 ^ 8) with 256.
    rewrite Z.rem_mul_r; [lia|lia|]. apply pow2_gt0. lia.
Qed.

Lemma getLE_range bs : 0 <= getLE bs < 2 ^ (8 * Z.of_nat (length bs)).
Proof.
  induction bs as [|b bs IH]; [simpl; lia|].
  cbn [getLE length]. pose proof (byteZ_range b).
  replace (8 * Z.of_nat (S (length bs))) with (8 + 8 * Z.of_nat (length bs)) by lia.
  rewrite pow2_add by lia. change (2 ^ 8) with 256. lia.
Qed.

Lemma putLE_getLE bs : putLE (length bs) (getLE bs) = bs.
Proof.
  induction bs as [|b bs IH]; [done|]. cbn [getLE length putLE].
  pose proof (byteZ_range b). f_equal.
  - apply byteZ_inj. rewrite byteZ_byteOf, Z.mul_comm, Z_mod_plus_full.
    by apply Z.mod_small.
  - rewrite Z.mul_comm, Z.div_add, Z.div_small by lia. exact IH.
Qed.

Lemma getBE_putBE n z : getBE (putBE n z) = z mod 2 ^ (8 * Z.of_nat n).
Proof. unfold getBE, putBE. by rewrite reverse_involutive, getLE_putLE. Qed.
Lemma getBE_range bs : 0 <= getBE bs < 2 ^ (8 * Z.of_nat (length bs)).
Proof. unfold getBE. rewrite <- length_reverse. apply getLE_range. Qed.
Lemma putBE_getBE bs : putBE (length bs) (getBE bs) = bs.
Proof.
  unfold putBE, getBE. rewrite <- length_reverse, putLE_getLE.
  apply reverse_involutive.
Qed.

(** A byte-order is a pair of inverse functions; both of Go's are used. *)
Inductive endian := BE | LE.
Definition put (e : endian) := match e with BE => putBE | LE => putLE end.
Definition get (e : endian) := match e with BE => getBE | LE => getLE end.

Lemma length_put e n z : length (put e n z) = n.
Proof. destruct e; [apply length_putBE|apply length_putLE]. Qed.
Lemma get_put e n z : get e (put e n z) = z mod 2 ^ (8 * Z.of_nat n).
Proof. destruct e; [apply getBE_putBE|apply getLE_putLE]. Qed.
Lemma put_get e bs : put e (length bs) (get e bs) = bs.
Proof. destruct e; [apply putBE_getBE|apply putLE_getLE]. Qed.
Lemma get_range e bs : 0 <= get e bs < 2 ^ (8 * Z.of_nat (length bs)).
Proof. destruct e; [apply getBE_range|apply getLE_range]. Qed.

(** A [w]-bit value survives the wire; [w] is a whole number of bytes. *)
Lemma get_put_id e n z : inU (8 * Z.of_nat n) z -> get e (put e n z) = z.
Proof. intros H. rewrite get_put. by apply wrapU_id. Qed.

Definition zlen {A} (l : list A) : Z := Z.of_nat (length l).
Lemma zlen_nonneg {A} (l : list A) : 0 <= zlen l.
Proof. unfold zlen. lia. Qed.
Lemma zlen_app {A} (l k : list A) : zlen (l ++ k) = zlen l + zlen k.
Proof. unfold zlen. rewrite length_app. lia. Qed.
#[export] Hint Resolve zlen_nonneg : gorti.
