(* ===== verification/GoFloat.v ===== *)
(** * IEEE 754 numbers as Go's [float64] and [float32]

    A float is its bit pattern.  The exact value of every finite binary64 or
    binary32 number is an integer multiple of [2^-1074], so values are integers
    in that unit and an arithmetic result is the exact integer result rounded
    once, to nearest with ties to even ([round_mag]).  [NaN] results are one
    quiet pattern: no modelled code looks at the payload of a computed [NaN].

    [GoArch] collects what the Go specification leaves to the implementation. *)
From S2P Require Import Prelude GoBytes.
Open Scope Z_scope.

(** ** A binary interchange format *)
Record fmt := Fmt {
  prec : Z;   (** significand bits, the hidden one included *)
  ewid : Z;   (** exponent bits *)
  unit : Z;   (** the least subnormal is [2^unit] units of [2^-1074] *)
}.
Definition b64 : fmt := Fmt 53 11 0.
Definition b32 : fmt := Fmt 24 8 925.

Definition fracs (f : fmt) : Z := 2 ^ (prec f - 1).
Definition signw (f : fmt) : Z := 2 ^ (prec f - 1 + ewid f).
Definition inf_mag (f : fmt) : Z := (2 ^ ewid f - 1) * fracs f.
Definition mag (f : fmt) (b : Z) : Z := b mod signw f.
Definition sign (f : fmt) (b : Z) : bool := signw f <=? b.
Definition mk (f : fmt) (s : bool) (m : Z) : Z := if s then signw f + m else m.

(** The value of a magnitude, in units of [2^-1074]. *)
Definition mag_val (f : fmt) (m : Z) : Z :=
  let e := m / fracs f in
  let fr := m mod fracs f in
  2 ^ unit f * (if e =? 0 then fr else (fr + fracs f) * 2 ^ (e - 1)).

(** [n / 2^e] rounded to nearest, ties to even. *)
Definition rne (n e : Z) : Z :=
  if e <=? 0 then n else (n + 2 ^ (e - 1) - 1 + (n / 2 ^ e) mod 2) / 2 ^ e.

(** The magnitude nearest to [n] units; [inf_mag] on overflow. *)
Definition round_mag (f : fmt) (n : Z) : Z :=
  let e := Z.max (unit f) (Z.log2 n - (prec f - 1)) in
  Z.min (inf_mag f) ((e - unit f) * fracs f + rne n e).

Definition fmt_wf (f : fmt) : Prop := 2 <= prec f /\ 1 <= ewid f /\ 0 <= unit f.
Lemma b64_wf : fmt_wf b64. Proof. repeat split; simpl; lia. Qed.
Lemma b32_wf : fmt_wf b32. Proof. repeat split; simpl; lia. Qed.
#[export] Hint Resolve b64_wf b32_wf : gorti.

(** ** Rounding *)
Section Rne.
Context (e : Z) (He : 0 <= e).

Lemma rne_exact q : rne (q * 2 ^ e) e = q.
Proof.
  unfold rne. zbool.
  - replace e with 0 by lia. rewrite Z.pow_0_r. lia.
  - rewrite Z.div_mul by (pose proof (pow2_gt0 e); lia).
    replace (q * 2 ^ e + 2 ^ (e - 1) - 1 + q mod 2)
      with ((2 ^ (e - 1) - 1 + q mod 2) + q * 2 ^ e) by lia.
    rewrite Z_div_plus_full by (pose proof (pow2_gt0 e); lia).
    rewrite Z.div_small; [lia|].
    pose proof (pow2_half e ltac:(lia)). pose proof (pow2_gt0 (e - 1)).
    pose proof (Z.mod_pos_bound q 2). lia.
Qed.

(** Rounding moves the quotient by less than one. *)
Lemma rne_bounds n : n / 2 ^ e <= rne n e <= n / 2 ^ e + 1.
Proof.
  unfold rne. zbool.
  - replace e with 0 by lia. rewrite Z.pow_0_r, Z.div_1_r. lia.
  - pose proof (pow2_gt0 e ltac:(lia)). pose proof (pow2_half e ltac:(lia)).
    pose proof (pow2_gt0 (e - 1) ltac:(lia)).
    pose proof (Z.mod_pos_bound (n / 2 ^ e) 2 ltac:(lia)). split.
    + apply Z.div_le_mono; lia.
    + replace (n / 2 ^ e + 1) with ((n + 1 * 2 ^ e) / 2 ^ e)
        by (rewrite Z_div_plus_full; lia).
      apply Z.div_le_mono; lia.
Qed.

Lemma rne_mono n n' : n <= n' -> rne n e <= rne n' e.
Proof.
  intros Hn. unfold rne. zbool; [lia|].
  pose proof (pow2_gt0 e ltac:(lia)).
  pose proof (Z.div_le_mono n n' (2 ^ e) ltac:(lia) Hn) as Hq.
  destruct (Z.eq_dec (n / 2 ^ e) (n' / 2 ^ e)) as [E|E].
  - rewrite E. apply Z.div_le_mono; lia.
  - pose proof (rne_bounds n) as [_ H1]. pose proof (rne_bounds n') as [H2 _].
    unfold rne in H1, H2. revert H1 H2. zbool; [lia|]. lia.
Qed.
End Rne.

(** ** Magnitudes and their values *)
Section Format.
Context (f : fmt) (Hf : fmt_wf f).

Lemma fracs_pos : 0 < fracs f.
Proof. apply pow2_gt0. destruct Hf. lia. Qed.
Lemma inf_mag_pos : 0 <= inf_mag f.
Proof.
  unfold inf_mag. pose proof fracs_pos. destruct Hf as (_ & ? & _).
  pose proof (pow2_gt0 (ewid f)). nia.
Qed.
Lemma inf_mag_lt_signw : inf_mag f < signw f.
Proof.
  unfold inf_mag, signw. destruct Hf as (? & ? & ?). rewrite pow2_add by lia.
  pose proof fracs_pos. unfold fracs in *. lia.
Qed.

(** A magnitude is an exponent field and a fraction. *)
Lemma mag_split m :
  0 <= m -> exists e fr, m = e * fracs f + fr /\ 0 <= fr < fracs f /\ 0 <= e /\
    mag_val f m = 2 ^ unit f * (if e =? 0 then fr else (fr + fracs f) * 2 ^ (e - 1)).
Proof.
  intros Hm. pose proof fracs_pos. exists (m / fracs f), (m mod fracs f).
  split; [rewrite (Z.div_mod m (fracs f)) at 1 by lia; lia|].
  split; [apply Z.mod_pos_bound; lia|].
  split; [apply Z.div_pos; lia|done].
Qed.

Lemma mag_val_nonneg m : 0 <= m -> 0 <= mag_val f m.
Proof.
  intros Hm. destruct (mag_split m Hm) as (e & fr & _ & Hfr & He & ->).
  destruct Hf as (_ & _ & Hu). pose proof (pow2_gt0 _ Hu).
  pose proof fracs_pos. zbool; [nia|]. pose proof (pow2_gt0 (e - 1)). nia.
Qed.

(** The order of bit patterns is the order of values. *)
Lemma mag_val_lt m m' : 0 <= m < m' -> mag_val f m < mag_val f m'.
Proof.
  intros [Hm Hlt]. pose proof fracs_pos as HM.
  destruct (mag_split m Hm) as (e & fr & -> & Hfr & He & ->).
  destruct (mag_split m' ltac:(lia)) as (e' & fr' & -> & Hfr' & He' & ->).
  destruct Hf as (_ & _ & Hu). apply Z.mul_lt_mono_pos_l; [by apply pow2_gt0|].
  assert (e < e' \/ e = e' /\ fr < fr') as [Hee|[-> Hff]] by nia.
  - assert (Hb : (if e =? 0 then fr else (fr + fracs f) * 2 ^ (e - 1)) < fracs f * 2 ^ e).
    { zbool.
      - subst. simpl. lia.
      - pose proof (pow2_S (e - 1)). replace (e - 1 + 1) with e in * by lia.
        pose proof (pow2_gt0 (e - 1)). nia. }
    pose proof (pow2_le e (e' - 1)). pose proof (pow2_gt0 (e' - 1)).
    destruct (Z.eqb_spec e' 0); [lia|]. nia.
  - zbool; [lia|]. pose proof (pow2_gt0 (e' - 1)). nia.
Qed.

Lemma mag_val_le m m' : 0 <= m <= m' -> mag_val f m <= mag_val f m'.
Proof.
  intros [H1 H2]. destruct (Z.eq_dec m m') as [->|]; [lia|].
  apply Z.lt_le_incl, mag_val_lt. lia.
Qed.

Lemma mag_val_inj m m' : 0 <= m -> 0 <= m' -> mag_val f m = mag_val f m' -> m = m'.
Proof.
  intros H H' E. destruct (Z.lt_trichotomy m m') as [L|[L|L]]; [|done|].
  - pose proof (mag_val_lt m m'). lia.
  - pose proof (mag_val_lt m' m). lia.
Qed.

Definition exp_of (n : Z) : Z := Z.max (unit f) (Z.log2 n - (prec f - 1)).

Lemma exp_of_unit n : n < 2 ^ (unit f + prec f) -> exp_of n = unit f.
Proof.
  intros Hn. unfold exp_of. destruct (Z_le_gt_dec n 0).
  - rewrite Z.log2_nonpos by lia. destruct Hf; lia.
  - apply Z.log2_lt_pow2 in Hn; lia.
Qed.

Lemma exp_of_above k n :
  unit f <= k -> 2 ^ (k + prec f - 1) <= n < 2 ^ (k + prec f) -> exp_of n = k.
Proof.
  intros Hk Hn. unfold exp_of.
  destruct Hf as (? & ? & ?). pose proof (pow2_gt0 (k + prec f - 1)).
  rewrite (Z.log2_unique n (k + prec f - 1)); [lia|lia|].
  replace (Z.succ (k + prec f - 1)) with (k + prec f) by lia. lia.
Qed.

(** The quotient that is rounded fits the significand. *)
Lemma exp_of_quot n :
  0 <= n -> n / 2 ^ exp_of n < 2 * fracs f /\ (unit f < exp_of n -> fracs f <= n / 2 ^ exp_of n).
Proof.
  intros Hn. destruct Hf as (Hp & _ & Hu).
  assert (He : 0 <= exp_of n) by (unfold exp_of; lia).
  pose proof (pow2_gt0 _ He) as Hpe. unfold fracs. split.
  - apply Z.div_lt_upper_bound; [done|].
    rewrite <- (pow2_S (prec f - 1)), <- pow2_add by lia.
    destruct (Z_le_gt_dec n 0); [assert (n = 0) as -> by lia; apply pow2_gt0; lia|].
    destruct (Z.log2_spec n) as [_ H2]; [lia|]. eapply Z.lt_le_trans; [exact H2|].
    pose proof (Z.log2_nonneg n). apply pow2_le. unfold exp_of. lia.
  - intros Hgt. assert (E : exp_of n = Z.log2 n - (prec f - 1)) by (unfold exp_of in *; lia).
    apply Z.div_le_lower_bound; [done|]. rewrite <- pow2_add by lia.
    assert (0 < n).
    { destruct (Z_le_gt_dec n 0); [|lia]. rewrite Z.log2_nonpos in E by lia. lia. }
    destruct (Z.log2_spec n) as [H1 _]; [done|].
    replace (exp_of n + (prec f - 1)) with (Z.log2 n) by lia. done.
Qed.

Lemma exp_of_mono n n' : n <= n' -> exp_of n <= exp_of n'.
Proof. intros H. unfold exp_of. pose proof (Z.log2_le_mono n n' H). lia. Qed.

Lemma exp_of_nonneg n : 0 <= exp_of n.
Proof. unfold exp_of. destruct Hf as (_ & _ & ?). lia. Qed.

(** Rounding is monotone ... *)
Lemma round_mag_mono n n' : 0 <= n <= n' -> round_mag f n <= round_mag f n'.
Proof.
  intros [Hn Hle]. unfold round_mag. fold (exp_of n) (exp_of n').
  pose proof (exp_of_mono n n' Hle) as Hem. pose proof fracs_pos as HM.
  apply Z.min_le_compat_l. destruct (Z.eq_dec (exp_of n) (exp_of n')) as [E|E].
  - rewrite E. pose proof (rne_mono (exp_of n') (exp_of_nonneg n') n n' Hle). lia.
  - destruct (exp_of_quot n Hn) as [Hq _].
    destruct (exp_of_quot n') as [_ Hq']; [lia|].
    assert (unit f <= exp_of n) by (unfold exp_of; lia).
    specialize (Hq' ltac:(lia)).
    pose proof (rne_bounds (exp_of n) (exp_of_nonneg n) n).
    pose proof (rne_bounds (exp_of n') (exp_of_nonneg n') n'). nia.
Qed.

(** ... and the identity on representable values. *)
Lemma round_mag_val m : 0 <= m <= inf_mag f -> round_mag f (mag_val f m) = m.
Proof.
  intros [H0 Hi]. destruct (mag_split m H0) as (e & fr & Em & Hfr & He & ->).
  destruct Hf as (Hp & _ & Hu). pose proof fracs_pos as HM.
  unfold round_mag. rewrite (Z.mul_comm (2 ^ unit f)).
  set (n := (if e =? 0 then fr else (fr + fracs f) * 2 ^ (e - 1)) * 2 ^ unit f). fold (exp_of n).
  enough (exp_of n = unit f + Z.max 0 (e - 1) /\
          (exp_of n - unit f) * fracs f + rne n (exp_of n) = m) by lia.
  pose proof (pow2_gt0 _ Hu). assert (HM2 : fracs f * 2 = 2 ^ prec f).
  { unfold fracs. pose proof (pow2_S (prec f - 1)).
    replace (prec f - 1 + 1) with (prec f) in * by lia. lia. }
  subst n. destruct (Z.eqb_spec e 0) as [->|Hne].
  - rewrite exp_of_unit.
    + rewrite rne_exact by done. split; lia.
    + rewrite pow2_add by lia. nia.
  - rewrite <- Z.mul_assoc, <- pow2_add by lia.
    assert (Hx : exp_of ((fr + fracs f) * 2 ^ (e - 1 + unit f)) = e - 1 + unit f).
    { apply exp_of_above; [lia|].
      replace (e - 1 + unit f + prec f - 1) with ((e - 1 + unit f) + (prec f - 1)) by lia.
      rewrite !(pow2_add (e - 1 + unit f)) by lia. fold (fracs f).
      pose proof (pow2_gt0 (e - 1 + unit f)). nia. }
    rewrite Hx, rne_exact by lia. split; nia.
Qed.

Lemma round_mag_range n : 0 <= n -> 0 <= round_mag f n <= inf_mag f.
Proof.
  intros Hn. unfold round_mag. fold (exp_of n). pose proof inf_mag_pos.
  pose proof (rne_bounds (exp_of n) (exp_of_nonneg n) n).
  pose proof (Z.div_pos n (2 ^ exp_of n) Hn (pow2_gt0 _ (exp_of_nonneg n))).
  pose proof fracs_pos. assert (unit f <= exp_of n) by (unfold exp_of; lia). nia.
Qed.

(** A representable lower or upper bound survives rounding. *)
Lemma round_mag_ge m n : 0 <= m <= inf_mag f -> mag_val f m <= n -> m <= round_mag f n.
Proof.
  intros Hm Hn. rewrite <- (round_mag_val m Hm). apply round_mag_mono.
  pose proof (mag_val_nonneg m). lia.
Qed.
Lemma round_mag_le m n : 0 <= m <= inf_mag f -> 0 <= n <= mag_val f m -> round_mag f n <= m.
Proof. intros Hm Hn. rewrite <- (round_mag_val m Hm). by apply round_mag_mono. Qed.
End Format.

(** ** [float64] and [float32] *)
Record f64 := F64 { f64_bits : Z }.
Record f32 := F32 { f32_bits : Z }.
Definition f64_wf (x : f64) : Prop := inU 64 (f64_bits x).
Definition f32_wf (x : f32) : Prop := inU 32 (f32_bits x).
#[export] Instance f64_eq_dec : EqDecision f64.
Proof. solve_decision. Defined.
#[export] Instance f32_eq_dec : EqDecision f32.
Proof. solve_decision. Defined.

(** [math.Float64bits], [math.Float64frombits] and the 32-bit pair. *)
Definition Float64bits (x : f64) : Z := f64_bits x.
Definition Float64frombits (b : Z) : f64 := F64 b.
Definition Float32bits (x : f32) : Z := f32_bits x.
Definition Float32frombits (b : Z) : f32 := F32 b.

Definition f64_mag (x : f64) : Z := mag b64 (f64_bits x).
Definition f64_sign (x : f64) : bool := sign b64 (f64_bits x).
Definition f64_mk (s : bool) (m : Z) : f64 := F64 (mk b64 s m).

Definition f64_isNaN (x : f64) : bool := inf_mag b64 <? f64_mag x.
Definition f64_isInf (x : f64) : bool := f64_mag x =? inf_mag b64.
Definition f64_nan : f64 := F64 0x7FF8000000000001.
Definition f64_inf (s : bool) : f64 := f64_mk s (inf_mag b64).
Definition f64_zero : f64 := F64 0.
Definition f64_maxFinite : f64 := F64 0x7FEFFFFFFFFFFFFF.   (** [math.MaxFloat64] *)
Definition f64_smallest : f64 := F64 1.   (** [math.SmallestNonzeroFloat64] *)

(** The signed value in units of [2^-1074]; for an infinity the first value
    out of range, which is what comparisons need. *)
Definition f64_val (x : f64) : Z :=
  if f64_sign x then - mag_val b64 (f64_mag x) else mag_val b64 (f64_mag x).

(** Comparisons are on values and false on [NaN]. *)
Definition f64_cmp2 (r : Z -> Z -> bool) (x y : f64) : bool :=
  negb (f64_isNaN x) && negb (f64_isNaN y) && r (f64_val x) (f64_val y).
Definition f64_ltb := f64_cmp2 Z.ltb.
Definition f64_leb := f64_cmp2 Z.leb.
Definition f64_eqb := f64_cmp2 Z.eqb.

Definition f64_neg (x : f64) : f64 := f64_mk (negb (f64_sign x)) (f64_mag x).

(** The float nearest to [n] units; [s] is the sign of a zero result. *)
Definition f64_round (s : bool) (n : Z) : f64 :=
  if n =? 0 then f64_mk s 0
  else f64_mk (n <? 0) (round_mag b64 (Z.abs n)).

Definition f64_add (x y : f64) : f64 :=
  if f64_isNaN x || f64_isNaN y then f64_nan
  else if f64_isInf x then
    if f64_isInf y && xorb (f64_sign x) (f64_sign y) then f64_nan else x
  else if f64_isInf y then y
  else f64_round (f64_sign x && f64_sign y) (f64_val x + f64_val y).
Definition f64_sub (x y : f64) : f64 := f64_add x (f64_neg y).

(** The predeclared [min] and [max]: [NaN] propagates and [-0 < +0]. *)
Definition f64_max (x y : f64) : f64 :=
  if f64_isNaN x || f64_isNaN y then f64_nan
  else if f64_ltb x y then y else if f64_ltb y x then x
  else if f64_sign x then y else x.
Definition f64_min (x y : f64) : f64 :=
  if f64_isNaN x || f64_isNaN y then f64_nan
  else if f64_ltb x y then x else if f64_ltb y x then y
  else if f64_sign x then x else y.

(** [math.Nextafter], branch by branch as the standard library has it. *)
Definition f64_Nextafter (x y : f64) : f64 :=
  if f64_isNaN x || f64_isNaN y then f64_nan
  else if f64_eqb x y then x
  else if f64_eqb x f64_zero then f64_mk (f64_sign y) 1
  else if Bool.eqb (f64_ltb x y) (f64_ltb f64_zero x)
  then Float64frombits (Float64bits x + 1)
  else Float64frombits (Float64bits x - 1).

(** ** Conversions *)
Definition one_unit : Z := 2 ^ 1074.
Definition f64_of_int (z : Z) : f64 := f64_round false (z * one_unit).
Definition f64_trunc (x : f64) : Z := Z.quot (f64_val x) one_unit.
(** [math.Trunc(x) == x] for a finite [x]. *)
Definition f64_integral (x : f64) : bool := f64_val x mod one_unit =? 0.

(** A [float32] that is a quiet [NaN]. *)
Definition f32_quiet (x : f32) : Prop :=
  f32_wf x /\ inf_mag b32 + 2 ^ 22 <= mag b32 (f32_bits x).

(** What the Go specification leaves open: a conversion of an out-of-range
    float to an integer, and the payload of a converted [NaN]. *)
Class GoArch := {
  f64_to_int64_oob : f64 -> Z;
  f64_to_int64_oob_range : forall x, inS 64 (f64_to_int64_oob x);
  narrow_nan : f64 -> f32;
  narrow_nan_spec : forall x, f32_quiet (narrow_nan x);
  widen_nan : f32 -> f64;
  widen_nan_spec : forall x, f64_wf (widen_nan x) /\ f64_isNaN (widen_nan x) = true;
  (** widening a quiet [NaN] loses nothing *)
  narrow_widen_nan : forall y, f32_quiet y -> narrow_nan (widen_nan y) = y;
}.

(** [int64(x)] (and [int(x)]: [int] has 64 bits). *)
Definition f64_to_int64 `{GoArch} (x : f64) : Z :=
  if f64_isNaN x || f64_isInf x then f64_to_int64_oob x
  else let t := f64_trunc x in
       if (minS 64 <=? t) && (t <=? maxS 64) then t else f64_to_int64_oob x.

(** [float32(x)] and [float64(x)]. *)
Definition f64_to_f32 `{GoArch} (x : f64) : f32 :=
  if f64_isNaN x then narrow_nan x
  else F32 (mk b32 (f64_sign x)
        (if f64_isInf x then inf_mag b32 else round_mag b32 (mag_val b64 (f64_mag x)))).
Definition f32_to_f64 `{GoArch} (x : f32) : f64 :=
  let m := mag b32 (f32_bits x) in
  if inf_mag b32 <? m then widen_nan x
  else f64_mk (sign b32 (f32_bits x))
        (if m =? inf_mag b32 then inf_mag b64 else round_mag b64 (mag_val b32 m)).

(** amd64: [CVTTSD2SI] yields [0x8000000000000000]; [CVTSD2SS]/[CVTSS2SD] keep
    the payload's leading bits and set the quiet bit. *)
Definition amd64_narrow (x : f64) : f32 :=
  F32 (mk b32 (f64_sign x) (inf_mag b32 + 2 ^ 22 + (f64_mag x mod 2 ^ 51) / 2 ^ 29)).
Definition amd64_widen (x : f32) : f64 :=
  f64_mk (sign b32 (f32_bits x))
    (inf_mag b64 + 2 ^ 51 + (mag b32 (f32_bits x) mod 2 ^ 22) * 2 ^ 29).

Section MkMag.
Context (f : fmt) (Hf : fmt_wf f).
Lemma signw_pos : 0 < signw f.
Proof. apply pow2_gt0. destruct Hf. lia. Qed.
Lemma mag_range b : 0 <= mag f b < signw f.
Proof. apply Z.mod_pos_bound, signw_pos. Qed.
Lemma mag_mk s m : 0 <= m < signw f -> mag f (mk f s m) = m.
Proof.
  intros Hm. unfold mag, mk. destruct s; [|by apply Z.mod_small].
  replace (signw f + m) with (m + 1 * signw f) by lia.
  rewrite Z_mod_plus_full. by apply Z.mod_small.
Qed.
Lemma sign_mk s m : 0 <= m < signw f -> sign f (mk f s m) = s.
Proof. intros Hm. unfold sign, mk. destruct s; zbool; try done; lia. Qed.
Lemma mk_sign_mag b : 0 <= b < 2 * signw f -> mk f (sign f b) (mag f b) = b.
Proof.
  intros Hb. unfold mk, sign, mag. zbool; [|apply Z.mod_small; lia].
  replace b with ((b - signw f) + 1 * signw f) at 1 by lia.
  rewrite Z_mod_plus_full, Z.mod_small; lia.
Qed.
Lemma mk_range s m : 0 <= m < signw f -> 0 <= mk f s m < 2 * signw f.
Proof. unfold mk. destruct s; lia. Qed.
End MkMag.

Lemma signw_b64 : 2 * signw b64 = 2 ^ 64. Proof. reflexivity. Qed.
Lemma signw_b32 : 2 * signw b32 = 2 ^ 32. Proof. reflexivity. Qed.

(** The quiet bit and the 22 leading payload bits survive both conversions. *)
Lemma amd_narrow_mk s p :
  0 <= p < 2 ^ 22 ->
  amd64_narrow (f64_mk s (inf_mag b64 + 2 ^ 51 + p * 2 ^ 29)) =
  F32 (mk b32 s (inf_mag b32 + 2 ^ 22 + p)).
Proof.
  intros Hp. unfold amd64_narrow, f64_sign, f64_mag, f64_mk. cbn [f64_bits].
  assert (H64 : 0 <= inf_mag b64 + 2 ^ 51 + p * 2 ^ 29 < signw b64).
  { change (inf_mag b64) with (2047 * 2 ^ 52). change (signw b64) with (2048 * 2 ^ 52). lia. }
  rewrite (mag_mk b64), (sign_mk b64) by done. do 2 f_equal.
  change (inf_mag b64 + 2 ^ 51) with (4095 * 2 ^ 51).
  rewrite Z.add_comm, (Z.add_comm (4095 * 2 ^ 51)), Z_mod_plus_full, Z.mod_small, Z.div_mul by lia. lia.
Qed.

Lemma amd_widen_mk s p :
  0 <= p < 2 ^ 22 ->
  amd64_widen (F32 (mk b32 s (inf_mag b32 + 2 ^ 22 + p))) =
  f64_mk s (inf_mag b64 + 2 ^ 51 + p * 2 ^ 29).
Proof.
  intros Hp. unfold amd64_widen. cbn [f32_bits].
  assert (H32 : 0 <= inf_mag b32 + 2 ^ 22 + p < signw b32).
  { change (inf_mag b32) with (255 * 2 ^ 23). change (signw b32) with (256 * 2 ^ 23). lia. }
  rewrite (mag_mk b32), (sign_mk b32) by done. do 3 f_equal.
  change (inf_mag b32 + 2 ^ 22) with (511 * 2 ^ 22).
  rewrite Z.add_comm, Z_mod_plus_full. by apply Z.mod_small.
Qed.

Lemma amd_pay_range m : 0 <= (m mod 2 ^ 51) / 2 ^ 29 < 2 ^ 22.
Proof.
  pose proof (Z.mod_pos_bound m (2 ^ 51) ltac:(lia)). split.
  - apply Z.div_pos; lia.
  - apply Z.div_lt_upper_bound; lia.
Qed.

#[export] Program Instance amd64 : GoArch := {
  f64_to_int64_oob := fun _ => minS 64;
  narrow_nan := amd64_narrow;
  widen_nan := amd64_widen;
}.
Next Obligation. intros x. split; vm_compute; congruence. Qed.
Next Obligation.
  intros x. unfold amd64_narrow, f32_quiet, f32_wf, inU, maxU. rewrite <- signw_b32. cbn [f32_bits].
  set (m := _ + _ + _).
  assert (Hm : inf_mag b32 + 2 ^ 22 <= m < signw b32).
  { subst m. change (inf_mag b32) with (255 * 2 ^ 23). change (signw b32) with (256 * 2 ^ 23).
    pose proof (amd_pay_range (f64_mag x)).
    lia. }
  pose proof (inf_mag_pos b32 b32_wf). pose proof (mk_range b32 (f64_sign x) m).
  rewrite mag_mk; lia.
Qed.
Next Obligation.
  intros x. unfold amd64_widen, f64_wf, inU, maxU, f64_isNaN, f64_mag, f64_mk.
  rewrite <- signw_b64. cbn [f64_bits]. set (m := _ + _ + _).
  assert (Hm : inf_mag b64 < m < signw b64).
  { subst m. change (inf_mag b64) with (2047 * 2 ^ 52). change (signw b64) with (2048 * 2 ^ 52).
    pose proof (Z.mod_pos_bound (mag b32 (f32_bits x)) (2 ^ 22) ltac:(lia)). lia. }
  pose proof (inf_mag_pos b64 b64_wf). pose proof (mk_range b64 (sign b32 (f32_bits x)) m).
  rewrite mag_mk by lia. split; [lia|]. zbool; [done|lia].
Qed.
Next Obligation.
  intros [b] [Hwf Hq]. unfold f32_wf, inU, maxU in Hwf. rewrite <- signw_b32 in Hwf.
  cbn [f32_bits] in *. pose proof (mag_range b32 b32_wf b) as Hm.
  rewrite <- (mk_sign_mag b32 b) by lia.
  replace (mag b32 b) with (inf_mag b32 + 2 ^ 22 + (mag b32 b - inf_mag b32 - 2 ^ 22)) by lia.
  rewrite amd_widen_mk, amd_narrow_mk; [done| |].
  all: change (inf_mag b32) with (255 * 2 ^ 23) in *; change (signw b32) with (256 * 2 ^ 23) in *; lia.
Qed.

(** *** Widening is exact *)
Section Exact.
Context (f : fmt) (Hf : fmt_wf f).

Lemma mag_val_of_sig e q :
  unit f <= e -> 0 <= q < 2 * fracs f -> (e = unit f \/ fracs f <= q) ->
  mag_val f ((e - unit f) * fracs f + q) = q * 2 ^ e.
Proof.
  intros He Hq Hn. pose proof (fracs_pos f Hf) as HM. destruct Hf as (_ & _ & Hu).
  unfold mag_val. destruct (Z_lt_le_dec q (fracs f)) as [Hs|Hs].
  - assert (e = unit f) as -> by lia. rewrite Z.sub_diag, Z.mul_0_l, Z.add_0_l.
    rewrite Z.div_small, Z.mod_small by lia. simpl. lia.
  - replace ((e - unit f) * fracs f + q)
      with ((q - fracs f) + (e - unit f + 1) * fracs f) by lia.
    rewrite Z_div_plus_full, Z_mod_plus_full by lia.
    rewrite Z.div_small, Z.mod_small by lia. destruct (Z.eqb_spec (0 + (e - unit f + 1)) 0); [lia|].
    replace (0 + (e - unit f + 1) - 1) with (e - unit f) by lia.
    replace e with (unit f + (e - unit f)) at 2 by lia. rewrite pow2_add by lia. lia.
Qed.
End Exact.

Lemma widen_mag m : 0 <= m < inf_mag b32 ->
  exists m', 0 <= m' < inf_mag b64 /\ mag_val b64 m' = mag_val b32 m.
Proof.
  intros Hm.
  assert (Hs : exists s k, mag_val b32 m = s * 2 ^ k /\ 0 <= s < 2 ^ 24 /\ 925 <= k <= 925 + 253).
  { destruct (mag_split b32 b32_wf m) as (e & fr & E & Hfr & He & ->); [lia|].
    change (fracs b32) with (2 ^ 23) in *. change (inf_mag b32) with (255 * 2 ^ 23) in *.
    change (unit b32) with 925. destruct (Z.eqb_spec e 0).
    - exists fr, 925. lia.
    - exists (fr + 2 ^ 23), (925 + (e - 1)). rewrite (pow2_add 925) by lia. lia. }
  destruct Hs as (s & k & -> & Hs & Hk).
  destruct (Z.eq_dec s 0) as [->|Hs0]; [exists 0; split; [split; vm_compute; congruence|done]|].
  set (j := Z.log2 s). destruct (Z.log2_spec s) as [J1 J2]; [lia|]. fold j in J1, J2.
  assert (Hj : 0 <= j <= 23).
  { split; [apply Z.log2_nonneg|]. assert (j < 24); [|lia]. apply Z.log2_lt_pow2; lia. }
  replace (Z.succ j) with (j + 1) in J2 by lia.
  pose proof (pow2_S j). pose proof (pow2_gt0 (52 - j)) as Hp.
  assert (P52 : 2 ^ j * 2 ^ (52 - j) = 2 ^ 52) by (rewrite <- pow2_add by lia; f_equal; lia).
  assert (Hq : 2 ^ 52 <= s * 2 ^ (52 - j) < 2 * 2 ^ 52) by nia.
  exists ((k - (52 - j)) * fracs b64 + s * 2 ^ (52 - j)).
  pose proof (mag_val_of_sig b64 b64_wf (k - (52 - j)) (s * 2 ^ (52 - j))) as E.
  change (unit b64) with 0 in E. rewrite Z.sub_0_r in E.
  change (fracs b64) with (2 ^ 52) in *. change (inf_mag b64) with (2047 * 2 ^ 52).
  split; [lia|]. rewrite E by lia. rewrite <- Z.mul_assoc, <- pow2_add by lia. do 2 f_equal. lia.
Qed.

(** Narrowing undoes widening: exactly on numbers, and on a quiet [NaN]. *)
Lemma narrow_widen `{GoArch} (x : f32) :
  f32_wf x -> mag b32 (f32_bits x) <= inf_mag b32 \/ f32_quiet x ->
  f64_to_f32 (f32_to_f64 x) = x.
Proof.
  destruct x as [b]. intros Hwf Hx. unfold f32_to_f64.
  unfold f32_wf, inU, maxU in Hwf. rewrite <- signw_b32 in Hwf. cbn [f32_bits] in *.
  destruct (Z.ltb_spec (inf_mag b32) (mag b32 b)) as [Hn|Hn].
  - unfold f64_to_f32. rewrite (proj2 (widen_nan_spec _)). apply narrow_widen_nan.
    destruct Hx; [lia|done].
  - pose proof (mag_range b32 b32_wf b). pose proof (inf_mag_lt_signw b64 b64_wf).
    pose proof (inf_mag_pos b64 b64_wf).
    unfold f64_to_f32, f64_isNaN, f64_isInf, f64_sign, f64_mag, f64_mk. cbn [f64_bits].
    destruct (Z.eqb_spec (mag b32 b) (inf_mag b32)) as [E|E].
    + rewrite (mag_mk b64), (sign_mk b64) by lia. rewrite Z.ltb_irrefl, Z.eqb_refl, <- E.
      f_equal. apply mk_sign_mag. lia.
    + destruct (widen_mag (mag b32 b)) as (m' & Hm' & Ev); [lia|]. rewrite <- Ev.
      rewrite round_mag_val by (auto with gorti || lia).
      rewrite (mag_mk b64), (sign_mk b64) by lia.
      destruct (Z.ltb_spec (inf_mag b64) m'); [lia|]. destruct (Z.eqb_spec m' (inf_mag b64)); [lia|].
      rewrite Ev, round_mag_val by (auto with gorti || lia). f_equal. apply mk_sign_mag. lia.
Qed.

Lemma f64_to_f32_ok `{GoArch} (x : f64) :
  f32_wf (f64_to_f32 x) /\
  (mag b32 (f32_bits (f64_to_f32 x)) <= inf_mag b32 \/ f32_quiet (f64_to_f32 x)).
Proof.
  unfold f64_to_f32. destruct (f64_isNaN x).
  - pose proof (narrow_nan_spec x) as Hq. split; [apply Hq|by right].
  - set (m := if f64_isInf x then _ else _).
    assert (Hm : 0 <= m <= inf_mag b32).
    { subst m. destruct (f64_isInf x); [pose proof (inf_mag_pos b32 b32_wf); lia|].
      apply round_mag_range; auto with gorti. apply mag_val_nonneg; auto with gorti.
      apply mag_range; auto with gorti. }
    pose proof (inf_mag_lt_signw b32 b32_wf). split.
    + unfold f32_wf, inU, maxU. rewrite <- signw_b32. cbn [f32_bits].
      pose proof (mk_range b32 (f64_sign x) m). lia.
    + left. cbn [f32_bits]. rewrite mag_mk by lia. lia.
Qed.

(** ** Nonnegative numbers

    Logical times are nonnegative; on these the bit pattern is the magnitude
    and every comparison is a comparison of bit patterns. *)
Definition f64_pos (x : f64) : Prop := 0 <= f64_bits x <= inf_mag b64.
Definition f64_fin (x : f64) : Prop := 0 <= f64_bits x < inf_mag b64.

Lemma f64_fin_pos x : f64_fin x -> f64_pos x.
Proof. unfold f64_fin, f64_pos. lia. Qed.
#[export] Hint Resolve f64_fin_pos : gorti.

Lemma signw_b64_big : inf_mag b64 < signw b64.
Proof. reflexivity. Qed.

Section Pos.
Context (x : f64) (Hx : f64_pos x).
Lemma pos_mag : f64_mag x = f64_bits x.
Proof. unfold f64_pos, f64_mag, mag in *. pose proof signw_b64_big. apply Z.mod_small. lia. Qed.
Lemma pos_sign : f64_sign x = false.
Proof. unfold f64_pos, f64_sign, sign in *. pose proof signw_b64_big. zbool; [lia|done]. Qed.
Lemma pos_not_nan : f64_isNaN x = false.
Proof. unfold f64_isNaN. rewrite pos_mag. unfold f64_pos in Hx. zbool; [lia|done]. Qed.
Lemma pos_val : f64_val x = mag_val b64 (f64_bits x).
Proof. unfold f64_val. by rewrite pos_sign, pos_mag. Qed.
Lemma pos_isInf : f64_isInf x = (f64_bits x =? inf_mag b64).
Proof. unfold f64_isInf. by rewrite pos_mag. Qed.
Lemma pos_val_nonneg : 0 <= f64_val x.
Proof. rewrite pos_val. apply mag_val_nonneg; [exact b64_wf|]. unfold f64_pos in Hx. lia. Qed.
End Pos.

Lemma fin_not_inf x : f64_fin x -> f64_isInf x = false.
Proof. intros H. rewrite pos_isInf by auto with gorti. unfold f64_fin in H. zbool; [lia|done]. Qed.

Lemma pos_val_lt x y : f64_pos x -> f64_pos y -> f64_val x < f64_val y <-> f64_bits x < f64_bits y.
Proof.
  intros Hx Hy. rewrite !pos_val by done. unfold f64_pos in *. split; intros H.
  - destruct (Z_lt_le_dec (f64_bits x) (f64_bits y)) as [|Hle]; [done|].
    pose proof (mag_val_le b64 b64_wf (f64_bits y) (f64_bits x)). lia.
  - apply mag_val_lt; [exact b64_wf|lia].
Qed.

Lemma pos_ltb x y : f64_pos x -> f64_pos y -> f64_ltb x y = (f64_bits x <? f64_bits y).
Proof.
  intros Hx Hy. unfold f64_ltb, f64_cmp2. rewrite !pos_not_nan by done. cbn [negb andb].
  pose proof (pos_val_lt x y Hx Hy). zbool; try done; lia.
Qed.
Lemma pos_leb x y : f64_pos x -> f64_pos y -> f64_leb x y = (f64_bits x <=? f64_bits y).
Proof.
  intros Hx Hy. unfold f64_leb, f64_cmp2. rewrite !pos_not_nan by done. cbn [negb andb].
  pose proof (pos_val_lt y x Hy Hx). zbool; try done; lia.
Qed.
Lemma pos_eqb x y : f64_pos x -> f64_pos y -> f64_eqb x y = (f64_bits x =? f64_bits y).
Proof.
  intros Hx Hy. unfold f64_eqb, f64_cmp2. rewrite !pos_not_nan by done. cbn [negb andb].
  pose proof (pos_val_lt x y Hx Hy). pose proof (pos_val_lt y x Hy Hx). zbool; try done; lia.
Qed.

Lemma f64_ext x y : f64_bits x = f64_bits y -> x = y.
Proof. destruct x, y. simpl. by intros ->. Qed.

Lemma f64_round_nonneg n :
  0 <= n -> f64_round false n = F64 (round_mag b64 n) .
Proof.
  intros Hn. unfold f64_round, f64_mk, mk. zbool; try lia; [subst; done|].
  by rewrite Z.abs_eq by lia.
Qed.

Lemma f64_round_pos n : 0 <= n -> f64_pos (f64_round false n).
Proof.
  intros Hn. rewrite f64_round_nonneg by done. unfold f64_pos. cbn [f64_bits].
  apply round_mag_range; [exact b64_wf|done].
Qed.

(** Addition of nonnegative finite numbers rounds the exact sum. *)
Lemma fin_add x y : f64_fin x -> f64_fin y ->
  f64_add x y = F64 (round_mag b64 (f64_val x + f64_val y)).
Proof.
  intros Hx Hy. unfold f64_add.
  rewrite !pos_not_nan, !fin_not_inf, !pos_sign by auto with gorti. cbn [orb andb].
  apply f64_round_nonneg. pose proof (pos_val_nonneg x (f64_fin_pos _ Hx)).
  pose proof (pos_val_nonneg y (f64_fin_pos _ Hy)). lia.
Qed.

Lemma fin_add_pos x y : f64_fin x -> f64_fin y -> f64_pos (f64_add x y).
Proof.
  intros Hx Hy. rewrite fin_add by done. unfold f64_pos. cbn [f64_bits].
  apply round_mag_range; [exact b64_wf|].
  pose proof (pos_val_nonneg x (f64_fin_pos _ Hx)). pose proof (pos_val_nonneg y (f64_fin_pos _ Hy)). lia.
Qed.

(** The rounded sum is never below an operand ... *)
Lemma fin_add_ge x y : f64_fin x -> f64_fin y -> f64_bits x <= f64_bits (f64_add x y).
Proof.
  intros Hx Hy. rewrite fin_add by done. cbn [f64_bits].
  pose proof (pos_val_nonneg y (f64_fin_pos _ Hy)).
  apply round_mag_ge; [exact b64_wf|unfold f64_fin in *; lia|].
  rewrite <- pos_val by auto with gorti. lia.
Qed.

Lemma f64_add_comm_fin x y : f64_fin x -> f64_fin y -> f64_add x y = f64_add y x.
Proof. intros. rewrite !fin_add by done. by rewrite Z.add_comm. Qed.

(** ... and is monotone in both. *)
Lemma fin_add_mono x x' y y' : f64_fin x -> f64_fin x' -> f64_fin y -> f64_fin y' ->
  f64_bits x <= f64_bits x' -> f64_bits y <= f64_bits y' ->
  f64_bits (f64_add x y) <= f64_bits (f64_add x' y').
Proof.
  intros Hx Hx' Hy Hy' Hxx Hyy. rewrite !fin_add by done. cbn [f64_bits].
  apply round_mag_mono; [exact b64_wf|].
  rewrite !pos_val by auto with gorti. unfold f64_fin in *.
  pose proof (mag_val_le b64 b64_wf (f64_bits x) (f64_bits x')).
  pose proof (mag_val_le b64 b64_wf (f64_bits y) (f64_bits y')).
  pose proof (mag_val_nonneg b64 b64_wf (f64_bits x)). pose proof (mag_val_nonneg b64 b64_wf (f64_bits y)). lia.
Qed.

(** Subtraction rounds the exact difference, whatever its sign. *)
Lemma fin_sub_general x y : f64_fin x -> f64_fin y ->
  f64_sub x y = f64_round false (f64_val x - f64_val y).
Proof.
  intros Hx Hy. unfold f64_sub, f64_add, f64_neg.
  assert (Hm : 0 <= f64_mag y < signw b64) by apply mag_range, b64_wf.
  assert (Hn : f64_mag (f64_mk (negb (f64_sign y)) (f64_mag y)) = f64_mag y).
  { unfold f64_mk, f64_mag at 1. cbn [f64_bits]. by apply mag_mk. }
  assert (Hs : f64_sign (f64_mk (negb (f64_sign y)) (f64_mag y)) = true).
  { unfold f64_mk, f64_sign at 1. cbn [f64_bits]. rewrite sign_mk by done.
    by rewrite pos_sign by auto with gorti. }
  unfold f64_isNaN, f64_isInf, f64_val. rewrite Hn, Hs.
  pose proof (pos_not_nan y (f64_fin_pos _ Hy)) as E1. pose proof (fin_not_inf y Hy) as E2.
  pose proof (pos_not_nan x (f64_fin_pos _ Hx)) as E3. pose proof (fin_not_inf x Hx) as E4.
  unfold f64_isNaN, f64_isInf in *. rewrite E1, E2, E3, E4.
  rewrite !pos_sign by auto with gorti. cbn [orb andb].
  rewrite !pos_mag by auto with gorti. by rewrite Z.add_opp_r.
Qed.

(** The difference from a number no smaller stays within it. *)
Lemma fin_sub x y : f64_fin x -> f64_fin y -> f64_bits y <= f64_bits x ->
  f64_sub x y = F64 (round_mag b64 (f64_val x - f64_val y)).
Proof.
  intros Hx Hy Hle. rewrite fin_sub_general by done. apply f64_round_nonneg.
  pose proof (proj1 (pos_val_lt x y (f64_fin_pos _ Hx) (f64_fin_pos _ Hy))).
  destruct (Z_lt_le_dec (f64_val x) (f64_val y)); lia.
Qed.

(** A negative number is below zero, and below every nonnegative one. *)
Lemma mk_neg_ltb m : 0 < m <= inf_mag b64 -> f64_ltb (f64_mk true m) f64_zero = true.
Proof.
  intros Hm. unfold f64_ltb, f64_cmp2, f64_isNaN, f64_val, f64_sign, f64_mag, f64_mk. cbn [f64_bits].
  pose proof signw_b64_big. rewrite mag_mk, sign_mk by lia.
  change (mag b64 (f64_bits f64_zero)) with 0. change (sign b64 (f64_bits f64_zero)) with false.
  change (mag_val b64 0) with 0. pose proof (mag_val_lt b64 b64_wf 0 m).
  change (mag_val b64 0) with 0 in *. change (inf_mag b64 <? 0) with false. zcases.
Qed.

Lemma ltb_zero_neq_pos x y : f64_pos y -> f64_ltb x f64_zero = true -> f64_eqb x y = false.
Proof.
  unfold f64_ltb, f64_eqb, f64_cmp2. change (f64_val f64_zero) with 0. intros Hy H.
  apply andb_true_iff in H as [_ H]. pose proof (pos_val_nonneg y Hy).
  destruct (Z.eqb_spec (f64_val x) (f64_val y)); [zcases|by rewrite andb_false_r].
Qed.

Lemma fin_sub_le x y : f64_fin x -> f64_fin y -> f64_bits y <= f64_bits x ->
  0 <= f64_bits (f64_sub x y) <= f64_bits x.
Proof.
  intros Hx Hy Hle. rewrite fin_sub by done. cbn [f64_bits].
  assert (f64_val y <= f64_val x).
  { pose proof (proj1 (pos_val_lt x y (f64_fin_pos _ Hx) (f64_fin_pos _ Hy))).
    destruct (Z_lt_le_dec (f64_val x) (f64_val y)); lia. }
  pose proof (pos_val_nonneg y (f64_fin_pos _ Hy)). split.
  - apply round_mag_range; [exact b64_wf|lia].
  - apply round_mag_le; [exact b64_wf|unfold f64_fin in *; lia|].
    rewrite <- pos_val by auto with gorti. lia.
Qed.

(** Only the two zeros compare equal to zero. *)
Lemma eqb_zero_bits x : f64_wf x -> f64_eqb x f64_zero = true ->
  f64_bits x = 0 \/ f64_bits x = 2 ^ 63.
Proof.
  intros Hw H. unfold f64_eqb, f64_cmp2 in H. apply andb_true_iff in H as [_ H].
  change (f64_val f64_zero) with 0 in H. apply Z.eqb_eq in H.
  assert (Hm : f64_mag x = 0).
  { pose proof (mag_range b64 b64_wf (f64_bits x)). fold (f64_mag x) in *.
    destruct (Z.eq_dec (f64_mag x) 0) as [|Hne]; [done|].
    pose proof (mag_val_lt b64 b64_wf 0 (f64_mag x)) as Hl. change (mag_val b64 0) with 0 in Hl.
    unfold f64_val in H. destruct (f64_sign x); lia. }
  pose proof (mk_sign_mag b64 (f64_bits x)) as E. rewrite signw_b64 in E.
  unfold f64_wf, inU, maxU in Hw. specialize (E ltac:(lia)).
  fold (f64_mag x) in E. rewrite Hm in E. unfold mk in E. change (signw b64) with (2 ^ 63) in E.
  destruct (sign _ _); lia.
Qed.

(** [math.Nextafter] towards an infinity is the neighbouring bit pattern. *)
Lemma inf_bits : f64_bits (f64_inf false) = inf_mag b64. Proof. reflexivity. Qed.
Lemma inf_pos : f64_pos (f64_inf false). Proof. split; vm_compute; congruence. Qed.
Lemma zero_fin : f64_fin f64_zero. Proof. split; vm_compute; congruence. Qed.
#[export] Hint Resolve inf_pos zero_fin : gorti.

Lemma fin_next x : f64_fin x -> f64_Nextafter x (f64_inf false) = F64 (f64_bits x + 1).
Proof.
  intros Hx. unfold f64_Nextafter. rewrite !pos_not_nan by auto with gorti. cbn [orb].
  rewrite !pos_eqb, !pos_ltb by auto with gorti. rewrite inf_bits. cbn [f64_bits f64_zero].
  unfold f64_fin in Hx. zbool; try lia; cbn [Bool.eqb]; [done|].
  by replace (f64_bits x + 1) with 1 by lia.
Qed.

Lemma fin_prev x : f64_fin x -> 0 < f64_bits x ->
  f64_Nextafter x (f64_inf true) = F64 (f64_bits x - 1).
Proof.
  intros Hx Hp. unfold f64_Nextafter. rewrite (pos_not_nan x) by auto with gorti.
  change (f64_isNaN (f64_inf true)) with false. cbn [orb].
  assert (Hlt : f64_val (f64_inf true) < f64_val x).
  { eapply Z.lt_le_trans; [|apply pos_val_nonneg; auto with gorti].
    apply Z.ltb_lt. vm_compute. reflexivity. }
  assert (E1 : f64_eqb x (f64_inf true) = false).
  { unfold f64_eqb, f64_cmp2. destruct (Z.eqb_spec (f64_val x) (f64_val (f64_inf true))); [lia|].
    by rewrite andb_false_r. }
  assert (E2 : f64_ltb x (f64_inf true) = false).
  { unfold f64_ltb, f64_cmp2. destruct (Z.ltb_spec (f64_val x) (f64_val (f64_inf true))); [lia|].
    by rewrite andb_false_r. }
  rewrite E1, E2, pos_eqb, pos_ltb by auto with gorti. cbn [f64_bits f64_zero].
  zbool; try lia. done.
Qed.

(** ** Known values *)
Example f64_one : f64_of_int 1 = F64 0x3FF0000000000000. Proof. reflexivity. Qed.
Example f64_tenths :
  f64_add (F64 0x3FB999999999999A) (F64 0x3FC999999999999A) = F64 0x3FD3333333333334.
Proof. reflexivity. Qed.   (* 0.1 + 0.2 *)
Example f64_overflows : f64_add f64_maxFinite f64_maxFinite = f64_inf false.
Proof. vm_compute. reflexivity. Qed.
Example f64_third_narrow : f64_to_f32 (F64 0x3FD5555555555555) = F32 0x3EAAAAAB.
Proof. vm_compute. reflexivity. Qed.
Example f64_2p63_to_int : f64_to_int64 (f64_of_int (2 ^ 63)) = minS 64.
Proof. vm_compute. reflexivity. Qed.
