(* ===== verification/LogicalTime.v ===== *)
(** * Logical time values ([rti/pkg/logicaltime/value.go])

    The two standardized representations, HLAfloat64Time and HLAinteger64Time,
    share one [scalar]: a tag and 64 bits.  Definitions follow the file in
    order; [String] methods (decimal formatting by [strconv]) are left out. *)
From Stdlib Require Import Strings.Byte.
From S2P Require Import Prelude GoBytes GoFloat.
Open Scope Z_scope.

Inductive lt_error :=
| ErrInvalidValue
| ErrUnknownRepresentation
| ErrRepresentationMismatch
| ErrIllegalArithmetic
| ErrInvalidEncoding.

Inductive Representation := Unspecified | HLAfloat64Time | HLAinteger64Time.
#[export] Instance Representation_eq_dec : EqDecision Representation.
Proof. solve_decision. Defined.
#[export] Instance lt_error_eq_dec : EqDecision lt_error.
Proof. solve_decision. Defined.

Definition Representation_String (r : Representation) : string :=
  match r with
  | HLAfloat64Time => "HLAfloat64Time"
  | HLAinteger64Time => "HLAinteger64Time"
  | Unspecified => ""
  end.

Definition ParseRepresentation (name : string) : outcome lt_error Representation :=
  if String.eqb name "HLAfloat64Time" then Ret HLAfloat64Time
  else if String.eqb name "HLAinteger64Time" then Ret HLAinteger64Time
  else Fail ErrUnknownRepresentation.

Record scalar := Scalar { kind : Representation; bits : Z }.
#[export] Instance scalar_eq_dec : EqDecision scalar.
Proof. solve_decision. Defined.

(** [Time] and [Interval] are distinct one-field structs. *)
Record Time := MkTime { t_value : scalar }.
Record Interval := MkInterval { i_value : scalar }.
#[export] Instance Time_eq_dec : EqDecision Time.
Proof. solve_decision. Defined.
#[export] Instance Interval_eq_dec : EqDecision Interval.
Proof. solve_decision. Defined.

Definition MaxInt64 : Z := maxS 64.

(** ** Constructors *)
Definition floatValue (value : f64) : outcome lt_error scalar :=
  if f64_isNaN value || f64_isInf value || f64_ltb value f64_zero
  then Fail ErrInvalidValue
  else let value := if f64_eqb value f64_zero then f64_zero else value in
       Ret (Scalar HLAfloat64Time (Float64bits value)).

Definition integerValue (value : Z) : outcome lt_error scalar :=
  if value <? 0 then Fail ErrInvalidValue
  else Ret (Scalar HLAinteger64Time (wrapU 64 value)).

Definition Float64 (value : f64) : outcome lt_error Time := MkTime <$> floatValue value.
Definition Integer64 (value : Z) : outcome lt_error Time := MkTime <$> integerValue value.
Definition Float64Interval (value : f64) : outcome lt_error Interval :=
  MkInterval <$> floatValue value.
Definition Integer64Interval (value : Z) : outcome lt_error Interval :=
  MkInterval <$> integerValue value.

Definition Initial (r : Representation) : outcome lt_error Time :=
  match r with
  | HLAfloat64Time => Float64 f64_zero
  | HLAinteger64Time => Integer64 0
  | Unspecified => Fail ErrUnknownRepresentation
  end.
Definition Final (r : Representation) : outcome lt_error Time :=
  match r with
  | HLAfloat64Time => Float64 f64_maxFinite
  | HLAinteger64Time => Integer64 MaxInt64
  | Unspecified => Fail ErrUnknownRepresentation
  end.
Definition Zero (r : Representation) : outcome lt_error Interval :=
  value ← Initial r; Ret (MkInterval (t_value value)).
Definition Epsilon (r : Representation) : outcome lt_error Interval :=
  match r with
  | HLAfloat64Time => Float64Interval f64_smallest
  | HLAinteger64Time => Integer64Interval 1
  | Unspecified => Fail ErrUnknownRepresentation
  end.

(** ** Observers *)
Definition valid (s : scalar) : bool :=
  match kind s with HLAfloat64Time | HLAinteger64Time => true | Unspecified => false end.
Definition t_Representation (t : Time) : Representation := kind (t_value t).
Definition i_Representation (i : Interval) : Representation := kind (i_value i).
Definition IsInitial (t : Time) : bool := valid (t_value t) && (bits (t_value t) =? 0).
Definition IsZero (i : Interval) : bool := valid (i_value i) && (bits (i_value i) =? 0).
Definition IsFinal (t : Time) : bool :=
  match Final (t_Representation t) with
  | Ret final => bool_decide (t = final)
  | _ => false
  end.
Definition IsEpsilon (i : Interval) : bool :=
  match Epsilon (i_Representation i) with
  | Ret epsilon => bool_decide (i = epsilon)
  | _ => false
  end.

Definition floating (s : scalar) : outcome lt_error f64 :=
  match kind s with
  | HLAfloat64Time => Ret (Float64frombits (bits s))
  | _ => Fail ErrRepresentationMismatch
  end.
Definition integer (s : scalar) : outcome lt_error Z :=
  match kind s with
  | HLAinteger64Time =>
      if MaxInt64 <? bits s then Fail ErrInvalidValue else Ret (wrapS 64 (bits s))
  | _ => Fail ErrRepresentationMismatch
  end.
Definition t_Float64 (t : Time) := floating (t_value t).
Definition t_Integer64 (t : Time) := integer (t_value t).
Definition i_Float64 (i : Interval) := floating (i_value i).
Definition i_Integer64 (i : Interval) := integer (i_value i).

(** ** Comparison and arithmetic *)
Definition compatible (a b : scalar) : outcome lt_error () :=
  if negb (valid a) || negb (valid b) then Fail ErrUnknownRepresentation
  else if bool_decide (kind a ≠ kind b) then Fail ErrRepresentationMismatch
  else Ret tt.

Definition compare (a b : scalar) : outcome lt_error Z :=
  _ ← compatible a b;
  if bits a <? bits b then Ret (-1) else if bits b <? bits a then Ret 1 else Ret 0.
Definition t_Compare (t other : Time) := compare (t_value t) (t_value other).
Definition i_Compare (i other : Interval) := compare (i_value i) (i_value other).

(** The integer and the float branch of [arithmetic]. *)
Definition arithmetic_int (a b : scalar) (subtract : bool) : outcome lt_error scalar :=
  if subtract then
    if bits a <? bits b then Fail ErrIllegalArithmetic
    else Ret (Scalar (kind a) (wrapU 64 (bits a - bits b)))
  else if wrapU 64 (MaxInt64 - bits a) <? bits b then Fail ErrIllegalArithmetic
  else Ret (Scalar (kind a) (wrapU 64 (bits a + bits b))).

Definition arithmetic_float (a b : scalar) (subtract : bool) : outcome lt_error scalar :=
  let left := Float64frombits (bits a) in
  let right := Float64frombits (bits b) in
  let result := if subtract then f64_sub left right else f64_add left right in
  let direction := f64_inf subtract in
  let result :=
    if negb (f64_eqb right f64_zero) && f64_eqb result left
    then f64_Nextafter left direction else result in
  if f64_isInf result || f64_ltb result f64_zero
  then Fail ErrIllegalArithmetic else floatValue result.

Definition arithmetic (a b : scalar) (subtract : bool) : outcome lt_error scalar :=
  _ ← compatible a b;
  if bool_decide (kind a = HLAinteger64Time)
  then arithmetic_int a b subtract else arithmetic_float a b subtract.

Definition t_Add (t : Time) (interval : Interval) : outcome lt_error Time :=
  MkTime <$> arithmetic (t_value t) (i_value interval) false.
Definition t_Subtract (t : Time) (interval : Interval) : outcome lt_error Time :=
  MkTime <$> arithmetic (t_value t) (i_value interval) true.
Definition i_Add (i other : Interval) : outcome lt_error Interval :=
  MkInterval <$> arithmetic (i_value i) (i_value other) false.
Definition i_Subtract (i other : Interval) : outcome lt_error Interval :=
  MkInterval <$> arithmetic (i_value i) (i_value other) true.

Definition Distance (t other : Time) : outcome lt_error Interval :=
  order ← t_Compare t other;
  let l := if order <? 0 then t_value other else t_value t in
  let r := if order <? 0 then t_value t else t_value other in
  if bool_decide (kind l = HLAfloat64Time)
  then Float64Interval (f64_sub (Float64frombits (bits l)) (Float64frombits (bits r)))
  else MkInterval <$> arithmetic l r true.

(** ** Wire form *)
Definition encode (s : scalar) : outcome lt_error (list byte) :=
  if negb (valid s) then Fail ErrUnknownRepresentation else Ret (putBE 8 (bits s)).
Definition decode (k : Representation) (bytes : list byte) : outcome lt_error scalar :=
  if negb (zlen bytes =? 8) then Fail ErrInvalidEncoding
  else let b := getBE bytes in
       match k with
       | HLAinteger64Time =>
           if MaxInt64 <? b then Fail ErrInvalidValue else integerValue (wrapS 64 b)
       | HLAfloat64Time => floatValue (Float64frombits b)
       | Unspecified => Fail ErrUnknownRepresentation
       end.
Definition t_MarshalBinary (t : Time) := encode (t_value t).
Definition i_MarshalBinary (i : Interval) := encode (i_value i).
Definition DecodeTime (k : Representation) (bytes : list byte) : outcome lt_error Time :=
  MkTime <$> decode k bytes.
Definition DecodeInterval (k : Representation) (bytes : list byte) : outcome lt_error Interval :=
  MkInterval <$> decode k bytes.

(** ** Well-formed values

    What every constructor, decoder and operation yields: a known
    representation and, for Float64, the bits of a finite number that is not
    [-0]; for Integer64, a nonnegative [int64]. *)
Definition scalar_ok (s : scalar) : Prop :=
  match kind s with
  | HLAfloat64Time => 0 <= bits s < inf_mag b64
  | HLAinteger64Time => 0 <= bits s <= MaxInt64
  | Unspecified => False
  end.

(** The number a scalar denotes: units of [2^-1074] for Float64. *)
Definition num (s : scalar) : Z :=
  match kind s with
  | HLAfloat64Time => mag_val b64 (bits s)
  | _ => bits s
  end.

Lemma MaxInt64_eq : MaxInt64 = 2 ^ 63 - 1. Proof. reflexivity. Qed.
Lemma inf_mag_b64 : inf_mag b64 = 2047 * 2 ^ 52. Proof. reflexivity. Qed.

Lemma ok_inU s : scalar_ok s -> inU 64 (bits s).
Proof.
  unfold scalar_ok, inU, maxU. rewrite MaxInt64_eq, inf_mag_b64. destruct (kind s); lia.
Qed.

Lemma ok_valid s : scalar_ok s -> valid s = true.
Proof. unfold scalar_ok, valid. by destruct (kind s). Qed.

Lemma float_ok_fin s : scalar_ok s -> kind s = HLAfloat64Time -> f64_fin (F64 (bits s)).
Proof. unfold scalar_ok, f64_fin. intros H E. by rewrite E in H. Qed.

Lemma ok_num_lt a b : scalar_ok a -> scalar_ok b -> kind a = kind b ->
  num a < num b <-> bits a < bits b.
Proof.
  unfold scalar_ok, num. intros Ha Hb E. rewrite <- E in *. destruct (kind a); try done.
  assert (Pa : f64_pos (F64 (bits a))) by (unfold f64_pos; simpl; lia).
  assert (Pb : f64_pos (F64 (bits b))) by (unfold f64_pos; simpl; lia).
  pose proof (pos_val_lt _ _ Pa Pb) as H. by rewrite !pos_val in H.
Qed.

Lemma floatValue_ok x : f64_wf x -> f64_isNaN x = false -> f64_isInf x = false ->
  f64_ltb x f64_zero = false -> exists s, floatValue x = Ret s /\ scalar_ok s /\
    kind s = HLAfloat64Time /\ num s = f64_val x.
Proof.
  intros Hw Hn Hi Hl. unfold floatValue. rewrite Hn, Hi, Hl. cbn [orb].
  eexists. split; [done|]. unfold scalar_ok, num. cbn [kind bits].
  assert (Hz : 0 <= f64_val x).
  { unfold f64_ltb, f64_cmp2 in Hl. rewrite Hn in Hl. cbn in Hl. zcases. }
  unfold f64_eqb, f64_cmp2. rewrite Hn. cbn [negb andb].
  change (f64_isNaN f64_zero) with false. change (f64_val f64_zero) with 0. cbn [negb andb].
  pose proof (mag_val_lt b64 b64_wf 0 (f64_mag x)) as Hp.
  change (mag_val b64 0) with 0 in Hp.
  assert (Hm : 0 <= f64_mag x < inf_mag b64).
  { unfold f64_isNaN, f64_isInf in *. pose proof (mag_range b64 b64_wf (f64_bits x)).
    unfold f64_mag in *. zcases. }
  destruct (Z.eqb_spec (f64_val x) 0) as [E|E].
  - change (Float64bits f64_zero) with 0. change (mag_val b64 0) with 0. split; [|done].
    split; [done|]. reflexivity.
  - assert (Hs : f64_sign x = false).
    { destruct (f64_sign x) eqn:Es; [|done]. unfold f64_val in Hz, E. rewrite Es in Hz, E.
      pose proof (mag_val_nonneg b64 b64_wf (f64_mag x)). lia. }
    assert (Hb : Float64bits x = f64_mag x).
    { unfold Float64bits, f64_mag, mag. symmetry. apply Z.mod_small.
      unfold f64_sign, sign in Hs. unfold f64_wf, inU in Hw. zcases. }
    rewrite Hb. unfold f64_val. by rewrite Hs.
Qed.

Lemma floatValue_inv x s : f64_wf x -> floatValue x = Ret s ->
  scalar_ok s /\ kind s = HLAfloat64Time /\ num s = f64_val x.
Proof.
  intros Hw H. unfold floatValue in H.
  destruct (f64_isNaN x) eqn:Hn; [done|]. destruct (f64_isInf x) eqn:Hi; [done|].
  destruct (f64_ltb x f64_zero) eqn:Hl; [done|].
  destruct (floatValue_ok x Hw Hn Hi Hl) as (s' & E & Hok).
  unfold floatValue in E. rewrite Hn, Hi, Hl in E. congruence.
Qed.

Lemma floatValue_fin b : 0 <= b < inf_mag b64 -> floatValue (F64 b) = Ret (Scalar HLAfloat64Time b).
Proof.
  intros Hb. assert (Hp : f64_pos (F64 b)) by (unfold f64_pos; simpl; lia).
  unfold floatValue. rewrite pos_not_nan, pos_isInf, pos_ltb, pos_eqb by auto with gorti.
  cbn [f64_bits f64_zero]. zbool; try lia; cbn [orb]; [by subst|done].
Qed.

Lemma integerValue_inv z s : z <= MaxInt64 -> integerValue z = Ret s ->
  s = Scalar HLAinteger64Time z /\ scalar_ok s.
Proof.
  intros Hz H. unfold integerValue in H. destruct (Z.ltb_spec z 0); [done|].
  injection H as <-. rewrite MaxInt64_eq in Hz. rewrite wrapU_id by (unfold inU, maxU; lia).
  split; [done|]. unfold scalar_ok. cbn. rewrite MaxInt64_eq. lia.
Qed.

Lemma compatible_ok a b : scalar_ok a -> scalar_ok b -> kind a = kind b -> compatible a b = Ret tt.
Proof.
  intros Ha Hb E. unfold compatible. rewrite !ok_valid by done. cbn.
  rewrite bool_decide_eq_false_2; [done|]. by intros H.
Qed.

Lemma compatible_inv a b u : compatible a b = Ret u -> kind a = kind b /\ valid a = true.
Proof.
  unfold compatible. destruct (valid a), (valid b); try done. cbn.
  case_bool_decide; [done|]. intros _. split; [|done].
  destruct (decide (kind a = kind b)); [done|]. by destruct H.
Qed.

(** ** Closed forms of the arithmetic

    [sum_bits] and [diff_bits] are the bits of a Float64 sum and difference:
    the correctly rounded result, moved one step when it would not differ
    from the left operand. *)
Definition sum_bits (a b : scalar) : Z :=
  if bits b =? 0 then bits a
  else Z.max (round_mag b64 (num a + num b)) (bits a + 1).
Definition diff_bits (a b : scalar) : Z :=
  if bits b =? 0 then bits a
  else Z.min (round_mag b64 (num a - num b)) (bits a - 1).

Section FloatArith.
Context (a b : scalar) (Ha : scalar_ok a) (Hb : scalar_ok b).
Context (Ka : kind a = HLAfloat64Time) (Kb : kind b = HLAfloat64Time).

Let fa : f64_fin (F64 (bits a)) := float_ok_fin a Ha Ka.
Let fb : f64_fin (F64 (bits b)) := float_ok_fin b Hb Kb.

Lemma float_num s : kind s = HLAfloat64Time -> num s = mag_val b64 (bits s).
Proof. unfold num. by intros ->. Qed.
Lemma float_bits s : scalar_ok s -> kind s = HLAfloat64Time -> 0 <= bits s < inf_mag b64.
Proof. unfold scalar_ok. intros H E. by rewrite E in H. Qed.

Lemma finish_float r : 0 <= r <= inf_mag b64 ->
  (if f64_isInf (F64 r) || f64_ltb (F64 r) f64_zero
   then Fail ErrIllegalArithmetic else floatValue (F64 r)) =
  if r =? inf_mag b64 then Fail ErrIllegalArithmetic else Ret (Scalar HLAfloat64Time r).
Proof.
  intros Hr. assert (Hp : f64_pos (F64 r)) by (unfold f64_pos; simpl; lia).
  rewrite pos_isInf, pos_ltb by auto with gorti. cbn [f64_bits f64_zero].
  zbool; try lia; cbn [orb]; try done. apply floatValue_fin. lia.
Qed.

Lemma add_float_spec :
  arithmetic_float a b false =
  if sum_bits a b =? inf_mag b64 then Fail ErrIllegalArithmetic
  else Ret (Scalar HLAfloat64Time (sum_bits a b)).
Proof.
  unfold arithmetic_float, sum_bits, Float64frombits. cbv zeta.
  pose proof (fin_add_ge _ _ fa fb) as Hge. pose proof (fin_add_pos _ _ fa fb) as Hpos.
  rewrite (pos_eqb (F64 (bits b))), pos_eqb by auto with gorti.
  rewrite !(fin_add _ _ fa fb), !pos_val in * by auto with gorti. cbn [f64_bits] in *.
  rewrite (float_num a Ka), (float_num b Kb).
  pose proof (float_bits a Ha Ka) as Ba. pose proof (float_bits b Hb Kb) as Bb.
  change (f64_bits f64_zero) with 0. unfold f64_pos in Hpos. cbn [f64_bits] in Hpos.
  set (r := round_mag b64 _) in *. destruct (Z.eqb_spec (bits b) 0) as [E|E]; cbn [negb andb].
  - assert (r = bits a) as ->.
    { subst r. rewrite E. change (mag_val b64 0) with 0. rewrite Z.add_0_r.
      apply round_mag_val; [exact b64_wf|lia]. }
    apply finish_float. lia.
  - destruct (Z.eqb_spec r (bits a)) as [Er|Er].
    + rewrite (fin_next _ fa). cbn [f64_bits]. rewrite Z.max_r by lia. apply finish_float. lia.
    + rewrite Z.max_l by lia. apply finish_float. lia.
Qed.

Lemma sub_float_neg : bits a < bits b -> arithmetic_float a b true = Fail ErrIllegalArithmetic.
Proof.
  intros Hlt. unfold arithmetic_float, Float64frombits. cbv zeta.
  pose proof (float_bits a Ha Ka) as Ba. pose proof (float_bits b Hb Kb) as Bb.
  set (n := f64_val (F64 (bits a)) - f64_val (F64 (bits b))).
  assert (Hn : n < 0).
  { subst n. rewrite !pos_val by auto with gorti. cbn [f64_bits].
    pose proof (mag_val_lt b64 b64_wf (bits a) (bits b)). lia. }
  assert (Hr : 1 <= round_mag b64 (Z.abs n) <= inf_mag b64).
  { split; [|apply round_mag_range; [exact b64_wf|lia]].
    apply round_mag_ge; [exact b64_wf|split; vm_compute; congruence|].
    change (mag_val b64 1) with 1. lia. }
  assert (E : f64_sub (F64 (bits a)) (F64 (bits b)) = f64_mk true (round_mag b64 (Z.abs n))).
  { rewrite fin_sub_general by done. fold n. unfold f64_round. zcases. }
  rewrite E. pose proof signw_b64_big.
  assert (El : f64_ltb (f64_mk true (round_mag b64 (Z.abs n))) f64_zero = true).
  { apply mk_neg_ltb. lia. }
  assert (Eq : f64_eqb (f64_mk true (round_mag b64 (Z.abs n))) (F64 (bits a)) = false).
  { apply ltb_zero_neq_pos; auto with gorti. }
  rewrite Eq, andb_false_r, El. by rewrite orb_true_r.
Qed.

Lemma sub_float_spec : bits b <= bits a ->
  arithmetic_float a b true = Ret (Scalar HLAfloat64Time (diff_bits a b)).
Proof.
  intros Hle. unfold arithmetic_float, diff_bits, Float64frombits. cbv zeta.
  pose proof (fin_sub_le _ _ fa fb Hle) as Hrange.
  assert (Hpos : f64_pos (f64_sub (F64 (bits a)) (F64 (bits b)))).
  { unfold f64_pos. pose proof (float_bits a Ha Ka). cbn [f64_bits] in Hrange. lia. }
  rewrite (pos_eqb (F64 (bits b))), pos_eqb by auto with gorti.
  rewrite !(fin_sub _ _ fa fb Hle), !pos_val in * by auto with gorti. cbn [f64_bits] in *.
  rewrite (float_num a Ka), (float_num b Kb).
  pose proof (float_bits a Ha Ka) as Ba. pose proof (float_bits b Hb Kb) as Bb.
  change (f64_bits f64_zero) with 0. set (r := round_mag b64 _) in *.
  assert (Hfin : forall k, 0 <= k <= bits a ->
    (if f64_isInf (F64 k) || f64_ltb (F64 k) f64_zero
     then Fail ErrIllegalArithmetic else floatValue (F64 k)) = Ret (Scalar HLAfloat64Time k)).
  { intros k Hk. rewrite finish_float by lia. zcases. }
  destruct (Z.eqb_spec (bits b) 0) as [E|E]; cbn [negb andb].
  - assert (r = bits a) as ->.
    { subst r. rewrite E. change (mag_val b64 0) with 0. rewrite Z.sub_0_r.
      apply round_mag_val; [exact b64_wf|lia]. }
    apply Hfin. lia.
  - destruct (Z.eqb_spec r (bits a)) as [Er|Er].
    + rewrite (fin_prev _ fa) by (cbn [f64_bits]; lia). cbn [f64_bits].
      rewrite Z.min_r by lia. apply Hfin. lia.
    + rewrite Z.min_l by lia. apply Hfin. lia.
Qed.
End FloatArith.

Section IntArith.
Context (a b : scalar) (Ha : scalar_ok a) (Hb : scalar_ok b).
Context (Ka : kind a = HLAinteger64Time) (Kb : kind b = HLAinteger64Time).

Lemma int_bits s : scalar_ok s -> kind s = HLAinteger64Time -> 0 <= bits s <= 2 ^ 63 - 1.
Proof. unfold scalar_ok. intros H E. by rewrite E in H. Qed.

Lemma add_int_spec :
  arithmetic_int a b false =
  if MaxInt64 <? bits a + bits b then Fail ErrIllegalArithmetic
  else Ret (Scalar HLAinteger64Time (bits a + bits b)).
Proof.
  pose proof (int_bits a Ha Ka). pose proof (int_bits b Hb Kb). unfold arithmetic_int.
  rewrite (wrapU_id _ (MaxInt64 - bits a)) by (rewrite MaxInt64_eq; unfold inU, maxU; lia).
  rewrite MaxInt64_eq, Ka. zcases. rewrite wrapU_id; [done|]. unfold inU, maxU. lia.
Qed.

Lemma sub_int_spec :
  arithmetic_int a b true =
  if bits a <? bits b then Fail ErrIllegalArithmetic
  else Ret (Scalar HLAinteger64Time (bits a - bits b)).
Proof.
  pose proof (int_bits a Ha Ka). pose proof (int_bits b Hb Kb). unfold arithmetic_int.
  rewrite Ka. zcases. rewrite wrapU_id; [done|]. unfold inU, maxU. lia.
Qed.
End IntArith.

Lemma ok_kinds s : scalar_ok s -> kind s = HLAfloat64Time \/ kind s = HLAinteger64Time.
Proof. unfold scalar_ok. destruct (kind s); try done; auto. Qed.

(** The bits of [a + b] and [a - b] in either representation. *)
Definition add_bits (a b : scalar) : Z :=
  match kind a with HLAinteger64Time => bits a + bits b | _ => sum_bits a b end.
Definition sub_bits (a b : scalar) : Z :=
  match kind a with HLAinteger64Time => bits a - bits b | _ => diff_bits a b end.
Definition max_bits (k : Representation) : Z :=
  match k with HLAinteger64Time => MaxInt64 | _ => inf_mag b64 - 1 end.

Lemma sum_bits_range a b : scalar_ok a -> scalar_ok b ->
  kind a = HLAfloat64Time -> kind b = HLAfloat64Time -> bits a <= sum_bits a b <= inf_mag b64.
Proof.
  intros Ha Hb Ka Kb. unfold sum_bits. pose proof (float_bits a Ha Ka).
  pose proof (float_bits b Hb Kb). rewrite (float_num a Ka), (float_num b Kb).
  pose proof (round_mag_range b64 b64_wf (mag_val b64 (bits a) + mag_val b64 (bits b))).
  pose proof (mag_val_nonneg b64 b64_wf (bits a)). pose proof (mag_val_nonneg b64 b64_wf (bits b)).
  zcases.
Qed.

Lemma arithmetic_add a b : scalar_ok a -> scalar_ok b -> kind a = kind b ->
  arithmetic a b false =
  if max_bits (kind a) <? add_bits a b then Fail ErrIllegalArithmetic
  else Ret (Scalar (kind a) (add_bits a b)).
Proof.
  intros Ha Hb E. unfold arithmetic, add_bits, max_bits. rewrite compatible_ok, bind_Ret by done.
  destruct (ok_kinds a Ha) as [K|K]; rewrite K in *.
  - rewrite bool_decide_eq_false_2 by done. rewrite add_float_spec by (done || congruence).
    pose proof (sum_bits_range a b Ha Hb K (eq_sym E)). zcases.
  - rewrite bool_decide_eq_true_2 by done. by rewrite add_int_spec by (done || congruence).
Qed.

Lemma arithmetic_sub a b : scalar_ok a -> scalar_ok b -> kind a = kind b ->
  arithmetic a b true =
  if bits a <? bits b then Fail ErrIllegalArithmetic else Ret (Scalar (kind a) (sub_bits a b)).
Proof.
  intros Ha Hb E. unfold arithmetic, sub_bits. rewrite compatible_ok, bind_Ret by done.
  destruct (ok_kinds a Ha) as [K|K]; rewrite K in *.
  - rewrite bool_decide_eq_false_2 by done. destruct (Z.ltb_spec (bits a) (bits b)).
    + by rewrite sub_float_neg by (done || congruence).
    + by rewrite sub_float_spec by (done || congruence).
  - rewrite bool_decide_eq_true_2 by done. by rewrite sub_int_spec by (done || congruence).
Qed.

Lemma ok_bits s : scalar_ok s <-> (kind s <> Unspecified /\ 0 <= bits s <= max_bits (kind s)).
Proof. unfold scalar_ok, max_bits. destruct (kind s); intuition (try done; try lia). Qed.

Lemma add_bits_ge a b : scalar_ok a -> scalar_ok b -> kind a = kind b ->
  bits a <= add_bits a b /\ (bits b <> 0 -> bits a < add_bits a b) /\ (bits b = 0 -> add_bits a b = bits a).
Proof.
  intros Ha Hb E. unfold add_bits, sum_bits. destruct (ok_kinds a Ha) as [K|K]; rewrite K in *.
  - pose proof (float_bits b Hb (eq_sym E)). zcases.
  - pose proof (int_bits b Hb (eq_sym E)). lia.
Qed.

Lemma sub_bits_le a b : scalar_ok a -> scalar_ok b -> kind a = kind b -> bits b <= bits a ->
  0 <= sub_bits a b <= bits a /\ (bits b <> 0 -> sub_bits a b < bits a) /\
  (bits b = 0 -> sub_bits a b = bits a).
Proof.
  intros Ha Hb E Hle. unfold sub_bits, diff_bits. destruct (ok_kinds a Ha) as [K|K]; rewrite K in *.
  - pose proof (float_bits a Ha K). pose proof (float_bits b Hb (eq_sym E)).
    rewrite (float_num a K), (float_num b (eq_sym E)).
    pose proof (mag_val_le b64 b64_wf (bits b) (bits a)).
    pose proof (round_mag_range b64 b64_wf (mag_val b64 (bits a) - mag_val b64 (bits b))). zcases.
  - pose proof (int_bits b Hb (eq_sym E)). lia.
Qed.

Lemma compare_spec a b : scalar_ok a -> scalar_ok b -> kind a = kind b ->
  compare a b = Ret (if bits a <? bits b then -1 else if bits b <? bits a then 1 else 0).
Proof. intros Ha Hb E. unfold compare. rewrite compatible_ok, bind_Ret by done. zcases. Qed.

(** ** The values a program can hold

    [Time] and [Interval] have unexported fields, so every initialized value
    comes from a constructor, a decoder or the arithmetic. *)
Inductive derived : scalar -> Prop :=
| derived_float x s : f64_wf x -> floatValue x = Ret s -> derived s
| derived_int z s : inS 64 z -> integerValue z = Ret s -> derived s
| derived_arith a b sub s :
    derived a -> derived b -> arithmetic a b sub = Ret s -> derived s
| derived_distance a b d :
    derived a -> derived b -> Distance (MkTime a) (MkTime b) = Ret d -> derived (i_value d)
| derived_decode k bs s : decode k bs = Ret s -> derived s.

Lemma arithmetic_ok a b sub s :
  scalar_ok a -> scalar_ok b -> arithmetic a b sub = Ret s -> scalar_ok s /\ kind s = kind a.
Proof.
  intros Ha Hb H. assert (E : kind a = kind b).
  { unfold arithmetic in H. bind_inv H. by apply compatible_inv in Hr as [? _]. }
  assert (Hk : kind a <> Unspecified) by (apply ok_bits in Ha; tauto).
  destruct sub.
  - rewrite arithmetic_sub in H by done. destruct (Z.ltb_spec (bits a) (bits b)); [done|].
    injection H as <-. split; [|done]. apply ok_bits. split; [done|]. cbn [bits kind].
    pose proof (sub_bits_le a b Ha Hb E ltac:(lia)). apply ok_bits in Ha. lia.
  - rewrite arithmetic_add in H by done.
    destruct (Z.ltb_spec (max_bits (kind a)) (add_bits a b)); [done|].
    injection H as <-. split; [|done]. apply ok_bits. split; [done|]. cbn [bits kind].
    pose proof (add_bits_ge a b Ha Hb E). apply ok_bits in Ha. lia.
Qed.

Lemma decode_ok k bs s : decode k bs = Ret s -> scalar_ok s /\ kind s = k.
Proof.
  unfold decode. destruct (Z.eqb_spec (zlen bs) 8) as [E|]; [|done]. cbn [negb].
  pose proof (getBE_range bs) as Hr. unfold zlen in E. rewrite E in Hr.
  change (8 * 8) with 64 in Hr. destruct k; [done| |].
  - intros H. apply floatValue_inv in H as (? & ? & _); [done|].
    unfold f64_wf, inU, maxU. simpl. lia.
  - rewrite MaxInt64_eq. destruct (Z.ltb_spec (2 ^ 63 - 1) (getBE bs)) as [|Hle]; [done|].
    assert (Ew : wrapS 64 (getBE bs) = getBE bs).
    { unfold wrapS. rewrite Z.mod_small by lia. zcases. }
    rewrite Ew. intros H. apply integerValue_inv in H as [-> ?]; [done|]. rewrite MaxInt64_eq. lia.
Qed.

Lemma fin_wf x : f64_fin x -> f64_wf x.
Proof. unfold f64_fin, f64_wf, inU, maxU. rewrite inf_mag_b64. lia. Qed.

Definition hi_of (a b : scalar) : scalar := if bits a <? bits b then b else a.
Definition lo_of (a b : scalar) : scalar := if bits a <? bits b then a else b.
Definition dist_bits (a b : scalar) : Z :=
  match kind a with
  | HLAinteger64Time => bits (hi_of a b) - bits (lo_of a b)
  | _ => round_mag b64 (num (hi_of a b) - num (lo_of a b))
  end.

Lemma hi_lo_ok a b : scalar_ok a -> scalar_ok b -> kind a = kind b ->
  scalar_ok (hi_of a b) /\ scalar_ok (lo_of a b) /\ kind (hi_of a b) = kind a /\
  kind (lo_of a b) = kind a /\ bits (lo_of a b) <= bits (hi_of a b).
Proof. unfold hi_of, lo_of. intros. zcases; intuition (congruence || lia). Qed.

Lemma dist_bits_range a b : scalar_ok a -> scalar_ok b -> kind a = kind b ->
  0 <= dist_bits a b <= bits (hi_of a b).
Proof.
  intros Ha Hb E. destruct (hi_lo_ok a b Ha Hb E) as (Hh & Hl & Kh & Kl & Hle).
  unfold dist_bits. destruct (ok_kinds a Ha) as [K|K]; rewrite K in *.
  - pose proof (float_bits _ Hh Kh). pose proof (float_bits _ Hl Kl).
    rewrite !float_num by done.
    pose proof (mag_val_le b64 b64_wf (bits (lo_of a b)) (bits (hi_of a b))).
    pose proof (mag_val_nonneg b64 b64_wf (bits (lo_of a b))). split.
    + apply round_mag_range; [exact b64_wf|lia].
    + apply round_mag_le; [exact b64_wf|lia|lia].
  - pose proof (int_bits _ Hl Kl). lia.
Qed.

Lemma dist_bits_sym a b : scalar_ok a -> scalar_ok b -> kind a = kind b ->
  dist_bits a b = dist_bits b a.
Proof.
  intros Ha Hb E. destruct (Z.eq_dec (bits a) (bits b)) as [Eb|Eb].
  - replace b with a; [done|]. destruct a, b. cbn in *. congruence.
  - unfold dist_bits, hi_of, lo_of. rewrite <- E. zcases.
Qed.

Lemma dist_bits_zero a b : scalar_ok a -> scalar_ok b -> kind a = kind b ->
  dist_bits a b = 0 <-> bits a = bits b.
Proof.
  intros Ha Hb E. destruct (hi_lo_ok a b Ha Hb E) as (Hh & Hl & Kh & Kl & Hle).
  assert (Heq : bits a = bits b <-> bits (hi_of a b) = bits (lo_of a b)).
  { unfold hi_of, lo_of. zcases. }
  rewrite Heq. unfold dist_bits. destruct (ok_kinds a Ha) as [K|K]; rewrite K in *; [|lia].
  rewrite !float_num by done. pose proof (float_bits _ Hl Kl). pose proof (float_bits _ Hh Kh).
  split.
  - intros Hz. destruct (Z.eq_dec (bits (hi_of a b)) (bits (lo_of a b))) as [|Hne]; [done|].
    pose proof (mag_val_lt b64 b64_wf (bits (lo_of a b)) (bits (hi_of a b))).
    pose proof (round_mag_ge b64 b64_wf 1
      (mag_val b64 (bits (hi_of a b)) - mag_val b64 (bits (lo_of a b)))) as Hr.
    change (mag_val b64 1) with 1 in Hr. rewrite inf_mag_b64 in *. lia.
  - intros ->. rewrite Z.sub_diag. reflexivity.
Qed.

Lemma Distance_spec a b : scalar_ok a -> scalar_ok b -> kind a = kind b ->
  Distance (MkTime a) (MkTime b) = Ret (MkInterval (Scalar (kind a) (dist_bits a b))).
Proof.
  intros Ha Hb E. destruct (hi_lo_ok a b Ha Hb E) as (Hh & Hl & Kh & Kl & Hle).
  pose proof (dist_bits_range a b Ha Hb E) as Hd.
  unfold Distance, t_Compare. cbn [t_value]. rewrite compare_spec, bind_Ret by done.
  assert (Eo : ((if bits a <? bits b then -1 else if bits b <? bits a then 1 else 0) <? 0) =
               (bits a <? bits b)) by zcases. rewrite Eo.
  fold (hi_of a b) (lo_of a b). unfold dist_bits in *.
  destruct (ok_kinds a Ha) as [K|K]; rewrite K in *.
  - rewrite bool_decide_eq_true_2 by done. unfold Float64frombits, Float64Interval.
    pose proof (float_ok_fin _ Hh Kh) as Fh. pose proof (float_ok_fin _ Hl Kl) as Fl.
    rewrite fin_sub by done. rewrite !pos_val by auto with gorti. cbn [f64_bits].
    rewrite !float_num in * by done. pose proof (float_bits _ Hh Kh).
    by rewrite floatValue_fin by lia.
  - rewrite bool_decide_eq_false_2 by (rewrite Kh; done). rewrite arithmetic_sub by congruence.
    rewrite Kh. unfold sub_bits. rewrite Kh. zcases.
Qed.

Lemma derived_ok s : derived s -> scalar_ok s.
Proof.
  induction 1 as [x s Hw H|z s Hz H|a b sub s _ Ha _ Hb H|a b d _ Ha _ Hb H|k bs s H].
  - by apply floatValue_inv in H as [? _].
  - apply integerValue_inv in H as [_ ?]; [done|]. apply Hz.
  - by apply arithmetic_ok in H as [? _].
  - assert (E : kind a = kind b).
    { unfold Distance, t_Compare, compare in H. bind_inv H. bind_inv Hr.
      by apply compatible_inv in Hr0 as [? _]. }
    rewrite Distance_spec in H by done. injection H as <-. cbn [i_value].
    apply ok_bits. cbn [kind bits]. pose proof (dist_bits_range a b Ha Hb E).
    destruct (hi_lo_ok a b Ha Hb E) as (Hh & _ & Kh & _). apply ok_bits in Hh, Ha.
    rewrite Kh in Hh. split; [tauto|lia].
  - by apply decode_ok in H as [? _].
Qed.

Lemma decode_length k bs s : decode k bs = Ret s -> length bs = 8%nat.
Proof. unfold decode. destruct (Z.eqb_spec (zlen bs) 8); [|done]. unfold zlen in *. lia. Qed.

Lemma decode_putBE s : scalar_ok s -> MkTime <$> decode (kind s) (putBE 8 (bits s)) = Ret (MkTime s).
Proof.
  intros Hok. unfold decode, zlen. rewrite length_putBE. cbn [Z.of_nat Pos.of_succ_nat Pos.succ Z.eqb Pos.eqb negb].
  rewrite getBE_putBE, Z.mod_small by (pose proof (ok_inU s Hok) as []; unfold maxU in *; simpl; lia).
  destruct (ok_kinds s Hok) as [K|K]; rewrite K.
  - unfold Float64frombits. rewrite floatValue_fin by (by apply float_bits).
    by destruct s; cbn in *; subst.
  - pose proof (int_bits s Hok K). rewrite MaxInt64_eq. destruct (Z.ltb_spec (2 ^ 63 - 1) (bits s)); [lia|].
    assert (Ew : wrapS 64 (bits s) = bits s).
    { unfold wrapS. rewrite Z.mod_small by lia. zcases. }
    rewrite Ew. unfold integerValue. rewrite wrapU_id by (by apply ok_inU).
    destruct (Z.ltb_spec (bits s) 0); [lia|]. by destruct s; cbn in *; subst.
Qed.

(** A decoded scalar keeps the wire bits, except for [-0.0]. *)
Lemma decode_bits k bs s : decode k bs = Ret s ->
  putBE 8 (bits s) = bs \/
  k = HLAfloat64Time /\ bs = putBE 8 (2 ^ 63) /\ bits s = 0.
Proof.
  intros E. pose proof (decode_length _ _ _ E) as El. pose proof (getBE_range bs) as Hr.
  rewrite El in Hr. change (8 * Z.of_nat 8) with 64 in Hr.
  assert (Hsuff : bits s = getBE bs \/ k = HLAfloat64Time /\ getBE bs = 2 ^ 63 /\ bits s = 0).
  { unfold decode in E. destruct (negb _); [done|]. destruct k; [done| |].
    - unfold floatValue, Float64frombits in E.
      destruct (f64_isNaN _) eqn:En; [done|]. destruct (f64_isInf _); [done|].
      destruct (f64_ltb _ _) eqn:Elt; [done|]. injection E as <-. cbn [bits].
      destruct (f64_eqb _ _) eqn:Ee; [|by left]. change (Float64bits f64_zero) with 0.
      destruct (Z.eq_dec (getBE bs) 0) as [->|Hne]; [by left|]. right. split; [done|]. split; [|done].
      apply eqb_zero_bits in Ee; [|unfold f64_wf, inU, maxU; simpl; lia]. simpl in Ee. lia.
    - destruct (Z.ltb_spec MaxInt64 (getBE bs)); [done|].
      rewrite MaxInt64_eq in *.
      assert (Ew : wrapS 64 (getBE bs) = getBE bs).
      { unfold wrapS. rewrite Z.mod_small by lia. zcases. }
      rewrite Ew in E. apply integerValue_inv in E as [-> _]; [by left|rewrite MaxInt64_eq; lia]. }
  destruct Hsuff as [->|(-> & Eg & ->)].
  - left. rewrite <- El. apply putBE_getBE.
  - right. split; [done|]. split; [|done]. rewrite <- Eg, <- El. symmetry. apply putBE_getBE.
Qed.

(** ** Theorems *)

(** C40: every value a program can build, decode or compute is well formed:
    a finite nonnegative number of a standardized representation. *)
Theorem derived_wf s : derived s -> scalar_ok s /\ valid s = true /\ inU 64 (bits s).
Proof.
  intros H. apply derived_ok in H. split; [done|]. split; [by apply ok_valid|by apply ok_inU].
Qed.
Lemma derived_wf_witness :
  derived (Scalar HLAinteger64Time 7) /\ scalar_ok (Scalar HLAinteger64Time 7).
Proof.
  assert (H : derived (Scalar HLAinteger64Time 7)).
  { apply (derived_int 7); [split; vm_compute; congruence|reflexivity]. }
  split; [exact H|]. destruct (derived_wf _ H) as [Hok _]. exact Hok.
Defined.

(** Adding an interval to a time either reports IllegalTimeArithmetic or
    yields a well-formed time of the same representation that is strictly
    later, unless the interval is zero, when it is the same time.  This is the
    distinguishability rule: no positive interval is lost to rounding. *)
Theorem t_Add_advances t i :
  scalar_ok (t_value t) -> scalar_ok (i_value i) -> t_Representation t = i_Representation i ->
  t_Add t i = Fail ErrIllegalArithmetic \/
  exists t', t_Add t i = Ret t' /\ scalar_ok (t_value t') /\
    t_Representation t' = t_Representation t /\
    (if IsZero i then t' = t else t_Compare t t' = Ret (-1)).
Proof.
  destruct t as [a], i as [b]. unfold t_Representation, i_Representation, t_Add, IsZero, t_Compare.
  cbn [t_value i_value]. intros Ha Hb E. rewrite ok_valid by done. cbn [andb].
  destruct (arithmetic a b false) as [s|e|m] eqn:Ear; rewrite (arithmetic_add a b Ha Hb E) in Ear;
    destruct (Z.ltb_spec (max_bits (kind a)) (add_bits a b)) as [|Hle]; try done.
  - right. injection Ear as <-. exists (MkTime (Scalar (kind a) (add_bits a b))). split; [done|].
    destruct (add_bits_ge a b Ha Hb E) as (H1 & H2 & H3).
    assert (Hok : scalar_ok (Scalar (kind a) (add_bits a b))).
    { apply ok_bits. apply ok_bits in Ha. cbn [kind bits]. split; [tauto|lia]. }
    split; [exact Hok|]. split; [done|]. destruct (Z.eqb_spec (bits b) 0) as [Eb|Eb].
    + f_equal. rewrite H3 by done. by destruct a.
    + cbn [t_value]. rewrite compare_spec by done. cbn [bits].
      specialize (H2 Eb). zcases.
  - left. by injection Ear as <-.
Qed.
Definition wit_t : Time := MkTime (Scalar HLAfloat64Time 0x4340000000000000).
Definition wit_i : Interval := MkInterval (Scalar HLAfloat64Time 1).
Lemma t_Add_advances_witness :
  t_Add wit_t wit_i = Ret (MkTime (Scalar HLAfloat64Time 0x4340000000000001)) /\
  (t_Add wit_t wit_i = Fail ErrIllegalArithmetic \/
   exists t', t_Add wit_t wit_i = Ret t' /\ t_Compare wit_t t' = Ret (-1)).
Proof.
  split; [vm_compute; reflexivity|].
  assert (H1 : scalar_ok (t_value wit_t)) by (split; vm_compute; congruence).
  assert (H2 : scalar_ok (i_value wit_i)) by (split; vm_compute; congruence).
  destruct (t_Add_advances wit_t wit_i H1 H2 eq_refl) as [H|(t' & H & _ & _ & Hc)]; [by left|right].
  exists t'. split; [exact H|exact Hc].
Defined.

(** Subtraction is total on well-formed operands of one representation:
    it fails exactly when the interval exceeds the time, and otherwise yields
    a strictly earlier time (the same one for a zero interval). *)
Theorem t_Subtract_retreats t i :
  scalar_ok (t_value t) -> scalar_ok (i_value i) -> t_Representation t = i_Representation i ->
  (num (t_value t) < num (i_value i) -> t_Subtract t i = Fail ErrIllegalArithmetic) /\
  (num (i_value i) <= num (t_value t) ->
   exists t', t_Subtract t i = Ret t' /\ scalar_ok (t_value t') /\
     if IsZero i then t' = t else t_Compare t' t = Ret (-1)).
Proof.
  destruct t as [a], i as [b]. unfold t_Representation, i_Representation, t_Subtract, IsZero, t_Compare.
  cbn [t_value i_value]. intros Ha Hb E. rewrite ok_valid by done. cbn [andb].
  pose proof (ok_num_lt a b Ha Hb E) as Hn. rewrite (arithmetic_sub a b Ha Hb E). split; intros H.
  - apply Hn in H. zcases.
  - assert (Hle : bits b <= bits a) by (destruct (Z_lt_le_dec (bits a) (bits b)); [|done]; tauto || lia).
    destruct (Z.ltb_spec (bits a) (bits b)); [lia|].
    exists (MkTime (Scalar (kind a) (sub_bits a b))). split; [done|].
    destruct (sub_bits_le a b Ha Hb E Hle) as (H1 & H2 & H3).
    assert (Hok : scalar_ok (Scalar (kind a) (sub_bits a b))).
    { apply ok_bits. apply ok_bits in Ha. cbn [kind bits]. split; [tauto|lia]. }
    split; [exact Hok|]. destruct (Z.eqb_spec (bits b) 0) as [Eb|Eb].
    + f_equal. rewrite H3 by done. by destruct a.
    + cbn [t_value]. rewrite compare_spec by done. cbn [bits].
      specialize (H2 Eb). zcases.
Qed.
Lemma t_Subtract_retreats_witness :
  num (i_value wit_i) <= num (t_value wit_t) /\
  exists t', t_Subtract wit_t wit_i = Ret t' /\ t_Compare t' wit_t = Ret (-1).
Proof.
  assert (H1 : scalar_ok (t_value wit_t)) by (split; vm_compute; congruence).
  assert (H2 : scalar_ok (i_value wit_i)) by (split; vm_compute; congruence).
  assert (H3 : num (i_value wit_i) <= num (t_value wit_t)) by (vm_compute; congruence).
  split; [exact H3|].
  destruct (t_Subtract_retreats wit_t wit_i H1 H2 eq_refl) as [_ H].
  destruct (H H3) as (t' & E & _ & Hc). exists t'. split; [exact E|exact Hc].
Defined.

(** [Compare], which compares raw bits, is the numeric order of the two
    times in either representation, and fails on different representations. *)
Theorem t_Compare_numeric t u :
  scalar_ok (t_value t) -> scalar_ok (t_value u) ->
  t_Compare t u =
  if bool_decide (t_Representation t = t_Representation u)
  then Ret (if num (t_value t) <? num (t_value u) then -1
            else if num (t_value u) <? num (t_value t) then 1 else 0)
  else Fail ErrRepresentationMismatch.
Proof.
  destruct t as [a], u as [b]. unfold t_Representation, t_Compare. cbn [t_value]. intros Ha Hb.
  case_bool_decide as E.
  - rewrite compare_spec by done. pose proof (ok_num_lt a b Ha Hb E).
    pose proof (ok_num_lt b a Hb Ha (eq_sym E)). f_equal. zcases; exfalso; intuition lia.
  - unfold compare, compatible. rewrite !ok_valid by done. cbn [negb orb].
    by rewrite bool_decide_eq_true_2 by done.
Qed.
Lemma t_Compare_numeric_witness :
  t_Compare wit_t (MkTime (Scalar HLAfloat64Time 3)) = Ret 1.
Proof.
  rewrite t_Compare_numeric; [vm_compute; reflexivity|split; vm_compute; congruence|
                              split; vm_compute; congruence].
Defined.

(** [Distance] is total on times of one representation, symmetric, and
    zero exactly between equal times. *)
Theorem Distance_metric t u :
  scalar_ok (t_value t) -> scalar_ok (t_value u) -> t_Representation t = t_Representation u ->
  exists d, Distance t u = Ret d /\ Distance u t = Ret d /\ scalar_ok (i_value d) /\
    (IsZero d = true <-> t = u).
Proof.
  destruct t as [a], u as [b]. unfold t_Representation. cbn [t_value]. intros Ha Hb E.
  exists (MkInterval (Scalar (kind a) (dist_bits a b))).
  assert (Hok : scalar_ok (Scalar (kind a) (dist_bits a b))).
  { apply ok_bits. cbn [kind bits]. pose proof (dist_bits_range a b Ha Hb E).
    destruct (hi_lo_ok a b Ha Hb E) as (Hh & _ & Kh & _). apply ok_bits in Hh, Ha.
    rewrite Kh in Hh. split; [tauto|lia]. }
  split; [by apply Distance_spec|]. split.
  - rewrite Distance_spec, <- E by done. do 3 f_equal. apply dist_bits_sym; done.
  - split; [exact Hok|]. unfold IsZero. cbn [i_value]. rewrite ok_valid by done. cbn [andb bits].
    rewrite Z.eqb_eq, dist_bits_zero by done. split; [|by intros [= ->]].
    intros Eb. f_equal. destruct a, b. cbn in *. congruence.
Qed.
Lemma Distance_metric_witness :
  exists d, Distance wit_t (MkTime (Scalar HLAfloat64Time 3)) = Ret d /\ IsZero d = false.
Proof.
  assert (H1 : scalar_ok (t_value wit_t)) by (split; vm_compute; congruence).
  assert (H2 : scalar_ok (t_value (MkTime (Scalar HLAfloat64Time 3)))) by (split; vm_compute; congruence).
  destruct (Distance_metric _ _ H1 H2 eq_refl) as (d & E & _ & _ & Hz).
  exists d. split; [exact E|]. destruct (IsZero d); [|reflexivity].
  discriminate (proj1 Hz eq_refl).
Defined.

(** The eight bytes of [-0.0], the one accepted non-canonical encoding. *)
Definition neg_zero_bytes : list byte := putBE 8 (2 ^ 63).

(** The wire form round-trips.  A well-formed time encodes to eight bytes
    that decode to it; and whatever decodes re-encodes to the same bytes, except
    that Float64 [-0.0] is canonicalized to the initial time. *)
Theorem time_wire_roundtrip :
  (forall t, scalar_ok (t_value t) ->
     exists bs, t_MarshalBinary t = Ret bs /\ length bs = 8%nat /\
       DecodeTime (t_Representation t) bs = Ret t) /\
  (forall k bs t, DecodeTime k bs = Ret t ->
     scalar_ok (t_value t) /\ t_Representation t = k /\
     (t_MarshalBinary t = Ret bs \/
      k = HLAfloat64Time /\ bs = neg_zero_bytes /\ IsInitial t = true)).
Proof.
  split.
  - intros [s] Hok. unfold t_MarshalBinary, encode, t_Representation. cbn [t_value] in *.
    rewrite ok_valid by done. cbn [negb]. eexists. split; [done|].
    split; [apply length_putBE|]. by apply decode_putBE.
  - intros k bs [s] H. unfold DecodeTime in H.
    destruct (decode k bs) as [s'| |] eqn:E; try done. injection H as ->.
    destruct (decode_ok _ _ _ E) as [Hok Hk]. split; [exact Hok|]. split; [exact Hk|].
    unfold t_MarshalBinary, encode, IsInitial. cbn [t_value]. rewrite ok_valid by done.
    cbn [negb andb]. destruct (decode_bits _ _ _ E) as [Eb|(-> & Eb & Ez)].
    + left. by rewrite Eb.
    + right. split; [done|]. split; [done|]. by rewrite Ez.
Qed.
