(* ===== verification/GoUtf8.v ===== *)
(** * Go strings as UTF-8

    A Go [string] is a byte sequence; it is modelled by the Standard Library's
    [string] (one [ascii] per byte).  [runes_of] is the conversion [[]rune(s)],
    which replaces an invalid byte by U+FFFD and goes on with the next byte;
    [string_of_runes] is [string(rs)], which writes U+FFFD for a surrogate or an
    out-of-range rune.  Both are rules of the Go language. *)
From Stdlib Require Import Strings.Byte.
From S2P Require Import Prelude GoBytes.
Open Scope Z_scope.

Definition bytes_of (s : string) : list byte := String.list_byte_of_string s.
Definition string_of (bs : list byte) : string := String.string_of_list_byte bs.

Lemma bytes_of_string_of bs : bytes_of (string_of bs) = bs.
Proof. apply String.list_byte_of_string_of_list_byte. Qed.
Lemma string_of_bytes_of s : string_of (bytes_of s) = s.
Proof. apply String.string_of_list_byte_of_string. Qed.

(** [unicode/utf16.IsSurrogate]. *)
Definition IsSurrogate (r : Z) : bool := (0xD800 <=? r) && (r <? 0xE000).
Definition RuneError : Z := 0xFFFD.

(** A Unicode scalar value: what a rune of valid text is. *)
Definition scalar_rune (r : Z) : Prop := 0 <= r <= 0x10FFFF /\ IsSurrogate r = false.

Definition encode_rune (r : Z) : list byte :=
  if (r <? 0) || (0x10FFFF <? r) || IsSurrogate r then
    [byteOf 0xEF; byteOf 0xBF; byteOf 0xBD]
  else if r <? 0x80 then [byteOf r]
  else if r <? 0x800 then [byteOf (0xC0 + r / 64); byteOf (0x80 + r mod 64)]
  else if r <? 0x10000 then
    [byteOf (0xE0 + r / 4096); byteOf (0x80 + r / 64 mod 64); byteOf (0x80 + r mod 64)]
  else
    [byteOf (0xF0 + r / 262144); byteOf (0x80 + r / 4096 mod 64);
     byteOf (0x80 + r / 64 mod 64); byteOf (0x80 + r mod 64)].

Definition between (lo hi z : Z) : bool := (lo <=? z) && (z <=? hi).
Definition cont (b : byte) : bool := between 0x80 0xBF (byteZ b).

(** The second byte's range depends on the first: no overlong forms, no
    surrogates, nothing above U+10FFFF. *)
Definition second_ok (b0 b1 : Z) : bool :=
  if b0 =? 0xE0 then between 0xA0 0xBF b1
  else if b0 =? 0xED then between 0x80 0x9F b1
  else if b0 =? 0xF0 then between 0x90 0xBF b1
  else if b0 =? 0xF4 then between 0x80 0x8F b1
  else between 0x80 0xBF b1.

Fixpoint decode_runes (bs : list byte) : list Z :=
  match bs with
  | [] => []
  | b0 :: r0 =>
      let x0 := byteZ b0 in
      if x0 <? 0x80 then x0 :: decode_runes r0
      else
        match r0 with
        | b1 :: r1 =>
            let x1 := byteZ b1 in
            if between 0xC2 0xDF x0 && cont b1 then
              ((x0 - 0xC0) * 64 + (x1 - 0x80)) :: decode_runes r1
            else
              match r1 with
              | b2 :: r2 =>
                  let x2 := byteZ b2 in
                  if between 0xE0 0xEF x0 && second_ok x0 x1 && cont b2 then
                    ((x0 - 0xE0) * 4096 + (x1 - 0x80) * 64 + (x2 - 0x80)) :: decode_runes r2
                  else
                    match r2 with
                    | b3 :: r3 =>
                        let x3 := byteZ b3 in
                        if between 0xF0 0xF4 x0 && second_ok x0 x1 && cont b2 && cont b3 then
                          ((x0 - 0xF0) * 262144 + (x1 - 0x80) * 4096 + (x2 - 0x80) * 64 + (x3 - 0x80))
                            :: decode_runes r3
                        else RuneError :: decode_runes r0
                    | [] => RuneError :: decode_runes r0
                    end
              | [] => RuneError :: decode_runes r0
              end
        | [] => RuneError :: decode_runes r0
        end
  end.

Definition runes_of (s : string) : list Z := decode_runes (bytes_of s).
Definition string_of_runes (rs : list Z) : string := string_of (concat (map encode_rune rs)).

Example runes_euro : runes_of (string_of_runes [0x41; 0x20AC; 0x1F600]) = [0x41; 0x20AC; 0x1F600].
Proof. reflexivity. Qed.
Example runes_invalid : decode_runes [byteOf 0xC3; byteOf 0x28] = [0xFFFD; 0x28].
Proof. reflexivity. Qed.

(** Decoding undoes encoding, rune by rune. *)
Lemma decode_encode_rune r bs : scalar_rune r ->
  decode_runes (encode_rune r ++ bs) = r :: decode_runes bs.
Proof.
  intros [Hr Hs]. unfold encode_rune. rewrite Hs, orb_false_r.
  destruct (Z.ltb_spec r 0); [lia|]. destruct (Z.ltb_spec 0x10FFFF r); [lia|]. cbn [orb].
  unfold IsSurrogate in Hs.
  pose proof (Z.div_mod r 64) as D1. pose proof (Z.mod_pos_bound r 64) as M1.
  pose proof (Z.div_mod (r / 64) 64) as D2. pose proof (Z.mod_pos_bound (r / 64) 64) as M2.
  pose proof (Z.div_mod (r / 4096) 64) as D3. pose proof (Z.mod_pos_bound (r / 4096) 64) as M3.
  assert (E2 : r / 64 / 64 = r / 4096) by (rewrite Z.div_div by lia; done).
  assert (E3 : r / 4096 / 64 = r / 262144) by (rewrite Z.div_div by lia; done).
  rewrite E2 in *. rewrite E3 in *.
  destruct (Z.ltb_spec r 0x80); [|destruct (Z.ltb_spec r 0x800);
    [|destruct (Z.ltb_spec r 0x10000)]].
  all: cbn [app decode_runes]; unfold cont; rewrite !byteZ_byteOf.
  all: rewrite ?(Z.mod_small _ 256) by lia.
  - destruct (Z.ltb_spec r 0x80); [done|lia].
  - destruct (Z.ltb_spec (0xC0 + r / 64) 0x80); [lia|].
    replace (between 0xC2 0xDF _) with true by (unfold between; zcases).
    replace (between 0x80 0xBF _) with true by (unfold between; zcases).
    cbn [andb]. f_equal. lia.
  - destruct (Z.ltb_spec (0xE0 + r / 4096) 0x80); [lia|].
    replace (between 0xC2 0xDF _) with false by (unfold between; zcases). cbn [andb].
    replace (between 0xE0 0xEF _) with true by (unfold between; zcases).
    replace (second_ok _ _) with true; cycle 1.
    { unfold second_ok, between. zcases. }
    replace (between 0x80 0xBF _) with true by (unfold between; zcases).
    cbn [andb]. f_equal. lia.
  - destruct (Z.ltb_spec (0xF0 + r / 262144) 0x80); [lia|].
    replace (between 0xC2 0xDF _) with false by (unfold between; zcases). cbn [andb].
    replace (between 0xE0 0xEF _) with false by (unfold between; zcases). cbn [andb].
    replace (between 0xF0 0xF4 _) with true by (unfold between; zcases).
    replace (second_ok _ _) with true; cycle 1.
    { unfold second_ok, between. zcases. }
    replace (between 0x80 0xBF (0x80 + r / 64 mod 64)) with true by (unfold between; zcases).
    replace (between 0x80 0xBF (0x80 + r mod 64)) with true by (unfold between; zcases).
    cbn [andb]. f_equal. lia.
Qed.

Lemma decode_encode_runes rs : Forall scalar_rune rs ->
  decode_runes (concat (map encode_rune rs)) = rs.
Proof.
  induction 1 as [|r rs Hr _ IH]; [done|]. simpl.
  by rewrite decode_encode_rune, IH.
Qed.

Lemma runes_of_string_of_runes rs : Forall scalar_rune rs ->
  runes_of (string_of_runes rs) = rs.
Proof.
  intros H. unfold runes_of, string_of_runes. rewrite bytes_of_string_of.
  by apply decode_encode_runes.
Qed.
