(* ===== verification/Encoding.v ===== *)
(** * The contract of [rti/pkg/encoding]

    [value] is the part of Go's [any] that the codecs inspect, [error] the
    package's sentinels and their wrappings, [Codec] the interface of
    [codec.go] as a record of operations.  [SafeCodec] and [LawfulCodec] are
    what a codec promises to the composite codecs built on it. *)
From Stdlib Require Import Strings.Byte.
From S2P Require Import Prelude GoBytes GoFloat GoUtf8.
Open Scope Z_scope.

(** ** Values of type [any]

    One constructor per dynamic type the package switches on; [VOther] is a
    value of any other type, of which only the type matters.  [VInt32] is also
    [rune] and [VUint8] is also [byte].  A [map[string]any] is an association
    list whose first entry for a key is the current one. *)
Inductive value :=
| VNil
| VBool (b : bool)
| VInt16 (x : Z)
| VInt32 (x : Z)
| VInt64 (x : Z)
| VInt (x : Z)
| VUint (x : Z)
| VUint8 (b : byte)
| VFloat32 (x : f32)
| VFloat64 (x : f64)
| VString (s : string)
| VBytes (bs : list byte)
| VPair (a b : byte)
| VArr (xs : list value)
| VMap (m : list (string * value))
| VOther (typ : string).

Fixpoint mapGet {A} (m : list (string * A)) (k : string) : option A :=
  match m with
  | [] => None
  | (k', v) :: m => if decide (k = k') then Some v else mapGet m k
  end.
Fixpoint mapSet {A} (m : list (string * A)) (k : string) (v : A) : list (string * A) :=
  match m with
  | [] => [(k, v)]
  | (k', v') :: m => if decide (k = k') then (k, v) :: m else (k', v') :: mapSet m k v
  end.

Lemma mapGet_mapSet {A} (m : list (string * A)) k v : mapGet (mapSet m k v) k = Some v.
Proof.
  induction m as [|[k' v'] m IH]; simpl; [by rewrite decide_True|].
  destruct (decide (k = k')) as [->|Hne]; simpl; [by rewrite decide_True|].
  by rewrite decide_False.
Qed.
Lemma mapGet_mapSet_ne {A} (m : list (string * A)) k k' v :
  k <> k' -> mapGet (mapSet m k v) k' = mapGet m k'.
Proof.
  intros Hne. induction m as [|[k0 v0] m IH]; simpl; [by rewrite decide_False|].
  destruct (decide (k = k0)) as [->|]; simpl.
  - by rewrite !decide_False.
  - destruct (decide (k' = k0)); [done|apply IH].
Qed.

(** ** Errors *)
Inductive error :=
| ErrEncTypeMismatch
| ErrEncShortBuffer
| ErrCodecForUnsupported
| errFloatShortBuffer
| errStringShortBuffer
| ErrSyntax                          (** [strconv.ErrSyntax] *)
| ErrRange                           (** [strconv.ErrRange] *)
| errHex                             (** an error of [encoding/hex] *)
| errNew (msg : string)              (** [errors.New], or [fmt.Errorf] without [%w] *)
| errWrap (msg : string) (e : error).  (** [fmt.Errorf] with [%w] *)

#[export] Instance error_eq_dec : EqDecision error.
Proof. solve_decision. Defined.

(** [errors.Is]. *)
Fixpoint errors_Is (e target : error) : bool :=
  bool_decide (e = target) || match e with errWrap _ e => errors_Is e target | _ => false end.

Abbreviation result := (outcome error).

(** ** The interface *)
Record Codec := {
  Encode : value -> result (list byte);
  Decode : list byte -> result (value * Z);
  OctetBoundary : Z;
}.

(** [b[pos:]] panics when [pos] is outside the slice. *)
Definition sliceFrom {E} (b : list byte) (pos : Z) : outcome E (list byte) :=
  if (0 <=? pos) && (pos <=? zlen b) then Ret (drop (Z.to_nat pos) b)
  else Panic "slice bounds out of range".

(** The largest allocation of the Go runtime on linux/amd64, and [make([]T, 0, n)]
    for an element of [size] bytes: [makeslice] panics beyond it. *)
Definition maxAlloc : Z := 2 ^ 48.
Definition makeCap {E} (size n : Z) : outcome E Datatypes.unit :=
  if (0 <=? n) && (size * n <=? maxAlloc) then Ret tt
  else Panic "makeslice: cap out of range".

(** What a codec promises whatever its input: it does not panic, its boundary
    is a boundary, and it consumes a prefix of its buffer. *)
Class SafeCodec (c : Codec) : Prop := {
  boundary_pos : 1 <= OctetBoundary c;
  encode_safe : forall v, no_panic (Encode c v);
  decode_safe : forall bs, no_panic (Decode c bs);
  decode_consumed : forall bs v n, Decode c bs = Ret (v, n) -> 0 <= n <= zlen bs;
}.

(** Values all of whose [float32]s are [float32]s and not signalling [NaN]s:
    decoding widens a [float32], which quiets such a [NaN]. *)
Definition f32_ok (x : f32) : Prop :=
  f32_wf x /\ (mag b32 (f32_bits x) <= inf_mag b32 \/ f32_quiet x).
Fixpoint quiet (v : value) : Prop :=
  match v with
  | VFloat32 x => f32_ok x
  | VArr xs => (fix go (xs : list value) : Prop :=
                  match xs with [] => True | x :: xs => quiet x /\ go xs end) xs
  | VMap m => (fix go (m : list (string * value)) : Prop :=
                 match m with [] => True | kv :: m => quiet (snd kv) /\ go m end) m
  | _ => True
  end.

Lemma quiet_arr xs : quiet (VArr xs) <-> Forall quiet xs.
Proof.
  induction xs as [|x xs IH]; [done|]. rewrite Forall_cons, <- IH. done.
Qed.
Lemma quiet_map_get m k v : quiet (VMap m) -> mapGet m k = Some v -> quiet v.
Proof.
  induction m as [|[k' v'] m IH]; [done|]. intros [H1 H2]. simpl.
  destruct (decide (k = k')); [by intros [= ->]|]. by apply IH.
Qed.
Lemma quiet_mapSet m k v : quiet (VMap m) -> quiet v -> quiet (VMap (mapSet m k v)).
Proof.
  intros Hm Hv. induction m as [|[k' v'] m IH]; [done|]. destruct Hm as [H1 H2]. simpl.
  destruct (decide (k = k')); split; try done. by apply IH.
Qed.

(** What an encoding means: whatever follows it in the buffer, it decodes to a
    value (the canonical form of the one encoded) that has the same encoding. *)
Definition decodes_as (c : Codec) (bs : list byte) (v' : value) : Prop :=
  quiet v' /\ Encode c v' = Ret bs /\ forall rest, Decode c (bs ++ rest) = Ret (v', zlen bs).

Class LawfulCodec (c : Codec) : Prop := {
  lawful_safe :: SafeCodec c;
  encode_decode : forall v bs, quiet v -> Encode c v = Ret bs -> exists v', decodes_as c bs v';
}.
#[export] Hint Resolve encode_safe decode_safe boundary_pos : gorti.

Lemma sliceFrom_Ret {E} (b : list byte) pos :
  0 <= pos <= zlen b -> sliceFrom (E:=E) b pos = Ret (drop (Z.to_nat pos) b).
Proof. intros H. unfold sliceFrom. by zcases. Qed.

Lemma sliceFrom_app {E} (a b : list byte) : sliceFrom (E:=E) (a ++ b) (zlen a) = Ret b.
Proof.
  rewrite sliceFrom_Ret.
  - unfold zlen. by rewrite Nat2Z.id, drop_app_length.
  - rewrite zlen_app. pose proof (zlen_nonneg b). pose proof (zlen_nonneg a). lia.
Qed.

Lemma sliceFrom_no_panic {E} (b : list byte) pos :
  0 <= pos <= zlen b -> no_panic (sliceFrom (E:=E) b pos).
Proof. intros H. by rewrite sliceFrom_Ret. Qed.

Lemma zlen_drop {A} (b : list A) pos : 0 <= pos <= zlen b -> zlen (drop (Z.to_nat pos) b) = zlen b - pos.
Proof. unfold zlen. rewrite length_drop. lia. Qed.

(** [m] succeeds with [f]'s argument, under any error context. *)
Lemma mapErr_bind_Ret {A B} (g : error -> error) (m : result A) (f : A -> result B) a :
  m = Ret a -> (mapErr g m ≫= f) = f a.
Proof. by intros ->. Qed.

(** A codec of a fixed width: [dec] reads exactly [n] octets. *)
Lemma fixed_width_lawful (c : Codec) (n : Z) (e : error) (dec : list byte -> result value) :
  1 <= OctetBoundary c -> 0 <= n ->
  (forall b, Decode c b = if zlen b <? n then Fail e
                          else v ← dec (take (Z.to_nat n) b); Ret (v, n)) ->
  (forall bs, no_panic (dec bs)) -> (forall v, no_panic (Encode c v)) ->
  (forall v bs, quiet v -> Encode c v = Ret bs ->
     zlen bs = n /\ exists v', quiet v' /\ dec bs = Ret v' /\ Encode c v' = Ret bs) ->
  LawfulCodec c.
Proof.
  intros Hb Hn Hd Hdn Hen Hrt. split; [split; [done|done| |]|].
  - intros bs. rewrite Hd. case_match; [done|]. apply bind_no_panic; [apply Hdn|done].
  - intros bs v m. rewrite Hd. destruct (Z.ltb_spec (zlen bs) n) as [|Hl]; [done|].
    intros E. bind_inv E. injection E as _ <-. lia.
  - intros v bs Hq He. destruct (Hrt v bs Hq He) as (Hl & v' & Hq' & Hv' & He').
    exists v'. split; [done|]. split; [done|]. intros rest. rewrite Hd, zlen_app.
    pose proof (zlen_nonneg rest). destruct (Z.ltb_spec (zlen bs + zlen rest) n); [lia|].
    rewrite <- Hl at 1. unfold zlen at 1. rewrite Nat2Z.id, take_app_length, Hv'. simpl. by rewrite Hl.
Qed.
