(* ===== verification/EncInteger.v ===== *)
(** * The integer codecs ([rti/pkg/encoding/integer.go])

    [HLAinteger16BE] ... [HLAinteger64LE] and the coercion [toInt64Any].  The
    big- and little-endian methods of a width differ in the byte order only and
    share a definition that takes it. *)
From Stdlib Require Import Strings.Byte.
From S2P Require Import Prelude GoBytes GoFloat Encoding.
Open Scope Z_scope.

Definition MaxInt64_float : f64 := f64_of_int (maxS 64).
Definition MinInt64_float : f64 := f64_of_int (minS 64).

(** A comparison of a [float64] with the untyped constant [math.MaxInt64] is
    made with the constant converted to [float64]. *)
Definition toInt64Any `{GoArch} (v : value) : result Z :=
  match v with
  | VInt16 x => Ret x
  | VInt32 x => Ret x
  | VInt64 x => Ret x
  | VInt x => Ret x
  | VFloat64 x =>
      if f64_isNaN x || f64_isInf x then
        Fail (errWrap "float64 value not representable" ErrEncTypeMismatch)
      else if f64_ltb x MinInt64_float || f64_ltb MaxInt64_float x then
        Fail (errNew "float64 value out of int64 range")
      else if negb (f64_integral x) then
        Fail (errWrap "float64 value has fractional part" ErrEncTypeMismatch)
      else Ret (f64_to_int64 x)
  | _ => Fail (errWrap "type" ErrEncTypeMismatch)
  end.

Definition toInt16 `{GoArch} (v : value) : result Z :=
  x ← toInt64Any v;
  if (x <? minS 16) || (maxS 16 <? x) then Fail (errNew "value out of range for int16")
  else Ret (wrapS 16 x).
Definition toInt32 `{GoArch} (v : value) : result Z :=
  x ← toInt64Any v;
  if (x <? minS 32) || (maxS 32 <? x) then Fail (errNew "value out of range for int32")
  else Ret (wrapS 32 x).
Definition toInt64 `{GoArch} (v : value) : result Z := toInt64Any v.

Definition integer16Bits (value : Z) : Z := wrapU 16 value.
Definition integer16FromBits (bits : Z) : Z := wrapS 16 bits.
Definition integer32Bits (value : Z) : Z := wrapU 32 value.
Definition integer32FromBits (bits : Z) : Z := wrapS 32 bits.
Definition integer64Bits (value : Z) : Z := wrapU 64 value.
Definition integer64FromBits (bits : Z) : Z := wrapS 64 bits.

Definition HLAinteger16_Encode `{GoArch} (e : endian) (v : value) : result (list byte) :=
  x ← toInt16 v; Ret (put e 2 (integer16Bits x)).
Definition HLAinteger16_Decode (e : endian) (b : list byte) : result (value * Z) :=
  if zlen b <? 2 then Fail ErrEncShortBuffer
  else Ret (VInt32 (integer16FromBits (get e (take 2 b))), 2).
Definition HLAinteger32_Encode `{GoArch} (e : endian) (v : value) : result (list byte) :=
  x ← toInt32 v; Ret (put e 4 (integer32Bits x)).
Definition HLAinteger32_Decode (e : endian) (b : list byte) : result (value * Z) :=
  if zlen b <? 4 then Fail ErrEncShortBuffer
  else Ret (VInt32 (integer32FromBits (get e (take 4 b))), 4).
Definition HLAinteger64_Encode `{GoArch} (e : endian) (v : value) : result (list byte) :=
  x ← toInt64 v; Ret (put e 8 (integer64Bits x)).
Definition HLAinteger64_Decode (e : endian) (b : list byte) : result (value * Z) :=
  if zlen b <? 8 then Fail ErrEncShortBuffer
  else Ret (VInt64 (integer64FromBits (get e (take 8 b))), 8).

Section Codecs.
Context `{GoArch}.
Definition HLAinteger16BE : Codec := Build_Codec (HLAinteger16_Encode BE) (HLAinteger16_Decode BE) 2.
Definition HLAinteger16LE : Codec := Build_Codec (HLAinteger16_Encode LE) (HLAinteger16_Decode LE) 2.
Definition HLAinteger32BE : Codec := Build_Codec (HLAinteger32_Encode BE) (HLAinteger32_Decode BE) 4.
Definition HLAinteger32LE : Codec := Build_Codec (HLAinteger32_Encode LE) (HLAinteger32_Decode LE) 4.
Definition HLAinteger64BE : Codec := Build_Codec (HLAinteger64_Encode BE) (HLAinteger64_Decode BE) 8.
Definition HLAinteger64LE : Codec := Build_Codec (HLAinteger64_Encode LE) (HLAinteger64_Decode LE) 8.
End Codecs.

(** The six codecs by width and byte order. *)
Inductive iwidth := W16 | W32 | W64.
Definition octets (w : iwidth) : nat := match w with W16 => 2 | W32 => 4 | W64 => 8 end.
Definition bits (w : iwidth) : Z := 8 * Z.of_nat (octets w).
Definition integerCodec `{GoArch} (w : iwidth) (e : endian) : Codec :=
  match w, e with
  | W16, BE => HLAinteger16BE | W16, LE => HLAinteger16LE
  | W32, BE => HLAinteger32BE | W32, LE => HLAinteger32LE
  | W64, BE => HLAinteger64BE | W64, LE => HLAinteger64LE
  end.
(** The dynamic type [Decode] gives: a 16-bit integer is widened. *)
Definition native (w : iwidth) (x : Z) : value :=
  match w with W64 => VInt64 x | _ => VInt32 x end.

(** ** Helper lemmas *)
Definition toIntW `{GoArch} (w : iwidth) (v : value) : result Z :=
  match w with W16 => toInt16 v | W32 => toInt32 v | W64 => toInt64 v end.

Lemma bits_pos w : 0 < bits w.
Proof. by destruct w. Qed.
#[export] Hint Resolve bits_pos : gorti.

Section Lemmas.
Context `{GoArch}.

Lemma toInt64Any_no_panic v : no_panic (toInt64Any v).
Proof. destruct v; simpl; try done. by repeat case_match. Qed.

Lemma toIntW_no_panic w v : no_panic (toIntW w v).
Proof.
  destruct w; simpl; [| |apply toInt64Any_no_panic];
    (apply bind_no_panic; [apply toInt64Any_no_panic|intros; by case_match]).
Qed.

Lemma toIntW_native w x : inS (bits w) x -> toIntW w (native w x) = Ret x.
Proof.
  intros Hx. destruct w; simpl; [| |done]; unfold toInt16, toInt32; simpl;
    unfold inS in Hx; change (bits W16) with 16 in Hx; change (bits W32) with 32 in Hx;
    (destruct (_ || _) eqn:R; [exfalso; zcases|]); by rewrite wrapS_id.
Qed.

Lemma encode_eq w e v :
  Encode (integerCodec w e) v = x ← toIntW w v; Ret (put e (octets w) (wrapU (bits w) x)).
Proof. by destruct w, e. Qed.

Lemma decode_eq w e b :
  Decode (integerCodec w e) b =
    if zlen b <? Z.of_nat (octets w) then Fail ErrEncShortBuffer
    else Ret (native w (wrapS (bits w) (get e (take (octets w) b))), Z.of_nat (octets w)).
Proof. by destruct w, e. Qed.

Lemma encode_native w e x : inS (bits w) x ->
  Encode (integerCodec w e) (native w x) = Ret (put e (octets w) (wrapU (bits w) x)).
Proof. intros Hx. by rewrite encode_eq, toIntW_native. Qed.

Lemma get_bits w e bs : length bs = octets w -> inU (bits w) (get e bs).
Proof. intros E. pose proof (get_range e bs). unfold inU, maxU, bits. rewrite <- E. lia. Qed.

Lemma put_wrapS_get w e bs : length bs = octets w ->
  put e (octets w) (wrapU (bits w) (wrapS (bits w) (get e bs))) = bs.
Proof.
  intros E. rewrite wrapU_wrapS by (auto using get_bits with gorti).
  rewrite <- E. apply put_get.
Qed.

#[export] Instance integer_lawful w e : LawfulCodec (integerCodec w e).
Proof.
  apply (fixed_width_lawful _ (Z.of_nat (octets w)) ErrEncShortBuffer
    (fun bs => Ret (native w (wrapS (bits w) (get e bs))))).
  - by destruct w, e.
  - lia.
  - intros b. rewrite decode_eq, Nat2Z.id. done.
  - done.
  - intros v. rewrite encode_eq. apply bind_no_panic; [apply toIntW_no_panic|done].
  - intros v bs _. rewrite encode_eq. intros E. bind_inv E. apply Ret_inj in E as <-.
    unfold zlen. rewrite length_put. split; [done|].
    exists (native w (wrapS (bits w) r)).
    rewrite get_put_id by (apply wrapU_range; pose proof (bits_pos w); lia).
    rewrite wrapS_of_U. split; [by destruct w|]. split; [done|].
    rewrite encode_native by (apply wrapS_range; auto with gorti).
    by rewrite wrapU_of_S by auto with gorti.
Qed.
End Lemmas.

(** ** Properties *)
Section Theorems.
Context `{GoArch}.

(** Every integer of the width encodes to that many octets, its two's
    complement in the codec's byte order, and decodes from any buffer that
    starts with them; every buffer long enough decodes to an integer of the
    width, whose encoding is the octets read; a shorter one is refused. *)
Theorem integer_codec_bijective (w : iwidth) (e : endian) :
  (forall x rest, inS (bits w) x ->
     exists bs, Encode (integerCodec w e) (native w x) = Ret bs /\
       length bs = octets w /\ get e bs = x mod 2 ^ bits w /\
       Decode (integerCodec w e) (bs ++ rest) = Ret (native w x, Z.of_nat (octets w))) /\
  (forall b, Z.of_nat (octets w) <= zlen b ->
     exists x, inS (bits w) x /\
       Decode (integerCodec w e) b = Ret (native w x, Z.of_nat (octets w)) /\
       Encode (integerCodec w e) (native w x) = Ret (take (octets w) b)) /\
  (forall b, zlen b < Z.of_nat (octets w) -> Decode (integerCodec w e) b = Fail ErrEncShortBuffer).
Proof.
  split; [|split].
  - intros x rest Hx. exists (put e (octets w) (wrapU (bits w) x)).
    rewrite encode_native by done. rewrite length_put. split; [done|]. split; [done|].
    assert (Hu : inU (bits w) (wrapU (bits w) x)) by (apply wrapU_range; pose proof (bits_pos w); lia).
    split; [by rewrite get_put_id|].
    rewrite decode_eq, zlen_app. unfold zlen at 1. rewrite length_put.
    pose proof (zlen_nonneg rest). zbool; [lia|].
    rewrite take_app_le by (rewrite length_put; lia).
    rewrite take_ge by (rewrite length_put; lia).
    rewrite get_put_id by done. by rewrite wrapS_wrapU by auto with gorti.
  - intros b Hb. assert (Hl : length (take (octets w) b) = octets w).
    { rewrite length_take. unfold zlen in Hb. lia. }
    exists (wrapS (bits w) (get e (take (octets w) b))).
    assert (Hx : inS (bits w) (wrapS (bits w) (get e (take (octets w) b))))
      by (apply wrapS_range; auto with gorti).
    split; [done|]. rewrite decode_eq, encode_native by done. zbool; [lia|].
    by rewrite put_wrapS_get.
  - intros b Hb. rewrite decode_eq. by zcases.
Qed.

(** An integer of any accepted Go type is encoded exactly when it fits the
    width; out of range nothing is encoded and the error is not a type error. *)
Theorem integer_encode_range (w : iwidth) (e : endian) (x : Z) :
  inS 64 x ->
  (inS (bits w) x ->
     Encode (integerCodec w e) (VInt64 x) = Encode (integerCodec w e) (native w x)) /\
  (~ inS (bits w) x ->
     exists err, Encode (integerCodec w e) (VInt64 x) = Fail err /\
       errors_Is err ErrEncTypeMismatch = false).
Proof.
  intros H64. rewrite !encode_eq. unfold inS.
  destruct w; cbn [toIntW native]; unfold toInt16, toInt32, toInt64; cbn [toInt64Any mbind outcome_bind];
    (split; [done|]); intros Hn; change (bits W16) with 16 in Hn; change (bits W32) with 32 in Hn;
    change (bits W64) with 64 in Hn.
  - destruct (_ || _) eqn:R; [by eexists|]. exfalso. apply Hn. zcases.
  - destruct (_ || _) eqn:R; [by eexists|]. exfalso. apply Hn. zcases.
  - done.
Qed.
End Theorems.

Lemma integer_encode_range_witness :
  inS 64 40000 /\ exists err,
    Encode (integerCodec W16 BE) (VInt64 40000) = Fail err /\
    errors_Is err ErrEncTypeMismatch = false.
Proof.
  assert (H1 : inS 64 40000) by (split; vm_compute; congruence). split; [exact H1|].
  apply (integer_encode_range W16 BE 40000 H1). intros [_ B]. vm_compute in B. congruence.
Defined.


(** ** JSON numbers: [float64] arguments *)
Section Json.
Context `{GoArch}.

Lemma f64_val_max : f64_val MaxInt64_float = 2 ^ 63 * one_unit.
Proof. vm_compute. reflexivity. Qed.
Lemma f64_val_min : f64_val MinInt64_float = - 2 ^ 63 * one_unit.
Proof. vm_compute. reflexivity. Qed.

Lemma f64_ltb_finite x y : f64_isNaN x = false -> f64_isNaN y = false ->
  f64_ltb x y = (f64_val x <? f64_val y).
Proof. intros Hx Hy. unfold f64_ltb, f64_cmp2. by rewrite Hx, Hy. Qed.

Lemma one_unit_pos : 0 < one_unit.
Proof. by apply pow2_gt0. Qed.

Lemma toInt64Any_integral x z :
  f64_isNaN x = false -> f64_isInf x = false -> f64_val x = z * one_unit -> inS 64 z ->
  toInt64Any (VFloat64 x) = Ret z.
Proof.
  intros Hn Hi Hv [Hz1 Hz2]. unfold toInt64Any. rewrite Hn, Hi. cbn [orb].
  pose proof one_unit_pos as HU.
  rewrite !f64_ltb_finite by done. rewrite f64_val_max, f64_val_min, Hv.
  destruct (Z.ltb_spec (z * one_unit) (- 2 ^ 63 * one_unit)) as [L|_].
  { apply Z.mul_lt_mono_pos_r in L; [|done]. change (minS 64) with (- 2 ^ 63) in *. lia. }
  destruct (Z.ltb_spec (2 ^ 63 * one_unit) (z * one_unit)) as [L|_].
  { apply Z.mul_lt_mono_pos_r in L; [|done]. change (maxS 64) with (2 ^ 63 - 1) in *. lia. }
  unfold f64_integral. rewrite Hv, Z.mod_mul by lia. cbn [orb negb Z.eqb].
  unfold f64_to_int64, f64_trunc. rewrite Hn, Hi, Hv. cbn [orb].
  rewrite Z.quot_mul by lia. f_equal. zcases.
Qed.

(** A [float64] argument (what JSON numbers arrive as) that holds an
    integer is encoded as that integer; one with a fraction, a [NaN] and an
    infinity are refused as type mismatches. *)
Theorem integer_encode_float64 (w : iwidth) (e : endian) (x : f64) :
  (forall z, f64_isNaN x = false -> f64_isInf x = false ->
     f64_val x = z * one_unit -> inS 64 z ->
     Encode (integerCodec w e) (VFloat64 x) = Encode (integerCodec w e) (VInt64 z)) /\
  (f64_isNaN x || f64_isInf x = true \/
   f64_val x mod one_unit <> 0 /\ Z.abs (f64_val x) <= 2 ^ 63 * one_unit ->
     exists err, Encode (integerCodec w e) (VFloat64 x) = Fail err /\
       errors_Is err ErrEncTypeMismatch = true).
Proof.
  split.
  - intros z Hn Hi Hv Hz. rewrite !encode_eq. pose proof (toInt64Any_integral x z Hn Hi Hv Hz) as E.
    by destruct w; cbn [toIntW]; unfold toInt16, toInt32, toInt64; rewrite E.
  - intros Hx.
    assert (exists err, toInt64Any (VFloat64 x) = Fail err /\ errors_Is err ErrEncTypeMismatch = true)
      as (err & E & He).
    { unfold toInt64Any. destruct (f64_isNaN x || f64_isInf x) eqn:Hn; [by eexists|].
      destruct Hx as [Hx|[Hf Ha]]; [done|]. apply orb_false_iff in Hn as [Hn Hi].
      pose proof one_unit_pos. rewrite !f64_ltb_finite by done. rewrite f64_val_max, f64_val_min.
      destruct (Z.ltb_spec (f64_val x) (- 2 ^ 63 * one_unit)); [lia|].
      destruct (Z.ltb_spec (2 ^ 63 * one_unit) (f64_val x)); [lia|].
      unfold f64_integral. destruct (Z.eqb_spec (f64_val x mod one_unit) 0); [done|]. by eexists. }
    exists err. split; [|done]. rewrite encode_eq.
    by destruct w; cbn [toIntW]; unfold toInt16, toInt32, toInt64; rewrite E.
Qed.
End Json.

Lemma integer_encode_float64_witness :
  Encode (integerCodec W16 BE) (VFloat64 (F64 0xC008000000000000)) =
    Encode (integerCodec W16 BE) (VInt64 (-3)) /\
  exists err, Encode (integerCodec W32 LE) (VFloat64 (F64 0x3FE0000000000000)) = Fail err /\
       errors_Is err ErrEncTypeMismatch = true.
Proof.
  split.
  - apply (integer_encode_float64 W16 BE (F64 0xC008000000000000));
      [vm_compute; reflexivity|vm_compute; reflexivity|vm_compute; reflexivity|].
    split; vm_compute; congruence.
  - apply (integer_encode_float64 W32 LE (F64 0x3FE0000000000000)). right.
    split; vm_compute; congruence.
Defined.


(** The range guard admits the float [2^63] -- [math.MaxInt64] is rounded
    up to it for the comparison -- so on amd64 the 64-bit codec encodes it as
    [-2^63] and reports no error. *)
Theorem integer64_float_2p63 :
  Encode (@HLAinteger64BE amd64) (VFloat64 (f64_of_int (2 ^ 63))) =
    Encode (@HLAinteger64BE amd64) (VInt64 (minS 64)) /\
  is_Ret (Encode (@HLAinteger64BE amd64) (VFloat64 (f64_of_int (2 ^ 63)))).
Proof. split; [vm_compute; reflexivity|]. eexists. vm_compute. reflexivity. Qed.
