(* ===== verification/EncPrimitive.v ===== *)
(** * The float, octet, character, string and opaque codecs

    [rti/pkg/encoding]: [float.go], [byte.go], [string.go] and [opaque.go].
    [hex_DecodeString] is [encoding/hex] of Go's standard library. *)
From Stdlib Require Import Strings.Byte.
From S2P Require Import Prelude GoBytes GoFloat GoUtf8 Encoding.
Open Scope Z_scope.

(** ** Floats *)
Definition asFloat32 `{GoArch} (v : value) : option f32 :=
  match v with
  | VFloat32 f => Some f
  | VFloat64 f => Some (f64_to_f32 f)
  | _ => None
  end.
Definition asFloat64 `{GoArch} (v : value) : option f64 :=
  match v with
  | VFloat64 f => Some f
  | VFloat32 f => Some (f32_to_f64 f)
  | _ => None
  end.

Definition hlaFloat32_Encode `{GoArch} (e : endian) (v : value) : result (list byte) :=
  match asFloat32 v with
  | None => Fail (errNew "want float32 or float64")
  | Some f => Ret (put e 4 (Float32bits f))
  end.
Definition hlaFloat32_Decode `{GoArch} (e : endian) (b : list byte) : result (value * Z) :=
  if zlen b <? 4 then Fail errFloatShortBuffer
  else Ret (VFloat64 (f32_to_f64 (Float32frombits (get e (take 4 b)))), 4).
Definition hlaFloat64_Encode `{GoArch} (e : endian) (v : value) : result (list byte) :=
  match asFloat64 v with
  | None => Fail (errNew "want float32 or float64")
  | Some f => Ret (put e 8 (Float64bits f))
  end.
Definition hlaFloat64_Decode (e : endian) (b : list byte) : result (value * Z) :=
  if zlen b <? 8 then Fail errFloatShortBuffer
  else Ret (VFloat64 (Float64frombits (get e (take 8 b))), 8).

Section FloatCodecs.
Context `{GoArch}.
Definition hlaFloat32BE : Codec := Build_Codec (hlaFloat32_Encode BE) (hlaFloat32_Decode BE) 4.
Definition hlaFloat32LE : Codec := Build_Codec (hlaFloat32_Encode LE) (hlaFloat32_Decode LE) 4.
Definition hlaFloat64BE : Codec := Build_Codec (hlaFloat64_Encode BE) (hlaFloat64_Decode BE) 8.
Definition hlaFloat64LE : Codec := Build_Codec (hlaFloat64_Encode LE) (hlaFloat64_Decode LE) 8.
End FloatCodecs.
Definition float32Codec `{GoArch} (e : endian) : Codec :=
  match e with BE => hlaFloat32BE | LE => hlaFloat32LE end.
Definition float64Codec `{GoArch} (e : endian) : Codec :=
  match e with BE => hlaFloat64BE | LE => hlaFloat64LE end.

(** ** Octets *)
Definition rangeCheckByte (x : Z) : result byte :=
  if (x <? 0) || (0xFF <? x) then Fail (errNew "HLAoctet value out of range [0,255]")
  else Ret (byteOf x).

Definition octetFromAny `{GoArch} (v : value) : result byte :=
  match v with
  | VUint8 x => Ret x
  | VInt x => rangeCheckByte x
  | VInt32 x => rangeCheckByte x
  | VInt64 x => rangeCheckByte x
  | VUint x =>
      if 0xFF <? x then Fail (errNew "HLAoctet value out of range [0,255]") else Ret (byteOf x)
  | VFloat64 x =>
      if negb (f64_eqb x (f64_of_int (f64_to_int64 x))) then
        Fail (errNew "HLAoctet value not an integer")
      else rangeCheckByte (f64_to_int64 x)
  | _ => Fail (errNew "HLAoctet cannot encode")
  end.

Definition HLAoctet_Encode `{GoArch} (v : value) : result (list byte) :=
  b ← octetFromAny v; Ret [b].
Definition HLAoctet_Decode (b : list byte) : result (value * Z) :=
  match b with
  | b0 :: _ => Ret (VUint8 b0, 1)
  | [] => Fail (errNew "HLAoctet decode short buffer")
  end.
Definition HLAoctet `{GoArch} : Codec := Build_Codec HLAoctet_Encode HLAoctet_Decode 1.

(** In range, [byte(x)] of a [float64] is its integer part. *)
Definition coerceOctet `{GoArch} (v : value) : result byte :=
  match v with
  | VFloat64 x =>
      if f64_ltb x f64_zero || f64_ltb (f64_of_int 255) x
         || negb (f64_eqb x (f64_of_int (f64_to_int64 x)))
      then Fail (errNew "HLAoctetPair element out of byte range")
      else Ret (byteOf (f64_trunc x))
  | VInt x =>
      if (x <? 0) || (255 <? x) then Fail (errNew "HLAoctetPair element out of byte range")
      else Ret (byteOf x)
  | VUint8 x => Ret x
  | _ => Fail (errNew "HLAoctetPair element has unexpected type")
  end.

Definition octetPairBytes `{GoArch} (v : value) : result (byte * byte) :=
  match v with
  | VPair a b => Ret (a, b)
  | VBytes [a; b] => Ret (a, b)
  | VBytes _ => Fail (errNew "HLAoctetPair requires exactly 2 bytes")
  | VArr [x; y] => a ← coerceOctet x; b ← coerceOctet y; Ret (a, b)
  | VArr _ => Fail (errNew "HLAoctetPair requires exactly 2 elements")
  | _ => Fail (errNew "HLAoctetPair cannot encode")
  end.

Definition HLAoctetPairBE_Encode `{GoArch} (v : value) : result (list byte) :=
  ab ← octetPairBytes v; Ret [fst ab; snd ab].
Definition HLAoctetPairBE_Decode (b : list byte) : result (value * Z) :=
  match b with
  | b0 :: b1 :: _ => Ret (VPair b0 b1, 2)
  | _ => Fail (errNew "HLAoctetPairBE decode short buffer")
  end.
Definition HLAoctetPairLE_Encode `{GoArch} (v : value) : result (list byte) :=
  ab ← octetPairBytes v; Ret [snd ab; fst ab].
Definition HLAoctetPairLE_Decode (b : list byte) : result (value * Z) :=
  match b with
  | b0 :: b1 :: _ => Ret (VPair b1 b0, 2)
  | _ => Fail (errNew "HLAoctetPairLE decode short buffer")
  end.
Definition HLAoctetPairBE `{GoArch} : Codec := Build_Codec HLAoctetPairBE_Encode HLAoctetPairBE_Decode 2.
Definition HLAoctetPairLE `{GoArch} : Codec := Build_Codec HLAoctetPairLE_Encode HLAoctetPairLE_Decode 2.

(** ** Booleans *)
Definition HLAboolean_Encode (v : value) : result (list byte) :=
  match v with
  | VBool true => Ret [byteOf 0; byteOf 0; byteOf 0; byteOf 1]
  | VBool false => Ret [byteOf 0; byteOf 0; byteOf 0; byteOf 0]
  | _ => Fail (errNew "HLAboolean cannot encode")
  end.
Definition HLAboolean_Decode (b : list byte) : result (value * Z) :=
  match b with
  | b0 :: b1 :: b2 :: b3 :: _ =>
      let v := Z.lor (Z.lor (Z.lor (Z.shiftl (byteZ b0) 24) (Z.shiftl (byteZ b1) 16))
                            (Z.shiftl (byteZ b2) 8)) (byteZ b3) in
      Ret (VBool (negb (v =? 0)), 4)
  | _ => Fail (errNew "HLAboolean decode short buffer")
  end.
Definition HLAboolean : Codec := Build_Codec HLAboolean_Encode HLAboolean_Decode 4.

(** ** Characters *)
Definition HLAASCIIchar_Encode (v : value) : result (list byte) :=
  match v with
  | VString x =>
      match bytes_of x with
      | [c] => if 0x7F <? byteZ c then Fail (errNew "HLAASCIIchar value out of ASCII range")
               else Ret [c]
      | _ => Fail (errNew "HLAASCIIchar requires single-character string")
      end
  | VInt32 x =>
      if (x <? 0) || (0x7F <? x) then Fail (errNew "HLAASCIIchar rune out of ASCII range")
      else Ret [byteOf x]
  | VUint8 x =>
      if 0x7F <? byteZ x then Fail (errNew "HLAASCIIchar byte out of ASCII range") else Ret [x]
  | _ => Fail (errNew "HLAASCIIchar cannot encode")
  end.
Definition HLAASCIIchar_Decode (b : list byte) : result (value * Z) :=
  match b with
  | [] => Fail (errNew "HLAASCIIchar decode short buffer")
  | b0 :: _ =>
      if 0x7F <? byteZ b0 then Fail (errNew "HLAASCIIchar byte out of ASCII range")
      else Ret (VString (string_of [b0]), 1)
  end.
Definition HLAASCIIchar : Codec := Build_Codec HLAASCIIchar_Encode HLAASCIIchar_Decode 1.

(** A UTF-16BE code unit. *)
Definition unit_bytes (r : Z) : list byte :=
  let u := wrapU 16 r in [byteOf (Z.shiftr u 8); byteOf u].
Definition unit_of (b0 b1 : byte) : Z := Z.lor (Z.shiftl (byteZ b0) 8) (byteZ b1).

Definition HLAunicodeChar_Encode (v : value) : result (list byte) :=
  r ← match v with
      | VString x =>
          match runes_of x with
          | [r] => Ret r
          | _ => Fail (errNew "HLAunicodeChar requires single-rune string")
          end
      | VInt32 x => Ret x
      | _ => Fail (errNew "HLAunicodeChar cannot encode")
      end;
  if (r <? 0) || (0xFFFF <? r) then Fail (errNew "HLAunicodeChar code point outside BMP")
  else if IsSurrogate r then Fail (errNew "HLAunicodeChar code point is a UTF-16 surrogate")
  else Ret (unit_bytes r).
Definition HLAunicodeChar_Decode (b : list byte) : result (value * Z) :=
  match b with
  | b0 :: b1 :: _ =>
      let u := unit_of b0 b1 in
      if IsSurrogate u then Fail (errNew "HLAunicodeChar code unit is a UTF-16 surrogate")
      else Ret (VString (string_of_runes [u]), 2)
  | _ => Fail (errNew "HLAunicodeChar decode short buffer")
  end.
Definition HLAunicodeChar : Codec := Build_Codec HLAunicodeChar_Encode HLAunicodeChar_Decode 2.

(** ** Strings *)
Definition MaxUint32 : Z := maxU 32.

Definition HLAASCIIstring_Encode (v : value) : result (list byte) :=
  match v with
  | VString s =>
      let bs := bytes_of s in
      if existsb (fun c => 0x7F <? byteZ c) bs then
        Fail (errNew "HLAASCIIstring byte out of ASCII range")
      else if MaxUint32 <? zlen bs then Fail (errNew "length exceeds the uint32 wire limit")
      else Ret (putBE 4 (zlen bs) ++ bs)
  | _ => Fail (errNew "HLAASCIIstring cannot encode")
  end.
Definition HLAASCIIstring_Decode (b : list byte) : result (value * Z) :=
  if zlen b <? 4 then Fail errStringShortBuffer
  else
    let n := getBE (take 4 b) in
    if (n <? 0) || (zlen b <? 4 + n) then Fail errStringShortBuffer
    else
      let payload := take (Z.to_nat n) (drop 4 b) in
      if existsb (fun c => 0x7F <? byteZ c) payload then
        Fail (errNew "HLAASCIIstring byte out of ASCII range")
      else Ret (VString (string_of payload), 4 + n).
Definition HLAASCIIstring : Codec := Build_Codec HLAASCIIstring_Encode HLAASCIIstring_Decode 4.

(** The first rune that is not a BMP scalar value decides the error. *)
Fixpoint check_runes (rs : list Z) : result Datatypes.unit :=
  match rs with
  | [] => Ret tt
  | r :: rs =>
      if (r <? 0) || (0xFFFF <? r) then Fail (errNew "HLAunicodeString rune outside BMP")
      else if IsSurrogate r then Fail (errNew "HLAunicodeString rune is a UTF-16 surrogate")
      else check_runes rs
  end.
Definition HLAunicodeString_Encode (v : value) : result (list byte) :=
  match v with
  | VString s =>
      let runes := runes_of s in
      _ ← check_runes runes;
      if MaxUint32 <? zlen runes then Fail (errNew "length exceeds the uint32 wire limit")
      else Ret (putBE 4 (zlen runes) ++ concat (map unit_bytes runes))
  | _ => Fail (errNew "HLAunicodeString cannot encode")
  end.
(** The loop over the payload, two octets a code unit; [n] units are left. *)
Fixpoint read_units (n : nat) (b : list byte) : result (list Z) :=
  match n, b with
  | O, _ => Ret []
  | S n, b0 :: b1 :: b =>
      let u := unit_of b0 b1 in
      if IsSurrogate u then Fail (errNew "HLAunicodeString code unit is a UTF-16 surrogate")
      else us ← read_units n b; Ret (u :: us)
  | S _, _ => Panic "index out of range"
  end.
Definition HLAunicodeString_Decode (b : list byte) : result (value * Z) :=
  if zlen b <? 4 then Fail errStringShortBuffer
  else
    let n := getBE (take 4 b) in
    if (n <? 0) || (zlen b <? 4 + 2 * n) then Fail errStringShortBuffer
    else
      runes ← read_units (Z.to_nat n) (drop 4 b);
      Ret (VString (string_of_runes runes), 4 + 2 * n).
Definition HLAunicodeString : Codec := Build_Codec HLAunicodeString_Encode HLAunicodeString_Decode 4.

(** ** Opaque data *)
Definition hexDigit (b : byte) : option Z :=
  let z := byteZ b in
  if between 0x30 0x39 z then Some (z - 0x30)
  else if between 0x61 0x66 z then Some (z - 0x61 + 10)
  else if between 0x41 0x46 z then Some (z - 0x41 + 10)
  else None.
Fixpoint hex_DecodeString (bs : list byte) : result (list byte) :=
  match bs with
  | [] => Ret []
  | [_] => Fail errHex
  | h :: l :: bs =>
      match hexDigit h, hexDigit l with
      | Some x, Some y => rest ← hex_DecodeString bs; Ret (byteOf (16 * x + y) :: rest)
      | _, _ => Fail errHex
      end
  end.

Definition opaqueDataCodec_Encode (v : value) : result (list byte) :=
  xs ← match v with
       | VBytes t => Ret t
       | VString t =>
           if decide (t = ""%string) then Ret []
           else mapErr (errWrap "HLAopaqueData cannot decode string as hex")
                  (hex_DecodeString (bytes_of t))
       | _ => Fail (errNew "HLAopaqueData cannot encode")
       end;
  if MaxUint32 <? zlen xs then Fail (errNew "length exceeds the uint32 wire limit")
  else Ret (putBE 4 (zlen xs) ++ xs).
Definition opaqueDataCodec_Decode (b : list byte) : result (value * Z) :=
  if zlen b <? 4 then Fail (errNew "HLAopaqueData decode short buffer (length prefix)")
  else
    let n := getBE (take 4 b) in
    if (n <? 0) || (zlen b <? 4 + n) then
      Fail (errNew "HLAopaqueData decode short buffer (payload)")
    else Ret (VBytes (take (Z.to_nat n) (drop 4 b)), 4 + n).
Definition NewOpaqueData : Codec := Build_Codec opaqueDataCodec_Encode opaqueDataCodec_Decode 4.

Example encode_euro : HLAunicodeString_Encode (VString (string_of_runes [0x20AC])) =
  Ret [byteOf 0; byteOf 0; byteOf 0; byteOf 1; byteOf 0x20; byteOf 0xAC].
Proof. reflexivity. Qed.
Example encode_deadbeef : opaqueDataCodec_Encode (VString "dEad") =
  Ret [byteOf 0; byteOf 0; byteOf 0; byteOf 2; byteOf 0xde; byteOf 0xad].
Proof. reflexivity. Qed.

(** ** Helper lemmas *)
Lemma put_mod e n z : put e n (z mod 2 ^ (8 * Z.of_nat n)) = put e n z.
Proof. pose proof (put_get e (put e n z)) as P. by rewrite length_put, get_put in P. Qed.

Lemma lor_shiftl8 a b : 0 <= b < 256 -> Z.lor (Z.shiftl a 8) b = a * 256 + b.
Proof.
  intros Hb. assert (Hand : Z.land (Z.shiftl a 8) b = 0).
  { apply Z.bits_inj'. intros n Hn. rewrite Z.land_spec, Z.bits_0, Z.shiftl_spec by done.
    destruct (Z_lt_le_dec n 8) as [Hlt|Hge]; [by rewrite Z.testbit_neg_r by lia|].
    rewrite <- (Z.mod_small b (2 ^ 8)) by lia. rewrite Z.mod_pow2_bits_high by lia.
    apply andb_false_r. }
  rewrite <- Z.lxor_lor, <- Z.add_nocarry_lxor by done.
  rewrite Z.shiftl_mul_pow2 by lia. change (2 ^ 8) with 256. lia.
Qed.

Lemma unit_of_eq b0 b1 : unit_of b0 b1 = byteZ b0 * 256 + byteZ b1.
Proof. apply lor_shiftl8, byteZ_range. Qed.
Lemma unit_of_range b0 b1 : 0 <= unit_of b0 b1 <= 0xFFFF.
Proof. rewrite unit_of_eq. pose proof (byteZ_range b0). pose proof (byteZ_range b1). lia. Qed.

Lemma unit_bytes_eq r : 0 <= r <= 0xFFFF -> unit_bytes r = [byteOf (r / 256); byteOf r].
Proof.
  intros Hr. unfold unit_bytes. rewrite wrapU_id by (unfold inU, maxU; lia).
  rewrite Z.shiftr_div_pow2 by lia. done.
Qed.
Lemma unit_of_bytes r : 0 <= r <= 0xFFFF -> unit_of (byteOf (r / 256)) (byteOf r) = r.
Proof.
  intros Hr. rewrite unit_of_eq, !byteZ_byteOf. pose proof (Z.div_mod r 256).
  rewrite (Z.mod_small (r / 256)); [lia|]. split; [apply Z.div_pos; lia|apply Z.div_lt_upper_bound; lia].
Qed.
Lemma unit_bytes_of b0 b1 : unit_bytes (unit_of b0 b1) = [b0; b1].
Proof.
  rewrite unit_bytes_eq by apply unit_of_range. rewrite unit_of_eq.
  pose proof (byteZ_range b0). pose proof (byteZ_range b1).
  rewrite Z.div_add_l, Z.div_small, Z.add_0_r by lia. f_equal; [apply byteOf_byteZ|]. f_equal.
  apply byteZ_inj. rewrite byteZ_byteOf, Z.add_comm, Z_mod_plus_full. by apply Z.mod_small.
Qed.

Lemma zlen_putBE n z : zlen (putBE n z) = Z.of_nat n.
Proof. unfold zlen. by rewrite length_putBE. Qed.
Lemma prefix_get n p : inU 32 n -> getBE (take 4 (putBE 4 n ++ p)) = n.
Proof.
  intros Hn. rewrite take_app_le by (rewrite length_putBE; lia).
  rewrite take_ge by (rewrite length_putBE; lia). exact (get_put_id BE 4 n Hn).
Qed.
Lemma prefix_drop n p : drop 4 (putBE 4 n ++ p) = p.
Proof. apply drop_app_length'. by rewrite length_putBE. Qed.
Lemma prefix_put b : 4 <= zlen b -> putBE 4 (getBE (take 4 b)) = take 4 b.
Proof.
  intros H. rewrite <- (putBE_getBE (take 4 b)) at 2. f_equal.
  rewrite length_take. unfold zlen in H. lia.
Qed.
Lemma prefix_range b : inU 32 (getBE (take 4 b)).
Proof.
  pose proof (getBE_range (take 4 b)) as [H1 H2]. unfold inU, maxU.
  assert (2 ^ (8 * Z.of_nat (length (take 4 b))) <= 2 ^ 32)
    by (apply pow2_le; rewrite length_take; lia). lia.
Qed.

Lemma check_runes_no_panic rs : no_panic (check_runes rs).
Proof. induction rs as [|r rs IH]; simpl; [done|]. by repeat case_match. Qed.
Definition bmp (r : Z) : Prop := 0 <= r <= 0xFFFF /\ IsSurrogate r = false.
Lemma check_runes_spec rs : check_runes rs = Ret tt <-> Forall bmp rs.
Proof.
  induction rs as [|r rs IH]; simpl; [split; [constructor|done]|].
  rewrite Forall_cons, <- IH. unfold bmp.
  destruct (Z.ltb_spec r 0); simpl; [split; [done|lia]|].
  destruct (Z.ltb_spec 0xFFFF r); simpl; [split; [done|lia]|].
  destruct (IsSurrogate r); [|by intuition lia]. by split; [|intros [[??]?]].
Qed.
Lemma check_runes_inv rs u : check_runes rs = Ret u -> Forall bmp rs.
Proof. destruct u. apply check_runes_spec. Qed.
Lemma bmp_scalar r : bmp r -> scalar_rune r.
Proof. intros [H1 H2]. split; [lia|done]. Qed.
Lemma bmps_scalar rs : Forall bmp rs -> Forall scalar_rune rs.
Proof. intros Hf. eapply Forall_impl; [exact Hf|exact bmp_scalar]. Qed.

Lemma length_units rs : length (concat (map unit_bytes rs)) = (2 * length rs)%nat.
Proof. induction rs as [|r rs IH]; simpl; [done|]. rewrite IH. lia. Qed.

Lemma read_units_bytes rs rest : Forall bmp rs ->
  read_units (length rs) (concat (map unit_bytes rs) ++ rest) = Ret rs.
Proof.
  induction 1 as [|r rs [Hr Hs] _ IH]; [done|].
  cbn [map concat length]. rewrite unit_bytes_eq by done. cbn [app read_units].
  by rewrite unit_of_bytes, Hs, IH.
Qed.

Lemma read_units_inv n b us : read_units n b = Ret us ->
  length us = n /\ Forall bmp us /\ concat (map unit_bytes us) = take (2 * n) b.
Proof.
  revert b us. induction n as [|n IH]; intros b us; simpl; [by intros [= <-]|].
  destruct b as [|b0 [|b1 b]]; try done. destruct (IsSurrogate _) eqn:Hs; [done|].
  intros E. bind_inv E. injection E as <-. destruct (IH _ _ Hr) as (<- & Hb & Hc).
  split; [done|]. split; [constructor; [split; [apply unit_of_range|done]|done]|].
  cbn [map concat]. rewrite unit_bytes_of, Hc.
  by replace (length r + S (length r + 0))%nat with (S (2 * length r)) by lia.
Qed.

Lemma read_units_no_panic n b : (2 * n <= length b)%nat -> no_panic (read_units n b).
Proof.
  revert b. induction n as [|n IH]; intros b Hn; simpl; [done|].
  destruct b as [|b0 [|b1 b]]; simpl in Hn; try lia. case_match; [done|].
  apply bind_no_panic; [apply IH; lia|done].
Qed.

Lemma existsb_false_put bs : existsb (fun c => 0x7F <? byteZ c) bs = false <->
  Forall (fun c => byteZ c <= 0x7F) bs.
Proof.
  induction bs as [|b bs IH]; simpl; [by split|].
  rewrite Forall_cons, <- IH, orb_false_iff, Z.ltb_ge. done.
Qed.

(** ** Lawfulness *)
Section Lawful.
Context `{GoArch}.

Lemma asFloat32_ok v f : quiet v -> asFloat32 v = Some f -> f32_ok f.
Proof. destruct v; simpl; try done; intros Hq [= <-]; [done|]. apply f64_to_f32_ok. Qed.

#[export] Instance float32_lawful e : LawfulCodec (float32Codec e).
Proof.
  apply (fixed_width_lawful _ 4 errFloatShortBuffer
    (fun bs => Ret (VFloat64 (f32_to_f64 (F32 (get e bs)))))); try by destruct e.
  - intros v. by destruct e; simpl; unfold hlaFloat32_Encode; case_match.
  - intros v bs Hq He.
    assert (exists f, asFloat32 v = Some f /\ bs = put e 4 (f32_bits f)) as (f & Hf & ->).
    { destruct e; simpl in He; unfold hlaFloat32_Encode in He; case_match; try done;
        injection He as <-; eauto. }
    destruct (asFloat32_ok v f Hq Hf) as [Hwf Hk]. unfold zlen. rewrite length_put.
    split; [done|]. exists (VFloat64 (f32_to_f64 f)).
    rewrite get_put_id by done. split; [done|]. split; [by destruct f|].
    destruct e; cbn [Encode float32Codec hlaFloat32BE hlaFloat32LE];
      unfold hlaFloat32_Encode; cbn [asFloat32]; by rewrite narrow_widen.
Qed.

#[export] Instance float64_lawful e : LawfulCodec (float64Codec e).
Proof.
  apply (fixed_width_lawful _ 8 errFloatShortBuffer
    (fun bs => Ret (VFloat64 (F64 (get e bs))))); try by destruct e.
  - intros v. by destruct e; simpl; unfold hlaFloat64_Encode; case_match.
  - intros v bs Hq He.
    assert (exists f, bs = put e 8 (f64_bits f)) as (f & ->).
    { destruct e; simpl in He; unfold hlaFloat64_Encode in He; case_match; try done;
        injection He as <-; eauto. }
    unfold zlen. rewrite length_put. split; [done|].
    exists (VFloat64 (F64 (get e (put e 8 (f64_bits f))))). split; [done|]. split; [done|].
    rewrite get_put, <- (put_mod e 8). by destruct e.
Qed.

Lemma rangeCheckByte_no_panic x : no_panic (rangeCheckByte x).
Proof. unfold rangeCheckByte. by case_match. Qed.
Lemma octetFromAny_no_panic v : no_panic (octetFromAny v).
Proof.
  destruct v; simpl; try done; try apply rangeCheckByte_no_panic.
  - by case_match.
  - case_match; [done|]. apply rangeCheckByte_no_panic.
Qed.
Lemma coerceOctet_no_panic v : no_panic (coerceOctet v).
Proof. destruct v; simpl; try done; by case_match. Qed.
Lemma octetPairBytes_no_panic v : no_panic (octetPairBytes v).
Proof.
  destruct v as [| | | | | | | | | | |[|a [|b [|]]]| |[|x [|y [|]]]| |]; simpl; try done.
  apply bind_no_panic; [apply coerceOctet_no_panic|]. intros a _.
  apply bind_no_panic; [apply coerceOctet_no_panic|]. done.
Qed.

Lemma zlen_1 {A} (x : A) l : (zlen (x :: l) <? 1) = false.
Proof. unfold zlen. cbn [length]. apply Z.ltb_ge. lia. Qed.
Lemma zlen_2 {A} (x y : A) l : (zlen (x :: y :: l) <? 2) = false.
Proof. unfold zlen. simpl. apply Z.ltb_ge. lia. Qed.

#[export] Instance octet_lawful : LawfulCodec HLAoctet.
Proof.
  apply (fixed_width_lawful _ 1 (errNew "HLAoctet decode short buffer")
    (fun bs => match bs with b :: _ => Ret (VUint8 b) | [] => Fail errHex end)); try done.
  - intros [|b bs]; [done|]. by rewrite zlen_1.
  - by intros [|b bs].
  - intros v. apply bind_no_panic; [apply octetFromAny_no_panic|done].
  - intros v bs _ E. simpl in E. unfold HLAoctet_Encode in E. bind_inv E.
    injection E as <-. split; [done|]. by exists (VUint8 r).
Qed.

#[export] Instance octetPairBE_lawful : LawfulCodec HLAoctetPairBE.
Proof.
  apply (fixed_width_lawful _ 2 (errNew "HLAoctetPairBE decode short buffer")
    (fun bs => match bs with a :: b :: _ => Ret (VPair a b) | _ => Fail errHex end)); try done.
  - intros [|a [|b bs]]; [done|done|]. by rewrite zlen_2.
  - by intros [|a [|b bs]].
  - intros v. apply bind_no_panic; [apply octetPairBytes_no_panic|done].
  - intros v bs _ E. simpl in E. unfold HLAoctetPairBE_Encode in E. bind_inv E.
    injection E as <-. split; [done|]. by exists (VPair (fst r) (snd r)).
Qed.

#[export] Instance octetPairLE_lawful : LawfulCodec HLAoctetPairLE.
Proof.
  apply (fixed_width_lawful _ 2 (errNew "HLAoctetPairLE decode short buffer")
    (fun bs => match bs with a :: b :: _ => Ret (VPair b a) | _ => Fail errHex end)); try done.
  - intros [|a [|b bs]]; [done|done|]. by rewrite zlen_2.
  - by intros [|a [|b bs]].
  - intros v. apply bind_no_panic; [apply octetPairBytes_no_panic|done].
  - intros v bs _ E. simpl in E. unfold HLAoctetPairLE_Encode in E. bind_inv E.
    injection E as <-. split; [done|]. by exists (VPair (fst r) (snd r)).
Qed.
End Lawful.

#[export] Instance boolean_lawful : LawfulCodec HLAboolean.
Proof.
  split; [split|].
  - done.
  - intros v. destruct v as [| [] | | | | | | | | | | | | | |]; done.
  - by intros [|? [|? [|? [|? ?]]]].
  - intros [|b0 [|b1 [|b2 [|b3 bs]]]] v n; try done. intros [= _ <-].
    unfold zlen. simpl. lia.
  - intros v bs _ E. destruct v as [|b| | | | | | | | | | | | | |]; try done.
    exists (VBool b). by destruct b; injection E as <-.
Qed.

#[export] Instance asciiChar_lawful : LawfulCodec HLAASCIIchar.
Proof.
  split; [split|]; simpl; [lia| | | |].
  - intros v. destruct v; simpl; try done; by repeat case_match.
  - intros [|b bs]; simpl; [done|]. by case_match.
  - intros [|b bs] v n; simpl; [done|]. case_match; [done|]. intros [= _ <-]. unfold zlen. simpl. lia.
  - intros v bs _ E.
    assert (exists c, bs = [c] /\ byteZ c <= 0x7F) as (c & -> & Hc).
    { destruct v; simpl in E; try done.
      - destruct (_ || _) eqn:R; [done|]. injection E as <-. exists (byteOf x).
        split; [done|]. rewrite byteZ_byteOf, Z.mod_small; zcases.
      - case_match; [done|]. injection E as <-. exists b. zcases.
      - destruct (bytes_of s) as [|c [|]]; try done. case_match; [done|].
        injection E as <-. exists c. zcases. }
    exists (VString (string_of [c])). split; [done|]. split.
    + cbn [Encode HLAASCIIchar]. unfold HLAASCIIchar_Encode. rewrite bytes_of_string_of. zcases.
    + intros rest. cbn [Decode HLAASCIIchar HLAASCIIchar_Decode app]. zcases.
Qed.

#[export] Instance unicodeChar_lawful : LawfulCodec HLAunicodeChar.
Proof.
  split; [split|]; simpl; [lia| | | |].
  - intros v. apply bind_no_panic; [by destruct v; simpl; repeat case_match|].
    intros r _. by repeat case_match.
  - intros [|b0 [|b1 bs]]; simpl; try done. by case_match.
  - intros [|b0 [|b1 bs]] v n; simpl; try done. case_match; [done|]. intros [= _ <-].
    unfold zlen. simpl. lia.
  - intros v bs _ E. unfold HLAunicodeChar_Encode in E. bind_inv E. clear Hr.
    destruct (_ || _) eqn:R; [done|]. destruct (IsSurrogate r) eqn:Hs; [done|]. injection E as <-.
    assert (Hr : 0 <= r <= 0xFFFF) by zcases.
    exists (VString (string_of_runes [r])). split; [done|]. rewrite unit_bytes_eq by done. split.
    + cbn [Encode HLAunicodeChar]. unfold HLAunicodeChar_Encode.
      rewrite runes_of_string_of_runes by (repeat constructor; (lia || done)).
      simpl. by rewrite R, Hs, unit_bytes_eq.
    + intros rest. simpl. by rewrite unit_of_bytes, Hs.
Qed.

(** ** Length-prefixed codecs *)

(** The guards of the decoders on a buffer that starts with an encoding. *)
Lemma prefixed_guards n k (p : list byte) : inU 32 n -> k <= zlen p ->
  (zlen (putBE 4 n ++ p) <? 4) = false /\
  ((n <? 0) || (zlen (putBE 4 n ++ p) <? 4 + k)) = false.
Proof.
  intros [Hn _] Hk. rewrite zlen_app, zlen_putBE. pose proof (zlen_nonneg p).
  change (Z.of_nat 4) with 4. split; zcases.
Qed.

(** A decoder that got past its guards has [4 + k] octets. *)
Lemma take_prefix k b : 4 <= zlen b -> 0 <= k ->
  take (Z.to_nat (4 + k)) b = putBE 4 (getBE (take 4 b)) ++ take (Z.to_nat k) (drop 4 b).
Proof.
  intros Hb Hk. rewrite prefix_put, take_take_drop by done. f_equal. lia.
Qed.

Lemma zlen_take_drop {A} k (b : list A) : 0 <= k -> 4 + k <= zlen b -> zlen (take (Z.to_nat k) (drop 4 b)) = k.
Proof. unfold zlen. rewrite length_take, length_drop. lia. Qed.

Lemma take_zlen_app {A} (p rest : list A) : take (Z.to_nat (zlen p)) (p ++ rest) = p.
Proof. unfold zlen. by rewrite Nat2Z.id, take_app_length. Qed.

Section Ascii.
Lemma ascii_decode_app bs rest :
  Forall (fun c => byteZ c <= 0x7F) bs -> zlen bs <= MaxUint32 ->
  HLAASCIIstring_Decode ((putBE 4 (zlen bs) ++ bs) ++ rest) =
    Ret (VString (string_of bs), 4 + zlen bs).
Proof.
  intros Ha Hl. assert (Hu : inU 32 (zlen bs)) by (split; [apply zlen_nonneg|done]).
  unfold HLAASCIIstring_Decode. rewrite <- app_assoc.
  rewrite prefix_get, prefix_drop by done.
  destruct (prefixed_guards (zlen bs) (zlen bs) (bs ++ rest)) as [-> ->]; [done| |].
  { rewrite zlen_app. pose proof (zlen_nonneg rest). lia. }
  rewrite take_zlen_app. by apply existsb_false_put in Ha as ->.
Qed.

Lemma ascii_encode_inv v bs : HLAASCIIstring_Encode v = Ret bs ->
  exists p, bs = putBE 4 (zlen p) ++ p /\ Forall (fun c => byteZ c <= 0x7F) p /\ zlen p <= MaxUint32 /\
    v = VString (string_of p).
Proof.
  destruct v; try done. unfold HLAASCIIstring_Encode.
  destruct (existsb _ _) eqn:E; [done|]. apply existsb_false_put in E.
  destruct (Z.ltb_spec MaxUint32 (zlen (bytes_of s))); [done|]. intros [= <-].
  exists (bytes_of s). by rewrite string_of_bytes_of.
Qed.

Lemma ascii_encode p : Forall (fun c => byteZ c <= 0x7F) p -> zlen p <= MaxUint32 ->
  HLAASCIIstring_Encode (VString (string_of p)) = Ret (putBE 4 (zlen p) ++ p).
Proof.
  intros Ha Hl. unfold HLAASCIIstring_Encode. rewrite bytes_of_string_of.
  apply existsb_false_put in Ha as ->. destruct (Z.ltb_spec MaxUint32 (zlen p)); [lia|done].
Qed.

Lemma ascii_decode_inv b v n : HLAASCIIstring_Decode b = Ret (v, n) ->
  0 <= n <= zlen b /\ HLAASCIIstring_Encode v = Ret (take (Z.to_nat n) b).
Proof.
  unfold HLAASCIIstring_Decode. destruct (Z.ltb_spec (zlen b) 4) as [|H4]; [done|].
  pose proof (prefix_range b) as [Hn1 Hn2]. destruct (_ || _) eqn:R; [done|].
  destruct (existsb _ _) eqn:E; [done|]. intros [= <- <-].
  apply existsb_false_put in E. apply orb_false_iff in R as [_ R]. apply Z.ltb_ge in R.
  split; [lia|]. pose proof (zlen_take_drop _ b Hn1 R) as Hl.
  rewrite ascii_encode, take_prefix, Hl; [done..|]. unfold MaxUint32. lia.
Qed.

#[export] Instance asciiString_lawful : LawfulCodec HLAASCIIstring.
Proof.
  split; [split|].
  - done.
  - intros v. destruct v; try done. cbn [Encode HLAASCIIstring]. unfold HLAASCIIstring_Encode.
    by repeat case_match.
  - intros bs. cbn [Decode HLAASCIIstring]. unfold HLAASCIIstring_Decode. by repeat case_match.
  - intros bs v n E. by apply ascii_decode_inv in E as [? _].
  - intros v bs _ E. apply ascii_encode_inv in E as (p & -> & Ha & Hl & ->).
    exists (VString (string_of p)). split; [done|]. split; [by apply ascii_encode|].
    intros rest. rewrite zlen_app, zlen_putBE. by apply ascii_decode_app.
Qed.
End Ascii.

Section Unicode.
Lemma unicode_encode rs : Forall bmp rs -> zlen rs <= MaxUint32 ->
  HLAunicodeString_Encode (VString (string_of_runes rs)) =
    Ret (putBE 4 (zlen rs) ++ concat (map unit_bytes rs)).
Proof.
  intros Hr Hl. unfold HLAunicodeString_Encode.
  rewrite runes_of_string_of_runes by by apply bmps_scalar.
  apply check_runes_spec in Hr as ->. simpl. destruct (Z.ltb_spec MaxUint32 (zlen rs)); [lia|done].
Qed.

Lemma unicode_encode_inv v bs : HLAunicodeString_Encode v = Ret bs ->
  exists s, v = VString s /\ Forall bmp (runes_of s) /\ zlen (runes_of s) <= MaxUint32 /\
    bs = putBE 4 (zlen (runes_of s)) ++ concat (map unit_bytes (runes_of s)).
Proof.
  destruct v; try done. unfold HLAunicodeString_Encode. intros E. bind_inv E.
  apply check_runes_inv in Hr. destruct (Z.ltb_spec MaxUint32 (zlen (runes_of s))); [done|].
  injection E as <-. by exists s.
Qed.

Lemma zlen_units rs : zlen (concat (map unit_bytes rs)) = 2 * zlen rs.
Proof. unfold zlen. rewrite length_units. lia. Qed.

Lemma unicode_decode_app rs rest : Forall bmp rs -> zlen rs <= MaxUint32 ->
  HLAunicodeString_Decode ((putBE 4 (zlen rs) ++ concat (map unit_bytes rs)) ++ rest) =
    Ret (VString (string_of_runes rs), 4 + 2 * zlen rs).
Proof.
  intros Hr Hl. assert (Hu : inU 32 (zlen rs)) by (split; [apply zlen_nonneg|done]).
  unfold HLAunicodeString_Decode. rewrite <- app_assoc, prefix_get, prefix_drop by done.
  destruct (prefixed_guards (zlen rs) (2 * zlen rs) (concat (map unit_bytes rs) ++ rest)) as [-> ->];
    [done| |].
  { rewrite zlen_app, zlen_units. pose proof (zlen_nonneg rest). lia. }
  replace (Z.to_nat (zlen rs)) with (length rs) by (unfold zlen; lia). by rewrite read_units_bytes.
Qed.

Lemma unicode_decode_inv b v n : HLAunicodeString_Decode b = Ret (v, n) ->
  0 <= n <= zlen b /\ HLAunicodeString_Encode v = Ret (take (Z.to_nat n) b).
Proof.
  unfold HLAunicodeString_Decode. destruct (Z.ltb_spec (zlen b) 4) as [|H4]; [done|].
  pose proof (prefix_range b) as [Hn1 Hn2]. destruct (_ || _) eqn:R; [done|].
  apply orb_false_iff in R as [_ R]. apply Z.ltb_ge in R.
  intros E. bind_inv E. injection E as <- <-. apply read_units_inv in Hr as (Hl & Hb & Hc).
  split; [lia|]. assert (Hz : zlen r = getBE (take 4 b)) by (unfold zlen; lia).
  rewrite unicode_encode, take_prefix by (unfold MaxUint32, maxU in *; (done || lia)). do 2 f_equal; [by rewrite Hz|].
  rewrite Hc. f_equal. lia.
Qed.

#[export] Instance unicodeString_lawful : LawfulCodec HLAunicodeString.
Proof.
  split; [split|].
  - done.
  - intros v. destruct v; try done. cbn [Encode HLAunicodeString]. unfold HLAunicodeString_Encode.
    apply bind_no_panic; [apply check_runes_no_panic|]. intros _ _. by case_match.
  - intros bs. cbn [Decode HLAunicodeString]. unfold HLAunicodeString_Decode.
    destruct (Z.ltb_spec (zlen bs) 4); [done|]. destruct (_ || _) eqn:R; [done|].
    apply orb_false_iff in R as [_ R]. apply Z.ltb_ge in R. pose proof (prefix_range bs) as [Hn1 _].
    apply bind_no_panic; [|done]. apply read_units_no_panic. rewrite length_drop. unfold zlen in R. lia.
  - intros bs v n E. by apply unicode_decode_inv in E as [? _].
  - intros v bs _ E. apply unicode_encode_inv in E as (s & -> & Hb & Hl & ->).
    exists (VString (string_of_runes (runes_of s))). split; [done|].
    split; [by apply unicode_encode|].
    intros rest. rewrite zlen_app, zlen_putBE, zlen_units. by apply unicode_decode_app.
Qed.
End Unicode.

Section Opaque.
Lemma hex_no_panic bs : no_panic (hex_DecodeString bs).
Proof.
  assert (forall n bs, (length bs <= n)%nat -> no_panic (hex_DecodeString bs)) as Hn.
  { clear bs. induction n as [|n IH]; intros [|h [|l bs]]; simpl; intros Hl; try done; try lia.
    repeat case_match; try done. apply bind_no_panic; [apply IH; lia|done]. }
  by apply (Hn (length bs)).
Qed.

Lemma opaque_encode p : zlen p <= MaxUint32 ->
  opaqueDataCodec_Encode (VBytes p) = Ret (putBE 4 (zlen p) ++ p).
Proof. intros Hl. unfold opaqueDataCodec_Encode. simpl. destruct (Z.ltb_spec MaxUint32 (zlen p)); [lia|done]. Qed.

Lemma opaque_decode_app p rest : zlen p <= MaxUint32 ->
  opaqueDataCodec_Decode ((putBE 4 (zlen p) ++ p) ++ rest) = Ret (VBytes p, 4 + zlen p).
Proof.
  intros Hl. assert (Hu : inU 32 (zlen p)) by (split; [apply zlen_nonneg|done]).
  unfold opaqueDataCodec_Decode. rewrite <- app_assoc, prefix_get, prefix_drop by done.
  destruct (prefixed_guards (zlen p) (zlen p) (p ++ rest)) as [-> ->]; [done| |].
  { rewrite zlen_app. pose proof (zlen_nonneg rest). lia. }
  by rewrite take_zlen_app.
Qed.

Lemma opaque_decode_inv b v n : opaqueDataCodec_Decode b = Ret (v, n) ->
  0 <= n <= zlen b /\ opaqueDataCodec_Encode v = Ret (take (Z.to_nat n) b).
Proof.
  unfold opaqueDataCodec_Decode. destruct (Z.ltb_spec (zlen b) 4) as [|H4]; [done|].
  pose proof (prefix_range b) as [Hn1 Hn2]. destruct (_ || _) eqn:R; [done|].
  apply orb_false_iff in R as [_ R]. apply Z.ltb_ge in R. intros [= <- <-].
  split; [lia|]. pose proof (zlen_take_drop _ b Hn1 R) as Hl.
  rewrite opaque_encode, take_prefix, Hl; [done..|]. unfold MaxUint32. lia.
Qed.

#[export] Instance opaque_lawful : LawfulCodec NewOpaqueData.
Proof.
  split; [split|].
  - done.
  - intros v. cbn [Encode NewOpaqueData]. unfold opaqueDataCodec_Encode.
    apply bind_no_panic; [|intros r _; by destruct (MaxUint32 <? zlen r)]. destruct v; try done.
    case_match; [done|]. apply mapErr_no_panic, hex_no_panic.
  - intros bs. cbn [Decode NewOpaqueData]. unfold opaqueDataCodec_Decode. by repeat case_match.
  - intros bs v n E. by apply opaque_decode_inv in E as [? _].
  - intros v bs _ E. cbn [Encode NewOpaqueData] in E. unfold opaqueDataCodec_Encode in E.
    apply bind_Ret_inv in E as (r & Hr & E). destruct (Z.ltb_spec MaxUint32 (zlen r)); [done|]. apply Ret_inj in E as <-.
    exists (VBytes r). split; [done|]. split; [by apply opaque_encode|].
    intros rest. rewrite zlen_app, zlen_putBE. by apply opaque_decode_app.
Qed.
End Opaque.

(** ** Properties *)

(** The float codecs preserve bit patterns: a [float64] -- [NaN] payloads and
    signed zeros included -- decodes to itself; a [float32] decodes to its
    exact widening, which narrows back to the same [float32]. *)
Theorem float_codecs_exact `{GoArch} (e : endian) (rest : list byte) :
  (forall x, f64_wf x ->
     exists bs, Encode (float64Codec e) (VFloat64 x) = Ret bs /\ length bs = 8%nat /\
       get e bs = f64_bits x /\
       Decode (float64Codec e) (bs ++ rest) = Ret (VFloat64 x, 8)) /\
  (forall x, f32_ok x ->
     exists bs, Encode (float32Codec e) (VFloat32 x) = Ret bs /\ length bs = 4%nat /\
       get e bs = f32_bits x /\
       Decode (float32Codec e) (bs ++ rest) = Ret (VFloat64 (f32_to_f64 x), 4) /\
       Encode (float32Codec e) (VFloat64 (f32_to_f64 x)) = Ret bs).
Proof.
  split.
  - intros [b] Hx. exists (put e 8 b). rewrite length_put, get_put_id by done.
    split; [by destruct e|]. split; [done|]. split; [done|].
    assert (Hz : (zlen (put e 8 b ++ rest) <? 8) = false).
    { rewrite zlen_app. unfold zlen at 1. rewrite length_put. pose proof (zlen_nonneg rest). zcases. }
    assert (Hg : get e (take 8 (put e 8 b ++ rest)) = b).
    { rewrite take_app_le, take_ge, get_put_id by (rewrite ?length_put; (lia || done)). done. }
    destruct e; cbn [Decode float64Codec hlaFloat64BE hlaFloat64LE];
      unfold hlaFloat64_Decode; by rewrite Hz, Hg.
  - intros [b] [Hw Hk]. exists (put e 4 b). rewrite length_put, get_put_id by done.
    split; [by destruct e|]. split; [done|]. split; [done|].
    assert (Hz : (zlen (put e 4 b ++ rest) <? 4) = false).
    { rewrite zlen_app. unfold zlen at 1. rewrite length_put. pose proof (zlen_nonneg rest). zcases. }
    assert (Hg : get e (take 4 (put e 4 b ++ rest)) = b).
    { rewrite take_app_le, take_ge, get_put_id by (rewrite ?length_put; (lia || done)). done. }
    split.
    + destruct e; cbn [Decode float32Codec hlaFloat32BE hlaFloat32LE];
        unfold hlaFloat32_Decode; by rewrite Hz, Hg.
    + destruct e; cbn [Encode float32Codec hlaFloat32BE hlaFloat32LE];
        unfold hlaFloat32_Encode; cbn [asFloat32]; by rewrite narrow_widen.
Qed.
Lemma float_codecs_exact_witness : f64_wf (F64 0x7FF0000000000001) /\
  exists bs, Encode (float64Codec LE) (VFloat64 (F64 0x7FF0000000000001)) = Ret bs /\
    length bs = 8%nat /\ get LE bs = 0x7FF0000000000001 /\
    Decode (float64Codec LE) (bs ++ []) = Ret (VFloat64 (F64 0x7FF0000000000001), 8).
Proof.
  assert (H : f64_wf (F64 0x7FF0000000000001)) by (split; vm_compute; congruence).
  split; [exact H|]. exact (proj1 (float_codecs_exact LE []) _ H).
Defined.

(** A text of BMP characters survives [HLAunicodeString] whatever follows it
    in the buffer, an ASCII text [HLAASCIIstring], any octets [HLAopaqueData]. *)
Theorem string_codecs_roundtrip (rest : list byte) :
  (forall rs, Forall bmp rs -> zlen rs <= MaxUint32 ->
     exists bs, Encode HLAunicodeString (VString (string_of_runes rs)) = Ret bs /\
       Decode HLAunicodeString (bs ++ rest) = Ret (VString (string_of_runes rs), zlen bs)) /\
  (forall p, Forall (fun c => byteZ c <= 0x7F) p -> zlen p <= MaxUint32 ->
     exists bs, Encode HLAASCIIstring (VString (string_of p)) = Ret bs /\
       Decode HLAASCIIstring (bs ++ rest) = Ret (VString (string_of p), zlen bs)) /\
  (forall p, zlen p <= MaxUint32 ->
     exists bs, Encode NewOpaqueData (VBytes p) = Ret bs /\
       Decode NewOpaqueData (bs ++ rest) = Ret (VBytes p, zlen bs)).
Proof.
  split; [|split].
  - intros rs Hr Hl. exists (putBE 4 (zlen rs) ++ concat (map unit_bytes rs)).
    split; [by apply unicode_encode|]. rewrite zlen_app, zlen_putBE, zlen_units. by apply unicode_decode_app.
  - intros p Hp Hl. exists (putBE 4 (zlen p) ++ p).
    split; [by apply ascii_encode|]. rewrite zlen_app, zlen_putBE. by apply ascii_decode_app.
  - intros p Hl. exists (putBE 4 (zlen p) ++ p).
    split; [by apply opaque_encode|]. rewrite zlen_app, zlen_putBE. by apply opaque_decode_app.
Qed.
Lemma string_codecs_roundtrip_witness :
  Forall bmp [0x20AC; 0x41] /\
  exists bs, Encode HLAunicodeString (VString (string_of_runes [0x20AC; 0x41])) = Ret bs /\
    Decode HLAunicodeString (bs ++ [byteOf 7]) =
      Ret (VString (string_of_runes [0x20AC; 0x41]), zlen bs).
Proof.
  assert (H : Forall bmp [0x20AC; 0x41]) by (repeat constructor; vm_compute; congruence).
  split; [exact H|]. apply (string_codecs_roundtrip [byteOf 7]); [exact H|vm_compute; congruence].
Defined.

(** A length-prefixed value has one encoding: what a decoder accepts is
    exactly what the encoder writes for the value it returns. *)
Theorem prefixed_decode_exact (c : Codec) (b : list byte) (v : value) (n : Z) :
  c ∈ [HLAunicodeString; HLAASCIIstring; NewOpaqueData] ->
  Decode c b = Ret (v, n) ->
  4 <= n <= zlen b /\ Encode c v = Ret (take (Z.to_nat n) b).
Proof.
  intros Hc E.
  assert (0 <= n <= zlen b /\ Encode c v = Ret (take (Z.to_nat n) b)) as [Hn He].
  { rewrite !elem_of_cons, elem_of_nil in Hc. destruct Hc as [-> | [-> | [-> | []]]].
    - by apply unicode_decode_inv.
    - by apply ascii_decode_inv.
    - by apply opaque_decode_inv. }
  split; [|done]. split; [|lia].
  assert (Hp : exists k p, take (Z.to_nat n) b = putBE 4 k ++ p).
  { rewrite !elem_of_cons, elem_of_nil in Hc. destruct Hc as [-> | [-> | [-> | []]]].
    - apply unicode_encode_inv in He as (s & _ & _ & _ & ->). eauto.
    - apply ascii_encode_inv in He as (p & -> & _). eauto.
    - cbn [Encode NewOpaqueData] in He. unfold opaqueDataCodec_Encode in He.
      apply bind_Ret_inv in He as (p & _ & He). case_match; [done|].
      apply Ret_inj in He as <-. eauto. }
  destruct Hp as (k & p & Hp). apply (f_equal zlen) in Hp. rewrite zlen_app, zlen_putBE in Hp.
  pose proof (zlen_nonneg p). unfold zlen in Hp at 1. rewrite length_take in Hp. lia.
Qed.
Lemma prefixed_decode_exact_witness :
  4 <= 6 <= zlen (putBE 4 2 ++ [byteOf 0x41; byteOf 0x42; byteOf 0x43]) /\
  Encode HLAASCIIstring (VString "AB") =
    Ret (take 6 (putBE 4 2 ++ [byteOf 0x41; byteOf 0x42; byteOf 0x43])).
Proof.
  apply (prefixed_decode_exact HLAASCIIstring (putBE 4 2 ++ [byteOf 0x41; byteOf 0x42; byteOf 0x43])
    (VString "AB") 6); [|reflexivity]. rewrite !elem_of_cons; right; left; reflexivity.
Defined.

(** A boolean is four octets, true exactly when one of them is not zero. *)
Theorem boolean_decode_nonzero (b0 b1 b2 b3 : byte) (rest : list byte) :
  Decode HLAboolean (b0 :: b1 :: b2 :: b3 :: rest) =
    Ret (VBool (negb (forallb (fun b => byteZ b =? 0) [b0; b1; b2; b3])), 4).
Proof.
  simpl. do 3 f_equal. rewrite andb_true_r. apply eq_true_iff_eq.
  rewrite !negb_true_iff, Z.eqb_neq, !andb_false_iff, !Z.eqb_neq, !Z.lor_eq_0_iff, !Z.shiftl_eq_0_iff by lia.
  destruct (Z.eq_dec (byteZ b0) 0), (Z.eq_dec (byteZ b1) 0), (Z.eq_dec (byteZ b2) 0),
    (Z.eq_dec (byteZ b3) 0); intuition.
Qed.
