(* ===== verification/EncComposite.v ===== *)
(** * The composite codecs

    [rti/pkg/encoding]: [fixed_array.go], [variable_array.go],
    [fixed_record.go] and [variant_record.go].  A composite is built from
    [Codec]s; its lawfulness is proved from theirs ([LawfulCodec]).  The
    capacities passed to [make] are modelled where they come from a count that
    is not the length of a value in memory. *)
From Stdlib Require Import Strings.Byte.
From S2P Require Import Prelude GoBytes GoFloat GoUtf8 Encoding EncPrimitive.
Open Scope Z_scope.

(** ** Padding *)
Definition zeros (n : Z) : list byte := replicate (Z.to_nat n) (byteOf 0).

Definition padTo (b : list byte) (boundary : Z) : list byte :=
  if boundary <=? 1 then b
  else
    let rem := Z.rem (zlen b) boundary in
    if rem =? 0 then b else b ++ zeros (boundary - rem).
Definition alignTo (pos boundary : Z) : Z :=
  if boundary <=? 1 then pos
  else
    let rem := Z.rem pos boundary in
    if rem =? 0 then pos else pos + (boundary - rem).
Definition paddingFor (offset boundary : Z) : Z :=
  if boundary <=? 1 then 0
  else
    let rem := Z.rem offset boundary in
    if rem =? 0 then 0 else boundary - rem.
Definition padToBoundary (buf : list byte) (boundary : Z) : list byte :=
  buf ++ zeros (paddingFor (zlen buf) boundary).

(** ** Arrays *)

(** The loop over the elements, the same in both array codecs. *)
Fixpoint encodeElems (msg : string) (elem : Codec) (xs : list value) (out : list byte)
    : result (list byte) :=
  match xs with
  | [] => Ret out
  | x :: xs =>
      let out := padTo out (OctetBoundary elem) in
      b ← mapErr (errWrap msg) (Encode elem x);
      encodeElems msg elem xs (out ++ b)
  end.
Fixpoint decodeElems (msg : string) (elem : Codec) (n : nat) (b : list byte) (pos : Z)
    : result (list value * Z) :=
  match n with
  | O => Ret ([], pos)
  | S n =>
      let pos := alignTo pos (OctetBoundary elem) in
      if zlen b <? pos then Fail (errNew "array decode short buffer (alignment)")
      else
        s ← sliceFrom b pos;
        vn ← mapErr (errWrap msg) (Decode elem s);
        rest ← decodeElems msg elem n b (pos + snd vn);
        Ret (fst vn :: fst rest, snd rest)
  end.

Definition fixedArrayCodec_Encode (elem : Codec) (n : Z) (v : value) : result (list byte) :=
  match v with
  | VArr xs =>
      if negb (zlen xs =? n) then Fail (errNew "HLAfixedArray: wrong number of elements")
      else encodeElems "HLAfixedArray element" elem xs []
  | _ => Fail (errNew "HLAfixedArray cannot encode (want []any)")
  end.
Definition fixedArrayCodec_Decode (elem : Codec) (n : Z) (b : list byte) : result (value * Z) :=
  _ ← makeCap 16 n;
  r ← decodeElems "HLAfixedArray element" elem (Z.to_nat n) b 0;
  Ret (VArr (fst r), snd r).
Definition fixedArrayCodec (elem : Codec) (n : Z) : Codec :=
  Build_Codec (fixedArrayCodec_Encode elem n) (fixedArrayCodec_Decode elem n) (OctetBoundary elem).

(** [None] is a nil [Codec]. *)
Definition NewFixedArray (elem : option Codec) (n : Z) : result Codec :=
  match elem with
  | None => Panic "encoding: NewFixedArray: elem is nil"
  | Some elem =>
      if n <? 0 then Panic "encoding: NewFixedArray: negative cardinality"
      else Ret (fixedArrayCodec elem n)
  end.

Definition variableArrayCodec_Encode (elem : Codec) (v : value) : result (list byte) :=
  match v with
  | VArr xs =>
      if MaxUint32 <? zlen xs then Fail (errNew "length exceeds the uint32 wire limit")
      else encodeElems "HLAvariableArray element" elem xs (putBE 4 (zlen xs))
  | _ => Fail (errNew "HLAvariableArray cannot encode (want []any)")
  end.
Definition variableArrayCodec_Decode (elem : Codec) (b : list byte) : result (value * Z) :=
  if zlen b <? 4 then Fail (errNew "HLAvariableArray decode short buffer (length prefix)")
  else
    let n := getBE (take 4 b) in
    if n <? 0 then Fail (errNew "HLAvariableArray decode invalid length")
    else
      _ ← makeCap 16 n;
      r ← decodeElems "HLAvariableArray element" elem (Z.to_nat n) b 4;
      Ret (VArr (fst r), snd r).
Definition variableArrayCodec_OctetBoundary (elem : Codec) : Z :=
  let eb := OctetBoundary elem in if eb <? 4 then 4 else eb.
Definition variableArrayCodec (elem : Codec) : Codec :=
  Build_Codec (variableArrayCodec_Encode elem) (variableArrayCodec_Decode elem)
    (variableArrayCodec_OctetBoundary elem).
Definition NewVariableArray (elem : option Codec) : result Codec :=
  match elem with
  | None => Panic "encoding: NewVariableArray: elem is nil"
  | Some elem => Ret (variableArrayCodec elem)
  end.

(** ** Fixed records *)
Record FixedRecordField := { Name : string; FCodec : Codec }.

Definition FixedRecord_boundary (fields : list FixedRecordField) : Z :=
  fold_left (fun boundary f =>
    let b := OctetBoundary (FCodec f) in if boundary <? b then b else boundary) fields 1.

Fixpoint encodeFields (fields : list FixedRecordField) (m : list (string * value)) (out : list byte)
    : result (list byte) :=
  match fields with
  | [] => Ret out
  | f :: fields =>
      let out := padToBoundary out (OctetBoundary (FCodec f)) in
      match mapGet m (Name f) with
      | None => Fail (errNew "HLAfixedRecord field missing from input")
      | Some fv =>
          fb ← mapErr (errWrap "HLAfixedRecord field") (Encode (FCodec f) fv);
          encodeFields fields m (out ++ fb)
      end
  end.
Definition FixedRecord_Encode (fields : list FixedRecordField) (v : value) : result (list byte) :=
  match v with
  | VMap m => encodeFields fields m []
  | _ => Fail (errWrap "HLAfixedRecord want map[string]any" ErrEncTypeMismatch)
  end.
Fixpoint decodeFields (fields : list FixedRecordField) (b : list byte) (pos : Z)
    (out : list (string * value)) : result (list (string * value) * Z) :=
  match fields with
  | [] => Ret (out, pos)
  | f :: fields =>
      let pad := paddingFor pos (OctetBoundary (FCodec f)) in
      if zlen b <? pos + pad then Fail (errWrap "HLAfixedRecord padding before field" ErrEncShortBuffer)
      else
        let pos := pos + pad in
        s ← sliceFrom b pos;
        vn ← mapErr (errWrap "HLAfixedRecord field decode") (Decode (FCodec f) s);
        decodeFields fields b (pos + snd vn) (mapSet out (Name f) (fst vn))
  end.
Definition FixedRecord_Decode (fields : list FixedRecordField) (b : list byte) : result (value * Z) :=
  r ← decodeFields fields b 0 [];
  Ret (VMap (fst r), snd r).
Definition NewFixedRecord (fields : list FixedRecordField) : Codec :=
  Build_Codec (FixedRecord_Encode fields) (FixedRecord_Decode fields) (FixedRecord_boundary fields).

(** ** Variant records *)

(** [==] on two interface values of comparable dynamic types: different types
    are different, and floats compare as floats. *)
Definition f32_eqb (x y : f32) : bool :=
  let mx := mag b32 (f32_bits x) in let my := mag b32 (f32_bits y) in
  (mx <=? inf_mag b32) && (my <=? inf_mag b32) &&
  ((f32_bits x =? f32_bits y) || (mx =? 0) && (my =? 0)).
Definition any_eqb (v w : value) : bool :=
  match v, w with
  | VNil, VNil => true
  | VBool x, VBool y => Bool.eqb x y
  | VInt16 x, VInt16 y | VInt32 x, VInt32 y | VInt64 x, VInt64 y
  | VInt x, VInt y | VUint x, VUint y => x =? y
  | VUint8 x, VUint8 y => byteZ x =? byteZ y
  | VFloat32 x, VFloat32 y => f32_eqb x y
  | VFloat64 x, VFloat64 y => f64_eqb x y
  | VString x, VString y => bool_decide (x = y)
  | VPair a b, VPair c d => (byteZ a =? byteZ c) && (byteZ b =? byteZ d)
  | _, _ => false
  end.
(** A slice or a map (or a type the package does not know) as the key of a
    [map[any]Codec] is a runtime panic. *)
Definition hashable (v : value) : bool :=
  match v with VBytes _ | VArr _ | VMap _ | VOther _ => false | _ => true end.

Definition altsOf := list (value * Codec).
Definition altGet (alts : altsOf) (k : value) : result (option Codec) :=
  if hashable k then Ret (snd <$> find (fun kc => any_eqb (fst kc) k) alts)
  else Panic "runtime error: hash of unhashable type".
Fixpoint altPut (alts : altsOf) (k : value) (c : Codec) : altsOf :=
  match alts with
  | [] => [(k, c)]
  | (k', c') :: alts => if any_eqb k' k then (k', c) :: alts else (k', c') :: altPut alts k c
  end.
Definition altSet (alts : altsOf) (k : value) (c : Codec) : result altsOf :=
  if hashable k then Ret (altPut alts k c) else Panic "runtime error: hash of unhashable type".

Definition VariantRecord_boundary (disc : Codec) (alts : altsOf) : Z :=
  let boundary := fold_left (fun boundary kc =>
    let b := OctetBoundary (snd kc) in if boundary <? b then b else boundary)
    alts (OctetBoundary disc) in
  if boundary <? 1 then 1 else boundary.

Definition VariantRecord_Encode (disc : Codec) (alts : altsOf) (v : value) : result (list byte) :=
  match v with
  | VMap m =>
      match mapGet m "discriminator" with
      | None => Fail (errNew "HLAvariantRecord missing discriminator key")
      | Some d =>
          match mapGet m "value" with
          | None => Fail (errNew "HLAvariantRecord missing value key")
          | Some val =>
              discBytes ← mapErr (errWrap "HLAvariantRecord discriminator") (Encode disc d);
              canonical ← mapErr (errWrap "HLAvariantRecord discriminator decode") (Decode disc discBytes);
              alt ← altGet alts (fst canonical);
              match alt with
              | None => Fail (errWrap "HLAvariantRecord no alternative" ErrEncTypeMismatch)
              | Some alt =>
                  let out := padToBoundary discBytes (OctetBoundary alt) in
                  altBytes ← mapErr (errWrap "HLAvariantRecord alternative") (Encode alt val);
                  Ret (out ++ altBytes)
              end
          end
      end
  | _ => Fail (errWrap "HLAvariantRecord want map[string]any" ErrEncTypeMismatch)
  end.
Definition VariantRecord_Decode (disc : Codec) (alts : altsOf) (b : list byte) : result (value * Z) :=
  d ← mapErr (errWrap "HLAvariantRecord discriminator decode") (Decode disc b);
  alt ← altGet alts (fst d);
  match alt with
  | None => Fail (errWrap "HLAvariantRecord no alternative" ErrEncTypeMismatch)
  | Some alt =>
      let pos := snd d + paddingFor (snd d) (OctetBoundary alt) in
      if zlen b <? pos then
        Fail (errWrap "HLAvariantRecord padding to alternative boundary" ErrEncShortBuffer)
      else
        s ← sliceFrom b pos;
        vn ← mapErr (errWrap "HLAvariantRecord alternative decode") (Decode alt s);
        Ret (VMap [("discriminator"%string, fst d); ("value"%string, fst vn)], pos + snd vn)
  end.
Definition NewVariantRecord (disc : Codec) (alts : altsOf) : Codec :=
  Build_Codec (VariantRecord_Encode disc alts) (VariantRecord_Decode disc alts)
    (VariantRecord_boundary disc alts).

(** ** Padding lemmas *)
Lemma zlen_zeros n : 0 <= n -> zlen (zeros n) = n.
Proof. intros. unfold zlen, zeros. rewrite length_replicate. lia. Qed.

Lemma paddingFor_spec offset boundary : 0 <= offset -> 1 <= boundary ->
  0 <= paddingFor offset boundary < boundary /\
  (offset + paddingFor offset boundary) mod boundary = 0.
Proof.
  intros Ho Hb. unfold paddingFor. destruct (Z.leb_spec boundary 1).
  - assert (boundary = 1) as -> by lia. rewrite Z.mod_1_r. lia.
  - rewrite Z.rem_mod_nonneg by lia. pose proof (Z.mod_pos_bound offset boundary).
    destruct (Z.eqb_spec (offset mod boundary) 0) as [E|E].
    + rewrite Z.add_0_r. lia.
    + split; [lia|]. rewrite <- Zplus_mod_idemp_l.
      replace (offset mod boundary + (boundary - offset mod boundary)) with boundary by lia.
      by apply Z_mod_same_full.
Qed.

Lemma alignTo_eq pos boundary : alignTo pos boundary = pos + paddingFor pos boundary.
Proof. unfold alignTo, paddingFor. repeat case_match; lia. Qed.
Lemma padTo_eq b boundary : padTo b boundary = padToBoundary b boundary.
Proof.
  unfold padTo, padToBoundary, paddingFor. repeat case_match; try done; by rewrite app_nil_r.
Qed.

Lemma zlen_padToBoundary b k : 1 <= k -> zlen (padToBoundary b k) = zlen b + paddingFor (zlen b) k.
Proof.
  intros Hk. unfold padToBoundary. rewrite zlen_app, zlen_zeros; [done|].
  apply paddingFor_spec; [apply zlen_nonneg|done].
Qed.

Lemma paddingFor_nonneg offset k : 0 <= offset -> 1 <= k -> 0 <= paddingFor offset k.
Proof. intros. by apply paddingFor_spec. Qed.

(** Decoding [c] in [b] at a position: the slice is what follows the position. *)
Lemma decode_at_range c `{!SafeCodec c} b pos s v n :
  0 <= pos -> (zlen b <? pos) = false ->
  sliceFrom (E:=error) b pos = Ret s -> Decode c s = Ret (v, n) -> pos <= pos + n <= zlen b.
Proof.
  intros Hp Hl Hs Hd. apply Z.ltb_ge in Hl. rewrite sliceFrom_Ret in Hs by lia.
  injection Hs as <-. apply decode_consumed in Hd. rewrite zlen_drop in Hd by lia. lia.
Qed.

(** ** Arrays *)
Section Elems.
Context (msg : string) (elem : Codec).

Lemma encodeElems_safe `{!SafeCodec elem} xs out : no_panic (encodeElems msg elem xs out).
Proof.
  revert out. induction xs as [|x xs IH]; intros out; simpl; [done|].
  apply bind_no_panic; [auto with gorti|]. intros b _. apply IH.
Qed.

Lemma decodeElems_safe `{!SafeCodec elem} n b pos : 0 <= pos -> no_panic (decodeElems msg elem n b pos).
Proof.
  revert pos. induction n as [|n IH]; intros pos Hp; simpl; [done|].
  rewrite alignTo_eq. pose proof (paddingFor_nonneg pos (OctetBoundary elem) Hp boundary_pos).
  destruct (Z.ltb_spec (zlen b) (pos + paddingFor pos (OctetBoundary elem))) as [|Hl]; [done|].
  rewrite sliceFrom_Ret by lia. rewrite bind_Ret.
  apply bind_no_panic; [auto with gorti|]. intros [v m] Hv. apply mapErr_Ret_inv in Hv.
  apply decode_consumed in Hv. apply bind_no_panic; [|done]. apply IH. simpl. lia.
Qed.

Lemma decodeElems_range `{!SafeCodec elem} n b pos vs p :
  0 <= pos <= zlen b -> decodeElems msg elem n b pos = Ret (vs, p) -> pos <= p <= zlen b.
Proof.
  revert pos vs p. induction n as [|n IH]; intros pos vs p Hp; simpl; [intros [= <- <-]; lia|].
  rewrite alignTo_eq. pose proof (paddingFor_nonneg pos (OctetBoundary elem) (proj1 Hp) boundary_pos).
  destruct (zlen b <? _) eqn:Hl; [done|]. intros E.
  apply bind_Ret_inv in E as (s & Hs & E). apply bind_Ret_inv in E as ([v m] & Hv & E).
  apply bind_Ret_inv in E as ([vs' p'] & Hr & E). apply mapErr_Ret_inv in Hv.
  injection E as _ <-. pose proof (decode_at_range elem b (pos + paddingFor pos (OctetBoundary elem)) s v m ltac:(lia) Hl Hs Hv).
  apply IH in Hr; simpl in *; lia.
Qed.

(** Decoding at the position where encoding started gives canonical elements
    and ends where the encoding does. *)
Lemma elems_roundtrip `{!LawfulCodec elem} xs out bs : Forall quiet xs ->
  encodeElems msg elem xs out = Ret bs ->
  exists tail xs', bs = out ++ tail /\ length xs' = length xs /\ Forall quiet xs' /\
    encodeElems msg elem xs' out = Ret bs /\
    forall rest, decodeElems msg elem (length xs) (bs ++ rest) (zlen out) = Ret (xs', zlen bs).
Proof.
  revert out. induction xs as [|x xs IH]; intros out Hq; simpl.
  { intros [= <-]. exists [], []. by rewrite app_nil_r. }
  inversion Hq as [|? ? Hx Hxs]; subst. intros E.
  apply bind_Ret_inv in E as (b & Hb & E). apply mapErr_Ret_inv in Hb.
  destruct (encode_decode x b Hx Hb) as (x' & Hq' & Hx' & Hd).
  apply IH in E as (tail & xs' & -> & Hl & Hqs & He & Hds); [|done].
  rewrite padTo_eq in *. unfold padToBoundary at 1.
  exists (zeros (paddingFor (zlen out) (OctetBoundary elem)) ++ b ++ tail), (x' :: xs').
  split; [by rewrite !app_assoc|]. split; [simpl; lia|]. split; [by constructor|].
  split; [simpl; by rewrite padTo_eq, Hx'|].
  intros rest. rewrite alignTo_eq, <- zlen_padToBoundary by apply boundary_pos.
  specialize (Hds rest). rewrite <- !app_assoc in *.
  rewrite zlen_app. pose proof (zlen_nonneg (b ++ tail ++ rest)).
  destruct (Z.ltb_spec (zlen (padToBoundary out (OctetBoundary elem)) + zlen (b ++ tail ++ rest))
              (zlen (padToBoundary out (OctetBoundary elem)))); [lia|].
  rewrite sliceFrom_app, bind_Ret, Hd. simpl. rewrite <- zlen_app. by rewrite Hds.
Qed.
End Elems.

Lemma makeCap_uint32 {E} n : inU 32 n -> makeCap (E:=E) 16 n = Ret tt.
Proof. intros [H1 H2]. unfold makeCap, maxAlloc. unfold maxU in H2. by zcases. Qed.

(** A fixed array's count fits an allocation. *)
Definition cardinality_ok (n : Z) : Prop := 0 <= n /\ 16 * n <= maxAlloc.
Lemma makeCap_ok {E} n : cardinality_ok n -> makeCap (E:=E) 16 n = Ret tt.
Proof. intros [H1 H2]. unfold makeCap. by zcases. Qed.

Lemma fixedArray_lawful elem n `{!LawfulCodec elem} :
  cardinality_ok n -> LawfulCodec (fixedArrayCodec elem n).
Proof.
  intros Hn. split; [split|].
  - exact (boundary_pos (c:=elem)).
  - intros v. destruct v; try done. simpl. case_match; [done|]. apply encodeElems_safe, _.
  - intros bs. simpl. unfold fixedArrayCodec_Decode. rewrite makeCap_ok by done.
    rewrite bind_Ret. apply bind_no_panic; [|done]. apply decodeElems_safe; [apply _|lia].
  - intros bs v m. simpl. unfold fixedArrayCodec_Decode. rewrite makeCap_ok by done.
    rewrite bind_Ret. intros E. apply bind_Ret_inv in E as ([vs p] & Hr & E). injection E as _ <-.
    apply decodeElems_range in Hr; [done|apply _|]. pose proof (zlen_nonneg bs). lia.
  - intros v bs Hq He. destruct v as [| | | | | | | | | | | | |xs| |]; try done. simpl in He.
    destruct (zlen xs =? n) eqn:El; [|done]. apply Z.eqb_eq in El. simpl in He.
    apply elems_roundtrip in He as (tail & xs' & -> & Hl & Hqs & He & Hds);
      [|apply _|by apply quiet_arr].
    exists (VArr xs'). split; [by apply quiet_arr|]. split.
    + simpl. unfold zlen in *. rewrite Hl, El, Z.eqb_refl. exact He.
    + intros rest. simpl. unfold fixedArrayCodec_Decode. rewrite makeCap_ok, bind_Ret by done.
      specialize (Hds rest). unfold zlen in El. rewrite <- El, Nat2Z.id. cbn [app] in *. change (zlen []) with 0 in Hds. by rewrite Hds.
Qed.

#[export] Instance variableArray_lawful elem `{!LawfulCodec elem} : LawfulCodec (variableArrayCodec elem).
Proof.
  split; [split|].
  - simpl. unfold variableArrayCodec_OctetBoundary. zcases.
  - intros v. destruct v; try done. simpl. case_match; [done|]. apply encodeElems_safe, _.
  - intros bs. simpl. unfold variableArrayCodec_Decode. do 2 (case_match; [done|]).
    rewrite makeCap_uint32 by apply prefix_range. rewrite bind_Ret.
    apply bind_no_panic; [|done]. apply decodeElems_safe; [apply _|lia].
  - intros bs v m. simpl. unfold variableArrayCodec_Decode.
    destruct (Z.ltb_spec (zlen bs) 4); [done|]. case_match; [done|].
    rewrite makeCap_uint32, bind_Ret by apply prefix_range. intros E.
    apply bind_Ret_inv in E as ([vs p] & Hr & E). injection E as _ <-.
    apply decodeElems_range in Hr; simpl; [lia|apply _|lia].
  - intros v bs Hq He. destruct v as [| | | | | | | | | | | | |xs| |]; try done. simpl in He.
    destruct (Z.ltb_spec MaxUint32 (zlen xs)) as [|Hm]; [done|].
    assert (Hu : inU 32 (zlen xs)) by (split; [apply zlen_nonneg|done]).
    apply elems_roundtrip in He as (tail & xs' & -> & Hl & Hqs & He & Hds);
      [|apply _|by apply quiet_arr].
    exists (VArr xs'). split; [by apply quiet_arr|].
    assert (Hz : zlen xs' = zlen xs) by (unfold zlen; lia). split.
    + simpl. rewrite Hz. destruct (Z.ltb_spec MaxUint32 (zlen xs)); [lia|exact He].
    + intros rest. cbn [Decode variableArrayCodec]. unfold variableArrayCodec_Decode.
      specialize (Hds rest). rewrite <- app_assoc in *. rewrite prefix_get by done.
      destruct (prefixed_guards (zlen xs) 0 (tail ++ rest)) as [-> _]; [done|apply zlen_nonneg|].
      destruct (Z.ltb_spec (zlen xs) 0); [pose proof (zlen_nonneg xs); lia|].
      rewrite makeCap_uint32, bind_Ret by done.
      replace (Z.to_nat (zlen xs)) with (length xs) by (unfold zlen; lia).
      rewrite zlen_putBE in Hds. change (Z.of_nat 4) with 4 in Hds. by rewrite Hds.
Qed.

(** ** Fixed records *)
Lemma boundary_fold {A} (get : A -> Z) l k :
  k <= fold_left (fun boundary x => if boundary <? get x then get x else boundary) l k /\
  Forall (fun x => get x <= fold_left (fun boundary x => if boundary <? get x then get x else boundary) l k) l.
Proof.
  revert k. induction l as [|x l IH]; intros k; simpl; [split; [lia|constructor]|].
  destruct (IH (if k <? get x then get x else k)) as [H1 H2].
  split; [|constructor; [|exact H2]]; revert H1; zbool; lia.
Qed.

Section Fields.
Definition safe_fields (fields : list FixedRecordField) := Forall (fun f => SafeCodec (FCodec f)) fields.
Definition lawful_fields (fields : list FixedRecordField) := Forall (fun f => LawfulCodec (FCodec f)) fields.

Lemma lawful_safe_fields fields : lawful_fields fields -> safe_fields fields.
Proof. intros Hf. eapply Forall_impl; [exact Hf|]. intros f Hc. exact (@lawful_safe _ Hc). Qed.

Lemma encodeFields_safe fields m out : safe_fields fields -> no_panic (encodeFields fields m out).
Proof.
  intros Hf. revert out. induction Hf as [|f fields Hc _ IH]; intros out; simpl; [done|].
  case_match; [|done]. apply bind_no_panic; [auto with gorti|]. intros b _. apply IH.
Qed.

Lemma decodeFields_safe fields b pos acc : safe_fields fields -> 0 <= pos ->
  no_panic (decodeFields fields b pos acc).
Proof.
  intros Hf. revert pos acc. induction Hf as [|f fields Hc _ IH]; intros pos acc Hp; simpl; [done|].
  pose proof (paddingFor_nonneg pos (OctetBoundary (FCodec f)) Hp boundary_pos).
  destruct (Z.ltb_spec (zlen b) (pos + paddingFor pos (OctetBoundary (FCodec f)))); [done|].
  rewrite sliceFrom_Ret, bind_Ret by lia.
  apply bind_no_panic; [auto with gorti|]. intros [v n] Hv. apply mapErr_Ret_inv in Hv.
  apply decode_consumed in Hv. apply IH. simpl. lia.
Qed.

Lemma decodeFields_range fields b pos acc m p : safe_fields fields ->
  0 <= pos <= zlen b -> decodeFields fields b pos acc = Ret (m, p) -> pos <= p <= zlen b.
Proof.
  intros Hf. revert pos acc. induction Hf as [|f fields Hc _ IH]; intros pos acc Hp; simpl.
  { intros [= _ <-]. lia. }
  pose proof (paddingFor_nonneg pos (OctetBoundary (FCodec f)) (proj1 Hp) boundary_pos).
  destruct (zlen b <? _) eqn:Hl; [done|]. intros E.
  apply bind_Ret_inv in E as (s & Hs & E). apply bind_Ret_inv in E as ([v n] & Hv & E).
  apply mapErr_Ret_inv in Hv.
  pose proof (decode_at_range (FCodec f) b (pos + paddingFor pos (OctetBoundary (FCodec f)))
                s v n ltac:(lia) Hl Hs Hv).
  apply IH in E; simpl in *; lia.
Qed.

(** The record a decoder builds: the fields' values in order. *)
Fixpoint setAll (fields : list FixedRecordField) (vs : list value) (acc : list (string * value)) :=
  match fields, vs with
  | f :: fields, v :: vs => setAll fields vs (mapSet acc (Name f) v)
  | _, _ => acc
  end.
Definition holds (m : list (string * value)) (f : FixedRecordField) (v : value) : Prop :=
  mapGet m (Name f) = Some v.

Lemma setAll_notin fields vs acc k : k ∉ map Name fields -> mapGet (setAll fields vs acc) k = mapGet acc k.
Proof.
  revert vs acc. induction fields as [|f fields IH]; intros vs acc Hk; [by destruct vs|].
  destruct vs as [|v vs]; [done|]. simpl in *. apply not_elem_of_cons in Hk as [Hne Hk].
  rewrite IH by done. by apply mapGet_mapSet_ne.
Qed.

Lemma setAll_holds fields vs acc : NoDup (map Name fields) -> length vs = length fields ->
  Forall2 (holds (setAll fields vs acc)) fields vs.
Proof.
  revert vs acc. induction fields as [|f fields IH]; intros [|v vs] acc Hnd Hl; try done.
  inversion Hnd as [|? ? Hnin Hnd']; subst. simpl. constructor; [|apply IH; [done|by injection Hl]].
  unfold holds. rewrite setAll_notin by done. apply mapGet_mapSet.
Qed.

Lemma setAll_quiet fields vs acc : Forall quiet vs -> quiet (VMap acc) -> quiet (VMap (setAll fields vs acc)).
Proof.
  revert vs acc. induction fields as [|f fields IH]; intros [|v vs] acc Hv Ha; try done.
  inversion Hv; subst. simpl. apply IH; [done|]. by apply quiet_mapSet.
Qed.

Lemma fields_roundtrip fields m out bs : lawful_fields fields -> quiet (VMap m) ->
  encodeFields fields m out = Ret bs ->
  exists tail vs, bs = out ++ tail /\ length vs = length fields /\ Forall quiet vs /\
    (forall m', Forall2 (holds m') fields vs -> encodeFields fields m' out = Ret bs) /\
    (forall rest acc, decodeFields fields (bs ++ rest) (zlen out) acc = Ret (setAll fields vs acc, zlen bs)).
Proof.
  intros Hf Hm. revert out. induction Hf as [|f fields Hc _ IH]; intros out; simpl.
  { intros [= <-]. exists [], []. by rewrite app_nil_r. }
  destruct (mapGet m (Name f)) as [fv|] eqn:Hg; [|done]. intros E.
  apply bind_Ret_inv in E as (b & Hb & E). apply mapErr_Ret_inv in Hb.
  destruct (encode_decode fv b (quiet_map_get m _ fv Hm Hg) Hb) as (v' & Hq' & Hv' & Hd).
  apply IH in E as (tail & vs & -> & Hl & Hqs & He & Hds). unfold padToBoundary at 1.
  exists (zeros (paddingFor (zlen out) (OctetBoundary (FCodec f))) ++ b ++ tail), (v' :: vs).
  split; [by rewrite !app_assoc|]. split; [simpl; lia|]. split; [by constructor|]. split.
  - intros m' Hm'. inversion Hm' as [|? ? ? ? Hh Hm'']; subst. unfold holds in Hh.
    rewrite Hh, Hv'. simpl. by apply He.
  - intros rest acc. rewrite <- zlen_padToBoundary by apply boundary_pos.
    specialize (Hds rest). rewrite <- !app_assoc in *. rewrite zlen_app.
    pose proof (zlen_nonneg (b ++ tail ++ rest)).
    destruct (Z.ltb_spec (zlen (padToBoundary out (OctetBoundary (FCodec f))) + zlen (b ++ tail ++ rest))
                (zlen (padToBoundary out (OctetBoundary (FCodec f))))); [lia|].
    rewrite sliceFrom_app, bind_Ret, Hd. simpl. rewrite <- zlen_app. apply Hds.
Qed.
End Fields.

Lemma fixedRecord_safe fields : safe_fields fields -> SafeCodec (NewFixedRecord fields).
Proof.
  intros Hf. split.
  - exact (proj1 (boundary_fold (fun f => OctetBoundary (FCodec f)) fields 1)).
  - intros v. destruct v; try done. by apply encodeFields_safe.
  - intros bs. apply bind_no_panic; [|done]. apply decodeFields_safe; [done|lia].
  - intros bs v n E. apply bind_Ret_inv in E as ([m p] & Hd & E). injection E as _ <-.
    apply decodeFields_range in Hd; [done|done|]. pose proof (zlen_nonneg bs). lia.
Qed.

Lemma fixedRecord_lawful fields : lawful_fields fields -> NoDup (map Name fields) ->
  LawfulCodec (NewFixedRecord fields).
Proof.
  intros Hf Hnd. split; [by apply fixedRecord_safe, lawful_safe_fields|].
  intros v bs Hq He. destruct v as [| | | | | | | | | | | | | |m|]; try done.
  apply fields_roundtrip in He as (tail & vs & -> & Hl & Hqs & He & Hds); [|done|done].
  exists (VMap (setAll fields vs [])). split; [by apply setAll_quiet|].
  split; [by apply He, setAll_holds|].
  intros rest. specialize (Hds rest []). cbn [app] in *. change (zlen []) with 0 in Hds.
  simpl. unfold FixedRecord_Decode. by rewrite Hds.
Qed.

(** ** Variant records *)
Definition hashable_disc (disc : Codec) : Prop :=
  forall bs v n, Decode disc bs = Ret (v, n) -> hashable v = true.
Definition safe_alts (alts : altsOf) := Forall (fun kc => SafeCodec (snd kc)) alts.
Definition lawful_alts (alts : altsOf) := Forall (fun kc => LawfulCodec (snd kc)) alts.

Lemma altGet_cases (P : Codec -> Prop) alts k : hashable k = true -> Forall (fun kc => P (snd kc)) alts ->
  altGet alts k = Ret None \/ exists c, altGet alts k = Ret (Some c) /\ P c.
Proof.
  intros Hk Hf. unfold altGet. rewrite Hk. destruct (find _ alts) as [[k' c]|] eqn:E; [right|by left].
  apply find_some in E as [Hin _]. exists c. split; [done|].
  rewrite List.Forall_forall in Hf. by apply (Hf (k', c)).
Qed.

Lemma variant_safe disc alts : SafeCodec disc -> hashable_disc disc -> safe_alts alts ->
  SafeCodec (NewVariantRecord disc alts).
Proof.
  intros Hd Hh Ha. split.
  - simpl. unfold VariantRecord_boundary. zcases.
  - intros v. destruct v; try done. cbn [Encode NewVariantRecord VariantRecord_Encode].
    do 2 (case_match; [|done]). apply bind_no_panic; [auto with gorti|]. intros db _.
    apply bind_no_panic; [auto with gorti|]. intros [k n] Hk. apply mapErr_Ret_inv, Hh in Hk. cbn [fst].
    destruct (altGet_cases SafeCodec alts k Hk Ha) as [-> | (c & -> & Hc)]; [done|].
    rewrite bind_Ret. apply bind_no_panic; [auto with gorti|done].
  - intros b. cbn [Decode NewVariantRecord]. unfold VariantRecord_Decode.
    apply bind_no_panic; [auto with gorti|]. intros [k n] Hk. apply mapErr_Ret_inv in Hk.
    pose proof (decode_consumed _ _ _ Hk). apply Hh in Hk. cbn [fst snd].
    destruct (altGet_cases SafeCodec alts k Hk Ha) as [-> | (c & -> & Hc)]; [done|].
    rewrite bind_Ret. pose proof (paddingFor_nonneg n (OctetBoundary c) ltac:(lia) boundary_pos).
    destruct (Z.ltb_spec (zlen b) (n + paddingFor n (OctetBoundary c))); [done|].
    rewrite sliceFrom_Ret, bind_Ret by lia. apply bind_no_panic; [auto with gorti|done].
  - intros b v m E. cbn [Decode NewVariantRecord] in E. unfold VariantRecord_Decode in E.
    apply bind_Ret_inv in E as ([k n] & Hk & E). apply mapErr_Ret_inv in Hk. cbn [fst snd] in E.
    pose proof (decode_consumed _ _ _ Hk). apply Hh in Hk.
    destruct (altGet_cases SafeCodec alts k Hk Ha) as [Eq | (c & Eq & Hc)]; rewrite Eq, bind_Ret in E; [done|].
    pose proof (paddingFor_nonneg n (OctetBoundary c) ltac:(lia) boundary_pos).
    destruct (zlen b <? _) eqn:Hl; [done|].
    apply bind_Ret_inv in E as (s & Hs & E). apply bind_Ret_inv in E as ([w p] & Hw & E).
    apply mapErr_Ret_inv in Hw. injection E as _ <-.
    pose proof (decode_at_range c b (n + paddingFor n (OctetBoundary c)) s w p ltac:(lia) Hl Hs Hw).
    simpl. lia.
Qed.

Lemma variant_lawful disc alts : LawfulCodec disc -> hashable_disc disc -> lawful_alts alts ->
  LawfulCodec (NewVariantRecord disc alts).
Proof.
  intros Hd Hh Ha. split.
  { apply variant_safe; [apply _|done|]. eapply Forall_impl; [exact Ha|]. intros kc Hc. exact (@lawful_safe _ Hc). }
  intros v bs Hq E. destruct v as [| | | | | | | | | | | | | |m|]; try done.
  cbn [Encode NewVariantRecord VariantRecord_Encode] in E.
  destruct (mapGet m "discriminator") as [d|] eqn:Ed; [|done].
  destruct (mapGet m "value") as [val|] eqn:Ev; [|done].
  apply bind_Ret_inv in E as (db & Hdb & E). apply mapErr_Ret_inv in Hdb.
  destruct (encode_decode d db (quiet_map_get m _ d Hq Ed) Hdb) as (d' & Hqd & Hd' & Hdec).
  pose proof (Hdec []) as Hdec0. rewrite app_nil_r in Hdec0.
  rewrite Hdec0 in E. cbn [mapErr mbind outcome_bind fst] in E.
  apply bind_Ret_inv in E as (alt & Halt & E). destruct alt as [alt|]; [|done].
  destruct (altGet_cases LawfulCodec alts d' (Hh _ _ _ Hdec0) Ha) as [Eq | (c & Eq & Hc)];
    rewrite Eq in Halt; [done|]. injection Halt as ->.
  apply bind_Ret_inv in E as (ab & Hab & E). apply mapErr_Ret_inv in Hab. apply Ret_inj in E as <-.
  destruct (encode_decode val ab (quiet_map_get m _ val Hq Ev) Hab) as (val' & Hqv & Hv' & Hvd).
  exists (VMap [("discriminator"%string, d'); ("value"%string, val')]). split; [done|]. split.
  - cbn [Encode NewVariantRecord VariantRecord_Encode].
    change (mapGet [("discriminator"%string, d'); ("value"%string, val')] "discriminator") with (Some d').
    change (mapGet [("discriminator"%string, d'); ("value"%string, val')] "value") with (Some val').
    cbv iota beta. rewrite Hd'. simpl. rewrite Hdec0. simpl. rewrite Eq. simpl. by rewrite Hv'.
  - intros rest. cbn [Decode NewVariantRecord]. unfold VariantRecord_Decode.
    rewrite <- !app_assoc. unfold padToBoundary. rewrite <- app_assoc, Hdec. cbn [mapErr mbind outcome_bind fst snd].
    rewrite Eq. cbn [mbind outcome_bind].
    replace (db ++ zeros (paddingFor (zlen db) (OctetBoundary alt)) ++ ab ++ rest)
      with (padToBoundary db (OctetBoundary alt) ++ ab ++ rest) by (unfold padToBoundary; by rewrite !app_assoc).
    rewrite <- zlen_padToBoundary by apply boundary_pos. rewrite zlen_app.
    pose proof (zlen_nonneg (ab ++ rest)).
    destruct (Z.ltb_spec (zlen (padToBoundary db (OctetBoundary alt)) + zlen (ab ++ rest))
                (zlen (padToBoundary db (OctetBoundary alt)))); [lia|].
    rewrite sliceFrom_app, bind_Ret, Hvd. simpl. rewrite zlen_app.
    fold (padToBoundary db (OctetBoundary alt)). done.
Qed.

(** ** Properties *)

(** The composite codecs keep the codecs' contract: if the element, field,
    discriminator and alternative codecs round-trip, never panic and consume a
    prefix of their buffer, so does the composite; a record needs distinct field
    names, a fixed array a count that fits an allocation. *)
Theorem composites_lawful :
  (forall elem n, LawfulCodec elem -> cardinality_ok n -> LawfulCodec (fixedArrayCodec elem n)) /\
  (forall elem, LawfulCodec elem -> LawfulCodec (variableArrayCodec elem)) /\
  (forall fields, lawful_fields fields -> NoDup (map Name fields) -> LawfulCodec (NewFixedRecord fields)) /\
  (forall disc alts, LawfulCodec disc -> hashable_disc disc -> lawful_alts alts ->
     LawfulCodec (NewVariantRecord disc alts)).
Proof.
  split; [|split; [|split]].
  - intros. by apply fixedArray_lawful.
  - intros. apply _.
  - apply fixedRecord_lawful.
  - apply variant_lawful.
Qed.
Lemma composites_lawful_witness :
  LawfulCodec (NewFixedRecord [{| Name := "a"; FCodec := HLAboolean |};
                               {| Name := "b"; FCodec := variableArrayCodec HLAASCIIchar |}]).
Proof.
  apply (proj1 (proj2 (proj2 composites_lawful))).
  - unfold lawful_fields. rewrite !Forall_cons. split; [apply _|]. split; [apply _|constructor].
  - apply (bool_decide_unpack _). vm_compute. exact I.
Defined.

Lemma encodeFields_prefix fields1 fields2 m out bs :
  encodeFields (fields1 ++ fields2) m out = Ret bs ->
  exists out1, encodeFields fields1 m out = Ret out1 /\ encodeFields fields2 m out1 = Ret bs.
Proof.
  revert out. induction fields1 as [|f fields1 IH]; intros out; simpl; [by eauto|].
  destruct (mapGet m (Name f)) as [v|]; [|done]. intros E.
  apply bind_Ret_inv in E as (b & -> & E). simpl. by apply IH.
Qed.

Lemma encodeFields_extends fields m out bs : encodeFields fields m out = Ret bs -> exists tail, bs = out ++ tail.
Proof.
  revert out. induction fields as [|f fields IH]; intros out; simpl.
  { intros [= <-]. exists []. by rewrite app_nil_r. }
  destruct (mapGet m (Name f)) as [v|]; [|done]. intros E.
  apply bind_Ret_inv in E as (b & _ & E). apply IH in E as (tail & ->). unfold padToBoundary.
  eexists. by rewrite <- !app_assoc.
Qed.

(** The layout of a record: the encoding of each field stands, whole, at an
    offset that is a multiple of the field's boundary, and only zero octets --
    fewer than the boundary -- separate it from the field before it. *)
Theorem record_layout (fields1 : list FixedRecordField) (f : FixedRecordField)
    (fields2 : list FixedRecordField) (m : list (string * value)) (bs : list byte) :
  1 <= OctetBoundary (FCodec f) ->
  Encode (NewFixedRecord (fields1 ++ f :: fields2)) (VMap m) = Ret bs ->
  exists before pad fb after v,
    Encode (NewFixedRecord fields1) (VMap m) = Ret before /\
    mapGet m (Name f) = Some v /\ Encode (FCodec f) v = Ret fb /\
    bs = before ++ zeros pad ++ fb ++ after /\
    0 <= pad < OctetBoundary (FCodec f) /\
    zlen (before ++ zeros pad) mod OctetBoundary (FCodec f) = 0.
Proof.
  intros Hb E. apply encodeFields_prefix in E as (before & Eb & E). simpl in E.
  destruct (mapGet m (Name f)) as [v|] eqn:Ev; [|done].
  apply bind_Ret_inv in E as (fb & Ef & E). apply mapErr_Ret_inv in Ef.
  apply encodeFields_extends in E as (after & ->).
  destruct (paddingFor_spec (zlen before) (OctetBoundary (FCodec f)) (zlen_nonneg _) Hb) as [Hp Hm].
  exists before, (paddingFor (zlen before) (OctetBoundary (FCodec f))), fb, after, v.
  split; [done|]. split; [done|]. split; [done|].
  split; [unfold padToBoundary; by rewrite <- !app_assoc|]. split; [done|].
  by rewrite zlen_app, zlen_zeros by lia.
Qed.
Lemma record_layout_witness :
  exists before pad fb after v,
    Encode (NewFixedRecord [{| Name := "a"; FCodec := HLAASCIIchar |}])
      (VMap [("a", VString "x"); ("b", VBool true)]%string) = Ret before /\
    mapGet [("a", VString "x"); ("b", VBool true)]%string "b" = Some v /\
    Encode HLAboolean v = Ret fb /\
    [byteOf 0x78; byteOf 0; byteOf 0; byteOf 0; byteOf 0; byteOf 0; byteOf 0; byteOf 1] =
      before ++ zeros pad ++ fb ++ after /\
    0 <= pad < 4 /\ zlen (before ++ zeros pad) mod 4 = 0.
Proof.
  apply (record_layout [{| Name := "a"; FCodec := HLAASCIIchar |}]
           {| Name := "b"; FCodec := HLAboolean |} [] [("a", VString "x"); ("b", VBool true)]%string);
    [simpl; lia|reflexivity].
Defined.

(** Whatever the buffer, a variable array of lawful elements gives a value or
    an error, and what it consumes lies in the buffer: no length prefix makes it
    read, or ask the allocator for, more than the runtime can give. *)
Theorem variable_array_decode_total (elem : Codec) (b : list byte) :
  LawfulCodec elem ->
  (exists v n, Decode (variableArrayCodec elem) b = Ret (v, n) /\ 4 <= n <= zlen b) \/
  (exists e, Decode (variableArrayCodec elem) b = Fail e).
Proof.
  intros He. pose proof (decode_safe (c := variableArrayCodec elem) b) as Hs.
  destruct (Decode _ b) as [[v n]|e|s] eqn:E; [left|by right; eauto|by destruct (Hs s)].
  exists v, n. split; [done|]. cbn [Decode variableArrayCodec] in E.
  unfold variableArrayCodec_Decode in E. destruct (Z.ltb_spec (zlen b) 4); [done|].
  case_match; [done|]. rewrite makeCap_uint32, bind_Ret in E by apply prefix_range.
  apply bind_Ret_inv in E as ([vs p] & Hr & E). injection E as _ <-.
  apply decodeElems_range in Hr; [done|apply _|lia].
Qed.
Lemma variable_array_decode_total_witness :
  LawfulCodec HLAboolean /\
  ((exists v n, Decode (variableArrayCodec HLAboolean) [byteOf 1] = Ret (v, n) /\
      4 <= n <= zlen [byteOf 1]) \/
   (exists e, Decode (variableArrayCodec HLAboolean) [byteOf 1] = Fail e)).
Proof. split; [apply _|]. apply (variable_array_decode_total HLAboolean [byteOf 1]). apply _. Defined.
