(* ===== verification/EncDispatch.v ===== *)
(** * [CodecFor] ([rti/pkg/encoding/codec.go], [dispatch.go])

    The registry of primitive codecs and the construction of a codec from a
    FOM data type ([rti/pkg/fom/model/dataclass.go]) or a JSON descriptor.
    [ParseInt], [Atoi] and [ParseBool] are [strconv]'s; a JSON descriptor is
    followed as deep as its size ([vsize]), which [codecForJSON_fuel] shows
    never runs out. *)
From Stdlib Require Import Strings.Byte.
From S2P Require Import Prelude GoBytes GoFloat GoUtf8 Encoding EncInteger EncPrimitive EncComposite.
Open Scope Z_scope.

(** ** [strconv] *)
Definition digit (c : byte) : option Z :=
  if between 0x30 0x39 (byteZ c) then Some (byteZ c - 0x30) else None.
Fixpoint parseDigits (bs : list byte) (n : Z) : result Z :=
  match bs with
  | [] => Ret n
  | c :: bs =>
      match digit c with
      | None => Fail ErrSyntax
      | Some d => let n := 10 * n + d in
                  if maxU 64 <? n then Fail ErrRange else parseDigits bs n
      end
  end.
Definition ParseUint (bs : list byte) : result Z :=
  match bs with [] => Fail ErrSyntax | _ => parseDigits bs 0 end.
Definition ParseInt (s : string) : result Z :=
  match bytes_of s with
  | [] => Fail ErrSyntax
  | c :: bs =>
      let neg := byteZ c =? 0x2D in
      un ← ParseUint (if neg || (byteZ c =? 0x2B) then bs else c :: bs);
      if negb neg && (2 ^ 63 <=? un) then Fail ErrRange
      else if neg && (2 ^ 63 <? un) then Fail ErrRange
      else Ret (if neg then - un else un)
  end.
Definition Atoi (s : string) : result Z := ParseInt s.
Definition ParseBool (s : string) : result bool :=
  if bool_decide (s ∈ ["1"; "t"; "T"; "TRUE"; "true"; "True"]%string) then Ret true
  else if bool_decide (s ∈ ["0"; "f"; "F"; "FALSE"; "false"; "False"]%string) then Ret false
  else Fail ErrSyntax.

Example ParseInt_ok : map ParseInt ["-17"; "+5"; "9223372036854775808"; "-9223372036854775808"; "1x"; ""]%string =
  [Ret (-17); Ret 5; Fail ErrRange; Ret (- 2 ^ 63); Fail ErrSyntax; Fail ErrSyntax].
Proof. reflexivity. Qed.

(** ** FOM data types *)
Record OptionalString := { Value : string; Present : bool }.
Record Enumerator := { Enumerator_Name : string; Values : string; ValueList : list string }.
Record RecordField := { RecordField_Name : string; RecordField_DataType : string;
                        RecordField_Semantics : OptionalString }.
Record VariantAlternative := { VA_Enumerator : string; VA_Name : string; VA_DataType : string;
                               VA_Semantics : OptionalString }.
Inductive DataType :=
| BasicData (NameField : string) (Size : Z) (Endian Interpretation Encoding : string)
| SimpleData (NameField Representation Units Resolution Accuracy : string) (Semantics : OptionalString)
| EnumeratedData (NameField Representation : string) (Enumerators : list Enumerator)
    (Semantics : OptionalString)
| ArrayData (NameField elementType Cardinality Encoding : string) (Semantics : OptionalString)
| FixedRecordData (NameField : string) (Fields : list RecordField) (Encoding : string)
    (Semantics : OptionalString)
| VariantRecordData (NameField DiscriminantName DiscriminantType : string)
    (Alternatives : list VariantAlternative) (Encoding : string) (Semantics : OptionalString).

Section Dispatch.
Context `{GoArch}.

(** ** The registry *)
Definition primitiveCodecs : list (string * Codec) :=
  [("HLAinteger16BE", HLAinteger16BE); ("HLAinteger16LE", HLAinteger16LE);
   ("HLAinteger32BE", HLAinteger32BE); ("HLAinteger32LE", HLAinteger32LE);
   ("HLAinteger64BE", HLAinteger64BE); ("HLAinteger64LE", HLAinteger64LE);
   ("HLAfloat32BE", hlaFloat32BE); ("HLAfloat32LE", hlaFloat32LE);
   ("HLAfloat64BE", hlaFloat64BE); ("HLAfloat64LE", hlaFloat64LE);
   ("HLAoctet", HLAoctet); ("HLAoctetPairBE", HLAoctetPairBE);
   ("HLAoctetPairLE", HLAoctetPairLE); ("HLAboolean", HLAboolean);
   ("HLAASCIIchar", HLAASCIIchar); ("HLAunicodeChar", HLAunicodeChar);
   ("HLAASCIIstring", HLAASCIIstring); ("HLAunicodeString", HLAunicodeString)]%string.

Definition PrimitiveByName (name : string) : result Codec :=
  match mapGet primitiveCodecs name with
  | Some c => Ret c
  | None => Fail (errNew "PrimitiveByName: unknown or unimplemented primitive type")
  end.

(** ** Discriminant values *)
Definition toInt64Loose (v : value) : result Z :=
  match v with
  | VString x => mapErr (errWrap "cannot parse as integer") (ParseInt x)
  | VFloat64 x =>
      let i := f64_to_int64 x in
      if negb (f64_eqb (f64_of_int i) x) then Fail (errNew "number is not an integer") else Ret i
  | VInt x => Ret x
  | VInt32 x => Ret x
  | VInt64 x => Ret x
  | _ => Fail (errNew "cannot interpret as integer")
  end.
Definition parseDiscInt16 (raw : value) : result value :=
  f ← toInt64Loose raw; x ← toInt16 (VInt64 f); Ret (VInt32 x).
Definition parseDiscInt32 (raw : value) : result value :=
  f ← toInt64Loose raw; x ← toInt32 (VInt64 f); Ret (VInt32 x).
Definition parseDiscInt64 (raw : value) : result value :=
  f ← toInt64Loose raw; Ret (VInt64 f).
Definition parseDiscOctet (raw : value) : result value :=
  f ← toInt64Loose raw;
  if (f <? 0) || (255 <? f) then Fail (errNew "octet discriminator out of range [0,255]")
  else Ret (VUint8 (byteOf f)).
Definition parseDiscBool (raw : value) : result value :=
  match raw with
  | VBool x => Ret (VBool x)
  | VFloat64 x => Ret (VBool (negb (f64_eqb x f64_zero)))
  | VString x => b ← mapErr (errWrap "boolean discriminator") (ParseBool x); Ret (VBool b)
  | _ => Fail (errNew "boolean discriminator has unsupported type")
  end.
Definition parseDiscriminantValue (discName : string) (raw : value) : result value :=
  if bool_decide (discName ∈ ["HLAinteger16BE"; "HLAinteger16LE"]%string) then parseDiscInt16 raw
  else if bool_decide (discName ∈ ["HLAinteger32BE"; "HLAinteger32LE"]%string) then parseDiscInt32 raw
  else if bool_decide (discName ∈ ["HLAinteger64BE"; "HLAinteger64LE"]%string) then parseDiscInt64 raw
  else if bool_decide (discName = "HLAoctet"%string) then parseDiscOctet raw
  else if bool_decide (discName = "HLAboolean"%string) then parseDiscBool raw
  else Fail (errNew "discriminator type not supported").

(** ** The FOM path *)
Definition modelArray (DataType Cardinality : string) : result Codec :=
  match PrimitiveByName DataType with
  | Fail _ => Fail (errWrap "array element" ErrCodecForUnsupported)
  | Panic s => Panic s
  | Ret elem =>
      if bool_decide (Cardinality = "Dynamic"%string) then NewVariableArray (Some elem)
      else
        match Atoi Cardinality with
        | Ret n => if n <? 0 then Fail (errNew "array invalid cardinality")
                   else NewFixedArray (Some elem) n
        | _ => Fail (errNew "array invalid cardinality")
        end
  end.

Fixpoint modelFields (fs : list RecordField) : result (list FixedRecordField) :=
  match fs with
  | [] => Ret []
  | f :: fs =>
      match PrimitiveByName (RecordField_DataType f) with
      | Fail _ => Fail (errWrap "record field" ErrCodecForUnsupported)
      | Panic s => Panic s
      | Ret fc =>
          rest ← modelFields fs;
          Ret ({| Name := RecordField_Name f; FCodec := fc |} :: rest)
      end
  end.
Definition modelFixedRecord (Fields : list RecordField) : result Codec :=
  fields ← modelFields Fields; Ret (NewFixedRecord fields).

Fixpoint modelAlternatives (discType : string) (l : list VariantAlternative) (alts : altsOf)
    : result altsOf :=
  match l with
  | [] => Ret alts
  | a :: l =>
      key ← mapErr (errWrap "variant enumerator")
              (parseDiscriminantValue discType (VString (VA_Enumerator a)));
      match PrimitiveByName (VA_DataType a) with
      | Fail _ => Fail (errWrap "variant alt" ErrCodecForUnsupported)
      | Panic s => Panic s
      | Ret altCodec => alts ← altSet alts key altCodec; modelAlternatives discType l alts
      end
  end.
Definition modelVariantRecord (DiscriminantType : string) (Alternatives : list VariantAlternative)
    : result Codec :=
  match PrimitiveByName DiscriminantType with
  | Fail _ => Fail (errWrap "variant discriminator" ErrCodecForUnsupported)
  | Panic s => Panic s
  | Ret disc =>
      alts ← modelAlternatives DiscriminantType Alternatives [];
      Ret (NewVariantRecord disc alts)
  end.

Definition codecForModel (dt : DataType) : result Codec :=
  match dt with
  | BasicData NameField _ _ _ _ => PrimitiveByName NameField
  | SimpleData _ Representation _ _ _ _ => PrimitiveByName Representation
  | EnumeratedData _ Representation _ _ => PrimitiveByName Representation
  | ArrayData _ elementType Cardinality _ _ => modelArray elementType Cardinality
  | FixedRecordData _ Fields _ _ => modelFixedRecord Fields
  | VariantRecordData _ _ DiscriminantType Alternatives _ _ =>
      modelVariantRecord DiscriminantType Alternatives
  end.

(** ** The JSON path *)

(** [m[k]]: an absent key reads as [nil]. *)
Definition index (m : list (string * value)) (k : string) : value :=
  match mapGet m k with Some v => v | None => VNil end.
(** [xs, _ := v.([]any)]. *)
Definition asArray (v : value) : list value := match v with VArr xs => xs | _ => [] end.

Definition jsonCardinality (v : value) : result Z :=
  match v with
  | VFloat64 x =>
      let n := f64_to_int64 x in
      if negb (f64_eqb (f64_of_int n) x) || (n <? 0) then
        Fail (errNew "cardinality is not a non-negative integer")
      else Ret n
  | VInt x => if x <? 0 then Fail (errNew "cardinality negative") else Ret x
  | VInt64 x => if x <? 0 then Fail (errNew "cardinality negative") else Ret x
  | _ => Fail (errNew "cardinality has unsupported type")
  end.

Section Element.
Context (jsonElement : value -> result Codec).

Definition jsonFixedArray (m : list (string * value)) : result Codec :=
  elem ← mapErr (errWrap "HLAfixedArray element") (jsonElement (index m "element"));
  match mapGet m "cardinality" with
  | None => Fail (errNew "HLAfixedArray missing cardinality")
  | Some cardRaw => n ← jsonCardinality cardRaw; NewFixedArray (Some elem) n
  end.
Definition jsonVariableArray (m : list (string * value)) : result Codec :=
  elem ← mapErr (errWrap "HLAvariableArray element") (jsonElement (index m "element"));
  NewVariableArray (Some elem).

Fixpoint jsonFields (rawFields : list value) : result (list FixedRecordField) :=
  match rawFields with
  | [] => Ret []
  | VMap fm :: rawFields =>
      match index fm "name" with
      | VString name =>
          fc ← mapErr (errWrap "HLAfixedRecord field") (jsonElement (index fm "type"));
          rest ← jsonFields rawFields;
          Ret ({| Name := name; FCodec := fc |} :: rest)
      | _ => Fail (errNew "HLAfixedRecord field: missing name")
      end
  | _ => Fail (errNew "HLAfixedRecord field: not an object")
  end.
Definition jsonFixedRecord (m : list (string * value)) : result Codec :=
  fields ← jsonFields (asArray (index m "fields")); Ret (NewFixedRecord fields).

Fixpoint jsonAlternatives (discName : string) (rawAlts : list value) (alts : altsOf)
    : result altsOf :=
  match rawAlts with
  | [] => Ret alts
  | VMap am :: rawAlts =>
      key ← mapErr (errWrap "HLAvariantRecord alt discriminant")
              (parseDiscriminantValue discName (index am "discriminant"));
      altCodec ← mapErr (errWrap "HLAvariantRecord alt type") (jsonElement (index am "type"));
      alts ← altSet alts key altCodec;
      jsonAlternatives discName rawAlts alts
  | _ => Fail (errNew "HLAvariantRecord alternative: not an object")
  end.
Definition jsonVariantRecord (m : list (string * value)) : result Codec :=
  match index m "discriminator" with
  | VString discName =>
      disc ← mapErr (errWrap "HLAvariantRecord discriminator") (PrimitiveByName discName);
      alts ← jsonAlternatives discName (asArray (index m "alternatives")) [];
      Ret (NewVariantRecord disc alts)
  | _ => Fail (errNew "HLAvariantRecord missing or non-string discriminator")
  end.

(** The [switch] of [codecForJSON]. *)
Definition jsonKind (m : list (string * value)) : result Codec :=
  match mapGet m "kind" with
  | None => Fail (errNew "JSON descriptor missing kind")
  | Some (VString kind) =>
      if bool_decide (kind = "HLAfixedArray"%string) then jsonFixedArray m
      else if bool_decide (kind = "HLAvariableArray"%string) then jsonVariableArray m
      else if bool_decide (kind = "HLAfixedRecord"%string) then jsonFixedRecord m
      else if bool_decide (kind = "HLAvariantRecord"%string) then jsonVariantRecord m
      else if bool_decide (kind = "HLAopaqueData"%string) then Ret NewOpaqueData
      else Fail (errNew "unknown JSON kind")
  | Some _ => Fail (errNew "JSON kind: want string")
  end.
End Element.

(** [jsonElement] and [codecForJSON] call each other once per nesting level. *)
Fixpoint jsonElement (fuel : nat) (v : value) : result Codec :=
  match v with
  | VString t => PrimitiveByName t
  | VMap t =>
      match fuel with
      | O => Panic "out of fuel"
      | S fuel => jsonKind (jsonElement fuel) t
      end
  | VNil => Fail (errNew "missing element/type")
  | _ => Fail (errNew "element/type has unsupported shape")
  end.
Definition codecForJSON (fuel : nat) (m : list (string * value)) : result Codec :=
  jsonElement fuel (VMap m).
End Dispatch.

(** The size of a descriptor bounds its nesting. *)
Fixpoint vsize (v : value) : nat :=
  match v with
  | VArr xs => S ((fix go (xs : list value) : nat :=
                     match xs with [] => O | x :: xs => (vsize x + go xs)%nat end) xs)
  | VMap m => S ((fix go (m : list (string * value)) : nat :=
                    match m with [] => O | kv :: m => (vsize (snd kv) + go m)%nat end) m)
  | _ => 1
  end.

(** What [CodecFor]'s argument may be. *)
Inductive descriptor := DAny (v : value) | DModel (dt : DataType).

Definition dispatch `{GoArch} (dt : descriptor) : result Codec :=
  match dt with
  | DAny VNil => Fail (errNew "CodecFor: nil descriptor")
  | DAny (VString d) => PrimitiveByName d
  | DAny (VMap d) => codecForJSON (vsize (VMap d)) d
  | DModel d => codecForModel d
  | DAny _ => Fail (errNew "CodecFor: unsupported descriptor type")
  end.
Definition CodecFor `{GoArch} (dt : descriptor) : result Codec := dispatch dt.

(** ** Sizes and predicates of descriptors *)
Lemma vsize_pos v : (0 < vsize v)%nat.
Proof. destruct v; simpl; lia. Qed.
Lemma vsize_get m k v : mapGet m k = Some v -> (vsize v < vsize (VMap m))%nat.
Proof.
  induction m as [|[k' v'] m IH]; [done|]. simpl. destruct (decide (k = k')).
  - intros [= ->]. lia.
  - intros E. apply IH in E. simpl in E. lia.
Qed.
Lemma vsize_elem xs x : x ∈ xs -> (vsize x < vsize (VArr xs))%nat.
Proof. induction 1 as [|x y xs _ IH]; simpl in *; lia. Qed.

(** A property of every value inside a value. *)
Section Everywhere.
Context (P : value -> Prop).
Fixpoint everywhere (v : value) : Prop :=
  P v /\
  match v with
  | VArr xs => (fix go (xs : list value) : Prop :=
                  match xs with [] => True | x :: xs => everywhere x /\ go xs end) xs
  | VMap m => (fix go (m : list (string * value)) : Prop :=
                 match m with [] => True | kv :: m => everywhere (snd kv) /\ go m end) m
  | _ => True
  end.
Lemma everywhere_here v : everywhere v -> P v.
Proof. destruct v; simpl; tauto. Qed.
Lemma everywhere_get m k v : everywhere (VMap m) -> mapGet m k = Some v -> everywhere v.
Proof.
  intros [_ Hm]. induction m as [|[k' v'] m IH]; [done|]. destruct Hm as [H1 H2]. simpl.
  destruct (decide (k = k')); [by intros [= ->]|by apply IH].
Qed.
Lemma everywhere_elem xs x : everywhere (VArr xs) -> x ∈ xs -> everywhere x.
Proof.
  intros [_ Hxs] Hin. induction Hin as [x xs|x y xs _ IH]; destruct Hxs as [H1 H2]; [done|by apply IH].
Qed.
End Everywhere.

Section Ok.
Context `{GoArch}.

(** The names of a JSON record's fields. *)
Definition rawName (rf : value) : string :=
  match rf with
  | VMap fm => match index fm "name" with VString n => n | _ => ""%string end
  | _ => ""%string
  end.

(** What [CodecFor] does not check: a cardinality fits an allocation, and the
    fields of a record have different names. *)
Definition json_local (v : value) : Prop :=
  match v with
  | VMap m =>
      (forall n, jsonCardinality (index m "cardinality") = Ret n -> cardinality_ok n) /\
      NoDup (map rawName (asArray (index m "fields")))
  | _ => True
  end.
Definition model_ok (dt : DataType) : Prop :=
  match dt with
  | ArrayData _ _ Cardinality _ _ => forall n, Atoi Cardinality = Ret n -> cardinality_ok n
  | FixedRecordData _ Fields _ _ => NoDup (map RecordField_Name Fields)
  | _ => True
  end.
Definition descriptor_ok (dt : descriptor) : Prop :=
  match dt with DAny v => everywhere json_local v | DModel dt => model_ok dt end.

(** ** The registry *)
Lemma integer_hashable w e : hashable_disc (integerCodec w e).
Proof.
  intros bs v n. rewrite decode_eq. case_match; [done|]. intros [= <- _]. by destruct w.
Qed.

Lemma PrimitiveByName_cases (P : Codec -> Prop) name c :
  (forall w e, P (integerCodec w e)) -> (forall e, P (float32Codec e)) ->
  (forall e, P (float64Codec e)) -> P HLAoctet -> P HLAoctetPairBE -> P HLAoctetPairLE ->
  P HLAboolean -> P HLAASCIIchar -> P HLAunicodeChar -> P HLAASCIIstring -> P HLAunicodeString ->
  PrimitiveByName name = Ret c -> P c.
Proof.
  intros Hi H4 H8 Ho Hpb Hpl Hb Hac Huc Hs Hu E. unfold PrimitiveByName, primitiveCodecs in E.
  cbn [mapGet] in E.
  repeat (case_decide; [injection E as <-;
    first [exact (Hi W16 BE) | exact (Hi W16 LE) | exact (Hi W32 BE) | exact (Hi W32 LE)
          | exact (Hi W64 BE) | exact (Hi W64 LE) | exact (H4 BE) | exact (H4 LE)
          | exact (H8 BE) | exact (H8 LE) | assumption]|]).
  done.
Qed.

Lemma PrimitiveByName_lawful name c : PrimitiveByName name = Ret c -> LawfulCodec c.
Proof. apply PrimitiveByName_cases; intros; apply _. Qed.

Lemma PrimitiveByName_hashable name c : PrimitiveByName name = Ret c -> hashable_disc c.
Proof.
  apply PrimitiveByName_cases; [apply integer_hashable|..]; unfold hashable_disc.
  - intros e bs v n. destruct e; simpl; unfold hlaFloat32_Decode; case_match; try done; by intros [= <- _].
  - intros e bs v n. destruct e; simpl; unfold hlaFloat64_Decode; case_match; try done; by intros [= <- _].
  - intros [|b bs] v n; [done|]. by intros [= <- _].
  - intros [|a [|b bs]] v n; try done. by intros [= <- _].
  - intros [|a [|b bs]] v n; try done. by intros [= <- _].
  - intros [|a [|b [|c0 [|d bs]]]] v n; try done. by intros [= <- _].
  - intros [|b bs] v n; [done|]. simpl. case_match; [done|]. by intros [= <- _].
  - intros [|a [|b bs]] v n; try done. simpl. case_match; [done|]. by intros [= <- _].
  - intros bs v n. simpl. unfold HLAASCIIstring_Decode. repeat case_match; try done. by intros [= <- _].
  - intros bs v n. simpl. unfold HLAunicodeString_Decode. repeat (case_match; [done|]).
    intros E. apply bind_Ret_inv in E as (rs & _ & E). by injection E as <- _.
Qed.

Lemma PrimitiveByName_no_panic name : no_panic (PrimitiveByName name).
Proof. unfold PrimitiveByName. by case_match. Qed.
End Ok.

(** ** Discriminants *)
Section Disc.
Context `{GoArch}.

Lemma parseDigits_no_panic bs n : no_panic (parseDigits bs n).
Proof.
  revert n. induction bs as [|c bs IH]; intros n; simpl; [done|].
  case_match; [|done]. case_match; [done|apply IH].
Qed.
Lemma ParseInt_no_panic s : no_panic (ParseInt s).
Proof.
  unfold ParseInt. destruct (bytes_of s) as [|c bs]; [done|]. apply bind_no_panic.
  - unfold ParseUint. case_match; [done|apply parseDigits_no_panic].
  - intros un _. destruct (byteZ c =? 0x2D); simpl; by case_match.
Qed.
Lemma toInt64Loose_no_panic v : no_panic (toInt64Loose v).
Proof.
  destruct v; try done; simpl; [by case_match|]. apply mapErr_no_panic, ParseInt_no_panic.
Qed.
Lemma toInt16_no_panic v : no_panic (toInt16 v).
Proof. exact (toIntW_no_panic W16 v). Qed.
Lemma toInt32_no_panic v : no_panic (toInt32 v).
Proof. exact (toIntW_no_panic W32 v). Qed.

Lemma parseDisc_no_panic d raw : no_panic (parseDiscriminantValue d raw).
Proof.
  unfold parseDiscriminantValue, parseDiscInt16, parseDiscInt32, parseDiscInt64, parseDiscOctet.
  repeat (case_bool_decide; [try (apply bind_no_panic; [apply toInt64Loose_no_panic|intros f _])|]); try done.
  - apply bind_no_panic; [apply toInt16_no_panic|done].
  - apply bind_no_panic; [apply toInt32_no_panic|done].
  - by case_match.
  - destruct raw; try done. simpl. apply bind_no_panic; [|done]. apply mapErr_no_panic.
    unfold ParseBool. by repeat case_bool_decide.
Qed.

Lemma parseDisc_hashable d raw k : parseDiscriminantValue d raw = Ret k -> hashable k = true.
Proof.
  unfold parseDiscriminantValue, parseDiscInt16, parseDiscInt32, parseDiscInt64, parseDiscOctet.
  repeat (case_bool_decide;
    [try (let f := fresh in let Hf := fresh in intros E; apply bind_Ret_inv in E as (f & Hf & E); revert E)|]);
    try done.
  - intros E. apply bind_Ret_inv in E as (x & _ & E). by injection E as <-.
  - intros E. apply bind_Ret_inv in E as (x & _ & E). by injection E as <-.
  - by intros [= <-].
  - case_match; [done|]. by intros [= <-].
  - destruct raw; try done; simpl; try (by intros [= <-]).
    intros E. apply bind_Ret_inv in E as (b & _ & E). by injection E as <-.
Qed.
End Disc.

Lemma altPut_Forall (P : Codec -> Prop) alts k c : P c -> Forall (fun kc => P (snd kc)) alts ->
  Forall (fun kc => P (snd kc)) (altPut alts k c).
Proof.
  intros Hc. induction 1 as [|[k' c'] alts Hk Ht IH]; simpl; [by repeat constructor|].
  by case_match; constructor.
Qed.

Lemma altSet_ok alts k c : hashable k = true -> LawfulCodec c -> lawful_alts alts ->
  exists alts', altSet alts k c = Ret alts' /\ lawful_alts alts'.
Proof.
  intros Hk Hc Ha. unfold altSet. rewrite Hk. eexists. split; [done|].
  by apply (altPut_Forall LawfulCodec).
Qed.

(** A result that is not a panic and whose codec, if any, is lawful. *)
Definition good (r : result Codec) : Prop := no_panic r /\ forall c, r = Ret c -> LawfulCodec c.
Lemma good_Fail e : good (Fail e).
Proof. by split. Qed.
Lemma good_Ret c : LawfulCodec c -> good (Ret c).
Proof. intros Hc. split; [done|]. by intros ? [= <-]. Qed.
#[export] Hint Resolve good_Fail good_Ret : gorti.

Section Model.
Context `{GoArch}.

Lemma PrimitiveByName_good name : good (PrimitiveByName name).
Proof. split; [apply PrimitiveByName_no_panic|apply PrimitiveByName_lawful]. Qed.

Lemma NewFixedArray_good elem n : LawfulCodec elem -> cardinality_ok n -> good (NewFixedArray (Some elem) n).
Proof.
  intros He Hn. unfold NewFixedArray. destruct (Z.ltb_spec n 0); [destruct Hn; lia|].
  by apply good_Ret, fixedArray_lawful.
Qed.

Lemma modelFields_spec fs : no_panic (modelFields fs) /\
  forall fields, modelFields fs = Ret fields -> lawful_fields fields /\ map Name fields = map RecordField_Name fs.
Proof.
  induction fs as [|f fs [IH1 IH2]]; simpl.
  { split; [done|]. intros ? [= <-]. split; [constructor|done]. }
  pose proof (PrimitiveByName_good (RecordField_DataType f)) as [Hp Hl].
  destruct (PrimitiveByName _) as [fc|e|s]; [|by split|by destruct (Hp s)].
  split; [by apply bind_no_panic|]. intros fields E. apply bind_Ret_inv in E as (r & Hr & E).
  injection E as <-. apply IH2 in Hr as [H1 H2]. split; [constructor; [by apply Hl|done]|].
  simpl. by rewrite H2.
Qed.

Lemma modelAlternatives_spec d l alts : lawful_alts alts ->
  no_panic (modelAlternatives d l alts) /\
  forall alts', modelAlternatives d l alts = Ret alts' -> lawful_alts alts'.
Proof.
  revert alts. induction l as [|a l IH]; intros alts Ha; simpl.
  { split; [done|]. by intros ? [= <-]. }
  pose proof (parseDisc_no_panic d (VString (VA_Enumerator a))) as Hd.
  pose proof (parseDisc_hashable d (VString (VA_Enumerator a))) as Hh.
  destruct (parseDiscriminantValue _ _) as [k|e|s]; simpl; [|by split|by destruct (Hd s)].
  pose proof (PrimitiveByName_good (VA_DataType a)) as [Hp Hl].
  destruct (PrimitiveByName _) as [c|e|s]; [|by split|by destruct (Hp s)].
  destruct (altSet_ok alts k c (Hh k eq_refl) (Hl c eq_refl) Ha) as (alts' & -> & Ha'). by apply IH.
Qed.

Lemma codecForModel_good dt : model_ok dt -> good (codecForModel dt).
Proof.
  intros Hok. destruct dt; simpl; try apply PrimitiveByName_good.
  - unfold modelArray. pose proof (PrimitiveByName_good elementType) as [Hp Hl].
    destruct (PrimitiveByName _) as [c|e|s]; [|apply good_Fail|by destruct (Hp s)].
    specialize (Hl c eq_refl). case_bool_decide; [apply good_Ret, _|].
    simpl in Hok. destruct (Atoi Cardinality) as [n| |] eqn:En; try apply good_Fail.
    case_match; [apply good_Fail|]. by apply NewFixedArray_good, Hok.
  - unfold modelFixedRecord. destruct (modelFields_spec Fields) as [H1 H2].
    destruct (modelFields Fields) as [fields|e|s]; [|apply good_Fail|by destruct (H1 s)].
    destruct (H2 fields eq_refl) as [Hl Hn]. apply good_Ret, fixedRecord_lawful; [done|]. by rewrite Hn.
  - unfold modelVariantRecord. pose proof (PrimitiveByName_good DiscriminantType) as [Hp Hl].
    pose proof (PrimitiveByName_hashable DiscriminantType) as Hh.
    destruct (PrimitiveByName _) as [c|e|s]; [|apply good_Fail|by destruct (Hp s)].
    destruct (modelAlternatives_spec DiscriminantType Alternatives []) as [H1 H2]; [constructor|].
    destruct (modelAlternatives _ _ _) as [alts|e|s]; [|apply good_Fail|by destruct (H1 s)].
    apply good_Ret, variant_lawful; eauto.
Qed.

(** The constructors of the JSON path, for an element resolver that is good on
    the values smaller than the descriptor. *)
Section Json.
Context (E : value -> result Codec) (N : nat).
Context (HE : forall v, (vsize v < N)%nat -> everywhere json_local v -> good (E v)).

Lemma index_good m k : (vsize (VMap m) <= N)%nat -> everywhere json_local (VMap m) ->
  good (E VNil) -> good (E (index m k)).
Proof.
  intros Hs Hm Hn. unfold index. destruct (mapGet m k) as [v|] eqn:Eg; [|done].
  apply HE; [apply vsize_get in Eg; lia|by eapply everywhere_get].
Qed.
Context (HN : good (E VNil)).

(** The objects of the list under a key are smaller than the descriptor. *)
Definition inside (rf : value) : Prop := (vsize rf <= N)%nat /\ everywhere json_local rf.
Lemma asArray_inside m k : (vsize (VMap m) <= N)%nat -> everywhere json_local (VMap m) ->
  Forall inside (asArray (index m k)).
Proof.
  intros Hs Hm. unfold index. destruct (mapGet m k) as [v|] eqn:Eg; [|constructor].
  pose proof (vsize_get m k v Eg). pose proof (everywhere_get json_local m k v Hm Eg) as Hv.
  destruct v; try constructor. simpl asArray. apply Forall_forall. intros x Hx.
  split; [|by eapply everywhere_elem]. pose proof (vsize_elem xs x Hx). lia.
Qed.

Lemma jsonFields_spec xs : Forall inside xs ->
  no_panic (jsonFields E xs) /\
  forall fields, jsonFields E xs = Ret fields -> lawful_fields fields /\ map Name fields = map rawName xs.
Proof.
  induction 1 as [|x xs [Hs Hx] _ [IH1 IH2]]; simpl.
  { split; [done|]. intros ? [= <-]. split; [constructor|done]. }
  destruct x; try by split. simpl. destruct (index m "name") as [| | | | | | | | | |name| | | | |]; try by split.
  destruct (index_good m "type" Hs Hx HN) as [Hp Hl].
  destruct (E (index m "type")) as [c|e|s]; simpl; [|by split|by destruct (Hp s)].
  split; [by apply bind_no_panic|]. intros fields Eq. apply bind_Ret_inv in Eq as (r & Hr & Eq).
  injection Eq as <-. apply IH2 in Hr as [H1 H2]. split; [constructor; [by apply Hl|done]|].
  simpl. by rewrite H2.
Qed.

Lemma jsonAlternatives_spec d xs alts : Forall inside xs -> lawful_alts alts ->
  no_panic (jsonAlternatives E d xs alts) /\
  forall alts', jsonAlternatives E d xs alts = Ret alts' -> lawful_alts alts'.
Proof.
  intros Hxs. revert alts. induction Hxs as [|x xs [Hs Hx] _ IH]; intros alts Ha; simpl.
  { split; [done|]. by intros ? [= <-]. }
  destruct x; try by split. pose proof (parseDisc_no_panic d (index m "discriminant")) as Hd.
  pose proof (parseDisc_hashable d (index m "discriminant")) as Hh.
  destruct (parseDiscriminantValue _ _) as [k|e|s]; simpl; [|by split|by destruct (Hd s)].
  destruct (index_good m "type" Hs Hx HN) as [Hp Hl].
  destruct (E (index m "type")) as [c|e|s]; simpl; [|by split|by destruct (Hp s)].
  destruct (altSet_ok alts k c (Hh k eq_refl) (Hl c eq_refl) Ha) as (alts' & -> & Ha'). by apply IH.
Qed.

Lemma jsonCardinality_no_panic v : no_panic (jsonCardinality v).
Proof. destruct v; try done; simpl; by case_match. Qed.

Lemma jsonKind_good m : (vsize (VMap m) <= N)%nat -> everywhere json_local (VMap m) -> good (jsonKind E m).
Proof.
  intros Hs Hm. pose proof (everywhere_here json_local _ Hm) as [Hcard Hnd].
  destruct (index_good m "element" Hs Hm HN) as [Hp Hl].
  unfold jsonKind. destruct (mapGet m "kind") as [[| | | | | | | | | |kind| | | | |]|]; try apply good_Fail.
  repeat case_bool_decide; try apply good_Fail.
  - unfold jsonFixedArray. destruct (E (index m "element")) as [c|e|s]; simpl; [|apply good_Fail|by destruct (Hp s)].
    unfold index in Hcard. destruct (mapGet m "cardinality") as [card|]; [|apply good_Fail].
    pose proof (jsonCardinality_no_panic card) as Hc.
    destruct (jsonCardinality card) as [n|e|s]; simpl; [|apply good_Fail|by destruct (Hc s)].
    by apply NewFixedArray_good; [apply Hl|apply Hcard].
  - unfold jsonVariableArray. destruct (E (index m "element")) as [c|e|s]; simpl; [|apply good_Fail|by destruct (Hp s)].
    specialize (Hl c eq_refl). apply good_Ret, _.
  - unfold jsonFixedRecord. destruct (jsonFields_spec _ (asArray_inside m "fields" Hs Hm)) as [Hj1 Hj2].
    destruct (jsonFields _ _) as [fields|e|s]; simpl; [|apply good_Fail|by destruct (Hj1 s)].
    destruct (Hj2 fields eq_refl) as [Hf Hn]. apply good_Ret, fixedRecord_lawful; [done|]. by rewrite Hn.
  - unfold jsonVariantRecord. destruct (index m "discriminator") as [| | | | | | | | | |d| | | | |]; try apply good_Fail.
    pose proof (PrimitiveByName_good d) as [Hdp Hdl]. pose proof (PrimitiveByName_hashable d) as Hh.
    destruct (PrimitiveByName d) as [c|e|s]; simpl; [|apply good_Fail|by destruct (Hdp s)].
    destruct (jsonAlternatives_spec d _ [] (asArray_inside m "alternatives" Hs Hm)) as [Hj1 Hj2]; [constructor|].
    destruct (jsonAlternatives _ _ _ _) as [alts|e|s]; simpl; [|apply good_Fail|by destruct (Hj1 s)].
    apply good_Ret, variant_lawful; eauto.
  - apply good_Ret, _.
Qed.
End Json.

(** Fuel equal to the descriptor's size is enough. *)
Lemma jsonElement_good fuel v : (vsize v <= fuel)%nat -> everywhere json_local v -> good (jsonElement fuel v).
Proof.
  revert v. induction fuel as [|fuel IH]; intros v Hs Hv.
  { pose proof (vsize_pos v). lia. }
  destruct v; simpl; try apply good_Fail; [apply PrimitiveByName_good|].
  apply (jsonKind_good _ (S fuel)); [|by destruct fuel|done|done].
  intros w Hw Hew. apply IH; [lia|done].
Qed.

Lemma dispatch_good dt : descriptor_ok dt -> good (dispatch dt).
Proof.
  destruct dt as [v|dt]; [|apply codecForModel_good]. intros Hv.
  destruct v; simpl; try apply good_Fail; [apply PrimitiveByName_good|]. by apply jsonElement_good.
Qed.
End Model.

(** ** Properties *)
Section Theorems.
Context `{GoArch}.



(** What a Go integer of a dynamic integer type is. *)
Definition int_value (v : value) : Prop :=
  match v with VInt x | VInt32 x | VInt64 x => inS 64 x | _ => True end.

Lemma parseDigits_range bs n r : 0 <= n -> parseDigits bs n = Ret r -> 0 <= r.
Proof.
  revert n. induction bs as [|c bs IH]; intros n Hn; simpl; [by intros [= <-]|].
  unfold digit, between. destruct (_ && _) eqn:Ed; [|done]. case_match; [done|]. apply IH. zcases.
Qed.
Lemma ParseUint_range bs r : ParseUint bs = Ret r -> 0 <= r.
Proof. destruct bs; [done|]. by apply parseDigits_range. Qed.
Lemma ParseInt_range s x : ParseInt s = Ret x -> inS 64 x.
Proof.
  unfold ParseInt. destruct (bytes_of s) as [|c bs]; [done|]. intros E.
  apply bind_Ret_inv in E as (un & Hu & E).
  apply ParseUint_range in Hu.
  destruct (byteZ c =? 0x2D); simpl in E.
  - destruct (Z.ltb_spec (2 ^ 63) un); [done|]. injection E as <-. unfold inS, minS, maxS. simpl. lia.
  - destruct (Z.leb_spec (2 ^ 63) un); [done|]. injection E as <-. unfold inS, minS, maxS. simpl. lia.
Qed.
Lemma toInt64Loose_range v x : int_value v -> toInt64Loose v = Ret x -> inS 64 x.
Proof.
  destruct v; try done; simpl; try (by intros ? [= <-]); intros _.
  - case_match; [done|]. intros [= <-]. unfold f64_to_int64.
    case_match; [apply f64_to_int64_oob_range|]. case_match; [|apply f64_to_int64_oob_range].
    unfold inS. zcases.
  - intros E. apply mapErr_Ret_inv in E. by eapply ParseInt_range.
Qed.

Lemma native_canonical w e x : inS (bits w) x ->
  exists bs, Encode (integerCodec w e) (native w x) = Ret bs /\
    Decode (integerCodec w e) bs = Ret (native w x, zlen bs).
Proof.
  intros Hx. rewrite encode_native by done. eexists. split; [done|].
  unfold zlen. rewrite decode_eq. unfold zlen. rewrite length_put, Z.ltb_irrefl.
  rewrite take_ge by (rewrite length_put; lia).
  rewrite get_put_id, wrapS_wrapU by (first [apply bits_pos | exact Hx
    | apply wrapU_range; pose proof (bits_pos w); lia]). done.
Qed.

(** The key under which a variant's alternative is registered is exactly
    the value the discriminator codec decodes for it, so the lookups of
    [Encode] and [Decode] find it. *)
Theorem discriminant_keys_canonical (discName : string) (raw key : value) (disc : Codec) :
  int_value raw -> PrimitiveByName discName = Ret disc ->
  parseDiscriminantValue discName raw = Ret key ->
  exists bs, Encode disc key = Ret bs /\ Decode disc bs = Ret (key, zlen bs).
Proof.
  intros Hraw Hd. unfold parseDiscriminantValue.
  repeat case_bool_decide; try done.
  - intros E. apply bind_Ret_inv in E as (f & _ & E). apply bind_Ret_inv in E as (x & Hx & E).
    injection E as <-. assert (inS 16 x).
    { unfold toInt16 in Hx. simpl in Hx. case_match; [done|]. injection Hx as <-. by apply wrapS_range. }
    rewrite !elem_of_cons, elem_of_nil in *.
    destruct H0 as [-> | [-> | []]]; injection Hd as <-; [apply (native_canonical W16 BE)|apply (native_canonical W16 LE)]; done.
  - intros E. apply bind_Ret_inv in E as (f & _ & E). apply bind_Ret_inv in E as (x & Hx & E).
    injection E as <-. assert (inS 32 x).
    { unfold toInt32 in Hx. simpl in Hx. case_match; [done|]. injection Hx as <-. by apply wrapS_range. }
    rewrite !elem_of_cons, elem_of_nil in *.
    destruct H1 as [-> | [-> | []]]; injection Hd as <-; [apply (native_canonical W32 BE)|apply (native_canonical W32 LE)]; done.
  - intros E. apply bind_Ret_inv in E as (f & Hf & E). injection E as <-.
    apply toInt64Loose_range in Hf; [|done]. rewrite !elem_of_cons, elem_of_nil in *.
    destruct H2 as [-> | [-> | []]]; injection Hd as <-; [apply (native_canonical W64 BE)|apply (native_canonical W64 LE)]; done.
  - intros E. apply bind_Ret_inv in E as (f & _ & E). case_match; [done|]. injection E as <-.
    subst discName. injection Hd as <-. by eexists.
  - intros E. subst discName. injection Hd as <-.
    assert (exists b, key = VBool b) as [b ->].
    { destruct raw; try done; simpl in E; try (injection E as <-; by eexists).
      apply bind_Ret_inv in E as (b & _ & E). injection E as <-. by eexists. }
    by destruct b; eexists.
Qed.
End Theorems.

Definition sample_record : descriptor :=
  DAny (VMap [("kind", VString "HLAfixedRecord");
              ("fields", VArr [VMap [("name", VString "id"); ("type", VString "HLAoctet")];
                               VMap [("name", VString "xs"); ("type",
                                 VMap [("kind", VString "HLAvariableArray");
                                       ("element", VString "HLAinteger32BE")])]])])%string.
Lemma sample_record_ok `{GoArch} : descriptor_ok sample_record.
Proof.
  repeat split; try done; simpl; repeat (apply NoDup_cons; split); try apply NoDup_nil;
    rewrite ?elem_of_cons, ?elem_of_nil; intuition discriminate.
Defined.



Lemma discriminant_keys_canonical_witness :
  exists bs, Encode HLAinteger16LE (VInt32 (-3)) = Ret bs /\
    Decode HLAinteger16LE bs = Ret (VInt32 (-3), zlen bs).
Proof.
  apply (discriminant_keys_canonical "HLAinteger16LE" (VString "-3") (VInt32 (-3)) HLAinteger16LE);
    [exact I|reflexivity|reflexivity].
Defined.

(** A cardinality is not checked against what can be allocated: the FOM array
    below gets a codec, and decoding with it panics on every buffer. *)
Theorem fixed_array_cardinality_panics `{GoArch} (sem : OptionalString) (b : list byte) :
  exists c, CodecFor (DModel (ArrayData "Big" "HLAoctet" "100000000000000" "HLAfixedArray" sem)) = Ret c /\
    exists msg, Decode c b = Panic msg.
Proof. eexists. split; [reflexivity|]. eexists. reflexivity. Qed.
