(* ===== verification/Sync.v ===== *)
(** * Synchronization points ([rti/internal/hla/synchronization])

    [manager.go], [callbacks.go], [events.go] and [restore_callbacks.go]: the
    state of a federation's synchronization points, the callbacks it owes, and
    the operations of [Manager].  The manager's [opMu] serializes operations, so
    each is a function of the whole state.

    A [map[FederateHandle]struct{}] is a [gset Z], the other maps are [gmap]s.  The Go
    code shares one [*syncPoint] between the map and a local variable; here a
    point is always read from and written to the map ([points st !! label]),
    which is the same point until the label is deleted.  The outbox is code of
    another component: its answers are an argument ([Outbox]). *)
From stdpp Require Import gmap.
From Stdlib Require Import Strings.Byte.
From S2P Require Import Prelude GoBytes.
Open Scope Z_scope.

(** ** Data *)
Inductive sync_error :=
| ErrSyncPointAlreadyRegistered
| ErrSyncPointNotRegistered
| ErrSyncPointAlreadyAchieved
| errOutbox                     (** an error of the outbox *)
| sync_errorf (msg : string).

Abbreviation FederateHandle := Z.
Abbreviation FederationName := string.
Abbreviation handles := (gset Z).

Inductive SyncPointState := StateUnknown | StateAnnounced | StateAchieved.
#[export] Instance SyncPointState_eq_dec : EqDecision SyncPointState.
Proof. solve_decision. Defined.

(** [callbackOther] is a [callbackKind] outside the declared constants, which a
    restored image may hold. *)
Inductive callbackKind :=
| callbackAnnounce
| callbackSynchronized
| callbackRegistrationSucceeded
| callbackRegistrationFailed
| callbackOther (k : Z).
#[export] Instance callbackKind_eq_dec : EqDecision callbackKind.
Proof. solve_decision. Defined.

(** [core.SyncCallbackKind]; [SyncCallbackOther 0] is its zero value. *)
Inductive SyncCallbackKind :=
| SyncCallbackAnnounced
| SyncCallbackSynchronized
| SyncCallbackRegistrationSucceeded
| SyncCallbackRegistrationFailed
| SyncCallbackOther (k : Z).
#[export] Instance SyncCallbackKind_eq_dec : EqDecision SyncCallbackKind.
Proof. solve_decision. Defined.

Inductive RegistrationFailureReason :=
| RegistrationFailureNone
| RegistrationFailureLabelNotUnique
| RegistrationFailureSetMemberNotJoined
| RegistrationFailureOther (k : Z).
#[export] Instance RegistrationFailureReason_eq_dec : EqDecision RegistrationFailureReason.
Proof. solve_decision. Defined.

Record CallbackState := {
  Kind : callbackKind;
  Label : string;
  Recipient : FederateHandle;
  Sequence : Z;
  Epoch : Z;
  Entered : bool;
  Tag : list byte;
  Required : list FederateHandle;
  Failed : list FederateHandle;
  Reason : RegistrationFailureReason;
}.
#[export] Instance CallbackState_eq_dec : EqDecision CallbackState.
Proof. solve_decision. Defined.

Record InvocationState := {
  i_Recipient : FederateHandle;
  Announce : Z;
  Synchronized : Z;
  AnnounceInvoked : bool;
  AnnounceEntered : bool;
  SynchronizedInvoked : bool;
}.
Definition noInvocation : InvocationState := Build_InvocationState 0 0 0 false false false.

Record syncPoint := {
  tag : list byte;
  state : SyncPointState;
  required : handles;
  achieved : handles;
  failed : handles;
  dynamic : bool;
  allMembers : bool;
  epoch : Z;
  callbacks : gmap FederateHandle InvocationState;
}.

Record federationState := {
  points : gmap string syncPoint;
  nextSequence : Z;
  nextEpoch : Z;
  pending : list CallbackState;
  obligations : gmap Z CallbackState;
}.

(** Assignments to one field. *)
Definition set_points st x := Build_federationState x (nextSequence st) (nextEpoch st) (pending st) (obligations st).
Definition set_nextSequence st x := Build_federationState (points st) x (nextEpoch st) (pending st) (obligations st).
Definition set_nextEpoch st x := Build_federationState (points st) (nextSequence st) x (pending st) (obligations st).
Definition set_pending st x := Build_federationState (points st) (nextSequence st) (nextEpoch st) x (obligations st).
Definition set_obligations st x := Build_federationState (points st) (nextSequence st) (nextEpoch st) (pending st) x.
Definition set_state p x :=
  Build_syncPoint (tag p) x (required p) (achieved p) (failed p) (dynamic p) (allMembers p) (epoch p) (callbacks p).
Definition set_required p x :=
  Build_syncPoint (tag p) (state p) x (achieved p) (failed p) (dynamic p) (allMembers p) (epoch p) (callbacks p).
Definition set_achieved p x :=
  Build_syncPoint (tag p) (state p) (required p) x (failed p) (dynamic p) (allMembers p) (epoch p) (callbacks p).
Definition set_failed p x :=
  Build_syncPoint (tag p) (state p) (required p) (achieved p) x (dynamic p) (allMembers p) (epoch p) (callbacks p).
Definition set_callbacks p x :=
  Build_syncPoint (tag p) (state p) (required p) (achieved p) (failed p) (dynamic p) (allMembers p) (epoch p) x.
Definition set_point st label p := set_points st (<[label := p]> (points st)).
Definition delete_point st label := set_points st (delete label (points st)).

(** [inv := point.callbacks[h]]: absent is the zero value. *)
Definition invOf (p : syncPoint) (h : FederateHandle) : InvocationState :=
  default noInvocation (callbacks p !! h).
Definition set_Announce inv x :=
  Build_InvocationState (i_Recipient inv) x (Synchronized inv) (AnnounceInvoked inv) (AnnounceEntered inv) (SynchronizedInvoked inv).
Definition set_Synchronized inv x :=
  Build_InvocationState (i_Recipient inv) (Announce inv) x (AnnounceInvoked inv) (AnnounceEntered inv) (SynchronizedInvoked inv).
Definition set_AnnounceInvoked inv x :=
  Build_InvocationState (i_Recipient inv) (Announce inv) (Synchronized inv) x (AnnounceEntered inv) (SynchronizedInvoked inv).
Definition set_AnnounceEntered inv x :=
  Build_InvocationState (i_Recipient inv) (Announce inv) (Synchronized inv) (AnnounceInvoked inv) x (SynchronizedInvoked inv).
Definition set_SynchronizedInvoked inv x :=
  Build_InvocationState (i_Recipient inv) (Announce inv) (Synchronized inv) (AnnounceInvoked inv) (AnnounceEntered inv) x.
Definition set_Entered c x :=
  Build_CallbackState (Kind c) (Label c) (Recipient c) (Sequence c) (Epoch c) x (Tag c) (Required c) (Failed c) (Reason c).

(** ** Callbacks and events *)
Definition observedKind (k : callbackKind) : SyncCallbackKind :=
  match k with
  | callbackAnnounce => SyncCallbackAnnounced
  | callbackSynchronized => SyncCallbackSynchronized
  | callbackRegistrationSucceeded => SyncCallbackRegistrationSucceeded
  | callbackRegistrationFailed => SyncCallbackRegistrationFailed
  | callbackOther _ => SyncCallbackOther 0
  end.

Inductive OutboundEvent :=
| AnnounceEvent (seq : Z) (label : string) (tag : list byte) (required : list FederateHandle)
| SynchronizedEvent (seq : Z) (label : string) (failed : list FederateHandle)
| RegistrationSucceededEvent (seq : Z) (label : string)
| RegistrationFailedEvent (seq : Z) (label : string) (reason : RegistrationFailureReason).

(** A nil event is [None]. *)
Record OutboxDelivery := { d_Recipient : FederateHandle; Event : option OutboundEvent }.

Definition delivery (c : CallbackState) : OutboxDelivery :=
  {| d_Recipient := Recipient c;
     Event := match Kind c with
              | callbackAnnounce => Some (AnnounceEvent (Sequence c) (Label c) (Tag c) (Required c))
              | callbackSynchronized => Some (SynchronizedEvent (Sequence c) (Label c) (Failed c))
              | callbackRegistrationSucceeded => Some (RegistrationSucceededEvent (Sequence c) (Label c))
              | callbackRegistrationFailed => Some (RegistrationFailedEvent (Sequence c) (Label c) (Reason c))
              | callbackOther _ => None
              end |}.

(** The event-log records of [events.go]. *)
Inductive eventRecord :=
| evtRegistered (label : string)
| evtAchieved (label : string) (federate : FederateHandle)
| evtSynchronized (label : string).

(** ** The manager and its environment *)
Inductive reservation :=
| ReserveError
| ReserveNil
| Reserved (commits : bool).     (** whether its [Commit] succeeds *)
Record Outbox := {
  Reserve : list OutboxDelivery -> reservation;
  Send : OutboxDelivery -> bool;
}.
Record Options := {
  ReservableOutbox : bool;       (** the outbox implements [core.ReservableOutbox] *)
  EventLog : bool;               (** an event log is configured *)
  Members : option (FederationName -> list FederateHandle);
  RequireInvocations : bool;
}.
Definition Manager := gmap FederationName federationState.

(** [New]'s checks; the outbox is never nil here. *)
Definition New (opts : Options) : outcome sync_error Manager :=
  if RequireInvocations opts then
    match Members opts with
    | None => Fail (sync_errorf "sync: strict profile requires membership resolver")
    | Some _ =>
        if ReservableOutbox opts then Ret ∅
        else Fail (sync_errorf "sync: strict profile requires reservable outbox")
    end
  else Ret ∅.

(** What an operation does: the new state, the deliveries admitted to the outbox,
    the event-log records, and the returned error. *)
Record reply := Reply {
  mgr : Manager;
  sent : list OutboxDelivery;
  logged : list eventRecord;
  ret : outcome sync_error ();
}.

Definition emptyFederationState : federationState := Build_federationState ∅ 0 0 [] ∅.
Definition stateOf (m : Manager) (fed : FederationName) : federationState :=
  default emptyFederationState (m !! fed).
Definition publish (m : Manager) (fed : FederationName) (st : federationState) : Manager := <[fed := st]> m.
Definition OnFederationDestroyed (m : Manager) (fed : FederationName) : Manager := delete fed m.

Definition sortedHandles (s : handles) : list FederateHandle := merge_sort Z.le (elements s).
Definition handleSet (l : list FederateHandle) : handles := list_to_set l.
Definition sortedLabels (st : federationState) : list string :=
  merge_sort String.le (elements (dom (points st))).

Definition PendingFederations (m : Manager) : list FederationName :=
  merge_sort String.le
    (elements (dom (filter (fun kv => pending kv.2 <> []) m))).

Definition MaxUint64 : Z := maxU 64.

Definition enqueue (st : federationState) (callback : CallbackState) : outcome sync_error federationState :=
  if nextSequence st =? MaxUint64 then Fail (sync_errorf "sync: callback sequence exhausted")
  else
    let seq := nextSequence st + 1 in
    let point := points st !! Label callback in
    let callback :=
      Build_CallbackState (Kind callback) (Label callback) (Recipient callback) seq
        (match point with Some p => epoch p | None => Epoch callback end)
        (Entered callback) (Tag callback) (Required callback) (Failed callback) (Reason callback) in
    let pts :=
      match point with
      | None => points st
      | Some p =>
          let inv := invOf p (Recipient callback) in
          match Kind callback with
          | callbackAnnounce =>
              <[Label callback := set_callbacks p (<[Recipient callback := set_Announce inv seq]> (callbacks p))]> (points st)
          | callbackSynchronized =>
              <[Label callback := set_callbacks p (<[Recipient callback := set_Synchronized inv seq]> (callbacks p))]> (points st)
          | _ => points st
          end
      end in
    Ret (Build_federationState pts seq (nextEpoch st) (pending st ++ [callback])
           (<[seq := callback]> (obligations st))).
Fixpoint enqueueAll (st : federationState) (l : list CallbackState) : outcome sync_error federationState :=
  match l with
  | [] => Ret st
  | c :: l => st ← enqueue st c; enqueueAll st l
  end.

(** [CallbackState{...}] with the fields a service sets. *)
Definition announceCallback (label : string) (tg : list byte) (h : FederateHandle) (req : list FederateHandle) :=
  Build_CallbackState callbackAnnounce label h 0 0 false tg req [] RegistrationFailureNone.
Definition synchronizedCallback (label : string) (h : FederateHandle) (fl : list FederateHandle) :=
  Build_CallbackState callbackSynchronized label h 0 0 false [] [] fl RegistrationFailureNone.
Definition confirmation (k : callbackKind) (label : string) (h : FederateHandle) (r : RegistrationFailureReason) :=
  Build_CallbackState k label h 0 0 false [] [] [] r.

Section Ops.
Context (opts : Options) (out : Outbox).

(** [Send]s stop at the first error; what was sent stays sent. *)
Fixpoint sendAll (ds : list OutboxDelivery) : list OutboxDelivery * bool :=
  match ds with
  | [] => ([], true)
  | d :: ds => if Send out d then let (s, ok) := sendAll ds in (d :: s, ok) else ([], false)
  end.

(** Pending callbacks leave the state with their admission; outside the strict
    profile they also leave the obligations. *)
Definition admitted (next : federationState) : federationState :=
  set_pending
    (if RequireInvocations opts then next
     else set_obligations next
            (fold_left (fun obs c => delete (Sequence c) obs) (pending next) (obligations next))) [].

Definition transition {A} (m : Manager) (fed : FederationName) (lifecycle : bool)
    (change : federationState -> outcome sync_error (federationState * A)) : reply * option A :=
  match change (stateOf m fed) with
  | Fail e => (Reply m [] [] (Fail e), None)
  | Panic s => (Reply m [] [] (Panic s), None)
  | Ret (next, a) =>
      let deliveries := map delivery (pending next) in
      let done_ := admitted next in
      match deliveries with
      | [] => (Reply (publish m fed done_) [] [] (Ret ()), Some a)
      | _ =>
          if ReservableOutbox opts then
            match Reserve out deliveries with
            | ReserveError =>
                (Reply (if lifecycle then publish m fed next else m) [] [] (Fail errOutbox), None)
            | ReserveNil =>
                (Reply (if lifecycle then publish m fed next else m) [] []
                   (Fail (sync_errorf "sync: nil outbox reservation")), None)
            | Reserved true => (Reply (publish m fed done_) deliveries [] (Ret ()), Some a)
            | Reserved false =>
                (Reply (publish m fed (set_pending done_ (pending next))) [] [] (Fail errOutbox), None)
            end
          else
            let (s, ok) := sendAll deliveries in
            if ok then (Reply (publish m fed done_) s [] (Ret ()), Some a)
            else (Reply m s [] (Fail errOutbox), None)
      end
  end.
Definition with_log (r : reply) (l : list eventRecord) : reply :=
  Reply (mgr r) (sent r) (if EventLog opts then l else []) (ret r).

(** ** Registration *)
Definition registrationMembers (fed : FederationName) (requested : list FederateHandle)
    (registrant : option FederateHandle) : list FederateHandle * bool :=
  match Members opts with
  | None => (requested, true)
  | Some members =>
      let joined := members fed in
      match requested with
      | [] => (joined, true)
      | _ =>
          match registrant with
          | Some _ => if forallb (fun h => bool_decide (h ∈ joined)) requested then (requested, true) else ([], false)
          | None => (requested, true)
          end
      end
  end.

Definition registrationFailed (st : federationState) (label : string) (registrant : option FederateHandle)
    (reason : RegistrationFailureReason) : outcome sync_error (federationState * bool) :=
  match registrant with
  | None => Fail ErrSyncPointAlreadyRegistered
  | Some r =>
      st ← enqueue st (confirmation callbackRegistrationFailed label r reason);
      Ret (st, false)
  end.

Definition newPoint (tg : list byte) (members : list FederateHandle) (all : bool) (ep : Z) : syncPoint :=
  Build_syncPoint tg StateAnnounced (handleSet members) ∅ ∅
    (all && match Members opts with None => true | Some _ => false end) all ep ∅.

(** The change [register] makes; the flag says whether a point was registered. *)
Definition registerChange (fed : FederationName) (label : string) (tg : list byte)
    (requested : list FederateHandle) (registrant : option FederateHandle) (st : federationState)
    : outcome sync_error (federationState * bool) :=
  if bool_decide (is_Some (points st !! label)) then
    registrationFailed st label registrant RegistrationFailureLabelNotUnique
  else
    let all := match requested with [] => true | _ => false end in
    let (members, valid) := registrationMembers fed requested registrant in
    if negb valid then registrationFailed st label registrant RegistrationFailureSetMemberNotJoined
    else if nextEpoch st =? MaxUint64 then Fail (sync_errorf "sync: label epoch exhausted")
    else
      let ep := nextEpoch st + 1 in
      let point := newPoint tg members all ep in
      let st := set_point (set_nextEpoch st ep) label point in
      st ← match registrant with
           | Some r => enqueue st (confirmation callbackRegistrationSucceeded label r RegistrationFailureNone)
           | None => Ret st
           end;
      let req := sortedHandles (required point) in
      st ← enqueueAll st (map (fun h => announceCallback label tg h req) req);
      Ret (st, true).

Definition register (m : Manager) (fed : FederationName) (label : string) (tg : list byte)
    (requested : list FederateHandle) (registrant : option FederateHandle) : reply :=
  let (r, registered) := transition m fed false (registerChange fed label tg requested registrant) in
  match registered with
  | Some true => with_log r [evtRegistered label]
  | _ => r
  end.
Definition Register m fed label tg requested := register m fed label tg requested None.
Definition RegisterBy m fed registrant label tg requested := register m fed label tg requested (Some registrant).

(** ** Completion *)
Definition complete (st : federationState) (label : string) : outcome sync_error federationState :=
  match points st !! label with
  | None => Ret st
  | Some point =>
      if bool_decide (state point = StateAchieved) then Ret st
      else if negb (bool_decide (required point ⊆ achieved point)) then Ret st
      else
        let st := set_point st label (set_state point StateAchieved) in
        st ← enqueueAll st (map (fun h => synchronizedCallback label h (sortedHandles (failed point)))
                              (sortedHandles (required point)));
        if RequireInvocations opts && bool_decide (required point = ∅) then Ret (delete_point st label)
        else Ret st
  end.

Definition retire (st : federationState) (label : string) : federationState :=
  match points st !! label with
  | None => st
  | Some point =>
      if negb (RequireInvocations opts) || negb (bool_decide (state point = StateAchieved)) then st
      else if forallb (fun h => SynchronizedInvoked (invOf point h)) (elements (required point))
      then delete_point st label
      else st
  end.

(** ** Achievement *)
Definition announcementPending (st : federationState) (point : syncPoint) (label : string)
    (h : FederateHandle) : bool :=
  existsb (fun c =>
    bool_decide (Label c = label) && (Recipient c =? h) && bool_decide (Kind c = callbackAnnounce) &&
    (negb (RequireInvocations opts) || negb (AnnounceEntered (invOf point h)))) (pending st).

Definition achieveChange (h : FederateHandle) (label : string) (successfully : bool)
    (st : federationState) : outcome sync_error (federationState * bool) :=
  match points st !! label with
  | None => Fail ErrSyncPointNotRegistered
  | Some point =>
      let point := if dynamic point then set_required point ({[h]} ∪ required point) else point in
      if negb (bool_decide (h ∈ required point)) then Fail ErrSyncPointNotRegistered
      else if RequireInvocations opts && negb (AnnounceEntered (invOf point h)) then Fail ErrSyncPointNotRegistered
      else if announcementPending st point label h then Fail ErrSyncPointNotRegistered
      else if bool_decide (h ∈ achieved point) then Fail ErrSyncPointAlreadyAchieved
      else
        let point := set_achieved point ({[h]} ∪ achieved point) in
        let point := if successfully then point else set_failed point ({[h]} ∪ failed point) in
        st ← complete (set_point st label point) label;
        (* the local [point] outlives a deletion of its label *)
        Ret (st, match points st !! label with
                 | Some p => bool_decide (state p = StateAchieved)
                 | None => true
                 end)
  end.

Definition achieve (m : Manager) (fed : FederationName) (h : FederateHandle) (label : string)
    (successfully : bool) : reply :=
  let (r, synchronized) := transition m fed false (achieveChange h label successfully) in
  match synchronized with
  | Some b => with_log r (evtAchieved label h :: if b then [evtSynchronized label] else [])
  | None => r
  end.
Definition Achieve m fed h label := achieve m fed h label true.
Definition AchieveWith m fed h label successfully := achieve m fed h label successfully.

(** ** Membership *)
Fixpoint joinPoints (h : FederateHandle) (labels : list string) (st : federationState)
    : outcome sync_error federationState :=
  match labels with
  | [] => Ret st
  | label :: labels =>
      match points st !! label with
      | None => joinPoints h labels st
      | Some point =>
          if negb (allMembers point) || negb (bool_decide (state point = StateAnnounced)) then joinPoints h labels st
          else if bool_decide (h ∈ required point) then joinPoints h labels st
          else
            let point := set_required point ({[h]} ∪ required point) in
            st ← enqueue (set_point st label point)
                   (announceCallback label (tag point) h (sortedHandles (required point)));
            joinPoints h labels st
      end
  end.
Definition FederateJoined (m : Manager) (fed : FederationName) (h : FederateHandle) : reply :=
  fst (transition m fed true (fun st => st ← joinPoints h (sortedLabels st) st; Ret (st, ()))).

Definition dropMember (point : syncPoint) (h : FederateHandle) : syncPoint :=
  set_callbacks (set_failed (set_achieved (set_required point (required point ∖ {[h]}))
    (achieved point ∖ {[h]})) (failed point ∖ {[h]})) (delete h (callbacks point)).
Fixpoint resignPoints (h : FederateHandle) (labels : list string) (st : federationState)
    : outcome sync_error federationState :=
  match labels with
  | [] => Ret st
  | label :: labels =>
      match points st !! label with
      | None => resignPoints h labels st
      | Some point =>
          st ← complete (set_point st label (dropMember point h)) label;
          resignPoints h labels (retire st label)
      end
  end.
Definition dropCallbacks (st : federationState) (h : FederateHandle) : federationState :=
  set_obligations
    (set_pending st (filter (fun c => Recipient c <> h) (pending st)))
    (filter (fun kv => Recipient kv.2 <> h) (obligations st)).
Definition FederateResigned (m : Manager) (fed : FederationName) (h : FederateHandle) : reply :=
  fst (transition m fed true
    (fun st => st ← resignPoints h (sortedLabels st) (dropCallbacks st h); Ret (st, ()))).

(** ** Retry

    The loop sends one callback at a time; every round shortens [pending], so
    its length is enough fuel. *)
Fixpoint retryLoop (fuel : nat) (m : Manager) (fed : FederationName) (acc : list OutboxDelivery) : reply :=
  let next := stateOf m fed in
  match pending next, fuel with
  | [], _ => Reply m acc [] (Ret ())
  | _ :: _, O => Reply m acc [] (Panic "out of fuel")
  | c :: rest, S fuel =>
      match Reserve out [delivery c] with
      | ReserveError => Reply m acc [] (Fail errOutbox)
      | ReserveNil => Reply m acc [] (Fail (sync_errorf "sync: nil retry reservation"))
      | Reserved false => Reply m acc [] (Fail errOutbox)
      | Reserved true =>
          let next := if RequireInvocations opts then next
                      else set_obligations next (delete (Sequence c) (obligations next)) in
          retryLoop fuel (publish m fed (set_pending next rest)) fed (acc ++ [delivery c])
      end
  end.
Definition RetryPending (m : Manager) (fed : FederationName) : reply :=
  if ReservableOutbox opts then retryLoop (length (pending (stateOf m fed))) m fed []
  else Reply m [] [] (Fail (sync_errorf "sync: retry requires reservable outbox")).

(** ** Receipts *)
Definition callbackPending (l : list CallbackState) (sequence : Z) : bool :=
  existsb (fun c => Sequence c =? sequence) l.

(** The invocation a receipt records, or [None] when it does not apply. *)
Definition observePointCallback (st : federationState) (point : syncPoint) (h : FederateHandle)
    (kind : SyncCallbackKind) (label : string) (sequence : Z) (entry : bool)
    : outcome sync_error (option federationState) :=
  let inv := invOf point h in
  let record inv := Ret (Some (retire (set_point st label
                       (set_callbacks point (<[h := inv]> (callbacks point)))) label)) in
  match kind with
  | SyncCallbackAnnounced =>
      if negb (Announce inv =? sequence) then Ret None
      else record (if entry then set_AnnounceEntered inv true else set_AnnounceInvoked inv true)
  | SyncCallbackSynchronized =>
      if negb (Synchronized inv =? sequence) || negb (bool_decide (state point = StateAchieved)) then Ret None
      else record (if entry then inv else set_SynchronizedInvoked inv true)
  | SyncCallbackRegistrationSucceeded | SyncCallbackRegistrationFailed => Ret (Some st)
  | SyncCallbackOther _ => Fail (sync_errorf "sync: unknown callback kind")
  end.

(** [None]: the call returns nil and publishes nothing. *)
Definition observeChange (h : FederateHandle) (kind : SyncCallbackKind) (label : string)
    (sequence : Z) (entry : bool) (st : federationState) : outcome sync_error (option federationState) :=
  match obligations st !! sequence with
  | None => Ret None
  | Some callback =>
      if negb ((Recipient callback =? h) && bool_decide (Label callback = label) &&
               bool_decide (observedKind (Kind callback) = kind)) then Ret None
      else if callbackPending (pending st) sequence then
        Fail (sync_errorf "sync: callback has not been delivered")
      else if negb entry && RequireInvocations opts && negb (Entered callback) then
        Fail (sync_errorf "sync: callback completion requires authenticated entry")
      else
        let next := set_obligations st
          (if entry then <[sequence := set_Entered callback true]> (obligations st)
           else delete sequence (obligations st)) in
        match points next !! label with
        | None => Ret (Some next)
        | Some point =>
            if negb (epoch point =? Epoch callback) then Ret (Some next)
            else observePointCallback next point h kind label sequence entry
        end
  end.
Definition observeCallback (m : Manager) (fed : FederationName) (h : FederateHandle)
    (kind : SyncCallbackKind) (label : string) (sequence : Z) (entry : bool) : reply :=
  if sequence =? 0 then Reply m [] [] (Fail (sync_errorf "sync: invocation requires callback sequence"))
  else
    match observeChange h kind label sequence entry (stateOf m fed) with
    | Ret (Some next) => Reply (publish m fed next) [] [] (Ret ())
    | Ret None => Reply m [] [] (Ret ())
    | Fail e => Reply m [] [] (Fail e)
    | Panic s => Reply m [] [] (Panic s)
    end.
Definition ObserveSyncCallbackEntry m fed h kind label sequence := observeCallback m fed h kind label sequence true.
Definition ObserveSyncCallback m fed h kind label sequence := observeCallback m fed h kind label sequence false.
End Ops.

(** ** Queries *)
Definition QueryState (m : Manager) (fed : FederationName) (label : string) : SyncPointState :=
  match m !! fed with
  | None => StateUnknown
  | Some st => match points st !! label with Some p => state p | None => StateUnknown end
  end.
Record SyncPointInfo := {
  info_Label : string; info_State : SyncPointState;
  RequiredHandles : list FederateHandle; AchievedHandles : list FederateHandle;
}.
Definition Snapshot (m : Manager) (fed : FederationName) : list SyncPointInfo :=
  match m !! fed with
  | None => []
  | Some st =>
      omap (fun label => p ← points st !! label;
              Some {| info_Label := label; info_State := state p;
                      RequiredHandles := sortedHandles (required p);
                      AchievedHandles := sortedHandles (achieved p) |}) (sortedLabels st)
  end.
