(* ===== verification/SyncSnapshot.v ===== *)
(** * Snapshots of synchronization points
    ([rti/internal/hla/synchronization/snapshot.go], [restore_callbacks.go])

    The detached image of a federation's points ([ManagerState]), its export,
    validation and import, and the reconciliation of an imported image with the
    callbacks the transport has captured. *)
From stdpp Require Import gmap.
From Stdlib Require Import Strings.Byte.
From S2P Require Import Prelude GoBytes Sync.
Open Scope Z_scope.

Record PointState := {
  p_Label : string;
  p_Tag : list byte;
  p_State : SyncPointState;
  p_Required : list FederateHandle;
  p_Achieved : list FederateHandle;
  p_Failed : list FederateHandle;
  p_Dynamic : bool;
  p_AllMembers : bool;
  p_Epoch : Z;
  Invocations : list InvocationState;
}.
Record ManagerState := {
  Version : Z;
  s_RequireInvocations : bool;
  NextSequence : Z;
  NextEpoch : Z;
  Points : list PointState;
  Pending : list CallbackState;
  Obligations : list CallbackState;
}.

Definition snapshotError (msg : string) {A} : outcome sync_error A := Fail (sync_errorf msg).
(** [if c { return err }] *)
Notation "'reject' c 'with' msg ;; k" := (if (c : bool) then snapshotError msg else k)
  (at level 100, c at level 99, msg at level 0, k at level 200, right associativity) : go_scope.

(** ** Export *)
Definition sortedCallbackSequences (cbs : gmap Z CallbackState) : list Z := merge_sort Z.le (elements (dom cbs)).
Definition with_Recipient (inv : InvocationState) (h : FederateHandle) : InvocationState :=
  Build_InvocationState h (Announce inv) (Synchronized inv) (AnnounceInvoked inv) (AnnounceEntered inv)
    (SynchronizedInvoked inv).
Definition exportPoint (label : string) (p : syncPoint) : PointState :=
  {| p_Label := label; p_Tag := tag p; p_State := state p;
     p_Required := sortedHandles (required p); p_Achieved := sortedHandles (achieved p);
     p_Failed := sortedHandles (failed p); p_Dynamic := dynamic p; p_AllMembers := allMembers p;
     p_Epoch := epoch p;
     Invocations := map (fun h => with_Recipient (invOf p h) h) (sortedHandles (required p)) |}.
Definition exportFederation (opts : Options) (st : federationState) : ManagerState :=
  {| Version := 3; s_RequireInvocations := RequireInvocations opts;
     NextSequence := nextSequence st; NextEpoch := nextEpoch st;
     Points := omap (fun label => exportPoint label <$> points st !! label) (sortedLabels st);
     Pending := pending st;
     Obligations := if RequireInvocations opts
                    then omap (fun s => obligations st !! s) (sortedCallbackSequences (obligations st))
                    else [] |}.
Definition ExportState (opts : Options) (m : Manager) (fed : FederationName) : option ManagerState :=
  exportFederation opts <$> m !! fed.

(** ** Validation *)
Definition validatePointParticipants (point : PointState) : outcome sync_error () :=
  reject negb (bool_decide (p_State point = StateAnnounced)) && negb (bool_decide (p_State point = StateAchieved))
    with "invalid state" ;;
  let required := handleSet (p_Required point) in
  let achieved := handleSet (p_Achieved point) in
  reject negb (size required =? length (p_Required point))%nat || negb (size achieved =? length (p_Achieved point))%nat
    with "duplicate participant" ;;
  reject existsb (fun h => h =? 0) (p_Required point) with "zero participant" ;;
  reject existsb (fun h => negb (bool_decide (h ∈ required))) (p_Achieved point) with "outsider achievement" ;;
  let failed := handleSet (p_Failed point) in
  reject negb (size failed =? length (p_Failed point))%nat with "duplicate failed participant" ;;
  reject existsb (fun h => negb (bool_decide (h ∈ achieved))) (p_Failed point) with "failure without achievement" ;;
  reject bool_decide (p_State point = StateAchieved) && negb (size achieved =? size required)%nat
    with "incomplete synchronized point" ;;
  Ret ().

(** The identities of one invocation are new ones; [sequences] collects them. *)
Fixpoint claimSequences (bound : Z) (seqs : list Z) (sequences : gset Z) : outcome sync_error (gset Z) :=
  match seqs with
  | [] => Ret sequences
  | seq :: seqs =>
      if seq =? 0 then claimSequences bound seqs sequences
      else
        reject (bound <? seq) || bool_decide (seq ∈ sequences) with "invalid callback identity" ;;
        claimSequences bound seqs ({[seq]} ∪ sequences)
  end.
Definition validateInvocationIdentity (st : ManagerState) (point : PointState) (inv : InvocationState)
    (sequences : gset Z) : outcome sync_error (gset Z) :=
  reject s_RequireInvocations st && (Announce inv =? 0) && negb (p_Dynamic point)
    with "missing announcement identity" ;;
  reject s_RequireInvocations st && (Synchronized inv =? 0) && bool_decide (p_State point = StateAchieved)
    with "missing synchronized identity" ;;
  reject negb (Synchronized inv =? 0) && negb (bool_decide (p_State point = StateAchieved))
    with "premature synchronized identity" ;;
  claimSequences (NextSequence st) [Announce inv; Synchronized inv] sequences.
Definition validateInvocation (st : ManagerState) (point : PointState) (inv : InvocationState)
    (sequences : gset Z) (achieved : handles) : outcome sync_error (gset Z) :=
  sequences ← validateInvocationIdentity st point inv sequences;
  reject (AnnounceEntered inv || AnnounceInvoked inv) && (Announce inv =? 0)
         || SynchronizedInvoked inv && (Synchronized inv =? 0) with "invocation without identity" ;;
  reject AnnounceInvoked inv && negb (AnnounceEntered inv) with "completion without entry" ;;
  reject s_RequireInvocations st && bool_decide (i_Recipient inv ∈ achieved) && negb (AnnounceEntered inv)
    with "achievement without announcement entry" ;;
  Ret sequences.
Fixpoint validateInvocations (st : ManagerState) (point : PointState) (invs : list InvocationState)
    (invoked : handles) (sequences : gset Z) : outcome sync_error (handles * gset Z) :=
  match invs with
  | [] => Ret (invoked, sequences)
  | inv :: invs =>
      reject negb (bool_decide (i_Recipient inv ∈ handleSet (p_Required point)))
             || bool_decide (i_Recipient inv ∈ invoked) with "invalid invocation recipient" ;;
      sequences ← validateInvocation st point inv sequences (handleSet (p_Achieved point));
      validateInvocations st point invs ({[i_Recipient inv]} ∪ invoked) sequences
  end.
Definition validatePointInvocations (st : ManagerState) (point : PointState) (sequences : gset Z)
    : outcome sync_error (gset Z) :=
  reject s_RequireInvocations st && p_Dynamic point with "legacy dynamic profile in strict image" ;;
  reject s_RequireInvocations st && (p_Epoch point =? 0) || (NextEpoch st <? p_Epoch point) with "invalid epoch" ;;
  r ← validateInvocations st point (Invocations point) ∅ sequences;
  reject negb (size r.1 =? size (handleSet (p_Required point)))%nat with "incomplete invocation ledger" ;;
  Ret r.2.
Fixpoint validatePoints (st : ManagerState) (ps : list PointState) (labels : gmap string PointState)
    (sequences : gset Z) : outcome sync_error (gmap string PointState * gset Z) :=
  match ps with
  | [] => Ret (labels, sequences)
  | point :: ps =>
      reject bool_decide (is_Some (labels !! p_Label point)) with "duplicate label" ;;
      let labels := <[p_Label point := point]> labels in
      _ ← validatePointParticipants point;
      sequences ← if Version st =? 0 then Ret sequences else validatePointInvocations st point sequences;
      validatePoints st ps labels sequences
  end.

(** The last invocation with the callback's recipient decides. *)
Definition matchesCallbackInvocation (point : PointState) (callback : CallbackState) (durable : bool) : bool :=
  fold_left (fun matched inv =>
    if negb (i_Recipient inv =? Recipient callback) then matched
    else
      let announceEntryMatches :=
        if durable then Bool.eqb (Entered callback) (AnnounceEntered inv) else negb (AnnounceEntered inv) in
      bool_decide (Kind callback = callbackAnnounce) && (Announce inv =? Sequence callback) &&
        negb (AnnounceInvoked inv) && announceEntryMatches
      || bool_decide (Kind callback = callbackSynchronized) && (Synchronized inv =? Sequence callback) &&
        negb (SynchronizedInvoked inv)) (Invocations point) false.

Definition isPointCallback (c : CallbackState) : bool :=
  bool_decide (Kind c = callbackAnnounce) || bool_decide (Kind c = callbackSynchronized).
Definition noEvent (c : CallbackState) : bool := bool_decide (Event (delivery c) = None).
Definition strictImage (st : ManagerState) : bool := (Version st =? 3) && s_RequireInvocations st.

Definition validateObligation (st : ManagerState) (callback : CallbackState)
    (obls : gmap Z CallbackState) : outcome sync_error () :=
  reject negb (strictImage st) || (Sequence callback =? 0) || (NextSequence st <? Sequence callback)
         || (Recipient callback =? 0) || noEvent callback with "invalid callback obligation" ;;
  reject bool_decide (is_Some (obls !! Sequence callback)) with "duplicate callback obligation" ;;
  reject (NextEpoch st <? Epoch callback)
         || negb (bool_decide (Kind callback = callbackRegistrationFailed)) && (Epoch callback =? 0)
    with "invalid callback epoch" ;;
  reject bool_decide (Kind callback = callbackRegistrationFailed)
         && negb (bool_decide (Reason callback = RegistrationFailureLabelNotUnique))
         && negb (bool_decide (Reason callback = RegistrationFailureSetMemberNotJoined))
    with "invalid registration failure reason" ;;
  Ret ().
Definition validateObligationInvocation (callback : CallbackState) (labels : gmap string PointState)
    (sequences : gset Z) : outcome sync_error () :=
  if isPointCallback callback then
    match labels !! Label callback with
    | Some point =>
        if p_Epoch point =? Epoch callback then
          reject negb (matchesCallbackInvocation point callback true) with "obligation invocation mismatch" ;;
          Ret ()
        else
          reject negb (bool_decide (Kind callback = callbackAnnounce)) || negb (Entered callback)
            with "orphan callback obligation" ;;
          Ret ()
    | None =>
        reject negb (bool_decide (Kind callback = callbackAnnounce)) || negb (Entered callback)
          with "orphan callback obligation" ;;
        Ret ()
    end
  else
    reject bool_decide (Sequence callback ∈ sequences) with "confirmation reuses point callback identity" ;;
    Ret ().
Fixpoint validateObligations (st : ManagerState) (l : list CallbackState) (labels : gmap string PointState)
    (sequences : gset Z) (obls : gmap Z CallbackState) : outcome sync_error (gmap Z CallbackState) :=
  match l with
  | [] => Ret obls
  | callback :: l =>
      _ ← validateObligation st callback obls;
      _ ← validateObligationInvocation callback labels sequences;
      validateObligations st l labels sequences (<[Sequence callback := callback]> obls)
  end.

(** Whether the obligation of an unfinished invocation is there. *)
Definition durable (obls : gmap Z CallbackState) (point : PointState) (inv : InvocationState)
    (sequence : Z) (k : callbackKind) (done : bool) : bool :=
  (sequence =? 0) || done ||
  match obls !! sequence with
  | None => false
  | Some c => bool_decide (Kind c = k) && (Epoch c =? p_Epoch point) &&
              bool_decide (Label c = p_Label point) && (Recipient c =? i_Recipient inv)
  end.
Definition validateDurableInvocations (st : ManagerState) (obls : gmap Z CallbackState) : outcome sync_error () :=
  reject strictImage st &&
    negb (forallb (fun point => forallb (fun inv =>
            durable obls point inv (Announce inv) callbackAnnounce (AnnounceInvoked inv) &&
            durable obls point inv (Synchronized inv) callbackSynchronized (SynchronizedInvoked inv))
          (Invocations point)) (Points st))
    with "missing durable invocation obligation" ;;
  Ret ().

Fixpoint validatePendingCallbacks (st : ManagerState) (l : list CallbackState)
    (labels : gmap string PointState) (obls : gmap Z CallbackState) (seen : gset Z) : outcome sync_error () :=
  match l with
  | [] => Ret ()
  | callback :: l =>
      reject (Sequence callback =? 0) || (NextSequence st <? Sequence callback)
             || bool_decide (Sequence callback ∈ seen) || (Recipient callback =? 0) || noEvent callback
        with "invalid pending callback" ;;
      let seen := {[Sequence callback]} ∪ seen in
      if strictImage st then
        reject negb (bool_decide (obls !! Sequence callback = Some callback))
          with "pending callback differs from durable obligation" ;;
        validatePendingCallbacks st l labels obls seen
      else if isPointCallback callback then
        match labels !! Label callback with
        | None => snapshotError "orphan pending callback"
        | Some point =>
            reject negb (matchesCallbackInvocation point callback false) with "pending invocation mismatch" ;;
            validatePendingCallbacks st l labels obls seen
        end
      else validatePendingCallbacks st l labels obls seen
  end.

Definition isNil {A} (l : list A) : bool := match l with [] => true | _ => false end.
Definition ValidateState (opts : Options) (image : option ManagerState) : outcome sync_error () :=
  match image with
  | None => Ret ()
  | Some st =>
      reject negb (Version st =? 0) && negb (Version st =? 2) && negb (Version st =? 3) with "unsupported version" ;;
      reject RequireInvocations opts
             && (negb (isNil (Points st)) || negb (isNil (Pending st)) || negb (isNil (Obligations st))
                 || negb (NextSequence st =? 0))
             && (negb (Version st =? 3) || negb (s_RequireInvocations st))
        with "exact admitted callback history unavailable" ;;
      r ← validatePoints st (Points st) ∅ ∅;
      obls ← validateObligations st (Obligations st) r.1 r.2 ∅;
      _ ← validateDurableInvocations st obls;
      validatePendingCallbacks st (Pending st) r.1 obls ∅
  end.
Definition ValidateSnapshot (image : option ManagerState) : outcome sync_error () :=
  ValidateState (Build_Options false false None
    (match image with Some st => s_RequireInvocations st | None => false end)) image.

(** ** Import *)
Definition importPoint (p : PointState) : syncPoint :=
  Build_syncPoint (p_Tag p) (p_State p) (handleSet (p_Required p)) (handleSet (p_Achieved p))
    (handleSet (p_Failed p)) (p_Dynamic p) (p_AllMembers p) (p_Epoch p)
    (fold_left (fun cbs inv => <[i_Recipient inv := inv]> cbs) (Invocations p) ∅).
Definition importFederation (image : option ManagerState) : federationState :=
  match image with
  | None => emptyFederationState
  | Some st =>
      let pts := fold_left (fun pts p => <[p_Label p := importPoint p]> pts) (Points st) ∅ in
      if strictImage st then
        let obls := fold_left (fun obls c => <[Sequence c := c]> obls) (Obligations st) ∅ in
        Build_federationState pts (NextSequence st) (NextEpoch st)
          (omap (fun s => obls !! s) (sortedCallbackSequences obls)) obls
      else Build_federationState pts (NextSequence st) (NextEpoch st) (Pending st) ∅
  end.
(** The closure [PrepareImport] returns publishes the prepared state. *)
Definition PrepareImport (opts : Options) (fed : FederationName) (image : option ManagerState)
    : outcome sync_error (Manager -> Manager) :=
  _ ← ValidateState opts image;
  Ret (fun m => publish m fed (importFederation image)).
Definition ImportState (opts : Options) (m : Manager) (fed : FederationName) (image : option ManagerState) : Manager :=
  match image with
  | None => m
  | Some _ => match PrepareImport opts fed image with Ret commit => commit m | _ => m end
  end.

(** ** Reconciliation with captured callbacks *)
Record RestoredCallback := {
  r_Kind : SyncCallbackKind; r_Recipient : FederateHandle; r_Sequence : Z; r_Label : string;
  OutcomeOnly : bool; r_Tag : list byte; r_Required : list FederateHandle;
  r_Failed : list FederateHandle; r_Reason : RegistrationFailureReason;
}.
Fixpoint validateRestoredCallbacks (obls : gmap Z CallbackState) (captured : list RestoredCallback)
    (sequences : gset Z) : outcome sync_error (gset Z) :=
  match captured with
  | [] => Ret sequences
  | r :: captured =>
      reject (r_Sequence r =? 0) || bool_decide (r_Sequence r ∈ sequences)
        with "invalid or duplicate captured sequence" ;;
      match obls !! r_Sequence r with
      | None => snapshotError "captured obligation identity mismatch"
      | Some c =>
          reject negb (Recipient c =? r_Recipient r) || negb (bool_decide (Label c = r_Label r))
                 || negb (bool_decide (observedKind (Kind c) = r_Kind r))
            with "captured obligation identity mismatch" ;;
          reject negb (Bool.eqb (Entered c) (OutcomeOnly r)) with "captured invocation phase mismatch" ;;
          reject negb (bool_decide (Tag c = r_Tag r)) || negb (bool_decide (Required c = r_Required r))
                 || negb (bool_decide (Failed c = r_Failed r)) || negb (bool_decide (Reason c = r_Reason r))
            with "captured immutable payload mismatch" ;;
          validateRestoredCallbacks obls captured ({[r_Sequence r]} ∪ sequences)
      end
  end.
Definition ValidateRestoredCallbacks (image : option ManagerState) (captured : list RestoredCallback)
    : outcome sync_error () :=
  _ ← ValidateSnapshot image;
  let obls := match image with
              | None => ∅
              | Some st => fold_left (fun obls c => <[Sequence c := c]> obls) (Obligations st) ∅
              end in
  _ ← validateRestoredCallbacks obls captured ∅;
  Ret ().
Definition ReconcileRestoredCallbacks (m : Manager) (fed : FederationName) (captured : list RestoredCallback)
    : Manager * outcome sync_error () :=
  match captured with
  | [] => (m, Ret ())
  | _ =>
      let next := stateOf m fed in
      match validateRestoredCallbacks (obligations next) captured ∅ with
      | Ret sequences =>
          (publish m fed (set_pending next (filter (fun c => Sequence c ∉ sequences) (pending next))), Ret ())
      | Fail e => (m, Fail e)
      | Panic s => (m, Panic s)
      end
  end.
