(* ===== verification/SyncInvariant.v ===== *)
(** * The invariant of the strict profile

    In the strict profile ([RequireInvocations], what [New] demands a membership
    resolver and a reservable outbox for) every callback a point owes is an
    obligation until its invocation is reported.  [inv] says so of a federation
    state; every operation of [Sync.v] preserves it.

    While an operation enqueues callbacks one at a time the invariant is partly
    broken; the mode [sigma label h] says what handle [h] of the point [label]
    still lacks. *)
From stdpp Require Import gmap.
From Stdlib Require Import Strings.Byte.
From S2P Require Import Prelude GoBytes Sync.
Open Scope Z_scope.

Inductive mode :=
| Full          (** nothing *)
| NoAnn         (** its announcement *)
| NoSync        (** its federation-synchronized callback *)
| Skip.         (** its obligations are gone, it is about to leave the point *)
Definition modes := string -> Z -> mode.
Definition allFull : modes := fun _ _ => Full.
Definition upd (sigma : modes) (l : string) (h : Z) (m : mode) : modes :=
  fun l' h' => if decide (l' = l /\ h' = h) then m else sigma l' h'.
Definition updAll (sigma : modes) (l : string) (m : mode) : modes :=
  fun l' h' => if decide (l' = l) then m else sigma l' h'.

(** ** The invariant *)
Definition shape (c : CallbackState) (k : callbackKind) (l : string) (h ep : Z) : Prop :=
  Kind c = k /\ Label c = l /\ Recipient c = h /\ Epoch c = ep.

Definition ann_ok (obls : gmap Z CallbackState) (l : string) (p : syncPoint) (h : Z) : Prop :=
  let i := invOf p h in
  0 < Announce i /\
  if AnnounceInvoked i then obls !! Announce i = None
  else exists c, obls !! Announce i = Some c /\ shape c callbackAnnounce l h (epoch p) /\
         Entered c = AnnounceEntered i.
Definition sync_ok (obls : gmap Z CallbackState) (l : string) (p : syncPoint) (h : Z) : Prop :=
  let i := invOf p h in
  0 < Synchronized i /\
  if SynchronizedInvoked i then obls !! Synchronized i = None
  else exists c, obls !! Synchronized i = Some c /\ shape c callbackSynchronized l h (epoch p).
Definition unsynced (p : syncPoint) (h : Z) : Prop :=
  Synchronized (invOf p h) = 0 /\ SynchronizedInvoked (invOf p h) = false.

Definition mode_ok (m : mode) (obls : gmap Z CallbackState) (l : string) (p : syncPoint) (h : Z) : Prop :=
  match m with
  | Skip => True
  | NoAnn => invOf p h = noInvocation /\ state p = StateAnnounced
  | NoSync => ann_ok obls l p h /\ state p = StateAchieved /\ unsynced p h
  | Full => ann_ok obls l p h /\
            if decide (state p = StateAchieved) then sync_ok obls l p h else unsynced p h
  end.

Record handle_inv (m : mode) (st : federationState) (l : string) (p : syncPoint) (h : Z) : Prop := {
  hi_ann : 0 <= Announce (invOf p h) <= nextSequence st;
  hi_sync : 0 <= Synchronized (invOf p h) <= nextSequence st;
  hi_entered : AnnounceInvoked (invOf p h) = true -> AnnounceEntered (invOf p h) = true;
  hi_achieved : h ∈ achieved p -> AnnounceEntered (invOf p h) = true;
  hi_mode : mode_ok m (obligations st) l p h;
}.

Record point_inv (sigma : modes) (st : federationState) (l : string) (p : syncPoint) : Prop := {
  pi_state : state p = StateAnnounced \/ state p = StateAchieved;
  pi_zero : 0 ∉ required p;
  pi_achieved : achieved p ⊆ required p;
  pi_failed : failed p ⊆ achieved p;
  pi_done : state p = StateAchieved -> required p ⊆ achieved p;
  pi_dynamic : dynamic p = false;
  pi_epoch : 1 <= epoch p <= nextEpoch st;
  pi_callbacks : forall h, is_Some (callbacks p !! h) -> h ∈ required p;
  pi_handles : forall h, h ∈ required p -> handle_inv (sigma l h) st l p h;
}.

(** [s] is the identity of a callback of handle [h] of point [l]. *)
Definition the_id (k : bool) (i : InvocationState) : Z := if k then Announce i else Synchronized i.
Definition has_id (st : federationState) (l : string) (h : Z) (k : bool) (s : Z) : Prop :=
  exists p, points st !! l = Some p /\ h ∈ required p /\ the_id k (invOf p h) = s.
Definition live (st : federationState) (c : CallbackState) (k : bool) : Prop :=
  exists p, points st !! Label c = Some p /\ epoch p = Epoch c /\ Recipient c ∈ required p /\
            the_id k (invOf p (Recipient c)) = Sequence c.
Definition orphan (st : federationState) (c : CallbackState) : Prop :=
  forall p, points st !! Label c = Some p -> epoch p <> Epoch c.

Record obl_inv (st : federationState) (s : Z) (c : CallbackState) : Prop := {
  oi_seq : Sequence c = s;
  oi_range : 1 <= s <= nextSequence st;
  oi_recipient : Recipient c <> 0;
  oi_kind : forall k, Kind c <> callbackOther k;
  oi_epoch : 0 <= Epoch c <= nextEpoch st;
  oi_epoch_pos : Kind c <> callbackRegistrationFailed -> 1 <= Epoch c;
  oi_reason : Kind c = callbackRegistrationFailed ->
    Reason c = RegistrationFailureLabelNotUnique \/ Reason c = RegistrationFailureSetMemberNotJoined;
  oi_announce : Kind c = callbackAnnounce -> live st c true \/ orphan st c /\ Entered c = true;
  oi_sync : Kind c = callbackSynchronized -> live st c false;
}.

Record inv (sigma : modes) (st : federationState) : Prop := {
  in_seq : 0 <= nextSequence st;
  in_epoch : 0 <= nextEpoch st;
  in_points : forall l p, points st !! l = Some p -> point_inv sigma st l p;
  in_unique : forall l h k l' h' k' s, s <> 0 -> has_id st l h k s -> has_id st l' h' k' s ->
    l = l' /\ h = h' /\ k = k';
  in_obl : forall s c, obligations st !! s = Some c -> obl_inv st s c;
  in_pending : forall c, c ∈ pending st -> obligations st !! Sequence c = Some c;
  in_nodup : NoDup (map Sequence (pending st));
}.

Lemma inv_empty : inv allFull emptyFederationState.
Proof.
  split; simpl; try lia; try (intros ? ?; rewrite lookup_empty; discriminate).
  - intros l h k l' h' k' s _ (p & Hp & _). simpl in Hp; by rewrite lookup_empty in Hp.
  - intros c Hc. by apply elem_of_nil in Hc.
  - constructor.
Qed.

(** ** Frame lemmas *)
Lemma mode_frame m obls obls' l p p' h :
  invOf p' h = invOf p h -> state p' = state p -> epoch p' = epoch p ->
  (forall s, 0 < s -> s = Announce (invOf p h) \/ s = Synchronized (invOf p h) -> obls' !! s = obls !! s) ->
  mode_ok m obls l p h -> mode_ok m obls' l p' h.
Proof.
  intros Hi Hs He Ho.
  assert (Ha : ann_ok obls l p h -> ann_ok obls' l p' h).
  { unfold ann_ok. rewrite Hi, He. intros [H1 H2]. rewrite Ho by auto. done. }
  assert (Hy : sync_ok obls l p h -> sync_ok obls' l p' h).
  { unfold sync_ok. rewrite Hi, He. intros [H1 H2]. rewrite Ho by auto. done. }
  unfold mode_ok, unsynced. rewrite Hi, Hs. destruct m; [| | |done].
  - intros [H1 H2]. split; [auto|]. case_decide; auto.
  - done.
  - intros (H1 & H2). split; [auto|done].
Qed.

Lemma handle_frame m st st' l p p' h :
  invOf p' h = invOf p h -> state p' = state p -> epoch p' = epoch p ->
  (h ∈ achieved p' -> h ∈ achieved p) -> nextSequence st <= nextSequence st' ->
  (forall s, 0 < s -> s = Announce (invOf p h) \/ s = Synchronized (invOf p h) ->
     obligations st' !! s = obligations st !! s) ->
  handle_inv m st l p h -> handle_inv m st' l p' h.
Proof.
  intros Hi Hs He Hach Hn Ho [H1 H2 H3 H4 H5]. split; rewrite ?Hi; try lia; auto.
  by eapply mode_frame.
Qed.

(** The invariant only looks at the modes of required handles. *)
Lemma inv_modes sigma sigma' st :
  (forall l p h, points st !! l = Some p -> h ∈ required p -> sigma' l h = sigma l h) ->
  inv sigma st -> inv sigma' st.
Proof.
  intros Hs [H1 H2 H3 H4 H5 H6 H7]. split; auto.
  intros l p Hp. destruct (H3 l p Hp). split; auto.
  intros h Hh. rewrite (Hs l p h Hp Hh). auto.
Qed.

Lemma has_id_bound sigma st l h k s : inv sigma st -> has_id st l h k s -> 0 <= s <= nextSequence st.
Proof.
  intros Hi (p & Hp & Hh & <-). pose proof (pi_handles _ _ _ _ (in_points _ _ Hi l p Hp) h Hh) as [? ? _ _ _].
  by destruct k.
Qed.

(** An obligation belongs to one identity. *)
Lemma ann_obligation sigma st l p h : inv sigma st -> points st !! l = Some p -> h ∈ required p ->
  sigma l h = Full \/ sigma l h = NoSync -> ann_ok (obligations st) l p h.
Proof.
  intros Hi Hp Hh Hm. destruct (pi_handles _ _ _ _ (in_points _ _ Hi l p Hp) h Hh) as [_ _ _ _ Hk].
  destruct Hm as [E|E]; rewrite E in Hk; apply Hk.
Qed.

(** ** Enqueueing *)
Lemma enqueue_Ret st c st' : enqueue st c = Ret st' -> nextSequence st <> MaxUint64.
Proof. unfold enqueue. by destruct (Z.eqb_spec (nextSequence st) MaxUint64). Qed.

Lemma invOf_insert p h i h' : invOf (set_callbacks p (<[h := i]> (callbacks p))) h' =
  if decide (h' = h) then i else invOf p h'.
Proof.
  unfold invOf. simpl. case_decide; subst; [by rewrite lookup_insert_eq|by rewrite lookup_insert_ne].
Qed.

(** What is common to the three kinds of callbacks: a new obligation under a
    fresh sequence number, also pending. *)
Definition pushed (st : federationState) (pts : gmap string syncPoint) (c : CallbackState) : federationState :=
  Build_federationState pts (nextSequence st + 1) (nextEpoch st) (pending st ++ [c])
    (<[nextSequence st + 1 := c]> (obligations st)).

Lemma pushed_old st pts c s : s <= nextSequence st -> obligations (pushed st pts c) !! s = obligations st !! s.
Proof. intros Hs. simpl. apply lookup_insert_ne. lia. Qed.

Lemma pushed_pending sigma st pts c : inv sigma st -> Sequence c = nextSequence st + 1 ->
  (forall c', c' ∈ pending (pushed st pts c) -> obligations (pushed st pts c) !! Sequence c' = Some c') /\
  NoDup (map Sequence (pending (pushed st pts c))).
Proof.
  intros Hi Hc.
  assert (Hold : forall c', c' ∈ pending st -> Sequence c' <= nextSequence st).
  { intros c' Hin. apply (in_pending _ _ Hi) in Hin. apply (in_obl _ _ Hi), oi_range in Hin. lia. }
  split.
  - intros c' Hin. simpl in Hin. apply elem_of_app in Hin as [Hin|Hin].
    + rewrite pushed_old by auto. by apply (in_pending _ _ Hi).
    + apply list_elem_of_singleton in Hin as ->. simpl. rewrite Hc. apply lookup_insert_eq.
  - simpl. rewrite map_app. apply NoDup_app. split; [apply (in_nodup _ _ Hi)|].
    split; [|simpl; apply NoDup_singleton]. intros s Hs Hs'.
    apply list_elem_of_fmap in Hs as (c' & -> & Hin). apply Hold in Hin.
    simpl in Hs'. apply list_elem_of_singleton in Hs'. lia.
Qed.

Definition set_id (k : bool) (i : InvocationState) (s : Z) : InvocationState :=
  if k then set_Announce i s else set_Synchronized i s.
Definition kindOf (k : bool) : callbackKind := if k then callbackAnnounce else callbackSynchronized.
Definition lacks (k : bool) : mode := if k then NoAnn else NoSync.

(** A point callback for a handle that lacks it. *)
Section PushId.
Context (sigma : modes) (st : federationState) (k : bool) (l : string) (p : syncPoint) (h : Z) (c : CallbackState).
Context (Hinv : inv sigma st) (Hp : points st !! l = Some p) (Hh : h ∈ required p).
Context (Hm : sigma l h = lacks k).
Context (Hshape : shape c (kindOf k) l h (epoch p)) (Hent : Entered c = false)
        (Hseq : Sequence c = nextSequence st + 1).

Let i' := set_id k (invOf p h) (nextSequence st + 1).
Let p' := set_callbacks p (<[h := i']> (callbacks p)).
Let st' := pushed st (<[l := p']> (points st)) c.

Lemma push_point : point_inv sigma st l p.
Proof. exact (in_points _ _ Hinv l p Hp). Qed.

Lemma push_lacks : the_id k (invOf p h) = 0.
Proof.
  destruct (pi_handles _ _ _ _ push_point h Hh) as [_ _ _ _ Hk]. rewrite Hm in Hk.
  destruct k; simpl in *; [by destruct Hk as [-> _]|]. by destruct Hk as (_ & _ & ? & _).
Qed.

Lemma push_id_same k' : k' <> k -> the_id k' i' = the_id k' (invOf p h).
Proof. by destruct k, k'. Qed.
Lemma push_id_new : the_id k i' = nextSequence st + 1.
Proof. by destruct k. Qed.

Lemma push_new_handle : handle_inv Full st' l p' h.
Proof.
  pose proof (in_seq _ _ Hinv). destruct (pi_handles _ _ _ _ push_point h Hh) as [H1 H2 H3 H4 Hk].
  rewrite Hm in Hk. assert (Hi : invOf p' h = i') by (unfold p'; rewrite invOf_insert; by rewrite decide_True).
  assert (Hs : obligations st' !! (nextSequence st + 1) = Some c) by apply lookup_insert_eq.
  destruct Hshape as (Hs1 & Hs2 & Hs3 & Hs4). destruct k; simpl in *.
  - destruct Hk as [Hno Hst]. subst i'. rewrite Hno in *. split; rewrite ?Hi; simpl; try lia; try done.
    split.
    + unfold ann_ok. rewrite Hi. simpl. split; [lia|]. exists c. split; [done|]. by repeat split.
    + rewrite decide_False by congruence. unfold unsynced. by rewrite Hi.
  - destruct Hk as (Ha & Hst & Hu1 & Hu2). split; rewrite ?Hi; simpl; try lia; auto.
    split.
    + unfold ann_ok in *. rewrite Hi. subst i'. simpl. destruct Ha as [Ha1 Ha2]. split; [done|].
      rewrite lookup_insert_ne by lia. done.
    + rewrite decide_True by done. unfold sync_ok. rewrite Hi. subst i'. simpl. rewrite Hu2.
      split; [lia|]. exists c. split; [by apply lookup_insert_eq|]. by repeat split.
Qed.

Lemma push_other l0 p0 h0 p0' : points st !! l0 = Some p0 -> h0 ∈ required p0 ->
  invOf p0' h0 = invOf p0 h0 -> state p0' = state p0 -> epoch p0' = epoch p0 -> achieved p0' = achieved p0 ->
  handle_inv (sigma l0 h0) st' l0 p0' h0.
Proof.
  intros Hp0 Hh0 Hi Hs He Ha. pose proof (pi_handles _ _ _ _ (in_points _ _ Hinv l0 p0 Hp0) h0 Hh0) as Hhi.
  apply (handle_frame (sigma l0 h0) st st' l0 p0 p0' h0); try done.
  - by rewrite Ha.
  - simpl. lia.
  - intros s _ Hor. apply pushed_old. destruct Hhi. destruct Hor as [-> | ->]; lia.
Qed.

Lemma push_has_id l0 h0 k0 s : has_id st' l0 h0 k0 s ->
  (l0 = l /\ h0 = h /\ k0 = k /\ s = nextSequence st + 1) \/ has_id st l0 h0 k0 s.
Proof.
  intros (q & Hq & Hin & <-). simpl in Hq.
  apply lookup_insert_Some in Hq as [[<- <-]|[Hne Hq]]; [|right; by exists q].
  unfold p' in *. rewrite invOf_insert. case_decide as Eh; [subst h0|right; by exists p].
  destruct (decide (k0 = k)) as [->|Hk]; [left; by rewrite push_id_new|].
  right. exists p. by rewrite push_id_same by done.
Qed.

Lemma push_live c0 k0 : live st c0 k0 -> 1 <= Sequence c0 -> live st' c0 k0.
Proof.
  intros (q & Hq & He & Hr & Hid) H1. destruct (decide (Label c0 = l)) as [El|Nl].
  - rewrite El, Hp in Hq. injection Hq as <-. exists p'. simpl. rewrite El, lookup_insert_eq.
    split; [done|]. split; [done|]. split; [done|]. unfold p'. rewrite invOf_insert.
    case_decide as Eh; [|done]. rewrite Eh in Hid. destruct (decide (k0 = k)) as [->|Hk].
    + rewrite push_lacks in Hid. lia.
    + by rewrite push_id_same.
  - exists q. simpl. by rewrite lookup_insert_ne.
Qed.
Lemma push_orphan c0 : orphan st c0 -> orphan st' c0.
Proof.
  intros Ho q Hq. simpl in Hq. apply lookup_insert_Some in Hq as [[El <-]|[_ Hq]]; [|by apply Ho].
  apply (Ho p). by rewrite <- El.
Qed.

Lemma push_inv : inv (upd sigma l h Full) st'.
Proof.
  pose proof (in_seq _ _ Hinv) as Hn. pose proof push_point as Hpi.
  destruct (pushed_pending sigma st (<[l := p']> (points st)) c Hinv Hseq) as [Hpe Hnd].
  destruct Hshape as (Hs1 & Hs2 & Hs3 & Hs4).
  split; [simpl; lia|apply (in_epoch _ _ Hinv)| | | |exact Hpe|exact Hnd].
  - intros l0 q Hq. simpl in Hq. apply lookup_insert_Some in Hq as [[<- <-]|[Hne Hq]].
    + destruct Hpi. split; try done.
      * intros h0. unfold p'. simpl. destruct (decide (h0 = h)) as [->|]; [done|].
        rewrite lookup_insert_ne by done. auto.
      * intros h0 Hh0. unfold upd. destruct (decide (l = l /\ h0 = h)) as [[_ ->]|Hn0]; [apply push_new_handle|].
        apply (push_other l p h0 p'); try done. unfold p'. rewrite invOf_insert, decide_False; [done|].
        intros ->. by apply Hn0.
    + pose proof (in_points _ _ Hinv l0 q Hq) as Hqi. destruct Hqi. split; try done.
      intros h0 Hh0. unfold upd. rewrite decide_False by (intros [-> _]; congruence).
      by apply (push_other l0 q h0 q).
  - intros l1 h1 k1 l2 h2 k2 s Hs0 Hid1 Hid2.
    apply push_has_id in Hid1, Hid2. destruct Hid1 as [(-> & -> & -> & ->)|Hid1].
    + destruct Hid2 as [(-> & -> & -> & _)|Hid2]; [done|].
      apply (has_id_bound _ _ _ _ _ _ Hinv) in Hid2. lia.
    + destruct Hid2 as [(-> & -> & -> & ->)|Hid2].
      * apply (has_id_bound _ _ _ _ _ _ Hinv) in Hid1. lia.
      * by apply (in_unique _ _ Hinv l1 h1 k1 l2 h2 k2 s).
  - intros s c0 Hc0. simpl in Hc0. apply lookup_insert_Some in Hc0 as [[<- <-]|[Hne Hc0]].
    + split; simpl; try done; try lia.
      * rewrite Hs3. intros ->. by apply (pi_zero _ _ _ _ Hpi).
      * intros k0. rewrite Hs1. by destruct k.
      * rewrite Hs4. pose proof (pi_epoch _ _ _ _ Hpi). lia.
      * rewrite Hs4. intros _. pose proof (pi_epoch _ _ _ _ Hpi). lia.
      * rewrite Hs1. by destruct k.
      * rewrite Hs1. destruct k eqn:Ek; [|done]. intros _. left. exists p'. simpl.
        rewrite Hs2, lookup_insert_eq, Hs3, Hs4. unfold p'. rewrite invOf_insert, decide_True by done.
        by rewrite Hseq.
      * rewrite Hs1. destruct k eqn:Ek; [done|]. intros _. exists p'. simpl.
        rewrite Hs2, lookup_insert_eq, Hs3, Hs4. unfold p'. rewrite invOf_insert, decide_True by done.
        by rewrite Hseq.
    + pose proof (in_obl _ _ Hinv s c0 Hc0) as Ho. destruct Ho. split; simpl; try done; try lia.
      * intros Hk. destruct (oi_announce0 Hk) as [Hl|[Hor He]]; [left; apply push_live; [done|lia]|].
        right. split; [by apply push_orphan|done].
      * intros Hk. apply push_live; [auto|lia].
Qed.
End PushId.

(** ... and a confirmation, which belongs to no point. *)
Lemma push_confirm_inv sigma st c : inv sigma st -> Sequence c = nextSequence st + 1 -> Recipient c <> 0 ->
  0 <= Epoch c <= nextEpoch st ->
  (Kind c = callbackRegistrationSucceeded /\ 1 <= Epoch c \/
   Kind c = callbackRegistrationFailed /\
     (Reason c = RegistrationFailureLabelNotUnique \/ Reason c = RegistrationFailureSetMemberNotJoined)) ->
  inv sigma (pushed st (points st) c).
Proof.
  intros Hinv Hseq Hr He Hk. pose proof (in_seq _ _ Hinv) as Hn.
  destruct (pushed_pending sigma st (points st) c Hinv Hseq) as [Hpe Hnd].
  split; [simpl; lia|apply (in_epoch _ _ Hinv)| | | |exact Hpe|exact Hnd].
  - intros l p Hp. simpl in Hp. pose proof (in_points _ _ Hinv l p Hp) as Hpi. destruct Hpi. split; try done.
    intros h Hh. pose proof (pi_handles0 h Hh) as Hhi.
    apply (handle_frame (sigma l h) st _ l p p h); try done; [simpl; lia|].
    intros s _ Hor. apply pushed_old. destruct Hhi. destruct Hor as [-> | ->]; lia.
  - exact (in_unique _ _ Hinv).
  - intros s c0 Hc0. simpl in Hc0. apply lookup_insert_Some in Hc0 as [[<- <-]|[Hne Hc0]].
    + split; simpl; try done; try lia; destruct Hk as [[E H1]|[E H1]]; rewrite E; try done; try by intros.
    + pose proof (in_obl _ _ Hinv s c0 Hc0) as Ho. destruct Ho. split; simpl; try done; lia.
Qed.

(** ** Sorted keys *)
Lemma elem_sortedHandles (s : handles) h : h ∈ sortedHandles s <-> h ∈ s.
Proof. unfold sortedHandles. by rewrite merge_sort_Permutation, elem_of_elements. Qed.
Lemma NoDup_sortedHandles (s : handles) : NoDup (sortedHandles s).
Proof. unfold sortedHandles. rewrite merge_sort_Permutation. apply NoDup_elements. Qed.
Lemma elem_sortedLabels st l : l ∈ sortedLabels st <-> is_Some (points st !! l).
Proof. unfold sortedLabels. by rewrite merge_sort_Permutation, elem_of_elements, elem_of_dom. Qed.
Lemma NoDup_sortedLabels st : NoDup (sortedLabels st).
Proof. unfold sortedLabels. rewrite merge_sort_Permutation. apply NoDup_elements. Qed.

(** ** Enqueueing a batch *)

(** What enqueueing does to a point: only its invocations change. *)
Definition same_point (p p' : syncPoint) : Prop := p' = set_callbacks p (callbacks p').
Lemma same_point_refl p : same_point p p.
Proof. by destruct p. Qed.
Lemma same_point_trans p p' p'' : same_point p p' -> same_point p' p'' -> same_point p p''.
Proof. unfold same_point. intros H1 H2. rewrite H2 at 1. rewrite H1. by destruct p. Qed.
Lemma same_point_fields p p' : same_point p p' ->
  required p' = required p /\ achieved p' = achieved p /\ failed p' = failed p /\ state p' = state p /\
  epoch p' = epoch p /\ dynamic p' = dynamic p /\ allMembers p' = allMembers p /\ tag p' = tag p.
Proof. intros ->. by repeat split. Qed.

(** A step on point [l]: the others and the epoch counter stay. *)
Definition only (l : string) (st st' : federationState) : Prop :=
  nextEpoch st' = nextEpoch st /\ forall l', l' <> l -> points st' !! l' = points st !! l'.
Lemma only_refl l st : only l st st.
Proof. by split. Qed.
Lemma only_trans l st st' st'' : only l st st' -> only l st' st'' -> only l st st''.
Proof. intros [H1 H2] [H3 H4]. split; [congruence|]. intros l' Hl. by rewrite H4, H2. Qed.

Definition callbackOf (k : bool) (l : string) (h : Z) (tg : list byte) (ls : list Z) : CallbackState :=
  if k then announceCallback l tg h ls else synchronizedCallback l h ls.

Lemma enqueue_id sigma st k l p h tg ls st' :
  inv sigma st -> points st !! l = Some p -> h ∈ required p -> sigma l h = lacks k ->
  enqueue st (callbackOf k l h tg ls) = Ret st' ->
  inv (upd sigma l h Full) st' /\ only l st st' /\
  exists p', points st' !! l = Some p' /\ same_point p p'.
Proof.
  intros Hi Hp Hh Hm E. unfold enqueue in E. destruct (nextSequence st =? MaxUint64); [done|].
  assert (El : Label (callbackOf k l h tg ls) = l) by by destruct k.
  rewrite El, Hp in E. injection E as <-.
  set (c := Build_CallbackState _ _ _ _ _ _ _ _ _ _).
  set (q := set_callbacks p (<[h := set_id k (invOf p h) (nextSequence st + 1)]> (callbacks p))).
  pose proof (push_inv sigma st k l p h c Hi Hp Hh Hm) as Hpush.
  assert (Hpts : match Kind (callbackOf k l h tg ls) with
                 | callbackAnnounce => <[l := set_callbacks p (<[Recipient (callbackOf k l h tg ls) :=
                     set_Announce (invOf p (Recipient (callbackOf k l h tg ls))) (nextSequence st + 1)]> (callbacks p))]> (points st)
                 | callbackSynchronized => <[l := set_callbacks p (<[Recipient (callbackOf k l h tg ls) :=
                     set_Synchronized (invOf p (Recipient (callbackOf k l h tg ls))) (nextSequence st + 1)]> (callbacks p))]> (points st)
                 | _ => points st
                 end = <[l := q]> (points st)) by by destruct k.
  rewrite Hpts. split; [|split].
  - apply Hpush; by destruct k.
  - split; [done|]. intros l' Hl. simpl. by rewrite lookup_insert_ne.
  - exists q. split; [by apply lookup_insert_eq|done].
Qed.

Lemma enqueueAll_ids sigma st k l p tg ls hs st' :
  inv sigma st -> points st !! l = Some p -> NoDup hs ->
  (forall h, h ∈ hs -> h ∈ required p /\ sigma l h = lacks k) ->
  enqueueAll st (map (fun h => callbackOf k l h tg ls) hs) = Ret st' ->
  exists sigma', inv sigma' st' /\ only l st st' /\
    (forall h, h ∈ hs -> sigma' l h = Full) /\
    (forall l' h, l' <> l \/ h ∉ hs -> sigma' l' h = sigma l' h) /\
    exists p', points st' !! l = Some p' /\ same_point p p'.
Proof.
  revert sigma st p. induction hs as [|h hs IH]; intros sigma st p Hi Hp Hnd Hhs E.
  { injection E as <-. exists sigma. split; [done|]. split; [apply only_refl|].
    split; [by intros h Hh%elem_of_nil|]. split; [done|]. exists p. split; [done|apply same_point_refl]. }
  inversion Hnd as [|? ? Hnin Hnd']; subst. simpl in E. apply bind_Ret_inv in E as (st1 & E1 & E).
  destruct (Hhs h) as [Hh Hm]; [apply list_elem_of_here|].
  destruct (enqueue_id _ _ _ _ _ _ _ _ _ Hi Hp Hh Hm E1) as (Hi1 & Ho1 & p1 & Hp1 & Hsp1).
  destruct (same_point_fields _ _ Hsp1) as (Hreq & _).
  destruct (IH _ _ _ Hi1 Hp1 Hnd') as (sigma' & Hi' & Ho' & Hf & Hk & p' & Hp' & Hsp'); [|exact E|].
  { intros h' Hh'. destruct (Hhs h') as [? ?]; [by apply list_elem_of_further|]. rewrite Hreq.
    split; [done|]. unfold upd. rewrite decide_False; [done|]. intros [_ ->]. done. }
  exists sigma'. split; [done|]. split; [by eapply only_trans|]. split; [|split].
  - intros h' Hh'. apply elem_of_cons in Hh' as [->|Hh']; [|by apply Hf].
    rewrite Hk by by right. unfold upd. by rewrite decide_True.
  - intros l' h' Hn. rewrite Hk.
    + unfold upd. rewrite decide_False; [done|]. intros [-> ->].
      destruct Hn as [Hn|Hn]; [done|]. apply Hn, list_elem_of_here.
    + destruct Hn as [Hn|Hn]; [by left|right]. intros Hin. by apply Hn, list_elem_of_further.
  - exists p'. split; [done|]. by eapply same_point_trans.
Qed.

(** The callbacks a batch adds to [pending]: the requested payloads, numbered
    consecutively. *)
Definition payload (c c' : CallbackState) : Prop :=
  Kind c' = Kind c /\ Label c' = Label c /\ Recipient c' = Recipient c /\ Tag c' = Tag c /\
  Required c' = Required c /\ Failed c' = Failed c /\ Reason c' = Reason c /\ Entered c' = Entered c.
Lemma enqueue_pending st c st' : enqueue st c = Ret st' ->
  exists c', pending st' = pending st ++ [c'] /\ payload c c' /\ Sequence c' = nextSequence st + 1 /\
    nextSequence st' = nextSequence st + 1.
Proof.
  unfold enqueue. destruct (nextSequence st =? MaxUint64); [done|]. intros [= <-].
  eexists. split; [done|]. by repeat split.
Qed.
Lemma enqueueAll_pending l st st' : enqueueAll st l = Ret st' ->
  exists cs, pending st' = pending st ++ cs /\ Forall2 payload l cs /\
    map Sequence cs = seqZ (nextSequence st + 1) (zlen l) /\
    nextSequence st' = nextSequence st + zlen l.
Proof.
  revert st. induction l as [|c l IH]; intros st; simpl.
  { intros [= <-]. exists []. rewrite app_nil_r. repeat split; [constructor|unfold zlen; simpl; lia]. }
  intros E. apply bind_Ret_inv in E as (st1 & E1 & E).
  destruct (enqueue_pending _ _ _ E1) as (c' & Hp & Hpl & Hs & Hn).
  destruct (IH _ E) as (cs & Hp' & Hf & Hseq & Hn'). exists (c' :: cs).
  assert (Hz : zlen (c :: l) = 1 + zlen l) by (unfold zlen; simpl length; lia).
  rewrite Hp', Hp, <- app_assoc. split; [done|]. split; [by constructor|].
  rewrite Hz. pose proof (zlen_nonneg l). split; [|lia]. rewrite seqZ_cons by lia. simpl. rewrite Hs, Hseq, Hn.
  f_equal. f_equal; lia.
Qed.

(** ** Changing a point *)
Lemma obl_inv_points st st' s c : nextSequence st' = nextSequence st -> nextEpoch st <= nextEpoch st' ->
  (forall k, Kind c = kindOf k -> live st c k -> live st' c k \/ k = true /\ orphan st' c /\ Entered c = true) ->
  (orphan st c -> Entered c = true -> orphan st' c) ->
  obl_inv st s c -> obl_inv st' s c.
Proof.
  intros Hn He Hl Ho []. split; try done; try lia.
  - intros Hk. destruct (oi_announce0 Hk) as [Hlv|[Hor Hen]]; [|right; auto].
    destruct (Hl true Hk Hlv) as [|(_ & ? & ?)]; auto.
  - intros Hk. destruct (Hl false Hk (oi_sync0 Hk)) as [|(? & _)]; [done|done].
Qed.

Lemma handle_inv_set_point m st l p l0 p0 h : handle_inv m st l0 p0 h <-> handle_inv m (set_point st l p) l0 p0 h.
Proof. split; intros []; by split. Qed.
Lemma point_inv_other sigma sigma' st l p l0 p0 : (forall h, sigma' l0 h = sigma l0 h) ->
  point_inv sigma st l0 p0 -> point_inv sigma' (set_point st l p) l0 p0.
Proof.
  intros Hs []. split; try done. intros h Hh. rewrite Hs. apply handle_inv_set_point. auto.
Qed.

Section SetPoint.
Context (sigma sigma' : modes) (st : federationState) (l : string) (p p2 : syncPoint).
Context (Hinv : inv sigma st) (Hp : points st !! l = Some p) (Hep : epoch p2 = epoch p).
Context (Hnew : forall h, h ∈ required p2 -> h ∈ required p \/ invOf p2 h = noInvocation).
Context (Hids : forall h k, h ∈ required p -> h ∈ required p2 -> the_id k (invOf p2 h) = the_id k (invOf p h)).
Context (Hkeep : forall s c, obligations st !! s = Some c -> Label c = l -> Epoch c = epoch p ->
  Recipient c ∈ required p -> Recipient c ∈ required p2).
Context (Hp2 : point_inv sigma' (set_point st l p2) l p2).
Context (Hsig : forall l' h, l' <> l -> sigma' l' h = sigma l' h).

Lemma set_point_has_id l0 h0 k0 s : s <> 0 -> has_id (set_point st l p2) l0 h0 k0 s -> has_id st l0 h0 k0 s.
Proof.
  intros Hs (q & Hq & Hin & Hid). simpl in Hq. apply lookup_insert_Some in Hq as [[<- <-]|[_ Hq]]; [|by exists q].
  exists p. destruct (Hnew h0 Hin) as [Hin'|Hno].
  - by rewrite <- Hids by done.
  - rewrite Hno in Hid. by destruct k0; simpl in Hid.
Qed.

Lemma set_point_inv : inv sigma' (set_point st l p2).
Proof.
  destruct Hinv as [H1 H2 H3 H4 H5 H6 H7]. split; try done.
  - intros l0 q Hq. simpl in Hq. apply lookup_insert_Some in Hq as [[<- <-]|[Hne Hq]]; [done|].
    apply (point_inv_other sigma); [intros h; by apply Hsig|auto].
  - intros l1 h1 k1 l2 h2 k2 s Hs Hi1 Hi2. apply (H4 l1 h1 k1 l2 h2 k2 s); [done| |]; by apply set_point_has_id.
  - intros s c Hc. apply (obl_inv_points st); [done|simpl; lia| | |auto].
    + intros k _ (q & Hq & He & Hr & Hid). left.
      destruct (decide (Label c = l)) as [El|Nl]; [|exists q; simpl; by rewrite lookup_insert_ne].
      rewrite El, Hp in Hq. injection Hq as <-. exists p2. simpl. rewrite El, lookup_insert_eq.
      assert (Recipient c ∈ required p2) by (by apply (Hkeep s c)).
      split; [done|]. split; [by rewrite Hep|]. split; [done|]. by rewrite Hids.
    + intros Ho _ q Hq. simpl in Hq. apply lookup_insert_Some in Hq as [[El <-]|[_ Hq]]; [|by apply Ho].
      rewrite Hep. apply Ho. by rewrite <- El.
Qed.
End SetPoint.

(** A new point, all of whose handles lack their announcement. *)
Lemma new_point_inv sigma st l p : inv sigma st -> points st !! l = None ->
  epoch p = nextEpoch st + 1 -> state p = StateAnnounced -> 0 ∉ required p -> dynamic p = false ->
  achieved p = ∅ -> failed p = ∅ -> callbacks p = ∅ ->
  inv (updAll sigma l NoAnn) (set_point (set_nextEpoch st (nextEpoch st + 1)) l p).
Proof.
  intros Hinv Hnone Hep Hst Hz Hd Ha Hf Hc. destruct Hinv as [H1 H2 H3 H4 H5 H6 H7].
  assert (Hno : forall h, invOf p h = noInvocation) by (intros h; unfold invOf; by rewrite Hc, lookup_empty).
  assert (Hid : forall l0 h0 k0 s, s <> 0 ->
    has_id (set_point (set_nextEpoch st (nextEpoch st + 1)) l p) l0 h0 k0 s -> has_id st l0 h0 k0 s).
  { intros l0 h0 k0 s Hs (q & Hq & Hin & Hid). simpl in Hq.
    apply lookup_insert_Some in Hq as [[<- <-]|[_ Hq]]; [|by exists q].
    rewrite Hno in Hid. by destruct k0. }
  split; simpl; try done; try lia.
  - intros l0 q Hq. apply lookup_insert_Some in Hq as [[<- <-]|[Hne Hq]].
    + split; [by left|done|rewrite Ha; apply empty_subseteq|rewrite Hf; apply empty_subseteq|congruence|done
             |simpl; lia|intros h; rewrite Hc, lookup_empty; by intros [? ?]|].
      intros h Hh. unfold updAll. rewrite decide_True by done.
      split; rewrite ?Hno, ?Ha; simpl; [lia|lia|done|by intros ?%not_elem_of_empty|by rewrite Hno].
    + destruct (H3 l0 q Hq). split; try done; [simpl; lia|]. intros h Hh.
      unfold updAll. rewrite decide_False by done. destruct (pi_handles0 h Hh). by split.
  - intros l1 h1 k1 l2 h2 k2 s Hs Hi1 Hi2. apply (H4 l1 h1 k1 l2 h2 k2 s); [done| |]; by apply Hid.
  - intros s c Hsc. apply (obl_inv_points st); [done|simpl; lia| | |auto].
    + intros k _ (q & Hq & He & Hr & Hid'). left. exists q. simpl. rewrite lookup_insert_ne; [done|congruence].
    + intros Ho _ q Hq. simpl in Hq. apply lookup_insert_Some in Hq as [[El <-]|[_ Hq]]; [|by apply Ho].
      rewrite Hep. destruct (H5 s c Hsc). lia.
Qed.

(** A point leaves when all its federates have been told, as only finished
    announcements can be outstanding. *)
Lemma delete_point_inv sigma st l p : inv sigma st -> points st !! l = Some p -> state p = StateAchieved ->
  (forall h, h ∈ required p -> sigma l h = Full /\ SynchronizedInvoked (invOf p h) = true) ->
  inv sigma (delete_point st l).
Proof.
  intros Hinv Hp Hst Hall. pose proof Hinv as [H1 H2 H3 H4 H5 H6 H7].
  assert (Hsub : forall l0 q, points (delete_point st l) !! l0 = Some q -> points st !! l0 = Some q /\ l0 <> l).
  { intros l0 q Hq. simpl in Hq. apply lookup_delete_Some in Hq as [? ?]. by split. }
  assert (Hid : forall l0 h0 k0 s, has_id (delete_point st l) l0 h0 k0 s -> has_id st l0 h0 k0 s).
  { intros l0 h0 k0 s (q & Hq & Hr). exists q. split; [by apply Hsub|done]. }
  split; try done.
  - intros l0 q Hq. apply Hsub in Hq as [Hq _]. destruct (H3 l0 q Hq). split; try done.
    intros h Hh. destruct (pi_handles0 h Hh). by split.
  - intros l1 h1 k1 l2 h2 k2 s Hs Hi1 Hi2. apply (H4 l1 h1 k1 l2 h2 k2 s); [done| |]; by apply Hid.
  - intros s c Hc. apply (obl_inv_points st); [done|simpl; lia| | |auto].
    + intros k Hk (q & Hq & He & Hr & Hid'). destruct (decide (Label c = l)) as [El|Nl].
      2:{ left. exists q. simpl. by rewrite lookup_delete_ne. }
      rewrite El, Hp in Hq. injection Hq as <-. destruct (Hall _ Hr) as [Hm Hsi].
      destruct (pi_handles _ _ _ _ (H3 l p Hp) _ Hr) as [_ _ _ Hach Hmode]. rewrite Hm in Hmode.
      destruct Hmode as [[Ha1 Ha2] Hs]. rewrite decide_True in Hs by done. destruct Hs as [_ Hs2].
      rewrite Hsi in Hs2. pose proof (oi_seq _ _ _ (H5 s c Hc)) as Es. rewrite Es in Hid'.
      destruct k; simpl in *; [|congruence].
      right. split; [done|]. split.
      * intros q Hq. simpl in Hq. rewrite El, lookup_delete_eq in Hq. done.
      * rewrite Hid' in Ha2. destruct (AnnounceInvoked _); [congruence|].
        destruct Ha2 as (c' & Hc' & _ & Hen). rewrite Hc in Hc'. injection Hc' as <-. rewrite Hen.
        apply Hach. by apply (pi_done _ _ _ _ (H3 l p Hp) Hst).
    + intros Ho _ q Hq. apply Hsub in Hq as [Hq _]. by apply Ho.
Qed.

(** ** The operations *)
Section Strict.
Context (opts : Options) (Hstrict : RequireInvocations opts = true).

Definition fullAt (sigma : modes) (st : federationState) (l : string) : Prop :=
  forall p h, points st !! l = Some p -> h ∈ required p -> sigma l h = Full.

Lemma announced_not_achieved sigma st l p : point_inv sigma st l p ->
  state p <> StateAchieved -> state p = StateAnnounced.
Proof. intros []. tauto. Qed.

(** Completing a point whose federates have all achieved it. *)
Lemma achieve_state_inv sigma st l p : inv sigma st -> points st !! l = Some p ->
  state p = StateAnnounced -> required p ⊆ achieved p -> fullAt sigma st l ->
  inv (updAll sigma l NoSync) (set_point st l (set_state p StateAchieved)).
Proof.
  intros Hi Hp Hst Hsub Hfull. pose proof (in_points _ _ Hi l p Hp) as Hpi.
  apply (set_point_inv sigma _ st l p); try done; try (intros; by left).
  - destruct Hpi. split; try done; [by right|]. intros h Hh.
    destruct (pi_handles0 h Hh) as [Hi1 Hi2 Hi3 Hi4 Hm]. rewrite (Hfull p h Hp Hh) in Hm.
    unfold updAll. rewrite decide_True by done. split; try done.
    destruct Hm as [Ha Hs]. rewrite decide_False in Hs by congruence. done.
  - intros l' h Hl. unfold updAll. by rewrite decide_False.
Qed.

Lemma complete_inv sigma st l st' : inv sigma st -> fullAt sigma st l -> complete opts st l = Ret st' ->
  inv sigma st' /\ only l st st' /\
  forall p', points st' !! l = Some p' -> exists p, points st !! l = Some p /\ required p' = required p.
Proof.
  intros Hi Hfull. unfold complete. destruct (points st !! l) as [p|] eqn:Hp.
  2:{ intros [= <-]. split; [done|]. split; [apply only_refl|]. congruence. }
  assert (Hsame : inv sigma st /\ only l st st /\
    forall p', points st !! l = Some p' -> exists p0, Some p = Some p0 /\ required p' = required p0).
  { split; [done|]. split; [apply only_refl|]. intros p' Hp'. exists p. split; [done|congruence]. }
  case_bool_decide as Hst; [by intros [= <-]|].
  case_bool_decide as Hsub; [|by intros [= <-]]. clear Hsame.
  apply (announced_not_achieved sigma st l p (in_points _ _ Hi l p Hp)) in Hst. simpl negb. cbv iota.
  intros E. apply bind_Ret_inv in E as (st1 & E1 & E).
  pose proof (achieve_state_inv _ _ _ _ Hi Hp Hst Hsub Hfull) as Hi0.
  destruct (enqueueAll_ids _ _ false l (set_state p StateAchieved) [] (sortedHandles (failed p))
             (sortedHandles (required p)) st1 Hi0) as (s2 & Hi1 & [Ho1 Ho2] & Hf & Hk & p1 & Hp1 & Hsp).
  { by apply lookup_insert_eq. }
  { apply NoDup_sortedHandles. }
  { intros h Hh. apply elem_sortedHandles in Hh. split; [done|]. unfold updAll. by rewrite decide_True. }
  { exact E1. }
  destruct (same_point_fields _ _ Hsp) as (Hreq & _ & _ & Hstate & _).
  assert (Hi2 : inv sigma st1).
  { eapply inv_modes; [|exact Hi1]. intros l0 q h Hq Hh. destruct (decide (l0 = l)) as [->|Hl].
    - rewrite Hp1 in Hq. injection Hq as <-. rewrite Hreq in Hh. rewrite Hf by by apply elem_sortedHandles.
      by apply (Hfull p).
    - rewrite Hk by by left. unfold updAll. by rewrite decide_False. }
  assert (Hon : only l st st1).
  { split; [done|]. intros l' Hl. rewrite Ho2 by done. simpl. by rewrite lookup_insert_ne. }
  rewrite Hstrict in E. simpl in E. case_bool_decide as Hempty; injection E as <-.
  - split.
    + apply (delete_point_inv _ _ _ p1); [done|done|by rewrite Hstate|]. rewrite Hreq. simpl. rewrite Hempty.
      by intros h ?%not_elem_of_empty.
    + split; [|intros p'; simpl; by rewrite lookup_delete_eq]. destruct Hon as [? Hon]. split; [done|].
      intros l' Hl. simpl. rewrite lookup_delete_ne by done. by apply Hon.
  - split; [done|]. split; [done|]. intros p' Hp'. exists p. split; [done|]. rewrite Hp1 in Hp'.
    injection Hp' as <-. done.
Qed.

Lemma retire_inv sigma st l : inv sigma st -> fullAt sigma st l ->
  inv sigma (retire opts st l) /\ only l st (retire opts st l).
Proof.
  intros Hi Hfull. unfold retire. destruct (points st !! l) as [p|] eqn:Hp; [|split; [done|apply only_refl]].
  rewrite Hstrict. simpl. case_bool_decide as Hst; simpl; [|split; [done|apply only_refl]].
  destruct (forallb _ _) eqn:Hall; [|split; [done|apply only_refl]]. split.
  - apply (delete_point_inv _ _ _ p); try done. intros h Hh. split; [by apply (Hfull p)|].
    rewrite forallb_forall in Hall. apply Hall. rewrite <- list_elem_of_In. by apply elem_of_elements.
  - split; [done|]. intros l' Hl. simpl. by rewrite lookup_delete_ne.
Qed.

(** *** Registration *)
Lemma enqueue_confirm_inv sigma st c st' : inv sigma st -> Recipient c <> 0 -> Epoch c = 0 ->
  (Kind c = callbackRegistrationSucceeded /\ is_Some (points st !! Label c) \/
   Kind c = callbackRegistrationFailed /\
     (Reason c = RegistrationFailureLabelNotUnique \/ Reason c = RegistrationFailureSetMemberNotJoined)) ->
  enqueue st c = Ret st' -> inv sigma st' /\ points st' = points st.
Proof.
  intros Hi Hr He Hk E. unfold enqueue in E. destruct (nextSequence st =? MaxUint64); [done|].
  injection E as <-. set (c' := Build_CallbackState _ _ _ _ _ _ _ _ _ _).
  assert (Hpts : match points st !! Label c with
     | Some p => match Kind c with
                 | callbackAnnounce => <[Label c := set_callbacks p (<[Recipient c := set_Announce (invOf p (Recipient c)) (nextSequence st + 1)]> (callbacks p))]> (points st)
                 | callbackSynchronized => <[Label c := set_callbacks p (<[Recipient c := set_Synchronized (invOf p (Recipient c)) (nextSequence st + 1)]> (callbacks p))]> (points st)
                 | _ => points st end
     | None => points st end = points st).
  { destruct (points st !! Label c); [|done]. by destruct Hk as [[-> _]|[-> _]]. }
  rewrite Hpts. split; [|done]. pose proof (in_epoch _ _ Hi).
  apply (push_confirm_inv sigma st c' Hi); simpl; try done.
  - destruct (points st !! Label c) as [p|] eqn:Hp; [|lia].
    pose proof (pi_epoch _ _ _ _ (in_points _ _ Hi _ _ Hp)). lia.
  - destruct Hk as [[Hk [p Hp]]|[Hk Hre]]; [left|by right]. split; [done|]. rewrite Hp.
    pose proof (pi_epoch _ _ _ _ (in_points _ _ Hi _ _ Hp)). lia.
Qed.

Lemma registrationFailed_inv st l r reason st' b : inv allFull st -> r <> Some 0 ->
  reason = RegistrationFailureLabelNotUnique \/ reason = RegistrationFailureSetMemberNotJoined ->
  registrationFailed st l r reason = Ret (st', b) -> inv allFull st'.
Proof.
  intros Hi Hr Hre E. destruct r as [r|]; [|done]. simpl in E. apply bind_Ret_inv in E as (st1 & E1 & E).
  injection E as <- _. apply (enqueue_confirm_inv allFull) in E1; [by destruct E1|done|simpl; congruence|done|by right].
Qed.

Definition members_ok (fed : FederationName) (requested : list FederateHandle) : Prop :=
  (0 ∉ requested) /\ exists members, Members opts = Some members /\ (0 ∉ members fed).

Lemma registrationMembers_ok fed requested r members b : members_ok fed requested ->
  registrationMembers opts fed requested r = (members, b) -> 0 ∉ members.
Proof.
  intros (Hz & ms & Hms & Hz') E. unfold registrationMembers in E. rewrite Hms in E.
  destruct requested as [|h hs]; [by injection E as <- _|].
  destruct r; [|by injection E as <- _]. destruct (forallb _ _); injection E as <- _; [done|].
  apply not_elem_of_nil.
Qed.

Lemma registerChange_inv fed l tg requested r st st' b : inv allFull st -> r <> Some 0 ->
  members_ok fed requested -> registerChange opts fed l tg requested r st = Ret (st', b) -> inv allFull st'.
Proof.
  intros Hi Hr Hms E. unfold registerChange in E.
  case_bool_decide as Hex; [by apply registrationFailed_inv in E; auto|].
  destruct (registrationMembers opts fed requested r) as [members ok] eqn:Em.
  pose proof (registrationMembers_ok _ _ _ _ _ Hms Em) as Hz.
  destruct ok; simpl in E; [|by eapply registrationFailed_inv; eauto].
  destruct (nextEpoch st =? MaxUint64); [done|].
  set (p := newPoint opts tg members _ (nextEpoch st + 1)) in E.
  assert (Hnone : points st !! l = None) by (by apply eq_None_not_Some).
  assert (Hz' : 0 ∉ required p).
  { simpl. unfold handleSet. by rewrite elem_of_list_to_set. }
  assert (Hd : dynamic p = false).
  { simpl. destruct Hms as (_ & ms & -> & _). apply andb_false_r. }
  pose proof (new_point_inv allFull st l p Hi Hnone eq_refl eq_refl Hz' Hd eq_refl eq_refl eq_refl) as Hi0.
  apply bind_Ret_inv in E as (st1 & E1 & E). apply bind_Ret_inv in E as (st2 & E2 & E). injection E as <- _.
  assert (Hi1 : inv (updAll allFull l NoAnn) st1 /\ points st1 !! l = Some p).
  { destruct r as [r|]; [|injection E1 as <-; split; [done|]; simpl; by rewrite lookup_insert_eq].
    apply (enqueue_confirm_inv (updAll allFull l NoAnn)) in E1 as [H1 H2]; [|done|simpl; congruence|done|].
    - split; [done|]. rewrite H2. simpl. by rewrite lookup_insert_eq.
    - left. split; [done|]. simpl. rewrite lookup_insert_eq. by eexists. }
  destruct Hi1 as [Hi1 Hp1].
  destruct (enqueueAll_ids _ _ true l p tg (sortedHandles (required p)) (sortedHandles (required p)) st2 Hi1 Hp1)
    as (s2 & Hi2 & _ & Hf & Hk & p2 & Hp2 & Hsp); [apply NoDup_sortedHandles| |exact E2|].
  { intros h Hh. apply elem_sortedHandles in Hh. split; [done|]. unfold updAll. by rewrite decide_True. }
  eapply inv_modes; [|exact Hi2]. intros l0 q h Hq Hh. destruct (decide (l0 = l)) as [->|Hl].
  - rewrite Hp2 in Hq. injection Hq as <-. rewrite (proj1 (same_point_fields _ _ Hsp)) in Hh.
    by rewrite Hf by by apply elem_sortedHandles.
  - rewrite Hk by by left. unfold updAll. by rewrite decide_False.
Qed.

(** *** Achievement *)
Lemma allFull_at st l : fullAt allFull st l.
Proof. by intros p h. Qed.

Lemma record_achievement_inv st l p h ok : inv allFull st -> points st !! l = Some p -> h ∈ required p ->
  AnnounceEntered (invOf p h) = true -> h ∉ achieved p ->
  let p2 := set_achieved p ({[h]} ∪ achieved p) in
  inv allFull (set_point st l (if ok : bool then p2 else set_failed p2 ({[h]} ∪ failed p2))).
Proof.
  intros Hi Hp Hh He Hn p2. pose proof (in_points _ _ Hi l p Hp) as Hpi.
  assert (Hnd : state p <> StateAchieved).
  { intros Hst. by apply Hn, (pi_done _ _ _ _ Hpi Hst). }
  destruct Hpi. set (q := if ok then p2 else _).
  assert (Hq : required q = required p /\ callbacks q = callbacks p /\ epoch q = epoch p /\ state q = state p /\
               dynamic q = dynamic p /\ achieved q = {[h]} ∪ achieved p /\ failed q ⊆ {[h]} ∪ failed p).
  { subst q p2. clear. destruct ok; simpl; repeat split; set_solver. }
  destruct Hq as (Q1 & Q2 & Q3 & Q4 & Q5 & Q6 & Q7).
  assert (Hinv : forall h', invOf q h' = invOf p h') by (intros h'; unfold invOf; by rewrite Q2).
  apply (set_point_inv allFull _ st l p); try done.
  - intros h'. rewrite Q1. by left.
  - intros h' k. by rewrite Hinv.
  - intros s c _ _ _. by rewrite Q1.
  - split; rewrite ?Q1, ?Q2, ?Q3, ?Q4, ?Q5, ?Q6; try done.
    { clear -pi_achieved0 Hh. set_solver. }
    { clear -pi_failed0 Q7. set_solver. }
    intros h' Hh'. pose proof (pi_handles0 h' Hh') as Hhi. destruct Hhi as [H1 H2 H3 H4 H5].
    split; rewrite ?Hinv, ?Q6; try done.
    + intros [->%elem_of_singleton|Hin]%elem_of_union; auto.
    + by apply (mode_frame Full (obligations st) (obligations st) l p q h').
Qed.

Lemma achieveChange_inv h l ok st st' b : inv allFull st -> achieveChange opts h l ok st = Ret (st', b) ->
  inv allFull st'.
Proof.
  intros Hi E. unfold achieveChange in E. destruct (points st !! l) as [p|] eqn:Hp; [|done].
  rewrite (pi_dynamic _ _ _ _ (in_points _ _ Hi l p Hp)) in E.
  case_bool_decide as Hh; [|done]. rewrite Hstrict in E. simpl in E.
  destruct (AnnounceEntered (invOf p h)) eqn:He; [|done]. simpl in E.
  destruct (announcementPending opts st p l h); [done|]. case_bool_decide as Hn; [done|].
  apply bind_Ret_inv in E as (st1 & E1 & E). injection E as <- _.
  apply (complete_inv allFull) in E1; [by destruct E1|by apply record_achievement_inv|apply allFull_at].
Qed.

(** *** Joining *)
Lemma add_member_inv st l p h : inv allFull st -> points st !! l = Some p -> h ∉ required p -> h <> 0 ->
  state p = StateAnnounced ->
  inv (upd allFull l h NoAnn) (set_point st l (set_required p ({[h]} ∪ required p))).
Proof.
  intros Hi Hp Hn Hz Hst. pose proof (in_points _ _ Hi l p Hp) as Hpi. destruct Hpi.
  assert (Hno : invOf p h = noInvocation).
  { unfold invOf. destruct (callbacks p !! h) eqn:E; [|done]. exfalso. apply Hn, pi_callbacks0. by eexists. }
  apply (set_point_inv allFull _ st l p); try done.
  - intros h' [->%elem_of_singleton|Hin]%elem_of_union; [by right|by left].
  - intros s c _ _ _ Hr. simpl. by apply elem_of_union_r.
  - split; simpl; try done.
    + clear -pi_zero0 Hz. set_solver.
    + clear -pi_achieved0. set_solver.
    + congruence.
    + intros h' Hh'. apply elem_of_union_r. auto.
    + intros h' Hh'. unfold upd. destruct (decide (l = l /\ h' = h)) as [[_ ->]|Hne].
      * pose proof (in_seq _ _ Hi).
        split; change (invOf (set_required p ({[h]} ∪ required p)) h) with (invOf p h); rewrite ?Hno; simpl;
          try lia; try done. intros Hin. by apply pi_achieved0 in Hin.
      * assert (h' ∈ required p) as Hin by (clear -Hh' Hne; set_solver). destruct (pi_handles0 h' Hin). by split.
  - intros l' h' Hl. unfold upd. rewrite decide_False; [done|]. by intros [? _].
Qed.

Lemma joinPoints_inv h labels st st' : inv allFull st -> h <> 0 -> joinPoints h labels st = Ret st' ->
  inv allFull st'.
Proof.
  intros Hi Hz. revert st Hi. induction labels as [|l labels IH]; intros st Hi; simpl; [by intros [= <-]|].
  destruct (points st !! l) as [p|] eqn:Hp; [|by apply IH].
  destruct (allMembers p); simpl; [|by apply IH]. case_bool_decide as Hst; simpl; [|by apply IH].
  case_bool_decide as Hn; [by apply IH|]. intros E. apply bind_Ret_inv in E as (st1 & E1 & E).
  pose proof (add_member_inv st l p h Hi Hp Hn Hz Hst) as Hi0.
  eapply (enqueue_id _ _ true) in E1 as (Hi1 & _); [|exact Hi0|by apply lookup_insert_eq|simpl; clear; set_solver|].
  - apply (IH st1); [|done]. eapply inv_modes; [|exact Hi1]. intros l0 q h0 _ _.
    unfold upd. by repeat case_decide.
  - unfold upd. by rewrite decide_True.
Qed.

(** *** Resigning *)
Definition leaving (h : Z) (labels : list string) : modes :=
  fun l h' => if decide (h' = h /\ l ∈ labels) then Skip else Full.
Definition no_obligation (st : federationState) (h : Z) : Prop :=
  forall s c, obligations st !! s = Some c -> Recipient c <> h.

Lemma dropCallbacks_inv st h : inv allFull st ->
  inv (leaving h (sortedLabels st)) (dropCallbacks st h) /\ no_obligation (dropCallbacks st h) h.
Proof.
  intros Hi. pose proof Hi as [H1 H2 H3 H4 H5 H6 H7].
  assert (Hsub : forall s c, obligations (dropCallbacks st h) !! s = Some c ->
            obligations st !! s = Some c /\ Recipient c <> h).
  { intros s c Hc. simpl in Hc. apply map_lookup_filter_Some in Hc. exact Hc. }
  split; [|by intros s c Hc; apply Hsub in Hc as [_ ?]]. split; try done.
  - intros l p Hp. simpl in Hp. destruct (H3 l p Hp). split; try done. intros h' Hh'.
    destruct (pi_handles0 h' Hh') as [A1 A2 A3 A4 A5]. unfold leaving. case_decide as Hd; [by split|].
    assert (Hne : h' <> h).
    { intros ->. apply Hd. split; [done|]. apply elem_sortedLabels. by eexists. }
    split; try done. destruct A5 as [[B1 B2] B3]. split.
    + split; [done|]. simpl. destruct (AnnounceInvoked _).
      * apply map_lookup_filter_None. by left.
      * destruct B2 as (c & Hc & Hs & He). exists c. split; [|done]. apply map_lookup_filter_Some.
        split; [done|]. simpl. destruct Hs as (_ & _ & -> & _). done.
    + case_decide; [|done]. destruct B3 as [C1 C2]. split; [done|]. simpl. destruct (SynchronizedInvoked _).
      * apply map_lookup_filter_None. by left.
      * destruct C2 as (c & Hc & Hs). exists c. split; [|done]. apply map_lookup_filter_Some.
        split; [done|]. simpl. destruct Hs as (_ & _ & -> & _). done.
  - intros s c Hc. apply Hsub in Hc as [Hc _]. apply (obl_inv_points st); [done|simpl; lia|auto|auto|auto].
  - intros c Hc. simpl in Hc. apply list_elem_of_filter in Hc as [Hr Hc]. simpl.
    apply map_lookup_filter_Some. auto.
  - simpl. eapply sublist_NoDup; [exact H7|]. apply sublist_map, sublist_filter.
Qed.

Lemma dropMember_inv h l labels st p : NoDup (l :: labels) -> inv (leaving h (l :: labels)) st ->
  no_obligation st h -> points st !! l = Some p ->
  inv (leaving h labels) (set_point st l (dropMember p h)).
Proof.
  intros Hnd Hi Hno Hp. inversion Hnd as [|? ? Hnin _]; subst.
  pose proof (in_points _ _ Hi l p Hp) as Hpi. destruct Hpi.
  assert (Hinv : forall h', h' <> h -> invOf (dropMember p h) h' = invOf p h').
  { intros h' Hne. unfold invOf. simpl. by rewrite lookup_delete_ne. }
  apply (set_point_inv (leaving h (l :: labels)) _ st l p); try done.
  - intros h' Hh'. simpl in Hh'. left. clear -Hh'. set_solver.
  - intros h' k _ Hh'. rewrite Hinv; [done|]. simpl in Hh'. clear -Hh'. set_solver.
  - intros s c Hc _ _ Hr. simpl. pose proof (Hno s c Hc) as Hne. clear -Hr Hne. set_solver.
  - split; simpl; try done.
    + clear -pi_zero0. set_solver.
    + clear -pi_achieved0. set_solver.
    + clear -pi_failed0. set_solver.
    + intros Hst. specialize (pi_done0 Hst). clear -pi_done0. set_solver.
    + intros h' Hh'. destruct (decide (h' = h)) as [->|Hne].
      { rewrite lookup_delete_eq in Hh'. by destruct Hh'. }
      rewrite lookup_delete_ne in Hh' by done. apply pi_callbacks0 in Hh'. clear -Hh' Hne. set_solver.
    + intros h' Hh'. assert (Hne : h' <> h) by (clear -Hh'; set_solver).
      assert (Hin : h' ∈ required p) by (clear -Hh'; set_solver).
      specialize (pi_handles0 h' Hin). unfold leaving in *.
      rewrite decide_False in pi_handles0 by (intros [? _]; done). rewrite decide_False by (intros [? _]; done).
      apply handle_inv_set_point.
      apply (handle_frame Full st st l p); [by apply Hinv|done|done| |lia|done|done].
      simpl. by intros [? _]%elem_of_difference.
  - intros l' h' Hl. unfold leaving. apply decide_ext. rewrite elem_of_cons. clear -Hl. intuition.
Qed.

Lemma enqueueAll_recipients l st st' h : enqueueAll st l = Ret st' -> no_obligation st h ->
  (forall c, c ∈ l -> Recipient c <> h) -> no_obligation st' h.
Proof.
  revert st. induction l as [|c l IH]; intros st; simpl; [by intros [= <-]|].
  intros E Hno Hl. apply bind_Ret_inv in E as (st1 & E1 & E).
  apply (IH st1 E); [|intros c' Hc'; apply Hl; by apply list_elem_of_further].
  unfold enqueue in E1. destruct (nextSequence st =? MaxUint64); [done|]. injection E1 as <-.
  intros s c' Hc'. simpl in Hc'. apply lookup_insert_Some in Hc' as [[_ <-]|[_ Hc']]; [|by apply (Hno s)].
  apply (Hl c), list_elem_of_here.
Qed.

Lemma complete_no_obligation st l st' h p : complete opts st l = Ret st' -> points st !! l = Some p ->
  h ∉ required p -> no_obligation st h -> no_obligation st' h.
Proof.
  intros E Hp Hh Hno. unfold complete in E. rewrite Hp in E.
  case_bool_decide; [by injection E as <-|]. case_bool_decide; [|by injection E as <-]. simpl in E.
  apply bind_Ret_inv in E as (st1 & E1 & E).
  assert (no_obligation st1 h).
  { eapply enqueueAll_recipients; [exact E1|exact Hno|]. intros c Hc.
    apply list_elem_of_fmap in Hc as (h' & -> & Hh'). apply elem_sortedHandles in Hh'. simpl. congruence. }
  by destruct (_ && _); injection E as <-.
Qed.

Lemma retire_no_obligation st l h : no_obligation st h -> no_obligation (retire opts st l) h.
Proof. unfold retire. intros Hno. by repeat case_match. Qed.

Lemma resignPoints_inv h labels st st' : NoDup labels -> inv (leaving h labels) st -> no_obligation st h ->
  resignPoints opts h labels st = Ret st' -> inv allFull st'.
Proof.
  revert st. induction labels as [|l labels IH]; intros st Hnd Hi Hno; simpl.
  { intros [= <-]. eapply inv_modes; [|exact Hi]. intros l p h' _ _. unfold leaving.
    rewrite decide_False; [done|]. intros [_ Hin]. by apply elem_of_nil in Hin. }
  inversion Hnd as [|? ? Hnin Hnd']; subst.
  destruct (points st !! l) as [p|] eqn:Hp.
  2:{ apply IH; [done| |done]. eapply inv_modes; [|exact Hi]. intros l0 q h' Hq _. unfold leaving.
      assert (Hne : l0 <> l) by congruence. apply decide_ext. rewrite elem_of_cons. clear -Hne. intuition. }
  intros E. apply bind_Ret_inv in E as (st1 & E1 & E).
  pose proof (dropMember_inv h l labels st p Hnd Hi Hno Hp) as Hi0.
  assert (Hfull : forall st0, fullAt (leaving h labels) st0 l).
  { intros st0 q h' _ _. unfold leaving. rewrite decide_False; [done|]. by intros [_ ?]. }
  assert (Hno1 : no_obligation st1 h).
  { eapply (complete_no_obligation _ l st1 h (dropMember p h)); [exact E1|by apply lookup_insert_eq| |done].
    simpl. clear. set_solver. }
  apply (complete_inv _ _ _ _ Hi0 (Hfull _)) in E1 as (Hi1 & _).
  apply (IH (retire opts st1 l)); [done| | |done].
  - by apply (retire_inv _ _ _ Hi1 (Hfull _)).
  - by apply retire_no_obligation.
Qed.

(** *** Pending callbacks *)
Lemma set_pending_inv sigma st l : inv sigma st -> sublist l (pending st) -> inv sigma (set_pending st l).
Proof.
  intros [H1 H2 H3 H4 H5 H6 H7] Hl. split; try done.
  - intros l0 p Hp. destruct (H3 l0 p Hp). split; try done. intros h Hh. destruct (pi_handles0 h Hh). by split.
  - intros s c Hc. apply (obl_inv_points st); [done|simpl; lia|auto|auto|auto].
  - intros c Hc. apply H6. by eapply sublist_elem.
  - eapply sublist_NoDup; [exact H7|]. by apply sublist_map.
Qed.

(** *** Receipts *)
Section Observe.
Context (st : federationState) (s : Z) (c : CallbackState) (obls' : gmap Z CallbackState)
        (pts' : gmap string syncPoint).
Let st' := Build_federationState pts' (nextSequence st) (nextEpoch st) (pending st) obls'.
Context (Hi : inv allFull st) (Hc : obligations st !! s = Some c) (Hnp : s ∉ map Sequence (pending st)).
Context (Hobls : obls' = <[s := set_Entered c true]> (obligations st) \/ obls' = delete s (obligations st)).
Context (Hto : forall l p, points st !! l = Some p -> exists p', pts' !! l = Some p' /\ same_point p p' /\
  (forall h k, the_id k (invOf p' h) = the_id k (invOf p h)) /\
  (forall h, is_Some (callbacks p' !! h) -> h ∈ required p) /\
  (forall h, h ∈ required p ->
     Announce (invOf p h) <> s /\ Synchronized (invOf p h) <> s /\ invOf p' h = invOf p h \/
     handle_inv Full st' l p' h)).
Context (Hfrom : forall l, points st !! l = None -> pts' !! l = None).

Lemma obls_other s0 : s0 <> s -> obls' !! s0 = obligations st !! s0.
Proof. intros Hne. destruct Hobls as [-> | ->]; [by apply lookup_insert_ne|by apply lookup_delete_ne]. Qed.

Lemma pts_back l p' : pts' !! l = Some p' -> exists p, points st !! l = Some p /\ same_point p p' /\
  (forall h k, the_id k (invOf p' h) = the_id k (invOf p h)).
Proof.
  intros Hp'. destruct (points st !! l) as [p|] eqn:Hp; [|by rewrite (Hfrom l Hp) in Hp'].
  destruct (Hto l p Hp) as (p'' & Hp'' & Hs & Hid & _). rewrite Hp' in Hp''. injection Hp'' as <-. by exists p.
Qed.

Lemma observe_points l p' : pts' !! l = Some p' -> point_inv allFull st' l p'.
Proof.
  intros Hp'. destruct (pts_back l p' Hp') as (p & Hp & _).
  destruct (Hto l p Hp) as (p'' & Hp'' & Hs & _ & Hcb & Hh). rewrite Hp' in Hp''. injection Hp'' as <-.
  destruct (same_point_fields _ _ Hs) as (F1 & F2 & F3 & F4 & F5 & F6 & _).
  destruct (in_points _ _ Hi l p Hp). split; rewrite ?F1, ?F2, ?F3, ?F4, ?F5, ?F6; try done.
  intros h Hin. destruct (Hh h Hin) as [(Hna & Hns & He)|]; [|done].
  apply (handle_frame Full st st' l p p'); try done; [by rewrite F2| |by apply pi_handles0].
  intros s0 _ [-> | ->]; by apply obls_other.
Qed.

Lemma observe_live c0 k : live st c0 k -> live st' c0 k.
Proof.
  intros (p & Hp & He & Hr & Hid). destruct (Hto _ p Hp) as (p' & Hp' & Hs & Hids & _).
  destruct (same_point_fields _ _ Hs) as (F1 & _ & _ & _ & F5 & _).
  exists p'. simpl. rewrite F1, F5, Hids. done.
Qed.
Lemma observe_orphan c0 : orphan st c0 -> orphan st' c0.
Proof.
  intros Ho p' Hp'. destruct (pts_back _ p' Hp') as (p & Hp & Hs & _).
  destruct (same_point_fields _ _ Hs) as (_ & _ & _ & _ & F5 & _). rewrite F5. by apply Ho.
Qed.
Lemma observe_obl s0 c0 : obligations st !! s0 = Some c0 -> obl_inv st' s0 c0.
Proof.
  intros Hc0. apply (obl_inv_points st); [done|simpl; lia| | |by apply (in_obl _ _ Hi)].
  - intros k _ Hl. left. by apply observe_live.
  - intros Ho _. by apply observe_orphan.
Qed.

Lemma observe_inv : inv allFull st'.
Proof.
  pose proof Hi as [H1 H2 _ H4 H5 H6 H7]. split; try done.
  - apply observe_points.
  - assert (Hid : forall l h k s0, has_id st' l h k s0 -> has_id st l h k s0).
    { intros l h k s0 (p' & Hp' & Hin & E). destruct (pts_back l p' Hp') as (p & Hp & Hs & Hids).
      destruct (same_point_fields _ _ Hs) as (F1 & _). exists p. rewrite <- Hids, <- F1. done. }
    intros l1 h1 k1 l2 h2 k2 s0 Hs0 A B. apply (H4 l1 h1 k1 l2 h2 k2 s0); auto.
  - intros s0 c0 Hc0. simpl in Hc0. destruct (decide (s0 = s)) as [->|Hne].
    + destruct Hobls as [E|E]; rewrite E in Hc0; [|by rewrite lookup_delete_eq in Hc0].
      rewrite lookup_insert_eq in Hc0. injection Hc0 as <-. destruct (observe_obl s c Hc).
      split; try done. intros Hk. destruct (oi_announce0 Hk) as [Hl|[Ho _]]; [by left|by right].
    + rewrite obls_other in Hc0 by done. by apply observe_obl.
  - intros c0 Hc0. simpl. rewrite obls_other; [by apply H6|]. intros E. apply Hnp. rewrite <- E.
    by apply (list_elem_of_fmap_2 Sequence).
Qed.
End Observe.

(** A sequence number that is an obligation is the identity of nothing else. *)
Lemma obligation_id st s c l h k p : inv allFull st -> obligations st !! s = Some c -> 0 < s ->
  points st !! l = Some p -> h ∈ required p -> the_id k (invOf p h) = s ->
  shape c (kindOf k) l h (epoch p).
Proof.
  intros Hi Hc Hs Hp Hh Hid. pose proof (pi_handles _ _ _ _ (in_points _ _ Hi l p Hp) h Hh) as [_ _ _ _ [Ha Hy]].
  destruct k; simpl in Hid.
  - destruct Ha as [_ Ha]. rewrite Hid in Ha. destruct (AnnounceInvoked _); [congruence|].
    destruct Ha as (c' & Hc' & Hsh & _). rewrite Hc in Hc'. by injection Hc' as <-.
  - case_decide; [|destruct Hy; lia]. destruct Hy as [_ Hy]. rewrite Hid in Hy.
    destruct (SynchronizedInvoked _); [congruence|]. destruct Hy as (c' & Hc' & Hsh).
    rewrite Hc in Hc'. by injection Hc' as <-.
Qed.

Lemma callbackPending_spec l s : callbackPending l s = false -> s ∉ map Sequence l.
Proof.
  intros H Hin. apply list_elem_of_fmap in Hin as (c & -> & Hc).
  assert (callbackPending l (Sequence c) = true); [|congruence].
  apply existsb_exists. exists c. split; [by apply list_elem_of_In|]. apply Z.eqb_refl.
Qed.

(** A receipt for a callback that is no longer (or never was) a point's. *)
Lemma observe_detached_inv st s c obls' : inv allFull st -> obligations st !! s = Some c ->
  s ∉ map Sequence (pending st) ->
  obls' = <[s := set_Entered c true]> (obligations st) \/ obls' = delete s (obligations st) ->
  (forall k p, Kind c = kindOf k -> points st !! Label c = Some p -> epoch p <> Epoch c) ->
  inv allFull (set_obligations st obls').
Proof.
  intros Hi Hc Hnp Ho Hdet. pose proof (in_obl _ _ Hi s c Hc) as Hob.
  apply (observe_inv st s c obls' (points st)); try done.
  intros l p Hp. exists p. split; [done|]. split; [apply same_point_refl|]. split; [done|].
  pose proof (in_points _ _ Hi l p Hp) as Hpi. split; [apply (pi_callbacks _ _ _ _ Hpi)|].
  intros h Hh. left.
  assert (Hne : forall k, the_id k (invOf p h) <> s).
  { intros k Hid. destruct (obligation_id st s c l h k p Hi Hc) as (S1 & S2 & _ & S4); try done.
    - destruct Hob. lia.
    - apply (Hdet k p S1); [by rewrite S2|done]. }
  split; [exact (Hne true)|]. split; [exact (Hne false)|done].
Qed.

(** A receipt for a point's callback: [i2] is the handle's invocation after it. *)
Lemma observe_point_inv st s c obls' k p i2 : inv allFull st -> obligations st !! s = Some c ->
  s ∉ map Sequence (pending st) ->
  obls' = <[s := set_Entered c true]> (obligations st) \/ obls' = delete s (obligations st) ->
  points st !! Label c = Some p -> Recipient c ∈ required p -> the_id k (invOf p (Recipient c)) = s ->
  (forall k', the_id k' i2 = the_id k' (invOf p (Recipient c))) ->
  (let p2 := set_callbacks p (<[Recipient c := i2]> (callbacks p)) in
   handle_inv Full (Build_federationState (points st) (nextSequence st) (nextEpoch st) (pending st) obls')
     (Label c) p2 (Recipient c)) ->
  inv allFull (set_point (set_obligations st obls') (Label c)
                 (set_callbacks p (<[Recipient c := i2]> (callbacks p)))).
Proof.
  intros Hi Hc Hnp Ho Hp Hh Hid Hids Hnew. pose proof (in_obl _ _ Hi s c Hc) as Hob.
  set (h := Recipient c) in *. set (p2 := set_callbacks p (<[h := i2]> (callbacks p))) in *.
  assert (Hpos : s <> 0) by (destruct Hob; lia).
  apply (observe_inv st s c obls' (<[Label c := p2]> (points st))); try done.
  - intros l q Hq. destruct (decide (l = Label c)) as [->|Hl].
    + rewrite Hp in Hq. injection Hq as <-. exists p2. rewrite lookup_insert_eq. split; [done|]. split; [done|].
      pose proof (in_points _ _ Hi _ p Hp) as Hpi.
      split; [|split].
      * intros h' k'. unfold p2. rewrite invOf_insert. case_decide; [subst h'; apply Hids|done].
      * intros h'. simpl. destruct (decide (h' = h)) as [->|]; [done|]. rewrite lookup_insert_ne by done.
        apply (pi_callbacks _ _ _ _ Hpi).
      * intros h' Hh'. destruct (decide (h' = h)) as [->|Hne].
        { right. destruct Hnew. by split. }
        left. assert (Hu : forall k', the_id k' (invOf p h') <> s).
        { intros k' E. apply Hne. destruct (in_unique _ _ Hi (Label c) h' k' (Label c) h k s Hpos) as (_ & ? & _);
            [by exists p|by exists p|done]. }
        split; [exact (Hu true)|]. split; [exact (Hu false)|]. unfold p2. by rewrite invOf_insert, decide_False.
    + exists q. rewrite lookup_insert_ne by done. split; [done|]. split; [apply same_point_refl|]. split; [done|].
      pose proof (in_points _ _ Hi l q Hq) as Hqi. split; [apply (pi_callbacks _ _ _ _ Hqi)|].
      intros h' Hh'. left.
      assert (Hu : forall k', the_id k' (invOf q h') <> s).
      { intros k' E. apply Hl. destruct (in_unique _ _ Hi l h' k' (Label c) h k s Hpos) as (? & _);
          [by exists q|by exists p|done]. }
      split; [exact (Hu true)|]. split; [exact (Hu false)|done].
  - intros l Hl. rewrite lookup_insert_ne; [done|congruence].
Qed.

(** The handle's clause after the entry or the completion of its announcement. *)
Lemma announce_receipt st s c obls' p (entry : bool) : inv allFull st -> obligations st !! s = Some c ->
  obls' = (if entry then <[s := set_Entered c true]> (obligations st) else delete s (obligations st)) ->
  points st !! Label c = Some p -> Recipient c ∈ required p -> Announce (invOf p (Recipient c)) = s ->
  (entry = false -> Entered c = true) ->
  let i := invOf p (Recipient c) in
  let i2 := if entry then set_AnnounceEntered i true else set_AnnounceInvoked i true in
  handle_inv Full (Build_federationState (points st) (nextSequence st) (nextEpoch st) (pending st) obls')
    (Label c) (set_callbacks p (<[Recipient c := i2]> (callbacks p))) (Recipient c).
Proof.
  intros Hi Hc Ho Hp Hh Hid Hent i i2.
  destruct (pi_handles _ _ _ _ (in_points _ _ Hi _ p Hp) _ Hh) as [H1 H2 H3 H4 [Ha Hy]]. fold i in H1, H2, H3, H4.
  assert (Ei : invOf (set_callbacks p (<[Recipient c := i2]> (callbacks p))) (Recipient c) = i2)
    by (by rewrite invOf_insert, decide_True).
  destruct Ha as [Ha1 Ha2]. fold i in Ha1, Ha2, Hid. rewrite Hid in Ha2.
  destruct (AnnounceInvoked i) eqn:Einv; [congruence|].
  destruct Ha2 as (c' & Hc' & Hsh & Hen). rewrite Hc in Hc'. injection Hc' as <-.
  assert (Hne : state p = StateAchieved -> Synchronized i <> s).
  { intros Hst E. assert (HA : has_id st (Label c) (Recipient c) true s) by (by exists p).
    assert (HS : has_id st (Label c) (Recipient c) false s) by (by exists p).
    destruct (in_unique _ _ Hi _ _ _ _ _ _ s ltac:(lia) HA HS) as (_ & _ & ?). done. }
  assert (E2 : Announce i2 = s /\ Synchronized i2 = Synchronized i /\
               SynchronizedInvoked i2 = SynchronizedInvoked i) by (by subst i2; destruct entry).
  destruct E2 as (E2 & E3 & E4).
  split; rewrite ?Ei, ?E2, ?E3; simpl; try lia.
  - subst i2. destruct entry; simpl; [done|]. intros _. rewrite <- Hen. auto.
  - intros Hin. subst i2. destruct entry; simpl; [done|]. auto.
  - split.
    + unfold ann_ok. rewrite Ei, E2. split; [lia|]. subst obls' i2. destruct entry; simpl.
      * rewrite Einv. exists (set_Entered c true). rewrite lookup_insert_eq. by repeat split; apply Hsh.
      * by rewrite lookup_delete_eq.
    + simpl. case_decide as Hst; [|unfold unsynced in *; by rewrite Ei, E3, E4].
      unfold sync_ok in *. fold i in Hy. rewrite Ei, E3, E4. simpl.
      assert (Eo : obls' !! Synchronized i = obligations st !! Synchronized i).
      { subst obls'. destruct entry; [apply lookup_insert_ne|apply lookup_delete_ne]; by apply not_eq_sym, Hne. }
      by rewrite Eo.
Qed.

(** ... and of its federation-synchronized callback. *)
Lemma sync_receipt st s c obls' p (entry : bool) : inv allFull st -> obligations st !! s = Some c ->
  obls' = (if entry then <[s := set_Entered c true]> (obligations st) else delete s (obligations st)) ->
  points st !! Label c = Some p -> Recipient c ∈ required p -> Synchronized (invOf p (Recipient c)) = s ->
  state p = StateAchieved ->
  let i := invOf p (Recipient c) in
  let i2 := if entry then i else set_SynchronizedInvoked i true in
  handle_inv Full (Build_federationState (points st) (nextSequence st) (nextEpoch st) (pending st) obls')
    (Label c) (set_callbacks p (<[Recipient c := i2]> (callbacks p))) (Recipient c).
Proof.
  intros Hi Hc Ho Hp Hh Hid Hst i i2.
  destruct (pi_handles _ _ _ _ (in_points _ _ Hi _ p Hp) _ Hh) as [H1 H2 H3 H4 [Ha Hy]]. fold i in H1, H2, H3, H4.
  rewrite decide_True in Hy by done.
  assert (Ei : invOf (set_callbacks p (<[Recipient c := i2]> (callbacks p))) (Recipient c) = i2)
    by (by rewrite invOf_insert, decide_True).
  destruct Hy as [Hy1 Hy2]. fold i in Hy1, Hy2, Hid. rewrite Hid in Hy2.
  destruct (SynchronizedInvoked i) eqn:Einv; [congruence|].
  destruct Hy2 as (c' & Hc' & Hsh). rewrite Hc in Hc'. injection Hc' as <-.
  assert (Hne : Announce i <> s).
  { intros E. assert (HA : has_id st (Label c) (Recipient c) true s) by (by exists p).
    assert (HS : has_id st (Label c) (Recipient c) false s) by (by exists p).
    destruct (in_unique _ _ Hi _ _ _ _ _ _ s ltac:(lia) HA HS) as (_ & _ & ?). done. }
  assert (E2 : Announce i2 = Announce i /\ Synchronized i2 = s /\ AnnounceInvoked i2 = AnnounceInvoked i /\
               AnnounceEntered i2 = AnnounceEntered i) by (by subst i2; destruct entry).
  destruct E2 as (E2 & E3 & E4 & E5).
  split; rewrite ?Ei, ?E2, ?E3, ?E4, ?E5; simpl; try lia; try done.
  split.
  - unfold ann_ok in *. fold i in Ha. rewrite Ei, E2, E4, E5. simpl.
    assert (Eo : obls' !! Announce i = obligations st !! Announce i).
    { subst obls'. destruct entry; [apply lookup_insert_ne|apply lookup_delete_ne]; congruence. }
    by rewrite Eo.
  - simpl. rewrite decide_True by done. unfold sync_ok. rewrite Ei, E3. split; [lia|].
    subst obls' i2. destruct entry; simpl.
    + rewrite Einv. exists (set_Entered c true). rewrite lookup_insert_eq. by repeat split; apply Hsh.
    + by rewrite lookup_delete_eq.
Qed.

Lemma observeChange_inv h kind l s entry st st' : inv allFull st ->
  observeChange opts h kind l s entry st = Ret (Some st') -> inv allFull st'.
Proof.
  intros Hi E. unfold observeChange in E. destruct (obligations st !! s) as [c|] eqn:Hc; [|done].
  destruct (_ && _ && _) eqn:Em in E; [|done]. simpl in E.
  apply andb_true_iff in Em as [Em Ek]. apply andb_true_iff in Em as [Er El].
  apply Z.eqb_eq in Er. apply bool_decide_eq_true in El, Ek.
  destruct (callbackPending (pending st) s) eqn:Hnp; [done|]. apply callbackPending_spec in Hnp.
  destruct (negb entry && RequireInvocations opts && negb (Entered c)) eqn:Hent; [done|].
  assert (Hent' : entry = false -> Entered c = true).
  { intros ->. rewrite Hstrict in Hent. simpl in Hent. by destruct (Entered c). }
  clear Hent. set (obls' := if entry then _ else _) in E.
  assert (Hobls : obls' = <[s := set_Entered c true]> (obligations st) \/ obls' = delete s (obligations st))
    by (subst obls'; destruct entry; [by left|by right]).
  simpl in E. subst l h. destruct (points st !! Label c) as [p|] eqn:Hp.
  2:{ injection E as <-. apply (observe_detached_inv st s c); try done. congruence. }
  destruct (Z.eqb_spec (epoch p) (Epoch c)) as [He|He]; simpl in E.
  2:{ injection E as <-. apply (observe_detached_inv st s c); try done. intros k q _ Hq. congruence. }
  pose proof (in_obl _ _ Hi s c Hc) as Hob.
  unfold observePointCallback in E. destruct kind; try done.
  - destruct (Announce (invOf p (Recipient c)) =? s) eqn:Ea; [|done]. apply Z.eqb_eq in Ea. simpl in E.
    injection E as <-. apply (fun H => proj1 (retire_inv _ _ _ H (allFull_at _ _))).
    assert (Hreq : Recipient c ∈ required p).
    { destruct Hob. destruct oi_announce0 as [(q & Hq & _ & ? & _)|[Ho _]]; [by destruct (Kind c)| |].
      - rewrite Hp in Hq. by injection Hq as <-.
      - by destruct (Ho p Hp). }
    apply (observe_point_inv st s c obls' true); try done.
    + by destruct entry, k'.
    + apply (announce_receipt st s); try done.
  - destruct (Synchronized (invOf p (Recipient c)) =? s) eqn:Ea; [|done]. apply Z.eqb_eq in Ea. simpl in E.
    case_bool_decide as Hst; [|done]. simpl in E.
    injection E as <-. apply (fun H => proj1 (retire_inv _ _ _ H (allFull_at _ _))).
    assert (Hreq : Recipient c ∈ required p).
    { destruct Hob. destruct oi_sync0 as (q & Hq & _ & ? & _); [by destruct (Kind c)|].
      rewrite Hp in Hq. by injection Hq as <-. }
    apply (observe_point_inv st s c obls' false); try done.
    + by destruct entry, k'.
    + apply (sync_receipt st s); try done.
  - injection E as <-. apply (observe_detached_inv st s c); try done.
    intros k q Hk. rewrite Hk in Ek. by destruct k.
  - injection E as <-. apply (observe_detached_inv st s c); try done.
    intros k q Hk. rewrite Hk in Ek. by destruct k.
Qed.
End Strict.
