(* ===== verification/SyncExport.v ===== *)
(** * A snapshot of a state that satisfies the invariant is valid

    Every guard of [ValidateState] is shown to pass on the export of a state
    satisfying [inv], and [importFederation] to rebuild the points and the
    obligations. *)
From stdpp Require Import gmap.
From Stdlib Require Import Strings.Byte.
From S2P Require Import Prelude GoBytes Sync SyncSnapshot SyncInvariant.
Open Scope Z_scope.

Lemma handleSet_sorted (s : handles) : handleSet (sortedHandles s) = s.
Proof.
  apply set_eq. intros h. unfold handleSet. by rewrite elem_of_list_to_set, elem_sortedHandles.
Qed.
Lemma length_sorted (s : handles) : length (sortedHandles s) = size s.
Proof. unfold sortedHandles. by rewrite merge_sort_Permutation. Qed.

Lemma existsb_false {A} (f : A -> bool) l : (forall x, x ∈ l -> f x = false) -> existsb f l = false.
Proof.
  intros Hf. apply not_true_iff_false. intros Ht. apply existsb_exists in Ht as (x & Hin & Hx).
  rewrite Hf in Hx; [done|]. by apply list_elem_of_In.
Qed.

(** ** Points *)
Lemma participants_ok sigma st l p : point_inv sigma st l p -> validatePointParticipants (exportPoint l p) = Ret ().
Proof.
  intros [Hst Hz Ha Hf Hd _ _ _ _]. unfold validatePointParticipants.
  cbn [p_State p_Required p_Achieved p_Failed exportPoint].
  rewrite !handleSet_sorted, !length_sorted, !Nat.eqb_refl.
  replace (negb (bool_decide (state p = StateAnnounced)) && negb (bool_decide (state p = StateAchieved))) with false.
  2:{ destruct Hst as [-> | ->]; done. }
  rewrite existsb_false, existsb_false, existsb_false; simpl.
  - case_bool_decide as Hs; [|done]. simpl. assert (achieved p = required p) as ->; [|by rewrite Nat.eqb_refl].
    specialize (Hd Hs). clear -Ha Hd. set_solver.
  - intros h Hh%elem_sortedHandles. rewrite bool_decide_eq_true_2; [done|]. by apply Hf.
  - intros h Hh%elem_sortedHandles. rewrite bool_decide_eq_true_2; [done|]. by apply Ha.
  - intros h Hh%elem_sortedHandles. apply Z.eqb_neq. congruence.
Qed.

Lemma claim_ok bound a b (seqs : gset Z) : 0 <= a <= bound -> 0 <= b <= bound -> (a <> 0 -> a ∉ seqs) -> (b <> 0 -> b ∉ seqs) ->
  (a <> 0 -> a <> b) ->
  exists seqs', claimSequences bound [a; b] seqs = Ret seqs' /\
    forall s, s ∈ seqs' <-> s ∈ seqs \/ s <> 0 /\ (s = a \/ s = b).
Proof.
  intros Ha Hb Hna Hnb Hab. cbn [claimSequences].
  assert (Hga : a <> 0 -> (bound <? a) || bool_decide (a ∈ seqs) = false).
  { intros H0. rewrite bool_decide_eq_false_2 by auto. destruct (Z.ltb_spec bound a); [lia|done]. }
  assert (Hgb : forall seqs0 : gset Z, b <> 0 -> b ∉ seqs0 -> (bound <? b) || bool_decide (b ∈ seqs0) = false).
  { intros seqs0 H0 Hn. rewrite bool_decide_eq_false_2 by done. destruct (Z.ltb_spec bound b); [lia|done]. }
  destruct (Z.eqb_spec a 0) as [->|H0]; [|rewrite Hga by done];
    (destruct (Z.eqb_spec b 0) as [->|H1]; [|rewrite Hgb]; auto).
  - exists seqs. split; [done|]. clear. naive_solver.
  - eexists. split; [done|]. intros s. rewrite elem_of_union, elem_of_singleton. clear -H1. naive_solver.
  - eexists. split; [done|]. intros s. rewrite elem_of_union, elem_of_singleton. clear -H0. naive_solver.
  - eexists. split; [done|]. intros s. rewrite !elem_of_union, !elem_of_singleton. clear -H0 H1. naive_solver.
  - apply not_elem_of_union. split; [|auto]. rewrite elem_of_singleton. intros ->. by apply Hab.
Qed.

Section Exported.
Context (opts : Options) (Hstrict : RequireInvocations opts = true) (st : federationState) (Hinv : inv allFull st).
Let image := exportFederation opts st.
Let Hreq : s_RequireInvocations image = true := Hstrict.

Definition exportInv (p : syncPoint) (h : Z) : InvocationState := with_Recipient (invOf p h) h.

(** The identities of the handles [hs] of [p]. *)
Definition ids (p : syncPoint) (hs : list Z) (s : Z) : Prop :=
  s <> 0 /\ exists h k, h ∈ hs /\ the_id k (invOf p h) = s.

Lemma invocation_ok l p h seqs : points st !! l = Some p -> h ∈ required p ->
  (forall s, ids p [h] s -> s ∉ seqs) ->
  exists seqs', validateInvocation image (exportPoint l p) (exportInv p h) seqs (achieved p) = Ret seqs' /\
    forall s, s ∈ seqs' <-> s ∈ seqs \/ ids p [h] s.
Proof.
  intros Hp Hh Hnew. destruct (pi_handles _ _ _ _ (in_points _ _ Hinv l p Hp) h Hh) as [H1 H2 H3 H4 [Ha Hs]].
  assert (Hk : forall k s, s <> 0 -> the_id k (invOf p h) = s -> ids p [h] s).
  { intros k s H0 E. split; [done|]. exists h, k. split; [apply list_elem_of_here|done]. }
  assert (Hab : Announce (invOf p h) <> 0 -> Announce (invOf p h) <> Synchronized (invOf p h)).
  { intros H0 E. destruct (in_unique _ _ Hinv l h true l h false (Announce (invOf p h)) H0) as (_ & _ & ?);
      [by exists p|exists p; by rewrite E|done]. }
  destruct (claim_ok (nextSequence st) (Announce (invOf p h)) (Synchronized (invOf p h)) seqs) as (seqs' & Hc & Hiff);
    [done|done|intros H0; apply Hnew; by apply (Hk true)|intros H0; apply Hnew; by apply (Hk false)|done|].
  exists seqs'. unfold validateInvocation, validateInvocationIdentity. rewrite Hreq.
  cbn [Announce Synchronized AnnounceEntered AnnounceInvoked SynchronizedInvoked i_Recipient exportInv with_Recipient
       p_Dynamic p_State exportPoint].
  change (NextSequence image) with (nextSequence st). rewrite Hc.
  destruct Ha as [Ha _]. destruct (Z.eqb_spec (Announce (invOf p h)) 0); [lia|].
  assert (Hsy : ((Synchronized (invOf p h) =? 0) && bool_decide (state p = StateAchieved) = false) /\
                (negb (Synchronized (invOf p h) =? 0) && negb (bool_decide (state p = StateAchieved)) = false) /\
                (SynchronizedInvoked (invOf p h) && (Synchronized (invOf p h) =? 0) = false)).
  { case_decide as Hst.
    - destruct Hs as [Hs _]. rewrite bool_decide_eq_true_2 by done.
      destruct (Z.eqb_spec (Synchronized (invOf p h)) 0); [lia|]. by rewrite !andb_false_r.
    - destruct Hs as [Hs1 Hs2]. rewrite bool_decide_eq_false_2 by done. by rewrite Hs1, Hs2. }
  destruct Hsy as (E1 & E2 & E3). rewrite !andb_false_r. cbn [andb]. rewrite E1, E2, E3. cbn [mbind outcome_bind orb].
  replace (AnnounceInvoked (invOf p h) && negb (AnnounceEntered (invOf p h))) with false.
  2:{ destruct (AnnounceInvoked _); [|done]. by rewrite H3. }
  replace (bool_decide (h ∈ achieved p) && negb (AnnounceEntered (invOf p h))) with false.
  2:{ destruct (decide (h ∈ achieved p)); [rewrite H4, andb_false_r by done|rewrite bool_decide_eq_false_2 by done]; done. }
  split; [done|]. intros s. rewrite Hiff. clear. unfold ids. split.
  - intros [?|(H0 & [-> | ->])]; [by left|right|right]; (split; [done|]); exists h;
      [exists true|exists false]; (split; [apply list_elem_of_here|done]).
  - intros [?|(H0 & h' & k & Hin & E)]; [by left|right]. apply list_elem_of_singleton in Hin as ->.
    split; [done|]. destruct k; [by left|by right].
Qed.

Lemma invocations_ok l p hs invoked seqs : points st !! l = Some p -> NoDup hs ->
  (forall h, h ∈ hs -> h ∈ required p /\ h ∉ invoked) -> (forall s, ids p hs s -> s ∉ seqs) ->
  exists seqs', validateInvocations image (exportPoint l p) (map (exportInv p) hs) invoked seqs =
      Ret (list_to_set hs ∪ invoked, seqs') /\ forall s, s ∈ seqs' <-> s ∈ seqs \/ ids p hs s.
Proof.
  intros Hp. revert invoked seqs. induction hs as [|h hs IH]; intros invoked seqs Hnd Hhs Hnew.
  { exists seqs. simpl. split; [by rewrite (left_id_L ∅ (∪))|]. intros s. unfold ids. split; [by left|].
    intros [?|(_ & h & k & Hin & _)]; [done|]. by apply elem_of_nil in Hin. }
  inversion Hnd as [|? ? Hnin Hnd']; subst. destruct (Hhs h (list_elem_of_here _ _)) as [Hh Hni].
  destruct (invocation_ok l p h seqs Hp Hh) as (seqs1 & E1 & H1).
  { intros s (H0 & h' & k & Hin & E). apply Hnew. split; [done|]. exists h', k. split; [|done].
    apply list_elem_of_singleton in Hin as ->. apply list_elem_of_here. }
  assert (Hu : forall s, ids p hs s -> ~ ids p [h] s).
  { intros s (H0 & h1 & k1 & Hin1 & E1') (_ & h2 & k2 & Hin2 & E2). apply list_elem_of_singleton in Hin2 as ->.
    destruct (in_unique _ _ Hinv l h1 k1 l h k2 s H0) as (_ & -> & _); [|by exists p|done].
    exists p. split; [done|]. split; [|done]. by apply Hhs, list_elem_of_further. }
  destruct (IH ({[h]} ∪ invoked) seqs1 Hnd') as (seqs2 & E2 & H2).
  { intros h' Hin. destruct (Hhs h') as [? ?]; [by apply list_elem_of_further|]. split; [done|].
    apply not_elem_of_union. split; [|done]. rewrite elem_of_singleton. congruence. }
  { intros s Hs. rewrite H1. intros [Hin|Hin]; [|by apply (Hu s)]. revert Hin. apply Hnew.
    destruct Hs as (H0 & h' & k & Hin & E). split; [done|]. exists h', k. split; [by apply list_elem_of_further|done]. }
  exists seqs2. split.
  - cbn [map validateInvocations]. cbn [p_Required p_Achieved exportPoint].
    rewrite !handleSet_sorted. change (i_Recipient (exportInv p h)) with h.
    rewrite bool_decide_eq_true_2, bool_decide_eq_false_2 by done. simpl orb. cbv iota.
    rewrite E1. cbn [mbind outcome_bind]. rewrite E2. simpl. do 2 f_equal. by rewrite (assoc_L (∪)), (comm_L (∪) (list_to_set hs)).
  - intros s. rewrite H2, H1. unfold ids. split.
    + intros [[?|(H0 & h' & k & Hin & E)]|(H0 & h' & k & Hin & E)]; [by left|right|right]; (split; [done|]);
        exists h', k; (split; [|done]).
      * apply list_elem_of_singleton in Hin as ->. apply list_elem_of_here.
      * by apply list_elem_of_further.
    + intros [?|(H0 & h' & k & Hin & E)]; [by left; left|]. apply elem_of_cons in Hin as [->|Hin].
      * left. right. split; [done|]. exists h, k. split; [apply list_elem_of_here|done].
      * right. split; [done|]. by exists h', k.
Qed.

(** The ids of one point are its handles' ids. *)
Definition point_ids (p : syncPoint) (s : Z) : Prop := ids p (sortedHandles (required p)) s.

Lemma point_invocations_ok l p seqs : points st !! l = Some p -> (forall s, point_ids p s -> s ∉ seqs) ->
  exists seqs', validatePointInvocations image (exportPoint l p) seqs = Ret seqs' /\
    forall s, s ∈ seqs' <-> s ∈ seqs \/ point_ids p s.
Proof.
  intros Hp Hnew. pose proof (in_points _ _ Hinv l p Hp) as Hpi.
  destruct (invocations_ok l p (sortedHandles (required p)) ∅ seqs Hp (NoDup_sortedHandles _)) as (seqs' & E & H);
    [|exact Hnew|].
  { intros h Hh%elem_sortedHandles. split; [done|apply not_elem_of_empty]. }
  exists seqs'. split; [|exact H]. unfold validatePointInvocations. rewrite Hreq.
  cbn [p_Dynamic p_Epoch p_Required exportPoint Invocations]. rewrite (pi_dynamic _ _ _ _ Hpi).
  pose proof (pi_epoch _ _ _ _ Hpi). change (NextEpoch image) with (nextEpoch st).
  destruct (Z.eqb_spec (epoch p) 0); [lia|]. destruct (Z.ltb_spec (nextEpoch st) (epoch p)); [lia|]. cbn [andb orb].
  unfold exportInv in E. rewrite E. cbn [mbind outcome_bind fst snd].
  rewrite (right_id_L ∅ (∪)). change (list_to_set (sortedHandles (required p))) with (handleSet (sortedHandles (required p))).
  by rewrite Nat.eqb_refl.
Qed.

Definition labelled (labels : list string) : list (string * syncPoint) :=
  omap (fun l => pair l <$> points st !! l) labels.
Lemma labelled_export labels :
  omap (fun l => exportPoint l <$> points st !! l) labels = map (fun lp => exportPoint lp.1 lp.2) (labelled labels).
Proof.
  induction labels as [|l labels IH]; [done|]. unfold labelled in *. simpl.
  destruct (points st !! l); simpl; [f_equal|]; exact IH.
Qed.
Lemma elem_labelled labels l p : (l, p) ∈ labelled labels <-> l ∈ labels /\ points st !! l = Some p.
Proof.
  unfold labelled. rewrite list_elem_of_omap. split.
  - intros (l' & Hin & E). destruct (points st !! l') eqn:Ep; simpl in E; [|done]. injection E as <- <-. done.
  - intros [Hin E]. exists l. split; [done|]. by rewrite E.
Qed.
Lemma NoDup_labelled labels : NoDup labels -> NoDup (map fst (labelled labels)).
Proof.
  induction 1 as [|l labels Hnin _ IH]; [constructor|]. unfold labelled in *. simpl.
  destruct (points st !! l) as [p|]; simpl; [|done]. constructor; [|done].
  intros Hin. apply list_elem_of_fmap in Hin as ([l' p'] & -> & Hin).
  apply (elem_labelled labels l' p') in Hin as [Hin _]. done.
Qed.

Lemma points_ok lps labels seqs : (forall l p, (l, p) ∈ lps -> points st !! l = Some p) -> NoDup (map fst lps) ->
  (forall l p, (l, p) ∈ lps -> labels !! l = None) ->
  (forall l p s, (l, p) ∈ lps -> point_ids p s -> s ∉ seqs) ->
  exists labels' seqs',
    validatePoints image (map (fun lp => exportPoint lp.1 lp.2) lps) labels seqs = Ret (labels', seqs') /\
    (forall l pt, labels' !! l = Some pt <->
       labels !! l = Some pt \/ exists p, (l, p) ∈ lps /\ pt = exportPoint l p) /\
    (forall s, s ∈ seqs' <-> s ∈ seqs \/ exists l p, (l, p) ∈ lps /\ point_ids p s).
Proof.
  revert labels seqs. induction lps as [|[l p] lps IH]; intros labels seqs Hps Hnd Hlab Hnew.
  { exists labels, seqs. split; [done|]. split.
    - intros l pt. split; [by left|]. intros [?|(p & Hin & _)]; [done|]. by apply elem_of_nil in Hin.
    - intros s. split; [by left|]. intros [?|(l & p & Hin & _)]; [done|]. by apply elem_of_nil in Hin. }
  inversion Hnd as [|? ? Hnin Hnd']; subst. pose proof (Hps l p (list_elem_of_here _ _)) as Hp.
  destruct (point_invocations_ok l p seqs Hp) as (seqs1 & E1 & H1); [intros s; apply (Hnew l), list_elem_of_here|].
  assert (Hne : forall l' p', (l', p') ∈ lps -> l' <> l).
  { intros l' p' Hin ->. apply Hnin. apply list_elem_of_fmap. by exists (l, p'). }
  destruct (IH (<[l := exportPoint l p]> labels) seqs1) as (labels' & seqs' & E & HL & HS).
  { intros l' p' Hin. by apply Hps, list_elem_of_further. }
  { done. }
  { intros l' p' Hin. rewrite lookup_insert_ne by (symmetry; by eapply Hne). by eapply Hlab, list_elem_of_further. }
  { intros l' p' s Hin Hs. rewrite H1. intros [Hin'|Hin']; [by eapply (Hnew l' p' s); [apply list_elem_of_further| |]|].
    destruct Hs as (H0 & h1 & k1 & Hh1 & Ei1), Hin' as (_ & h2 & k2 & Hh2 & Ei2).
    apply elem_sortedHandles in Hh1, Hh2.
    destruct (in_unique _ _ Hinv l' h1 k1 l h2 k2 s H0) as (-> & _).
    - exists p'. split; [by apply Hps, list_elem_of_further|done].
    - by exists p.
    - by apply (Hne l p'). }
  exists labels', seqs'. split; [|split].
  - cbn [map validatePoints fst snd]. change (p_Label (exportPoint l p)) with l.
    rewrite (Hlab l p) by apply list_elem_of_here. rewrite bool_decide_eq_false_2 by (by intros [? ?]). cbv iota.
    rewrite (participants_ok allFull st) by by apply (in_points _ _ Hinv). cbn [mbind outcome_bind].
    change (Version image =? 0) with false. cbv iota. rewrite E1. cbn [mbind outcome_bind]. exact E.
  - intros l' pt. rewrite HL, lookup_insert_Some. split.
    + intros [[[<- <-]|[Hl ?]]|(p' & Hin & ->)].
      * right. exists p. split; [apply list_elem_of_here|done].
      * by left.
      * right. exists p'. split; [by apply list_elem_of_further|done].
    + intros [HA|(p' & Hin & ->)].
      * left. right. split; [|done]. intros ->. rewrite (Hlab l' p) in HA; [done|apply list_elem_of_here].
      * apply elem_of_cons in Hin as [[= -> ->]|Hin]; [by left; left|]. right. by exists p'.
  - intros s. rewrite HS, H1. split.
    + intros [[?|?]|(l' & p' & Hin & ?)]; [by left|right|right].
      * exists l, p. split; [apply list_elem_of_here|done].
      * exists l', p'. split; [by apply list_elem_of_further|done].
    + intros [?|(l' & p' & Hin & ?)]; [by left; left|].
      apply elem_of_cons in Hin as [[= -> ->]|Hin]; [by left; right|]. right. by exists l', p'.
Qed.

(** The labels and identities all points together hold. *)
Lemma all_points_ok : exists labels seqs, validatePoints image (Points image) ∅ ∅ = Ret (labels, seqs) /\
  (forall l, labels !! l = exportPoint l <$> points st !! l) /\
  (forall s, s ∈ seqs -> s <> 0 /\ exists l h k, has_id st l h k s).
Proof.
  destruct (points_ok (labelled (sortedLabels st)) ∅ ∅) as (labels & seqs & E & HL & HS).
  - intros l p Hin. by apply elem_labelled in Hin as [_ ?].
  - apply NoDup_labelled, NoDup_sortedLabels.
  - intros l p _. apply lookup_empty.
  - intros l p s _ _. apply not_elem_of_empty.
  - exists labels, seqs. split; [|split].
    + cbn [Points image exportFederation]. by rewrite labelled_export.
    + intros l. destruct (points st !! l) as [p|] eqn:Hp; simpl.
      * apply HL. right. exists p. split; [|done]. apply elem_labelled. split; [|done].
        apply elem_sortedLabels. by rewrite Hp.
      * destruct (labels !! l) as [pt|] eqn:El; [|done]. apply HL in El as [El|(p & Hin & _)].
        -- by rewrite lookup_empty in El.
        -- apply elem_labelled in Hin as [_ Hin]. congruence.
    + intros s Hs. apply HS in Hs as [Hs|(l & p & Hin & H0 & h & k & Hh & Hid)].
      * by apply not_elem_of_empty in Hs.
      * split; [done|]. exists l, h, k, p. apply elem_labelled in Hin as [_ Hin]. by apply elem_sortedHandles in Hh.
Qed.

(** ** Obligations *)
Lemma fold_matches (f : InvocationState -> bool) p hs h acc : NoDup hs -> h ∈ hs ->
  fold_left (fun m i => if negb (i_Recipient i =? h) then m else f i) (map (exportInv p) hs) acc = f (exportInv p h).
Proof.
  revert acc. induction hs as [|h0 hs IH]; intros acc Hnd Hh; [by apply elem_of_nil in Hh|].
  inversion Hnd as [|? ? Hni Hnd']; subst. simpl. apply elem_of_cons in Hh as [<-|Hh].
  - rewrite Z.eqb_refl. simpl. clear IH Hnd Hnd'. generalize (f (exportInv p h)) as b. intros b.
    induction hs as [|h1 hs IH]; [done|]. apply not_elem_of_cons in Hni as [Hne Hni]. simpl.
    destruct (Z.eqb_spec h1 h); [by subst|]. simpl. by apply IH.
  - by apply IH.
Qed.

Lemma live_matches l p c : points st !! l = Some p -> Label c = l -> obligations st !! Sequence c = Some c ->
  Recipient c ∈ required p ->
  (exists k, Kind c = kindOf k /\ the_id k (invOf p (Recipient c)) = Sequence c) ->
  matchesCallbackInvocation (exportPoint l p) c true = true.
Proof.
  intros Hp Hl Hc Hr (k & Hk & Hid). unfold matchesCallbackInvocation.
  cbn [Invocations exportPoint]. change (fun h => with_Recipient (invOf p h) h) with (exportInv p).
  rewrite fold_matches; [|apply NoDup_sortedHandles|by apply elem_sortedHandles].
  cbn [Announce Synchronized AnnounceEntered AnnounceInvoked SynchronizedInvoked exportInv with_Recipient].
  pose proof (in_obl _ _ Hinv _ _ Hc) as Hob. assert (Hpos : 1 <= Sequence c) by (destruct Hob; lia).
  destruct (pi_handles _ _ _ _ (in_points _ _ Hinv l p Hp) _ Hr) as [_ _ _ _ [Ha Hs]].
  rewrite Hk. destruct k; simpl in Hid |- *.
  - destruct Ha as [_ Ha]. rewrite Hid in Ha. rewrite Hid, Z.eqb_refl.
    destruct (AnnounceInvoked _); [congruence|]. destruct Ha as (c' & Hc' & _ & He). rewrite Hc in Hc'.
    injection Hc' as <-. by rewrite He, eqb_reflx.
  - case_decide as Hst; [|destruct Hs; lia]. destruct Hs as [_ Hs]. rewrite Hid in Hs. rewrite Hid, Z.eqb_refl.
    destruct (SynchronizedInvoked _); [congruence|done].
Qed.

Lemma obligation_ok c obls : obligations st !! Sequence c = Some c -> obls !! Sequence c = None ->
  validateObligation image c obls = Ret ().
Proof.
  intros Hc Hn. destruct (in_obl _ _ Hinv _ _ Hc) as [H1 H2 H3 H4 H5 H6 H7 _ _].
  unfold validateObligation. change (strictImage image) with (RequireInvocations opts). rewrite Hstrict.
  change (NextSequence image) with (nextSequence st). change (NextEpoch image) with (nextEpoch st). cbn [negb orb].
  destruct (Z.eqb_spec (Sequence c) 0); [lia|]. destruct (Z.ltb_spec (nextSequence st) (Sequence c)); [lia|].
  destruct (Z.eqb_spec (Recipient c) 0); [done|]. cbn [orb].
  assert (noEvent c = false) as ->. { unfold noEvent, delivery. destruct (Kind c); try done. by destruct (H4 k). }
  rewrite Hn, bool_decide_eq_false_2 by (by intros [? ?]). cbv iota.
  destruct (Z.ltb_spec (nextEpoch st) (Epoch c)); [lia|]. cbn [orb].
  destruct (decide (Kind c = callbackRegistrationFailed)) as [Hk|Hk].
  - rewrite Hk. simpl. destruct (H7 Hk) as [-> | ->]; done.
  - rewrite (bool_decide_eq_false_2 _ Hk). simpl. specialize (H6 Hk). destruct (Z.eqb_spec (Epoch c) 0); [lia|done].
Qed.

Lemma obligation_invocation_ok c labels seqs : obligations st !! Sequence c = Some c ->
  (forall l, labels !! l = exportPoint l <$> points st !! l) ->
  (forall s, s ∈ seqs -> s <> 0 /\ exists l h k, has_id st l h k s) ->
  validateObligationInvocation c labels seqs = Ret ().
Proof.
  intros Hc HL HS. pose proof (in_obl _ _ Hinv _ _ Hc) as Hob. unfold validateObligationInvocation.
  assert (Hlive : forall k, Kind c = kindOf k -> live st c k ->
    exists p, labels !! Label c = Some (exportPoint (Label c) p) /\ epoch p = Epoch c /\
      matchesCallbackInvocation (exportPoint (Label c) p) c true = true).
  { intros k Hk (p & Hp & He & Hr & Hid). exists p. rewrite HL, Hp. split; [done|]. split; [done|].
    apply live_matches; try done. by exists k. }
  unfold isPointCallback. destruct (Kind c) eqn:Hk; simpl.
  - destruct (oi_announce _ _ _ Hob Hk) as [Hl|[Ho ->]].
    + destruct (Hlive true) as (p & -> & E & ->); [done|done|].
      cbn [p_Epoch exportPoint]. by rewrite E, Z.eqb_refl.
    + rewrite HL. destruct (points st !! Label c) as [p|] eqn:Hp; [|done].
      cbn [p_Epoch exportPoint fmap option_fmap option_map].
      destruct (Z.eqb_spec (epoch p) (Epoch c)) as [E|]; [|done]. by destruct (Ho p Hp).
  - destruct (Hlive false) as (p & -> & E & ->); [done|by apply (oi_sync _ _ _ Hob)|].
    cbn [p_Epoch exportPoint]. by rewrite E, Z.eqb_refl.
  - rewrite bool_decide_eq_false_2; [done|]. intros Hin.
    apply HS in Hin as (_ & l & h & k & p & Hp & Hh & Hid). destruct Hob.
    destruct (obligation_id st (Sequence c) c l h k p) as (Hk' & _); try done; [lia|]. rewrite Hk in Hk'. by destruct k.
  - rewrite bool_decide_eq_false_2; [done|]. intros Hin.
    apply HS in Hin as (_ & l & h & k & p & Hp & Hh & Hid). destruct Hob.
    destruct (obligation_id st (Sequence c) c l h k p) as (Hk' & _); try done; [lia|]. rewrite Hk in Hk'. by destruct k.
  - by destruct (oi_kind _ _ _ Hob k).
Qed.

Lemma obligations_ok cs labels seqs obls : NoDup (map Sequence cs) ->
  (forall c, c ∈ cs -> obligations st !! Sequence c = Some c /\ obls !! Sequence c = None) ->
  (forall l, labels !! l = exportPoint l <$> points st !! l) ->
  (forall s, s ∈ seqs -> s <> 0 /\ exists l h k, has_id st l h k s) ->
  validateObligations image cs labels seqs obls = Ret (fold_insert Sequence id cs obls).
Proof.
  intros Hnd Hcs HL HS. revert obls Hcs. induction cs as [|c cs IH]; intros obls Hcs; [done|].
  inversion Hnd as [|? ? Hni Hnd']; subst. destruct (Hcs c (list_elem_of_here _ _)) as [Hc Hn].
  cbn [validateObligations]. rewrite obligation_ok by done. cbn [mbind outcome_bind].
  rewrite obligation_invocation_ok by done. cbn [mbind outcome_bind]. unfold fold_insert. cbn [fold_left].
  apply IH; [done|]. intros c' Hc'. destruct (Hcs c') as [H1 H2]; [by apply list_elem_of_further|]. split; [done|].
  rewrite lookup_insert_ne; [done|]. intros E. apply Hni. rewrite E. by apply (list_elem_of_fmap_2 Sequence).
Qed.

Lemma elem_obligations c : c ∈ Obligations image <-> obligations st !! Sequence c = Some c.
Proof.
  cbn [Obligations image exportFederation]. rewrite Hstrict, list_elem_of_omap. split.
  - intros (s & _ & Hs). pose proof (oi_seq _ _ _ (in_obl _ _ Hinv _ _ Hs)). by subst s.
  - intros Hc. exists (Sequence c). split; [|done]. unfold sortedCallbackSequences.
    rewrite merge_sort_Permutation, elem_of_elements, elem_of_dom. by rewrite Hc.
Qed.
Lemma NoDup_obligations : NoDup (map Sequence (Obligations image)).
Proof.
  cbn [Obligations image exportFederation]. rewrite Hstrict.
  assert (Hnd : NoDup (sortedCallbackSequences (obligations st))).
  { unfold sortedCallbackSequences. rewrite merge_sort_Permutation. apply NoDup_elements. }
  assert (Hgen : forall ss, NoDup ss -> NoDup (map Sequence (omap (fun s => obligations st !! s) ss)) /\
            forall s, s ∈ map Sequence (omap (fun s => obligations st !! s) ss) -> s ∈ ss); [|by apply Hgen].
  clear Hnd. induction 1 as [|s ss Hni _ [IH1 IH2]]; [split; [constructor|]; intros s Hs; by apply elem_of_nil in Hs|].
  simpl. destruct (obligations st !! s) as [c|] eqn:Hc.
  - pose proof (oi_seq _ _ _ (in_obl _ _ Hinv _ _ Hc)) as E. simpl. split.
    + constructor; [|done]. rewrite E. by intros Hin%IH2.
    + intros s'. rewrite elem_of_cons. intros [->|Hin]; [rewrite E; by apply list_elem_of_here|].
      by apply list_elem_of_further, IH2.
  - split; [done|]. intros s' Hin. by apply list_elem_of_further, IH2.
Qed.
Lemma rebuild_obligations : fold_insert Sequence id (Obligations image) ∅ = obligations st.
Proof.
  apply fold_insert_eq; [apply NoDup_obligations| |].
  - intros c Hc. by apply elem_obligations.
  - intros s [c Hc]. pose proof (oi_seq _ _ _ (in_obl _ _ Hinv _ _ Hc)) as E. rewrite <- E.
    apply (list_elem_of_fmap_2 Sequence), elem_obligations. by rewrite E.
Qed.

Lemma durable_ok : validateDurableInvocations image (obligations st) = Ret ().
Proof.
  unfold validateDurableInvocations.
  replace (forallb _ (Points image)) with true; [by rewrite andb_false_r|]. symmetry.
  apply forallb_forall. intros pt Hpt. apply forallb_forall. intros i Hi.
  apply list_elem_of_In in Hpt, Hi. cbn [Points image exportFederation] in Hpt. rewrite labelled_export in Hpt.
  apply list_elem_of_fmap in Hpt as ([l p] & -> & Hlp). apply elem_labelled in Hlp as [_ Hp].
  cbn [Invocations exportPoint fst snd] in Hi. apply list_elem_of_fmap in Hi as (h & -> & Hh).
  apply elem_sortedHandles in Hh.
  destruct (pi_handles _ _ _ _ (in_points _ _ Hinv l p Hp) h Hh) as [_ _ _ _ [Ha Hs]].
  assert (Hd : forall k s b, (b = false -> exists c, obligations st !! s = Some c /\ shape c k l h (epoch p)) ->
    durable (obligations st) (exportPoint l p) (with_Recipient (invOf p h) h) s k b = true).
  { intros k s b Hb. unfold durable. destruct b; [by rewrite orb_true_r|].
    destruct (Hb eq_refl) as (c & -> & S1 & S2 & S3 & S4). cbn [p_Epoch p_Label exportPoint i_Recipient with_Recipient].
    rewrite S1, S2, S3, S4, !Z.eqb_refl, !bool_decide_eq_true_2 by done. by rewrite orb_true_r. }
  apply andb_true_iff.
  cbn [Announce Synchronized AnnounceInvoked SynchronizedInvoked with_Recipient fst snd]. split.
  - apply Hd. intros E. destruct Ha as [_ Ha]. rewrite E in Ha. destruct Ha as (c & Hc & Hsh & _). by exists c.
  - case_decide as Hst.
    + apply Hd. intros E. destruct Hs as [_ Hs]. rewrite E in Hs. done.
    + unfold durable. destruct Hs as [-> _]. done.
Qed.

Lemma pending_ok cs labels (seen : gset Z) : NoDup (map Sequence cs) ->
  (forall c, c ∈ cs -> obligations st !! Sequence c = Some c /\ Sequence c ∉ seen) ->
  validatePendingCallbacks image cs labels (obligations st) seen = Ret ().
Proof.
  revert seen. induction cs as [|c cs IH]; intros seen Hnd Hcs; [done|].
  inversion Hnd as [|? ? Hni Hnd']; subst. destruct (Hcs c (list_elem_of_here _ _)) as [Hc Hn].
  destruct (in_obl _ _ Hinv _ _ Hc) as [_ H2 H3 H4 _ _ _ _ _]. cbn [validatePendingCallbacks].
  change (NextSequence image) with (nextSequence st). change (strictImage image) with (RequireInvocations opts).
  rewrite Hstrict. destruct (Z.eqb_spec (Sequence c) 0); [lia|].
  destruct (Z.ltb_spec (nextSequence st) (Sequence c)); [lia|]. rewrite bool_decide_eq_false_2 by done.
  destruct (Z.eqb_spec (Recipient c) 0); [done|]. cbn [orb].
  assert (noEvent c = false) as ->. { unfold noEvent, delivery. destruct (Kind c); try done. by destruct (H4 k). }
  rewrite Hc, bool_decide_eq_true_2 by done. cbn [negb]. apply IH; [done|].
  intros c' Hc'. destruct (Hcs c') as [H5 H6]; [by apply list_elem_of_further|]. split; [done|].
  rewrite not_elem_of_union, elem_of_singleton. split; [|done]. intros E. apply Hni. rewrite <- E.
  by apply (list_elem_of_fmap_2 Sequence).
Qed.

Lemma export_valid : ValidateState opts (Some image) = Ret ().
Proof.
  unfold ValidateState. destruct all_points_ok as (labels & seqs & E & HL & HS).
  change (Version image) with 3. rewrite Hreq. cbn [negb Z.eqb Pos.eqb andb orb]. rewrite andb_false_r.
  rewrite E. cbn [mbind outcome_bind fst snd].
  rewrite obligations_ok; [|apply NoDup_obligations| |done|done].
  - cbn [mbind outcome_bind]. rewrite rebuild_obligations, durable_ok. cbn [mbind outcome_bind].
    apply pending_ok; [apply (in_nodup _ _ Hinv)|]. intros c Hc. split; [by apply (in_pending _ _ Hinv)|].
    apply not_elem_of_empty.
  - intros c Hc. split; [by apply elem_obligations|apply lookup_empty].
Qed.

(** ** Import *)
Lemma importPoint_export l p h : h ∈ required p -> invOf (importPoint (exportPoint l p)) h = exportInv p h.
Proof.
  intros Hh. unfold invOf, importPoint. cbn [callbacks Invocations exportPoint].
  change (fun h => with_Recipient (invOf p h) h) with (exportInv p).
  change (fold_left _ _ _) with (fold_insert i_Recipient id (map (exportInv p) (sortedHandles (required p))) ∅).
  set (hs := sortedHandles (required p)).
  assert (fold_insert i_Recipient id (map (exportInv p) hs) ∅ !! h = Some (exportInv p h)) as ->; [|done].
  apply (fold_insert_in i_Recipient id _ _ (exportInv p h)).
  - rewrite map_map. cbn [i_Recipient exportInv with_Recipient]. rewrite map_id. apply NoDup_sortedHandles.
  - apply (list_elem_of_fmap_2 (exportInv p)). by apply elem_sortedHandles.
Qed.

(** A point survives up to the recipient field of its invocations. *)
Lemma exportPoint_import l l' p : exportPoint l' (importPoint (exportPoint l p)) = exportPoint l' p.
Proof.
  pose proof (importPoint_export l p) as Hinvs.
  set (p' := importPoint (exportPoint l p)) in *.
  assert (Hf : tag p' = tag p /\ state p' = state p /\ required p' = required p /\ achieved p' = achieved p /\
               failed p' = failed p /\ dynamic p' = dynamic p /\ allMembers p' = allMembers p /\ epoch p' = epoch p).
  { unfold p', importPoint, exportPoint. cbn. by rewrite !handleSet_sorted. }
  destruct Hf as (F1 & F2 & F3 & F4 & F5 & F6 & F7 & F8).
  unfold exportPoint. rewrite F1, F2, F3, F4, F5, F6, F7, F8. f_equal.
  apply map_ext_in. intros h Hh%list_elem_of_In%elem_sortedHandles. by rewrite Hinvs.
Qed.

Lemma import_points l :
  points (importFederation (Some image)) !! l = (fun p => importPoint (exportPoint l p)) <$> points st !! l.
Proof.
  assert (points (importFederation (Some image)) = fold_insert p_Label importPoint (Points image) ∅) as ->.
  { unfold importFederation. by destruct (strictImage image). }
  cbn [Points image exportFederation]. rewrite labelled_export.
  set (f := fun lp : string * syncPoint => exportPoint lp.1 lp.2).
  assert (Hk : map p_Label (map f (labelled (sortedLabels st))) = map fst (labelled (sortedLabels st))).
  { rewrite map_map. by apply map_ext. }
  destruct (points st !! l) as [p|] eqn:Hp; simpl.
  - apply (fold_insert_in p_Label importPoint _ _ (exportPoint l p)).
    + rewrite Hk. apply NoDup_labelled, NoDup_sortedLabels.
    + apply (list_elem_of_fmap_2 f (labelled (sortedLabels st)) (l, p)), elem_labelled. split; [|done].
      apply elem_sortedLabels. by rewrite Hp.
  - rewrite fold_insert_notin; [apply lookup_empty|]. rewrite Hk. intros Hin.
    apply list_elem_of_fmap in Hin as ([l' p] & -> & Hin). apply elem_labelled in Hin as [_ Hin]. simpl in Hp. congruence.
Qed.

Lemma import_rest : let st' := importFederation (Some image) in
  nextSequence st' = nextSequence st /\ nextEpoch st' = nextEpoch st /\
  obligations st' = obligations st /\ pending st' = Obligations image.
Proof.
  unfold importFederation. change (strictImage image) with (RequireInvocations opts). rewrite Hstrict.
  cbn [nextSequence nextEpoch obligations pending].
  change (fold_left _ (Obligations image) _) with (fold_insert Sequence id (Obligations image) ∅).
  rewrite rebuild_obligations. split; [done|]. split; [done|]. split; [done|].
  cbn [Obligations image exportFederation]. by rewrite Hstrict.
Qed.

(** Importing an export and exporting again gives the same image, with every
    obligation pending again. *)
Lemma export_import : exportFederation opts (importFederation (Some image)) =
  Build_ManagerState 3 true (nextSequence st) (nextEpoch st) (Points image) (Obligations image) (Obligations image).
Proof.
  destruct import_rest as (E1 & E2 & E3 & E4). pose proof import_points as E5.
  set (st' := importFederation (Some image)) in *. unfold exportFederation at 1. rewrite Hstrict, E1, E2, E3, E4. f_equal.
  - assert (sortedLabels st' = sortedLabels st) as ->.
    { unfold sortedLabels. do 2 f_equal. apply set_eq. intros l. rewrite !elem_of_dom, E5. by rewrite fmap_is_Some. }
    cbn [Points image exportFederation]. clear -E5. induction (sortedLabels st) as [|l ls IH]; [done|].
    simpl. rewrite E5. destruct (points st !! l) as [p|]; simpl; [f_equal; [apply exportPoint_import|]|]; exact IH.
  - cbn [Obligations image exportFederation]. by rewrite Hstrict.
Qed.
End Exported.
