(* ===== verification/SyncProps.v ===== *)
(** * What the synchronization-point service guarantees

    The strict profile as a transition system over [Manager]s ([step]), the
    invariant of its reachable states, and the service's promises: who is told
    of a completed point and when, that no callback is lost, that a snapshot
    of a reachable state passes validation and imports to the same points. *)
From stdpp Require Import gmap.
From Stdlib Require Import Strings.Byte.
From S2P Require Import Prelude GoBytes Sync SyncSnapshot SyncInvariant SyncExport.
Open Scope Z_scope.

(** ** The strict profile as a transition system *)
Inductive operation :=
| OpRegister (fed : FederationName) (label : string) (tg : list byte) (requested : list FederateHandle)
    (registrant : option FederateHandle)
| OpAchieve (fed : FederationName) (h : FederateHandle) (label : string) (successfully : bool)
| OpJoined (fed : FederationName) (h : FederateHandle)
| OpResigned (fed : FederationName) (h : FederateHandle)
| OpRetry (fed : FederationName)
| OpReceipt (fed : FederationName) (h : FederateHandle) (kind : SyncCallbackKind) (label : string)
    (sequence : Z) (entry : bool)
| OpReconcile (fed : FederationName) (captured : list RestoredCallback)
| OpDestroyed (fed : FederationName).

Definition run (opts : Options) (out : Outbox) (m : Manager) (op : operation) : reply :=
  match op with
  | OpRegister fed label tg requested registrant => register opts out m fed label tg requested registrant
  | OpAchieve fed h label ok => achieve opts out m fed h label ok
  | OpJoined fed h => FederateJoined opts out m fed h
  | OpResigned fed h => FederateResigned opts out m fed h
  | OpRetry fed => RetryPending opts out m fed
  | OpReceipt fed h kind label sequence entry => observeCallback opts m fed h kind label sequence entry
  | OpReconcile fed captured =>
      let (m', r) := ReconcileRestoredCallbacks m fed captured in Reply m' [] [] r
  | OpDestroyed fed => Reply (OnFederationDestroyed m fed) [] [] (Ret ())
  end.

(** Handle 0 is no federate's. *)
Definition op_ok (opts : Options) (op : operation) : Prop :=
  match op with
  | OpRegister fed _ _ requested registrant => registrant <> Some 0 /\ members_ok opts fed requested
  | OpJoined _ h => h <> 0
  | _ => True
  end.

(** One operation, whatever the outbox answers. *)
Inductive step (opts : Options) (m : Manager) : Manager -> Prop :=
| step_run out op : op_ok opts op -> step opts m (mgr (run opts out m op)).
Definition strict (opts : Options) : Prop := RequireInvocations opts = true /\ ReservableOutbox opts = true.
Inductive reachable (opts : Options) : Manager -> Prop :=
| reach_new : reachable opts ∅
| reach_step m m' : reachable opts m -> step opts m m' -> reachable opts m'.

Definition mgr_inv (m : Manager) : Prop := forall fed st, m !! fed = Some st -> inv allFull st.

Lemma stateOf_inv m fed : mgr_inv m -> inv allFull (stateOf m fed).
Proof. intros Hm. unfold stateOf. destruct (m !! fed) eqn:E; [by eapply Hm|apply inv_empty]. Qed.
Lemma publish_inv m fed st : mgr_inv m -> inv allFull st -> mgr_inv (publish m fed st).
Proof.
  intros Hm Hst fed' st' E. unfold publish in E. apply lookup_insert_Some in E as [[_ <-]|[_ E]]; [done|].
  by eapply Hm.
Qed.

Section Strict.
Context (opts : Options) (Hopts : strict opts) (out : Outbox).

Lemma admitted_strict st : admitted opts st = set_pending st [].
Proof. unfold admitted. by rewrite (proj1 Hopts). Qed.

Lemma transition_inv {A} m fed lifecycle (change : federationState -> outcome sync_error (federationState * A)) :
  mgr_inv m -> (forall st st' a, inv allFull st -> change st = Ret (st', a) -> inv allFull st') ->
  mgr_inv (mgr (fst (transition opts out m fed lifecycle change))).
Proof.
  intros Hm Hch. unfold transition. destruct (change (stateOf m fed)) as [[next a]|e|s] eqn:E; [|done|done].
  assert (Hn : inv allFull next) by (eapply Hch; [by apply stateOf_inv|exact E]).
  assert (Hd : inv allFull (set_pending next [])) by (apply set_pending_inv; [done|apply sublist_nil_l]).
  rewrite admitted_strict, (proj2 Hopts).
  destruct (map delivery (pending next)) as [|d ds]; [by apply publish_inv|].
  destruct (Reserve out (d :: ds)) as [| |[]]; simpl; try (destruct lifecycle; [|done]); apply publish_inv; try done.
  by destruct next.
Qed.

Lemma retryLoop_inv fuel m fed acc : mgr_inv m -> mgr_inv (mgr (retryLoop opts out fuel m fed acc)).
Proof.
  revert m acc. induction fuel as [|fuel IH]; intros m acc Hm; simpl.
  - by destruct (pending (stateOf m fed)).
  - destruct (pending (stateOf m fed)) as [|c rest] eqn:E; [done|].
    destruct (Reserve out [delivery c]) as [| |[]]; try done. apply IH, publish_inv; [done|].
    rewrite (proj1 Hopts). apply set_pending_inv; [by apply stateOf_inv|]. rewrite E. by apply sublist_cons.
Qed.

Lemma run_inv m op : mgr_inv m -> op_ok opts op -> mgr_inv (mgr (run opts out m op)).
Proof.
  intros Hm Hok. pose proof (proj1 Hopts) as Hs. destruct op; simpl in *.
  - unfold register. destruct Hok as [Hr Hms].
    pose proof (transition_inv m fed false (registerChange opts fed label tg requested registrant) Hm) as Ht.
    destruct (transition _ _ _ _ _ _) as [r [[]|]]; apply Ht; intros st st' a Hi E; by eapply registerChange_inv.
  - unfold achieve.
    pose proof (transition_inv m fed false (achieveChange opts h label successfully) Hm) as Ht.
    destruct (transition _ _ _ _ _ _) as [r [b|]]; apply Ht; intros st st' a Hi E; by eapply achieveChange_inv.
  - apply transition_inv; [done|]. intros st st' a Hi E. apply bind_Ret_inv in E as (st1 & E1 & E).
    injection E as <- _. by eapply joinPoints_inv.
  - apply transition_inv; [done|]. intros st st' a Hi E. apply bind_Ret_inv in E as (st1 & E1 & E).
    injection E as <- _. destruct (dropCallbacks_inv st h Hi) as [Hd Hno].
    eapply resignPoints_inv; [done|apply NoDup_sortedLabels|exact Hd|exact Hno|exact E1].
  - unfold RetryPending. case_match; [by apply retryLoop_inv|done].
  - unfold observeCallback. case_match; [done|].
    destruct (observeChange _ _ _ _ _ _ _) as [[st|]| |] eqn:E; try done. apply publish_inv; [done|].
    eapply observeChange_inv; [done|by apply (stateOf_inv m fed)|exact E].
  - destruct (ReconcileRestoredCallbacks m fed captured) as [m' r] eqn:E. simpl.
    unfold ReconcileRestoredCallbacks in E. destruct captured; [by injection E as <- _|].
    destruct (validateRestoredCallbacks _ _ _); injection E as <- _; try done.
    apply publish_inv; [done|]. apply set_pending_inv; [by apply stateOf_inv|apply sublist_filter].
  - intros fed' st E. unfold OnFederationDestroyed in E. apply lookup_delete_Some in E as [_ E]. by eapply Hm.
Qed.
End Strict.

Lemma reachable_inv opts m : strict opts -> reachable opts m -> mgr_inv m.
Proof.
  intros Ho. induction 1 as [|m m' _ IH Hst].
  - intros fed st E. by apply lookup_empty_Some in E.
  - destruct Hst as [out op Hok]. by apply run_inv.
Qed.

(** ** Successful transitions *)

(** The outbox admits everything. *)
Definition admits_all (out : Outbox) : Prop := forall ds, Reserve out ds = Reserved true.

Definition with_Sequence (c : CallbackState) (s : Z) : CallbackState :=
  Build_CallbackState (Kind c) (Label c) (Recipient c) s (Epoch c) (Entered c) (Tag c) (Required c) (Failed c) (Reason c).
(** The events of the callbacks [l], numbered consecutively from [n]. *)
Fixpoint numbered (n : Z) (l : list CallbackState) : list OutboxDelivery :=
  match l with
  | [] => []
  | c :: l => delivery (with_Sequence c n) :: numbered (n + 1) l
  end.

Lemma enqueue_ok st c : nextSequence st < MaxUint64 -> exists st', enqueue st c = Ret st' /\
  nextSequence st' = nextSequence st + 1 /\ map delivery (pending st') =
    map delivery (pending st) ++ [delivery (with_Sequence c (nextSequence st + 1))].
Proof.
  intros Hn. unfold enqueue. destruct (Z.eqb_spec (nextSequence st) MaxUint64); [lia|].
  eexists. split; [done|]. split; [done|]. cbn [pending]. by rewrite map_app.
Qed.
Lemma enqueueAll_ok l st : nextSequence st + zlen l <= MaxUint64 -> exists st', enqueueAll st l = Ret st' /\
  nextSequence st' = nextSequence st + zlen l /\
  map delivery (pending st') = map delivery (pending st) ++ numbered (nextSequence st + 1) l.
Proof.
  revert st. induction l as [|c l IH]; intros st Hn; cbn [enqueueAll numbered].
  { exists st. split; [done|]. rewrite app_nil_r. split; [unfold zlen; simpl; lia|done]. }
  assert (Hz : zlen (c :: l) = 1 + zlen l) by (unfold zlen; simpl length; lia). pose proof (zlen_nonneg l).
  destruct (enqueue_ok st c) as (st1 & -> & Hn1 & Hp1); [lia|]. cbn [mbind outcome_bind].
  destruct (IH st1) as (st2 & -> & Hn2 & Hp2); [lia|]. exists st2. split; [done|]. split; [lia|].
  by rewrite Hp2, Hp1, <- app_assoc, Hn1.
Qed.
(** Enqueueing leaves the points alone but for their invocations. *)
Lemma enqueue_point st c st' l p : enqueue st c = Ret st' -> points st !! l = Some p ->
  exists p', points st' !! l = Some p' /\ same_point p p'.
Proof.
  unfold enqueue. destruct (nextSequence st =? MaxUint64); [done|]. intros [= <-] Hp. cbn [points].
  destruct (points st !! Label c) as [q|] eqn:Hq; [|exists p; split; [done|apply same_point_refl]].
  destruct (decide (Label c = l)) as [El|Hl].
  - rewrite El in *. rewrite Hp in Hq. injection Hq as <-.
    destruct (Kind c); rewrite ?lookup_insert_eq; eexists; (split; [done|]); try apply same_point_refl; done.
  - exists p. destruct (Kind c); rewrite ?lookup_insert_ne by done; (split; [done|apply same_point_refl]).
Qed.
Lemma enqueueAll_point cs st st' l p : enqueueAll st cs = Ret st' -> points st !! l = Some p ->
  exists p', points st' !! l = Some p' /\ same_point p p'.
Proof.
  revert st p. induction cs as [|c cs IH]; intros st p; simpl.
  { intros [= <-] Hp. exists p. split; [done|apply same_point_refl]. }
  intros E Hp. apply bind_Ret_inv in E as (st1 & E1 & E).
  destruct (enqueue_point _ _ _ _ _ E1 Hp) as (p1 & Hp1 & H1).
  destruct (IH _ _ E Hp1) as (p2 & Hp2 & H2). exists p2. split; [done|]. by eapply same_point_trans.
Qed.

Lemma transition_commits {A} opts out m fed lifecycle change next (a : A) : strict opts -> admits_all out ->
  change (stateOf m fed) = Ret (next, a) ->
  transition opts out m fed lifecycle change =
    (Reply (publish m fed (set_pending next [])) (map delivery (pending next)) [] (Ret ()), Some a).
Proof.
  intros [Hr Ho] Hall E. unfold transition, admitted. rewrite E, Hr, Ho.
  destruct (map delivery (pending next)) as [|d ds]; [done|]. by rewrite Hall.
Qed.
Lemma lookup_publish m fed st : publish m fed st !! fed = Some st.
Proof. apply lookup_insert_eq. Qed.
Lemma stateOf_publish m fed st : stateOf (publish m fed st) fed = st.
Proof. unfold stateOf. by rewrite lookup_publish. Qed.
Lemma QueryState_publish m fed st l :
  QueryState (publish m fed st) fed l = match points st !! l with Some p => state p | None => StateUnknown end.
Proof. unfold QueryState. by rewrite lookup_publish. Qed.

(** ** Achievement *)
Section Achieve.
Context (opts : Options) (out : Outbox) (m : Manager) (fed : FederationName) (l : string) (p : syncPoint).
Context (Hopts : strict opts) (Hm : mgr_inv m).
Let st := stateOf m fed.
Context (Hp : points st !! l = Some p).

Definition failedAfter (h : Z) (ok : bool) : handles := if ok then failed p else {[h]} ∪ failed p.
(** The federation-synchronized callbacks of the point, in handle order. *)
Definition synchronizedAll (fl : handles) : list CallbackState :=
  map (fun g => synchronizedCallback l g (sortedHandles fl)) (sortedHandles (required p)).

Lemma achieve_point : point_inv allFull st l p.
Proof. apply (in_points _ _ (stateOf_inv m fed Hm) l p Hp). Qed.

Lemma achieveChange_refused h ok : h ∉ required p \/ AnnounceEntered (invOf p h) = false ->
  achieveChange opts h l ok st = Fail ErrSyncPointNotRegistered.
Proof.
  intros Hor. unfold achieveChange. rewrite Hp, (pi_dynamic _ _ _ _ achieve_point).
  case_bool_decide as Hin; simpl; [|done]. destruct Hor as [?|E]; [done|]. by rewrite (proj1 Hopts), E.
Qed.
Lemma achieveChange_twice h ok : h ∈ achieved p ->
  achieveChange opts h l ok st = Fail ErrSyncPointAlreadyAchieved.
Proof.
  intros Hin. destruct achieve_point as [_ _ Ha _ _ Hd _ _ Hh]. pose proof (Ha h Hin) as Hr.
  pose proof (hi_achieved _ _ _ _ _ (Hh h Hr) Hin) as He.
  unfold achieveChange. rewrite Hp, Hd, !bool_decide_eq_true_2, He by done. rewrite andb_false_r. simpl.
  assert (announcementPending opts st p l h = false) as ->; [|done].
  apply existsb_false. intros c _. rewrite He, (proj1 Hopts). by rewrite andb_false_r.
Qed.
Lemma achieveChange_ok h ok : h ∈ required p -> AnnounceEntered (invOf p h) = true -> h ∉ achieved p ->
  nextSequence st + zlen (sortedHandles (required p)) <= MaxUint64 ->
  let done_ := bool_decide (required p ⊆ {[h]} ∪ achieved p) in
  exists st', achieveChange opts h l ok st = Ret (st', done_) /\
    map delivery (pending st') = map delivery (pending st) ++
      (if done_ then numbered (nextSequence st + 1) (synchronizedAll (failedAfter h ok)) else []) /\
    exists p', points st' !! l = Some p' /\ required p' = required p /\ achieved p' = {[h]} ∪ achieved p /\
      failed p' = failedAfter h ok /\ state p' = if done_ then StateAchieved else StateAnnounced.
Proof.
  intros Hr He Ha Hn done_. destruct achieve_point as [Hst _ _ _ Hdone Hd _ _ _].
  assert (Hann : state p = StateAnnounced) by (destruct Hst as [?|E]; [done|]; by destruct Ha; apply Hdone).
  unfold achieveChange. rewrite Hp, Hd, bool_decide_eq_true_2, He, andb_false_r by done. simpl negb. cbv iota.
  assert (announcementPending opts st p l h = false) as ->.
  { apply existsb_false. intros c _. rewrite He, (proj1 Hopts). by rewrite andb_false_r. }
  rewrite bool_decide_eq_false_2 by done.
  set (q := if ok then _ else _).
  assert (Hq : required q = required p /\ achieved q = {[h]} ∪ achieved p /\ failed q = failedAfter h ok /\
               state q = StateAnnounced) by (subst q; by destruct ok).
  destruct Hq as (Q1 & Q2 & Q3 & Q4). unfold complete. simpl. rewrite lookup_insert_eq, Q4, Q1, Q2.
  rewrite bool_decide_eq_false_2 by done. cbv iota. fold done_. destruct done_ eqn:Ed; simpl.
  - rewrite Q3. fold (synchronizedAll (failedAfter h ok)).
    set (st1 := set_point _ l (set_state q StateAchieved)).
    destruct (enqueueAll_ok (synchronizedAll (failedAfter h ok)) st1) as (st2 & E2 & Hn2 & Hp2).
    { unfold synchronizedAll, zlen in *. by rewrite length_map. }
    assert (Hq1 : points st1 !! l = Some (set_state q StateAchieved)) by apply lookup_insert_eq.
    destruct (enqueueAll_point _ _ _ _ _ E2 Hq1) as (p2 & Hp2' & Hs2).
    destruct (same_point_fields _ _ Hs2) as (F1 & F2 & F3 & F4 & _). simpl in F1, F2, F3, F4.
    rewrite E2. cbn [mbind outcome_bind]. rewrite (bool_decide_eq_false_2 (required p = ∅)) by (clear -Hr; set_solver).
    rewrite andb_false_r. cbn [mbind outcome_bind]. rewrite Hp2', F4.
    exists st2. split; [done|]. split; [exact Hp2|]. exists p2. by rewrite F1, F2, F3, F4.
  - rewrite lookup_insert_eq, Q4. eexists. split; [done|]. simpl. split; [by rewrite app_nil_r|].
    exists q. by rewrite lookup_insert_eq.
Qed.
End Achieve.

(** ** Resignation *)
Lemma enqueue_other c st st' l : enqueue st c = Ret st' -> l <> Label c -> points st' !! l = points st !! l.
Proof.
  unfold enqueue. destruct (nextSequence st =? MaxUint64); [done|]. intros [= <-] Hl. cbn [points].
  destruct (points st !! Label c); [|done]. by destruct (Kind c); rewrite ?lookup_insert_ne by done.
Qed.
Lemma enqueueAll_other cs st st' l : enqueueAll st cs = Ret st' -> (forall c, c ∈ cs -> l <> Label c) ->
  points st' !! l = points st !! l.
Proof.
  revert st. induction cs as [|c cs IH]; intros st; simpl; [by intros [= <-]|].
  intros E Hl. apply bind_Ret_inv in E as (st1 & E1 & E). rewrite (IH st1 E).
  - apply (enqueue_other c); [done|]. apply Hl, list_elem_of_here.
  - intros c' Hc'. apply Hl. by apply list_elem_of_further.
Qed.

Lemma complete_other opts st l st' l' : complete opts st l = Ret st' -> l' <> l ->
  points st' !! l' = points st !! l'.
Proof.
  intros E Hl. unfold complete in E. destruct (points st !! l) as [p|]; [|by injection E as <-].
  case_bool_decide; [by injection E as <-|]. case_bool_decide; [|by injection E as <-]. simpl in E.
  apply bind_Ret_inv in E as (st1 & E1 & E).
  assert (E2 : points st1 !! l' = points st !! l').
  { rewrite (enqueueAll_other _ _ _ l' E1); [simpl; by rewrite lookup_insert_ne|].
    intros c Hc. apply list_elem_of_fmap in Hc as (g & -> & _). done. }
  destruct (_ && _); injection E as <-; [|done]. simpl. by rewrite lookup_delete_ne.
Qed.
(** After [complete] the point is complete, gone or still awaiting someone. *)
Definition settled (p : syncPoint) : Prop := state p = StateAchieved \/ ~ required p ⊆ achieved p.
Lemma complete_settled opts st l p st' p' : complete opts st l = Ret st' -> points st !! l = Some p ->
  points st' !! l = Some p' -> required p' = required p /\ achieved p' = achieved p /\ settled p'.
Proof.
  intros E Hp Hp'. unfold complete in E. rewrite Hp in E.
  case_bool_decide as Hs; [injection E as <-; rewrite Hp in Hp'; injection Hp' as <-; by repeat split; left|].
  case_bool_decide as Ha; [|injection E as <-; rewrite Hp in Hp'; injection Hp' as <-; by repeat split; right].
  simpl in E. apply bind_Ret_inv in E as (st1 & E1 & E).
  destruct (enqueueAll_point _ _ _ l (set_state p StateAchieved) E1) as (p1 & Hp1 & Hsp); [by apply lookup_insert_eq|].
  destruct (same_point_fields _ _ Hsp) as (F1 & F2 & _ & F4 & _).
  destruct (_ && _); injection E as <-; [simpl in Hp'; by rewrite lookup_delete_eq in Hp'|].
  rewrite Hp1 in Hp'. injection Hp' as <-. split; [done|]. split; [done|]. by left.
Qed.
Lemma retire_point opts st l l' p' : points (retire opts st l) !! l' = Some p' -> points st !! l' = Some p'.
Proof.
  unfold retire. intros E. repeat case_match; try done. simpl in E. by apply lookup_delete_Some in E as [_ E].
Qed.
Lemma retire_other opts st l l' : l' <> l -> points (retire opts st l) !! l' = points st !! l'.
Proof. intros Hl. unfold retire. repeat case_match; try done. simpl. by rewrite lookup_delete_ne. Qed.

Lemma resignPoints_other opts h ls st st' l : resignPoints opts h ls st = Ret st' -> l ∉ ls ->
  points st' !! l = points st !! l.
Proof.
  revert st. induction ls as [|l0 ls IH]; intros st; cbn [resignPoints]; [by intros [= <-]|].
  rewrite not_elem_of_cons. intros E [Hl Hls]. destruct (points st !! l0) as [p|]; [|by apply IH].
  apply bind_Ret_inv in E as (st1 & E1 & E). rewrite (IH _ E Hls), retire_other by done.
  rewrite (complete_other _ _ _ _ _ E1) by done. simpl. by rewrite lookup_insert_ne.
Qed.
Lemma resignPoints_points opts h ls st st' l p' : NoDup ls -> resignPoints opts h ls st = Ret st' -> l ∈ ls ->
  points st' !! l = Some p' -> exists p, points st !! l = Some p /\ required p' = required p ∖ {[h]} /\
    achieved p' = achieved p ∖ {[h]} /\ settled p'.
Proof.
  intros Hnd. revert st. induction Hnd as [|l0 ls Hni Hnd IH]; intros st; cbn [resignPoints].
  { intros _ Hl. by apply elem_of_nil in Hl. }
  intros E Hl Hp'. apply elem_of_cons in Hl as [->|Hl].
  - destruct (points st !! l0) as [p|] eqn:Hp; [|rewrite (resignPoints_other _ _ _ _ _ _ E Hni) in Hp'; congruence].
    apply bind_Ret_inv in E as (st1 & E1 & E). rewrite (resignPoints_other _ _ _ _ _ _ E Hni) in Hp'.
    apply retire_point in Hp'. exists p. split; [done|].
    by apply (complete_settled _ _ _ (dropMember p h) _ _ E1); [apply lookup_insert_eq|].
  - assert (Hne : l <> l0) by congruence.
    destruct (points st !! l0) as [p|] eqn:Hp; [|by apply IH].
    apply bind_Ret_inv in E as (st1 & E1 & E). destruct (IH _ E Hl Hp') as (q & Hq & Hrest). exists q.
    split; [|done]. rewrite retire_other in Hq by done. rewrite (complete_other _ _ _ _ _ E1) in Hq by done.
    simpl in Hq. by rewrite lookup_insert_ne in Hq.
Qed.
Lemma resignPoints_no_obligation opts h ls st st' : resignPoints opts h ls st = Ret st' ->
  no_obligation st h -> no_obligation st' h.
Proof.
  revert st. induction ls as [|l ls IH]; intros st; cbn [resignPoints]; [by intros [= <-]|].
  destruct (points st !! l) as [p|]; [|by apply IH]. intros E Hno.
  apply bind_Ret_inv in E as (st1 & E1 & E). apply (IH _ E), retire_no_obligation.
  eapply (complete_no_obligation opts _ l st1 h (dropMember p h)); [exact E1|apply lookup_insert_eq| |exact Hno].
  simpl. clear. set_solver.
Qed.

(** The only way these loops fail is running out of sequence numbers. *)
Definition exhausted : sync_error := sync_errorf "sync: callback sequence exhausted".
Lemma enqueueAll_total cs st : (exists st', enqueueAll st cs = Ret st') \/ enqueueAll st cs = Fail exhausted.
Proof.
  revert st. induction cs as [|c cs IH]; intros st; simpl; [left; by eexists|].
  unfold enqueue. destruct (nextSequence st =? MaxUint64); [by right|]. apply IH.
Qed.
Lemma complete_total opts st l : (exists st', complete opts st l = Ret st') \/ complete opts st l = Fail exhausted.
Proof.
  unfold complete. destruct (points st !! l) as [p|]; [|left; by eexists].
  case_bool_decide; [left; by eexists|]. destruct (negb _); [left; by eexists|].
  destruct (enqueueAll_total (map (fun h => synchronizedCallback l h (sortedHandles (failed p))) (sortedHandles (required p)))
    (set_point st l (set_state p StateAchieved))) as [[st' ->]| ->]; [|by right].
  cbn [mbind outcome_bind]. left. destruct (_ && _); by eexists.
Qed.
Lemma resignPoints_total opts h ls st :
  (exists st', resignPoints opts h ls st = Ret st') \/ resignPoints opts h ls st = Fail exhausted.
Proof.
  revert st. induction ls as [|l ls IH]; intros st; cbn [resignPoints]; [left; by eexists|].
  destruct (points st !! l) as [p|]; [|apply IH].
  destruct (complete_total opts (set_point st l (dropMember p h)) l) as [[st' ->]| ->]; [apply IH|by right].
Qed.

(** ** Retry *)
Lemma retryLoop_prefix opts out fuel m fed acc : (length (pending (stateOf m fed)) <= fuel)%nat ->
  let r := retryLoop opts out fuel m fed acc in
  exists l1 l2, pending (stateOf m fed) = l1 ++ l2 /\ sent r = acc ++ map delivery l1 /\
    pending (stateOf (mgr r) fed) = l2 /\ points (stateOf (mgr r) fed) = points (stateOf m fed) /\
    match l2 with
    | [] => ret r = Ret ()
    | c :: _ => Reserve out [delivery c] <> Reserved true /\ exists e, ret r = Fail e
    end.
Proof.
  revert m acc. induction fuel as [|fuel IH]; intros m acc Hlen; cbn [retryLoop].
  { destruct (pending (stateOf m fed)) eqn:E; [|simpl in Hlen; lia]. exists [], []. simpl. by rewrite app_nil_r, E. }
  destruct (pending (stateOf m fed)) as [|c rest] eqn:E; [exists [], []; simpl; by rewrite app_nil_r, E|].
  assert (Hstop : forall e, let r := Reply m acc [] (Fail e) in
    Reserve out [delivery c] <> Reserved true -> exists l1 l2, c :: rest = l1 ++ l2 /\ sent r = acc ++ map delivery l1 /\
    pending (stateOf (mgr r) fed) = l2 /\ points (stateOf (mgr r) fed) = points (stateOf m fed) /\
    match l2 with [] => ret r = Ret () | c :: _ => Reserve out [delivery c] <> Reserved true /\ exists e, ret r = Fail e end).
  { intros e r Hne. exists [], (c :: rest). simpl. rewrite app_nil_r, E. split; [done|]. split; [done|].
    split; [done|]. split; [done|]. split; [done|]. by eexists. }
  destruct (Reserve out [delivery c]) as [| |[]] eqn:Er; [by apply Hstop|by apply Hstop| |by apply Hstop].
  set (next := if RequireInvocations opts then _ else _).
  assert (Hnext : points next = points (stateOf m fed)) by (subst next; by destruct (RequireInvocations opts)).
  destruct (IH (publish m fed (set_pending next rest)) (acc ++ [delivery c])) as (l1 & l2 & H1 & H2 & H3 & H4 & H5).
  { rewrite stateOf_publish. simpl in *. lia. }
  rewrite stateOf_publish in H1, H4. simpl in H1, H4. exists (c :: l1), l2.
  split; [by rewrite H1|]. split; [rewrite H2; by rewrite <- app_assoc|]. split; [done|]. split; [congruence|done].
Qed.

(** ** Receipts *)
Lemma retire_obligations opts st l : obligations (retire opts st l) = obligations st.
Proof. unfold retire. by repeat case_match. Qed.
Lemma observeChange_clears opts h kind l s st st' :
  observeChange opts h kind l s false st = Ret (Some st') -> obligations st' = delete s (obligations st).
Proof.
  unfold observeChange. destruct (obligations st !! s) as [c|]; [|done].
  destruct (negb _); [done|]. destruct (callbackPending _ _); [done|]. destruct (_ && _); [done|].
  simpl. destruct (points st !! l) as [p|]; [|by intros [= <-]]. destruct (negb _); [by intros [= <-]|].
  unfold observePointCallback. destruct kind; try done; [| |by intros [= <-]|by intros [= <-]].
  - destruct (negb _); [done|]. intros [= <-]. by rewrite retire_obligations.
  - destruct (_ || _); [done|]. intros [= <-]. by rewrite retire_obligations.
Qed.

Lemma observeChange_refused opts st s c : callbackPending (pending st) s = true \/ Entered c = false ->
  obligations st !! s = Some c -> RequireInvocations opts = true ->
  exists e, observeChange opts (Recipient c) (observedKind (Kind c)) (Label c) s false st = Fail e.
Proof.
  intros Hor Hc Hr. unfold observeChange. rewrite Hc, Z.eqb_refl, !bool_decide_eq_true_2 by done. simpl.
  destruct (callbackPending (pending st) s); [by eexists|]. destruct Hor as [?|E]; [done|].
  rewrite Hr, E. by eexists.
Qed.

(** A report that passes the guards always applies: the point still knows the callback. *)
Lemma observeChange_applies opts st s c : inv allFull st -> obligations st !! s = Some c ->
  callbackPending (pending st) s = false -> Entered c = true ->
  exists st', observeChange opts (Recipient c) (observedKind (Kind c)) (Label c) s false st = Ret (Some st').
Proof.
  intros Hi Hc Hp He. pose proof (in_obl _ _ Hi s c Hc) as [Hs _ _ Hk _ _ _ Ha Hy].
  unfold observeChange. rewrite Hc, Z.eqb_refl, !bool_decide_eq_true_2, Hp, He by done. rewrite andb_false_r. simpl.
  destruct (points st !! Label c) as [p|] eqn:Hpt; [|by eexists].
  destruct (Z.eqb_spec (epoch p) (Epoch c)) as [Ee|]; [|by eexists]. simpl.
  unfold observePointCallback. destruct (Kind c) eqn:Hkc; simpl; [| |by eexists|by eexists|by destruct (Hk k)].
  - destruct (Ha eq_refl) as [(q & Hq & _ & _ & Hid)|[Ho _]]; [|by destruct (Ho p Hpt)].
    rewrite Hpt in Hq. injection Hq as <-. simpl in Hid. rewrite Hid, Hs, Z.eqb_refl. by eexists.
  - destruct (Hy eq_refl) as (q & Hq & _ & Hr & Hid). rewrite Hpt in Hq. injection Hq as <-. simpl in Hid.
    rewrite Hid, Hs, Z.eqb_refl. simpl.
    destruct (in_points _ _ Hi _ p Hpt) as [_ _ _ _ _ _ _ _ Hh]. destruct (Hh _ Hr) as [_ _ _ _ [_ Hsy]].
    case_decide as Hst; [rewrite bool_decide_eq_true_2 by done; by eexists|]. destruct Hsy as [Hz _].
    destruct (in_obl _ _ Hi s c Hc). lia.
Qed.
