(* ===== verification/SyncTheorems.v ===== *)
(** * Theorems of the synchronization-point service

    Completion ([achieve_completes], [synchronization_safe]), registration,
    resignation, durability of callbacks, all-or-nothing delivery, retry,
    receipts, and snapshots of the states the strict profile can reach, with a
    two-federate scenario at which each theorem is applied. *)
From stdpp Require Import gmap.
From Stdlib Require Import Strings.Byte.
From S2P Require Import Prelude GoBytes Sync SyncSnapshot SyncInvariant SyncExport SyncProps.
Open Scope Z_scope.

(** ** A scenario: federates 1 and 2 of the federation "f" meet at "L" *)
Definition sc_opts : Options := Build_Options true true (Some (fun _ => [1; 2])) true.
Definition sc_out : Outbox := Build_Outbox (fun _ => Reserved true) (fun _ => true).
Definition sc_full : Outbox := Build_Outbox (fun _ => ReserveError) (fun _ => true).
Definition sc_new : Manager := ∅.
Definition sc_registered : Manager := mgr (run sc_opts sc_out sc_new (OpRegister "f" "L" [] [] (Some 1))).
Definition sc_entered : Manager :=
  mgr (run sc_opts sc_out
         (mgr (run sc_opts sc_out sc_registered (OpReceipt "f" 1 SyncCallbackAnnounced "L" 2 true)))
         (OpReceipt "f" 2 SyncCallbackAnnounced "L" 3 true)).
Definition sc_half : Manager := mgr (run sc_opts sc_out sc_entered (OpAchieve "f" 1 "L" false)).
Definition sc_done : Manager := mgr (run sc_opts sc_out sc_half (OpAchieve "f" 2 "L" true)).
(** Federate 3 joins while the outbox is full: its announcement stays pending. *)
Definition sc_waiting : Manager := mgr (run sc_opts sc_full sc_half (OpJoined "f" 3)).

Lemma sc_strict : strict sc_opts.
Proof. done. Qed.
Lemma sc_registered_reachable : reachable sc_opts sc_registered.
Proof.
  eapply reach_step; [apply reach_new|apply step_run]. split; [done|]. split; [apply not_elem_of_nil|].
  eexists. split; [done|]. set_solver.
Qed.
Lemma sc_entered_reachable : reachable sc_opts sc_entered.
Proof. do 2 (eapply reach_step; [|by apply step_run]). apply sc_registered_reachable. Qed.
Lemma sc_half_reachable : reachable sc_opts sc_half.
Proof. eapply reach_step; [apply sc_entered_reachable|by apply step_run]. Qed.
Lemma sc_done_reachable : reachable sc_opts sc_done.
Proof. eapply reach_step; [apply sc_half_reachable|by apply step_run]. Qed.
Lemma sc_waiting_reachable : reachable sc_opts sc_waiting.
Proof. eapply reach_step; [apply sc_half_reachable|by apply step_run]. Qed.

Definition sc_point (m : Manager) : syncPoint := default (newPoint sc_opts [] [] false 0) (points (stateOf m "f") !! "L").

(** ** Snapshots *)

(** C1: in the strict profile every state the manager can reach, whatever operations were run
    and however the outbox answered them, exports to a snapshot that [ValidateState] accepts:
    identities are unique and allocated, every unfinished invocation has its durable obligation,
    every pending callback is one. *)
Theorem reachable_snapshot_valid opts m fed : strict opts -> reachable opts m ->
  ValidateState opts (ExportState opts m fed) = Ret ().
Proof.
  intros Ho Hr. unfold ExportState. destruct (m !! fed) as [st|] eqn:E; [|done].
  apply export_valid; [apply Ho|]. by apply (reachable_inv opts m Ho Hr fed).
Qed.
Lemma reachable_snapshot_valid_witness : ValidateState sc_opts (ExportState sc_opts sc_waiting "f") = Ret ().
Proof. apply reachable_snapshot_valid; [apply sc_strict|apply sc_waiting_reachable]. Defined.

(** Importing the snapshot of a reachable state succeeds in any manager, loses nothing and
    redelivers everything unacknowledged: the imported federation exports to the same image, except
    that every durable obligation is pending again (the pending callbacks of the image are among
    them), and every label has the state it had. *)
Theorem snapshot_round_trip opts m m0 fed image : strict opts -> reachable opts m ->
  ExportState opts m fed = Some image ->
  let m' := ImportState opts m0 fed (Some image) in
  ExportState opts m' fed =
    Some (Build_ManagerState (Version image) (s_RequireInvocations image) (NextSequence image) (NextEpoch image)
            (Points image) (Obligations image) (Obligations image)) /\
  (forall c, c ∈ Pending image -> c ∈ Obligations image) /\
  (forall l, QueryState m' fed l = QueryState m fed l) /\
  (forall fed', fed' <> fed -> m' !! fed' = m0 !! fed').
Proof.
  intros Ho Hr E. unfold ExportState in E. destruct (m !! fed) as [st|] eqn:Hst; [|done]. injection E as <-.
  pose proof (reachable_inv opts m Ho Hr fed st Hst) as Hi. destruct Ho as [Hq _].
  assert (Himp : ImportState opts m0 fed (Some (exportFederation opts st)) =
            publish m0 fed (importFederation (Some (exportFederation opts st)))).
  { unfold ImportState, PrepareImport. by rewrite (export_valid opts Hq st Hi). }
  cbv zeta. rewrite Himp. split; [|split; [|split]].
  - unfold ExportState. rewrite lookup_publish. cbn [fmap option_fmap option_map]. f_equal. rewrite (export_import opts Hq st Hi).
    simpl. by rewrite Hq.
  - intros c Hc. apply (elem_obligations opts Hq st Hi). by apply (in_pending _ _ Hi).
  - intros l. rewrite QueryState_publish, (import_points opts st). unfold QueryState. rewrite Hst.
    by destruct (points st !! l).
  - intros fed' Hf. unfold publish. by apply lookup_insert_ne.
Qed.
Lemma snapshot_round_trip_witness : exists image, ExportState sc_opts sc_done "f" = Some image /\
  length (Obligations image) = 5%nat /\ length (Points image) = 1%nat /\
  QueryState (ImportState sc_opts sc_new "f" (Some image)) "f" "L" = StateAchieved.
Proof.
  eexists. split; [vm_compute; reflexivity|]. split; [reflexivity|]. split; [reflexivity|].
  rewrite (proj1 (proj2 (proj2 (snapshot_round_trip sc_opts sc_done sc_new "f" _ sc_strict sc_done_reachable
    ltac:(vm_compute; reflexivity))))). vm_compute. reflexivity.
Defined.

(** ** Completion *)

(** C2: no federate is told that the federation is synchronized too early: as long as a
    federation-synchronized callback is owed in a reachable state, its label is a registered point of
    the same epoch, complete, the recipient is one of its members, every member has achieved it, and
    every member has entered its announcement. *)
Theorem synchronization_safe opts m fed st c : strict opts -> reachable opts m -> m !! fed = Some st ->
  obligations st !! Sequence c = Some c -> Kind c = callbackSynchronized ->
  exists p, points st !! Label c = Some p /\ epoch p = Epoch c /\ state p = StateAchieved /\
    Recipient c ∈ required p /\ achieved p = required p /\
    (forall h, h ∈ required p -> AnnounceEntered (invOf p h) = true).
Proof.
  intros Ho Hr Hst Hc Hk. pose proof (reachable_inv opts m Ho Hr fed st Hst) as Hi.
  pose proof (in_obl _ _ Hi _ _ Hc) as Hob. destruct (oi_sync _ _ _ Hob Hk) as (p & Hp & He & Hin & Hid).
  destruct (in_points _ _ Hi _ p Hp) as [_ _ Ha _ Hd _ _ _ Hh].
  destruct (Hh _ Hin) as [_ _ _ _ [_ Hs]]. simpl in Hid.
  case_decide as Hst'; [|destruct Hs; destruct Hob; lia]. specialize (Hd Hst').
  exists p. split; [done|]. split; [done|]. split; [done|]. split; [done|]. split.
  - apply set_eq. intros h. split; [apply Ha|apply Hd].
  - intros h Hreq. by apply (hi_achieved _ _ _ _ _ (Hh h Hreq)), Hd.
Qed.
Lemma synchronization_safe_witness : exists p, points (stateOf sc_done "f") !! "L" = Some p /\ achieved p = required p.
Proof.
  destruct (synchronization_safe sc_opts sc_done "f" (stateOf sc_done "f")
    (default (synchronizedCallback EmptyString 0 []) (obligations (stateOf sc_done "f") !! 5)) sc_strict sc_done_reachable)
    as (p & Hp & _ & _ & _ & Ha & _); [vm_compute; reflexivity..|].
  exists p. split; [exact Hp|exact Ha].
Defined.

(** The last member's achievement completes the point, and only the last one's.  In a reachable
    state, a member that has entered its announcement and not yet achieved the point may achieve it; with
    an outbox that admits everything the call succeeds, the deliveries are those that were pending and,
    exactly when all other members have achieved the point already, one federation-synchronized event per
    member, in handle order, numbered consecutively, each with the federates that failed. *)
Theorem achieve_completes opts out m fed l p h ok : strict opts -> admits_all out -> reachable opts m ->
  let st := stateOf m fed in
  points st !! l = Some p -> h ∈ required p -> AnnounceEntered (invOf p h) = true -> h ∉ achieved p ->
  nextSequence st + zlen (sortedHandles (required p)) <= MaxUint64 ->
  let r := AchieveWith opts out m fed h l ok in
  let last := bool_decide (required p ⊆ {[h]} ∪ achieved p) in
  ret r = Ret () /\
  sent r = map delivery (pending st) ++
    (if last then numbered (nextSequence st + 1) (synchronizedAll l p (failedAfter p h ok)) else []) /\
  logged r = (if EventLog opts then evtAchieved l h :: (if last then [evtSynchronized l] else []) else []) /\
  pending (stateOf (mgr r) fed) = [] /\
  QueryState (mgr r) fed l = (if last then StateAchieved else StateAnnounced).
Proof.
  intros Ho Hall Hr st Hp Hin He Ha Hn r last.
  destruct (achieveChange_ok opts m fed l p Ho (reachable_inv opts m Ho Hr) Hp h ok Hin He Ha Hn)
    as (st' & E & Hd & p' & Hp' & _ & _ & _ & Hs). fold last in E, Hd, Hs.
  subst r. unfold AchieveWith, achieve. rewrite (transition_commits opts out m fed false _ st' last Ho Hall E).
  cbn [ret sent logged mgr with_log]. rewrite stateOf_publish, QueryState_publish. cbn [points set_pending set_points].
  rewrite Hp', Hs. split; [done|]. split; [exact Hd|]. done.
Qed.
Lemma achieve_completes_witness :
  map d_Recipient (sent (AchieveWith sc_opts sc_out sc_half "f" 2 "L" true)) = [1; 2] /\
  sent (AchieveWith sc_opts sc_out sc_half "f" 2 "L" true) =
    [Build_OutboxDelivery 1 (Some (SynchronizedEvent 4 "L" [1])); Build_OutboxDelivery 2 (Some (SynchronizedEvent 5 "L" [1]))].
Proof.
  rewrite (proj1 (proj2 (achieve_completes sc_opts sc_out sc_half "f" "L" (sc_point sc_half) 2 true sc_strict
    (fun _ => eq_refl) sc_half_reachable ltac:(vm_compute; reflexivity)
    ltac:(apply (bool_decide_unpack _); vm_compute; exact I) ltac:(vm_compute; reflexivity)
    ltac:(apply (bool_decide_unpack _); vm_compute; exact I) ltac:(vm_compute; discriminate)))).
  split; vm_compute; reflexivity.
Defined.

(** An achievement is refused, without any effect, when the label is not registered, the federate is not
    a member of the point or has not entered its announcement ([ErrSyncPointNotRegistered]), and when it has
    achieved the point before ([ErrSyncPointAlreadyAchieved]). *)
Theorem achieve_refused opts out m fed l h ok : strict opts -> reachable opts m ->
  let refused e := AchieveWith opts out m fed h l ok = Reply m [] [] (Fail e) in
  (points (stateOf m fed) !! l = None -> refused ErrSyncPointNotRegistered) /\
  (forall p, points (stateOf m fed) !! l = Some p ->
     h ∉ required p \/ AnnounceEntered (invOf p h) = false -> refused ErrSyncPointNotRegistered) /\
  (forall p, points (stateOf m fed) !! l = Some p -> h ∈ achieved p -> refused ErrSyncPointAlreadyAchieved).
Proof.
  intros Ho Hr refused. pose proof (reachable_inv opts m Ho Hr) as Hi.
  assert (Hfail : forall e, achieveChange opts h l ok (stateOf m fed) = Fail e -> refused e).
  { intros e E. unfold refused, AchieveWith, achieve, transition. by rewrite E. }
  split; [|split].
  - intros Hp. apply Hfail. unfold achieveChange. by rewrite Hp.
  - intros p Hp H. apply Hfail. by eapply achieveChange_refused.
  - intros p Hp H. apply Hfail. by eapply achieveChange_twice.
Qed.
Lemma achieve_refused_witness : ret (AchieveWith sc_opts sc_out sc_half "f" 1 "L" true) = Fail ErrSyncPointAlreadyAchieved.
Proof.
  destruct (achieve_refused sc_opts sc_out sc_half "f" "L" 1 true sc_strict sc_half_reachable) as (_ & _ & H).
  rewrite (H (sc_point sc_half)); [reflexivity|vm_compute; reflexivity|].
  apply (bool_decide_unpack _). vm_compute. exact I.
Defined.

(** ** Registration *)

(** What [registerChange] enqueues for a new label. *)
Definition registrationCallbacks (l : string) (tg : list byte) (members : list FederateHandle)
    (registrant : option FederateHandle) : list CallbackState :=
  (match registrant with
   | Some r => [confirmation callbackRegistrationSucceeded l r RegistrationFailureNone]
   | None => []
   end) ++
  (let req := sortedHandles (handleSet members) in map (fun h => announceCallback l tg h req) req).

Lemma registerChange_ok opts fed l tg requested registrant members st :
  points st !! l = None -> registrationMembers opts fed requested registrant = (members, true) ->
  nextEpoch st < MaxUint64 ->
  nextSequence st + zlen (registrationCallbacks l tg members registrant) <= MaxUint64 ->
  exists st', registerChange opts fed l tg requested registrant st = Ret (st', true) /\
    map delivery (pending st') = map delivery (pending st) ++
      numbered (nextSequence st + 1) (registrationCallbacks l tg members registrant) /\
    exists p, points st' !! l = Some p /\ state p = StateAnnounced /\ required p = handleSet members /\
      achieved p = ∅ /\ failed p = ∅ /\ tag p = tg.
Proof.
  intros Hl Hms He Hn. unfold registerChange. rewrite Hl, Hms, bool_decide_eq_false_2 by (by intros [? ?]).
  cbn [negb]. destruct (Z.eqb_spec (nextEpoch st) MaxUint64); [lia|].
  set (all := match requested with [] => true | _ => false end).
  set (p := newPoint opts tg members all (nextEpoch st + 1)).
  set (st1 := set_point (set_nextEpoch st (nextEpoch st + 1)) l p).
  set (req := sortedHandles (required p)).
  assert (Hone : (st2 ← match registrant with
             | Some r => enqueue st1 (confirmation callbackRegistrationSucceeded l r RegistrationFailureNone)
             | None => Ret st1
             end; enqueueAll st2 (map (fun h => announceCallback l tg h req) req)) =
           enqueueAll st1 (registrationCallbacks l tg members registrant)) by by destruct registrant.
  destruct (enqueueAll_ok (registrationCallbacks l tg members registrant) st1) as (st3 & E3 & _ & Hp3); [exact Hn|].
  destruct (enqueueAll_point _ _ _ l p E3) as (p3 & Hp & Hsp); [by apply lookup_insert_eq|].
  rewrite E3 in Hone. apply bind_Ret_inv in Hone as (st2 & -> & E2). cbn [mbind outcome_bind]. rewrite E2.
  cbn [mbind outcome_bind]. exists st3. split; [done|]. split; [exact Hp3|]. exists p3. split; [done|].
  by destruct (same_point_fields _ _ Hsp) as (-> & -> & -> & -> & _ & _ & _ & ->).
Qed.

(** Registering an unused label creates its point, awaiting exactly the resolved members, with no
    achievement; with an outbox that admits everything the registrant (if any) is sent its confirmation
    first, then each member the announcement with the label's tag, in handle order, consecutively
    numbered after the callbacks already pending. *)
Theorem register_announces opts out m fed l tg requested registrant members : strict opts -> admits_all out ->
  let st := stateOf m fed in
  points st !! l = None -> registrationMembers opts fed requested registrant = (members, true) ->
  nextEpoch st < MaxUint64 ->
  nextSequence st + zlen (registrationCallbacks l tg members registrant) <= MaxUint64 ->
  let r := register opts out m fed l tg requested registrant in
  ret r = Ret () /\
  sent r = map delivery (pending st) ++
           numbered (nextSequence st + 1) (registrationCallbacks l tg members registrant) /\
  logged r = (if EventLog opts then [evtRegistered l] else []) /\
  exists p, points (stateOf (mgr r) fed) !! l = Some p /\ state p = StateAnnounced /\
    required p = handleSet members /\ achieved p = ∅ /\ failed p = ∅ /\ tag p = tg.
Proof.
  intros Ho Hall st Hl Hms He Hn r.
  destruct (registerChange_ok opts fed l tg requested registrant members st Hl Hms He Hn) as (st' & E & Hd & Hp).
  subst r. unfold register. rewrite (transition_commits opts out m fed false _ st' true Ho Hall E).
  cbn [ret sent logged mgr with_log]. rewrite stateOf_publish. done.
Qed.
Lemma register_announces_witness :
  sent (register sc_opts sc_out sc_new "f" "L" [x41] [] (Some 1)) =
  [Build_OutboxDelivery 1 (Some (RegistrationSucceededEvent 1 "L"));
   Build_OutboxDelivery 1 (Some (AnnounceEvent 2 "L" [x41] [1; 2]));
   Build_OutboxDelivery 2 (Some (AnnounceEvent 3 "L" [x41] [1; 2]))].
Proof.
  rewrite (proj1 (proj2 (register_announces sc_opts sc_out sc_new "f" "L" [x41] [] (Some 1) [1; 2] sc_strict
    (fun _ => eq_refl) ltac:(vm_compute; reflexivity) eq_refl ltac:(vm_compute; reflexivity) ltac:(vm_compute; discriminate)))).
  vm_compute. reflexivity.
Defined.

(** A registration that cannot succeed changes no point.  A label in use, or (for a registrant) a
    requested member that has not joined, is answered to the registrant with the matching failure event,
    and [ErrSyncPointAlreadyRegistered] is returned when there is no registrant, with no effect at all. *)
Theorem register_refused opts out m fed l tg requested registrant : strict opts -> admits_all out ->
  let st := stateOf m fed in
  let taken := bool_decide (is_Some (points st !! l)) in
  taken = true \/ (registrationMembers opts fed requested registrant).2 = false ->
  let r := register opts out m fed l tg requested registrant in
  logged r = [] /\ points (stateOf (mgr r) fed) = points st /\
  match registrant with
  | None => r = Reply m [] [] (Fail ErrSyncPointAlreadyRegistered)
  | Some h => nextSequence st < MaxUint64 ->
      ret r = Ret () /\ sent r = map delivery (pending st) ++
        [Build_OutboxDelivery h (Some (RegistrationFailedEvent (nextSequence st + 1) l
           (if taken then RegistrationFailureLabelNotUnique else RegistrationFailureSetMemberNotJoined)))]
  end.
Proof.
  intros Ho Hall st taken Hor r.
  set (reason := if taken then RegistrationFailureLabelNotUnique else RegistrationFailureSetMemberNotJoined).
  assert (E : registerChange opts fed l tg requested registrant st = registrationFailed st l registrant reason).
  { unfold registerChange. fold taken. subst reason. destruct taken; [done|].
    destruct (registrationMembers opts fed requested registrant) as [ms v]. by destruct Hor as [?|[= ->]]. }
  subst r. unfold register, transition. fold st. rewrite E. unfold registrationFailed. destruct registrant as [h|]; [|done].
  destruct (Z.eq_dec (nextSequence st) MaxUint64) as [Hn|Hn].
  { unfold enqueue. rewrite Hn, Z.eqb_refl. simpl. split; [done|]. split; [done|]. lia. }
  unfold enqueue. rewrite (proj2 (Z.eqb_neq _ _) Hn). cbn [mbind outcome_bind].
  set (c := confirmation callbackRegistrationFailed l h reason).
  set (next := Build_federationState _ _ _ _ _).
  assert (Hnext : points next = points st /\ map delivery (pending next) = map delivery (pending st) ++
    [Build_OutboxDelivery h (Some (RegistrationFailedEvent (nextSequence st + 1) l reason))]).
  { subst next. cbn [points pending]. split; [|by rewrite map_app]. by destruct (points st !! Label c). }
  destruct Hnext as [Hp Hd]. rewrite Hd.
  destruct (map delivery (pending st) ++ _) as [|d ds] eqn:Ed; [by destruct (map delivery (pending st))|].
  rewrite (proj2 Ho), Hall. unfold admitted. rewrite (proj1 Ho). cbn [ret sent logged mgr with_log].
  rewrite stateOf_publish. split; [done|]. split; [exact Hp|]. done.
Qed.
Lemma register_refused_witness :
  sent (register sc_opts sc_out sc_done "f" "L" [] [] (Some 2)) =
    [Build_OutboxDelivery 2 (Some (RegistrationFailedEvent 6 "L" RegistrationFailureLabelNotUnique))].
Proof.
  destruct (register_refused sc_opts sc_out sc_done "f" "L" [] [] (Some 2) sc_strict (fun _ => eq_refl))
    as (_ & _ & H); [left; vm_compute; reflexivity|].
  rewrite (proj2 (H ltac:(vm_compute; reflexivity))). vm_compute. reflexivity.
Defined.

(** ** Resignation *)

(** A federate that resigns is forgotten, whatever the outbox answers (unless the sequence numbers are
    exhausted): no callback of it stays pending or owed, each surviving point has the members and
    achievements it had less the federate, and no surviving point is left waiting for nobody. *)
Theorem resigned_forgotten opts out m fed h : strict opts ->
  let st := stateOf m fed in
  let r := FederateResigned opts out m fed h in
  let st' := stateOf (mgr r) fed in
  ret r <> Fail exhausted ->
  reachable opts m ->
  (forall s c, obligations st' !! s = Some c -> Recipient c <> h) /\
  (forall c, c ∈ pending st' -> Recipient c <> h) /\
  (forall l p', points st' !! l = Some p' -> exists p, points st !! l = Some p /\
     required p' = required p ∖ {[h]} /\ achieved p' = achieved p ∖ {[h]} /\ settled p').
Proof.
  intros Ho st r st' Hret Hr. pose proof (stateOf_inv m fed (reachable_inv opts m Ho Hr)) as Hi. fold st in Hi.
  assert (Hinv' : mgr_inv (mgr r)) by (apply (run_inv opts Ho out m (OpResigned fed h)); [by apply (reachable_inv opts)|done]).
  destruct (resignPoints_total opts h (sortedLabels st) (dropCallbacks st h)) as [[next E]|E].
  - assert (Hst' : points st' = points next /\ obligations st' = obligations next).
    { subst st' r. unfold FederateResigned, transition. fold st. rewrite E. cbn [mbind outcome_bind].
      unfold admitted. rewrite (proj1 Ho), (proj2 Ho).
      destruct (map delivery (pending next)); [by cbn [fst mgr]; rewrite stateOf_publish|].
      by destruct (Reserve out _) as [| |[]]; cbn [fst mgr]; rewrite stateOf_publish. }
    destruct Hst' as [Hpts Hobl]. destruct (dropCallbacks_inv st h Hi) as [_ Hno].
    pose proof (resignPoints_no_obligation _ _ _ _ _ E Hno) as Hno'.
    assert (Ho1 : forall s c, obligations st' !! s = Some c -> Recipient c <> h).
    { intros s c. rewrite Hobl. apply Hno'. }
    split; [done|]. split.
    + intros c Hc. apply (Ho1 (Sequence c)). by apply (in_pending _ _ (stateOf_inv _ fed Hinv')).
    + intros l p'. rewrite Hpts. intros Hp'.
      destruct (decide (l ∈ sortedLabels st)) as [Hl|Hl].
      * by destruct (resignPoints_points opts h _ _ _ l p' (NoDup_sortedLabels st) E Hl Hp') as (p & Hp & Hrest); exists p.
      * rewrite (resignPoints_other _ _ _ _ _ l E Hl) in Hp'. simpl in Hp'. destruct Hl.
        apply elem_sortedLabels. by rewrite Hp'.
  - destruct Hret. subst r. unfold FederateResigned, transition. fold st. by rewrite E.
Qed.
Lemma resigned_forgotten_witness : settled (sc_point (mgr (FederateResigned sc_opts sc_full sc_half "f" 2))).
Proof.
  destruct (resigned_forgotten sc_opts sc_full sc_half "f" 2 sc_strict ltac:(vm_compute; discriminate)
    sc_half_reachable) as (_ & _ & H).
  destruct (H "L" (sc_point (mgr (FederateResigned sc_opts sc_full sc_half "f" 2)))) as (_ & _ & _ & _ & Hs);
    [vm_compute; reflexivity|exact Hs].
Defined.

(** ** Delivery *)

(** An operation's callbacks reach a reservable outbox all or not at all.  Either the call succeeds, every
    pending callback is delivered in order and none stays pending; or it fails, nothing is delivered, and either
    the manager is untouched (the outbox refused the reservation and the operation can be refused) or the
    operation's effect stands and all its callbacks stay pending. *)
Theorem delivery_all_or_nothing {A} opts out m fed lifecycle change next (a : A) : ReservableOutbox opts = true ->
  change (stateOf m fed) = Ret (next, a) ->
  let (r, result) := transition opts out m fed lifecycle change in
  (ret r = Ret () /\ result = Some a /\ sent r = map delivery (pending next) /\
     points (stateOf (mgr r) fed) = points next /\ pending (stateOf (mgr r) fed) = []) \/
  ((exists e, ret r = Fail e) /\ result = None /\ sent r = [] /\
     (lifecycle = false /\ mgr r = m /\ Reserve out (map delivery (pending next)) <> Reserved false \/
      points (stateOf (mgr r) fed) = points next /\ pending (stateOf (mgr r) fed) = pending next)).
Proof.
  intros Ho E. unfold transition. rewrite E, Ho.
  assert (Hd : points (admitted opts next) = points next /\ pending (admitted opts next) = [])
    by (unfold admitted; by destruct (RequireInvocations opts)).
  destruct (map delivery (pending next)) as [|d ds] eqn:Ep.
  { left. cbn [ret sent mgr]. by rewrite stateOf_publish. }
  destruct (Reserve out (d :: ds)) as [| |[]] eqn:Er.
  - right. destruct lifecycle; cbn [ret sent mgr]; rewrite ?stateOf_publish; (split; [by eexists|]);
      split; try done; split; try done; [by right|by left].
  - right. destruct lifecycle; cbn [ret sent mgr]; rewrite ?stateOf_publish; (split; [by eexists|]);
      split; try done; split; try done; [by right|by left].
  - left. cbn [ret sent mgr]. by rewrite stateOf_publish.
  - right. cbn [ret sent mgr]. rewrite stateOf_publish. split; [by eexists|]. split; [done|]. split; [done|].
    right. by destruct Hd.
Qed.
Definition sc_join (st : federationState) : outcome sync_error (federationState * ()) :=
  st ← joinPoints 3 (sortedLabels st) st; Ret (st, ()).
Lemma delivery_all_or_nothing_witness :
  let r := fst (transition sc_opts sc_full sc_half "f" true sc_join) in
  sent r = [] /\ length (pending (stateOf (mgr r) "f")) = 1%nat.
Proof.
  destruct (sc_join (stateOf sc_half "f")) as [[next []]|e|msg] eqn:Hch; [|vm_compute in Hch; discriminate Hch..].
  pose proof (delivery_all_or_nothing sc_opts sc_full sc_half "f" true sc_join next () eq_refl Hch) as H.
  assert (Hn : length (pending next) = 1%nat) by (vm_compute in Hch; injection Hch as <-; reflexivity).
  assert (Hret : ret (fst (transition sc_opts sc_full sc_half "f" true sc_join)) = Fail errOutbox)
    by (vm_compute; reflexivity).
  destruct (transition sc_opts sc_full sc_half "f" true sc_join) as [r res]. simpl in Hret |- *.
  destruct H as [(H & _)|(_ & _ & Hs & [(H & _)|(_ & Hp)])]; [congruence|discriminate H|].
  split; [exact Hs|]. rewrite Hp. exact Hn.
Defined.

(** No callback is lost: in a reachable state each member of a point has its announcement recorded as invoked or
    owed as an obligation for this very point, and once the point is complete its federation-synchronized callback
    likewise; every pending callback is an obligation and no two pending callbacks share a sequence number. *)
Theorem callbacks_durable opts m fed st : strict opts -> reachable opts m -> m !! fed = Some st ->
  (forall l p h, points st !! l = Some p -> h ∈ required p ->
     let i := invOf p h in
     let owed s k := exists c, obligations st !! s = Some c /\ shape c k l h (epoch p) in
     (AnnounceInvoked i = true \/ owed (Announce i) callbackAnnounce) /\
     (state p = StateAchieved -> SynchronizedInvoked i = true \/ owed (Synchronized i) callbackSynchronized)) /\
  (forall c, c ∈ pending st -> obligations st !! Sequence c = Some c) /\
  NoDup (map Sequence (pending st)).
Proof.
  intros Ho Hr Hst. pose proof (reachable_inv opts m Ho Hr fed st Hst) as Hi.
  split; [|split; [apply (in_pending _ _ Hi)|apply (in_nodup _ _ Hi)]].
  intros l p h Hp Hh i owed. destruct (pi_handles _ _ _ _ (in_points _ _ Hi l p Hp) h Hh) as [_ _ _ _ [Ha Hs]].
  split.
  - destruct Ha as [_ Ha]. fold i in Ha. destruct (AnnounceInvoked i); [by left|right].
    destruct Ha as (c & Hc & Hsh & _). by exists c.
  - intros Hd. rewrite decide_True in Hs by done. destruct Hs as [_ Hs]. fold i in Hs.
    destruct (SynchronizedInvoked i); [by left|by right].
Qed.
Lemma callbacks_durable_witness : exists c,
  obligations (stateOf sc_done "f") !! Synchronized (invOf (sc_point sc_done) 2) = Some c /\ Recipient c = 2.
Proof.
  destruct (callbacks_durable sc_opts sc_done "f" (stateOf sc_done "f") sc_strict sc_done_reachable
    ltac:(vm_compute; reflexivity)) as (H & _).
  destruct (H "L" (sc_point sc_done) 2) as [_ Hs]; [vm_compute; reflexivity| |].
  - apply (bool_decide_unpack _). vm_compute. exact I.
  - destruct (Hs ltac:(vm_compute; reflexivity)) as [E|(c & Hc & _ & _ & Hr & _)]; [vm_compute in E; discriminate E|].
    exists c. split; [exact Hc|exact Hr].
Defined.

(** A retry always ends, without exhausting the loop's bound: it delivers a prefix of the pending callbacks, one at
    a time and in order, leaves exactly the rest pending and the points untouched, and stops early only at a
    callback whose reservation or commit the outbox refuses. *)
Theorem retry_delivers_prefix opts out m fed : ReservableOutbox opts = true ->
  let r := RetryPending opts out m fed in
  exists delivered rest, pending (stateOf m fed) = delivered ++ rest /\ sent r = map delivery delivered /\
    pending (stateOf (mgr r) fed) = rest /\ points (stateOf (mgr r) fed) = points (stateOf m fed) /\
    match rest with
    | [] => ret r = Ret ()
    | c :: _ => Reserve out [delivery c] <> Reserved true /\ exists e, ret r = Fail e
    end.
Proof.
  intros Ho r. subst r. unfold RetryPending. rewrite Ho.
  destruct (retryLoop_prefix opts out (length (pending (stateOf m fed))) m fed []) as (l1 & l2 & H); [done|].
  by exists l1, l2.
Qed.
Lemma retry_delivers_prefix_witness : sent (RetryPending sc_opts sc_out sc_waiting "f") =
  [Build_OutboxDelivery 3 (Some (AnnounceEvent 4 "L" [] [1; 2; 3]))].
Proof.
  destruct (retry_delivers_prefix sc_opts sc_out sc_waiting "f" eq_refl) as (l1 & l2 & H1 & H2 & _ & _ & H3).
  destruct l2 as [|c l2]; [|by destruct H3 as [[] _]]. rewrite H2, <- (app_nil_r l1), <- H1. vm_compute. reflexivity.
Defined.

(** ** Receipts *)

(** What a completion report does in a reachable state: a report that names no owed callback (the sequence
    number is not owed, or recipient, label or kind differ) is accepted and changes nothing; one for a callback still
    pending, or whose entry was not reported, is refused; any other is accepted and removes the obligation, after
    which every report or entry under this sequence number is accepted and changes nothing. *)
Theorem receipt_outcome opts m fed h kind l s : strict opts -> reachable opts m -> s <> 0 ->
  let st := stateOf m fed in
  let r := ObserveSyncCallback opts m fed h kind l s in
  (forall c, obligations st !! s = Some c -> Recipient c = h -> Label c = l -> observedKind (Kind c) = kind ->
     if callbackPending (pending st) s || negb (Entered c) then exists e, r = Reply m [] [] (Fail e)
     else ret r = Ret () /\ sent r = [] /\ obligations (stateOf (mgr r) fed) = delete s (obligations st) /\
       forall h' kind' l' entry, observeCallback opts (mgr r) fed h' kind' l' s entry = Reply (mgr r) [] [] (Ret ())) /\
  ((forall c, obligations st !! s = Some c -> ~ (Recipient c = h /\ Label c = l /\ observedKind (Kind c) = kind)) ->
     r = Reply m [] [] (Ret ())).
Proof.
  intros Ho Hr Hs st r. pose proof (stateOf_inv m fed (reachable_inv opts m Ho Hr)) as Hi. fold st in Hi.
  subst r. unfold ObserveSyncCallback, observeCallback. rewrite (proj2 (Z.eqb_neq _ _) Hs). fold st. split.
  - intros c Hc <- <- <-. destruct (callbackPending (pending st) s) eqn:Hp.
    + destruct (observeChange_refused opts st s c (or_introl Hp) Hc (proj1 Ho)) as (e & ->). by eexists.
    + destruct (Entered c) eqn:He; simpl.
      * destruct (observeChange_applies opts st s c Hi Hc Hp He) as (st' & E). rewrite E. cbn [ret sent mgr].
        rewrite stateOf_publish. pose proof (observeChange_clears _ _ _ _ _ _ _ E) as Ec.
        split; [done|]. split; [done|]. split; [done|]. intros h' kind' l' entry.
        unfold observeChange. by rewrite Ec, lookup_delete_eq.
      * destruct (observeChange_refused opts st s c (or_intror He) Hc (proj1 Ho)) as (e & ->). by eexists.
  - intros Hno. unfold observeChange. destruct (obligations st !! s) as [c|] eqn:Hc; [|done].
    specialize (Hno c eq_refl). destruct (_ && _ && _) eqn:E; [|done].
    apply andb_true_iff in E as [E E3]. apply andb_true_iff in E as [E1 E2].
    apply Z.eqb_eq in E1. apply bool_decide_eq_true in E2, E3. by destruct Hno.
Qed.
Lemma receipt_outcome_witness :
  let m := mgr (ObserveSyncCallback sc_opts sc_done "f" 1 SyncCallbackAnnounced "L" 2) in
  ret (ObserveSyncCallback sc_opts m "f" 1 SyncCallbackAnnounced "L" 2) = Ret () /\
  QueryState m "f" "L" = StateAchieved.
Proof.
  destruct (receipt_outcome sc_opts sc_done "f" 1 SyncCallbackAnnounced "L" 2 sc_strict sc_done_reachable ltac:(lia))
    as [H _].
  destruct (obligations (stateOf sc_done "f") !! 2) as [c|] eqn:Hc; [|vm_compute in Hc; discriminate Hc].
  assert (Hf : Recipient c = 1 /\ Label c = "L" /\ observedKind (Kind c) = SyncCallbackAnnounced /\ Entered c = true)
    by (vm_compute in Hc; injection Hc as <-; repeat split).
  destruct Hf as (F1 & F2 & F3 & F4).
  assert (Hp : callbackPending (pending (stateOf sc_done "f")) 2 = false) by (vm_compute; reflexivity).
  specialize (H c eq_refl F1 F2 F3). rewrite Hp, F4 in H. destruct H as (_ & _ & _ & H').
  split; [|vm_compute; reflexivity]. unfold ObserveSyncCallback at 1. rewrite H'. reflexivity.
Defined.
