(* ===== verification/TimeScalar.v ===== *)
(** * Scalars of logical time ([rti/internal/hla/core/time_scalar.go],
    [rti/internal/hla/core/time.go], [rti/internal/hla/time/scalar.go])

    The time services are generic in [T], a [float64] or an [int64]
    ([core.LogicalTimeScalar]).  [LogicalTimeScalar] is that constraint: the operations the
    generic code uses, with an instance per type.  [LawfulScalar] is what the
    theorems need of an instance: the order of valid times is the order of a
    key, and how the send horizon [at + interval] acts on keys. *)
From S2P Require Import Prelude GoBytes GoFloat LogicalTime.
Open Scope Z_scope.

(** ** The constraint *)
Class LogicalTimeScalar (T : Type) := {
  integerScalar : bool;           (** [T(1)/T(2) == 0] *)
  s_lt : T -> T -> bool;
  s_le : T -> T -> bool;
  s_eq : T -> T -> bool;
  s_add : T -> T -> T;
  s_sub : T -> T -> T;
  s_min : T -> T -> T;            (** the predeclared [min] and [max] *)
  s_max : T -> T -> T;
  to_int64 : T -> Z;
  of_int64 : Z -> T;
  to_float64 : T -> f64;
  of_float64 : f64 -> T;
}.

#[export] Instance int64_scalar `{GoArch} : LogicalTimeScalar Z := {
  integerScalar := true;
  s_lt := Z.ltb; s_le := Z.leb; s_eq := Z.eqb;
  s_add a b := wrapS 64 (a + b); s_sub a b := wrapS 64 (a - b);
  s_min := Z.min; s_max := Z.max;
  to_int64 a := a; of_int64 a := a;
  to_float64 := f64_of_int; of_float64 := f64_to_int64;
}.
#[export] Instance float64_scalar `{GoArch} : LogicalTimeScalar f64 := {
  integerScalar := false;
  s_lt := f64_ltb; s_le := f64_leb; s_eq := f64_eqb;
  s_add := f64_add; s_sub := f64_sub;
  s_min := f64_min; s_max := f64_max;
  to_int64 := f64_to_int64; of_int64 := f64_of_int;
  to_float64 x := x; of_float64 x := x;
}.

Record TimeBoundOf (T : Type) := MkBound { Limit : T; Unbounded : bool }.
Arguments MkBound {T} _ _.
Arguments Limit {T} _.
Arguments Unbounded {T} _.

Section Scalars.
Context {T : Type} `{LogicalTimeScalar T}.

(** [T(0)], [T(1)] and [T(int64(math.MaxInt64))]. *)
Definition s_zero : T := of_int64 0.

(** *** time_scalar.go *)
Definition ScalarRepresentation : Representation :=
  if integerScalar then HLAinteger64Time else HLAfloat64Time.
Definition ScalarTimeValue (value : T) : outcome lt_error Time :=
  if bool_decide (ScalarRepresentation = HLAinteger64Time)
  then Integer64 (to_int64 value) else Float64 (to_float64 value).
Definition ScalarIntervalValue (value : T) : outcome lt_error Interval :=
  if bool_decide (ScalarRepresentation = HLAinteger64Time)
  then Integer64Interval (to_int64 value) else Float64Interval (to_float64 value).
Definition ScalarFromTimeValue (value : Time) : outcome lt_error T :=
  if negb (bool_decide (t_Representation value = ScalarRepresentation)) then Fail ErrRepresentationMismatch
  else if bool_decide (t_Representation value = HLAinteger64Time)
  then of_int64 <$> t_Integer64 value else of_float64 <$> t_Float64 value.
Definition ScalarFromIntervalValue (value : Interval) : outcome lt_error T :=
  if negb (bool_decide (i_Representation value = ScalarRepresentation)) then Fail ErrRepresentationMismatch
  else if bool_decide (i_Representation value = HLAinteger64Time)
  then of_int64 <$> i_Integer64 value else of_float64 <$> i_Float64 value.

(** *** scalar.go *)
Definition scalarNaN (value : T) : bool := negb integerScalar && f64_isNaN (to_float64 value).
Definition scalarInfinite (value : T) : bool := negb integerScalar && f64_isInf (to_float64 value).
Definition unboundedHorizon : TimeBoundOf T := MkBound s_zero true.
Definition horizonScalar (bound : TimeBoundOf T) : T :=
  if negb (Unbounded bound) then Limit bound
  else if integerScalar then of_int64 MaxInt64 else of_float64 (f64_inf false).
Definition minimumHorizon (a b : TimeBoundOf T) : TimeBoundOf T :=
  if Unbounded a then b
  else if Unbounded b then a
  else if s_lt (Limit b) (Limit a) then b else a.
Definition horizonBeyond (bound : TimeBoundOf T) (value : T) (strict : bool) : bool :=
  if Unbounded bound && integerScalar then true
  else
    let limit := horizonScalar bound in
    if strict then s_lt value limit else s_le value limit.
Definition successor (at_ : T) : T * bool :=
  if integerScalar then
    if to_int64 at_ =? MaxInt64 then (at_, false) else (s_add at_ (of_int64 1), true)
  else (of_float64 (f64_Nextafter (to_float64 at_) (f64_inf false)), true).
Definition predecessor (at_ : T) : T :=
  if integerScalar then s_sub at_ (of_int64 1)
  else of_float64 (f64_Nextafter (to_float64 at_) (f64_inf true)).
End Scalars.

(** *** Typed bounds ([typed_grant.go]) and the scalar horizon ([arithmetic.go]) *)
Abbreviation TimeBound := (TimeBoundOf Time).
Definition unboundedTime (kind : Representation) : outcome lt_error TimeBound :=
  initial ← Initial kind; Ret (MkBound initial true).
Definition AddTypedTimeBound (at_ : Time) (interval : Interval) : outcome lt_error TimeBound :=
  match t_Add at_ interval with
  | Ret value => Ret (MkBound value false)
  | Fail ErrIllegalArithmetic => unboundedTime (t_Representation at_)
  | Fail e => Fail e
  | Panic s => Panic s
  end.

Section Horizon.
Context {T : Type} `{LogicalTimeScalar T}.
(** [result, _ := ScalarFromTimeValue(...)]: the error is discarded, the value
    is then zero. *)
Definition addHorizon (at_ interval : T) : TimeBoundOf T :=
  match ScalarTimeValue at_, ScalarIntervalValue interval with
  | Ret value, Ret delta =>
      match AddTypedTimeBound value delta with
      | Ret bound =>
          if Unbounded bound then unboundedHorizon
          else MkBound (match ScalarFromTimeValue (Limit bound) with Ret x => x | _ => s_zero end) false
      | _ => unboundedHorizon
      end
  | _, _ =>
      if integerScalar then unboundedHorizon else MkBound (s_add at_ interval) false
  end.
Definition addTimeBoundOf (at_ interval : T) : T := horizonScalar (addHorizon at_ interval).
End Horizon.

Lemma addHorizon_unbounded {T} `{LogicalTimeScalar T} (a b : T) :
  Unbounded (addHorizon a b) = true -> addHorizon a b = unboundedHorizon.
Proof.
  unfold addHorizon. destruct (ScalarTimeValue a), (ScalarIntervalValue b); try by destruct integerScalar.
  destruct (AddTypedTimeBound _ _) as [bound| |]; try done. by destruct (Unbounded bound).
Qed.

(** ** The laws of an instance

    [s_ok]: a valid time; [s_fin]: a finite one, the intervals among them. *)
Class LawfulScalar (T : Type) `{LogicalTimeScalar T} := {
  key : T -> Z;
  s_ok : T -> Prop;
  s_fin : T -> Prop;
  top : Z;                       (** the key of an unbounded horizon *)
  addKey : T -> T -> Z;          (** the key of [at + interval] *)
  fin_ok a : s_fin a -> s_ok a;
  key_range a : s_ok a -> 0 <= key a <= top;
  fin_lt_top a : s_fin a -> key a < top;
  ok_fin a : s_ok a -> key a < top -> s_fin a;
  key_inj a b : s_ok a -> s_ok b -> key a = key b -> a = b;
  zero_fin' : s_fin s_zero;
  key_zero : key s_zero = 0;
  lt_key a b : s_ok a -> s_ok b -> s_lt a b = (key a <? key b);
  le_key a b : s_ok a -> s_ok b -> s_le a b = (key a <=? key b);
  eq_key a b : s_ok a -> s_ok b -> s_eq a b = (key a =? key b);
  min_key a b : s_ok a -> s_ok b -> s_min a b = if key b <? key a then b else a;
  max_key a b : s_ok a -> s_ok b -> s_max a b = if key a <? key b then b else a;
  ok_not_nan a : s_ok a -> scalarNaN a = false;
  ok_infinite a : s_ok a -> scalarInfinite a = negb integerScalar && (key a =? top);
  (** the greatest value stands for an unbounded horizon *)
  horizon_top : s_ok (horizonScalar unboundedHorizon) /\
    key (horizonScalar unboundedHorizon) = if integerScalar then top - 1 else top;
  int_lt_top a : integerScalar = true -> s_ok a -> key a < top;
  successor_key a : s_fin a ->
    let (b, possible) := successor a in
    if possible then s_ok b /\ key b = key a + 1 else key a + 1 = top /\ integerScalar = true;
  addKey_ge a b : s_ok a -> s_fin b -> key a <= addKey a b <= top;
  addKey_zero a b : s_ok a -> s_fin b -> key b = 0 -> addKey a b = key a;
  addKey_mono a a' b b' : s_ok a -> s_ok a' -> s_fin b -> s_fin b' ->
    key a <= key a' -> key b <= key b' -> addKey a b <= addKey a' b';
  addHorizon_key a b : s_ok a -> s_fin b ->
    let h := addHorizon a b in
    if Unbounded h then addKey a b = top /\ s_fin a else s_ok (Limit h) /\ key (Limit h) = addKey a b;
  (** a lookahead [v] reduced to [c], at the time [a] since [o] *)
  since_pos o a : s_fin o -> s_ok a -> s_lt s_zero (s_sub a o) = (key o <? key a);
  reduce_key c v o a : s_fin c -> s_fin v -> s_fin o -> s_ok a -> key o < key a ->
    let r := s_max c (s_sub v (s_sub a o)) in s_fin r /\ key c <= key r <= Z.max (key c) (key v);
  reduce_mono c v o a a' : s_fin c -> s_fin v -> s_fin o -> s_ok a -> s_ok a' -> key o < key a -> key a <= key a' ->
    key (s_max c (s_sub v (s_sub a' o))) <= key (s_max c (s_sub v (s_sub a o)));
}.

(** The key of a horizon. *)
Definition hkey {T} `{LawfulScalar T} (h : TimeBoundOf T) : Z := if Unbounded h then top else key (Limit h).
Definition h_ok {T} `{LawfulScalar T} (h : TimeBoundOf T) : Prop := Unbounded h = true \/ s_ok (Limit h).

Section Laws.
Context {T : Type} `{LawfulScalar T}.
Implicit Types (a b : T) (h : TimeBoundOf T).

Lemma ok_zero : s_ok (s_zero : T).
Proof. apply fin_ok, zero_fin'. Qed.
Lemma addHorizon_ok a b : s_ok a -> s_fin b -> h_ok (addHorizon a b) /\ hkey (addHorizon a b) = addKey a b.
Proof.
  intros Ha Hb. pose proof (addHorizon_key a b Ha Hb) as Hk. unfold h_ok, hkey. cbv zeta in Hk.
  destruct (Unbounded (addHorizon a b)); [by destruct Hk as [-> _]; split; [left|]|]. by destruct Hk; split; [right|].
Qed.
Lemma unboundedHorizon_ok : h_ok (unboundedHorizon : TimeBoundOf T) /\ hkey (unboundedHorizon : TimeBoundOf T) = top.
Proof. split; [by left|done]. Qed.
Lemma hkey_range h : h_ok h -> 0 <= hkey h <= top.
Proof.
  unfold h_ok, hkey. destruct (Unbounded h); [|intros [?|?]; [done|by apply key_range]].
  pose proof (key_range s_zero ok_zero). lia.
Qed.
Lemma minimumHorizon_key g h : h_ok g -> h_ok h ->
  h_ok (minimumHorizon g h) /\ hkey (minimumHorizon g h) = Z.min (hkey g) (hkey h).
Proof.
  intros Hg Hh. pose proof (hkey_range g Hg). pose proof (hkey_range h Hh). unfold minimumHorizon, h_ok, hkey in *.
  destruct (Unbounded g) eqn:Eg; [split; [done|lia]|]. destruct (Unbounded h) eqn:Eh; [rewrite Eg; split; [done|lia]|].
  destruct Hg as [?|Hg], Hh as [?|Hh]; try done. rewrite lt_key by done.
  destruct (Z.ltb_spec (key (Limit h)) (key (Limit g))); rewrite ?Eg, ?Eh; (split; [by right|lia]).
Qed.
(** A bound is beyond a time exactly when its key is; for the greatest Float64
    time (the infinity) the two notions of unboundedness coincide. *)
Lemma horizonBeyond_key h a strict : h_ok h -> s_ok a ->
  horizonBeyond h a strict = if strict then key a <? hkey h else key a <=? hkey h.
Proof.
  intros Hh Ha. unfold horizonBeyond, horizonScalar, h_ok, hkey in *. pose proof (key_range a Ha).
  destruct (Unbounded h) eqn:Eh; simpl.
  - destruct integerScalar eqn:Ei.
    + pose proof (int_lt_top a Ei Ha). destruct strict; zcases.
    + destruct horizon_top as [T1 T2]. unfold horizonScalar in T1, T2. simpl in T1, T2. rewrite Ei in T1, T2.
      by rewrite lt_key, le_key, T2 by done.
  - destruct Hh as [?|Hh]; [done|]. by rewrite lt_key, le_key.
Qed.
End Laws.

(** ** [int64] *)
Section Int64.
Context `{GoArch}.
Definition int_ok (a : Z) : Prop := 0 <= a <= MaxInt64.
Definition int_addKey (a b : Z) : Z := Z.min (2 ^ 63) (a + b).

Lemma int_time a : int_ok a -> ScalarTimeValue a = Ret (MkTime (Scalar HLAinteger64Time a)) /\
  ScalarIntervalValue a = Ret (MkInterval (Scalar HLAinteger64Time a)).
Proof.
  intros Ha. unfold int_ok in Ha. rewrite MaxInt64_eq in Ha.
  unfold ScalarTimeValue, ScalarIntervalValue. simpl. unfold Integer64, Integer64Interval, integerValue, to_int64. simpl.
  destruct (Z.ltb_spec a 0); [lia|]. rewrite wrapU_id by (unfold inU, maxU; lia). done.
Qed.
Lemma int_from_time a : int_ok a ->
  ScalarFromTimeValue (T := Z) (MkTime (Scalar HLAinteger64Time a)) = Ret a.
Proof.
  intros Ha. unfold int_ok in Ha. unfold ScalarFromTimeValue. simpl. unfold t_Integer64, integer. simpl.
  rewrite MaxInt64_eq in *. destruct (Z.ltb_spec (2 ^ 63 - 1) a); [lia|]. simpl.
  by rewrite wrapS_id by (unfold inS, minS, maxS; lia).
Qed.
Lemma int_addHorizon a b : int_ok a -> int_ok b ->
  addHorizon a b = if MaxInt64 <? a + b then MkBound 0 true else MkBound (a + b) false.
Proof.
  intros Ha Hb. pose proof Ha as Ha'. pose proof Hb as Hb'. unfold int_ok in Ha', Hb'. unfold addHorizon.
  destruct (int_time a Ha) as [-> _]. destruct (int_time b Hb) as [_ ->].
  unfold AddTypedTimeBound, t_Add. simpl t_value. simpl i_value.
  rewrite arithmetic_add by (try done; by rewrite MaxInt64_eq in *). unfold max_bits, add_bits. simpl kind. simpl bits. cbv iota.
  destruct (Z.ltb_spec MaxInt64 (a + b)); [done|]. cbn [fmap outcome_fmap Limit Unbounded].
  rewrite int_from_time; [done|]. unfold int_ok. lia.
Qed.

Lemma int_successor a : int_ok a -> let (b, possible) := successor a in
  if possible then int_ok b /\ b = a + 1 else a + 1 = 2 ^ 63 /\ true = true.
Proof.
  intros Ha. unfold successor, int_ok in *. simpl. rewrite MaxInt64_eq in *. destruct (Z.eqb_spec a (2 ^ 63 - 1)); [lia|].
  rewrite wrapS_id by (unfold inS, minS, maxS; lia). lia.
Qed.
Lemma int_addHorizon_key a b : int_ok a -> int_ok b -> let h := addHorizon a b in
  if Unbounded h then int_addKey a b = 2 ^ 63 /\ int_ok a else int_ok (Limit h) /\ Limit h = int_addKey a b.
Proof.
  intros Ha Hb. cbv zeta. rewrite int_addHorizon by done. unfold int_ok, int_addKey in *. rewrite MaxInt64_eq in *.
  destruct (Z.ltb_spec (2 ^ 63 - 1) (a + b)); simpl; lia.
Qed.

Lemma int_sub a b : int_ok a -> int_ok b -> s_sub a b = a - b.
Proof. intros Ha Hb. unfold int_ok in *. rewrite MaxInt64_eq in *. apply wrapS_id; [lia|]. unfold inS, minS, maxS. lia. Qed.
Lemma int_reduce v o a : int_ok v -> int_ok o -> int_ok a -> o < a -> s_sub v (s_sub a o) = v - (a - o).
Proof. intros Hv Ho Ha Hlt. rewrite (int_sub a o) by done. apply int_sub; [done|]. unfold int_ok in *. lia. Qed.

#[export, refine] Instance int64_lawful : LawfulScalar Z := {
  key a := a; s_ok := int_ok; s_fin := int_ok; top := 2 ^ 63; addKey := int_addKey }.
Proof.
  all: try solve [done | unfold int_ok, int_addKey; rewrite ?MaxInt64_eq; simpl; intros; lia].
  - intros a b _ _. simpl. destruct (Z.ltb_spec b a); lia.
  - intros a b _ _. simpl. destruct (Z.ltb_spec a b); lia.
  - apply int_successor.
  - apply int_addHorizon_key.
  - intros o a Ho Ha. rewrite int_sub by done. change s_zero with 0. simpl. zcases.
  - intros c v o a Hc Hv Ho Ha Hlt. rewrite int_reduce by done. simpl. unfold int_ok in *. lia.
  - intros c v o a a' Hc Hv Ho Ha Ha' Hlt Hle. rewrite !int_reduce by (done || lia). simpl. lia.
Defined.
End Int64.

(** ** [float64] *)
Section Float64.
Context `{GoArch}.
Definition float_scalar (x : f64) : scalar := Scalar HLAfloat64Time (f64_bits x).
Definition float_addKey (a b : f64) : Z :=
  if f64_bits a =? inf_mag b64 then inf_mag b64 else sum_bits (float_scalar a) (float_scalar b).

Lemma float_scalar_ok x : f64_fin x -> scalar_ok (float_scalar x).
Proof. done. Qed.
Lemma float_time x : f64_fin x -> ScalarTimeValue x = Ret (MkTime (float_scalar x)) /\
  ScalarIntervalValue x = Ret (MkInterval (float_scalar x)).
Proof.
  intros Hx. unfold ScalarTimeValue, ScalarIntervalValue. simpl. unfold Float64, Float64Interval. simpl.
  destruct x as [b]. by rewrite floatValue_fin.
Qed.
Lemma float_inf_time x : f64_bits x = inf_mag b64 -> ScalarTimeValue x = Fail ErrInvalidValue.
Proof.
  intros Hx. assert (Hp : f64_pos x) by (unfold f64_pos; rewrite Hx; vm_compute; split; congruence).
  unfold ScalarTimeValue. simpl. unfold Float64, floatValue. simpl.
  rewrite (pos_not_nan x Hp), (pos_isInf x Hp), Hx, Z.eqb_refl. done.
Qed.
Lemma float_from_time x : ScalarFromTimeValue (T := f64) (MkTime (float_scalar x)) = Ret x.
Proof. unfold ScalarFromTimeValue. simpl. unfold t_Float64, floating. simpl. by destruct x. Qed.

Lemma float_addHorizon a b : f64_fin a -> f64_fin b ->
  addHorizon a b =
    let k := sum_bits (float_scalar a) (float_scalar b) in
    if k =? inf_mag b64 then MkBound f64_zero true else MkBound (F64 k) false.
Proof.
  intros Ha Hb. unfold addHorizon. destruct (float_time a Ha) as [-> _]. destruct (float_time b Hb) as [_ ->].
  unfold AddTypedTimeBound, t_Add. cbn [t_value i_value].
  rewrite arithmetic_add by (try apply float_scalar_ok; done).
  pose proof (sum_bits_range _ _ (float_scalar_ok a Ha) (float_scalar_ok b Hb) eq_refl eq_refl) as Hr.
  unfold max_bits, add_bits. cbn [kind float_scalar]. cbv zeta. fold (float_scalar a) (float_scalar b).
  set (k := sum_bits _ _) in *. destruct (Z.eqb_spec k (inf_mag b64)) as [E|E];
    destruct (Z.ltb_spec (inf_mag b64 - 1) k); try lia.
  - cbn [fmap outcome_fmap]. change (t_Representation (MkTime (float_scalar a))) with HLAfloat64Time. done.
  - cbn [fmap outcome_fmap Unbounded Limit]. change (MkTime _) with (MkTime (float_scalar (F64 k))). by rewrite float_from_time.
Qed.
(** The infinity plus an interval is the infinity. *)
Lemma float_addHorizon_inf a b : f64_bits a = inf_mag b64 -> f64_fin b -> addHorizon a b = MkBound a false.
Proof.
  intros Ha Hb. unfold addHorizon. rewrite (float_inf_time a Ha). cbn [integerScalar float64_scalar s_add].
  f_equal. assert (Hp : f64_pos a) by (unfold f64_pos; rewrite Ha; vm_compute; split; congruence).
  unfold f64_add. rewrite (pos_not_nan a Hp), (pos_not_nan b), (pos_isInf a Hp), (fin_not_inf b Hb), Ha, Z.eqb_refl
    by auto with gorti. done.
Qed.
Lemma float_addHorizon_key a b : f64_pos a -> f64_fin b -> let h := addHorizon a b in
  if Unbounded h then float_addKey a b = inf_mag b64 /\ f64_fin a
  else f64_pos (Limit h) /\ f64_bits (Limit h) = float_addKey a b.
Proof.
  intros Ha Hb. unfold float_addKey. cbv zeta. destruct (Z.eqb_spec (f64_bits a) (inf_mag b64)) as [E|E].
  - rewrite float_addHorizon_inf by done. simpl. split; [done|exact E].
  - assert (Hf : f64_fin a) by (unfold f64_fin, f64_pos in *; lia). rewrite float_addHorizon by done. cbv zeta.
    pose proof (sum_bits_range _ _ (float_scalar_ok a Hf) (float_scalar_ok b Hb) eq_refl eq_refl) as Hr.
    unfold f64_fin in Hf. cbn [bits float_scalar] in Hr.
    destruct (Z.eqb_spec (sum_bits (float_scalar a) (float_scalar b)) (inf_mag b64)); [done|].
    cbn [Unbounded Limit f64_bits]. split; [|done]. unfold f64_pos. cbn [f64_bits]. lia.
Qed.

Lemma sum_bits_mono a a' b b' : f64_fin a -> f64_fin a' -> f64_fin b -> f64_fin b' ->
  f64_bits a <= f64_bits a' -> f64_bits b <= f64_bits b' ->
  sum_bits (float_scalar a) (float_scalar b) <= sum_bits (float_scalar a') (float_scalar b').
Proof.
  intros Ha Ha' Hb Hb' La Lb. pose proof (sum_bits_range _ _ (float_scalar_ok a' Ha') (float_scalar_ok b' Hb') eq_refl eq_refl).
  unfold sum_bits in *. cbn [bits float_scalar num kind] in *. unfold f64_fin in *.
  assert (Hm : round_mag b64 (mag_val b64 (f64_bits a) + mag_val b64 (f64_bits b)) <=
               round_mag b64 (mag_val b64 (f64_bits a') + mag_val b64 (f64_bits b'))).
  { apply round_mag_mono; [exact b64_wf|].
    pose proof (mag_val_nonneg b64 b64_wf (f64_bits a)). pose proof (mag_val_nonneg b64 b64_wf (f64_bits b)).
    pose proof (mag_val_le b64 b64_wf (f64_bits a) (f64_bits a')).
    pose proof (mag_val_le b64 b64_wf (f64_bits b) (f64_bits b')). lia. }
  zbool; lia.
Qed.
Lemma float_addKey_range a b : f64_pos a -> f64_fin b -> f64_bits a <= float_addKey a b <= inf_mag b64.
Proof.
  intros Ha Hb. unfold float_addKey. destruct (Z.eqb_spec (f64_bits a) (inf_mag b64)) as [E|E]; [lia|].
  assert (Hf : f64_fin a) by (unfold f64_fin, f64_pos in *; lia).
  apply (sum_bits_range _ _ (float_scalar_ok a Hf) (float_scalar_ok b Hb) eq_refl eq_refl).
Qed.
Lemma float_addKey_mono a a' b b' : f64_pos a -> f64_pos a' -> f64_fin b -> f64_fin b' ->
  f64_bits a <= f64_bits a' -> f64_bits b <= f64_bits b' -> float_addKey a b <= float_addKey a' b'.
Proof.
  intros Ha Ha' Hb Hb' La Lb. pose proof (float_addKey_range a b Ha Hb). unfold float_addKey in *. unfold f64_pos in *.
  destruct (Z.eqb_spec (f64_bits a') (inf_mag b64)); [lia|]. destruct (Z.eqb_spec (f64_bits a) (inf_mag b64)); [lia|].
  apply sum_bits_mono; unfold f64_fin; try done; lia.
Qed.

Lemma float_min x y : f64_pos x -> f64_pos y -> f64_min x y = if f64_bits y <? f64_bits x then y else x.
Proof.
  intros Hx Hy. unfold f64_min. rewrite !pos_not_nan, !pos_ltb, pos_sign by done. cbn [orb]. zcases.
  apply f64_ext. lia.
Qed.
Lemma float_max x y : f64_pos x -> f64_pos y -> f64_max x y = if f64_bits x <? f64_bits y then y else x.
Proof.
  intros Hx Hy. unfold f64_max. rewrite !pos_not_nan, !pos_ltb, pos_sign by done. cbn [orb]. zcases.
Qed.

(** The difference to a later time, and a lookahead less it. *)
Lemma float_since o a : f64_fin o -> f64_pos a -> f64_bits o < f64_bits a ->
  f64_sub a o = F64 (if f64_bits a =? inf_mag b64 then inf_mag b64
                     else round_mag b64 (mag_val b64 (f64_bits a) - mag_val b64 (f64_bits o))).
Proof.
  intros Ho Ha Hlt. destruct (Z.eqb_spec (f64_bits a) (inf_mag b64)) as [E|E].
  - unfold f64_sub, f64_add. rewrite (pos_not_nan a Ha), (pos_isInf a Ha), E, Z.eqb_refl.
    assert (Hneg : f64_mag (f64_neg o) = f64_bits o).
    { unfold f64_neg, f64_mk. rewrite <- (pos_mag o) by auto with gorti. apply mag_mk, mag_range, b64_wf. }
    unfold f64_isNaN, f64_isInf. rewrite Hneg. unfold f64_fin in Ho. zbool; try lia. cbn [orb andb].
    apply f64_ext. exact E.
  - assert (Hf : f64_fin a) by (unfold f64_fin, f64_pos in *; lia). rewrite fin_sub by (done || lia).
    by rewrite !pos_val by auto with gorti.
Qed.
Lemma float_since_pos o a : f64_fin o -> f64_pos a -> f64_bits o < f64_bits a ->
  f64_pos (f64_sub a o) /\ 0 < f64_bits (f64_sub a o).
Proof.
  intros Ho Ha Hlt. rewrite float_since by done. unfold f64_pos. cbn [f64_bits]. unfold f64_fin, f64_pos in *.
  pose proof (inf_mag_pos b64 b64_wf). destruct (Z.eqb_spec (f64_bits a) (inf_mag b64)); [lia|].
  pose proof (mag_val_lt b64 b64_wf (f64_bits o) (f64_bits a) ltac:(lia)) as Hv.
  pose proof (round_mag_range b64 b64_wf (mag_val b64 (f64_bits a) - mag_val b64 (f64_bits o)) ltac:(lia)).
  split; [lia|]. enough (1 <= round_mag b64 (mag_val b64 (f64_bits a) - mag_val b64 (f64_bits o))) by lia.
  apply round_mag_ge; [exact b64_wf|split; vm_compute; congruence|]. change (mag_val b64 1) with 1. lia.
Qed.
Lemma float_sub_not_pos o a : f64_fin o -> f64_fin a -> f64_bits a <= f64_bits o ->
  f64_ltb f64_zero (f64_sub a o) = false.
Proof.
  intros Ho Ha Hle. rewrite fin_sub_general by done. set (n := f64_val a - f64_val o).
  assert (Hn : n <= 0).
  { subst n. rewrite !pos_val by auto with gorti. unfold f64_fin in *.
    pose proof (mag_val_le b64 b64_wf (f64_bits a) (f64_bits o)). lia. }
  assert (Hr : 0 <= round_mag b64 (Z.abs n) <= inf_mag b64) by (apply round_mag_range; [exact b64_wf|lia]).
  pose proof signw_b64_big. unfold f64_ltb, f64_cmp2. apply andb_false_iff. right. change (f64_val f64_zero) with 0.
  apply Z.ltb_ge. unfold f64_round. destruct (Z.eqb_spec n 0); [by apply Z.eq_le_incl|].
  unfold f64_val, f64_sign, f64_mag, f64_mk. cbn [f64_bits]. destruct (Z.ltb_spec n 0); [|lia].
  rewrite sign_mk, mag_mk by lia. pose proof (mag_val_nonneg b64 b64_wf (round_mag b64 (Z.abs n))). lia.
Qed.
Lemma float_max_neg c x : f64_pos c -> f64_isNaN x = false -> f64_ltb x f64_zero = true -> f64_max c x = c.
Proof.
  intros Hc Hn Hx. unfold f64_max. rewrite (pos_not_nan c Hc), Hn. cbn [orb].
  unfold f64_ltb, f64_cmp2 in *. rewrite Hn, (pos_not_nan c Hc) in *. cbn [negb andb] in *.
  change (f64_isNaN f64_zero) with false in Hx. change (f64_val f64_zero) with 0 in Hx. cbn [negb andb] in Hx.
  pose proof (pos_val_nonneg c Hc). zcases.
Qed.
Definition left_bits (v d : f64) : Z :=
  if f64_bits d <=? f64_bits v then round_mag b64 (mag_val b64 (f64_bits v) - mag_val b64 (f64_bits d)) else 0.
Lemma float_reduce c v d : f64_fin c -> f64_fin v -> f64_pos d -> 0 < f64_bits d ->
  f64_max c (f64_sub v d) = F64 (Z.max (f64_bits c) (left_bits v d)) /\ 0 <= left_bits v d <= f64_bits v.
Proof.
  intros Hc Hv Hd Hpos. unfold left_bits. unfold f64_fin in Hv.
  destruct (Z.leb_spec (f64_bits d) (f64_bits v)) as [Hle|Hlt].
  - assert (Hf : f64_fin d) by (unfold f64_fin, f64_pos in *; lia).
    pose proof (fin_sub_le v d Hv Hf Hle) as Hr. rewrite fin_sub in Hr |- * by done.
    rewrite !pos_val in Hr |- * by auto with gorti. cbn [f64_bits] in Hr. split; [|lia].
    rewrite float_max; [|by auto with gorti|unfold f64_pos; cbn [f64_bits]; lia]. cbn [f64_bits].
    destruct c as [cb]. cbn [f64_bits]. destruct (Z.ltb_spec cb (round_mag b64 (mag_val b64 (f64_bits v) - mag_val b64 (f64_bits d)))); f_equal; lia.
  - split; [|lia]. rewrite Z.max_l by (unfold f64_fin in Hc; lia).
    enough (f64_isNaN (f64_sub v d) = false /\ f64_ltb (f64_sub v d) f64_zero = true) as [Hn Hx].
    { rewrite float_max_neg by auto with gorti. by destruct c. }
    destruct (Z.eq_dec (f64_bits d) (inf_mag b64)) as [E|E].
    + assert (d = F64 (inf_mag b64)) as -> by (by apply f64_ext).
      unfold f64_sub, f64_add. rewrite (pos_not_nan v), (fin_not_inf v) by auto with gorti.
      change (f64_isNaN (f64_neg (F64 (inf_mag b64)))) with false. change (f64_isInf (f64_neg (F64 (inf_mag b64)))) with true.
      cbn [orb]. split; vm_compute; reflexivity.
    + assert (Hf : f64_fin d) by (unfold f64_fin, f64_pos in *; lia). rewrite fin_sub_general by done.
      set (n := f64_val v - f64_val d). assert (Hn : n < 0).
      { subst n. rewrite !pos_val by auto with gorti. pose proof (mag_val_lt b64 b64_wf (f64_bits v) (f64_bits d)). lia. }
      assert (Hr : 1 <= round_mag b64 (Z.abs n) <= inf_mag b64).
      { split; [|apply round_mag_range; [exact b64_wf|lia]].
        apply round_mag_ge; [exact b64_wf|split; vm_compute; congruence|]. change (mag_val b64 1) with 1. lia. }
      assert (f64_round false n = f64_mk true (round_mag b64 (Z.abs n))) as -> by (unfold f64_round; zcases).
      split; [|apply mk_neg_ltb; lia]. unfold f64_isNaN, f64_mk, f64_mag. cbn [f64_bits].
      rewrite mag_mk by (pose proof signw_b64_big; lia). zcases.
Qed.
Lemma left_bits_mono v d d' : f64_fin v -> f64_pos d -> f64_bits d <= f64_bits d' -> left_bits v d' <= left_bits v d.
Proof.
  intros Hv Hd Hle. unfold left_bits. unfold f64_fin, f64_pos in *.
  destruct (Z.leb_spec (f64_bits d') (f64_bits v)); destruct (Z.leb_spec (f64_bits d) (f64_bits v)); try lia.
  - apply round_mag_mono; [exact b64_wf|]. pose proof (mag_val_le b64 b64_wf (f64_bits d) (f64_bits d')).
    pose proof (mag_val_le b64 b64_wf (f64_bits d') (f64_bits v)). lia.
  - apply round_mag_range; [exact b64_wf|]. pose proof (mag_val_le b64 b64_wf (f64_bits d) (f64_bits v)). lia.
Qed.
Lemma float_since_mono o a a' : f64_fin o -> f64_pos a -> f64_pos a' -> f64_bits o < f64_bits a ->
  f64_bits a <= f64_bits a' -> f64_bits (f64_sub a o) <= f64_bits (f64_sub a' o).
Proof.
  intros Ho Ha Ha' Hlt Hle. rewrite !float_since by (done || lia). cbn [f64_bits]. unfold f64_fin, f64_pos in *.
  pose proof (mag_val_lt b64 b64_wf (f64_bits o) (f64_bits a) ltac:(lia)).
  destruct (Z.eqb_spec (f64_bits a) (inf_mag b64)); destruct (Z.eqb_spec (f64_bits a') (inf_mag b64)); try lia.
  - apply round_mag_range; [exact b64_wf|lia].
  - apply round_mag_mono; [exact b64_wf|]. pose proof (mag_val_le b64 b64_wf (f64_bits a) (f64_bits a')). lia.
Qed.

#[export, refine] Instance float64_lawful : LawfulScalar f64 := {
  key := f64_bits; s_ok := f64_pos; s_fin := f64_fin; top := inf_mag b64; addKey := float_addKey }.
Proof.
  - apply f64_fin_pos.
  - done.
  - unfold f64_fin. lia.
  - unfold f64_fin, f64_pos. lia.
  - intros a b _ _. apply f64_ext.
  - split; vm_compute; congruence.
  - reflexivity.
  - apply pos_ltb.
  - apply pos_leb.
  - apply pos_eqb.
  - apply float_min.
  - apply float_max.
  - intros a Ha. unfold scalarNaN. simpl. by apply pos_not_nan.
  - intros a Ha. unfold scalarInfinite. simpl. by apply pos_isInf.
  - split; [apply inf_pos|done].
  - done.
  - intros a Ha. unfold successor. simpl. rewrite fin_next by done. unfold f64_fin in Ha.
    split; [|done]. unfold f64_pos. simpl. lia.
  - apply float_addKey_range.
  - intros a b Ha Hb E. unfold float_addKey, sum_bits. simpl. rewrite E. simpl. zcases.
  - apply float_addKey_mono.
  - apply float_addHorizon_key.
  - intros o a Ho Ha. change s_zero with (f64_of_int 0). change (f64_of_int 0) with f64_zero. simpl.
    destruct (Z.ltb_spec (f64_bits o) (f64_bits a)) as [Hlt|Hge].
    + destruct (float_since_pos o a Ho Ha Hlt) as [Hp Hlt']. rewrite pos_ltb by auto with gorti. simpl. zcases.
    + assert (Hf : f64_fin a) by (unfold f64_fin, f64_pos in *; lia). by apply float_sub_not_pos.
  - intros c v o a Hc Hv Ho Ha Hlt. simpl. destruct (float_since_pos o a Ho Ha Hlt) as [Hp Hlt'].
    destruct (float_reduce c v _ Hc Hv Hp Hlt') as [-> Hr]. unfold f64_fin in *. cbn [f64_bits]. lia.
  - intros c v o a a' Hc Hv Ho Ha Ha' Hlt Hle. simpl. destruct (float_since_pos o a Ho Ha Hlt) as [Hp Hlt'].
    destruct (float_since_pos o a' Ho Ha' ltac:(lia)) as [Hp' Hlt''].
    destruct (float_reduce c v _ Hc Hv Hp Hlt') as [-> _]. destruct (float_reduce c v _ Hc Hv Hp' Hlt'') as [-> _].
    cbn [f64_bits]. pose proof (left_bits_mono v _ _ Hv Hp (float_since_mono o a a' Ho Ha Ha' Hlt Hle)). lia.
Defined.
End Float64.
