(* ===== verification/TimeService.v ===== *)
(** * Time management ([rti/internal/hla/time])

    The decisions of the time manager, generic in the logical-time scalar, file
    by file: grants ([advance.go], [typed_grant.go], [strategy.go]), the lower
    bound on time stamps ([lbts.go]), regulation and lookahead
    ([regulation.go], [zero_lookahead.go], [lookahead.go], [ModifyLookahead]),
    outgoing timestamps ([validate_tso.go], [typed_timestamp.go]), enabling
    ([enable.go]) and the available horizon ([galt.go]).  A nil pointer is
    [None].  Locks are not modelled: the evaluator lease of a federation
    serializes its operations.  Wall-clock accounting ([elapsed],
    [pendingSince]) is left out. *)
From stdpp Require Import gmap.
From S2P Require Import Prelude GoBytes GoFloat LogicalTime TimeScalar.
Open Scope Z_scope.

Inductive time_error :=
| ErrFederationHalted
| ErrTimeNotRegulating
| ErrTimeNotConstrained
| ErrTimeInvalidLookahead
| ErrTimeRequestInPast
| ErrTimeAlreadyRegulating
| ErrTimeAlreadyConstrained
| ErrTimeAdvancingState          (** also [ErrDuplicateNER] *)
| ErrTimeInvalidLogicalTime
| ErrTimeRegulationPending
| ErrTimeConstrainedPending
| logicaltimeError (e : lt_error)
| time_errorf (msg : string).
Definition lift_lt {A} (m : outcome lt_error A) : outcome time_error A := mapErr logicaltimeError m.

(** ** advance.go: modes *)
Inductive AdvanceMode :=
| ModeNone | ModeNER | ModeNMRA | ModeTAR | ModeTARA | ModeFQR
| ModeOther (m : Z).             (** an [int] outside the constants *)
#[export] Instance AdvanceMode_eq_dec : EqDecision AdvanceMode.
Proof. solve_decision. Defined.

Definition usesNextMessageTarget (m : AdvanceMode) : bool :=
  match m with ModeNER | ModeNMRA => true | _ => false end.
Definition inclusiveLBTS (m : AdvanceMode) : bool :=
  match m with ModeNMRA | ModeTARA | ModeFQR => true | _ => false end.
Definition strictAdvance (m : AdvanceMode) : bool :=
  match m with ModeTAR | ModeNER => true | _ => false end.

(** ** Grants *)
Record grantDecisionOf (T : Type) := MkGrant { fire : bool; time : T; clearPending : bool }.
Arguments MkGrant {T} _ _ _.
Arguments fire {T} _.
Arguments time {T} _.
Arguments clearPending {T} _.

(** [GrantContextOf]; [solePending] is consulted by no default policy. *)
Record GrantContextOf (T : Type) := {
  c_Mode : AdvanceMode; c_CurrentTime : T; c_Requested : T; c_LBTS : T; c_LBTSUnbounded : bool;
  c_SolePending : bool; c_NextTSOTime : T; c_HasTSO : bool;
}.
Arguments c_Mode {T} _. Arguments c_CurrentTime {T} _. Arguments c_Requested {T} _. Arguments c_LBTS {T} _.
Arguments c_LBTSUnbounded {T} _. Arguments c_NextTSOTime {T} _. Arguments c_HasTSO {T} _.

Record RegulatingFederateOf (T : Type) := MkRegulator {
  rf_Handle : Z; rf_Time : T; rf_Lookahead : T; rf_Unbounded : bool;
}.
Arguments MkRegulator {T} _ _ _ _.
Arguments rf_Handle {T} _. Arguments rf_Time {T} _. Arguments rf_Lookahead {T} _. Arguments rf_Unbounded {T} _.

Record bufferedTSOEventOf (T : Type) := {
  timestamp : T;
  internalTSO : bool;              (** whether its event is an internal one *)
  receiveOrder : bool;
}.
Arguments timestamp {T} _. Arguments internalTSO {T} _. Arguments receiveOrder {T} _.

Record federateStateOf (T : Type) := MkFederate {
  regulating : bool;
  lookahead : T;
  constrained : bool;
  regulationPending : bool;
  regulationLookahead : T;
  constrainedPending : bool;
  preservedReceiveTime : option T;
  receivedTSOTime : option T;
  lookaheadTarget : T;
  reducingLookahead : bool;
  lookaheadOriginTime : T;
  lookaheadOriginValue : T;
}.
Arguments MkFederate {T} _ _ _ _ _ _ _ _ _ _ _ _.
Arguments regulating {T} _. Arguments lookahead {T} _. Arguments constrained {T} _.
Arguments regulationPending {T} _. Arguments regulationLookahead {T} _. Arguments constrainedPending {T} _.
Arguments preservedReceiveTime {T} _. Arguments receivedTSOTime {T} _. Arguments lookaheadTarget {T} _.
Arguments reducingLookahead {T} _. Arguments lookaheadOriginTime {T} _. Arguments lookaheadOriginValue {T} _.

Record nerStateOf (T : Type) := MkNer {
  currentTime : T;
  pendingNER : bool;
  requestedTime : T;
  mode : AdvanceMode;
  strictZeroLookahead : bool;
  flushMinimum : option T;
  tsoBuffer : list (bufferedTSOEventOf T);
}.
Arguments MkNer {T} _ _ _ _ _ _ _.
Arguments currentTime {T} _. Arguments pendingNER {T} _. Arguments requestedTime {T} _. Arguments mode {T} _.
Arguments strictZeroLookahead {T} _. Arguments flushMinimum {T} _. Arguments tsoBuffer {T} _.

Section Time.
Context {T : Type} `{LogicalTimeScalar T}.
Implicit Types (fs : federateStateOf T) (ns : nerStateOf T).

(** *** typed_grant.go, advance.go, strategy.go *)
Definition decideScalarGrant (mode : AdvanceMode) (current requested bound : T) (unbounded : bool)
    (next : T) (hasTSO : bool) : grantDecisionOf T :=
  if bool_decide (mode = ModeFQR) then
    let target := if negb unbounded then s_min requested bound else requested in
    let target := if hasTSO then s_min target next else target in
    MkGrant true (s_max current target) true
  else
    let target := if usesNextMessageTarget mode && hasTSO && s_le current next && s_lt next requested
                  then next else requested in
    let fire := if inclusiveLBTS mode then unbounded || s_le target bound else unbounded || s_lt target bound in
    if fire then MkGrant true target true else MkGrant false s_zero false.

Definition decideGrantOf (mode : AdvanceMode) (current requested lbts : T) (solePending : bool)
    (nextTSO : T) (hasTSO : bool) : grantDecisionOf T :=
  decideScalarGrant mode current requested lbts false nextTSO hasTSO.
(** [defaultGrantOf.DecideGrant]; [GrantDecisionOf] has the same three fields. *)
Definition DecideGrant (c : GrantContextOf T) : grantDecisionOf T :=
  decideScalarGrant (c_Mode c) (c_CurrentTime c) (c_Requested c) (c_LBTS c)
    (c_LBTSUnbounded c && integerScalar) (c_NextTSOTime c) (c_HasTSO c).

(** *** lbts.go *)
Definition LBTSBoundOf (set : list (RegulatingFederateOf T)) : TimeBoundOf T :=
  fold_left (fun bound rf =>
    if negb (rf_Unbounded rf) then
      let contribution := addHorizon (rf_Time rf) (rf_Lookahead rf) in
      if negb (scalarNaN (Limit contribution)) then minimumHorizon bound contribution else bound
    else bound) set unboundedHorizon.
Definition LBTSOf (set : list (RegulatingFederateOf T)) : T := horizonScalar (LBTSBoundOf set).

(** *** lookahead.go, regulation.go *)
Definition checkAdvanceTargetOf (currentTime requested : T) : outcome time_error () :=
  if scalarNaN requested || integerScalar && s_lt requested s_zero then Fail ErrTimeInvalidLogicalTime
  else if s_lt requested currentTime then Fail ErrTimeRequestInPast
  else Ret ().
Definition validLookaheadOf (t : T) : bool := s_le s_zero t && negb (scalarNaN t) && negb (scalarInfinite t).
Definition projectedLookahead fs (at_ : T) : T :=
  let delta := s_sub at_ (lookaheadOriginTime fs) in
  if reducingLookahead fs && s_lt s_zero delta
  then s_max (lookaheadTarget fs) (s_sub (lookaheadOriginValue fs) delta)
  else lookahead fs.

(** Assignments to the lookahead fields. *)
Definition set_lookahead fs (la target : T) (reducing : bool) (originTime originValue : T) : federateStateOf T :=
  MkFederate (regulating fs) la (constrained fs) (regulationPending fs) (regulationLookahead fs)
    (constrainedPending fs) (preservedReceiveTime fs) (receivedTSOTime fs) target reducing originTime originValue.
Definition set_regulating fs (b : bool) : federateStateOf T :=
  MkFederate b (lookahead fs) (constrained fs) (regulationPending fs) (regulationLookahead fs)
    (constrainedPending fs) (preservedReceiveTime fs) (receivedTSOTime fs) (lookaheadTarget fs)
    (reducingLookahead fs) (lookaheadOriginTime fs) (lookaheadOriginValue fs).
Definition set_constrained fs (b : bool) (preserved received : option T) : federateStateOf T :=
  MkFederate (regulating fs) (lookahead fs) b (regulationPending fs) (regulationLookahead fs)
    (constrainedPending fs) preserved received (lookaheadTarget fs)
    (reducingLookahead fs) (lookaheadOriginTime fs) (lookaheadOriginValue fs).
Definition set_received fs (preserved received : option T) : federateStateOf T :=
  set_constrained fs (constrained fs) preserved received.

Definition advanceLookahead fs (at_ : T) : federateStateOf T :=
  if negb (regulating fs) || negb (reducingLookahead fs) then fs
  else
    let la := projectedLookahead fs at_ in
    if s_eq la (lookaheadTarget fs) then set_lookahead fs la s_zero false s_zero s_zero
    else set_lookahead fs la (lookaheadTarget fs) true (lookaheadOriginTime fs) (lookaheadOriginValue fs).

Definition newFederateState : federateStateOf T :=
  MkFederate false s_zero false false s_zero false None None s_zero false s_zero s_zero.
Definition newNerState : nerStateOf T := MkNer s_zero false s_zero ModeNone false None [].

(** One federate's entry of [stateStoreOf]; the store is [option]-valued per key. *)
Definition getOrCreate (o : option (federateStateOf T)) : federateStateOf T := default newFederateState o.
Definition enableRegulation (o : option (federateStateOf T)) (la : T)
    : option (federateStateOf T) * outcome time_error () :=
  if negb (validLookaheadOf la) then (o, Fail ErrTimeInvalidLookahead)
  else
    let st := getOrCreate o in
    if regulating st then (Some st, Fail ErrTimeAlreadyRegulating)
    else (Some (set_lookahead (set_regulating st true) la s_zero false s_zero s_zero), Ret ()).
Definition disableRegulation (o : option (federateStateOf T)) : option (federateStateOf T) * outcome time_error () :=
  match o with
  | Some st =>
      if negb (regulating st) then (o, Fail ErrTimeNotRegulating)
      else (Some (set_lookahead (set_regulating st false) s_zero s_zero false s_zero s_zero), Ret ())
  | None => (o, Fail ErrTimeNotRegulating)
  end.
Definition enableConstrained (o : option (federateStateOf T)) : option (federateStateOf T) * outcome time_error () :=
  let st := getOrCreate o in
  if constrained st then (Some st, Fail ErrTimeAlreadyConstrained)
  else (Some (set_constrained st true (preservedReceiveTime st) (receivedTSOTime st)), Ret ()).
Definition disableConstrained (o : option (federateStateOf T)) : option (federateStateOf T) * outcome time_error () :=
  match o with
  | Some st =>
      if negb (constrained st) then (o, Fail ErrTimeNotConstrained)
      else (Some (set_constrained st false None None), Ret ())
  | None => (o, Fail ErrTimeNotConstrained)
  end.

(** The state change of [ManagerOf.ModifyLookahead]. *)
Definition ModifyLookahead (halted : bool) (o : option (federateStateOf T)) (ns : option (nerStateOf T)) (la : T)
    : option (federateStateOf T) * outcome time_error () :=
  if halted then (o, Fail ErrFederationHalted)
  else if negb (validLookaheadOf la) then (o, Fail ErrTimeInvalidLookahead)
  else
    match o with
    | None => (o, Fail ErrTimeNotRegulating)
    | Some fs =>
        if negb (regulating fs) then (o, Fail ErrTimeNotRegulating)
        else if match ns with Some ns => pendingNER ns | None => false end then (o, Fail ErrTimeAdvancingState)
        else if s_le (lookahead fs) la then (Some (set_lookahead fs la s_zero false s_zero s_zero), Ret ())
        else
          let originValue := if negb (reducingLookahead fs) then lookahead fs else lookaheadOriginValue fs in
          let originTime :=
            if negb (reducingLookahead fs) then match ns with Some ns => currentTime ns | None => s_zero end
            else lookaheadOriginTime fs in
          (Some (set_lookahead fs (lookahead fs) la true originTime originValue), Ret ())
    end.

(** *** advance.go: the state change of [recordAdvance] *)
Definition pendingEnableError (o : option (federateStateOf T)) : outcome time_error () :=
  match o with
  | Some fs =>
      if regulationPending fs then Fail ErrTimeRegulationPending
      else if constrainedPending fs then Fail ErrTimeConstrainedPending
      else Ret ()
  | None => Ret ()
  end.
Definition recordAdvance (halted : bool) (fs : option (federateStateOf T)) (o : option (nerStateOf T)) (t : T)
    (m : AdvanceMode) : option (nerStateOf T) * outcome time_error () :=
  if halted then (o, Fail ErrFederationHalted)
  else
    match pendingEnableError fs with
    | Ret _ =>
        match checkAdvanceTargetOf (match o with Some ns => currentTime ns | None => s_zero end) t with
        | Ret _ =>
            let ns := default newNerState o in
            if pendingNER ns then (Some ns, Fail ErrTimeAdvancingState)
            else (Some (MkNer (currentTime ns) true t m (strictZeroLookahead ns) None (tsoBuffer ns)), Ret ())
        | e => (o, e)
        end
    | e => (o, e)
    end.

(** *** zero_lookahead.go *)
Definition recordGrantBound ns (t : T) : nerStateOf T :=
  let strict := if s_lt (currentTime ns) t then false else strictZeroLookahead ns in
  let strict := if strictAdvance (mode ns) then true else strict in
  MkNer (currentTime ns) (pendingNER ns) (requestedTime ns) (mode ns) strict (flushMinimum ns) (tsoBuffer ns).
(** [(base, lookahead, exclusive)]. *)
Definition outgoingTSOBoundOf fs (o : option (nerStateOf T)) : T * T * bool :=
  match o with
  | None => (s_zero, lookahead fs, false)
  | Some ns =>
      let base := if pendingNER ns then requestedTime ns else currentTime ns in
      let la := if pendingNER ns then projectedLookahead fs base else lookahead fs in
      let exclusive :=
        if pendingNER ns then strictAdvance (mode ns) || strictZeroLookahead ns && s_eq base (currentTime ns)
        else strictZeroLookahead ns in
      (base, la, exclusive && s_eq la s_zero && negb (scalarInfinite base))
  end.
Definition regulatingBoundSnapshotOf (h : Z) fs (o : option (nerStateOf T)) : RegulatingFederateOf T :=
  let '(base, la, exclusive) := outgoingTSOBoundOf fs o in
  if exclusive then
    let (base, possible) := successor base in MkRegulator h base la (negb possible)
  else MkRegulator h base la false.

(** *** validate_tso.go, typed_timestamp.go *)
Definition timestampAtOrBeyond (timestamp lower : T) (exclusive : bool) : bool :=
  s_lt lower timestamp || negb exclusive && s_eq timestamp lower.
Definition ValidateOutgoingTSO (o : option (federateStateOf T)) (ns : option (nerStateOf T)) (ts : T)
    : outcome time_error () :=
  if integerScalar && s_lt ts s_zero then Fail ErrTimeInvalidLogicalTime
  else
    match o with
    | None => Ret ()
    | Some fs =>
        if negb (regulating fs) then Ret ()
        else
          let '(timeBase, la, exclusive) := outgoingTSOBoundOf fs ns in
          let floor := addHorizon timeBase la in
          if negb (Unbounded floor) && timestampAtOrBeyond ts (Limit floor) exclusive
             || negb integerScalar && timestampAtOrBeyond ts (horizonScalar floor) exclusive
          then Ret () else Fail ErrTimeInvalidLogicalTime
    end.
End Time.

Definition ValidateTypedOutgoingTSO (base : Time) (la : Interval) (timestamp : Time) (exclusive : bool)
    : outcome time_error () :=
  bound ← lift_lt (AddTypedTimeBound base la);
  if negb (bool_decide (t_Representation timestamp = t_Representation (Limit bound)))
  then Fail (logicaltimeError ErrRepresentationMismatch)
  else
    order ← lift_lt (t_Compare timestamp (Limit bound));
    if negb (Unbounded bound) && ((0 <? order) || negb exclusive && (order =? 0)) then Ret ()
    else Fail ErrTimeInvalidLogicalTime.

(** *** typed_grant.go: typed values *)
Record TypedRegulatingFederate := { tr_Time : Time; tr_Lookahead : Interval }.
Record TypedGrantContext := {
  t_Mode : AdvanceMode; t_CurrentTime : Time; t_Requested : Time; t_LBTS : TimeBound;
  t_NextTSOTime : Time; t_HasTSO : bool;
}.
(** [TypedGrantDecision]; its zero value has the zero [Time]. *)
Definition zeroTime : Time := MkTime (Scalar Unspecified 0).
Definition noGrant : grantDecisionOf Time := MkGrant false zeroTime false.

Fixpoint TypedLBTS_loop (k : Representation) (minimum : TimeBound) (set : list TypedRegulatingFederate)
    : outcome lt_error TimeBound :=
  match set with
  | [] => Ret minimum
  | regulator :: set =>
      if negb (bool_decide (t_Representation (tr_Time regulator) = k))
         || negb (bool_decide (i_Representation (tr_Lookahead regulator) = k)) then Fail ErrRepresentationMismatch
      else
        bound ← AddTypedTimeBound (tr_Time regulator) (tr_Lookahead regulator);
        if Unbounded bound then TypedLBTS_loop k minimum set
        else
          order ← t_Compare (Limit bound) (Limit minimum);
          TypedLBTS_loop k (if Unbounded minimum || (order <? 0) then bound else minimum) set
  end.
Definition TypedLBTS (k : Representation) (set : list TypedRegulatingFederate) : outcome lt_error TimeBound :=
  minimum ← unboundedTime k; TypedLBTS_loop k minimum set.

(** [value, _ := x.Integer64()]: zero on an error. *)
Definition orZero {A} (z : A) (m : outcome lt_error A) : A := match m with Ret a => a | _ => z end.
Definition decideIntegerGrant `{GoArch} (c : TypedGrantContext) : outcome lt_error (grantDecisionOf Time) :=
  let current := orZero 0 (t_Integer64 (t_CurrentTime c)) in
  let requested := orZero 0 (t_Integer64 (t_Requested c)) in
  let bound := orZero 0 (t_Integer64 (Limit (t_LBTS c))) in
  let next := if t_HasTSO c then orZero 0 (t_Integer64 (t_NextTSOTime c)) else 0 in
  let d := decideScalarGrant (T := Z) (t_Mode c) current requested bound (Unbounded (t_LBTS c)) next (t_HasTSO c) in
  if negb (fire d) then Ret noGrant
  else value ← Integer64 (time d); Ret (MkGrant true value (clearPending d)).
Definition decideFloatGrant `{GoArch} (c : TypedGrantContext) : outcome lt_error (grantDecisionOf Time) :=
  let current := orZero f64_zero (t_Float64 (t_CurrentTime c)) in
  let requested := orZero f64_zero (t_Float64 (t_Requested c)) in
  let bound := orZero f64_zero (t_Float64 (Limit (t_LBTS c))) in
  let next := if t_HasTSO c then orZero f64_zero (t_Float64 (t_NextTSOTime c)) else f64_zero in
  let d := decideScalarGrant (T := f64) (t_Mode c) current requested bound (Unbounded (t_LBTS c)) next (t_HasTSO c) in
  if negb (fire d) then Ret noGrant
  else value ← Float64 (time d); Ret (MkGrant true value (clearPending d)).
Definition DecideTypedGrant `{GoArch} (c : TypedGrantContext) : outcome time_error (grantDecisionOf Time) :=
  match t_Mode c with
  | ModeNone | ModeOther _ => Fail (time_errorf "time: invalid advance mode")
  | _ =>
      let k := t_Representation (t_CurrentTime c) in
      if bool_decide (k = Unspecified) then Fail (logicaltimeError ErrUnknownRepresentation)
      else if negb (bool_decide (t_Representation (t_Requested c) = k))
              || negb (bool_decide (t_Representation (Limit (t_LBTS c)) = k))
              || t_HasTSO c && negb (bool_decide (t_Representation (t_NextTSOTime c) = k))
      then Fail (logicaltimeError ErrRepresentationMismatch)
      else
        order ← lift_lt (t_Compare (t_Requested c) (t_CurrentTime c));
        if order <? 0 then Fail (time_errorf "time: request precedes current time")
        else if bool_decide (k = HLAinteger64Time) then lift_lt (decideIntegerGrant c) else lift_lt (decideFloatGrant c)
  end.

Section Enable.
Context {T : Type} `{LogicalTimeScalar T}.
Implicit Types (fs : federateStateOf T) (ns : nerStateOf T).

(** *** enable.go *)

(** The least time at which the federate may become regulating: its sends, at
    [lookahead] and later, must not precede the peer.  The binary search halves
    a distance below [2^63], so 65 rounds are enough; [uint64] subtraction
    cannot wrap, [lo < hi] being invariant. *)
Fixpoint searchEnable (legal : T -> bool) (fuel : nat) (lo hi : Z) : outcome time_error Z :=
  match fuel with
  | O => Panic "out of fuel"
  | S fuel =>
      if 1 <? hi - lo then
        let mid := lo + (hi - lo) / 2 in
        if legal (of_float64 (Float64frombits mid)) then searchEnable legal fuel lo mid
        else searchEnable legal fuel mid hi
      else Ret hi
  end.
Definition minimumEnableTimeOf (current la peerTime : T) (exclusive : bool) : outcome time_error (T * bool) :=
  let current := s_max s_zero current in
  if integerScalar then
    let lower := s_sub peerTime la in
    if exclusive then
      let (lower, possible) := successor lower in
      if negb possible then Ret (s_zero, false) else Ret (s_max current lower, true)
    else Ret (s_max current lower, true)
  else
    let legal at_ :=
      let bound := addTimeBoundOf at_ la in
      if exclusive then s_lt peerTime bound else s_le peerTime bound in
    if legal current then Ret (current, true)
    else if f64_isInf (to_float64 peerTime) && negb (f64_sign (to_float64 peerTime)) then Ret (s_zero, false)
    else
      let next x := of_float64 (f64_Nextafter (to_float64 x) (f64_inf false)) in
      let floor := if exclusive then next peerTime else peerTime in
      let upper := s_max current (s_sub floor la) in
      let upper := if negb (legal upper) then next upper else upper in
      let posInf x := f64_isInf (to_float64 x) && negb (f64_sign (to_float64 x)) in
      let upper := if posInf upper || negb (legal upper) then of_float64 f64_maxFinite else upper in
      if negb (legal upper) then Ret (s_zero, false)
      else
        hi ← searchEnable legal 65 (Float64bits (to_float64 current)) (Float64bits (to_float64 upper));
        Ret (of_float64 (Float64frombits hi), true).

Definition validateEnableRequest (fs : option (federateStateOf T)) (ns : option (nerStateOf T)) (regulation : bool)
    : outcome time_error () :=
  let isP (f : federateStateOf T -> bool) := match fs with Some fs => f fs | None => false end in
  if match ns with Some ns => pendingNER ns | None => false end then Fail ErrTimeAdvancingState
  else if regulation && isP regulationPending then Fail ErrTimeRegulationPending
  else if negb regulation && isP constrainedPending then Fail ErrTimeConstrainedPending
  else if regulation && isP regulating then Fail ErrTimeAlreadyRegulating
  else if negb regulation && isP constrained then Fail ErrTimeAlreadyConstrained
  else Ret ().

(** The constrained peers, in the order the map yields them. *)
Fixpoint regulationEnableTime (peers : list (federateStateOf T * nerStateOf T)) (target la : T)
    : outcome time_error (T * bool) :=
  match peers with
  | [] => Ret (target, true)
  | (peer, other) :: peers =>
      if negb (constrained peer) then regulationEnableTime peers target la
      else
        let frontier := match receivedTSOTime peer with
                        | Some t => s_max (currentTime other) t | None => currentTime other end in
        let exclusive := match preservedReceiveTime peer with Some t => s_eq t frontier | None => false end in
        r ← minimumEnableTimeOf target la frontier exclusive;
        let (target, possible) := (r : T * bool) in
        if negb possible then Ret (s_zero, false) else regulationEnableTime peers target la
  end.

Definition recordReceivedGrant fs (m : AdvanceMode) (at_ : T) : federateStateOf T :=
  if negb (constrained fs) then fs
  else if strictAdvance m then set_received fs (Some at_) (receivedTSOTime fs)
  else
    match preservedReceiveTime fs with
    | Some t => if s_lt t at_ then set_received fs None (receivedTSOTime fs) else fs
    | None => fs
    end.

(** *** galt.go *)
Definition availableSendHorizon fs (o : option (nerStateOf T)) : TimeBoundOf T :=
  let bound := regulatingBoundSnapshotOf 0 fs o in
  if rf_Unbounded bound then unboundedHorizon else addHorizon (rf_Time bound) (rf_Lookahead bound).
Definition availableHorizonAfterGrant fs ns (at_ : T) : TimeBoundOf T :=
  let at_ := s_max (currentTime ns) (s_min at_ (requestedTime ns)) in
  let granted := recordGrantBound ns at_ in
  let granted := MkNer at_ false (requestedTime granted) (mode granted) (strictZeroLookahead granted)
                   (flushMinimum granted) (tsoBuffer granted) in
  let regulation := set_lookahead fs (projectedLookahead fs at_) (lookaheadTarget fs) (reducingLookahead fs)
                      (lookaheadOriginTime fs) (lookaheadOriginValue fs) in
  availableSendHorizon regulation (Some granted).

Record availableRegulatorOf := { ar_h : Z; ar_fs : federateStateOf T; ar_ns : option (nerStateOf T);
                                 ar_bound : TimeBoundOf T }.
Definition set_bound (p : availableRegulatorOf) (b : TimeBoundOf T) : availableRegulatorOf :=
  {| ar_h := ar_h p; ar_fs := ar_fs p; ar_ns := ar_ns p; ar_bound := b |}.
Definition availableRegulatorSnapshot (h : Z) fs (o : option (nerStateOf T)) : availableRegulatorOf :=
  let bound := availableSendHorizon fs o in
  {| ar_h := h; ar_fs := fs; ar_ns := o;
     ar_bound :=
       match o with
       | Some ns =>
           if constrained fs && pendingNER ns && (usesNextMessageTarget (mode ns) || bool_decide (mode ns = ModeFQR)) then
             let bound := match flushMinimum ns with
                          | Some t => minimumHorizon bound (availableHorizonAfterGrant fs ns t) | None => bound end in
             fold_left (fun bound item =>
               if negb (internalTSO item) && s_lt (timestamp item) (requestedTime ns)
               then minimumHorizon bound (availableHorizonAfterGrant fs ns (timestamp item)) else bound)
               (tsoBuffer ns) bound
           else bound
       | None => bound
       end |}.

(** One peer of one pass of [propagateFlushHorizons]. *)
Definition propagateOne (peers : list availableRegulatorOf) (i : nat) : list availableRegulatorOf * bool :=
  match peers !! i with
  | Some peer =>
      match ar_ns peer with
      | Some ns =>
          if negb (constrained (ar_fs peer)) || negb (pendingNER ns) || negb (bool_decide (mode ns = ModeFQR))
          then (peers, false)
          else
            let incoming := fold_left (fun b p => minimumHorizon b (ar_bound p)) (delete i peers) unboundedHorizon in
            if negb (Unbounded incoming) && s_lt (Limit incoming) (requestedTime ns) then
              let bound := availableHorizonAfterGrant (ar_fs peer) ns (Limit incoming) in
              if negb (Unbounded bound) && (Unbounded (ar_bound peer) || s_lt (Limit bound) (Limit (ar_bound peer)))
              then (<[i := set_bound peer bound]> peers, true) else (peers, false)
            else (peers, false)
      | None => (peers, false)
      end
  | None => (peers, false)
  end.
Definition propagatePass (peers : list availableRegulatorOf) : list availableRegulatorOf * bool :=
  fold_left (fun r i => let (peers, changed) := propagateOne r.1 i in (peers, r.2 || changed))
    (seq 0 (length peers)) (peers, false).
Fixpoint propagateFlushHorizons (passes : nat) (peers : list availableRegulatorOf) : list availableRegulatorOf :=
  match passes with
  | O => peers
  | S passes => let (peers, changed) := propagatePass peers in
                if changed then propagateFlushHorizons passes peers else peers
  end.
(** The regulators of the federation, in the order the map yields them; [None]
    when no other regulator exists. *)
Definition availableHorizonLocked (regulators : list (Z * federateStateOf T * option (nerStateOf T))) (self : Z)
    : option (TimeBoundOf T) :=
  let peers := map (fun '(h, fs, o) => availableRegulatorSnapshot h fs o)
                 (filter (fun r => regulating r.1.2) regulators) in
  let peers := propagateFlushHorizons (length peers) peers in
  fold_left (fun result peer =>
    if negb (ar_h peer =? self) &&
       match result with
       | None => true
       | Some r => negb (Unbounded (ar_bound peer)) && (Unbounded r || s_lt (Limit (ar_bound peer)) (Limit r))
       end
    then Some (ar_bound peer) else result) peers None.

(** *** ner.go: candidates and grants *)
Definition regulatingSnapshot (regulators : list (Z * federateStateOf T * option (nerStateOf T)))
    : list (RegulatingFederateOf T) :=
  map (fun '(h, fs, o) => regulatingBoundSnapshotOf h fs o) (filter (fun r => regulating r.1.2) regulators).
Definition nextGrantMessage ns : T * bool :=
  let start := match flushMinimum ns with
               | Some t => if bool_decide (mode ns = ModeFQR) || usesNextMessageTarget (mode ns)
                           then (t, true) else (s_zero, false)
               | None => (s_zero, false)
               end in
  fold_left (fun (r : T * bool) item =>
    if negb (internalTSO item) && (negb r.2 || s_lt (timestamp item) r.1) then (timestamp item, true) else r)
    (tsoBuffer ns) start.
(** [decideCandidateGrant] for the candidate [h] with the default strategies:
    [fs] and [ns] are its states, [regulators] the federates of its federation. *)
Definition decideCandidateGrant (regulators : list (Z * federateStateOf T * option (nerStateOf T))) (h : Z)
    (fs : option (federateStateOf T)) ns (solePending : bool) : grantDecisionOf T :=
  let lbts := LBTSBoundOf (regulatingSnapshot regulators) in
  let (nextTSO, hasTSO) := nextGrantMessage ns in
  let isConstrained := match fs with Some fs => constrained fs | None => false end in
  let candidateBound :=
    if isConstrained then
      match availableHorizonLocked regulators h with
      | Some bound => minimumHorizon lbts bound | None => lbts end
    else unboundedHorizon in
  DecideGrant {| c_Mode := mode ns; c_CurrentTime := currentTime ns; c_Requested := requestedTime ns;
                 c_LBTS := horizonScalar candidateBound; c_LBTSUnbounded := Unbounded candidateBound;
                 c_SolePending := solePending; c_NextTSOTime := nextTSO; c_HasTSO := isConstrained && hasTSO |}.

(** The state change of [commitReservedGrant] ([sendUnreservedGrant] makes the
    same one): undone when the reservation does not commit. *)
Definition commitGrant (fs : option (federateStateOf T)) ns (t : T) (clear commits : bool)
    : option (federateStateOf T) * nerStateOf T :=
  if negb commits then (fs, ns)
  else
    let fs' := (fun fs => advanceLookahead (recordReceivedGrant fs (mode ns) t) t) <$> fs in
    let ns' := recordGrantBound ns t in
    (fs', if clear then MkNer t false s_zero ModeNone (strictZeroLookahead ns') None (tsoBuffer ns')
          else MkNer t (pendingNER ns') (requestedTime ns') (mode ns') (strictZeroLookahead ns')
                 (flushMinimum ns') (tsoBuffer ns')).
End Enable.
