(* ===== verification/TimeTheorems.v ===== *)
(** * Theorems of time management

    Proved against [LawfulScalar], so they hold of Float64 and Integer64 time:
    what a grant is ([grant_decision]), which outgoing timestamps are accepted
    ([outgoing_tso_exact]), that the lower bound on time stamps is the
    least contribution ([lbts_minimum]), and how well-formed states and
    horizons behave, which the files that follow use. *)
From stdpp Require Import gmap.
From S2P Require Import Prelude GoBytes GoFloat LogicalTime TimeScalar TimeService.
Open Scope Z_scope.

(** ** Well-formed states *)
Section Wf.
Context {T : Type} `{LawfulScalar T}.
Implicit Types (fs : federateStateOf T) (ns : nerStateOf T).

Record fs_ok fs : Prop := {
  fs_la : s_fin (lookahead fs);
  fs_target : s_fin (lookaheadTarget fs);
  fs_origin : s_fin (lookaheadOriginTime fs);
  fs_value : s_fin (lookaheadOriginValue fs);
}.
Definition option_ok (o : option T) : Prop := match o with Some a => s_ok a | None => True end.
Record ner_ok ns : Prop := {
  ns_current : s_ok (currentTime ns);
  ns_requested : s_ok (requestedTime ns);
  ns_minimum : option_ok (flushMinimum ns);
  ns_buffer : Forall (fun item => s_ok (timestamp item)) (tsoBuffer ns);
}.
Definition ns_ok (o : option (nerStateOf T)) : Prop := match o with Some ns => ner_ok ns | None => True end.

Lemma projected_fin fs a : fs_ok fs -> s_ok a -> s_fin (projectedLookahead fs a).
Proof.
  intros [Hl Ht Ho Hv] Ha. unfold projectedLookahead. rewrite since_pos by done.
  destruct (reducingLookahead fs); simpl; [|done].
  destruct (Z.ltb_spec (key (lookaheadOriginTime fs)) (key a)); [|done]. by apply reduce_key.
Qed.

(** ** Outgoing bounds *)
Lemma eq_zero a : s_ok a -> s_eq a s_zero = (key a =? 0).
Proof. intros Ha. rewrite eq_key by (done || apply ok_zero). by rewrite key_zero. Qed.

Lemma outgoing_ok fs o : fs_ok fs -> ns_ok o ->
  let '(base, la, exclusive) := outgoingTSOBoundOf fs o in
  s_ok base /\ s_fin la /\ (exclusive = true -> key la = 0 /\ s_fin base).
Proof.
  intros Hf Hn. unfold outgoingTSOBoundOf. destruct o as [ns|]; [|split; [apply ok_zero|]; split; [apply Hf|done]].
  destruct Hn as [Hc Hr _ _].
  set (base := if pendingNER ns then requestedTime ns else currentTime ns).
  assert (Hb : s_ok base) by (subst base; by destruct (pendingNER ns)).
  set (la := if pendingNER ns then projectedLookahead fs base else lookahead fs).
  assert (Hla : s_fin la) by (subst la; destruct (pendingNER ns); [by apply projected_fin|apply Hf]).
  split; [done|]. split; [done|]. intros E. apply andb_true_iff in E as [E Hinf]. apply andb_true_iff in E as [_ Hz].
  rewrite eq_zero in Hz by (by apply fin_ok). split; [lia|]. apply ok_fin; [done|].
  rewrite ok_infinite in Hinf by done. pose proof (key_range base Hb).
  destruct integerScalar eqn:Ei; simpl in Hinf; [by apply int_lt_top|]. lia.
Qed.

(** The key of the least timestamp the federate may send. *)
Definition sendKey fs (o : option (nerStateOf T)) : Z :=
  let '(base, la, exclusive) := outgoingTSOBoundOf fs o in
  if exclusive then key base + 1 else addKey base la.

Definition contribution (rf : RegulatingFederateOf T) : TimeBoundOf T :=
  if rf_Unbounded rf then unboundedHorizon else addHorizon (rf_Time rf) (rf_Lookahead rf).
Definition rf_ok (rf : RegulatingFederateOf T) : Prop :=
  rf_Unbounded rf = true \/ s_ok (rf_Time rf) /\ s_fin (rf_Lookahead rf).
Lemma contribution_ok rf : rf_ok rf -> h_ok (contribution rf).
Proof.
  unfold contribution. intros [-> |[Ht Hl]]; [by left|]. destruct (rf_Unbounded rf); [by left|]. by apply addHorizon_ok.
Qed.

Lemma snapshot_key h fs o : fs_ok fs -> ns_ok o ->
  rf_ok (regulatingBoundSnapshotOf h fs o) /\ hkey (contribution (regulatingBoundSnapshotOf h fs o)) = sendKey fs o.
Proof.
  intros Hf Hn. pose proof (outgoing_ok fs o Hf Hn) as Hout. unfold regulatingBoundSnapshotOf, sendKey.
  destruct (outgoingTSOBoundOf fs o) as [[base la] exclusive]. destruct Hout as (Hb & Hla & Hex).
  destruct exclusive.
  - destruct (Hex eq_refl) as [Hz Hfin]. pose proof (successor_key base Hfin) as Hs.
    destruct (successor base) as [b possible]. destruct possible; unfold contribution, rf_ok; simpl.
    + destruct Hs as [Hbok Hk]. split; [by right|]. rewrite (proj2 (addHorizon_ok b la Hbok Hla)). by rewrite addKey_zero.
    + split; [by left|]. unfold hkey. simpl. by rewrite (proj1 Hs).
  - unfold contribution, rf_ok. simpl. split; [by right|]. apply addHorizon_ok; done.
Qed.

Lemma sendKey_range fs o : fs_ok fs -> ns_ok o -> 0 <= sendKey fs o <= top.
Proof.
  intros Hf Hn. destruct (snapshot_key 0 fs o Hf Hn) as [Hr <-]. by apply hkey_range, contribution_ok.
Qed.

Lemma accepted_key fs o ts : fs_ok fs -> ns_ok o -> s_ok ts -> regulating fs = true ->
  ValidateOutgoingTSO (Some fs) o ts = if sendKey fs o <=? key ts then Ret () else Fail ErrTimeInvalidLogicalTime.
Proof.
  intros Hf Hn Hts Hreg. pose proof (outgoing_ok fs o Hf Hn) as Hout. unfold ValidateOutgoingTSO, sendKey.
  rewrite Hreg, lt_key, key_zero by (done || apply ok_zero). pose proof (key_range ts Hts) as Hk.
  destruct (Z.ltb_spec (key ts) 0); [lia|]. rewrite andb_false_r. simpl.
  destruct (outgoingTSOBoundOf fs o) as [[base la] exclusive]. destruct Hout as (Hb & Hla & Hex).
  destruct (addHorizon_ok base la Hb Hla) as [Hok Hkey].
  assert (Hat : forall lower, s_ok lower ->
    timestampAtOrBeyond ts lower exclusive = if exclusive then key lower <? key ts else key lower <=? key ts).
  { intros lower Hlo. unfold timestampAtOrBeyond. rewrite lt_key, eq_key by done. destruct exclusive; simpl; [by rewrite orb_false_r|].
    zcases. }
  assert (Hexk : exclusive = true -> addKey base la = key base /\ key base < top).
  { intros E. destruct (Hex E) as [Hz Hfin]. split; [by apply addKey_zero|by apply fin_lt_top]. }
  unfold hkey, h_ok, horizonScalar in *. destruct (Unbounded (addHorizon base la)) eqn:Eu; simpl.
  - destruct horizon_top as [Htop Hkt]. unfold horizonScalar in Htop, Hkt. simpl in Htop, Hkt.
    destruct integerScalar eqn:Ei; simpl.
    + pose proof (int_lt_top ts Ei Hts). destruct exclusive; [destruct (Hexk eq_refl); lia|]. zcases.
    + rewrite Hat, Hkt by done. destruct exclusive; [destruct (Hexk eq_refl); lia|]. by rewrite <- Hkey.
  - destruct Hok as [?|Hok]; [done|]. rewrite Hat by done. rewrite Hkey. destruct exclusive.
    + destruct (Hexk eq_refl) as [-> _]. destruct integerScalar; simpl; zcases.
    + destruct integerScalar; simpl; zcases.
Qed.

(** ** The lower bound on time stamps *)
Definition lbts_step (bound : TimeBoundOf T) (rf : RegulatingFederateOf T) : TimeBoundOf T :=
  if negb (rf_Unbounded rf) then
    let contribution := addHorizon (rf_Time rf) (rf_Lookahead rf) in
    if negb (scalarNaN (Limit contribution)) then minimumHorizon bound contribution else bound
  else bound.
Lemma lbts_step_key h rf : h_ok h -> rf_ok rf ->
  h_ok (lbts_step h rf) /\ hkey (lbts_step h rf) = Z.min (hkey h) (hkey (contribution rf)).
Proof.
  intros Hh Hrf. pose proof (contribution_ok rf Hrf) as Hc. pose proof (hkey_range h Hh) as Hhr.
  unfold lbts_step, contribution in *.
  destruct (rf_Unbounded rf) eqn:Eu; cbn [negb]; [rewrite (proj2 unboundedHorizon_ok); split; [done|lia]|].
  destruct Hrf as [?|[Ht Hl]]; [congruence|]. cbv zeta.
  replace (scalarNaN (Limit (addHorizon (rf_Time rf) (rf_Lookahead rf)))) with false; [by apply minimumHorizon_key|].
  pose proof (addHorizon_key (rf_Time rf) (rf_Lookahead rf) Ht Hl) as Hk. cbv zeta in Hk. symmetry. apply ok_not_nan.
  destruct (Unbounded (addHorizon (rf_Time rf) (rf_Lookahead rf))) eqn:Eub; [|apply Hk].
  rewrite (addHorizon_unbounded _ _ Eub). apply ok_zero.
Qed.
(** The key of the bound is the least key of the contributions. *)
Definition lbtsKey (set : list (RegulatingFederateOf T)) : Z :=
  foldr Z.min top (map (fun rf => hkey (contribution rf)) set).
Lemma foldr_min_app z x l : foldr Z.min (Z.min z x) l = Z.min x (foldr Z.min z l).
Proof. induction l as [|y l IHl]; cbn [foldr]; [|rewrite IHl]; lia. Qed.
Lemma LBTS_fold set h : h_ok h -> Forall rf_ok set -> h_ok (fold_left lbts_step set h) /\
  hkey (fold_left lbts_step set h) = foldr Z.min (hkey h) (map (fun rf => hkey (contribution rf)) set).
Proof.
  intros Hh Hset. revert h Hh. induction Hset as [|rf set Hrf Hset IH]; intros h Hh; [done|].
  cbn [fold_left map foldr]. destruct (lbts_step_key h rf Hh Hrf) as [Hg Ek].
  destruct (IH _ Hg) as [Hok E]. split; [done|]. by rewrite E, Ek, foldr_min_app.
Qed.
Lemma LBTS_key set : Forall rf_ok set -> h_ok (LBTSBoundOf set) /\ hkey (LBTSBoundOf set) = lbtsKey set.
Proof. apply (LBTS_fold set unboundedHorizon), unboundedHorizon_ok. Qed.
Lemma lbtsKey_le set rf : rf ∈ set -> lbtsKey set <= hkey (contribution rf).
Proof.
  unfold lbtsKey. induction set as [|x set IH]; [by intros Hin%elem_of_nil|]. cbn [map foldr].
  intros [->|Hin]%elem_of_cons; [|specialize (IH Hin)]; lia.
Qed.
Lemma lbtsKey_attained set : lbtsKey set = top \/ exists rf, rf ∈ set /\ lbtsKey set = hkey (contribution rf).
Proof.
  unfold lbtsKey. induction set as [|x set IH]; [by left|]. cbn [map foldr].
  destruct (Z.min_spec (hkey (contribution x)) (foldr Z.min top (map (fun rf => hkey (contribution rf)) set)))
    as [[_ ->]|[_ ->]].
  - right. exists x. split; [apply list_elem_of_here|done].
  - destruct IH as [IH|(rf & Hin & IH)]; [by left|]. right. exists rf. split; [by apply list_elem_of_further|done].
Qed.
Lemma lbtsKey_perm set set' : Permutation set set' -> lbtsKey set = lbtsKey set'.
Proof. unfold lbtsKey. induction 1; cbn [map foldr]; lia. Qed.

(** A horizon as a scalar and a flag, the way a grant context carries it. *)
Lemma horizonScalar_key h : h_ok h -> s_ok (horizonScalar h) /\
  forall a, s_ok a ->
    (((Unbounded h && integerScalar) || s_le a (horizonScalar h)) = (key a <=? hkey h)) /\
    (((Unbounded h && integerScalar) || s_lt a (horizonScalar h)) = (key a <? hkey h)).
Proof.
  intros Hh. assert (Hs : s_ok (horizonScalar h)).
  { destruct Hh as [E|E]; [|unfold horizonScalar; destruct (Unbounded h) eqn:Eu; simpl; [|done]].
    - destruct horizon_top as [Ht _]. unfold horizonScalar in *. by rewrite E.
    - destruct horizon_top as [Ht _]. exact Ht. }
  split; [done|]. intros a Ha.
  pose proof (horizonBeyond_key h a false Hh Ha) as E1. pose proof (horizonBeyond_key h a true Hh Ha) as E2.
  unfold horizonBeyond in E1, E2. destruct (Unbounded h && integerScalar); simpl; [by rewrite <- E1, <- E2|done].
Qed.

(** ** Grants *)
Definition targetKey (m : AdvanceMode) (current requested next : T) (hasTSO : bool) : Z :=
  if usesNextMessageTarget m && hasTSO && (key current <=? key next) && (key next <? key requested)
  then key next else key requested.

Lemma min_key_Z a b : s_ok a -> s_ok b -> s_ok (s_min a b) /\ key (s_min a b) = Z.min (key a) (key b).
Proof. intros Ha Hb. rewrite min_key by done. destruct (Z.ltb_spec (key b) (key a)); (split; [done|lia]). Qed.
Lemma max_key_Z a b : s_ok a -> s_ok b -> s_ok (s_max a b) /\ key (s_max a b) = Z.max (key a) (key b).
Proof. intros Ha Hb. rewrite max_key by done. destruct (Z.ltb_spec (key a) (key b)); (split; [done|lia]). Qed.

Section Decide.
Context (m : AdvanceMode) (current requested bound next : T) (unbounded hasTSO : bool).
Context (Hc : s_ok current) (Hr : s_ok requested) (Hb : s_ok bound) (Hn : s_ok next).
Let d := decideScalarGrant m current requested bound unbounded next hasTSO.

Lemma decide_flush : m = ModeFQR -> fire d = true /\ clearPending d = true /\ s_ok (time d) /\
  key (time d) = Z.max (key current) (Z.min (if unbounded then key requested else Z.min (key requested) (key bound))
                                        (if hasTSO then key next else key requested)).
Proof.
  intros Em. subst d. unfold decideScalarGrant. rewrite bool_decide_eq_true_2 by done. cbn [fire time clearPending].
  split; [done|]. split; [done|].
  destruct (min_key_Z requested bound Hr Hb) as [O1 K1].
  set (t1 := if negb unbounded then s_min requested bound else requested).
  assert (Ht1 : s_ok t1 /\ key t1 = if unbounded then key requested else Z.min (key requested) (key bound))
    by (subst t1; by destruct unbounded).
  destruct Ht1 as [O2 K2]. destruct (min_key_Z t1 next O2 Hn) as [O3 K3].
  set (t2 := if hasTSO then s_min t1 next else t1).
  assert (Ht2 : s_ok t2 /\ key t2 = if hasTSO then Z.min (key t1) (key next) else key t1)
    by (subst t2; by destruct hasTSO).
  destruct Ht2 as [O4 K4]. destruct (max_key_Z current t2 Hc O4) as [O5 K5]. split; [done|].
  rewrite K5, K4, K2. destruct unbounded, hasTSO; lia.
Qed.
Lemma decide_target : m <> ModeFQR ->
  fire d = (unbounded || (if inclusiveLBTS m then targetKey m current requested next hasTSO <=? key bound
                          else targetKey m current requested next hasTSO <? key bound)) /\
  (fire d = true -> clearPending d = true /\ s_ok (time d) /\ key (time d) = targetKey m current requested next hasTSO).
Proof.
  intros Em. subst d. unfold decideScalarGrant. rewrite bool_decide_eq_false_2 by done.
  rewrite (le_key current next), (lt_key next requested) by done.
  set (target := if usesNextMessageTarget m && hasTSO && (key current <=? key next) && (key next <? key requested) then next else requested).
  assert (Ht : s_ok target /\ key target = targetKey m current requested next hasTSO).
  { subst target. unfold targetKey. by destruct (_ && _ && _ && _). }
  destruct Ht as [Ot Kt]. rewrite le_key, lt_key, Kt by done.
  destruct (inclusiveLBTS m); (destruct (unbounded || _) eqn:E; cbn [fire time clearPending]; [|done]);
    (split; [done|]; by intros _).
Qed.
End Decide.
End Wf.

(** What a grant is, for every mode and both representations.  TAR and TARA are granted at the requested time, NMR
    and NMRA at the earliest queued message when it lies between the current and the requested time; each fires exactly
    when the bound is beyond its target, strictly for TAR and NMR; a flush request is always granted, at the least of
    request, bound and earliest message.  A granted time is never behind the current one nor past the requested one. *)
Theorem grant_decision {T} `{LawfulScalar T} m (current requested bound next : T) unbounded hasTSO :
  s_ok current -> s_ok requested -> s_ok bound -> s_ok next -> key current <= key requested ->
  let d := decideScalarGrant m current requested bound unbounded next hasTSO in
  (fire d = true -> clearPending d = true /\ s_ok (time d) /\ key current <= key (time d) <= key requested) /\
  (m = ModeFQR -> fire d = true /\
     key (time d) = Z.max (key current) (Z.min (if unbounded then key requested else Z.min (key requested) (key bound))
                                           (if hasTSO then key next else key requested))) /\
  (m <> ModeFQR ->
     fire d = (unbounded || (if inclusiveLBTS m then targetKey m current requested next hasTSO <=? key bound
                             else targetKey m current requested next hasTSO <? key bound)) /\
     (fire d = true -> key (time d) = targetKey m current requested next hasTSO)).
Proof.
  intros Hc Hr Hb Hn Hle d.
  pose proof (decide_flush m current requested bound next unbounded hasTSO Hc Hr Hb Hn) as Hf.
  pose proof (decide_target m current requested bound next unbounded hasTSO Hc Hr Hb Hn) as Ht. fold d in Hf, Ht.
  destruct (decide (m = ModeFQR)) as [E|E].
  - destruct (Hf E) as (F1 & F2 & F3 & F4). rewrite F1, F2, F4. split; [|done]. intros _. split; [done|]. split; [done|].
    destruct unbounded, hasTSO; lia.
  - destruct (Ht E) as [T1 T2]. split; [|split; [done|]].
    + intros F. destruct (T2 F) as (-> & O & ->). split; [done|]. split; [done|]. unfold targetKey.
      clear -Hle. destruct (usesNextMessageTarget m && hasTSO); cbn [andb]; [|lia].
      destruct (Z.leb_spec (key current) (key next)); destruct (Z.ltb_spec (key next) (key requested)); cbn [andb]; lia.
    + intros _. split; [exact T1|]. intros F. by apply T2.
Qed.
Lemma small_ok (n : Z) : (0 <=? n) && (n <=? 1000) = true -> s_ok n.
Proof. intros E. change (0 <= n <= MaxInt64). rewrite MaxInt64_eq. lia. Qed.
Lemma grant_decision_witness :
  let d := decideScalarGrant (T := Z) ModeNER 3 9 8 false 5 true in fire d = true /\ time d = 5.
Proof.
  intros d.
  destruct (grant_decision (T := Z) ModeNER 3 9 8 5 false true (small_ok 3 eq_refl) (small_ok 9 eq_refl)
    (small_ok 8 eq_refl) (small_ok 5 eq_refl) ltac:(vm_compute; congruence)) as (_ & _ & Hd).
  destruct (Hd ltac:(discriminate)) as [Hf Ht]. fold d in Hf, Ht. split; [by rewrite Hf|].
  apply Ht. by rewrite Hf.
Defined.

(** A regulating federate's outgoing timestamp is accepted exactly from its send horizon on: the least time at or
    after base plus lookahead, or after the base itself when a strict advance at zero lookahead excludes it (the
    horizon [availableSendHorizon] that bounds its peers is that very time). *)
Theorem outgoing_tso_exact {T} `{LawfulScalar T} (fs : federateStateOf T) (o : option (nerStateOf T)) (ts : T) :
  fs_ok fs -> ns_ok o -> s_ok ts -> regulating fs = true ->
  ValidateOutgoingTSO (Some fs) o ts =
    (if hkey (availableSendHorizon fs o) <=? key ts then Ret () else Fail ErrTimeInvalidLogicalTime) /\
  (let '(base, la, exclusive) := outgoingTSOBoundOf fs o in
   hkey (availableSendHorizon fs o) = if exclusive then key base + 1 else addKey base la).
Proof.
  intros Hf Hn Hts Hreg. destruct (snapshot_key 0 fs o Hf Hn) as [_ Hk].
  assert (E : hkey (availableSendHorizon fs o) = sendKey fs o) by (rewrite <- Hk; done).
  rewrite E. split; [by apply accepted_key|]. unfold sendKey. by destruct (outgoingTSOBoundOf fs o) as [[base la] exclusive].
Qed.
Definition ex_fs : federateStateOf Z := MkFederate true 2 true false 0 false None None 0 false 0 0.
Definition ex_ns : nerStateOf Z := MkNer 3 true 9 ModeTAR false None [].
Lemma ex_ok : fs_ok ex_fs /\ ns_ok (Some ex_ns).
Proof. split; split; try (by apply small_ok); [done|constructor]. Qed.
Lemma outgoing_tso_exact_witness : ValidateOutgoingTSO (Some ex_fs) (Some ex_ns) 11 = Ret ().
Proof.
  destruct (outgoing_tso_exact ex_fs (Some ex_ns) 11) as [E _]; [apply ex_ok|apply ex_ok|by apply small_ok|done|].
  rewrite E. vm_compute. reflexivity.
Defined.

(** The lower bound on time stamps is the least contribution of the regulating federates: no contribution is below
    it, it is one of them (or unbounded), and it does not depend on the order in which the map yields them. *)
Theorem lbts_minimum {T} `{LawfulScalar T} (set set' : list (RegulatingFederateOf T)) :
  Forall rf_ok set -> Permutation set set' ->
  (forall rf, rf ∈ set -> rf_Unbounded rf = false ->
     hkey (LBTSBoundOf set) <= addKey (rf_Time rf) (rf_Lookahead rf)) /\
  (hkey (LBTSBoundOf set) = top \/ exists rf, rf ∈ set /\ rf_Unbounded rf = false /\
     hkey (LBTSBoundOf set) = addKey (rf_Time rf) (rf_Lookahead rf)) /\
  hkey (LBTSBoundOf set') = hkey (LBTSBoundOf set).
Proof.
  intros Hset Hp. destruct (LBTS_key set Hset) as [_ ->].
  assert (Hset' : Forall rf_ok set') by (by rewrite <- Hp). destruct (LBTS_key set' Hset') as [_ ->].
  assert (Hk : forall rf, rf ∈ set -> rf_Unbounded rf = false ->
            hkey (contribution rf) = addKey (rf_Time rf) (rf_Lookahead rf)).
  { intros rf Hin E. pose proof (proj1 (Forall_forall _ _) Hset rf Hin) as [?|[Ht Hl]]; [congruence|].
    unfold contribution. rewrite E. by apply addHorizon_ok. }
  split; [|split; [|by rewrite (lbtsKey_perm _ _ Hp)]].
  - intros rf Hin E. rewrite <- Hk by done. by apply lbtsKey_le.
  - destruct (lbtsKey_attained set) as [?|(rf & Hin & E)]; [by left|]. destruct (rf_Unbounded rf) eqn:Eu.
    + left. rewrite E. unfold contribution. by rewrite Eu.
    + right. exists rf. split; [done|]. split; [done|]. by rewrite E, Hk.
Qed.
Definition ex_set : list (RegulatingFederateOf Z) := [MkRegulator 1 5 1 false; MkRegulator 2 0 2 false].
Lemma ex_set_ok : Forall rf_ok ex_set.
Proof. constructor; [right|constructor; [right|constructor]]; split; by apply small_ok. Qed.
Lemma lbts_minimum_witness : hkey (LBTSBoundOf (reverse ex_set)) = 2.
Proof.
  rewrite (proj2 (proj2 (lbts_minimum ex_set (reverse ex_set) ex_set_ok ltac:(by rewrite reverse_Permutation)))).
  reflexivity.
Defined.
