(* ===== verification/TimeSafety.v ===== *)
(** * Safety and progress of grants

    The available horizon of [galt.go] and the grants it bounds: no constrained
    federate is granted past a timestamp a regulator may send as it is or after
    it is itself granted at one of its queued messages ([granted_time_safe]);
    and when every federate waits, one of them is granted ([grant_progress]). *)
From stdpp Require Import gmap.
From S2P Require Import Prelude GoBytes GoFloat LogicalTime TimeScalar TimeService TimeTheorems.
Open Scope Z_scope.

Section Available.
Context {T : Type} `{LawfulScalar T}.
Implicit Types (fs : federateStateOf T) (ns : nerStateOf T).

(** ** Horizons after a grant *)

(** The grant time [at], held between the current and the requested time. *)
Definition clamp ns (at_ : T) : T := s_max (currentTime ns) (s_min at_ (requestedTime ns)).
Lemma clamp_ok ns at_ : ner_ok ns -> s_ok at_ -> s_ok (clamp ns at_) /\
  key (clamp ns at_) = Z.max (key (currentTime ns)) (Z.min (key at_) (key (requestedTime ns))).
Proof.
  intros [Hc Hr _ _] Ha. unfold clamp. destruct (min_key_Z at_ (requestedTime ns) Ha Hr) as [Ho <-].
  by apply max_key_Z.
Qed.

Lemma availableSendHorizon_key fs o : fs_ok fs -> ns_ok o ->
  h_ok (availableSendHorizon fs o) /\ hkey (availableSendHorizon fs o) = sendKey fs o.
Proof.
  intros Hf Hn. destruct (snapshot_key 0 fs o Hf Hn) as [Hr Hk]. split; [exact (contribution_ok _ Hr)|exact Hk].
Qed.
Lemma availableHorizonAfterGrant_ok fs ns at_ : fs_ok fs -> ner_ok ns -> s_ok at_ ->
  h_ok (availableHorizonAfterGrant fs ns at_).
Proof.
  intros Hf Hn Ha. destruct (clamp_ok ns at_ Hn Ha) as [Hc _]. unfold availableHorizonAfterGrant. cbv zeta.
  fold (clamp ns at_). apply availableSendHorizon_key.
  - split; try apply Hf. by apply projected_fin.
  - split; try apply Hn. exact Hc.
Qed.

(** The horizon [galt.go] computes for a grant is the one the federate has
    when the grant commits. *)
Lemma horizon_after_commit fs ns at_ : regulating fs = true -> fs_ok fs -> ner_ok ns -> s_ok at_ ->
  let r := commitGrant (Some fs) ns (clamp ns at_) true true in
  exists fs', r.1 = Some fs' /\ regulating fs' = true /\ fs_ok fs' /\ ner_ok r.2 /\
    availableHorizonAfterGrant fs ns at_ = availableSendHorizon fs' (Some r.2).
Proof.
  intros Hreg Hf Hn Ha. destruct (clamp_ok ns at_ Hn Ha) as [Hc _]. unfold commitGrant. cbv zeta.
  cbn [negb fst snd fmap option_fmap option_map]. eexists. split; [reflexivity|].
  set (fs1 := recordReceivedGrant fs (mode ns) (clamp ns at_)).
  assert (E1 : regulating fs1 = true /\ fs_ok fs1 /\ reducingLookahead fs1 = reducingLookahead fs /\
    lookahead fs1 = lookahead fs /\ projectedLookahead fs1 (clamp ns at_) = projectedLookahead fs (clamp ns at_)).
  { subst fs1. unfold recordReceivedGrant, set_received, set_constrained. destruct Hf.
    destruct (constrained fs), (strictAdvance (mode ns)), (preservedReceiveTime fs) as [p|];
      try destruct (s_lt p (clamp ns at_)); done. }
  destruct E1 as (R1 & F1 & D1 & L1 & P1). pose proof (projected_fin fs (clamp ns at_) Hf Hc) as Hp.
  unfold advanceLookahead. rewrite R1, D1, P1. cbn [negb orb].
  assert (En : ner_ok (MkNer (clamp ns at_) false s_zero ModeNone
                 (strictZeroLookahead (recordGrantBound ns (clamp ns at_))) None (tsoBuffer (recordGrantBound ns (clamp ns at_))))).
  { destruct Hn. split; simpl; try done. apply ok_zero. }
  assert (El : forall f g, lookahead f = projectedLookahead fs (clamp ns at_) -> lookahead g = projectedLookahead fs (clamp ns at_) ->
    forall q q' r r' m m' z b b', availableSendHorizon f (Some (MkNer (clamp ns at_) false q m z r b)) =
      availableSendHorizon g (Some (MkNer (clamp ns at_) false q' m' z r' b'))).
  { intros f g E1 E2 *. unfold availableSendHorizon, regulatingBoundSnapshotOf, outgoingTSOBoundOf. simpl. by rewrite E1, E2. }
  unfold availableHorizonAfterGrant. cbv zeta. fold (clamp ns at_).
  destruct (reducingLookahead fs) eqn:Ered; cbn [negb].
  - destruct (s_eq _ _); (split; [done|]; split; [|split; [exact En|by apply El]]);
      destruct F1; split; simpl; try done; apply zero_fin'.
  - split; [done|]. split; [done|]. split; [exact En|]. apply El; [done|]. rewrite L1. unfold projectedLookahead. by rewrite Ered.
Qed.

(** ** Propagation only lowers bounds *)
Definition peer_ok (p : availableRegulatorOf (T := T)) : Prop := fs_ok (ar_fs p) /\ ns_ok (ar_ns p) /\ h_ok (ar_bound p).
Definition lowers (p q : availableRegulatorOf (T := T)) : Prop :=
  ar_h q = ar_h p /\ ar_fs q = ar_fs p /\ ar_ns q = ar_ns p /\ hkey (ar_bound q) <= hkey (ar_bound p).
#[local] Instance lowers_preorder : PreOrder lowers.
Proof.
  split; [intros p; repeat split; lia|]. intros p q r (A & B & C & D) (A' & B' & C' & D'). unfold lowers.
  rewrite A', B', C', A, B, C. repeat split. lia.
Qed.

Lemma minimumHorizon_fold {A} (f : A -> TimeBoundOf T) (keep : A -> bool) l h : h_ok h ->
  (forall x, x ∈ l -> h_ok (f x)) ->
  let r := fold_left (fun b x => if keep x then minimumHorizon b (f x) else b) l h in
  h_ok r /\ hkey r <= hkey h /\ (forall x, x ∈ l -> keep x = true -> hkey r <= hkey (f x)) /\
  (hkey r = hkey h \/ exists x, x ∈ l /\ keep x = true /\ hkey r = hkey (f x)).
Proof.
  revert h. induction l as [|x l IH]; intros h Hh Hl; cbn [fold_left].
  - split; [done|]. split; [lia|]. split; [by intros x Hx%elem_of_nil|by left].
  - set (h' := if keep x then minimumHorizon h (f x) else h).
    pose proof (minimumHorizon_key h (f x) Hh (Hl x ltac:(apply list_elem_of_here))) as [Hm Hk].
    assert (E : h_ok h' /\ hkey h' <= hkey h /\ (keep x = true -> hkey h' <= hkey (f x)) /\
                (hkey h' = hkey h \/ keep x = true /\ hkey h' = hkey (f x))).
    { subst h'. destruct (keep x); [|by repeat split; [|lia| |left]]. split; [done|]. split; [lia|]. split; [lia|].
      rewrite Hk. clear. lia. }
    destruct E as (O & L & Kx & Cx).
    destruct (IH h' O ltac:(intros y Hy; by apply Hl, list_elem_of_further)) as (A' & B & C & D).
    split; [done|]. split; [lia|]. split.
    + intros y [->|Hy]%elem_of_cons Hk'; [specialize (Kx Hk'); lia|by apply C].
    + destruct D as [D|(y & Hy & Hk' & D)]; [|right; exists y; split; [by apply list_elem_of_further|done]].
      rewrite D. destruct Cx as [->|[Hk' E]]; [by left|]. right. exists x. split; [apply list_elem_of_here|done].
Qed.

Lemma propagateOne_ok peers i : Forall peer_ok peers ->
  Forall peer_ok (propagateOne peers i).1 /\ Forall2 lowers peers (propagateOne peers i).1.
Proof.
  intros Hp. unfold propagateOne. destruct (peers !! i) as [p|] eqn:E; [|by split].
  pose proof (proj1 (Forall_lookup _ _) Hp i p E) as (Hf & Hn & Hb).
  destruct (ar_ns p) as [ns|] eqn:En; [|by split].
  destruct (_ || _); [by split|]. cbv zeta.
  destruct (minimumHorizon_fold ar_bound (fun _ => true) (delete i peers) unboundedHorizon) as (Hi & _); [by left| |].
  { intros q Hq%list_elem_of_delete_inv. by apply (proj1 (Forall_forall _ _) Hp q Hq). }
  cbv beta iota zeta in Hi. set (incoming := fold_left _ _ _) in *.
  destruct (Unbounded incoming) eqn:Eu; cbn [negb andb]; [by split|].
  destruct Hi as [?|Hi]; [congruence|]. destruct (s_lt _ _); [|by split].
  pose proof (availableHorizonAfterGrant_ok (ar_fs p) ns (Limit incoming) Hf Hn Hi) as Hg.
  set (bound := availableHorizonAfterGrant _ _ _) in *. destruct (_ && _) eqn:Eb; [|by split]. cbn [fst].
  assert (Hl : hkey bound <= hkey (ar_bound p)).
  { apply andb_true_iff in Eb as [Eb1 Eb2]. pose proof (hkey_range bound Hg) as Hr. unfold hkey, h_ok in *.
    destruct (Unbounded bound); [done|]. destruct (Unbounded (ar_bound p)); [lia|]. destruct Hg as [?|Hg], Hb as [?|Hb]; try done.
    cbn [orb] in Eb2. rewrite lt_key in Eb2 by done. lia. }
  split.
  - apply Forall_insert; [done|]. unfold set_bound, peer_ok. simpl. by rewrite En.
  - rewrite <- (list_insert_id peers i p E) at 1. apply Forall2_insert; [done|]. unfold lowers, set_bound. simpl. done.
Qed.
Lemma propagatePass_ok peers : Forall peer_ok peers ->
  Forall peer_ok (propagatePass peers).1 /\ Forall2 lowers peers (propagatePass peers).1.
Proof.
  intros Hp. unfold propagatePass.
  enough (Hl : forall l qs b, Forall peer_ok qs -> Forall2 lowers peers qs ->
    let r := fold_left (fun r i => let (peers, changed) := propagateOne r.1 i in (peers, r.2 || changed)) l (qs, b) in
    Forall peer_ok r.1 /\ Forall2 lowers peers r.1) by (by apply Hl).
  induction l as [|i l IH]; intros qs b Hq Hlow; [done|]. cbn [fold_left fst snd].
  pose proof (propagateOne_ok qs i Hq) as [H1 H2]. destruct (propagateOne qs i) as [qs' c].
  apply IH; [done|]. by transitivity qs.
Qed.
Lemma propagateFlushHorizons_ok passes peers : Forall peer_ok peers ->
  Forall peer_ok (propagateFlushHorizons passes peers) /\ Forall2 lowers peers (propagateFlushHorizons passes peers).
Proof.
  revert peers. induction passes as [|passes IH]; intros peers Hp; cbn [propagateFlushHorizons]; [by split|].
  pose proof (propagatePass_ok peers Hp) as [H1 H2]. destruct (propagatePass peers) as [qs []]; [|done].
  destruct (IH qs H1) as [H3 H4]. split; [done|]. by transitivity qs.
Qed.

(** ** The bounds of one regulator *)
Definition jumps fs ns : bool :=
  constrained fs && pendingNER ns && (usesNextMessageTarget (mode ns) || bool_decide (mode ns = ModeFQR)).
Definition queued ns (item : bufferedTSOEventOf T) : bool :=
  negb (internalTSO item) && s_lt (timestamp item) (requestedTime ns).
(** The times at which a waiting regulator may be granted next: its queued
    messages and the minimum of a flush. *)
Definition jump_at fs ns (t : T) : Prop :=
  jumps fs ns = true /\
  (flushMinimum ns = Some t \/ exists item, item ∈ tsoBuffer ns /\ queued ns item = true /\ t = timestamp item).
Lemma jump_ok fs ns t : ner_ok ns -> jump_at fs ns t -> s_ok t.
Proof.
  intros [_ _ Hm Hb] [_ [E|(item & Hin & _ & ->)]]; [by rewrite E in Hm|]. by apply (proj1 (Forall_forall _ _) Hb).
Qed.
Lemma snapshot_ok h fs o : fs_ok fs -> ns_ok o -> let p := availableRegulatorSnapshot h fs o in
  peer_ok p /\ hkey (ar_bound p) <= sendKey fs o /\
  (forall ns t, o = Some ns -> jump_at fs ns t -> hkey (ar_bound p) <= hkey (availableHorizonAfterGrant fs ns t)) /\
  (hkey (ar_bound p) = sendKey fs o \/
   exists ns t, o = Some ns /\ jump_at fs ns t /\ hkey (ar_bound p) = hkey (availableHorizonAfterGrant fs ns t)).
Proof.
  intros Hf Hn. destruct (availableSendHorizon_key fs o Hf Hn) as [Hok Hk]. cbv zeta.
  unfold availableRegulatorSnapshot, peer_ok. cbn [ar_fs ar_ns ar_bound].
  destruct o as [ns|]; [|split; [done|]; split; [lia|]; split; [done|by left]].
  fold (jumps fs ns). destruct (jumps fs ns) eqn:Ej;
    [|split; [done|]; split; [lia|]; split; [intros ns' t [= <-] [J _]; congruence|by left]].
  set (b0 := availableSendHorizon fs (Some ns)) in *.
  assert (E1 : let b1 := match flushMinimum ns with Some t => minimumHorizon b0 (availableHorizonAfterGrant fs ns t) | None => b0 end in
    h_ok b1 /\ hkey b1 <= hkey b0 /\
    (forall t, flushMinimum ns = Some t -> hkey b1 <= hkey (availableHorizonAfterGrant fs ns t)) /\
    (hkey b1 = hkey b0 \/ exists t, flushMinimum ns = Some t /\ hkey b1 = hkey (availableHorizonAfterGrant fs ns t))).
  { cbv zeta. destruct (flushMinimum ns) as [t|] eqn:Em; [|split; [done|]; split; [lia|]; split; [done|by left]].
    pose proof (ns_minimum ns Hn) as Hm. rewrite Em in Hm.
    destruct (minimumHorizon_key b0 _ Hok (availableHorizonAfterGrant_ok fs ns t Hf Hn Hm)) as [G ->].
    split; [done|]. split; [lia|]. split; [intros t' [= <-]; lia|].
    destruct (Z.min_spec (hkey b0) (hkey (availableHorizonAfterGrant fs ns t))) as [[_ E]|[_ E]]; [by left|right; by exists t]. }
  cbv zeta in E1. set (b1 := match flushMinimum ns with Some _ => _ | None => _ end) in *. destruct E1 as (O1 & L1 & M1 & C1).
  destruct (minimumHorizon_fold (fun item => availableHorizonAfterGrant fs ns (timestamp item)) (queued ns) (tsoBuffer ns) b1 O1)
    as (O2 & L2 & M2 & C2).
  { intros item Hin. apply availableHorizonAfterGrant_ok; [done|done|]. by apply (proj1 (Forall_forall _ _) (ns_buffer ns Hn)). }
  unfold queued in O2, L2, M2, C2 at 1. cbv beta in O2, L2, M2, C2. cbv zeta.
  set (r := fold_left _ _ _) in *. split; [by split|]. split; [lia|]. split.
  - intros ns' t [= <-] [_ [E|(item & Hin & Hq & ->)]]; [specialize (M1 t E); lia|by apply M2].
  - destruct C2 as [C2|(item & Hin & Hq & C2)].
    + rewrite C2. destruct C1 as [->|(t & E & ->)]; [left; exact Hk|]. right. exists ns, t. split; [done|]. split; [by split; [|left]|done].
    + right. exists ns, (timestamp item). split; [done|]. split; [|done]. split; [done|]. right. by exists item.
Qed.

(** ** The available horizon of a federation *)
Implicit Type (r : Z * federateStateOf T * option (nerStateOf T)).
Definition regulators_ok (regulators : list (Z * federateStateOf T * option (nerStateOf T))) : Prop :=
  Forall (fun r => fs_ok r.1.2 /\ ns_ok r.2) regulators.
Definition snapshot_of r : availableRegulatorOf (T := T) := availableRegulatorSnapshot r.1.1 r.1.2 r.2.
Definition snapshots regulators : list (availableRegulatorOf (T := T)) :=
  map snapshot_of (filter (fun r => regulating r.1.2) regulators).

Definition closer (self : Z) (result : option (TimeBoundOf T)) (peer : availableRegulatorOf (T := T)) : option (TimeBoundOf T) :=
  if negb (ar_h peer =? self) &&
     match result with
     | None => true
     | Some r => negb (Unbounded (ar_bound peer)) && (Unbounded r || s_lt (Limit (ar_bound peer)) (Limit r))
     end
  then Some (ar_bound peer) else result.
Lemma availableHorizonLocked_eq regulators self : availableHorizonLocked regulators self =
  fold_left (closer self) (propagateFlushHorizons (length (snapshots regulators)) (snapshots regulators)) None.
Proof.
  unfold availableHorizonLocked, snapshots. cbv zeta.
  by rewrite (map_ext (fun '(h, fs, o) => availableRegulatorSnapshot h fs o) snapshot_of) by (by intros [[h fs] o]).
Qed.
Lemma closer_key self (r0 : option (TimeBoundOf T)) p : h_ok (ar_bound p) -> (forall b, r0 = Some b -> h_ok b) ->
  (forall b, closer self r0 p = Some b -> h_ok b /\ (ar_h p <> self -> hkey b <= hkey (ar_bound p)) /\
     (forall b0, r0 = Some b0 -> hkey b <= hkey b0)) /\
  (closer self r0 p = None -> r0 = None /\ ar_h p = self) /\
  (closer self r0 p = r0 \/ ar_h p <> self /\ closer self r0 p = Some (ar_bound p)).
Proof.
  intros Hp Hr0. pose proof (hkey_range _ Hp). unfold closer, hkey in *.
  destruct (Z.eqb_spec (ar_h p) self) as [E|E]; cbn [negb andb].
  - split; [|split; [done|by left]]. intros b Eb. split; [by apply Hr0|]. split; [done|]. intros b0 E0.
    rewrite E0 in Eb. injection Eb as ->. lia.
  - destruct r0 as [b0|]; [|split; [|split; [done|by right]]; intros b [= <-]; split; [done|split; [lia|done]]].
    pose proof (Hr0 b0 eq_refl) as Hb0. pose proof (hkey_range _ Hb0) as Hrb. unfold h_ok, hkey in *.
    destruct (Unbounded (ar_bound p)) eqn:E1, (Unbounded b0) eqn:E2; cbn [negb andb orb].
    4: destruct Hp as [?|Hp], Hb0 as [?|Hb0]; try done; rewrite lt_key by done;
       destruct (Z.ltb_spec (key (Limit (ar_bound p))) (key (Limit b0))).
    all: (split; [|split; [done|by (left + right)]]); intros b [= <-]; rewrite ?E1, ?E2;
      (split; [tauto|split; [lia|intros b1 [= <-]; rewrite ?E2; lia]]).
Qed.
Lemma closer_fold self peers (r0 : option (TimeBoundOf T)) : Forall peer_ok peers -> (forall b, r0 = Some b -> h_ok b) ->
  (forall b, fold_left (closer self) peers r0 = Some b -> h_ok b /\
     (forall p, p ∈ peers -> ar_h p <> self -> hkey b <= hkey (ar_bound p)) /\ (forall b0, r0 = Some b0 -> hkey b <= hkey b0) /\
     (r0 = Some b \/ exists p, p ∈ peers /\ ar_h p <> self /\ b = ar_bound p)) /\
  (fold_left (closer self) peers r0 = None -> r0 = None /\ forall p, p ∈ peers -> ar_h p = self).
Proof.
  intros Hp. revert r0. induction Hp as [|p peers (_ & _ & Hp) Hps IH]; intros r0 Hr0; cbn [fold_left].
  - split; [|by intros ->; split; [|intros p ?%elem_of_nil]]. intros b E. split; [by apply Hr0|].
    split; [by intros p ?%elem_of_nil|]. split; [|by left]. intros b0 E0. rewrite E0 in E. injection E as ->. lia.
  - destruct (closer_key self r0 p Hp Hr0) as (K1 & K2 & K3).
    destruct (IH (closer self r0 p)) as [I1 I2]; [by intros b Eb; apply K1|]. split.
    + intros b Eb. destruct (I1 b Eb) as (O & L & M & C). split; [done|].
      assert (Hne : forall b', closer self r0 p = Some b' -> hkey b <= hkey b') by (intros b' E'; by apply M).
      destruct (closer self r0 p) as [b1|] eqn:E1.
      * specialize (Hne b1 eq_refl). destruct (K1 b1 eq_refl) as (_ & L1 & M1). split; [|split].
        -- intros q [->|Hq]%elem_of_cons Hs; [specialize (L1 Hs); lia|by apply L].
        -- intros b0 E0. specialize (M1 b0 E0). lia.
        -- destruct C as [[= ->]|(q & Hq & C)]; [|right; exists q; split; [by apply list_elem_of_further|done]].
           destruct K3 as [K3|[Hs [= ->]]]; [by left|]. right. exists p. split; [apply list_elem_of_here|done].
      * destruct (K2 eq_refl) as [-> Hs]. split; [|split; [done|]].
        -- intros q [->|Hq]%elem_of_cons Hs'; [done|by apply L].
        -- right. destruct C as [?|(q & Hq & C)]; [done|]. exists q. split; [by apply list_elem_of_further|done].
    + intros E. destruct (I2 E) as [E1 Hall]. destruct (K2 E1) as [-> Hs]. split; [done|].
      by intros q [->|Hq]%elem_of_cons; [|apply Hall].
Qed.

Lemma snapshots_ok regulators : regulators_ok regulators -> Forall peer_ok (snapshots regulators).
Proof.
  intros Hr. apply Forall_forall. unfold snapshots. intros p (r & -> & Hin)%list_elem_of_fmap.
  apply list_elem_of_filter in Hin as [_ Hin]. destruct (proj1 (Forall_forall _ _) Hr r Hin) as [Hf Hn].
  by apply (snapshot_ok r.1.1 r.1.2 r.2 Hf Hn).
Qed.
(** The horizon available to [self] is within every other regulator's bound. *)
Lemma available_bound regulators self r : regulators_ok regulators -> r ∈ regulators -> regulating r.1.2 = true ->
  r.1.1 <> self -> exists b, availableHorizonLocked regulators self = Some b /\ h_ok b /\
    hkey b <= hkey (ar_bound (snapshot_of r)).
Proof.
  intros Hr Hin Hreg Hne. rewrite availableHorizonLocked_eq. pose proof (snapshots_ok regulators Hr) as Hs.
  destruct (propagateFlushHorizons_ok (length (snapshots regulators)) _ Hs) as [Hp Hl].
  set (peers := propagateFlushHorizons _ _) in *.
  assert (Hq : snapshot_of r ∈ snapshots regulators).
  { unfold snapshots. apply list_elem_of_fmap. exists r. split; [done|]. apply list_elem_of_filter. by rewrite Hreg. }
  apply list_elem_of_lookup in Hq as [i Hi]. destruct (Forall2_lookup_l _ _ _ _ _ Hl Hi) as (q & Hqi & E1 & _ & _ & Hk).
  apply list_elem_of_lookup_2 in Hqi. destruct (closer_fold self peers None Hp) as [C1 C2]; [done|].
  destruct (fold_left (closer self) peers None) as [b|].
  - exists b. split; [done|]. destruct (C1 b eq_refl) as (O & L & _). split; [done|].
    specialize (L q Hqi). rewrite E1 in L. specialize (L Hne). lia.
  - destruct (C2 eq_refl) as [_ C]. specialize (C q Hqi). rewrite E1 in C. done.
Qed.
Lemma available_ok regulators self b : regulators_ok regulators -> availableHorizonLocked regulators self = Some b -> h_ok b.
Proof.
  intros Hr E. rewrite availableHorizonLocked_eq in E. pose proof (snapshots_ok regulators Hr) as Hs.
  destruct (propagateFlushHorizons_ok (length (snapshots regulators)) _ Hs) as [Hp _].
  destruct (closer_fold self _ None Hp) as [C1 _]; [done|]. by apply C1.
Qed.

(** ** The bound of a candidate *)
Lemma regulatingSnapshot_ok regulators : regulators_ok regulators -> Forall rf_ok (regulatingSnapshot regulators).
Proof.
  intros Hr. apply Forall_forall. unfold regulatingSnapshot. intros rf ([[h fs] o] & -> & Hin)%list_elem_of_fmap.
  apply list_elem_of_filter in Hin as [_ Hin]. destruct (proj1 (Forall_forall _ _) Hr _ Hin) as [Hf Hn].
  by apply snapshot_key.
Qed.
Lemma lbts_le_send regulators r : regulators_ok regulators -> r ∈ regulators -> regulating r.1.2 = true ->
  hkey (LBTSBoundOf (regulatingSnapshot regulators)) <= sendKey r.1.2 r.2.
Proof.
  intros Hr Hin Hreg. rewrite (proj2 (LBTS_key _ (regulatingSnapshot_ok _ Hr))).
  destruct (proj1 (Forall_forall _ _) Hr r Hin) as [Hf Hn]. rewrite <- (proj2 (snapshot_key r.1.1 _ _ Hf Hn)).
  apply lbtsKey_le. unfold regulatingSnapshot. apply list_elem_of_fmap. exists r. destruct r as [[h fs] o]. split; [done|].
  apply list_elem_of_filter. by rewrite Hreg.
Qed.

Definition candidateBound regulators (h : Z) : TimeBoundOf T :=
  let lbts := LBTSBoundOf (regulatingSnapshot regulators) in
  match availableHorizonLocked regulators h with Some bound => minimumHorizon lbts bound | None => lbts end.
Lemma candidateBound_ok regulators h : regulators_ok regulators -> h_ok (candidateBound regulators h) /\
  (forall r, r ∈ regulators -> regulating r.1.2 = true ->
     hkey (candidateBound regulators h) <= sendKey r.1.2 r.2 /\
     (r.1.1 <> h -> hkey (candidateBound regulators h) <= hkey (ar_bound (snapshot_of r)))).
Proof.
  intros Hr. destruct (LBTS_key _ (regulatingSnapshot_ok _ Hr)) as [Hl _]. unfold candidateBound. cbv zeta.
  destruct (availableHorizonLocked regulators h) as [b|] eqn:Ea.
  - destruct (minimumHorizon_key _ b Hl (available_ok _ _ _ Hr Ea)) as [Hm Hk]. split; [done|].
    intros r Hin Hreg. rewrite Hk. pose proof (lbts_le_send regulators r Hr Hin Hreg). split; [lia|].
    intros Hne. destruct (available_bound regulators h r Hr Hin Hreg Hne) as (b' & Eb & _ & Hle).
    rewrite Ea in Eb. injection Eb as <-. lia.
  - split; [done|]. intros r Hin Hreg. split; [by apply lbts_le_send|]. intros Hne.
    destruct (available_bound regulators h r Hr Hin Hreg Hne) as (b' & Eb & _). congruence.
Qed.

Lemma nextGrantMessage_ok ns : ner_ok ns -> s_ok (nextGrantMessage ns).1.
Proof.
  intros [_ _ Hm Hb]. unfold nextGrantMessage. set (start := match flushMinimum ns with Some _ => _ | None => _ end).
  assert (Hs : s_ok start.1).
  { subst start. destruct (flushMinimum ns); [destruct (_ || _); [exact Hm|]|]; apply ok_zero. }
  clearbody start. revert start Hs. induction Hb as [|item l Hi Hl IH]; intros start Hs; cbn [fold_left]; [done|].
  apply IH. by destruct (_ && _).
Qed.

(** A grant stays within the horizon it is decided against. *)
Definition within_horizon (m : AdvanceMode) (current t : T) (k : Z) : Prop :=
  if bool_decide (m = ModeFQR) then key t <= k \/ t = current
  else if inclusiveLBTS m then key t <= k else key t < k.
Lemma decide_within m current requested h next hasTSO : s_ok current -> s_ok requested -> h_ok h -> s_ok next ->
  let d := decideScalarGrant m current requested (horizonScalar h) (Unbounded h && integerScalar) next hasTSO in
  fire d = true -> s_ok (time d) /\ within_horizon m current (time d) (hkey h).
Proof.
  intros Hc Hr Hh Hn d Hd. destruct (horizonScalar_key h Hh) as [Hs Hk]. unfold within_horizon.
  destruct (bool_decide_reflect (m = ModeFQR)) as [E|E].
  - destruct (decide_flush m current requested (horizonScalar h) next (Unbounded h && integerScalar) hasTSO Hc Hr Hs Hn E)
      as (_ & _ & Ho & Ek). fold d in Ho, Ek. split; [done|].
    pose proof (key_range requested Hr) as Hrr. pose proof (key_range current Hc) as Hrc.
    assert (Hb : (if Unbounded h && integerScalar then key requested else Z.min (key requested) (key (horizonScalar h))) <= hkey h).
    { destruct (Unbounded h && integerScalar) eqn:Eu.
      - apply andb_true_iff in Eu as [Eu _]. unfold hkey. rewrite Eu. lia.
      - destruct (Hk _ Hs) as [Hle _]. rewrite le_key, Z.leb_refl in Hle by done. cbn [orb] in Hle. lia. }
    destruct (Z.le_gt_cases (key (time d)) (key current)) as [Hle|Hgt]; [right|left].
    + apply key_inj; [done|done|]. lia.
    + lia.
  - destruct (decide_target m current requested (horizonScalar h) next (Unbounded h && integerScalar) hasTSO Hc Hr Hs Hn E) as [Hf Ht].
    fold d in Hf, Ht. destruct (Ht Hd) as (_ & Ho & Et). split; [done|]. clear Ht.
    destruct (Hk (time d) Ho) as [Kle Klt]. rewrite le_key in Kle by done. rewrite lt_key in Klt by done. rewrite Et in Kle, Klt |- *.
    rewrite Hd in Hf. destruct (inclusiveLBTS m); rewrite <- Hf in *; lia.
Qed.
Lemma candidate_within regulators h fs ns sole : regulators_ok regulators -> ner_ok ns -> constrained fs = true ->
  let d := decideCandidateGrant regulators h (Some fs) ns sole in
  fire d = true -> s_ok (time d) /\ within_horizon (mode ns) (currentTime ns) (time d) (hkey (candidateBound regulators h)).
Proof.
  intros Hr Hn Hc. pose proof (nextGrantMessage_ok ns Hn) as Hm. unfold decideCandidateGrant. rewrite Hc.
  destruct (nextGrantMessage ns) as [next hasTSO]. cbv zeta. fold (candidateBound regulators h).
  unfold DecideGrant. cbn [c_Mode c_CurrentTime c_Requested c_LBTS c_LBTSUnbounded c_NextTSOTime c_HasTSO].
  apply decide_within; [apply Hn|apply Hn|by apply candidateBound_ok|done].
Qed.
Lemma within_le m current t k k' : within_horizon m current t k -> k <= k' -> within_horizon m current t k'.
Proof. unfold within_horizon. destruct (bool_decide _), (inclusiveLBTS m); lia || (intros [?|?]; [left; lia|by right]). Qed.
End Available.

(** The two halves of the bound on a grant: what a regulator sends as it is, and
    what it sends once it is granted at a message it holds. *)
Lemma within_sends {T} `{LawfulScalar T} regulators h (fs : federateStateOf T) ns sole h' rfs rns ts :
  regulators_ok regulators -> ner_ok ns -> constrained fs = true ->
  let d := decideCandidateGrant regulators h (Some fs) ns sole in
  fire d = true -> (h', rfs, rns) ∈ regulators -> regulating rfs = true -> s_ok ts ->
  ValidateOutgoingTSO (Some rfs) rns ts = Ret () -> within_horizon (mode ns) (currentTime ns) (time d) (key ts).
Proof.
  intros Hr Hn Hc d Hd Hin Hreg Hts Hv.
  destruct (candidate_within regulators h fs ns sole Hr Hn Hc Hd) as [_ Hw].
  destruct (candidateBound_ok regulators h Hr) as [_ Hb]. destruct (Hb _ Hin Hreg) as [Hle _]. cbn [fst snd] in Hle.
  destruct (proj1 (Forall_forall _ _) Hr _ Hin) as [Hf Hn']. rewrite accepted_key in Hv by done.
  destruct (Z.leb_spec (sendKey rfs rns) (key ts)); [|done]. eapply within_le; [exact Hw|lia].
Qed.
Lemma within_peer_sends {T} `{LawfulScalar T} regulators h (fs : federateStateOf T) ns sole h' rfs rns t ts :
  regulators_ok regulators -> ner_ok ns -> constrained fs = true ->
  let d := decideCandidateGrant regulators h (Some fs) ns sole in
  fire d = true -> (h', rfs, Some rns) ∈ regulators -> h' <> h -> regulating rfs = true -> jump_at rfs rns t -> s_ok ts ->
  let granted := commitGrant (Some rfs) rns (clamp rns t) true true in
  ValidateOutgoingTSO granted.1 (Some granted.2) ts = Ret () -> within_horizon (mode ns) (currentTime ns) (time d) (key ts).
Proof.
  intros Hr Hn Hc d Hd Hin Hne Hreg Hj Hts granted Hv.
  destruct (candidate_within regulators h fs ns sole Hr Hn Hc Hd) as [_ Hw].
  destruct (candidateBound_ok regulators h Hr) as [_ Hb]. destruct (Hb _ Hin Hreg) as [_ Hle]. specialize (Hle Hne).
  destruct (proj1 (Forall_forall _ _) Hr _ Hin) as [Hf Hn']. cbn [fst snd] in Hf, Hn'.
  destruct (snapshot_ok h' rfs (Some rns) Hf Hn') as (_ & _ & Hsnap & _). specialize (Hsnap rns t eq_refl Hj).
  destruct (horizon_after_commit rfs rns t Hreg Hf Hn' (jump_ok rfs rns t Hn' Hj)) as (fs' & E1 & Hreg' & Hf' & Hn2 & E2).
  fold granted in E1, Hn2, E2. rewrite E1, accepted_key in Hv by done.
  rewrite E2, (proj2 (availableSendHorizon_key fs' (Some granted.2) Hf' Hn2)) in Hsnap. unfold snapshot_of in Hle. cbn [fst snd] in Hle.
  destruct (Z.leb_spec (sendKey fs' (Some granted.2)) (key ts)); [|done]. eapply within_le; [exact Hw|]. lia.
Qed.
(** C3: a constrained federate is never granted past a timestamp that a regulating federate may send next: whenever
    the grant fires, every timestamp is later than the granted time (or not earlier, in the inclusive modes) that a
    regulator's [ValidateOutgoingTSO] accepts in its present state, and so is every one it accepts from another
    regulator in the state [commitGrant] leaves that one in, once it is itself granted at a message it holds or its
    flush minimum; except that a flush request may be granted at the time the federate has. *)
Theorem granted_time_safe {T} `{LawfulScalar T} regulators h (fs : federateStateOf T) ns sole :
  regulators_ok regulators -> ner_ok ns -> constrained fs = true ->
  let d := decideCandidateGrant regulators h (Some fs) ns sole in
  fire d = true ->
  forall h' rfs rns ts, (h', rfs, rns) ∈ regulators -> regulating rfs = true -> s_ok ts ->
    (ValidateOutgoingTSO (Some rfs) rns ts = Ret () -> within_horizon (mode ns) (currentTime ns) (time d) (key ts)) /\
    (forall pending t, rns = Some pending -> h' <> h -> jump_at rfs pending t ->
      let granted := commitGrant (Some rfs) pending (clamp pending t) true true in
      ValidateOutgoingTSO granted.1 (Some granted.2) ts = Ret () -> within_horizon (mode ns) (currentTime ns) (time d) (key ts)).
Proof.
  intros Hr Hn Hc d Hd h' rfs rns ts Hin Hreg Hts. split; [by apply (within_sends regulators h fs ns sole h' rfs rns ts)|].
  intros pending t -> Hne Hj granted. by apply (within_peer_sends regulators h fs ns sole h' rfs pending t ts).
Qed.
Definition ex_candidate : federateStateOf Z := MkFederate false 0 true false 0 false None None 0 false 0 0.
Definition ex_message (t : Z) : bufferedTSOEventOf Z := {| timestamp := t; internalTSO := false; receiveOrder := false |}.
Definition ex_next : nerStateOf Z := MkNer 3 true 9 ModeNER false None [ex_message 8].
Lemma ex_next_ok : regulators_ok [(7, ex_fs, Some ex_next)].
Proof.
  constructor; [|constructor]. split; [apply ex_ok|]. split; try (by apply small_ok); [done|].
  constructor; [by apply small_ok|constructor].
Qed.
Definition ex_ten : nerStateOf Z := MkNer 4 true 9 ModeTAR false None [].
Lemma ex_ten_ok : ner_ok ex_ten.
Proof. split; try (by apply small_ok); [done|constructor]. Qed.
Lemma ex_jump : jump_at ex_fs ex_next 8.
Proof. split; [reflexivity|]. right. exists (ex_message 8). split; [apply list_elem_of_here|done]. Qed.
Lemma granted_time_safe_witness :
  let d := decideCandidateGrant [(7, ex_fs, Some ex_next)] 1 (Some ex_candidate) ex_ten false in
  fire d = true /\ within_horizon ModeTAR 4 (time d) 11 /\ within_horizon ModeTAR 4 (time d) 10.
Proof.
  assert (Hin : (7, ex_fs, Some ex_next) ∈ [(7, ex_fs, Some ex_next)]) by apply list_elem_of_here.
  pose proof (granted_time_safe [(7, ex_fs, Some ex_next)] 1 ex_candidate ex_ten false ex_next_ok ex_ten_ok eq_refl eq_refl 7 ex_fs (Some ex_next)) as Hs.
  split; [reflexivity|]. split.
  - apply (Hs 11 Hin eq_refl (small_ok 11 eq_refl)). vm_compute. reflexivity.
  - apply (Hs 10 Hin eq_refl (small_ok 10 eq_refl)) with (pending := ex_next) (t := 8); [reflexivity|lia|exact ex_jump|vm_compute; reflexivity].
Defined.

(** ** Progress *)
Section Progress.
Context `{GoArch}.
Implicit Types (fs : federateStateOf Z) (ns : nerStateOf Z).

(** A waiting federate with a positive lookahead, whose queued messages are
    not behind it. *)
Definition waiting fs ns : Prop :=
  fs_ok fs /\ ner_ok ns /\ pendingNER ns = true /\ currentTime ns <= requestedTime ns /\
  (regulating fs = true -> 0 < lookahead fs /\ (reducingLookahead fs = true -> 0 < lookaheadTarget fs)) /\
  (forall t, flushMinimum ns = Some t -> currentTime ns <= t) /\
  Forall (fun item => currentTime ns <= timestamp item) (tsoBuffer ns).

Lemma projected_pos fs at_ : fs_ok fs -> int_ok at_ -> 0 < lookahead fs ->
  (reducingLookahead fs = true -> 0 < lookaheadTarget fs) -> 0 < projectedLookahead fs at_.
Proof.
  intros _ _ Hl Ht. unfold projectedLookahead. destruct (reducingLookahead fs); cbn [andb]; [|done].
  destruct (s_lt _ _); [|done]. specialize (Ht eq_refl).
  change (0 < Z.max (lookaheadTarget fs) (s_sub (lookaheadOriginValue fs) (s_sub at_ (lookaheadOriginTime fs)))). lia.
Qed.
Lemma int_addKey_gt a b : int_ok a -> 0 < b -> a < int_addKey a b.
Proof. unfold int_ok, int_addKey. rewrite MaxInt64_eq. lia. Qed.

Lemma waiting_send fs ns : waiting fs ns -> regulating fs = true -> requestedTime ns < sendKey fs (Some ns).
Proof.
  intros (Hf & Hn & Hp & _ & Hpos & _) Hreg. destruct (Hpos Hreg) as [Hl Ht].
  pose proof (projected_pos fs (requestedTime ns) Hf (ns_requested ns Hn) Hl Ht) as Hpp.
  unfold sendKey, outgoingTSOBoundOf. rewrite Hp. destruct (_ && _ && _) eqn:Ex.
  - apply andb_true_iff in Ex as [Ex _]. apply andb_true_iff in Ex as [_ Ex]. simpl in Ex. change s_zero with 0 in Ex. lia.
  - apply int_addKey_gt; [apply Hn|done].
Qed.
Lemma waiting_after fs ns at_ : waiting fs ns -> regulating fs = true -> int_ok at_ ->
  clamp ns at_ < hkey (availableHorizonAfterGrant fs ns at_).
Proof.
  intros (Hf & Hn & Hp & _ & Hpos & _) Hreg Ha. destruct (Hpos Hreg) as [Hl Ht].
  destruct (clamp_ok ns at_ Hn Ha) as [Hc _]. pose proof (projected_pos fs (clamp ns at_) Hf Hc Hl Ht) as Hpp.
  unfold availableHorizonAfterGrant. cbv zeta. fold (clamp ns at_).
  match goal with |- _ < hkey (availableSendHorizon ?f (Some ?n)) => set (fs' := f); set (ns' := n) end.
  assert (Hf' : fs_ok fs') by (split; try apply Hf; by apply projected_fin).
  assert (Hn' : ner_ok ns') by (split; try apply Hn; exact Hc).
  rewrite (proj2 (availableSendHorizon_key fs' (Some ns') Hf' Hn')).
  unfold sendKey, outgoingTSOBoundOf. subst fs' ns'. cbn [pendingNER currentTime lookahead set_lookahead].
  destruct (_ && _ && _) eqn:Ex.
  - change (clamp ns at_ < clamp ns at_ + 1). lia.
  - by apply int_addKey_gt.
Qed.

(** The time at which a waiting federate is granted, when its bound allows. *)
Definition grantTarget fs ns : Z :=
  let (next, hasTSO) := nextGrantMessage ns in
  targetKey (mode ns) (currentTime ns) (requestedTime ns) next (constrained fs && hasTSO).

Definition visible ns (t : Z) : Prop :=
  usesNextMessageTarget (mode ns) = true /\ flushMinimum ns = Some t \/
  exists item, item ∈ tsoBuffer ns /\ internalTSO item = false /\ t = timestamp item.
Lemma nextGrantMessage_least ns t : usesNextMessageTarget (mode ns) = true -> visible ns t ->
  (nextGrantMessage ns).2 = true /\ (nextGrantMessage ns).1 <= t.
Proof.
  intros Hm Hv. unfold nextGrantMessage. rewrite Hm, orb_true_r.
  set (start := match flushMinimum ns with Some t => (t, true) | None => (s_zero, false) end).
  assert (Hs : start.2 = true /\ start.1 <= t \/ exists item, item ∈ tsoBuffer ns /\ internalTSO item = false /\ t = timestamp item).
  { destruct Hv as [[_ E]|Hv]; [left|by right]. subst start. rewrite E. simpl. lia. }
  clearbody start. clear Hv. revert start Hs. generalize (tsoBuffer ns) as l.
  induction l as [|x l IH]; intros start Hs; cbn [fold_left].
  - destruct Hs as [Hs|(item & Hin%elem_of_nil & _)]; done.
  - apply IH. destruct Hs as [[H1 H2]|(item & [->|Hin]%elem_of_cons & Hi & ->)].
    + left. rewrite H1. destruct (internalTSO x); simpl; [done|]. destruct (Z.ltb_spec (timestamp x) start.1); simpl; lia || done.
    + left. rewrite Hi. cbn [negb andb]. destruct start as [v b]. cbn [fst snd]. destruct b; simpl; [|lia].
      destruct (Z.ltb_spec (timestamp x) v); simpl; lia.
    + right. by exists item.
Qed.
Lemma waiting_next fs ns : waiting fs ns -> (nextGrantMessage ns).2 = true -> currentTime ns <= (nextGrantMessage ns).1.
Proof.
  intros (_ & _ & _ & _ & _ & Hmin & Hbuf). unfold nextGrantMessage.
  set (start := match flushMinimum ns with Some _ => _ | None => _ end).
  assert (Hs : start.2 = true -> currentTime ns <= start.1).
  { subst start. destruct (flushMinimum ns) as [t|]; [|done]. destruct (_ || _); [|done]. intros _. by apply Hmin. }
  clearbody start. revert start Hs. induction Hbuf as [|x l Hx Hl IH]; intros start Hs; cbn [fold_left]; [done|].
  apply IH. destruct (_ && _); [by intros _|done].
Qed.
Lemma grantTarget_le fs ns : waiting fs ns -> grantTarget fs ns <= requestedTime ns.
Proof.
  intros (_ & _ & _ & Hle & _). unfold grantTarget, targetKey. destruct (nextGrantMessage ns) as [next hasTSO].
  destruct (_ && _ && _ && _) eqn:E; simpl in *; lia.
Qed.
Lemma jump_ge fs ns t : waiting fs ns -> mode ns <> ModeFQR -> jump_at fs ns t -> grantTarget fs ns <= clamp ns t.
Proof.
  intros Hw Hm Hj. pose proof (grantTarget_le fs ns Hw) as Hle.
  assert (Hn : ner_ok ns) by apply Hw. destruct (clamp_ok ns t Hn (jump_ok fs ns t Hn Hj)) as [_ Ek].
  change (clamp ns t = Z.max (currentTime ns) (Z.min t (requestedTime ns))) in Ek.
  destruct Hj as [J Hj]. unfold jumps in J. rewrite (bool_decide_eq_false_2 _ Hm), orb_false_r in J.
  apply andb_true_iff in J as [J Hu]. apply andb_true_iff in J as [Hc _].
  assert (Hv : visible ns t).
  { destruct Hj as [E|(item & Hin & Hq & ->)]; [by left|]. right. exists item. split; [done|]. split; [|done].
    unfold queued in Hq. by destruct (internalTSO item). }
  destruct (nextGrantMessage_least ns t Hu Hv) as [Hh Hl]. pose proof (waiting_next fs ns Hw Hh) as Hge.
  unfold grantTarget, targetKey in *. destruct (nextGrantMessage ns) as [next hasTSO]. cbn [fst snd] in *.
  rewrite Hh, Hu, Hc in *. cbn [andb] in *. simpl in *. destruct (Z.leb_spec (currentTime ns) next); [|lia].
  destruct (Z.ltb_spec next (requestedTime ns)); simpl in *; lia.
Qed.

Lemma propagate_none passes (peers : list (availableRegulatorOf (T := Z))) :
  Forall (fun p => match ar_ns p with Some ns => mode ns <> ModeFQR | None => True end) peers ->
  propagateFlushHorizons passes peers = peers.
Proof.
  intros Hp. destruct passes as [|passes]; [done|]. cbn [propagateFlushHorizons].
  assert (Hone : forall i, propagateOne peers i = (peers, false)).
  { intros i. unfold propagateOne. destruct (peers !! i) as [p|] eqn:E; [|done].
    pose proof (proj1 (Forall_lookup _ _) Hp i p E) as Hm. cbv beta in Hm. destruct (ar_ns p) as [ns|]; [|done].
    by rewrite (bool_decide_eq_false_2 _ Hm), orb_true_r. }
  enough (propagatePass peers = (peers, false)) as -> by done.
  unfold propagatePass. induction (seq 0 (length peers)) as [|i l IH]; cbn [fold_left fst snd]; [done|].
  by rewrite Hone.
Qed.

(** Every federate of the list waits. *)
Definition all_waiting (federates : list (Z * federateStateOf Z * option (nerStateOf Z))) : Prop :=
  Forall (fun r => exists ns, r.2 = Some ns /\ waiting r.1.2 ns) federates.
Lemma all_waiting_ok federates : all_waiting federates -> regulators_ok federates.
Proof. intros Hw. eapply Forall_impl; [exact Hw|]. intros r (ns & -> & Hr). by destruct Hr as (Hf & Hn & _). Qed.

Lemma candidate_lower federates h k : all_waiting federates ->
  Forall (fun r => match r.2 with Some ns => mode ns <> ModeFQR /\ k <= grantTarget r.1.2 ns | None => True end) federates ->
  k < 2 ^ 63 -> k < hkey (candidateBound federates h).
Proof.
  intros Hw Hk Htop. pose proof (all_waiting_ok _ Hw) as Hok.
  assert (Hr : forall r, r ∈ federates -> regulating r.1.2 = true -> exists ns, r.2 = Some ns /\ waiting r.1.2 ns /\
     mode ns <> ModeFQR /\ k <= grantTarget r.1.2 ns /\ k < sendKey r.1.2 r.2).
  { intros r Hin Hreg. destruct (proj1 (Forall_forall _ _) Hw r Hin) as (ns & E & W). exists ns.
    pose proof (proj1 (Forall_forall _ _) Hk r Hin) as K. cbv beta in K. rewrite E in K |- *. destruct K as [K1 K2].
    pose proof (waiting_send _ _ W Hreg). pose proof (grantTarget_le _ _ W).
    split; [done|]. split; [done|]. split; [done|]. split; [done|]. lia. }
  assert (Hlbts : k < hkey (LBTSBoundOf (regulatingSnapshot federates))).
  { rewrite (proj2 (LBTS_key _ (regulatingSnapshot_ok _ Hok))).
    destruct (lbtsKey_attained (regulatingSnapshot federates)) as [->|(rf & Hin & ->)]; [exact Htop|].
    apply list_elem_of_fmap in Hin as ([[h' fs] o] & -> & Hin). apply list_elem_of_filter in Hin as [Hreg%Is_true_true Hin].
    destruct (Hr _ Hin Hreg) as (ns & E & W & _ & _ & Hs). cbn [fst snd] in *.
    destruct (proj1 (Forall_forall _ _) Hok _ Hin) as [Hf Hn]. by rewrite (proj2 (snapshot_key h' fs o Hf Hn)). }
  unfold candidateBound. cbv zeta. destruct (availableHorizonLocked federates h) as [b|] eqn:Ea; [|done].
  rewrite (proj2 (minimumHorizon_key _ b (proj1 (LBTS_key _ (regulatingSnapshot_ok _ Hok))) (available_ok _ _ _ Hok Ea))).
  apply Z.min_glb_lt; [done|]. rewrite availableHorizonLocked_eq, propagate_none in Ea.
  2:{ apply Forall_forall. intros p (r & -> & Hin)%list_elem_of_fmap. apply list_elem_of_filter in Hin as [_ Hin].
      pose proof (proj1 (Forall_forall _ _) Hk r Hin) as K. cbv beta in K. simpl. destruct r.2; [apply K|done]. }
  destruct (closer_fold h (snapshots federates) None (snapshots_ok _ Hok)) as [C _]; [done|].
  destruct (C b Ea) as (_ & _ & _ & [?|(p & Hp & _ & ->)]); [done|].
  apply list_elem_of_fmap in Hp as (r & -> & Hin). apply list_elem_of_filter in Hin as [Hreg%Is_true_true Hin].
  destruct (Hr _ Hin Hreg) as (ns & E & W & Hm & Hg & Hs). destruct (proj1 (Forall_forall _ _) Hok _ Hin) as [Hf Hn].
  destruct (snapshot_ok r.1.1 r.1.2 r.2 Hf Hn) as (_ & _ & _ & [Hx|(ns' & t & E' & Hj & Hx)]).
  all: unfold snapshot_of; rewrite Hx.
  { exact Hs. }
  rewrite E in E'. injection E' as <-.
  pose proof (jump_ge _ _ t W Hm Hj). pose proof (waiting_after _ _ t W Hreg (jump_ok _ _ t ltac:(apply W) Hj)). lia.
Qed.

Lemma least_target (federates : list (Z * federateStateOf Z * option (nerStateOf Z))) : federates <> [] -> all_waiting federates ->
  exists h fs ns, (h, fs, Some ns) ∈ federates /\ waiting fs ns /\
    Forall (fun r => match r.2 with Some ns' => grantTarget fs ns <= grantTarget r.1.2 ns' | None => True end) federates.
Proof.
  intros Hne Hw. induction Hw as [|[[h fs] o] l (ns & E & W) Hl IH]; [done|]. cbn [fst snd] in E, W. subst o.
  destruct l as [|r l]; [exists h, fs, ns; split; [apply list_elem_of_here|]; split; [done|]; constructor; [simpl; lia|constructor]|].
  destruct (IH ltac:(done)) as (h' & fs' & ns' & Hin & W' & Hall).
  destruct (Z.le_gt_cases (grantTarget fs ns) (grantTarget fs' ns')) as [Hle|Hgt].
  - exists h, fs, ns. split; [apply list_elem_of_here|]. split; [done|]. constructor; [simpl; lia|].
    eapply Forall_impl; [exact Hall|]. intros q. cbv beta. destruct q.2; [lia|done].
  - exists h', fs', ns'. split; [by apply list_elem_of_further|]. split; [done|]. constructor; [simpl; lia|done].
Qed.
End Progress.

Definition ex_waiting : list (Z * federateStateOf Z * option (nerStateOf Z)) := [(1, ex_fs, Some ex_next); (2, ex_fs, Some ex_ns)].
Lemma ex_all_waiting : all_waiting ex_waiting.
Proof.
  assert (Hw : forall ns, ner_ok ns -> pendingNER ns = true -> currentTime ns <= requestedTime ns -> flushMinimum ns = None ->
    Forall (fun item => currentTime ns <= timestamp item) (tsoBuffer ns) -> waiting ex_fs ns).
  { intros ns Hn Hp Hle Hm Hb. split; [apply ex_ok|]. split; [done|]. split; [done|]. split; [done|].
    split; [by split|]. split; [by rewrite Hm|done]. }
  assert (En : ner_ok ex_next) by (split; try (by apply small_ok); [done|]; constructor; [by apply small_ok|constructor]).
  assert (W1 : waiting ex_fs ex_next) by (apply Hw; try done; by repeat constructor).
  assert (W2 : waiting ex_fs ex_ns) by (apply Hw; first [done | apply ex_ok | constructor]).
  unfold all_waiting, ex_waiting. rewrite !Forall_cons. split; [by exists ex_next|]. split; [by exists ex_ns|]. constructor.
Qed.
