(* ===== verification/TimeTyped.v ===== *)
(** * Typed and scalar time services

    [typed_grant.go] and [typed_timestamp.go] run the time services on the
    opaque values of [pkg/logicaltime]; the manager runs them on scalars.  On
    finite times the two agree: the grant ([typed_grant_agrees]), the lower
    bound on time stamps ([typed_lbts_agrees]) and the check of an outgoing
    timestamp ([typed_outgoing_agrees]), for both representations. *)
From stdpp Require Import gmap.
From S2P Require Import Prelude GoBytes GoFloat LogicalTime TimeScalar TimeService TimeTheorems.
Open Scope Z_scope.

(** ** The typed image of a scalar *)
Section Image.
Context {T : Type} `{LawfulScalar T}.
Definition image (a : T) : scalar := Scalar ScalarRepresentation (key a).
Definition typed (a : T) : Time := MkTime (image a).
Definition typedInterval (a : T) : Interval := MkInterval (image a).
Definition typedBound (h : TimeBoundOf T) : TimeBound :=
  MkBound (typed (if Unbounded h then s_zero else Limit h)) (Unbounded h).
Definition typedContext (m : AdvanceMode) (current requested : T) (h : TimeBoundOf T) (next : T) (hasTSO : bool)
    : TypedGrantContext :=
  {| t_Mode := m; t_CurrentTime := typed current; t_Requested := typed requested; t_LBTS := typedBound h;
     t_NextTSOTime := typed next; t_HasTSO := hasTSO |}.
Definition scalarContext (m : AdvanceMode) (current requested : T) (h : TimeBoundOf T) (next : T) (hasTSO sole : bool)
    : GrantContextOf T :=
  {| c_Mode := m; c_CurrentTime := current; c_Requested := requested; c_LBTS := horizonScalar h;
     c_LBTSUnbounded := Unbounded h; c_SolePending := sole; c_NextTSOTime := next; c_HasTSO := hasTSO |}.
End Image.

Class TypedScalar (T : Type) `{GoArch} `{LawfulScalar T} := {
  typed_time a : s_fin a -> ScalarTimeValue a = Ret (typed a) /\ ScalarIntervalValue a = Ret (typedInterval a);
  typed_back a : s_fin a -> ScalarFromTimeValue (typed a) = Ret a;
  image_ok a : s_fin a -> scalar_ok (image a);
  image_onto s : scalar_ok s -> kind s = ScalarRepresentation (T := T) -> exists a : T, s_fin a /\ s = image a;
  typed_decide m (current requested next : T) h hasTSO :
    s_fin current -> s_fin requested -> s_fin next -> (Unbounded h = false -> s_fin (Limit h)) ->
    let c := typedContext m current requested h next hasTSO in
    let d := decideScalarGrant m current requested (if Unbounded h then s_zero else Limit h) (Unbounded h)
               (if hasTSO then next else s_zero) hasTSO in
    (if bool_decide (ScalarRepresentation (T := T) = HLAinteger64Time) then decideIntegerGrant c else decideFloatGrant c) =
    if negb (fire d) then Ret noGrant
    else value ← ScalarTimeValue (time d); Ret (MkGrant true value (clearPending d));
}.

#[export, refine] Instance int64_typed `{GoArch} : TypedScalar Z := {}.
Proof.
  - apply int_time.
  - apply int_from_time.
  - intros a Ha. change (int_ok a) in Ha. unfold int_ok in Ha. rewrite MaxInt64_eq in Ha.
    apply ok_bits. split; [done|]. simpl. unfold max_bits. rewrite ?MaxInt64_eq. lia.
  - intros [k b] Hs E. simpl in E. change (k = HLAinteger64Time) in E. subst k. exists b. split; [|done].
    apply int_bits in Hs; [|done]. simpl in Hs. change (int_ok b). unfold int_ok. rewrite MaxInt64_eq. lia.
  - intros m current requested next h hasTSO Hc Hr Hn Hh. cbv zeta. change (bool_decide (_ = _)) with true. cbv iota.
    assert (Hi : forall a, int_ok a -> orZero 0 (t_Integer64 (typed a)) = a).
    { intros a Ha. pose proof (int_from_time a Ha) as E. unfold ScalarFromTimeValue in E. simpl in E.
      unfold typed, image. simpl. change (ScalarRepresentation (T := Z)) with HLAinteger64Time.
      destruct (t_Integer64 _) as [x| |]; simpl in *; congruence. }
    unfold decideIntegerGrant, typedContext. cbn [t_Mode t_CurrentTime t_Requested t_LBTS t_NextTSOTime t_HasTSO typedBound Limit Unbounded].
    assert (Hl : int_ok (if Unbounded h then s_zero else Limit h)).
    { destruct (Unbounded h); [exact (zero_fin' (T := Z))|by apply Hh]. }
    rewrite !Hi by done. replace (if hasTSO then next else 0) with (if hasTSO then next else s_zero (T := Z)) by (by destruct hasTSO).
    destruct (decideScalarGrant _ _ _ _ _ _ _) as [f t c]. reflexivity.
Defined.
#[export, refine] Instance float64_typed `{GoArch} : TypedScalar f64 := {}.
Proof.
  - apply float_time.
  - intros a _. apply float_from_time.
  - intros a Ha. exact (float_scalar_ok a Ha).
  - intros [k b] Hs E. simpl in E. change (k = HLAfloat64Time) in E. subst k. exists (F64 b). split; [|done].
    by apply (float_bits _ Hs).
  - intros m current requested next h hasTSO Hc Hr Hn Hh. cbv zeta. change (bool_decide (_ = _)) with false. cbv iota.
    assert (Hi : forall a, orZero f64_zero (t_Float64 (typed a)) = a) by (by intros []).
    unfold decideFloatGrant, typedContext. cbn [t_Mode t_CurrentTime t_Requested t_LBTS t_NextTSOTime t_HasTSO typedBound Limit Unbounded].
    rewrite !Hi. replace (if hasTSO then next else f64_zero) with (if hasTSO then next else s_zero (T := f64)) by (by destruct hasTSO).
    destruct (decideScalarGrant _ _ _ _ _ _ _) as [f t c]. reflexivity.
Defined.

Section Agree.
Context {T : Type} `{TypedScalar T}.
Implicit Types (a b : T) (h : TimeBoundOf T).
Definition b_fin h : Prop := Unbounded h = false -> s_fin (Limit h).

Lemma rep_known : ScalarRepresentation (T := T) <> Unspecified.
Proof. unfold ScalarRepresentation. by destruct integerScalar. Qed.
Lemma szero_fin : s_fin (s_zero : T).
Proof. exact zero_fin'. Qed.
Lemma typed_initial : Initial (ScalarRepresentation (T := T)) = Ret (typed s_zero).
Proof. unfold typed, image. rewrite key_zero. unfold ScalarRepresentation. by destruct integerScalar. Qed.
Lemma typed_compare a b : s_fin a -> s_fin b ->
  t_Compare (typed a) (typed b) = Ret (if key a <? key b then -1 else if key b <? key a then 1 else 0).
Proof. intros Ha Hb. exact (compare_spec _ _ (image_ok a Ha) (image_ok b Hb) eq_refl). Qed.

(** The typed bound is the image of the scalar horizon. *)
Lemma typed_horizon a b : s_fin a -> s_fin b ->
  AddTypedTimeBound (typed a) (typedInterval b) = Ret (typedBound (addHorizon a b)) /\ b_fin (addHorizon a b).
Proof.
  intros Ha Hb. unfold addHorizon. destruct (typed_time a Ha) as [-> _]. destruct (typed_time b Hb) as [_ ->].
  unfold b_fin, AddTypedTimeBound, t_Add. cbn [t_value i_value typed typedInterval].
  pose proof (arithmetic_add (image a) (image b) (image_ok a Ha) (image_ok b Hb) eq_refl) as E. rewrite E.
  destruct (max_bits (kind (image a)) <? add_bits (image a) (image b)).
  - cbn [fmap outcome_fmap]. unfold unboundedTime. change (t_Representation (typed a)) with (ScalarRepresentation (T := T)).
    change (t_Representation (MkTime (image a))) with (ScalarRepresentation (T := T)).
    rewrite typed_initial, bind_Ret. cbn [Unbounded]. done.
  - destruct (arithmetic_ok _ _ _ _ (image_ok a Ha) (image_ok b Hb) E) as [Hok Hk].
    destruct (image_onto _ Hok Hk) as (x & Hx & ->). cbn [fmap outcome_fmap Unbounded Limit].
    change (MkTime (image x)) with (typed x). rewrite typed_back by done. done.
Qed.
Lemma h_ok_fin h : b_fin h -> h_ok h.
Proof. unfold b_fin, h_ok. destruct (Unbounded h); [by left|right; apply fin_ok; auto]. Qed.

(** The scalar services carry an unbounded horizon as the greatest value, the
    typed ones as a flag. *)
Lemma grant_flag m current requested h next hasTSO : s_fin current -> s_fin requested -> s_fin next ->
  decideScalarGrant m current requested (horizonScalar h) (Unbounded h && integerScalar) next hasTSO =
  decideScalarGrant m current requested (if Unbounded h then s_zero else Limit h) (Unbounded h)
    (if hasTSO then next else s_zero) hasTSO.
Proof.
  intros Hc Hr Hn. unfold decideScalarGrant. replace (hasTSO && s_le current (if hasTSO then next else s_zero)) with
    (hasTSO && s_le current next) by (by destruct hasTSO). destruct (Unbounded h) eqn:Eu.
  2:{ unfold horizonScalar. rewrite Eu. cbn [negb andb]. destruct hasTSO; [done|]. by rewrite !andb_false_r. }
  assert (Hinf : integerScalar = false -> forall a, s_fin a -> s_lt a (horizonScalar h) = true /\ s_le a (horizonScalar h) = true /\
    s_min a (horizonScalar h) = a).
  { intros Ei a Ha. destruct (horizon_top) as [T1 T2]. rewrite Ei in T2.
    assert (Eh : horizonScalar h = horizonScalar unboundedHorizon) by (unfold horizonScalar; by rewrite Eu).
    rewrite Eh, lt_key, le_key, min_key, T2 by auto using fin_ok. pose proof (fin_lt_top a Ha). split; [lia|]. split; [lia|].
    destruct (Z.ltb_spec top (key a)); [lia|done]. }
  destruct integerScalar eqn:Ei; cbn [negb andb orb].
  - destruct hasTSO; [done|]. by rewrite !andb_false_r.
  - specialize (Hinf eq_refl). destruct (Hinf requested Hr) as (L1 & L2 & L3). destruct (Hinf next Hn) as (N1 & N2 & _).
    rewrite L3. destruct hasTSO; [|rewrite !andb_false_r; cbn [andb]; by rewrite L1, L2].
    destruct (usesNextMessageTarget m && true && s_le current next && s_lt next requested); by rewrite ?L1, ?L2, ?N1, ?N2.
Qed.
Lemma grant_fin m current requested h next hasTSO : s_fin current -> s_fin requested -> s_fin next -> b_fin h ->
  let d := decideScalarGrant m current requested (if Unbounded h then s_zero else Limit h) (Unbounded h) next hasTSO in
  s_fin (time d).
Proof.
  intros Hc Hr Hn Hh. unfold decideScalarGrant.
  assert (Hmin : forall a b, s_fin a -> s_fin b -> s_fin (s_min a b)).
  { intros a b Ha Hb. rewrite min_key by auto using fin_ok. by destruct (_ <? _). }
  assert (Hl : Unbounded h = false -> s_fin (Limit h)) by exact Hh.
  destruct (bool_decide _).
  - cbn [time]. rewrite max_key; [destruct (_ <? _); [|done]|by apply fin_ok|apply fin_ok].
    all: destruct hasTSO, (Unbounded h); cbn [negb]; auto.
  - destruct (_ && _ && _ && _), (inclusiveLBTS m); destruct (_ || _); cbn [time]; done || exact szero_fin.
Qed.

Lemma typedLBTS_loop set h : (forall rf, rf ∈ set -> s_fin (rf_Time rf) /\ s_fin (rf_Lookahead rf) /\ rf_Unbounded rf = false) ->
  b_fin h ->
  TypedLBTS_loop (ScalarRepresentation (T := T)) (typedBound h)
    (map (fun rf => {| tr_Time := typed (rf_Time rf); tr_Lookahead := typedInterval (rf_Lookahead rf) |}) set) =
  Ret (typedBound (fold_left lbts_step set h)).
Proof.
  revert h. induction set as [|rf set IH]; intros h Hset Hh; [done|]. cbn [map TypedLBTS_loop fold_left tr_Time tr_Lookahead].
  destruct (Hset rf) as (Ht & Hl & Hu); [apply list_elem_of_here|].
  rewrite !bool_decide_eq_true_2 by done. cbn [negb orb].
  destruct (typed_horizon _ _ Ht Hl) as [-> Hc]. rewrite bind_Ret.
  assert (Estep : lbts_step h rf = minimumHorizon h (addHorizon (rf_Time rf) (rf_Lookahead rf))).
  { unfold lbts_step. rewrite Hu. cbn [negb]. cbv zeta. rewrite ok_not_nan; [done|]. destruct (Unbounded (addHorizon (rf_Time rf) (rf_Lookahead rf))) eqn:Eu;
      [rewrite (addHorizon_unbounded _ _ Eu); apply ok_zero|by apply fin_ok, Hc]. }
  rewrite Estep. set (c := addHorizon _ _) in *. assert (Hc2 : b_fin c) by done. unfold b_fin in Hc.
  assert (Hset' : forall rf, rf ∈ set -> s_fin (rf_Time rf) /\ s_fin (rf_Lookahead rf) /\ rf_Unbounded rf = false)
    by (intros x Hx; by apply Hset, list_elem_of_further).
  unfold minimumHorizon. cbn [typedBound Unbounded Limit]. destruct (Unbounded c) eqn:Ec.
  - destruct (Unbounded h) eqn:Eh; [|by apply IH].
    assert (E : typedBound h = typedBound c) by (unfold typedBound; by rewrite Ec, Eh). rewrite E. by apply IH.
  - rewrite typed_compare; [|by apply Hc|destruct (Unbounded h) eqn:Eh; [exact szero_fin|by apply Hh]]. rewrite bind_Ret.
    destruct (Unbounded h) eqn:Eh; cbn [orb].
    + by apply IH.
    + rewrite lt_key by auto using fin_ok.
      destruct (Z.ltb_spec (key (Limit c)) (key (Limit h))); [by apply IH|destruct (key (Limit h) <? key (Limit c)); by apply IH].
Qed.
End Agree.

(** The typed grant service makes the manager's decision: on finite times it refuses an unknown mode and a request
    behind the current time, and otherwise fires with the same typed time exactly when the default scalar strategy
    fires, although one carries an unbounded horizon as a flag and the other as the greatest scalar. *)
Theorem typed_grant_agrees {T} `{TypedScalar T} m (current requested next : T) (h : TimeBoundOf T) hasTSO sole :
  s_fin current -> s_fin requested -> s_fin next -> b_fin h ->
  DecideTypedGrant (typedContext m current requested h next hasTSO) =
  match m with
  | ModeNone | ModeOther _ => Fail (time_errorf "time: invalid advance mode")
  | _ =>
      if s_lt requested current then Fail (time_errorf "time: request precedes current time")
      else let d := DecideGrant (scalarContext m current requested h next hasTSO sole) in
           Ret (if fire d then MkGrant true (typed (time d)) (clearPending d) else noGrant)
  end.
Proof.
  intros Hc Hr Hn Hh. unfold DecideTypedGrant. cbn [t_Mode t_CurrentTime t_Requested t_LBTS t_NextTSOTime t_HasTSO typedContext].
  assert (Hn' : s_fin (if hasTSO then next else s_zero)) by (destruct hasTSO; [done|exact szero_fin]).
  pose proof (grant_fin m current requested h _ hasTSO Hc Hr Hn' Hh) as Hfin. cbv zeta in Hfin.
  pose proof (typed_decide m current requested next h hasTSO Hc Hr Hn Hh) as Hd. cbv zeta in Hd.
  unfold DecideGrant. cbn [c_Mode c_CurrentTime c_Requested c_LBTS c_LBTSUnbounded c_NextTSOTime c_HasTSO scalarContext].
  rewrite grant_flag by done. set (d := decideScalarGrant _ _ _ _ _ _ _) in *.
  change (t_Representation (typed current)) with (ScalarRepresentation (T := T)).
  change (t_Representation (typed requested)) with (ScalarRepresentation (T := T)).
  change (t_Representation (typed next)) with (ScalarRepresentation (T := T)).
  change (t_Representation (Limit (typedBound h))) with (ScalarRepresentation (T := T)).
  rewrite (bool_decide_eq_false_2 (ScalarRepresentation = Unspecified)) by exact rep_known.
  rewrite (bool_decide_eq_true_2 (ScalarRepresentation (T := T) = ScalarRepresentation (T := T))) by done.
  rewrite andb_false_r, typed_compare, lt_key by auto using fin_ok. cbn [negb orb lift_lt mapErr].
  assert (E : forall f : outcome lt_error (grantDecisionOf Time) -> outcome time_error (grantDecisionOf Time),
    f = lift_lt -> (if bool_decide (ScalarRepresentation (T := T) = HLAinteger64Time) then f (decideIntegerGrant (typedContext m current requested h next hasTSO))
      else f (decideFloatGrant (typedContext m current requested h next hasTSO))) =
    Ret (if fire d then MkGrant true (typed (time d)) (clearPending d) else noGrant)).
  { intros f ->. transitivity (lift_lt (if bool_decide (ScalarRepresentation (T := T) = HLAinteger64Time)
      then decideIntegerGrant (typedContext m current requested h next hasTSO) else decideFloatGrant (typedContext m current requested h next hasTSO)));
      [by destruct (bool_decide _)|]. rewrite Hd. destruct (fire d); cbn [negb]; [|done].
    by rewrite (proj1 (typed_time _ Hfin)), bind_Ret. }
  specialize (E lift_lt eq_refl). unfold typedContext in E.
  destruct m; try done; rewrite bind_Ret; destruct (Z.ltb_spec (key requested) (key current)); try done;
    destruct (key current <? key requested); exact E.
Qed.
Lemma small_fin (n : Z) : (0 <=? n) && (n <=? 1000) = true -> s_fin n.
Proof. apply small_ok. Qed.
Lemma typed_grant_agrees_witness :
  DecideTypedGrant (typedContext ModeNER 3 9 (MkBound 8 false) 5 true) = Ret (MkGrant true (typed 5) true).
Proof.
  rewrite (typed_grant_agrees ModeNER 3 9 5 (MkBound 8 false) true false (small_fin 3 eq_refl) (small_fin 9 eq_refl)
    (small_fin 5 eq_refl) (fun _ => small_fin 8 eq_refl)). reflexivity.
Defined.

(** [TypedLBTS] is the scalar lower bound: for regulators with finite times and lookaheads it never fails and
    returns the typed image of [LBTSBoundOf], unbounded exactly when that one is. *)
Theorem typed_lbts_agrees {T} `{TypedScalar T} (set : list (RegulatingFederateOf T)) :
  (forall rf, rf ∈ set -> s_fin (rf_Time rf) /\ s_fin (rf_Lookahead rf) /\ rf_Unbounded rf = false) ->
  TypedLBTS (ScalarRepresentation (T := T))
    (map (fun rf => {| tr_Time := typed (rf_Time rf); tr_Lookahead := typedInterval (rf_Lookahead rf) |}) set) =
  Ret (typedBound (LBTSBoundOf set)).
Proof.
  intros Hset. unfold TypedLBTS, unboundedTime. rewrite typed_initial, !bind_Ret.
  by apply (typedLBTS_loop set unboundedHorizon).
Qed.
Lemma typed_lbts_agrees_witness :
  TypedLBTS HLAinteger64Time
    (map (fun rf => {| tr_Time := typed (rf_Time rf); tr_Lookahead := typedInterval (rf_Lookahead rf) |}) ex_set) =
  Ret (MkBound (typed 2) false).
Proof.
  assert (Hset : forall rf, rf ∈ ex_set -> s_fin (rf_Time rf) /\ s_fin (rf_Lookahead rf) /\ rf_Unbounded rf = false).
  { apply Forall_forall. repeat constructor; by apply small_fin. }
  exact (typed_lbts_agrees ex_set Hset).
Defined.

(** The typed check of an outgoing timestamp is the manager's: for a regulating federate whose base is finite,
    [ValidateTypedOutgoingTSO] accepts a finite timestamp exactly when [ValidateOutgoingTSO] does. *)
Theorem typed_outgoing_agrees {T} `{TypedScalar T} (fs : federateStateOf T) (o : option (nerStateOf T)) (ts : T) :
  fs_ok fs -> ns_ok o -> regulating fs = true -> s_fin ts ->
  let '(base, la, exclusive) := outgoingTSOBoundOf fs o in
  s_fin base ->
  ValidateTypedOutgoingTSO (typed base) (typedInterval la) (typed ts) exclusive = ValidateOutgoingTSO (Some fs) o ts.
Proof.
  intros Hf Hn Hreg Hts. pose proof (outgoing_ok fs o Hf Hn) as Hout. unfold ValidateOutgoingTSO. rewrite Hreg.
  destruct (outgoingTSOBoundOf fs o) as [[base la] exclusive]. destruct Hout as (_ & Hla & _). intros Hb.
  unfold ValidateTypedOutgoingTSO. destruct (typed_horizon base la Hb Hla) as [-> Hh]. cbn [lift_lt mapErr]. rewrite bind_Ret.
  change (t_Representation (typed ts)) with (ScalarRepresentation (T := T)).
  change (t_Representation (Limit (typedBound (addHorizon base la)))) with (ScalarRepresentation (T := T)).
  rewrite bool_decide_eq_true_2 by done. cbn [negb].
  pose proof (key_range ts (fin_ok ts Hts)) as Hr. rewrite lt_key, key_zero by auto using fin_ok, szero_fin.
  destruct (Z.ltb_spec (key ts) 0); [lia|]. rewrite andb_false_r. cbn [negb].
  set (floor := addHorizon base la) in *. unfold timestampAtOrBeyond, typedBound. cbn [Limit Unbounded].
  assert (Hl : s_fin (if Unbounded floor then s_zero else Limit floor)) by (destruct (Unbounded floor) eqn:E; [exact szero_fin|by apply Hh]).
  rewrite typed_compare by done. cbn [lift_lt mapErr]. rewrite bind_Ret. destruct (Unbounded floor) eqn:Eu; cbn [negb andb orb].
  - unfold horizonScalar. rewrite Eu. destruct integerScalar eqn:Ei; [done|]. cbn [negb andb].
    destruct horizon_top as [T1 T2]. unfold horizonScalar in T1, T2. simpl in T1, T2. rewrite Ei in T1, T2.
    pose proof (fin_lt_top ts Hts). rewrite lt_key, eq_key, T2 by auto using fin_ok.
    destruct (Z.ltb_spec top (key ts)); [lia|]. destruct (Z.eqb_spec (key ts) top); [lia|]. by rewrite andb_false_r.
  - specialize (Hh Eu). unfold horizonScalar. rewrite Eu. cbn [negb]. rewrite lt_key, eq_key by auto using fin_ok.
    assert (E : (0 <? (if key ts <? key (Limit floor) then -1 else if key (Limit floor) <? key ts then 1 else 0)) = (key (Limit floor) <? key ts) /\
      ((if key ts <? key (Limit floor) then -1 else if key (Limit floor) <? key ts then 1 else 0) =? 0) = (key ts =? key (Limit floor))) by zcases.
    destruct E as [-> ->]. destruct ((key (Limit floor) <? key ts) || negb exclusive && (key ts =? key (Limit floor))); [done|].
    by rewrite andb_false_r.
Qed.
Lemma typed_outgoing_agrees_witness :
  ValidateTypedOutgoingTSO (typed 9) (typedInterval 2) (typed 10) false = Fail ErrTimeInvalidLogicalTime.
Proof.
  pose proof (typed_outgoing_agrees ex_fs (Some ex_ns) 10 (proj1 ex_ok) (proj2 ex_ok) eq_refl (small_fin 10 eq_refl)) as E.
  etransitivity; [exact (E (small_fin 9 eq_refl))|vm_compute; reflexivity].
Defined.
