(* ===== verification/TimeEnable.v ===== *)
(** * Enabling time regulation ([enable.go])

    [minimumEnableTimeOf] solves [time + lookahead >= frontier] for the least
    time: by subtraction for Integer64 time, by a binary search over the bits
    of a Float64 one.  [regulation_enable_least]: the time
    [regulationEnableTime] finds is the least at which no constrained peer can
    be sent a message in its past. *)
From stdpp Require Import gmap.
From S2P Require Import Prelude GoBytes GoFloat LogicalTime TimeScalar TimeService TimeTheorems.
Open Scope Z_scope.

(** ** The binary search *)
Section Search.
Context {T : Type} `{LogicalTimeScalar T} (legal : T -> bool).
Let P k := legal (of_float64 (Float64frombits k)).

(** [fuel] rounds are enough for a distance of [2 ^ (fuel - 1)]. *)
Lemma searchEnable_least fuel lo hi :
  (forall a b, lo <= a <= b -> b <= hi -> P a = true -> P b = true) ->
  P lo = false -> P hi = true -> lo < hi -> hi - lo <= 2 ^ Z.of_nat fuel ->
  exists k, searchEnable legal (S fuel) lo hi = Ret k /\ lo < k <= hi /\ P k = true /\ P (k - 1) = false.
Proof.
  revert lo hi. induction fuel as [|fuel IH]; intros lo hi Hm Hlo Hhi Hlt Hgap.
  - change (2 ^ Z.of_nat 0) with 1 in Hgap. assert (hi = lo + 1) as -> by lia. exists (lo + 1). simpl.
    destruct (Z.ltb_spec 1 (lo + 1 - lo)); [lia|]. replace (lo + 1 - 1) with lo by lia. repeat split; done || lia.
  - rewrite Nat2Z.inj_succ, Z.pow_succ_r in Hgap by lia. cbn [searchEnable].
    destruct (Z.ltb_spec 1 (hi - lo)) as [Hg|Hg].
    + set (mid := lo + (hi - lo) / 2).
      assert (Hmid : lo < mid < hi /\ mid - lo <= 2 ^ Z.of_nat fuel /\ hi - mid <= 2 ^ Z.of_nat fuel) by (subst mid; Z.div_mod_to_equations; lia).
      destruct Hmid as (Hmid & G1 & G2). fold (P mid). destruct (P mid) eqn:Em.
      * destruct (IH lo mid) as (k & E & Hk & Hrest); [intros a b Ha Hb; apply Hm; lia|done|done|lia|done|].
        exists k. split; [exact E|]. split; [lia|done].
      * destruct (IH mid hi) as (k & E & Hk & Hrest); [intros a b Ha Hb; apply Hm; lia|done|done|lia|done|].
        exists k. split; [exact E|]. split; [lia|done].
    + assert (hi = lo + 1) as -> by lia. exists (lo + 1). replace (lo + 1 - 1) with lo by lia. repeat split; done || lia.
Qed.
End Search.

(** ** The least enabling time *)
Section Least.
Context {T : Type} `{LawfulScalar T}.

(** A send at [at + lookahead] is not in the past of a peer at [frontier]. *)
Definition legal_at (la frontier : T) (exclusive : bool) (at_ : T) : Prop :=
  if exclusive then key frontier < addKey at_ la else key frontier <= addKey at_ la.
Lemma legal_mono la frontier exclusive a b : s_fin la -> s_ok a -> s_ok b -> key a <= key b ->
  legal_at la frontier exclusive a -> legal_at la frontier exclusive b.
Proof.
  intros Hl Ha Hb Hle. pose proof (addKey_mono a b la la Ha Hb Hl Hl Hle ltac:(lia)). unfold legal_at. destruct exclusive; lia.
Qed.
(** [r] is the least legal finite time from [current] on, or none exists. *)
Definition least_legal (P : T -> Prop) (current : T) (r : T * bool) : Prop :=
  if r.2 then s_ok r.1 /\ key current <= key r.1 /\ P r.1 /\ (forall a, s_ok a -> key current <= key a -> P a -> key r.1 <= key a)
  else forall a, s_fin a -> key current <= key a -> ~ P a.
End Least.

Lemma int_minimum_enable `{GoArch} (current la frontier : Z) exclusive :
  s_ok current -> s_fin la -> s_fin frontier ->
  exists r, minimumEnableTimeOf current la frontier exclusive = Ret r /\
    least_legal (legal_at la frontier exclusive) current r.
Proof.
  intros Hc Hl Hf. change (int_ok current) in Hc. change (int_ok la) in Hl. change (int_ok frontier) in Hf.
  pose proof (int_sub frontier la Hf Hl) as Hs. unfold int_ok in *. rewrite MaxInt64_eq in *.
  unfold minimumEnableTimeOf. change (integerScalar (T := Z)) with true. cbv iota. cbv zeta.
  rewrite Hs. change (s_max (s_zero (T := Z)) current) with (Z.max 0 current).
  assert (Hk : forall a, legal_at la frontier exclusive a <->
            if exclusive then frontier < Z.min (2 ^ 63) (a + la) else frontier <= Z.min (2 ^ 63) (a + la)) by done.
  assert (Hleast : forall m, 0 <= m <= 2 ^ 63 - 1 -> current <= m -> (legal_at la frontier exclusive m) ->
            (forall a, 0 <= a <= 2 ^ 63 - 1 -> current <= a -> legal_at la frontier exclusive a -> m <= a) ->
            exists r, Ret (m, true) = Ret r (E := time_error) /\ least_legal (legal_at la frontier exclusive) current r).
  { intros m H1 H2 H3 H4. exists (m, true). split; [done|]. split; [change (int_ok m); unfold int_ok; rewrite MaxInt64_eq; done|].
    split; [done|]. split; [done|]. intros a Ha. change (int_ok a) in Ha. unfold int_ok in Ha. rewrite MaxInt64_eq in Ha. by apply H4. }
  destruct exclusive.
  - unfold successor. change (integerScalar (T := Z)) with true. cbv iota. change (to_int64 (frontier - la)) with (frontier - la).
    rewrite MaxInt64_eq. destruct (Z.eqb_spec (frontier - la) (2 ^ 63 - 1)) as [E|E]; cbn [negb].
    + eexists. split; [reflexivity|]. intros a Ha _. change (int_ok a) in Ha. unfold int_ok in Ha. rewrite MaxInt64_eq in Ha.
      rewrite Hk. lia.
    + assert (Hadd : s_add (frontier - la) (of_int64 1) = frontier - la + 1).
      { change (wrapS 64 (frontier - la + 1) = frontier - la + 1). rewrite wrapS_id; [done|lia|]. unfold inS, minS, maxS. lia. }
      rewrite Hadd. change (s_max (Z.max 0 current) (frontier - la + 1)) with (Z.max (Z.max 0 current) (frontier - la + 1)).
      apply Hleast; [lia|lia|rewrite Hk; lia|]. intros a Ha Hca. rewrite Hk. lia.
  - change (s_max (Z.max 0 current) (frontier - la)) with (Z.max (Z.max 0 current) (frontier - la)).
    apply Hleast; [lia|lia|rewrite Hk; lia|]. intros a Ha Hca. rewrite Hk. lia.
Qed.

(** ** [float64] *)
Section FloatEnable.
Context `{GoArch}.
Implicit Types (a current la frontier : f64).
Definition float_legal la frontier (exclusive : bool) (at_ : f64) : bool :=
  let bound := addTimeBoundOf at_ la in
  if exclusive then s_lt frontier bound else s_le frontier bound.
Lemma float_legal_spec la frontier exclusive a : f64_pos a -> f64_fin la -> f64_pos frontier ->
  float_legal la frontier exclusive a = true <-> legal_at la frontier exclusive a.
Proof.
  intros Ha Hl Hf. pose proof (addHorizon_ok a la) as Hadd. destruct (Hadd Ha Hl) as [Hh Hk]. destruct (horizonScalar_key _ Hh) as [_ Hb].
  destruct (Hb frontier Hf) as [Hle Hlt]. unfold float_legal, addTimeBoundOf, legal_at. cbv zeta.
  change (integerScalar (T := f64)) with false in Hle, Hlt. rewrite andb_false_r in Hle, Hlt. cbn [orb] in Hle, Hlt.
  rewrite Hle, Hlt, Hk. destruct exclusive; lia.
Qed.
Lemma float_legal_mono la frontier exclusive a b : f64_pos a -> f64_pos b -> f64_fin la -> f64_pos frontier ->
  f64_bits a <= f64_bits b -> float_legal la frontier exclusive a = true -> float_legal la frontier exclusive b = true.
Proof. intros Ha Hb Hl Hf Hle. rewrite !float_legal_spec by done. pose proof (legal_mono la frontier exclusive a b) as Hm. by apply Hm. Qed.

Lemma float_search_upper current la floor : f64_fin current -> f64_fin la -> f64_pos floor ->
  f64_pos (f64_max current (f64_sub floor la)).
Proof.
  intros Hc Hl Hf. destruct (Z.ltb_spec (f64_bits la) (f64_bits floor)) as [Hlt|Hge].
  - destruct (float_since_pos la floor Hl Hf Hlt) as [Hp _]. rewrite float_max by auto with gorti. destruct (_ <? _); auto with gorti.
  - assert (Hff : f64_fin floor) by (unfold f64_fin, f64_pos in *; lia). destruct (Z.eqb_spec (f64_bits la) 0) as [E|E].
    + assert (floor = F64 0 /\ la = F64 0) as [-> ->].
      { unfold f64_pos in Hf. split; apply f64_ext; simpl; lia. }
      change (f64_sub (F64 0) (F64 0)) with (F64 0). rewrite float_max; [destruct (_ <? _); auto with gorti|auto with gorti|done].
    + destruct (float_reduce current floor la Hc Hff) as [-> Hr]; [by auto with gorti|unfold f64_fin in Hl; lia|].
      unfold f64_fin, f64_pos in *. simpl. lia.
Qed.
Lemma pos_zero_max a : f64_pos a -> s_max (s_zero (T := f64)) a = a.
Proof.
  intros Ha. change (s_zero (T := f64)) with f64_zero. change (f64_max f64_zero a = a).
  rewrite float_max by (done || (split; vm_compute; congruence)). change (f64_bits f64_zero) with 0. unfold f64_pos in Ha.
  destruct (Z.ltb_spec 0 (f64_bits a)); [done|]. apply f64_ext. simpl. lia.
Qed.
Lemma posInf_spec a : f64_pos a -> (f64_isInf a && negb (f64_sign a)) = (f64_bits a =? inf_mag b64).
Proof. intros Ha. rewrite pos_isInf, pos_sign by done. by rewrite andb_true_r. Qed.

Lemma float_inf_legal la frontier exclusive a : f64_fin la -> f64_fin frontier -> f64_bits a = inf_mag b64 ->
  float_legal la frontier exclusive a = true.
Proof.
  intros Hl Hf E. assert (Ha : f64_pos a) by (unfold f64_pos; rewrite E; vm_compute; split; congruence).
  apply float_legal_spec; [done|done|by auto with gorti|]. unfold legal_at, addKey. cbn [float64_lawful].
  change (key frontier) with (f64_bits frontier). unfold float_addKey. rewrite E, Z.eqb_refl. unfold f64_fin in Hf. destruct exclusive; lia.
Qed.

(** The upper end of the search: finite, and legal when any finite time is. *)
Definition float_upper (legal : f64 -> bool) (upper : f64) : f64 :=
  let upper := if negb (legal upper) then f64_Nextafter upper (f64_inf false) else upper in
  if f64_isInf upper && negb (f64_sign upper) || negb (legal upper) then f64_maxFinite else upper.
Lemma float_upper_spec la frontier exclusive upper : f64_fin la -> f64_fin frontier -> f64_pos upper ->
  let legal := float_legal la frontier exclusive in
  f64_fin (float_upper legal upper) /\
  (legal (float_upper legal upper) = false -> forall a, f64_fin a -> legal a = false).
Proof.
  intros Hl Hf Hu. unfold float_upper. cbv zeta. set (legal := float_legal la frontier exclusive).
  assert (Hmax : f64_fin f64_maxFinite) by (split; vm_compute; congruence).
  set (u1 := if negb (legal upper) then f64_Nextafter upper (f64_inf false) else upper).
  assert (H1 : f64_pos u1).
  { subst u1. destruct (legal upper) eqn:E; cbn [negb]; [done|].
    assert (Hfin : f64_fin upper).
    { unfold f64_fin, f64_pos in *. destruct (Z.eqb_spec (f64_bits upper) (inf_mag b64)) as [Ei|Ei]; [|lia].
      pose proof (float_inf_legal la frontier exclusive upper Hl Hf Ei). subst legal. congruence. }
    rewrite fin_next by done. unfold f64_fin in Hfin. unfold f64_pos. simpl. lia. }
  rewrite posInf_spec by done. destruct (Z.eqb_spec (f64_bits u1) (inf_mag b64)) as [E|E]; cbn [orb];
    [|destruct (legal u1) eqn:El; cbn [negb]].
  2:{ split; [unfold f64_fin, f64_pos in *; lia|congruence]. }
  all: split; [done|]; intros Em a Ha; destruct (legal a) eqn:Ea; [|done]; exfalso; subst legal;
    rewrite (float_legal_mono la frontier exclusive a f64_maxFinite) in Em; try done; auto with gorti;
    unfold f64_fin in Ha; change (f64_bits f64_maxFinite) with (inf_mag b64 - 1); lia.
Qed.

Lemma float_enable_eq current la frontier exclusive :
  minimumEnableTimeOf current la frontier exclusive =
  let current := f64_max f64_zero current in
  let legal := float_legal la frontier exclusive in
  if legal current then Ret (current, true)
  else if f64_isInf frontier && negb (f64_sign frontier) then Ret (s_zero, false)
  else
    let floor := if exclusive then f64_Nextafter frontier (f64_inf false) else frontier in
    let upper := float_upper legal (f64_max current (f64_sub floor la)) in
    if negb (legal upper) then Ret (s_zero, false)
    else hi ← searchEnable legal 65 (f64_bits current) (f64_bits upper); Ret (Float64frombits hi, true).
Proof. reflexivity. Qed.

Lemma float_minimum_enable current la frontier exclusive : f64_pos current -> f64_fin la -> f64_fin frontier ->
  exists r, minimumEnableTimeOf current la frontier exclusive = Ret r /\
    least_legal (legal_at la frontier exclusive) current r.
Proof.
  intros Hc Hl Hf. assert (Hfp : f64_pos frontier) by auto with gorti. rewrite float_enable_eq. cbv zeta.
  change (f64_max f64_zero current) with (s_max (s_zero (T := f64)) current). rewrite pos_zero_max by done.
  set (legal := float_legal la frontier exclusive).
  assert (Hspec : forall a, f64_pos a -> legal a = true <-> legal_at la frontier exclusive a) by (intros; by apply float_legal_spec).
  assert (Hm : forall a b, f64_pos a -> f64_pos b -> f64_bits a <= f64_bits b -> legal a = true -> legal b = true)
    by (intros a b Ha Hb; by apply float_legal_mono).
  destruct (legal current) eqn:Ec.
  { eexists. split; [reflexivity|]. split; [done|]. split; [simpl; lia|]. split; [by apply Hspec|]. by intros a _ Hle _. }
  assert (Hcf : f64_fin current).
  { unfold f64_fin, f64_pos in *. destruct (Z.eqb_spec (f64_bits current) (inf_mag b64)) as [Ei|Ei]; [|lia].
    pose proof (float_inf_legal la frontier exclusive current Hl Hf Ei). subst legal. congruence. }
  rewrite (fin_not_inf frontier Hf). cbn [andb].
  set (floor := if exclusive then f64_Nextafter frontier (f64_inf false) else frontier).
  assert (Hfl : f64_pos floor).
  { subst floor. destruct exclusive; [|done]. rewrite fin_next by done. unfold f64_fin in Hf. unfold f64_pos. simpl. lia. }
  destruct (float_upper_spec la frontier exclusive _ Hl Hf (float_search_upper current la floor Hcf Hl Hfl)) as [Hu Hnone].
  fold legal in Hu, Hnone. set (upper := float_upper legal (f64_max current (f64_sub floor la))) in *.
  destruct (legal upper) eqn:Eu; cbn [negb].
  2:{ eexists. split; [reflexivity|]. intros a Ha _ Hx. apply Hspec in Hx; [|by auto with gorti]. specialize (Hnone Eu a Ha). congruence. }
  assert (Hlt : f64_bits current < f64_bits upper).
  { destruct (Z.lt_ge_cases (f64_bits current) (f64_bits upper)) as [|Hge]; [done|].
    assert (legal current = true) by (apply (Hm upper); auto with gorti). congruence. }
  assert (Hpos : forall k, f64_bits current <= k <= f64_bits upper -> f64_pos (F64 k)) by (intros k Hk; unfold f64_fin, f64_pos in *; simpl; lia).
  destruct (searchEnable_least legal 64 (f64_bits current) (f64_bits upper)) as (k & -> & Hk & Hkt & Hkf).
  - intros a b Ha Hb. apply Hm; [apply Hpos; lia|apply Hpos; lia|simpl; lia].
  - by destruct current.
  - by destruct upper.
  - done.
  - unfold f64_fin in *. pose proof (inf_mag_b64). change (2 ^ Z.of_nat 64) with (2 ^ 64). lia.
  - rewrite bind_Ret. eexists. split; [reflexivity|]. split; [apply Hpos; lia|]. split; [simpl; lia|].
    split; [apply Hspec; [apply Hpos; lia|exact Hkt]|]. intros a Ha Hca Hx. apply Hspec in Hx; [|done]. simpl.
    change (key a) with (f64_bits a). destruct (Z.le_gt_cases k (f64_bits a)) as [|Hgt]; [done|].
    change (legal (F64 (k - 1)) = false) in Hkf. rewrite (Hm a (F64 (k - 1))) in Hkf; [done|done|apply Hpos; lia|simpl; lia|done].
Qed.
End FloatEnable.

(** ** Every peer at once *)
Class SolvableScalar (T : Type) `{LawfulScalar T} := {
  minimum_enable (current la frontier : T) exclusive : s_ok current -> s_fin la -> s_fin frontier ->
    exists r, minimumEnableTimeOf current la frontier exclusive = Ret r /\
      least_legal (legal_at la frontier exclusive) current r;
}.
#[export] Instance int64_solvable `{GoArch} : SolvableScalar Z := { minimum_enable := int_minimum_enable }.
#[export] Instance float64_solvable `{GoArch} : SolvableScalar f64 := { minimum_enable := float_minimum_enable }.

Section Peers.
Context {T : Type} `{SolvableScalar T}.
Implicit Types (peer : federateStateOf T * nerStateOf T) (la target : T).

(** The latest time the peer has received, and whether it received everything
    at that time. *)
Definition peer_frontier peer : T :=
  match receivedTSOTime peer.1 with Some t => s_max (currentTime peer.2) t | None => currentTime peer.2 end.
Definition peer_exclusive peer : bool :=
  match preservedReceiveTime peer.1 with Some t => s_eq t (peer_frontier peer) | None => false end.
Definition peer_fin peer : Prop :=
  s_fin (currentTime peer.2) /\ match receivedTSOTime peer.1 with Some t => s_fin t | None => True end.
(** A federate that starts regulating at [at_] cannot send into a peer's past. *)
Definition safe_start (peers : list (federateStateOf T * nerStateOf T)) la (at_ : T) : Prop :=
  forall peer, peer ∈ peers -> constrained peer.1 = true -> legal_at la (peer_frontier peer) (peer_exclusive peer) at_.

Lemma peer_frontier_fin peer : peer_fin peer -> s_fin (peer_frontier peer).
Proof.
  intros [Hc Hr]. unfold peer_frontier. destruct (receivedTSOTime peer.1); [|done].
  rewrite max_key by auto using fin_ok. by destruct (_ <? _).
Qed.
Lemma regulationEnableTime_least peers target la : s_ok target -> s_fin la -> Forall peer_fin peers ->
  exists r, regulationEnableTime peers target la = Ret r /\ least_legal (safe_start peers la) target r.
Proof.
  intros Ht Hl Hp. revert target Ht. induction Hp as [|[peer other] peers Hf Hps IH]; intros target Ht.
  - exists (target, true). split; [done|]. split; [done|]. split; [simpl; lia|]. split; [by intros peer ?%elem_of_nil|done].
  - cbn [regulationEnableTime]. destruct (constrained peer) eqn:Ec; cbn [negb].
    2:{ destruct (IH target Ht) as (r & -> & Hr). exists r. split; [done|].
        assert (Hsame : forall a, safe_start ((peer, other) :: peers) la a <-> safe_start peers la a).
        { intros a. unfold safe_start. split; intros Hs q Hq Hcq; [by apply Hs; [apply list_elem_of_further|]|].
          apply elem_of_cons in Hq as [->|Hq]; [cbn in Hcq; congruence|by apply Hs]. }
        unfold least_legal in *. destruct r.2; [|intros a; rewrite Hsame; apply Hr].
        destruct Hr as (H1' & H2' & H3' & H4'). split; [done|]. split; [done|]. split; [by apply Hsame|].
        intros a Ha Hca. rewrite Hsame. by apply H4'. }
    pose proof (peer_frontier_fin (peer, other) Hf) as Hff.
    fold (peer_frontier (peer, other)). change (match receivedTSOTime peer with Some t => s_max (currentTime other) t | None => currentTime other end)
      with (peer_frontier (peer, other)). fold (peer_exclusive (peer, other)).
    change (match preservedReceiveTime peer with Some t => s_eq t (peer_frontier (peer, other)) | None => false end)
      with (peer_exclusive (peer, other)).
    destruct (minimum_enable target la _ (peer_exclusive (peer, other)) Ht Hl Hff) as ([t possible] & -> & Hm).
    rewrite bind_Ret. unfold least_legal in Hm. cbn [fst snd] in Hm. destruct possible; cbn [negb].
    + destruct Hm as (T1 & T2 & T3 & T4). destruct (IH t T1) as ([t' possible'] & E & Hr). exists (t', possible'). split; [exact E|].
      unfold least_legal in *. cbn [fst snd] in *. destruct possible'.
      * destruct Hr as (R1 & R2 & R3 & R4). split; [done|]. split; [lia|]. split.
        -- intros q [->|Hq]%elem_of_cons Hcq; [|by apply R3]. by apply (legal_mono la _ _ t t').
        -- intros a Ha Hca Hs. apply R4; [done| |intros q Hq; by apply Hs, list_elem_of_further].
           apply T4; [done|done|]. apply (Hs (peer, other)); [apply list_elem_of_here|done].
      * intros a Ha Hca Hs. apply (Hr a Ha); [|intros q Hq; by apply Hs, list_elem_of_further].
        apply T4; [by apply fin_ok|done|]. apply (Hs (peer, other)); [apply list_elem_of_here|done].
    + exists (s_zero, false). split; [done|]. intros a Ha Hca Hs. apply (Hm a Ha Hca). apply (Hs (peer, other)); [apply list_elem_of_here|done].
Qed.
End Peers.

(** C6: enabling time regulation picks the least safe time: [regulationEnableTime] always answers, with the earliest
    time from the requested one on at which no constrained peer can be sent a message in its past (at a time whose
    messages it has all received, when it has), and it gives up only when no finite time is safe. *)
Theorem regulation_enable_least {T} `{SolvableScalar T} (peers : list (federateStateOf T * nerStateOf T)) (target la : T) :
  s_ok target -> s_fin la -> Forall peer_fin peers ->
  exists t possible, regulationEnableTime peers target la = Ret (t, possible) /\
    (possible = true -> s_ok t /\ key target <= key t /\ safe_start peers la t /\
       forall a, s_ok a -> key target <= key a -> safe_start peers la a -> key t <= key a) /\
    (possible = false -> forall a, s_fin a -> key target <= key a -> ~ safe_start peers la a).
Proof.
  intros Ht Hl Hp. destruct (regulationEnableTime_least peers target la Ht Hl Hp) as ([t possible] & E & Hr).
  exists t, possible. split; [exact E|]. unfold least_legal in Hr. cbn [fst snd] in Hr. destruct possible; [split; [intros _; exact Hr|done]|split; [done|intros _; exact Hr]].
Qed.
Definition ex_half : f64 := F64 0x3FE0000000000000.
Definition ex_peers : list (federateStateOf f64 * nerStateOf f64) :=
  [(MkFederate false f64_zero true false f64_zero false None None f64_zero false f64_zero f64_zero,
    MkNer (F64 0x4008000000000000) false f64_zero ModeNone false None [])].
Lemma regulation_enable_least_witness :
  exists t, regulationEnableTime ex_peers f64_zero ex_half = Ret (t, true) /\ safe_start ex_peers ex_half t /\ f64_bits t <= 0x4004000000000000.
Proof.
  assert (Hp : Forall peer_fin ex_peers) by (repeat constructor; vm_compute; congruence).
  assert (Hz : f64_pos f64_zero) by (split; vm_compute; congruence).
  assert (Hl : f64_fin ex_half) by (split; vm_compute; congruence).
  pose proof (regulation_enable_least ex_peers f64_zero ex_half) as Hx. destruct (Hx Hz Hl Hp) as (t & possible & E & Hyes & Hno).
  assert (Hs : safe_start ex_peers ex_half (F64 0x4004000000000000)).
  { intros peer Hin%list_elem_of_singleton _. subst peer. vm_compute. congruence. }
  destruct possible.
  - exists t. destruct (Hyes eq_refl) as (_ & _ & Hst & Hleast). split; [exact E|]. split; [exact Hst|].
    apply (Hleast (F64 0x4004000000000000)); [split; vm_compute; congruence|vm_compute; congruence|exact Hs].
  - exfalso. apply (Hno eq_refl (F64 0x4004000000000000)); [split; vm_compute; congruence|vm_compute; congruence|exact Hs].
Defined.
