(* ===== verification/TimePromise.v ===== *)
(** * The promise of a lookahead

    A regulating federate's life as a step relation: requests ([recordAdvance]),
    lookahead changes ([ModifyLookahead]) and grants ([commitGrant]) at any time
    the manager may choose.  [promise_kept]: no timestamp it sends afterwards
    precedes what its time and lookahead promised at any earlier point, through
    reductions of the lookahead too, which take effect as the time advances. *)
From stdpp Require Import gmap relations.
From S2P Require Import Prelude GoBytes GoFloat LogicalTime TimeScalar TimeService TimeTheorems.
Open Scope Z_scope.

Section Promise.
Context `{GoArch}.
Definition regulator : Type := federateStateOf Z * nerStateOf Z.
Implicit Types (s : regulator) (fs : federateStateOf Z) (ns : nerStateOf Z).

Inductive adv_step : regulator -> regulator -> Prop :=
| step_request fs ns t m ns' : int_ok t ->
    recordAdvance false (Some fs) (Some ns) t m = (Some ns', Ret ()) -> adv_step (fs, ns) (fs, ns')
| step_modify fs ns la fs' :
    ModifyLookahead false (Some fs) (Some ns) la = (Some fs', Ret ()) -> int_ok la -> adv_step (fs, ns) (fs', ns)
| step_grant fs ns t clear fs' ns' : int_ok t -> pendingNER ns = true -> currentTime ns <= t <= requestedTime ns ->
    commitGrant (Some fs) ns t clear true = (Some fs', ns') -> adv_step (fs, ns) (fs', ns').
(** A federate that has just enabled regulation. *)
Definition starts s : Prop :=
  exists o la, enableRegulation o la = (Some s.1, Ret ()) /\ int_ok la /\ ner_ok s.2 /\ pendingNER s.2 = false.

(** A reduced lookahead decreases as the time advances from the origin. *)
Record promise_inv s : Prop := {
  pi_fs : fs_ok s.1;
  pi_ns : ner_ok s.2;
  pi_regulating : regulating s.1 = true;
  pi_pending : pendingNER s.2 = true -> currentTime s.2 <= requestedTime s.2;
  pi_reducing : reducingLookahead s.1 = true ->
    lookaheadOriginTime s.1 <= currentTime s.2 /\ lookaheadTarget s.1 < lookahead s.1 /\
    lookahead s.1 = lookaheadOriginValue s.1 - (currentTime s.2 - lookaheadOriginTime s.1);
}.
Definition promised s : Z := currentTime s.2 + lookahead s.1.

Lemma starts_inv s : starts s -> promise_inv s.
Proof.
  destruct s as [fs ns]. intros (o & la & E & Hla & Hn & Hp). unfold enableRegulation in E. cbn [fst snd] in *.
  destruct (validLookaheadOf la); [|by destruct o]. cbn [negb] in E. destruct (regulating (getOrCreate o)); [done|].
  injection E as <-. split; cbn; first [done | congruence | split; cbn; done || exact (zero_fin' (T := Z))].
Qed.

(** The projection keeps the sum of time and lookahead. *)
Lemma projected_promise s t : promise_inv s -> int_ok t -> currentTime s.2 <= t ->
  promised s <= t + projectedLookahead s.1 t /\
  (reducingLookahead s.1 = true -> projectedLookahead s.1 t =
     Z.max (lookaheadTarget s.1) (lookaheadOriginValue s.1 - (t - lookaheadOriginTime s.1))).
Proof.
  intros [Hf Hn _ _ Hred] Ht Hle. unfold promised, projectedLookahead. destruct (reducingLookahead s.1); cbn [andb]; [|split; [lia|done]].
  destruct (Hred eq_refl) as (Ho & Hlt & Hla). destruct Hf as [Hfl Hft Hfo Hfv].
  rewrite since_pos by done. change (key (lookaheadOriginTime s.1)) with (lookaheadOriginTime s.1). change (key t) with t.
  destruct (Z.ltb_spec (lookaheadOriginTime s.1) t) as [Hgt|Hge].
  - rewrite int_reduce by done. change (s_max (lookaheadTarget s.1) (lookaheadOriginValue s.1 - (t - lookaheadOriginTime s.1)))
      with (Z.max (lookaheadTarget s.1) (lookaheadOriginValue s.1 - (t - lookaheadOriginTime s.1))). lia.
  - lia.
Qed.

Lemma step_request_inv fs ns t m ns' : promise_inv (fs, ns) -> int_ok t ->
  recordAdvance false (Some fs) (Some ns) t m = (Some ns', Ret ()) ->
  promise_inv (fs, ns') /\ promised (fs, ns) <= promised (fs, ns').
Proof.
  intros [Hf Hn Hr Hp Hred] Ht E. unfold recordAdvance in E. destruct (pendingEnableError (Some fs)); try done.
  unfold checkAdvanceTargetOf in E. destruct (scalarNaN t || _); [done|]. change (s_lt t (currentTime ns)) with (t <? currentTime ns) in E.
  destruct (Z.ltb_spec t (currentTime ns)); [done|]. change (default newNerState (Some ns)) with ns in E. cbv zeta in E. destruct (pendingNER ns); [done|]. injection E as <-.
  split; [|done]. destruct Hn. split; cbn in *; first [done | congruence | intros; lia | split; cbn; done].
Qed.
Lemma step_modify_inv fs ns la fs' : promise_inv (fs, ns) -> int_ok la ->
  ModifyLookahead false (Some fs) (Some ns) la = (Some fs', Ret ()) ->
  promise_inv (fs', ns) /\ promised (fs, ns) <= promised (fs', ns).
Proof.
  intros [Hf Hn Hr Hp Hred] Hla E. cbn [fst snd] in *. unfold ModifyLookahead in E. destruct (validLookaheadOf la); [|done]. cbn [negb] in E.
  rewrite Hr in E. cbn [negb] in E. destruct (pendingNER ns) eqn:Ep; [done|].
  change (s_le (lookahead fs) la) with (lookahead fs <=? la) in E. destruct Hf.
  destruct (Z.leb_spec (lookahead fs) la) as [Hle|Hlt]; injection E as <-.
  - split; [|unfold promised; cbn; lia]. split; cbn; first [done | congruence | split; cbn; done || exact (zero_fin' (T := Z))].
  - split; [|done]. destruct (reducingLookahead fs) eqn:Er; cbn [negb].
    + destruct (Hred eq_refl) as (H1 & H2 & H3). split; cbn; first [done | congruence | intros; lia | split; cbn; done].
    + destruct Hn; split; cbn; first [done | congruence | intros; lia | split; cbn; done].
Qed.
Lemma step_grant_inv fs ns t clear fs' ns' : promise_inv (fs, ns) -> int_ok t -> pendingNER ns = true ->
  currentTime ns <= t <= requestedTime ns -> commitGrant (Some fs) ns t clear true = (Some fs', ns') ->
  promise_inv (fs', ns') /\ promised (fs, ns) <= promised (fs', ns').
Proof.
  intros Hinv Ht Hp Hle E. pose proof (projected_promise (fs, ns) t Hinv Ht ltac:(apply Hle)) as [Hpr Hmax].
  destruct Hinv as [Hf Hn Hr _ Hred]. cbn [fst snd] in *. unfold commitGrant in E. cbn [negb fmap option_fmap option_map] in E.
  injection E as <- <-. set (fs1 := recordReceivedGrant fs (mode ns) t).
  assert (E1 : regulating fs1 = true /\ fs_ok fs1 /\ reducingLookahead fs1 = reducingLookahead fs /\ lookahead fs1 = lookahead fs /\
    lookaheadTarget fs1 = lookaheadTarget fs /\ lookaheadOriginTime fs1 = lookaheadOriginTime fs /\
    lookaheadOriginValue fs1 = lookaheadOriginValue fs /\ projectedLookahead fs1 t = projectedLookahead fs t).
  { subst fs1. unfold recordReceivedGrant, set_received, set_constrained. destruct Hf.
    destruct (constrained fs), (strictAdvance (mode ns)), (preservedReceiveTime fs) as [p|]; try destruct (s_lt p t); done. }
  destruct E1 as (R1 & F1 & D1 & L1 & T1 & O1 & V1 & P1). pose proof (projected_fin fs t Hf Ht) as Hpf.
  assert (Hns : forall fs2, fs_ok fs2 -> regulating fs2 = true -> promised (fs, ns) <= t + lookahead fs2 ->
    (reducingLookahead fs2 = true -> lookaheadOriginTime fs2 <= t /\ lookaheadTarget fs2 < lookahead fs2 /\
       lookahead fs2 = lookaheadOriginValue fs2 - (t - lookaheadOriginTime fs2)) ->
    forall ns2, ner_ok ns2 -> currentTime ns2 = t -> (pendingNER ns2 = true -> requestedTime ns2 = requestedTime ns) ->
    promise_inv (fs2, ns2) /\ promised (fs, ns) <= promised (fs2, ns2)).
  { intros fs2 F2 R2 P2 I2 ns2 N2 C2 Q2. split; [|unfold promised in *; cbn [fst snd] in *; by rewrite C2].
    split; cbn [fst snd]; try done; rewrite C2; [|done]. intros Hx. rewrite (Q2 Hx). lia. }
  apply Hns; clear Hns.
  - unfold advanceLookahead. rewrite R1, D1. cbn [negb orb]. destruct (negb (reducingLookahead fs)); [done|]. cbv zeta. rewrite P1.
    destruct F1. destruct (s_eq _ _); split; cbn; first [done | exact (zero_fin' (T := Z))].
  - unfold advanceLookahead. destruct (_ || _); [done|]. cbv zeta. by destruct (s_eq _ _).
  - unfold advanceLookahead. rewrite R1, D1. cbn [negb orb]. destruct (reducingLookahead fs) eqn:Ered; cbn [negb].
    + cbv zeta. rewrite P1. destruct (s_eq _ _); cbn; lia.
    + rewrite L1. unfold projectedLookahead in Hpr. rewrite Ered in Hpr. exact Hpr.
  - unfold advanceLookahead. rewrite R1, D1. cbn [negb orb]. destruct (reducingLookahead fs) eqn:Ered; cbn [negb].
    + cbv zeta. rewrite P1, T1. change (s_eq (projectedLookahead fs t) (lookaheadTarget fs)) with (projectedLookahead fs t =? lookaheadTarget fs).
      destruct (Z.eqb_spec (projectedLookahead fs t) (lookaheadTarget fs)); cbn; [done|]. intros _. rewrite O1, V1.
      specialize (Hmax eq_refl). destruct (Hred eq_refl). lia.
    + intros Hx. congruence.
  - destruct Hn. destruct clear; split; cbn; first [done | exact (ok_zero (T := Z))].
  - by destruct clear.
  - by destruct clear.
Qed.

Lemma adv_steps_inv s s' : rtc adv_step s s' -> promise_inv s -> promise_inv s' /\ promised s <= promised s'.
Proof.
  induction 1 as [s|s s1 s2 Hstep Hsteps IH]; intros Hinv; [split; [done|lia]|].
  assert (Hone : promise_inv s1 /\ promised s <= promised s1).
  { destruct Hstep; [by eapply step_request_inv|by eapply step_modify_inv|by eapply step_grant_inv]. }
  destruct Hone as [H1 H2]. destruct (IH H1). split; [done|lia].
Qed.

Lemma accepted_promise s ts : promise_inv s -> int_ok ts -> ValidateOutgoingTSO (Some s.1) (Some s.2) ts = Ret () -> promised s <= ts.
Proof.
  intros Hinv Hts Hv. pose proof (pi_fs s Hinv) as Hf. pose proof (pi_ns s Hinv) as Hn. pose proof (accepted_key s.1 (Some s.2) ts) as Ha.
  rewrite Ha in Hv; [|done|done|done|apply Hinv]. clear Ha. unfold int_ok in Hts. rewrite MaxInt64_eq in Hts.
  destruct (Z.leb_spec (sendKey s.1 (Some s.2)) (key ts)) as [Hk|]; [|done]. change (key ts) with ts in Hk.
  enough (Z.min (2 ^ 63) (promised s) <= sendKey s.1 (Some s.2)) by lia. clear Hk Hv Hts.
  pose proof (outgoing_ok s.1 (Some s.2) Hf Hn) as Hout. unfold sendKey.
  assert (Hb : let '(base, la, _) := outgoingTSOBoundOf s.1 (Some s.2) in promised s <= base + la).
  { unfold outgoingTSOBoundOf. destruct (pendingNER s.2) eqn:Ep; [|unfold promised; lia].
    destruct (projected_promise s (requestedTime s.2) Hinv (ns_requested _ Hn) (pi_pending s Hinv Ep)). lia. }
  destruct (outgoingTSOBoundOf s.1 (Some s.2)) as [[base la] exclusive]. destruct Hout as (_ & _ & Hx).
  destruct exclusive; [destruct (Hx eq_refl) as [Hz _]; change (key la) with la in Hz; change (key base) with base; lia|].
  change (addKey base la) with (Z.min (2 ^ 63) (base + la)). lia.
Qed.
End Promise.

Definition ex_p0 : regulator := (default newFederateState (enableRegulation None 5).1, newNerState).
Definition ex_p1 : regulator := (default newFederateState (ModifyLookahead false (Some ex_p0.1) (Some ex_p0.2) 2).1, ex_p0.2).
Definition ex_p2 : regulator := (ex_p1.1, default newNerState (recordAdvance false (Some ex_p1.1) (Some ex_p1.2) 10 ModeTAR).1).
Definition ex_p3 : regulator :=
  let r := commitGrant (Some ex_p2.1) ex_p2.2 10 true true in (default newFederateState r.1, r.2).
Lemma ex_int_ok (n : Z) : (0 <=? n) && (n <=? 1000) = true -> int_ok n.
Proof. apply small_ok. Qed.
Lemma ex_starts : starts ex_p0.
Proof.
  exists None, 5. split; [reflexivity|]. split; [by apply ex_int_ok|]. split; [|done].
  split; cbn; first [done | by apply ex_int_ok | constructor].
Qed.
Lemma ex_steps : rtc adv_step ex_p0 ex_p1 /\ rtc adv_step ex_p1 ex_p3.
Proof.
  split; [apply rtc_once, (step_modify _ _ 2); [reflexivity|by apply ex_int_ok]|].
  apply (rtc_l _ _ ex_p2); [apply (step_request _ _ 10 ModeTAR); [by apply ex_int_ok|reflexivity]|].
  apply rtc_once. apply (step_grant ex_p2.1 ex_p2.2 10 true); [by apply ex_int_ok|reflexivity|vm_compute; split; congruence|reflexivity].
Qed.
(** In floating-point time the promise is rounded: from time 0 and lookahead 0.9,
    reduced to 0, a grant at 0.18 leaves the lookahead 0.72 and accepts the
    timestamp just before 0.9, which was refused before. *)
Definition float_p0 `{GoArch} : federateStateOf f64 * nerStateOf f64 :=
  let r := ModifyLookahead false (enableRegulation None (F64 0x3FECCCCCCCCCCCCD)).1 (Some newNerState) f64_zero in (default newFederateState r.1, newNerState).
Definition float_p1 `{GoArch} : federateStateOf f64 * nerStateOf f64 :=
  let ns := default newNerState (recordAdvance false (Some float_p0.1) (Some float_p0.2) (F64 0x3FC70A3D70A3D70A) ModeTAR).1 in
  let r := commitGrant (Some float_p0.1) ns (F64 0x3FC70A3D70A3D70A) true true in (default newFederateState r.1, r.2).
Lemma float_promise_rounds `{GoArch} :
  ValidateOutgoingTSO (Some float_p0.1) (Some float_p0.2) (F64 0x3FECCCCCCCCCCCCC) = Fail ErrTimeInvalidLogicalTime /\
  ValidateOutgoingTSO (Some float_p1.1) (Some float_p1.2) (F64 0x3FECCCCCCCCCCCCC) = Ret ().
Proof. split; vm_compute; reflexivity. Qed.
