(* ===== verification/Own.v ===== *)
(** * Ownership: state, events and the callback ledger ([rti/internal/hla/ownership])

    [manager.go] (data), [events.go], [strategy.go] and [terminal_callbacks.go].
    A federation's ownership state is four maps and, per recipient, a session of
    numbered terminal callbacks: an outcome of an ownership request is owed to
    its recipient until it is admitted to the queue, or until the federate
    reports having been called when it enabled receipts.

    A struct used as a map key is a tuple; a Go map's iteration order is taken
    ascending where it is visible.  The [identity] cell of an event is left out:
    within one federation state it is determined by the recipient and the
    callback number.  So are [Sequence], which this package never sets, and the
    locks: an operation is a function of the whole state, and a delivery attempt
    is a pair of operations between which others may run. *)
From stdpp Require Import gmap.
From Stdlib Require Import Strings.Byte.
From S2P Require Import Prelude GoBytes.
Open Scope Z_scope.

Abbreviation FederationName := string.
Abbreviation FederateHandle := Z.
Abbreviation ObjectHandle := Z.
Abbreviation ObjectClassHandle := Z.
Abbreviation AttributeHandle := Z.
Definition MaxUint64 : Z := maxU 64.
Definition InvalidFederateHandle : FederateHandle := 0.
(** [^core.FederateHandle(0)], the producer of MOM attributes. *)
Definition rtiHandle : FederateHandle := MaxUint64.
Definition MaxCallbackStateCount : Z := 100000.

Inductive own_error :=
| ErrAttributeNotOwned
| ErrFederateOwnsAttributes
| ErrOwnershipDivestPending
| ErrOwnershipAcquirePending
| ErrOwnershipAcquisitionPending
| ErrOwnershipNotInTransfer
| ErrOwnershipConfirmationNotRequested
| ErrOwnershipNoAcquisitionPending
| ErrOwnershipCallbackScope
| ErrOwnershipCallbackReceipt
| ErrOwnershipCallbackCapacity
| ErrOwnershipCallbackBusy
| ErrOwnershipCallbackComplete
| ErrResignActionUnsupported
| ErrObjectHandleInvalid
| ErrAttributeNotFound
| errPrepare (code : Z)          (** an error of a preparation port *)
| errOutbox
| errEventLog
| own_errorf (msg : string).

(** ** Events *)
Inductive CallbackKind :=
| CallbackAssumption
| CallbackDivestitureConfirmation
| CallbackAcquisitionNotification
| CallbackReleaseRequest
| CallbackUnavailable
| CallbackAcquisitionCancellation
| CallbackOther (k : Z).
#[export] Instance CallbackKind_eq_dec : EqDecision CallbackKind.
Proof. solve_decision. Defined.

Record OwnershipCallbackScope := {
  Federation : FederationName;
  s_Recipient : FederateHandle;
  FederationGeneration : Z;
  CallbackEpoch : Z;
}.
#[export] Instance OwnershipCallbackScope_eq_dec : EqDecision OwnershipCallbackScope.
Proof. solve_decision. Defined.

Record CallbackProjection := {
  RegisteredClass : ObjectClassHandle;
  KnownClass : ObjectClassHandle;
  p_Attributes : list AttributeHandle;
}.
Record CallbackEvent := {
  Kind : CallbackKind;
  Object : ObjectHandle;
  Attributes : list AttributeHandle;
  Tag : list byte;
  Federate : FederateHandle;
  CallbackID : Z;
  CallbackScope : OwnershipCallbackScope;
  RequireInvocationReceipt : bool;
  RetainedProjection : option CallbackProjection;
}.
Record OutboxDelivery := Delivery { Recipient : FederateHandle; Event : CallbackEvent }.

Definition zeroScope : OwnershipCallbackScope := Build_OwnershipCallbackScope EmptyString 0 0 0.
Definition newCallback (kind : CallbackKind) (obj : ObjectHandle) (attrs : list AttributeHandle) (tag : list byte)
    (federate : FederateHandle) : CallbackEvent :=
  Build_CallbackEvent kind obj attrs tag federate 0 zeroScope false None.
Definition assumptionEvent obj attrs tag divester := newCallback CallbackAssumption obj attrs tag divester.
Definition divestNotificationEvent obj attrs := newCallback CallbackDivestitureConfirmation obj attrs [] 0.
Definition acquireNotificationEvent obj attrs newOwner tag := newCallback CallbackAcquisitionNotification obj attrs tag newOwner.
Definition releaseRequestEvent obj attrs tag := newCallback CallbackReleaseRequest obj attrs tag 0.
Definition unavailableEvent obj attrs := newCallback CallbackUnavailable obj attrs [] 0.
Definition cancellationEvent obj attrs := newCallback CallbackAcquisitionCancellation obj attrs [] 0.

(** Assignments to an event. *)
Definition set_Attributes e x :=
  Build_CallbackEvent (Kind e) (Object e) x (Tag e) (Federate e) (CallbackID e) (CallbackScope e) (RequireInvocationReceipt e) (RetainedProjection e).
Definition set_identity e id scope strict :=
  Build_CallbackEvent (Kind e) (Object e) (Attributes e) (Tag e) (Federate e) id scope strict (RetainedProjection e).
Definition set_RetainedProjection e x :=
  Build_CallbackEvent (Kind e) (Object e) (Attributes e) (Tag e) (Federate e) (CallbackID e) (CallbackScope e) (RequireInvocationReceipt e) x.

Inductive eventKind :=
| evtUnconditionalDivest | evtNegotiatedDivest | evtAcquire | evtTransferred
| evtCancelDivest | evtCancelAcquire | evtDivestIfWanted | evtReleaseDenied.
Record eventRecord := {
  r_kind : eventKind; r_obj : ObjectHandle; r_attrs : list AttributeHandle; r_from : FederateHandle; r_to : FederateHandle;
}.

(** ** State *)
Abbreviation ownershipKey := (Z * Z)%type.          (** object, attribute *)
Abbreviation acquireKey := (Z * Z * Z)%type.        (** object, attribute, acquirer *)
Record pendingDivest := {
  pd_owner : FederateHandle; pd_tag : list byte; twoPhase : bool; confirmationRequested : bool;
}.
Definition set_confirmationRequested pd x := Build_pendingDivest (pd_owner pd) (pd_tag pd) (twoPhase pd) x.

Record terminalCallback := {
  event : CallbackEvent;
  admitted : bool;
  lastAttempt : Z; inflightAttempt : Z; sentAttempt : Z; reportedAttempt : Z;
}.
Record ownershipCallbackSession := {
  scope : OwnershipCallbackScope;
  enabled : bool;
  restoreRequired : bool;
  lastID : Z;
  completedThrough : Z;
  completed : gset Z;
  pendingCb : gmap Z terminalCallback;
}.
Record federationState := {
  owners : gmap ownershipKey FederateHandle;
  pendingDivests : gmap ownershipKey pendingDivest;
  pendingAcquires : gmap acquireKey (list byte);      (** the tag of the request *)
  unownedOffers : gmap ownershipKey FederateHandle;
  callbackSessions : gmap FederateHandle ownershipCallbackSession;
}.
Definition newFederationState : federationState := Build_federationState ∅ ∅ ∅ ∅ ∅.
Abbreviation Manager := (gmap FederationName federationState).

(** Assignments to one field. *)
Definition set_owners st x := Build_federationState x (pendingDivests st) (pendingAcquires st) (unownedOffers st) (callbackSessions st).
Definition set_pendingDivests st x := Build_federationState (owners st) x (pendingAcquires st) (unownedOffers st) (callbackSessions st).
Definition set_pendingAcquires st x := Build_federationState (owners st) (pendingDivests st) x (unownedOffers st) (callbackSessions st).
Definition set_unownedOffers st x := Build_federationState (owners st) (pendingDivests st) (pendingAcquires st) x (callbackSessions st).
Definition set_callbackSessions st x := Build_federationState (owners st) (pendingDivests st) (pendingAcquires st) (unownedOffers st) x.
Definition set_session st h s := set_callbackSessions st (<[h := s]> (callbackSessions st)).
Definition set_event c e := Build_terminalCallback e (admitted c) (lastAttempt c) (inflightAttempt c) (sentAttempt c) (reportedAttempt c).
Definition set_admitted c x := Build_terminalCallback (event c) x (lastAttempt c) (inflightAttempt c) (sentAttempt c) (reportedAttempt c).
Definition set_attempts c last inflight sent reported := Build_terminalCallback (event c) (admitted c) last inflight sent reported.
Definition set_pendingCb s x := Build_ownershipCallbackSession (scope s) (enabled s) (restoreRequired s) (lastID s) (completedThrough s) (completed s) x.

(** ** The environment *)
Inductive SelectAcquirerPhase :=
| PhaseNegotiatedDivest | PhaseAcquire | PhaseDivestIfWanted | PhaseResign | PhaseUnconditionalDivest.
Record SelectAcquirerContext := {
  Phase : SelectAcquirerPhase; c_Federation : FederationName; c_Object : ObjectHandle; c_Attribute : AttributeHandle;
  c_Owner : FederateHandle; Candidates : list FederateHandle;
}.
(** [defaultNegotiation]. *)
Definition SelectAcquirer_default (c : SelectAcquirerContext) : FederateHandle :=
  match Candidates c with [] => InvalidFederateHandle | h :: _ => h end.

(** A preparation port answers an error or a release function, [false] when it
    is nil; a port of known coordinates also maps the attributes. *)
Definition preparePort := FederationName -> FederateHandle -> ObjectHandle -> list AttributeHandle -> outcome own_error bool.
Definition knownPort :=
  FederationName -> FederateHandle -> ObjectHandle -> list AttributeHandle -> outcome own_error (list AttributeHandle * bool).
Record Options := {
  Subscribers : option (FederationName -> ObjectHandle -> list AttributeHandle -> list FederateHandle);
  PublicationAttributes : option (FederationName -> ObjectHandle -> ObjectClassHandle -> list AttributeHandle -> list AttributeHandle);
  PrepareAcquisition : option preparePort;
  PrepareReleaseDenied : option preparePort;
  PrepareDivestiture : option preparePort;
  PrepareKnownAcquisition : option knownPort;
  PrepareKnownOperation : option knownPort;
  SelectAcquirer : SelectAcquirerContext -> FederateHandle;
  CallbackWindow : Z;
  EventLog : bool;               (** an event log is configured *)
  ReservableOutbox : bool;
}.
Inductive reservation := ReserveError | ReserveNil | Reserved (commits : bool).
Record Environment := {
  Send : OutboxDelivery -> bool;
  Reserve : list OutboxDelivery -> reservation;
  Append : eventRecord -> bool;
}.

(** [New]'s normalization of the options; the outbox is never nil here. *)
Definition New (opts : Options) (strategy : option (SelectAcquirerContext -> FederateHandle)) : outcome own_error Options :=
  let window := if CallbackWindow opts =? 0 then MaxCallbackStateCount else CallbackWindow opts in
  if MaxCallbackStateCount <? window then Fail (own_errorf "ownership callback window exceeds bounded state limit")
  else Ret (Build_Options (Subscribers opts) (PublicationAttributes opts) (PrepareAcquisition opts) (PrepareReleaseDenied opts)
              (PrepareDivestiture opts) (PrepareKnownAcquisition opts) (PrepareKnownOperation opts)
              (default SelectAcquirer_default strategy) window (EventLog opts) (ReservableOutbox opts)).

(** ** The ledger of terminal callbacks *)
Definition validCallbackScope (s : OwnershipCallbackScope) : bool :=
  negb (String.eqb (Federation s) EmptyString) && negb (s_Recipient s =? 0) && negb (FederationGeneration s =? 0).
Definition newSession (fed : FederationName) (recipient : FederateHandle) : ownershipCallbackSession :=
  Build_ownershipCallbackSession (Build_OwnershipCallbackScope fed recipient 0 0) false false 0 0 ∅ ∅.
(** [callbackSessionLocked]: the session, created when there is none. *)
Definition callbackSession (st : federationState) (fed : FederationName) (recipient : FederateHandle) : ownershipCallbackSession :=
  default (newSession fed recipient) (callbackSessions st !! recipient).

Definition terminalKind (k : CallbackKind) : bool :=
  match k with CallbackAcquisitionNotification | CallbackUnavailable | CallbackAcquisitionCancellation => true | _ => false end.
Definition validateTerminalDelivery (d : OutboxDelivery) : outcome own_error () :=
  let e := Event d in
  if (Recipient d =? 0) || (Object e =? 0) || bool_decide (Attributes e = []) ||
     (MaxCallbackStateCount <? zlen (Attributes e)) || negb (terminalKind (Kind e))
  then Fail ErrOwnershipCallbackReceipt
  else if existsb (fun a => a =? 0) (Attributes e) then Fail ErrOwnershipCallbackReceipt
  else Ret ().

(** The callbacks of all sessions that are pending or completed out of order. *)
Definition outstanding (st : federationState) : Z :=
  map_fold (fun _ s n => wrapU 64 (n + wrapU 64 (lastID s - completedThrough s))) 0 (callbackSessions st).
Fixpoint validateDeliveries (ds : list OutboxDelivery) : outcome own_error () :=
  match ds with
  | [] => Ret ()
  | d :: ds => _ ← validateTerminalDelivery d; validateDeliveries ds
  end.
Definition recipients (ds : list OutboxDelivery) : list FederateHandle := sortCompact (map Recipient ds).
Definition countFor (h : FederateHandle) (ds : list OutboxDelivery) : Z := zlen (filter (fun d => Recipient d = h) ds).
Fixpoint validateWindows (window : Z) (st : federationState) (ds : list OutboxDelivery) (hs : list FederateHandle)
    : outcome own_error () :=
  match hs with
  | [] => Ret ()
  | h :: hs =>
      let count := countFor h ds in
      let session := callbackSessions st !! h in
      if match session with Some s => restoreRequired s | None => false end then Fail ErrOwnershipCallbackScope
      else
        let last := match session with Some s => lastID s | None => 0 end in
        let through := match session with Some s => completedThrough s | None => 0 end in
        if (MaxUint64 - last <? count) || (window <? count) || (wrapU 64 (window - count) <? wrapU 64 (last - through))
        then Fail ErrOwnershipCallbackCapacity
        else validateWindows window st ds hs
  end.
Definition validateTerminalCallbacks (opts : Options) (st : federationState) (ds : list OutboxDelivery) : outcome own_error () :=
  if (MaxCallbackStateCount <? zlen ds) || (MaxCallbackStateCount - zlen ds <? outstanding st) then Fail ErrOwnershipCallbackCapacity
  else
    _ ← validateDeliveries ds;
    let newSessions := zlen (filter (fun h => callbackSessions st !! h = None) (recipients ds)) in
    if MaxCallbackStateCount <? Z.of_nat (size (callbackSessions st)) + newSessions then Fail ErrOwnershipCallbackCapacity
    else validateWindows (CallbackWindow opts) st ds (recipients ds).

Definition newTerminal (e : CallbackEvent) : terminalCallback := Build_terminalCallback e false 0 0 0 0.
(** One callback is numbered and owed; the event as sent carries its identity. *)
Definition registerOne (fed : FederationName) (st : federationState) (d : OutboxDelivery) : federationState * OutboxDelivery :=
  let s := callbackSession st fed (Recipient d) in
  let id := wrapU 64 (lastID s + 1) in
  let e := set_identity (Event d) id (scope s) (enabled s) in
  (set_session st (Recipient d)
     (Build_ownershipCallbackSession (scope s) (enabled s) (restoreRequired s) id (completedThrough s) (completed s)
        (<[id := newTerminal e]> (pendingCb s))),
   Delivery (Recipient d) e).
Fixpoint registerAll (fed : FederationName) (st : federationState) (ds : list OutboxDelivery) : federationState * list OutboxDelivery :=
  match ds with
  | [] => (st, [])
  | d :: ds => let (st, d) := registerOne fed st d in let (st, ds) := registerAll fed st ds in (st, d :: ds)
  end.
Definition normalizeDelivery (d : OutboxDelivery) : OutboxDelivery :=
  Delivery (Recipient d) (set_Attributes (Event d) (sortCompact (Attributes (Event d)))).
Definition registerTerminalCallbacks (opts : Options) (fed : FederationName) (st : federationState) (ds : list OutboxDelivery)
    : outcome own_error (federationState * list OutboxDelivery) :=
  let ds := map normalizeDelivery ds in
  _ ← validateTerminalCallbacks opts st ds;
  Ret (registerAll fed st ds).

(** [completedThrough] advances over the numbers completed after it; each round
    consumes one, so their count is enough fuel. *)
Fixpoint advanceCompleted (fuel : nat) (through : Z) (done_ : gset Z) : Z * gset Z :=
  match fuel with
  | O => (through, done_)
  | S fuel =>
      let next := wrapU 64 (through + 1) in
      if bool_decide (next ∈ done_) then advanceCompleted fuel next (done_ ∖ {[next]}) else (through, done_)
  end.
Definition complete (s : ownershipCallbackSession) (id : Z) : ownershipCallbackSession :=
  let done_ := {[id]} ∪ completed s in
  let (through, done_) := advanceCompleted (size done_) (completedThrough s) done_ in
  Build_ownershipCallbackSession (scope s) (enabled s) (restoreRequired s) (lastID s) through done_ (delete id (pendingCb s)).
