(* ===== verification/OwnCallback.v ===== *)
(** * Delivery and receipt of ownership callbacks

    [terminal_callbacks.go], [resign_callback_retry.go] and
    [callback_restore_scopes.go]: admission of owed callbacks to the queue, the
    delivery attempts of a strict recipient with their invocation receipts, and
    the rebinding of restored sessions.

    A delivery attempt is [BeginOwnershipCallbackDelivery], then its [finish]
    ([finishOwnershipCallbackDelivery]); a report may come before or after it.
    The [enqueueing] flag, which keeps two admissions of one callback apart, is
    left out: an admission is one step here. *)
From stdpp Require Import gmap.
From S2P Require Import Prelude GoBytes Own.
Open Scope Z_scope.

(** What an operation does besides changing the state, in order. *)
Inductive effect :=
| Logged (r : eventRecord)
| Sent (d : OutboxDelivery) (ok : bool)
| DeliveryError (recipient : FederateHandle) (id : Z)      (** [OnTerminalDeliveryError] *)
| OwnershipChanged (obj : ObjectHandle).
Record reply (A : Type) := Reply { mgr : Manager; effects : list effect; ret : outcome own_error A }.
Arguments Reply {A} _ _ _.
Arguments mgr {A} _.
Arguments effects {A} _.
Arguments ret {A} _.

Definition publish (m : Manager) (fed : FederationName) (st : federationState) : Manager := <[fed := st]> m.
Definition OnFederationDestroyed (m : Manager) (fed : FederationName) : Manager := delete fed m.
Definition compareUint64 (a b : Z) : Z := if a <? b then -1 else if b <? a then 1 else 0.

(** The entries of a session in ascending order of their numbers. *)
Definition pendingIDs (s : ownershipCallbackSession) : list Z := sortHandles (elements (dom (pendingCb s))).

Section Callbacks.
Context (opts : Options) (env : Environment).

(** ** Admission *)
Definition settle (s : ownershipCallbackSession) (id : Z) (entry : terminalCallback) (ok : bool) : ownershipCallbackSession :=
  let s := set_pendingCb s (<[id := set_admitted entry ok]> (pendingCb s)) in
  if ok && negb (enabled s) then complete s id else s.
Definition sendTerminalCallback (m : Manager) (fed : FederationName) (recipient : FederateHandle) (e : CallbackEvent) : reply () :=
  match m !! fed with
  | None => Reply m [] (Fail ErrOwnershipCallbackScope)
  | Some st =>
      match callbackSessions st !! recipient with
      | None => Reply m [] (Fail ErrOwnershipCallbackScope)
      | Some s =>
          match pendingCb s !! CallbackID e with
          | None => Reply m [] (Ret ())
          | Some entry =>
              let d := Delivery recipient (event entry) in
              let ok := Send env d in
              Reply (publish m fed (set_session st recipient (settle s (CallbackID e) entry ok)))
                (Sent d ok :: if ok then [] else [DeliveryError recipient (CallbackID e)])
                (if ok then Ret () else Fail errOutbox)
          end
      end
  end.

(** [finishTerminalAdmission]: the callbacks were admitted together, or not. *)
Definition finishOne (st : federationState) (d : OutboxDelivery) (ok : bool) : federationState :=
  match callbackSessions st !! Recipient d with
  | None => st
  | Some s =>
      match pendingCb s !! CallbackID (Event d) with
      | None => st
      | Some entry => set_session st (Recipient d) (settle s (CallbackID (Event d)) entry ok)
      end
  end.
Definition finishTerminalAdmission (m : Manager) (fed : FederationName) (ds : list OutboxDelivery) (ok : bool) : reply () :=
  Reply (match m !! fed with
         | Some st => publish m fed (fold_left (fun st d => finishOne st d ok) ds st)
         | None => m
         end)
    (if ok then [] else map (fun d => DeliveryError (Recipient d) (CallbackID (Event d))) ds) (Ret ()).

(** ** Receipts *)
Definition EnableOwnershipCallbackReceipts (m : Manager) (sc : OwnershipCallbackScope) : reply () :=
  if negb (validCallbackScope sc) then Reply m [] (Fail ErrOwnershipCallbackScope)
  else
    let st := default newFederationState (m !! Federation sc) in
    let m := publish m (Federation sc) st in
    let session := callbackSessions st !! s_Recipient sc in
    if match session with Some s => restoreRequired s | None => false end then Reply m [] (Fail ErrOwnershipCallbackScope)
    else if match session with Some s => enabled s && bool_decide (scope s = sc) | None => false end then Reply m [] (Ret ())
    else if match session with Some s => negb (bool_decide (pendingCb s = ∅)) | None => false end
    then Reply m [] (Fail ErrOwnershipAcquisitionPending)
    else if existsb (fun k : acquireKey => k.2 =? s_Recipient sc) (elements (dom (pendingAcquires st)))
    then Reply m [] (Fail ErrOwnershipAcquisitionPending)
    else if bool_decide (session = None) && (MaxCallbackStateCount <=? Z.of_nat (size (callbackSessions st)))
    then Reply m [] (Fail ErrOwnershipCallbackCapacity)
    else
      let s := callbackSession st (Federation sc) (s_Recipient sc) in
      let s := Build_ownershipCallbackSession sc true (restoreRequired s) (lastID s) (completedThrough s) (completed s) (pendingCb s) in
      Reply (publish m (Federation sc) (set_session st (s_Recipient sc) s)) [] (Ret ()).

Definition callbackSessionForScope (m : Manager) (sc : OwnershipCallbackScope)
    : outcome own_error (federationState * ownershipCallbackSession) :=
  match m !! Federation sc with
  | None => Fail ErrOwnershipCallbackScope
  | Some st =>
      match callbackSessions st !! s_Recipient sc with
      | None => Fail ErrOwnershipCallbackScope
      | Some s =>
          if negb (enabled s) || restoreRequired s || negb (bool_decide (scope s = sc)) then Fail ErrOwnershipCallbackScope
          else Ret (st, s)
      end
  end.

Record OwnershipCallbackReceipt := {
  rc_Generation : Z; rc_Epoch : Z; rc_CallbackID : Z; rc_DeliveryAttempt : Z;
}.
(** The change to one session. *)
Definition beginSession (s : ownershipCallbackSession) (id : Z) : outcome own_error (ownershipCallbackSession * Z) :=
  if negb (id =? 0) && (id <=? completedThrough s) then Fail ErrOwnershipCallbackComplete
  else if bool_decide (id ∈ completed s) then Fail ErrOwnershipCallbackComplete
  else
    match pendingCb s !! id with
    | None => Fail ErrOwnershipCallbackReceipt
    | Some entry =>
        if lastAttempt entry =? MaxUint64 then Fail ErrOwnershipCallbackReceipt
        else if negb (inflightAttempt entry =? 0) then Fail ErrOwnershipCallbackBusy
        else
          let attempt := lastAttempt entry + 1 in
          let entry := set_attempts (set_admitted entry false) attempt attempt (sentAttempt entry) (reportedAttempt entry) in
          Ret (set_pendingCb s (<[id := entry]> (pendingCb s)), attempt)
    end.
Definition BeginOwnershipCallbackDelivery (m : Manager) (sc : OwnershipCallbackScope) (id : Z) : reply OwnershipCallbackReceipt :=
  match r ← callbackSessionForScope m sc; p ← beginSession r.2 id; Ret (r.1, p) with
  | Ret (st, (s, attempt)) =>
      Reply (publish m (Federation sc) (set_session st (s_Recipient sc) s)) []
        (Ret (Build_OwnershipCallbackReceipt (FederationGeneration sc) (CallbackEpoch sc) id attempt))
  | Fail e => Reply m [] (Fail e)
  | Panic s => Reply m [] (Panic s)
  end.

Definition finishSession (s : ownershipCallbackSession) (id attempt : Z) (sent : bool) : ownershipCallbackSession :=
  match pendingCb s !! id with
  | None => s
  | Some entry =>
      if negb (inflightAttempt entry =? attempt) then s
      else
        let reported := reportedAttempt entry =? attempt in
        let entry :=
          if sent then set_attempts entry (lastAttempt entry) 0 attempt (reportedAttempt entry)
          else set_attempts entry (lastAttempt entry) 0 (sentAttempt entry) (if reported then 0 else reportedAttempt entry) in
        let s := set_pendingCb s (<[id := entry]> (pendingCb s)) in
        if sent && reported then complete s id else s
  end.
Definition finishOwnershipCallbackDelivery (m : Manager) (sc : OwnershipCallbackScope) (id attempt : Z) (sent : bool) : reply () :=
  match callbackSessionForScope m sc with
  | Ret (st, s) => Reply (publish m (Federation sc) (set_session st (s_Recipient sc) (finishSession s id attempt sent))) [] (Ret ())
  | _ => Reply m [] (Ret ())
  end.

Definition reportSession (s : ownershipCallbackSession) (id attempt : Z) : outcome own_error ownershipCallbackSession :=
  if id <=? completedThrough s then Ret s
  else if bool_decide (id ∈ completed s) then Ret s
  else
    match pendingCb s !! id with
    | None => Fail ErrOwnershipCallbackReceipt
    | Some entry =>
        if (attempt =? sentAttempt entry) && negb (sentAttempt entry =? 0) then Ret (complete s id)
        else if (attempt =? inflightAttempt entry) && negb (inflightAttempt entry =? 0)
        then Ret (set_pendingCb s (<[id := set_attempts entry (lastAttempt entry) (inflightAttempt entry) (sentAttempt entry) attempt]> (pendingCb s)))
        else Fail ErrOwnershipCallbackReceipt
    end.
Definition ReportOwnershipCallbackInvocation (m : Manager) (sc : OwnershipCallbackScope) (rc : OwnershipCallbackReceipt) : reply () :=
  if (rc_CallbackID rc =? 0) || (rc_DeliveryAttempt rc =? 0) || negb (rc_Generation rc =? FederationGeneration sc) ||
     negb (rc_Epoch rc =? CallbackEpoch sc)
  then Reply m [] (Fail ErrOwnershipCallbackReceipt)
  else
    match r ← callbackSessionForScope m sc; s ← reportSession r.2 (rc_CallbackID rc) (rc_DeliveryAttempt rc); Ret (r.1, s) with
    | Ret (st, s) => Reply (publish m (Federation sc) (set_session st (s_Recipient sc) s)) [] (Ret ())
    | Fail e => Reply m [] (Fail e)
    | Panic s => Reply m [] (Panic s)
    end.

(** ** Retries

    Every listed callback is tried; the errors are joined. *)
Fixpoint sendAll (m : Manager) (fed : FederationName) (recipient : FederateHandle) (es : list CallbackEvent) : reply () :=
  match es with
  | [] => Reply m [] (Ret ())
  | e :: es =>
      let r := sendTerminalCallback m fed recipient e in
      let r' := sendAll (mgr r) fed recipient es in
      Reply (mgr r') (effects r ++ effects r') (match ret r with Ret _ => ret r' | e => e end)
  end.
Definition sessionEvents (s : ownershipCallbackSession) (keep : terminalCallback -> bool) : list CallbackEvent :=
  omap (fun id => match pendingCb s !! id with
                  | Some entry => if keep entry then Some (event entry) else None
                  | None => None
                  end) (pendingIDs s).
Definition needsTerminalAdmission (entry : terminalCallback) : bool :=
  negb (admitted entry) && (inflightAttempt entry =? 0) && (sentAttempt entry =? 0).

Definition RetryOwnershipCallbacks (m : Manager) (sc : OwnershipCallbackScope) : reply () :=
  match m !! Federation sc ≫= fun st => callbackSessions st !! s_Recipient sc with
  | None => Reply m [] (Fail ErrOwnershipCallbackScope)
  | Some s =>
      if restoreRequired s || enabled s && negb (bool_decide (scope s = sc)) then Reply m [] (Fail ErrOwnershipCallbackScope)
      else sendAll m (Federation sc) (s_Recipient sc) (sessionEvents s (fun _ => true))
  end.
Definition RetryUnadmittedOwnershipCallbacks (m : Manager) (sc : OwnershipCallbackScope) : reply () :=
  match m !! Federation sc ≫= fun st => callbackSessions st !! s_Recipient sc with
  | None => Reply m [] (Fail ErrOwnershipCallbackScope)
  | Some s =>
      if restoreRequired s || negb (bool_decide (scope s = sc)) then Reply m [] (Fail ErrOwnershipCallbackScope)
      else sendAll m (Federation sc) (s_Recipient sc) (sessionEvents s needsTerminalAdmission)
  end.
(** Per federation; [PendingOwnershipAdmissions] concatenates and sorts them. *)
Definition pendingAdmissions (st : federationState) : list OwnershipCallbackScope :=
  omap (fun h => match callbackSessions st !! h with
                 | Some s => if restoreRequired s then None
                             else if existsb (fun e => needsTerminalAdmission e.2) (map_to_list (pendingCb s)) then Some (scope s) else None
                 | None => None
                 end) (sortHandles (elements (dom (callbackSessions st)))).

(** ** Obligations *)
Definition hasAcquisitionObligation (st : federationState) (recipient : FederateHandle) (obj : ObjectHandle) (attrs : list AttributeHandle) : bool :=
  let named a := bool_decide (attrs = []) || bool_decide (a ∈ attrs) in
  existsb (fun k : acquireKey => (k.2 =? recipient) && (k.1.1 =? obj) && named k.1.2) (elements (dom (pendingAcquires st))) ||
  match callbackSessions st !! recipient with
  | None => false
  | Some s =>
      existsb (fun e => (Object (event e.2) =? obj) &&
                        (bool_decide (attrs = []) || existsb (fun a => bool_decide (a ∈ Attributes (event e.2))) attrs))
        (map_to_list (pendingCb s))
  end.
Definition HasAcquisitionObligation (m : Manager) fed recipient obj attrs : bool :=
  match m !! fed with Some st => hasAcquisitionObligation st recipient obj attrs | None => false end.

(** ** Rebinding after a restore *)
Definition rebindCallbackSession (s : ownershipCallbackSession) (sc : OwnershipCallbackScope) : ownershipCallbackSession :=
  Build_ownershipCallbackSession sc (enabled s) false (lastID s) (completedThrough s) (completed s)
    ((fun entry => newTerminal (set_identity (event entry) (CallbackID (event entry)) sc (RequireInvocationReceipt (event entry)))) <$> pendingCb s).
Definition RebindOwnershipCallbackScope (m : Manager) (sc : OwnershipCallbackScope) : reply () :=
  if negb (validCallbackScope sc) then Reply m [] (Fail ErrOwnershipCallbackScope)
  else
    match m !! Federation sc with
    | None => Reply m [] (Fail ErrOwnershipCallbackScope)
    | Some st =>
        match callbackSessions st !! s_Recipient sc with
        | None => Reply m [] (Fail ErrOwnershipCallbackScope)
        | Some s =>
            if negb (enabled s) then Reply m [] (Fail ErrOwnershipCallbackScope)
            else if bool_decide (scope s = sc) then
              Reply m [] (if restoreRequired s then Fail ErrOwnershipCallbackScope else Ret ())
            else Reply (publish m (Federation sc) (set_session st (s_Recipient sc) (rebindCallbackSession s sc))) [] (Ret ())
        end
    end.

(** The planned scopes, keyed by recipient. *)
Fixpoint planScopes (fed : FederationName) (scopes : list OwnershipCallbackScope) (planned : gmap FederateHandle OwnershipCallbackScope)
    : outcome own_error (gmap FederateHandle OwnershipCallbackScope) :=
  match scopes with
  | [] => Ret planned
  | sc :: scopes =>
      if negb (validCallbackScope sc) || negb (String.eqb (Federation sc) fed) then Fail ErrOwnershipCallbackScope
      else if bool_decide (is_Some (planned !! s_Recipient sc)) then Fail ErrOwnershipCallbackScope
      else planScopes fed scopes (<[s_Recipient sc := sc]> planned)
  end.
Definition restorable (planned : gmap FederateHandle OwnershipCallbackScope) (h : FederateHandle) (s : ownershipCallbackSession) : bool :=
  negb (enabled s) ||
  match planned !! h with Some sc => restoreRequired s && negb (bool_decide (sc = scope s)) | None => false end.
(** The reservation and its [Commit]: [commits] tells whether it is committed. *)
Definition PrepareOwnershipCallbackRestoreScopes (m : Manager) (fed : FederationName) (scopes : list OwnershipCallbackScope) (commits : bool)
    : reply () :=
  if String.eqb fed EmptyString || (MaxCallbackStateCount <? zlen scopes) then Reply m [] (Fail ErrOwnershipCallbackScope)
  else
    match planScopes fed scopes ∅ with
    | Ret planned =>
        match m !! fed with
        | None => Reply m [] (Ret ())
        | Some st =>
            if forallb (fun hs => restorable planned hs.1 hs.2) (map_to_list (callbackSessions st)) then
              if commits then
                Reply (publish m fed (set_callbackSessions st
                  (map_imap (fun h s => Some match planned !! h with
                                             | Some sc => if enabled s then rebindCallbackSession s sc else s
                                             | None => s
                                             end) (callbackSessions st)))) [] (Ret ())
              else Reply m [] (Ret ())
            else Reply m [] (Fail ErrOwnershipCallbackScope)
        end
    | Fail e => Reply m [] (Fail e)
    | Panic s => Reply m [] (Panic s)
    end.
Definition PrepareOwnershipCallbackScopeRestore (m : Manager) (fed : FederationName) (scopes : gmap FederateHandle OwnershipCallbackScope)
    (commits : bool) : reply () :=
  if MaxCallbackStateCount <? Z.of_nat (size scopes) then Reply m [] (Fail ErrOwnershipCallbackScope)
  else if negb (forallb (fun hs => hs.1 =? s_Recipient hs.2) (map_to_list scopes)) then Reply m [] (Fail ErrOwnershipCallbackScope)
  else PrepareOwnershipCallbackRestoreScopes m fed
         (omap (fun h => scopes !! h) (sortHandles (elements (dom scopes)))) commits.
End Callbacks.
