(* ===== verification/OwnService.v ===== *)
(** * Ownership services

    [manager.go], [assumption.go], [divest_validation.go], [known_command.go]
    and [release_denied.go].  A service prepares its attributes, changes the
    state under the lock or refuses, and then reports: its log records, events
    and terminal callbacks are a list of [post]s, run in order after the lock is
    released. *)
From stdpp Require Import gmap.
From Stdlib Require Import Strings.Byte.
From S2P Require Import Prelude GoBytes Own OwnCallback.
Open Scope Z_scope.

Inductive post :=
| PostLog (r : eventRecord)
| PostSend (d : OutboxDelivery)                  (** [Outbox.Send], its error ignored *)
| PostTerminal (d : OutboxDelivery)              (** [sendTerminalCallback], its error ignored *)
| PostAssume (owner : FederateHandle) (obj : ObjectHandle) (attrs : list AttributeHandle) (tag : list byte) (unowned : bool) (only : FederateHandle)
| PostChanged (obj : ObjectHandle).

(** ** Queries on a state *)
Definition acquirersOf (st : federationState) (obj : ObjectHandle) (attr : AttributeHandle) : list FederateHandle :=
  map snd (filter (fun k : acquireKey => k.1 = (obj, attr)) (elements (dom (pendingAcquires st)))).
Definition queuedAcquirers (st : federationState) obj attr : list FederateHandle := sortHandles (acquirersOf st obj attr).
Definition ownedBy (st : federationState) (k : ownershipKey) (h : FederateHandle) : bool := bool_decide (owners st !! k = Some h).
Definition validateOwnedAttributes (st : federationState) obj owner (attrs : list AttributeHandle) : outcome own_error () :=
  if forallb (fun a => ownedBy st (obj, a) owner) attrs then Ret () else Fail ErrAttributeNotOwned.
Definition acquirePending (st : federationState) (obj : ObjectHandle) (a : AttributeHandle) (h : FederateHandle) : bool :=
  bool_decide (is_Some (pendingAcquires st !! (obj, a, h))).
(** The tag of a request; the zero value's when it is absent. *)
Definition requestTag (st : federationState) (obj : ObjectHandle) (a : AttributeHandle) (h : FederateHandle) : list byte :=
  default [] (pendingAcquires st !! (obj, a, h)).
Definition remainingReleaseRequests (st : federationState) obj attr winner (candidates : list FederateHandle) : list OutboxDelivery :=
  map (fun c => Delivery winner (releaseRequestEvent obj [attr] (requestTag st obj attr c))) (filter (fun c => c <> winner) candidates).

Definition validAssumption (st : option federationState) obj attr candidate owner (tag : list byte) (unowned : bool) : bool :=
  match st with
  | None => false
  | Some st =>
      let k := (obj, attr) in
      let acquiring := acquirePending st obj attr candidate in
      if unowned then bool_decide (owners st !! k = None) && negb acquiring && bool_decide (unownedOffers st !! k = Some owner)
      else ownedBy st k owner && negb acquiring &&
           match pendingDivests st !! k with Some offer => (pd_owner offer =? owner) && bool_decide (pd_tag offer = tag) | None => false end
  end.

(** ** Changes of the four maps *)
Definition setOwner (st : federationState) (k : ownershipKey) (h : FederateHandle) := set_owners st (<[k := h]> (owners st)).
Definition dropOwner (st : federationState) (k : ownershipKey) := set_owners st (delete k (owners st)).
Definition dropDivest (st : federationState) (k : ownershipKey) := set_pendingDivests st (delete k (pendingDivests st)).
Definition setOffer (st : federationState) (k : ownershipKey) (h : FederateHandle) := set_unownedOffers st (<[k := h]> (unownedOffers st)).
Definition dropOffer (st : federationState) (k : ownershipKey) := set_unownedOffers st (delete k (unownedOffers st)).
Definition setAcquire (st : federationState) (k : acquireKey) (tag : list byte) := set_pendingAcquires st (<[k := tag]> (pendingAcquires st)).
Definition dropAcquire (st : federationState) (k : acquireKey) := set_pendingAcquires st (delete k (pendingAcquires st)).
Definition setConfirmation (st : federationState) (k : ownershipKey) (b : bool) :=
  match pendingDivests st !! k with
  | Some pd => set_pendingDivests st (<[k := set_confirmationRequested pd b]> (pendingDivests st))
  | None => set_pendingDivests st (<[k := Build_pendingDivest 0 [] false b]> (pendingDivests st))
  end.

Section Services.
Context (opts : Options) (env : Environment).

(** ** Preparation *)
Definition ownershipPreparation := FederationName -> FederateHandle -> ObjectHandle -> list AttributeHandle -> outcome own_error (list AttributeHandle).
Definition canonicalPreparation (prepare : option preparePort) : ownershipPreparation := fun fed caller obj attrs =>
  match prepare with
  | None => Ret attrs
  | Some port =>
      release ← (port fed caller obj attrs : outcome own_error bool);
      if (release : bool) then Ret attrs else Fail (own_errorf "ownership: preparation returned no release")
  end.

(** ** Reports *)
Definition assumeOne (m : Manager) (fed : FederationName) (owner : FederateHandle) (obj : ObjectHandle) (attr : AttributeHandle) (tag : list byte) (unowned : bool) (only candidate : FederateHandle) : list effect :=
  if negb (only =? 0) && negb (candidate =? only) then []
  else if (candidate =? owner) || (candidate =? InvalidFederateHandle) || (candidate =? rtiHandle) then []
  else if match PrepareAcquisition opts with
          | Some port => match port fed candidate obj [attr] with Ret release => negb release | _ => true end
          | None => false
          end then []
  else if validAssumption (m !! fed) obj attr candidate owner tag unowned then
    let d := Delivery candidate (assumptionEvent obj [attr] tag owner) in [Sent d (Send env d)]
  else [].
Definition fanoutAssumptionTo (m : Manager) fed owner obj (attrs : list AttributeHandle) (tag : list byte) (unowned : bool) (only : FederateHandle)
    : list effect :=
  match Subscribers opts with
  | None => []
  | Some subscribers =>
      flat_map (fun attr => flat_map (assumeOne m fed owner obj attr tag unowned only) (sortCompact (subscribers fed obj [attr])))
        (sortCompact attrs)
  end.
Definition runPost (fed : FederationName) (acc : Manager * list effect) (p : post) : Manager * list effect :=
  let (m, es) := acc in
  match p with
  | PostLog r => (m, es ++ if EventLog opts then [Logged r] else [])
  | PostSend d => (m, es ++ [Sent d (Send env d)])
  | PostTerminal d => let r := sendTerminalCallback env m fed (Recipient d) (Event d) in (mgr r, es ++ effects r)
  | PostAssume owner obj attrs tag unowned only => (m, es ++ fanoutAssumptionTo m fed owner obj attrs tag unowned only)
  | PostChanged obj => (m, es ++ [OwnershipChanged obj])
  end.

(** A change of the state: the new state and, unless refused, what to report
    and the result. *)
Definition change (A : Type) := federationState -> federationState * outcome own_error (list post * A).
(** A service: [absent] is the error when the federation has no ownership state;
    [None] creates it. *)
Definition service {A} (m : Manager) (fed : FederationName) (absent : option own_error) (c : change A) : reply A :=
  match m !! fed, absent with
  | None, Some e => Reply m [] (Fail e)
  | o, _ =>
      let (st, r) := c (default newFederationState o) in
      match r with
      | Ret (posts, a) => let (m, es) := fold_left (runPost fed) posts (publish m fed st, []) in Reply m es (Ret a)
      | Fail e => Reply (publish m fed st) [] (Fail e)
      | Panic s => Reply (publish m fed st) [] (Panic s)
      end
  end.
(** A change that is refused leaves the state as it is. *)
Definition checked {A} (st : federationState) (r : outcome own_error (federationState * list post * A))
    : federationState * outcome own_error (list post * A) :=
  match r with
  | Ret (st, posts, a) => (st, Ret (posts, a))
  | Fail e => (st, Fail e)
  | Panic s => (st, Panic s)
  end.
Definition prepared {A} (m : Manager) (r : outcome own_error (list AttributeHandle)) (k : list AttributeHandle -> reply A) : reply A :=
  match r with Ret attrs => k attrs | Fail e => Reply m [] (Fail e) | Panic s => Reply m [] (Panic s) end.

Definition logOf (kind : eventKind) obj attrs from to := PostLog (Build_eventRecord kind obj attrs from to).
Definition notifyAcquisition obj attrs oldOwner newOwner (terminal : OutboxDelivery) : list post :=
  [logOf evtTransferred obj attrs oldOwner newOwner; PostTerminal terminal].
Definition notifyTransfer obj attrs oldOwner newOwner (terminal : OutboxDelivery) : list post :=
  [logOf evtTransferred obj attrs oldOwner newOwner; PostSend (Delivery oldOwner (divestNotificationEvent obj attrs)); PostTerminal terminal].

(** ** Registration and queries *)
Definition RegisterInitialOwnership (m : Manager) fed owner obj (attrs : list AttributeHandle) : Manager :=
  if (owner =? InvalidFederateHandle) || (obj =? 0) then m
  else publish m fed (fold_left (fun st a => dropOffer (setOwner st (obj, a) owner) (obj, a)) attrs (default newFederationState (m !! fed))).
Definition QueryOwnership (m : Manager) fed obj attr : FederateHandle * bool :=
  match m !! fed ≫= fun st => owners st !! (obj, attr) with Some h => (h, true) | None => (0, false) end.
Definition IsOwnedBy (m : Manager) fed h obj attr : bool := let (owner, ok) := QueryOwnership m fed obj attr in ok && (owner =? h).
Definition PrepareAttributeOwners (m : Manager) fed obj (attrs : list AttributeHandle) : list (AttributeHandle * FederateHandle) :=
  match m !! fed with
  | None => []
  | Some st => map (fun a => (a, default 0 (owners st !! (obj, a)))) attrs
  end.
Definition PrepareLocalDelete (m : Manager) fed caller obj : outcome own_error () :=
  match m !! fed with
  | None => Ret ()
  | Some st =>
      if existsb (fun kh => (kh.1.1 =? obj) && (kh.2 =? caller)) (map_to_list (owners st)) then Fail ErrFederateOwnsAttributes
      else if hasAcquisitionObligation st caller obj [] then Fail ErrOwnershipAcquisitionPending
      else Ret ()
  end.

(** ** Unconditional divestiture *)
Record transfer := { tr_attr : AttributeHandle; tr_winner : FederateHandle; tr_remaining : list OutboxDelivery }.
Fixpoint selectTransfers (fed : FederationName) (st : federationState) owner obj (attrs : list AttributeHandle)
    : outcome own_error (list transfer * list AttributeHandle) :=
  match attrs with
  | [] => Ret ([], [])
  | a :: attrs =>
      let candidates := queuedAcquirers st obj a in
      let winner := SelectAcquirer opts (Build_SelectAcquirerContext PhaseUnconditionalDivest fed obj a owner candidates) in
      if negb (winner =? InvalidFederateHandle) && negb (bool_decide (winner ∈ candidates))
      then Fail (own_errorf "ownership: unconditional divest strategy selected noncandidate")
      else
        r ← selectTransfers fed st owner obj attrs;
        let (trs, unowned) := (r : list transfer * list AttributeHandle) in
        Ret (if winner =? InvalidFederateHandle then (trs, a :: unowned)
             else (Build_transfer a winner (remainingReleaseRequests st obj a winner candidates) :: trs, unowned))
  end.
Definition transferDelivery obj (tag : list byte) (tr : transfer) : OutboxDelivery :=
  Delivery (tr_winner tr) (acquireNotificationEvent obj [tr_attr tr] (tr_winner tr) tag).
(** An attribute passes to the winner of its offer. *)
Definition giveTo (st : federationState) (k : ownershipKey) (winner : FederateHandle) : federationState :=
  dropAcquire (dropOffer (setOwner st k winner) k) (k, winner).
Definition unconditionalDivestChange fed owner obj (attrs : list AttributeHandle) : change () := fun st => checked st (
  _ ← validateOwnedAttributes st obj owner attrs;
  sel ← selectTransfers fed st owner obj attrs;
  let (trs, unowned) := (sel : list transfer * list AttributeHandle) in
  reg ← registerTerminalCallbacks opts fed st (map (transferDelivery obj []) trs);
  let (st, terminals) := (reg : federationState * list OutboxDelivery) in
  let st := fold_left (fun st a => dropDivest (setOffer (dropOwner st (obj, a)) (obj, a) owner) (obj, a)) attrs st in
  let st := fold_left (fun st tr => giveTo st (obj, tr_attr tr) (tr_winner tr)) trs st in
  Ret (st,
    logOf evtUnconditionalDivest obj attrs owner 0 ::
    flat_map (fun p : transfer * OutboxDelivery => notifyAcquisition obj [tr_attr p.1] owner (tr_winner p.1) p.2 ++ map PostSend (tr_remaining p.1))
      (zip trs terminals) ++
    [PostAssume owner obj unowned [] true 0; PostChanged obj], ())).
Definition unconditionalDivest (m : Manager) fed owner obj attrs (prepare : ownershipPreparation) : reply () :=
  prepared m (prepare fed owner obj attrs) (fun attrs => service m fed (Some ErrAttributeNotOwned) (unconditionalDivestChange fed owner obj (sortCompact attrs))).

(** ** Negotiated divestiture *)
Record pendingCompletion := { pc_attr : AttributeHandle; pc_acquirer : FederateHandle }.
Fixpoint checkDivests (st : federationState) owner obj (attrs : list AttributeHandle) : outcome own_error () :=
  match attrs with
  | [] => Ret ()
  | a :: attrs =>
      if negb (ownedBy st (obj, a) owner) then Fail ErrAttributeNotOwned
      else if bool_decide (is_Some (pendingDivests st !! (obj, a))) then Fail ErrOwnershipDivestPending
      else checkDivests st owner obj attrs
  end.
(** The queued acquirers the strategy selects, for a phase. *)
Definition queuedWinner (fed : FederationName) (phase : SelectAcquirerPhase) (st : federationState) owner obj a : option FederateHandle :=
  let winner := SelectAcquirer opts (Build_SelectAcquirerContext phase fed obj a owner (queuedAcquirers st obj a)) in
  if negb (winner =? InvalidFederateHandle) && acquirePending st obj a winner then Some winner else None.
Definition completionsOf (fed : FederationName) (phase : SelectAcquirerPhase) (st : federationState) owner obj (attrs : list AttributeHandle)
    : list pendingCompletion :=
  omap (fun a => Build_pendingCompletion a <$> queuedWinner fed phase st owner obj a) attrs.
Definition completionDelivery obj (tag : list byte) (c : pendingCompletion) : OutboxDelivery :=
  Delivery (pc_acquirer c) (acquireNotificationEvent obj [pc_attr c] (pc_acquirer c) tag).
(** Ownership passes; the offer and the request are settled. *)
Definition complete_transfer (st : federationState) (k : ownershipKey) (winner : FederateHandle) : federationState :=
  dropAcquire (dropDivest (setOwner st k winner) k) (k, winner).
Definition recordPendingDivest fed owner obj (attrs : list AttributeHandle) (tag : list byte) (two : bool) (st : federationState)
    : outcome own_error (federationState * list pendingCompletion * list OutboxDelivery) :=
  _ ← checkDivests st owner obj attrs;
  let completions := completionsOf fed PhaseNegotiatedDivest st owner obj attrs in
  reg ← (if two then Ret (st, []) else registerTerminalCallbacks opts fed st (map (completionDelivery obj tag) completions));
  let (st, terminals) := (reg : federationState * list OutboxDelivery) in
  let st := fold_left (fun st a => set_pendingDivests st (<[(obj, a) := Build_pendingDivest owner tag two false]> (pendingDivests st))) attrs st in
  let st := if two then fold_left (fun st c => setConfirmation st (obj, pc_attr c) true) completions st
            else fold_left (fun st c => complete_transfer st (obj, pc_attr c) (pc_acquirer c)) completions st in
  Ret (st, completions, terminals).
Definition negotiatedDivestChange fed owner obj (attrs : list AttributeHandle) (tag : list byte) (two : bool) : change () := fun st => checked st (
  r ← recordPendingDivest fed owner obj attrs tag two st;
  let '(st, completions, terminals) := (r : federationState * list pendingCompletion * list OutboxDelivery) in
  Ret (st,
    logOf evtNegotiatedDivest obj attrs owner 0 :: PostAssume owner obj attrs tag false 0 ::
    (if two then
       match completions with
       | [] => []
       | _ => [PostSend (Delivery owner (divestNotificationEvent obj (sortHandles (map pc_attr completions))))]
       end
     else
       flat_map (fun p : pendingCompletion * OutboxDelivery => notifyTransfer obj [pc_attr p.1] owner (pc_acquirer p.1) p.2) (zip completions terminals) ++
       match completions with [] => [] | _ => [PostChanged obj] end), ())).
Definition negotiatedDivest (m : Manager) fed owner obj attrs tag two (prepare : ownershipPreparation) : reply () :=
  prepared m (prepare fed owner obj attrs) (fun attrs => service m fed (Some ErrAttributeNotOwned) (negotiatedDivestChange fed owner obj attrs tag two)).

(** ** Confirmation *)
Fixpoint checkConfirmable (st : federationState) owner obj (attrs : list AttributeHandle) : outcome own_error () :=
  match attrs with
  | [] => Ret ()
  | a :: attrs =>
      match pendingDivests st !! (obj, a) with
      | Some pd => if negb (pd_owner pd =? owner) || negb (twoPhase pd) || negb (confirmationRequested pd)
                   then Fail ErrOwnershipConfirmationNotRequested else checkConfirmable st owner obj attrs
      | None => Fail ErrOwnershipConfirmationNotRequested
      end
  end.
Definition waitingAttrs (st : federationState) obj (attrs : list AttributeHandle) : list AttributeHandle :=
  filter (fun a => queuedAcquirers st obj a = []) attrs.
Fixpoint confirmWinners (fed : FederationName) (st : federationState) owner obj (attrs : list AttributeHandle) (winners : gmap AttributeHandle FederateHandle)
    : outcome own_error (gmap AttributeHandle FederateHandle) :=
  match attrs with
  | [] => Ret winners
  | a :: attrs =>
      match queuedWinner fed PhaseNegotiatedDivest st owner obj a with
      | Some winner => confirmWinners fed st owner obj attrs (<[a := winner]> winners)
      | None => Fail ErrOwnershipNotInTransfer
      end
  end.
(** [byWinner]: the attributes of each winner, both ascending. *)
Definition sortedWinnerHandles (winners : gmap AttributeHandle FederateHandle) : list FederateHandle :=
  sortCompact (map snd (map_to_list winners)).
Definition byWinner (winners : gmap AttributeHandle FederateHandle) (w : FederateHandle) : list AttributeHandle :=
  filter (fun a => winners !! a = Some w) (sortHandles (elements (dom winners))).
Definition confirmDivestitureChange fed owner obj (attrs : list AttributeHandle) (tag : list byte) : change () := fun st =>
  match validateOwnedAttributes st obj owner attrs, checkConfirmable st owner obj attrs with
  | Ret _, Ret _ =>
      match waitingAttrs st obj attrs with
      | [] => checked st (
          winners ← confirmWinners fed st owner obj attrs ∅;
          let hs := sortedWinnerHandles winners in
          reg ← registerTerminalCallbacks opts fed st
                  (map (fun w => Delivery w (acquireNotificationEvent obj (byWinner winners w) w tag)) hs);
          let (st, terminals) := (reg : federationState * list OutboxDelivery) in
          let st := fold_left (fun st aw => complete_transfer st (obj, aw.1) aw.2) (map_to_list winners) st in
          Ret (st,
            flat_map (fun p : FederateHandle * OutboxDelivery => notifyAcquisition obj (byWinner winners p.1) owner p.1 p.2) (zip hs terminals) ++
            [PostChanged obj], ()))
      | waiting =>
          (* the offers return to waiting for a new owner *)
          (fold_left (fun st a => setConfirmation st (obj, a) false) waiting st, Fail ErrOwnershipNoAcquisitionPending)
      end
  | Ret _, Fail e => (st, Fail e)
  | Fail e, _ => (st, Fail e)
  | Panic s, _ | Ret _, Panic s => (st, Panic s)
  end.
Definition confirmDivestiture (m : Manager) fed owner obj attrs tag (prepare : ownershipPreparation) : reply () :=
  prepared m (prepare fed owner obj attrs) (fun attrs => service m fed (Some ErrAttributeNotOwned) (confirmDivestitureChange fed owner obj attrs tag)).

(** ** Acquisition

    The first pass sorts the attributes into what happens to them; nothing is
    changed until it is over. *)
Inductive outcomeOf :=
| acquireReady (owner : FederateHandle)            (** a one-phase offer: transferred now *)
| acquireUnowned
| acquireQueue (owner : option FederateHandle)     (** queued; the owner is asked to release *)
| acquireConfirm (owner : FederateHandle)          (** queued; the divester is asked to confirm *)
| acquireUnavailable
| acquireRepeat.
Definition classifyAttribute fed acquirer obj (ifAvailable : bool) (st : federationState) (a : AttributeHandle) : outcome own_error outcomeOf :=
  let k := (obj, a) in
  let keep := if ifAvailable then acquireUnavailable else acquireQueue (owners st !! k) in
  if ownedBy st k acquirer then Fail ErrFederateOwnsAttributes
  else if ownedBy st k rtiHandle then Ret acquireUnavailable
  else if acquirePending st obj a acquirer then
    if ifAvailable then Fail ErrOwnershipAcquirePending else Ret acquireRepeat
  else
    match pendingDivests st !! k with
    | Some pd =>
        if twoPhase pd then Ret (if ifAvailable then acquireUnavailable else acquireConfirm (pd_owner pd))
        else if SelectAcquirer opts (Build_SelectAcquirerContext PhaseAcquire fed obj a (pd_owner pd) [acquirer]) =? acquirer
        then Ret (acquireReady (pd_owner pd))
        else Ret keep
    | None => if bool_decide (owners st !! k = None) then Ret acquireUnowned else Ret keep
    end.
Fixpoint classify fed acquirer obj ifAvailable (st : federationState) (attrs : list AttributeHandle)
    : outcome own_error (list (AttributeHandle * outcomeOf)) :=
  match attrs with
  | [] => Ret []
  | a :: attrs =>
      o ← classifyAttribute fed acquirer obj ifAvailable st a;
      r ← classify fed acquirer obj ifAvailable st attrs;
      Ret ((a, o) :: r)
  end.
Definition readyAttrs (cls : list (AttributeHandle * outcomeOf)) : list (AttributeHandle * FederateHandle) :=
  omap (fun p => match p.2 with acquireReady owner => Some (p.1, owner) | _ => None end) cls.
Definition fromUnownedAttrs (cls : list (AttributeHandle * outcomeOf)) : list AttributeHandle :=
  omap (fun p => match p.2 with acquireUnowned => Some p.1 | _ => None end) cls.
Definition queueAttrs (cls : list (AttributeHandle * outcomeOf)) : list AttributeHandle :=
  omap (fun p => match p.2 with acquireQueue _ | acquireConfirm _ => Some p.1 | _ => None end) cls.
Definition unavailableAttrs (cls : list (AttributeHandle * outcomeOf)) : list AttributeHandle :=
  omap (fun p => match p.2 with acquireUnavailable => Some p.1 | _ => None end) cls.
Definition queuedByOwner (cls : list (AttributeHandle * outcomeOf)) : list (AttributeHandle * FederateHandle) :=
  omap (fun p => match p.2 with acquireQueue (Some owner) => Some (p.1, owner) | _ => None end) cls.
Definition confirmByOwner (cls : list (AttributeHandle * outcomeOf)) : list (AttributeHandle * FederateHandle) :=
  omap (fun p => match p.2 with acquireConfirm owner => Some (p.1, owner) | _ => None end) cls.
(** A [map[FederateHandle][]AttributeHandle]: its keys and the attributes of one. *)
Definition ownersIn (l : list (AttributeHandle * FederateHandle)) : list FederateHandle := sortCompact (map snd l).
Definition attrsOf (l : list (AttributeHandle * FederateHandle)) (h : FederateHandle) : list AttributeHandle :=
  sortHandles (map fst (filter (fun p => p.2 = h) l)).

Definition acquireDeliveries acquirer obj (tag : list byte) (cls : list (AttributeHandle * outcomeOf)) : list OutboxDelivery :=
  map (fun old => Delivery acquirer (acquireNotificationEvent obj (attrsOf (readyAttrs cls) old) acquirer tag)) (ownersIn (readyAttrs cls)) ++
  match fromUnownedAttrs cls with [] => [] | l => [Delivery acquirer (acquireNotificationEvent obj (sortHandles l) acquirer tag)] end ++
  match unavailableAttrs cls with [] => [] | l => [Delivery acquirer (unavailableEvent obj (sortHandles l))] end.
Definition acquireState acquirer obj (tag : list byte) (cls : list (AttributeHandle * outcomeOf)) (st : federationState) : federationState :=
  let st := fold_left (fun st a => dropOffer (setOwner st (obj, a) acquirer) (obj, a)) (fromUnownedAttrs cls) st in
  let st := fold_left (fun st a => setAcquire st (obj, a, acquirer) tag) (queueAttrs cls) st in
  let st := fold_left (fun st p => setConfirmation st (obj, p.1) true) (confirmByOwner cls) st in
  fold_left (fun st p => complete_transfer st (obj, p.1) acquirer) (readyAttrs cls) st.
Definition acquirePosts acquirer obj (attrs : list AttributeHandle) (tag : list byte) (cls : list (AttributeHandle * outcomeOf))
    (terminals : list OutboxDelivery) : list post :=
  let ready := ownersIn (readyAttrs cls) in
  let n := length ready in
  let unowned := fromUnownedAttrs cls in
  let m := if bool_decide (unowned = []) then 0%nat else 1%nat in
  logOf evtAcquire obj attrs 0 acquirer ::
  flat_map (fun p : FederateHandle * OutboxDelivery => notifyTransfer obj (attrsOf (readyAttrs cls) p.1) p.1 acquirer p.2) (zip ready (take n terminals)) ++
  flat_map (fun d => notifyAcquisition obj (sortHandles unowned) 0 acquirer d) (take m (drop n terminals)) ++
  map (fun owner => PostSend (Delivery owner (releaseRequestEvent obj (attrsOf (queuedByOwner cls) owner) tag))) (ownersIn (queuedByOwner cls)) ++
  map (fun owner => PostSend (Delivery owner (divestNotificationEvent obj (attrsOf (confirmByOwner cls) owner)))) (ownersIn (confirmByOwner cls)) ++
  map PostTerminal (drop (n + m) terminals) ++
  (if bool_decide (unowned = []) && bool_decide (readyAttrs cls = []) then [] else [PostChanged obj]).
Definition acquireChange fed acquirer obj (attrs : list AttributeHandle) (tag : list byte) (ifAvailable : bool) : change () := fun st => checked st (
  cls ← classify fed acquirer obj ifAvailable st attrs;
  reg ← registerTerminalCallbacks opts fed st (acquireDeliveries acquirer obj tag cls);
  let (st, terminals) := (reg : federationState * list OutboxDelivery) in
  Ret (acquireState acquirer obj tag cls st, acquirePosts acquirer obj attrs tag cls terminals, ())).
Definition acquire (m : Manager) fed acquirer obj attrs tag ifAvailable (prepare : ownershipPreparation) : reply () :=
  prepared m (prepare fed acquirer obj attrs) (fun attrs => service m fed None (acquireChange fed acquirer obj attrs tag ifAvailable)).

(** ** Cancellation *)
Fixpoint checkCancelDivest (st : federationState) owner obj (attrs : list AttributeHandle) : outcome own_error () :=
  match attrs with
  | [] => Ret ()
  | a :: attrs =>
      match pendingDivests st !! (obj, a) with
      | Some pd => if negb (pd_owner pd =? owner) then Fail ErrOwnershipNotInTransfer else checkCancelDivest st owner obj attrs
      | None => Fail ErrOwnershipNotInTransfer
      end
  end.
Definition cancelDivestChange owner obj (attrs : list AttributeHandle) : change () := fun st => checked st (
  _ ← validateOwnedAttributes st obj owner attrs;
  _ ← checkCancelDivest st owner obj attrs;
  Ret (fold_left (fun st a => dropDivest st (obj, a)) attrs st, [logOf evtCancelDivest obj attrs owner 0], ())).
Definition cancelDivest (m : Manager) fed owner obj attrs (prepare : ownershipPreparation) : reply () :=
  prepared m (prepare fed owner obj attrs) (fun attrs => service m fed (Some ErrAttributeNotOwned) (cancelDivestChange owner obj attrs)).

Definition cancelAcquireChange fed acquirer obj (attrs : list AttributeHandle) : change () := fun st => checked st (
  if existsb (fun a => ownedBy st (obj, a) acquirer) attrs then Fail ErrFederateOwnsAttributes
  else if negb (forallb (fun a => acquirePending st obj a acquirer) attrs) then Fail ErrOwnershipNotInTransfer
  else
    let strict := match callbackSessions st !! acquirer with Some s => enabled s | None => false end in
    let ds := if strict && negb (bool_decide (attrs = [])) then [Delivery acquirer (cancellationEvent obj attrs)] else [] in
    reg ← match ds with [] => Ret (st, []) | _ => registerTerminalCallbacks opts fed st ds end;
    let (st, terminals) := (reg : federationState * list OutboxDelivery) in
    Ret (fold_left (fun st a => dropAcquire st (obj, a, acquirer)) attrs st,
         logOf evtCancelAcquire obj attrs 0 acquirer :: map PostTerminal terminals, ())).
Definition cancelAcquire (m : Manager) fed acquirer obj attrs (prepare : ownershipPreparation) : reply () :=
  prepared m (prepare fed acquirer obj attrs) (fun attrs => service m fed (Some ErrOwnershipNotInTransfer) (cancelAcquireChange fed acquirer obj attrs)).

(** ** Divestiture if wanted *)
Definition wantedDelivery (st : federationState) obj (c : pendingCompletion) : OutboxDelivery :=
  completionDelivery obj (requestTag st obj (pc_attr c) (pc_acquirer c)) c.
Definition divestIfWantedChange fed owner obj (attrs : list AttributeHandle) : change (list AttributeHandle) := fun st => checked st (
  _ ← validateOwnedAttributes st obj owner attrs;
  let transfers := completionsOf fed PhaseDivestIfWanted st owner obj attrs in
  reg ← registerTerminalCallbacks opts fed st (map (wantedDelivery st obj) transfers);
  let (st, terminals) := (reg : federationState * list OutboxDelivery) in
  Ret (fold_left (fun st c => complete_transfer st (obj, pc_attr c) (pc_acquirer c)) transfers st,
    logOf evtDivestIfWanted obj attrs owner 0 ::
    flat_map (fun p : pendingCompletion * OutboxDelivery => notifyAcquisition obj [pc_attr p.1] owner (pc_acquirer p.1) p.2) (zip transfers terminals) ++
    match transfers with [] => [] | _ => [PostChanged obj] end, map pc_attr transfers)).
Definition divestIfWanted (m : Manager) fed owner obj attrs (prepare : ownershipPreparation) : reply (list AttributeHandle) :=
  prepared m (prepare fed owner obj attrs) (fun attrs => service m fed (Some ErrAttributeNotOwned) (divestIfWantedChange fed owner obj (sortCompact attrs))).

(** ** Release denied

    The pending requests are read, their refusals reserved in the outbox, and
    read again; here nothing comes between, so the second reading agrees. *)
Definition compareAcquirers (a b : acquireKey) : Prop := a.2 < b.2 \/ a.2 = b.2 /\ a.1.2 <= b.1.2.
#[local] Instance compareAcquirers_dec : RelDecision compareAcquirers.
Proof. intros a b. unfold compareAcquirers. apply _. Defined.
Definition deniedRequests (st : federationState) obj (attrs : list AttributeHandle) : list acquireKey :=
  merge_sort compareAcquirers (filter (fun k : acquireKey => k.1.1 = obj /\ k.1.2 ∈ attrs) (elements (dom (pendingAcquires st)))).
Definition deniedDeliveries obj (pending : list acquireKey) : list OutboxDelivery :=
  map (fun h => Delivery h (unavailableEvent obj (map (fun k : acquireKey => k.1.2) (filter (fun k : acquireKey => k.2 = h) pending))))
    (compact (map snd pending)).
Definition releaseDenied (m : Manager) fed owner obj (attrs : list AttributeHandle) (prepare : ownershipPreparation) : reply () :=
  prepared m (prepare fed owner obj (sortCompact attrs)) (fun mapped =>
    let attrs := sortCompact mapped in
    match m !! fed with
    | None => Reply m [] (if bool_decide (attrs = []) then Ret () else Fail ErrAttributeNotOwned)
    | Some st =>
        if negb (forallb (fun a => negb (owner =? InvalidFederateHandle) && (default 0 (owners st !! (obj, a)) =? owner)) attrs)
        then Reply m [] (Fail ErrAttributeNotOwned)
        else
          let pending := deniedRequests st obj attrs in
          let ds := deniedDeliveries obj pending in
          if bool_decide (pending = []) then Reply m [] (Ret ())
          else if negb (ReservableOutbox opts) then Reply m [] (Fail (own_errorf "ownership release denial requires atomic callback admission"))
          else
            match Reserve env ds with
            | ReserveError => Reply m [] (Fail errOutbox)
            | ReserveNil => Reply m [] (Fail (own_errorf "ownership release denial received nil callback reservation"))
            | Reserved commits =>
                let record := Build_eventRecord evtReleaseDenied obj attrs owner 0 in
                match validateTerminalCallbacks opts st ds with
                | Ret _ =>
                    if EventLog opts && negb (Append env record) then Reply m [] (Fail errEventLog)
                    else
                      let logged := if EventLog opts then [Logged record] else [] in
                      match registerTerminalCallbacks opts fed st ds with
                      | Ret (st, terminals) =>
                          let st := fold_left (fun st k => dropAcquire st k) pending st in
                          let r := finishTerminalAdmission (publish m fed st) fed terminals commits in
                          Reply (mgr r) (logged ++ (if commits then map (fun d => Sent d true) terminals else []) ++ effects r)
                            (if commits then Ret () else Fail errOutbox)
                      | Fail e => Reply m logged (Fail e)
                      | Panic s => Reply m logged (Panic s)
                      end
                | Fail e => Reply m [] (Fail e)
                | Panic s => Reply m [] (Panic s)
                end
            end
    end).

(** ** Publication of a class resumes the open offers *)
Definition offersFor (st : federationState) (attrs : list AttributeHandle)
    : list (ownershipKey * FederateHandle * list byte * bool) :=
  let wanted (k : ownershipKey) := match PublicationAttributes opts with Some _ => true | None => bool_decide (k.2 ∈ attrs) end in
  flat_map (fun k =>
    (match pendingDivests st !! k with
     | Some pd => if wanted k then [(k, pd_owner pd, pd_tag pd, false)] else []
     | None => [] end) ++
    (match unownedOffers st !! k with
     | Some h => if wanted k then [(k, h, [], true)] else []
     | None => [] end))
    (merge_sort (fun a b : ownershipKey => a.1 < b.1 \/ a.1 = b.1 /\ a.2 <= b.2) (elements (dom (pendingDivests st) ∪ dom (unownedOffers st)))).
Definition ObjectClassPublished (m : Manager) fed publisher cls (attrs : list AttributeHandle) : list effect :=
  match m !! fed with
  | None => []
  | Some st =>
      flat_map (fun o : ownershipKey * FederateHandle * list byte * bool =>
        let '(k, owner, tag, unowned) := o in
        if match PublicationAttributes opts with Some f => negb (bool_decide (k.2 ∈ f fed k.1 cls attrs)) | None => false end then []
        else fanoutAssumptionTo m fed owner k.1 [k.2] tag unowned publisher) (offersFor st attrs)
  end.

(** ** The public services *)
Definition divestPreparation := canonicalPreparation (PrepareDivestiture opts).
Definition UnconditionalDivest m fed owner obj attrs := unconditionalDivest m fed owner obj attrs divestPreparation.
Definition NegotiatedDivest m fed owner obj attrs tag := negotiatedDivest m fed owner obj attrs tag false divestPreparation.
Definition NegotiatedDivestTwoPhase m fed owner obj attrs tag := negotiatedDivest m fed owner obj attrs tag true divestPreparation.
Definition ConfirmDivestitureWithTag m fed owner obj attrs tag := confirmDivestiture m fed owner obj attrs tag divestPreparation.
Definition Acquire m fed acquirer obj attrs tag := acquire m fed acquirer obj attrs tag false (canonicalPreparation (PrepareAcquisition opts)).
Definition AcquireIfAvailable m fed acquirer obj attrs tag := acquire m fed acquirer obj attrs tag true (canonicalPreparation (PrepareAcquisition opts)).
Definition CancelDivest m fed owner obj attrs := cancelDivest m fed owner obj attrs divestPreparation.
Definition CancelAcquire m fed acquirer obj attrs := cancelAcquire m fed acquirer obj attrs divestPreparation.
Definition DivestIfWantedWithResult m fed owner obj attrs := divestIfWanted m fed owner obj attrs divestPreparation.
Definition ReleaseDenied m fed owner obj attrs := releaseDenied m fed owner obj attrs (canonicalPreparation (PrepareReleaseDenied opts)).
End Services.
