(* ===== verification/OwnLifecycle.v ===== *)
(** * Ownership and the life of federates and objects

    [release.go], [resign.go], [resign_deletion.go], [retraction.go],
    [mom_state.go], [unpublication_callbacks.go] and [known_command.go].  A
    plan ([ResignPlan], [unpublicationPlan]) is prepared under the lock, and
    committed or released while it still holds it: here it is a value that
    [Commit] applies to the state it was prepared from. *)
From stdpp Require Import gmap.
From Stdlib Require Import Strings.Byte.
From S2P Require Import Prelude GoBytes Own OwnCallback OwnService.
Open Scope Z_scope.

Definition keyLe (a b : ownershipKey) : Prop := a.1 < b.1 \/ a.1 = b.1 /\ a.2 <= b.2.
#[export] Instance keyLe_dec : RelDecision keyLe.
Proof. intros a b. unfold keyLe. apply _. Defined.
(** The owned keys for which [keep] holds, ascending. *)
Definition ownedKeys (st : federationState) (keep : ownershipKey -> FederateHandle -> bool) : list ownershipKey :=
  merge_sort keyLe (filter (fun k => match owners st !! k with Some h => keep k h | None => false end = true) (elements (dom (owners st)))).

(** ** release.go *)
Definition ReleaseAllOwnedBy (m : Manager) (fed : FederationName) (h : FederateHandle) : reply (list ownershipKey) :=
  match m !! fed with
  | None => Reply m [] (Ret [])
  | Some st =>
      let released := ownedKeys st (fun _ owner => owner =? h) in
      Reply (publish m fed (set_owners st (filter (fun kh => kh.2 <> h) (owners st))))
        (map OwnershipChanged (compact (map fst released))) (Ret released)
  end.
Definition CancelPendingFor (m : Manager) (fed : FederationName) (h : FederateHandle) : Manager * Z :=
  match m !! fed with
  | None => (m, 0)
  | Some st =>
      let divests := filter (fun kp => pd_owner kp.2 <> h) (pendingDivests st) in
      let acquires := filter (fun kt : acquireKey * list byte => kt.1.2 <> h) (pendingAcquires st) in
      (publish m fed (set_pendingAcquires (set_pendingDivests st divests) acquires),
       Z.of_nat (size (pendingDivests st)) - Z.of_nat (size divests) +
       (Z.of_nat (size (pendingAcquires st)) - Z.of_nat (size acquires)))
  end.

(** ** Deletion and reconstitution of an object *)
Definition dropObject (st : federationState) (gone : ObjectHandle -> bool) : federationState :=
  Build_federationState
    (filter (fun kh => gone kh.1.1 = false) (owners st))
    (filter (fun kp => gone kp.1.1 = false) (pendingDivests st))
    (filter (fun kt : acquireKey * list byte => gone kt.1.1.1 = false) (pendingAcquires st))
    (filter (fun kh => gone kh.1.1 = false) (unownedOffers st))
    (callbackSessions st).
Definition OnObjectDeleted (m : Manager) (fed : FederationName) (obj : ObjectHandle) : Manager :=
  match m !! fed with Some st => publish m fed (dropObject st (Z.eqb obj)) | None => m end.
(** The [Commit] of [objectReconstitution]. *)
Definition Reconstitute (m : Manager) (fed : FederationName) (obj : ObjectHandle) (captured : gmap AttributeHandle FederateHandle) : Manager :=
  let st := dropObject (default newFederationState (m !! fed)) (Z.eqb obj) in
  publish m fed (fold_left (fun st ah => if ah.2 =? InvalidFederateHandle then st else setOwner st (obj, ah.1) ah.2) (map_to_list captured) st).

(** ** mom_state.go *)
Definition validateMOMOwnership (st : federationState) (k : ownershipKey) (target : FederateHandle) (owned : bool) : outcome own_error () :=
  let current := default 0 (owners st !! k) in
  if current =? rtiHandle then Fail (own_errorf "MOM ownership: RTI-owned attribute")
  else if bool_decide (is_Some (pendingDivests st !! k)) then Fail (own_errorf "MOM ownership: pending divestiture adjustment unavailable")
  else if negb (bool_decide (acquirersOf st k.1 k.2 = [])) then Fail (own_errorf "MOM ownership: pending acquisition adjustment unavailable")
  else if negb owned && negb (current =? 0) && negb (current =? target) then Fail (own_errorf "MOM ownership: attribute is owned by a different federate")
  else Ret ().
Definition ModifyAttributeState (m : Manager) (fed : FederationName) (target : FederateHandle) (obj : ObjectHandle) (attr : AttributeHandle) (owned : bool)
    : reply () :=
  if String.eqb fed EmptyString || (target =? 0) || (target =? rtiHandle) || (obj =? 0) || (attr =? 0)
  then Reply m [] (Fail (own_errorf "MOM ownership: invalid identity"))
  else
    let st := default newFederationState (m !! fed) in
    match validateMOMOwnership st (obj, attr) target owned with
    | Ret _ =>
        if owned then Reply (publish m fed (dropOffer (setOwner st (obj, attr) target) (obj, attr))) [] (Ret ())
        else Reply (match m !! fed with Some _ => publish m fed (dropOwner st (obj, attr)) | None => m end) [] (Ret ())
    | Fail e => Reply m [] (Fail e)
    | Panic s => Reply m [] (Panic s)
    end.

Section Plans.
Context (opts : Options) (env : Environment).

(** ** resign.go *)
Inductive ResignAction :=
| ResignActionUnconditionallyDivestAttributes
| ResignActionDeleteObjects
| ResignActionCancelPendingOwnership
| ResignActionDeleteThenDivest
| ResignActionCancelThenDelete
| ResignActionNoAction
| ResignActionOther (a : Z).

(** [terminal] marks the deliveries that are terminal callbacks. *)
Record ResignPlan := {
  pl_h : FederateHandle;
  deleted : list ObjectHandle;
  transfers : list (ownershipKey * FederateHandle);      (** ascending; the winner, or none *)
  deliveries : list (bool * OutboxDelivery);
  deletionDeliveries : list OutboxDelivery;
  retained : gmap (FederateHandle * Z) CallbackProjection;   (** by recipient and callback *)
}.
Definition terminalDeliveries (p : ResignPlan) : list OutboxDelivery :=
  deletionDeliveries p ++ map snd (filter (fun bd : bool * OutboxDelivery => bd.1 = true) (deliveries p)).
Definition changed (p : ResignPlan) : list ObjectHandle := compact (map (fun t : ownershipKey * FederateHandle => t.1.1) (transfers p)).
Definition unownedKeys (p : ResignPlan) : list ownershipKey :=
  map fst (filter (fun t : ownershipKey * FederateHandle => t.2 = InvalidFederateHandle) (transfers p)).

Definition validateResignAcquisitions (st : federationState) (h : FederateHandle) (cancel : bool) : outcome own_error () :=
  if negb cancel &&
     (match callbackSessions st !! h with Some s => negb (bool_decide (pendingCb s = ∅)) | None => false end ||
      existsb (fun k : acquireKey => k.2 =? h) (elements (dom (pendingAcquires st))))
  then Fail ErrOwnershipAcquisitionPending else Ret ().
Definition acquireLe (a b : acquireKey) : Prop :=
  a.1.1 < b.1.1 \/ a.1.1 = b.1.1 /\ (a.2 < b.2 \/ a.2 = b.2 /\ a.1.2 <= b.1.2).
#[local] Instance acquireLe_dec : RelDecision acquireLe.
Proof. intros a b. unfold acquireLe. apply _. Defined.
Definition prepareDeletionCallbacks (st : federationState) (h : FederateHandle) (gone : list ObjectHandle) : list OutboxDelivery :=
  map (fun k : acquireKey => Delivery k.2 (unavailableEvent k.1.1 [k.1.2]))
    (merge_sort acquireLe (filter (fun k : acquireKey => k.1.1 ∈ gone /\ k.2 <> h) (elements (dom (pendingAcquires st))))).
Definition prepareResignTransfer (fed : FederationName) (st : federationState) (h : FederateHandle) (k : ownershipKey)
    : outcome own_error (FederateHandle * list (bool * OutboxDelivery)) :=
  let candidates := filter (fun a => a <> h) (queuedAcquirers st k.1 k.2) in
  let winner := SelectAcquirer opts (Build_SelectAcquirerContext PhaseResign fed k.1 k.2 h candidates) in
  if winner =? InvalidFederateHandle then Ret (winner, [])
  else if negb (bool_decide (winner ∈ candidates)) then Fail (own_errorf "ownership: resign strategy selected noncandidate")
  else Ret (winner, (true, Delivery winner (acquireNotificationEvent k.1 [k.2] winner [])) ::
                    map (pair false) (remainingReleaseRequests st k.1 k.2 winner candidates)).
Fixpoint prepareResignTransfers (fed : FederationName) (st : federationState) (h : FederateHandle) (ks : list ownershipKey)
    : outcome own_error (list (ownershipKey * FederateHandle) * list (bool * OutboxDelivery)) :=
  match ks with
  | [] => Ret ([], [])
  | k :: ks =>
      t ← prepareResignTransfer fed st h k;
      let (winner, ds) := (t : FederateHandle * list (bool * OutboxDelivery)) in
      r ← prepareResignTransfers fed st h ks;
      let (ts, ds') := (r : list (ownershipKey * FederateHandle) * list (bool * OutboxDelivery)) in
      Ret ((k, winner) :: ts, ds ++ ds')
  end.
(** [None]: the federation has no ownership state, the plan is empty. *)
Definition PrepareResign (st : option federationState) (fed : FederationName) (h : FederateHandle) (action : ResignAction) (gone : list ObjectHandle)
    : outcome own_error ResignPlan :=
  let plan ts ds dels := Build_ResignPlan h gone ts ds dels ∅ in
  let prepare (cancel divest : bool) :=
    match st with
    | None => Ret (plan [] [] [])
    | Some st =>
        _ ← validateResignAcquisitions st h cancel;
        let dels := prepareDeletionCallbacks st h gone in
        let owned := ownedKeys st (fun k owner => (owner =? h) && negb (bool_decide (k.1 ∈ gone))) in
        if negb divest && negb (bool_decide (owned = [])) then Fail ErrFederateOwnsAttributes
        else
          r ← prepareResignTransfers fed st h owned;
          let (ts, ds) := (r : list (ownershipKey * FederateHandle) * list (bool * OutboxDelivery)) in
          let p := plan ts ds dels in
          _ ← validateTerminalCallbacks opts st (terminalDeliveries p);
          Ret p
    end in
  match action with
  | ResignActionUnconditionallyDivestAttributes | ResignActionDeleteThenDivest => prepare false true
  | ResignActionCancelThenDelete => prepare true true
  | ResignActionCancelPendingOwnership => prepare true false
  | ResignActionNoAction | ResignActionDeleteObjects => prepare false false
  | ResignActionOther _ => Fail ErrResignActionUnsupported
  end.

(** Projections are recorded in the plan, and applied when it commits. *)
Definition projection := FederateHandle -> ObjectHandle -> list AttributeHandle -> outcome own_error CallbackProjection.
Fixpoint projectDeliveries (project : projection) (ds : list OutboxDelivery) : outcome own_error (list OutboxDelivery) :=
  match ds with
  | [] => Ret []
  | d :: ds =>
      p ← project (Recipient d) (Object (Event d)) (Attributes (Event d));
      ds ← projectDeliveries project ds;
      Ret (Delivery (Recipient d) (set_RetainedProjection (Event d) (Some p)) :: ds)
  end.
Definition retainable (st : federationState) (h : FederateHandle) (objects : list ObjectHandle) : list (FederateHandle * Z * terminalCallback) :=
  flat_map (fun hs : FederateHandle * ownershipCallbackSession =>
    if hs.1 =? h then []
    else omap (fun ie : Z * terminalCallback =>
           if bool_decide (Object (event ie.2) ∈ objects) && bool_decide (RetainedProjection (event ie.2) = None)
           then Some (hs.1, ie.1, ie.2) else None) (map_to_list (pendingCb hs.2)))
    (map_to_list (callbackSessions st)).
Fixpoint retainAll (project : projection) (es : list (FederateHandle * Z * terminalCallback)) (acc : gmap (FederateHandle * Z) CallbackProjection)
    : outcome own_error (gmap (FederateHandle * Z) CallbackProjection) :=
  match es with
  | [] => Ret acc
  | e :: es =>
      p ← project e.1.1 (Object (event e.2)) (Attributes (event e.2));
      retainAll project es (<[e.1 := p]> acc)
  end.
Definition prepareRetainedProjections (st : option federationState) (p : ResignPlan) (objects : list ObjectHandle) (project : projection)
    : outcome own_error ResignPlan :=
  match st with
  | None => Ret p
  | Some st =>
      r ← retainAll project (retainable st (pl_h p) objects) (retained p);
      Ret (Build_ResignPlan (pl_h p) (deleted p) (transfers p) (deliveries p) (deletionDeliveries p) r)
  end.
Definition PrepareCallbackProjections (st : option federationState) (p : ResignPlan) (project : projection) : outcome own_error ResignPlan :=
  dels ← projectDeliveries project (deletionDeliveries p);
  ds ← projectDeliveries project (map snd (deliveries p));
  prepareRetainedProjections st (Build_ResignPlan (pl_h p) (deleted p) (transfers p) (zip (map fst (deliveries p)) ds) dels (retained p))
    (deleted p) project.

Definition retainSessions (st : federationState) (kept : gmap (FederateHandle * Z) CallbackProjection) : federationState :=
  set_callbackSessions st (map_imap (fun h s => Some (set_pendingCb s (map_imap (fun id entry =>
    Some match kept !! (h, id) with
         | Some p => set_event entry (set_RetainedProjection (event entry) (Some p))
         | None => entry
         end) (pendingCb s)))) (callbackSessions st)).
Definition removePendingResignState (st : federationState) (h : FederateHandle) (gone : list ObjectHandle) : federationState :=
  Build_federationState (owners st)
    (filter (fun kp => kp.1.1 ∉ gone /\ pd_owner kp.2 <> h) (pendingDivests st))
    (filter (fun kt : acquireKey * list byte => kt.1.1.1 ∉ gone /\ kt.1.2 <> h) (pendingAcquires st))
    ((fun d => if d =? h then 0 else d) <$> filter (fun kd => kd.1.1 ∉ gone) (unownedOffers st))
    (callbackSessions st).
Definition resignTransfer (st : federationState) (t : ownershipKey * FederateHandle) : federationState :=
  if t.2 =? InvalidFederateHandle then setOffer (dropOwner st t.1) t.1 0 else giveTo st t.1 t.2.
(** [ResignPlan.Commit]; the registration was validated, so it cannot fail (the
    code panics if it does). *)
Definition commitResign (st : federationState) (fed : FederationName) (p : ResignPlan) : outcome own_error (federationState * list OutboxDelivery) :=
  match registerTerminalCallbacks opts fed (retainSessions st (retained p)) (terminalDeliveries p) with
  | Ret (st, terminals) =>
      let st := set_callbackSessions st (delete (pl_h p) (callbackSessions st)) in
      let st := set_owners st (filter (fun kh => kh.1.1 ∉ deleted p) (owners st)) in
      let st := fold_left resignTransfer (transfers p) st in
      Ret (removePendingResignState st (pl_h p) (deleted p), terminals)
  | Fail _ => Panic "ownership: resign commit"
  | Panic s => Panic s
  end.
(** [RefreshOwnership]: the divested attributes are offered, never to the departed. *)
Definition refreshOwnership (m : Manager) (fed : FederationName) (p : ResignPlan) : list effect :=
  flat_map (fun obj => OwnershipChanged obj ::
    match Subscribers opts with
    | None => []
    | Some subscribers =>
        flat_map (fun k : ownershipKey => flat_map (fun c =>
          if negb (c =? 0) && negb (c =? pl_h p) && negb (HasAcquisitionObligation m fed c obj [k.2])
          then fanoutAssumptionTo opts env m fed 0 obj [k.2] [] true c else []) (sortCompact (subscribers fed obj [k.2])))
          (filter (fun k => k.1 = obj) (unownedKeys p))
    end) (changed p).
(** Commit, the enclosing delivery ([admitted] or not), and the refresh. *)
Definition applyPlan (m : Manager) (fed : FederationName) (plan : outcome own_error ResignPlan) (admitted : bool) : reply () :=
  match plan with
  | Ret p =>
      match m !! fed with
      | None => Reply m (refreshOwnership m fed p) (Ret ())
      | Some st =>
          match commitResign st fed p with
          | Ret (st, terminals) =>
              let r := finishTerminalAdmission (publish m fed st) fed terminals admitted in
              Reply (mgr r) (effects r ++ refreshOwnership (mgr r) fed p) (Ret ())
          | Fail e => Reply m [] (Fail e)
          | Panic s => Reply m [] (Panic s)
          end
      end
  | Fail e => Reply m [] (Fail e)
  | Panic s => Reply m [] (Panic s)
  end.

(** What the federation manager does for a resignation. *)
Definition Resign (m : Manager) (fed : FederationName) (h : FederateHandle) (action : ResignAction) (gone : list ObjectHandle)
    (project : option projection) (admitted : bool) : reply () :=
  applyPlan m fed (p ← PrepareResign (m !! fed) fed h action gone;
                   match project with Some f => PrepareCallbackProjections (m !! fed) p f | None => Ret p end) admitted.

(** ** resign_deletion.go

    A deletion is the plan of a resignation by nobody. *)
Definition PrepareObjectDeletion (st : option federationState) (fed : FederationName) (objects retainedObjects : list ObjectHandle)
    (project : option projection) : outcome own_error ResignPlan :=
  if String.eqb fed EmptyString || bool_decide (objects ++ retainedObjects = []) then Fail ErrObjectHandleInvalid
  else if existsb (fun o => o =? 0) (objects ++ retainedObjects) then Fail ErrObjectHandleInvalid
  else
    p ← PrepareResign st fed InvalidFederateHandle ResignActionNoAction objects;
    match project with
    | None => Ret p
    | Some f =>
        p ← PrepareCallbackProjections st p f;
        prepareRetainedProjections st p retainedObjects f
    end.

Definition DeleteObjects (m : Manager) (fed : FederationName) (objects retainedObjects : list ObjectHandle)
    (project : option projection) (admitted : bool) : reply () :=
  applyPlan m fed (PrepareObjectDeletion (m !! fed) fed objects retainedObjects project) admitted.

(** ** unpublication_callbacks.go *)
Definition unpublicationBlocked (st : federationState) (publisher : FederateHandle) (k : ownershipKey) : bool :=
  match owners st !! k with
  | Some owner => negb (owner =? 0) && negb (owner =? publisher) && negb (owner =? rtiHandle) && hasAcquisitionObligation st publisher k.1 [k.2]
  | None => false
  end.
Record unpublicationPlan := {
  u_publisher : FederateHandle;
  u_transfers : list (ownershipKey * FederateHandle);
  u_deliveries : list (bool * OutboxDelivery);
}.
Definition u_terminals (p : unpublicationPlan) : list OutboxDelivery :=
  map snd (filter (fun bd : bool * OutboxDelivery => bd.1 = true) (u_deliveries p)).
Fixpoint prepareTransfers (fed : FederationName) (st : federationState) (publisher : FederateHandle) (ks : list ownershipKey)
    : outcome own_error (list (ownershipKey * FederateHandle) * list (bool * OutboxDelivery)) :=
  match ks with
  | [] => Ret ([], [])
  | k :: ks =>
      if negb (ownedBy st k publisher) then prepareTransfers fed st publisher ks
      else
        let candidates := queuedAcquirers st k.1 k.2 in
        let winner := SelectAcquirer opts (Build_SelectAcquirerContext PhaseUnconditionalDivest fed k.1 k.2 publisher candidates) in
        if negb (winner =? 0) && negb (bool_decide (winner ∈ candidates)) then Fail (own_errorf "ownership: unpublication strategy selected noncandidate")
        else
          let ds := if winner =? 0 then []
                    else (true, Delivery winner (acquireNotificationEvent k.1 [k.2] winner (requestTag st k.1 k.2 winner))) ::
                         map (pair false) (remainingReleaseRequests st k.1 k.2 winner candidates) in
          r ← prepareTransfers fed st publisher ks;
          let (ts, ds') := (r : list (ownershipKey * FederateHandle) * list (bool * OutboxDelivery)) in
          Ret ((k, winner) :: ts, ds ++ ds')
  end.
Fixpoint compactKeys (l : list ownershipKey) : list ownershipKey :=
  match l with
  | a :: (b :: _) as l' => if bool_decide (a = b) then compactKeys l' else a :: compactKeys l'
  | _ => l
  end.
Definition PrepareUnpublicationCommit (st : option federationState) (fed : FederationName) (publisher : FederateHandle) (keys : list ownershipKey)
    : outcome own_error unpublicationPlan :=
  if existsb (fun k : ownershipKey => k.1 =? 0) keys then Fail ErrObjectHandleInvalid
  else if existsb (fun k : ownershipKey => k.2 =? 0) keys then Fail ErrAttributeNotFound
  else
    let keys := compactKeys (merge_sort keyLe keys) in
    match st with
    | None => Ret (Build_unpublicationPlan publisher [] [])
    | Some st =>
        if existsb (unpublicationBlocked st publisher) keys then Fail ErrOwnershipAcquisitionPending
        else
          r ← prepareTransfers fed st publisher keys;
          let (ts, ds) := (r : list (ownershipKey * FederateHandle) * list (bool * OutboxDelivery)) in
          let p := Build_unpublicationPlan publisher ts ds in
          _ ← validateTerminalCallbacks opts st (u_terminals p);
          Ret p
    end.
Definition unpublishTransfer (publisher : FederateHandle) (st : federationState) (t : ownershipKey * FederateHandle) : federationState :=
  let st := dropDivest st t.1 in
  if t.2 =? 0 then setOffer (dropOwner st t.1) t.1 publisher else giveTo st t.1 t.2.
Definition commitUnpublication (st : federationState) (fed : FederationName) (p : unpublicationPlan) : outcome own_error (federationState * list OutboxDelivery) :=
  match registerTerminalCallbacks opts fed st (u_terminals p) with
  | Ret (st, terminals) => Ret (fold_left (unpublishTransfer (u_publisher p)) (u_transfers p) st, terminals)
  | Fail _ => Panic "ownership: unpublication commit"
  | Panic s => Panic s
  end.
(** [unpublicationPlan.PrepareCallbackProjections]. *)
Fixpoint projectUnpublication (project : projection) (ds : list (bool * OutboxDelivery)) : outcome own_error (list (bool * OutboxDelivery)) :=
  match ds with
  | [] => Ret []
  | (terminal, d) :: ds =>
      p ← project (Recipient d) (Object (Event d)) (Attributes (Event d));
      if (RegisteredClass p =? 0) || (KnownClass p =? 0) || negb (length (p_Attributes p) =? length (Attributes (Event d)))%nat
      then Fail (own_errorf "ownership: invalid unpublication callback projection")
      else
        ds ← projectUnpublication project ds;
        Ret ((terminal, Delivery (Recipient d) (set_RetainedProjection (Event d) (Some p))) :: ds)
  end.
(** Prepared and committed; [Dispatch] follows later, with the callbacks as
    registered. *)
Definition Unpublish (m : Manager) (fed : FederationName) (publisher : FederateHandle) (keys : list ownershipKey) (project : option projection)
    : Manager * outcome own_error (unpublicationPlan * list OutboxDelivery) :=
  match p ← PrepareUnpublicationCommit (m !! fed) fed publisher keys;
        match project with
        | Some f => ds ← projectUnpublication f (u_deliveries p); Ret (Build_unpublicationPlan (u_publisher p) (u_transfers p) ds)
        | None => Ret p
        end with
  | Ret p =>
      match m !! fed with
      | None => (m, Ret (p, []))
      | Some st =>
          match commitUnpublication st fed p with
          | Ret (st, terminals) => (publish m fed st, Ret (p, terminals))
          | Fail e => (m, Fail e)
          | Panic s => (m, Panic s)
          end
      end
  | Fail e => (m, Fail e)
  | Panic s => (m, Panic s)
  end.
(** The guard without a plan: the objects with their attributes. *)
Definition PrepareUnpublication (m : Manager) (fed : FederationName) (publisher : FederateHandle) (objects : gmap ObjectHandle (list AttributeHandle))
    : outcome own_error () :=
  let keys := flat_map (fun oa : ObjectHandle * list AttributeHandle => map (pair oa.1) oa.2) (map_to_list objects) in
  if bool_decide (is_Some (objects !! 0)) then Fail ErrObjectHandleInvalid
  else if existsb (fun k : ownershipKey => k.2 =? 0) keys then Fail ErrAttributeNotFound
  else
    match m !! fed with
    | Some st => if existsb (unpublicationBlocked st publisher) keys then Fail ErrOwnershipAcquisitionPending else Ret ()
    | None => Ret ()
    end.
(** [Dispatch] after a commit: [ds] are the plan's deliveries, the terminal ones
    as registered.  They are admitted together when the outbox can reserve. *)
Fixpoint dispatchEach (m : Manager) (fed : FederationName) (ds : list OutboxDelivery) : Manager * list effect * bool :=
  match ds with
  | [] => (m, [], true)
  | d :: ds =>
      if bool_decide (Kind (Event d) = CallbackAcquisitionNotification) then
        let r := sendTerminalCallback env m fed (Recipient d) (Event d) in
        let '(m, es, ok) := dispatchEach (mgr r) fed ds in
        (m, effects r ++ es, match ret r with Ret _ => ok | _ => false end)
      else
        let sent := Send env d in
        let '(m, es, ok) := dispatchEach m fed ds in
        (m, Sent d sent :: es, sent && ok)
  end.
Definition dispatchUnpublication (m : Manager) (fed : FederationName) (ds terminals : list OutboxDelivery) : Manager * list effect * bool :=
  if bool_decide (ds = []) then (m, [], true)
  else if ReservableOutbox opts then
    let commits := match Reserve env ds with Reserved commits => commits | _ => false end in
    let r := finishTerminalAdmission m fed terminals commits in
    (mgr r, (if commits then map (fun d => Sent d true) ds else []) ++ effects r, commits)
  else dispatchEach m fed ds.
Definition Dispatch (m : Manager) (fed : FederationName) (p : unpublicationPlan) (ds terminals : list OutboxDelivery) : reply () :=
  let '(m, es, ok) := dispatchUnpublication m fed ds terminals in
  let unowned obj := map snd (map fst (filter (fun t : ownershipKey * FederateHandle => t.2 = 0 /\ t.1.1 = obj) (u_transfers p))) in
  Reply m
    (es ++ flat_map (fun obj => OwnershipChanged obj :: fanoutAssumptionTo opts env m fed (u_publisher p) obj (unowned obj) [] true 0)
             (compact (map (fun t : ownershipKey * FederateHandle => t.1.1) (u_transfers p))))
    (if ok then Ret () else Fail errOutbox).

(** ** Aggregate counts, as [uint32]s *)
Record OwnershipSnapshot := { OwnedAttributesCount : Z; PendingDivestsCount : Z; PendingAcquiresCount : Z }.
Definition Snapshot (m : Manager) (fed : FederationName) : OwnershipSnapshot :=
  match m !! fed with
  | None => Build_OwnershipSnapshot 0 0 0
  | Some st => Build_OwnershipSnapshot (wrapU 32 (Z.of_nat (size (owners st)))) (wrapU 32 (Z.of_nat (size (pendingDivests st))))
                 (wrapU 32 (Z.of_nat (size (pendingAcquires st))))
  end.
End Plans.

(** ** known_command.go

    The mapping of a known-coordinate port must be a bijection between the
    requested and the registered attributes. *)
Fixpoint mapCoordinates (known registered : list AttributeHandle) (reverse forward : gmap AttributeHandle AttributeHandle)
    : option (gmap AttributeHandle AttributeHandle) :=
  match known, registered with
  | [], _ | _, [] => Some reverse
  | k :: known, r :: registered =>
      if match reverse !! r with Some p => negb (p =? k) | None => false end then None
      else if match forward !! k with Some p => negb (p =? r) | None => false end then None
      else mapCoordinates known registered (<[r := k]> reverse) (<[k := r]> forward)
  end.
Definition knownCoordinatePreparation (port : knownPort) (fed : FederationName) (caller : FederateHandle) (obj : ObjectHandle) (attrs : list AttributeHandle)
    : outcome own_error (list AttributeHandle * gmap AttributeHandle AttributeHandle) :=
  r ← (port fed caller obj attrs : outcome own_error (list AttributeHandle * bool));
  let (mapped, release) := (r : list AttributeHandle * bool) in
  if negb release then Fail (own_errorf "ownership: known-coordinate preparation returned no release")
  else if negb (length mapped =? length attrs)%nat then Fail (own_errorf "ownership: invalid known-coordinate mapping")
  else match mapCoordinates attrs mapped ∅ ∅ with
       | Some reverse => Ret (mapped, reverse)
       | None => Fail (own_errorf "ownership: invalid known-coordinate mapping")
       end.
Fixpoint knownOwnershipResult (result : list AttributeHandle) (reverse : gmap AttributeHandle AttributeHandle) : outcome own_error (list AttributeHandle) :=
  match result with
  | [] => Ret []
  | a :: result =>
      match reverse !! a with
      | Some k => ks ← knownOwnershipResult result reverse; Ret (k :: ks)
      | None => Fail (own_errorf "ownership: result attribute was not prepared")
      end
  end.

(** [core.OwnershipCommand] and its dispatch. *)
Inductive OwnershipOperation :=
| OwnershipUnconditionalDivest
| OwnershipNegotiatedDivest
| OwnershipNegotiatedDivestTwoPhase
| OwnershipConfirmDivestiture
| OwnershipAcquire
| OwnershipAcquireIfAvailable
| OwnershipCancelDivest
| OwnershipCancelAcquire
| OwnershipDivestIfWanted
| OwnershipReleaseDenied
| OwnershipOther (op : Z).
Record OwnershipCommand := {
  Operation : OwnershipOperation;
  oc_Federation : FederationName;
  oc_Federate : FederateHandle;
  oc_Object : ObjectHandle;
  oc_Attributes : list AttributeHandle;
  oc_Tag : list byte;
}.
Section Command.
Context (opts : Options) (env : Environment).
Definition silent (r : reply ()) : reply (list AttributeHandle) :=
  Reply (mgr r) (effects r) (_ ← ret r; Ret []).
Definition ExecuteKnownOwnership (m : Manager) (c : OwnershipCommand) : reply (list AttributeHandle) :=
  match PrepareKnownAcquisition opts, PrepareKnownOperation opts with
  | Some acquisition, Some operation =>
      let port := match Operation c with OwnershipAcquire | OwnershipAcquireIfAvailable => acquisition | _ => operation end in
      let prepare : ownershipPreparation := fun fed caller obj attrs => fst <$> knownCoordinatePreparation port fed caller obj attrs in
      let fed := oc_Federation c in let h := oc_Federate c in let obj := oc_Object c in
      let attrs := oc_Attributes c in let tag := oc_Tag c in
      match Operation c with
      | OwnershipUnconditionalDivest => silent (unconditionalDivest opts env m fed h obj attrs prepare)
      | OwnershipNegotiatedDivest => silent (negotiatedDivest opts env m fed h obj attrs tag false prepare)
      | OwnershipNegotiatedDivestTwoPhase => silent (negotiatedDivest opts env m fed h obj attrs tag true prepare)
      | OwnershipConfirmDivestiture => silent (confirmDivestiture opts env m fed h obj attrs tag prepare)
      | OwnershipAcquire => silent (acquire opts env m fed h obj attrs tag false prepare)
      | OwnershipAcquireIfAvailable => silent (acquire opts env m fed h obj attrs tag true prepare)
      | OwnershipCancelDivest => silent (cancelDivest opts env m fed h obj attrs prepare)
      | OwnershipCancelAcquire => silent (cancelAcquire opts env m fed h obj attrs prepare)
      | OwnershipDivestIfWanted =>
          let r := divestIfWanted opts env m fed h obj attrs prepare in
          Reply (mgr r) (effects r)
            (result ← ret r;
             prep ← knownCoordinatePreparation port fed h obj attrs;
             knownOwnershipResult result prep.2)
      | OwnershipReleaseDenied => silent (releaseDenied opts env m fed h obj attrs prepare)
      | OwnershipOther _ => Reply m [] (Fail (own_errorf "ownership: unknown operation"))
      end
  | _, _ => Reply m [] (Fail (own_errorf "ownership: known-coordinate preparation is unavailable"))
  end.
End Command.
