(* ===== verification/OwnSnapshot.v ===== *)
(** * Snapshots of ownership ([snapshot.go], [callback_snapshot.go])

    The detached image of a federation's ownership state: its sorted export, the
    validation of the callback part, and the import, which forgets the attempts
    and makes enabled sessions wait for a fresh scope. *)
From stdpp Require Import gmap.
From Stdlib Require Import Strings.Byte.
From S2P Require Import Prelude GoBytes Own OwnCallback OwnService OwnLifecycle.
Open Scope Z_scope.

Record UnownedOfferState := { uo_Object : ObjectHandle; uo_Attribute : AttributeHandle; Divester : FederateHandle }.
Record OwnerState := { o_Object : ObjectHandle; o_Attribute : AttributeHandle; Owner : FederateHandle }.
Record PendingDivestState := {
  d_Object : ObjectHandle; d_Attribute : AttributeHandle; d_Owner : FederateHandle;
  d_Tag : list byte; TwoPhase : bool; ConfirmationRequested : bool;
}.
Record PendingAcquireState := { a_Object : ObjectHandle; a_Attribute : AttributeHandle; Acquirer : FederateHandle; a_Tag : list byte }.
Record CallbackSessionState := {
  cs_Recipient : FederateHandle;
  cs_FederationGeneration : Z;
  cs_CallbackEpoch : Z;
  Enabled : bool;
  LastCallbackID : Z;
  CompletedThrough : Z;
  CompletedIDs : list Z;
}.
Record TerminalCallbackState := {
  t_Recipient : FederateHandle;
  t_CallbackID : Z;
  t_Kind : CallbackKind;
  t_Object : ObjectHandle;
  t_Attributes : list AttributeHandle;
  t_Tag : list byte;
  t_Federate : FederateHandle;
  t_RetainedProjection : option CallbackProjection;
}.
Record ManagerState := {
  Owners : list OwnerState;
  PendingDivests : list PendingDivestState;
  PendingAcquires : list PendingAcquireState;
  UnownedOffers : list UnownedOfferState;
  CallbackSessions : list CallbackSessionState;
  PendingCallbacks : list TerminalCallbackState;
}.

(** ** Export *)
Definition exportedKeys {A} (m : gmap ownershipKey A) : list ownershipKey := merge_sort keyLe (elements (dom m)).
Definition acquireKeyLe (a b : acquireKey) : Prop :=
  a.1.1 < b.1.1 \/ a.1.1 = b.1.1 /\ (a.1.2 < b.1.2 \/ a.1.2 = b.1.2 /\ a.2 <= b.2).
#[export] Instance acquireKeyLe_dec : RelDecision acquireKeyLe.
Proof. intros a b. unfold acquireKeyLe. apply _. Defined.
(** The sessions that carry something: enabled, or with callbacks owed. *)
Definition exportedSession (s : ownershipCallbackSession) : bool := enabled s || negb (bool_decide (pendingCb s = ∅)).
Definition exportSession (recipient : FederateHandle) (s : ownershipCallbackSession) : CallbackSessionState :=
  Build_CallbackSessionState recipient (FederationGeneration (scope s)) (CallbackEpoch (scope s)) (enabled s)
    (lastID s) (completedThrough s) (sortHandles (elements (completed s))).
Definition exportCallback (recipient : FederateHandle) (id : Z) (e : CallbackEvent) : TerminalCallbackState :=
  Build_TerminalCallbackState recipient id (Kind e) (Object e) (Attributes e) (Tag e) (Federate e) (RetainedProjection e).
Definition sessionHandles (st : federationState) : list FederateHandle :=
  filter (fun h => match callbackSessions st !! h with Some s => exportedSession s | None => false end = true)
    (sortHandles (elements (dom (callbackSessions st)))).
Definition exportSessions (st : federationState) : list CallbackSessionState :=
  omap (fun h => exportSession h <$> callbackSessions st !! h) (sessionHandles st).
Definition exportPending (st : federationState) : list TerminalCallbackState :=
  flat_map (fun h => match callbackSessions st !! h with
                     | Some s => omap (fun id => exportCallback h id ∘ event <$> pendingCb s !! id) (pendingIDs s)
                     | None => []
                     end) (sessionHandles st).
Definition exportFederation (st : federationState) : ManagerState := {|
  Owners := omap (fun k => Build_OwnerState k.1 k.2 <$> owners st !! k) (exportedKeys (owners st));
  PendingDivests := omap (fun k => (fun pd => Build_PendingDivestState k.1 k.2 (pd_owner pd) (pd_tag pd) (twoPhase pd) (confirmationRequested pd))
                                     <$> pendingDivests st !! k) (exportedKeys (pendingDivests st));
  PendingAcquires := omap (fun k : acquireKey => Build_PendingAcquireState k.1.1 k.1.2 k.2 <$> pendingAcquires st !! k)
                       (merge_sort acquireKeyLe (elements (dom (pendingAcquires st))));
  UnownedOffers := omap (fun k => Build_UnownedOfferState k.1 k.2 <$> unownedOffers st !! k) (exportedKeys (unownedOffers st));
  CallbackSessions := exportSessions st;
  PendingCallbacks := exportPending st;
|}.
Definition ExportState (m : Manager) (fed : FederationName) : option ManagerState := exportFederation <$> m !! fed.

(** ** Validation *)
Definition snapshotError {A} (msg : string) : outcome own_error A := Fail (own_errorf msg).
Definition invalidSession (s : CallbackSessionState) : bool :=
  (cs_Recipient s =? 0) || (LastCallbackID s <? CompletedThrough s) ||
  (MaxCallbackStateCount <? wrapU 64 (LastCallbackID s - CompletedThrough s)) ||
  (MaxCallbackStateCount <? zlen (CompletedIDs s)) || (Enabled s && (cs_FederationGeneration s =? 0)).
Fixpoint completedSeen (s : CallbackSessionState) (ids : list Z) (seen : gset Z) : outcome own_error (gset Z) :=
  match ids with
  | [] => Ret seen
  | id :: ids =>
      if (id <=? CompletedThrough s) || (LastCallbackID s <? id) || bool_decide (id ∈ seen)
      then snapshotError "invalid completed ownership callback"
      else completedSeen s ids ({[id]} ∪ seen)
  end.
(** The sessions by recipient, each with the identities seen so far. *)
Abbreviation seenSessions := (gmap FederateHandle (CallbackSessionState * gset Z)).
Fixpoint validateCallbackSessions (entries : list CallbackSessionState) (outstanding : Z) (seen : seenSessions) : outcome own_error seenSessions :=
  match entries with
  | [] => Ret seen
  | s :: entries =>
      if invalidSession s then snapshotError "invalid ownership callback session"
      else
        let outstanding := wrapU 64 (outstanding + wrapU 64 (LastCallbackID s - CompletedThrough s)) in
        if MaxCallbackStateCount <? outstanding then snapshotError "ownership callback snapshot window exceeds limit"
        else if bool_decide (is_Some (seen !! cs_Recipient s)) then snapshotError "duplicate ownership callback recipient"
        else
          ids ← completedSeen s (CompletedIDs s) ∅;
          validateCallbackSessions entries outstanding (<[cs_Recipient s := (s, ids)]> seen)
  end.
Definition validateTerminalCallbackKind (c : TerminalCallbackState) (s : CallbackSessionState) : outcome own_error () :=
  if negb (terminalKind (t_Kind c)) then snapshotError "invalid terminal ownership callback kind"
  else if bool_decide (t_Kind c = CallbackAcquisitionNotification) && negb (t_Federate c =? t_Recipient c)
  then snapshotError "ownership callback acquirer does not match recipient"
  else if negb (bool_decide (t_Kind c = CallbackAcquisitionNotification)) && negb (t_Federate c =? 0)
  then snapshotError "invalid terminal ownership callback federate"
  else if bool_decide (t_Kind c = CallbackAcquisitionCancellation) && negb (Enabled s)
  then snapshotError "legacy recipient cannot have new cancellation callback"
  else Ret ().
Fixpoint distinctAttributes (msg : string) (attrs : list AttributeHandle) (seen : gset Z) : outcome own_error () :=
  match attrs with
  | [] => Ret ()
  | a :: attrs => if (a =? 0) || bool_decide (a ∈ seen) then snapshotError msg else distinctAttributes msg attrs ({[a]} ∪ seen)
  end.
Definition validateCallbackAttributes (c : TerminalCallbackState) : outcome own_error () :=
  _ ← (match t_RetainedProjection c with
       | None => Ret ()
       | Some p =>
           if (RegisteredClass p =? 0) || (KnownClass p =? 0) || negb (length (p_Attributes p) =? length (t_Attributes c))%nat
           then snapshotError "invalid retained ownership callback projection"
           else distinctAttributes "invalid retained ownership callback attribute" (p_Attributes p) ∅
       end);
  distinctAttributes "invalid ownership callback attribute" (t_Attributes c) ∅.
Definition validatePendingCallback (c : TerminalCallbackState) (found : option (CallbackSessionState * gset Z)) : outcome own_error () :=
  match found with
  | None => snapshotError "invalid pending ownership callback"
  | Some (s, seen) =>
      if (t_Object c =? 0) || (t_CallbackID c <=? CompletedThrough s) || (LastCallbackID s <? t_CallbackID c) ||
         bool_decide (t_CallbackID c ∈ seen) || bool_decide (t_Attributes c = []) || (MaxCallbackStateCount <? zlen (t_Attributes c))
      then snapshotError "invalid pending ownership callback"
      else _ ← validateTerminalCallbackKind c s; validateCallbackAttributes c
  end.
Fixpoint validatePendingCallbacks (cs : list TerminalCallbackState) (seen : seenSessions) : outcome own_error seenSessions :=
  match cs with
  | [] => Ret seen
  | c :: cs =>
      _ ← validatePendingCallback c (seen !! t_Recipient c);
      validatePendingCallbacks cs (alter (fun sx => (sx.1, {[t_CallbackID c]} ∪ sx.2)) (t_Recipient c) seen)
  end.
Definition ValidateOwnershipCallbackState (state : option ManagerState) : outcome own_error () :=
  match state with
  | None => Ret ()
  | Some state =>
      if (MaxCallbackStateCount <? zlen (CallbackSessions state)) || (MaxCallbackStateCount <? zlen (PendingCallbacks state))
      then snapshotError "ownership callback snapshot count exceeds limit"
      else
        seen ← validateCallbackSessions (CallbackSessions state) 0 ∅;
        seen ← validatePendingCallbacks (PendingCallbacks state) seen;
        if forallb (fun hs : FederateHandle * (CallbackSessionState * gset Z) =>
             Z.of_nat (size hs.2.2) =? wrapU 64 (LastCallbackID hs.2.1 - CompletedThrough hs.2.1)) (map_to_list seen)
        then Ret () else snapshotError "ownership callback identity window has holes"
  end.

(** ** Import *)
Definition importSession (fed : FederationName) (sessions : gmap FederateHandle ownershipCallbackSession) (v : CallbackSessionState)
    : gmap FederateHandle ownershipCallbackSession :=
  let s := default (newSession fed (cs_Recipient v)) (sessions !! cs_Recipient v) in
  let sc := Build_OwnershipCallbackScope (Federation (scope s)) (s_Recipient (scope s)) (cs_FederationGeneration v) (cs_CallbackEpoch v) in
  <[cs_Recipient v := Build_ownershipCallbackSession sc (Enabled v) (Enabled v) (LastCallbackID v) (CompletedThrough v)
                        (list_to_set (CompletedIDs v) ∪ completed s) (pendingCb s)]> sessions.
(** A callback without a session is a nil dereference. *)
Definition importCallback (sessions : gmap FederateHandle ownershipCallbackSession) (v : TerminalCallbackState)
    : outcome own_error (gmap FederateHandle ownershipCallbackSession) :=
  match sessions !! t_Recipient v with
  | None => Panic "runtime error: invalid memory address or nil pointer dereference"
  | Some s =>
      let e := newCallback (t_Kind v) (t_Object v) (t_Attributes v) (t_Tag v) (t_Federate v) in
      let e := set_identity (set_RetainedProjection e (t_RetainedProjection v)) (t_CallbackID v) (scope s) (enabled s) in
      Ret (<[t_Recipient v := set_pendingCb s (<[t_CallbackID v := newTerminal e]> (pendingCb s))]> sessions)
  end.
Fixpoint importCallbacks (sessions : gmap FederateHandle ownershipCallbackSession) (vs : list TerminalCallbackState)
    : outcome own_error (gmap FederateHandle ownershipCallbackSession) :=
  match vs with
  | [] => Ret sessions
  | v :: vs => sessions ← importCallback sessions v; importCallbacks sessions vs
  end.
Definition importCallbackState (fed : FederationName) (state : ManagerState) : outcome own_error (gmap FederateHandle ownershipCallbackSession) :=
  importCallbacks (fold_left (importSession fed) (CallbackSessions state) ∅) (PendingCallbacks state).
Definition importFederation (fed : FederationName) (state : ManagerState) : outcome own_error federationState :=
  sessions ← importCallbackState fed state;
  Ret (Build_federationState
    (fold_insert (fun e => (o_Object e, o_Attribute e)) Owner (Owners state) ∅)
    (fold_insert (fun e => (d_Object e, d_Attribute e))
       (fun e => Build_pendingDivest (d_Owner e) (d_Tag e) (TwoPhase e) (ConfirmationRequested e)) (PendingDivests state) ∅)
    (fold_insert (fun e => (a_Object e, a_Attribute e, Acquirer e)) a_Tag (PendingAcquires state) ∅)
    (fold_insert (fun e => (uo_Object e, uo_Attribute e)) Divester (UnownedOffers state) ∅)
    sessions).
(** [None]: there is nothing to commit. *)
Definition PrepareImportState (fed : FederationName) (state : option ManagerState) : outcome own_error (option federationState) :=
  match state with
  | None => Ret None
  | Some s => _ ← ValidateOwnershipCallbackState state; Some <$> importFederation fed s
  end.
Definition ImportState (m : Manager) (fed : FederationName) (state : option ManagerState) : Manager :=
  match PrepareImportState fed state with Ret (Some st) => publish m fed st | _ => m end.
