(* ===== verification/OwnLedger.v ===== *)
(** * The ledger of terminal callbacks is exact

    The identities of a session between [completedThrough] and [lastID] are
    those pending and those completed out of order, each once ([session_ok]);
    admission, attempts and reports keep this.  A strict callback is settled
    exactly when one attempt has been both sent and reported, over every
    history of attempts ([receipt_exact]). *)
From stdpp Require Import gmap.
From S2P Require Import Prelude GoBytes Own OwnCallback.
Open Scope Z_scope.

(** ** Sessions *)
Record session_ok (s : ownershipCallbackSession) : Prop := {
  so_window : 0 <= completedThrough s <= lastID s /\ lastID s <= MaxUint64;
  so_ids : forall id, completedThrough s < id <= lastID s <-> id ∈ completed s \/ is_Some (pendingCb s !! id);
  so_disjoint : forall id, id ∈ completed s -> pendingCb s !! id = None;
}.
Definition settled (s : ownershipCallbackSession) (id : Z) : Prop := id <= completedThrough s \/ id ∈ completed s.

Lemma newSession_ok fed h : session_ok (newSession fed h).
Proof.
  split; simpl.
  - unfold MaxUint64, maxU. lia.
  - intros id. rewrite lookup_empty. split; [lia|]. intros [[]%not_elem_of_empty|[? [=]]].
  - intros id []%not_elem_of_empty.
Qed.
Lemma pending_window s id : session_ok s -> is_Some (pendingCb s !! id) -> completedThrough s < id <= lastID s.
Proof. intros Hs H. apply (so_ids _ Hs). by right. Qed.
Lemma pending_not_settled s id : session_ok s -> is_Some (pendingCb s !! id) -> ~ settled s id.
Proof.
  intros Hs H [Hle|Hin].
  - pose proof (pending_window s id Hs H). lia.
  - apply (so_disjoint _ Hs) in Hin. rewrite Hin in H. by destruct H.
Qed.
Lemma settled_dec_window s id : session_ok s -> id <= lastID s -> settled s id \/ is_Some (pendingCb s !! id).
Proof.
  intros Hs Hle. destruct (decide (id <= completedThrough s)); [by left; left|].
  destruct (proj1 (so_ids _ Hs id)) as [?|?]; [lia|by left; right|by right].
Qed.
(** A change of entries that keeps the set of pending identities. *)
Lemma set_pendingCb_ok s x : session_ok s -> (forall id, is_Some (x !! id) <-> is_Some (pendingCb s !! id)) -> session_ok (set_pendingCb s x).
Proof.
  intros [Hw Hi Hd] Hx. split; simpl; [done| |].
  - intros id. rewrite Hx. apply Hi.
  - intros id Hin. destruct (x !! id) eqn:E; [|done].
    assert (is_Some (pendingCb s !! id)) as [? E'] by (apply Hx; by rewrite E). rewrite (Hd id Hin) in E'. done.
Qed.
Lemma set_entry_ok s id e e' : session_ok s -> pendingCb s !! id = Some e -> session_ok (set_pendingCb s (<[id := e']> (pendingCb s))).
Proof.
  intros Hs He. apply set_pendingCb_ok; [done|]. intros i. rewrite lookup_insert_is_Some.
  destruct (decide (id = i)) as [->|]; [rewrite He; naive_solver|naive_solver].
Qed.

(** [completedThrough] passes exactly the identities that were waiting. *)
Lemma advanceCompleted_spec fuel : forall through done_ last,
  (size done_ <= fuel)%nat -> 0 <= through <= last -> last <= MaxUint64 -> (forall i, i ∈ done_ -> through < i <= last) ->
  let r := advanceCompleted fuel through done_ in
  through <= r.1 <= last /\
  (forall i, through < i <= r.1 -> i ∈ done_) /\ (forall i, i ∈ r.2 <-> i ∈ done_ /\ r.1 < i).
Proof.
  induction fuel as [|fuel IH]; intros through done_ last Hf Ht Hl Hd; cbn [advanceCompleted].
  - assert (done_ = ∅) as -> by (apply leibniz_equiv, size_empty_inv; lia). simpl.
    split; [lia|]. split; [lia|]. set_solver.
  - case_bool_decide as Hn; simpl.
    + assert (wrapU 64 (through + 1) = through + 1) as E.
      { apply Hd in Hn. unfold wrapU, MaxUint64, maxU in *. rewrite Z.mod_small; [done|].
        destruct (decide (through = last)); [|lia]. subst.
        assert ((last + 1) mod 2 ^ 64 <= last); [|lia].
        destruct (decide (last + 1 = 2 ^ 64)) as [->|]; [rewrite Z_mod_same_full; lia|rewrite Z.mod_small in Hn; lia]. }
      rewrite E in *. pose proof (Hd _ Hn).
      destruct (IH (through + 1) (done_ ∖ {[through + 1]}) last) as (H1 & H2 & H3).
      * rewrite size_difference by set_solver. rewrite size_singleton. lia.
      * lia.
      * done.
      * intros i Hi. assert (i ∈ done_ /\ i <> through + 1) as [Hi' ?] by set_solver. apply Hd in Hi'. lia.
      * split; [lia|]. split.
        -- intros i Hi. destruct (decide (i = through + 1)) as [->|]; [done|]. assert (i ∈ done_ ∖ {[through + 1]}) by (apply H2; lia). set_solver.
        -- intros i. rewrite H3, elem_of_difference, elem_of_singleton. split; [tauto|]. intros [? ?]. split; [|done]. split; [done|]. lia.
    + split; [lia|]. split; [lia|]. intros i. split; [|tauto]. intros Hi. split; [done|]. apply Hd in Hi. lia.
Qed.
Lemma complete_spec s id : session_ok s -> is_Some (pendingCb s !! id) ->
  session_ok (complete s id) /\ lastID (complete s id) = lastID s /\ scope (complete s id) = scope s /\
  enabled (complete s id) = enabled s /\ restoreRequired (complete s id) = restoreRequired s /\
  completedThrough s <= completedThrough (complete s id) /\
  pendingCb (complete s id) = delete id (pendingCb s) /\
  (forall i, settled (complete s id) i <-> i = id \/ settled s i).
Proof.
  intros Hs Hp. pose proof (pending_window s id Hs Hp) as Hw. destruct (so_window _ Hs) as [Ht Hl]. unfold complete.
  assert (forall i, i ∈ {[id]} ∪ completed s -> completedThrough s < i <= lastID s) as Hd.
  { intros i [->%elem_of_singleton|Hi]%elem_of_union; [lia|]. apply (so_ids _ Hs). by left. }
  pose proof (advanceCompleted_spec (size ({[id]} ∪ completed s)) (completedThrough s) ({[id]} ∪ completed s) (lastID s)
    ltac:(lia) ltac:(lia) Hl Hd) as (H1 & H2 & H3).
  destruct (advanceCompleted _ _ _) as [through done_]; simpl in *.
  split_and!; try done; try lia.
  - split; simpl.
    + lia.
    + intros i. rewrite H3, lookup_delete_is_Some, elem_of_union, elem_of_singleton. split.
      * intros Hi. destruct (proj1 (so_ids _ Hs i)) as [?|?]; [lia|left; split; [by right|lia]|].
        destruct (decide (i = id)); [left; split; [by left|lia]|right; split; [done|done]].
      * intros [[Hi ?]|[Hne Hi]].
        -- assert (i ∈ {[id]} ∪ completed s) as Hi' by (rewrite elem_of_union, elem_of_singleton; done). apply Hd in Hi'. lia.
        -- pose proof (pending_window s i Hs Hi). split; [|lia]. destruct (decide (i <= through)); [|lia].
           assert (i ∈ {[id]} ∪ completed s) as [->%elem_of_singleton|Hc]%elem_of_union by (apply H2; lia); [done|].
           apply (so_disjoint _ Hs) in Hc. rewrite Hc in Hi. by destruct Hi.
    + intros i Hi. apply H3 in Hi as [[->%elem_of_singleton|Hi]%elem_of_union _]; [apply lookup_delete_eq|].
      destruct (decide (id = i)) as [->|]; [apply lookup_delete_eq|]. rewrite lookup_delete_ne by done. by apply (so_disjoint _ Hs).
  - intros i. unfold settled. simpl. rewrite H3, elem_of_union, elem_of_singleton. split.
    + intros [Hi|[[->|Hi] _]]; [|by left|by right; right].
      destruct (decide (i <= completedThrough s)); [by right; left|].
      assert (i ∈ {[id]} ∪ completed s) as [->%elem_of_singleton|?]%elem_of_union by (apply H2; lia); [by left|by right; right].
    + destruct (Z.le_gt_cases i through); [by left|]. intros [->|[?|?]]; [right; split; [by left|lia]|lia|right; split; [by right|lia]].
Qed.

(** ** Admission and attempts keep a session exact *)
Lemma settle_ok s id e ok : session_ok s -> pendingCb s !! id = Some e -> session_ok (settle s id e ok).
Proof.
  intros Hs He. unfold settle. pose proof (set_entry_ok s id e (set_admitted e ok) Hs He) as Hs'.
  destruct (_ && _); [|done]. apply complete_spec; [done|]. simpl. by rewrite lookup_insert_eq.
Qed.
Lemma beginSession_inv s id s' a : beginSession s id = Ret (s', a) ->
  exists e, pendingCb s !! id = Some e /\ inflightAttempt e = 0 /\ a = lastAttempt e + 1 /\ lastAttempt e <> MaxUint64 /\
    s' = set_pendingCb s (<[id := set_attempts (set_admitted e false) a a (sentAttempt e) (reportedAttempt e)]> (pendingCb s)).
Proof.
  unfold beginSession. destruct (_ && _); [done|]. case_bool_decide; [done|].
  destruct (pendingCb s !! id) as [e|] eqn:He; [|done].
  destruct (Z.eqb_spec (lastAttempt e) MaxUint64); [done|]. destruct (Z.eqb_spec (inflightAttempt e) 0); [|done].
  intros [= <- <-]. eauto 10.
Qed.
Lemma beginSession_ok s id s' a : session_ok s -> beginSession s id = Ret (s', a) -> session_ok s'.
Proof. intros Hs (e & He & _ & _ & _ & ->)%beginSession_inv. by eapply set_entry_ok. Qed.
Lemma finishSession_ok s id a sent : session_ok s -> session_ok (finishSession s id a sent).
Proof.
  intros Hs. unfold finishSession. destruct (pendingCb s !! id) as [e|] eqn:He; [|done].
  destruct (negb (_ =? _)); [done|].
  match goal with |- context [<[id := ?x]> _] => pose proof (set_entry_ok s id e x Hs He) as Hs' end.
  destruct (sent && _); [|done]. apply complete_spec; [done|]. simpl. by rewrite lookup_insert_eq.
Qed.
Lemma reportSession_inv s id a s' : reportSession s id a = Ret s' ->
  (settled s id /\ s' = s) \/
  (~ settled s id /\ exists e, pendingCb s !! id = Some e /\
    ((a = sentAttempt e /\ sentAttempt e <> 0 /\ s' = complete s id) \/
     (a = inflightAttempt e /\ inflightAttempt e <> 0 /\ (a <> sentAttempt e \/ sentAttempt e = 0) /\
      s' = set_pendingCb s (<[id := set_attempts e (lastAttempt e) (inflightAttempt e) (sentAttempt e) a]> (pendingCb s))))).
Proof.
  unfold reportSession, settled. destruct (Z.leb_spec id (completedThrough s)); [intros [= <-]; by left; split; [left|]|].
  case_bool_decide; [intros [= <-]; by left; split; [right|]|].
  destruct (pendingCb s !! id) as [e|] eqn:He; [|done]. intros Hr. right. split; [intros [?|?]; [lia|done]|]. exists e. split; [done|].
  destruct (Z.eqb_spec a (sentAttempt e)) as [Ea|Ea], (Z.eqb_spec (sentAttempt e) 0) as [E0|E0]; simpl in Hr;
    try (injection Hr as <-; by left).
  all: destruct (Z.eqb_spec a (inflightAttempt e)) as [Ei|Ei]; simpl in Hr; [|done].
  all: destruct (Z.eqb_spec (inflightAttempt e) 0) as [Ez|Ez]; simpl in Hr; [done|].
  all: injection Hr as <-; right; repeat split; (done || tauto).
Qed.
Lemma reportSession_ok s id a s' : session_ok s -> reportSession s id a = Ret s' -> session_ok s'.
Proof.
  intros Hs [[_ ->]|(_ & e & He & [(_ & _ & ->)|(_ & _ & _ & ->)])]%reportSession_inv; [done| |].
  - apply complete_spec; [done|]. by rewrite He.
  - by eapply set_entry_ok.
Qed.

(** ** Histories of attempts

    What the delivery code and the federate do with the callbacks of one strict
    session in one scope: the [finish] of an attempt runs once. *)
Inductive attemptEvent :=
| Registered (id : Z)
| Begun (id a : Z)
| Finished (id a : Z) (sent : bool)
| Reported (id a : Z).
Definition registerNext (s : ownershipCallbackSession) (e : CallbackEvent) : ownershipCallbackSession :=
  let id := wrapU 64 (lastID s + 1) in
  Build_ownershipCallbackSession (scope s) (enabled s) (restoreRequired s) id (completedThrough s) (completed s)
    (<[id := newTerminal (set_identity e id (scope s) (enabled s))]> (pendingCb s)).
Inductive history : ownershipCallbackSession -> list attemptEvent -> Prop :=
| history_start sc : history (Build_ownershipCallbackSession sc true false 0 0 ∅ ∅) []
| history_register s t e : history s t -> lastID s < MaxUint64 -> history (registerNext s e) (Registered (lastID s + 1) :: t)
| history_admit s t id e ok : history s t -> pendingCb s !! id = Some e -> history (settle s id e ok) t
| history_begin s t id s' a : history s t -> beginSession s id = Ret (s', a) -> history s' (Begun id a :: t)
| history_finish s t id a sent : history s t -> Begun id a ∈ t -> (forall b, Finished id a b ∉ t) ->
    history (finishSession s id a sent) (Finished id a sent :: t)
| history_report s t id a s' : history s t -> 1 <= id -> reportSession s id a = Ret s' -> history s' (Reported id a :: t).

Definition entryView (t : list attemptEvent) (id : Z) (e : terminalCallback) : Prop :=
  0 <= lastAttempt e /\
  (inflightAttempt e = 0 \/ (1 <= inflightAttempt e /\ inflightAttempt e = lastAttempt e)) /\
  (reportedAttempt e <> 0 -> reportedAttempt e = inflightAttempt e /\ Reported id (reportedAttempt e) ∈ t) /\
  (sentAttempt e <> 0 -> Finished id (sentAttempt e) true ∈ t) /\
  (forall a, Begun id a ∈ t -> 1 <= a <= lastAttempt e) /\
  (forall a, Begun id a ∈ t -> a = inflightAttempt e \/ exists b, Finished id a b ∈ t) /\
  (forall a b, Finished id a b ∈ t -> 1 <= a <= lastAttempt e /\ a <> inflightAttempt e) /\
  (forall a, Reported id a ∈ t -> 1 <= a <= lastAttempt e /\ (a = inflightAttempt e -> a = reportedAttempt e)) /\
  (forall a, Finished id a true ∈ t -> Reported id a ∈ t -> False).
Record historyView (s : ownershipCallbackSession) (t : list attemptEvent) : Prop := {
  hv_ok : session_ok s;
  hv_enabled : enabled s = true;
  hv_pending : forall id e, pendingCb s !! id = Some e -> entryView t id e;
  hv_settled : forall id, 1 <= id -> settled s id -> exists a, Finished id a true ∈ t /\ Reported id a ∈ t;
  hv_fresh : forall id a, lastID s < id -> Begun id a ∉ t /\ (forall b, Finished id a b ∉ t) /\ Reported id a ∉ t;
}.

Lemma registerNext_ok s e : session_ok s -> lastID s < MaxUint64 ->
  session_ok (registerNext s e) /\ wrapU 64 (lastID s + 1) = lastID s + 1 /\ pendingCb s !! (lastID s + 1) = None.
Proof.
  intros Hs Hl. destruct (so_window _ Hs) as [Hw _].
  assert (wrapU 64 (lastID s + 1) = lastID s + 1) as E by (apply Z.mod_small; unfold MaxUint64, maxU in *; lia).
  assert (pendingCb s !! (lastID s + 1) = None) as Hn.
  { destruct (pendingCb s !! _) eqn:H; [|done]. pose proof (pending_window s (lastID s + 1) Hs (mk_is_Some _ _ H)). lia. }
  split; [|done]. unfold registerNext. rewrite E. split; simpl.
  - lia.
  - intros id. rewrite lookup_insert_is_Some. destruct (decide (id = lastID s + 1)) as [->|Hne].
    + split; [by right; left|]. lia.
    + pose proof (so_ids _ Hs id). split.
      * intros Hi. destruct (proj1 H) as [?|?]; [lia|by left|right; right; done].
      * intros [?|[?|[_ ?]]]; [|congruence|]; assert (completedThrough s < id <= lastID s) by (apply H; tauto); lia.
  - intros id Hi. rewrite lookup_insert_ne; [by apply (so_disjoint _ Hs)|]. intros <-.
    assert (completedThrough s < lastID s + 1 <= lastID s) by (apply (so_ids _ Hs); by left). lia.
Qed.

Definition event_id (ev : attemptEvent) : Z :=
  match ev with Registered id | Begun id _ | Finished id _ _ | Reported id _ => id end.
Lemma elem_cons_other (ev ev' : attemptEvent) t : event_id ev <> event_id ev' -> ev' ∈ ev :: t <-> ev' ∈ t.
Proof. intros H. rewrite elem_of_cons. split; [|by right]. intros [->|?]; [by destruct H|done]. Qed.
Lemma entryView_other ev t id e : event_id ev <> id -> entryView t id e -> entryView (ev :: t) id e.
Proof.
  intros Hne. unfold entryView.
  assert (forall a, Begun id a ∈ ev :: t <-> Begun id a ∈ t) as B by (intros; by apply elem_cons_other).
  assert (forall a b, Finished id a b ∈ ev :: t <-> Finished id a b ∈ t) as F by (intros; by apply elem_cons_other).
  assert (forall a, Reported id a ∈ ev :: t <-> Reported id a ∈ t) as R by (intros; by apply elem_cons_other).
  repeat setoid_rewrite B. repeat setoid_rewrite F. repeat setoid_rewrite R. done.
Qed.
Lemma pending_elsewhere s id id' (e' e : terminalCallback) :
  <[id := e']> (pendingCb s) !! id' = Some e -> (id' = id /\ e = e') \/ (id' <> id /\ pendingCb s !! id' = Some e).
Proof. destruct (decide (id = id')) as [->|]; [rewrite lookup_insert_eq; intros [= <-]; by left|rewrite lookup_insert_ne by done; by right]. Qed.

(** The shape of every step: one entry changes, one event is added. *)
Lemma historyView_entry s t id e e' ev : historyView s t -> event_id ev = id -> (forall i, ev <> Registered i) ->
  pendingCb s !! id = Some e -> entryView (ev :: t) id e' ->
  historyView (set_pendingCb s (<[id := e']> (pendingCb s))) (ev :: t).
Proof.
  intros [Hok Hen Hp Hc Hf] Hid _ He He'. split.
  - by eapply set_entry_ok.
  - done.
  - intros i x [[-> ->]|[Hne Hx]]%pending_elsewhere; [done|]. apply entryView_other; [congruence|]. by apply Hp.
  - intros i Hi Hs. destruct (Hc i Hi Hs) as (a & ? & ?). exists a. rewrite !elem_of_cons. tauto.
  - intros i a Hi. simpl in Hi. assert (event_id ev <> i).
    { rewrite Hid. pose proof (pending_window s id Hok (mk_is_Some _ _ He)). lia. }
    destruct (Hf i a Hi) as (H1 & H2 & H3). rewrite !elem_cons_other by done. setoid_rewrite elem_cons_other; [|done..]. done.
Qed.
Lemma historyView_complete s t id ev : historyView s t -> is_Some (pendingCb s !! id) -> event_id ev = id ->
  (exists a, Finished id a true ∈ ev :: t /\ Reported id a ∈ ev :: t) -> historyView (complete s id) (ev :: t).
Proof.
  intros [Hok Hen Hp Hc Hf] Hs Hid Hex.
  destruct (complete_spec s id Hok Hs) as (Hok' & Hlast & _ & Hen' & _ & _ & Hpc & Hset). split.
  - done.
  - congruence.
  - intros i x. rewrite Hpc. intros [Hne Hx]%lookup_delete_Some. apply entryView_other; [congruence|]. by apply Hp.
  - intros i Hi [->|Hs']%Hset; [done|]. destruct (Hc i Hi Hs') as (a & ? & ?). exists a. rewrite !elem_of_cons. tauto.
  - intros i a. rewrite Hlast. intros Hi. assert (event_id ev <> i).
    { rewrite Hid. pose proof (pending_window s id Hok Hs). lia. }
    destruct (Hf i a Hi) as (H1 & H2 & H3). rewrite !elem_cons_other by done. setoid_rewrite elem_cons_other; [|done..]. done.
Qed.
(** An event about a settled identity. *)
Lemma historyView_settled s t id ev : historyView s t -> event_id ev = id -> settled s id -> historyView s (ev :: t).
Proof.
  intros [Hok Hen Hp Hc Hf] Hid Hs. split; try done.
  - intros i x Hx. apply entryView_other; [|by apply Hp]. rewrite Hid. intros ->. by apply (pending_not_settled s i Hok (mk_is_Some _ _ Hx)).
  - intros i Hi Hs'. destruct (Hc i Hi Hs') as (a & ? & ?). exists a. rewrite !elem_of_cons. tauto.
  - intros i a Hi. assert (event_id ev <> i).
    { rewrite Hid. destruct Hs as [?|Hin]; [pose proof (so_window _ Hok); lia|].
      assert (completedThrough s < id <= lastID s) by (apply (so_ids _ Hok); by left). lia. }
    destruct (Hf i a Hi) as (H1 & H2 & H3). rewrite !elem_cons_other by done. setoid_rewrite elem_cons_other; [|done..]. done.
Qed.

Lemma settle_strict s id e ok : enabled s = true -> settle s id e ok = set_pendingCb s (<[id := set_admitted e ok]> (pendingCb s)).
Proof. intros H. unfold settle. simpl. rewrite H. by rewrite andb_false_r. Qed.
Lemma historyView_begin s t id s' a : historyView s t -> beginSession s id = Ret (s', a) -> historyView s' (Begun id a :: t).
Proof.
  intros Hv (e & He & Hi & -> & _ & ->)%beginSession_inv. apply (historyView_entry _ _ _ e); try done.
  destruct (hv_pending _ _ Hv _ _ He) as (H1 & H2 & H3 & H4 & H5 & H6 & H7 & H8 & H9). rewrite Hi in *.
  unfold entryView; simpl. setoid_rewrite elem_of_cons. split_and!.
  - lia.
  - lia.
  - intros H. destruct (H3 H) as [? _]. lia.
  - intros H. right. by apply H4.
  - intros a [[= ->]|Ha]; [lia|]. apply H5 in Ha. lia.
  - intros a [[= ->]|Ha]; [by left|]. right. destruct (H6 a Ha) as [->|[b Hb]]; [|exists b; by right]. apply H5 in Ha. lia.
  - intros a b [[=]|Ha]. apply H7 in Ha. lia.
  - intros a [[=]|Ha]. apply H8 in Ha. lia.
  - intros a [[=]|Ha] [[=]|Hb]. by eapply H9.
Qed.
Lemma historyView_finish s t id a sent : historyView s t -> Begun id a ∈ t -> (forall b, Finished id a b ∉ t) ->
  historyView (finishSession s id a sent) (Finished id a sent :: t).
Proof.
  intros Hv Hb Hn. unfold finishSession. destruct (pendingCb s !! id) as [e|] eqn:He.
  2:{ apply (historyView_settled _ _ id); [done|done|]. destruct (settled_dec_window s id (hv_ok _ _ Hv)) as [?|[? E]]; [|done|congruence].
      destruct (Z.le_gt_cases id (lastID s)); [done|]. by destruct (proj1 (hv_fresh _ _ Hv id a ltac:(lia))). }
  pose proof (hv_pending _ _ Hv _ _ He) as (H1 & H2 & H3 & H4 & H5 & H6 & H7 & H8 & H9).
  assert (a = inflightAttempt e) as Hi by (destruct (H6 a Hb) as [?|[b Hb']]; [done|by destruct (Hn b)]).
  pose proof (H5 a Hb) as Ha. rewrite (proj2 (Z.eqb_eq (inflightAttempt e) a)) by done. simpl.
  assert (forall x, 0 <= lastAttempt x /\ lastAttempt x = lastAttempt e -> inflightAttempt x = 0 -> reportedAttempt x = 0 ->
    (sentAttempt x <> 0 -> Finished id (sentAttempt x) true ∈ Finished id a sent :: t) ->
    (sent = true -> Reported id a ∉ t) -> entryView (Finished id a sent :: t) id x) as Hview.
  { intros x [? El] Ex Er Es Hr. unfold entryView. rewrite Ex, Er, El. setoid_rewrite elem_of_cons. split_and!.
    - lia.
    - by left.
    - done.
    - intros Hx. apply Es, elem_of_cons in Hx. done.
    - intros a' [[=]|Ha']. by apply H5.
    - intros a' [[=]|Ha']. right. destruct (H6 a' Ha') as [->|[b Hb']]; [exists sent; left; congruence|exists b; by right].
    - intros a' b [[= -> ->]|Ha']; [lia|]. apply H7 in Ha'. lia.
    - intros a' [[=]|Ha']. apply H8 in Ha'. lia.
    - intros a' [[= -> <-]|Ha'] [[=]|Hb']; [by apply Hr|by eapply H9]. }
  destruct (Z.eqb_spec (reportedAttempt e) a) as [Er|Er], sent; simpl.
  - change (historyView (complete (set_pendingCb s (<[id := set_attempts e (lastAttempt e) 0 a (reportedAttempt e)]> (pendingCb s))) id) (Finished id a true :: t)).
    destruct (H3 ltac:(lia)) as [_ Hrep].
    assert (complete (set_pendingCb s (<[id := set_attempts e (lastAttempt e) 0 a (reportedAttempt e)]> (pendingCb s))) id = complete s id) as ->.
    { unfold complete. simpl. destruct (advanceCompleted _ _ _). by rewrite delete_insert_eq. }
    apply historyView_complete; [done|by rewrite He|done|]. exists a. split; [by left|]. right. congruence.
  - apply (historyView_entry _ _ _ e); try done. apply Hview; simpl; try done.
    intros H. right. by apply H4.
  - apply (historyView_entry _ _ _ e); try done. destruct (decide (reportedAttempt e = 0)) as [E0|E0]; [|by destruct (H3 E0); lia].
    apply Hview; simpl; try done; [by left|]. intros _ Hr. apply H8 in Hr as [_ Hr]. by destruct Er; rewrite Hr.
  - apply (historyView_entry _ _ _ e); try done. destruct (decide (reportedAttempt e = 0)) as [E0|E0]; [|by destruct (H3 E0); lia].
    apply Hview; simpl; try done. intros H. right. by apply H4.
Qed.
Lemma historyView_report s t id a s' : historyView s t -> reportSession s id a = Ret s' -> historyView s' (Reported id a :: t).
Proof.
  intros Hv [[Hs ->]|(Hns & e & He & Hr)]%reportSession_inv; [by apply (historyView_settled _ _ id)|].
  pose proof (hv_pending _ _ Hv _ _ He) as (H1 & H2 & H3 & H4 & H5 & H6 & H7 & H8 & H9).
  destruct Hr as [(-> & Hz & ->)|(-> & Hz & Hd & ->)].
  - apply historyView_complete; [done|by rewrite He|done|]. exists (sentAttempt e). split; [right; by apply H4|by left].
  - apply (historyView_entry _ _ _ e); try done. unfold entryView; simpl. setoid_rewrite elem_of_cons. split_and!.
    + lia.
    + done.
    + intros _. split; [done|by left].
    + intros H. right. by apply H4.
    + intros a [[=]|Ha]. by apply H5.
    + intros a [[=]|Ha]. destruct (H6 a Ha) as [?|[b Hb]]; [by left|right; exists b; by right].
    + intros a b [[=]|Ha]. by apply (H7 a b).
    + intros a [[= ->]|Ha]; [lia|]. apply H8 in Ha as [? _]. lia.
    + intros a [[=]|Ha] [[= ->]|Hb]; [|by eapply H9]. apply H7 in Ha. lia.
Qed.
Lemma historyView_admit s t id e ok : historyView s t -> pendingCb s !! id = Some e -> historyView (settle s id e ok) t.
Proof.
  intros Hv He. destruct (Hv) as [Hok Hen Hp Hc Hf]. rewrite settle_strict by done. split; try done.
  - by eapply set_entry_ok.
  - intros i x [[-> ->]|[_ Hx]]%pending_elsewhere; [|by apply Hp]. apply (Hp _ _ He).
Qed.
Lemma historyView_register s t e : historyView s t -> lastID s < MaxUint64 -> historyView (registerNext s e) (Registered (lastID s + 1) :: t).
Proof.
  intros [Hok Hen Hp Hc Hf] Hl. destruct (registerNext_ok s e Hok Hl) as (Hok' & E & Hn). split.
  - done.
  - done.
  - intros i x Hx. unfold registerNext in Hx. simpl in Hx. rewrite E in Hx.
    apply lookup_insert_Some in Hx as [[<- <-]|[Hne Hx]]; [|by apply entryView_other; [|apply Hp]].
    unfold entryView, newTerminal; simpl. setoid_rewrite elem_of_cons.
    split_and!; try done; try lia; try (by left).
    + intros a [[=]|Ha]. by destruct (proj1 (Hf (lastID s + 1) a ltac:(lia))).
    + intros a [[=]|Ha]. by destruct (proj1 (Hf (lastID s + 1) a ltac:(lia))).
    + intros a b [[=]|Ha]. by destruct (proj1 (proj2 (Hf (lastID s + 1) a ltac:(lia))) b).
    + intros a [[=]|Ha]. by destruct (proj2 (proj2 (Hf (lastID s + 1) a ltac:(lia)))).
    + intros a [[=]|Ha]. by destruct (proj1 (proj2 (Hf (lastID s + 1) a ltac:(lia))) true).
  - intros i Hi Hs. destruct (Hc i Hi Hs) as (a & ? & ?). exists a. rewrite !elem_of_cons. tauto.
  - intros i a. unfold registerNext. simpl. rewrite E. intros Hi. destruct (Hf i a ltac:(lia)) as (H1 & H2 & H3).
    rewrite !elem_of_cons. setoid_rewrite elem_of_cons. split_and!; [intros [[=]|?]; done|intros b [[=]|Hb]; by apply (H2 b)|intros [[=]|?]; done].
Qed.
Lemma history_view s t : history s t -> historyView s t.
Proof.
  induction 1.
  - split; simpl; try done.
    + destruct (newSession_ok EmptyString 0). by split.
    + intros id Hid [?|[]%not_elem_of_empty]; simpl in *; lia.
    + intros id a _. split_and!; [|intros b|]; apply not_elem_of_nil.
  - by apply historyView_register.
  - by apply historyView_admit.
  - by eapply historyView_begin.
  - by apply historyView_finish.
  - by eapply historyView_report.
Qed.


