(* ===== verification/OwnWindow.v ===== *)
(** * The ledger of a federation

    [ledger_ok]: every session is exact, belongs to its recipient, and holds
    well-formed callbacks, and the windows of all sessions together stay within
    [MaxCallbackStateCount].  Registration adds exactly one number per callback
    ([register_ledger]), and every operation of the ledger keeps it. *)
From stdpp Require Import gmap.
From Stdlib Require Import Strings.Byte.
From S2P Require Import Prelude GoBytes Own OwnCallback OwnService OwnLifecycle OwnLedger.
Open Scope Z_scope.

Lemma Forall2_in_r {A B} (R : A -> B -> Prop) l k y : Forall2 R l k -> y ∈ k -> exists x, x ∈ l /\ R x y.
Proof.
  induction 1 as [|a b l k Hab _ IH]; [intros []%elem_of_nil|]. intros [->|Hy]%elem_of_cons; [exists a; by split; [left|]|].
  destruct (IH Hy) as (x & ? & ?). exists x. by split; [right|].
Qed.
Lemma Forall2_in_l {A B} (R : A -> B -> Prop) l k x : Forall2 R l k -> x ∈ l -> exists y, y ∈ k /\ R x y.
Proof.
  induction 1 as [|a b l k Hab _ IH]; [intros []%elem_of_nil|]. intros [->|Hx]%elem_of_cons; [exists b; by split; [left|]|].
  destruct (IH Hx) as (y & ? & ?). exists y. by split; [right|].
Qed.

(** ** The windows of all sessions *)
Definition window (s : ownershipCallbackSession) : Z := lastID s - completedThrough s.
Definition windows (m : gmap FederateHandle ownershipCallbackSession) : Z := map_fold (fun _ s n => n + window s) 0 m.
Lemma windows_insert m h s : m !! h = None -> windows (<[h := s]> m) = windows m + window s.
Proof. intros H. unfold windows. rewrite map_fold_insert_L; [done|lia|done]. Qed.
Lemma windows_delete m h s : m !! h = Some s -> windows m = windows (delete h m) + window s.
Proof. intros H. unfold windows. rewrite (map_fold_delete_L _ _ h s); [done|lia|done]. Qed.
Lemma windows_update m h s : windows (<[h := s]> m) = windows m - default 0 (window <$> m !! h) + window s.
Proof.
  destruct (m !! h) as [s0|] eqn:E; simpl.
  - rewrite (windows_delete m h s0 E). rewrite <- insert_delete_eq. rewrite windows_insert by apply lookup_delete_eq. lia.
  - rewrite windows_insert by done. lia.
Qed.
Lemma windows_mono m : (forall h s, m !! h = Some s -> 0 <= window s) -> 0 <= windows m.
Proof.
  induction m as [|h s m Hn IH] using map_ind; intros Hw; [unfold windows; by rewrite map_fold_empty|]. rewrite windows_insert by done.
  pose proof (Hw h s (lookup_insert_eq _ _ _)). assert (0 <= windows m); [|lia]. apply IH. intros h' s' E. apply (Hw h').
  rewrite lookup_insert_ne by congruence. done.
Qed.
Lemma window_le m h s : (forall h s, m !! h = Some s -> 0 <= window s) -> m !! h = Some s -> window s <= windows m.
Proof.
  intros Hw E. rewrite (windows_delete m h s E). assert (0 <= windows (delete h m)); [|lia].
  apply windows_mono. intros h' s' [_ E']%lookup_delete_Some. by apply (Hw h').
Qed.
(** The sum the code computes is the sum modulo 2^64. *)
Lemma outstanding_windows st : outstanding st = wrapU 64 (windows (callbackSessions st)).
Proof.
  unfold outstanding, windows. rewrite !map_fold_foldr. induction (map_to_list (callbackSessions st)) as [|[h s] l IH]; [done|].
  simpl. rewrite IH. unfold wrapU, window. by rewrite <- Zplus_mod.
Qed.

(** ** Well-formed callbacks *)
Definition projection_ok (attrs : list AttributeHandle) (p : CallbackProjection) : Prop :=
  RegisteredClass p <> 0 /\ KnownClass p <> 0 /\ length (p_Attributes p) = length attrs /\ NoDup (p_Attributes p) /\ 0 ∉ p_Attributes p.
Definition addressed (h : FederateHandle) (strict : bool) (e : CallbackEvent) : Prop :=
  Federate e = (if bool_decide (Kind e = CallbackAcquisitionNotification) then h else 0) /\
  (Kind e = CallbackAcquisitionCancellation -> strict = true).
Definition payload_ok (h : FederateHandle) (strict : bool) (e : CallbackEvent) : Prop :=
  terminalKind (Kind e) = true /\ Object e <> 0 /\ Attributes e <> [] /\ zlen (Attributes e) <= MaxCallbackStateCount /\
  0 ∉ Attributes e /\ NoDup (Attributes e) /\ addressed h strict e /\
  match RetainedProjection e with Some p => projection_ok (Attributes e) p | None => True end.
Definition entry_ok (h : FederateHandle) (s : ownershipCallbackSession) (id : Z) (e : terminalCallback) : Prop :=
  CallbackID (event e) = id /\ CallbackScope (event e) = scope s /\ RequireInvocationReceipt (event e) = enabled s /\
  payload_ok h (enabled s) (event e).
Definition member_ok (fed : FederationName) (h : FederateHandle) (s : ownershipCallbackSession) : Prop :=
  h <> 0 /\ session_ok s /\ Federation (scope s) = fed /\ s_Recipient (scope s) = h /\
  (enabled s = true -> FederationGeneration (scope s) <> 0) /\
  forall id e, pendingCb s !! id = Some e -> entry_ok h s id e.
Record ledger_ok (fed : FederationName) (st : federationState) : Prop := {
  lg_members : forall h s, callbackSessions st !! h = Some s -> member_ok fed h s;
  lg_windows : windows (callbackSessions st) <= MaxCallbackStateCount;
  lg_count : Z.of_nat (size (callbackSessions st)) <= MaxCallbackStateCount;
}.
Lemma session_window s : session_ok s -> 0 <= window s.
Proof. intros H. pose proof (so_window _ H). unfold window. lia. Qed.
Lemma ledger_window fed st h s : ledger_ok fed st -> callbackSessions st !! h = Some s -> 0 <= window s.
Proof. intros H E. apply session_window. by apply (lg_members _ _ H) in E as (_ & ? & _). Qed.
Lemma new_member fed h : h <> 0 -> member_ok fed h (newSession fed h).
Proof. intros Hh. split_and!; try done. apply newSession_ok. Qed.
Lemma callbackSession_member fed st h : ledger_ok fed st -> h <> 0 -> member_ok fed h (callbackSession st fed h).
Proof.
  intros Hl Hh. unfold callbackSession. destruct (callbackSessions st !! h) as [s|] eqn:E; [by apply (lg_members _ _ Hl)|by apply new_member].
Qed.
Lemma callbackSession_window st fed h : default 0 (window <$> callbackSessions st !! h) = window (callbackSession st fed h).
Proof. unfold callbackSession. by destruct (callbackSessions st !! h). Qed.
(** Replacing a session by one no wider. *)
Lemma set_session_ledger fed st h s s' : ledger_ok fed st -> callbackSessions st !! h = Some s -> member_ok fed h s' -> window s' <= window s ->
  ledger_ok fed (set_session st h s').
Proof.
  intros [H1 H2 H3] E Hm Hw. split; simpl.
  - intros h' x [[<- <-]|[_ ?]]%lookup_insert_Some; [done|by apply H1].
  - rewrite windows_update, E. simpl. lia.
  - rewrite map_size_insert_Some by done. done.
Qed.

(** ** Registration *)
Definition deliverable (fed : FederationName) (st : federationState) (d : OutboxDelivery) : Prop :=
  addressed (Recipient d) (enabled (callbackSession st fed (Recipient d))) (Event d) /\
  match RetainedProjection (Event d) with Some p => projection_ok (sortCompact (Attributes (Event d))) p | None => True end.
(** What is left to check of a normalized delivery, and room for all. *)
Definition registrable (fed : FederationName) (st : federationState) (d : OutboxDelivery) : Prop :=
  Recipient d <> 0 /\ payload_ok (Recipient d) (enabled (callbackSession st fed (Recipient d))) (Event d).
Record room (fed : FederationName) (st : federationState) (ds : list OutboxDelivery) : Prop := {
  rm_windows : windows (callbackSessions st) + zlen ds <= MaxCallbackStateCount;
  rm_count : Z.of_nat (size (dom (callbackSessions st) ∪ list_to_set (map Recipient ds) : gset Z)) <= MaxCallbackStateCount;
  rm_last : forall h, lastID (callbackSession st fed h) + countFor h ds <= MaxUint64;
}.
Lemma validateTerminalDelivery_inv d u : validateTerminalDelivery d = Ret u ->
  Recipient d <> 0 /\ terminalKind (Kind (Event d)) = true /\ Object (Event d) <> 0 /\ Attributes (Event d) <> [] /\
  zlen (Attributes (Event d)) <= MaxCallbackStateCount /\ 0 ∉ Attributes (Event d).
Proof.
  unfold validateTerminalDelivery. cbv zeta. intros H.
  destruct (Z.eqb_spec (Recipient d) 0); [done|]. destruct (Z.eqb_spec (Object (Event d)) 0); [done|].
  case_bool_decide; [done|]. destruct (Z.ltb_spec MaxCallbackStateCount (zlen (Attributes (Event d)))); [done|].
  destruct (terminalKind _); [|done]. simpl in H. destruct (existsb _ _) eqn:E; [done|].
  split_and!; try done. intros Hin. apply list_elem_of_In in Hin. assert (existsb (fun a => a =? 0) (Attributes (Event d)) = true) as E';
    [|congruence]. apply existsb_exists. by exists 0.
Qed.
Lemma validateDeliveries_inv ds u : validateDeliveries ds = Ret u -> forall d, d ∈ ds -> validateTerminalDelivery d = Ret tt.
Proof.
  induction ds as [|x ds IH]; intros H d Hd; [by apply elem_of_nil in Hd|]. simpl in H. bind_inv H. destruct r.
  apply elem_of_cons in Hd as [->|Hd]; [done|by apply IH].
Qed.
Lemma countFor_notin h ds : h ∉ map Recipient ds -> countFor h ds = 0.
Proof.
  intros Hn. unfold countFor. replace (filter _ ds) with (@nil OutboxDelivery); [done|]. symmetry.
  induction ds as [|d ds IH]; [done|]. simpl in Hn. apply not_elem_of_cons in Hn as [? ?]. rewrite filter_cons_False by congruence. by apply IH.
Qed.
Lemma validateWindows_inv w st ds u : (forall h s, callbackSessions st !! h = Some s -> session_ok s) -> forall hs, validateWindows w st ds hs = Ret u ->
  forall h fed, h ∈ hs -> lastID (callbackSession st fed h) + countFor h ds <= MaxUint64.
Proof.
  intros Hok hs. induction hs as [|x hs IH]; intros H h fed Hh; [by apply elem_of_nil in Hh|]. cbn [validateWindows] in H. cbv zeta in H.
  destruct (match callbackSessions st !! x with Some s => restoreRequired s | None => false end); [done|].
  destruct (_ || _) eqn:E; [done|]. apply elem_of_cons in Hh as [->|Hh]; [|by apply IH].
  rewrite !orb_false_iff in E. destruct E as [[E _] _]. apply Z.ltb_ge in E. unfold callbackSession. destruct (callbackSessions st !! x); simpl; lia.
Qed.
Lemma size_with_new (sessions : gmap FederateHandle ownershipCallbackSession) (rs hs : list FederateHandle) (bound : Z) :
  (forall h, h ∈ rs <-> h ∈ sortCompact hs) ->
  Z.of_nat (size sessions) + zlen (filter (fun h => sessions !! h = None) (sortCompact hs)) <= bound ->
  Z.of_nat (size (dom sessions ∪ list_to_set rs : gset Z)) <= bound.
Proof.
  intros Hrs Hb. set (fresh := filter (fun h => sessions !! h = None) (sortCompact hs)) in *.
  assert ((dom sessions ∪ list_to_set rs : gset Z) ⊆ dom sessions ∪ list_to_set fresh) as Hsub.
  { intros h. rewrite !elem_of_union, !elem_of_list_to_set. intros [Hh|Hh]; [by left|].
    destruct (decide (h ∈ dom sessions)) as [|Hn]; [by left|]. right. apply list_elem_of_filter. split; [by apply not_elem_of_dom|]. by apply Hrs. }
  apply subseteq_size in Hsub. rewrite (size_union_alt (dom sessions) (list_to_set fresh : gset Z)), size_dom in Hsub.
  assert (size (list_to_set fresh ∖ dom sessions : gset Z) <= length fresh)%nat as Hle.
  { transitivity (size (list_to_set fresh : gset Z)); [apply subseteq_size; set_solver|].
    rewrite size_list_to_set; [done|]. apply NoDup_filter, sortCompact_NoDup. }
  unfold zlen in Hb. lia.
Qed.
Lemma validate_room opts fed st ds u : ledger_ok fed st -> validateTerminalCallbacks opts st ds = Ret u ->
  room fed st ds /\ forall d, d ∈ ds -> validateTerminalDelivery d = Ret tt.
Proof.
  intros Hl. unfold validateTerminalCallbacks. destruct (_ || _) eqn:E; [done|]. intros H. bind_inv H.
  destruct (Z.ltb_spec MaxCallbackStateCount (Z.of_nat (size (callbackSessions st)) + zlen (filter (fun h => callbackSessions st !! h = None) (recipients ds)))) as [|Hc]; [done|].
  apply orb_false_iff in E as [E1 E2]. apply Z.ltb_ge in E1, E2. split; [|by eapply validateDeliveries_inv].
  assert (0 <= windows (callbackSessions st)) as Hpos by (apply windows_mono; intros h s; by eapply ledger_window).
  pose proof (lg_windows _ _ Hl) as Hw. split.
  - rewrite outstanding_windows in E2. unfold wrapU in E2. rewrite Z.mod_small in E2; [lia|]. unfold MaxCallbackStateCount in Hw. lia.
  - apply (size_with_new _ _ (map Recipient ds)); [|exact Hc]. intros h. unfold recipients. by rewrite sortCompact_in.
  - intros h. destruct (decide (h ∈ recipients ds)) as [Hh|Hh].
    + eapply validateWindows_inv; [|done|done]. intros h' s' E'. by apply (lg_members _ _ Hl) in E' as (_ & ? & _).
    + unfold recipients in Hh. rewrite sortCompact_in in Hh. rewrite countFor_notin by done. unfold callbackSession.
      destruct (callbackSessions st !! h) as [s|] eqn:E'; simpl; [|unfold MaxUint64, maxU; lia].
      apply (lg_members _ _ Hl) in E' as (_ & Hs & _). pose proof (so_window _ Hs). lia.
Qed.
Lemma callbackSession_set st fed h s h' : callbackSession (set_session st h s) fed h' = if decide (h = h') then s else callbackSession st fed h'.
Proof.
  unfold callbackSession. simpl. destruct (decide (h = h')) as [->|]; [by rewrite lookup_insert_eq|by rewrite lookup_insert_ne].
Qed.
(** The callback is pending as it was sent. *)
Definition owed (fed : FederationName) (st : federationState) (t : OutboxDelivery) : Prop :=
  pendingCb (callbackSession st fed (Recipient t)) !! CallbackID (Event t) = Some (newTerminal (Event t)).
(** [t] is [d] with an identity. *)
Definition identified (d t : OutboxDelivery) : Prop :=
  Recipient t = Recipient d /\ exists id scope strict, Event t = set_identity (Event d) id scope strict.
(** [st'] has the sessions of [st] and callbacks registered after them. *)
Definition extends (fed : FederationName) (st st' : federationState) : Prop :=
  forall h, enabled (callbackSession st' fed h) = enabled (callbackSession st fed h) /\
    scope (callbackSession st' fed h) = scope (callbackSession st fed h) /\
    completedThrough (callbackSession st' fed h) = completedThrough (callbackSession st fed h) /\
    completed (callbackSession st' fed h) = completed (callbackSession st fed h) /\
    (forall id e, pendingCb (callbackSession st fed h) !! id = Some e -> pendingCb (callbackSession st' fed h) !! id = Some e).
Lemma extends_trans fed st1 st2 st3 : extends fed st1 st2 -> extends fed st2 st3 -> extends fed st1 st3.
Proof.
  intros H1 H2 h. destruct (H1 h) as (A1 & A2 & A3 & A4 & A5), (H2 h) as (B1 & B2 & B3 & B4 & B5). split_and!; try congruence. eauto.
Qed.
Lemma extends_owed fed st st' t : extends fed st st' -> owed fed st t -> owed fed st' t.
Proof. intros H. by apply H. Qed.

Lemma registerOne_spec fed st d ds : ledger_ok fed st -> room fed st (d :: ds) -> registrable fed st d ->
  let (st', t) := registerOne fed st d in
  ledger_ok fed st' /\ room fed st' ds /\ identified d t /\ owed fed st' t /\ extends fed st st' /\
  forall h, lastID (callbackSession st' fed h) = lastID (callbackSession st fed h) + (if decide (Recipient d = h) then 1 else 0).
Proof.
  intros Hl [R1 R2 R3] [Hr Hp]. unfold registerOne. set (s := callbackSession st fed (Recipient d)).
  pose proof (callbackSession_member fed st (Recipient d) Hl Hr) as (_ & Hs & Hf & Hrc & Hg & Hen). fold s in Hs, Hf, Hrc, Hg, Hen, Hp.
  assert (lastID s < MaxUint64) as Hlast.
  { pose proof (R3 (Recipient d)) as H3. fold s in H3. unfold countFor in H3. rewrite filter_cons_True in H3 by done. unfold zlen in H3. simpl in H3. lia. }
  destruct (registerNext_ok s (Event d) Hs Hlast) as (Hs' & Eid & Hnone).
  change (let (st', t) := (set_session st (Recipient d) (registerNext s (Event d)),
      Delivery (Recipient d) (set_identity (Event d) (wrapU 64 (lastID s + 1)) (scope s) (enabled s))) in
    ledger_ok fed st' /\ room fed st' ds /\ identified d t /\ owed fed st' t /\ extends fed st st' /\
    forall h, lastID (callbackSession st' fed h) = lastID (callbackSession st fed h) + (if decide (Recipient d = h) then 1 else 0)).
  cbv beta iota. assert (window (registerNext s (Event d)) = window s + 1) as Ew by (unfold window, registerNext; simpl; lia).
  assert (windows (callbackSessions (set_session st (Recipient d) (registerNext s (Event d)))) = windows (callbackSessions st) + 1) as EW.
  { simpl. rewrite windows_update, (callbackSession_window st fed). fold s. lia. }
  assert (forall ds : list OutboxDelivery, zlen (d :: ds) = zlen ds + 1) as Ez by (intros; unfold zlen; simpl; lia). split_and!.
  - split.
    + simpl. intros h x [[<- <-]|[_ Hx]]%lookup_insert_Some; [|by apply (lg_members _ _ Hl)]. split_and!; try done.
      unfold registerNext. simpl. rewrite Eid. intros id e [[<- <-]|[_ He]]%lookup_insert_Some; [|by apply Hen]. split_and!; try done.
    + rewrite EW. rewrite Ez in R1. pose proof (zlen_nonneg ds). lia.
    + simpl. etransitivity; [|apply R2]. rewrite <- size_dom. apply inj_le, subseteq_size. rewrite dom_insert. simpl. set_solver.
  - split.
    + rewrite EW. rewrite Ez in R1. lia.
    + simpl. etransitivity; [|apply R2]. apply inj_le, subseteq_size. rewrite dom_insert. simpl. set_solver.
    + intros h. specialize (R3 h). rewrite callbackSession_set. unfold countFor in *. destruct (decide (Recipient d = h)) as [<-|Hne].
      * rewrite filter_cons_True in R3 by done. rewrite Ez in R3. fold s in R3. unfold registerNext. simpl. lia.
      * by rewrite filter_cons_False in R3.
  - split; [done|]. by do 3 eexists.
  - unfold owed. simpl. rewrite callbackSession_set, decide_True by done. unfold registerNext. simpl. by rewrite lookup_insert_eq.
  - intros h. rewrite callbackSession_set. destruct (decide (Recipient d = h)) as [<-|]; [|done]. fold s. unfold registerNext. simpl. split_and!; try done.
    intros id e He. rewrite lookup_insert_ne; [done|]. rewrite Eid. congruence.
  - intros h. rewrite callbackSession_set. destruct (decide (Recipient d = h)) as [<-|]; [|lia]. fold s. unfold registerNext. simpl. lia.
Qed.
Lemma registerAll_spec fed ds : forall st, ledger_ok fed st -> room fed st ds -> (forall d, d ∈ ds -> registrable fed st d) ->
  let (st', ts) := registerAll fed st ds in
  ledger_ok fed st' /\ Forall2 identified ds ts /\ (forall t, t ∈ ts -> owed fed st' t) /\ extends fed st st' /\
  forall h, lastID (callbackSession st' fed h) = lastID (callbackSession st fed h) + countFor h ds.
Proof.
  induction ds as [|d ds IH]; intros st Hl Hroom Hd.
  - simpl. split_and!; [done|constructor|intros t []%elem_of_nil|done|]. intros h. unfold countFor, zlen. simpl. lia.
  - cbn [registerAll]. pose proof (registerOne_spec fed st d ds Hl Hroom (Hd d ltac:(by left))) as H1.
    destruct (registerOne fed st d) as [st1 t]. destruct H1 as (Hl1 & Hr1 & Hi1 & Ho1 & He1 & Hn1).
    specialize (IH st1 Hl1 Hr1). destruct (registerAll fed st1 ds) as [st2 ts]. destruct IH as (Hl2 & Hi2 & Ho2 & He2 & Hn2).
    { intros x Hx. destruct (Hd x ltac:(by right)) as [? Hp]. split; [done|]. by destruct (He1 (Recipient x)) as [-> _]. }
    split_and!.
    + done.
    + by constructor.
    + intros x [->|Hx]%elem_of_cons; [by eapply extends_owed|by apply Ho2].
    + by eapply extends_trans.
    + intros h. rewrite Hn2, Hn1. unfold countFor. destruct (decide (Recipient d = h)); [rewrite filter_cons_True|rewrite filter_cons_False]; try done; unfold zlen; simpl; lia.
Qed.
Lemma countFor_normalize h ds : countFor h (map normalizeDelivery ds) = countFor h ds.
Proof.
  unfold countFor, zlen. induction ds as [|d ds IH]; [done|]. cbn [map].
  destruct (decide (Recipient d = h)); [rewrite !filter_cons_True by done|rewrite !filter_cons_False by done; done]. cbn [length]. lia.
Qed.
Lemma registerTerminal_spec opts fed st ds st' ts : ledger_ok fed st -> (forall d, d ∈ ds -> deliverable fed st d) ->
  registerTerminalCallbacks opts fed st ds = Ret (st', ts) ->
  ledger_ok fed st' /\ Forall2 (fun d t => identified (normalizeDelivery d) t) ds ts /\ (forall t, t ∈ ts -> owed fed st' t) /\
  extends fed st st' /\ forall h, lastID (callbackSession st' fed h) = lastID (callbackSession st fed h) + countFor h ds.
Proof.
  intros Hl Hd H. unfold registerTerminalCallbacks in H. bind_inv H. injection H as H.
  destruct (validate_room _ _ _ _ _ Hl Hr) as [Hroom Hv].
  pose proof (registerAll_spec fed (map normalizeDelivery ds) st Hl Hroom) as Hspec. rewrite H in Hspec.
  destruct Hspec as (H1 & H2 & H3 & H4 & H5).
  - intros x Hx. pose proof (validateTerminalDelivery_inv x _ (Hv x Hx)) as (V1 & V2 & V3 & V4 & V5 & V6).
    apply list_elem_of_fmap in Hx as (d & -> & Hx). destruct (Hd d Hx) as [Ha Hproj]. split; [done|].
    split_and!; try done. apply sortCompact_NoDup.
  - split_and!; try done.
    + exact (proj1 (Forall2_fmap_l _ _ _ _) H2).
    + intros h. by rewrite H5, countFor_normalize.
Qed.
