(* ===== verification/OwnInvariant.v ===== *)
(** * The consistency of owners, offers and requests

    [own_wf]: an offered attribute is owned by its divester, nobody has a
    pending request for what it owns, and an unowned offer concerns an unowned
    attribute.  Every change of an ownership service, of a resignation, of an
    unpublication and of a deletion keeps it ([own_reachable_wf]). *)
From stdpp Require Import gmap.
From Stdlib Require Import Strings.Byte.
From S2P Require Import Prelude GoBytes Own OwnCallback OwnService OwnLifecycle.
Open Scope Z_scope.

Record own_wf (st : federationState) : Prop := {
  wf_divest : forall k pd, pendingDivests st !! k = Some pd -> owners st !! k = Some (pd_owner pd);
  wf_acquire : forall (k : ownershipKey) h, is_Some (pendingAcquires st !! (k, h)) -> owners st !! k <> Some h;
  wf_offer : forall k, is_Some (unownedOffers st !! k) -> owners st !! k = None;
}.

Lemma new_wf : own_wf newFederationState.
Proof. split; intros *; simpl; rewrite lookup_empty; [done|intros []%is_Some_None|intros []%is_Some_None]. Qed.

(** Callback sessions do not matter. *)
Definition same_maps (st st' : federationState) : Prop :=
  owners st' = owners st /\ pendingDivests st' = pendingDivests st /\ pendingAcquires st' = pendingAcquires st /\
  unownedOffers st' = unownedOffers st.
Lemma same_maps_wf st st' : same_maps st st' -> own_wf st -> own_wf st'.
Proof. intros (E1 & E2 & E3 & E4) [H1 H2 H3]. split; by rewrite ?E1, ?E2, ?E3, ?E4. Qed.
Lemma registerAll_maps fed ds : forall st, same_maps st (registerAll fed st ds).1.
Proof.
  induction ds as [|d ds IH]; intros st; [done|]. simpl.
  match goal with |- context [registerAll fed ?s ds] => specialize (IH s); destruct (registerAll fed s ds) as [st' ds'] end.
  done.
Qed.
Lemma register_maps opts fed st ds st' ts : registerTerminalCallbacks opts fed st ds = Ret (st', ts) -> same_maps st st'.
Proof.
  unfold registerTerminalCallbacks. intros H. bind_inv H. injection H as E.
  pose proof (registerAll_maps fed (map normalizeDelivery ds) st) as M. by rewrite E in M.
Qed.

(** ** The elementary changes *)
Ltac own_simpl := cbn [owners pendingDivests pendingAcquires unownedOffers callbackSessions setOwner dropOwner dropDivest setOffer dropOffer
  setAcquire dropAcquire set_owners set_pendingDivests set_pendingAcquires set_unownedOffers set_callbackSessions giveTo complete_transfer] in *.
Ltac own_case k k' := destruct (decide (k = k')) as [->|]; own_simpl; simplify_map_eq.

Section Elementary.
Implicit Types (st : federationState) (k : ownershipKey).

Lemma dropDivest_wf st k : own_wf st -> own_wf (dropDivest st k).
Proof. intros [H1 H2 H3]. split; own_simpl; [|done|done]. intros k' pd [_ ?]%lookup_delete_Some. by apply H1. Qed.
Lemma dropAcquire_wf st a : own_wf st -> own_wf (dropAcquire st a).
Proof. intros [H1 H2 H3]. split; own_simpl; [done| |done]. intros k' h [_ ?]%lookup_delete_is_Some. by apply H2. Qed.
Lemma dropOffer_wf st k : own_wf st -> own_wf (dropOffer st k).
Proof. intros [H1 H2 H3]. split; own_simpl; [done|done|]. intros k' [_ ?]%lookup_delete_is_Some. by apply H3. Qed.
Lemma setAcquire_wf st k h tag : own_wf st -> owners st !! k <> Some h -> own_wf (setAcquire st (k, h) tag).
Proof.
  intros [H1 H2 H3] Hk. split; own_simpl; [done| |done]. intros k' h' [[= <- <-]|[_ ?]]%lookup_insert_is_Some; [done|by apply H2].
Qed.
Lemma setDivest_wf st k pd : own_wf st -> owners st !! k = Some (pd_owner pd) ->
  own_wf (set_pendingDivests st (<[k := pd]> (pendingDivests st))).
Proof. intros [H1 H2 H3] Hk. split; own_simpl; [|done|done]. intros k' pd' [[<- <-]|[_ ?]]%lookup_insert_Some; [done|by apply H1]. Qed.
Lemma setConfirmation_wf st k b : own_wf st -> is_Some (pendingDivests st !! k) -> own_wf (setConfirmation st k b).
Proof. intros Hw [pd Hp]. unfold setConfirmation. rewrite Hp. apply setDivest_wf; [done|]. by apply (wf_divest _ Hw) in Hp. Qed.
(** The attribute becomes unowned and on offer, its own divestiture over. *)
Lemma offer_wf st k h : own_wf st -> own_wf (dropDivest (setOffer (dropOwner st k) k h) k).
Proof.
  intros [H1 H2 H3]. split; own_simpl.
  - intros k' pd [Hne Hp]%lookup_delete_Some. rewrite lookup_delete_ne by done. by apply H1.
  - intros k' h' Ha. rewrite lookup_delete_Some. intros [? ?]. by apply (H2 k' h').
  - intros k' Hk. apply lookup_delete_None. apply lookup_insert_is_Some in Hk as [->|[_ Hk]]; [by left|right; by apply H3].
Qed.
(** An attribute without a divestiture passes to [w]. *)
Lemma give_wf st k w : own_wf st -> pendingDivests st !! k = None -> own_wf (giveTo st k w).
Proof.
  intros [H1 H2 H3] Hk. split; own_simpl.
  - intros k' pd Hp. rewrite lookup_insert_ne by congruence. by apply H1.
  - intros k' h [Hne Ha]%lookup_delete_is_Some. rewrite lookup_insert_Some. intros [[-> ->]|[_ ?]]; [done|by apply (H2 k' h)].
  - intros k' [Hne Ho]%lookup_delete_is_Some. rewrite lookup_insert_ne by done. by apply H3.
Qed.
Lemma complete_transfer_wf st k w : own_wf st -> is_Some (owners st !! k) -> own_wf (complete_transfer st k w).
Proof.
  intros [H1 H2 H3] [o Ho]. split; own_simpl.
  - intros k' pd [Hne Hp]%lookup_delete_Some. rewrite lookup_insert_ne by done. by apply H1.
  - intros k' h [Hne Ha]%lookup_delete_is_Some. rewrite lookup_insert_Some. intros [[-> ->]|[_ ?]]; [done|by apply (H2 k' h)].
  - intros k' Hk. rewrite lookup_insert_ne; [by apply H3|]. intros ->. apply H3 in Hk. congruence.
Qed.
(** A free attribute is taken. *)
Lemma take_wf st k h : own_wf st -> pendingDivests st !! k = None -> pendingAcquires st !! (k, h) = None ->
  own_wf (dropOffer (setOwner st k h) k).
Proof.
  intros [H1 H2 H3] Hk Ha. split; own_simpl.
  - intros k' pd Hp. rewrite lookup_insert_ne by congruence. by apply H1.
  - intros k' h' Hs. rewrite lookup_insert_Some. intros [[-> ->]|[_ ?]]; [by rewrite Ha in Hs; destruct Hs|by apply (H2 k' h')].
  - intros k' [Hne Ho]%lookup_delete_is_Some. rewrite lookup_insert_ne by done. by apply H3.
Qed.
End Elementary.

(** A loop keeps [P] when each round does, under what the rounds keep. *)
Lemma fold_left_ind {S A} (P : S -> Prop) (f : S -> A -> S) l : forall s,
  P s -> (forall s a, a ∈ l -> P s -> P (f s a)) -> P (fold_left f l s).
Proof.
  induction l as [|a l IH]; intros s Hs Hf; [done|]. simpl. apply IH; [apply Hf; [by left|done]|].
  intros. apply Hf; [by right|done].
Qed.

(** ** The services *)
Lemma checked_wf {A} st (r : outcome own_error (federationState * list post * A)) :
  own_wf st -> (forall st' ps a, r = Ret (st', ps, a) -> own_wf st') -> own_wf (checked st r).1.
Proof. intros Hw H. destruct r as [[[st' ps] a]|e|s]; simpl; [by eapply H|done|done]. Qed.
Lemma validateOwned_inv st obj owner attrs : validateOwnedAttributes st obj owner attrs = Ret tt ->
  forall a, a ∈ attrs -> owners st !! (obj, a) = Some owner.
Proof.
  unfold validateOwnedAttributes. destruct (forallb _ _) eqn:E; [|done]. intros _ a Ha.
  rewrite forallb_forall in E. apply list_elem_of_In in Ha. apply E in Ha. by apply bool_decide_eq_true in Ha.
Qed.

Section Services.
Context (opts : Options) (env : Environment).

Lemma unconditionalDivest_wf fed owner obj attrs st : own_wf st -> own_wf (unconditionalDivestChange opts fed owner obj attrs st).1.
Proof.
  intros Hw. apply checked_wf; [done|]. intros st' ps a H. bind_inv H. bind_inv H. destruct r0 as [trs unowned]. bind_inv H.
  destruct r0 as [st1 ts]. injection H as <- _.
  assert (forall tr, tr ∈ trs -> tr_attr tr ∈ attrs) as Hin.
  { clear -Hr0. revert trs unowned Hr0. induction attrs as [|x attrs IH]; intros trs unowned Hr; simpl in Hr.
    - injection Hr as <- <-. intros tr []%elem_of_nil.
    - destruct (_ && _); [done|]. bind_inv Hr. destruct r as [trs' un']. destruct (_ =? _) in Hr; injection Hr as <- <-.
      + intros tr Htr. right. by eapply IH.
      + intros tr [->|Htr]%elem_of_cons; [by left|right; by eapply IH]. }
  apply (same_maps_wf _ _ (register_maps _ _ _ _ _ _ Hr1)) in Hw.
  set (st2 := fold_left _ attrs st1). assert (own_wf st2 /\ forall a, a ∈ attrs -> pendingDivests st2 !! (obj, a) = None) as [Hw2 Hd2].
  { subst st2. clear Hin. clear -Hw. revert st1 Hw.
    induction attrs as [|x attrs IH] using rev_ind; intros st1 Hw; [split; [done|intros a []%elem_of_nil]|].
    rewrite fold_left_app. simpl. destruct (IH st1 Hw) as [Hw' Hd]. split; [by apply offer_wf|].
    intros a Ha. own_simpl. destruct (decide (a = x)) as [->|Hne]; [apply lookup_delete_eq|].
    rewrite lookup_delete_ne by congruence. apply Hd. apply elem_of_app in Ha as [?|?%list_elem_of_singleton]; done. }
  apply (fold_left_ind (fun s => own_wf s /\ forall a, a ∈ attrs -> pendingDivests s !! (obj, a) = None)); [done|].
  intros s tr Htr [Hs Hd]. split; [|done]. apply give_wf; [done|]. by apply Hd, Hin.
Qed.

(** Completing transfers of owned attributes. *)
Lemma completions_wf {A} (attr : A -> AttributeHandle) (winner : A -> FederateHandle) obj l st :
  own_wf st -> (forall x, x ∈ l -> is_Some (owners st !! (obj, attr x))) ->
  own_wf (fold_left (fun st x => complete_transfer st (obj, attr x) (winner x)) l st).
Proof.
  intros Hw Ho. apply (fold_left_ind (fun s => own_wf s /\ forall x, x ∈ l -> is_Some (owners s !! (obj, attr x)))); [done|].
  intros s x Hx [Hs Hd]. split; [by apply complete_transfer_wf; [|apply Hd]|]. intros y Hy. own_simpl.
  rewrite lookup_insert_is_Some. destruct (decide ((obj, attr x) = (obj, attr y))); [by left|right]. split; [done|by apply Hd].
Qed.
Lemma completionsOf_in fed phase st owner obj attrs c :
  c ∈ completionsOf opts fed phase st owner obj attrs -> pc_attr c ∈ attrs /\ acquirePending st obj (pc_attr c) (pc_acquirer c) = true.
Proof.
  unfold completionsOf, queuedWinner. rewrite list_elem_of_omap. intros (a & Ha & Hc).
  destruct (_ && _) eqn:E; [|done]. injection Hc as <-. simpl. by apply andb_true_iff in E as [_ ?].
Qed.
Lemma checkDivests_inv st owner obj attrs : checkDivests st owner obj attrs = Ret tt ->
  forall a, a ∈ attrs -> owners st !! (obj, a) = Some owner /\ pendingDivests st !! (obj, a) = None.
Proof.
  induction attrs as [|x attrs IH]; simpl; [intros _ a []%elem_of_nil|]. unfold ownedBy.
  case_bool_decide as Ho; [|done]. case_bool_decide as Hp; [done|]. intros H a [->|Ha]%elem_of_cons; [|by apply IH].
  split; [done|]. destruct (pendingDivests st !! (obj, x)) eqn:E; [|done]. destruct Hp. done.
Qed.
Lemma negotiatedDivest_wf fed owner obj attrs tag two st : own_wf st -> own_wf (negotiatedDivestChange opts fed owner obj attrs tag two st).1.
Proof.
  intros Hw. apply checked_wf; [done|]. intros st' ps a H. bind_inv H. destruct r as [[st0 cs] ts]. injection H as <- _.
  unfold recordPendingDivest in Hr. bind_inv Hr. bind_inv Hr. destruct r0 as [st1 ts']. injection Hr as <- <- _. destruct r.
  pose proof (checkDivests_inv _ _ _ _ Hr0) as Ho. set (cs := completionsOf _ _ _ _ _ _ _).
  assert (same_maps st st1) as Hm by (destruct two; [by injection Hr1 as <- _|by eapply register_maps]).
  pose proof (same_maps_wf _ _ Hm Hw) as Hw1. destruct Hm as (Eo & _).
  set (st2 := fold_left _ attrs st1).
  assert (own_wf st2 /\ owners st2 = owners st1 /\ forall a, a ∈ attrs -> is_Some (pendingDivests st2 !! (obj, a))) as (Hw2 & Eo2 & Hd2).
  { subst st2. clear -Hw1 Ho Eo. induction attrs as [|x attrs IH] using rev_ind; [split_and!; try done; intros a []%elem_of_nil|].
    rewrite fold_left_app. simpl. destruct IH as (Hw' & Eo' & Hd'); [intros a Ha; apply Ho; set_solver|]. split_and!.
    - apply setDivest_wf; [done|]. simpl. rewrite Eo', Eo. apply Ho. set_solver.
    - done.
    - intros a Ha. own_simpl. rewrite lookup_insert_is_Some. destruct (decide ((obj, x) = (obj, a))) as [|Hne]; [by left|right].
      split; [done|]. apply Hd'. apply elem_of_app in Ha as [?|?%list_elem_of_singleton]; [done|]. congruence. }
  assert (forall c, c ∈ cs -> pc_attr c ∈ attrs) as Hc by (intros c Hc; by apply completionsOf_in in Hc as [? _]).
  destruct two.
  - apply (fold_left_ind (fun s => own_wf s /\ forall a, a ∈ attrs -> is_Some (pendingDivests s !! (obj, a)))); [done|].
    intros s c Hin [Hs Hd]. destruct (Hd _ (Hc c Hin)) as [pd Ep]. split; [by apply setConfirmation_wf|].
    intros b Ha. unfold setConfirmation. rewrite Ep. own_simpl. rewrite lookup_insert_is_Some.
    destruct (decide ((obj, pc_attr c) = (obj, b))); [by left|right; split; [done|by apply Hd]].
  - apply completions_wf; [done|]. intros c Hin. rewrite Eo2, Eo. destruct (Ho _ (Hc c Hin)) as [-> _]. done.
Qed.
Lemma confirmWinners_in fed st owner obj attrs : forall acc winners, confirmWinners opts fed st owner obj attrs acc = Ret winners ->
  forall a w, winners !! a = Some w -> acc !! a = Some w \/ (a ∈ attrs /\ acquirePending st obj a w = true).
Proof.
  induction attrs as [|x attrs IH]; intros acc winners H a w Hw; simpl in H; [injection H as <-; by left|].
  destruct (queuedWinner _ _ _ _ _ _ _) as [w'|] eqn:E; [|done]. destruct (IH _ _ H a w Hw) as [Hi|[? ?]]; [|right; split; [by right|done]].
  apply lookup_insert_Some in Hi as [[-> ->]|[_ ?]]; [|by left]. right. split; [by left|].
  unfold queuedWinner in E. destruct (_ && _) eqn:E'; [|done]. injection E as <-. by apply andb_true_iff in E' as [_ ?].
Qed.
Lemma confirmDivestiture_wf fed owner obj attrs tag st : own_wf st -> own_wf (confirmDivestitureChange opts fed owner obj attrs tag st).1.
Proof.
  intros Hw. unfold confirmDivestitureChange. destruct (validateOwnedAttributes _ _ _ _) as [[]| |] eqn:Hv; [|done|done].
  destruct (checkConfirmable _ _ _ _) as [[]| |] eqn:Hcc; [|done|done].
  destruct (waitingAttrs st obj attrs) as [|x l] eqn:Ew.
  - apply checked_wf; [done|]. intros st' ps u H. bind_inv H. bind_inv H. destruct r0 as [st1 ts]. injection H as <- _.
    pose proof (register_maps _ _ _ _ _ _ Hr0) as Hm. apply completions_wf; [by eapply same_maps_wf|].
    intros [a w] Haw%elem_of_map_to_list. simpl. destruct Hm as [-> _].
    destruct (confirmWinners_in _ _ _ _ _ _ _ Hr a w Haw) as [E|[Ha _]]; [by rewrite lookup_empty in E|].
    by rewrite (validateOwned_inv _ _ _ _ Hv a Ha).
  - rewrite <- Ew. cbn [fst].
    assert (forall a, a ∈ waitingAttrs st obj attrs -> is_Some (pendingDivests st !! (obj, a))) as Hp.
    { intros a [_ Ha]%list_elem_of_filter. clear -Hcc Ha. induction attrs as [|y attrs IH]; [by apply elem_of_nil in Ha|]. simpl in Hcc.
      destruct (pendingDivests st !! (obj, y)) as [pd|] eqn:E; [|done]. destruct (_ || _); [done|].
      apply elem_of_cons in Ha as [->|Ha]; [done|by apply IH]. }
    clear Ew.
    apply (fold_left_ind (fun s => own_wf s /\ forall a, a ∈ waitingAttrs st obj attrs -> is_Some (pendingDivests s !! (obj, a)))); [done|].
    intros s a Ha [Hs Hd]. destruct (Hd _ Ha) as [pd Ep]. split; [by apply setConfirmation_wf|].
    intros a' Ha'. unfold setConfirmation. rewrite Ep. own_simpl. rewrite lookup_insert_is_Some.
    destruct (decide ((obj, a) = (obj, a'))); [by left|right; split; [done|by apply Hd]].
Qed.

(** *** Acquisition *)
Lemma classify_in fed acquirer obj ifav st attrs : forall cls, classify opts fed acquirer obj ifav st attrs = Ret cls ->
  forall a o, (a, o) ∈ cls -> a ∈ attrs /\ classifyAttribute opts fed acquirer obj ifav st a = Ret o.
Proof.
  induction attrs as [|x attrs IH]; simpl; intros cls H a o Ha; [injection H as <-; by apply elem_of_nil in Ha|].
  bind_inv H. bind_inv H. injection H as <-. apply elem_of_cons in Ha as [[= -> ->]|Ha]; [by split; [left|]|].
  destruct (IH _ Hr0 a o Ha). by split; [right|].
Qed.
(** What the classes say of the state. *)
Lemma classify_spec fed acquirer obj ifav st a o : classifyAttribute opts fed acquirer obj ifav st a = Ret o ->
  owners st !! (obj, a) <> Some acquirer /\
  match o with
  | acquireReady owner => exists pd, pendingDivests st !! (obj, a) = Some pd /\ owner = pd_owner pd /\ twoPhase pd = false /\
                                     pendingAcquires st !! (obj, a, acquirer) = None
  | acquireUnowned => owners st !! (obj, a) = None /\ pendingDivests st !! (obj, a) = None /\ pendingAcquires st !! (obj, a, acquirer) = None
  | acquireQueue owner => ifav = false /\ owner = owners st !! (obj, a) /\ pendingAcquires st !! (obj, a, acquirer) = None
  | acquireConfirm owner => ifav = false /\ pendingAcquires st !! (obj, a, acquirer) = None /\
                            exists pd, pendingDivests st !! (obj, a) = Some pd /\ owner = pd_owner pd /\ twoPhase pd = true
  | acquireRepeat => ifav = false /\ is_Some (pendingAcquires st !! (obj, a, acquirer))
  | acquireUnavailable => owners st !! (obj, a) = Some rtiHandle \/ ifav = true
  end.
Proof.
  unfold classifyAttribute, ownedBy, acquirePending.
  case_bool_decide as Ho; [done|]. case_bool_decide as Hr; [intros [= <-]; by split; [|left]|].
  case_bool_decide as Ha; [destruct ifav; [done|]; intros [= <-]; done|].
  assert (pendingAcquires st !! (obj, a, acquirer) = None) as Ha' by (by apply eq_None_not_Some).
  destruct (pendingDivests st !! (obj, a)) as [pd|] eqn:Ep.
  - destruct (twoPhase pd) eqn:Et; [|destruct (_ =? _)].
    + destruct ifav; intros [= <-]; split; try done; [by right|]. split_and!; try done. by exists pd.
    + intros [= <-]. split; [done|]. by exists pd.
    + destruct ifav; intros [= <-]; split; try done. by right.
  - case_bool_decide as Hn; [intros [= <-]; done|]. destruct ifav; intros [= <-]; split; try done. by right.
Qed.
Lemma readyAttrs_in cls p : p ∈ readyAttrs cls -> (p.1, acquireReady p.2) ∈ cls.
Proof. unfold readyAttrs. rewrite list_elem_of_omap. intros ([a []] & Hin & Ho); simpl in Ho; try done. by injection Ho as <-. Qed.
Lemma fromUnownedAttrs_in cls a : a ∈ fromUnownedAttrs cls -> (a, acquireUnowned) ∈ cls.
Proof. unfold fromUnownedAttrs. rewrite list_elem_of_omap. intros ([a' []] & Hin & Ho); simpl in Ho; try done. by injection Ho as <-. Qed.
Lemma queueAttrs_in cls a : a ∈ queueAttrs cls -> exists o, (a, o) ∈ cls /\ (exists h, o = acquireQueue h) \/ (a, o) ∈ cls /\ exists h, o = acquireConfirm h.
Proof.
  unfold queueAttrs. rewrite list_elem_of_omap. intros ([a' []] & Hin & Ho); simpl in Ho; try done; injection Ho as <-; eauto 6.
Qed.
Lemma confirmByOwner_in cls p : p ∈ confirmByOwner cls -> (p.1, acquireConfirm p.2) ∈ cls.
Proof. unfold confirmByOwner. rewrite list_elem_of_omap. intros ([a []] & Hin & Ho); simpl in Ho; try done. by injection Ho as <-. Qed.

(** The four loops of an acquisition, and what each leaves. *)
Definition takeUnowned acquirer obj cls st :=
  fold_left (fun st a => dropOffer (setOwner st (obj, a) acquirer) (obj, a)) (fromUnownedAttrs cls) st.
Definition queueRequests acquirer obj tag cls st :=
  fold_left (fun st a => setAcquire st (obj, a, acquirer) tag) (queueAttrs cls) st.
Definition askConfirmation obj cls st :=
  fold_left (fun st (p : AttributeHandle * FederateHandle) => setConfirmation st (obj, p.1) true) (confirmByOwner cls) st.
Lemma takeUnowned_spec acquirer obj cls st :
  let st' := takeUnowned acquirer obj cls st in
  pendingDivests st' = pendingDivests st /\ pendingAcquires st' = pendingAcquires st /\
  (forall k, owners st' !! k = if decide (k.1 = obj /\ k.2 ∈ fromUnownedAttrs cls) then Some acquirer else owners st !! k) /\
  (own_wf st -> (forall a, a ∈ fromUnownedAttrs cls -> pendingDivests st !! (obj, a) = None /\ pendingAcquires st !! (obj, a, acquirer) = None) -> own_wf st').
Proof.
  unfold takeUnowned. induction (fromUnownedAttrs cls) as [|x l IH] using rev_ind.
  - simpl. split_and!; try done. intros k. rewrite decide_False; [done|]. set_solver.
  - rewrite fold_left_app. destruct IH as (E1 & E2 & E3 & E4). cbv zeta. cbn [fold_left]. own_simpl. split_and!; try done.
    + intros [o a]. simpl. destruct (decide ((obj, x) = (o, a))) as [Eq|Hne].
      * injection Eq as <- <-. rewrite lookup_insert_eq. rewrite decide_True; [done|]. split; [done|]. set_solver.
      * rewrite lookup_insert_ne by done. rewrite E3. simpl. apply decide_ext. rewrite elem_of_app, list_elem_of_singleton.
        split; [tauto|]. intros [-> [?| ->]]; [done|congruence].
    + intros Hw Hx. apply take_wf; [apply E4; [done|]| |]; [intros a Ha; apply Hx; set_solver|rewrite E1|rewrite E2]; apply Hx; set_solver.
Qed.
Lemma queueRequests_spec acquirer obj tag cls st :
  let st' := queueRequests acquirer obj tag cls st in
  pendingDivests st' = pendingDivests st /\ owners st' = owners st /\
  (own_wf st -> (forall a, a ∈ queueAttrs cls -> owners st !! (obj, a) <> Some acquirer) -> own_wf st').
Proof.
  unfold queueRequests. induction (queueAttrs cls) as [|x l IH] using rev_ind; [done|].
  rewrite fold_left_app. destruct IH as (E1 & E2 & E4). cbv zeta. cbn [fold_left]. split_and!; try done.
  intros Hw Hx. apply setAcquire_wf; [apply E4; [done|]|rewrite E2]; [intros a Ha|]; apply Hx; set_solver.
Qed.
Lemma askConfirmation_spec obj cls st : (forall p, p ∈ confirmByOwner cls -> is_Some (pendingDivests st !! (obj, p.1))) ->
  let st' := askConfirmation obj cls st in
  owners st' = owners st /\ pendingAcquires st' = pendingAcquires st /\
  (forall k, is_Some (pendingDivests st' !! k) <-> is_Some (pendingDivests st !! k)) /\ (own_wf st -> own_wf st').
Proof.
  unfold askConfirmation. induction (confirmByOwner cls) as [|x l IH] using rev_ind; [done|]. intros Hp.
  rewrite fold_left_app. destruct IH as (E1 & E2 & E3 & E4); [intros p Hp'; apply Hp; set_solver|]. cbv zeta. cbn [fold_left].
  match goal with |- context [setConfirmation ?s _ _] => set (s1 := s) in * end.
  assert (is_Some (pendingDivests s1 !! (obj, x.1))) as Hs by (apply E3, Hp; set_solver).
  split_and!.
  - unfold setConfirmation. destruct (_ !! _); done.
  - unfold setConfirmation. destruct (_ !! _); done.
  - intros k. rewrite <- E3. unfold setConfirmation. destruct Hs as [pd Ep]. rewrite Ep. own_simpl. rewrite lookup_insert_is_Some.
    destruct (decide ((obj, x.1) = k)) as [<-|]; [rewrite Ep|]; naive_solver.
  - intros Hw. apply setConfirmation_wf; [by apply E4|done].
Qed.
Lemma acquire_wf fed acquirer obj attrs tag ifav st : own_wf st -> own_wf (acquireChange opts fed acquirer obj attrs tag ifav st).1.
Proof.
  intros Hw. apply checked_wf; [done|]. intros st' ps u H. bind_inv H. bind_inv H. destruct r0 as [st0 ts]. injection H as <- _.
  pose proof (register_maps _ _ _ _ _ _ Hr0) as Hm. pose proof (same_maps_wf _ _ Hm Hw) as Hw0. destruct Hm as (Eo & Ed & Ea & _).
  assert (forall a o, (a, o) ∈ r -> classifyAttribute opts fed acquirer obj ifav st a = Ret o) as Hc
    by (intros a o Hao; by apply (classify_in _ _ _ _ _ _ _ Hr) in Hao as [_ ?]).
  change (own_wf (fold_left (fun st p => complete_transfer st (obj, fst p) acquirer) (readyAttrs r)
    (askConfirmation obj r (queueRequests acquirer obj tag r (takeUnowned acquirer obj r st0))))).
  destruct (takeUnowned_spec acquirer obj r st0) as (T1 & T2 & T3 & T4). set (st1 := takeUnowned _ _ _ _) in *.
  destruct (queueRequests_spec acquirer obj tag r st1) as (Q1 & Q2 & Q4). set (st2 := queueRequests _ _ _ _ _) in *.
  assert (forall a o, (a, o) ∈ r -> o <> acquireUnowned -> owners st1 !! (obj, a) = owners st !! (obj, a)) as Hkeep.
  { intros a o Hao Hne. rewrite T3, Eo. rewrite decide_False; [done|]. intros [_ Hu%fromUnownedAttrs_in].
    apply Hc in Hao, Hu. simpl in *; congruence. }
  destruct (askConfirmation_spec obj r st2) as (A1 & A2 & A3 & A4).
  { intros p Hp%confirmByOwner_in%Hc%classify_spec. rewrite Q1, T1, Ed. destruct Hp as (_ & _ & _ & pd & -> & _). done. }
  set (st3 := askConfirmation _ _ _) in *.
  apply (completions_wf fst (fun _ => acquirer)).
  - apply A4, Q4; [apply T4; [done|]|].
    + intros a Ha%fromUnownedAttrs_in%Hc%classify_spec. rewrite Ed, Ea. tauto.
    + intros a (o & Hq)%queueAttrs_in. assert ((a, o) ∈ r /\ o <> acquireUnowned) as [Hin Hne] by (destruct Hq as [[? [? ->]]|[? [? ->]]]; done).
      rewrite (Hkeep a o) by done. by apply Hc, classify_spec in Hin as [? _].
  - intros p Hp%readyAttrs_in. rewrite A1, Q2, (Hkeep _ _ Hp) by done. apply Hc, classify_spec in Hp as (_ & pd & Hpd & _).
    apply (wf_divest _ Hw) in Hpd. by rewrite Hpd.
Qed.
Lemma cancelDivest_wf owner obj attrs st : own_wf st -> own_wf (cancelDivestChange owner obj attrs st).1.
Proof.
  intros Hw. apply checked_wf; [done|]. intros st' ps u H. bind_inv H. bind_inv H. injection H as <- _.
  apply fold_left_ind; [done|]. intros. by apply dropDivest_wf.
Qed.
Lemma cancelAcquire_wf fed acquirer obj attrs st : own_wf st -> own_wf (cancelAcquireChange opts fed acquirer obj attrs st).1.
Proof.
  intros Hw. apply checked_wf; [done|]. intros st' ps u H.
  destruct (existsb _ _); [done|]. destruct (negb (forallb _ _)); [done|]. cbv zeta in H. bind_inv H.
  destruct r as [st1 ts]. injection H as <- _. apply fold_left_ind; [|intros; by apply dropAcquire_wf].
  destruct (_ && negb _) in Hr; [by eapply same_maps_wf; [eapply register_maps|]|by injection Hr as <- _].
Qed.
Lemma divestIfWanted_wf fed owner obj attrs st : own_wf st -> own_wf (divestIfWantedChange opts fed owner obj attrs st).1.
Proof.
  intros Hw. apply checked_wf; [done|]. intros st' ps u H. bind_inv H. bind_inv H. destruct r0 as [st1 ts]. injection H as <- _.
  pose proof (register_maps _ _ _ _ _ _ Hr0) as Hm. destruct r. apply completions_wf; [by eapply same_maps_wf|].
  intros c Hc. apply completionsOf_in in Hc as [Hc _]. destruct Hm as [-> _]. by rewrite (validateOwned_inv _ _ _ _ Hr _ Hc).
Qed.
End Services.
