(* ===== verification/OwnReachable.v ===== *)
(** * Reachable ownership states

    The life-cycle operations keep [own_wf] too; a service runs its reports
    after the change, and these touch only callback sessions.  [own_step] is the
    interleaving of all operations on the manager, [own_reachable_wf] the
    invariant of what they reach. *)
From stdpp Require Import gmap.
From Stdlib Require Import Strings.Byte.
From S2P Require Import Prelude GoBytes Own OwnCallback OwnService OwnLifecycle OwnWindow OwnInvariant.
Open Scope Z_scope.

(** ** Objects that go *)
Lemma dropObject_wf st gone : own_wf st -> own_wf (dropObject st gone).
Proof.
  intros [H1 H2 H3]. split; own_simpl; simpl.
  - intros k pd [Hp Hk]%map_lookup_filter_Some. apply map_lookup_filter_Some. split; [by apply H1|done].
  - intros k h [t [Ht Hk]%map_lookup_filter_Some] [Ho _]%map_lookup_filter_Some. by apply (H2 k h).
  - intros k [t [Ht Hk]%map_lookup_filter_Some]. apply map_lookup_filter_None. left. by apply H3.
Qed.
Lemma fresh_take_wf st obj attrs owner : own_wf st ->
  (forall a, pendingDivests st !! (obj, a) = None /\ pendingAcquires st !! (obj, a, owner) = None) ->
  own_wf (fold_left (fun st a => dropOffer (setOwner st (obj, a) owner) (obj, a)) attrs st).
Proof.
  intros Hw Hf. apply (fold_left_ind (fun s => own_wf s /\ forall a, pendingDivests s !! (obj, a) = None /\ pendingAcquires s !! (obj, a, owner) = None)); [done|].
  intros s a _ [Hs Hd]. split; [|done]. by apply take_wf; [|apply Hd..].
Qed.
Lemma reconstitute_wf st obj (captured : gmap AttributeHandle FederateHandle) : own_wf st ->
  own_wf (fold_left (fun st ah => if ah.2 =? InvalidFederateHandle then st else setOwner st (obj, ah.1) ah.2) (map_to_list captured) (dropObject st (Z.eqb obj))).
Proof.
  intros Hw.
  apply (fold_left_ind (fun s => own_wf s /\ forall a, pendingDivests s !! (obj, a) = None /\ (forall h, pendingAcquires s !! (obj, a, h) = None) /\ unownedOffers s !! (obj, a) = None)).
  - split; [by apply dropObject_wf|]. intros a. simpl. split_and!; [|intros h|]; apply map_lookup_filter_None; right; intros x _; simpl; by rewrite Z.eqb_refl.
  - intros s [a h] _ [[H1 H2 H3] Hd]. simpl. destruct (h =? InvalidFederateHandle); [done|]. split; [|done]. destruct (Hd a) as (Da & Db & Dc). split; own_simpl.
    + intros k pd Hp. rewrite lookup_insert_ne by congruence. by apply H1.
    + intros k x Hx. rewrite lookup_insert_Some. intros [[<- ->]|[_ ?]]; [by rewrite Db in Hx; destruct Hx|by apply (H2 k x)].
    + intros k Hk. rewrite lookup_insert_ne; [by apply H3|]. intros <-. rewrite Dc in Hk. by destruct Hk.
Qed.
Lemma cancelPending_wf st h : own_wf st ->
  own_wf (set_pendingAcquires (set_pendingDivests st (filter (fun kp => pd_owner kp.2 <> h) (pendingDivests st)))
    (filter (fun kt : acquireKey * list byte => kt.1.2 <> h) (pendingAcquires st))).
Proof.
  intros [H1 H2 H3]. split; own_simpl; [| |done].
  - intros k pd [Hp _]%map_lookup_filter_Some. by apply H1.
  - intros k x [t [Ht _]%map_lookup_filter_Some]. by apply H2.
Qed.
Lemma acquirersOf_in st obj attr h : h ∈ acquirersOf st obj attr <-> is_Some (pendingAcquires st !! (obj, attr, h)).
Proof.
  unfold acquirersOf. rewrite list_elem_of_fmap. setoid_rewrite list_elem_of_filter. setoid_rewrite elem_of_elements. setoid_rewrite elem_of_dom.
  split; [intros ([k x] & -> & E & Hs); simpl in *; by subst|]. intros Hs. by exists (obj, attr, h).
Qed.
Lemma queuedAcquirers_in st obj attr h : h ∈ queuedAcquirers st obj attr <-> is_Some (pendingAcquires st !! (obj, attr, h)).
Proof. unfold queuedAcquirers, sortHandles. rewrite merge_sort_Permutation. apply acquirersOf_in. Qed.
Lemma mom_wf st k target : own_wf st -> validateMOMOwnership st k target true = Ret tt -> own_wf (dropOffer (setOwner st k target) k).
Proof.
  intros Hw. unfold validateMOMOwnership. destruct (_ =? rtiHandle); [done|]. case_bool_decide as Hd; [done|].
  case_bool_decide as Ha; [|done]. simpl. intros _. apply take_wf; [done|by apply eq_None_not_Some|].
  destruct (pendingAcquires st !! (k, target)) eqn:E; [|done]. destruct k as [o a].
  assert (target ∈ acquirersOf st o a) as Hin by (apply acquirersOf_in; by rewrite E). simpl in Ha. rewrite Ha in Hin. by apply elem_of_nil in Hin.
Qed.
Lemma mom_drop_wf st k target : own_wf st -> validateMOMOwnership st k target false = Ret tt -> own_wf (dropOwner st k).
Proof.
  intros [H1 H2 H3]. unfold validateMOMOwnership. destruct (_ =? rtiHandle); [done|]. case_bool_decide as Hd; [done|]. intros _. split; own_simpl.
  - intros k' pd Hp. rewrite lookup_delete_ne; [by apply H1|]. intros <-. by destruct Hd.
  - intros k' h Hs [_ ?]%lookup_delete_Some. by apply (H2 k' h).
  - intros k' Hk. apply lookup_delete_None. right. by apply H3.
Qed.
Lemma validateMOM_unit st k target b u : validateMOMOwnership st k target b = Ret u -> validateMOMOwnership st k target b = Ret tt.
Proof. by destruct u. Qed.

(** ** Resignation

    While a resignation of [h] that deletes [gone] is being applied, the
    invariant holds of what will remain. *)
Definition resign_wf (gone : list ObjectHandle) (h : FederateHandle) (st : federationState) : Prop :=
  (forall k pd, pendingDivests st !! k = Some pd -> k.1 ∉ gone -> pd_owner pd <> h -> owners st !! k = Some (pd_owner pd)) /\
  (forall (k : ownershipKey) x, is_Some (pendingAcquires st !! (k, x)) -> k.1 ∉ gone -> x <> h -> owners st !! k <> Some x) /\
  (forall k, is_Some (unownedOffers st !! k) -> k.1 ∉ gone -> owners st !! k = None).
Lemma removePending_wf st h gone : resign_wf gone h st -> own_wf (removePendingResignState st h gone).
Proof.
  intros (H1 & H2 & H3). split; simpl.
  - intros k pd [Hp [? ?]]%map_lookup_filter_Some. by apply H1.
  - intros k x [t [Ht [? ?]]%map_lookup_filter_Some]. by apply H2.
  - intros k. rewrite lookup_fmap, fmap_is_Some. intros [d [Hd ?]%map_lookup_filter_Some]. by apply H3; [rewrite Hd|].
Qed.
Lemma ownedKeys_in st keep k : k ∈ ownedKeys st keep -> exists o, owners st !! k = Some o /\ keep k o = true.
Proof.
  unfold ownedKeys. rewrite merge_sort_Permutation, list_elem_of_filter. destruct (owners st !! k) as [o|]; [|by intros []].
  intros [? _]. by exists o.
Qed.
Section Plans.
Context (opts : Options) (env : Environment).

Lemma prepareResignTransfers_in fed st h ks : forall ts ds, prepareResignTransfers opts fed st h ks = Ret (ts, ds) ->
  forall k w, (k, w) ∈ ts -> k ∈ ks /\ (w = InvalidFederateHandle \/ (w <> h /\ is_Some (pendingAcquires st !! (k, w)))).
Proof.
  induction ks as [|x ks IH]; simpl; intros ts ds H k w Hk; [injection H as <- _; by apply elem_of_nil in Hk|].
  bind_inv H. destruct r as [w' ds']. bind_inv H. destruct r as [ts' ds'']. injection H as <- _.
  apply elem_of_cons in Hk as [[= -> ->]|Hk]; [|destruct (IH _ _ Hr0 k w Hk); split; [by right|done]].
  split; [by left|]. unfold prepareResignTransfer in Hr. destruct (_ =? _) eqn:E in Hr; [injection Hr as <- _; left; by apply Z.eqb_eq in E|].
  destruct (bool_decide _) eqn:Hin in Hr; [|done]. apply bool_decide_eq_true in Hin. simpl in Hr. injection Hr as <- _. right.
  apply list_elem_of_filter in Hin as [? Hq]. split; [done|]. destruct x as [o a]. by apply queuedAcquirers_in in Hq.
Qed.
(** A plan of [PrepareResign] on [st]: whom and what it is about. *)
Definition plan_for (st : federationState) (h : FederateHandle) (gone : list ObjectHandle) (p : ResignPlan) : Prop :=
  pl_h p = h /\ deleted p = gone /\
  forall k w, (k, w) ∈ transfers p -> k.1 ∉ gone /\ owners st !! k = Some h /\
    (w = InvalidFederateHandle \/ (w <> h /\ is_Some (pendingAcquires st !! (k, w)))).
Lemma PrepareResign_inv st fed h action gone p : PrepareResign opts (Some st) fed h action gone = Ret p ->
  exists ts ds, prepareResignTransfers opts fed st h (ownedKeys st (fun k owner => (owner =? h) && negb (bool_decide (k.1 ∈ gone)))) = Ret (ts, ds) /\
    p = Build_ResignPlan h gone ts ds (prepareDeletionCallbacks st h gone) ∅.
Proof.
  unfold PrepareResign. intros H.
  assert (exists cancel divest, (_ ← validateResignAcquisitions st h cancel;
        let dels := prepareDeletionCallbacks st h gone in
        let owned := ownedKeys st (fun k owner => (owner =? h) && negb (bool_decide (k.1 ∈ gone))) in
        if negb divest && negb (bool_decide (owned = [])) then Fail ErrFederateOwnsAttributes
        else
          r ← prepareResignTransfers opts fed st h owned;
          let (ts, ds) := (r : list (ownershipKey * FederateHandle) * list (bool * OutboxDelivery)) in
          let p := Build_ResignPlan h gone ts ds dels ∅ in
          _ ← validateTerminalCallbacks opts st (terminalDeliveries p);
          Ret p) = Ret p) as (cancel & divest & H') by (destruct action; try done;
    [exists false, true|exists false, false|exists true, false|exists false, true|exists true, true|exists false, false]; exact H).
  clear H. bind_inv H'. destruct (_ && _) in H'; [done|]. bind_inv H'. destruct r0 as [ts ds]. bind_inv H'. injection H' as <-. eauto.
Qed.
Lemma PrepareResign_plan st fed h action gone p : PrepareResign opts (Some st) fed h action gone = Ret p -> plan_for st h gone p.
Proof.
  intros (ts & ds & Hr & ->)%PrepareResign_inv. split; [done|]. split; [done|]. simpl. intros k w Hk.
  destruct (prepareResignTransfers_in _ _ _ _ _ _ Hr k w Hk) as [Hin Hw].
  apply ownedKeys_in in Hin as (o & Ho & Hkeep). apply andb_true_iff in Hkeep as [Hoh Hg]. apply Z.eqb_eq in Hoh. subst o.
  apply negb_true_iff, bool_decide_eq_false in Hg. done.
Qed.
Lemma PrepareResign_none st fed h gone p : PrepareResign opts (Some st) fed h ResignActionNoAction gone = Ret p -> transfers p = [].
Proof.
  simpl. intros H. bind_inv H. destruct (bool_decide _) eqn:Ho in H; [|done]. apply bool_decide_eq_true in Ho. rewrite Ho in H. simpl in H. bind_inv H. by injection H as <-.
Qed.
Lemma projections_transfers st0 p project p' : PrepareCallbackProjections st0 p project = Ret p' -> transfers p' = transfers p.
Proof.
  unfold PrepareCallbackProjections. intros H. bind_inv H. bind_inv H. unfold prepareRetainedProjections in H.
  destruct st0; [bind_inv H|]; by injection H as <-.
Qed.
Lemma projections_plan st0 st h gone p project p' : plan_for st h gone p -> PrepareCallbackProjections st0 p project = Ret p' -> plan_for st h gone p'.
Proof.
  intros Hp H. unfold PrepareCallbackProjections in H. bind_inv H. bind_inv H. unfold prepareRetainedProjections in H.
  destruct st0; [bind_inv H|]; injection H as <-; done.
Qed.
Lemma retain_maps st kept : same_maps st (retainSessions st kept).
Proof. done. Qed.
Lemma resignTransfer_wf gone h st k w : resign_wf gone h st -> k.1 ∉ gone -> (forall pd, pendingDivests st !! k = Some pd -> pd_owner pd = h) ->
  w <> h -> resign_wf gone h (resignTransfer st (k, w)).
Proof.
  intros (H1 & H2 & H3) Hg Hd Hw. unfold resignTransfer. simpl. destruct (w =? InvalidFederateHandle); (split; [|split]); own_simpl.
  - intros k' pd Hp Hg' Hne. rewrite lookup_delete_ne; [by apply H1|]. intros <-. by apply Hd in Hp.
  - intros k' x Hs Hg' Hx [_ ?]%lookup_delete_Some. by apply (H2 k' x).
  - intros k' Hs Hg'. apply lookup_delete_None. apply lookup_insert_is_Some in Hs as [->|[_ Hs]]; [by left|right; by apply H3].
  - intros k' pd Hp Hg' Hne. rewrite lookup_insert_ne; [by apply H1|]. intros <-. by apply Hd in Hp.
  - intros k' x [Hne Hs]%lookup_delete_is_Some Hg' Hx. rewrite lookup_insert_Some. intros [[-> ->]|[_ ?]]; [done|by apply (H2 k' x)].
  - intros k' [Hne Hs]%lookup_delete_is_Some Hg'. rewrite lookup_insert_ne by done. by apply H3.
Qed.
Lemma commitResign_wf fed st h gone p st' ts : own_wf st -> h <> InvalidFederateHandle \/ transfers p = [] -> plan_for st h gone p ->
  commitResign opts st fed p = Ret (st', ts) -> own_wf st'.
Proof.
  intros Hw Hh (Ep & Eg & Ht). unfold commitResign. rewrite Ep, Eg. destruct (registerTerminalCallbacks _ _ _ _) as [[st1 ts1]| |] eqn:Hr; [|done|done].
  intros [= <- _]. apply removePending_wf.
  pose proof (register_maps _ _ _ _ _ _ Hr) as (Eo & Ed & Ea & Ef). simpl in *. destruct Hw as [H1 H2 H3].
  apply (fold_left_ind (fun s => resign_wf gone h s /\ forall k w, (k, w) ∈ transfers p -> forall pd, pendingDivests s !! k = Some pd -> pd_owner pd = h)).
  - split; [|intros k w Hk pd; simpl; rewrite Ed; intros Hp; apply H1 in Hp; destruct (Ht k w Hk) as (_ & Ho & _); congruence].
    split_and!; own_simpl; simpl.
    + intros k pd Hp Hg _. apply map_lookup_filter_Some. split; [|done]. rewrite Eo. apply H1. by rewrite <- Ed.
    + intros k x Hs Hg _ [Ho _]%map_lookup_filter_Some. rewrite Ea in Hs. apply (H2 k x Hs). by rewrite <- Eo.
    + intros k Hs Hg. apply map_lookup_filter_None. left. rewrite Eo. apply H3. by rewrite <- Ef.
  - intros s [k w] Hk [Hs Hd]. destruct (Ht k w Hk) as (Hg & Ho & Hwin). split.
    + apply resignTransfer_wf; [done|done|by apply (Hd k w)|]. destruct Hh as [Hh|E]; [|rewrite E in Hk; by apply elem_of_nil in Hk].
      destruct Hwin as [->|[? _]]; congruence.
    + unfold resignTransfer. simpl. destruct (w =? _); own_simpl; exact Hd.
Qed.
End Plans.

(** ** Managers *)
Definition mgr_wf (m : Manager) : Prop := map_Forall (fun _ st => own_wf st) m.
Lemma mgr_default m fed : mgr_wf m -> own_wf (default newFederationState (m !! fed)).
Proof. intros Hm. destruct (m !! fed) eqn:E; [by apply (Hm fed)|apply new_wf]. Qed.
Lemma publish_wf m fed st : mgr_wf m -> own_wf st -> mgr_wf (publish m fed st).
Proof. intros Hm Hw. by apply map_Forall_insert_2. Qed.
Lemma session_wf st h s : own_wf st -> own_wf (set_session st h s).
Proof. by apply same_maps_wf. Qed.
#[local] Hint Resolve publish_wf session_wf mgr_default : core.

Section Managers.
Context (opts : Options) (env : Environment).

Lemma sendTerminal_wf m fed h e : mgr_wf m -> mgr_wf (mgr (sendTerminalCallback env m fed h e)).
Proof.
  intros Hm. unfold sendTerminalCallback. destruct (m !! fed) as [st|] eqn:E; [|done].
  destruct (callbackSessions st !! h) as [s|]; [|done]. destruct (pendingCb s !! CallbackID e) as [t|]; [|done].
  cbn [mgr]. apply publish_wf; [done|]. apply session_wf. by apply (Hm fed).
Qed.
Lemma finishAdmission_wf m fed ds ok : mgr_wf m -> mgr_wf (mgr (finishTerminalAdmission m fed ds ok)).
Proof.
  intros Hm. unfold finishTerminalAdmission. simpl. destruct (m !! fed) as [st|] eqn:E; [|done]. apply publish_wf; [done|].
  apply fold_left_ind; [by apply (Hm fed)|]. intros s d _ Hs. unfold finishOne.
  destruct (callbackSessions s !! Recipient d) as [x|]; [|done]. destruct (pendingCb x !! _); [by apply session_wf|done].
Qed.
Lemma runPosts_wf fed posts : forall acc, mgr_wf acc.1 -> mgr_wf (fold_left (runPost opts env fed) posts acc).1.
Proof.
  intros acc Hm. apply (fold_left_ind (fun a : Manager * list effect => mgr_wf a.1)); [done|]. intros [m es] p _ Hm'. simpl in *.
  destruct p; simpl; try done. by apply sendTerminal_wf.
Qed.
Lemma service_wf {A} m fed absent (c : change A) : mgr_wf m -> (forall st, own_wf st -> own_wf (c st).1) -> mgr_wf (mgr (service opts env m fed absent c)).
Proof.
  intros Hm Hc. unfold service. pose proof (Hc _ (mgr_default m fed Hm)) as Hw.
  assert (mgr_wf (mgr (let (st, r) := c (default newFederationState (m !! fed)) in
      match r with
      | Ret (posts, a) => let (m, es) := fold_left (runPost opts env fed) posts (publish m fed st, []) in Reply m es (Ret a)
      | Fail e => Reply (publish m fed st) [] (Fail e)
      | Panic s => Reply (publish m fed st) [] (Panic s)
      end))) as H.
  { destruct (c _) as [st [[posts a]|e|s]]; simpl in *; [|by apply publish_wf..].
    pose proof (runPosts_wf fed posts (publish m fed st, []) (publish_wf _ _ _ Hm Hw)) as Hr.
    by destruct (fold_left _ _ _). }
  destruct (m !! fed), absent; done.
Qed.
Lemma prepared_wf {A} m r (k : list AttributeHandle -> reply A) : mgr_wf m -> (forall attrs, mgr_wf (mgr (k attrs))) -> mgr_wf (mgr (prepared m r k)).
Proof. intros Hm Hk. destruct r; simpl; done. Qed.
Lemma releaseDenied_wf m fed owner obj attrs prepare : mgr_wf m -> mgr_wf (mgr (releaseDenied opts env m fed owner obj attrs prepare)).
Proof.
  intros Hm. apply prepared_wf; [done|]. intros mapped. cbv zeta. destruct (m !! fed) as [st|] eqn:E; [|done].
  destruct (negb _); [done|]. case_bool_decide; [done|]. destruct (negb _); [done|]. destruct (Reserve _ _) as [| |commits]; [done..|].
  destruct (validateTerminalCallbacks _ _ _); [|done..]. destruct (_ && _); [done|].
  destruct (registerTerminalCallbacks _ _ _ _) as [[st' ts]| |] eqn:Hr; [|done..]. simpl. apply (finishAdmission_wf _ fed ts commits). apply publish_wf; [done|].
  apply fold_left_ind; [|intros; by apply dropAcquire_wf]. eapply same_maps_wf; [by eapply register_maps|]. by apply (Hm fed).
Qed.
Lemma commitUnpublication_wf st fed p st' ts : own_wf st -> commitUnpublication opts st fed p = Ret (st', ts) -> own_wf st'.
Proof.
  intros Hw. unfold commitUnpublication. destruct (registerTerminalCallbacks _ _ _ _) as [[st1 ts1]| |] eqn:Hr; [|done..]. intros [= <- _].
  apply fold_left_ind; [by eapply same_maps_wf; [eapply register_maps|]|]. intros s [k w] _ Hs. unfold unpublishTransfer. cbv zeta. simpl fst. simpl snd.
  destruct (w =? 0); [exact (offer_wf s k (u_publisher p) Hs)|]. apply give_wf; [by apply dropDivest_wf|]. own_simpl. apply lookup_delete_eq.
Qed.
Lemma dispatchEach_wf fed ds : forall m, mgr_wf m -> mgr_wf (dispatchEach env m fed ds).1.1.
Proof.
  induction ds as [|d ds IH]; intros m Hm; [done|]. cbn [dispatchEach]. case_bool_decide.
  - pose proof (IH _ (sendTerminal_wf m fed (Recipient d) (Event d) Hm)) as H'. by destruct (dispatchEach _ _ _ _) as [[m' es] ok].
  - pose proof (IH _ Hm) as H'. by destruct (dispatchEach _ _ _ _) as [[m' es] ok].
Qed.
Lemma Dispatch_wf m fed p ds ts : mgr_wf m -> mgr_wf (mgr (Dispatch opts env m fed p ds ts)).
Proof.
  intros Hm. unfold Dispatch. assert (mgr_wf (dispatchUnpublication opts env m fed ds ts).1.1) as H.
  { unfold dispatchUnpublication. case_bool_decide; [done|]. destruct (ReservableOutbox opts); [|by apply dispatchEach_wf].
    by apply (finishAdmission_wf m fed ts). }
  by destruct (dispatchUnpublication _ _ _ _ _ _) as [[m' es] ok].
Qed.
Lemma applyPlan_wf m fed h gone plan admitted : mgr_wf m ->
  (forall st p, m !! fed = Some st -> plan = Ret p -> plan_for st h gone p /\ (h <> InvalidFederateHandle \/ transfers p = [])) ->
  mgr_wf (mgr (applyPlan opts env m fed plan admitted)).
Proof.
  intros Hm Hp. unfold applyPlan. destruct plan as [p| |]; [|done..]. destruct (m !! fed) as [st|] eqn:E; [|done].
  destruct (Hp st p eq_refl eq_refl) as [Hplan Hh].
  destruct (commitResign opts st fed p) as [[st' ts]| |] eqn:Hc; [|done..]. cbn [mgr]. apply (finishAdmission_wf _ fed ts admitted).
  apply publish_wf; [done|]. eapply commitResign_wf; [by apply (Hm fed)|done|done|done].
Qed.
Lemma Resign_wf m fed h action gone project admitted : h <> InvalidFederateHandle -> mgr_wf m ->
  mgr_wf (mgr (Resign opts env m fed h action gone project admitted)).
Proof.
  intros Hh Hm. apply (applyPlan_wf m fed h gone); [done|]. intros st p E Hp. split; [|by left]. rewrite E in Hp. bind_inv Hp.
  apply PrepareResign_plan in Hr. destruct project; [by eapply projections_plan|by injection Hp as <-].
Qed.
Lemma DeleteObjects_wf m fed objects kept project admitted : mgr_wf m -> mgr_wf (mgr (DeleteObjects opts env m fed objects kept project admitted)).
Proof.
  intros Hm. apply (applyPlan_wf m fed InvalidFederateHandle objects); [done|]. intros st p E Hp. unfold PrepareObjectDeletion in Hp. rewrite E in Hp.
  destruct (_ || _); [done|]. destruct (existsb _ _); [done|]. bind_inv Hp. pose proof (PrepareResign_none _ _ _ _ _ _ Hr) as Hn. apply PrepareResign_plan in Hr.
  destruct project as [f|]; [|injection Hp as <-; split; [done|by right]]. bind_inv Hp.
  pose proof (projections_plan _ _ _ _ _ _ _ Hr Hr0) as (P1 & P2 & P3). apply projections_transfers in Hr0. bind_inv Hp. injection Hp as <-. simpl.
  split; [done|]. right. simpl. congruence.
Qed.
Lemma Unpublish_wf m fed publisher keys project : mgr_wf m -> mgr_wf (Unpublish opts m fed publisher keys project).1.
Proof.
  intros Hm. unfold Unpublish. destruct (_ ≫= _) as [p| |]; [|done..]. destruct (m !! fed) as [st|] eqn:E; [|done].
  destruct (commitUnpublication opts st fed p) as [[st' ts]| |] eqn:Hc; [|done..]. apply publish_wf; [done|].
  eapply commitUnpublication_wf; [by apply (Hm fed)|done].
Qed.
Lemma ModifyAttributeState_wf m fed target obj attr owned : mgr_wf m -> mgr_wf (mgr (ModifyAttributeState m fed target obj attr owned)).
Proof.
  intros Hm. unfold ModifyAttributeState. destruct (_ || _); [done|]. cbv zeta.
  destruct (validateMOMOwnership _ _ _ _) as [u| |] eqn:Hv; [|done..]. apply validateMOM_unit in Hv. destruct owned.
  - apply publish_wf; [done|]. apply mom_wf; [by apply mgr_default|done].
  - cbn [mgr]. pose proof (mgr_default m fed Hm) as Hd. destruct (m !! fed) as [st|] eqn:E; [|done]. apply publish_wf; [done|].
    by eapply mom_drop_wf.
Qed.
End Managers.

(** ** The ledger's operations change sessions only *)
Section Ledger.
Context (env : Environment).
Lemma session_of_scope m sc st s : callbackSessionForScope m sc = Ret (st, s) -> m !! Federation sc = Some st.
Proof.
  unfold callbackSessionForScope. destruct (m !! Federation sc); [|done]. destruct (_ !! s_Recipient sc); [|done].
  destruct (_ || _); [done|]. by intros [= <- _].
Qed.
Lemma Begin_wf m sc id : mgr_wf m -> mgr_wf (mgr (BeginOwnershipCallbackDelivery m sc id)).
Proof.
  intros Hm. unfold BeginOwnershipCallbackDelivery. destruct (_ ≫= _) as [[st [s a]]| |] eqn:E; [|done..]. bind_inv E. bind_inv E. injection E as E1 _.
  destruct r as [st0 s0]. apply session_of_scope in Hr. simpl in E1. subst. apply publish_wf; [done|]. apply session_wf. by apply (Hm (Federation sc)).
Qed.
Lemma finish_wf m sc id a sent : mgr_wf m -> mgr_wf (mgr (finishOwnershipCallbackDelivery m sc id a sent)).
Proof.
  intros Hm. unfold finishOwnershipCallbackDelivery. destruct (callbackSessionForScope m sc) as [[st s]| |] eqn:E; [|done..].
  apply session_of_scope in E. apply publish_wf; [done|]. apply session_wf. by apply (Hm (Federation sc)).
Qed.
Lemma Report_wf m sc rc : mgr_wf m -> mgr_wf (mgr (ReportOwnershipCallbackInvocation m sc rc)).
Proof.
  intros Hm. unfold ReportOwnershipCallbackInvocation. destruct (_ || _); [done|].
  destruct (_ ≫= _) as [[st s]| |] eqn:E; [|done..]. bind_inv E. bind_inv E. injection E as E1 _.
  destruct r as [st0 s0]. apply session_of_scope in Hr. simpl in E1. subst. apply publish_wf; [done|]. apply session_wf. by apply (Hm (Federation sc)).
Qed.
Lemma Enable_wf m sc : mgr_wf m -> mgr_wf (mgr (EnableOwnershipCallbackReceipts m sc)).
Proof.
  intros Hm. unfold EnableOwnershipCallbackReceipts. destruct (negb _); [done|]. cbv zeta.
  pose proof (mgr_default m (Federation sc) Hm) as Hw. set (st := default _ _) in *.
  assert (mgr_wf (publish m (Federation sc) st)) as Hp by by apply publish_wf.
  repeat match goal with |- mgr_wf (mgr (if ?b then _ else _)) => destruct b; [exact Hp|] end.
  apply publish_wf; [done|]. by apply session_wf.
Qed.
Lemma sendAll_wf fed h es : forall m, mgr_wf m -> mgr_wf (mgr (sendAll env m fed h es)).
Proof. induction es as [|e es IH]; intros m Hm; [done|]. simpl. apply IH. by apply sendTerminal_wf. Qed.
Lemma Retry_wf m sc : mgr_wf m -> mgr_wf (mgr (RetryOwnershipCallbacks env m sc)).
Proof. intros Hm. unfold RetryOwnershipCallbacks. destruct (_ ≫= _); [|done]. destruct (_ || _); [done|]. by apply sendAll_wf. Qed.
Lemma RetryUnadmitted_wf m sc : mgr_wf m -> mgr_wf (mgr (RetryUnadmittedOwnershipCallbacks env m sc)).
Proof. intros Hm. unfold RetryUnadmittedOwnershipCallbacks. destruct (_ ≫= _); [|done]. destruct (_ || _); [done|]. by apply sendAll_wf. Qed.
Lemma Rebind_wf m sc : mgr_wf m -> mgr_wf (mgr (RebindOwnershipCallbackScope m sc)).
Proof.
  intros Hm. unfold RebindOwnershipCallbackScope. destruct (negb _); [done|]. destruct (m !! Federation sc) as [st|] eqn:E; [|done].
  destruct (callbackSessions st !! s_Recipient sc) as [s|]; [|done]. destruct (negb _); [done|]. case_bool_decide; [done|]. apply publish_wf; [done|]. apply session_wf. by apply (Hm (Federation sc)).
Qed.
Lemma RestoreScopes_wf m fed scopes commits : mgr_wf m -> mgr_wf (mgr (PrepareOwnershipCallbackRestoreScopes m fed scopes commits)).
Proof.
  intros Hm. unfold PrepareOwnershipCallbackRestoreScopes. destruct (_ || _); [done|]. destruct (planScopes _ _ _); [|done..].
  destruct (m !! fed) as [st|] eqn:E; [|done]. destruct (forallb _ _); [|done]. destruct commits; [|done].
  apply publish_wf; [done|]. apply (same_maps_wf st); [done|]. by apply (Hm fed).
Qed.
End Ledger.

(** ** The interleaving of operations

    A service may come with any preparation, that of a known-coordinate command
    included.  Attributes are registered for an object nobody has negotiated
    about: its handle is new.  A projection answers distinct attributes of known
    classes, as many as it is asked about.  Two operations are left out: [ReleaseAllOwnedBy],
    which has no caller and keeps the offers of the released attributes, and
    [ImportState], whose image may be any that validates. *)
Section Steps.
Context (opts : Options) (env : Environment).
Definition unnegotiated (m : Manager) (fed : FederationName) (obj : ObjectHandle) : Prop :=
  forall st a, m !! fed = Some st -> pendingDivests st !! (obj, a) = None /\ forall h, pendingAcquires st !! (obj, a, h) = None.
Definition projected (project : option projection) : Prop :=
  forall f h obj attrs p, project = Some f -> f h obj attrs = Ret p -> projection_ok attrs p.
Inductive own_step : Manager -> Manager -> Prop :=
| step_RegisterInitial m fed owner obj attrs : unnegotiated m fed obj -> own_step m (RegisterInitialOwnership m fed owner obj attrs)
| step_UnconditionalDivest m fed owner obj attrs prep : own_step m (mgr (unconditionalDivest opts env m fed owner obj attrs prep))
| step_NegotiatedDivest m fed owner obj attrs tag two prep : own_step m (mgr (negotiatedDivest opts env m fed owner obj attrs tag two prep))
| step_ConfirmDivestiture m fed owner obj attrs tag prep : own_step m (mgr (confirmDivestiture opts env m fed owner obj attrs tag prep))
| step_Acquire m fed h obj attrs tag ifav prep : own_step m (mgr (acquire opts env m fed h obj attrs tag ifav prep))
| step_CancelDivest m fed owner obj attrs prep : own_step m (mgr (cancelDivest opts env m fed owner obj attrs prep))
| step_CancelAcquire m fed h obj attrs prep : own_step m (mgr (cancelAcquire opts env m fed h obj attrs prep))
| step_DivestIfWanted m fed owner obj attrs prep : own_step m (mgr (divestIfWanted opts env m fed owner obj attrs prep))
| step_ReleaseDenied m fed owner obj attrs prep : own_step m (mgr (releaseDenied opts env m fed owner obj attrs prep))
| step_ModifyAttributeState m fed h obj a owned : own_step m (mgr (ModifyAttributeState m fed h obj a owned))
| step_CancelPending m fed h : own_step m (CancelPendingFor m fed h).1
| step_ObjectDeleted m fed obj : own_step m (OnObjectDeleted m fed obj)
| step_Reconstitute m fed obj captured : own_step m (Reconstitute m fed obj captured)
| step_Resign m fed h action gone project admitted : h <> InvalidFederateHandle -> projected project ->
    own_step m (mgr (Resign opts env m fed h action gone project admitted))
| step_DeleteObjects m fed objects kept project admitted : projected project ->
    own_step m (mgr (DeleteObjects opts env m fed objects kept project admitted))
| step_Unpublish m fed publisher keys project : projected project -> own_step m (Unpublish opts m fed publisher keys project).1
| step_Dispatch m fed p ds ts : own_step m (mgr (Dispatch opts env m fed p ds ts))
| step_Enable m sc : own_step m (mgr (EnableOwnershipCallbackReceipts m sc))
| step_Begin m sc id : own_step m (mgr (BeginOwnershipCallbackDelivery m sc id))
| step_Finish m sc id a sent : own_step m (mgr (finishOwnershipCallbackDelivery m sc id a sent))
| step_Report m sc rc : own_step m (mgr (ReportOwnershipCallbackInvocation m sc rc))
| step_Retry m sc : own_step m (mgr (RetryOwnershipCallbacks env m sc))
| step_RetryUnadmitted m sc : own_step m (mgr (RetryUnadmittedOwnershipCallbacks env m sc))
| step_Rebind m sc : own_step m (mgr (RebindOwnershipCallbackScope m sc))
| step_RestoreScopes m fed scopes commits : own_step m (mgr (PrepareOwnershipCallbackRestoreScopes m fed scopes commits))
| step_Destroyed m fed : own_step m (OnFederationDestroyed m fed).
Inductive own_reachable : Manager -> Prop :=
| own_initial : own_reachable ∅
| own_next m m' : own_reachable m -> own_step m m' -> own_reachable m'.

Lemma RegisterInitial_wf m fed owner obj attrs : unnegotiated m fed obj -> mgr_wf m -> mgr_wf (RegisterInitialOwnership m fed owner obj attrs).
Proof.
  intros Hu Hm. unfold RegisterInitialOwnership. destruct (_ || _); [done|]. apply publish_wf; [done|].
  apply fresh_take_wf; [by apply mgr_default|]. intros a. destruct (m !! fed) as [st|] eqn:E; [|done]. destruct (Hu st a E). done.
Qed.
Lemma CancelPending_wf m fed h : mgr_wf m -> mgr_wf (CancelPendingFor m fed h).1.
Proof.
  intros Hm. unfold CancelPendingFor. destruct (m !! fed) as [st|] eqn:E; [|done]. apply publish_wf; [done|]. apply cancelPending_wf. by apply (Hm fed).
Qed.
Lemma ObjectDeleted_wf m fed obj : mgr_wf m -> mgr_wf (OnObjectDeleted m fed obj).
Proof.
  intros Hm. unfold OnObjectDeleted. destruct (m !! fed) as [st|] eqn:E; [|done]. apply publish_wf; [done|]. apply dropObject_wf. by apply (Hm fed).
Qed.
Lemma Reconstitute_wf m fed obj captured : mgr_wf m -> mgr_wf (Reconstitute m fed obj captured).
Proof. intros Hm. apply publish_wf; [done|]. apply reconstitute_wf. by apply mgr_default. Qed.
Lemma Destroyed_wf m fed : mgr_wf m -> mgr_wf (OnFederationDestroyed m fed).
Proof. by apply map_Forall_delete. Qed.
Lemma own_step_wf m m' : mgr_wf m -> own_step m m' -> mgr_wf m'.
Proof.
  intros Hm Hs. revert Hm. destruct Hs; intros Hm; try (apply prepared_wf; [done|]; intros; apply service_wf; [done|]; intros);
    eauto using RegisterInitial_wf, unconditionalDivest_wf, negotiatedDivest_wf, confirmDivestiture_wf, acquire_wf, cancelDivest_wf,
      cancelAcquire_wf, divestIfWanted_wf, releaseDenied_wf, ModifyAttributeState_wf, CancelPending_wf, ObjectDeleted_wf, Reconstitute_wf,
      Resign_wf, DeleteObjects_wf, Unpublish_wf, Dispatch_wf, Enable_wf, Begin_wf, finish_wf, Report_wf, Retry_wf, RetryUnadmitted_wf,
      Rebind_wf, RestoreScopes_wf, Destroyed_wf.
Qed.

(** C7: in every state the manager reaches, under any interleaving of ownership
    services, resignations, deletions, unpublications and callback deliveries:
    an attribute on offer is owned by the federate that offers it, no federate
    waits for an attribute it already owns, and an unowned offer is about an
    attribute that nobody owns. *)
Theorem own_reachable_wf m : own_reachable m -> forall fed st, m !! fed = Some st -> own_wf st.
Proof.
  intros H fed st E. assert (mgr_wf m) as Hm; [|by apply (Hm fed)]. clear fed st E.
  induction H; [apply map_Forall_empty|by eapply own_step_wf].
Qed.
End Steps.

Definition noOptions : Options :=
  Build_Options None None None None None None None SelectAcquirer_default MaxCallbackStateCount false false.
Definition allSent : Environment := Build_Environment (fun _ => true) (fun _ => Reserved true) (fun _ => true).
Lemma own_reachable_wf_witness :
  let m1 := RegisterInitialOwnership ∅ "f" 1 10 [20; 21] in
  let m2 := mgr (Acquire noOptions allSent m1 "f" 2 10 [20] []) in
  let m3 := mgr (NegotiatedDivestTwoPhase noOptions allSent m2 "f" 1 10 [20; 21] []) in
  let m4 := mgr (ConfirmDivestitureWithTag noOptions allSent m3 "f" 1 10 [20] []) in
  exists st, m4 !! "f" = Some st /\ owners st !! (10, 20) = Some 2 /\ is_Some (pendingDivests st !! (10, 21)) /\ own_wf st.
Proof.
  intros m1 m2 m3 m4.
  assert (own_reachable noOptions allSent m4) as Hr.
  { apply (own_next _ _ m3); [|apply step_ConfirmDivestiture]. apply (own_next _ _ m2); [|apply step_NegotiatedDivest].
    apply (own_next _ _ m1); [|apply step_Acquire]. apply (own_next _ _ ∅); [apply own_initial|]. apply step_RegisterInitial.
    intros st a H. vm_compute in H. discriminate H. }
  destruct (m4 !! "f") as [st|] eqn:E; [|vm_compute in E; discriminate E].
  exists st. split; [done|]. pose proof (own_reachable_wf _ _ _ Hr "f" st E) as Hw. vm_compute in E. injection E as <-.
  split; [vm_compute; done|]. split; [vm_compute; eexists; done|done].
Defined.
