(* ===== verification/OwnLedgerSteps.v ===== *)
(** * Every reachable ledger is well formed

    The services register only callbacks addressed to their recipient, and the
    operations on sessions neither widen a window nor change an event; so
    [ledger_ok] holds of every reachable federation ([own_reachable_ledger]). *)
From stdpp Require Import gmap.
From Stdlib Require Import Strings.Byte.
From S2P Require Import Prelude GoBytes Own OwnCallback OwnService OwnLifecycle OwnLedger OwnWindow OwnInvariant OwnReachable.
Open Scope Z_scope.

Lemma ledger_same fed st st' : callbackSessions st' = callbackSessions st -> ledger_ok fed st -> ledger_ok fed st'.
Proof. intros E [H1 H2 H3]. split; by rewrite E. Qed.
Lemma fold_sessions {A} (f : federationState -> A -> federationState) l : (forall s a, callbackSessions (f s a) = callbackSessions s) ->
  forall st, callbackSessions (fold_left f l st) = callbackSessions st.
Proof. intros Hf. induction l as [|a l IH]; intros st; [done|]. simpl. by rewrite IH, Hf. Qed.
Lemma setConfirmation_sessions st k b : callbackSessions (setConfirmation st k b) = callbackSessions st.
Proof. unfold setConfirmation. by destruct (_ !! _). Qed.
Lemma new_ledger fed : ledger_ok fed newFederationState.
Proof. split; simpl; [intros h s; by rewrite lookup_empty|unfold windows; by rewrite map_fold_empty|by rewrite map_size_empty]. Qed.

(** ** Changes of one session *)
Lemma member_same fed h s s' : member_ok fed h s -> session_ok s' -> scope s' = scope s -> enabled s' = enabled s ->
  (forall id e', pendingCb s' !! id = Some e' -> exists e, pendingCb s !! id = Some e /\ event e' = event e) -> member_ok fed h s'.
Proof.
  intros (H1 & H2 & H3 & H4 & H5 & H6) Hs Esc Een Hp. unfold member_ok. rewrite Esc, Een. split_and!; try done.
  intros id e' He'. destruct (Hp id e' He') as (e & He & Eev). unfold entry_ok. rewrite Esc, Een, Eev. by apply H6.
Qed.
Definition narrower (s s' : ownershipCallbackSession) : Prop :=
  session_ok s' /\ scope s' = scope s /\ enabled s' = enabled s /\ window s' <= window s /\
  (forall id e', pendingCb s' !! id = Some e' -> exists e, pendingCb s !! id = Some e /\ event e' = event e).
Lemma narrower_refl s : session_ok s -> narrower s s.
Proof. intros Hs. split_and!; [done..|]. eauto. Qed.
Lemma narrower_entry s id e e' : session_ok s -> pendingCb s !! id = Some e -> event e' = event e ->
  narrower s (set_pendingCb s (<[id := e']> (pendingCb s))).
Proof.
  intros Hs He Ee. split_and!; [by eapply set_entry_ok|done..|]. simpl. intros i x [[-> ->]|[_ Hx]]%pending_elsewhere; eauto.
Qed.
Lemma narrower_complete s id : session_ok s -> is_Some (pendingCb s !! id) -> narrower s (complete s id).
Proof.
  intros Hs Hp. destruct (complete_spec s id Hs Hp) as (C1 & C2 & C3 & C4 & _ & C5 & C6 & _). split_and!; try done.
  - unfold window. lia.
  - intros i e'. rewrite C6. intros [_ He]%lookup_delete_Some. eauto.
Qed.
Lemma narrower_trans s1 s2 s3 : narrower s1 s2 -> narrower s2 s3 -> narrower s1 s3.
Proof.
  intros (_ & A2 & A3 & A4 & A5) (B1 & B2 & B3 & B4 & B5). split_and!; try congruence; [lia|].
  intros id e3 H3. destruct (B5 id e3 H3) as (e2 & H2 & E2). destruct (A5 id e2 H2) as (e1 & H1 & E1). exists e1. split; [done|congruence].
Qed.
Lemma narrower_settle s id e ok : session_ok s -> pendingCb s !! id = Some e -> narrower s (settle s id e ok).
Proof.
  intros Hs He. pose proof (narrower_entry s id e (set_admitted e ok) Hs He eq_refl) as Hn. unfold settle. cbv zeta.
  destruct (ok && negb _); [|done]. eapply narrower_trans; [done|]. apply narrower_complete; [apply Hn|]. simpl. by rewrite lookup_insert_eq.
Qed.
Lemma narrower_begin s id s' a : session_ok s -> beginSession s id = Ret (s', a) -> narrower s s'.
Proof. intros Hs (e & He & _ & _ & _ & ->)%beginSession_inv. by eapply narrower_entry. Qed.
Lemma narrower_finish s id a sent : session_ok s -> narrower s (finishSession s id a sent).
Proof.
  intros Hs. unfold finishSession. destruct (pendingCb s !! id) as [e|] eqn:He; [|by apply narrower_refl].
  destruct (negb _); [by apply narrower_refl|]. cbv zeta.
  match goal with |- context [<[id := ?x]> _] => assert (narrower s (set_pendingCb s (<[id := x]> (pendingCb s)))) as Hn end.
  { apply (narrower_entry s id e); [done|done|by destruct sent]. }
  destruct (sent && _); [|done]. eapply narrower_trans; [done|]. apply narrower_complete; [apply Hn|]. simpl. by rewrite lookup_insert_eq.
Qed.
Lemma narrower_report s id a s' : session_ok s -> reportSession s id a = Ret s' -> narrower s s'.
Proof.
  intros Hs [[_ ->]|(_ & e & He & [(_ & _ & ->)|(_ & _ & _ & ->)])]%reportSession_inv; [by apply narrower_refl| |].
  - apply narrower_complete; [done|]. by rewrite He.
  - by eapply narrower_entry.
Qed.
Lemma narrower_ledger fed st h s s' : ledger_ok fed st -> callbackSessions st !! h = Some s -> (session_ok s -> narrower s s') ->
  ledger_ok fed (set_session st h s').
Proof.
  intros Hl E Hn. pose proof (lg_members _ _ Hl _ _ E) as Hm. destruct (Hn (proj1 (proj2 Hm))) as (N1 & N2 & N3 & N4 & N5).
  eapply set_session_ledger; [done|done| |done]. by eapply member_same.
Qed.
Lemma rebind_member fed h s sc : member_ok fed h s -> Federation sc = fed -> s_Recipient sc = h -> FederationGeneration sc <> 0 ->
  member_ok fed h (rebindCallbackSession s sc) /\ window (rebindCallbackSession s sc) = window s.
Proof.
  intros (H1 & H2 & H3 & H4 & H5 & H6) E1 E2 E3. split; [|done]. split_and!; try done.
  - destruct H2 as [W I D]. split; simpl; [done| |].
    + intros id. rewrite lookup_fmap, fmap_is_Some. apply I.
    + intros id Hin. rewrite lookup_fmap. by rewrite (D id Hin).
  - simpl. intros id e. rewrite lookup_fmap, fmap_Some. intros (x & Hx & ->). destruct (H6 id x Hx) as (A1 & A2 & A3 & A4). split_and!; try done.
Qed.
Lemma validScope_inv sc : validCallbackScope sc = true -> Federation sc <> EmptyString /\ s_Recipient sc <> 0 /\ FederationGeneration sc <> 0.
Proof.
  unfold validCallbackScope. rewrite !andb_true_iff, !negb_true_iff. intros [[H1 H2] H3]. apply Z.eqb_neq in H2, H3. split_and!; try done.
  intros E. rewrite E in H1. done.
Qed.
(** A session as [EnableOwnershipCallbackReceipts] leaves it. *)
Lemma enable_member fed h s sc : member_ok fed h s -> pendingCb s = ∅ -> Federation sc = fed -> s_Recipient sc = h -> FederationGeneration sc <> 0 ->
  member_ok fed h (Build_ownershipCallbackSession sc true (restoreRequired s) (lastID s) (completedThrough s) (completed s) (pendingCb s)).
Proof.
  intros (H1 & [W I D] & H3 & H4 & H5 & H6) Ep E1 E2 E3. split_and!; try done. simpl. intros id e. rewrite Ep, lookup_empty. done.
Qed.

(** ** Managers *)
Definition mgr_ledger (m : Manager) : Prop := map_Forall (fun fed st => ledger_ok fed st) m.
Lemma mgr_ledger_default m fed : mgr_ledger m -> ledger_ok fed (default newFederationState (m !! fed)).
Proof. intros Hm. destruct (m !! fed) eqn:E; [by apply (Hm fed)|apply new_ledger]. Qed.
Lemma publish_ledger m fed st : mgr_ledger m -> ledger_ok fed st -> mgr_ledger (publish m fed st).
Proof. intros Hm Hw. by apply map_Forall_insert_2. Qed.

Section Managers.
Context (opts : Options) (env : Environment).

Lemma sendTerminal_ledger m fed h e : mgr_ledger m -> mgr_ledger (mgr (sendTerminalCallback env m fed h e)).
Proof.
  intros Hm. unfold sendTerminalCallback. destruct (m !! fed) as [st|] eqn:E; [|done].
  destruct (callbackSessions st !! h) as [s|] eqn:Es; [|done]. destruct (pendingCb s !! CallbackID e) as [t|] eqn:Et; [|done].
  cbn [mgr]. apply publish_ledger; [done|]. apply (narrower_ledger _ _ _ s); [by apply (Hm fed)|done|]. intros. by apply narrower_settle.
Qed.
Lemma finishAdmission_ledger m fed ds ok : mgr_ledger m -> mgr_ledger (mgr (finishTerminalAdmission m fed ds ok)).
Proof.
  intros Hm. unfold finishTerminalAdmission. simpl. destruct (m !! fed) as [st|] eqn:E; [|done]. apply publish_ledger; [done|].
  apply fold_left_ind; [by apply (Hm fed)|]. intros s d _ Hs. unfold finishOne.
  destruct (callbackSessions s !! Recipient d) as [x|] eqn:Ex; [|done]. destruct (pendingCb x !! _) as [t|] eqn:Et; [|done].
  apply (narrower_ledger _ _ _ x); [done|done|]. intros. by apply narrower_settle.
Qed.
Lemma runPosts_ledger fed posts : forall acc, mgr_ledger acc.1 -> mgr_ledger (fold_left (runPost opts env fed) posts acc).1.
Proof.
  intros acc Hm. apply (fold_left_ind (fun a : Manager * list effect => mgr_ledger a.1)); [done|]. intros [m es] p _ Hm'. simpl in *.
  destruct p; simpl; try done. by apply sendTerminal_ledger.
Qed.
Lemma service_ledger {A} m fed absent (c : change A) : mgr_ledger m -> (forall st, ledger_ok fed st -> ledger_ok fed (c st).1) ->
  mgr_ledger (mgr (service opts env m fed absent c)).
Proof.
  intros Hm Hc. unfold service. pose proof (Hc _ (mgr_ledger_default m fed Hm)) as Hw.
  assert (mgr_ledger (mgr (let (st, r) := c (default newFederationState (m !! fed)) in
      match r with
      | Ret (posts, a) => let (m, es) := fold_left (runPost opts env fed) posts (publish m fed st, []) in Reply m es (Ret a)
      | Fail e => Reply (publish m fed st) [] (Fail e)
      | Panic s => Reply (publish m fed st) [] (Panic s)
      end))) as H.
  { destruct (c _) as [st [[posts a]|e|s]]; simpl in *; [|by apply publish_ledger..].
    pose proof (runPosts_ledger fed posts (publish m fed st, []) (publish_ledger _ _ _ Hm Hw)) as Hr.
    by destruct (fold_left _ _ _). }
  destruct (m !! fed), absent; done.
Qed.
Lemma prepared_ledger {A} m r (k : list AttributeHandle -> reply A) : mgr_ledger m -> (forall attrs, mgr_ledger (mgr (k attrs))) -> mgr_ledger (mgr (prepared m r k)).
Proof. intros Hm Hk. destruct r; simpl; done. Qed.
Lemma checked_ledger {A} fed st (r : outcome own_error (federationState * list post * A)) :
  ledger_ok fed st -> (forall st' ps a, r = Ret (st', ps, a) -> ledger_ok fed st') -> ledger_ok fed (checked st r).1.
Proof. intros Hw H. destruct r as [[[st' ps] a]|e|s]; simpl; [by eapply H|done|done]. Qed.

(** *** Deliveries of the services *)
Lemma deliverable_acquisition fed st obj attrs w tag : deliverable fed st (Delivery w (acquireNotificationEvent obj attrs w tag)).
Proof. done. Qed.
Lemma deliverable_unavailable fed st h obj attrs : deliverable fed st (Delivery h (unavailableEvent obj attrs)).
Proof. done. Qed.
Lemma register_ledger fed st ds st' ts : ledger_ok fed st -> (forall d, d ∈ ds -> deliverable fed st d) ->
  registerTerminalCallbacks opts fed st ds = Ret (st', ts) -> ledger_ok fed st'.
Proof. intros Hl Hd H. by destruct (registerTerminal_spec _ _ _ _ _ _ Hl Hd H). Qed.
Ltac deliver := let d := fresh "d" in intros d; rewrite list_elem_of_fmap; intros (? & -> & _); exact (deliverable_acquisition _ _ _ _ _ _).

Lemma unconditionalDivest_ledger fed owner obj attrs st : ledger_ok fed st -> ledger_ok fed (unconditionalDivestChange opts fed owner obj attrs st).1.
Proof.
  intros Hl. apply checked_ledger; [done|]. intros st' ps u H. bind_inv H. bind_inv H. destruct r0 as [trs unowned]. bind_inv H.
  destruct r0 as [st1 ts]. injection H as <- _. apply (ledger_same _ st1); [by rewrite !fold_sessions|].
  eapply register_ledger; [exact Hl| |exact Hr1]. deliver.
Qed.
Lemma negotiatedDivest_ledger fed owner obj attrs tag two st : ledger_ok fed st ->
  ledger_ok fed (negotiatedDivestChange opts fed owner obj attrs tag two st).1.
Proof.
  intros Hl. apply checked_ledger; [done|]. intros st' ps u H. bind_inv H. destruct r as [[st0 cs] ts]. injection H as <- _.
  unfold recordPendingDivest in Hr. bind_inv Hr. bind_inv Hr. destruct r0 as [st1 ts']. injection Hr as <- <- _.
  apply (ledger_same _ st1).
  - destruct two; (rewrite fold_sessions; [|intros; first [done|apply setConfirmation_sessions]]); by rewrite fold_sessions.
  - destruct two; [by injection Hr1 as <- _|]. eapply register_ledger; [exact Hl| |exact Hr1]. deliver.
Qed.
Lemma confirmDivestiture_ledger fed owner obj attrs tag st : ledger_ok fed st ->
  ledger_ok fed (confirmDivestitureChange opts fed owner obj attrs tag st).1.
Proof.
  intros Hl. unfold confirmDivestitureChange. destruct (validateOwnedAttributes _ _ _ _) as [[]| |]; [|done|done].
  destruct (checkConfirmable _ _ _ _) as [[]| |]; [|done|done]. destruct (waitingAttrs st obj attrs).
  - apply checked_ledger; [done|]. intros st' ps u H. bind_inv H. bind_inv H. destruct r0 as [st1 ts]. injection H as <- _.
    apply (ledger_same _ st1); [by rewrite fold_sessions|]. eapply register_ledger; [exact Hl| |exact Hr0]. deliver.
  - cbn [fst]. eapply ledger_same; [|done]. apply fold_sessions. intros. apply setConfirmation_sessions.
Qed.
Lemma acquire_ledger fed acquirer obj attrs tag ifav st : ledger_ok fed st -> ledger_ok fed (acquireChange opts fed acquirer obj attrs tag ifav st).1.
Proof.
  intros Hl. apply checked_ledger; [done|]. intros st' ps u H. bind_inv H. bind_inv H. destruct r0 as [st1 ts]. injection H as <- _.
  apply (ledger_same _ st1).
  - unfold acquireState. rewrite !fold_sessions; try done. intros. apply setConfirmation_sessions.
  - eapply register_ledger; [exact Hl| |exact Hr0]. intros d. unfold acquireDeliveries. rewrite !elem_of_app. intros [Hd|[Hd|Hd]].
    + revert d Hd. deliver.
    + destruct (fromUnownedAttrs r); [by apply elem_of_nil in Hd|]. apply list_elem_of_singleton in Hd as ->. apply deliverable_acquisition.
    + destruct (unavailableAttrs r); [by apply elem_of_nil in Hd|]. apply list_elem_of_singleton in Hd as ->. apply deliverable_unavailable.
Qed.
Lemma cancelDivest_ledger fed owner obj attrs st : ledger_ok fed st -> ledger_ok fed (cancelDivestChange owner obj attrs st).1.
Proof.
  intros Hl. apply checked_ledger; [done|]. intros st' ps u H. bind_inv H. bind_inv H. injection H as <- _. eapply ledger_same; [|done]. by rewrite fold_sessions.
Qed.
Lemma cancelAcquire_ledger fed acquirer obj attrs st : ledger_ok fed st -> ledger_ok fed (cancelAcquireChange opts fed acquirer obj attrs st).1.
Proof.
  intros Hl. apply checked_ledger; [done|]. intros st' ps u H.
  destruct (existsb _ _); [done|]. destruct (negb (forallb _ _)); [done|]. cbv zeta in H. bind_inv H.
  destruct r as [st1 ts]. injection H as <- _. apply (ledger_same _ st1); [by rewrite fold_sessions|].
  destruct (callbackSessions st !! acquirer) as [s|] eqn:Es; [|by injection Hr as <- _].
  destruct (enabled s) eqn:Een; [|by injection Hr as <- _]. simpl in Hr. case_bool_decide; [by injection Hr as <- _|].
  eapply register_ledger; [exact Hl| |exact Hr]. intros d ->%list_elem_of_singleton. split; [|done]. split; [done|]. intros _. simpl.
  unfold callbackSession. by rewrite Es.
Qed.
Lemma divestIfWanted_ledger fed owner obj attrs st : ledger_ok fed st -> ledger_ok fed (divestIfWantedChange opts fed owner obj attrs st).1.
Proof.
  intros Hl. apply checked_ledger; [done|]. intros st' ps u H. bind_inv H. bind_inv H. destruct r0 as [st1 ts]. injection H as <- _.
  apply (ledger_same _ st1); [by rewrite fold_sessions|]. eapply register_ledger; [exact Hl| |exact Hr0]. deliver.
Qed.
Lemma releaseDenied_ledger m fed owner obj attrs prepare : mgr_ledger m -> mgr_ledger (mgr (releaseDenied opts env m fed owner obj attrs prepare)).
Proof.
  intros Hm. apply prepared_ledger; [done|]. intros mapped. cbv zeta. destruct (m !! fed) as [st|] eqn:E; [|done].
  destruct (negb _); [done|]. case_bool_decide; [done|]. destruct (negb _); [done|]. destruct (Reserve _ _) as [| |commits]; [done..|].
  destruct (validateTerminalCallbacks _ _ _); [|done..]. destruct (_ && _); [done|].
  destruct (registerTerminalCallbacks _ _ _ _) as [[st' ts]| |] eqn:Hr; [|done..]. simpl. apply (finishAdmission_ledger _ fed ts commits). apply publish_ledger; [done|].
  eapply ledger_same; [by apply fold_sessions|]. eapply register_ledger; [by apply (Hm fed)| |exact Hr].
  intros d. unfold deniedDeliveries. rewrite list_elem_of_fmap. intros (h & -> & _). apply deliverable_unavailable.
Qed.
End Managers.

(** ** Replacing entries in every session *)
Lemma windows_ext (m m' : gmap FederateHandle ownershipCallbackSession) :
  (forall h, window <$> m' !! h = window <$> m !! h) -> windows m' = windows m /\ size m' = size m.
Proof.
  intros H. assert (window <$> m' = window <$> m) as E by (apply map_eq; intros h; by rewrite !lookup_fmap).
  split; [|by rewrite <- (map_size_fmap window m'), E, map_size_fmap]. unfold windows.
  rewrite <- (map_fold_fmap (fun _ w n => n + w) window 0 m'), E. by rewrite map_fold_fmap.
Qed.
Lemma sessions_ledger fed st f : ledger_ok fed st ->
  (forall h s, callbackSessions st !! h = Some s -> member_ok fed h (f h s) /\ window (f h s) = window s) ->
  ledger_ok fed (set_callbackSessions st (map_imap (fun h s => Some (f h s)) (callbackSessions st))).
Proof.
  intros [H1 H2 H3] Hf.
  destruct (windows_ext (callbackSessions st) (map_imap (fun h s => Some (f h s)) (callbackSessions st))) as [E1 E2].
  { intros h. rewrite map_lookup_imap. destruct (callbackSessions st !! h) as [s|] eqn:E; [|done]. simpl. f_equal. by apply Hf. }
  split; simpl; [|by rewrite E1|by rewrite E2]. intros h s'. rewrite map_lookup_imap. intros (s & E & [= <-])%bind_Some. by apply Hf.
Qed.

(** ** Resignations and deletions *)
Definition plain (d : OutboxDelivery) : Prop :=
  (forall strict, addressed (Recipient d) strict (Event d)) /\
  match RetainedProjection (Event d) with Some p => projection_ok (sortCompact (Attributes (Event d))) p | None => True end.
Lemma plain_deliverable fed st d : plain d -> deliverable fed st d.
Proof. intros [H1 H2]. by split. Qed.
Definition single (d : OutboxDelivery) : Prop := exists a, Attributes (Event d) = [a].
(** A plan whose terminal callbacks are well addressed, and whose retained
    projections fit the entries they are for. *)
Definition plan_plain (st : federationState) (p : ResignPlan) : Prop :=
  (forall d, d ∈ deletionDeliveries p -> plain d /\ single d) /\
  (forall d, (true, d) ∈ deliveries p -> plain d) /\ (forall b d, (b, d) ∈ deliveries p -> single d) /\
  forall h id q, retained p !! (h, id) = Some q -> exists s e,
    callbackSessions st !! h = Some s /\ pendingCb s !! id = Some e /\ projection_ok (Attributes (event e)) q.

Section Plans.
Context (opts : Options) (env : Environment).
Lemma prepareResignTransfers_plain fed st h ks : forall ts ds, prepareResignTransfers opts fed st h ks = Ret (ts, ds) ->
  (forall d, (true, d) ∈ ds -> plain d) /\ forall b d, (b, d) ∈ ds -> single d.
Proof.
  induction ks as [|k ks IH]; simpl; intros ts ds H; [injection H as <- <-; split; intros * []%elem_of_nil|].
  bind_inv H. destruct r as [w ds1]. bind_inv H. destruct r as [ts2 ds2]. injection H as <- <-. destruct (IH _ _ Hr0) as [I1 I2].
  assert ((forall d, (true, d) ∈ ds1 -> plain d) /\ forall b d, (b, d) ∈ ds1 -> single d) as [D1 D2].
  { unfold prepareResignTransfer in Hr. destruct (_ =? _) in Hr; [injection Hr as <- <-; split; intros * []%elem_of_nil|].
    destruct (negb _) in Hr; [done|]. injection Hr as <- <-. split.
    - intros d [[= ->]|(x & [=] & _)%list_elem_of_fmap]%elem_of_cons. split; [by split|done].
    - intros b d [[= -> ->]|(x & [= -> ->] & Hx)%list_elem_of_fmap]%elem_of_cons; [by eexists|].
      unfold remainingReleaseRequests in Hx. apply list_elem_of_fmap in Hx as (c & -> & _). by eexists. }
  split; [intros d|intros b d]; rewrite elem_of_app; intros [?|?]; eauto.
Qed.
Lemma PrepareResign_plain st fed h action gone p : PrepareResign opts (Some st) fed h action gone = Ret p -> plan_plain st p.
Proof.
  intros (ts & ds & Hr & ->)%PrepareResign_inv.
  destruct (prepareResignTransfers_plain _ _ _ _ _ _ Hr). split_and!; try done; simpl.
  unfold prepareDeletionCallbacks. intros d. rewrite list_elem_of_fmap. intros (k & -> & _). split; [|by eexists]. split; [by split|done].
Qed.
Lemma projectDeliveries_spec f ds : projected (Some f) -> forall ds', projectDeliveries f ds = Ret ds' ->
  Forall2 (fun d d' => exists p, d' = Delivery (Recipient d) (set_RetainedProjection (Event d) (Some p)) /\ projection_ok (Attributes (Event d)) p) ds ds'.
Proof.
  intros Hf. induction ds as [|d ds IH]; simpl; intros ds' H; [injection H as <-; constructor|].
  bind_inv H. bind_inv H. injection H as <-. constructor; [|by apply IH]. exists r. split; [done|]. by eapply Hf.
Qed.
Lemma projected_plain d d' : single d -> (forall strict, addressed (Recipient d) strict (Event d)) ->
  (exists p, d' = Delivery (Recipient d) (set_RetainedProjection (Event d) (Some p)) /\ projection_ok (Attributes (Event d)) p) -> plain d'.
Proof. intros [a E] Ha (p & -> & Hp). split; [exact Ha|]. simpl. rewrite E in *. exact Hp. Qed.
Lemma projected_single d d' : single d ->
  (exists p, d' = Delivery (Recipient d) (set_RetainedProjection (Event d) (Some p)) /\ projection_ok (Attributes (Event d)) p) -> single d'.
Proof. intros [a E] (p & -> & Hp). by exists a. Qed.
Lemma retainAll_spec f es : projected (Some f) -> forall acc r, retainAll f es acc = Ret r -> forall k q, r !! k = Some q ->
  acc !! k = Some q \/ exists e, (k, e) ∈ es /\ projection_ok (Attributes (event e)) q.
Proof.
  intros Hf. induction es as [|[k0 e0] es IH]; simpl; intros acc r H k q Hk; [injection H as <-; by left|]. bind_inv H.
  destruct (IH _ _ H k q Hk) as [Hi|(e & He & Hq)]; [|right; exists e; split; [by right|done]].
  apply lookup_insert_Some in Hi as [[<- <-]|[_ ?]]; [|by left]. right. exists e0. split; [by left|]. by eapply Hf.
Qed.
Lemma retainable_in st h objects r id e : ((r, id), e) ∈ retainable st h objects ->
  exists s, callbackSessions st !! r = Some s /\ pendingCb s !! id = Some e.
Proof.
  unfold retainable. rewrite list_elem_of_In, in_flat_map. intros ([h' s] & Hs & He). apply list_elem_of_In in Hs, He.
  apply elem_of_map_to_list in Hs. simpl in He. destruct (_ =? _); [by apply elem_of_nil in He|].
  apply list_elem_of_omap in He as ([id' e'] & Hi & E). apply elem_of_map_to_list in Hi. simpl in E. destruct (_ && _) in E; [|done].
  injection E as -> -> ->. by exists s.
Qed.
Lemma prepareRetained_plain st p objects f p' : projected (Some f) -> plan_plain st p -> prepareRetainedProjections (Some st) p objects f = Ret p' ->
  plan_plain st p'.
Proof.
  intros Hf (H1 & H2 & H3 & H4) H. unfold prepareRetainedProjections in H. bind_inv H. injection H as <-. split_and!; try done. simpl.
  intros h id q Hq. destruct (retainAll_spec f _ Hf _ _ Hr _ _ Hq) as [Ho|(e & He & Hok)]; [by apply H4|].
  destruct (retainable_in _ _ _ _ _ _ He) as (s & ? & ?). eauto.
Qed.
Lemma elem_of_zip_projected {A} (R : OutboxDelivery -> OutboxDelivery -> Prop) (ds : list (A * OutboxDelivery)) ds' :
  Forall2 R (map snd ds) ds' -> forall b d', (b, d') ∈ zip (map fst ds) ds' -> exists d, (b, d) ∈ ds /\ R d d'.
Proof.
  revert ds'. induction ds as [|[b0 d0] ds IH]; intros ds' H b d' Hd'; [by apply elem_of_nil in Hd'|]. inversion H as [|? ? ? ds'' HR HR']; subst.
  simpl in Hd'. apply elem_of_cons in Hd' as [[= -> ->]|Hd']; [exists d0; by split; [left|]|].
  destruct (IH _ HR' _ _ Hd') as (d & ? & ?). exists d. by split; [right|].
Qed.
Lemma projections_plain st p f p' : projected (Some f) -> plan_plain st p -> PrepareCallbackProjections (Some st) p f = Ret p' -> plan_plain st p'.
Proof.
  intros Hf (H1 & H2 & H3 & H4) H. unfold PrepareCallbackProjections in H. bind_inv H. bind_inv H.
  apply (projectDeliveries_spec f _ Hf) in Hr, Hr0. refine (prepareRetained_plain st
    (Build_ResignPlan (pl_h p) (deleted p) (transfers p) (zip (map fst (deliveries p)) r0) r (retained p)) (deleted p) f p' Hf _ H).
  split_and!; simpl; [| | |done].
  - intros d' Hd'. destruct (Forall2_in_r _ _ _ _ Hr Hd') as (d & Hd & Hp). destruct (H1 d Hd) as [[? ?] ?].
    split; [by eapply projected_plain|by eapply projected_single].
  - intros d' Hd'. apply (elem_of_zip_projected _ _ _ Hr0) in Hd' as (d & Hd & Hp).
    destruct (H2 d Hd). eapply projected_plain; [by eapply H3|done|done].
  - intros b d' Hd'. apply (elem_of_zip_projected _ _ _ Hr0) in Hd' as (d & Hd & Hp). eapply projected_single; [by eapply H3|done].
Qed.

Lemma retainSessions_ledger fed st kept : ledger_ok fed st ->
  (forall h id q, kept !! (h, id) = Some q -> exists s e, callbackSessions st !! h = Some s /\ pendingCb s !! id = Some e /\ projection_ok (Attributes (event e)) q) ->
  ledger_ok fed (retainSessions st kept).
Proof.
  intros Hl Hk. apply sessions_ledger; [done|]. intros h s E. split; [|done].
  destruct (lg_members _ _ Hl _ _ E) as (M1 & M2 & M3 & M4 & M5 & M6). split_and!; try done.
  - apply set_pendingCb_ok; [done|]. intros id. rewrite map_lookup_imap. by destruct (pendingCb s !! id).
  - simpl. intros id e'. rewrite map_lookup_imap. intros (e & He & [= <-])%bind_Some. destruct (M6 id e He) as (A1 & A2 & A3 & A4).
    destruct (kept !! (h, id)) as [q|] eqn:Eq; [|done]. split_and!; try done. simpl.
    destruct (Hk _ _ _ Eq) as (s' & x & Es & Ex & Hq). rewrite E in Es. injection Es as <-. rewrite He in Ex. injection Ex as <-.
    by destruct A4 as (B1 & B2 & B3 & B4 & B5 & B6 & B7 & _).
Qed.
Lemma terminal_plain st p d : plan_plain st p -> d ∈ terminalDeliveries p -> plain d.
Proof.
  intros (H1 & H2 & _). unfold terminalDeliveries. rewrite elem_of_app, list_elem_of_fmap. intros [Hd|([b d'] & -> & [E Hd]%list_elem_of_filter)]; [by apply H1|].
  simpl in E. subst. by apply H2.
Qed.
Lemma delete_session_ledger fed st h : ledger_ok fed st -> ledger_ok fed (set_callbackSessions st (delete h (callbackSessions st))).
Proof.
  intros [H1 H2 H3]. split; simpl.
  - intros h' s [_ ?]%lookup_delete_Some. by apply H1.
  - destruct (callbackSessions st !! h) as [s|] eqn:E; [|by rewrite delete_id]. rewrite (windows_delete _ _ _ E) in H2.
    apply H1 in E as (_ & Hs & _). apply session_window in Hs. lia.
  - pose proof (map_subseteq_size _ _ (delete_subseteq (callbackSessions st) h)). lia.
Qed.
Lemma commitResign_ledger fed st p st' ts : ledger_ok fed st -> plan_plain st p -> commitResign opts st fed p = Ret (st', ts) -> ledger_ok fed st'.
Proof.
  intros Hl Hp. unfold commitResign. destruct (registerTerminalCallbacks _ _ _ _) as [[st1 ts1]| |] eqn:Hr; [|done|done]. intros [= <- _].
  assert (ledger_ok fed st1) as H1.
  { eapply register_ledger; [by apply retainSessions_ledger, Hp| |exact Hr]. intros d Hd. apply plain_deliverable. by eapply terminal_plain. }
  eapply ledger_same; [|by apply (delete_session_ledger fed st1 (pl_h p))]. simpl. rewrite fold_sessions; [done|].
  intros s t. unfold resignTransfer. by destruct (_ =? _).
Qed.
Lemma applyPlan_ledger m fed plan admitted : mgr_ledger m ->
  (forall st p, m !! fed = Some st -> plan = Ret p -> plan_plain st p) -> mgr_ledger (mgr (applyPlan opts env m fed plan admitted)).
Proof.
  intros Hm Hp. unfold applyPlan. destruct plan as [p| |]; [|done..]. destruct (m !! fed) as [st|] eqn:E; [|done].
  destruct (commitResign opts st fed p) as [[st' ts]| |] eqn:Hc; [|done..]. cbn [mgr]. apply (finishAdmission_ledger _ fed ts admitted).
  apply publish_ledger; [done|]. eapply commitResign_ledger; [by apply (Hm fed)|by apply Hp|done].
Qed.
Lemma Resign_ledger m fed h action gone project admitted : projected project -> mgr_ledger m ->
  mgr_ledger (mgr (Resign opts env m fed h action gone project admitted)).
Proof.
  intros Hf Hm. apply applyPlan_ledger; [done|]. intros st p E Hp. rewrite E in Hp. bind_inv Hp. apply PrepareResign_plain in Hr.
  destruct project as [f|]; [by eapply projections_plain|by injection Hp as <-].
Qed.
Lemma DeleteObjects_ledger m fed objects kept project admitted : projected project -> mgr_ledger m ->
  mgr_ledger (mgr (DeleteObjects opts env m fed objects kept project admitted)).
Proof.
  intros Hf Hm. apply applyPlan_ledger; [done|]. intros st p E Hp. unfold PrepareObjectDeletion in Hp. rewrite E in Hp.
  destruct (_ || _); [done|]. destruct (existsb _ _); [done|]. bind_inv Hp. apply PrepareResign_plain in Hr.
  destruct project as [f|]; [|by injection Hp as <-]. apply bind_Ret_inv in Hp as (p1 & Hp1 & Hp).
  eapply prepareRetained_plain; [exact Hf| |exact Hp]. by eapply projections_plain.
Qed.
(** *** Unpublications *)
Lemma prepareTransfers_plain fed st h ks : forall ts ds, prepareTransfers opts fed st h ks = Ret (ts, ds) ->
  (forall d, (true, d) ∈ ds -> plain d) /\ forall b d, (b, d) ∈ ds -> single d.
Proof.
  induction ks as [|k ks IH]; simpl; intros ts ds H; [injection H as <- <-; split; intros * []%elem_of_nil|].
  destruct (negb _) in H; [by eapply IH|]. cbv zeta in H. destruct (_ && _) in H; [done|]. bind_inv H. destruct r as [ts2 ds2]. injection H as <- <-.
  destruct (IH _ _ Hr) as [I1 I2]. destruct (_ =? 0); [done|]. split.
  - intros d [[= ->]|Hd]%elem_of_cons; [by split|]. apply elem_of_app in Hd as [(x & [=] & _)%list_elem_of_fmap|Hd]. by apply I1.
  - intros b d [[= -> ->]|Hd]%elem_of_cons; [by eexists|]. apply elem_of_app in Hd as [(x & [= -> ->] & Hx)%list_elem_of_fmap|Hd]; [|by eapply I2].
    unfold remainingReleaseRequests in Hx. apply list_elem_of_fmap in Hx as (c & -> & _). by eexists.
Qed.
Lemma projectUnpublication_plain f ds : projected (Some f) -> (forall d, (true, d) ∈ ds -> plain d) -> (forall b d, (b, d) ∈ ds -> single d) ->
  forall ds', projectUnpublication f ds = Ret ds' -> forall d, (true, d) ∈ ds' -> plain d.
Proof.
  intros Hf. induction ds as [|[b d0] ds IH]; simpl; intros Hp Hs ds' H d Hd; [injection H as <-; by apply elem_of_nil in Hd|].
  bind_inv H. destruct (_ || _) in H; [done|]. bind_inv H. injection H as <-. apply elem_of_cons in Hd as [[= <- ->]|Hd].
  - eapply projected_plain; [apply (Hs true); by left|apply Hp; by left|]. exists r. split; [done|]. by eapply Hf.
  - eapply IH; [intros; apply Hp; by right|intros; eapply Hs; by right|done|done].
Qed.
Lemma Unpublish_ledger m fed publisher keys project : projected project -> mgr_ledger m -> mgr_ledger (Unpublish opts m fed publisher keys project).1.
Proof.
  intros Hf Hm. unfold Unpublish. destruct (_ ≫= _) as [p| |] eqn:Hp; [|done..]. destruct (m !! fed) as [st|] eqn:E; [|done].
  assert (forall d, (true, d) ∈ u_deliveries p -> plain d) as Hpl.
  { bind_inv Hp. unfold PrepareUnpublicationCommit in Hr. destruct (existsb _ _) in Hr; [done|]. destruct (existsb _ _) in Hr; [done|].
    cbv zeta in Hr. destruct (existsb _ _) in Hr; [done|]. bind_inv Hr. destruct r0 as [ts ds]. bind_inv Hr. injection Hr as <-.
    destruct (prepareTransfers_plain _ _ _ _ _ _ Hr0) as [P1 P2]. destruct project as [f|]; [|by injection Hp as <-].
    apply bind_Ret_inv in Hp as (ds' & Hds & [= <-]). simpl in *. by eapply projectUnpublication_plain. }
  destruct (commitUnpublication opts st fed p) as [[st' ts]| |] eqn:Hc; [|done..]. apply publish_ledger; [done|].
  unfold commitUnpublication in Hc. destruct (registerTerminalCallbacks _ _ _ _) as [[st1 ts1]| |] eqn:Hr; [|done..]. injection Hc as <- _.
  apply (ledger_same _ st1).
  - apply fold_sessions. intros s t. unfold unpublishTransfer. by destruct (_ =? _).
  - eapply register_ledger; [by apply (Hm fed)| |exact Hr]. intros d Hd. apply plain_deliverable, Hpl.
    unfold u_terminals in Hd. apply list_elem_of_fmap in Hd as ([b d'] & -> & [Eb Hd]%list_elem_of_filter). simpl in Eb. by subst.
Qed.
Lemma dispatchEach_ledger fed ds : forall m, mgr_ledger m -> mgr_ledger (dispatchEach env m fed ds).1.1.
Proof.
  induction ds as [|d ds IH]; intros m Hm; [done|]. cbn [dispatchEach]. case_bool_decide.
  - pose proof (IH _ (sendTerminal_ledger env m fed (Recipient d) (Event d) Hm)) as H'. by destruct (dispatchEach _ _ _ _) as [[m' es] ok].
  - pose proof (IH _ Hm) as H'. by destruct (dispatchEach _ _ _ _) as [[m' es] ok].
Qed.
Lemma Dispatch_ledger m fed p ds ts : mgr_ledger m -> mgr_ledger (mgr (Dispatch opts env m fed p ds ts)).
Proof.
  intros Hm. unfold Dispatch. assert (mgr_ledger (dispatchUnpublication opts env m fed ds ts).1.1) as H.
  { unfold dispatchUnpublication. case_bool_decide; [done|]. destruct (ReservableOutbox opts); [|by apply dispatchEach_ledger].
    by apply (finishAdmission_ledger m fed ts). }
  by destruct (dispatchUnpublication _ _ _ _ _ _) as [[m' es] ok].
Qed.
End Plans.

(** ** The remaining operations *)
Lemma publish_same m fed st : mgr_ledger m -> callbackSessions st = callbackSessions (default newFederationState (m !! fed)) ->
  mgr_ledger (publish m fed st).
Proof. intros Hm E. apply publish_ledger; [done|]. eapply ledger_same; [done|]. by apply mgr_ledger_default. Qed.
Lemma RegisterInitial_ledger m fed owner obj attrs : mgr_ledger m -> mgr_ledger (RegisterInitialOwnership m fed owner obj attrs).
Proof. intros Hm. unfold RegisterInitialOwnership. destruct (_ || _); [done|]. apply publish_same; [done|]. by rewrite fold_sessions. Qed.
Lemma ModifyAttributeState_ledger m fed h obj a owned : mgr_ledger m -> mgr_ledger (mgr (ModifyAttributeState m fed h obj a owned)).
Proof.
  intros Hm. unfold ModifyAttributeState. destruct (_ || _); [done|]. cbv zeta. destruct (validateMOMOwnership _ _ _ _); [|done..].
  destruct owned; [by apply publish_same|]. cbn [mgr]. destruct (m !! fed) as [st|] eqn:E; [|done]. apply publish_same; [done|]. by rewrite E.
Qed.
Lemma CancelPending_ledger m fed h : mgr_ledger m -> mgr_ledger (CancelPendingFor m fed h).1.
Proof. intros Hm. unfold CancelPendingFor. destruct (m !! fed) as [st|] eqn:E; [|done]. apply publish_same; [done|]. by rewrite E. Qed.
Lemma ObjectDeleted_ledger m fed obj : mgr_ledger m -> mgr_ledger (OnObjectDeleted m fed obj).
Proof. intros Hm. unfold OnObjectDeleted. destruct (m !! fed) as [st|] eqn:E; [|done]. apply publish_same; [done|]. by rewrite E. Qed.
Lemma Reconstitute_ledger m fed obj captured : mgr_ledger m -> mgr_ledger (Reconstitute m fed obj captured).
Proof. intros Hm. apply publish_same; [done|]. rewrite fold_sessions; [done|]. intros s a. by destruct (_ =? _). Qed.
Lemma Destroyed_ledger m fed : mgr_ledger m -> mgr_ledger (OnFederationDestroyed m fed).
Proof. by apply map_Forall_delete. Qed.
Lemma scope_inv m sc st s : callbackSessionForScope m sc = Ret (st, s) -> m !! Federation sc = Some st /\ callbackSessions st !! s_Recipient sc = Some s.
Proof.
  unfold callbackSessionForScope. destruct (m !! Federation sc) as [f|]; [|done]. destruct (callbackSessions f !! s_Recipient sc) eqn:E; [|done].
  destruct (_ || _); [done|]. by intros [= <- <-].
Qed.
Lemma Begin_ledger m sc id : mgr_ledger m -> mgr_ledger (mgr (BeginOwnershipCallbackDelivery m sc id)).
Proof.
  intros Hm. unfold BeginOwnershipCallbackDelivery. destruct (_ ≫= _) as [[st [s a]]| |] eqn:E; [|done..].
  apply bind_Ret_inv in E as ([st0 s0] & Hs & E). apply bind_Ret_inv in E as ([s' a'] & Hb & [= <- <- <-]). apply scope_inv in Hs as [E1 E2].
  cbn [mgr]. apply publish_ledger; [done|]. eapply narrower_ledger; [by apply (Hm (Federation sc))|exact E2|]. intros. by eapply narrower_begin.
Qed.
Lemma finish_ledger m sc id a sent : mgr_ledger m -> mgr_ledger (mgr (finishOwnershipCallbackDelivery m sc id a sent)).
Proof.
  intros Hm. unfold finishOwnershipCallbackDelivery. destruct (callbackSessionForScope m sc) as [[st s]| |] eqn:Hs; [|done..]. apply scope_inv in Hs as [E1 E2].
  cbn [mgr]. apply publish_ledger; [done|]. eapply narrower_ledger; [by apply (Hm (Federation sc))|exact E2|]. intros. by eapply narrower_finish.
Qed.
Lemma Report_ledger m sc rc : mgr_ledger m -> mgr_ledger (mgr (ReportOwnershipCallbackInvocation m sc rc)).
Proof.
  intros Hm. unfold ReportOwnershipCallbackInvocation. destruct (_ || _); [done|]. destruct (_ ≫= _) as [[st s]| |] eqn:E; [|done..].
  apply bind_Ret_inv in E as ([st0 s0] & Hs & E). apply bind_Ret_inv in E as (s' & Hb & [= <- <-]). apply scope_inv in Hs as [E1 E2].
  cbn [mgr]. apply publish_ledger; [done|]. eapply narrower_ledger; [by apply (Hm (Federation sc))|exact E2|]. intros. by eapply narrower_report.
Qed.
Lemma sendAll_ledger env fed h es : forall m, mgr_ledger m -> mgr_ledger (mgr (sendAll env m fed h es)).
Proof. induction es as [|e es IH]; intros m Hm; [done|]. simpl. apply IH. by apply sendTerminal_ledger. Qed.
Lemma Retry_ledger env m sc : mgr_ledger m -> mgr_ledger (mgr (RetryOwnershipCallbacks env m sc)).
Proof. intros Hm. unfold RetryOwnershipCallbacks. destruct (_ ≫= _); [|done]. destruct (_ || _); [done|]. by apply sendAll_ledger. Qed.
Lemma RetryUnadmitted_ledger env m sc : mgr_ledger m -> mgr_ledger (mgr (RetryUnadmittedOwnershipCallbacks env m sc)).
Proof. intros Hm. unfold RetryUnadmittedOwnershipCallbacks. destruct (_ ≫= _); [|done]. destruct (_ || _); [done|]. by apply sendAll_ledger. Qed.
Lemma Rebind_ledger m sc : mgr_ledger m -> mgr_ledger (mgr (RebindOwnershipCallbackScope m sc)).
Proof.
  intros Hm. unfold RebindOwnershipCallbackScope. destruct (validCallbackScope sc) eqn:Hv; [|done]. apply validScope_inv in Hv as (V1 & V2 & V3).
  destruct (m !! Federation sc) as [st|] eqn:E; [|done]. destruct (callbackSessions st !! s_Recipient sc) as [s|] eqn:Es; [|done].
  simpl. destruct (negb _); [done|]. case_bool_decide; [done|]. cbn [mgr]. apply publish_ledger; [done|].
  assert (ledger_ok (Federation sc) st) as Hl by by apply (Hm (Federation sc)). pose proof (lg_members _ _ Hl _ _ Es) as Hmem.
  destruct (rebind_member _ _ _ sc Hmem) as [Hr Hw]; [done..|]. eapply set_session_ledger; [done|done|done|lia].
Qed.
Lemma planScopes_spec fed scopes : forall planned r, planScopes fed scopes planned = Ret r ->
  (forall h sc, planned !! h = Some sc -> s_Recipient sc = h /\ Federation sc = fed /\ FederationGeneration sc <> 0) ->
  forall h sc, r !! h = Some sc -> s_Recipient sc = h /\ Federation sc = fed /\ FederationGeneration sc <> 0.
Proof.
  induction scopes as [|x scopes IH]; simpl; intros planned r H Hp; [by injection H as <-|].
  destruct (validCallbackScope x) eqn:Hv; [|done]. simpl in H. destruct (String.eqb_spec (Federation x) fed) as [Ef|]; [|done]. simpl in H.
  case_bool_decide; [done|]. apply (IH _ _ H). intros h sc [[<- <-]|[_ ?]]%lookup_insert_Some; [|by apply Hp]. by apply validScope_inv in Hv as (_ & _ & ?).
Qed.
Lemma RestoreScopes_ledger m fed scopes commits : mgr_ledger m -> mgr_ledger (mgr (PrepareOwnershipCallbackRestoreScopes m fed scopes commits)).
Proof.
  intros Hm. unfold PrepareOwnershipCallbackRestoreScopes. destruct (_ || _); [done|]. destruct (planScopes _ _ _) as [planned| |] eqn:Hp; [|done..].
  destruct (m !! fed) as [st|] eqn:E; [|done]. destruct (forallb _ _); [|done]. destruct commits; [|done].
  cbn [mgr]. apply publish_ledger; [done|]. assert (ledger_ok fed st) as Hl by by apply (Hm fed). apply sessions_ledger; [done|].
  intros h s Es. pose proof (lg_members _ _ Hl _ _ Es) as Hmem. destruct (planned !! h) as [sc|] eqn:Esc; [|done]. destruct (enabled s); [|done].
  apply (planScopes_spec _ _ _ _ Hp) in Esc as (S1 & S2 & S3); [by apply rebind_member|]. intros h' sc'. by rewrite lookup_empty.
Qed.
Lemma Enable_ledger m sc : mgr_ledger m -> mgr_ledger (mgr (EnableOwnershipCallbackReceipts m sc)).
Proof.
  intros Hm. unfold EnableOwnershipCallbackReceipts. destruct (validCallbackScope sc) eqn:Hv; [|done]. apply validScope_inv in Hv as (V1 & V2 & V3).
  cbn [negb]. cbv zeta. pose proof (mgr_ledger_default m (Federation sc) Hm) as Hl. set (st := default _ _) in *.
  assert (mgr_ledger (publish m (Federation sc) st)) as Hp by by apply publish_ledger.
  destruct (match callbackSessions st !! s_Recipient sc with Some s => restoreRequired s | None => false end); [exact Hp|].
  destruct (match callbackSessions st !! s_Recipient sc with Some s => enabled s && _ | None => false end); [exact Hp|].
  destruct (match callbackSessions st !! s_Recipient sc with Some s => negb _ | None => false end) eqn:Hpend; [exact Hp|].
  destruct (existsb _ _); [exact Hp|]. destruct (_ && _) eqn:Hfull; [exact Hp|]. cbn [mgr]. apply publish_ledger; [done|].
  assert (pendingCb (callbackSession st (Federation sc) (s_Recipient sc)) = ∅) as Ep.
  { unfold callbackSession. destruct (callbackSessions st !! s_Recipient sc) as [s|]; [|done]. simpl.
    by apply negb_false_iff, bool_decide_eq_true in Hpend. }
  pose proof (enable_member _ _ _ sc (callbackSession_member _ st _ Hl V2) Ep eq_refl eq_refl V3) as Hmem.
  set (s' := Build_ownershipCallbackSession _ _ _ _ _ _ _) in *. destruct (callbackSessions st !! s_Recipient sc) as [s|] eqn:Es.
  - eapply set_session_ledger; [done|done|done|]. subst s'. unfold window, callbackSession. rewrite Es. done.
  - destruct Hl as [L1 L2 L3]. split; simpl.
    + intros h x [[<- <-]|[_ ?]]%lookup_insert_Some; [done|by apply L1].
    + rewrite windows_insert by done. subst s'. unfold window, callbackSession. rewrite Es. simpl. lia.
    + rewrite map_size_insert_None by done. rewrite bool_decide_true in Hfull by done. simpl in Hfull. apply Z.leb_gt in Hfull. lia.
Qed.

Section Steps.
Context (opts : Options) (env : Environment).
Lemma own_step_ledger m m' : mgr_ledger m -> own_step opts env m m' -> mgr_ledger m'.
Proof.
  intros Hm Hs. revert Hm. destruct Hs; intros Hm; try (apply prepared_ledger; [done|]; intros; apply service_ledger; [done|]; intros);
    eauto using RegisterInitial_ledger, unconditionalDivest_ledger, negotiatedDivest_ledger, confirmDivestiture_ledger, acquire_ledger,
      cancelDivest_ledger, cancelAcquire_ledger, divestIfWanted_ledger, releaseDenied_ledger, ModifyAttributeState_ledger, CancelPending_ledger,
      ObjectDeleted_ledger, Reconstitute_ledger, Resign_ledger, DeleteObjects_ledger, Unpublish_ledger, Dispatch_ledger, Enable_ledger,
      Begin_ledger, finish_ledger, Report_ledger, Retry_ledger, RetryUnadmitted_ledger, Rebind_ledger, RestoreScopes_ledger, Destroyed_ledger.
Qed.
(** In every reachable state the ledger of every federation is well formed. *)
Lemma own_reachable_ledger m : own_reachable opts env m -> forall fed st, m !! fed = Some st -> ledger_ok fed st.
Proof.
  intros H fed st E. assert (mgr_ledger m) as Hm; [|by apply (Hm fed)]. clear fed st E.
  induction H; [apply map_Forall_empty|by eapply own_step_ledger].
Qed.
End Steps.
