(* ===== verification/OwnRestore.v ===== *)
(** * Saving and restoring ownership

    What is exported from a reachable state passes the validation of a restore,
    and importing it gives the same state back ([restored]), except that idle
    sessions of federates without receipts are forgotten, delivery attempts
    start again, and strict sessions wait for a fresh scope. *)
From stdpp Require Import gmap.
From Stdlib Require Import Strings.Byte.
From S2P Require Import Prelude GoBytes Own OwnCallback OwnService OwnLifecycle OwnSnapshot OwnLedger OwnWindow OwnInvariant OwnReachable OwnLedgerSteps.
Open Scope Z_scope.

Definition restoredSession (s : ownershipCallbackSession) : ownershipCallbackSession :=
  Build_ownershipCallbackSession (scope s) (enabled s) (enabled s) (lastID s) (completedThrough s) (completed s)
    ((fun e => newTerminal (event e)) <$> pendingCb s).
Definition something_to_keep (s : ownershipCallbackSession) : Prop := enabled s = true \/ pendingCb s <> ∅.
#[export] Instance something_to_keep_dec s : Decision (something_to_keep s).
Proof. unfold something_to_keep. apply _. Defined.
Definition restored (st : federationState) : federationState :=
  set_callbackSessions st (omap (fun s => if decide (something_to_keep s) then Some (restoredSession s) else None) (callbackSessions st)).
Lemma exportedSession_keep s : exportedSession s = bool_decide (something_to_keep s).
Proof.
  apply Bool.eq_iff_eq_true. rewrite bool_decide_eq_true. unfold exportedSession, something_to_keep.
  rewrite orb_true_iff, negb_true_iff, bool_decide_eq_false. done.
Qed.

(** ** Maps and their sorted listings *)
Section Listing.
Context {K A V : Type} `{Countable K} (make : K -> A -> V) (key : V -> K) (val : V -> A).
Definition listing (m : gmap K A) (ks : list K) : list V := omap (fun k => make k <$> m !! k) ks.
Lemma listing_in m ks v : v ∈ listing m ks <-> exists k a, k ∈ ks /\ m !! k = Some a /\ v = make k a.
Proof.
  unfold listing. rewrite list_elem_of_omap. setoid_rewrite fmap_Some. split; [intros (k & ? & a & ? & ?)|intros (k & a & ? & ? & ?)]; eauto 6.
Qed.
Context (Hkey : forall k a, key (make k a) = k) (Hval : forall k a, val (make k a) = a).
Lemma listing_keys m ks : (forall k, k ∈ ks -> is_Some (m !! k)) -> map key (listing m ks) = ks.
Proof.
  intros Hs. unfold listing. induction ks as [|k ks IH]; [done|]. simpl. destruct (Hs k ltac:(by left)) as [a ->]. simpl.
  rewrite Hkey. f_equal. apply IH. intros; apply Hs; by right.
Qed.
Lemma listing_import m ks : NoDup ks -> (forall k, k ∈ ks <-> is_Some (m !! k)) -> fold_insert key val (listing m ks) ∅ = m.
Proof.
  intros Hnd Hk. assert (map key (listing m ks) = ks) as E by (apply listing_keys; intros; by apply Hk). apply fold_insert_eq.
  - by rewrite E.
  - intros v Hv. apply listing_in in Hv as (k & a & _ & Ha & ->). by rewrite Hkey, Hval.
  - intros k Hs. rewrite E. by apply Hk.
Qed.
End Listing.
Lemma exportedKeys_spec {A} (m : gmap ownershipKey A) : NoDup (exportedKeys m) /\ forall k, k ∈ exportedKeys m <-> is_Some (m !! k).
Proof.
  unfold exportedKeys. rewrite merge_sort_Permutation. split; [apply NoDup_elements|]. intros k. by rewrite merge_sort_Permutation, elem_of_elements, elem_of_dom.
Qed.
Lemma acquireKeys_spec {A} (m : gmap acquireKey A) :
  NoDup (merge_sort acquireKeyLe (elements (dom m))) /\ forall k, k ∈ merge_sort acquireKeyLe (elements (dom m)) <-> is_Some (m !! k).
Proof. rewrite merge_sort_Permutation. split; [apply NoDup_elements|]. intros k. by rewrite merge_sort_Permutation, elem_of_elements, elem_of_dom. Qed.
Lemma pendingIDs_spec s : NoDup (pendingIDs s) /\ forall id, id ∈ pendingIDs s <-> is_Some (pendingCb s !! id).
Proof.
  unfold pendingIDs. split; [apply sortHandles_NoDup, NoDup_elements|]. intros id. by rewrite sortHandles_in, elem_of_elements, elem_of_dom.
Qed.
Lemma sessionHandles_spec st : NoDup (sessionHandles st) /\
  forall h, h ∈ sessionHandles st <-> exists s, callbackSessions st !! h = Some s /\ exportedSession s = true.
Proof.
  unfold sessionHandles. split; [apply NoDup_filter, sortHandles_NoDup, NoDup_elements|]. intros h.
  rewrite list_elem_of_filter, sortHandles_in, elem_of_elements, elem_of_dom. destruct (callbackSessions st !! h) as [s|].
  - split; [intros [? _]; eauto|]. by intros (s' & [= <-] & ?).
  - split; [by intros [? _]|]. by intros (? & [=] & _).
Qed.

(** ** The exported sessions, with their entries *)
Definition exportedList (st : federationState) : list (FederateHandle * ownershipCallbackSession) :=
  listing pair (callbackSessions st) (sessionHandles st).
Definition entriesOf (s : ownershipCallbackSession) : list (Z * terminalCallback) := listing pair (pendingCb s) (pendingIDs s).
Definition exportEntry (h : FederateHandle) (ie : Z * terminalCallback) : TerminalCallbackState := exportCallback h ie.1 (event ie.2).
Lemma exportedList_spec st : NoDup (map fst (exportedList st)) /\
  forall h s, (h, s) ∈ exportedList st <-> callbackSessions st !! h = Some s /\ exportedSession s = true.
Proof.
  destruct (sessionHandles_spec st) as [N E]. unfold exportedList. split.
  - rewrite (listing_keys pair fst); [done|done|]. intros k (s & -> & _)%E. done.
  - intros h s. rewrite listing_in. split.
    + intros (k & a & Hk & Ha & [= -> ->]). apply E in Hk as (s' & Hs' & ?). by rewrite Ha in Hs'; injection Hs' as <-.
    + intros [Hs Hx]. exists h, s. split; [apply E; eauto|done].
Qed.
Lemma entriesOf_spec s : NoDup (map fst (entriesOf s)) /\ forall id e, (id, e) ∈ entriesOf s <-> pendingCb s !! id = Some e.
Proof.
  destruct (pendingIDs_spec s) as [N E]. unfold entriesOf. split.
  - rewrite (listing_keys pair fst); [done|done|]. intros k Hk. by apply E.
  - intros id e. rewrite listing_in. split; [by intros (k & a & _ & Ha & [= -> ->])|]. intros He. exists id, e. split; [apply E; by rewrite He|done].
Qed.
Lemma map_listing {K A B} `{Countable K} (f : K * A -> B) (m : gmap K A) ks :
  map f (listing pair m ks) = omap (fun k => (fun a => f (k, a)) <$> m !! k) ks.
Proof. unfold listing. induction ks as [|k ks IH]; [done|]. csimpl. destruct (m !! k); csimpl; by rewrite IH. Qed.
Lemma exportSessions_list st : exportSessions st = map (fun hs => exportSession hs.1 hs.2) (exportedList st).
Proof. unfold exportedList. by rewrite map_listing. Qed.
Lemma exportPending_list st : exportPending st = flat_map (fun hs => map (exportEntry hs.1) (entriesOf hs.2)) (exportedList st).
Proof.
  unfold exportPending, exportedList, listing. induction (sessionHandles st) as [|h hs IH]; [done|]. csimpl. rewrite IH.
  destruct (callbackSessions st !! h) as [s|]; csimpl; [|done]. f_equal. unfold entriesOf. by rewrite map_listing.
Qed.

(** ** Sizes *)
Lemma session_size s : session_ok s -> Z.of_nat (size (dom (pendingCb s) ∪ completed s)) = window s.
Proof.
  intros Hs. pose proof (so_window _ Hs) as Hw.
  assert (dom (pendingCb s) ∪ completed s = list_to_set (seqZ (completedThrough s + 1) (window s)) :> gset Z) as ->.
  { apply set_eq. intros id. rewrite elem_of_list_to_set, elem_of_seqZ, elem_of_union, elem_of_dom. pose proof (so_ids _ Hs id) as I.
    unfold window. split; [intros ?; assert (completedThrough s < id <= lastID s) by (apply I; tauto); lia|].
    intros ?. assert (id ∈ completed s \/ is_Some (pendingCb s !! id)) by (apply I; lia). tauto. }
  rewrite size_list_to_set by apply NoDup_seqZ. rewrite length_seqZ. unfold window. lia.
Qed.
Lemma pending_size s : session_ok s -> Z.of_nat (length (entriesOf s)) <= window s /\ zlen (elements (completed s)) <= window s.
Proof.
  intros Hs. rewrite <- (session_size s Hs). destruct (entriesOf_spec s) as [N _]. split.
  - apply inj_le. rewrite <- (length_map fst). unfold entriesOf. rewrite (listing_keys pair fst); [|done|by apply pendingIDs_spec].
    unfold pendingIDs, sortHandles. rewrite merge_sort_Permutation. change (length (elements (dom (pendingCb s)))) with (size (dom (pendingCb s))).
    apply subseteq_size. set_solver.
  - unfold zlen. apply inj_le. change (length (elements (completed s))) with (size (completed s)). apply subseteq_size. set_solver.
Qed.
(** The windows of distinct sessions add up to at most all windows. *)
Definition windowsOf (l : list (FederateHandle * ownershipCallbackSession)) : Z := foldr (fun hs n => window hs.2 + n) 0 l.
Lemma windowsOf_le m : (forall h s, m !! h = Some s -> 0 <= window s) -> forall l, NoDup (map fst l) ->
  (forall h s, (h, s) ∈ l -> m !! h = Some s) -> 0 <= windowsOf l <= windows m.
Proof.
  intros Hm l. revert m Hm. induction l as [|[h s] l IH]; intros m Hm Hnd Hl; [simpl; split; [lia|by apply windows_mono]|].
  simpl in *. inversion Hnd as [|? ? Hni Hnd']; subst. pose proof (Hl h s ltac:(by left)) as Hs. rewrite (windows_delete m h s Hs).
  destruct (IH (delete h m)) as [I1 I2]; [intros h' s' [_ ?]%lookup_delete_Some; by apply (Hm h')|done| |pose proof (Hm h s Hs); lia].
  intros h' s' Hin. rewrite lookup_delete_ne; [apply Hl; by right|]. intros <-. apply Hni. apply list_elem_of_fmap. by exists (h, s').
Qed.

(** ** The validation accepts an exported ledger *)
Lemma exportSession_valid fed h s : member_ok fed h s -> window s <= MaxCallbackStateCount -> invalidSession (exportSession h s) = false.
Proof.
  intros (H1 & H2 & H3 & H4 & H5 & H6) Hw. unfold invalidSession, exportSession. simpl. pose proof (so_window _ H2) as Hso.
  destruct (pending_size s H2) as [_ Hc]. fold (window s). unfold wrapU. pose proof (session_window _ H2).
  rewrite Z.mod_small by (unfold MaxCallbackStateCount in Hw; lia).
  assert (zlen (sortHandles (elements (completed s))) = zlen (elements (completed s))) as -> by (unfold zlen, sortHandles; by rewrite merge_sort_Permutation).
  rewrite (proj2 (Z.eqb_neq h 0)) by done. rewrite !(proj2 (Z.ltb_ge _ _)) by lia. simpl.
  destruct (enabled s); [|done]. simpl. apply Z.eqb_neq. by apply H5.
Qed.
Lemma completedSeen_spec c ids : forall seen, NoDup ids -> (forall id, id ∈ ids -> CompletedThrough c < id <= LastCallbackID c /\ id ∉ seen) ->
  completedSeen c ids seen = Ret (list_to_set ids ∪ seen).
Proof.
  induction ids as [|id ids IH]; intros seen Hnd Hids; cbn [completedSeen].
  - f_equal. set_solver.
  - inversion Hnd as [|? ? Hni Hnd']; subst. destruct (Hids id ltac:(by left)) as [Hr Hns].
    rewrite (proj2 (Z.leb_gt _ _)), (proj2 (Z.ltb_ge _ _)) by lia. rewrite bool_decide_false by done. simpl.
    rewrite IH; [f_equal; set_solver|done|]. intros i Hi. destruct (Hids i ltac:(by right)). split; [done|]. set_solver.
Qed.
Lemma exportSession_completed fed h s : member_ok fed h s -> completedSeen (exportSession h s) (CompletedIDs (exportSession h s)) ∅ = Ret (completed s).
Proof.
  intros (_ & H2 & _). simpl. rewrite completedSeen_spec.
  - f_equal. apply set_eq. intros id. rewrite elem_of_union, elem_of_list_to_set, sortHandles_in, elem_of_elements. set_solver.
  - apply sortHandles_NoDup, NoDup_elements.
  - intros id. rewrite sortHandles_in, elem_of_elements. intros Hid. split; [|set_solver]. simpl. apply (so_ids _ H2). by left.
Qed.
Definition seenCompleted (hs : FederateHandle * ownershipCallbackSession) := (exportSession hs.1 hs.2, completed hs.2).
Definition seenAll (hs : FederateHandle * ownershipCallbackSession) := (exportSession hs.1 hs.2, dom (pendingCb hs.2) ∪ completed hs.2 : gset Z).
Lemma validateCallbackSessions_spec fed l : forall out seen, (forall h s, (h, s) ∈ l -> member_ok fed h s) -> NoDup (map fst l) ->
  (forall h, h ∈ map fst l -> seen !! h = None) -> 0 <= out -> out + windowsOf l <= MaxCallbackStateCount ->
  validateCallbackSessions (map (fun hs => exportSession hs.1 hs.2) l) out seen = Ret (fold_insert fst seenCompleted l seen).
Proof.
  induction l as [|[h s] l IH]; intros out seen Hm Hnd Hdis Hout Hsum; [done|]. cbn [map validateCallbackSessions fst snd].
  simpl in Hnd, Hsum. inversion Hnd as [|? ? Hni Hnd']; subst. pose proof (Hm h s ltac:(by left)) as Hs.
  assert (0 <= windowsOf l) as Hpos.
  { clear -Hm. induction l as [|[h' s'] l IH]; simpl; [lia|]. assert (0 <= window s') by (apply session_window; destruct (Hm h' s' ltac:(set_solver)) as (_ & ? & _); done).
    assert (0 <= windowsOf l); [|lia]. apply IH. intros h'' s'' Hin. apply Hm. set_solver. }
  rewrite (exportSession_valid fed) by (done || lia). change (LastCallbackID (exportSession h s) - CompletedThrough (exportSession h s)) with (window s).
  assert (0 <= window s) by (apply session_window; by destruct Hs as (_ & ? & _)).
  assert (wrapU 64 (out + wrapU 64 (window s)) = out + window s) as ->.
  { unfold wrapU. unfold MaxCallbackStateCount in Hsum. rewrite (Z.mod_small (window s)) by lia. rewrite Z.mod_small; lia. }
  cbv zeta. rewrite (proj2 (Z.ltb_ge _ _)) by lia. change (cs_Recipient (exportSession h s)) with h.
  rewrite (Hdis h) by (by left). rewrite bool_decide_false by (by intros [? [=]]). rewrite (exportSession_completed fed) by done. simpl.
  rewrite (IH (out + window s)); [done| |done| |lia|lia].
  - intros h' s' Hin. apply Hm. by right.
  - intros h' Hh'. rewrite lookup_insert_ne; [apply Hdis; by right|]. by intros ->.
Qed.

Lemma distinctAttributes_spec msg attrs : forall seen, NoDup attrs -> 0 ∉ attrs -> (forall a, a ∈ attrs -> a ∉ seen) ->
  distinctAttributes msg attrs seen = Ret tt.
Proof.
  induction attrs as [|a attrs IH]; intros seen Hnd Hz Hs; [done|]. cbn [distinctAttributes]. inversion Hnd; subst.
  rewrite (proj2 (Z.eqb_neq a 0)) by set_solver. rewrite bool_decide_false by (apply Hs; by left). simpl. apply IH; [done|set_solver|].
  intros b Hb. specialize (Hs b ltac:(by right)). set_solver.
Qed.
Lemma exportEntry_valid h s id e seen : entry_ok h s id e -> completedThrough s < id <= lastID s -> id ∉ seen ->
  validatePendingCallback (exportEntry h (id, e)) (Some (exportSession h s, seen)) = Ret tt.
Proof.
  intros (E1 & E2 & E3 & P1 & P2 & P3 & P4 & P5 & P6 & [P7 P8] & P9) Hid Hns. unfold validatePendingCallback. cbn.
  rewrite (proj2 (Z.eqb_neq (Object (event e)) 0)) by done. rewrite (proj2 (Z.leb_gt _ _)) by lia. rewrite !(proj2 (Z.ltb_ge _ _)) by lia.
  rewrite !bool_decide_false by done. cbn [orb].
  assert (validateTerminalCallbackKind (exportCallback h id (event e)) (exportSession h s) = Ret tt) as E.
  { unfold validateTerminalCallbackKind. simpl. rewrite P1, P7. simpl. destruct (decide (Kind (event e) = CallbackAcquisitionNotification)) as [Ek|Ek].
    - rewrite bool_decide_true by done. rewrite Z.eqb_refl. simpl. rewrite Ek. rewrite bool_decide_false by done. done.
    - rewrite bool_decide_false by done. simpl. destruct (decide (Kind (event e) = CallbackAcquisitionCancellation)) as [Ec|Ec].
      + rewrite bool_decide_true by done. by rewrite (P8 Ec).
      + by rewrite bool_decide_false. }
  unfold exportEntry. simpl. rewrite E. simpl. unfold validateCallbackAttributes. simpl.
  destruct (RetainedProjection (event e)) as [p|]; [|simpl; apply distinctAttributes_spec; [done|done|set_solver]].
  destruct P9 as (Q1 & Q2 & Q3 & Q4 & Q5). rewrite (proj2 (Z.eqb_neq _ 0) Q1), (proj2 (Z.eqb_neq _ 0) Q2), Q3, Nat.eqb_refl. simpl.
  rewrite (distinctAttributes_spec _ (p_Attributes p)) by (done || set_solver). simpl. apply distinctAttributes_spec; [done|done|set_solver].
Qed.
Lemma validatePendingCallbacks_app c1 c2 : forall seen, validatePendingCallbacks (c1 ++ c2) seen = validatePendingCallbacks c1 seen ≫= validatePendingCallbacks c2.
Proof. induction c1 as [|c c1 IH]; intros seen; [done|]. simpl. destruct (validatePendingCallback _ _); simpl; [apply IH|done..]. Qed.
Lemma validateEntries_spec h s es : forall X (seen : seenSessions), session_ok s -> seen !! h = Some (exportSession h s, X) -> NoDup (map fst es) ->
  (forall id e, (id, e) ∈ es -> entry_ok h s id e /\ completedThrough s < id <= lastID s /\ id ∉ X) ->
  validatePendingCallbacks (map (exportEntry h) es) seen = Ret (<[h := (exportSession h s, list_to_set (map fst es) ∪ X)]> seen).
Proof.
  induction es as [|[id e] es IH]; intros X seen Hs Hh Hnd He.
  - simpl. f_equal. rewrite insert_id; [done|]. rewrite Hh. do 2 f_equal. set_solver.
  - cbn [map validatePendingCallbacks]. simpl in Hnd. inversion Hnd as [|? ? Hni Hnd']; subst. destruct (He id e ltac:(by left)) as (He1 & He2 & He3).
    change (t_Recipient (exportEntry h (id, e))) with h. rewrite Hh, exportEntry_valid by done. cbn [mbind outcome_bind].
    change (t_CallbackID (exportEntry h (id, e))) with id. rewrite (IH ({[id]} ∪ X)); [|done| |done|].
    + f_equal. apply map_eq. intros k. destruct (decide (h = k)) as [<-|]; [|rewrite !lookup_insert_ne, lookup_alter_ne by done; done].
      rewrite !lookup_insert_eq. do 2 f_equal. simpl. set_solver.
    + rewrite lookup_alter_eq, Hh. done.
    + intros i x Hi. destruct (He i x ltac:(by right)) as (? & ? & ?). split_and!; try done; try lia.
      assert (i <> id); [|set_solver]. intros ->. apply Hni. apply list_elem_of_fmap. by exists (id, x).
Qed.
Lemma fold_insert_cons {K A V} `{Countable K} (key : A -> K) (val : A -> V) a l m : fold_insert key val (a :: l) m = fold_insert key val l (<[key a := val a]> m).
Proof. done. Qed.
Lemma validatePending_spec fed l : forall seen : seenSessions, (forall h s, (h, s) ∈ l -> member_ok fed h s) -> NoDup (map fst l) ->
  (forall h s, (h, s) ∈ l -> seen !! h = Some (seenCompleted (h, s))) ->
  validatePendingCallbacks (flat_map (fun hs => map (exportEntry hs.1) (entriesOf hs.2)) l) seen = Ret (fold_insert fst seenAll l seen).
Proof.
  induction l as [|[h s] l IH]; intros seen Hm Hnd Hs; [done|]. cbn [flat_map]. rewrite validatePendingCallbacks_app. simpl in Hnd. inversion Hnd as [|? ? Hni Hnd']; subst.
  destruct (Hm h s ltac:(by left)) as (_ & Hok & _ & _ & _ & Hen). destruct (entriesOf_spec s) as [N E]. cbn [fst snd].
  rewrite (validateEntries_spec h s (entriesOf s) (completed s) seen Hok (Hs h s ltac:(by left)) N).
  2:{ intros id e He. apply E in He. split; [by apply Hen|]. pose proof (pending_window s id Hok (mk_is_Some _ _ He)). split; [lia|].
      intros Hc. apply (so_disjoint _ Hok) in Hc. congruence. }
  cbn [mbind outcome_bind]. rewrite fold_insert_cons. cbn [fst].
  replace (list_to_set (map fst (entriesOf s)) ∪ completed s : gset Z) with (dom (pendingCb s) ∪ completed s).
  2:{ f_equal. apply set_eq. intros id. unfold entriesOf. destruct (pendingIDs_spec s) as [_ Ep].
      rewrite elem_of_list_to_set, (listing_keys pair fst), Ep, elem_of_dom; [done|done|]. intros; by apply Ep. }
  apply IH; [intros; apply Hm; by right|done|]. intros h' s' Hin. rewrite lookup_insert_ne; [apply Hs; by right|]. intros <-.
  apply Hni, list_elem_of_fmap. by exists (h, s').
Qed.
Lemma validateSnapshot_ok fed st : ledger_ok fed st -> ValidateOwnershipCallbackState (Some (exportFederation st)) = Ret tt.
Proof.
  intros Hl. destruct (exportedList_spec st) as [Hnd Hin].
  assert (forall h s, (h, s) ∈ exportedList st -> member_ok fed h s) as Hm by (intros h s Hs; apply Hin in Hs as [Hs _]; by apply (lg_members _ _ Hl)).
  destruct (windowsOf_le (callbackSessions st) ltac:(intros h s; by eapply ledger_window) (exportedList st) Hnd) as [W1 W2].
  { intros h s Hs. by apply Hin in Hs as [? _]. }
  pose proof (lg_windows _ _ Hl) as Hw. pose proof (lg_count _ _ Hl) as Hc.
  assert (zlen (exportSessions st) <= MaxCallbackStateCount) as C1.
  { rewrite exportSessions_list. unfold zlen. rewrite length_map, <- (length_map fst). etransitivity; [|exact Hc]. rewrite <- size_dom.
    rewrite <- (size_list_to_set (C := gset Z)) by done. apply inj_le, subseteq_size. intros h. rewrite elem_of_list_to_set, elem_of_dom, list_elem_of_fmap.
    intros ([h' s] & -> & Hs). apply Hin in Hs as [E _]. simpl. by rewrite E. }
  assert (zlen (exportPending st) <= MaxCallbackStateCount) as C2.
  { assert (zlen (exportPending st) <= windowsOf (exportedList st)); [|lia]. rewrite exportPending_list. clear -Hm.
    induction (exportedList st) as [|[h s] l IH]; [done|]. cbn [flat_map windowsOf foldr fst snd]. rewrite zlen_app. fold (windowsOf l).
    destruct (Hm h s ltac:(by left)) as (_ & Hs & _). apply pending_size in Hs as [Hs _]. unfold zlen at 1. rewrite length_map.
    assert (zlen (flat_map (fun hs => map (exportEntry hs.1) (entriesOf hs.2)) l) <= windowsOf l) by (apply IH; intros; apply Hm; by right). lia. }
  unfold ValidateOwnershipCallbackState. cbn [CallbackSessions PendingCallbacks exportFederation].
  rewrite !(proj2 (Z.ltb_ge _ _)) by done. cbn [orb]. rewrite exportSessions_list.
  rewrite (validateCallbackSessions_spec fed) by (done || lia || (intros; apply lookup_empty)). cbn [mbind outcome_bind]. rewrite exportPending_list.
  rewrite (validatePending_spec fed); [|done|done|].
  2:{ intros h s Hs. exact (fold_insert_in fst seenCompleted (exportedList st) ∅ (h, s) Hnd Hs). }
  cbn [mbind outcome_bind].
  assert (forallb (fun hs : FederateHandle * (CallbackSessionState * gset Z) => Z.of_nat (size hs.2.2) =? wrapU 64 (LastCallbackID hs.2.1 - CompletedThrough hs.2.1))
    (map_to_list (fold_insert fst seenAll (exportedList st) (fold_insert fst seenCompleted (exportedList st) ∅))) = true) as ->; [|done].
  apply forallb_forall. intros [h x] Hx. apply list_elem_of_In, elem_of_map_to_list in Hx.
  destruct (decide (h ∈ map fst (exportedList st))) as [Hh|Hh].
  - apply list_elem_of_fmap in Hh as ([h' s] & -> & Hs). pose proof (fold_insert_in fst seenAll (exportedList st) (fold_insert fst seenCompleted (exportedList st) ∅) (h', s) Hnd Hs) as E.
    cbn [fst] in E, Hx. rewrite E in Hx. injection Hx as <-. simpl. destruct (Hm h' s Hs) as (_ & Hok & _). rewrite session_size by done. fold (window s).
    unfold wrapU. rewrite Z.mod_small; [apply Z.eqb_refl|]. apply Hin in Hs as [Hs _].
    pose proof (window_le _ _ _ ltac:(intros ? ?; by eapply ledger_window) Hs). pose proof (session_window _ Hok). unfold MaxCallbackStateCount in Hw. lia.
  - rewrite !fold_insert_notin, lookup_empty in Hx by done. done.
Qed.

(** ** The import rebuilds the sessions *)
Definition blankSession (s : ownershipCallbackSession) : ownershipCallbackSession :=
  Build_ownershipCallbackSession (scope s) (enabled s) (enabled s) (lastID s) (completedThrough s) (completed s) ∅.
Lemma importSessions_spec fed l : forall m, (forall h s, (h, s) ∈ l -> member_ok fed h s) -> NoDup (map fst l) -> (forall h, h ∈ map fst l -> m !! h = None) ->
  fold_left (importSession fed) (map (fun hs => exportSession hs.1 hs.2) l) m = fold_insert fst (fun hs => blankSession hs.2) l m.
Proof.
  induction l as [|[h s] l IH]; intros m Hm Hnd Hdis; [done|]. cbn [map fold_left fst snd]. simpl in Hnd. inversion Hnd as [|? ? Hni Hnd']; subst.
  destruct (Hm h s ltac:(by left)) as (_ & Hok & Hf & Hr & _).
  assert (importSession fed m (exportSession h s) = <[h := blankSession s]> m) as ->.
  { unfold importSession. simpl. rewrite (Hdis h) by (by left). simpl. f_equal. unfold blankSession. rewrite (right_id_L ∅ (∪)).
    assert (list_to_set (sortHandles (elements (completed s))) = completed s) as ->
      by (apply set_eq; intros id; by rewrite elem_of_list_to_set, sortHandles_in, elem_of_elements).
    f_equal. destruct (scope s). simpl in *. by subst. }
  rewrite fold_insert_cons. apply IH; [intros; apply Hm; by right|done|]. intros h' Hh'. cbn [fst].
  rewrite lookup_insert_ne; [apply Hdis; by right|]. by intros ->.
Qed.
Lemma importCallbacks_app c1 c2 : forall m, importCallbacks m (c1 ++ c2) = importCallbacks m c1 ≫= (fun m => importCallbacks m c2).
Proof. induction c1 as [|c c1 IH]; intros m; [done|]. simpl. destruct (importCallback _ _); simpl; [apply IH|done..]. Qed.
Definition importedEntry (ie : Z * terminalCallback) : terminalCallback := newTerminal (event ie.2).
Lemma importEntries_spec h s es : (forall id e, (id, e) ∈ es -> entry_ok h s id e) -> forall (m : gmap Z ownershipCallbackSession) s0, m !! h = Some s0 ->
  scope s0 = scope s -> enabled s0 = enabled s ->
  importCallbacks m (map (exportEntry h) es) = Ret (<[h := set_pendingCb s0 (fold_insert fst importedEntry es (pendingCb s0))]> m).
Proof.
  induction es as [|[id e] es IH]; intros He m s0 Hh Esc Een.
  - simpl. f_equal. rewrite insert_id; [done|]. rewrite Hh. by destruct s0.
  - cbn [map importCallbacks]. unfold importCallback. change (t_Recipient (exportEntry h (id, e))) with h. rewrite Hh. cbn [mbind outcome_bind].
    destruct (He id e ltac:(by left)) as (E1 & E2 & E3 & _).
    rewrite (IH ltac:(intros; apply He; by right) _ (set_pendingCb s0 (<[id := newTerminal (event e)]> (pendingCb s0)))); [| |done|done].
    + f_equal. rewrite insert_insert_eq. f_equal.
    + rewrite lookup_insert_eq. do 3 f_equal. unfold exportEntry, exportCallback. simpl. rewrite Esc, Een, <- E2, <- E3, <- E1.
      f_equal. unfold set_identity, set_RetainedProjection, newCallback. simpl. by destruct (event e).
Qed.
Lemma entriesOf_import s : fold_insert fst importedEntry (entriesOf s) ∅ = (fun e => newTerminal (event e)) <$> pendingCb s.
Proof.
  destruct (entriesOf_spec s) as [N E]. apply fold_insert_eq; [done| |].
  - intros [id e] Hie. apply E in Hie. simpl. by rewrite lookup_fmap, Hie.
  - intros id. rewrite lookup_fmap, fmap_is_Some. intros [e He]. apply list_elem_of_fmap. exists (id, e). split; [done|]. by apply E.
Qed.
Lemma importPending_spec fed l : forall m : gmap Z ownershipCallbackSession, (forall h s, (h, s) ∈ l -> member_ok fed h s) -> NoDup (map fst l) ->
  (forall h s, (h, s) ∈ l -> m !! h = Some (blankSession s)) ->
  importCallbacks m (flat_map (fun hs => map (exportEntry hs.1) (entriesOf hs.2)) l) = Ret (fold_insert fst (fun hs => restoredSession hs.2) l m).
Proof.
  induction l as [|[h s] l IH]; intros m Hm Hnd Hs; [done|]. cbn [flat_map]. rewrite importCallbacks_app. simpl in Hnd. inversion Hnd as [|? ? Hni Hnd']; subst.
  destruct (Hm h s ltac:(by left)) as (_ & Hok & _ & _ & _ & Hen). destruct (entriesOf_spec s) as [N E]. cbn [fst snd].
  rewrite (importEntries_spec h s (entriesOf s) ltac:(intros id e Hie; apply Hen; by apply E) m (blankSession s)); [|apply Hs; by left|done|done].
  cbn [mbind outcome_bind]. rewrite fold_insert_cons. cbn [fst snd pendingCb blankSession]. rewrite entriesOf_import.
  change (set_pendingCb (blankSession s) ((fun e => newTerminal (event e)) <$> pendingCb s)) with (restoredSession s).
  apply IH; [intros; apply Hm; by right|done|]. intros h' s' Hin. rewrite lookup_insert_ne; [apply Hs; by right|]. intros <-.
  apply Hni, list_elem_of_fmap. by exists (h, s').
Qed.
Lemma importSnapshot_ok fed st : ledger_ok fed st -> importFederation fed (exportFederation st) = Ret (restored st).
Proof.
  intros Hl. destruct (exportedList_spec st) as [Hnd Hin].
  assert (forall h s, (h, s) ∈ exportedList st -> member_ok fed h s) as Hm by (intros h s Hs; apply Hin in Hs as [Hs _]; by apply (lg_members _ _ Hl)).
  unfold importFederation, importCallbackState. cbn [CallbackSessions PendingCallbacks exportFederation].
  rewrite exportSessions_list, exportPending_list, (importSessions_spec fed) by (done || (intros; apply lookup_empty)).
  rewrite (importPending_spec fed); [|done|done|].
  2:{ intros h s Hs. exact (fold_insert_in fst (fun hs => blankSession hs.2) (exportedList st) ∅ (h, s) Hnd Hs). }
  cbn [mbind outcome_bind]. unfold restored, set_callbackSessions. f_equal. cbn [Owners PendingDivests PendingAcquires UnownedOffers exportFederation].
  destruct (exportedKeys_spec (owners st)), (exportedKeys_spec (pendingDivests st)), (acquireKeys_spec (pendingAcquires st)), (exportedKeys_spec (unownedOffers st)).
  f_equal.
  - apply (listing_import (fun k => Build_OwnerState k.1 k.2)); [by intros []|done|done|done].
  - apply (listing_import (fun k pd => Build_PendingDivestState k.1 k.2 (pd_owner pd) (pd_tag pd) (twoPhase pd) (confirmationRequested pd)));
      [by intros []|by intros k []|done|done].
  - apply (listing_import (fun k : acquireKey => Build_PendingAcquireState k.1.1 k.1.2 k.2)); [by intros [[]]|done|done|done].
  - apply (listing_import (fun k => Build_UnownedOfferState k.1 k.2)); [by intros []|done|done|done].
  - apply map_eq. intros h. rewrite lookup_omap. destruct (decide (h ∈ map fst (exportedList st))) as [Hh|Hh].
    + apply list_elem_of_fmap in Hh as ([h' s] & -> & Hs). cbn [fst].
      rewrite (fold_insert_in fst (fun hs => restoredSession hs.2) (exportedList st) _ (h', s) Hnd Hs). apply Hin in Hs as [-> Hx]. simpl. rewrite exportedSession_keep in Hx. by rewrite decide_True by by apply bool_decide_eq_true in Hx.
    + rewrite !fold_insert_notin, lookup_empty by done. destruct (callbackSessions st !! h) as [s|] eqn:E; [|done]. simpl.
      destruct (decide (something_to_keep s)) as [Hk|]; [|done]. destruct Hh. apply list_elem_of_fmap. exists (h, s). split; [done|].
      apply Hin. split; [done|]. rewrite exportedSession_keep. by apply bool_decide_eq_true.
Qed.

(** C10: what the manager exports of a reachable federation always passes the
    validation of a restore, and importing it succeeds and rebuilds the
    federation exactly: the same owners, offers, divestitures and requests, and
    every session with something to keep, its identity window, completed
    identities and callbacks owed; only delivery attempts start over, and strict
    sessions wait to be bound to a fresh scope. *)
Theorem saved_state_restores opts env m fed st : own_reachable opts env m -> m !! fed = Some st ->
  ValidateOwnershipCallbackState (ExportState m fed) = Ret () /\
  PrepareImportState fed (ExportState m fed) = Ret (Some (restored st)) /\
  own_wf (restored st).
Proof.
  intros Hr E. pose proof (own_reachable_ledger _ _ _ Hr fed st E) as Hl. unfold ExportState. rewrite E. cbn [fmap option_fmap option_map].
  pose proof (validateSnapshot_ok fed st Hl) as Hv. split_and!; [done| |].
  - unfold PrepareImportState. rewrite Hv. cbn [mbind outcome_bind]. by rewrite (importSnapshot_ok fed st Hl).
  - assert (mgr_wf m) as Hw; [|by apply (same_maps_wf st); [|apply (Hw fed)]]. clear -Hr. induction Hr; [apply map_Forall_empty|by eapply own_step_wf].
Qed.
Lemma saved_state_restores_witness :
  let sc := Build_OwnershipCallbackScope "f" 2 1 1 in
  let m1 := RegisterInitialOwnership ∅ "f" 1 10 [20; 21] in
  let m2 := mgr (EnableOwnershipCallbackReceipts m1 sc) in
  let m3 := mgr (Acquire noOptions allSent m2 "f" 2 10 [20] []) in
  let m4 := mgr (DivestIfWantedWithResult noOptions allSent m3 "f" 1 10 [20; 21]) in
  exists st, m4 !! "f" = Some st /\ (exists s, callbackSessions st !! 2 = Some s /\ is_Some (pendingCb s !! 1)) /\
    PrepareImportState "f" (ExportState m4 "f") = Ret (Some (restored st)).
Proof.
  intros sc m1 m2 m3 m4.
  assert (own_reachable noOptions allSent m4) as Hr.
  { apply (own_next _ _ m3); [|apply step_DivestIfWanted]. apply (own_next _ _ m2); [|apply step_Acquire].
    apply (own_next _ _ m1); [|apply step_Enable]. apply (own_next _ _ ∅); [apply own_initial|]. apply step_RegisterInitial.
    intros st a H. vm_compute in H. discriminate H. }
  destruct (m4 !! "f") as [st|] eqn:E; [|vm_compute in E; discriminate E].
  exists st. split; [done|]. split; [|exact (proj1 (proj2 (saved_state_restores _ _ _ "f" st Hr E)))].
  vm_compute in E. injection E as <-. vm_compute. eexists. split; [reflexivity|]. eexists. reflexivity.
Defined.
