(* ===== verification/OwnTransfer.v ===== *)
(** * What the ownership services promise

    No federate becomes an owner by a service, or at the resignation, deletion or
    unpublication of another, without a notification owed to it
    ([no_silent_acquisition]); what an acquisition does to each attribute
    ([acquisition_outcome]); a refused command changes nothing
    ([refused_command]); a resignation leaves nothing of the federate behind
    ([resignation_complete]). *)
From stdpp Require Import gmap.
From Stdlib Require Import Strings.Byte.
From S2P Require Import Prelude GoBytes Own OwnCallback OwnService OwnLifecycle OwnLedger OwnWindow OwnInvariant OwnReachable OwnLedgerSteps.
Open Scope Z_scope.

(** ** Who becomes an owner in a loop *)
Lemma fold_owner {A} (f : federationState -> A -> federationState) (key : A -> ownershipKey) (win : A -> FederateHandle) l :
  (forall s a k h, owners (f s a) !! k = Some h -> owners s !! k = Some h \/ (key a = k /\ win a = h)) ->
  forall st k h, owners (fold_left f l st) !! k = Some h -> owners st !! k = Some h \/ exists a, a ∈ l /\ key a = k /\ win a = h.
Proof.
  intros Hf st k h. apply (fold_left_ind (fun s => owners s !! k = Some h -> owners st !! k = Some h \/ exists a, a ∈ l /\ key a = k /\ win a = h)); [tauto|].
  intros s a Ha IH H. apply Hf in H as [H|H]; [by apply IH|]. right. by exists a.
Qed.
Lemma insert_owner st k0 w k h : <[k0 := w]> (owners st) !! k = Some h -> owners st !! k = Some h \/ (k0 = k /\ w = h).
Proof. intros [[-> ->]|[_ ?]]%lookup_insert_Some; [by right|by left]. Qed.
Lemma fold_complete {A} (attr : A -> AttributeHandle) (win : A -> FederateHandle) obj (l : list A) st k h :
  owners (fold_left (fun st a => complete_transfer st (obj, attr a) (win a)) l st) !! k = Some h ->
  owners st !! k = Some h \/ exists a, a ∈ l /\ (obj, attr a) = k /\ win a = h.
Proof. apply (fold_owner _ (fun a => (obj, attr a)) win). intros s a k' h'. apply insert_owner. Qed.

(** [t] tells its recipient of acquiring [k], and is owed in [st]. *)
Definition announces (fed : FederationName) (st : federationState) (k : ownershipKey) (h : FederateHandle) (t : OutboxDelivery) : Prop :=
  Recipient t = h /\ Kind (Event t) = CallbackAcquisitionNotification /\ Object (Event t) = k.1 /\ k.2 ∈ Attributes (Event t) /\ owed fed st t.
Lemma identified_announces fed st obj attrs w tag t a : identified (normalizeDelivery (Delivery w (acquireNotificationEvent obj attrs w tag))) t ->
  a ∈ attrs -> owed fed st t -> announces fed st (obj, a) w t.
Proof. intros (E1 & id & sc & b & E2) Ha Ho. split_and!; try done; rewrite E2; try done. by apply sortCompact_in. Qed.
Lemma owed_same fed st st' t : callbackSessions st' = callbackSessions st -> owed fed st t -> owed fed st' t.
Proof. unfold owed, callbackSession. by intros ->. Qed.
Lemma zip_in {A B} (R : A -> B -> Prop) l k x : Forall2 R l k -> x ∈ l -> exists y, (x, y) ∈ zip l k /\ y ∈ k /\ R x y.
Proof.
  induction 1 as [|a b l k Hab _ IH]; [intros []%elem_of_nil|]. intros [->|Hx]%elem_of_cons; [exists b; split_and!; [by left|by left|done]|].
  destruct (IH Hx) as (y & ? & ? & ?). exists y. split_and!; [by right|by right|done].
Qed.
Lemma Forall2_map_l {A A' B} (R : A' -> B -> Prop) (g : A -> A') l k : Forall2 R (map g l) k -> Forall2 (fun a => R (g a)) l k.
Proof. revert k. induction l as [|a l IH]; intros k H; inversion H; subst; constructor; [done|by apply IH]. Qed.
Lemma in_flat_map_intro {A B} (f : A -> list B) l x y : x ∈ l -> y ∈ f x -> y ∈ flat_map f l.
Proof. rewrite !list_elem_of_In. intros. apply in_flat_map. eauto. Qed.

(** The changes through which a service gives an attribute away or takes it; the
    plans of a resignation, a deletion and an unpublication are committed with
    the terminal callbacks they registered, which whoever prepared the plan
    delivers. *)
Inductive service_change (opts : Options) (fed : FederationName) (st : federationState) : federationState -> list post -> Prop :=
| change_UnconditionalDivest owner obj attrs st' ps :
    unconditionalDivestChange opts fed owner obj attrs st = (st', Ret (ps, ())) -> service_change opts fed st st' ps
| change_NegotiatedDivest owner obj attrs tag two st' ps :
    negotiatedDivestChange opts fed owner obj attrs tag two st = (st', Ret (ps, ())) -> service_change opts fed st st' ps
| change_ConfirmDivestiture owner obj attrs tag st' ps :
    confirmDivestitureChange opts fed owner obj attrs tag st = (st', Ret (ps, ())) -> service_change opts fed st st' ps
| change_Acquire acquirer obj attrs tag ifav st' ps :
    acquireChange opts fed acquirer obj attrs tag ifav st = (st', Ret (ps, ())) -> service_change opts fed st st' ps
| change_DivestIfWanted owner obj attrs st' ps r :
    divestIfWantedChange opts fed owner obj attrs st = (st', Ret (ps, r)) -> service_change opts fed st st' ps
| change_CancelDivest owner obj attrs st' ps :
    cancelDivestChange owner obj attrs st = (st', Ret (ps, ())) -> service_change opts fed st st' ps
| change_CancelAcquire acquirer obj attrs st' ps :
    cancelAcquireChange opts fed acquirer obj attrs st = (st', Ret (ps, ())) -> service_change opts fed st st' ps
| change_Resign h action gone project p st' ts : projected project ->
    (p ← PrepareResign opts (Some st) fed h action gone; match project with Some f => PrepareCallbackProjections (Some st) p f | None => Ret p end) = Ret p ->
    commitResign opts st fed p = Ret (st', ts) -> service_change opts fed st st' (map PostTerminal ts)
| change_DeleteObjects objects kept project p st' ts : projected project ->
    PrepareObjectDeletion opts (Some st) fed objects kept project = Ret p ->
    commitResign opts st fed p = Ret (st', ts) -> service_change opts fed st st' (map PostTerminal ts)
| change_Unpublish publisher keys project p st' ts : projected project ->
    (p ← PrepareUnpublicationCommit opts (Some st) fed publisher keys;
     match project with
     | Some f => ds ← projectUnpublication f (u_deliveries p); Ret (Build_unpublicationPlan (u_publisher p) (u_transfers p) ds)
     | None => Ret p
     end) = Ret p ->
    commitUnpublication opts st fed p = Ret (st', ts) -> service_change opts fed st st' (map PostTerminal ts).

Lemma checked_inv {A} st (r : outcome own_error (federationState * list post * A)) st' ps a :
  checked st r = (st', Ret (ps, a)) -> r = Ret (st', ps, a).
Proof. destruct r as [[[s p] x]| |]; simpl; [|done..]. by intros [= -> -> ->]. Qed.

Lemma fold_owners {A} (f : federationState -> A -> federationState) l : (forall s a, owners (f s a) = owners s) ->
  forall st, owners (fold_left f l st) = owners st.
Proof. intros Hf. induction l as [|a l IH]; intros st; [done|]. simpl. by rewrite IH, Hf. Qed.
Lemma setConfirmation_owners st k b : owners (setConfirmation st k b) = owners st.
Proof. unfold setConfirmation. by destruct (_ !! _). Qed.
Lemma elem_of_take_in {A} (x : A) n l : x ∈ take n l -> x ∈ l.
Proof. rewrite <- (take_drop n l) at 2. intros. apply elem_of_app. by left. Qed.
Lemma elem_of_drop {A} (x : A) n l : x ∈ drop n l -> x ∈ l.
Proof. rewrite <- (take_drop n l) at 2. intros. apply elem_of_app. by right. Qed.
Lemma acquireDeliveries_ok fed acquirer obj tag cls st d : d ∈ acquireDeliveries acquirer obj tag cls -> deliverable fed st d.
Proof.
  unfold acquireDeliveries. rewrite !elem_of_app. intros [Hd|[Hd|Hd]].
  - apply list_elem_of_fmap in Hd as (o & -> & _). done.
  - destruct (fromUnownedAttrs cls); [by apply elem_of_nil in Hd|]. by apply list_elem_of_singleton in Hd as ->.
  - destruct (unavailableAttrs cls); [by apply elem_of_nil in Hd|]. by apply list_elem_of_singleton in Hd as ->.
Qed.

Lemma registered_spec opts fed st ds st' ts : registerTerminalCallbacks opts fed st ds = Ret (st', ts) -> ledger_ok fed st ->
  (forall d, d ∈ ds -> deliverable fed st d) ->
  ledger_ok fed st' /\ Forall2 (fun d t => identified (normalizeDelivery d) t) ds ts /\ (forall t, t ∈ ts -> owed fed st' t) /\
  extends fed st st' /\ forall h, lastID (callbackSession st' fed h) = lastID (callbackSession st fed h) + countFor h ds.
Proof. intros Hr Hl Hd. by eapply registerTerminal_spec. Qed.

Section Announced.
Context (opts : Options) (fed : FederationName).
Definition announced (st st' : federationState) (ps : list post) : Prop :=
  forall k h, owners st' !! k = Some h -> owners st !! k <> Some h -> exists t, PostTerminal t ∈ ps /\ announces fed st' k h t.

(** A loop of transfers, one registered notification each. *)
Lemma announced_each {A} (d : A -> OutboxDelivery) (attr : A -> AttributeHandle) (win : A -> FederateHandle) obj tag l st0 st1 st' ts k h (ps : list post)
    (posts : A * OutboxDelivery -> list post) :
  Forall2 (fun d t => identified (normalizeDelivery d) t) (map d l) ts -> (forall t, t ∈ ts -> owed fed st1 t) ->
  (forall a, d a = Delivery (win a) (acquireNotificationEvent obj [attr a] (win a) (tag a))) ->
  callbackSessions st' = callbackSessions st1 -> (forall p, PostTerminal p.2 ∈ posts p) -> (forall x, x ∈ flat_map posts (zip l ts) -> x ∈ ps) ->
  owners st0 !! k <> Some h -> owners st0 !! k = Some h \/ (exists a, a ∈ l /\ (obj, attr a) = k /\ win a = h) ->
  exists t, PostTerminal t ∈ ps /\ announces fed st' k h t.
Proof.
  intros HF Hown Hd Hs Hp Hps Hne [Hk|(a & Ha & <- & <-)]; [done|]. apply Forall2_map_l in HF.
  destruct (zip_in _ _ _ a HF Ha) as (t & Hz & Ht & Hid). exists t. split.
  - apply Hps. apply (in_flat_map_intro posts _ (a, t)); [done|]. apply (Hp (a, t)).
  - rewrite Hd in Hid. eapply identified_announces; [exact Hid|by left|]. eapply owed_same; [exact Hs|]. by apply Hown.
Qed.
Lemma unconditionalDivest_announced owner obj attrs st st' ps : ledger_ok fed st ->
  unconditionalDivestChange opts fed owner obj attrs st = (st', Ret (ps, ())) -> announced st st' ps.
Proof.
  intros Hl H%checked_inv k h Hk Hne. bind_inv H. bind_inv H. destruct r0 as [trs unowned]. bind_inv H. destruct r0 as [st1 ts]. injection H as <- <-.
  destruct (registered_spec _ _ _ _ _ _ Hr1 Hl ltac:(intros d (tr & -> & _)%list_elem_of_fmap; done)) as (_ & HF & Hown & _ & _).
  eapply (announced_each (transferDelivery obj []) tr_attr tr_winner obj (fun _ => []) trs st st1 _ ts k h _
    (fun p => notifyAcquisition obj [tr_attr p.1] owner (tr_winner p.1) p.2 ++ map PostSend (tr_remaining p.1))); try done.
  - by rewrite !fold_sessions.
  - intros p. apply elem_of_app. left. right. by left.
  - intros x Hx. right. apply elem_of_app. by left.
  - apply (fold_owner _ (fun tr => (obj, tr_attr tr)) tr_winner) in Hk as [Hk|?]; [|by right|intros s a k' h'; apply insert_owner].
    apply (fold_owner _ (fun a => (obj, a)) (fun _ => owner)) in Hk as [Hk|(a & Ha & <- & <-)].
    + left. apply register_maps in Hr1 as [<- _]. done.
    + left. destruct r. by apply (validateOwned_inv _ _ _ _ Hr).
    + intros s a k' h'. own_simpl. rewrite lookup_delete_Some. tauto.
Qed.
Lemma negotiatedDivest_announced owner obj attrs tag two st st' ps : ledger_ok fed st ->
  negotiatedDivestChange opts fed owner obj attrs tag two st = (st', Ret (ps, ())) -> announced st st' ps.
Proof.
  intros Hl H%checked_inv k h Hk Hne. bind_inv H. destruct r as [[st0 cs] ts]. injection H as <- <-.
  unfold recordPendingDivest in Hr. bind_inv Hr. bind_inv Hr. destruct r0 as [st1 ts']. injection Hr as <- <- <-.
  destruct two.
  - injection Hr1 as <- <-. rewrite fold_owners in Hk by (intros; apply setConfirmation_owners). by rewrite fold_owners in Hk.
  - destruct (registered_spec _ _ _ _ _ _ Hr1 Hl ltac:(intros d (c & -> & _)%list_elem_of_fmap; done)) as (_ & HF & Hown & _ & _).
    eapply (announced_each (completionDelivery obj tag) pc_attr pc_acquirer obj (fun _ => tag) _ st st1 _ ts' k h _
      (fun p => notifyTransfer obj [pc_attr p.1] owner (pc_acquirer p.1) p.2)); try done.
    + by rewrite !fold_sessions.
    + intros p. right. right. by left.
    + intros x Hx. right. right. apply elem_of_app. by left.
    + apply (fold_complete pc_attr pc_acquirer) in Hk as [Hk|?]; [|by right]. left. rewrite fold_owners in Hk by done.
      apply register_maps in Hr1 as [<- _]. done.
Qed.
Lemma confirmDivestiture_announced owner obj attrs tag st st' ps : ledger_ok fed st ->
  confirmDivestitureChange opts fed owner obj attrs tag st = (st', Ret (ps, ())) -> announced st st' ps.
Proof.
  intros Hl. unfold confirmDivestitureChange. destruct (validateOwnedAttributes _ _ _ _) as [[]| |]; [|done..].
  destruct (checkConfirmable _ _ _ _) as [[]| |]; [|done..]. destruct (waitingAttrs st obj attrs); [|done].
  intros H%checked_inv k h Hk Hne. bind_inv H. bind_inv H. destruct r0 as [st1 ts]. injection H as <- <-.
  destruct (registered_spec _ _ _ _ _ _ Hr0 Hl ltac:(intros d (c & -> & _)%list_elem_of_fmap; done)) as (_ & HF & Hown & _ & _).
  apply (fold_complete (A := AttributeHandle * FederateHandle) fst snd) in Hk as [Hk|([a w] & Hin & <- & <-)];
    [apply register_maps in Hr0 as [E _]; by rewrite E in Hk|]. apply elem_of_map_to_list in Hin. cbn [fst snd] in *.
  apply Forall2_map_l in HF. destruct (zip_in _ _ _ w HF) as (t & Hz & Ht & Hid).
  { unfold sortedWinnerHandles. apply sortCompact_in, list_elem_of_fmap. exists (a, w). split; [done|]. by apply elem_of_map_to_list. }
  exists t. split.
  - apply elem_of_app. left. apply (in_flat_map_intro _ _ (w, t)); [done|]. right. by left.
  - eapply identified_announces; [exact Hid| |].
    + unfold byWinner. apply list_elem_of_filter. split; [done|]. unfold sortHandles. rewrite merge_sort_Permutation. apply elem_of_elements, elem_of_dom. by rewrite Hin.
    + eapply owed_same; [by apply fold_sessions|]. by apply Hown.
Qed.
Lemma divestIfWanted_announced owner obj attrs st st' ps r : ledger_ok fed st ->
  divestIfWantedChange opts fed owner obj attrs st = (st', Ret (ps, r)) -> announced st st' ps.
Proof.
  intros Hl H%checked_inv k h Hk Hne. bind_inv H. bind_inv H. destruct r1 as [st1 ts]. injection H as <- <- _.
  destruct (registered_spec _ _ _ _ _ _ Hr0 Hl ltac:(intros d (c & -> & _)%list_elem_of_fmap; done)) as (_ & HF & Hown & _ & _).
  eapply (announced_each (wantedDelivery st obj) pc_attr pc_acquirer obj (fun c => requestTag st obj (pc_attr c) (pc_acquirer c)) _ st st1 _ ts k h _
    (fun p => notifyAcquisition obj [pc_attr p.1] owner (pc_acquirer p.1) p.2)); try done.
  - by rewrite !fold_sessions.
  - intros p. right. by left.
  - intros x Hx. right. apply elem_of_app. by left.
  - apply (fold_complete pc_attr pc_acquirer) in Hk as [Hk|?]; [|by right]. left. apply register_maps in Hr0 as [<- _]. done.
Qed.
Lemma Forall2_app3 {A B} (R : A -> B -> Prop) l1 l2 l3 k : Forall2 R (l1 ++ l2 ++ l3) k ->
  Forall2 R l1 (take (length l1) k) /\ Forall2 R l2 (take (length l2) (drop (length l1) k)).
Proof.
  intros H. apply Forall2_app_inv_l in H as (k1 & k' & H1 & H' & ->). apply Forall2_app_inv_l in H' as (k2 & k3 & H2 & H3 & ->).
  rewrite (Forall2_length _ _ _ H1), (Forall2_length _ _ _ H2). by rewrite take_app_length, drop_app_length, take_app_length.
Qed.
Lemma acquire_announced acquirer obj attrs tag ifav st st' ps : ledger_ok fed st ->
  acquireChange opts fed acquirer obj attrs tag ifav st = (st', Ret (ps, ())) -> announced st st' ps.
Proof.
  intros Hl H%checked_inv k h Hk Hne. bind_inv H. bind_inv H. destruct r0 as [st1 ts]. injection H as <- <-.
  assert (callbackSessions (acquireState acquirer obj tag r st1) = callbackSessions st1) as Es.
  { unfold acquireState. rewrite !fold_sessions; try done. intros. apply setConfirmation_sessions. }
  destruct (registered_spec _ _ _ _ _ _ Hr0 Hl (acquireDeliveries_ok fed acquirer obj tag r st)) as (_ & HF & Hown & _ & _).
  apply Forall2_app3 in HF as [HF1 HF2]. rewrite length_map in HF1, HF2.
  assert (forall t, t ∈ ts -> owed fed (acquireState acquirer obj tag r st1) t) as Hown' by (intros t Ht; eapply owed_same; [exact Es|by apply Hown]).
  apply (fold_complete (A := AttributeHandle * FederateHandle) fst (fun _ => acquirer)) in Hk as [Hk|([a o] & Ha & <- & <-)].
  - rewrite fold_owners in Hk by (intros; apply setConfirmation_owners). rewrite fold_owners in Hk by done.
    apply (fold_owner _ (fun a => (obj, a)) (fun _ => acquirer)) in Hk as [Hk|(a & Ha & <- & <-)]; [|  |intros s a k' h'; apply insert_owner].
    + apply register_maps in Hr0 as [E _]. by rewrite E in Hk.
    + destruct (fromUnownedAttrs r) as [|u us] eqn:Eu; [by apply elem_of_nil in Ha|]. inversion HF2 as [|? t ? l Hid _ E1 E2]; subst.
      cbn [length] in E2. exists t. split.
      * unfold acquirePosts. cbv zeta. rewrite Eu. rewrite bool_decide_false by done. right. apply elem_of_app. right. apply elem_of_app. left.
        change (if false then 0%nat else 1%nat) with 1%nat. rewrite <- E2. apply (in_flat_map_intro _ _ t); [by left|]. right. by left.
      * eapply identified_announces; [exact Hid|unfold sortHandles; by rewrite merge_sort_Permutation|]. apply Hown'.
        assert (t ∈ take 1 (drop (length (ownersIn (readyAttrs r))) ts)) as Hin by (rewrite <- E2; by left).
        by eapply elem_of_drop, elem_of_take_in.
  - destruct (zip_in _ _ _ o (Forall2_map_l _ _ _ _ HF1)) as (t & Hz & Ht & Hid).
    { unfold ownersIn. apply sortCompact_in, list_elem_of_fmap. by exists (a, o). }
    exists t. split.
    + right. apply elem_of_app. left. apply (in_flat_map_intro _ _ (o, t)); [done|]. right. right. by left.
    + eapply identified_announces; [exact Hid| |apply Hown'; by eapply elem_of_take_in].
      unfold attrsOf, sortHandles. rewrite merge_sort_Permutation. apply list_elem_of_fmap. exists (a, o). split; [done|]. by apply list_elem_of_filter.
Qed.

(** *** Plans: every transfer has its notification among the deliveries. *)
Definition covers (ts : list (ownershipKey * FederateHandle)) (ds : list (bool * OutboxDelivery)) : Prop :=
  forall k w, (k, w) ∈ ts -> w <> InvalidFederateHandle -> exists d, (true, d) ∈ ds /\ Recipient d = w /\
    Kind (Event d) = CallbackAcquisitionNotification /\ Object (Event d) = k.1 /\ Attributes (Event d) = [k.2].
Lemma covers_cons k w ts ds ds' : (w <> InvalidFederateHandle -> exists tag, (true, Delivery w (acquireNotificationEvent k.1 [k.2] w tag)) ∈ ds) ->
  covers ts ds' -> covers ((k, w) :: ts) (ds ++ ds').
Proof.
  intros Hd Hc k' w' [[= -> ->]|Hin]%elem_of_cons Hw.
  - destruct (Hd Hw) as [tag Hin]. eexists. split; [apply elem_of_app; left; exact Hin|done].
  - destruct (Hc k' w' Hin Hw) as (d & Hin' & Hr). exists d. split; [apply elem_of_app; by right|done].
Qed.
Lemma prepareResignTransfers_covers st h ks : forall ts ds, prepareResignTransfers opts fed st h ks = Ret (ts, ds) -> covers ts ds.
Proof.
  induction ks as [|k ks IH]; simpl; intros ts ds H; [injection H as <- <-; by intros ? ? ?%elem_of_nil|].
  bind_inv H. destruct r as [w ds1]. bind_inv H. destruct r as [ts2 ds2]. injection H as <- <-. apply covers_cons; [|by apply IH].
  intros Hw. unfold prepareResignTransfer in Hr. match type of Hr with (if ?b then _ else _) = _ => destruct b eqn:Ew end; [apply Z.eqb_eq in Ew; injection Hr as <- _; by destruct Hw|].
  destruct (negb _) in Hr; [done|]. injection Hr as <- <-. eexists. by left.
Qed.
Lemma prepareTransfers_covers st h ks : forall ts ds, prepareTransfers opts fed st h ks = Ret (ts, ds) -> covers ts ds.
Proof.
  induction ks as [|k ks IH]; simpl; intros ts ds H; [injection H as <- <-; by intros ? ? ?%elem_of_nil|].
  destruct (negb _) in H; [by apply IH|]. cbv zeta in H. destruct (_ && _) in H; [done|]. bind_inv H. destruct r as [ts2 ds2]. injection H as <- <-.
  apply covers_cons; [|by apply IH]. intros Hw. unfold InvalidFederateHandle in Hw. apply Z.eqb_neq in Hw. rewrite Hw. eexists. by left.
Qed.
(** Projections only annotate the callbacks. *)
Lemma projectDeliveries_covers f ts ds : forall ds', projectDeliveries f (map snd ds) = Ret ds' -> covers ts ds -> covers ts (zip (map fst ds) ds').
Proof.
  assert (Hz : forall (ds : list (bool * OutboxDelivery)) ds', projectDeliveries f (map snd ds) = Ret ds' -> forall b d, (b, d) ∈ ds ->
    exists p, (b, Delivery (Recipient d) (set_RetainedProjection (Event d) p)) ∈ zip (map fst ds) ds').
  { intros l. induction l as [|[b0 d0] l IH]; simpl; intros ds' H b d Hin; [by apply elem_of_nil in Hin|]. bind_inv H. bind_inv H. injection H as <-.
    apply elem_of_cons in Hin as [[= -> ->]|Hin]; [eexists; by left|]. destruct (IH _ Hr0 b d Hin) as [p Hp]. exists p. by right. }
  intros ds' H Hc k w Hin Hw. destruct (Hc k w Hin Hw) as (d & Hd & ? & ? & ? & ?). destruct (Hz _ _ H _ _ Hd) as [p Hp]. eexists. by split; [exact Hp|].
Qed.
Lemma projectUnpublication_covers f ts ds : forall ds', projectUnpublication f ds = Ret ds' -> covers ts ds -> covers ts ds'.
Proof.
  assert (Hz : forall (ds ds' : list (bool * OutboxDelivery)), projectUnpublication f ds = Ret ds' -> forall b d, (b, d) ∈ ds ->
    exists p, (b, Delivery (Recipient d) (set_RetainedProjection (Event d) p)) ∈ ds').
  { intros l. induction l as [|[b0 d0] l IH]; simpl; intros ds' H b d Hin; [by apply elem_of_nil in Hin|]. bind_inv H. destruct (_ || _) in H; [done|]. bind_inv H. injection H as <-.
    apply elem_of_cons in Hin as [[= -> ->]|Hin]; [eexists; by left|]. destruct (IH _ Hr0 b d Hin) as [p Hp]. exists p. by right. }
  intros ds' H Hc k w Hin Hw. destruct (Hc k w Hin Hw) as (d & Hd & ? & ? & ? & ?). destruct (Hz _ _ H _ _ Hd) as [p Hp]. eexists. by split; [exact Hp|].
Qed.
(** A delivery that was registered is owed as it was. *)
Lemma registered_announces st ds st' ts k d : registerTerminalCallbacks opts fed st ds = Ret (st', ts) -> ledger_ok fed st -> (forall d, d ∈ ds -> plain d) -> d ∈ ds ->
  Kind (Event d) = CallbackAcquisitionNotification -> Object (Event d) = k.1 -> Attributes (Event d) = [k.2] -> exists t, t ∈ ts /\ announces fed st' k (Recipient d) t.
Proof.
  intros Hr Hl Hp Hd Ek Eo Ea. destruct (registered_spec _ _ _ _ _ _ Hr Hl (fun d Hd => plain_deliverable _ _ _ (Hp d Hd))) as (_ & HF & Hown & _).
  destruct (zip_in _ _ _ d HF Hd) as (t & _ & Ht & (E1 & id & sc & b & E2)). exists t. split; [done|]. split; [done|]. rewrite E2. split; [exact Ek|]. split; [exact Eo|].
  split; [|by apply Hown]. simpl. rewrite Ea. apply sortCompact_in. by left.
Qed.
(** Who owns an attribute after a loop of transfers. *)
Lemma transfers_owner (f : federationState -> ownershipKey * FederateHandle -> federationState) l :
  (forall s t k h, owners (f s t) !! k = Some h -> owners s !! k = Some h \/ (t = (k, h) /\ h <> InvalidFederateHandle)) ->
  forall st k h, owners (fold_left f l st) !! k = Some h -> owners st !! k = Some h \/ ((k, h) ∈ l /\ h <> InvalidFederateHandle).
Proof.
  intros Hf st k h. apply (fold_left_ind (fun s => owners s !! k = Some h -> owners st !! k = Some h \/ ((k, h) ∈ l /\ h <> InvalidFederateHandle))); [by left|].
  intros s t Ht IH H. apply Hf in H as [H|[-> Hw]]; [by apply IH|]. by right.
Qed.
Lemma resignTransfer_owner s t k h : owners (resignTransfer s t) !! k = Some h -> owners s !! k = Some h \/ (t = (k, h) /\ h <> InvalidFederateHandle).
Proof.
  destruct t as [k0 w]. unfold resignTransfer. simpl. destruct (Z.eqb_spec w InvalidFederateHandle) as [->|Hw]; own_simpl; [intros [_ ?]%lookup_delete_Some; by left|].
  intros [[-> ->]|[_ ?]]%lookup_insert_Some; [by right|by left].
Qed.
Lemma unpublishTransfer_owner publisher s t k h : owners (unpublishTransfer publisher s t) !! k = Some h -> owners s !! k = Some h \/ (t = (k, h) /\ h <> InvalidFederateHandle).
Proof.
  destruct t as [k0 w]. unfold unpublishTransfer. simpl. destruct (Z.eqb_spec w 0) as [->|Hw]; own_simpl; [intros [_ ?]%lookup_delete_Some; by left|].
  intros [[-> ->]|[_ ?]]%lookup_insert_Some; [by right|by left].
Qed.
Lemma commitResign_announced st p st' ts : ledger_ok fed st -> plan_plain st p -> covers (transfers p) (deliveries p) ->
  (forall k w, (k, w) ∈ transfers p -> w = InvalidFederateHandle \/ w <> pl_h p) -> commitResign opts st fed p = Ret (st', ts) -> announced st st' (map PostTerminal ts).
Proof.
  intros Hl Hp Hc Hw. unfold commitResign. destruct (registerTerminalCallbacks _ _ _ _) as [[st1 ts1]| |] eqn:Hr; [|done|done]. intros [= <- <-] k h Hk Hne.
  pose proof (register_maps _ _ _ _ _ _ Hr) as [Eo _]. simpl in Hk. apply (transfers_owner _ _ resignTransfer_owner) in Hk as [Hk|[Hin Hh]].
  { simpl in Hk. apply map_lookup_filter_Some in Hk as [Hk _]. by rewrite Eo in Hk. }
  destruct (Hc k h Hin Hh) as (d & Hd & Er & Ek & Eob & Ea).
  destruct (registered_announces _ _ _ _ k d Hr) as (t & Ht & Hann); [apply retainSessions_ledger; [done|apply Hp]|intros; by eapply terminal_plain| |done..|].
  { apply elem_of_app. right. apply list_elem_of_fmap. exists (true, d). split; [done|]. by apply list_elem_of_filter. }
  exists t. split; [by apply list_elem_of_fmap_2|]. destruct Hann as (A1 & A2 & A3 & A4 & A5). rewrite Er in A1. split_and!; try done.
  unfold owed, callbackSession in *. simpl. rewrite fold_sessions by (intros; unfold resignTransfer; by destruct (_ =? _)). simpl.
  rewrite lookup_delete_ne; [done|]. rewrite A1. destruct (Hw k h Hin); congruence.
Qed.
Lemma Resign_announced h action gone project p st st' ts : projected project -> ledger_ok fed st ->
  (p ← PrepareResign opts (Some st) fed h action gone; match project with Some f => PrepareCallbackProjections (Some st) p f | None => Ret p end) = Ret p ->
  commitResign opts st fed p = Ret (st', ts) -> announced st st' (map PostTerminal ts).
Proof.
  intros Hf Hl Hp. apply bind_Ret_inv in Hp as (p0 & Hp0 & Hp). pose proof (PrepareResign_plan _ _ _ _ _ _ _ Hp0) as (P1 & P2 & P3). pose proof (PrepareResign_plain _ _ _ _ _ _ _ Hp0) as Hpl.
  assert (Hc : covers (transfers p0) (deliveries p0)) by (apply PrepareResign_inv in Hp0 as (us & ds & Hus & ->); by eapply prepareResignTransfers_covers).
  assert (plan_plain st p /\ covers (transfers p) (deliveries p) /\ pl_h p = pl_h p0 /\ transfers p = transfers p0) as (H1 & H2 & H3 & H4).
  { destruct project as [f|]; [|by injection Hp as <-]. split; [by eapply projections_plain|]. unfold PrepareCallbackProjections in Hp. bind_inv Hp. bind_inv Hp. unfold prepareRetainedProjections in Hp. bind_inv Hp.
    injection Hp as <-. simpl. split; [|done]. by eapply projectDeliveries_covers. }
  apply commitResign_announced; try done. rewrite H3, H4, P1. intros k w Hin. destruct (P3 k w Hin) as (_ & _ & [?|[? _]]); [by left|by right].
Qed.
Lemma DeleteObjects_announced objects kept project p st st' ts : projected project -> ledger_ok fed st -> PrepareObjectDeletion opts (Some st) fed objects kept project = Ret p ->
  commitResign opts st fed p = Ret (st', ts) -> announced st st' (map PostTerminal ts).
Proof.
  intros Hf Hl Hp. assert (plan_plain st p /\ transfers p = []) as [Hpl Ht].
  { unfold PrepareObjectDeletion in Hp. destruct (_ || _); [done|]. destruct (existsb _ _); [done|]. bind_inv Hp. pose proof (PrepareResign_none _ _ _ _ _ _ Hr) as Hn. apply PrepareResign_plain in Hr.
    destruct project as [f|]; [|by injection Hp as <-]. apply bind_Ret_inv in Hp as (p1 & Hp1 & Hp). pose proof (projections_transfers _ _ _ _ Hp1) as E1. pose proof (projections_plain _ _ _ _ Hf Hr Hp1) as H1.
    split; [by eapply prepareRetained_plain|]. unfold prepareRetainedProjections in Hp. bind_inv Hp. injection Hp as <-. simpl. congruence. }
  apply commitResign_announced; try done; rewrite Ht; by intros k w ?%elem_of_nil.
Qed.
Lemma Unpublish_announced publisher keys project p st st' ts : projected project -> ledger_ok fed st ->
  (p ← PrepareUnpublicationCommit opts (Some st) fed publisher keys;
   match project with Some f => ds ← projectUnpublication f (u_deliveries p); Ret (Build_unpublicationPlan (u_publisher p) (u_transfers p) ds) | None => Ret p end) = Ret p ->
  commitUnpublication opts st fed p = Ret (st', ts) -> announced st st' (map PostTerminal ts).
Proof.
  intros Hf Hl Hp. assert ((forall d, (true, d) ∈ u_deliveries p -> plain d) /\ covers (u_transfers p) (u_deliveries p)) as [Hpl Hc].
  { bind_inv Hp. unfold PrepareUnpublicationCommit in Hr. destruct (existsb _ _) in Hr; [done|]. destruct (existsb _ _) in Hr; [done|]. cbv zeta in Hr. destruct (existsb _ _) in Hr; [done|].
    bind_inv Hr. destruct r0 as [us ds]. bind_inv Hr. injection Hr as <-. destruct (prepareTransfers_plain _ _ _ _ _ _ _ Hr0) as [P1 P2]. apply prepareTransfers_covers in Hr0.
    destruct project as [f|]; [|by injection Hp as <-]. apply bind_Ret_inv in Hp as (ds' & Hds & [= <-]). simpl in *. split; [by eapply projectUnpublication_plain|by eapply projectUnpublication_covers]. }
  unfold commitUnpublication. destruct (registerTerminalCallbacks _ _ _ _) as [[st1 ts1]| |] eqn:Hr; [|done..]. intros [= <- <-] k h Hk Hne.
  pose proof (register_maps _ _ _ _ _ _ Hr) as [Eo _]. apply (transfers_owner _ _ (unpublishTransfer_owner _)) in Hk as [Hk|[Hin Hh]]; [by rewrite Eo in Hk|].
  destruct (Hc k h Hin Hh) as (d & Hd & Er & Ek & Eob & Ea). assert (Hterm : forall d, d ∈ u_terminals p <-> (true, d) ∈ u_deliveries p).
  { intros x. unfold u_terminals. rewrite list_elem_of_fmap. split; [intros ([b d'] & -> & [Eb Hx]%list_elem_of_filter); simpl in *; by subst|]. intros Hx. exists (true, x). split; [done|]. by apply list_elem_of_filter. }
  destruct (registered_announces _ _ _ _ k d Hr Hl) as (t & Ht & Hann); [intros x Hx; by apply Hpl, Hterm|by apply Hterm|done..|].
  exists t. split; [by apply list_elem_of_fmap_2|]. destruct Hann as (A1 & A2 & A3 & A4 & A5). rewrite Er in A1. split_and!; try done.
  eapply owed_same; [|exact A5]. apply fold_sessions. intros s x. unfold unpublishTransfer. by destruct (_ =? _).
Qed.
End Announced.

Definition offeredState : federationState :=
  set_pendingAcquires (set_owners newFederationState {[ (10, 20) := 1 ]}) {[ (10, 20, 2) := [] ]}.

(** The owner resigns, and the attribute goes to who had asked for it. *)
Example resignation_announced : exists p st' ts t, PrepareResign noOptions (Some offeredState) "f" 1 ResignActionUnconditionallyDivestAttributes [] = Ret p /\
  commitResign noOptions offeredState "f" p = Ret (st', ts) /\ owners st' !! (10, 20) = Some 2 /\ t ∈ ts /\ announces "f" st' (10, 20) 2 t.
Proof.
  assert (Hrun : match PrepareResign noOptions (Some offeredState) "f" 1 ResignActionUnconditionallyDivestAttributes [] with
    | Ret p => match commitResign noOptions offeredState "f" p with Ret (st', _) => owners st' !! (10, 20) | _ => None end
    | _ => None
    end = Some 2) by (vm_compute; reflexivity).
  destruct (PrepareResign noOptions (Some offeredState) "f" 1 ResignActionUnconditionallyDivestAttributes []) as [p| |] eqn:Ep; [|discriminate Hrun..].
  destruct (commitResign noOptions offeredState "f" p) as [[st' ts]| |] eqn:Ec; [|discriminate Hrun..]. rename Hrun into Ho.
  destruct (Resign_announced noOptions "f" 1 ResignActionUnconditionallyDivestAttributes [] None p offeredState st' ts) with (k := (10, 20)) (h := 2) as (t & Ht & Ha);
    [done|exact (ledger_same "f" newFederationState offeredState eq_refl (new_ledger "f"))|by rewrite Ep|done|done|discriminate|].
  apply list_elem_of_fmap in Ht as (t' & [= <-] & Ht). exists p, st', ts, t.
  exact (conj eq_refl (conj Ec (conj Ho (conj Ht Ha)))).
Qed.

(** ** What an acquisition does to each attribute *)
Section FoldAt.
Context {A K V : Type} `{Countable K} (proj : federationState -> gmap K V) (f : federationState -> A -> federationState) (key : A -> K).
Context (Hother : forall s a k, k <> key a -> proj (f s a) !! k = proj s !! k).
Lemma fold_other l st k : k ∉ map key l -> proj (fold_left f l st) !! k = proj st !! k.
Proof.
  induction l as [|a l IH] using rev_ind; [done|]. rewrite map_app, fold_left_app. cbn [fold_left map].
  rewrite not_elem_of_app, not_elem_of_cons. intros (Hl & Hk & _). rewrite Hother by done. by apply IH.
Qed.
Lemma fold_at (I P : option V -> Prop) l st k : (forall o, P o -> I o) -> (forall s a, key a = k -> I (proj s !! k) -> P (proj (f s a) !! k)) ->
  I (proj st !! k) -> k ∈ map key l -> P (proj (fold_left f l st) !! k).
Proof.
  intros HPI Hf HI. assert (forall l, I (proj (fold_left f l st) !! k)) as Hall.
  { intros l'. induction l' as [|a l' IH] using rev_ind; [done|]. rewrite fold_left_app. cbn [fold_left].
    destruct (decide (key a = k)) as [E|E]; [by apply HPI, Hf|]. by rewrite Hother. }
  induction l as [|a l IH] using rev_ind; [intros []%elem_of_nil|]. rewrite map_app, fold_left_app, elem_of_app. cbn [fold_left map].
  intros Hk. destruct (decide (key a = k)) as [E|E]; [by apply Hf|]. rewrite Hother by done. apply IH.
  destruct Hk as [?|?%list_elem_of_singleton]; [done|]. by subst.
Qed.
End FoldAt.

Section Outcome.
Context (opts : Options) (fed : FederationName) (acquirer : FederateHandle) (obj : ObjectHandle).
(** The four maps at [k], with all the requests for it. *)
Definition same_at (st st' : federationState) (k : ownershipKey) : Prop :=
  owners st' !! k = owners st !! k /\ pendingDivests st' !! k = pendingDivests st !! k /\ unownedOffers st' !! k = unownedOffers st !! k /\
  forall h, pendingAcquires st' !! (k, h) = pendingAcquires st !! (k, h).
Definition acquired_at (st st' : federationState) (tag : list byte) (a : AttributeHandle) (o : outcomeOf) : Prop :=
  let k := (obj, a) in
  match o with
  | acquireReady _ | acquireUnowned =>
      owners st' !! k = Some acquirer /\ pendingDivests st' !! k = None /\ unownedOffers st' !! k = None /\ pendingAcquires st' !! (k, acquirer) = None
  | acquireQueue owner =>
      owners st' !! k = owner /\ pendingDivests st' !! k = pendingDivests st !! k /\ pendingAcquires st' !! (k, acquirer) = Some tag
  | acquireConfirm owner =>
      owners st' !! k = Some owner /\ pendingAcquires st' !! (k, acquirer) = Some tag /\
      pendingDivests st' !! k = (fun pd => set_confirmationRequested pd true) <$> pendingDivests st !! k
  | acquireUnavailable | acquireRepeat => same_at st st' k
  end.
Context (tag : list byte) (cls : list (AttributeHandle * outcomeOf)).
Let f1 := fun (st : federationState) a => dropOffer (setOwner st (obj, a) acquirer) (obj, a).
Let f2 := fun (st : federationState) a => setAcquire st (obj, a, acquirer) tag.
Let f3 := fun (st : federationState) (p : AttributeHandle * FederateHandle) => setConfirmation st (obj, p.1) true.
Let f4 := fun (st : federationState) (p : AttributeHandle * FederateHandle) => complete_transfer st (obj, p.1) acquirer.
Let U := fromUnownedAttrs cls.
Let Q := queueAttrs cls.
Let C := confirmByOwner cls.
Let R := readyAttrs cls.
Let kU := map (fun a : AttributeHandle => (obj, a)) U.
Let kQ := map (fun a : AttributeHandle => (obj, a)) Q.
Let kC := map (fun p : AttributeHandle * FederateHandle => (obj, p.1)) C.
Let kR := map (fun p : AttributeHandle * FederateHandle => (obj, p.1)) R.
Lemma acquireState_folds st : acquireState acquirer obj tag cls st = fold_left f4 R (fold_left f3 C (fold_left f2 Q (fold_left f1 U st))).
Proof. done. Qed.
Lemma setConfirmation_other st k0 b k : k <> k0 -> pendingDivests (setConfirmation st k0 b) !! k = pendingDivests st !! k.
Proof. intros Hne. unfold setConfirmation. destruct (pendingDivests st !! k0); own_simpl; by apply lookup_insert_ne. Qed.
Lemma setConfirmation_maps st k b : owners (setConfirmation st k b) = owners st /\ pendingAcquires (setConfirmation st k b) = pendingAcquires st /\
  unownedOffers (setConfirmation st k b) = unownedOffers st.
Proof. unfold setConfirmation. by destruct (_ !! _). Qed.
Lemma fold_map_same {A} {V : Type} (proj : federationState -> V) (f : federationState -> A -> federationState) l :
  (forall s a, proj (f s a) = proj s) -> forall st, proj (fold_left f l st) = proj st.
Proof. intros Hf. induction l as [|a l IH]; intros st; [done|]. simpl. by rewrite IH, Hf. Qed.

Lemma acquireState_owners st k :
  owners (acquireState acquirer obj tag cls st) !! k = if decide (k ∈ kU \/ k ∈ kR) then Some acquirer else owners st !! k.
Proof.
  rewrite acquireState_folds. destruct (decide (k ∈ kR)) as [Hr|Hr].
  - rewrite decide_True by tauto. apply (fold_at owners f4 (fun p => (obj, p.1))) with (I := fun _ => True); try done.
    + intros s a k' Hne. by apply lookup_insert_ne.
    + intros s a <- _. apply lookup_insert_eq.
  - rewrite (fold_other owners f4 (fun p => (obj, p.1))) by (done || (intros; by apply lookup_insert_ne)).
    rewrite (fold_map_same owners f3) by (intros; apply setConfirmation_maps). rewrite (fold_map_same owners f2) by done.
    destruct (decide (k ∈ kU)) as [Hu|Hu].
    + rewrite decide_True by tauto. apply (fold_at owners f1 (fun a => (obj, a))) with (I := fun _ => True); try done.
      * intros s a k' Hne. by apply lookup_insert_ne.
      * intros s a <- _. apply lookup_insert_eq.
    + rewrite decide_False by tauto. apply (fold_other owners f1 (fun a => (obj, a))); [|done]. intros s a k' Hne. by apply lookup_insert_ne.
Qed.
Lemma acquireState_offers st k : unownedOffers (acquireState acquirer obj tag cls st) !! k = if decide (k ∈ kU) then None else unownedOffers st !! k.
Proof.
  rewrite acquireState_folds. rewrite (fold_map_same unownedOffers f4) by done.
  rewrite (fold_map_same unownedOffers f3) by (intros; apply setConfirmation_maps). rewrite (fold_map_same unownedOffers f2) by done.
  case_decide as Hu.
  - apply (fold_at unownedOffers f1 (fun a => (obj, a))) with (I := fun _ => True); try done.
    + intros s a k' Hne. by apply lookup_delete_ne.
    + intros s a <- _. apply lookup_delete_eq.
  - apply (fold_other unownedOffers f1 (fun a => (obj, a))); [|done]. intros s a k' Hne. by apply lookup_delete_ne.
Qed.
Lemma acquireState_divests st k : (k ∈ kC -> is_Some (pendingDivests st !! k)) ->
  pendingDivests (acquireState acquirer obj tag cls st) !! k =
  if decide (k ∈ kR) then None else if decide (k ∈ kC) then (fun pd => set_confirmationRequested pd true) <$> pendingDivests st !! k
  else pendingDivests st !! k.
Proof.
  intros Hc. rewrite acquireState_folds. case_decide as Hr.
  - apply (fold_at pendingDivests f4 (fun p => (obj, p.1))) with (I := fun _ => True); try done.
    + intros s a k' Hne. by apply lookup_delete_ne.
    + intros s a <- _. apply lookup_delete_eq.
  - rewrite (fold_other pendingDivests f4 (fun p => (obj, p.1))) by (done || (intros; by apply lookup_delete_ne)).
    assert (pendingDivests (fold_left f2 Q (fold_left f1 U st)) = pendingDivests st) as E
      by (rewrite (fold_map_same pendingDivests f2) by done; by rewrite (fold_map_same pendingDivests f1)).
    case_decide as Hk.
    + destruct (Hc Hk) as [pd Ep]. rewrite Ep. simpl.
      apply (fold_at pendingDivests f3 (fun p => (obj, p.1))) with
        (I := fun o => o = Some pd \/ o = Some (set_confirmationRequested pd true)) (P := fun o => o = Some (set_confirmationRequested pd true)).
      * intros s a k' Hne. by apply setConfirmation_other.
      * tauto.
      * intros s a <- Hi. unfold f3, setConfirmation. destruct Hi as [-> | ->]; own_simpl; by rewrite lookup_insert_eq.
      * left. by rewrite E.
      * done.
    + rewrite (fold_other pendingDivests f3 (fun p => (obj, p.1))) by (done || (intros; by apply setConfirmation_other)). by rewrite E.
Qed.
Lemma acquireState_requests st k h : pendingAcquires (acquireState acquirer obj tag cls st) !! (k, h) =
  if decide (h = acquirer /\ k ∈ kR) then None else if decide (h = acquirer /\ k ∈ kQ) then Some tag else pendingAcquires st !! (k, h).
Proof.
  rewrite acquireState_folds.
  set (p4 := fun p : AttributeHandle * FederateHandle => ((obj, p.1), acquirer) : acquireKey). set (p2 := fun a : AttributeHandle => ((obj, a), acquirer) : acquireKey).
  assert (forall x, (k, h) ∈ map (fun a => (x a, acquirer) : acquireKey) Q <-> h = acquirer /\ k ∈ map x Q) as HQ.
  { intros x. rewrite !list_elem_of_fmap. split; [intros (a & [= -> ->] & ?); split; [done|]; by exists a|]. intros [-> (a & -> & ?)]. by exists a. }
  assert ((k, h) ∈ map p4 R <-> h = acquirer /\ k ∈ kR) as HR.
  { unfold kR, p4. rewrite !list_elem_of_fmap. split; [intros (a & [= -> ->] & ?); split; [done|]; by exists a|]. intros [-> (a & -> & ?)]. by exists a. }
  specialize (HQ (fun a => (obj, a))). case_decide as Hr.
  - apply HR in Hr. apply (fold_at pendingAcquires f4 p4) with (I := fun _ => True); try done.
    + intros s a k' Hne. by apply lookup_delete_ne.
    + intros s a <- _. apply lookup_delete_eq.
  - rewrite <- HR in Hr. rewrite (fold_other pendingAcquires f4 p4) by (done || (intros; by apply lookup_delete_ne)).
    rewrite (fold_map_same pendingAcquires f3) by (intros; apply setConfirmation_maps). case_decide as Hq.
    + apply HQ in Hq. apply (fold_at pendingAcquires f2 p2) with (I := fun _ => True); try done.
      * intros s a k' Hne. by apply lookup_insert_ne.
      * intros s a <- _. apply lookup_insert_eq.
    + change (~ (h = acquirer /\ k ∈ map (fun a : AttributeHandle => (obj, a)) Q)) in Hq. rewrite <- HQ in Hq.
      rewrite (fold_other pendingAcquires f2 p2) by (done || (intros; by apply lookup_insert_ne)).
      by rewrite (fold_map_same pendingAcquires f1).
Qed.
End Outcome.

Lemma classify_all opts fed acquirer obj ifav st attrs : forall cls, classify opts fed acquirer obj ifav st attrs = Ret cls ->
  forall a, a ∈ attrs -> exists o, (a, o) ∈ cls /\ classifyAttribute opts fed acquirer obj ifav st a = Ret o.
Proof.
  induction attrs as [|x attrs IH]; intros cls H a Ha; [by apply elem_of_nil in Ha|]. simpl in H. bind_inv H. bind_inv H. injection H as <-.
  apply elem_of_cons in Ha as [->|Ha]; [exists r; split; [by left|done]|]. destruct (IH _ Hr0 a Ha) as (o & ? & ?). exists o. split; [by right|done].
Qed.
Section Classes.
Context (obj : ObjectHandle) (cls : list (AttributeHandle * outcomeOf)) (a : AttributeHandle) (o : outcomeOf).
Context (Hin : (a, o) ∈ cls) (Huniq : forall o', (a, o') ∈ cls -> o' = o).
Lemma key_map {A} (g : A -> AttributeHandle) l : (obj, a) ∈ map (fun x => (obj, g x)) l <-> exists x, x ∈ l /\ g x = a.
Proof. rewrite list_elem_of_fmap. split; [intros (x & [= ->] & ?)|intros (x & ? & <-)]; by exists x. Qed.
Lemma in_unowned : (obj, a) ∈ map (fun x : AttributeHandle => (obj, x)) (fromUnownedAttrs cls) <-> o = acquireUnowned.
Proof.
  rewrite (key_map (fun x => x)). split.
  - intros (x & Hx & ->). symmetry. by apply Huniq, fromUnownedAttrs_in.
  - intros ->. exists a. split; [|done]. unfold fromUnownedAttrs. apply list_elem_of_omap. by exists (a, acquireUnowned).
Qed.
Lemma in_ready : (obj, a) ∈ map (fun p : AttributeHandle * FederateHandle => (obj, p.1)) (readyAttrs cls) <-> exists w, o = acquireReady w.
Proof.
  rewrite (key_map fst). split.
  - intros ([x w] & Hx & <-). exists w. symmetry. apply Huniq. exact (readyAttrs_in _ _ Hx).
  - intros [w ->]. exists (a, w). split; [|done]. unfold readyAttrs. apply list_elem_of_omap. by exists (a, acquireReady w).
Qed.
Lemma in_confirm : (obj, a) ∈ map (fun p : AttributeHandle * FederateHandle => (obj, p.1)) (confirmByOwner cls) <-> exists w, o = acquireConfirm w.
Proof.
  rewrite (key_map fst). split.
  - intros ([x w] & Hx & <-). exists w. symmetry. apply Huniq. exact (confirmByOwner_in _ _ Hx).
  - intros [w ->]. exists (a, w). split; [|done]. unfold confirmByOwner. apply list_elem_of_omap. by exists (a, acquireConfirm w).
Qed.
Lemma in_queue : (obj, a) ∈ map (fun x : AttributeHandle => (obj, x)) (queueAttrs cls) <-> (exists w, o = acquireQueue w) \/ (exists w, o = acquireConfirm w).
Proof.
  rewrite (key_map (fun x => x)). split.
  - intros (x & Hx & ->). apply queueAttrs_in in Hx as (o' & [[Hx [w ->]]|[Hx [w ->]]]); apply Huniq in Hx; subst; [left|right]; eauto.
  - intros Ho. exists a. split; [|done]. unfold queueAttrs. apply list_elem_of_omap. exists (a, o). split; [done|]. by destruct Ho as [[w ->]|[w ->]].
Qed.
End Classes.

Ltac decide_class IU IR IC IQ :=
  first [rewrite decide_True by (rewrite ?IU, ?IR, ?IC, ?IQ; clear; eauto 6) | rewrite decide_False by (rewrite ?IU, ?IR, ?IC, ?IQ; clear; naive_solver)].
(** An accepted acquisition does to each attribute what its situation calls
    for and nothing else: offered at once and unowned ones pass to the acquirer,
    their offers and requests settled; others are queued under the request's
    tag, and one under a two-phase offer is never taken, only its divester asked
    to confirm; unavailable and already requested ones, and every attribute not
    named, keep owner, offer, divestiture and requests. *)
Theorem acquisition_outcome opts fed acquirer obj attrs tag ifav st st' ps :
  own_wf st -> acquireChange opts fed acquirer obj attrs tag ifav st = (st', Ret (ps, ())) ->
  (forall a, a ∈ attrs -> exists o, classifyAttribute opts fed acquirer obj ifav st a = Ret o /\ acquired_at acquirer obj st st' tag a o) /\
  (forall k, k.1 <> obj \/ k.2 ∉ attrs -> same_at st st' k).
Proof.
  intros Hw H%checked_inv. bind_inv H. bind_inv H. destruct r0 as [st1 ts]. injection H as <- _.
  apply register_maps in Hr0 as (Eo & Ed & Ea & Ef).
  assert (forall k, k ∈ map (fun p : AttributeHandle * FederateHandle => (obj, p.1)) (confirmByOwner r) -> is_Some (pendingDivests st1 !! k)) as Hc.
  { intros k ([a w] & -> & Hp)%list_elem_of_fmap. apply confirmByOwner_in in Hp. apply (classify_in _ _ _ _ _ _ _ _ Hr) in Hp as [_ Hp].
    apply classify_spec in Hp as (_ & _ & _ & pd & Hpd & _). cbn [fst] in *. rewrite Ed, Hpd. done. }
  split.
  - intros a Ha. destruct (classify_all _ _ _ _ _ _ _ _ Hr a Ha) as (o & Hin & Ho). exists o. split; [done|].
    assert (forall o', (a, o') ∈ r -> o' = o) as Hu by (intros o' Hin'; apply (classify_in _ _ _ _ _ _ _ _ Hr) in Hin' as [_ ?]; congruence).
    pose proof (classify_spec _ _ _ _ _ _ _ _ Ho) as [Hne Hs].
    pose proof (in_unowned obj r a o Hin Hu) as IU. pose proof (in_ready obj r a o Hin Hu) as IR.
    pose proof (in_confirm obj r a o Hin Hu) as IC. pose proof (in_queue obj r a o Hin Hu) as IQ.
    pose proof (acquireState_owners acquirer obj tag r st1 (obj, a)) as EO. pose proof (acquireState_offers acquirer obj tag r st1 (obj, a)) as EF.
    pose proof (acquireState_divests acquirer obj tag r st1 (obj, a) (Hc (obj, a))) as ED.
    rewrite Eo in EO. rewrite Ef in EF. rewrite Ed in ED.
    destruct Hw as [W1 W2 W3].
    destruct o as [w| |w|w| |]; unfold acquired_at; cbv zeta; split_and!; intros;
      rewrite ?EO, ?EF, ?ED, ?acquireState_requests, ?Ea; repeat decide_class IU IR IC IQ; try done.
    + destruct Hs as (pd & Hpd & _). apply W1 in Hpd. destruct (unownedOffers st !! (obj, a)) eqn:E; [|done].
      rewrite (W3 (obj, a)) in Hpd by (by rewrite E). done.
    + by destruct Hs as (_ & -> & _).
    + by destruct Hs as (_ & _ & ->).
    + by destruct Hs as (_ & -> & _).
    + destruct Hs as (_ & _ & pd & Hpd & -> & _). by apply W1.
  - intros [o a] Hk. cbn [fst snd] in Hk.
    assert (forall {A} (g : A -> AttributeHandle) (l : list A), (forall x, x ∈ l -> g x ∈ attrs) -> (o, a) ∉ map (fun x => (obj, g x)) l) as Hn.
    { intros A g l Hl (x & [= -> ->] & Hx)%list_elem_of_fmap. destruct Hk as [?|Hk]; [done|]. by apply Hk, Hl. }
    assert (forall b c, (b, c) ∈ r -> b ∈ attrs) as Hr' by (intros b c Hbc; by apply (classify_in _ _ _ _ _ _ _ _ Hr) in Hbc as [? _]).
    pose proof (Hn _ (fun x => x) (fromUnownedAttrs r) ltac:(intros x Hx%fromUnownedAttrs_in; by eapply Hr')) as N1.
    pose proof (Hn _ fst (readyAttrs r) ltac:(intros x Hx%readyAttrs_in; by eapply Hr')) as N2.
    pose proof (Hn _ fst (confirmByOwner r) ltac:(intros x Hx%confirmByOwner_in; by eapply Hr')) as N3.
    pose proof (Hn _ (fun x => x) (queueAttrs r) ltac:(intros x (c & [[Hx _]|[Hx _]])%queueAttrs_in; by eapply Hr')) as N4.
    split_and!; intros; rewrite ?acquireState_owners, ?acquireState_offers, ?(acquireState_divests _ _ _ _ _ _ (Hc (o, a))), ?acquireState_requests, ?Eo, ?Ef, ?Ed, ?Ea;
      repeat (rewrite decide_False by (clear -N1 N2 N3 N4; tauto)); done.
Qed.

Lemma acquisition_outcome_witness :
  let st := set_pendingDivests (set_owners newFederationState {[ (10, 20) := 1; (10, 21) := 1 ]})
              {[ (10, 20) := Build_pendingDivest 1 [] true false; (10, 21) := Build_pendingDivest 1 [] false false ]} in
  exists st' ps, acquireChange noOptions "f" 2 10 [20; 21; 22] [] false st = (st', Ret (ps, ())) /\
    owners st' !! (10, 20) = Some 1 /\ owners st' !! (10, 21) = Some 2 /\
    exists o, classifyAttribute noOptions "f" 2 10 false st 20 = Ret o /\ acquired_at 2 10 st st' [] 20 o.
Proof.
  set (st := set_pendingDivests _ _).
  destruct (acquireChange noOptions "f" 2 10 [20; 21; 22] [] false st) as [st' [[ps []]| |]] eqn:E;
    [|vm_compute in E; discriminate E|vm_compute in E; discriminate E].
  assert (own_wf st) as Hw.
  { subst st. split; own_simpl; simpl.
    - intros k pd [[<- <-]|[_ [<- <-]%lookup_singleton_Some]]%lookup_insert_Some; reflexivity.
    - intros k h H. rewrite lookup_empty in H. by destruct H.
    - intros k H. rewrite lookup_empty in H. by destruct H. }
  destruct (acquisition_outcome _ _ _ _ _ _ _ _ _ _ Hw E) as [Ho _]. specialize (Ho 20 ltac:(by left)).
  exists st', ps. split; [exact E|]. vm_compute in E. injection E as <- _. split; [reflexivity|]. split; [reflexivity|]. exact Ho.
Defined.

(** ** Refusals *)
Definition unchanged (m m' : Manager) : Prop := forall fed, default newFederationState (m' !! fed) = default newFederationState (m !! fed).
Definition frozen {A} (c : change A) (e : own_error) : Prop := forall st st', c st = (st', Fail e) -> st' = st.
Lemma unchanged_refl m : unchanged m m.
Proof. done. Qed.
Lemma checked_frozen {A} st (r : outcome own_error (federationState * list post * A)) st' e : checked st r = (st', Fail e) -> st' = st.
Proof. destruct r as [[[s p] a]| |]; simpl; congruence. Qed.
Section Refusals.
Context (opts : Options) (env : Environment).
Lemma service_refused {A} m fed absent (c : change A) e : frozen c e -> ret (service opts env m fed absent c) = Fail e ->
  unchanged m (mgr (service opts env m fed absent c)) /\ effects (service opts env m fed absent c) = [].
Proof.
  intros Hf. set (st0 := default newFederationState (m !! fed)).
  assert (let r := (let (st, r) := c st0 in
      match r with
      | Ret (posts, a) => let (m, es) := fold_left (runPost opts env fed) posts (publish m fed st, []) in Reply m es (Ret a)
      | Fail e => Reply (publish m fed st) [] (Fail e)
      | Panic s => Reply (publish m fed st) [] (Panic s)
      end) in ret r = Fail e -> unchanged m (mgr r) /\ effects r = []) as H.
  { destruct (c st0) as [st [[posts a]|e'|s]] eqn:E; simpl; [destruct (fold_left _ _ _); simpl; done| |done].
    intros [= ->]. apply Hf in E as ->. split; [|done]. intros fed'. unfold publish. destruct (decide (fed = fed')) as [<-|Hne].
    - by rewrite lookup_insert_eq.
    - by rewrite lookup_insert_ne. }
  subst st0. unfold service. cbv zeta in H. destruct (m !! fed), absent; try exact H. done.
Qed.
Lemma prepared_refused {A} m r (k : list AttributeHandle -> reply A) e :
  (forall attrs, r = Ret attrs -> ret (k attrs) = Fail e -> unchanged m (mgr (k attrs)) /\ effects (k attrs) = []) ->
  ret (prepared m r k) = Fail e -> unchanged m (mgr (prepared m r k)) /\ effects (prepared m r k) = [].
Proof. intros Hk. destruct r; simpl; [by apply Hk|done..]. Qed.
Lemma confirm_frozen fed owner obj attrs tag e : e <> ErrOwnershipNoAcquisitionPending -> frozen (confirmDivestitureChange opts fed owner obj attrs tag) e.
Proof.
  intros Hne st st'. unfold confirmDivestitureChange. destruct (validateOwnedAttributes _ _ _ _); [|congruence..].
  destruct (checkConfirmable _ _ _ _); [|congruence..]. destruct (waitingAttrs _ _ _); [apply checked_frozen|]. intros [= _ <-]. done.
Qed.
Lemma releaseDenied_refused m fed owner obj attrs prepare e : e <> errOutbox -> ret (releaseDenied opts env m fed owner obj attrs prepare) = Fail e ->
  unchanged m (mgr (releaseDenied opts env m fed owner obj attrs prepare)).
Proof.
  intros Hne. unfold releaseDenied, prepared. destruct (prepare _ _ _ _) as [mapped| |]; [|done..]. cbv zeta. destruct (m !! fed) as [st|]; [|done].
  destruct (negb _); [done|]. case_bool_decide; [done|]. destruct (negb _); [done|]. destruct (Reserve _ _) as [| |commits]; [done..|].
  destruct (validateTerminalCallbacks _ _ _); [|done..]. destruct (_ && _); [done|].
  destruct (registerTerminalCallbacks _ _ _ _) as [[st' ts]| |]; [|done..]. destruct commits; simpl; [done|]. congruence.
Qed.
(** The mapping of a command covers what it was prepared for. *)
Lemma mapCoordinates_spec known registered : forall reverse forward r, mapCoordinates known registered reverse forward = Some r ->
  length registered = length known -> (forall x, is_Some (reverse !! x) -> is_Some (r !! x)) /\ forall x, x ∈ registered -> is_Some (r !! x).
Proof.
  revert registered. induction known as [|k known IH]; intros [|g registered] reverse forward r H Hlen; try done; simpl in H.
  - injection H as <-. split; [done|]. intros x []%elem_of_nil.
  - destruct (match reverse !! g with Some p => negb (p =? k) | None => false end); [done|].
    destruct (match forward !! k with Some p => negb (p =? g) | None => false end); [done|].
    injection Hlen as Hlen. destruct (IH _ _ _ _ H Hlen) as [H1 H2]. split.
    + intros x Hx. apply H1. rewrite lookup_insert_is_Some. destruct (decide (g = x)); tauto.
    + intros x [->|Hx]%elem_of_cons; [|by apply H2]. apply H1. rewrite lookup_insert_eq. done.
Qed.
Lemma knownOwnershipResult_total result reverse : (forall a, a ∈ result -> is_Some (reverse !! a)) -> exists ks, knownOwnershipResult result reverse = Ret ks.
Proof.
  induction result as [|a result IH]; intros H; simpl; [eauto|]. destruct (H a ltac:(by left)) as [k ->].
  destruct IH as [ks ->]; [intros; apply H; by right|]. simpl. eauto.
Qed.
Lemma service_ret {A} m fed absent (c : change A) a : ret (service opts env m fed absent c) = Ret a ->
  exists st st' ps, c st = (st', Ret (ps, a)).
Proof.
  unfold service. intros H. assert (ret (let (st, r) := c (default newFederationState (m !! fed)) in
      match r with
      | Ret (posts, a) => let (m, es) := fold_left (runPost opts env fed) posts (publish m fed st, []) in Reply m es (Ret a)
      | Fail e => Reply (publish m fed st) [] (Fail e)
      | Panic s => Reply (publish m fed st) [] (Panic s)
      end) = Ret a) as H' by (revert H; destruct (m !! fed), absent; (exact (fun H => H) || discriminate)).
  clear H. revert H'. destruct (c _) as [st [[posts a']|e|s]] eqn:E; simpl; [|discriminate..]. destruct (fold_left _ _ _). simpl. intros [= ->]. eauto.
Qed.
(** A command that is refused - by its preparation or by the checks of the
    service - changes no federation and reports nothing, and a wanted
    divestiture that succeeds always maps its result back to the caller's
    coordinates.  The two exceptions of the code: a confirmation that finds
    nobody waiting returns its offers to waiting, and a denial whose outbox
    fails keeps the refusals it owes. *)
Theorem refused_command m c e : ret (ExecuteKnownOwnership opts env m c) = Fail e ->
  (Operation c = OwnershipConfirmDivestiture -> e <> ErrOwnershipNoAcquisitionPending) ->
  (Operation c = OwnershipReleaseDenied -> e <> errOutbox) ->
  unchanged m (mgr (ExecuteKnownOwnership opts env m c)) /\
  (Operation c <> OwnershipReleaseDenied -> effects (ExecuteKnownOwnership opts env m c) = []).
Proof.
  unfold ExecuteKnownOwnership. destruct (PrepareKnownAcquisition opts) as [acquisition|]; [|done]. destruct (PrepareKnownOperation opts) as [operation|]; [|done].
  cbv zeta. set (port := match Operation c with OwnershipAcquire | OwnershipAcquireIfAvailable => acquisition | _ => operation end).
  assert (forall r : reply (), (ret r = Fail e -> unchanged m (mgr r) /\ effects r = []) -> ret (silent r) = Fail e ->
    unchanged m (mgr (silent r)) /\ (Operation c <> OwnershipReleaseDenied -> effects (silent r) = [])) as Hsil.
  { intros [m' es [u|e'|s]] Hr; simpl; [done| |done]. intros [= ->]. simpl in Hr. destruct (Hr eq_refl). done. }
  assert (forall fed absent (ch : list AttributeHandle -> change ()) r, (forall attrs, frozen (ch attrs) e) ->
    ret (prepared m r (fun attrs => service opts env m fed absent (ch attrs))) = Fail e ->
    unchanged m (mgr (prepared m r (fun attrs => service opts env m fed absent (ch attrs)))) /\ effects (prepared m r (fun attrs => service opts env m fed absent (ch attrs))) = []) as Hprep.
  { intros fed absent ch r Hf. apply prepared_refused. intros attrs _. by apply service_refused. }
  destruct (Operation c) eqn:Eop; intros He Hc Hd;
    try (refine (Hsil _ _ He); apply Hprep; intros attrs st st'; first [apply checked_frozen|by apply confirm_frozen, Hc]).
  - cbn [mgr effects ret] in *. set (r := divestIfWanted _ _ _ _ _ _ _ _) in *. destruct (ret r) as [result|e'|s] eqn:Er; [exfalso| |done].
    + unfold r, divestIfWanted, prepared in Er. destruct (knownCoordinatePreparation port (oc_Federation c) (oc_Federate c) (oc_Object c) (oc_Attributes c)) as [[mapped reverse]| |] eqn:Ek; [|done..].
      cbn [fmap outcome_fmap fst] in Er. apply service_ret in Er as (st & st' & ps & Er%checked_inv). bind_inv Er. bind_inv Er. destruct r1 as [st1 ts]. injection Er as _ _ <-.
      cbn [mbind outcome_bind snd] in He. unfold knownCoordinatePreparation in Ek. bind_inv Ek. destruct r1 as [mp rel]. destruct (negb rel); [done|].
      destruct (Nat.eqb_spec (length mp) (length (oc_Attributes c))) as [Hlen|]; [|done]. simpl in Ek. destruct (mapCoordinates _ _ _ _) as [rv|] eqn:Em; [|done].
      injection Ek as -> ->. destruct (mapCoordinates_spec _ _ _ _ _ Em Hlen) as [_ Hall].
      destruct (knownOwnershipResult_total (map pc_attr (completionsOf opts (oc_Federation c) PhaseDivestIfWanted st (oc_Federate c) (oc_Object c) (sortCompact mapped))) reverse) as [ks Hks];
        [|congruence]. intros a (cm & -> & Hcm)%list_elem_of_fmap. apply completionsOf_in in Hcm as [Hcm _]. apply Hall. by apply sortCompact_in.
    + simpl in He. injection He as ->. unfold r, divestIfWanted in *. split; [|intros _]; (eapply prepared_refused; [|exact Er]); intros attrs _; apply service_refused; intros st st'; apply checked_frozen.
  - destruct (releaseDenied opts env m (oc_Federation c) (oc_Federate c) (oc_Object c) (oc_Attributes c) _) as [m' es [u|e'|s]] eqn:Er; [done| |done].
    simpl in He. injection He as ->. split; [|done]. simpl.
    pose proof (releaseDenied_refused m (oc_Federation c) (oc_Federate c) (oc_Object c) (oc_Attributes c) _ e (Hd eq_refl) (f_equal ret Er)) as Hr. by rewrite Er in Hr.
  - done.
Qed.
End Refusals.
Definition identityPort : knownPort := fun _ _ _ attrs => Ret (attrs, true).
Definition knownOptions : Options :=
  Build_Options None None None None None (Some identityPort) (Some identityPort) SelectAcquirer_default MaxCallbackStateCount false false.
Lemma refused_command_witness :
  let m := RegisterInitialOwnership ∅ "f" 1 10 [20] in
  let c := Build_OwnershipCommand OwnershipAcquire "f" 1 10 [20] [] in
  ret (ExecuteKnownOwnership knownOptions allSent m c) = Fail ErrFederateOwnsAttributes /\
  unchanged m (mgr (ExecuteKnownOwnership knownOptions allSent m c)).
Proof.
  intros m c. assert (ret (ExecuteKnownOwnership knownOptions allSent m c) = Fail ErrFederateOwnsAttributes) as E by (vm_compute; reflexivity).
  split; [exact E|]. apply (refused_command knownOptions allSent m c ErrFederateOwnsAttributes E); discriminate.
Defined.

(** ** Resignations *)
Section Resignations.
Context (opts : Options) (env : Environment).
Lemma finishAdmission_maps fed ds ok m st : m !! fed = Some st ->
  exists st', mgr (finishTerminalAdmission m fed ds ok) !! fed = Some st' /\ same_maps st st' /\
    forall h, callbackSessions st !! h = None -> callbackSessions st' !! h = None.
Proof.
  intros E. unfold finishTerminalAdmission. simpl. rewrite E. eexists. split; [by apply lookup_insert_eq|].
  apply (fold_left_ind (fun s => same_maps st s /\ forall h, callbackSessions st !! h = None -> callbackSessions s !! h = None)); [done|].
  intros s d _ [Hs Hn]. unfold finishOne. destruct (callbackSessions s !! Recipient d) as [x|] eqn:Ex; [|done].
  destruct (pendingCb x !! _) as [t|]; [|done]. split; [done|]. intros h Hh. simpl. rewrite lookup_insert_ne; [by apply Hn|].
  intros <-. apply Hn in Hh. congruence.
Qed.
(** Where an attribute of the departed went. *)
Definition settled_at (st s : federationState) (h : FederateHandle) (k : ownershipKey) : Prop :=
  (exists w, owners s !! k = Some w /\ w <> h /\ is_Some (pendingAcquires st !! (k, w))) \/
  (owners s !! k = None /\ unownedOffers s !! k = Some 0).
Lemma resignTransfers_spec st h l : (forall k w, (k, w) ∈ l -> w = InvalidFederateHandle \/ (w <> h /\ is_Some (pendingAcquires st !! (k, w)))) ->
  forall s0, let s := fold_left resignTransfer l s0 in
  (forall k, k ∈ map fst l -> settled_at st s h k) /\ (forall k, k ∉ map fst l -> owners s !! k = owners s0 !! k /\ unownedOffers s !! k = unownedOffers s0 !! k) /\
  (forall a, is_Some (pendingAcquires s !! a) -> is_Some (pendingAcquires s0 !! a)).
Proof.
  induction l as [|[k0 w0] l IH] using rev_ind; intros Hl s0; [split_and!; [intros k []%elem_of_nil|done|done]|].
  cbv zeta. rewrite fold_left_app, map_app. cbn [fold_left map fst]. destruct (IH ltac:(intros; apply Hl; set_solver) s0) as (I1 & I2 & I3).
  set (s1 := fold_left resignTransfer l s0) in *. destruct (Hl k0 w0 ltac:(set_solver)) as [->|[Hw Hp]].
  - unfold resignTransfer. cbn [fst snd]. rewrite Z.eqb_refl. split_and!; own_simpl.
    + intros k Hk. destruct (decide (k0 = k)) as [<-|Hne]; [right; own_simpl; by rewrite lookup_delete_eq, lookup_insert_eq|].
      apply elem_of_app in Hk as [Hk|Hk%list_elem_of_singleton]; [|done]. destruct (I1 k Hk) as [H|H]; [left|right]; own_simpl;
        rewrite ?lookup_delete_ne, ?lookup_insert_ne by done; done.
    + intros k. rewrite not_elem_of_app, list_elem_of_singleton. intros [Hk Hne]. rewrite lookup_delete_ne, lookup_insert_ne by done. by apply I2.
    + exact I3.
  - unfold resignTransfer. cbn [fst snd]. destruct (Z.eqb_spec w0 InvalidFederateHandle) as [->|_].
    + split_and!; own_simpl.
      * intros k Hk. destruct (decide (k0 = k)) as [<-|Hne]; [right; own_simpl; by rewrite lookup_delete_eq, lookup_insert_eq|].
        apply elem_of_app in Hk as [Hk|Hk%list_elem_of_singleton]; [|done]. destruct (I1 k Hk) as [H|H]; [left|right]; own_simpl;
          rewrite ?lookup_delete_ne, ?lookup_insert_ne by done; done.
      * intros k. rewrite not_elem_of_app, list_elem_of_singleton. intros [Hk Hne]. rewrite lookup_delete_ne, lookup_insert_ne by done. by apply I2.
      * exact I3.
    + split_and!; own_simpl.
      * intros k Hk. destruct (decide (k0 = k)) as [<-|Hne]; [left; exists w0; own_simpl; by rewrite lookup_insert_eq|].
        apply elem_of_app in Hk as [Hk|Hk%list_elem_of_singleton]; [|done]. destruct (I1 k Hk) as [H|H]; [left|right]; own_simpl;
          rewrite ?lookup_delete_ne, ?lookup_insert_ne by done; done.
      * intros k. rewrite not_elem_of_app, list_elem_of_singleton. intros [Hk Hne]. rewrite lookup_delete_ne, lookup_insert_ne by done. by apply I2.
      * intros a [_ Ha]%lookup_delete_is_Some. by apply I3.
Qed.
Lemma prepareResignTransfers_keys fed st h ks : forall ts ds, prepareResignTransfers opts fed st h ks = Ret (ts, ds) -> map fst ts = ks.
Proof.
  induction ks as [|k ks IH]; simpl; intros ts ds H; [by injection H as <- _|]. bind_inv H. destruct r as [w ds1]. bind_inv H. destruct r as [ts2 ds2].
  injection H as <- _. simpl. f_equal. by eapply IH.
Qed.
Lemma PrepareResign_keys st fed h action gone p k : PrepareResign opts (Some st) fed h action gone = Ret p ->
  k ∈ map fst (transfers p) <-> owners st !! k = Some h /\ k.1 ∉ gone.
Proof.
  intros (ts & ds & Hr & ->)%PrepareResign_inv. simpl. rewrite (prepareResignTransfers_keys _ _ _ _ _ _ Hr). unfold ownedKeys.
  rewrite merge_sort_Permutation, list_elem_of_filter, elem_of_elements, elem_of_dom. destruct (owners st !! k) as [o|].
  - rewrite andb_true_iff, negb_true_iff, bool_decide_eq_false, Z.eqb_eq. split; [intros [[-> ?] _]; done|]. intros [[= ->] ?]. done.
  - split; [intros [? _]; done|]. intros [? _]; done.
Qed.
Definition nothing_at (st : federationState) (k : ownershipKey) : Prop :=
  owners st !! k = None /\ pendingDivests st !! k = None /\ unownedOffers st !! k = None /\ forall x, pendingAcquires st !! (k, x) = None.
Definition nothing_of (st : federationState) (h : FederateHandle) (k : ownershipKey) : Prop :=
  owners st !! k <> Some h /\ pendingAcquires st !! (k, h) = None /\ unownedOffers st !! k <> Some h /\
  forall pd, pendingDivests st !! k = Some pd -> pd_owner pd <> h.
Lemma commitResign_spec st fed h gone p st' ts : h <> InvalidFederateHandle -> plan_for st h gone p ->
  (forall k, k ∈ map fst (transfers p) <-> owners st !! k = Some h /\ k.1 ∉ gone) -> commitResign opts st fed p = Ret (st', ts) ->
  callbackSessions st' !! h = None /\ (forall k, nothing_of st' h k) /\
  (forall k, k.1 ∉ gone -> owners st !! k = Some h -> settled_at st st' h k) /\
  (forall k o, k.1 ∉ gone -> owners st !! k = Some o -> o <> h -> owners st' !! k = Some o) /\
  (own_wf st' -> forall k, k.1 ∈ gone -> nothing_at st' k).
Proof.
  intros Hh (Ep & Eg & Ht) Hkeys. unfold commitResign. rewrite Ep, Eg. destruct (registerTerminalCallbacks _ _ _ _) as [[st1 ts1]| |] eqn:Hr; [|done|done].
  intros [= <- _]. apply register_maps in Hr as (Eo & Ed & Ea & Ef). simpl in Eo, Ed, Ea, Ef.
  set (s0 := set_owners (set_callbackSessions st1 (delete h (callbackSessions st1))) (filter _ _)).
  destruct (resignTransfers_spec st h (transfers p) (fun k w Hk => proj2 (proj2 (Ht k w Hk))) s0) as (I1 & I2 & I3).
  assert (callbackSessions (fold_left resignTransfer (transfers p) s0) !! h = None) as Hses.
  { rewrite fold_sessions; [apply lookup_delete_eq|]. intros s t. unfold resignTransfer. by destruct (_ =? _). }
  set (s := fold_left resignTransfer (transfers p) s0) in *.
  assert (forall k, owners s0 !! k = if decide (k.1 ∈ gone) then None else owners st !! k) as E0.
  { intros k. subst s0. cbn [owners set_owners set_callbackSessions]. rewrite Eo, map_lookup_filter.
    destruct (owners st !! k); simpl; repeat case_decide; try done; by case_guard. }
  assert (forall k, k.1 ∉ gone -> unownedOffers (removePendingResignState s h gone) !! k = (fun d => if d =? h then 0 else d) <$> unownedOffers s !! k) as EF.
  { intros k Hg. simpl. rewrite lookup_fmap. f_equal. rewrite map_lookup_filter. destruct (unownedOffers s !! k); simpl; [|done]. by case_guard. }
  assert (forall k, owners s !! k <> Some h) as Hno.
  { intros k Hk. destruct (decide (k ∈ map fst (transfers p))) as [Hin|Hn].
    - destruct (I1 k Hin) as [(w & Hw & Hne & _)|[Hw _]]; congruence.
    - destruct (I2 k Hn) as [E _]. rewrite E, E0 in Hk. case_decide; [done|]. by apply Hn, Hkeys. }
  split_and!.
  - exact Hses.
  - intros k. split_and!; simpl.
    + apply Hno.
    + apply map_lookup_filter_None. right. intros t _ [_ Hx]. done.
    + rewrite lookup_fmap. intros (d & _ & E)%fmap_Some. revert E. unfold InvalidFederateHandle in Hh. destruct (Z.eqb_spec d h); congruence.
    + intros pd [_ [_ ?]]%map_lookup_filter_Some. done.
  - intros k Hg Hk. destruct (I1 k ltac:(by apply Hkeys)) as [H|[H1 H2]]; [by left|right]. split; [exact H1|]. rewrite EF, H2 by done. cbn [fmap option_fmap option_map].
    unfold InvalidFederateHandle in Hh. destruct (Z.eqb_spec 0 h); [congruence|reflexivity].
  - intros k o Hg Hk Hne. simpl. destruct (I2 k) as [-> _]; [rewrite Hkeys; intros [? _]; congruence|]. rewrite E0. by rewrite decide_False.
  - intros Hw k Hg. assert (k ∉ map fst (transfers p)) as Hn by (rewrite Hkeys; tauto). destruct (I2 k Hn) as [E _]. split_and!; simpl.
    + rewrite E, E0. by rewrite decide_True.
    + apply map_lookup_filter_None. right. intros pd _ [Hx _]. done.
    + rewrite lookup_fmap. apply fmap_None, map_lookup_filter_None. right. intros d _ Hx. done.
    + intros x. apply map_lookup_filter_None. right. intros t _ [Hx _]. done.
Qed.

(** A resignation that the ownership manager accepts leaves nothing of the
    departed federate: no attribute, request, offer in its name or callback
    session; nothing of the objects deleted with it; each attribute it owned of
    a surviving object has passed to a federate that had asked for it, or is
    unowned and on offer by nobody; and attributes of others stay theirs. *)
Theorem resignation_complete m fed st h action gone project admitted : h <> InvalidFederateHandle -> m !! fed = Some st -> own_wf st ->
  ret (Resign opts env m fed h action gone project admitted) = Ret () ->
  exists st', mgr (Resign opts env m fed h action gone project admitted) !! fed = Some st' /\ own_wf st' /\
    callbackSessions st' !! h = None /\ (forall k, nothing_of st' h k) /\ (forall k, k.1 ∈ gone -> nothing_at st' k) /\
    (forall k, k.1 ∉ gone -> owners st !! k = Some h -> settled_at st st' h k) /\
    (forall k o, k.1 ∉ gone -> owners st !! k = Some o -> o <> h -> owners st' !! k = Some o).
Proof.
  intros Hh E Hw. unfold Resign, applyPlan. rewrite E. destruct (_ ≫= _) as [p| |] eqn:Hp; [|done..].
  destruct (commitResign opts st fed p) as [[st1 ts]| |] eqn:Hc; [|done..]. intros _. cbn [mgr].
  apply bind_Ret_inv in Hp as (p0 & Hp0 & Hp). pose proof (PrepareResign_plan _ _ _ _ _ _ _ Hp0) as Hplan.
  pose proof (fun k => PrepareResign_keys _ _ _ _ _ _ k Hp0) as Hkeys.
  assert (plan_for st h gone p /\ transfers p = transfers p0) as [Hplan' Et].
  { destruct project as [f|]; [|by injection Hp as <-]. split; [by eapply projections_plan|by eapply projections_transfers]. }
  rewrite <- Et in Hkeys. assert (own_wf st1) as Hw1 by (by eapply commitResign_wf; [|left| |]).
  destruct (commitResign_spec _ _ _ _ _ _ _ Hh Hplan' Hkeys Hc) as (C1 & C2 & C3 & C4 & C5). specialize (C5 Hw1).
  destruct (finishAdmission_maps fed ts admitted (publish m fed st1) st1 (lookup_insert_eq _ _ _)) as (st' & E' & Hm & Hn).
  exists st'. split; [exact E'|]. split; [by eapply same_maps_wf|]. split; [by apply Hn|].
  destruct Hm as (M1 & M2 & M3 & M4). unfold nothing_of, nothing_at, settled_at in *. rewrite M1, M2, M3, M4. done.
Qed.
End Resignations.
Lemma resignation_complete_witness :
  let st := set_pendingAcquires (set_owners newFederationState {[ (10, 20) := 1; (10, 21) := 1 ]}) {[ (10, 20, 2) := [] ]} in
  let m := {[ "f"%string := st ]} : Manager in
  let r := Resign noOptions allSent m "f" 1 ResignActionUnconditionallyDivestAttributes [] None true in
  ret r = Ret () /\ exists st', mgr r !! "f" = Some st' /\ settled_at st st' 1 (10, 20) /\ settled_at st st' 1 (10, 21).
Proof.
  intros st m r. assert (ret r = Ret ()) as Er by (vm_compute; reflexivity). split; [exact Er|].
  assert (own_wf st) as Hw.
  { subst st. split; own_simpl; simpl.
    - intros k pd H. rewrite lookup_empty in H. discriminate H.
    - intros k h [t [[= <- <-] _]%lookup_singleton_Some] H. vm_compute in H. discriminate H.
    - intros k H. rewrite lookup_empty in H. by destruct H. }
  destruct (resignation_complete noOptions allSent m "f" st 1 ResignActionUnconditionallyDivestAttributes [] None true ltac:(discriminate) ltac:(apply lookup_singleton_eq) Hw Er)
    as (st' & E & _ & _ & _ & _ & Hs & _).
  exists st'. split; [exact E|]. split; apply Hs; try (vm_compute; reflexivity); apply not_elem_of_nil.
Defined.
