(* ===== verification/FomDimension.v ===== *)
(** * Dimensions of an object model ([rti/pkg/fom/model/dimension_metadata.go])

    The range a region takes on a dimension it does not specify.  [Nd] is the
    table [unicode.Nd] of Go's library, its 16-bit ranges before the 32-bit
    ones: lower bound, upper bound and stride of each range of decimal digits.
    [DataType] and [NormalizationKey] of [model.Dimension] are not read. *)
From S2P Require Import Prelude GoBytes GoUtf8.
Open Scope Z_scope.

Definition MaxUint64 : Z := maxU 64.
Record Dimension := { Name : string; UpperBound : Z; DefaultValue : string }.

Section Default.
Context (Nd : list (Z * Z * Z)).

Definition inGroup (r : Z) (g : Z * Z * Z) : bool :=
  let '(lo, hi, stride) := g in (lo <=? r) && (r <=? hi) && ((r - lo) mod stride =? 0).
Definition digitValue (r : Z) : option Z :=
  (fun g : Z * Z * Z => let '(lo, _, stride) := g in (r - lo) `div` stride mod 10) <$> List.find (inGroup r) Nd.
Definition isNd (r : Z) : bool := bool_decide (is_Some (digitValue r)).
Definition digits (rs : list Z) : bool := negb (bool_decide (rs = [])) && forallb isNd rs.

(** [strings.Split(value, "..")] on runes. *)
Fixpoint splitDots (rs : list Z) : list (list Z) :=
  match rs with
  | [] => [[]]
  | r :: rs' =>
      match rs' with
      | r' :: rs'' =>
          if (r =? 46) && (r' =? 46) then [] :: splitDots rs''
          else match splitDots rs' with part :: parts => (r :: part) :: parts | [] => [[r]] end
      | [] => [[r]]
      end
  end.
Definition trimPrefix (c : Z) (rs : list Z) : list Z :=
  match rs with r :: rs' => if r =? c then rs' else rs | [] => [] end.
Definition trimSuffix (c : Z) (rs : list Z) : list Z := reverse (trimPrefix c (reverse rs)).

(** The regular expression, on the runes of the value: digits, [[digits)],
    [[digits..digits)] or [Excluded]. *)
Definition ValidDimensionDefaultValue (value : string) : bool :=
  let rs := runes_of value in
  let inner := trimSuffix 41 (trimPrefix 91 rs) in
  digits rs ||
  (bool_decide (rs = 91 :: inner ++ [41]) &&
   match splitDots inner with
   | [a] => digits a
   | [a; b] => digits a && digits b
   | _ => false
   end) ||
  String.eqb value "Excluded".

(** [strconv.ParseUint(s, 10, 64)] of the normalized digits. *)
Definition parseUint (ds : list Z) : outcome string Z :=
  match ds with
  | [] => Fail "invalid syntax"
  | _ => let n := fold_left (fun n d => n * 10 + d) ds 0 in
         if MaxUint64 <? n then Fail "value out of range" else Ret n
  end.
Definition parseDimensionDecimal (rs : list Z) : outcome string Z :=
  match mapM digitValue rs with
  | Some ds => parseUint ds
  | None => Fail "invalid decimal digit"
  end.

(** Lower bound, upper bound, and whether the dimension is excluded. *)
Definition DimensionDefaultRange (d : Dimension) : outcome string (Z * Z * bool) :=
  let limit := if UpperBound d =? 0 then MaxUint64 else UpperBound d in
  if String.eqb (DefaultValue d) "Excluded" then Ret (0, 0, true)
  else if String.eqb (DefaultValue d) "" || String.eqb (DefaultValue d) "NA" then Ret (0, limit, false)
  else if negb (ValidDimensionDefaultValue (DefaultValue d)) then Fail "invalid dimension default"
  else
    let parts := splitDots (trimSuffix 41 (trimPrefix 91 (runes_of (DefaultValue d)))) in
    lower ← parseDimensionDecimal (default [] (parts !! 0%nat));
    upper ← (if (length parts =? 2)%nat then parseDimensionDecimal (default [] (parts !! 1%nat))
             else if lower =? MaxUint64 then Fail "point range overflows"
             else Ret (lower + 1));
    if (upper <=? lower) || (limit <? upper) then Fail "default is outside the dimension"
    else Ret (lower, upper, false).

(** A default is a nonempty range inside the dimension. *)
Lemma digit_nonneg r v : digitValue r = Some v -> 0 <= v.
Proof. unfold digitValue. destruct (List.find _ _) as [[[lo hi] stride]|]; [|done]. intros [= <-]. apply Z.mod_pos_bound. lia. Qed.
Lemma parse_nonneg rs n : parseDimensionDecimal rs = Ret n -> 0 <= n.
Proof.
  unfold parseDimensionDecimal. destruct (mapM digitValue rs) as [[|x l]|] eqn:Em; [done| |done].
  unfold parseUint. case_match; [done|]. intros [= <-].
  apply mapM_Some_1 in Em. assert (Forall (Z.le 0) (x :: l)) as Hl.
  { clear -Em. induction Em; constructor; [by eapply digit_nonneg|done]. }
  assert (forall n, 0 <= n -> 0 <= fold_left (fun n d => n * 10 + d) (x :: l) n) as H'; [|apply H'; lia].
  clear -Hl. induction Hl as [|y k Hy _ IH]; intros n Hn; [done|]. apply (IH (n * 10 + y)). lia.
Qed.
Lemma default_range_inside d lower upper : 0 <= UpperBound d <= MaxUint64 -> DimensionDefaultRange d = Ret (lower, upper, false) ->
  0 <= lower < upper /\ upper <= (if UpperBound d =? 0 then MaxUint64 else UpperBound d).
Proof.
  intros Hu. unfold DimensionDefaultRange.
  destruct (String.eqb _ "Excluded"); [done|]. destruct (_ || _); [intros [= <- <-]; zbool; unfold MaxUint64, maxU in *; lia|].
  destruct (negb _); [done|]. cbv zeta. intros (lo & Hlo & (up & _ & H)%bind_Ret_inv)%bind_Ret_inv.
  destruct (_ || _) eqn:E; [done|]. injection H as <- <-. apply orb_false_iff in E as [E1%Z.leb_gt E2%Z.ltb_ge].
  by apply parse_nonneg in Hlo.
Qed.
End Default.

(** The digits of ASCII. *)
Definition asciiNd : list (Z * Z * Z) := [(48, 57, 1)].
Example default_point : DimensionDefaultRange asciiNd (Build_Dimension "x" 100 "[7)") = Ret (7, 8, false).
Proof. vm_compute. reflexivity. Qed.
Example default_range : DimensionDefaultRange asciiNd (Build_Dimension "x" 100 "[7..30)") = Ret (7, 30, false).
Proof. vm_compute. reflexivity. Qed.
