(* ===== verification/Ddm.v ===== *)
(** * Data distribution management: regions ([rti/internal/hla/ddm])

    The state of the manager ([state.go]), what it takes from the object model
    ([fom_refresh.go]), regions and their bounds ([manager.go]) and the overlap
    test ([overlap.go], [core/ddm.go], [core/region_realization.go]).

    [Get] stands for the repository of object models.  The optional interfaces
    of a handle, which the code finds by type assertions, are optional fields
    of [FOMHandle]; a nil handle has none.  The address of a federation's state
    tells whether a rollback still concerns it. *)
From stdpp Require Import gmap.
From S2P Require Import Prelude GoBytes FomDimension.
Open Scope Z_scope.

Abbreviation FederationName := string.
Abbreviation FederateHandle := Z.
Abbreviation ObjectHandle := Z.
Abbreviation ObjectClassHandle := Z.
Abbreviation InteractionClassHandle := Z.
Abbreviation AttributeHandle := Z.
Abbreviation DimensionHandle := Z.
Abbreviation RegionHandle := Z.
Abbreviation RoutingSpaceHandle := Z.

(** Errors wrapped with a message ([%w]) are the errors they wrap. *)
Inductive ddm_error :=
| ErrRoutingSpaceNotFound
| ErrDimensionNotFound
| ErrRegionNotFound
| ErrRegionNotOwnedByFederate
| ErrRegionInUse
| ErrInvalidRangeBounds
| ErrInvalidRegionContext
| ErrObjectClassNotFound
| ErrInteractionClassNotFound
| ErrAttributeNotFound
| ErrInvalidUpdateRateDesignator
| errFOM                         (** of the repository *)
| errHook                        (** of an advisory or update-rate hook *)
| errObjects                     (** of the object registry *)
| ddm_errorf (msg : string).
#[export] Instance ddm_error_eq_dec : EqDecision ddm_error.
Proof. solve_decision. Defined.

(** ** The object model *)
Record FOMDimensionBinding := { fd_Handle : DimensionHandle; fd_Name : string; fd_UpperBound : Z }.
Record FOMView := { Revision : Z; v_Dimensions : list FOMDimensionBinding }.
Record FOMHandle := {
  IsValid : bool;
  Dimensions : option (list Dimension);
  AttributeDimensions : option (ObjectClassHandle -> AttributeHandle -> option (list DimensionHandle));
  InteractionDimensions : option (InteractionClassHandle -> option (list DimensionHandle));
  ObjectClassName : option (ObjectClassHandle -> option string);
  AttributeName : option (ObjectClassHandle -> AttributeHandle -> option string);
  InteractionClassName : option (InteractionClassHandle -> option string);
  LookupAttribute : ObjectClassHandle -> string -> option AttributeHandle;
  provider : option (Z * FOMView);          (** [FOMRevision()] and [View()] *)
}.
Definition nilFOM : FOMHandle := Build_FOMHandle false None None None None None None (fun _ _ => None) None.
Definition DefaultRoutingSpace : string := "default".

(** ** Ranges and realizations *)
Record Range := { Lower : Z; Upper : Z }.
#[export] Instance Range_eq_dec : EqDecision Range.
Proof. solve_decision. Defined.
Definition Overlap (r other : Range) : bool :=
  (Lower r =? Lower other) || ((Lower r <? Upper other) && (Lower other <? Upper r)).
Abbreviation regionBounds := (gmap DimensionHandle Range).

Record RegionDimensionRange := { rd_Dimension : DimensionHandle; Bounds : Range }.
#[export] Instance RegionDimensionRange_eq_dec : EqDecision RegionDimensionRange.
Proof. solve_decision. Defined.
Record RegionRealizationSnapshot := { source : RegionHandle; dimensionRanges : list RegionDimensionRange }.
#[export] Instance RegionRealizationSnapshot_eq_dec : EqDecision RegionRealizationSnapshot.
Proof. solve_decision. Defined.
Record ConveyedRegionCopy := { Designator : RegionHandle; Realization : RegionRealizationSnapshot }.

Definition dimensionLe (a b : RegionDimensionRange) : Prop := rd_Dimension a <= rd_Dimension b.
#[export] Instance dimensionLe_dec : RelDecision dimensionLe.
Proof. intros a b. unfold dimensionLe. apply _. Defined.
Fixpoint validDimensionRanges (previous : option DimensionHandle) (dims : list RegionDimensionRange) : outcome ddm_error () :=
  match dims with
  | [] => Ret ()
  | d :: dims =>
      if (rd_Dimension d =? 0) || match previous with Some p => p =? rd_Dimension d | None => false end
      then Fail (ddm_errorf "region realization: invalid or duplicate dimension")
      else if Upper (Bounds d) <? Lower (Bounds d) then Fail ErrInvalidRangeBounds
      else validDimensionRanges (Some (rd_Dimension d)) dims
  end.
Definition NewRegionRealizationSnapshot (src : RegionHandle) (dims : list RegionDimensionRange) : outcome ddm_error RegionRealizationSnapshot :=
  if src =? 0 then Fail ErrRegionNotFound
  else
    let dims := merge_sort dimensionLe dims in
    _ ← validDimensionRanges None dims;
    Ret (Build_RegionRealizationSnapshot src dims).
(** [slices.BinarySearchFunc] on the sorted dimensions. *)
Definition RangeBounds (s : RegionRealizationSnapshot) (dimension : DimensionHandle) : option Range :=
  Bounds <$> List.find (fun d => rd_Dimension d =? dimension) (dimensionRanges s).

(** The loop over [a], which stops at the first shared dimension whose ranges
    are apart. *)
Fixpoint pairLoop (a : list (DimensionHandle * Range)) (b : regionBounds) (shared : bool) : bool :=
  match a with
  | [] => shared
  | (d, ra) :: a =>
      match b !! d with
      | None => pairLoop a b shared
      | Some rb => if negb (Overlap ra rb) then false else pairLoop a b true
      end
  end.
Definition regionPairOverlap (a b : regionBounds) : bool := pairLoop (map_to_list a) b false.
Definition regionsOverlap (pub sub : list regionBounds) : bool := existsb (fun p => existsb (regionPairOverlap p) sub) pub.
Definition overlapsDefault (realizations : list regionBounds) : bool :=
  existsb (fun bounds : regionBounds => negb (bool_decide (bounds = ∅)) && forallb (fun dr : DimensionHandle * Range => Lower dr.2 <? Upper dr.2) (map_to_list bounds))
    realizations.

(** ** State *)
Record regionState := {
  template : bool;
  owner : FederateHandle;
  space : RoutingSpaceHandle;
  dims : list DimensionHandle;
  committed : gmap DimensionHandle Range;
  pending : gmap DimensionHandle Range;
}.
Definition set_pending rs x := Build_regionState (template rs) (owner rs) (space rs) (dims rs) (committed rs) x.
(** [subscription] and [interactionSubscription]: a subscriber, its regions and
    their options. *)
Record rowOf (O : Type) := Row { subscriber : FederateHandle; regions : list RegionHandle; options : O }.
Arguments Row {O} _ _ _.
Arguments subscriber {O} _.
Arguments regions {O} _.
Arguments options {O} _.
Record objectOptions := { passive : bool; updateRate : string }.
#[export] Instance objectOptions_eq_dec : EqDecision objectOptions.
Proof. solve_decision. Defined.
Abbreviation subscription := (rowOf objectOptions).
Abbreviation interactionSubscription := (rowOf bool).
Abbreviation objAttrKey := (Z * Z)%type.
Abbreviation associations := (gmap AttributeHandle (list RegionHandle)).

Record federationDDMState := {
  address : Z;
  fom : FOMHandle;
  dimDefaults : gmap DimensionHandle Range;           (** nil entries are absent *)
  routingSpaces : gmap string RoutingSpaceHandle;
  dimensions : gmap RoutingSpaceHandle (gmap string DimensionHandle);
  dimUpperBound : gmap DimensionHandle Z;
  nextRegionHandle : RegionHandle;
  regionsOf : gmap RegionHandle regionState;
  conveyed : gmap RegionHandle RegionRealizationSnapshot;
  conveyedRecipients : gmap RegionHandle (gmap FederateHandle bool);
  objSubs : gmap objAttrKey (list subscription);
  intSubs : gmap InteractionClassHandle (list interactionSubscription);
  objPubs : gmap ObjectHandle associations;
  inactivePubs : gmap ObjectHandle (gmap FederateHandle associations);
  permissive : bool;
  nextDimHandle : DimensionHandle;
  fomRevision : Z;
}.
Definition newFederationDDMState (address : Z) : federationDDMState :=
  Build_federationDDMState address nilFOM ∅ ∅ ∅ ∅ 0 ∅ ∅ ∅ ∅ ∅ ∅ ∅ true 0 0.

(** What the object model determines. *)
Definition set_declarations st f defaults spaces dims upper perm next rev :=
  Build_federationDDMState (address st) f defaults spaces dims upper (nextRegionHandle st) (regionsOf st) (conveyed st)
    (conveyedRecipients st) (objSubs st) (intSubs st) (objPubs st) (inactivePubs st) perm next rev.
Definition set_regionsOf st next x :=
  Build_federationDDMState (address st) (fom st) (dimDefaults st) (routingSpaces st) (dimensions st) (dimUpperBound st) next x
    (conveyed st) (conveyedRecipients st) (objSubs st) (intSubs st) (objPubs st) (inactivePubs st) (permissive st) (nextDimHandle st) (fomRevision st).
Definition set_conveyed st next x y :=
  Build_federationDDMState (address st) (fom st) (dimDefaults st) (routingSpaces st) (dimensions st) (dimUpperBound st) next (regionsOf st)
    x y (objSubs st) (intSubs st) (objPubs st) (inactivePubs st) (permissive st) (nextDimHandle st) (fomRevision st).
Definition set_subscriptions st x y :=
  Build_federationDDMState (address st) (fom st) (dimDefaults st) (routingSpaces st) (dimensions st) (dimUpperBound st) (nextRegionHandle st)
    (regionsOf st) (conveyed st) (conveyedRecipients st) x y (objPubs st) (inactivePubs st) (permissive st) (nextDimHandle st) (fomRevision st).
Definition set_associations st x y :=
  Build_federationDDMState (address st) (fom st) (dimDefaults st) (routingSpaces st) (dimensions st) (dimUpperBound st) (nextRegionHandle st)
    (regionsOf st) (conveyed st) (conveyedRecipients st) (objSubs st) (intSubs st) x y (permissive st) (nextDimHandle st) (fomRevision st).
Definition set_region st rh rs := set_regionsOf st (nextRegionHandle st) (<[rh := rs]> (regionsOf st)).
Definition set_objSubs st x := set_subscriptions st x (intSubs st).
Definition set_intSubs st x := set_subscriptions st (objSubs st) x.
(** A map entry whose slice or map would be empty is deleted. *)
Definition put {K A} `{Countable K} (m : gmap K (list A)) (k : K) (l : list A) : gmap K (list A) :=
  match l with [] => delete k m | _ => <[k := l]> m end.
Definition putMap {K K' A} `{Countable K} `{Countable K'} (m : gmap K (gmap K' A)) (k : K) (x : gmap K' A) : gmap K (gmap K' A) :=
  if bool_decide (x = ∅) then delete k m else <[k := x]> m.

(** [slices.Sort] and [slices.Compact] of a copy. *)
Definition dimensionSet (ds : list DimensionHandle) : list DimensionHandle := sortCompact ds.

(** ** The object model of a federation *)
Section Declarations.
Context (Nd : list (Z * Z * Z)).

Definition upperBoundOf (upper : Z) : Z := if upper =? 0 then MaxUint64 else upper.
Definition setDimensionDefault (defaults : gmap DimensionHandle Range) (h : DimensionHandle) (d : Dimension) : gmap DimensionHandle Range :=
  match DimensionDefaultRange Nd d with
  | Ret (lower, upper, false) => <[h := Build_Range lower upper]> defaults
  | _ => delete h defaults
  end.
Definition populateOne (acc : gmap string DimensionHandle * gmap DimensionHandle Z * gmap DimensionHandle Range * DimensionHandle) (d : Dimension) :=
  let '(byName, upper, defaults, next) := acc in
  let h := wrapU 64 (next + 1) in
  (<[Name d := h]> byName, <[h := upperBoundOf (UpperBound d)]> upper, setDimensionDefault defaults h d, h).
Definition populateFromFOM (st : federationDDMState) (ds : list Dimension) : federationDDMState :=
  let '(byName, upper, defaults, next) := fold_left populateOne ds (∅, dimUpperBound st, dimDefaults st, nextDimHandle st) in
  set_declarations st (fom st) defaults (<[DefaultRoutingSpace := 1]> (routingSpaces st)) (<[1 := byName]> (dimensions st)) upper
    false next (fomRevision st).

Definition dimensionNamed (ds : list Dimension) (name : string) : Dimension :=
  default (Build_Dimension "" 0 "") (List.find (fun d => String.eqb (Name d) name) (reverse ds)).
Definition refreshFOMDimensions (get : outcome ddm_error FOMHandle) (st : federationDDMState) : federationDDMState :=
  match get with
  | Ret h =>
      let st := set_declarations st h (dimDefaults st) (routingSpaces st) (dimensions st) (dimUpperBound st) (permissive st) (nextDimHandle st) (fomRevision st) in
      match provider h with
      | None => st
      | Some (revision, view) =>
          if revision =? fomRevision st then st
          else
            let defaults :=
              match Dimensions h with
              | Some ds => fold_left (fun acc b => setDimensionDefault acc (fd_Handle b) (dimensionNamed ds (fd_Name b))) (v_Dimensions view) ∅
              | None => dimDefaults st
              end in
            set_declarations st h defaults
              (<[DefaultRoutingSpace := 1]> (routingSpaces st))
              (<[1 := fold_left (fun m b => <[fd_Name b := fd_Handle b]> m) (v_Dimensions view) ∅]> (dimensions st))
              (fold_left (fun m b => <[fd_Handle b := upperBoundOf (fd_UpperBound b)]> m) (v_Dimensions view) ∅)
              false
              (fold_left (fun n b => Z.max n (fd_Handle b)) (v_Dimensions view) 0)
              (Revision view)
      end
  | _ => st
  end.
End Declarations.
Definition hasRoutingSpace (st : federationDDMState) (h : RoutingSpaceHandle) : bool := existsb (fun nh : string * Z => nh.2 =? h) (map_to_list (routingSpaces st)).
Definition hasDimension (st : federationDDMState) (sp : RoutingSpaceHandle) (dim : DimensionHandle) : bool :=
  match dimensions st !! sp with
  | Some ds => existsb (fun nh : string * Z => nh.2 =? dim) (map_to_list ds)
  | None => false
  end.
