(* ===== verification/DdmRegion.v ===== *)
(** * Data distribution management: the manager and its regions

    [manager.go] (routing spaces, the life of regions and their bounds),
    [state.go] (who uses a region), [association_lifecycle.go] (associations of
    nonowners) and [update_rate_hooks.go] (admission of a mutation by the
    update-rate service, and its rollback).

    A service that changes what update rates depend on is two steps: the change,
    which leaves a [rollback], and [finishRateMutation], which asks the hook and
    undoes the change when it is refused.  Between them the locks are released,
    and ownership may move. *)
From stdpp Require Import gmap.
From S2P Require Import Prelude GoBytes FomDimension Ddm.
Open Scope Z_scope.

Record SubscriptionOptions := { Active : bool; UpdateRateDesignator : string }.
(** Ports of the manager; [Nd] is [unicode.Nd]. *)
Record Options := {
  Nd : list (Z * Z * Z);
  FOMs : FederationName -> outcome ddm_error FOMHandle;
  FederationExists : option (FederationName -> bool);
  ValidateSubscriptionOptions : option (FederationName -> SubscriptionOptions -> outcome ddm_error ());
  OnObjectSubscriptionInterest : option (FederationName -> FederateHandle -> ObjectClassHandle -> list AttributeHandle -> outcome ddm_error ());
  OnInteractionSubscriptionInterest : option (FederationName -> FederateHandle -> InteractionClassHandle -> bool -> outcome ddm_error ());
  OnObjectSubscribed : bool;                                             (** wired *)
  onRateDemandChanged : option (FederationName -> outcome ddm_error ());
  onRegionStateChanged : bool;                                           (** wired *)
}.

(** [associationRollbackProjection]; the shadow shares the regions of the live
    state. *)
Record associationRollbackProjection := { p_fed : FederationName; p_object : ObjectHandle; p_origin : Z; shadow : federationDDMState }.
Record Manager := {
  fed : gmap FederationName federationDDMState;
  associationRollback : option associationRollbackProjection;
  allocated : Z;                                     (** addresses handed out *)
}.
Definition New (fomsPresent outboxPresent : bool) : outcome ddm_error Manager :=
  if negb outboxPresent then Fail (ddm_errorf "ddm.New: Options.Outbox is required")
  else if negb fomsPresent then Fail (ddm_errorf "ddm.New: Options.FOMs is required")
  else Ret (Build_Manager ∅ None 0).
Definition publish (m : Manager) (f : FederationName) (st : federationDDMState) : Manager :=
  Build_Manager (<[f := st]> (fed m)) (associationRollback m) (Z.max (allocated m) (address st)).
Definition set_rollback (m : Manager) (r : option associationRollbackProjection) : Manager := Build_Manager (fed m) r (allocated m).
Definition OnFederationDestroyed (m : Manager) (f : FederationName) : Manager :=
  Build_Manager (delete f (fed m)) (associationRollback m) (allocated m).

(** What a service does besides changing the manager. *)
Inductive effect :=
| ObjectInterest (f : FederationName) (sub : FederateHandle) (cls : ObjectClassHandle) (attrs : list AttributeHandle)
| InteractionInterest (f : FederationName) (sub : FederateHandle) (cls : InteractionClassHandle) (active : bool)
| ObjectSubscribed (f : FederationName) (sub : FederateHandle) (cls : ObjectClassHandle) (attrs : list AttributeHandle)
| RateDemand (f : FederationName) (mandatory : bool)
| RegionStateChanged (f : FederationName).
Record reply (A : Type) := Reply { mgr : Manager; effects : list effect; ret : outcome ddm_error A }.
Arguments Reply {A} _ _ _.
Arguments mgr {A} _.
Arguments effects {A} _.
Arguments ret {A} _.

(** ** Uses of a region *)
Definition usesRegion {K} `{Countable K} {O} (m : gmap K (list (rowOf O))) (rh : RegionHandle) : bool :=
  existsb (fun kr : K * list (rowOf O) => existsb (fun s => bool_decide (rh ∈ regions s)) kr.2) (map_to_list m).
Definition regionInUse (st : federationDDMState) (rh : RegionHandle) : bool :=
  usesRegion (objSubs st) rh || usesRegion (intSubs st) rh ||
  existsb (fun op : Z * associations => existsb (fun ar : Z * list RegionHandle => bool_decide (rh ∈ ar.2)) (map_to_list op.2)) (map_to_list (objPubs st)).
Definition remainingRegions (current removed : list RegionHandle) : list RegionHandle :=
  if bool_decide (removed = []) then [] else filter (fun r => r ∉ removed) current.

(** ** Associations of nonowners *)
Definition inactiveFor (st : federationDDMState) (obj : ObjectHandle) (caller : FederateHandle) : option associations :=
  inactivePubs st !! obj ≫= fun rows => rows !! caller.
Definition pruneInactive (rows : gmap FederateHandle associations) : gmap FederateHandle associations :=
  filter (fun cp => cp.2 <> ∅) rows.
Definition set_inactive (st : federationDDMState) (obj : ObjectHandle) (rows : gmap FederateHandle associations) : federationDDMState :=
  set_associations st (objPubs st) (putMap (inactivePubs st) obj (pruneInactive rows)).
Definition set_objPub (st : federationDDMState) (obj : ObjectHandle) (per : associations) : federationDDMState :=
  set_associations st (putMap (objPubs st) obj per) (inactivePubs st).
(** [region] leaves the associations of one federate; an attribute without
    regions is dropped. *)
Definition withoutRegion (region : RegionHandle) (per : associations) : associations :=
  omap (fun rs => match remainingRegions rs [region] with [] => None | l => Some l end) per.
Definition removeInactiveRegion (st : federationDDMState) (region : RegionHandle) : federationDDMState :=
  set_associations st (objPubs st)
    (omap (fun callers => let rows := pruneInactive (withoutRegion region <$> callers) in if bool_decide (rows = ∅) then None else Some rows) (inactivePubs st)).

Section Services.
Context (opts : Options).

Definition stateFor (m : Manager) (f : FederationName) : federationDDMState :=
  match fed m !! f with
  | Some st => refreshFOMDimensions (Nd opts) (FOMs opts f) st
  | None =>
      let st := newFederationDDMState (allocated m + 1) in
      let st := match FOMs opts f with
                | Ret h => match IsValid h, Dimensions h with
                           | true, Some ds => populateFromFOM (Nd opts) st ds
                           | _, _ => st
                           end
                | _ => st
                end in
      refreshFOMDimensions (Nd opts) (FOMs opts f) st
  end.
(** A service under the lock: its state is there afterwards, whatever it
    returns. *)
Definition change (A : Type) := federationDDMState -> federationDDMState * outcome ddm_error A.
Definition locked {A} (m : Manager) (f : FederationName) (c : change A) : Manager * outcome ddm_error A :=
  let (st, r) := c (stateFor m f) in (publish m f st, r).
Definition checked {A} (st : federationDDMState) (r : outcome ddm_error (federationDDMState * A)) : federationDDMState * outcome ddm_error A :=
  match r with Ret (st', a) => (st', Ret a) | Fail e => (st, Fail e) | Panic s => (st, Panic s) end.

(** ** Routing spaces and dimensions *)
Definition unknownFederation (f : FederationName) : bool := match FederationExists opts with Some exists_ => negb (exists_ f) | None => false end.
Definition LookupRoutingSpace (m : Manager) (f : FederationName) (name : string) : Manager * option RoutingSpaceHandle :=
  if String.eqb name "" || unknownFederation f then (m, None)
  else
    let st := stateFor m f in
    match routingSpaces st !! name with
    | Some h => (publish m f st, Some h)
    | None =>
        if permissive st then
          let h := Z.of_nat (size (routingSpaces st)) + 1 in
          (publish m f (set_declarations st (fom st) (dimDefaults st) (<[name := h]> (routingSpaces st)) (dimensions st) (dimUpperBound st) true (nextDimHandle st) (fomRevision st)), Some h)
        else (publish m f st, None)
    end.
Definition LookupDimension (m : Manager) (f : FederationName) (sp : RoutingSpaceHandle) (name : string) : Manager * option DimensionHandle :=
  if String.eqb name "" || (sp =? 0) || unknownFederation f then (m, None)
  else
    let st := stateFor m f in
    match dimensions st !! sp, permissive st with
    | None, false => (publish m f st, None)
    | found, perm =>
        let byName := default ∅ found in
        match byName !! name with
        | Some h => (publish m f st, Some h)
        | None =>
            if perm then
              let h := Z.of_nat (size byName) + 1 in
              (publish m f (set_declarations st (fom st) (dimDefaults st) (routingSpaces st) (<[sp := <[name := h]> byName]> (dimensions st))
                              (<[h := MaxUint64]> (dimUpperBound st)) true (nextDimHandle st) (fomRevision st)), Some h)
            else (publish m f st, None)
        end
    end.

(** ** The life of a region *)
Definition createRegion (who : FederateHandle) (sp : RoutingSpaceHandle) (ds : list DimensionHandle) : change RegionHandle := fun st =>
  if negb (hasRoutingSpace st sp) then (st, Fail ErrRoutingSpaceNotFound)
  else if negb (forallb (hasDimension st sp) ds) then (st, Fail ErrDimensionNotFound)
  else if nextRegionHandle st =? MaxUint64 then (st, Fail (ddm_errorf "region handle namespace exhausted"))
  else
    let rh := nextRegionHandle st + 1 in
    let full := fold_left (fun m d => <[d := Build_Range 0 (upperBoundOf (default 0 (dimUpperBound st !! d)))]> m) ds ∅ in
    (set_regionsOf st rh (<[rh := Build_regionState true who sp ds full ∅]> (regionsOf st)), Ret rh).
Definition CreateRegion (m : Manager) (f : FederationName) (who : FederateHandle) (sp : RoutingSpaceHandle) (ds : list DimensionHandle) : Manager * outcome ddm_error RegionHandle :=
  if sp =? 0 then (m, Fail ErrRoutingSpaceNotFound)
  else locked m f (createRegion who sp (dimensionSet ds)).

Definition setRangeBounds (who : FederateHandle) (rh : RegionHandle) (dim : DimensionHandle) (b : Range) : change () := fun st =>
  match regionsOf st !! rh with
  | None => (st, Fail ErrRegionNotFound)
  | Some rs =>
      if negb (owner rs =? who) then (st, Fail ErrRegionNotOwnedByFederate)
      else if negb (bool_decide (dim ∈ dims rs)) then (st, Fail ErrDimensionNotFound)
      else if (Upper b <=? Lower b) || (default 0 (dimUpperBound st !! dim) <? Upper b) then (st, Fail ErrInvalidRangeBounds)
      else (set_region st rh (set_pending rs (<[dim := b]> (pending rs))), Ret ())
  end.
Definition SetRangeBounds (m : Manager) (f : FederationName) who rh dim b : Manager * outcome ddm_error () := locked m f (setRangeBounds who rh dim b).

Definition committable (st : federationDDMState) (who : FederateHandle) (rh : RegionHandle) : outcome ddm_error () :=
  match regionsOf st !! rh with
  | None => Fail ErrRegionNotFound
  | Some rs =>
      if negb (owner rs =? who) then Fail ErrRegionNotOwnedByFederate
      else if template rs && negb (forallb (fun d => bool_decide (is_Some (pending rs !! d))) (dims rs)) then Fail ErrRegionNotFound
      else Ret ()
  end.
Fixpoint checkAll {A} (f : A -> outcome ddm_error ()) (l : list A) : outcome ddm_error () :=
  match l with [] => Ret () | a :: l => _ ← f a; checkAll f l end.
(** A second mention of a region finds nothing pending. *)
Definition commitOne (st : federationDDMState) (rh : RegionHandle) : federationDDMState :=
  match regionsOf st !! rh with
  | Some rs => set_region st rh (Build_regionState false (owner rs) (space rs) (dims rs) (pending rs ∪ committed rs) ∅)
  | None => st
  end.

(** ** Rollbacks *)
Inductive rollback :=
| RollRegions (saved : gmap RegionHandle regionState)               (** template, committed and pending ranges *)
| RollAssociation (obj : ObjectHandle)                              (** to the shadow of the projection *)
| RollObjectSubs (sub : FederateHandle) (cls : ObjectClassHandle) (previous : gmap objAttrKey (list subscription))
| RollInteractionSubs (sub : FederateHandle) (cls : InteractionClassHandle) (previous : list interactionSubscription).
Record pendingRollback := { r_fed : FederationName; r_origin : Z; r_what : rollback }.
Definition withoutSubscriber {O} (sub : FederateHandle) (rows : list (rowOf O)) : list (rowOf O) := filter (fun s => subscriber s <> sub) rows.
Definition removeObjSubLocked (m : gmap objAttrKey (list subscription)) (key : objAttrKey) (sub : FederateHandle) : gmap objAttrKey (list subscription) :=
  match m !! key with None | Some [] => m | Some rows => put m key (withoutSubscriber sub rows) end.
Definition removeIntSubLocked (m : gmap InteractionClassHandle (list interactionSubscription)) (cls : InteractionClassHandle) (sub : FederateHandle) :=
  match m !! cls with None | Some [] => m | Some rows => put m cls (withoutSubscriber sub rows) end.
Definition restoreRanges (st : federationDDMState) (saved : gmap RegionHandle regionState) : federationDDMState :=
  set_regionsOf st (nextRegionHandle st)
    (map_imap (fun rh rs => Some match saved !! rh with
                                 | Some old => Build_regionState (template old) (owner rs) (space rs) (dims rs) (committed old) (pending old)
                                 | None => rs
                                 end) (regionsOf st)).
Definition rollBack (st : federationDDMState) (projection : option associationRollbackProjection) (w : rollback) : federationDDMState :=
  match w with
  | RollRegions saved => restoreRanges st saved
  | RollAssociation obj =>
      match projection with
      | None => st
      | Some p =>
          set_associations st
            (match objPubs (shadow p) !! obj with Some x => <[obj := x]> (objPubs st) | None => delete obj (objPubs st) end)
            (putMap (inactivePubs st) obj (default ∅ (inactivePubs (shadow p) !! obj)))
      end
  | RollObjectSubs sub cls previous =>
      let cleared := fold_left (fun m key => if fst key =? cls then removeObjSubLocked m key sub else m) (elements (dom (objSubs st))) (objSubs st) in
      set_objSubs st (fold_left (fun m kr => <[fst kr := default [] (m !! fst kr) ++ snd kr]> m) (map_to_list previous) cleared)
  | RollInteractionSubs sub cls previous =>
      let cleared := removeIntSubLocked (intSubs st) cls sub in
      set_intSubs st (match previous with [] => cleared | _ => <[cls := default [] (cleared !! cls) ++ previous]> cleared end)
  end.
Definition applyRollback (m : Manager) (r : pendingRollback) : Manager :=
  match fed m !! r_fed r with
  | Some st => if address st =? r_origin r then publish m (r_fed r) (rollBack st (associationRollback m) (r_what r)) else m
  | None => m
  end.
(** [finishRateMutation] and [notifyRegionStateChanged], deferred by a change
    that returned [r] and left [rb]. *)
Definition finishRateMutation (m : Manager) (f : FederationName) (rb : option pendingRollback) (r : outcome ddm_error ()) : reply () :=
  let settled m es r := Reply (set_rollback m None)
                          (es ++ match r with Ret _ => if onRegionStateChanged opts then [RegionStateChanged f] else [] | _ => [] end) r in
  match r, rb, onRateDemandChanged opts with
  | Ret _, Some rb, Some hook =>
      match hook f with
      | Ret _ => settled m [RateDemand f false] (Ret ())
      | Fail e => settled (applyRollback m rb) [RateDemand f false] (Fail e)
      | Panic s => settled m [RateDemand f false] (Panic s)
      end
  | _, _, _ => settled m [] r
  end.

(** The first step of [CommitRegionModifications]. *)
Definition commitRegions (who : FederateHandle) (rhs : list RegionHandle) : change rollback := fun st => checked st (
  _ ← checkAll (committable st who) rhs;
  Ret (fold_left commitOne rhs st, RollRegions (filter (fun kr => kr.1 ∈ rhs) (regionsOf st)))).
Definition CommitRegionModifications (m : Manager) (f : FederationName) (who : FederateHandle) (rhs : list RegionHandle) : reply () :=
  let origin := address (stateFor m f) in
  let (m, r) := locked m f (commitRegions who rhs) in
  finishRateMutation m f (match r with Ret w => Some (Build_pendingRollback f origin w) | _ => None end) (_ ← r; Ret ()).

Definition deleteRegion (who : FederateHandle) (rh : RegionHandle) : change () := fun st =>
  match regionsOf st !! rh with
  | None => (st, Fail ErrRegionNotFound)
  | Some rs =>
      if negb (owner rs =? who) then (st, Fail ErrRegionNotOwnedByFederate)
      else if regionInUse st rh then (st, Fail ErrRegionInUse)
      else (removeInactiveRegion (set_regionsOf st (nextRegionHandle st) (delete rh (regionsOf st))) rh, Ret ())
  end.
Definition DeleteRegion (m : Manager) (f : FederationName) who rh : Manager * outcome ddm_error () := locked m f (deleteRegion who rh).

(** ** Queries *)
Definition QueryBoundsChecked (m : Manager) (f : FederationName) (rh : RegionHandle) (dim : DimensionHandle) : outcome ddm_error Range :=
  match fed m !! f with
  | None => Fail ErrRegionNotFound
  | Some st =>
      match conveyed st !! rh with
      | Some snapshot => match RangeBounds snapshot dim with Some b => Ret b | None => Fail ErrDimensionNotFound end
      | None =>
          match regionsOf st !! rh with
          | Some rs => if template rs then Fail ErrRegionNotFound
                       else match committed rs !! dim with Some b => Ret b | None => Fail ErrDimensionNotFound end
          | None => Fail ErrRegionNotFound
          end
      end
  end.
Definition QueryBounds (m : Manager) (f : FederationName) (rh : RegionHandle) (dim : DimensionHandle) : option Range :=
  st ← fed m !! f;
  match conveyed st !! rh with
  | Some snapshot => RangeBounds snapshot dim
  | None => rs ← regionsOf st !! rh; if template rs then None else committed rs !! dim
  end.
(** A conveyed region is readable by the receivers that entered its callback. *)
Definition readable (st : federationDDMState) (rh : RegionHandle) (receiver : FederateHandle) : bool :=
  default false (conveyedRecipients st !! rh ≫= fun rows => rows !! receiver).
Definition QueryBoundsFor (m : Manager) (f : FederationName) (receiver : FederateHandle) (rh : RegionHandle) (dim : DimensionHandle) : outcome ddm_error Range :=
  match fed m !! f with
  | None => Fail ErrRegionNotFound
  | Some st =>
      match conveyed st !! rh with
      | Some snapshot =>
          if negb (readable st rh receiver) then Fail ErrRegionNotFound
          else match RangeBounds snapshot dim with Some b => Ret b | None => Fail ErrDimensionNotFound end
      | None =>
          match regionsOf st !! rh with
          | Some rs =>
              if template rs then Fail ErrRegionNotFound
              else if negb (owner rs =? receiver) then Fail ErrRegionNotOwnedByFederate
              else match committed rs !! dim with Some b => Ret b | None => Fail ErrDimensionNotFound end
          | None => Fail ErrRegionNotFound
          end
      end
  end.
Definition RegionDimensionsFor (m : Manager) (f : FederationName) (receiver : FederateHandle) (rh : RegionHandle) : outcome ddm_error (list DimensionHandle) :=
  match fed m !! f with
  | None => Fail ErrRegionNotFound
  | Some st =>
      match conveyed st !! rh with
      | Some snapshot => if negb (readable st rh receiver) then Fail ErrRegionNotFound else Ret (map rd_Dimension (dimensionRanges snapshot))
      | None =>
          match regionsOf st !! rh with
          | Some rs => if negb (owner rs =? receiver) then Fail ErrRegionNotOwnedByFederate else Ret (dims rs)
          | None => Fail ErrRegionNotFound
          end
      end
  end.
Definition ConveyedRegionDimensions (m : Manager) (f : FederationName) (rh : RegionHandle) : option (list DimensionHandle) :=
  st ← fed m !! f; snapshot ← conveyed st !! rh; Some (map rd_Dimension (dimensionRanges snapshot)).
(** [len(st.regions)] as [uint32]. *)
Definition Snapshot (m : Manager) (f : FederationName) : Z :=
  match fed m !! f with Some st => wrapU 32 (Z.of_nat (size (regionsOf st))) | None => 0 end.
End Services.
