(* ===== verification/DdmSubscribe.v ===== *)
(** * Data distribution management: subscriptions and associations

    [operations.go] (contexts and validation), [subscription_options.go],
    [missing_services.go], [groups.go] and the subscription services of
    [manager.go]; [registration.go], [association_lifecycle.go] and the
    resignation of [update_rate_hooks.go]. *)
From stdpp Require Import gmap.
From S2P Require Import Prelude GoBytes FomDimension Ddm DdmRegion.
Open Scope Z_scope.

(** ** Contexts *)
(** The dimensions available to each attribute; no entry when the object model
    does not tell. *)
Abbreviation requiredDimensions := (gmap AttributeHandle (list DimensionHandle)).
Fixpoint attributeContext (h : FOMHandle) (cls : ObjectClassHandle) (attrs : list AttributeHandle) (required : requiredDimensions)
    : outcome ddm_error requiredDimensions :=
  match attrs with
  | [] => Ret required
  | a :: attrs =>
      if (a =? 0) || match AttributeName h with Some names => bool_decide (names cls a = None) | None => false end
      then Fail ErrAttributeNotFound
      else
        match AttributeDimensions h with
        | None => attributeContext h cls attrs required
        | Some dims_ =>
            match dims_ cls a with
            | None => Fail ErrAttributeNotFound
            | Some values => attributeContext h cls attrs (<[a := dimensionSet values]> required)
            end
        end
  end.
Definition objectContext (get : outcome ddm_error FOMHandle) (cls : ObjectClassHandle) (attrs : list AttributeHandle) : outcome ddm_error requiredDimensions :=
  h ← get;
  if match ObjectClassName h with Some names => bool_decide (names cls = None) | None => false end then Fail ErrObjectClassNotFound
  else attributeContext h cls attrs ∅.
Definition interactionContext (get : outcome ddm_error FOMHandle) (cls : InteractionClassHandle) : outcome ddm_error (list DimensionHandle * bool) :=
  h ← get;
  if match InteractionClassName h with Some names => bool_decide (names cls = None) | None => false end then Fail ErrInteractionClassNotFound
  else
    match InteractionDimensions h with
    | Some dims_ => match dims_ cls with Some values => Ret (dimensionSet values, true) | None => Fail ErrInteractionClassNotFound end
    | None => Ret ([], false)
    end.
Definition dimensionsSubset (region available : list DimensionHandle) : bool := forallb (fun d => bool_decide (d ∈ available)) region.
Definition validateRegion (st : federationDDMState) (caller : FederateHandle) (ds : list DimensionHandle) (strict : bool) (rh : RegionHandle) : outcome ddm_error () :=
  match regionsOf st !! rh with
  | None => Fail ErrRegionNotFound
  | Some rs =>
      if negb (owner rs =? caller) then Fail ErrRegionNotOwnedByFederate
      else if template rs then Fail ErrRegionNotFound
      else if strict && (bool_decide (ds = []) || negb (dimensionsSubset (dims rs) ds)) then Fail ErrInvalidRegionContext
      else Ret ()
  end.
Definition validateRegions st caller (rhs : list RegionHandle) ds strict : outcome ddm_error () := checkAll (validateRegion st caller ds strict) rhs.
Definition validateObjectRegions st caller (attrs : list AttributeHandle) (rhs : list RegionHandle) (required : requiredDimensions) : outcome ddm_error () :=
  _ ← validateRegions st caller rhs [] false;
  checkAll (fun a => validateRegions st caller rhs (default [] (required !! a)) (bool_decide (is_Some (required !! a)))) attrs.

Record AttributeRegionGroup := { g_Attributes : list AttributeHandle; g_Regions : list RegionHandle }.
Definition groupAttributes (groups : list AttributeRegionGroup) : list AttributeHandle := sortCompact (flat_map g_Attributes groups).
Definition bindingGroups (bindings : gmap AttributeHandle (list RegionHandle)) : list AttributeRegionGroup :=
  map (fun a => Build_AttributeRegionGroup [a] (default [] (bindings !! a))) (sortHandles (elements (dom bindings))).
Definition validateGroups st caller (groups : list AttributeRegionGroup) (required : requiredDimensions) : outcome ddm_error () :=
  checkAll (fun g => validateObjectRegions st caller (g_Attributes g) (g_Regions g) required) groups.

(** ** Rows of subscriptions

    [addObjectSubscriptionLocked] and [addInteractionSubscriptionLocked]: the
    rows of others are kept; of the subscriber's rows, those with the same
    options are merged into the new one, the others lose its regions. *)
Definition addStep {O} `{EqDecision O} (acc : list (rowOf O) * rowOf O) (row : rowOf O) : list (rowOf O) * rowOf O :=
  let (kept, added) := acc in
  if negb (subscriber row =? subscriber added) then (kept ++ [row], added)
  else if bool_decide (options row = options added) then (kept, Row (subscriber added) (regions added ++ regions row) (options added))
  else
    match remainingRegions (regions row) (regions added) with
    | [] => (kept, added)
    | l => (kept ++ [Row (subscriber row) l (options row)], added)
    end.
Definition addRow {O} `{EqDecision O} (rows : list (rowOf O)) (added : rowOf O) : list (rowOf O) :=
  let (kept, added) := fold_left addStep rows ([], added) in
  kept ++ [Row (subscriber added) (sortCompact (regions added)) (options added)].
Definition removeSubscriptionRegions {O} (rows : list (rowOf O)) (sub : FederateHandle) (removed : list RegionHandle) : list (rowOf O) :=
  filter (fun row => regions row <> [])
    (map (fun row => if subscriber row =? sub then Row (subscriber row) (remainingRegions (regions row) removed) (options row) else row) rows).
Definition addObjectSubscriptionLocked (st : federationDDMState) (key : objAttrKey) (added : subscription) : federationDDMState :=
  set_objSubs st (<[key := addRow (default [] (objSubs st !! key)) added]> (objSubs st)).
Definition removeObjectSubscriptionRegions (st : federationDDMState) (key : objAttrKey) (sub : FederateHandle) (rhs : list RegionHandle) : federationDDMState :=
  set_objSubs st (put (objSubs st) key (removeSubscriptionRegions (default [] (objSubs st !! key)) sub rhs)).
Definition rowsOf {O} (sub : FederateHandle) (rows : list (rowOf O)) : list (rowOf O) := filter (fun r => subscriber r = sub) rows.
Definition objectSubscriptionRollback (st : federationDDMState) (sub : FederateHandle) (cls : ObjectClassHandle) : rollback :=
  RollObjectSubs sub cls (omap (fun rows => match rowsOf sub rows with [] => None | l => Some l end) (filter (fun kr => fst (fst kr) = cls) (objSubs st))).
Definition interactionSubscriptionRollback (st : federationDDMState) (sub : FederateHandle) (cls : InteractionClassHandle) : rollback :=
  RollInteractionSubs sub cls (rowsOf sub (default [] (intSubs st !! cls))).

Section Subscriptions.
Context (opts : Options).

(** ** Interest hooks *)
Definition interested (sub : FederateHandle) {O} (isPassive : O -> bool) (row : rowOf O) : bool :=
  (subscriber row =? sub) && negb (isPassive (options row)) && negb (bool_decide (regions row = [])).
Definition interestAttributes (st : option federationDDMState) (sub : FederateHandle) (cls : ObjectClassHandle) : list AttributeHandle :=
  match st with
  | None => []
  | Some st => sortHandles (omap (fun kr : objAttrKey * list subscription =>
      if (fst (fst kr) =? cls) && existsb (interested sub passive) (snd kr) then Some (snd (fst kr)) else None) (map_to_list (objSubs st)))
  end.
Definition objectInterest (m : Manager) (f : FederationName) (sub : FederateHandle) (cls : ObjectClassHandle) : list effect * outcome ddm_error () :=
  match OnObjectSubscriptionInterest opts with
  | None => ([], Ret ())
  | Some hook => let attrs := interestAttributes (fed m !! f) sub cls in ([ObjectInterest f sub cls attrs], hook f sub cls attrs)
  end.
Definition interactionInterest (m : Manager) (f : FederationName) (sub : FederateHandle) (cls : InteractionClassHandle) : list effect * outcome ddm_error () :=
  match OnInteractionSubscriptionInterest opts with
  | None => ([], Ret ())
  | Some hook =>
      let active := match fed m !! f with Some st => existsb (interested sub id) (default [] (intSubs st !! cls)) | None => false end in
      ([InteractionInterest f sub cls active], hook f sub cls active)
  end.
(** After a change that returned [r] and left the rollback [rb]. *)
Definition afterInterest (m : Manager) (f : FederationName) (rb : option pendingRollback) (r : outcome ddm_error ())
    (interest : Manager -> list effect * outcome ddm_error ()) : reply () :=
  match r with
  | Ret _ =>
      let (es, verdict) := interest m in
      match verdict with
      | Ret _ => Reply m es (Ret ())
      | v => Reply (match rb with Some rb => applyRollback m rb | None => m end) es v
      end
  | r => Reply m [] r
  end.
Definition andThen (r : reply ()) (es : list effect) : reply () :=
  match ret r with Ret _ => Reply (mgr r) (effects r ++ es) (ret r) | _ => r end.
Definition subscribedNotice (f : FederationName) (sub : FederateHandle) (cls : ObjectClassHandle) (attrs : list AttributeHandle) : list effect :=
  if OnObjectSubscribed opts && negb (bool_decide (attrs = [])) then [ObjectSubscribed f sub cls (sortCompact attrs)] else [].
Definition rollbackFor (f : FederationName) (origin : Z) (r : outcome ddm_error (option rollback)) : option pendingRollback :=
  match r with Ret (Some w) => Some (Build_pendingRollback f origin w) | _ => None end.

Definition validateOptions (f : FederationName) (o : SubscriptionOptions) : outcome ddm_error () :=
  match ValidateSubscriptionOptions opts with
  | Some validate => validate f o
  | None => if String.eqb (UpdateRateDesignator o) "" then Ret () else Fail ErrInvalidUpdateRateDesignator
  end.

(** ** Object classes *)
Definition subscribeAttributes (sub : FederateHandle) (cls : ObjectClassHandle) (attrs : list AttributeHandle) (rhs : list RegionHandle)
    (required : requiredDimensions) (o : SubscriptionOptions) : change (option rollback) := fun st => checked st (
  _ ← validateObjectRegions st sub attrs rhs required;
  if bool_decide (rhs = []) then Ret (st, None)
  else Ret (fold_left (fun st a => addObjectSubscriptionLocked st (cls, a) (Row sub rhs (Build_objectOptions (negb (Active o)) (UpdateRateDesignator o)))) attrs st,
            Some (objectSubscriptionRollback st sub cls))).
Definition SubscribeObjectClassAttributesWithRegionsAndOptions (m : Manager) (f : FederationName) sub cls attrs rhs (o : SubscriptionOptions) : reply () :=
  match _ ← validateOptions f o; objectContext (FOMs opts f) cls attrs with
  | Ret required =>
      let origin := address (stateFor opts m f) in
      let (m, r) := locked opts m f (subscribeAttributes sub cls attrs rhs required o) in
      andThen (afterInterest m f (rollbackFor f origin r) (_ ← r; Ret ()) (fun m => objectInterest m f sub cls))
        (match r with Ret (Some _) => subscribedNotice f sub cls attrs | _ => [] end)
  | Fail e => Reply m [] (Fail e)
  | Panic s => Reply m [] (Panic s)
  end.
Definition SubscribeObjectClassAttributesWithRegions (m : Manager) f sub cls attrs rhs : reply () :=
  SubscribeObjectClassAttributesWithRegionsAndOptions m f sub cls attrs rhs (Build_SubscriptionOptions true "").
Definition unsubscribeAttributes (sub : FederateHandle) (cls : ObjectClassHandle) (attrs : list AttributeHandle) (rhs : list RegionHandle)
    (required : requiredDimensions) : change (option rollback) := fun st => checked st (
  _ ← validateObjectRegions st sub attrs rhs required;
  if bool_decide (rhs = []) then Ret (st, None)
  else Ret (fold_left (fun st a => removeObjectSubscriptionRegions st (cls, a) sub rhs) attrs st, Some (objectSubscriptionRollback st sub cls))).
Definition UnsubscribeObjectClassAttributesWithRegions (m : Manager) (f : FederationName) sub cls attrs rhs : reply () :=
  match objectContext (FOMs opts f) cls attrs with
  | Ret required =>
      let origin := address (stateFor opts m f) in
      let (m, r) := locked opts m f (unsubscribeAttributes sub cls attrs rhs required) in
      afterInterest m f (rollbackFor f origin r) (_ ← r; Ret ()) (fun m => objectInterest m f sub cls)
  | Fail e => Reply m [] (Fail e)
  | Panic s => Reply m [] (Panic s)
  end.

(** A group without attributes or regions is skipped; the interest hook runs
    only when one was not. *)
Definition effective (g : AttributeRegionGroup) : bool := negb (bool_decide (g_Attributes g = [])) && negb (bool_decide (g_Regions g = [])).
Definition changeGroup (sub : FederateHandle) (cls : ObjectClassHandle) (o : option SubscriptionOptions) (st : federationDDMState) (g : AttributeRegionGroup) : federationDDMState :=
  fold_left (fun st a =>
    match o with
    | Some o => addObjectSubscriptionLocked st (cls, a) (Row sub (g_Regions g) (Build_objectOptions (negb (Active o)) (UpdateRateDesignator o)))
    | None => removeObjectSubscriptionRegions st (cls, a) sub (g_Regions g)
    end) (g_Attributes g) st.
Definition changeGroups (sub : FederateHandle) (cls : ObjectClassHandle) (groups : list AttributeRegionGroup) (required : requiredDimensions)
    (o : option SubscriptionOptions) : change (option rollback) := fun st => checked st (
  _ ← validateGroups st sub groups required;
  match List.filter effective groups with
  | [] => Ret (st, None)
  | gs => Ret (fold_left (changeGroup sub cls o) gs st, Some (objectSubscriptionRollback st sub cls))
  end).
Definition changeObjectRegionGroups (m : Manager) (f : FederationName) sub cls (groups : list AttributeRegionGroup) (o : option SubscriptionOptions) : reply () :=
  match _ ← match o with Some o => validateOptions f o | None => Ret () end;
        objectContext (FOMs opts f) cls (groupAttributes groups) with
  | Ret required =>
      let origin := address (stateFor opts m f) in
      let (m, r) := locked opts m f (changeGroups sub cls groups (match o with Some _ => required | None => ∅ end) o) in
      andThen (afterInterest m f (rollbackFor f origin r) (_ ← r; Ret ())
                 (fun m => match r with Ret (Some _) => objectInterest m f sub cls | _ => ([], Ret ()) end))
        (match o with Some _ => subscribedNotice f sub cls (flat_map g_Attributes (List.filter effective groups)) | None => [] end)
  | Fail e => Reply m [] (Fail e)
  | Panic s => Reply m [] (Panic s)
  end.
Definition SubscribeObjectClassAttributeRegionGroups m f sub cls groups o := changeObjectRegionGroups m f sub cls groups (Some o).
Definition UnsubscribeObjectClassAttributeRegionGroups m f sub cls groups := changeObjectRegionGroups m f sub cls groups None.

(** ** Interaction classes *)
Definition subscribeInteraction (sub : FederateHandle) (cls : InteractionClassHandle) (rhs : list RegionHandle) (context : list DimensionHandle * bool) (active : bool)
    : change (option rollback) := fun st => checked st (
  _ ← validateRegions st sub rhs context.1 context.2;
  if bool_decide (rhs = []) then Ret (st, None)
  else Ret (set_intSubs st (<[cls := addRow (default [] (intSubs st !! cls)) (Row sub rhs (negb active))]> (intSubs st)), Some (interactionSubscriptionRollback st sub cls))).
Definition unsubscribeInteraction (sub : FederateHandle) (cls : InteractionClassHandle) (rhs : list RegionHandle) (context : list DimensionHandle * bool)
    : change (option rollback) := fun st => checked st (
  _ ← validateRegions st sub rhs context.1 context.2;
  if bool_decide (rhs = []) then Ret (st, None)
  else Ret (set_intSubs st (put (intSubs st) cls (removeSubscriptionRegions (default [] (intSubs st !! cls)) sub rhs)), Some (interactionSubscriptionRollback st sub cls))).
Definition changeInteraction (m : Manager) (f : FederationName) (sub : FederateHandle) (cls : InteractionClassHandle)
    (c : list DimensionHandle * bool -> change (option rollback)) : reply () :=
  match interactionContext (FOMs opts f) cls with
  | Ret context =>
      let origin := address (stateFor opts m f) in
      let (m, r) := locked opts m f (c context) in
      afterInterest m f (rollbackFor f origin r) (_ ← r; Ret ()) (fun m => interactionInterest m f sub cls)
  | Fail e => Reply m [] (Fail e)
  | Panic s => Reply m [] (Panic s)
  end.
Definition SubscribeInteractionClassWithRegionsAndOptions m f sub cls rhs (active : bool) : reply () :=
  changeInteraction m f sub cls (fun context => subscribeInteraction sub cls rhs context active).
Definition SubscribeInteractionClassWithRegions m f sub cls rhs : reply () := SubscribeInteractionClassWithRegionsAndOptions m f sub cls rhs true.
Definition UnsubscribeInteractionClassWithRegions m f sub cls rhs : reply () := changeInteraction m f sub cls (unsubscribeInteraction sub cls rhs).
End Subscriptions.
