(* ===== verification/DdmAssociate.v ===== *)
(** * Data distribution management: the regions updates are sent with

    [groups.go] and [association_lifecycle.go] (associations of regions with the
    attributes of an instance), [registration.go] (associations made with the
    instance) and [update_rate_hooks.go] (resignation).  The regions of the
    owner of an attribute are in [objPubs] and route its updates; a nonowner's
    are in [inactivePubs] until ownership comes to it. *)
From stdpp Require Import gmap.
From S2P Require Import Prelude GoBytes FomDimension Ddm DdmRegion DdmSubscribe.
Open Scope Z_scope.

(** [PrepareKnownAssociation]: the class, the attributes in its coordinates,
    the owners, and whether a release came with them; and the older
    [PrepareRegionAssociation]. *)
Record AssociationPorts := {
  PrepareKnownAssociation : option (FederationName -> FederateHandle -> ObjectHandle -> list AttributeHandle ->
    outcome ddm_error (ObjectClassHandle * list AttributeHandle * option (gmap AttributeHandle FederateHandle) * bool));
  PrepareRegionAssociation : option (FederationName -> FederateHandle -> ObjectHandle -> list AttributeHandle -> outcome ddm_error (ObjectClassHandle * bool));
}.

Fixpoint mapHandles (attrs actual : list AttributeHandle) (mapped inverse : gmap AttributeHandle AttributeHandle) : outcome ddm_error (gmap AttributeHandle AttributeHandle) :=
  match attrs, actual with
  | a :: attrs, b :: actual =>
      if b =? 0 then Fail (ddm_errorf "ddm: invalid mapped attribute")
      else if match inverse !! b with Some previous => negb (previous =? a) | None => false end
      then Fail (ddm_errorf "ddm: ambiguous known association mapping")
      else mapHandles attrs actual (<[a := b]> mapped) (<[b := a]> inverse)
  | _, _ => Ret mapped
  end.
Definition mapAssociationGroups (groups : list AttributeRegionGroup) (attrs actual : list AttributeHandle) : outcome ddm_error (list AttributeRegionGroup) :=
  if negb (length attrs =? length actual)%nat then Fail (ddm_errorf "ddm: known association mapping length mismatch")
  else
    mapped ← mapHandles attrs actual ∅ ∅;
    Ret (map (fun g => Build_AttributeRegionGroup (map (fun a => default 0 (mapped !! a)) (g_Attributes g)) (g_Regions g)) groups).
Definition associatedAttributes (groups : list AttributeRegionGroup) : list AttributeHandle :=
  sortCompact (flat_map (fun g => match g_Regions g with [] => [] | _ => g_Attributes g end) groups).

Inductive associationMode := associationAdd | associationRemove | associationReplace | associationLegacyRemove.
#[export] Instance associationMode_eq_dec : EqDecision associationMode.
Proof. solve_decision. Defined.
Definition removing (mode : associationMode) : bool := match mode with associationRemove | associationLegacyRemove => true | _ => false end.

(** [changeAttributeRegions] on one attribute. *)
Definition changeAttributeRegions (per : associations) (a : AttributeHandle) (rhs : list RegionHandle) (mode : associationMode) : associations :=
  match mode with
  | associationRemove | associationLegacyRemove => put per a (remainingRegions (default [] (per !! a)) rhs)
  | associationReplace => put per a rhs
  | associationAdd => <[a := sortCompact (default [] (per !! a) ++ rhs)]> per
  end.
Definition ownedElsewhere (owners : option (gmap AttributeHandle FederateHandle)) (caller : FederateHandle) (a : AttributeHandle) : bool :=
  match owners with Some os => negb (default 0 (os !! a) =? caller) | None => false end.
(** The maps that come out empty are deleted once the group is done. *)
Definition changeAttribute (obj : ObjectHandle) (caller : FederateHandle) (owners : option (gmap AttributeHandle FederateHandle)) (rhs : list RegionHandle)
    (mode : associationMode) (acc : associations * gmap FederateHandle associations) (a : AttributeHandle) : associations * gmap FederateHandle associations :=
  let (per, rows) := acc in
  if ownedElsewhere owners caller a
  then match rows !! caller with
       | Some x => (per, <[caller := changeAttributeRegions x a rhs mode]> rows)
       | None => if removing mode then acc else (per, <[caller := changeAttributeRegions ∅ a rhs mode]> rows)
       end
  else (changeAttributeRegions per a rhs mode, rows).
Definition changeAssociationGroup (st : federationDDMState) (obj : ObjectHandle) (caller : FederateHandle) (g : AttributeRegionGroup)
    (owners : option (gmap AttributeHandle FederateHandle)) (mode : associationMode) : federationDDMState :=
  let (per, rows) := fold_left (changeAttribute obj caller owners (g_Regions g) mode) (g_Attributes g)
                       (default ∅ (objPubs st !! obj), default ∅ (inactivePubs st !! obj)) in
  set_inactive (set_objPub st obj per) obj rows.
(** The associations made by [caller]: those whose first region it owns. *)
Definition madeBy (st : federationDDMState) (caller : FederateHandle) (rhs : list RegionHandle) : bool :=
  match rhs with
  | [] => false
  | rh :: _ => match regionsOf st !! rh with Some rs => owner rs =? caller | None => false end
  end.
Definition clearObjectAssociations (st : federationDDMState) (obj : ObjectHandle) (caller : FederateHandle) : federationDDMState :=
  set_inactive (set_objPub st obj (filter (fun ar => madeBy st caller ar.2 = false) (default ∅ (objPubs st !! obj))))
    obj (delete caller (default ∅ (inactivePubs st !! obj))).

(** What follows from a change of owners. *)
Definition handedOver (rows : gmap FederateHandle associations) (next : FederateHandle) (a : AttributeHandle) : option (list RegionHandle) :=
  if next =? 0 then None else rows !! next ≫= fun per => per !! a.
Definition transferAttribute (obj : ObjectHandle) (before after : gmap AttributeHandle FederateHandle)
    (acc : associations * gmap FederateHandle associations) (a : AttributeHandle) : associations * gmap FederateHandle associations :=
  let (per, rows) := acc in
  let previous := default 0 (before !! a) in
  let next := default 0 (after !! a) in
  if previous =? next then acc
  else
    let per := delete a per in
    let rows := alter (delete a) previous rows in
    match handedOver rows next a with
    | Some (rh :: l) => (<[a := rh :: l]> per, alter (delete a) next rows)
    | _ => (per, rows)
    end.
Definition applyOwnershipChange (st : federationDDMState) (obj : ObjectHandle) (before after : gmap AttributeHandle FederateHandle) : federationDDMState :=
  let (per, rows) := fold_left (transferAttribute obj before after) (elements (dom before)) (default ∅ (objPubs st !! obj), default ∅ (inactivePubs st !! obj)) in
  set_inactive (set_objPub st obj per) obj rows.

(** ** Conveyed regions of a receiver *)
Definition pruneConveyedRegion (st : federationDDMState) (rh : RegionHandle) : federationDDMState :=
  if bool_decide (default ∅ (conveyedRecipients st !! rh) = ∅)
  then set_conveyed st (nextRegionHandle st) (delete rh (conveyed st)) (delete rh (conveyedRecipients st)) else st.
Definition releaseLease (receiver : FederateHandle) (st : federationDDMState) (rh : RegionHandle) : federationDDMState :=
  pruneConveyedRegion (set_conveyed st (nextRegionHandle st) (conveyed st) (alter (delete receiver) rh (conveyedRecipients st))) rh.
Definition releaseConveyedReceiver (st : federationDDMState) (receiver : FederateHandle) : federationDDMState :=
  fold_left (releaseLease receiver) (elements (dom (conveyedRecipients st))) st.

Definition forgetFederateAssociations (st : federationDDMState) (caller : FederateHandle) : federationDDMState :=
  let st := releaseConveyedReceiver st caller in
  let st := set_associations st
              (omap (fun per => let per' := filter (fun ar => madeBy st caller ar.2 = false) per in if bool_decide (per' = ∅) then None else Some per') (objPubs st))
              (inactivePubs st) in
  set_associations st (objPubs st)
    (omap (fun rows => let rows' := pruneInactive (delete caller rows) in if bool_decide (rows' = ∅) then None else Some rows') (inactivePubs st)).
Definition forgetObject (st : federationDDMState) (obj : ObjectHandle) : federationDDMState :=
  set_associations st (delete obj (objPubs st)) (delete obj (inactivePubs st)).
Definition forgetObjectFederate (st : federationDDMState) (obj : ObjectHandle) (caller : FederateHandle) : federationDDMState :=
  set_inactive st obj (delete caller (default ∅ (inactivePubs st !! obj))).

(** ** Resignation *)
Definition keepRegions (st : federationDDMState) (rhs : list RegionHandle) : list RegionHandle := filter (fun rh => is_Some (regionsOf st !! rh)) rhs.
Definition keepRows {O} (st : federationDDMState) (h : FederateHandle) (rows : list (rowOf O)) : list (rowOf O) :=
  filter (fun row => regions row <> []) (map (fun row => Row (subscriber row) (keepRegions st (regions row)) (options row)) (withoutSubscriber h rows)).
Definition nonempty {A} (l : list A) : option (list A) := match l with [] => None | _ => Some l end.
Definition keepAssociations (st : federationDDMState) (per : associations) : associations := omap (fun rhs => nonempty (keepRegions st rhs)) per.
Definition removeFederateState (st : federationDDMState) (h : FederateHandle) : federationDDMState :=
  let st := releaseConveyedReceiver st h in
  let gone := filter (fun rh => match regionsOf st !! rh with Some rs => owner rs =? h | None => false end = true) (elements (dom (regionsOf st))) in
  let st := fold_left (fun st rh => removeInactiveRegion (set_regionsOf st (nextRegionHandle st) (delete rh (regionsOf st))) rh) gone st in
  let st := set_associations st (objPubs st)
              (omap (fun rows => let rows' := pruneInactive (delete h rows) in if bool_decide (rows' = ∅) then None else Some rows') (inactivePubs st)) in
  let st := set_subscriptions st (omap (fun rows => nonempty (keepRows st h rows)) (objSubs st)) (omap (fun rows => nonempty (keepRows st h rows)) (intSubs st)) in
  set_associations st
    (omap (fun per => let per' := keepAssociations st per in if bool_decide (per' = ∅) then None else Some per') (objPubs st))
    (inactivePubs st).

(** ** Operations that follow what other managers do

    A change of the live state is also made on the shadow of a rollback of the
    same instance, so that a refused change does not undo it. *)
Definition rollbackState (m : Manager) (f : FederationName) (obj : ObjectHandle) (st : federationDDMState) : option associationRollbackProjection :=
  match associationRollback m with
  | Some p => if String.eqb (p_fed p) f && (p_object p =? obj) && (p_origin p =? address st) then Some p else None
  | None => None
  end.
Definition set_shadow (p : associationRollbackProjection) (sh : federationDDMState) : associationRollbackProjection :=
  Build_associationRollbackProjection (p_fed p) (p_object p) (p_origin p) sh.
Definition shadowed (p : associationRollbackProjection) (st : federationDDMState) : federationDDMState :=
  set_regionsOf (shadow p) (nextRegionHandle (shadow p)) (regionsOf st).
Definition onObject (m : Manager) (f : FederationName) (obj : ObjectHandle) (c : federationDDMState -> federationDDMState) : Manager :=
  match fed m !! f with
  | None => m
  | Some st =>
      let m' := publish m f (c st) in
      match rollbackState m f obj st with
      | Some p => set_rollback m' (Some (set_shadow p (c (shadowed p st))))
      | None => m'
      end
  end.
Definition OwnershipChanged (m : Manager) f obj before after : Manager := onObject m f obj (fun st => applyOwnershipChange st obj before after).
Definition ForgetObject (m : Manager) f obj : Manager := onObject m f obj (fun st => forgetObject st obj).
Definition ForgetObjectFederateAssociations (m : Manager) f caller obj : Manager := onObject m f obj (fun st => forgetObjectFederate st obj caller).
Definition ForgetFederateAssociations (m : Manager) (f : FederationName) (caller : FederateHandle) : Manager :=
  match fed m !! f with
  | None => m
  | Some st =>
      let m' := publish m f (forgetFederateAssociations st caller) in
      match associationRollback m with
      | Some p => if String.eqb (p_fed p) f && (p_origin p =? address st)
                  then set_rollback m' (Some (set_shadow p (forgetFederateAssociations (shadowed p st) caller))) else m'
      | None => m'
      end
  end.
Definition AssociationAttributes (m : Manager) (f : FederationName) : gmap ObjectHandle (list AttributeHandle) :=
  match fed m !! f with
  | None => ∅
  | Some st => filter (fun ol : ObjectHandle * list AttributeHandle => ol.2 <> []) (set_to_map (fun obj => (obj, sortCompact (elements (dom (default ∅ (objPubs st !! obj))) ++
                 flat_map (fun ca : FederateHandle * associations => elements (dom ca.2)) (map_to_list (default ∅ (inactivePubs st !! obj))))))
                 (dom (objPubs st) ∪ dom (inactivePubs st)))
  end.

Section Associations.
Context (opts : Options) (ports : AssociationPorts).

(** ** The association services *)
Definition prepareAssociationGroups (f : FederationName) (caller : FederateHandle) (obj : ObjectHandle) (groups : list AttributeRegionGroup) (remove : bool)
    : outcome ddm_error (list AttributeRegionGroup * option (gmap AttributeHandle FederateHandle) * requiredDimensions) :=
  let attrs := groupAttributes groups in
  match PrepareKnownAssociation ports with
  | Some prepare =>
      r ← prepare f caller obj attrs;
      let '(cls, actual, owners, release) := (r : ObjectClassHandle * list AttributeHandle * option (gmap AttributeHandle FederateHandle) * bool) in
      if negb release then Fail (ddm_errorf "ddm: known association preparation returned no release")
      else
        result ← mapAssociationGroups groups attrs actual;
        required ← objectContext (FOMs opts f) cls actual;
        Ret (result, owners, required)
  | None =>
      match PrepareRegionAssociation ports with
      | None => Ret (groups, None, ∅)
      | Some prepare =>
          r ← prepare f caller obj (if remove then [] else associatedAttributes groups);
          let (cls, release) := (r : ObjectClassHandle * bool) in
          if negb release then Fail (ddm_errorf "ddm: association validation returned no release")
          else required ← objectContext (FOMs opts f) cls attrs; Ret (groups, None, required)
      end
  end.
Definition changesAssociations (mode : associationMode) (g : AttributeRegionGroup) : bool :=
  negb (bool_decide (g_Attributes g = [])) &&
  (negb (bool_decide (g_Regions g = [])) || match mode with associationReplace | associationLegacyRemove => true | _ => false end).
(** The change, and whether there was one. *)
Definition changeAssociations (caller : FederateHandle) (obj : ObjectHandle) (groups : list AttributeRegionGroup)
    (owners : option (gmap AttributeHandle FederateHandle)) (required : requiredDimensions) (mode : associationMode) : change bool := fun st => checked st (
  _ ← validateGroups st caller groups (if removing mode then ∅ else required);
  if bool_decide (groups = []) && match mode with associationReplace | associationLegacyRemove => true | _ => false end
  then Ret (clearObjectAssociations st obj caller, true)
  else
    match List.filter (changesAssociations mode) groups with
    | [] => Ret (st, false)
    | gs => Ret (fold_left (fun st g => changeAssociationGroup st obj caller g owners mode) gs st, true)
    end).
(** What a rollback of the associations of [obj] goes back to. *)
Definition associationShadow (st : federationDDMState) (obj : ObjectHandle) : federationDDMState :=
  set_associations (set_regionsOf (newFederationDDMState 0) 0 (regionsOf st))
    (match objPubs st !! obj with Some per => {[obj := per]} | None => ∅ end) (putMap ∅ obj (default ∅ (inactivePubs st !! obj))).
(** The first step of [changeAssociationGroupsMode]. *)
Definition beginAssociation (m : Manager) (f : FederationName) (caller : FederateHandle) (obj : ObjectHandle) (groups : list AttributeRegionGroup) (mode : associationMode)
    : Manager * option pendingRollback * outcome ddm_error () :=
  match prepareAssociationGroups f caller obj groups (removing mode) with
  | Ret (groups, owners, required) =>
      let st := stateFor opts m f in
      match locked opts m f (changeAssociations caller obj groups owners required mode) with
      | (m, Ret true) =>
          (set_rollback m (Some (Build_associationRollbackProjection f obj (address st) (associationShadow st obj))),
           Some (Build_pendingRollback f (address st) (RollAssociation obj)), Ret ())
      | (m, Ret false) => (m, None, Ret ())
      | (m, Fail e) => (m, None, Fail e)
      | (m, Panic s) => (m, None, Panic s)
      end
  | Fail e => (m, None, Fail e)
  | Panic s => (m, None, Panic s)
  end.
Definition changeAssociationGroupsMode (m : Manager) f caller obj groups mode : reply () :=
  let '(m, rb, r) := beginAssociation m f caller obj groups mode in finishRateMutation opts m f rb r.
Definition AssociateRegionGroupsForUpdates m f caller obj groups : reply () := changeAssociationGroupsMode m f caller obj groups associationAdd.
Definition UnassociateRegionGroupsForUpdates m f caller obj groups : reply () := changeAssociationGroupsMode m f caller obj groups associationRemove.
Definition AssociateRegionsForUpdates m f caller obj bindings : reply () := AssociateRegionGroupsForUpdates m f caller obj (bindingGroups bindings).
Definition UnassociateRegionsForUpdates m f caller obj bindings : reply () := changeAssociationGroupsMode m f caller obj (bindingGroups bindings) associationLegacyRemove.
Definition AssociateRegionsWithObjectInstance m f caller obj bindings : reply () := changeAssociationGroupsMode m f caller obj (bindingGroups bindings) associationReplace.
Definition RegisterObjectInstanceWithRegions m f caller obj bindings : reply () := AssociateRegionsWithObjectInstance m f caller obj bindings.

(** ** Associations made with the instance *)
Fixpoint registrationDimensions (dims_ : ObjectClassHandle -> AttributeHandle -> option (list DimensionHandle)) (attrs : list AttributeHandle) (cls : ObjectClassHandle)
    (required : requiredDimensions) : outcome ddm_error requiredDimensions :=
  match attrs with
  | [] => Ret required
  | a :: attrs =>
      match dims_ cls a with
      | Some ds => if a =? 0 then Fail ErrAttributeNotFound else registrationDimensions dims_ attrs cls (<[a := dimensionSet ds]> required)
      | None => Fail ErrAttributeNotFound
      end
  end.
Fixpoint copyRegistrationGroups (copied : associations) (groups : list AttributeRegionGroup) (allowEmpty : bool) : outcome ddm_error associations :=
  match groups with
  | [] => Ret (sortCompact <$> copied)
  | g :: groups =>
      match g_Regions g with
      | [] => if negb allowEmpty && negb (bool_decide (g_Attributes g = [])) then Fail ErrInvalidRegionContext else copyRegistrationGroups copied groups allowEmpty
      | rhs => copyRegistrationGroups (fold_left (fun m a => <[a := default [] (m !! a) ++ rhs]> m) (g_Attributes g) copied) groups allowEmpty
      end
  end.
(** The state the bindings will be committed to, and the bindings. *)
Definition prepareObjectRegistration (m : Manager) (f : FederationName) (who : FederateHandle) (cls : ObjectClassHandle) (groups : list AttributeRegionGroup) (allowEmpty : bool)
    : outcome ddm_error (federationDDMState * associations) :=
  h ← FOMs opts f;
  if negb (IsValid h) then Fail ErrInvalidRegionContext
  else if match ObjectClassName h with Some names => bool_decide (names cls = None) | None => false end then Fail ErrObjectClassNotFound
  else
    let attrs := groupAttributes groups in
    if bool_decide (AttributeDimensions h = None) && (negb (bool_decide (attrs = [])) || negb allowEmpty) then Fail ErrInvalidRegionContext
    else
      required ← registrationDimensions (default (fun _ _ => None) (AttributeDimensions h)) attrs cls ∅;
      copied ← copyRegistrationGroups ∅ groups allowEmpty;
      let st := match fed m !! f with
                | Some st => st
                | None => let st := newFederationDDMState (allocated m + 1) in match Dimensions h with Some ds => populateFromFOM (Nd opts) st ds | None => st end
                end in
      _ ← validateGroups st who groups required;
      Ret (st, copied).
Definition PrepareObjectRegistration m f who cls (bindings : gmap AttributeHandle (list RegionHandle)) := prepareObjectRegistration m f who cls (bindingGroups bindings) false.
Definition PrepareObjectRegistrationGroups m f who cls groups := prepareObjectRegistration m f who cls groups true.
(** [Commit], before the lock is released. *)
Definition commitRegistration (m : Manager) (f : FederationName) (r : federationDDMState * associations) (obj : ObjectHandle) : Manager :=
  if bool_decide (r.2 = ∅) then m
  else publish m f (set_associations r.1 (<[obj := r.2]> (objPubs r.1)) (inactivePubs r.1)).

Definition OnFederateResign (m : Manager) (f : FederationName) (h : FederateHandle) : Manager * list effect :=
  (match fed m !! f with Some st => publish m f (removeFederateState st h) | None => m end,
   (if bool_decide (is_Some (onRateDemandChanged opts)) then [RateDemand f true] else []) ++
   (if onRegionStateChanged opts then [RegionStateChanged f] else [])).
End Associations.
