(* ===== verification/DdmRoute.v ===== *)
(** * Data distribution management: routing and saved states

    Realizations ([state.go]), who receives an update or an interaction sent
    with regions or with the default region ([manager.go], [operations.go],
    [groups.go], [default_interaction.go], [point_routing.go]), and the regions
    conveyed with a callback ([conveyed_regions.go], [conveyed_lifecycle.go]);
    then export, validation and import ([snapshot.go]). *)
From stdpp Require Import gmap.
From S2P Require Import Prelude GoBytes FomDimension Ddm DdmRegion DdmSubscribe DdmAssociate.
Open Scope Z_scope.

(** ** Realizations *)
Definition rangesOf (snapshot : RegionRealizationSnapshot) : regionBounds :=
  fold_left (fun m d => <[rd_Dimension d := Bounds d]> m) (dimensionRanges snapshot) ∅.
(** Templates and unknown regions have no realization. *)
Definition materializeOne (st : federationDDMState) (rh : RegionHandle) : option regionBounds :=
  match conveyed st !! rh with
  | Some snapshot => Some (rangesOf snapshot)
  | None => rs ← regionsOf st !! rh; if template rs then None else Some (committed rs)
  end.
Definition materializeRegions (st : federationDDMState) (rhs : list RegionHandle) : list regionBounds := omap (materializeOne st) rhs.
Definition withDefault (st : federationDDMState) (bounds : regionBounds) (d : DimensionHandle) : regionBounds :=
  match bounds !! d, dimDefaults st !! d with
  | None, Some value => <[d := value]> bounds
  | _, _ => bounds
  end.
Definition realizeOne (st : federationDDMState) (available : list DimensionHandle) (strict : bool) (rh : RegionHandle) : option regionBounds :=
  bounds ← materializeOne st rh;
  Some (if bool_decide (is_Some (conveyed st !! rh)) || negb strict then bounds else fold_left (withDefault st) available bounds).
Definition realize (st : federationDDMState) (rhs : list RegionHandle) (available : list DimensionHandle) (strict : bool) : list regionBounds :=
  omap (realizeOne st available strict) rhs.
Definition objectRealizations (st : federationDDMState) (cls : ObjectClassHandle) (a : AttributeHandle) (rhs : list RegionHandle) : list regionBounds :=
  match AttributeDimensions (fom st) with
  | Some dims_ => realize st rhs (dimensionSet (default [] (dims_ cls a))) (bool_decide (is_Some (dims_ cls a)))
  | None => materializeRegions st rhs
  end.
Definition interactionRealizations (st : federationDDMState) (cls : InteractionClassHandle) (rhs : list RegionHandle) : list regionBounds :=
  match InteractionDimensions (fom st) with
  | Some dims_ => realize st rhs (dimensionSet (default [] (dims_ cls))) (bool_decide (is_Some (dims_ cls)))
  | None => materializeRegions st rhs
  end.

(** ** Recipients *)
Definition subscribersWhere {O} (hit : rowOf O -> bool) (rows : list (rowOf O)) : list FederateHandle := sortCompact (map subscriber (List.filter hit rows)).
Definition PublisherRegionsFor (m : Manager) (f : FederationName) (obj : ObjectHandle) (a : AttributeHandle) : option (list RegionHandle) :=
  st ← fed m !! f; per ← objPubs st !! obj; per !! a.
Definition HasObjectAssociations (m : Manager) (f : FederationName) (obj : ObjectHandle) : bool :=
  match fed m !! f with Some st => bool_decide (is_Some (objPubs st !! obj)) | None => false end.
(** [None] is the nil slice: the update has no regions, and the ordinary
    subscriptions decide. *)
Definition SubscribersForUpdate (m : Manager) (f : FederationName) cls a (pub : list RegionHandle) : option (list FederateHandle) :=
  if bool_decide (pub = []) then None
  else
    match fed m !! f with
    | None => Some []
    | Some st =>
        let bounds := objectRealizations st cls a pub in
        Some (subscribersWhere (fun s => regionsOverlap bounds (objectRealizations st cls a (regions s))) (default [] (objSubs st !! (cls, a))))
    end.
Definition RegionSubscribersFor (m : Manager) (f : FederationName) cls a : list FederateHandle :=
  match fed m !! f with
  | None => []
  | Some st => subscribersWhere (fun s => overlapsDefault (objectRealizations st cls a (regions s))) (default [] (objSubs st !! (cls, a)))
  end.
Definition InteractionSubscribersForSend (m : Manager) (f : FederationName) cls (producer : list RegionHandle) : option (list FederateHandle) :=
  if bool_decide (producer = []) then None
  else
    match fed m !! f with
    | None => Some []
    | Some st =>
        let bounds := interactionRealizations st cls producer in
        Some (subscribersWhere (fun s => regionsOverlap bounds (interactionRealizations st cls (regions s))) (default [] (intSubs st !! cls)))
    end.
(** A subscription to a class or, by its name, to an ancestor of it. *)
Definition classMatches (h : FOMHandle) (cls subscribed : InteractionClassHandle) : bool :=
  (subscribed =? cls) ||
  match InteractionClassName h with
  | Some names =>
      match names subscribed with
      | Some name => String.prefix (name ++ ".") (default "" (names cls))
      | None => false
      end
  | None => false
  end.
Definition interactionRecipients (st : federationDDMState) (h : FOMHandle) (cls : InteractionClassHandle) (hit : list regionBounds -> bool) : list FederateHandle :=
  sortCompact (flat_map (fun cr : InteractionClassHandle * list interactionSubscription =>
    if classMatches h cls cr.1 then map subscriber (List.filter (fun row => hit (interactionRealizations st cr.1 (regions row))) cr.2) else [])
    (map_to_list (intSubs st))).

Section Routing.
Context (opts : Options).

Definition InteractionSubscribersWithRegions (m : Manager) (f : FederationName) caller cls (rhs : list RegionHandle) : outcome ddm_error (list FederateHandle) :=
  context ← interactionContext (FOMs opts f) cls;
  if bool_decide (rhs = []) then Fail ErrInvalidRegionContext
  else
    h ← FOMs opts f;
    match fed m !! f with
    | None => Fail ErrRegionNotFound
    | Some st =>
        _ ← validateRegions st caller rhs context.1 context.2;
        Ret (interactionRecipients st h cls (regionsOverlap (realize st rhs context.1 context.2)))
    end.
Definition InteractionSubscribersForDefaultRegion (m : Manager) (f : FederationName) cls : list FederateHandle :=
  match fed m !! f, FOMs opts f with
  | Some st, Ret h => if bool_decide (intSubs st = ∅) then [] else interactionRecipients st h cls overlapsDefault
  | _, _ => []
  end.
Definition InteractionRegionsOverlapDefaultRegion (m : Manager) (f : FederationName) cls (rhs : list RegionHandle) : Manager * bool :=
  match fed m !! f with
  | None => (m, false)
  | Some st => let st := refreshFOMDimensions (Nd opts) (FOMs opts f) st in (publish m f st, overlapsDefault (interactionRealizations st cls rhs))
  end.
Definition PublisherRegionsOverlapDefaultRegion (m : Manager) (f : FederationName) cls a (rhs : list RegionHandle) : Manager * bool :=
  if bool_decide (rhs = []) then (m, true)
  else
    match fed m !! f with
    | None => (m, false)
    | Some st => let st := refreshFOMDimensions (Nd opts) (FOMs opts f) st in (publish m f st, overlapsDefault (objectRealizations st cls a rhs))
    end.

(** Requests for updates with regions: the queries, and which instances match. *)
Definition PrepareRegionUpdateRequest (m : Manager) (f : FederationName) caller cls (attrs : list AttributeHandle) (rhs : list RegionHandle)
    : outcome ddm_error (gmap AttributeHandle (list regionBounds)) :=
  required ← objectContext (FOMs opts f) cls attrs;
  if bool_decide (rhs = []) then Fail ErrInvalidRegionContext
  else
    match fed m !! f with
    | None => Fail ErrRegionNotFound
    | Some st =>
        _ ← validateObjectRegions st caller attrs rhs required;
        Ret (fold_left (fun q a => <[a := realize st rhs (default [] (required !! a)) (bool_decide (is_Some (required !! a)))]> q) attrs ∅)
    end.
Definition associationMatches (st : federationDDMState) cls (query : list regionBounds) (obj : ObjectHandle) (a : AttributeHandle) : bool :=
  match default [] (objPubs st !! obj ≫= fun per => per !! a) with
  | [] => overlapsDefault query
  | rhs => regionsOverlap query (objectRealizations st cls a rhs)
  end.
Definition Matches (st : federationDDMState) cls (queries : gmap AttributeHandle (list regionBounds)) (obj : ObjectHandle) (a : AttributeHandle) : bool :=
  associationMatches st cls (default [] (queries !! a)) obj a.
Definition PrepareRegionUpdateGroups (m : Manager) (f : FederationName) caller cls (groups : list AttributeRegionGroup)
    : outcome ddm_error (federationDDMState * gmap AttributeHandle (list regionBounds)) :=
  required ← objectContext (FOMs opts f) cls (groupAttributes groups);
  let st := default (newFederationDDMState 0) (fed m !! f) in
  _ ← validateGroups st caller groups required;
  Ret (st, fold_left (fun q g => fold_left (fun q a =>
         <[a := default [] (q !! a) ++ realize st (g_Regions g) (default [] (required !! a)) (bool_decide (is_Some (required !! a)))]> q) (g_Attributes g) q) groups ∅).
Definition groupedMatches (st : federationDDMState) cls (queries : gmap AttributeHandle (list regionBounds)) (obj : ObjectHandle) (requested actual : AttributeHandle) : bool :=
  match default [] (queries !! requested) with
  | [] => false
  | query => associationMatches st cls query obj actual
  end.

(** A point of one dimension, supplied by the infrastructure. *)
Definition regionContainsPoint (st : federationDDMState) cls a dimension point (row : subscription) (rh : RegionHandle) : bool :=
  match regionsOf st !! rh with
  | Some rs =>
      if template rs || negb (owner rs =? subscriber row) then false
      else
        match objectRealizations st cls a [rh] with
        | [bounds] => overlapsDefault [bounds] && match bounds !! dimension with Some b => (Lower b <=? point) && (point <? Upper b) | None => false end
        | _ => false
        end
  | None => false
  end.
Definition subscriptionContainsPoint (st : federationDDMState) (row : subscription) cls a dimension point : bool :=
  existsb (regionContainsPoint st cls a dimension point row) (regions row).
Definition SubscribersForObjectAttributePoint (m : Manager) (f : FederationName) cls a (dimension : DimensionHandle) (point : Z)
    : Manager * outcome ddm_error (list FederateHandle) :=
  match FOMs opts f with
  | Ret _ =>
      let st := stateFor opts m f in
      (publish m f st,
       match AttributeDimensions (fom st) with
       | Some dims_ => match dims_ cls a with
                       | None => Fail ErrAttributeNotFound
                       | Some available => if bool_decide (dimension ∈ available) then Ret () else Fail ErrInvalidRegionContext
                       end
       | None => Ret ()
       end ≫= fun _ =>
       match dimUpperBound st !! dimension with
       | None => Fail ErrDimensionNotFound
       | Some upper => if upper <=? point then Ret []
                       else Ret (subscribersWhere (fun row => subscriptionContainsPoint st row cls a dimension point) (default [] (objSubs st !! (cls, a))))
       end)
  | Fail e => (m, Fail e)
  | Panic s => (m, Panic s)
  end.

(** ** Conveyed regions *)
Definition validateRealization (st : federationDDMState) (c : ConveyedRegionCopy) : outcome ddm_error () :=
  if (Designator c =? 0) || (Designator c =? source (Realization c)) || (source (Realization c) =? 0) then Fail ErrRegionNotFound
  else if bool_decide (is_Some (regionsOf st !! Designator c)) then Fail (ddm_errorf "conveyed region: designator collides with specification")
  else if existsb (fun d => negb (permissive st) &&
                     match dimUpperBound st !! rd_Dimension d with Some upper => upper <? Upper (Bounds d) | None => true end) (dimensionRanges (Realization c))
  then Fail ErrInvalidRangeBounds
  else
    match conveyed st !! Designator c with
    | Some prior => if bool_decide (prior = Realization c) then Ret () else Fail (ddm_errorf "conveyed region: realization identity collision")
    | None => Ret ()
    end.
Fixpoint validateRealizations (st : federationDDMState) (copies : list ConveyedRegionCopy) (seen : gmap RegionHandle RegionRealizationSnapshot) : outcome ddm_error () :=
  match copies with
  | [] => Ret ()
  | c :: copies =>
      _ ← validateRealization st c;
      if match seen !! Designator c with Some prior => negb (bool_decide (prior = Realization c)) | None => false end
      then Fail (ddm_errorf "conveyed region: conflicting batch designator")
      else validateRealizations st copies (<[Designator c := Realization c]> seen)
  end.
Definition reserveDesignators (next : RegionHandle) (copies : list ConveyedRegionCopy) : RegionHandle := fold_left (fun n c => Z.max n (Designator c)) copies next.
Definition cacheRealizations (st : federationDDMState) (copies : list ConveyedRegionCopy) : federationDDMState :=
  set_conveyed st (reserveDesignators (nextRegionHandle st) copies)
    (fold_left (fun m c => <[Designator c := Realization c]> m) copies (conveyed st)) (conveyedRecipients st).
Definition portableRealizations (copies : list ConveyedRegionCopy) : list regionBounds := map (fun c => rangesOf (Realization c)) copies.
Fixpoint captureAll (next : RegionHandle) (rhs : list RegionHandle) (realize_ : list RegionHandle -> list regionBounds) : outcome ddm_error (list ConveyedRegionCopy) :=
  match rhs with
  | [] => Ret []
  | rh :: rhs =>
      match realize_ [rh] with
      | [bounds] =>
          snapshot ← NewRegionRealizationSnapshot rh (map (fun dr : DimensionHandle * Range => Build_RegionDimensionRange dr.1 dr.2) (map_to_list bounds));
          copies ← captureAll (next + 1) rhs realize_;
          Ret (Build_ConveyedRegionCopy (next + 1) snapshot :: copies)
      | _ => Fail ErrRegionNotFound
      end
  end.
(** Fresh designators for the realizations of [rhs], as they are now. *)
Definition captureRealizations (st : federationDDMState) (rhs : list RegionHandle) (realize_ : list RegionHandle -> list regionBounds)
    : outcome ddm_error (federationDDMState * list ConveyedRegionCopy) :=
  if bool_decide (rhs = []) then Ret (st, [])
  else
    let rhs := sortCompact rhs in
    if MaxUint64 - nextRegionHandle st <? Z.of_nat (length rhs) then Fail (ddm_errorf "conveyed region: handle namespace exhausted")
    else
      copies ← captureAll (nextRegionHandle st) rhs realize_;
      Ret (set_conveyed st (nextRegionHandle st + Z.of_nat (length copies)) (conveyed st) (conveyedRecipients st), copies).

Definition InteractionDeliverySnapshot (m : Manager) (f : FederationName) sender cls (rhs : list RegionHandle)
    : Manager * outcome ddm_error (list FederateHandle * list ConveyedRegionCopy * bool) :=
  if bool_decide (rhs = []) then (m, Fail ErrInvalidRegionContext)
  else
    match FOMs opts f, fed m !! f with
    | Ret _, Some _ =>
        locked opts m f (fun st => checked st (
          context ← interactionContext (Ret (fom st)) cls;
          _ ← validateRegions st sender rhs context.1 context.2;
          r ← captureRealizations st rhs (fun l => realize st l context.1 context.2);
          let (st', copies) := (r : federationDDMState * list ConveyedRegionCopy) in
          let pub := portableRealizations copies in
          Ret (st', (interactionRecipients st (fom st) cls (regionsOverlap pub), copies, overlapsDefault pub))))
    | Ret _, None => (m, Fail ErrRegionNotFound)
    | Fail e, _ => (m, Fail e)
    | Panic s, _ => (m, Panic s)
    end.

Record AttributeRegionDeliverySnapshot := { ds_Regions : list RegionHandle; ds_Copies : list ConveyedRegionCopy; ds_Subscribers : list FederateHandle; OverlapsDefault : bool }.
(** The attribute as the class a recipient knows the instance by has it. *)
Definition knownAttribute (h : FOMHandle) (registered known : ObjectClassHandle) (a : AttributeHandle) : option AttributeHandle :=
  if known =? registered then Some a
  else names ← AttributeName h; name ← names registered a; LookupAttribute h known name.
Definition receivesAttribute (st : federationDDMState) (rhs : list RegionHandle) (pub : list regionBounds) (recipient : FederateHandle) (cls : ObjectClassHandle) (a : AttributeHandle) : bool :=
  existsb (fun s =>
    let sub := objectRealizations st cls a (regions s) in
    (subscriber s =? recipient) && (if bool_decide (rhs = []) then overlapsDefault sub else regionsOverlap pub sub)) (default [] (objSubs st !! (cls, a))).
Fixpoint deliverySnapshots (st : federationDDMState) (obj : ObjectHandle) (registered : ObjectClassHandle) (attrs : list AttributeHandle)
    (known : gmap FederateHandle ObjectClassHandle) (result : gmap AttributeHandle AttributeRegionDeliverySnapshot)
    : federationDDMState * outcome ddm_error (gmap AttributeHandle AttributeRegionDeliverySnapshot) :=
  match attrs with
  | [] => (st, Ret result)
  | a :: attrs =>
      let rhs := default [] (objPubs st !! obj ≫= fun per => per !! a) in
      match captureRealizations st rhs (objectRealizations st registered a) with
      | Ret (st', copies) =>
          let pub := portableRealizations copies in
          let recipients := sortHandles (map fst (List.filter (fun rc : FederateHandle * ObjectClassHandle =>
                              match knownAttribute (fom st) registered rc.2 a with Some b => receivesAttribute st rhs pub rc.1 rc.2 b | None => false end) (map_to_list known))) in
          deliverySnapshots st' obj registered attrs known
            (<[a := Build_AttributeRegionDeliverySnapshot rhs copies recipients (bool_decide (rhs = []) || overlapsDefault pub)]> result)
      | Fail e => (st, Fail e)
      | Panic s => (st, Panic s)
      end
  end.
Definition ObjectDeliverySnapshots (m : Manager) (f : FederationName) obj registered attrs known : Manager * outcome ddm_error (gmap AttributeHandle AttributeRegionDeliverySnapshot) :=
  match FOMs opts f with
  | Ret _ => locked opts m f (fun st => deliverySnapshots st obj registered attrs known ∅)
  | Fail e => (m, Fail e)
  | Panic s => (m, Panic s)
  end.
Definition RestoreConveyedRegions (m : Manager) (f : FederationName) (copies : list ConveyedRegionCopy) : Manager * outcome ddm_error () :=
  if bool_decide (copies = []) then (m, Ret ())
  else locked opts m f (fun st => checked st (
    _ ← validateRealizations st copies ∅;
    Ret (set_conveyed st (reserveDesignators (nextRegionHandle st) copies) (conveyed st) (conveyedRecipients st), ()))).
Definition InteractionSubscribersForConveyedRegions (m : Manager) (f : FederationName) cls (copies : list ConveyedRegionCopy) : Manager * outcome ddm_error (list FederateHandle) :=
  match FOMs opts f, fed m !! f with
  | Ret _, Some _ => locked opts m f (fun st => (st, Ret (interactionRecipients st (fom st) cls (regionsOverlap (portableRealizations copies)))))
  | Ret _, None => (m, Fail ErrRegionNotFound)
  | Fail e, _ => (m, Fail e)
  | Panic s, _ => (m, Panic s)
  end.
Definition SubscribersForConveyedUpdate (m : Manager) (f : FederationName) cls a (copies : list ConveyedRegionCopy) : Manager * outcome ddm_error (list FederateHandle) :=
  locked opts m f (fun st => (st, Ret (subscribersWhere (fun row => regionsOverlap (portableRealizations copies) (objectRealizations st cls a (regions row)))
                                         (default [] (objSubs st !! (cls, a)))))).

(** Leases: prepared for a receiver, entered with its callback, released. *)
Definition prepareLease (receiver : FederateHandle) (m : gmap RegionHandle (gmap FederateHandle bool)) (c : ConveyedRegionCopy) : gmap RegionHandle (gmap FederateHandle bool) :=
  let rows := default ∅ (m !! Designator c) in
  <[Designator c := match rows !! receiver with Some _ => rows | None => <[receiver := false]> rows end]> m.
Definition ConveyCopies (m : Manager) (f : FederationName) (receiver : FederateHandle) (copies : list ConveyedRegionCopy) : Manager * outcome ddm_error () :=
  if receiver =? 0 then (m, Fail ErrRegionNotFound)
  else if bool_decide (copies = []) then (m, Ret ())
  else locked opts m f (fun st => checked st (
    _ ← validateRealizations st copies ∅;
    let st := cacheRealizations st copies in
    Ret (set_conveyed st (nextRegionHandle st) (conveyed st) (fold_left (prepareLease receiver) copies (conveyedRecipients st)), ()))).
Definition EnterConveyedRegions (m : Manager) (f : FederationName) (receiver : FederateHandle) (rhs : list RegionHandle) : Manager * outcome ddm_error () :=
  match fed m !! f with
  | None => (m, Fail ErrRegionNotFound)
  | Some st =>
      if forallb (fun rh => bool_decide (is_Some (conveyedRecipients st !! rh ≫= fun rows => rows !! receiver))) rhs
      then (publish m f (set_conveyed st (nextRegionHandle st) (conveyed st)
                           (fold_left (fun rs rh => alter (fun rows => <[receiver := true]> rows) rh rs) rhs (conveyedRecipients st))), Ret ())
      else (m, Fail ErrRegionNotFound)
  end.
Definition ReleaseConveyedRegions (m : Manager) (f : FederationName) (receiver : FederateHandle) (rhs : list RegionHandle) : Manager :=
  match fed m !! f with Some st => publish m f (fold_left (releaseLease receiver) rhs st) | None => m end.
End Routing.

(** * Data distribution management: saved states ([snapshot.go])

    Export orders every table; import rebuilds them over the dimensions of the
    object model, which are refreshed at the next use. *)
Record ConveyedRegionRecipientState := { cr_Federate : FederateHandle; cr_Active : bool }.
Record ConveyedRegionState := { c_Designator : RegionHandle; c_Realization : RegionRealizationSnapshot; c_Recipients : list ConveyedRegionRecipientState }.
Record RangeState := { rg_Dimension : DimensionHandle; rg_Lower : Z; rg_Upper : Z }.
Record RegionState := {
  rs_Template : bool;
  rs_Handle : RegionHandle;
  rs_Owner : FederateHandle;
  rs_RoutingSpace : RoutingSpaceHandle;
  rs_Dimensions : list DimensionHandle;
  rs_Committed : list RangeState;
  rs_Pending : list RangeState;
}.
Record ObjectSubscriptionState := {
  os_ObjectClass : ObjectClassHandle; os_Attribute : AttributeHandle; os_Subscriber : FederateHandle;
  os_Regions : list RegionHandle; os_Passive : bool; os_UpdateRateDesignator : string;
}.
Record InteractionSubscriptionState := { is_InteractionClass : InteractionClassHandle; is_Subscriber : FederateHandle; is_Regions : list RegionHandle; is_Passive : bool }.
Record ObjectPublicationState := { op_Object : ObjectHandle; op_Attribute : AttributeHandle; op_Regions : list RegionHandle }.
Record InactiveAssociationState := { ia_Object : ObjectHandle; ia_Attribute : AttributeHandle; ia_Federate : FederateHandle; ia_Regions : list RegionHandle }.
Record ManagerState := {
  NextRegionHandle : RegionHandle;
  Regions : list RegionState;
  ObjectSubscriptions : list ObjectSubscriptionState;
  InteractionSubscriptions : list InteractionSubscriptionState;
  ObjectPublications : list ObjectPublicationState;
  InactiveAssociations : list InactiveAssociationState;
  ConveyedRegions : list ConveyedRegionState;
}.

(** ** Order *)
Definition keysOf {A} (m : gmap Z A) : list Z := sortHandles (elements (dom m)).
Definition pairLe (a b : Z * Z) : Prop := a.1 < b.1 \/ a.1 = b.1 /\ a.2 <= b.2.
#[export] Instance pairLe_dec : RelDecision pairLe.
Proof. intros a b. unfold pairLe. apply _. Defined.
(** [slices.Compare] is not positive. *)
Fixpoint lexLe (a b : list Z) : bool :=
  match a, b with
  | [], _ => true
  | _ :: _, [] => false
  | x :: a, y :: b => (x <? y) || ((x =? y) && lexLe a b)
  end.
Definition rowLe {O} (a b : rowOf O) : Prop := subscriber a < subscriber b \/ subscriber a = subscriber b /\ lexLe (regions a) (regions b) = true.
#[export] Instance rowLe_dec {O} : RelDecision (@rowLe O).
Proof. intros a b. unfold rowLe. apply _. Defined.
Definition sortedRows {O} (rows : list (rowOf O)) : list (rowOf O) :=
  merge_sort rowLe (map (fun row => Row (subscriber row) (sortHandles (regions row)) (options row)) rows).
Definition inactiveLe (a b : Z * Z * Z) : Prop :=    (** object, attribute, federate *)
  a.1.1 < b.1.1 \/ a.1.1 = b.1.1 /\ (a.1.2 < b.1.2 \/ a.1.2 = b.1.2 /\ a.2 <= b.2).
#[export] Instance inactiveLe_dec : RelDecision inactiveLe.
Proof. intros a b. unfold inactiveLe. apply _. Defined.

(** ** Export *)
Definition exportRanges (m : gmap DimensionHandle Range) : list RangeState :=
  omap (fun d => r ← m !! d; Some (Build_RangeState d (Lower r) (Upper r))) (keysOf m).
Definition exportConveyed (st : federationDDMState) : list ConveyedRegionState :=
  omap (fun rh => snapshot ← conveyed st !! rh;
    let rows := default ∅ (conveyedRecipients st !! rh) in
    Some (Build_ConveyedRegionState rh snapshot (omap (fun h => a ← rows !! h; Some (Build_ConveyedRegionRecipientState h a)) (keysOf rows))))
    (keysOf (conveyed st)).
Definition exportRegions (st : federationDDMState) : list RegionState :=
  omap (fun rh => rs ← regionsOf st !! rh;
    Some (Build_RegionState (template rs) rh (owner rs) (space rs) (dims rs) (exportRanges (committed rs)) (exportRanges (pending rs)))) (keysOf (regionsOf st)).
Definition exportObjectSubscriptions (st : federationDDMState) : list ObjectSubscriptionState :=
  flat_map (fun k : objAttrKey => map (fun row : subscription => Build_ObjectSubscriptionState k.1 k.2 (subscriber row) (regions row) (passive (options row)) (updateRate (options row)))
    (sortedRows (default [] (objSubs st !! k)))) (merge_sort pairLe (elements (dom (objSubs st)))).
Definition exportInteractionSubscriptions (st : federationDDMState) : list InteractionSubscriptionState :=
  flat_map (fun cls => map (fun row : interactionSubscription => Build_InteractionSubscriptionState cls (subscriber row) (regions row) (options row))
    (sortedRows (default [] (intSubs st !! cls)))) (keysOf (intSubs st)).
Definition exportPublications (st : federationDDMState) : list ObjectPublicationState :=
  flat_map (fun obj => let per := default ∅ (objPubs st !! obj) in
    omap (fun a => rhs ← per !! a; Some (Build_ObjectPublicationState obj a rhs)) (keysOf per)) (keysOf (objPubs st)).
Definition inactiveKeys (st : federationDDMState) : list (Z * Z * Z) :=
  merge_sort inactiveLe (flat_map (fun oc : ObjectHandle * gmap FederateHandle associations =>
    flat_map (fun ca : FederateHandle * associations => map (fun a => (oc.1, a, ca.1)) (elements (dom ca.2))) (map_to_list oc.2)) (map_to_list (inactivePubs st))).
Definition inactiveAt (st : federationDDMState) (obj caller a : Z) : option (list RegionHandle) := inactiveFor st obj caller ≫= fun per => per !! a.
Definition exportInactive (st : federationDDMState) : list InactiveAssociationState :=
  omap (fun k : Z * Z * Z => rhs ← inactiveAt st k.1.1 k.2 k.1.2; Some (Build_InactiveAssociationState k.1.1 k.1.2 k.2 rhs)) (inactiveKeys st).
Definition exportFederation (st : federationDDMState) : ManagerState := {|
  NextRegionHandle := nextRegionHandle st;
  Regions := exportRegions st;
  ObjectSubscriptions := exportObjectSubscriptions st;
  InteractionSubscriptions := exportInteractionSubscriptions st;
  ObjectPublications := exportPublications st;
  InactiveAssociations := exportInactive st;
  ConveyedRegions := exportConveyed st;
|}.
Definition ExportState (m : Manager) (f : FederationName) : option ManagerState := exportFederation <$> fed m !! f.

(** ** Import *)
Definition importRanges (l : list RangeState) : gmap DimensionHandle Range :=
  fold_insert rg_Dimension (fun e => Build_Range (rg_Lower e) (rg_Upper e)) l ∅.
Definition importRegion (e : RegionState) : regionState :=
  Build_regionState (rs_Template e) (rs_Owner e) (rs_RoutingSpace e) (rs_Dimensions e) (importRanges (rs_Committed e)) (importRanges (rs_Pending e)).
Definition importRecipients (e : ConveyedRegionState) : gmap FederateHandle bool := fold_insert cr_Federate cr_Active (c_Recipients e) ∅.
(** A slice per key, appended to in order. *)
Definition appendTo {K A} `{Countable K} (m : gmap K (list A)) (ka : K * A) : gmap K (list A) := <[ka.1 := default [] (m !! ka.1) ++ [ka.2]]> m.
Definition insertInto {K} `{Countable K} {A} (m : gmap K (gmap Z A)) (k : K) (a : Z) (x : A) : gmap K (gmap Z A) := <[k := <[a := x]> (default ∅ (m !! k))]> m.
Definition importFederation (st : federationDDMState) (s : ManagerState) : federationDDMState :=
  let live := List.filter (fun e => negb (bool_decide (c_Recipients e = []))) (ConveyedRegions s) in
  Build_federationDDMState (address st) (fom st) (dimDefaults st) (routingSpaces st) (dimensions st) (dimUpperBound st)
    (fold_left (fun n e => Z.max n (c_Designator e)) (ConveyedRegions s) (NextRegionHandle s))
    (fold_insert rs_Handle importRegion (Regions s) ∅)
    (fold_insert c_Designator c_Realization live ∅)
    (fold_insert c_Designator importRecipients live ∅)
    (fold_left appendTo (map (fun e => ((os_ObjectClass e, os_Attribute e), Row (os_Subscriber e) (os_Regions e) (Build_objectOptions (os_Passive e) (os_UpdateRateDesignator e)))) (ObjectSubscriptions s)) ∅)
    (fold_left appendTo (map (fun e => (is_InteractionClass e, Row (is_Subscriber e) (is_Regions e) (is_Passive e))) (InteractionSubscriptions s)) ∅)
    (fold_left (fun m e => insertInto m (op_Object e) (op_Attribute e) (op_Regions e)) (ObjectPublications s) ∅)
    (fold_left (fun m e => let rows := default ∅ (m !! ia_Object e) in <[ia_Object e := insertInto rows (ia_Federate e) (ia_Attribute e) (ia_Regions e)]> m) (InactiveAssociations s) ∅)
    (permissive st) (nextDimHandle st) 0.
Definition ImportState (opts : Options) (m : Manager) (f : FederationName) (s : option ManagerState) : Manager :=
  match s with Some s => publish m f (importFederation (stateFor opts m f) s) | None => m end.
