(* ===== verification/DdmInvariant.v ===== *)
(** * Data distribution management: rows of subscriptions and the invariant

    The rows a federate has for a class are a partition of its regions by
    option.  Read as a table of (federate, region) pairs ([holds]), adding a row
    overwrites the pairs it names and removing regions deletes them.  Then the
    invariant of the state, in two strengths (whether associations may name
    templates), and that regions and associations preserve it. *)
From stdpp Require Import gmap.
From S2P Require Import Prelude GoBytes FomDimension Ddm DdmRegion DdmSubscribe DdmAssociate DdmRoute.
Open Scope Z_scope.

Lemma StronglySorted_filter {A} (R : A -> A -> Prop) (P : A -> Prop) `{forall x, Decision (P x)} (l : list A) : StronglySorted R l -> StronglySorted R (filter P l).
Proof.
  induction 1 as [|x l _ IH Hf]; [constructor|]. rewrite filter_cons. destruct (decide (P x)); [|done]. constructor; [done|].
  rewrite Forall_forall in Hf |- *. intros y [_ Hy]%list_elem_of_filter. by apply Hf.
Qed.
Lemma filter_ext_in {A} (P Q : A -> Prop) `{forall x, Decision (P x), forall x, Decision (Q x)} (l : list A) :
  (forall x, x ∈ l -> P x <-> Q x) -> filter P l = filter Q l.
Proof.
  induction l as [|x l IH]; intros H'; [done|]. rewrite !filter_cons. rewrite IH by (intros; apply H'; by right).
  specialize (H' x ltac:(by left)). destruct (decide (P x)), (decide (Q x)); tauto || done.
Qed.

Section Rows.
Context {O : Type} `{EqDecision O}.
Implicit Types (rows : list (rowOf O)) (row : rowOf O) (h rh : Z) (rhs : list Z) (o : O).

Definition holds rows h rh o : Prop := exists row, row ∈ rows /\ subscriber row = h /\ rh ∈ regions row /\ options row = o.
(** Two rows of one subscriber have other options and other regions. *)
Definition apart row row' : Prop := subscriber row = subscriber row' -> options row <> options row' /\ regions row ## regions row'.
Definition rows_ok (usable : FederateHandle -> RegionHandle -> Prop) rows : Prop :=
  Forall (fun row => regions row <> [] /\ StronglySorted Z.lt (regions row) /\ Forall (usable (subscriber row)) (regions row)) rows /\
  ForallOrdPairs apart rows.

#[export] Instance apart_sym : Symmetric apart.
Proof. intros a b H E. destruct (H (eq_sym E)). split; [congruence|set_solver]. Qed.
Lemma apart_perm rows rows' : rows ≡ₚ rows' -> ForallOrdPairs apart rows -> ForallOrdPairs apart rows'.
Proof.
  induction 1 as [|x l k Hp IH|x y l|l k j _ IH1 _ IH2]; intros H; [done| | |by apply IH2, IH1].
  - inversion H as [|? ? Hf Ho]; subst. constructor; [|by apply IH]. rewrite Forall_forall in Hf |- *. intros y Hy. apply Hf. by rewrite Hp.
  - inversion H as [|? ? Hf Ho]; subst. inversion Ho as [|? ? Hf' Ho']; subst. inversion Hf as [|? ? Hxy Hfl]; subst.
    constructor; [|by constructor]. constructor; [by symmetry|done].
Qed.
#[export] Instance rows_ok_perm U : Proper ((≡ₚ) ==> iff) (rows_ok U).
Proof.
  assert (forall rows rows', rows ≡ₚ rows' -> rows_ok U rows -> rows_ok U rows') as H.
  { intros rows rows' Hp [Hf Ha]. split; [|by eapply apart_perm]. rewrite Forall_forall in Hf |- *. intros row Hrow. apply Hf. by rewrite Hp. }
  intros rows rows' Hp. split; by apply H.
Qed.
#[export] Instance holds_perm : Proper ((≡ₚ) ==> (=) ==> (=) ==> (=) ==> iff) holds.
Proof. intros rows rows' Hp h ? <- rh ? <- o ? <-. unfold holds. by setoid_rewrite Hp. Qed.
Lemma rows_ok_mono (U U' : FederateHandle -> RegionHandle -> Prop) rows : (forall h rh, U h rh -> U' h rh) -> rows_ok U rows -> rows_ok U' rows.
Proof.
  intros HU [Hf Ha]. split; [|done]. eapply Forall_impl; [exact Hf|]. intros row (Hn & Hs & Hu). split_and!; [done..|].
  eapply Forall_impl; [exact Hu|]. intros. by apply HU.
Qed.
(** The options of a pair are one. *)
Lemma holds_fun U rows h rh o o' : rows_ok U rows -> holds rows h rh o -> holds rows h rh o' -> o = o'.
Proof.
  intros [_ Ha] (x & Hx & <- & Hrx & <-) (y & Hy & Es & Hry & <-). induction Ha as [|z l Hf _ IH]; [by apply elem_of_nil in Hx|].
  rewrite Forall_forall in Hf. apply elem_of_cons in Hx as [->|Hx], Hy as [->|Hy]; [done| | |by apply IH].
  - destruct (Hf _ Hy ltac:(done)) as [_ Hd]. destruct (Hd rh Hrx Hry).
  - destruct (Hf _ Hx Es) as [_ Hd]. destruct (Hd rh Hry Hrx).
Qed.
Lemma holds_app rows rows' h rh o : holds (rows ++ rows') h rh o <-> holds rows h rh o \/ holds rows' h rh o.
Proof. unfold holds. setoid_rewrite elem_of_app. naive_solver. Qed.
Lemma holds_cons row rows h rh o : holds (row :: rows) h rh o <-> (subscriber row = h /\ rh ∈ regions row /\ options row = o) \/ holds rows h rh o.
Proof. unfold holds. setoid_rewrite elem_of_cons. naive_solver. Qed.
Lemma holds_nil h rh o : ~ holds [] h rh o.
Proof. intros (? & []%elem_of_nil & _). Qed.

Lemma remainingRegions_in rh current removed : removed <> [] -> rh ∈ remainingRegions current removed <-> rh ∈ current /\ rh ∉ removed.
Proof. intros Hr. unfold remainingRegions. rewrite bool_decide_false by done. rewrite list_elem_of_filter. tauto. Qed.
Lemma remainingRegions_sorted current removed : StronglySorted Z.lt current -> StronglySorted Z.lt (remainingRegions current removed).
Proof.
  intros H. unfold remainingRegions. case_bool_decide; [constructor|]. by apply StronglySorted_filter.
Qed.

(** ** Adding a row *)
Definition keepRow (sub : FederateHandle) rhs o row : option (rowOf O) :=
  if negb (subscriber row =? sub) then Some row
  else if bool_decide (options row = o) then None
  else match remainingRegions (regions row) rhs with [] => None | l => Some (Row (subscriber row) l (options row)) end.
Definition merged (sub : FederateHandle) o rows : list RegionHandle :=
  flat_map (fun row => if (subscriber row =? sub) && bool_decide (options row = o) then regions row else []) rows.

Lemma remaining_merged l rhs extra : rhs <> [] -> l ## extra -> remainingRegions l (rhs ++ extra) = remainingRegions l rhs.
Proof.
  intros Hr Hd. unfold remainingRegions. rewrite !bool_decide_false by (destruct rhs; done).
  apply filter_ext_in. intros x Hx. rewrite elem_of_app. set_solver.
Qed.
Lemma addStep_fold U sub rhs o rows kept extra : rows_ok U rows -> rhs <> [] ->
  (forall row, row ∈ rows -> subscriber row = sub -> options row <> o -> regions row ## extra) ->
  fold_left addStep rows (kept, Row sub (rhs ++ extra) o) = (kept ++ omap (keepRow sub rhs o) rows, Row sub (rhs ++ extra ++ merged sub o rows) o).
Proof.
  intros [Hf Ha] Hr. revert kept extra. induction Ha as [|x l Hx _ IH]; intros kept extra Hd; simpl; [by rewrite !app_nil_r|].
  inversion Hf as [|? ? (Hn & Hs & Hu) Hf']; subst. rewrite Forall_forall in Hx.
  unfold keepRow at 1. destruct (Z.eqb_spec (subscriber x) sub) as [E|E]; simpl.
  - case_bool_decide as Eo; simpl.
    + rewrite <- app_assoc, (IH Hf' kept (extra ++ regions x)); [by rewrite <- !app_assoc|].
      intros row Hrow Es Ho. destruct (Hx row Hrow ltac:(congruence)) as [_ Hdis]. specialize (Hd row ltac:(by right) Es Ho). set_solver.
    + rewrite remaining_merged; [|done|apply Hd; [by left|done|done]].
      assert (forall row, row ∈ l -> subscriber row = sub -> options row <> o -> regions row ## extra) as Hd' by (intros; apply Hd; [by right|done..]).
      destruct (remainingRegions (regions x) rhs); rewrite (IH Hf') by done; [done|by rewrite <- app_assoc].
  - rewrite (IH Hf'); [by rewrite <- app_assoc|]. intros; apply Hd; [by right|done..].
Qed.
Lemma addRow_eq U rows sub rhs o : rows_ok U rows -> rhs <> [] ->
  addRow rows (Row sub rhs o) = omap (keepRow sub rhs o) rows ++ [Row sub (sortCompact (rhs ++ merged sub o rows)) o].
Proof.
  intros Hok Hr. unfold addRow. rewrite <- (app_nil_r rhs) at 1. by rewrite (addStep_fold U) by (try done; intros; set_solver).
Qed.
Lemma merged_in sub o rows rh : rh ∈ merged sub o rows <-> holds rows sub rh o.
Proof.
  unfold merged, holds. rewrite list_elem_of_In, in_flat_map. setoid_rewrite <- list_elem_of_In.
  split; intros (row & Hrow & H).
  - destruct (Z.eqb_spec (subscriber row) sub); simpl in H; [|by apply elem_of_nil in H]. case_bool_decide; [|by apply elem_of_nil in H]. eauto.
  - destruct H as (<- & H & <-). exists row. split; [done|]. rewrite Z.eqb_refl. simpl. by case_bool_decide.
Qed.
Lemma keepRow_Some sub rhs o row row' : rhs <> [] -> keepRow sub rhs o row = Some row' ->
  subscriber row' = subscriber row /\ options row' = options row /\
  (forall rh, rh ∈ regions row' <-> rh ∈ regions row /\ ~ (subscriber row = sub /\ rh ∈ rhs)) /\
  (subscriber row = sub -> options row <> o) /\ (regions row <> [] -> regions row' <> []) /\ (StronglySorted Z.lt (regions row) -> StronglySorted Z.lt (regions row')).
Proof.
  intros Hr. unfold keepRow. destruct (Z.eqb_spec (subscriber row) sub) as [E|E]; simpl; [|intros [= <-]; naive_solver].
  case_bool_decide as Ho; [done|]. pose proof (remainingRegions_sorted (regions row) rhs) as Hs.
  pose proof (fun rh => remainingRegions_in rh (regions row) rhs Hr) as Hin.
  destruct (remainingRegions (regions row) rhs) as [|x l]; [done|]. intros [= <-]. simpl. split_and!; [done..| |done|done|done].
  intros rh. rewrite Hin. naive_solver.
Qed.
Lemma keepRow_None sub rhs o row : rhs <> [] -> keepRow sub rhs o row = None -> subscriber row = sub /\ (options row = o \/ forall rh, rh ∈ regions row -> rh ∈ rhs).
Proof.
  intros Hr. unfold keepRow. destruct (Z.eqb_spec (subscriber row) sub) as [E|E]; simpl; [|done]. case_bool_decide as Ho; [by auto|].
  pose proof (fun rh => remainingRegions_in rh (regions row) rhs Hr) as Hin. destruct (remainingRegions (regions row) rhs) as [|x l]; [|done].
  intros _. split; [done|]. right. intros rh Hrh. destruct (decide (rh ∈ rhs)); [done|]. specialize (Hin rh). set_solver.
Qed.
(** Adding a row overwrites the pairs it names, and no other. *)
Lemma addRow_holds U rows sub rhs o h rh o' : rows_ok U rows -> rhs <> [] ->
  holds (addRow rows (Row sub rhs o)) h rh o' <-> (h = sub /\ rh ∈ rhs /\ o' = o) \/ (~ (h = sub /\ rh ∈ rhs) /\ holds rows h rh o').
Proof.
  intros Hok Hr. rewrite (addRow_eq U) by done. rewrite holds_app, holds_cons. simpl. rewrite sortCompact_in, elem_of_app, merged_in.
  assert (holds (omap (keepRow sub rhs o) rows) h rh o' <-> holds rows h rh o' /\ ~ (h = sub /\ (rh ∈ rhs \/ o' = o))) as ->.
  { unfold holds. setoid_rewrite list_elem_of_omap. split.
    - intros (row' & (row & Hrow & Hk) & <- & Hrh & <-). apply keepRow_Some in Hk as (-> & -> & Hin & Ho & _ & _); [|done]. apply Hin in Hrh as [Hrh Hni].
      split; [by eauto 6|]. naive_solver.
    - intros [(row & Hrow & <- & Hrh & <-) Hni]. destruct (keepRow sub rhs o row) as [row'|] eqn:Hk.
      + pose proof Hk as (? & ? & Hin & _)%keepRow_Some; [|done]. exists row'. split; [by eauto|]. split_and!; [done| |done]. apply Hin. split; [done|]. naive_solver.
      + apply keepRow_None in Hk as [? [?|Hall]]; [naive_solver..|done]. }
  pose proof (holds_nil h rh o'). destruct (decide (h = sub)) as [->|]; [|naive_solver]. destruct (decide (rh ∈ rhs)); [naive_solver|].
  destruct (decide (o' = o)) as [->|]; naive_solver.
Qed.
Lemma addRow_ok (U : FederateHandle -> RegionHandle -> Prop) rows sub rhs o : rows_ok U rows -> rhs <> [] -> Forall (U sub) rhs -> rows_ok U (addRow rows (Row sub rhs o)).
Proof.
  intros Hok Hr Hu. rewrite (addRow_eq U) by done. pose proof Hok as [Hf Ha]. rewrite Forall_forall in Hf. split.
  - apply Forall_app. split.
    + apply Forall_forall. intros row' (row & Hrow & Hk)%list_elem_of_omap. apply keepRow_Some in Hk as (E & _ & Hin & _ & Hne & Hso); [|done].
      destruct (Hf row Hrow) as (Hn & Hs & HU). split_and!; [by apply Hne|by apply Hso|]. rewrite E. rewrite Forall_forall in HU |- *. naive_solver.
    + constructor; [|constructor]. simpl. split_and!.
      * destruct rhs as [|r l]; [done|]. intros E. pose proof (proj2 (sortCompact_in ((r :: l) ++ merged sub o rows) r) ltac:(by left)) as Hi. rewrite E in Hi. by apply elem_of_nil in Hi.
      * apply sortCompact_sorted.
      * apply Forall_forall. intros rh. rewrite sortCompact_in, elem_of_app, merged_in. rewrite Forall_forall in Hu. intros [?|(row & Hrow & <- & Hrh & _)]; [by apply Hu|].
        destruct (Hf row Hrow) as (_ & _ & HU). rewrite Forall_forall in HU. by apply HU.
  - assert (forall row', row' ∈ omap (keepRow sub rhs o) rows -> apart row' (Row sub (sortCompact (rhs ++ merged sub o rows)) o)) as Hlast.
    { intros row' (row & Hrow & Hk)%list_elem_of_omap. apply keepRow_Some in Hk as (E & Eo & Hin & Ho & _); [|done]. intros Es. simpl in Es. rewrite E in Es. split; [rewrite Eo; naive_solver|].
      intros rh. simpl. rewrite Hin, sortCompact_in, elem_of_app, merged_in. intros [Hrh Hni] [?|Hh]; [naive_solver|].
      apply (Ho Es). apply (holds_fun U rows sub rh); [done|exists row; done|done]. }
    clear Hu. revert Hlast. generalize (Row sub (sortCompact (rhs ++ merged sub o rows)) o). intros last Hlast. clear Hok Hf.
    induction Ha as [|x l Hx _ IH]; simpl in *; [by repeat constructor|].
    destruct (keepRow sub rhs o x) as [x'|] eqn:Hk; [|by apply IH]. simpl. constructor; [|apply IH; intros; apply Hlast; by right].
    apply Forall_app. split; [|constructor; [apply Hlast; by left|constructor]].
    apply Forall_forall. intros row' (row & Hrow & Hk')%list_elem_of_omap. rewrite Forall_forall in Hx. specialize (Hx row Hrow).
    apply keepRow_Some in Hk as (E & Eo & Hin & _); [|done]. apply keepRow_Some in Hk' as (E' & Eo' & Hin' & _); [|done].
    intros Es. destruct (Hx ltac:(congruence)) as [Hne Hd]. split; [congruence|]. intros rh. rewrite Hin, Hin'. intros [? _] [? _]. by apply (Hd rh).
Qed.

(** ** Removing regions

    Every removal maps the rows, each to fewer regions, and drops the empty
    ones. *)
Definition shrinks (f : rowOf O -> rowOf O) : Prop := forall row,
  subscriber (f row) = subscriber row /\ options (f row) = options row /\ (forall rh, rh ∈ regions (f row) -> rh ∈ regions row) /\
  (StronglySorted Z.lt (regions row) -> StronglySorted Z.lt (regions (f row))).
Definition shrink (f : rowOf O -> rowOf O) rows : list (rowOf O) := filter (fun row => regions row <> []) (map f rows).
Lemma shrink_in f rows row' : row' ∈ shrink f rows <-> regions row' <> [] /\ exists row, row' = f row /\ row ∈ rows.
Proof. unfold shrink. by rewrite list_elem_of_filter, list_elem_of_fmap. Qed.
Lemma shrink_ok (U U' : FederateHandle -> RegionHandle -> Prop) f rows : shrinks f -> rows_ok U rows ->
  (forall row rh, row ∈ rows -> rh ∈ regions (f row) -> U (subscriber row) rh -> U' (subscriber row) rh) -> rows_ok U' (shrink f rows).
Proof.
  intros Hs [Hf Ha] HU. split.
  - apply Forall_forall. intros row' (Hn & row & -> & Hrow)%shrink_in. rewrite Forall_forall in Hf. destruct (Hf row Hrow) as (_ & Hso & Hu).
    destruct (Hs row) as (-> & _ & Hin & Hso'). split_and!; [done|by apply Hso'|]. apply Forall_forall. intros rh Hrh. apply (HU row); [done..|].
    rewrite Forall_forall in Hu. by apply Hu, Hin.
  - clear Hf HU. unfold shrink. induction Ha as [|x l Hx _ IH]; [constructor|]. simpl. rewrite filter_cons. destruct (decide _); [|done]. constructor; [|done].
    apply Forall_forall. intros row' (_ & row & -> & Hrow)%shrink_in. rewrite Forall_forall in Hx. specialize (Hx row Hrow).
    destruct (Hs x) as (E1 & E2 & E3 & _), (Hs row) as (E1' & E2' & E3' & _). intros E. destruct Hx as [Hne Hd]; [congruence|]. split; [congruence|].
    intros rh H1 H2. by apply (Hd rh); [apply E3|apply E3'].
Qed.
Lemma shrink_holds f rows h rh o : shrinks f ->
  holds (shrink f rows) h rh o <-> exists row, row ∈ rows /\ subscriber row = h /\ rh ∈ regions (f row) /\ options row = o.
Proof.
  intros Hs. unfold holds. setoid_rewrite shrink_in. split.
  - intros (? & (Hn & row & -> & Hrow) & H). destruct (Hs row) as (E & E' & _). rewrite E, E' in H. by exists row.
  - intros (row & Hrow & H1 & H2 & H3). destruct (Hs row) as (E & E' & _). exists (f row). rewrite E, E'. split_and!; [|by exists row|done..].
    intros E0. rewrite E0 in H2. by apply elem_of_nil in H2.
Qed.
Definition dropRegions (sub : FederateHandle) rhs row : rowOf O :=
  if subscriber row =? sub then Row (subscriber row) (remainingRegions (regions row) rhs) (options row) else row.
Lemma dropRegions_shrinks sub rhs : rhs <> [] -> shrinks (dropRegions sub rhs).
Proof.
  intros Hr row. unfold dropRegions. destruct (_ =? _); [|done]. simpl. split_and!; [done..| |apply remainingRegions_sorted].
  intros rh. rewrite remainingRegions_in by done. tauto.
Qed.
(** Removing deletes the pairs named, and no other. *)
Lemma remove_holds rows sub rhs h rh o : rhs <> [] -> holds (removeSubscriptionRegions rows sub rhs) h rh o <-> holds rows h rh o /\ ~ (h = sub /\ rh ∈ rhs).
Proof.
  intros Hr. change (removeSubscriptionRegions rows sub rhs) with (shrink (dropRegions sub rhs) rows). rewrite shrink_holds by by apply dropRegions_shrinks.
  unfold holds, dropRegions. split.
  - intros (row & Hrow & <- & H & <-). destruct (Z.eqb_spec (subscriber row) sub); simpl in H; [apply remainingRegions_in in H as [H Hni]; [|done]|]; split; [by exists row|tauto|by exists row|tauto].
  - intros [(row & Hrow & <- & H & <-) Hni]. exists row. split_and!; [done..| |done]. destruct (Z.eqb_spec (subscriber row) sub); [|done]. simpl. rewrite remainingRegions_in by done. tauto.
Qed.
Lemma remove_ok U rows sub rhs : rhs <> [] -> rows_ok U rows -> rows_ok U (removeSubscriptionRegions rows sub rhs).
Proof. intros Hr H. apply (shrink_ok U); [by apply dropRegions_shrinks|done|done]. Qed.
Lemma removeRows_eq rows sub rhs : removeSubscriptionRegions rows sub rhs = shrink (dropRegions sub rhs) rows.
Proof. done. Qed.

Lemma filter_rows_ok (P : rowOf O -> Prop) `{forall row, Decision (P row)} U rows : rows_ok U rows -> rows_ok U (filter P rows).
Proof.
  intros [Hf Ha]. split.
  - rewrite Forall_forall in Hf |- *. intros row [_ Hrow]%list_elem_of_filter. by apply Hf.
  - clear Hf. induction Ha as [|x l Hx _ IH]; [constructor|]. rewrite filter_cons. destruct (decide (P x)); [|done]. constructor; [|done].
    rewrite Forall_forall in Hx |- *. intros row [_ Hrow]%list_elem_of_filter. by apply Hx.
Qed.
(** The rows of a subscriber and those of the others. *)
Lemma split_rows sub rows : withoutSubscriber sub rows ++ rowsOf sub rows ≡ₚ rows.
Proof.
  unfold withoutSubscriber, rowsOf. induction rows as [|x l IH]; [done|]. rewrite !filter_cons.
  destruct (decide (subscriber x <> sub)), (decide (subscriber x = sub)); try done; simpl; [by rewrite IH|by rewrite <- Permutation_middle, IH].
Qed.
Lemma withoutSubscriber_add U sub rhs o rows : rows_ok U rows -> rhs <> [] -> withoutSubscriber sub (addRow rows (Row sub rhs o)) = withoutSubscriber sub rows.
Proof.
  intros Hok Hr. rewrite (addRow_eq U) by done. unfold withoutSubscriber. rewrite filter_app, filter_cons. simpl. destruct (decide (sub <> sub)); [done|]. rewrite filter_nil, app_nil_r.
  clear Hok. induction rows as [|x l IH]; [done|]. simpl. destruct (keepRow sub rhs o x) as [x'|] eqn:Hk; rewrite !filter_cons.
  - unfold keepRow in Hk. destruct (Z.eqb_spec (subscriber x) sub) as [E|E]; simpl in Hk.
    + case_bool_decide; [done|]. destruct (remainingRegions _ _); [done|]. injection Hk as <-. simpl. destruct (decide (subscriber x <> sub)); [done|]. apply IH.
    + injection Hk as <-. destruct (decide (subscriber x <> sub)); [|done]. f_equal. exact IH.
  - apply keepRow_None in Hk as [E _]; [|done]. destruct (decide (subscriber x <> sub)); [done|]. apply IH.
Qed.
Lemma withoutSubscriber_remove U sub rhs rows : rows_ok U rows -> withoutSubscriber sub (removeSubscriptionRegions rows sub rhs) = withoutSubscriber sub rows.
Proof.
  intros [Hf _]. rewrite removeRows_eq. unfold shrink, withoutSubscriber. induction Hf as [|x l (Hn & _) _ IH]; [done|]. simpl. rewrite !filter_cons.
  assert (subscriber (dropRegions sub rhs x) = subscriber x /\ (subscriber x <> sub -> dropRegions sub rhs x = x)) as [E1 E2].
  { unfold dropRegions. destruct (Z.eqb_spec (subscriber x) sub); split; try done. }
  destruct (decide (subscriber x <> sub)) as [E|E].
  - rewrite E2 by done. destruct (decide (regions x <> [])); [|done]. rewrite filter_cons. destruct (decide (subscriber x <> sub)); [|done]. by rewrite IH.
  - destruct (decide (regions (dropRegions sub rhs x) <> [])); [rewrite filter_cons, E1; destruct (decide (subscriber x <> sub)); [done|]|]; apply IH.
Qed.
End Rows.

(** * Data distribution management: the invariant of the state

    No subscription, association or conveyed region dangles, the rows of a
    subscriber are a partition, and every specified range is nonempty.  Here
    that each operation on a federation's state preserves it. *)
(** A region that its owner [h] may subscribe, associate or send with. *)
Definition usableIn (R : gmap RegionHandle regionState) (h : FederateHandle) (rh : RegionHandle) : Prop :=
  exists rs, R !! rh = Some rs /\ owner rs = h /\ template rs = false.
Abbreviation usable st := (usableIn (regionsOf st)).
(** A region that an association of its owner may name.  When a commit is
    refused after a registration used the region, it is a template again
    ([loose]). *)
Definition bindableIn (loose : bool) (R : gmap RegionHandle regionState) (h : FederateHandle) (rh : RegionHandle) : Prop :=
  exists rs, R !! rh = Some rs /\ owner rs = h /\ if loose then True else template rs = false.
Abbreviation bindable loose st := (bindableIn loose (regionsOf st)).
Lemma usable_bindable loose R h rh : usableIn R h rh -> bindableIn loose R h rh.
Proof. intros (rs & ? & ? & ?). exists rs. by destruct loose. Qed.
Definition nonemptyRange (r : Range) : Prop := Lower r < Upper r.
Record region_ok (rs : regionState) : Prop := {
  ro_dims : forall d, is_Some (committed rs !! d) <-> d ∈ dims rs;
  ro_pending : forall d r, pending rs !! d = Some r -> d ∈ dims rs /\ nonemptyRange r;
  ro_committed : template rs = false -> forall d r, committed rs !! d = Some r -> nonemptyRange r;
}.
Definition subs_ok {K} `{Countable K} {O} (U : FederateHandle -> RegionHandle -> Prop) (m : gmap K (list (rowOf O))) : Prop :=
  map_Forall (fun _ rows => rows <> [] /\ rows_ok U rows) m.
Definition per_ok (Q : RegionHandle -> Prop) (per : associations) : Prop := map_Forall (fun _ rhs => rhs <> [] /\ Forall Q rhs) per.
Definition pubs_ok (U : FederateHandle -> RegionHandle -> Prop) (m : gmap ObjectHandle associations) : Prop :=
  map_Forall (fun _ per => per <> ∅ /\ per_ok (fun rh => exists h, U h rh) per) m.
Definition rowsInactive_ok (U : FederateHandle -> RegionHandle -> Prop) (rows : gmap FederateHandle associations) : Prop :=
  map_Forall (fun caller per => per_ok (U caller) per) rows.
Definition inactive_ok (U : FederateHandle -> RegionHandle -> Prop) (m : gmap ObjectHandle (gmap FederateHandle associations)) : Prop :=
  map_Forall (fun _ rows => rows <> ∅ /\ map_Forall (fun _ per => per <> ∅) rows /\ rowsInactive_ok U rows) m.

Record wf_in (loose : bool) (st : federationDDMState) : Prop := {
  w_handles : forall rh, is_Some (regionsOf st !! rh) \/ is_Some (conveyed st !! rh) -> rh <= nextRegionHandle st;
  w_disjoint : forall rh, is_Some (regionsOf st !! rh) -> conveyed st !! rh = None;
  w_regions : map_Forall (fun _ => region_ok) (regionsOf st);
  w_obj : subs_ok (usable st) (objSubs st);
  w_int : subs_ok (usable st) (intSubs st);
  w_pubs : pubs_ok (bindable loose st) (objPubs st);
  w_inactive : inactive_ok (bindable loose st) (inactivePubs st);
  w_defaults : map_Forall (fun _ => nonemptyRange) (dimDefaults st);
  w_leases : forall rh, is_Some (conveyed st !! rh) <-> is_Some (conveyedRecipients st !! rh);
  w_receivers : map_Forall (fun _ rows => rows <> ∅) (conveyedRecipients st);
}.
Arguments w_handles {loose} st _ _ _.
Arguments w_disjoint {loose} st _ _ _.
Arguments w_regions {loose} st _ _ _ _.
Arguments w_obj {loose} st _ _ _ _.
Arguments w_int {loose} st _ _ _ _.
Arguments w_pubs {loose} st _ _ _ _.
Arguments w_inactive {loose} st _ _ _ _.
Arguments w_defaults {loose} st _ _ _ _.
Arguments w_leases {loose} st _ _.
Arguments w_receivers {loose} st _ _ _ _.
Abbreviation ddm_wf := (wf_in false).

(** ** The parts, as more regions become usable *)
Section Mono.
Context (U U' : FederateHandle -> RegionHandle -> Prop) (HU : forall h rh, U h rh -> U' h rh).
Lemma per_ok_mono (Q Q' : RegionHandle -> Prop) per : (forall rh, Q rh -> Q' rh) -> per_ok Q per -> per_ok Q' per.
Proof. intros HQ H a rhs E. destruct (H a rhs E) as [? Hf]. split; [done|]. eapply Forall_impl; [exact Hf|done]. Qed.
Lemma subs_ok_mono {K} `{Countable K} {O} (m : gmap K (list (rowOf O))) : subs_ok U m -> subs_ok U' m.
Proof. intros Hm k rows E. destruct (Hm k rows E). split; [done|]. by eapply rows_ok_mono. Qed.
Lemma pubs_ok_mono m : pubs_ok U m -> pubs_ok U' m.
Proof. intros H o per E. destruct (H o per E). split; [done|]. eapply per_ok_mono; [|done]. naive_solver. Qed.
Lemma rowsInactive_ok_mono m : rowsInactive_ok U m -> rowsInactive_ok U' m.
Proof. intros H c per E. eapply per_ok_mono; [|by apply (H c)]. apply HU. Qed.
Lemma inactive_ok_mono m : inactive_ok U m -> inactive_ok U' m.
Proof. intros H o rows E. destruct (H o rows E) as (? & ? & ?). split_and!; [done..|]. by apply rowsInactive_ok_mono. Qed.
End Mono.

Lemma mapForall_filter {K A} `{Countable K} (Q : K -> A -> Prop) (P : K * A -> Prop) `{forall x, Decision (P x)} (m : gmap K A) : map_Forall Q m -> map_Forall Q (filter P m).
Proof. intros Hm k a [E _]%map_lookup_filter_Some. by apply Hm. Qed.
Lemma put_ok {K A} `{Countable K} (P : K -> list A -> Prop) (m : gmap K (list A)) k l : map_Forall P m -> (l <> [] -> P k l) -> map_Forall P (put m k l).
Proof. intros Hm Hl. unfold put. destruct l; [by apply map_Forall_delete|]. by apply map_Forall_insert_2; [apply Hl|]. Qed.
Lemma putMap_ok {K K' A} `{Countable K} `{Countable K'} (P : K -> gmap K' A -> Prop) (m : gmap K (gmap K' A)) k x : map_Forall P m -> (x <> ∅ -> P k x) -> map_Forall P (putMap m k x).
Proof. intros Hm Hx. unfold putMap. case_bool_decide; [by apply map_Forall_delete|]. by apply map_Forall_insert_2; [apply Hx|]. Qed.
Lemma put_per_ok Q per a rhs : per_ok Q per -> Forall Q rhs -> per_ok Q (put per a rhs).
Proof. intros Hp Hr. by apply (put_ok (fun _ rhs => rhs <> [] /\ Forall Q rhs)). Qed.
Lemma filter_per_ok Q (P : Z * list RegionHandle -> Prop) `{forall x, Decision (P x)} per : per_ok Q per -> per_ok Q (filter P per).
Proof. intros Hp. by apply mapForall_filter. Qed.
Lemma per_ok_default Q {K} `{Countable K} (m : gmap K associations) k : (forall per, m !! k = Some per -> per_ok Q per) -> per_ok Q (default ∅ (m !! k)).
Proof. intros Hm. destruct (m !! k) eqn:E; simpl; [by apply Hm|apply map_Forall_empty]. Qed.
Lemma pruneInactive_ok U rows : rowsInactive_ok U rows -> map_Forall (fun _ per => per <> ∅) (pruneInactive rows) /\ rowsInactive_ok U (pruneInactive rows).
Proof.
  intros H. split; [|by apply mapForall_filter]. intros c per [_ Hn]%map_lookup_filter_Some. done.
Qed.
Lemma remainingRegions_Forall (Q : RegionHandle -> Prop) l rhs : Forall Q l -> Forall Q (remainingRegions l rhs).
Proof. intros H. unfold remainingRegions. case_bool_decide; [constructor|]. rewrite Forall_forall in H |- *. intros rh [_ Hrh]%list_elem_of_filter. by apply H. Qed.

(** ** Associations *)
Lemma set_objPub_wf {loose} st obj per : wf_in loose st -> per_ok (fun rh => exists h, bindable loose st h rh) per -> wf_in loose (set_objPub st obj per).
Proof. intros [] Hp. split; try done. simpl. apply putMap_ok; [done|]. by split. Qed.
Lemma set_inactive_wf {loose} st obj rows : wf_in loose st -> rowsInactive_ok (bindable loose st) rows -> wf_in loose (set_inactive st obj rows).
Proof.
  intros [] Hp. split; try done. simpl. apply putMap_ok; [done|]. intros Hn. destruct (pruneInactive_ok (bindable loose st) rows Hp). by split_and!.
Qed.
Lemma set_associations_wf {loose} st x y : wf_in loose st -> pubs_ok (bindable loose st) x -> inactive_ok (bindable loose st) y -> wf_in loose (set_associations st x y).
Proof. by intros [] ??; split. Qed.
Lemma objPub_ok {loose} st obj : wf_in loose st -> per_ok (fun rh => exists h, bindable loose st h rh) (default ∅ (objPubs st !! obj)).
Proof. intros Hw. apply per_ok_default. intros per E. by apply (w_pubs st Hw obj per). Qed.
Lemma inactiveRows_ok {loose} st obj : wf_in loose st -> rowsInactive_ok (bindable loose st) (default ∅ (inactivePubs st !! obj)).
Proof. intros Hw. destruct (inactivePubs st !! obj) eqn:E; simpl; [by apply (w_inactive st Hw obj)|apply map_Forall_empty]. Qed.

Lemma changeAttributeRegions_ok (Q : RegionHandle -> Prop) per a rhs mode : (mode = associationAdd -> rhs <> []) ->
  per_ok Q per -> Forall Q rhs -> per_ok Q (changeAttributeRegions per a rhs mode).
Proof.
  intros Hn Hp Hr. assert (Forall Q (default [] (per !! a))) as Ha by (destruct (per !! a) eqn:E; simpl; [by apply (Hp a)|constructor]).
  destruct mode; simpl; try (apply put_per_ok; [done|]; try done; by apply remainingRegions_Forall).
  apply map_Forall_insert_2; [|done]. split.
  - intros E. destruct rhs as [|r l]; [by apply Hn|]. pose proof (proj2 (sortCompact_in (default [] (per !! a) ++ r :: l) r)) as Hi. rewrite E in Hi. set_solver.
  - apply Forall_forall. intros rh. rewrite sortCompact_in, elem_of_app. rewrite Forall_forall in Ha, Hr. naive_solver.
Qed.
Lemma changeAssociationGroup_wf {loose} st obj caller g owners mode : wf_in loose st -> (mode = associationAdd -> g_Regions g <> []) ->
  Forall (usable st caller) (g_Regions g) -> wf_in loose (changeAssociationGroup st obj caller g owners mode).
Proof.
  intros Hw Hn Hu'. assert (Forall (bindable loose st caller) (g_Regions g)) as Hu by (eapply Forall_impl; [exact Hu'|apply usable_bindable]). unfold changeAssociationGroup.
  assert (forall attrs per rows, per_ok (fun rh => exists h, bindable loose st h rh) per -> rowsInactive_ok (bindable loose st) rows ->
    per_ok (fun rh => exists h, bindable loose st h rh) (fold_left (changeAttribute obj caller owners (g_Regions g) mode) attrs (per, rows)).1 /\
    rowsInactive_ok (bindable loose st) (fold_left (changeAttribute obj caller owners (g_Regions g) mode) attrs (per, rows)).2) as H.
  { induction attrs as [|a attrs IH]; intros per rows Hp Hr; [done|]. simpl. destruct (ownedElsewhere _ _ _).
    - destruct (rows !! caller) as [x|] eqn:E; [|destruct (removing mode)]; (apply IH; [done|]).
      + apply map_Forall_insert_2; [|done]. apply changeAttributeRegions_ok; [done|by apply (Hr caller)|done].
      + done.
      + apply map_Forall_insert_2; [|done]. apply changeAttributeRegions_ok; [done|apply map_Forall_empty|done].
    - apply IH; [|done]. apply changeAttributeRegions_ok; [done..|]. eapply Forall_impl; [exact Hu|]. eauto. }
  specialize (H (g_Attributes g) _ _ (objPub_ok st obj Hw) (inactiveRows_ok st obj Hw)). destruct (fold_left _ _ _) as [per rows]. destruct H as [H1 H2].
  apply set_inactive_wf; [by apply set_objPub_wf|done].
Qed.
Lemma clearObjectAssociations_wf {loose} st obj caller : wf_in loose st -> wf_in loose (clearObjectAssociations st obj caller).
Proof.
  intros Hw. apply set_inactive_wf; [apply set_objPub_wf; [done|by apply filter_per_ok, objPub_ok]|].
  apply map_Forall_delete. exact (inactiveRows_ok st obj Hw).
Qed.
Lemma alter_delete_ok U rows a h : rowsInactive_ok U rows -> rowsInactive_ok U (alter (delete a) h rows).
Proof.
  intros H c per. rewrite lookup_alter. case_decide as Ec; [|apply H]. subst c. destruct (rows !! h) as [x|] eqn:E; simpl; [|done]. intros [= <-]. apply map_Forall_delete. by apply (H h).
Qed.
Lemma applyOwnershipChange_wf {loose} st obj before after : wf_in loose st -> wf_in loose (applyOwnershipChange st obj before after).
Proof.
  intros Hw. unfold applyOwnershipChange.
  assert (forall attrs per rows, per_ok (fun rh => exists h, bindable loose st h rh) per -> rowsInactive_ok (bindable loose st) rows ->
    per_ok (fun rh => exists h, bindable loose st h rh) (fold_left (transferAttribute obj before after) attrs (per, rows)).1 /\
    rowsInactive_ok (bindable loose st) (fold_left (transferAttribute obj before after) attrs (per, rows)).2) as H.
  { induction attrs as [|a attrs IH]; intros per rows Hp Hr; [done|]. simpl. destruct (_ =? _); [by apply IH|].
    pose proof (alter_delete_ok (bindable loose st) rows a (default 0 (before !! a)) Hr) as Hr'. pose proof (map_Forall_delete _ _ a Hp) as Hp'.
    destruct (handedOver _ _ _) as [rhs|] eqn:E; [|by apply IH]. destruct rhs as [|rh l]; [by apply IH|]. apply IH; [|by apply alter_delete_ok].
    apply map_Forall_insert_2; [|done]. split; [done|]. unfold handedOver in E. destruct (default 0 (after !! a) =? 0); [done|].
    apply bind_Some in E as (pend & E1 & E2). apply Hr' in E1. apply E1 in E2 as [_ E2]. eapply Forall_impl; [exact E2|]. eauto. }
  specialize (H (elements (dom before)) _ _ (objPub_ok st obj Hw) (inactiveRows_ok st obj Hw)). destruct (fold_left _ _ _) as [per rows]. destruct H as [H1 H2].
  apply set_inactive_wf; [by apply set_objPub_wf|done].
Qed.
Lemma forgetObject_wf {loose} st obj : wf_in loose st -> wf_in loose (forgetObject st obj).
Proof. intros []. split; try done; simpl; by apply map_Forall_delete. Qed.
Lemma forgetObjectFederate_wf {loose} st obj caller : wf_in loose st -> wf_in loose (forgetObjectFederate st obj caller).
Proof. intros Hw. apply set_inactive_wf; [done|]. apply map_Forall_delete. by apply inactiveRows_ok. Qed.

(** * Data distribution management: the invariant under regions,
    subscriptions, conveyed regions and resignation *)
(** ** The object model *)
Definition FOM_ok (h : FOMHandle) : Prop := forall ds, Dimensions h = Some ds -> Forall (fun d => 0 <= UpperBound d <= MaxUint64) ds.
Lemma set_declarations_wf {loose} st f defaults spaces dims upper perm next rev : wf_in loose st -> map_Forall (fun _ => nonemptyRange) defaults ->
  wf_in loose (set_declarations st f defaults spaces dims upper perm next rev).
Proof. by intros [] ?; split. Qed.
Lemma setDimensionDefault_ok nd defaults h d : map_Forall (fun _ => nonemptyRange) defaults -> 0 <= UpperBound d <= MaxUint64 ->
  map_Forall (fun _ => nonemptyRange) (setDimensionDefault nd defaults h d).
Proof.
  intros Hd Hu. unfold setDimensionDefault. destruct (DimensionDefaultRange nd d) as [[[lo up] [|]]| |] eqn:E; try by apply map_Forall_delete.
  apply map_Forall_insert_2; [|done]. apply default_range_inside in E; [|done]. unfold nonemptyRange. simpl. lia.
Qed.
Lemma populateFromFOM_wf {loose} nd st ds : wf_in loose st -> Forall (fun d => 0 <= UpperBound d <= MaxUint64) ds -> wf_in loose (populateFromFOM nd st ds).
Proof.
  intros Hw Hds. unfold populateFromFOM.
  assert (forall acc, map_Forall (fun _ => nonemptyRange) acc.1.2 -> map_Forall (fun _ => nonemptyRange) (fold_left (populateOne nd) ds acc).1.2) as H.
  { induction Hds as [|d l Hd _ IH]; intros acc Ha; [done|]. simpl. apply IH. destruct acc as [[[a b] c] e]. by apply setDimensionDefault_ok. }
  specialize (H (∅, dimUpperBound st, dimDefaults st, nextDimHandle st) (w_defaults st Hw)).
  destruct (fold_left _ _ _) as [[[a b] c] e]. by apply set_declarations_wf.
Qed.
Lemma refreshFOM_wf {loose} nd get st : wf_in loose st -> (forall h, get = Ret h -> FOM_ok h) -> wf_in loose (refreshFOMDimensions nd get st).
Proof.
  intros Hw Hf. unfold refreshFOMDimensions. destruct get as [h| |]; [|done..]. pose proof (w_defaults st Hw) as Hd.
  destruct (provider h) as [[rev view]|]; [|by apply set_declarations_wf]. destruct (_ =? _); [by apply set_declarations_wf|].
  apply set_declarations_wf; [by apply set_declarations_wf|]. destruct (Dimensions h) as [ds|] eqn:E; [|done]. specialize (Hf h eq_refl ds E).
  assert (forall name, 0 <= UpperBound (dimensionNamed ds name) <= MaxUint64) as Hn.
  { intros name. unfold dimensionNamed. destruct (List.find _ _) as [d|] eqn:Ef; simpl; [|unfold MaxUint64, maxU; lia]. apply find_some in Ef as [Hin _].
    apply list_elem_of_In in Hin. rewrite elem_of_reverse in Hin. rewrite Forall_forall in Hf. exact (Hf d Hin). }
  assert (forall l acc, map_Forall (fun _ => nonemptyRange) acc -> map_Forall (fun _ => nonemptyRange)
    (fold_left (fun acc b => setDimensionDefault nd acc (fd_Handle b) (dimensionNamed ds (fd_Name b))) l acc)) as H; [|apply H, map_Forall_empty].
  induction l as [|b l IH]; intros acc Ha; [done|]. simpl. apply IH. by apply setDimensionDefault_ok.
Qed.
Lemma ddm_new_wf {loose} a : wf_in loose (newFederationDDMState a).
Proof.
  split; try apply map_Forall_empty; simpl.
  - intros rh [[? E]|[? E]]; by rewrite lookup_empty in E.
  - intros rh [? E]. by rewrite lookup_empty in E.
  - intros rh. rewrite !lookup_empty. done.
Qed.

(** ** Regions *)
Definition extends (R R' : gmap RegionHandle regionState) : Prop :=
  forall rh rs, R !! rh = Some rs -> exists rs', R' !! rh = Some rs' /\ owner rs' = owner rs /\ (template rs = false -> template rs' = false).
Lemma extends_usable R R' h rh : extends R R' -> usableIn R h rh -> usableIn R' h rh.
Proof. intros HE (rs & E & <- & Ht). destruct (HE rh rs E) as (rs' & ? & ? & ?). exists rs'. split_and!; [done..|]. by eauto. Qed.
Lemma extends_bindable loose R R' h rh : extends R R' -> bindableIn loose R h rh -> bindableIn loose R' h rh.
Proof. intros HE (rs & E & <- & Ht). destruct (HE rh rs E) as (rs' & ? & ? & ?). exists rs'. split_and!; [done..|]. destruct loose; by eauto. Qed.
Lemma set_regionsOf_wf {loose} st next R : wf_in loose st -> extends (regionsOf st) R -> map_Forall (fun _ => region_ok) R -> nextRegionHandle st <= next ->
  (forall rh, is_Some (R !! rh) -> rh <= next /\ conveyed st !! rh = None) -> wf_in loose (set_regionsOf st next R).
Proof.
  intros Hw HE HR Hn Hc. pose proof (fun h rh => extends_usable _ R h rh HE) as HU. pose proof (fun h rh => extends_bindable loose _ R h rh HE) as HB. pose proof (w_handles st Hw) as Hh. destruct Hw. split; try done; simpl.
  - intros rh [H|H]; [by apply Hc|]. specialize (Hh rh (or_intror H)). lia.
  - intros rh H. by apply Hc.
  - by apply (subs_ok_mono (usable st)).
  - by apply (subs_ok_mono (usable st)).
  - by apply (pubs_ok_mono (bindable loose st)).
  - by apply (inactive_ok_mono (bindable loose st)).
Qed.
Lemma set_region_wf {loose} st rh rs rs' : wf_in loose st -> regionsOf st !! rh = Some rs -> region_ok rs' -> owner rs' = owner rs -> (template rs = false -> template rs' = false) ->
  wf_in loose (set_region st rh rs').
Proof.
  intros Hw E Hr Ho Ht. apply set_regionsOf_wf; [done| | |done|].
  - intros k x Ek. destruct (decide (k = rh)) as [->|]; [|exists x; by rewrite lookup_insert_ne].
    rewrite E in Ek. injection Ek as <-. exists rs'. by rewrite lookup_insert_eq.
  - apply map_Forall_insert_2; [done|]. eapply w_regions, Hw.
  - intros k Hk. assert (is_Some (regionsOf st !! k)) as Hs by (destruct (decide (k = rh)) as [->|]; [by rewrite E|by rewrite lookup_insert_ne in Hk]).
    split; [apply (w_handles st Hw); by left|by apply (w_disjoint st Hw)].
Qed.
Lemma full_dims (st : federationDDMState) ds d :
  is_Some (fold_left (fun m d => <[d := Build_Range 0 (upperBoundOf (default 0 (dimUpperBound st !! d)))]> m) ds (∅ : gmap Z Range) !! d) <-> d ∈ ds.
Proof.
  change (fold_left _ ds ∅) with (fold_insert id (fun d => Build_Range 0 (upperBoundOf (default 0 (dimUpperBound st !! d)))) ds (∅ : gmap Z Range)).
  assert (forall m : gmap Z Range, is_Some (fold_insert id (fun d => Build_Range 0 (upperBoundOf (default 0 (dimUpperBound st !! d)))) ds m !! d) <-> d ∈ ds \/ is_Some (m !! d)) as H.
  { induction ds as [|x l IH]; intros m; [set_solver|]. unfold fold_insert in *. simpl. rewrite IH, elem_of_cons. unfold id.
    destruct (decide (x = d)) as [->|]; [rewrite lookup_insert_eq; naive_solver|rewrite lookup_insert_ne by done; naive_solver]. }
  rewrite H, lookup_empty. split; [intros [?|[? [=]]]; done|auto].
Qed.
Lemma createRegion_wf {loose} st who sp ds : wf_in loose st -> wf_in loose (createRegion who sp ds st).1.
Proof.
  intros Hw. unfold createRegion. destruct (negb _); [done|]. destruct (negb _); [done|]. destruct (_ =? _); [done|]. simpl.
  assert (regionsOf st !! (nextRegionHandle st + 1) = None) as Hf.
  { destruct (regionsOf st !! _) eqn:E; [|done]. pose proof (w_handles st Hw (nextRegionHandle st + 1) ltac:(left; by rewrite E)). lia. }
  apply set_regionsOf_wf; [done| | |lia|].
  - intros k x Ek. exists x. rewrite lookup_insert_ne; [done|congruence].
  - apply map_Forall_insert_2; [|eapply w_regions, Hw]. split; [apply full_dims|done|done].
  - intros k Hk. destruct (decide (k = nextRegionHandle st + 1)) as [->|].
    + split; [lia|]. destruct (conveyed st !! _) eqn:E; [|done]. pose proof (w_handles st Hw (nextRegionHandle st + 1) ltac:(right; by rewrite E)). lia.
    + rewrite lookup_insert_ne in Hk by done. pose proof (w_handles st Hw k (or_introl Hk)). split; [lia|by apply (w_disjoint st Hw)].
Qed.
Lemma setRangeBounds_wf {loose} st who rh dim b : wf_in loose st -> wf_in loose (setRangeBounds who rh dim b st).1.
Proof.
  intros Hw. unfold setRangeBounds. destruct (regionsOf st !! rh) as [rs|] eqn:E; [|done]. destruct (negb _); [done|]. case_bool_decide as Hd; [|done]. simpl.
  destruct (_ || _) eqn:Hb; [done|]. simpl. apply orb_false_iff in Hb as [Hb%Z.leb_gt _]. destruct (w_regions st Hw rh rs E) as [H1 H2 H3].
  eapply set_region_wf; [done..| |done|done]. split; [done| |done]. simpl. intros d r. destruct (decide (d = dim)) as [->|]; [|rewrite lookup_insert_ne by done; apply H2].
  rewrite lookup_insert_eq. intros [= <-]. split; [done|]. unfold nonemptyRange. lia.
Qed.
Lemma commitOne_wf {loose} st rh : wf_in loose st -> (forall rs, regionsOf st !! rh = Some rs -> template rs = true -> forall d, d ∈ dims rs -> is_Some (pending rs !! d)) ->
  wf_in loose (commitOne st rh).
Proof.
  intros Hw Hp. unfold commitOne. destruct (regionsOf st !! rh) as [rs|] eqn:E; [|done]. destruct (w_regions st Hw rh rs E) as [H1 H2 H3].
  eapply set_region_wf; [done..| |done|done]. split; simpl.
  - intros d. rewrite lookup_union. destruct (pending rs !! d) as [r|] eqn:Ep; [|rewrite <- H1; by destruct (committed rs !! d)].
    apply H2 in Ep as [? _]. destruct (committed rs !! d); simpl; split; eauto.
  - intros d r. by rewrite lookup_empty.
  - intros _ d r. rewrite lookup_union. destruct (pending rs !! d) as [p|] eqn:Ep.
    + assert (union_with (fun x _ => Some x) (Some p) (committed rs !! d) = Some p) as Eu by (destruct (committed rs !! d); done).
      intros Er. replace r with p; [by apply (H2 d p)|]. unfold union, option_union in Er. rewrite Eu in Er. congruence.
    + rewrite (left_id None _). intros Ec. destruct (template rs) eqn:Et; [|by apply (H3 eq_refl d)].
      assert (d ∈ dims rs) as Hd by (apply H1; by rewrite Ec). destruct (Hp rs eq_refl Et d Hd). congruence.
Qed.
Lemma commitRegions_wf {loose} st who rhs : wf_in loose st -> wf_in loose (commitRegions who rhs st).1.
Proof.
  intros Hw. unfold commitRegions, checked. destruct (checkAll _ rhs) as [[]| |] eqn:Hc; [|done..]. simpl.
  assert (forall rh rs, rh ∈ rhs -> regionsOf st !! rh = Some rs -> template rs = true -> forall d, d ∈ dims rs -> is_Some (pending rs !! d)) as Hp.
  { clear Hw. induction rhs as [|x l IH]; intros rh rs Hin E Et d Hd; [by apply elem_of_nil in Hin|]. simpl in Hc.
    destruct (committable st who x) as [[]| |] eqn:Hx; [|done..]. simpl in Hc. apply elem_of_cons in Hin as [->|Hin]; [|by eapply IH].
    unfold committable in Hx. rewrite E, Et in Hx. destruct (negb _); [done|]. simpl in Hx. destruct (forallb _ _) eqn:Hf; [|done].
    rewrite forallb_forall in Hf. apply list_elem_of_In in Hd. apply Hf in Hd. by apply bool_decide_eq_true in Hd. }
  clear Hc. revert st Hw Hp. induction rhs as [|x l IH]; intros st Hw Hp; [done|]. simpl. apply IH.
  - apply commitOne_wf; [done|]. intros rs E. by apply (Hp x rs); [left|].
  - intros rh rs Hin. unfold commitOne. destruct (regionsOf st !! x) as [rx|] eqn:Ex; [|by apply Hp; right].
    simpl. destruct (decide (rh = x)) as [->|]; [rewrite lookup_insert_eq; by intros [= <-]|]. rewrite lookup_insert_ne by done. apply Hp. by right.
Qed.
(** Undone, a commit leaves no trace. *)
Lemma commitOne_regions st rh k : regionsOf (commitOne st rh) !! k =
  (if decide (k = rh) then (fun rs => Build_regionState false (owner rs) (space rs) (dims rs) (pending rs ∪ committed rs) ∅) <$> regionsOf st !! k else regionsOf st !! k).
Proof.
  unfold commitOne. destruct (decide (k = rh)) as [->|Hk].
  - destruct (regionsOf st !! rh) as [rs|] eqn:E; [by simpl; rewrite lookup_insert_eq|by rewrite E].
  - destruct (regionsOf st !! rh); [|done]. simpl. by rewrite lookup_insert_ne.
Qed.
Lemma commitOne_frame st rh : exists R, commitOne st rh = set_regionsOf st (nextRegionHandle st) R /\ forall k rs, R !! k = Some rs ->
  exists rs0, regionsOf st !! k = Some rs0 /\ owner rs = owner rs0 /\ space rs = space rs0 /\ dims rs = dims rs0 /\ (k <> rh -> rs = rs0).
Proof.
  unfold commitOne. destruct (regionsOf st !! rh) as [r|] eqn:E.
  - eexists. split; [done|]. intros k rs. destruct (decide (k = rh)) as [->|]; [rewrite lookup_insert_eq; intros [= <-]; exists r; by split_and!|].
    rewrite lookup_insert_ne by done. intros Ek. by exists rs.
  - exists (regionsOf st). split; [by destruct st|]. intros k rs Ek. by exists rs.
Qed.
Lemma restoreRanges_commit st rhs : restoreRanges (fold_left commitOne rhs st) (filter (fun kr => kr.1 ∈ rhs) (regionsOf st)) = st.
Proof.
  assert (forall l st', (forall x, x ∈ l -> x ∈ rhs) ->
    (exists R, st' = set_regionsOf st (nextRegionHandle st) R /\ (forall k, is_Some (R !! k) <-> is_Some (regionsOf st !! k)) /\
      forall k rs, R !! k = Some rs -> exists rs0, regionsOf st !! k = Some rs0 /\ owner rs = owner rs0 /\ space rs = space rs0 /\ dims rs = dims rs0 /\ (k ∉ rhs -> rs = rs0)) ->
    restoreRanges (fold_left commitOne l st') (filter (fun kr => kr.1 ∈ rhs) (regionsOf st)) = st) as H.
  { induction l as [|x l IH]; intros st' Hl (R & -> & HR & Hs).
    - unfold restoreRanges. simpl. destruct st as [? ? ? ? ? ? ? R0 ? ? ? ? ? ? ? ? ?]. unfold set_regionsOf. simpl in *. f_equal. apply map_eq. intros k. rewrite map_lookup_imap.
      destruct (R !! k) as [rs|] eqn:E; simpl.
      + destruct (Hs k rs E) as (rs0 & E0 & Eo & Esp & Ed & Hni). rewrite E0. f_equal. destruct (decide (k ∈ rhs)) as [Hk|Hk].
        * rewrite map_lookup_filter, E0. simpl. rewrite option_guard_True by done. destruct rs0. simpl in *. by subst.
        * rewrite map_lookup_filter, E0. simpl. rewrite option_guard_False by done. by apply Hni.
      + destruct (R0 !! k) eqn:E0; [|done]. destruct (proj2 (HR k) ltac:(by rewrite E0)). congruence.
    - simpl. apply IH; [intros; apply Hl; by right|]. destruct (commitOne_frame (set_regionsOf st (nextRegionHandle st) R) x) as (R' & E & Hf).
      exists R'. split; [by rewrite E|]. assert (forall k, R' !! k = regionsOf (commitOne (set_regionsOf st (nextRegionHandle st) R) x) !! k) as ER by by rewrite E.
      split.
      + intros k. rewrite ER, commitOne_regions. simpl. rewrite <- HR. destruct (decide (k = x)); [by rewrite fmap_is_Some|done].
      + intros k rs Ek. destruct (Hf k rs Ek) as (r1 & E1 & Eo & Esp & Ed & Hne). simpl in E1. destruct (Hs k r1 E1) as (r0 & ? & ? & ? & ? & Hni).
        exists r0. split_and!; [done|congruence..|]. intros Hk. rewrite Hne by (intros ->; apply Hk, Hl; by left). by apply Hni. }
  apply H; [done|]. exists (regionsOf st). split; [by destruct st|]. split; [done|]. intros k rs E. by exists rs.
Qed.
