(* ===== verification/DdmSubscriptionProofs.v ===== *)
(** * Data distribution management: the invariant under subscriptions

    Two states are the same for every purpose when they differ in the order of
    the rows of a subscription table only ([ddm_equiv]); a subscription that its
    interest hook refuses comes back to the same state in that sense.  At the
    end, what overlap and routing mean. *)
From stdpp Require Import gmap.
From S2P Require Import Prelude GoBytes FomDimension Ddm DdmRegion DdmSubscribe DdmAssociate DdmRoute DdmInvariant.
Open Scope Z_scope.

(** ** States up to the order of rows *)
Definition rows_equiv {K} `{Countable K} {O} (m m' : gmap K (list (rowOf O))) : Prop := forall k, option_Forall2 (≡ₚ) (m !! k) (m' !! k).
#[export] Instance rows_equiv_equivalence {K} `{Countable K} {O} : Equivalence (@rows_equiv K _ _ O).
Proof.
  split.
  - intros m k. destruct (m !! k); by constructor.
  - intros m m' E k. destruct (E k); by constructor.
  - intros m1 m2 m3 E1 E2 k. specialize (E1 k). specialize (E2 k). destruct E1; inversion E2; subst; constructor. by etrans.
Qed.
#[export] Instance ddm_equiv : Equiv federationDDMState := fun st st' =>
  set_subscriptions st ∅ ∅ = set_subscriptions st' ∅ ∅ /\ rows_equiv (objSubs st) (objSubs st') /\ rows_equiv (intSubs st) (intSubs st').
#[export] Instance ddm_equivalence : Equivalence (≡@{federationDDMState}).
Proof.
  split.
  - intros st. split_and!; [done|reflexivity..].
  - intros st st' (E & E1 & E2). split_and!; [done|by symmetry..].
  - intros st1 st2 st3 (E & E1 & E2) (E' & E1' & E2'). split_and!; [congruence|by etrans..].
Qed.
Lemma subs_ok_equiv {K} `{Countable K} {O} U (m m' : gmap K (list (rowOf O))) : rows_equiv m m' -> subs_ok U m -> subs_ok U m'.
Proof.
  intros E H' k rows Ek. specialize (E k). rewrite Ek in E. inversion E as [x y Hp Ex|]; subst. symmetry in Ex. destruct (H' k x Ex) as [Hn Ho]. split.
  - intros ->. by apply Permutation_nil_r in Hp.
  - by rewrite <- Hp.
Qed.
#[export] Instance wf_in_proper loose : Proper ((≡) ==> iff) (wf_in loose).
Proof.
  assert (forall st st', st ≡ st' -> wf_in loose st -> wf_in loose st') as H; [|intros st st' E; split; apply H; [done|by symmetry]].
  intros st st' (E & E1 & E2) []. destruct st, st'. unfold set_subscriptions in E. simpl in *. injection E as. subst. split; try done; simpl in *; by eapply subs_ok_equiv.
Qed.

(** ** What validation establishes *)
Lemma checkAll_Ret {A} (f : A -> outcome ddm_error ()) l : checkAll f l = Ret () <-> Forall (fun a => f a = Ret ()) l.
Proof.
  induction l as [|a l IH]; simpl; [by split|]. rewrite Forall_cons, <- IH. destruct (f a) as [[]| |]; simpl; naive_solver.
Qed.
Lemma unit_Ret {E} (m : outcome E ()) u : m = Ret u -> m = Ret ().
Proof. by destruct u. Qed.
Lemma validateRegions_usable st caller rhs ds strict u : validateRegions st caller rhs ds strict = Ret u -> Forall (usable st caller) rhs.
Proof.
  intros H%unit_Ret. apply checkAll_Ret in H. eapply Forall_impl; [exact H|]. intros rh. unfold validateRegion. destruct (regionsOf st !! rh) as [rs|] eqn:E; [|done].
  destruct (Z.eqb_spec (owner rs) caller); [|done]. destruct (template rs) eqn:Et; [done|]. intros _. by exists rs.
Qed.
Lemma validateObjectRegions_usable st caller attrs rhs required u : validateObjectRegions st caller attrs rhs required = Ret u -> Forall (usable st caller) rhs.
Proof. intros (v & H & _)%bind_Ret_inv. by eapply validateRegions_usable. Qed.
Lemma validateGroups_usable st caller groups required u : validateGroups st caller groups required = Ret u -> Forall (fun g => Forall (usable st caller) (g_Regions g)) groups.
Proof. intros H%unit_Ret. apply checkAll_Ret in H. eapply Forall_impl; [exact H|]. intros g Hg. exact (validateObjectRegions_usable _ _ _ _ _ _ Hg). Qed.

(** ** Subscription tables *)
Lemma default_rows_ok {K} `{Countable K} {O} U (m : gmap K (list (rowOf O))) k : subs_ok U m -> rows_ok U (default [] (m !! k)).
Proof. intros Hm. destruct (m !! k) as [rows|] eqn:E; [exact (proj2 (Hm k rows E))|]. split; constructor. Qed.
Lemma insert_addRow_ok {K} `{Countable K} {O} `{EqDecision O} (U : FederateHandle -> RegionHandle -> Prop) (m : gmap K (list (rowOf O))) k sub rhs (o : O) : subs_ok U m -> rhs <> [] -> Forall (U sub) rhs ->
  subs_ok U (<[k := addRow (default [] (m !! k)) (Row sub rhs o)]> m).
Proof.
  intros Hm Hr Hu. apply map_Forall_insert_2; [|done]. pose proof (default_rows_ok U m k Hm) as Hok. split; [|by apply addRow_ok].
  rewrite (addRow_eq U) by done. by destruct (omap _ _).
Qed.
Lemma put_remove_ok {K} `{Countable K} {O} U (m : gmap K (list (rowOf O))) k sub rhs : subs_ok U m -> rhs <> [] ->
  subs_ok U (put m k (removeSubscriptionRegions (default [] (m !! k)) sub rhs)).
Proof. intros Hm Hr. apply (put_ok (fun _ rows => rows <> [] /\ rows_ok U rows)); [done|]. intros Hn. split; [done|]. by apply remove_ok, default_rows_ok. Qed.
Lemma set_objSubs_wf {loose} st m : wf_in loose st -> subs_ok (usable st) m -> wf_in loose (set_objSubs st m).
Proof. by intros [] ?; split. Qed.
Lemma set_intSubs_wf {loose} st m : wf_in loose st -> subs_ok (usable st) m -> wf_in loose (set_intSubs st m).
Proof. by intros [] ?; split. Qed.
Lemma addObject_wf {loose} st key sub rhs o : wf_in loose st -> rhs <> [] -> Forall (usable st sub) rhs -> wf_in loose (addObjectSubscriptionLocked st key (Row sub rhs o)).
Proof. intros Hw Hr Hu. apply set_objSubs_wf; [done|]. by apply insert_addRow_ok; [apply (w_obj st Hw)|..]. Qed.
Lemma removeObject_wf {loose} st key sub rhs : wf_in loose st -> rhs <> [] -> wf_in loose (removeObjectSubscriptionRegions st key sub rhs).
Proof. intros Hw Hr. apply set_objSubs_wf; [done|]. by apply put_remove_ok; [apply (w_obj st Hw)|]. Qed.

(** A change of [sub]'s rows for [cls] and of nothing else. *)
Record only_rows (sub : FederateHandle) (cls : ObjectClassHandle) (st st' : federationDDMState) : Prop := {
  or_rest : set_objSubs st' ∅ = set_objSubs st ∅;
  or_other : forall k, fst k <> cls -> objSubs st' !! k = objSubs st !! k;
  or_others : forall k, withoutSubscriber sub (default [] (objSubs st' !! k)) = withoutSubscriber sub (default [] (objSubs st !! k));
}.
Lemma only_rows_refl sub cls st : only_rows sub cls st st.
Proof. done. Qed.
Lemma only_rows_trans sub cls st1 st2 st3 : only_rows sub cls st1 st2 -> only_rows sub cls st2 st3 -> only_rows sub cls st1 st3.
Proof. intros [] []. split; [congruence|intros; rewrite or_other1; auto|intros; congruence]. Qed.
Lemma only_rows_regions sub cls st st' : only_rows sub cls st st' -> regionsOf st' = regionsOf st.
Proof. intros [E _ _]. unfold set_objSubs, set_subscriptions in E. by injection E. Qed.
Lemma default_put {K A} `{Countable K} (m : gmap K (list A)) k l k' : default [] (put m k l !! k') = if decide (k' = k) then l else default [] (m !! k').
Proof. unfold put. destruct (decide (k' = k)) as [->|]; destruct l; rewrite ?lookup_delete_eq, ?lookup_insert_eq, ?lookup_delete_ne, ?lookup_insert_ne by done; done. Qed.
Lemma addObject_only {loose} st cls a sub rhs o : wf_in loose st -> rhs <> [] -> only_rows sub cls st (addObjectSubscriptionLocked st (cls, a) (Row sub rhs o)).
Proof.
  intros Hw Hr. split; [done| |]; simpl.
  - intros k Hk. rewrite lookup_insert_ne; [done|]. by intros <-.
  - intros k. destruct (decide (k = (cls, a))) as [->|]; [|by rewrite lookup_insert_ne]. rewrite lookup_insert_eq. simpl.
    eapply withoutSubscriber_add; [|done]. apply default_rows_ok. exact (w_obj st Hw).
Qed.
Lemma removeObject_only {loose} st cls a sub rhs : wf_in loose st -> only_rows sub cls st (removeObjectSubscriptionRegions st (cls, a) sub rhs).
Proof.
  intros Hw. split; [done| |]; simpl.
  - intros k Hk. unfold put. destruct (removeSubscriptionRegions _ _ _); [rewrite lookup_delete_ne|rewrite lookup_insert_ne]; try done; by intros <-.
  - intros k. rewrite default_put. case_decide as Ek; [|done]. subst k. eapply withoutSubscriber_remove. apply default_rows_ok. exact (w_obj st Hw).
Qed.

(** ** Rollback of a subscription *)
Definition clearRows {O} (sub : FederateHandle) (o : option (list (rowOf O))) : option (list (rowOf O)) :=
  match o with None | Some [] => o | Some rows => nonempty (withoutSubscriber sub rows) end.
Lemma removeObjSub_lookup m key sub k : removeObjSubLocked m key sub !! k = if decide (k = key) then clearRows sub (m !! k) else m !! k.
Proof.
  unfold removeObjSubLocked, clearRows. destruct (decide (k = key)) as [->|Hk].
  - destruct (m !! key) as [[|x l]|] eqn:E; [done| |done]. unfold put, nonempty. destruct (withoutSubscriber sub (x :: l)); [by rewrite lookup_delete_eq|by rewrite lookup_insert_eq].
  - destruct (m !! key) as [[|x l]|]; [done| |done]. unfold put. destruct (withoutSubscriber sub (x :: l)); [by rewrite lookup_delete_ne|by rewrite lookup_insert_ne].
Qed.
Lemma cleared_lookup (sub : FederateHandle) (cls : ObjectClassHandle) (keys : list objAttrKey) (m : gmap objAttrKey (list subscription)) (k : objAttrKey) : NoDup keys ->
  fold_left (fun m key => if fst key =? cls then removeObjSubLocked m key sub else m) keys m !! k =
  (if bool_decide (k ∈ keys) && (fst k =? cls) then clearRows sub (m !! k) else m !! k).
Proof.
  intros Hnd. revert m. induction Hnd as [|x l Hx _ IH]; intros m; [done|]. simpl. rewrite IH.
  destruct (decide (k = x)) as [->|Hk].
  - rewrite (bool_decide_false (x ∈ l)), (bool_decide_true (x ∈ x :: l)) by (try done; by left). simpl. destruct (fst x =? cls); [|done].
    rewrite removeObjSub_lookup. by destruct (decide _).
  - rewrite (bool_decide_ext (k ∈ x :: l) (k ∈ l)) by (rewrite elem_of_cons; tauto). destruct (fst x =? cls); [|done].
    rewrite removeObjSub_lookup. by destruct (decide (k = x)).
Qed.
Lemma append_fold_lookup {K A} `{Countable K} (l : list (K * list A)) (m : gmap K (list A)) k : NoDup (map fst l) ->
  fold_left (fun m kr => <[fst kr := default [] (m !! fst kr) ++ snd kr]> m) l m !! k =
  match list_to_map (M := gmap K (list A)) l !! k with Some rows => Some (default [] (m !! k) ++ rows) | None => m !! k end.
Proof.
  revert m. induction l as [|[x rows] l IH]; intros m Hnd; simpl; [by rewrite lookup_empty|]. inversion Hnd as [|? ? Hx Hnd']; subst. rewrite IH by done.
  destruct (decide (k = x)) as [->|Hk]; [|by rewrite !lookup_insert_ne].
  rewrite !lookup_insert_eq. by rewrite (not_elem_of_list_to_map_1 l x Hx).
Qed.
Lemma nonempty_Some {A} (l : list A) : default [] (nonempty l) = l.
Proof. by destruct l. Qed.
Lemma clearRows_eq {O} sub (o : option (list (rowOf O))) : o <> Some [] -> clearRows sub o = nonempty (withoutSubscriber sub (default [] o)).
Proof. by destruct o as [[|]|]. Qed.
Lemma rejoin_rows {O} sub (o : option (list (rowOf O))) : o <> Some [] ->
  option_Forall2 (≡ₚ) (match nonempty (rowsOf sub (default [] o)) with
                       | Some rows => Some (withoutSubscriber sub (default [] o) ++ rows) | None => nonempty (withoutSubscriber sub (default [] o)) end) o.
Proof.
  intros Ho. destruct o as [rows|]; [|constructor]. simpl. pose proof (split_rows sub rows) as Hp.
  destruct (rowsOf sub rows) as [|x l] eqn:E; simpl; [|by constructor]. rewrite app_nil_r in Hp.
  destruct (withoutSubscriber sub rows) as [|y k] eqn:Ew; simpl; [|by constructor]. apply Permutation_nil_l in Hp. by subst.
Qed.
Lemma subs_ok_nonempty {K} `{Countable K} {O} U (m : gmap K (list (rowOf O))) k : subs_ok U m -> m !! k <> Some [].
Proof. intros Hm E. by destruct (Hm k [] E). Qed.
Lemma rollback_objects {loose} st st' p sub cls : wf_in loose st -> wf_in loose st' -> only_rows sub cls st st' -> rollBack st' p (objectSubscriptionRollback st sub cls) ≡ st.
Proof.
  intros Hw Hw' [Hrest Hother Hothers]. unfold set_objSubs, set_subscriptions in Hrest. injection Hrest as E1 E2 E3 E4 E5 E6 E7 E8 E9 E10 E11 E12 E13 E14 E15 E16. split_and!.
  - clear Hw Hw' Hother Hothers. destruct st, st'. simpl in *. subst. reflexivity.
  - intros k. simpl. rewrite append_fold_lookup by apply NoDup_fst_map_to_list. rewrite list_to_map_to_list, lookup_omap, map_lookup_filter, cleared_lookup by apply NoDup_elements.
    pose proof (subs_ok_nonempty _ _ k (w_obj st Hw)) as Hn. pose proof (subs_ok_nonempty _ _ k (w_obj st' Hw')) as Hn'.
    assert ((if bool_decide (k ∈ elements (dom (objSubs st'))) && (fst k =? cls) then clearRows sub (objSubs st' !! k) else objSubs st' !! k) =
            (if fst k =? cls then nonempty (withoutSubscriber sub (default [] (objSubs st !! k))) else objSubs st !! k)) as ->.
    { destruct (Z.eqb_spec (fst k) cls); [|rewrite andb_false_r; by apply Hother]. rewrite andb_true_r, <- Hothers, <- clearRows_eq by done.
      case_bool_decide as Hk; [done|]. destruct (objSubs st' !! k) eqn:E; [|done]. destruct Hk. apply elem_of_elements, elem_of_dom. by rewrite E. }
    destruct (Z.eqb_spec (fst k) cls) as [Ec|Ec].
    + rewrite nonempty_Some. pose proof (rejoin_rows sub _ Hn) as Hj. destruct (objSubs st !! k) as [rows|]; simpl in *; [|done]. rewrite option_guard_True by done. simpl.
      unfold rows_equiv in *. unfold nonempty in *. destruct (rowsOf sub rows); done.
    + destruct (objSubs st !! k) as [rows|] eqn:E; simpl; [|constructor]. rewrite option_guard_False by done. simpl. by constructor.
  - simpl. rewrite E11. reflexivity.
Qed.
Lemma rollback_interactions {loose} st p sub cls rows : wf_in loose st -> withoutSubscriber sub rows = withoutSubscriber sub (default [] (intSubs st !! cls)) ->
  rollBack (set_intSubs st (put (intSubs st) cls rows)) p (interactionSubscriptionRollback st sub cls) ≡ st.
Proof.
  intros Hw Hothers. pose proof (subs_ok_nonempty _ _ cls (w_int st Hw)) as Hn. split_and!; [done|reflexivity|]. intros k. simpl.
  assert (forall k, removeIntSubLocked (put (intSubs st) cls rows) cls sub !! k =
    if decide (k = cls) then nonempty (withoutSubscriber sub (default [] (intSubs st !! cls))) else intSubs st !! k) as Hc.
  { intros k0. unfold removeIntSubLocked, put. rewrite <- Hothers. destruct rows as [|x l]; simpl; rewrite ?lookup_delete_eq, ?lookup_insert_eq.
    - destruct (decide (k0 = cls)) as [->|]; [by rewrite lookup_delete_eq|by rewrite lookup_delete_ne].
    - unfold nonempty. destruct (withoutSubscriber sub (x :: l)); destruct (decide (k0 = cls)) as [->|];
        rewrite ?lookup_delete_eq, ?lookup_insert_eq, ?lookup_delete_ne, ?lookup_insert_ne by done; done. }
  pose proof (rejoin_rows sub _ Hn) as Hj. destruct (rowsOf sub (default [] (intSubs st !! cls))) as [|x l] eqn:E; simpl in Hj.
  - rewrite Hc. destruct (decide (k = cls)) as [->|]; [done|]. destruct (intSubs st !! k); by constructor.
  - destruct (decide (k = cls)) as [->|].
    + rewrite lookup_insert_eq, Hc. destruct (decide (cls = cls)); [|done]. by rewrite nonempty_Some.
    + rewrite lookup_insert_ne, Hc by done. destruct (decide (k = cls)); [done|]. destruct (intSubs st !! k); by constructor.
Qed.

(** ** The changes of the subscription services *)
(** A change that, when it is made, can be rolled back, and is not made when it
    fails. *)
Definition revocable (c : change (option rollback)) : Prop := forall loose st, wf_in loose st ->
  match c st with
  | (st', Ret (Some w)) => wf_in loose st' /\ address st' = address st /\ forall p, rollBack st' p w ≡ st
  | (st', _) => st' = st
  end.
Lemma fold_only {loose} (f : federationDDMState -> AttributeHandle -> federationDDMState) sub cls rhs :
  (forall st a, wf_in loose st -> Forall (usable st sub) rhs -> wf_in loose (f st a) /\ only_rows sub cls st (f st a)) ->
  forall attrs st, wf_in loose st -> Forall (usable st sub) rhs -> wf_in loose (fold_left f attrs st) /\ only_rows sub cls st (fold_left f attrs st).
Proof.
  intros Hf. induction attrs as [|a attrs IH]; intros st Hw Hu; [done|]. simpl. destruct (Hf st a Hw Hu) as [Hw' Ho].
  destruct (IH (f st a) Hw') as [? ?]; [by rewrite (only_rows_regions _ _ _ _ Ho)|]. split; [done|]. by eapply only_rows_trans.
Qed.
Lemma only_rows_address sub cls st st' : only_rows sub cls st st' -> address st' = address st.
Proof. intros [E _ _]. unfold set_objSubs, set_subscriptions in E. by injection E. Qed.
Lemma subscribeAttributes_revocable sub cls attrs rhs required o : revocable (subscribeAttributes sub cls attrs rhs required o).
Proof.
  intros loose st Hw. unfold subscribeAttributes, checked. destruct (validateObjectRegions _ _ _ _ _) as [u| |] eqn:Hv; [|done..]. simpl. case_bool_decide as Hr; [done|]. simpl.
  apply validateObjectRegions_usable in Hv.
  destruct (fold_only (loose := loose) (fun st a => addObjectSubscriptionLocked st (cls, a) (Row sub rhs (Build_objectOptions (negb (Active o)) (UpdateRateDesignator o)))) sub cls rhs) with (attrs := attrs) (st := st) as [Hw' Ho]; [|done..|].
  - intros st0 a H0 Hu. split; [by apply addObject_wf|by eapply addObject_only].
  - split_and!; [done|exact (only_rows_address sub cls _ _ Ho)|]. intros p. exact (rollback_objects st _ p sub cls Hw Hw' Ho).
Qed.
Lemma unsubscribeAttributes_revocable sub cls attrs rhs required : revocable (unsubscribeAttributes sub cls attrs rhs required).
Proof.
  intros loose st Hw. unfold unsubscribeAttributes, checked. destruct (validateObjectRegions _ _ _ _ _) as [u| |] eqn:Hv; [|done..]. simpl. case_bool_decide as Hr; [done|]. simpl.
  apply validateObjectRegions_usable in Hv.
  destruct (fold_only (loose := loose) (fun st a => removeObjectSubscriptionRegions st (cls, a) sub rhs) sub cls rhs) with (attrs := attrs) (st := st) as [Hw' Ho]; [|done..|].
  - intros st0 a H0 Hu. split; [by apply removeObject_wf|by eapply removeObject_only].
  - split_and!; [done|exact (only_rows_address sub cls _ _ Ho)|]. intros p. exact (rollback_objects st _ p sub cls Hw Hw' Ho).
Qed.
Lemma changeGroup_only {loose} sub cls o g st : wf_in loose st -> g_Regions g <> [] -> Forall (usable st sub) (g_Regions g) ->
  wf_in loose (changeGroup sub cls o st g) /\ only_rows sub cls st (changeGroup sub cls o st g).
Proof.
  intros Hw Hr Hu. unfold changeGroup. apply (fold_only (loose := loose) _ sub cls (g_Regions g)); [|done..].
  intros st0 a H0 Hu0. destruct o as [o|]; split; [by apply addObject_wf|by eapply addObject_only|by apply removeObject_wf|by eapply removeObject_only].
Qed.
Lemma changeGroups_revocable sub cls groups required o : revocable (changeGroups sub cls groups required o).
Proof.
  intros loose st Hw. unfold changeGroups, checked. destruct (validateGroups _ _ _ _) as [u| |] eqn:Hv; [|done..]. simpl. apply validateGroups_usable in Hv.
  assert (Forall (fun g => g_Regions g <> [] /\ Forall (usable st sub) (g_Regions g)) (List.filter effective groups)) as Hgs.
  { apply Forall_forall. intros g Hg. apply list_elem_of_In, filter_In in Hg as [Hg He]. rewrite Forall_forall in Hv. split; [|by apply Hv, list_elem_of_In].
    unfold effective in He. apply andb_true_iff in He as [_ He]. by rewrite negb_true_iff, bool_decide_eq_false in He. }
  assert (wf_in loose (fold_left (changeGroup sub cls o) (List.filter effective groups) st) /\ only_rows sub cls st (fold_left (changeGroup sub cls o) (List.filter effective groups) st)) as [Hw' Ho].
  { clear Hv. revert st Hw Hgs. induction (List.filter effective groups) as [|g gs IH]; intros st Hw Hgs; [done|]. simpl. inversion Hgs as [|? ? [Hn Hu] Hgs']; subst.
    destruct (changeGroup_only sub cls o g st Hw Hn Hu) as [Hw1 Ho1]. destruct (IH _ Hw1) as [? ?]; [by rewrite (only_rows_regions _ _ _ _ Ho1)|].
    split; [done|]. by eapply only_rows_trans. }
  destruct (List.filter effective groups) as [|g gs] eqn:E; [done|]. split_and!; [done|exact (only_rows_address sub cls _ _ Ho)|]. intros p. exact (rollback_objects st _ p sub cls Hw Hw' Ho).
Qed.
Lemma interaction_revocable sub cls rhs context (f : list interactionSubscription -> list interactionSubscription) :
  (forall U rows, rows_ok U rows -> rhs <> [] -> Forall (U sub) rhs -> rows_ok U (f rows) /\ withoutSubscriber sub (f rows) = withoutSubscriber sub rows) ->
  revocable (fun st => checked st (
    _ ← validateRegions st sub rhs context.1 context.2;
    if bool_decide (rhs = []) then Ret (st, None)
    else Ret (set_intSubs st (put (intSubs st) cls (f (default [] (intSubs st !! cls)))), Some (interactionSubscriptionRollback st sub cls)))).
Proof.
  intros Hf loose st Hw. unfold checked. destruct (validateRegions _ _ _ _ _) as [u| |] eqn:Hv; [|done..]. simpl. case_bool_decide as Hr; [done|]. simpl.
  apply validateRegions_usable in Hv. destruct (Hf (usable st) (default [] (intSubs st !! cls))) as [Ho He]; [eapply default_rows_ok, w_int, Hw|done|done|]. split_and!.
  - apply set_intSubs_wf; [done|]. apply (put_ok (fun _ rows => rows <> [] /\ rows_ok (usable st) rows)); [exact (w_int st Hw)|]. by split.
  - done.
  - intros p. exact (rollback_interactions st p sub cls _ Hw He).
Qed.
Lemma subscribeInteraction_revocable sub cls rhs context active : revocable (subscribeInteraction sub cls rhs context active).
Proof.
  pose proof (interaction_revocable sub cls rhs context (fun rows => addRow rows (Row sub rhs (negb active)))) as H.
  intros loose st Hw. specialize (H ltac:(intros U rows Hok Hr Hu; split; [by apply addRow_ok|by eapply withoutSubscriber_add]) loose st Hw). unfold subscribeInteraction.
  unfold put in H. destruct (addRow (default [] (intSubs st !! cls)) (Row sub rhs (negb active))) eqn:E; [|exact H].
  exfalso. unfold addRow in E. destruct (fold_left _ _ _) as [kept added]. by destruct kept.
Qed.
Lemma unsubscribeInteraction_revocable sub cls rhs context : revocable (unsubscribeInteraction sub cls rhs context).
Proof.
  apply (interaction_revocable sub cls rhs context (fun rows => removeSubscriptionRegions rows sub rhs)).
  intros U rows Hok Hr Hu. split; [by apply remove_ok|by eapply withoutSubscriber_remove].
Qed.

(** ** The services *)
Section Services.
Context (opts : Options).
(** What a service with a revocable change does to the manager: the change when
    it returns, and nothing but a refreshed state when it does not. *)
Lemma revocable_service {loose} m f (c : change (option rollback)) interest : revocable c -> wf_in loose (stateFor opts m f) ->
  let origin := address (stateFor opts m f) in
  let mr := locked opts m f c in
  let r := afterInterest mr.1 f (rollbackFor f origin mr.2) (_ ← mr.2; Ret ()) interest in
  exists st', fed (mgr r) = <[f := st']> (fed m) /\ associationRollback (mgr r) = associationRollback m /\ wf_in loose st' /\
    (ret r = Ret () -> st' = (c (stateFor opts m f)).1) /\ (ret r <> Ret () -> st' ≡ stateFor opts m f).
Proof.
  intros Hc Hw. specialize (Hc _ _ Hw). unfold locked. destruct (c (stateFor opts m f)) as [st' res] eqn:E. cbv zeta. simpl fst; simpl snd.
  assert (forall w es v, v <> Ret () -> wf_in loose st' /\ address st' = address (stateFor opts m f) /\ (forall p, rollBack st' p w ≡ stateFor opts m f) ->
    exists st'', fed (mgr (Reply (applyRollback (publish m f st') (Build_pendingRollback f (address (stateFor opts m f)) w)) es v)) = <[f := st'']> (fed m) /\
      associationRollback (applyRollback (publish m f st') (Build_pendingRollback f (address (stateFor opts m f)) w)) = associationRollback m /\ wf_in loose st'' /\
      (v = Ret () -> st'' = st') /\ (v <> Ret () -> st'' ≡ stateFor opts m f)) as Hrefused.
  { intros w es v Hv (Hw' & Ea & Hr). unfold applyRollback. simpl. rewrite lookup_insert_eq, Ea, Z.eqb_refl. simpl. exists (rollBack st' (associationRollback m) w).
    split_and!; [apply insert_insert_eq|done|by rewrite Hr|done|by intros _]. }
  destruct res as [[w|]| |]; simpl.
  - unfold afterInterest. destruct (interest _) as [es [[]| |]]; [|by apply Hrefused..]. exists st'. destruct Hc as (? & ? & ?). by split_and!.
  - subst st'. unfold afterInterest. destruct (interest _) as [es [[]| |]]; exists (stateFor opts m f); by split_and!.
  - subst st'. exists (stateFor opts m f). by split_and!.
  - subst st'. exists (stateFor opts m f). by split_and!.
Qed.
End Services.

(** * Data distribution management: what overlap and routing mean

    Two realizations overlap when they share a dimension and a point of every
    shared one; the recipients of an update are the subscribers with such a
    region.  [commit] and [SetRangeBounds] seen through realizations. *)
(** ** Overlap *)
Definition inRange (r : Range) (x : Z) : Prop := Lower r <= x < Upper r.
Definition meet (a b : regionBounds) : Prop :=
  (exists d, is_Some (a !! d) /\ is_Some (b !! d)) /\
  (forall d ra rb, a !! d = Some ra -> b !! d = Some rb -> exists x, inRange ra x /\ inRange rb x).
Lemma Overlap_point r s : nonemptyRange r -> nonemptyRange s -> Overlap r s = true <-> exists x, inRange r x /\ inRange s x.
Proof.
  unfold nonemptyRange, Overlap, inRange. intros Hr Hs. rewrite orb_true_iff, andb_true_iff, Z.eqb_eq, !Z.ltb_lt. split.
  - intros H. exists (Z.max (Lower r) (Lower s)). lia.
  - intros (x & H1 & H2). lia.
Qed.
Lemma pairLoop_spec l b shared : pairLoop l b shared = true <->
  (shared = true \/ exists d ra, (d, ra) ∈ l /\ is_Some (b !! d)) /\ (forall d ra rb, (d, ra) ∈ l -> b !! d = Some rb -> Overlap ra rb = true).
Proof.
  revert shared. induction l as [|[d ra] l IH]; intros shared; simpl.
  - split; [by intros ->; split; [left|intros ??? []%elem_of_nil]|intros [[->|(? & ? & []%elem_of_nil & _)] _]; done].
  - destruct (b !! d) as [rb|] eqn:E.
    + destruct (Overlap ra rb) eqn:Eo; simpl.
      * rewrite IH. split.
        -- intros [_ H]. split; [right; exists d, ra; split; [by left|by rewrite E]|]. intros d' ra' rb' [[= -> ->]|Hin]%elem_of_cons Eb; [congruence|by eapply H].
        -- intros [_ H]. split; [by left|]. intros d' ra' rb' Hin. apply H. by right.
      * split; [done|]. intros [_ H]. rewrite (H d ra rb) in Eo; [done|by left|done].
    + rewrite IH. split; intros [H1 H2]; (split; [destruct H1 as [?|(d' & ra' & Hin & Hs)]; [by left|]|]).
      * right. exists d', ra'. split; [by right|done].
      * intros d' ra' rb' [[= -> ->]|Hin]%elem_of_cons Eb; [congruence|by eapply H2].
      * right. apply elem_of_cons in Hin as [[= -> ->]|Hin]; [rewrite E in Hs; by destruct Hs|by exists d', ra'].
      * intros d' ra' rb' Hin. apply H2. by right.
Qed.
Definition ranges_ok (a : regionBounds) : Prop := map_Forall (fun _ => nonemptyRange) a.
Lemma regionPairOverlap_meet a b : ranges_ok a -> ranges_ok b -> regionPairOverlap a b = true <-> meet a b.
Proof.
  intros Ha Hb. unfold regionPairOverlap, meet. rewrite pairLoop_spec. split; intros [H1 H2]; split.
  - destruct H1 as [|(d & ra & Hin & Hs)]; [done|]. apply elem_of_map_to_list in Hin. exists d. by rewrite Hin.
  - intros d ra rb Ea Eb. apply Overlap_point; [by apply (Ha d)|by apply (Hb d)|]. apply (H2 d); [by apply elem_of_map_to_list|done].
  - destruct H1 as (d & [ra Ea] & Hs). right. exists d, ra. by rewrite elem_of_map_to_list.
  - intros d ra rb Ea%elem_of_map_to_list Eb. apply Overlap_point; [by apply (Ha d)|by apply (Hb d)|by eapply H2].
Qed.
Lemma regionsOverlap_meet pub sub : Forall ranges_ok pub -> Forall ranges_ok sub -> regionsOverlap pub sub = true <-> exists p s, p ∈ pub /\ s ∈ sub /\ meet p s.
Proof.
  rewrite !Forall_forall. intros Hp Hs. unfold regionsOverlap. rewrite existsb_exists. setoid_rewrite existsb_exists. setoid_rewrite <- list_elem_of_In. split.
  - intros (p & Hin & s & Hin' & H). exists p, s. split_and!; [done..|]. apply regionPairOverlap_meet; [by apply Hp|by apply Hs|done].
  - intros (p & s & Hin & Hin' & H). exists p. split; [done|]. exists s. split; [done|]. apply regionPairOverlap_meet; [by apply Hp|by apply Hs|done].
Qed.

(** ** Realizations *)
Section Realized.
Context {loose : bool} (st : federationDDMState) (Hw : wf_in loose st).
(** The committed ranges of a usable region, and the defaults of the dimensions
    available that it does not specify. *)
Definition realizationOf (available : list DimensionHandle) (strict : bool) (rs : regionState) : regionBounds :=
  if strict then fold_left (withDefault st) available (committed rs) else committed rs.
Lemma withDefault_lookup available bounds d : fold_left (withDefault st) available bounds !! d =
  match bounds !! d with Some r => Some r | None => if decide (d ∈ available) then dimDefaults st !! d else None end.
Proof.
  revert bounds. induction available as [|x l IH]; intros bounds; simpl; [destruct (bounds !! d); by destruct (decide (d ∈ []))|]. rewrite IH.
  unfold withDefault. destruct (bounds !! x) eqn:Ex.
  - destruct (bounds !! d) eqn:Ed; [done|]. destruct (decide (d ∈ l)), (decide (d ∈ x :: l)) as [Hd|Hd]; try done; [exfalso; set_solver|].
    apply elem_of_cons in Hd as [->|]; [congruence|done].
  - destruct (dimDefaults st !! x) as [v|] eqn:Ev.
    + destruct (decide (d = x)) as [->|Hne]; [rewrite lookup_insert_eq, Ex; destruct (decide (x ∈ x :: l)); [done|set_solver]|rewrite lookup_insert_ne by done].
      destruct (bounds !! d); [done|]. destruct (decide (d ∈ l)), (decide (d ∈ x :: l)); try done; exfalso; set_solver.
    + destruct (bounds !! d); [done|]. destruct (decide (d ∈ l)), (decide (d ∈ x :: l)) as [Hd|Hd]; try done; [exfalso; set_solver|]. apply elem_of_cons in Hd as [->|]; done.
Qed.
Lemma realizationOf_ok available strict rs h rh : regionsOf st !! rh = Some rs -> usable st h rh -> ranges_ok (realizationOf available strict rs).
Proof.
  intros E (rs' & E' & _ & Ht). rewrite E in E'. injection E' as <-. pose proof (ro_committed rs (w_regions st Hw rh rs E) Ht) as Hc.
  unfold realizationOf. destruct strict; intros d r Er; [|by eapply Hc]. rewrite withDefault_lookup in Er. destruct (committed rs !! d) eqn:Ed; [injection Er as <-; by eapply Hc|].
  destruct (decide _); [|done]. by apply (w_defaults st Hw d).
Qed.
Lemma realizeOne_region available strict rh rs : regionsOf st !! rh = Some rs -> realizeOne st available strict rh = if template rs then None else Some (realizationOf available strict rs).
Proof.
  intros E. unfold realizeOne, materializeOne. rewrite (w_disjoint st Hw rh) by (by rewrite E). rewrite E. simpl. destruct (template rs); [done|]. simpl.
  unfold realizationOf. by destruct strict.
Qed.
Definition availableTo (cls : ObjectClassHandle) (a : AttributeHandle) : list DimensionHandle * bool :=
  match AttributeDimensions (fom st) with Some dims_ => (dimensionSet (default [] (dims_ cls a)), bool_decide (is_Some (dims_ cls a))) | None => ([], false) end.
(** A template has no realization. *)
Lemma objectRealizations_in cls a rhs b : Forall (fun rh => is_Some (regionsOf st !! rh)) rhs ->
  b ∈ objectRealizations st cls a rhs <->
  exists rh rs, rh ∈ rhs /\ regionsOf st !! rh = Some rs /\ template rs = false /\ b = realizationOf (availableTo cls a).1 (availableTo cls a).2 rs.
Proof.
  rewrite Forall_forall. intros Hu. assert (objectRealizations st cls a rhs = realize st rhs (availableTo cls a).1 (availableTo cls a).2) as ->.
  { unfold objectRealizations, availableTo. destruct (AttributeDimensions (fom st)); [done|]. simpl. unfold materializeRegions, realize.
    apply list_omap_ext, Forall_Forall2_diag, Forall_forall. intros rh _. unfold realizeOne. destruct (materializeOne st rh); simpl; by rewrite ?orb_true_r. }
  unfold realize. rewrite list_elem_of_omap. split.
  - intros (rh & Hin & E). destruct (Hu rh Hin) as [rs Er]. rewrite (realizeOne_region _ _ _ rs Er) in E. destruct (template rs) eqn:Et; [done|]. injection E as <-. by exists rh, rs.
  - intros (rh & rs & Hin & Er & Et & ->). exists rh. split; [done|]. by rewrite (realizeOne_region _ _ _ rs Er), Et.
Qed.
Lemma objectRealizations_ok cls a rhs : Forall (fun rh => is_Some (regionsOf st !! rh)) rhs -> Forall ranges_ok (objectRealizations st cls a rhs).
Proof.
  intros Hu. apply Forall_forall. intros b (rh & rs & Hin & Er & Et & ->)%objectRealizations_in; [|done]. apply (realizationOf_ok _ _ rs (owner rs) rh Er). by exists rs.
Qed.
End Realized.
Lemma subscribersWhere_in {O} (hit : rowOf O -> bool) rows h : h ∈ subscribersWhere hit rows <-> exists row, row ∈ rows /\ subscriber row = h /\ hit row = true.
Proof.
  unfold subscribersWhere. rewrite sortCompact_in, list_elem_of_In, in_map_iff. setoid_rewrite filter_In. setoid_rewrite <- list_elem_of_In. naive_solver.
Qed.
