(* ===== verification/DdmWindow.v ===== *)
(** * Data distribution management: the invariant when regions, receivers and
    federates go

    Deleting a region nobody uses, the leases of conveyed regions, and
    resignation; then the moves of ownership while an admission runs. *)
From stdpp Require Import gmap.
From S2P Require Import Prelude GoBytes FomDimension Ddm DdmRegion DdmSubscribe DdmAssociate DdmRoute DdmInvariant DdmSubscriptionProofs.
Open Scope Z_scope.

Lemma omap_ok {K A} `{Countable K} (P Q : K -> A -> Prop) (f : A -> option A) (m : gmap K A) : map_Forall P m ->
  (forall k x y, P k x -> f x = Some y -> Q k y) -> map_Forall Q (omap f m).
Proof. intros Hm Hf k y. rewrite lookup_omap. intros (x & E & Ef)%bind_Some. by eapply Hf; [apply Hm|]. Qed.
Lemma fmap_ok {K A} `{Countable K} (P Q : K -> A -> Prop) (f : A -> A) (m : gmap K A) : map_Forall P m -> (forall k x, P k x -> Q k (f x)) -> map_Forall Q (f <$> m).
Proof. intros Hm Hf k y. rewrite lookup_fmap. intros (x & E & ->)%fmap_Some_1. apply Hf, Hm, E. Qed.
(** A condition on regions, narrowed to what is there. *)
Lemma rows_ok_narrow {O} (U U' : FederateHandle -> RegionHandle -> Prop) (rows : list (rowOf O)) :
  (forall row rh, row ∈ rows -> rh ∈ regions row -> U (subscriber row) rh -> U' (subscriber row) rh) -> rows_ok U rows -> rows_ok U' rows.
Proof.
  intros HU [Hf Ha]. split; [|done]. rewrite Forall_forall in Hf |- *. intros row Hrow. destruct (Hf row Hrow) as (Hn & Hs & Hu). split_and!; [done..|].
  rewrite Forall_forall in Hu |- *. intros rh Hrh. by apply HU, Hu.
Qed.

(** ** Regions nobody uses *)
Lemma usesRegion_false {K} `{Countable K} {O} (m : gmap K (list (rowOf O))) rh : usesRegion m rh = false <-> forall k rows row, m !! k = Some rows -> row ∈ rows -> rh ∉ regions row.
Proof.
  unfold usesRegion. rewrite <- not_true_iff_false, existsb_exists. split.
  - intros Hn k rows row E Hrow Hrh. apply Hn. exists (k, rows). split; [by apply list_elem_of_In, elem_of_map_to_list|]. simpl.
    apply existsb_exists. exists row. split; [by apply list_elem_of_In|by apply bool_decide_eq_true].
  - intros Hn ([k rows] & Hin & (row & Hrow & Hrh)%existsb_exists). apply list_elem_of_In, elem_of_map_to_list in Hin. apply list_elem_of_In in Hrow. apply bool_decide_eq_true in Hrh. by eapply Hn.
Qed.
Lemma regionInUse_false st rh : regionInUse st rh = false ->
  (forall k rows row, objSubs st !! k = Some rows -> row ∈ rows -> rh ∉ regions row) /\
  (forall k rows row, intSubs st !! k = Some rows -> row ∈ rows -> rh ∉ regions row) /\
  (forall o per a rhs, objPubs st !! o = Some per -> per !! a = Some rhs -> rh ∉ rhs).
Proof.
  unfold regionInUse. rewrite !orb_false_iff, !usesRegion_false. intros [[H1 H2] H3]. split_and!; [done..|]. intros o per a rhs Eo Ea Hrh.
  apply not_true_iff_false in H3. apply H3, existsb_exists. exists (o, per). split; [by apply list_elem_of_In, elem_of_map_to_list|].
  apply existsb_exists. exists (a, rhs). split; [by apply list_elem_of_In, elem_of_map_to_list|by apply bool_decide_eq_true].
Qed.

(** Associations without a region. *)
Lemma withoutRegion_ok (Q Q' : RegionHandle -> Prop) rh per : (forall x, x <> rh -> Q x -> Q' x) -> per_ok Q per -> per_ok Q' (withoutRegion rh per).
Proof.
  intros HQ Hp. eapply omap_ok; [exact Hp|]. intros a rhs l [_ Hf] El. pose proof (remainingRegions_in) as Hin.
  assert (forall x, x ∈ remainingRegions rhs [rh] -> x ∈ rhs /\ x <> rh) as Hr by (intros x Hx; apply Hin in Hx; set_solver).
  destruct (remainingRegions rhs [rh]) as [|y k]; [done|]. injection El as <-. split; [done|]. rewrite Forall_forall in Hf |- *. intros x Hx. destruct (Hr x Hx). by apply HQ, Hf.
Qed.
Lemma pruned_ok (U U' : FederateHandle -> RegionHandle -> Prop) (m : gmap ObjectHandle (gmap FederateHandle associations)) (f : gmap FederateHandle associations -> gmap FederateHandle associations) :
  inactive_ok U m -> (forall rows, rowsInactive_ok U rows -> rowsInactive_ok U' (f rows)) ->
  inactive_ok U' (omap (fun rows => let rows' := pruneInactive (f rows) in if bool_decide (rows' = ∅) then None else Some rows') m).
Proof.
  intros Hm Hf. eapply omap_ok; [exact Hm|]. intros o rows rows' (_ & _ & Hr) E. cbv zeta in E. case_bool_decide; [done|]. injection E as <-.
  destruct (pruneInactive_ok U' (f rows) (Hf rows Hr)). by split_and!.
Qed.
Lemma removeInactive_ok (U U' : FederateHandle -> RegionHandle -> Prop) rh (m : gmap ObjectHandle (gmap FederateHandle associations)) :
  (forall h x, x <> rh -> U h x -> U' h x) -> inactive_ok U m ->
  inactive_ok U' (omap (fun callers => let rows := pruneInactive (withoutRegion rh <$> callers) in if bool_decide (rows = ∅) then None else Some rows) m).
Proof.
  intros HU Hm. apply (pruned_ok U U' m (fmap (withoutRegion rh))); [done|]. intros rows Hr. eapply fmap_ok; [exact Hr|].
  intros c per Hp. eapply withoutRegion_ok; [|exact Hp]. intros. by apply HU.
Qed.
Lemma usable_delete R h x rh : x <> rh -> usableIn R h x -> usableIn (delete rh R) h x.
Proof. intros Hx (rs & E & ?). exists rs. by rewrite lookup_delete_ne. Qed.
Lemma bindable_delete loose R h x rh : x <> rh -> bindableIn loose R h x -> bindableIn loose (delete rh R) h x.
Proof. intros Hx (rs & E & ?). exists rs. by rewrite lookup_delete_ne. Qed.
Lemma deleteRegion_wf {loose} st who rh : wf_in loose st -> wf_in loose (deleteRegion who rh st).1.
Proof.
  intros Hw. unfold deleteRegion. destruct (regionsOf st !! rh) as [rs|] eqn:E; [|done]. destruct (negb _); [done|].
  destruct (regionInUse st rh) eqn:Hu; [done|]. simpl. apply regionInUse_false in Hu as (H1 & H2 & H3).
  pose proof (fun h x => usable_delete (regionsOf st) h x rh) as HU. pose proof (fun h x => bindable_delete loose (regionsOf st) h x rh) as HB. destruct Hw. split; simpl; try done.
  - intros k [[x Ek]|]; [|by apply w_handles; right]. apply lookup_delete_Some in Ek as [_ Ek]. apply w_handles. left. by exists x.
  - intros k [x Ek]. apply lookup_delete_Some in Ek as [_ Ek]. apply w_disjoint. by exists x.
  - by apply map_Forall_delete.
  - intros k rows Ek. destruct (w_obj k rows Ek) as [Hn Hr]. split; [done|]. eapply rows_ok_narrow; [|exact Hr]. intros row x Hrow Hx. apply HU. intros ->. by eapply H1.
  - intros k rows Ek. destruct (w_int k rows Ek) as [Hn Hr]. split; [done|]. eapply rows_ok_narrow; [|exact Hr]. intros row x Hrow Hx. apply HU. intros ->. by eapply H2.
  - intros o per Eo. destruct (w_pubs o per Eo) as [Hn Hp]. split; [done|]. intros a rhs Ea. destruct (Hp a rhs Ea) as [Hne Hf]. split; [done|].
    rewrite Forall_forall in Hf |- *. intros x Hx. destruct (Hf x Hx) as [h Hh]. exists h. apply HB; [|done]. intros ->. by eapply H3.
  - by eapply removeInactive_ok.
Qed.

(** ** Conveyed regions *)
Lemma set_conveyed_wf {loose} st next x y : wf_in loose st -> nextRegionHandle st <= next ->
  (forall rh, is_Some (x !! rh) -> rh <= next /\ regionsOf st !! rh = None) ->
  (forall rh, is_Some (x !! rh) <-> is_Some (y !! rh)) -> map_Forall (fun _ rows => rows <> ∅) y -> wf_in loose (set_conveyed st next x y).
Proof.
  intros [] Hn Hx Hy Hr. split; try done; simpl.
  - intros rh [H|H]; [|by apply Hx]. specialize (w_handles rh (or_introl H)). lia.
  - intros rh [rs E]. destruct (x !! rh) eqn:Ex; [|done]. destruct (Hx rh) as [_ E']; [by rewrite Ex|]. by rewrite E' in E.
Qed.
Lemma conveyed_bound {loose} st rh : wf_in loose st -> is_Some (conveyed st !! rh) -> rh <= nextRegionHandle st /\ regionsOf st !! rh = None.
Proof.
  intros Hw Hs. split; [apply (w_handles st Hw); by right|]. destruct (regionsOf st !! rh) eqn:E; [|done].
  destruct Hs as [s Es]. rewrite (w_disjoint st Hw rh) in Es by (by rewrite E). done.
Qed.
Lemma advance_wf {loose} st next : wf_in loose st -> nextRegionHandle st <= next -> wf_in loose (set_conveyed st next (conveyed st) (conveyedRecipients st)).
Proof.
  intros Hw Hn. apply set_conveyed_wf; [done..| |eapply w_leases, Hw|eapply w_receivers, Hw]. intros rh Hs. destruct (conveyed_bound st rh Hw Hs) as [Hle ?]. split; [simpl in *; lia|done].
Qed.
Lemma releaseLease_wf {loose} receiver st rh : wf_in loose st -> wf_in loose (releaseLease receiver st rh).
Proof.
  intros Hw. unfold releaseLease, pruneConveyedRegion. simpl. pose proof (w_leases st Hw) as Hl. pose proof (w_receivers st Hw) as Hr.
  rewrite lookup_alter_eq. case_bool_decide as E.
  - apply (set_conveyed_wf st); [done..| | |].
    + intros k [s [_ Es]%lookup_delete_Some]. eapply conveyed_bound; [done|by exists s].
    + intros k. destruct (decide (k = rh)) as [->|]; [by rewrite !lookup_delete_eq|by rewrite !lookup_delete_ne, lookup_alter_ne].
    + intros k rows [Hk Ek]%lookup_delete_Some. rewrite lookup_alter_ne in Ek by done. by apply (Hr k).
  - apply (set_conveyed_wf st); [done..| | |].
    + intros k Hk. by eapply conveyed_bound.
    + intros k. rewrite Hl, lookup_alter. case_decide; [subst k; by rewrite fmap_is_Some|done].
    + intros k rows. rewrite lookup_alter. case_decide; [subst k|apply Hr]. intros (x & Ex & ->)%fmap_Some_1. by rewrite Ex in E.
Qed.
Lemma fold_wf {loose} {A} (f : federationDDMState -> A -> federationDDMState) l st : (forall st a, wf_in loose st -> wf_in loose (f st a)) -> wf_in loose st -> wf_in loose (fold_left f l st).
Proof. intros Hf. revert st. induction l as [|a l IH]; intros st Hw; [done|]. by apply IH, Hf. Qed.
Lemma releaseConveyedReceiver_wf {loose} st receiver : wf_in loose st -> wf_in loose (releaseConveyedReceiver st receiver).
Proof. apply fold_wf. intros. by apply releaseLease_wf. Qed.
(** Who holds a lease, after a release. *)
Definition leaseholders (st : federationDDMState) (rh : RegionHandle) : gmap FederateHandle bool := default ∅ (conveyedRecipients st !! rh).
Lemma releaseLease_holders receiver st rh k : leaseholders (releaseLease receiver st rh) k = if decide (k = rh) then delete receiver (leaseholders st k) else leaseholders st k.
Proof.
  unfold releaseLease, pruneConveyedRegion, leaseholders. simpl. rewrite lookup_alter_eq. case_bool_decide as E; simpl.
  - destruct (decide (k = rh)) as [->|]; [|by rewrite lookup_delete_ne, lookup_alter_ne]. rewrite lookup_delete_eq. simpl.
    destruct (conveyedRecipients st !! rh); simpl in *; [done|by rewrite delete_empty].
  - destruct (decide (k = rh)) as [->|]; [|by rewrite lookup_alter_ne]. rewrite lookup_alter_eq. destruct (conveyedRecipients st !! rh); simpl in *; done.
Qed.
Lemma releaseLease_frame receiver st rh : exists x y, releaseLease receiver st rh = set_conveyed st (nextRegionHandle st) x y.
Proof. unfold releaseLease, pruneConveyedRegion. case_bool_decide; by do 2 eexists. Qed.
Lemma releaseConveyedReceiver_frame receiver st : exists x y, releaseConveyedReceiver st receiver = set_conveyed st (nextRegionHandle st) x y.
Proof.
  unfold releaseConveyedReceiver. generalize (elements (dom (conveyedRecipients st))) as l. intros l. revert st. induction l as [|rh l IH]; intros st; simpl.
  - exists (conveyed st), (conveyedRecipients st). by destruct st.
  - destruct (releaseLease_frame receiver st rh) as (x & y & ->). destruct (IH (set_conveyed st (nextRegionHandle st) x y)) as (x' & y' & ->). by do 2 eexists.
Qed.
Lemma releaseConveyedReceiver_holders receiver st rh : leaseholders (releaseConveyedReceiver st receiver) rh = delete receiver (leaseholders st rh).
Proof.
  assert (forall l st, leaseholders (fold_left (releaseLease receiver) l st) rh = if decide (rh ∈ l) then delete receiver (leaseholders st rh) else leaseholders st rh) as H.
  { induction l as [|k l IH]; intros st0; simpl; [by destruct (decide (rh ∈ []))|]. rewrite IH, releaseLease_holders.
    destruct (decide (rh = k)) as [->|Hk]; destruct (decide (_ ∈ l)), (decide (_ ∈ _ :: l)) as [Hc|Hc]; rewrite ?delete_delete_eq; try done; exfalso; set_solver. }
  unfold releaseConveyedReceiver. rewrite H. case_decide as Hd; [done|]. unfold leaseholders.
  rewrite elem_of_elements, not_elem_of_dom in Hd. rewrite Hd. simpl. by rewrite delete_empty.
Qed.

(** ** Resignation *)
(** The pending associations at one place of the table. *)
Definition pendingAt (m : gmap ObjectHandle (gmap FederateHandle associations)) (obj caller a : Z) : option (list RegionHandle) :=
  m !! obj ≫= fun rows => rows !! caller ≫= fun per => per !! a.
Lemma pruned_at f (m : gmap ObjectHandle (gmap FederateHandle associations)) obj caller a :
  pendingAt (omap (fun rows => let rows' := pruneInactive (f rows) in if bool_decide (rows' = ∅) then None else Some rows') m) obj caller a =
  (m !! obj ≫= fun rows => f rows !! caller ≫= fun per => per !! a).
Proof.
  unfold pendingAt. rewrite lookup_omap. destruct (m !! obj) as [rows|]; [|done]. simpl.
  assert ((pruneInactive (f rows) !! caller ≫= fun per : associations => per !! a) = (f rows !! caller ≫= fun per : associations => per !! a)) as <-.
  { unfold pruneInactive. rewrite map_lookup_filter. destruct (f rows !! caller) as [per|]; [|done]. simpl. case_guard as Hg; [done|]. simpl.
    destruct (decide (per = ∅)) as [->|]; [by rewrite lookup_empty|done]. }
  case_bool_decide as E; [|done]. simpl. by rewrite E, lookup_empty.
Qed.
Lemma withoutRegion_at rh (rows : gmap FederateHandle associations) caller a :
  ((withoutRegion rh <$> rows) !! caller ≫= fun per : associations => per !! a) = ((rows !! caller ≫= fun per : associations => per !! a) ≫= fun rhs => nonempty (remainingRegions rhs [rh])).
Proof. rewrite lookup_fmap. destruct (rows !! caller) as [per|]; [|done]. simpl. unfold withoutRegion. rewrite lookup_omap. destruct (per !! a) as [rhs|]; [simpl; by destruct (remainingRegions rhs [rh])|done]. Qed.
Lemma remaining_others rhs rh : rh ∉ rhs -> remainingRegions rhs [rh] = rhs.
Proof.
  intros Hn. unfold remainingRegions. rewrite bool_decide_false by done. induction rhs as [|x l IH]; [done|]. rewrite filter_cons.
  case_decide as Hx; [rewrite IH; [done|set_solver]|exfalso; set_solver].
Qed.
Definition dropRegion (st : federationDDMState) (rh : RegionHandle) : federationDDMState :=
  removeInactiveRegion (set_regionsOf st (nextRegionHandle st) (delete rh (regionsOf st))) rh.
Lemma drop_fold loose l st : inactive_ok (bindable loose st) (inactivePubs st) -> exists R y,
  fold_left dropRegion l st = set_associations (set_regionsOf st (nextRegionHandle st) R) (objPubs st) y /\
  (forall k, R !! k = if decide (k ∈ l) then None else regionsOf st !! k) /\ inactive_ok (bindableIn loose R) y /\
  (forall obj c a, pendingAt (inactivePubs st) obj c a = None -> pendingAt y obj c a = None) /\
  (forall obj c a rhs, pendingAt (inactivePubs st) obj c a = Some rhs -> rhs <> [] -> (forall x, x ∈ rhs -> x ∉ l) -> pendingAt y obj c a = Some rhs).
Proof.
  revert st. induction l as [|rh l IH]; intros st Hi; simpl.
  - exists (regionsOf st), (inactivePubs st). split_and!; [by destruct st| |done..]. intros k. by destruct (decide (k ∈ [])) as [?%elem_of_nil|].
  - destruct (IH (dropRegion st rh)) as (R & y & -> & HR & Hy & Hnone & Hsome); simpl.
    { eapply removeInactive_ok; [|exact Hi]. intros. by apply bindable_delete. }
    exists R, y. split_and!; [done| |done| |].
    + intros k. rewrite HR. simpl. destruct (decide (k ∈ l)), (decide (k ∈ rh :: l)) as [Hk|Hk]; try done; [exfalso; set_solver| |].
      * replace k with rh by set_solver. apply lookup_delete_eq.
      * apply lookup_delete_ne. set_solver.
    + intros obj c a En. apply Hnone. simpl. rewrite (pruned_at (fmap (withoutRegion rh))). unfold pendingAt in En.
      destruct (inactivePubs st !! obj) as [rows|]; [|done]. simpl in En |- *. by rewrite withoutRegion_at, En.
    + intros obj c a rhs Es Hne Hl. apply Hsome; [|done|set_solver]. simpl. rewrite (pruned_at (fmap (withoutRegion rh))). unfold pendingAt in Es.
      destruct (inactivePubs st !! obj) as [rows|]; [|done]. simpl in Es |- *. rewrite withoutRegion_at, Es. simpl. rewrite remaining_others by set_solver. by destruct rhs.
Qed.
(** The steps of a resignation, one table at a time. *)
Definition owned (st : federationDDMState) (h : FederateHandle) : list RegionHandle :=
  filter (fun rh => match regionsOf st !! rh with Some rs => owner rs =? h | None => false end = true) (elements (dom (regionsOf st))).
Lemma owned_in st h rh : rh ∈ owned st h <-> exists rs, regionsOf st !! rh = Some rs /\ owner rs = h.
Proof.
  unfold owned. rewrite list_elem_of_filter, elem_of_elements, elem_of_dom. split.
  - intros [H [rs E]]. rewrite E in H. exists rs. split; [done|]. lia.
  - intros (rs & E & <-). rewrite E. split; [apply Z.eqb_refl|by exists rs].
Qed.
Lemma keepRows_eq {O} st h (rows : list (rowOf O)) :
  keepRows st h rows = shrink (fun row => Row (subscriber row) (keepRegions st (regions row)) (options row)) (withoutSubscriber h rows).
Proof. done. Qed.
Lemma keepRegions_shrinks {O} st : shrinks (fun row : rowOf O => Row (subscriber row) (keepRegions st (regions row)) (options row)).
Proof.
  intros row. simpl. split_and!; [done..| |]; unfold keepRegions; [intros rh [_ H]%list_elem_of_filter; done|apply StronglySorted_filter].
Qed.
Lemma keepRegions_id st rhs : Forall (fun rh => is_Some (regionsOf st !! rh)) rhs -> keepRegions st rhs = rhs.
Proof. unfold keepRegions. induction 1 as [|rh l Hs _ IH]; [done|]. rewrite filter_cons, IH. by destruct (decide _). Qed.
(** The rows of others are untouched when the regions lost are not theirs. *)
Lemma keepRows_others {O} (U : FederateHandle -> RegionHandle -> Prop) st h (rows : list (rowOf O)) : rows_ok U rows ->
  (forall c rh, U c rh -> c <> h -> is_Some (regionsOf st !! rh)) -> keepRows st h rows = withoutSubscriber h rows.
Proof.
  intros [Hf _] HU. rewrite keepRows_eq. unfold shrink, withoutSubscriber. induction Hf as [|row l (Hn & _ & Hu) _ IH]; [done|]. rewrite !filter_cons.
  destruct (decide (subscriber row <> h)) as [Hs|]; [|done]. simpl. rewrite keepRegions_id; [|eapply Forall_impl; [exact Hu|]; intros rh Hrh; by eapply HU].
  rewrite filter_cons. simpl. destruct (decide (regions row <> [])); [|done]. rewrite IH. by destruct row.
Qed.
Lemma keepSubs_ok {K} `{Countable K} {O} (U : FederateHandle -> RegionHandle -> Prop) st h (m : gmap K (list (rowOf O))) : subs_ok U m ->
  (forall c rh, U c rh -> c <> h -> is_Some (regionsOf st !! rh) -> usable st c rh) -> subs_ok (usable st) (omap (fun rows => nonempty (keepRows st h rows)) m).
Proof.
  intros Hm HU. eapply omap_ok; [exact Hm|]. intros k rows y [_ Hr] E. pose proof (keepRegions_shrinks (O := O) st) as Hs.
  assert (rows_ok (usable st) (keepRows st h rows)) as Hok.
  { rewrite keepRows_eq. apply (shrink_ok U); [done|by apply filter_rows_ok|]. simpl. intros row rh Hrow Hrh Hu. unfold withoutSubscriber in Hrow.
    apply list_elem_of_filter in Hrow as [Hrow _]. unfold keepRegions in Hrh. apply list_elem_of_filter in Hrh as [Hrh _]. by apply HU. }
  unfold nonempty in E. destruct (keepRows st h rows); [done|]. injection E as <-. by split.
Qed.
Lemma keepAssociations_ok (Q Q' : RegionHandle -> Prop) st per : per_ok Q per -> (forall rh, Q rh -> is_Some (regionsOf st !! rh) -> Q' rh) -> per_ok Q' (keepAssociations st per).
Proof.
  intros Hp HQ. eapply omap_ok; [exact Hp|]. intros a rhs l [_ Hf] E.
  assert (Forall Q' (keepRegions st rhs)) as Hk.
  { rewrite Forall_forall in Hf |- *. intros rh. unfold keepRegions. intros [Hs Hrh]%list_elem_of_filter. by apply HQ; [apply Hf|]. }
  unfold nonempty in E. destruct (keepRegions st rhs); [done|]. injection E as <-. by split.
Qed.
Section Resign.
Context {loose : bool} (st : federationDDMState) (h : FederateHandle) (Hw : wf_in loose st).
(** What is left of the regions and pending associations, and the resigned
    state in those terms. *)
Lemma resigned_shape : exists R y, let st2 := set_regionsOf (releaseConveyedReceiver st h) (nextRegionHandle st) R in
  (forall rh, R !! rh = (rs ← regionsOf st !! rh; if owner rs =? h then None else Some rs)) /\
  removeFederateState st h =
    set_associations (set_subscriptions st2 (omap (fun rows => nonempty (keepRows st2 h rows)) (objSubs st)) (omap (fun rows => nonempty (keepRows st2 h rows)) (intSubs st)))
      (omap (fun per => let per' := keepAssociations st2 per in if bool_decide (per' = ∅) then None else Some per') (objPubs st)) y /\
  inactive_ok (bindableIn loose R) y /\
  forall obj c a, pendingAt y obj c a = if decide (c = h) then None else pendingAt (inactivePubs st) obj c a.
Proof.
  pose proof (releaseConveyedReceiver_wf st h Hw) as Hw1. destruct (releaseConveyedReceiver_frame h st) as (cx & cy & Ec).
  destruct (drop_fold loose (owned (releaseConveyedReceiver st h) h) _ (w_inactive _ Hw1)) as (R & y & EF & HR & Hy & Hn & Hs).
  exists R, (omap (fun rows => let rows' := pruneInactive (delete h rows) in if bool_decide (rows' = ∅) then None else Some rows') y). cbv zeta. split_and!.
  - intros rh. rewrite HR, Ec. simpl. pose proof (owned_in (releaseConveyedReceiver st h) h rh) as Ho. rewrite Ec in Ho. simpl in Ho.
    destruct (regionsOf st !! rh) as [rs|] eqn:E; simpl; [|by case_decide]. destruct (Z.eqb_spec (owner rs) h), (decide (rh ∈ owned _ h)); naive_solver.
  - unfold removeFederateState. change (fold_left _ _ _) with (fold_left dropRegion (owned (releaseConveyedReceiver st h) h) (releaseConveyedReceiver st h)). rewrite EF, Ec. reflexivity.
  - eapply (pruned_ok (bindableIn loose R) (bindableIn loose R)); [exact Hy|]. intros rows Hr. by apply map_Forall_delete.
  - intros obj c a. rewrite (pruned_at (delete h)). case_decide as Hc; [subst c|].
    + destruct (y !! obj); [|done]. simpl. by rewrite lookup_delete_eq.
    + transitivity (pendingAt y obj c a); [unfold pendingAt; destruct (y !! obj); [simpl; by rewrite lookup_delete_ne|done]|].
      rewrite Ec in Hn, Hs. simpl in Hn, Hs. destruct (pendingAt (inactivePubs st) obj c a) as [rhs|] eqn:E; [|by apply Hn].
      assert (rhs <> [] /\ Forall (bindable loose st c) rhs) as [Hne Hu].
      { unfold pendingAt in E. apply bind_Some in E as (rows & E1 & (per & E2 & E3)%bind_Some). destruct (w_inactive st Hw obj rows E1) as (_ & _ & Hr). exact (Hr c per E2 a rhs E3). }
      apply Hs; [done..|]. intros x Hx Ho. apply owned_in in Ho as (rs & Er & Eo). simpl in Er. rewrite Forall_forall in Hu. destruct (Hu x Hx) as (rs' & Er' & Eo' & _). congruence.
Qed.
Lemma removeFederateState_wf : wf_in loose (removeFederateState st h).
Proof.
  destruct resigned_shape as (R & y & HR & -> & Hy & _). pose proof (releaseConveyedReceiver_wf st h Hw) as Hw1. destruct (releaseConveyedReceiver_frame h st) as (cx & cy & Ec).
  rewrite Ec in Hw1 |- *. destruct Hw1. simpl in *.
  assert (forall rh rs, R !! rh = Some rs -> regionsOf st !! rh = Some rs) as HR1.
  { intros rh rs E. rewrite HR in E. destruct (regionsOf st !! rh) as [r|]; simpl in E; [|done]. destruct (owner r =? h); [done|]. exact E. }
  assert (forall c rh, usable st c rh -> is_Some (R !! rh) -> usableIn R c rh) as HU.
  { intros c rh (rs & E & ?) [r Er]. pose proof (HR1 _ _ Er) as Er'. rewrite E in Er'. injection Er' as <-. by exists rs. }
  assert (forall c rh, bindable loose st c rh -> is_Some (R !! rh) -> bindableIn loose R c rh) as HB.
  { intros c rh (rs & E & ?) [r Er]. pose proof (HR1 _ _ Er) as Er'. rewrite E in Er'. injection Er' as <-. by exists rs. }
  split; simpl; try done.
  - intros rh [[rs E]|H]; apply w_handles; [left|by right]. exists rs. by apply HR1.
  - intros rh [rs E]. apply w_disjoint. exists rs. by apply HR1.
  - intros rh rs E. apply (w_regions rh). by apply HR1.
  - apply (keepSubs_ok (usable st)); [done|]. intros. by apply HU.
  - apply (keepSubs_ok (usable st)); [done|]. intros. by apply HU.
  - eapply omap_ok; [exact w_pubs|]. intros o per per' [_ Hp] E. cbv zeta in E. case_bool_decide as Ep; [done|]. injection E as <-. split; [done|].
    eapply keepAssociations_ok; [exact Hp|]. intros rh [c Hc] Hs. exists c. by apply HB.
Qed.
(** A resigned federate leaves no region, row, association or lease, and
    nothing of the others changes. *)
Lemma resigned_rows {K} `{Countable K} {O} (m : gmap K (list (rowOf O))) R k : subs_ok (usable st) m ->
  (forall rh, R !! rh = (rs ← regionsOf st !! rh; if owner rs =? h then None else Some rs)) ->
  omap (fun rows => nonempty (keepRows (set_regionsOf (releaseConveyedReceiver st h) (nextRegionHandle st) R) h rows)) m !! k =
  (m !! k ≫= fun rows => nonempty (withoutSubscriber h rows)).
Proof.
  intros Hm HR. rewrite lookup_omap. destruct (m !! k) as [rows|] eqn:E; [|done]. simpl. f_equal. apply (keepRows_others (usable st)); [by apply (Hm k rows)|].
  intros c rh (rs & Er & Eo & _) Hc. simpl. rewrite HR, Er. simpl. destruct (Z.eqb_spec (owner rs) h); [congruence|by eexists].
Qed.
End Resign.

(** * Data distribution management: ownership moves while an admission runs

    A change that update rates depend on releases the locks while the rate hook
    decides ([update_rate_hooks.go]); ownership changes and deletions of other
    managers ([association_lifecycle.go]) may come in between.  Here that a
    rollback commutes with them, so that a refused change undoes itself and
    nothing else. *)
(** ** What other managers do *)
Inductive move :=
| OwnershipMoved (obj : ObjectHandle) (before after : gmap AttributeHandle FederateHandle)
| ObjectForgotten (obj : ObjectHandle)
| ObjectFederateForgotten (obj : ObjectHandle) (caller : FederateHandle)
| FederateForgotten (caller : FederateHandle).
Definition moveState (mv : move) (st : federationDDMState) : federationDDMState :=
  match mv with
  | OwnershipMoved obj before after => applyOwnershipChange st obj before after
  | ObjectForgotten obj => forgetObject st obj
  | ObjectFederateForgotten obj caller => forgetObjectFederate st obj caller
  | FederateForgotten caller => forgetFederateAssociations st caller
  end.
Definition moveManager (f : FederationName) (m : Manager) (mv : move) : Manager :=
  match mv with
  | OwnershipMoved obj before after => OwnershipChanged m f obj before after
  | ObjectForgotten obj => ForgetObject m f obj
  | ObjectFederateForgotten obj caller => ForgetObjectFederateAssociations m f caller obj
  | FederateForgotten caller => ForgetFederateAssociations m f caller
  end.
Definition touches (mv : move) (obj : ObjectHandle) : bool :=
  match mv with OwnershipMoved o _ _ | ObjectForgotten o | ObjectFederateForgotten o _ => o =? obj | FederateForgotten _ => true end.
Definition moveProjection (f : FederationName) (mv : move) (st : federationDDMState) (p : associationRollbackProjection) : associationRollbackProjection :=
  if String.eqb (p_fed p) f && touches mv (p_object p) && (p_origin p =? address st) then set_shadow p (moveState mv (shadowed p st)) else p.
Lemma moveManager_eq f m mv st : fed m !! f = Some st ->
  fed (moveManager f m mv) = <[f := moveState mv st]> (fed m) /\ associationRollback (moveManager f m mv) = moveProjection f mv st <$> associationRollback m.
Proof.
  intros E. destruct mv; simpl; unfold OwnershipChanged, ForgetObject, ForgetObjectFederateAssociations, ForgetFederateAssociations, onObject, rollbackState, moveProjection; rewrite E;
    destruct (associationRollback m) as [p|] eqn:Ep; simpl; rewrite ?(Z.eqb_sym _ (p_object p)), ?andb_true_r;
    repeat match goal with |- context [if ?b then _ else _] => destruct b; simpl end; (split; [done|rewrite ?Ep; done]).
Qed.

(** ** A move as a function of the associations of each instance *)
Abbreviation slot := (option associations * option (gmap FederateHandle associations))%type.
Definition slotOf (st : federationDDMState) (o : ObjectHandle) : slot := (objPubs st !! o, inactivePubs st !! o).
Definition keepMap {K A} `{Countable K} (x : gmap K A) : option (gmap K A) := if bool_decide (x = ∅) then None else Some x.
Definition slotMove (mv : move) (made : FederateHandle -> list RegionHandle -> bool) (o : ObjectHandle) (s : slot) : slot :=
  if negb (touches mv o) then s
  else
    match mv with
    | OwnershipMoved obj before after =>
        let (per, rows) := fold_left (transferAttribute obj before after) (elements (dom before)) (default ∅ s.1, default ∅ s.2) in
        (keepMap per, keepMap (pruneInactive rows))
    | ObjectForgotten _ => (None, None)
    | ObjectFederateForgotten _ caller => (s.1, keepMap (pruneInactive (delete caller (default ∅ s.2))))
    | FederateForgotten caller =>
        (s.1 ≫= fun per => keepMap (filter (fun ar => made caller ar.2 = false) per), s.2 ≫= fun rows => keepMap (pruneInactive (delete caller rows)))
    end.
Lemma putMap_lookup {K K' A} `{Countable K} `{Countable K'} (m : gmap K (gmap K' A)) k x o : putMap m k x !! o = if decide (o = k) then keepMap x else m !! o.
Proof. unfold putMap, keepMap. case_bool_decide; destruct (decide (o = k)) as [->|]; by rewrite ?lookup_delete_eq, ?lookup_insert_eq, ?lookup_delete_ne, ?lookup_insert_ne by done. Qed.
Lemma keepMap_default {K A} `{Countable K} (x : gmap K A) : default ∅ (keepMap x) = x.
Proof. unfold keepMap. by case_bool_decide. Qed.
Lemma keepMap_if {K A} `{Countable K} (x : gmap K A) (d : Decision (x = ∅)) : (if @bool_decide _ d then None else Some x) = keepMap x.
Proof. unfold keepMap. by do 2 case_bool_decide. Qed.
Lemma moveState_slot mv st o : slotOf (moveState mv st) o = slotMove mv (madeBy st) o (slotOf st o).
Proof.
  destruct mv as [obj before after|obj|obj caller|caller]; unfold slotMove, touches, slotOf, moveState.
  - unfold applyOwnershipChange. destruct (Z.eqb_spec obj o) as [->|Ho]; simpl.
    + destruct (fold_left _ _ _) as [per rows]. simpl. rewrite !putMap_lookup. by destruct (decide (o = o)).
    + destruct (fold_left _ _ _) as [per rows]. simpl. rewrite !putMap_lookup. by destruct (decide (o = obj)).
  - simpl. destruct (Z.eqb_spec obj o) as [->|Ho]; simpl; [by rewrite !lookup_delete_eq|by rewrite !lookup_delete_ne].
  - simpl. rewrite putMap_lookup. destruct (Z.eqb_spec obj o) as [->|Ho]; simpl; [by destruct (decide (o = o))|by destruct (decide (o = obj))].
  - unfold forgetFederateAssociations. destruct (releaseConveyedReceiver_frame caller st) as (x & y & ->). simpl. rewrite !lookup_omap.
    f_equal; [destruct (objPubs st !! o)|destruct (inactivePubs st !! o)]; try done; apply keepMap_if.
Qed.
Lemma slotMove_made mv made made' o s : (forall c rhs, made c rhs = made' c rhs) -> slotMove mv made o s = slotMove mv made' o s.
Proof.
  intros E. unfold slotMove. destruct (touches mv o); [|done]. destruct mv as [| | |caller]; try done. simpl. f_equal. destruct (s.1) as [per|]; [|done]. simpl. f_equal.
  apply map_filter_ext. intros a rhs _. simpl. by rewrite E.
Qed.
(** An instance without pending associations has no entry. *)
Definition tidy (s : slot) : slot := (s.1, keepMap (default ∅ s.2)).
Lemma prune_delete_empty (caller : FederateHandle) : keepMap (pruneInactive (delete caller (∅ : gmap FederateHandle associations))) = None.
Proof. rewrite delete_empty. unfold pruneInactive. by rewrite map_filter_empty. Qed.
Lemma slotMove_tidy mv made o s : slotMove mv made o (tidy s) = tidy (slotMove mv made o s).
Proof.
  unfold slotMove. destruct (touches mv o); [|done]. destruct s as [a b]. destruct mv as [obj before after| |obj caller|caller]; unfold tidy; simpl; rewrite ?keepMap_default; try done.
  - destruct (fold_left _ _ _) as [per rows]. simpl. by rewrite keepMap_default.
  - f_equal. destruct b as [rows|]; [|done]. simpl. rewrite keepMap_default.
    destruct (decide (rows = ∅)) as [->|Hn]; [by rewrite prune_delete_empty|]. replace (keepMap rows) with (Some rows); [done|]. unfold keepMap. by case_bool_decide.
Qed.

(** ** A rollback commutes with a move *)
Lemma release_associations caller st x y : releaseConveyedReceiver (set_associations st x y) caller = set_associations (releaseConveyedReceiver st caller) x y.
Proof.
  unfold releaseConveyedReceiver. simpl. generalize (elements (dom (conveyedRecipients st))) as l. intros l. revert st. induction l as [|rh l IH]; intros st; [done|].
  simpl. rewrite <- IH. f_equal. unfold releaseLease, pruneConveyedRegion. simpl. by case_bool_decide.
Qed.
Lemma release_subscriptions caller st x y : releaseConveyedReceiver (set_subscriptions st x y) caller = set_subscriptions (releaseConveyedReceiver st caller) x y.
Proof.
  unfold releaseConveyedReceiver. simpl. generalize (elements (dom (conveyedRecipients st))) as l. intros l. revert st. induction l as [|rh l IH]; intros st; [done|].
  simpl. rewrite <- IH. f_equal. unfold releaseLease, pruneConveyedRegion. simpl. by case_bool_decide.
Qed.
Lemma release_regions caller st R : releaseConveyedReceiver (set_regionsOf st (nextRegionHandle st) R) caller = set_regionsOf (releaseConveyedReceiver st caller) (nextRegionHandle st) R.
Proof.
  unfold releaseConveyedReceiver. simpl. generalize (elements (dom (conveyedRecipients st))) as l. intros l. revert st. induction l as [|rh l IH]; intros st; [done|].
  simpl. destruct (releaseLease_frame caller st rh) as (x & y & E). rewrite E. specialize (IH (set_conveyed st (nextRegionHandle st) x y)). simpl in IH. rewrite <- IH. f_equal.
  unfold releaseLease, pruneConveyedRegion in E |- *. simpl in E |- *. case_bool_decide; by injection E as <- <-.
Qed.
(** Two states with the same fields and the same slots. *)
Lemma state_ext st st' : set_associations st ∅ ∅ = set_associations st' ∅ ∅ -> (forall o, slotOf st o = slotOf st' o) -> st = st'.
Proof.
  intros E Hs. assert (objPubs st = objPubs st' /\ inactivePubs st = inactivePubs st') as [E1 E2].
  { split; apply map_eq; intros o; specialize (Hs o); unfold slotOf in Hs; congruence. }
  destruct st, st'. unfold set_associations in E. simpl in *. injection E as. by subst.
Qed.
Lemma move_subscriptions mv st x y : moveState mv (set_subscriptions st x y) = set_subscriptions (moveState mv st) x y.
Proof.
  destruct mv as [obj before after| | |caller]; try done; simpl.
  - unfold applyOwnershipChange. simpl. by destruct (fold_left _ _ _).
  - unfold forgetFederateAssociations. rewrite release_subscriptions. reflexivity.
Qed.
(** What a move does outside the associations does not depend on them. *)
Lemma move_associations mv st x y : set_associations (moveState mv (set_associations st x y)) ∅ ∅ = set_associations (moveState mv st) ∅ ∅.
Proof.
  destruct mv as [obj before after| | |caller]; try done; simpl.
  - unfold applyOwnershipChange. simpl. by do 2 destruct (fold_left _ _ _).
  - unfold forgetFederateAssociations. rewrite release_associations. reflexivity.
Qed.
Lemma move_frame mv st : regionsOf (moveState mv st) = regionsOf st /\ objSubs (moveState mv st) = objSubs st /\ intSubs (moveState mv st) = intSubs st /\ address (moveState mv st) = address st /\ nextRegionHandle (moveState mv st) = nextRegionHandle st.
Proof.
  destruct mv as [obj before after| | |caller]; try by split_and!.
  - simpl. unfold applyOwnershipChange. by destruct (fold_left _ _ _).
  - simpl. unfold forgetFederateAssociations. by destruct (releaseConveyedReceiver_frame caller st) as (x & y & ->).
Qed.
Lemma madeBy_owners st st' c rhs : (forall rh, owner <$> regionsOf st !! rh = owner <$> regionsOf st' !! rh) -> madeBy st c rhs = madeBy st' c rhs.
Proof. intros E. unfold madeBy. destruct rhs as [|rh l]; [done|]. specialize (E rh). destruct (regionsOf st !! rh), (regionsOf st' !! rh); simpl in E; congruence. Qed.
Lemma move_regions mv st R : (forall rh, owner <$> R !! rh = owner <$> regionsOf st !! rh) ->
  moveState mv (set_regionsOf st (nextRegionHandle st) R) = set_regionsOf (moveState mv st) (nextRegionHandle st) R.
Proof.
  intros E. apply state_ext.
  - destruct mv as [obj before after| | |caller]; try done; simpl.
    + unfold applyOwnershipChange. simpl. by destruct (fold_left _ _ _).
    + unfold forgetFederateAssociations. rewrite release_regions. by destruct (releaseConveyedReceiver_frame caller st) as (x & y & ->).
  - intros o. rewrite moveState_slot. change (slotOf (set_regionsOf (moveState mv st) _ R) o) with (slotOf (moveState mv st) o). rewrite moveState_slot.
    apply slotMove_made. intros c rhs. by apply madeBy_owners.
Qed.
Lemma rollBack_slot st p obj o : slotOf (rollBack st (Some p) (RollAssociation obj)) o = if decide (o = obj) then tidy (slotOf (shadow p) obj) else slotOf st o.
Proof.
  unfold slotOf, tidy. simpl. rewrite putMap_lookup. destruct (decide (o = obj)) as [->|]; [|destruct (objPubs (shadow p) !! obj); by rewrite ?lookup_insert_ne, ?lookup_delete_ne by done].
  destruct (objPubs (shadow p) !! obj) eqn:E; by rewrite ?lookup_insert_eq, ?lookup_delete_eq.
Qed.
Lemma moved_shadow f mv st p : p_fed p = f -> p_origin p = address st ->
  slotOf (shadow (moveProjection f mv st p)) (p_object p) = slotMove mv (madeBy st) (p_object p) (slotOf (shadow p) (p_object p)).
Proof.
  intros Ef Eo. unfold moveProjection. rewrite Ef, String.eqb_refl, Eo, Z.eqb_refl, andb_true_r. simpl. destruct (touches mv (p_object p)) eqn:Et; simpl; [|unfold slotMove; by rewrite Et].
  rewrite moveState_slot. apply slotMove_made. done.
Qed.
(** The projection of an association rollback is that of its instance. *)
Definition projects (f : FederationName) (st : federationDDMState) (proj : option associationRollbackProjection) (w : rollback) : Prop :=
  match w with RollAssociation obj => exists p, proj = Some p /\ p_fed p = f /\ p_object p = obj /\ p_origin p = address st | _ => True end.
Lemma rollBack_move f mv st proj w : projects f st proj w -> rollBack (moveState mv st) (moveProjection f mv st <$> proj) w = moveState mv (rollBack st proj w).
Proof.
  destruct (move_frame mv st) as (ER & EO & EI & EA & EN). destruct w as [saved|obj|sub cls previous|sub cls previous]; simpl.
  - intros _. unfold restoreRanges. rewrite ER, EN, move_regions; [done|]. intros rh. rewrite map_lookup_imap. destruct (regionsOf st !! rh) as [rs|]; [|done]. simpl. by destruct (saved !! rh).
  - intros (p & -> & Ef & <- & Eo). apply state_ext.
    + symmetry. etrans; [apply (move_associations mv st)|]. done.
    + intros o. rewrite moveState_slot. change (Some (moveProjection f mv st p)) with (Some (moveProjection f mv st p)). simpl.
      pose proof (rollBack_slot (moveState mv st) (moveProjection f mv st p) (p_object p) o) as H1. pose proof (rollBack_slot st p (p_object p) o) as H2. simpl in H1, H2. rewrite H1, H2.
      rewrite (slotMove_made mv _ (madeBy st)) by done. destruct (decide (o = p_object p)) as [->|]; [by rewrite moved_shadow, slotMove_tidy|apply moveState_slot].
  - intros _. unfold set_objSubs. rewrite EO, EI. symmetry. apply move_subscriptions.
  - intros _. unfold set_intSubs. rewrite EO, EI. symmetry. apply move_subscriptions.
Qed.
Definition moves (l : list move) (st : federationDDMState) : federationDDMState := fold_left (fun st mv => moveState mv st) l st.
Lemma rollback_after_moves f l m st w : fed m !! f = Some st -> projects f st (associationRollback m) w ->
  exists st', fed (fold_left (moveManager f) l m) = <[f := st']> (fed m) /\ address st' = address st /\
    rollBack st' (associationRollback (fold_left (moveManager f) l m)) w = moves l (rollBack st (associationRollback m) w).
Proof.
  revert m st. induction l as [|mv l IH]; intros m st E Hp; simpl; [exists st; by rewrite insert_id|].
  destruct (moveManager_eq f m mv st E) as [E1 E2]. destruct (move_frame mv st) as (_ & _ & _ & EA & _).
  destruct (IH (moveManager f m mv) (moveState mv st)) as (st' & F1 & F2 & F3).
  - by rewrite E1, lookup_insert_eq.
  - rewrite E2. destruct w as [|obj| |]; try done. destruct Hp as (p & -> & ? & ? & ?). exists (moveProjection f mv st p). rewrite EA. unfold moveProjection.
    simpl. destruct (_ && _); by split_and!.
  - exists st'. rewrite F1, E1, insert_insert_eq. split_and!; [done|congruence|]. by rewrite F3, E2, (rollBack_move f).
Qed.
#[export] Instance moveState_proper mv : Proper ((≡) ==> (≡)) (moveState mv).
Proof.
  intros st st' (E & EO & EI). destruct (move_frame mv st) as (_ & FO & FI & _), (move_frame mv st') as (_ & FO' & FI' & _). split_and!; [|by rewrite FO, FO'|by rewrite FI, FI'].
  by rewrite <- !move_subscriptions, E.
Qed.
#[export] Instance moves_proper l : Proper ((≡) ==> (≡)) (moves l).
Proof. unfold moves. induction l as [|mv l IH]; intros st st' E; [done|]. simpl. apply IH. by rewrite E. Qed.

(** ** What an association service changes *)
Lemma changeGroup_slot st obj caller g owners mode : set_associations (changeAssociationGroup st obj caller g owners mode) ∅ ∅ = set_associations st ∅ ∅ /\
  forall o, o <> obj -> slotOf (changeAssociationGroup st obj caller g owners mode) o = slotOf st o.
Proof.
  unfold changeAssociationGroup. destruct (fold_left _ _ _) as [per rows]. split; [done|]. intros o Ho. unfold slotOf. simpl. rewrite !putMap_lookup. by destruct (decide (o = obj)).
Qed.
Lemma changeAssociations_only caller obj groups owners required mode st st' b : changeAssociations caller obj groups owners required mode st = (st', Ret b) ->
  set_associations st' ∅ ∅ = set_associations st ∅ ∅ /\ forall o, o <> obj -> slotOf st' o = slotOf st o.
Proof.
  unfold changeAssociations, checked. destruct (validateGroups _ _ _ _) as [u| |]; [|done..]. simpl. destruct (_ && _).
  - intros [= <- <-]. split; [done|]. intros o Ho. unfold slotOf. simpl. rewrite !putMap_lookup. by destruct (decide (o = obj)).
  - destruct (List.filter (changesAssociations mode) groups) as [|g gs]; intros [= <- <-]; [done|].
    change (fold_left _ gs _) with (fold_left (fun st g => changeAssociationGroup st obj caller g owners mode) (g :: gs) st).
    generalize (g :: gs) as l. clear. intros l. revert st. induction l as [|g l IH]; intros st; [done|]. simpl. destruct (IH (changeAssociationGroup st obj caller g owners mode)) as [E1 E2].
    destruct (changeGroup_slot st obj caller g owners mode) as [F1 F2]. split; [congruence|]. intros o Ho. rewrite E2, F2; done.
Qed.
(** Undone at once, it leaves no trace. *)
Lemma rollback_association {loose} st st' f obj origin : wf_in loose st -> set_associations st' ∅ ∅ = set_associations st ∅ ∅ -> (forall o, o <> obj -> slotOf st' o = slotOf st o) ->
  rollBack st' (Some (Build_associationRollbackProjection f obj origin (associationShadow st obj))) (RollAssociation obj) = st.
Proof.
  intros Hw E Hs. apply state_ext; [exact E|]. intros o. rewrite rollBack_slot. destruct (decide (o = obj)) as [->|]; [|by apply Hs].
  assert (forall rows, inactivePubs st !! obj = Some rows -> rows <> ∅) as Hi by (intros rows Ei; by destruct (w_inactive st Hw obj rows Ei)).
  unfold slotOf, tidy, associationShadow. simpl. f_equal.
  - destruct (objPubs st !! obj); [by rewrite lookup_singleton_eq|by rewrite lookup_empty].
  - rewrite putMap_lookup. destruct (decide (obj = obj)); [|done]. rewrite keepMap_default. destruct (inactivePubs st !! obj) as [rows|]; [|done]. simpl.
    unfold keepMap. specialize (Hi rows eq_refl). by case_bool_decide.
Qed.

(** ** A refused change *)
Section Refused.
Context (opts : Options) (ports : AssociationPorts) (f : FederationName).
Inductive subscription_change : change (option rollback) -> Prop :=
| sub_attributes sub cls attrs rhs required o : subscription_change (subscribeAttributes sub cls attrs rhs required o)
| unsub_attributes sub cls attrs rhs required : subscription_change (unsubscribeAttributes sub cls attrs rhs required)
| change_groups sub cls groups required o : subscription_change (changeGroups sub cls groups required o)
| sub_interaction sub cls rhs context active : subscription_change (subscribeInteraction sub cls rhs context active)
| unsub_interaction sub cls rhs context : subscription_change (unsubscribeInteraction sub cls rhs context).
(** A change under the lock, and the rollback it leaves to the hook. *)
Inductive rate_change (m : Manager) : Manager -> pendingRollback -> Prop :=
| rate_commit who rhs m' w : locked opts m f (commitRegions who rhs) = (m', Ret w) -> rate_change m m' (Build_pendingRollback f (address (stateFor opts m f)) w)
| rate_subscription c m' w : subscription_change c -> locked opts m f c = (m', Ret (Some w)) -> rate_change m m' (Build_pendingRollback f (address (stateFor opts m f)) w)
| rate_association caller obj groups mode m' rb : beginAssociation opts ports m f caller obj groups mode = (m', Some rb, Ret ()) -> rate_change m m' rb.
Lemma subscription_revocable c : subscription_change c -> revocable c.
Proof.
  destruct 1; [apply subscribeAttributes_revocable|apply unsubscribeAttributes_revocable|apply changeGroups_revocable|apply subscribeInteraction_revocable|apply unsubscribeInteraction_revocable].
Qed.
(** It saves the rows of a subscriber. *)
Definition savesRows (w : rollback) : Prop := match w with RollObjectSubs _ _ _ | RollInteractionSubs _ _ _ => True | _ => False end.
Lemma subscription_saves c st st' w : subscription_change c -> c st = (st', Ret (Some w)) -> savesRows w.
Proof.
  destruct 1; unfold subscribeAttributes, unsubscribeAttributes, changeGroups, subscribeInteraction, unsubscribeInteraction, checked;
    (destruct (validateObjectRegions _ _ _ _ _) || destruct (validateGroups _ _ _ _) || destruct (validateRegions _ _ _ _ _)); simpl; try done; try case_bool_decide; try destruct (List.filter effective groups); by intros [= _ <-].
Qed.
(** What a change leaves: its state, and how to get back. *)
Lemma rate_change_spec {loose} m m' rb : wf_in loose (stateFor opts m f) -> rate_change m m' rb -> exists st,
  r_fed rb = f /\ r_origin rb = address (stateFor opts m f) /\ fed m' = <[f := st]> (fed m) /\ address st = address (stateFor opts m f) /\
  projects f st (associationRollback m') (r_what rb) /\ rollBack st (associationRollback m') (r_what rb) ≡ stateFor opts m f.
Proof.
  intros Hw. destruct 1 as [who rhs m' w E|c m' w Hc E|caller obj groups mode m' rb E].
  - unfold locked, commitRegions, checked in E. destruct (checkAll _ rhs); [|done..]. simpl in E. injection E as <- <-. simpl. eexists. split_and!; [done..| |done|].
    + clear. generalize (stateFor opts m f) as st. induction rhs as [|rh l IH]; intros st; [done|]. simpl. rewrite IH. by destruct (commitOne_frame st rh) as (R & -> & _).
    + by rewrite restoreRanges_commit.
  - pose proof (subscription_revocable c Hc _ _ Hw) as Hr. unfold locked in E. destruct (c (stateFor opts m f)) as [st r] eqn:Ec. injection E as <- ->. destruct Hr as (_ & Ea & Hr). simpl.
    exists st. split_and!; [done..| |apply Hr]. pose proof (subscription_saves c _ _ _ Hc Ec). by destruct w.
  - unfold beginAssociation in E. destruct (prepareAssociationGroups _ _ _ _ _ _ _) as [[[gs owners] required]| |]; [|done..].
    unfold locked in E. destruct (changeAssociations _ _ _ _ _ _ _) as [st [[|]| |]] eqn:Ec; try done. injection E as <- <-. simpl.
    apply changeAssociations_only in Ec as [E1 E2]. exists st. assert (address st = address (stateFor opts m f)) as Ea by exact (f_equal address E1).
    split_and!; [done..| |]. { eexists. by split_and!. } pose proof (rollback_association (stateFor opts m f) st f obj (address (stateFor opts m f)) Hw E1 E2) as Er. simpl in Er. by rewrite Er.
Qed.
(** C12: a change of regions, subscriptions or associations that its hook
    refuses undoes exactly itself.  Whatever ownership changes and deletions came
    while the hook ran, the federation ends as if they alone had happened, up to
    the order of the rows of a subscription table, and no other federation is
    touched. *)
Theorem refused_change_undone {loose} m m' rb l : wf_in loose (stateFor opts m f) -> rate_change m m' rb -> exists st,
  fed (applyRollback (fold_left (moveManager f) l m') rb) = <[f := st]> (fed m) /\ st ≡ moves l (stateFor opts m f).
Proof.
  intros Hw Hc. destruct (rate_change_spec m m' rb Hw Hc) as (st & Ef & Eo & Em & Ea & Hp & Hr).
  destruct (rollback_after_moves f l m' st (r_what rb)) as (st' & F & Fa & Fr); [by rewrite Em, lookup_insert_eq|done|].
  unfold applyRollback. rewrite Ef, F, lookup_insert_eq, Fa, Ea, Eo, Z.eqb_refl. simpl. rewrite F, Em, !insert_insert_eq. eexists. split; [done|]. by rewrite Fr, Hr.
Qed.
End Refused.
