(* ===== verification/DdmReach.v ===== *)
(** * Data distribution management: reachable states

    The services as steps of a manager with at most one admission being decided
    ([Manager.subscriptionMu]).  While it is, every service under [Manager.mu]
    alone may run, a registration among them, and ownership changes and deletions
    come in; the services that take [subscriptionMu] wait.  The invariant holds at
    every point, and would hold after a rollback: a service that runs in between
    leaves what the rollback needs ([beside]).  Saved states are imported elsewhere
    ([DdmRestore]). *)
From stdpp Require Import gmap.
From S2P Require Import Prelude GoBytes FomDimension Ddm DdmRegion DdmSubscribe DdmAssociate DdmRoute DdmInvariant DdmSubscriptionProofs DdmWindow.
Open Scope Z_scope.

Definition preserves {A} (c : change A) : Prop := forall loose st, wf_in loose st -> wf_in loose (c st).1.
Lemma checked_preserves {A} (r : federationDDMState -> outcome ddm_error (federationDDMState * A)) :
  (forall loose st st' a, wf_in loose st -> r st = Ret (st', a) -> wf_in loose st') -> preserves (fun st => checked st (r st)).
Proof. intros H loose st Hw. unfold checked. destruct (r st) as [[st' a]| |] eqn:E; [by eapply H|done..]. Qed.

(** ** Associations *)
Lemma changeAssociations_wf caller obj groups owners required mode : preserves (changeAssociations caller obj groups owners required mode).
Proof.
  apply checked_preserves. intros loose st st' b Hw (u & Hv & E)%bind_Ret_inv. apply validateGroups_usable in Hv.
  destruct (_ && _); [injection E as <- <-; by apply clearObjectAssociations_wf|].
  assert (Forall (fun g => (mode = associationAdd -> g_Regions g <> []) /\ Forall (usable st caller) (g_Regions g)) (List.filter (changesAssociations mode) groups)) as Hg.
  { apply Forall_forall. intros g Hg. apply list_elem_of_In, filter_In in Hg as [Hg Hc]. rewrite Forall_forall in Hv. split; [|by apply Hv, list_elem_of_In].
    intros ->. unfold changesAssociations in Hc. apply andb_true_iff in Hc as [_ Hc]. by case_bool_decide. }
  assert (wf_in loose (fold_left (fun st g => changeAssociationGroup st obj caller g owners mode) (List.filter (changesAssociations mode) groups) st)) as Hw'.
  { clear -Hw Hg. revert st Hw Hg. induction (List.filter (changesAssociations mode) groups) as [|g gs IH]; intros st Hw Hg; [done|]. simpl. inversion Hg as [|? ? [Hn Hu] Hgs]; subst.
    apply IH; [by apply changeAssociationGroup_wf|]. destruct (changeGroup_slot st obj caller g owners mode) as [E _]. apply (f_equal regionsOf) in E. simpl in E. by rewrite E. }
  destruct (List.filter (changesAssociations mode) groups); injection E as <- <-; done.
Qed.
Lemma forgetFederateAssociations_wf {loose} st caller : wf_in loose st -> wf_in loose (forgetFederateAssociations st caller).
Proof.
  intros Hw. apply (releaseConveyedReceiver_wf st caller) in Hw. unfold forgetFederateAssociations. revert Hw. generalize (releaseConveyedReceiver st caller) as s. intros s Hw.
  apply (set_associations_wf (set_associations s _ _)); [apply set_associations_wf; [done| |eapply w_inactive, Hw]| |].
  - eapply omap_ok; [exact (w_pubs s Hw)|]. intros o per per' [_ Hp] E. cbv zeta in E. case_bool_decide; [done|]. injection E as <-. split; [done|by apply filter_per_ok].
  - simpl. eapply omap_ok; [exact (w_pubs s Hw)|]. intros o per per' [_ Hp] E. cbv zeta in E. case_bool_decide; [done|]. injection E as <-. split; [done|by apply filter_per_ok].
  - simpl. eapply (pruned_ok (bindable loose s) (bindable loose s)); [exact (w_inactive s Hw)|]. intros rows Hr. by apply map_Forall_delete.
Qed.
Lemma moveState_wf {loose} mv st : wf_in loose st -> wf_in loose (moveState mv st).
Proof.
  intros Hw. destruct mv; simpl; [by apply applyOwnershipChange_wf|by apply forgetObject_wf|by apply forgetObjectFederate_wf|by apply forgetFederateAssociations_wf].
Qed.

(** ** Associations made with an instance *)
Lemma copy_ok Q groups allowEmpty copied c : Forall (fun g => Forall Q (g_Regions g)) groups -> per_ok Q copied ->
  copyRegistrationGroups copied groups allowEmpty = Ret c -> per_ok Q c.
Proof.
  intros Hg. revert copied. induction Hg as [|g gs Hq _ IH]; intros copied Hp; simpl.
  - intros [= <-]. eapply fmap_ok; [exact Hp|]. intros a rhs [Hn Hf]. split.
    + intros E. destruct rhs as [|r l]; [done|]. pose proof (proj2 (sortCompact_in (r :: l) r) ltac:(by left)) as Hi. rewrite E in Hi. by apply elem_of_nil in Hi.
    + rewrite Forall_forall in Hf |- *. intros rh. rewrite sortCompact_in. apply Hf.
  - destruct (g_Regions g) as [|r l] eqn:Er; [destruct (_ && _); [done|]; by apply IH|]. apply IH. clear -Hq Hp. revert copied Hp.
    induction (g_Attributes g) as [|a attrs IHa]; intros copied Hp; [done|]. simpl. apply IHa, map_Forall_insert_2; [|done]. split; [by destruct (default [] _)|].
    apply Forall_app. split; [|done]. destruct (copied !! a) as [x|] eqn:E; [exact (proj2 (Hp a x E))|constructor].
Qed.
Lemma commitRegistration_wf {loose} opts m f who cls groups allowEmpty r obj : map_Forall (fun _ => wf_in loose) (fed m) -> (forall h, FOMs opts f = Ret h -> FOM_ok h) ->
  prepareObjectRegistration opts m f who cls groups allowEmpty = Ret r -> map_Forall (fun _ => wf_in loose) (fed (commitRegistration m f r obj)).
Proof.
  intros Hm HF (h & Eh & E)%bind_Ret_inv. do 3 (cbv zeta in E; match type of E with (if ?b then _ else _) = _ => destruct b; [done|] end).
  apply bind_Ret_inv in E as (required & _ & (copied & Ec & E)%bind_Ret_inv). cbv zeta in E.
  set (st := match fed m !! f with Some st => st | None => _ end) in E. assert (wf_in loose st) as Hw.
  { unfold st. destruct (fed m !! f) as [s|] eqn:Es; [by apply (Hm f)|]. pose proof (ddm_new_wf (loose := loose) (allocated m + 1)) as Hn.
    destruct (Dimensions h) as [ds|] eqn:Ed; [|done]. apply populateFromFOM_wf; [done|]. by apply (HF h). }
  apply bind_Ret_inv in E as (u & Hv & [= <-]). apply validateGroups_usable in Hv. unfold commitRegistration. simpl. case_bool_decide as En; [done|]. simpl.
  apply map_Forall_insert_2; [|done]. apply set_associations_wf; [done| |eapply w_inactive, Hw]. apply map_Forall_insert_2; [|eapply w_pubs, Hw]. split; [done|].
  eapply copy_ok; [|apply map_Forall_empty|exact Ec]. eapply Forall_impl; [exact Hv|]. intros g Hg. eapply Forall_impl; [exact Hg|]. intros rh Hrh. exists who. by apply usable_bindable.
Qed.

(** ** Conveyed regions *)
Lemma validateRealizations_in st copies seen u : validateRealizations st copies seen = Ret u -> forall c, c ∈ copies -> regionsOf st !! Designator c = None.
Proof.
  revert seen. induction copies as [|c l IH]; intros seen; [by intros _ c ?%elem_of_nil|]. simpl. intros (v & Hc & E)%bind_Ret_inv.
  match type of E with (if ?b then _ else _) = _ => destruct b; [done|] end. intros c' [->|Hin]%elem_of_cons; [|by eapply IH].
  unfold validateRealization in Hc. destruct (_ || _); [done|]. case_bool_decide as Hn; [done|]. by apply eq_None_not_Some.
Qed.
Lemma reserve_le next copies : next <= reserveDesignators next copies /\ forall c, c ∈ copies -> Designator c <= reserveDesignators next copies.
Proof.
  unfold reserveDesignators. revert next. induction copies as [|c l IH]; intros next; simpl; [by split; [lia|intros c []%elem_of_nil]|].
  destruct (IH (Z.max next (Designator c))) as [H1 H2]. split; [lia|]. intros c' [->|Hin]%elem_of_cons; [lia|by apply H2].
Qed.
Lemma cached_Some copies (m : gmap RegionHandle RegionRealizationSnapshot) rh :
  is_Some (fold_left (fun m c => <[Designator c := Realization c]> m) copies m !! rh) <-> is_Some (m !! rh) \/ exists c, c ∈ copies /\ Designator c = rh.
Proof.
  revert m. induction copies as [|c l IH]; intros m; simpl; [split; [by left|by intros [?|(? & []%elem_of_nil & _)]]|]. rewrite IH. setoid_rewrite elem_of_cons.
  destruct (decide (Designator c = rh)) as [<-|Hn]; [rewrite lookup_insert_eq|rewrite lookup_insert_ne by done]; naive_solver.
Qed.
Lemma leased_Some receiver copies (m : gmap RegionHandle (gmap FederateHandle bool)) rh :
  is_Some (fold_left (prepareLease receiver) copies m !! rh) <-> is_Some (m !! rh) \/ exists c, c ∈ copies /\ Designator c = rh.
Proof.
  revert m. induction copies as [|c l IH]; intros m; simpl; [split; [by left|by intros [?|(? & []%elem_of_nil & _)]]|]. rewrite IH. setoid_rewrite elem_of_cons. unfold prepareLease.
  destruct (decide (Designator c = rh)) as [<-|Hn]; [rewrite lookup_insert_eq|rewrite lookup_insert_ne by done]; naive_solver.
Qed.
Lemma leased_nonempty receiver copies m : map_Forall (fun _ rows => rows <> ∅) m -> map_Forall (fun (_ : RegionHandle) rows => rows <> ∅) (fold_left (prepareLease receiver) copies m).
Proof.
  revert m. induction copies as [|c l IH]; intros m Hm; [done|]. simpl. apply IH, map_Forall_insert_2; [|done]. destruct (default ∅ (m !! Designator c) !! receiver) eqn:E; [|apply insert_non_empty].
  intros E0. by rewrite E0 in E.
Qed.
Definition conveyCopies (receiver : FederateHandle) (copies : list ConveyedRegionCopy) : change () := fun st => checked st (
  _ ← validateRealizations st copies ∅;
  let st := cacheRealizations st copies in
  Ret (set_conveyed st (nextRegionHandle st) (conveyed st) (fold_left (prepareLease receiver) copies (conveyedRecipients st)), ())).
Lemma conveyCopies_wf receiver copies : preserves (conveyCopies receiver copies).
Proof.
  apply checked_preserves. intros loose st st' b Hw (u & Hv & E)%bind_Ret_inv. injection E as <- _. pose proof (validateRealizations_in _ _ _ _ Hv) as Hin.
  destruct (reserve_le (nextRegionHandle st) copies) as [H1 H2]. apply (set_conveyed_wf st); [done..| | |].
  - intros rh [Hs|(c & Hc & <-)]%cached_Some; [destruct (conveyed_bound st rh Hw Hs); split; [simpl in *; lia|done]|]. by split; [apply H2|apply Hin].
  - intros rh. simpl. by rewrite cached_Some, leased_Some, (w_leases st Hw).
  - eapply leased_nonempty, w_receivers, Hw.
Qed.
Lemma enter_wf {loose} receiver rhs st : wf_in loose st ->
  wf_in loose (set_conveyed st (nextRegionHandle st) (conveyed st) (fold_left (fun rs rh => alter (fun rows => <[receiver := true]> rows) rh rs) rhs (conveyedRecipients st))).
Proof.
  intros Hw. assert (forall rhs (m : gmap RegionHandle (gmap FederateHandle bool)), map_Forall (fun _ rows => rows <> ∅) m ->
    map_Forall (fun _ rows => rows <> ∅) (fold_left (fun rs rh => alter (fun rows => <[receiver := true]> rows) rh rs) rhs m) /\
    forall rh, is_Some (fold_left (fun rs rh => alter (fun rows => <[receiver := true]> rows) rh rs) rhs m !! rh) <-> is_Some (m !! rh)) as H.
  { clear. induction rhs as [|rh l IH]; intros m Hm; [done|]. simpl. destruct (IH (alter (fun rows => <[receiver := true]> rows) rh m)) as [H1 H2].
    - intros k x. rewrite lookup_alter. case_decide; [|apply Hm]. intros (y & _ & ->)%fmap_Some_1. apply insert_non_empty.
    - split; [done|]. intros k. rewrite H2, lookup_alter. case_decide; [subst k; by rewrite fmap_is_Some|done]. }
  destruct (H rhs _ (w_receivers st Hw)) as [H1 H2]. apply set_conveyed_wf; [done..| | |done].
  - intros rh Hs. by eapply conveyed_bound.
  - intros rh. by rewrite H2, (w_leases st Hw).
Qed.
Lemma capture_wf {loose} st rhs realize_ st' copies : wf_in loose st -> captureRealizations st rhs realize_ = Ret (st', copies) -> wf_in loose st'.
Proof.
  intros Hw. unfold captureRealizations. case_bool_decide; [by intros [= <- _]|]. cbv zeta. destruct (_ <? _); [done|].
  intros (cs & _ & [= <- _])%bind_Ret_inv. apply advance_wf; [done|]. lia.
Qed.
Lemma deliverySnapshots_wf obj registered attrs known result : preserves (fun st => deliverySnapshots st obj registered attrs known result).
Proof.
  intros loose st Hw. revert st result Hw. induction attrs as [|a attrs IH]; intros st result Hw; [done|]. simpl. destruct (captureRealizations _ _ _) as [[st' copies]| |] eqn:E; [|done..].
  apply IH. by eapply capture_wf.
Qed.

(** ** What services leave to a rollback

    A service that runs while an admission is decided leaves every
    subscription, association and region as it is, and may add regions; so what
    the rollback restores is what it would have restored before. *)
Record beside (st st' : federationDDMState) : Prop := {
  be_obj : objSubs st' = objSubs st;
  be_int : intSubs st' = intSubs st;
  be_pubs : objPubs st' = objPubs st;
  be_inactive : inactivePubs st' = inactivePubs st;
  be_address : address st' = address st;
  be_next : nextRegionHandle st <= nextRegionHandle st';
  be_regions : forall rh, regionsOf st' !! rh = regionsOf st !! rh \/ regionsOf st !! rh = None /\ nextRegionHandle st < rh;
}.
#[export] Instance beside_preorder : PreOrder beside.
Proof.
  split; [intros st; split; try done; by left|]. intros a b c [] []. split; try (by etrans); try congruence. intros rh.
  destruct (be_regions0 rh) as [E1|[E1 H1]], (be_regions1 rh) as [E2|[E2 H2]]; [left; congruence|right; split; [congruence|lia]|by right..].
Qed.
Lemma beside_declarations st g defaults spaces ds upper perm next rev : beside st (set_declarations st g defaults spaces ds upper perm next rev).
Proof. split; try done. by left. Qed.
Lemma beside_conveyed st next x y : nextRegionHandle st <= next -> beside st (set_conveyed st next x y).
Proof. intros Hn. split; try done. by left. Qed.
Lemma beside_refresh nd get st : beside st (refreshFOMDimensions nd get st).
Proof.
  unfold refreshFOMDimensions. destruct get as [h| |]; [|done..]. destruct (provider h) as [[rev view]|]; [|apply beside_declarations].
  destruct (_ =? _); [apply beside_declarations|]. etrans; apply beside_declarations.
Qed.
Lemma beside_populate nd st ds : beside st (populateFromFOM nd st ds).
Proof. unfold populateFromFOM. destruct (fold_left _ _ _) as [[[a b] c] e]. apply beside_declarations. Qed.
Lemma beside_release receiver st rh : beside st (releaseLease receiver st rh).
Proof. destruct (releaseLease_frame receiver st rh) as (x & y & ->). by apply beside_conveyed. Qed.
Definition besides {A} (c : change A) : Prop := forall loose st, wf_in loose st -> beside st (c st).1.
Lemma checked_besides {A} (r : federationDDMState -> outcome ddm_error (federationDDMState * A)) :
  (forall st st' a, r st = Ret (st', a) -> beside st st') -> besides (fun st => checked st (r st)).
Proof. intros H loose st _. unfold checked. destruct (r st) as [[st' a]| |] eqn:E; [by eapply H|done..]. Qed.
Lemma id_besides {A} (r : federationDDMState -> outcome ddm_error A) : besides (fun st => (st, r st)).
Proof. by intros ? st _. Qed.
Lemma createRegion_besides who sp ds : besides (createRegion who sp ds).
Proof.
  intros loose st Hw. unfold createRegion. destruct (negb _); [done|]. destruct (negb _); [done|]. destruct (_ =? _); [done|]. simpl.
  split; try done; simpl; [lia|]. intros rh. destruct (decide (rh = nextRegionHandle st + 1)) as [->|]; [right|left; by apply lookup_insert_ne]. split; [|lia].
  destruct (regionsOf st !! _) eqn:E; [|done]. pose proof (w_handles st Hw (nextRegionHandle st + 1) ltac:(left; by rewrite E)). lia.
Qed.
Lemma conveyCopies_besides receiver copies : besides (conveyCopies receiver copies).
Proof. apply checked_besides. intros st st' b (u & _ & E)%bind_Ret_inv. injection E as <- _. etrans; apply beside_conveyed; [apply reserve_le|done]. Qed.
Lemma capture_beside st rhs realize_ st' copies : captureRealizations st rhs realize_ = Ret (st', copies) -> beside st st'.
Proof.
  unfold captureRealizations. case_bool_decide; [by intros [= <- _]|]. cbv zeta. destruct (_ <? _); [done|].
  intros (cs & _ & [= <- _])%bind_Ret_inv. apply beside_conveyed. lia.
Qed.
Lemma deliverySnapshots_besides obj registered attrs known result : besides (fun st => deliverySnapshots st obj registered attrs known result).
Proof.
  intros loose st _. revert st result. induction attrs as [|a attrs IH]; intros st result; [done|]. simpl. destruct (captureRealizations _ _ _) as [[st' copies]| |] eqn:E; [|done..].
  etrans; [by eapply capture_beside|apply IH].
Qed.

(** The rollback of a commit knows of no region created since. *)
Definition known_to (w : rollback) (st : federationDDMState) : Prop :=
  match w with RollRegions saved => forall rh, is_Some (saved !! rh) -> rh <= nextRegionHandle st | _ => True end.
Lemma transplant loose a b c : wf_in loose a -> wf_in loose b ->
  objSubs c = objSubs a -> intSubs c = intSubs a -> objPubs c = objPubs a -> inactivePubs c = inactivePubs a -> extends (regionsOf a) (regionsOf c) ->
  map_Forall (fun _ => region_ok) (regionsOf c) -> (forall rh, is_Some (regionsOf c !! rh) -> is_Some (regionsOf b !! rh)) ->
  conveyed c = conveyed b -> conveyedRecipients c = conveyedRecipients b -> nextRegionHandle c = nextRegionHandle b -> dimDefaults c = dimDefaults b -> wf_in loose c.
Proof.
  intros Ha Hb EO EI EP EN HE HR Hs EC ER En ED. pose proof (fun h rh => extends_usable _ _ h rh HE) as HU. pose proof (fun h rh => extends_bindable loose _ _ h rh HE) as HB. split.
  - intros rh H. rewrite En. apply (w_handles b Hb). destruct H as [H|H]; [left; by apply Hs|right; by rewrite <- EC].
  - intros rh H. rewrite EC. by apply (w_disjoint b Hb), Hs.
  - done.
  - rewrite EO. eapply subs_ok_mono; [exact HU|eapply w_obj, Ha].
  - rewrite EI. eapply subs_ok_mono; [exact HU|eapply w_int, Ha].
  - rewrite EP. eapply pubs_ok_mono; [exact HB|eapply w_pubs, Ha].
  - rewrite EN. eapply inactive_ok_mono; [exact HB|eapply w_inactive, Ha].
  - rewrite ED. eapply w_defaults, Hb.
  - intros rh. rewrite EC, ER. apply (w_leases b Hb).
  - rewrite ER. eapply w_receivers, Hb.
Qed.
Lemma beside_extends st st' : beside st st' -> extends (regionsOf st) (regionsOf st').
Proof. intros Hb rh rs E. destruct (be_regions _ _ Hb rh) as [E'|[E' _]]; [|congruence]. exists rs. by rewrite E', E. Qed.
Lemma restore_beside loose st st' saved : wf_in loose st' -> beside st st' -> known_to (RollRegions saved) st -> wf_in loose (restoreRanges st saved) -> wf_in loose (restoreRanges st' saved).
Proof.
  intros Hw Hb Hk Hr. apply (transplant loose _ st' _ Hr Hw); try done; simpl; try apply Hb.
  - intros rh rs. rewrite !map_lookup_imap. destruct (be_regions _ _ Hb rh) as [->|[-> _]]; [|done]. intros E. by exists rs.
  - intros rh rs E. pose proof (w_regions _ Hr rh) as H. simpl in H. rewrite map_lookup_imap in E, H. destruct (be_regions _ _ Hb rh) as [Er|[Er Hn]].
    + rewrite Er in E. by apply H.
    + apply bind_Some in E as (r0 & E0 & [= <-]). destruct (saved !! rh) eqn:Es; [|by eapply (w_regions _ Hw)]. pose proof (Hk rh ltac:(by rewrite Es)). lia.
  - intros rh. rewrite map_lookup_imap. intros [rs (r0 & E0 & _)%bind_Some]. by exists r0.
Qed.
Lemma rollBack_beside loose st st' proj w : wf_in loose st' -> beside st st' -> known_to w st -> wf_in loose (rollBack st proj w) -> wf_in loose (rollBack st' proj w).
Proof.
  intros Hw Hb Hk Hr. destruct w as [saved|obj|sub cls previous|sub cls previous]; [by eapply restore_beside|..];
    (apply (transplant loose _ st' _ Hr Hw); simpl; try destruct proj; simpl; rewrite ?(be_obj _ _ Hb), ?(be_int _ _ Hb), ?(be_pubs _ _ Hb), ?(be_inactive _ _ Hb); try done;
     first [done|by apply beside_extends|exact (w_regions _ Hw)|apply Hb]).
Qed.

(** ** The object model of a federation *)
Section Reach.
Context (opts : Options) (ports : AssociationPorts).
Definition FOMs_ok : Prop := forall f h, FOMs opts f = Ret h -> FOM_ok h.
Lemma stateFor_wf {loose} m f : FOMs_ok -> map_Forall (fun _ => wf_in loose) (fed m) -> wf_in loose (stateFor opts m f).
Proof.
  intros HF Hm. unfold stateFor. destruct (fed m !! f) as [st|] eqn:E.
  - apply refreshFOM_wf; [by apply (Hm f)|apply HF].
  - apply refreshFOM_wf; [|apply HF]. pose proof (ddm_new_wf (loose := loose) (allocated m + 1)) as Hn. destruct (FOMs opts f) as [h| |] eqn:Eh; [|done..].
    destruct (IsValid h), (Dimensions h) as [ds|] eqn:Ed; try done. apply populateFromFOM_wf; [done|]. by apply (HF f h Eh).
Qed.
Lemma locked_fed {A} m f (c : change A) : fed (locked opts m f c).1 = <[f := (c (stateFor opts m f)).1]> (fed m).
Proof. unfold locked. by destruct (c (stateFor opts m f)). Qed.
(** ** Services that no admission follows *)
(** Services under [Manager.mu] alone: they run whether or not an admission is
    being decided. *)
Inductive service (m : Manager) : Manager -> Prop :=
| s_space f name : service m (LookupRoutingSpace opts m f name).1
| s_dimension f sp name : service m (LookupDimension opts m f sp name).1
| s_create f who sp ds : service m (CreateRegion opts m f who sp ds).1
| s_interaction_overlap f cls rhs : service m (InteractionRegionsOverlapDefaultRegion opts m f cls rhs).1
| s_publisher_overlap f cls a rhs : service m (PublisherRegionsOverlapDefaultRegion opts m f cls a rhs).1
| s_point f cls a dim point : service m (SubscribersForObjectAttributePoint opts m f cls a dim point).1
| s_send f who cls rhs : service m (InteractionDeliverySnapshot opts m f who cls rhs).1
| s_update f obj cls attrs known : service m (ObjectDeliverySnapshots opts m f obj cls attrs known).1
| s_restore f copies : service m (RestoreConveyedRegions opts m f copies).1
| s_conveyed_send f cls copies : service m (InteractionSubscribersForConveyedRegions opts m f cls copies).1
| s_conveyed_update f cls a copies : service m (SubscribersForConveyedUpdate opts m f cls a copies).1
| s_convey f receiver copies : service m (ConveyCopies opts m f receiver copies).1
| s_enter f receiver rhs : service m (EnterConveyedRegions m f receiver rhs).1
| s_release f receiver rhs : service m (ReleaseConveyedRegions m f receiver rhs)
| s_destroyed f : service m (OnFederationDestroyed m f)
| s_refresh f : service m (publish m f (stateFor opts m f)).
(** Services that take [subscriptionMu] and ask no one: never while an
    admission is being decided. *)
Inductive exclusive (m : Manager) : Manager -> Prop :=
| s_bounds f who rh dim b : exclusive m (SetRangeBounds opts m f who rh dim b).1
| s_delete f who rh : exclusive m (DeleteRegion opts m f who rh).1
| s_resign f h : exclusive m (OnFederateResign opts m f h).1.
(** A registration holds [Manager.mu] from [PrepareObjectRegistration] to its
    [Commit]; it too runs while an admission is being decided. *)
Inductive registration (f : FederationName) (m : Manager) : Manager -> Prop :=
| s_register who cls groups allowEmpty r obj : prepareObjectRegistration opts m f who cls groups allowEmpty = Ret r -> registration f m (commitRegistration m f r obj).
Context (loose : bool).
Abbreviation all_wf m := (map_Forall (fun _ => wf_in loose) (fed m)).
Lemma locked_wf {A} m f (c : change A) : FOMs_ok -> all_wf m -> preserves c -> all_wf (locked opts m f c).1.
Proof. intros HF Hm Hc. rewrite locked_fed. apply map_Forall_insert_2; [by apply Hc, stateFor_wf|done]. Qed.
Lemma publish_reset_wf m f st : all_wf m -> wf_in loose st -> all_wf (publish m f st).
Proof. intros Hm Hw. by apply map_Forall_insert_2. Qed.
Lemma lookups_wf m f : FOMs_ok -> all_wf m ->
  (forall name, all_wf (LookupRoutingSpace opts m f name).1) /\ (forall sp name, all_wf (LookupDimension opts m f sp name).1).
Proof.
  intros HF Hm. pose proof (stateFor_wf m f HF Hm) as Hw. split.
  - intros name. unfold LookupRoutingSpace. destruct (_ || _); [done|]. cbv zeta. destruct (routingSpaces _ !! name); [by apply publish_reset_wf|].
    destruct (permissive _); apply publish_reset_wf; try done. apply set_declarations_wf; [done|eapply w_defaults, Hw].
  - intros sp name. unfold LookupDimension. destruct (_ || _); [done|]. cbv zeta.
    destruct (dimensions _ !! sp) as [byName|]; [|destruct (permissive _); [|by apply publish_reset_wf]]; simpl; rewrite ?lookup_empty.
    + destruct (byName !! name); [by apply publish_reset_wf|]. destruct (permissive _); apply publish_reset_wf; try done. apply set_declarations_wf; [done|eapply w_defaults, Hw].
    + apply publish_reset_wf; [done|]. apply set_declarations_wf; [done|eapply w_defaults, Hw].
Qed.
Lemma id_preserves {A} (r : federationDDMState -> outcome ddm_error A) : preserves (fun st => (st, r st)).
Proof. by intros ? st Hw. Qed.
Lemma conveyed_services_wf m f : FOMs_ok -> all_wf m ->
  (forall who cls rhs, all_wf (InteractionDeliverySnapshot opts m f who cls rhs).1) /\ (forall obj cls attrs known, all_wf (ObjectDeliverySnapshots opts m f obj cls attrs known).1) /\
  (forall copies, all_wf (RestoreConveyedRegions opts m f copies).1) /\ (forall cls copies, all_wf (InteractionSubscribersForConveyedRegions opts m f cls copies).1).
Proof.
  intros HF Hm. split_and!.
  - intros who cls rhs. unfold InteractionDeliverySnapshot. case_bool_decide; [done|]. destruct (FOMs opts f), (fed m !! f); try done. apply locked_wf; [done..|].
    apply checked_preserves. intros ? st st' res Hw (context & _ & (u & _ & ([st2 copies] & Ec & E)%bind_Ret_inv)%bind_Ret_inv)%bind_Ret_inv. injection E as <- <-. by eapply capture_wf.
  - intros obj cls attrs known. unfold ObjectDeliverySnapshots. destruct (FOMs opts f); try done. apply locked_wf; [done..|]. apply deliverySnapshots_wf.
  - intros copies. unfold RestoreConveyedRegions. case_bool_decide; [done|]. apply locked_wf; [done..|]. apply checked_preserves. intros ? st st' res Hw (u & _ & E)%bind_Ret_inv. injection E as <- <-.
    apply advance_wf; [done|]. apply reserve_le.
  - intros cls copies. unfold InteractionSubscribersForConveyedRegions. destruct (FOMs opts f), (fed m !! f); try done. apply locked_wf; [done..|]. apply id_preserves.
Qed.
Lemma ddm_service_wf m m' : FOMs_ok -> all_wf m -> service m m' -> all_wf m'.
Proof.
  intros HF Hm. pose proof (fun f => lookups_wf m f HF Hm) as HL. pose proof (fun f => conveyed_services_wf m f HF Hm) as HC.
  destruct 1; try (by apply HL); try (by apply HC).
  - unfold CreateRegion. destruct (sp =? 0); [done|]. apply locked_wf; [done..|]. intros ? st Hw. by apply createRegion_wf.
  - unfold InteractionRegionsOverlapDefaultRegion. destruct (fed m !! f) as [st|] eqn:E; [|done]. apply publish_reset_wf; [done|]. apply refreshFOM_wf; [by apply (Hm f)|apply HF].
  - unfold PublisherRegionsOverlapDefaultRegion. case_bool_decide; [done|]. destruct (fed m !! f) as [st|] eqn:E; [|done]. apply publish_reset_wf; [done|]. apply refreshFOM_wf; [by apply (Hm f)|apply HF].
  - unfold SubscribersForObjectAttributePoint. destruct (FOMs opts f); try done. apply publish_reset_wf; [done|]. by apply stateFor_wf.
  - apply locked_wf; [done..|]. apply id_preserves.
  - unfold ConveyCopies. destruct (receiver =? 0); [done|]. case_bool_decide; [done|]. apply locked_wf; [done..|]. apply conveyCopies_wf.
  - unfold EnterConveyedRegions. destruct (fed m !! f) as [st|] eqn:E; [|done]. destruct (forallb _ _); [|done]. apply publish_reset_wf; [done|]. apply enter_wf. by apply (Hm f).
  - unfold ReleaseConveyedRegions. destruct (fed m !! f) as [st|] eqn:E; [|done]. apply publish_reset_wf; [done|]. apply fold_wf; [intros; by apply releaseLease_wf|by apply (Hm f)].
  - by apply map_Forall_delete.
  - apply publish_reset_wf; [done|]. by apply stateFor_wf.
Qed.
Lemma exclusive_wf m m' : FOMs_ok -> all_wf m -> exclusive m m' -> all_wf m'.
Proof.
  intros HF Hm. destruct 1; [apply locked_wf; [done..|]|apply locked_wf; [done..|]|].
  - intros ? st Hw. by apply setRangeBounds_wf.
  - intros ? st Hw. by apply deleteRegion_wf.
  - unfold OnFederateResign. simpl. destruct (fed m !! f) as [st|] eqn:E; [|done]. apply publish_reset_wf; [done|]. apply removeFederateState_wf. by apply (Hm f).
Qed.

(** ** Services while an admission is decided *)
Record grows (m m' : Manager) : Prop := {
  g_allocated : allocated m <= allocated m';
  g_projection : associationRollback m' = associationRollback m;
  g_fed : forall f st', fed m' !! f = Some st' -> (exists st, fed m !! f = Some st /\ beside st st') \/ allocated m < address st';
}.
Lemma grows_refl m : grows m m.
Proof. split; [lia|done|]. intros f st' E. left. by exists st'. Qed.
Lemma publish_grows m f st' : (exists st, fed m !! f = Some st /\ beside st st') \/ allocated m < address st' -> grows m (publish m f st').
Proof.
  intros H. split; simpl; [lia|done|]. intros g st. destruct (decide (g = f)) as [->|].
  - rewrite lookup_insert_eq. by intros [= <-].
  - rewrite lookup_insert_ne by done. left. by exists st.
Qed.
Lemma stateFor_grows m f st' : beside (stateFor opts m f) st' -> grows m (publish m f st').
Proof.
  intros Hb. apply publish_grows. unfold stateFor in Hb. destruct (fed m !! f) as [st|]; [left; exists st; split; [done|]; etrans; [apply beside_refresh|done]|right].
  rewrite (be_address _ _ Hb), (be_address _ _ (beside_refresh _ _ _)). destruct (FOMs opts f) as [h| |]; [|simpl; lia..].
  destruct (IsValid h), (Dimensions h); rewrite ?(be_address _ _ (beside_populate _ _ _)); simpl; lia.
Qed.
Lemma locked_grows {A} m f (c : change A) : FOMs_ok -> all_wf m -> besides c -> grows m (locked opts m f c).1.
Proof.
  intros HF Hm Hc. pose proof (Hc _ _ (stateFor_wf m f HF Hm)) as Hb. unfold locked. destruct (c (stateFor opts m f)) as [st r]. by apply stateFor_grows.
Qed.
Lemma lookups_grow m f : (forall name, grows m (LookupRoutingSpace opts m f name).1) /\ (forall sp name, grows m (LookupDimension opts m f sp name).1).
Proof.
  split.
  - intros name. unfold LookupRoutingSpace. destruct (_ || _); [apply grows_refl|]. cbv zeta. destruct (routingSpaces _ !! name); [by apply stateFor_grows|].
    destruct (permissive _); apply stateFor_grows; [apply beside_declarations|done].
  - intros sp name. unfold LookupDimension. destruct (_ || _); [apply grows_refl|]. cbv zeta.
    destruct (dimensions _ !! sp) as [byName|]; [|destruct (permissive _); [|by apply stateFor_grows]]; simpl; rewrite ?lookup_empty.
    + destruct (byName !! name); [by apply stateFor_grows|]. destruct (permissive _); apply stateFor_grows; [apply beside_declarations|done].
    + apply stateFor_grows, beside_declarations.
Qed.
Lemma conveyed_services_grow m f : FOMs_ok -> all_wf m ->
  (forall who cls rhs, grows m (InteractionDeliverySnapshot opts m f who cls rhs).1) /\ (forall obj cls attrs known, grows m (ObjectDeliverySnapshots opts m f obj cls attrs known).1) /\
  (forall copies, grows m (RestoreConveyedRegions opts m f copies).1) /\ (forall cls copies, grows m (InteractionSubscribersForConveyedRegions opts m f cls copies).1).
Proof.
  intros HF Hm. pose proof (grows_refl m) as H0. split_and!.
  - intros who cls rhs. unfold InteractionDeliverySnapshot. case_bool_decide; [done|]. destruct (FOMs opts f), (fed m !! f); try done. apply locked_grows; [done..|].
    apply checked_besides. intros st st' res (context & _ & (u & _ & ([st2 copies] & Ec & E)%bind_Ret_inv)%bind_Ret_inv)%bind_Ret_inv. injection E as <- <-. by eapply capture_beside.
  - intros obj cls attrs known. unfold ObjectDeliverySnapshots. destruct (FOMs opts f); try done. apply locked_grows; [done..|]. apply deliverySnapshots_besides.
  - intros copies. unfold RestoreConveyedRegions. case_bool_decide; [done|]. apply locked_grows; [done..|]. apply checked_besides. intros st st' res (u & _ & E)%bind_Ret_inv. injection E as <- <-.
    apply beside_conveyed, reserve_le.
  - intros cls copies. unfold InteractionSubscribersForConveyedRegions. destruct (FOMs opts f), (fed m !! f); try done. apply locked_grows; [done..|]. apply id_besides.
Qed.
Lemma service_grows m m' : FOMs_ok -> all_wf m -> service m m' -> grows m m'.
Proof.
  intros HF Hm. pose proof (grows_refl m) as H0. pose proof (fun f => conveyed_services_grow m f HF Hm) as HC.
  destruct 1; try (by apply lookups_grow); try (by apply HC).
  - unfold CreateRegion. destruct (sp =? 0); [done|]. apply locked_grows; [done..|]. apply createRegion_besides.
  - unfold InteractionRegionsOverlapDefaultRegion. destruct (fed m !! f) as [st|] eqn:E; [|done]. apply publish_grows. left. exists st. split; [done|apply beside_refresh].
  - unfold PublisherRegionsOverlapDefaultRegion. case_bool_decide; [done|]. destruct (fed m !! f) as [st|] eqn:E; [|done]. apply publish_grows. left. exists st. split; [done|apply beside_refresh].
  - unfold SubscribersForObjectAttributePoint. destruct (FOMs opts f); try done. by apply stateFor_grows.
  - apply locked_grows; [done..|]. apply id_besides.
  - unfold ConveyCopies. destruct (receiver =? 0); [done|]. case_bool_decide; [done|]. apply locked_grows; [done..|]. apply conveyCopies_besides.
  - unfold EnterConveyedRegions. destruct (fed m !! f) as [st|] eqn:E; [|done]. destruct (forallb _ _); [|done]. apply publish_grows. left. exists st. split; [done|]. by apply beside_conveyed.
  - unfold ReleaseConveyedRegions. destruct (fed m !! f) as [st|] eqn:E; [|done]. apply publish_grows. left. exists st. split; [done|]. clear.
    revert st. induction rhs as [|rh l IH]; intros st; [done|]. simpl. etrans; [apply beside_release|apply IH].
  - split; simpl; [lia|done|]. intros g st' [_ E]%lookup_delete_Some. left. by exists st'.
  - by apply stateFor_grows.
Qed.
(** A registration adds the associations of its instance, to regions of the
    registering federate. *)
Definition register (st : federationDDMState) (obj : ObjectHandle) (copied : associations) : federationDDMState :=
  set_associations st (<[obj := copied]> (objPubs st)) (inactivePubs st).
Lemma registration_spec f m m' : registration f m m' -> m' = m \/ exists st obj copied, m' = publish m f (register st obj copied) /\
  ((fed m !! f = Some st /\ copied <> ∅ /\ exists who, per_ok (usable st who) copied) \/ allocated m < address st).
Proof.
  intros [who cls groups allowEmpty r obj Hr]. unfold commitRegistration. case_bool_decide as En; [by left|right].
  apply bind_Ret_inv in Hr as (h & Eh & E). do 3 (cbv zeta in E; match type of E with (if ?b then _ else _) = _ => destruct b; [done|] end).
  apply bind_Ret_inv in E as (required & _ & (copied & Ec & E)%bind_Ret_inv). cbv zeta in E.
  apply bind_Ret_inv in E as (u & Hv & [= <-]). simpl in En |- *. eexists _, obj, copied. split; [done|]. destruct (fed m !! f) as [st|] eqn:Es.
  - left. split_and!; [done..|]. apply validateGroups_usable in Hv. exists who. by eapply copy_ok; [exact Hv|apply map_Forall_empty|exact Ec].
  - right. destruct (Dimensions h); rewrite ?(be_address _ _ (beside_populate _ _ _)); simpl; lia.
Qed.
Lemma register_wf st obj copied : wf_in loose st -> copied <> ∅ -> per_ok (fun rh => exists h, bindable loose st h rh) copied -> wf_in loose (register st obj copied).
Proof. intros Hw Hn Hc. apply set_associations_wf; [done| |eapply w_inactive, Hw]. by apply map_Forall_insert_2; [|eapply w_pubs, Hw]. Qed.
(** It leaves to a rollback what it found; only the rollback of a commit takes
    from its regions what they were registered with. *)
Definition decidesCommit (f : FederationName) (rb : option pendingRollback) : bool :=
  match rb with Some (Build_pendingRollback g _ (RollRegions _)) => String.eqb f g | _ => false end.
Lemma rollBack_register st proj w obj copied who : copied <> ∅ -> per_ok (usable st who) copied ->
  loose = true \/ (forall saved, w <> RollRegions saved) -> wf_in loose (rollBack st proj w) -> wf_in loose (rollBack (register st obj copied) proj w).
Proof.
  intros Hn Hc Hl Hr. assert (regionsOf (rollBack st proj w) = regionsOf st -> wf_in loose (register (rollBack st proj w) obj copied)) as Hsame.
  { intros E. apply register_wf; [done..|]. rewrite E. eapply per_ok_mono; [|exact Hc]. intros rh Hrh. exists who. by apply usable_bindable. }
  destruct w as [saved|obj'|sub cls previous|sub cls previous]; [|destruct proj as [p|]; [|by apply Hsame]|by apply Hsame..].
  - change (wf_in loose (register (restoreRanges st saved) obj copied)). apply register_wf; [done..|]. eapply per_ok_mono; [|exact Hc]. intros rh (rs & E & <- & _). exists (owner rs).
    destruct Hl as [->|Hl]; [|by destruct (Hl saved)]. unfold bindableIn. simpl. rewrite map_lookup_imap, E. simpl. eexists. split; [done|]. by destruct (saved !! rh).
  - specialize (Hsame eq_refl). simpl in Hr, Hsame |- *. unfold register in Hsame |- *. simpl in Hsame |- *. destruct (decide (obj = obj')) as [->|Hne].
    + destruct (objPubs (shadow p) !! obj'); by rewrite ?insert_insert_eq, ?delete_insert_eq.
    + destruct (objPubs (shadow p) !! obj'); rewrite ?(insert_insert_ne _ obj' obj), ?delete_insert_ne by done; exact Hsame.
Qed.

(** ** Steps *)
(** The manager, and the rollback of the admission that is being decided.  The
    services interleave with an admission as the locks let them; with [loose]
    false, no registration runs while a commit of its federation is decided. *)
Abbreviation config := (Manager * option pendingRollback)%type.
Inductive step : config -> config -> Prop :=
| step_service m m' rb : service m m' -> step (m, rb) (m', rb)
| step_exclusive m m' : exclusive m m' -> step (m, None) (m', None)
| step_register f m m' rb : loose = true \/ decidesCommit f rb = false -> registration f m m' -> step (m, rb) (m', rb)
| step_begin f m m' rb : rate_change opts ports f m m' rb -> step (m, None) (m', Some rb)
| step_move f m mv rb : step (m, rb) (moveManager f m mv, rb)
| step_admitted m rb : step (m, Some rb) (set_rollback m None, None)
| step_refused m rb : step (m, Some rb) (set_rollback (applyRollback m rb) None, None).
(** Every state is well-formed, and so is the one a rollback would leave; a
    rollback is meant for a state there was. *)
Record config_wf (c : config) : Prop := {
  c_states : all_wf c.1;
  c_origin : forall rb, c.2 = Some rb -> r_origin rb <= allocated c.1;
  c_rollback : forall rb st, c.2 = Some rb -> fed c.1 !! r_fed rb = Some st -> address st = r_origin rb ->
    projects (r_fed rb) st (associationRollback c.1) (r_what rb) /\ known_to (r_what rb) st /\ wf_in loose (rollBack st (associationRollback c.1) (r_what rb));
}.
Lemma rate_change_wf m m' f rb : FOMs_ok -> all_wf m -> rate_change opts ports f m m' rb -> all_wf m'.
Proof.
  intros HF Hm Hc. pose proof (stateFor_wf m f HF Hm) as Hw. destruct Hc as [who rhs m' w E|c m' w Hc E|caller obj groups mode m' rb E].
  - replace m' with (locked opts m f (commitRegions who rhs)).1 by by rewrite E. apply locked_wf; [done..|]. intros st Hs. by apply commitRegions_wf.
  - pose proof (subscription_revocable c Hc _ _ Hw) as Hr. unfold locked in E. destruct (c (stateFor opts m f)) as [st r] eqn:Ec. injection E as <- ->. apply publish_reset_wf; [done|]. apply Hr.
  - unfold beginAssociation in E. destruct (prepareAssociationGroups _ _ _ _ _ _ _) as [[[gs owners] required]| |]; [|done..].
    destruct (locked _ _ _ _) as [m1 [[|]| |]] eqn:El; try done. injection E as <- _. simpl. replace m1 with (locked opts m f (changeAssociations caller obj gs owners required mode)).1 by by rewrite El.
    apply locked_wf; [done..|]. apply changeAssociations_wf.
Qed.
Lemma move_allocated f m mv : allocated m <= allocated (moveManager f m mv).
Proof.
  destruct mv; simpl; unfold OwnershipChanged, ForgetObject, ForgetObjectFederateAssociations, ForgetFederateAssociations, onObject;
    (destruct (fed m !! f); [|lia]); repeat (case_match; simpl); lia.
Qed.
Lemma insert_same (m : gmap FederationName federationDDMState) f st st' : <[f := st]> m = <[f := st']> m -> st = st'.
Proof. intros E. apply (f_equal (lookup f)) in E. rewrite !lookup_insert_eq in E. congruence. Qed.
Lemma rollBack_next st proj w : nextRegionHandle (rollBack st proj w) = nextRegionHandle st.
Proof. destruct w; [done|by destruct proj|done..]. Qed.
Lemma rate_change_known m m' f rb st : wf_in loose (stateFor opts m f) -> rate_change opts ports f m m' rb -> fed m' !! f = Some st -> r_origin rb <= allocated m' /\ known_to (r_what rb) st.
Proof.
  intros Hw Hc E. destruct (rate_change_spec opts ports f m m' rb Hw Hc) as (s & _ & Eo & Em & Ea & _ & Er). rewrite Em, lookup_insert_eq in E. injection E as ->. rewrite Eo, <- Ea.
  destruct Er as (Er & _). apply (f_equal nextRegionHandle) in Er. simpl in Er. rewrite rollBack_next in Er. destruct Hc as [who rhs m' w E|c m' w Hc E|caller obj groups mode m' rb E].
  - unfold locked in E. destruct (commitRegions who rhs (stateFor opts m f)) as [s' r] eqn:Ec. injection E as <- ->. simpl in Em. apply insert_same in Em as ->. split; [simpl; lia|]. simpl.
    unfold commitRegions, checked in Ec. destruct (checkAll _ rhs); [|done..]. injection Ec as _ <-. simpl. rewrite Er. intros rh [rs [Es _]%map_lookup_filter_Some]. apply (w_handles _ Hw). left. by rewrite Es.
  - unfold locked in E. destruct (c (stateFor opts m f)) as [s' r] eqn:Ec. injection E as <- ->. simpl in Em. apply insert_same in Em as ->. split; [simpl; lia|].
    pose proof (subscription_saves c _ _ _ Hc Ec). by destruct w.
  - unfold beginAssociation in E. destruct (prepareAssociationGroups _ _ _ _ _ _ _) as [[[gs owners] required]| |]; [|done..].
    unfold locked in E. destruct (changeAssociations _ _ _ _ _ _ _) as [s' [[|]| |]]; try done. injection E as <- <-. simpl in Em. apply insert_same in Em as ->. split; [simpl; lia|done].
Qed.
Lemma move_wf f m mv : all_wf m -> all_wf (moveManager f m mv).
Proof.
  intros Hm. destruct (fed m !! f) as [st|] eqn:E.
  - destruct (moveManager_eq f m mv st E) as [-> _]. apply map_Forall_insert_2; [|done]. apply moveState_wf. by apply (Hm f).
  - destruct mv; simpl; unfold OwnershipChanged, ForgetObject, ForgetObjectFederateAssociations, ForgetFederateAssociations, onObject; by rewrite E.
Qed.
Lemma known_move w mv st : known_to w st -> known_to w (moveState mv st).
Proof. destruct (move_frame mv st) as (_ & _ & _ & _ & EN). destruct w; simpl; by rewrite ?EN. Qed.
Lemma move_rollback f m mv rb : config_wf (m, Some rb) -> config_wf (moveManager f m mv, Some rb).
Proof.
  intros [Hm Hg Hr]. split; [by apply move_wf|intros rb' [= <-]; etrans; [by apply Hg|apply move_allocated]|]. simpl. intros rb' st [= <-] E Ea. destruct (fed m !! f) as [s|] eqn:Ef.
  - destruct (moveManager_eq f m mv s Ef) as [E1 E2]. rewrite E1 in E. rewrite E2. destruct (decide (r_fed rb = f)) as [<-|Hne].
    + rewrite lookup_insert_eq in E. injection E as <-. destruct (move_frame mv s) as (_ & _ & _ & EA & _). rewrite EA in Ea. destruct (Hr rb s eq_refl Ef Ea) as (Hp & Hk & Hw). split_and!.
      * unfold projects in Hp |- *. simpl in Hp. destruct (r_what rb) as [|obj| |]; try done. destruct Hp as (p & -> & ? & ? & ?). exists (moveProjection (r_fed rb) mv s p). rewrite EA. unfold moveProjection. simpl. destruct (_ && _); by split_and!.
      * by apply known_move.
      * rewrite rollBack_move by done. by apply moveState_wf.
    + rewrite lookup_insert_ne in E by done. destruct (Hr rb st eq_refl E Ea) as (Hp & Hk & Hw). unfold projects in Hp |- *. simpl in Hp, Hw. destruct (r_what rb) as [|obj| |]; try by split_and!.
      destruct Hp as (p & Hp & Hf & ? & ?). simpl in Hp. rewrite Hp in Hw |- *. simpl. assert (moveProjection f mv s p = p) as ->; [|split_and!; [by exists p|done..]].
      unfold moveProjection. rewrite Hf. destruct (String.eqb_spec (r_fed rb) f); done.
  - replace (moveManager f m mv) with m in E |- *; [by apply Hr|].
    destruct mv; simpl; unfold OwnershipChanged, ForgetObject, ForgetObjectFederateAssociations, ForgetFederateAssociations, onObject; by rewrite Ef.
Qed.
Lemma projects_beside f st st' p w : beside st st' -> projects f st p w -> projects f st' p w.
Proof. intros Hb. unfold projects. by destruct w; rewrite ?(be_address _ _ Hb). Qed.
Lemma known_beside w st st' : beside st st' -> known_to w st -> known_to w st'.
Proof. intros Hb. destruct w; simpl; [|done..]. intros H rh Hs. etrans; [by apply H|apply (be_next _ _ Hb)]. Qed.
Lemma service_config m m' rb : FOMs_ok -> config_wf (m, rb) -> service m m' -> config_wf (m', rb).
Proof.
  intros HF [Hm Hg Hr] Hs. pose proof (ddm_service_wf m m' HF Hm Hs) as Hm'. destruct (service_grows m m' HF Hm Hs) as [Ga Gp Gf].
  split; [done|intros r E; etrans; [by apply Hg|done]|]. simpl in *. intros r st' E Ef Ea. rewrite Gp. specialize (Hg r E). destruct (Gf _ _ Ef) as [(st & Es & Hb)|]; [|lia].
  rewrite (be_address _ _ Hb) in Ea. destruct (Hr r st E Es Ea) as (Hp & Hk & Hw).
  split_and!; [by eapply projects_beside|by eapply known_beside|]. by eapply rollBack_beside; [apply (Hm' _ _ Ef)|..].
Qed.
Lemma registration_config f m m' rb : FOMs_ok -> config_wf (m, rb) -> loose = true \/ decidesCommit f rb = false -> registration f m m' -> config_wf (m', rb).
Proof.
  intros HF [Hm Hg Hr] Hl Hs. assert (all_wf m') as Hm' by (destruct Hs; eapply commitRegistration_wf; [done|apply HF|done]).
  apply registration_spec in Hs as [->|(st & obj & copied & -> & Hst)]; [by split|]. simpl in Hm, Hg, Hr, Hm'.
  split; [done|intros r E; simpl; specialize (Hg r E); lia|]. simpl. intros r st' E Ef Ea. specialize (Hg r E). destruct (decide (r_fed r = f)) as [<-|Hne].
  - rewrite lookup_insert_eq in Ef. injection Ef as <-. destruct Hst as [(Es & Hn & who & Hc)|]; [|simpl in Ea; lia].
    destruct (Hr r st E Es Ea) as (Hp & Hk & Hw). split_and!; [by destruct (r_what r)|by destruct (r_what r)|]. eapply rollBack_register; [done..| |done].
    destruct Hl as [|Hl]; [by left|right]. intros saved Ew. subst rb. destruct r as [g o w]. simpl in *. subst w. by rewrite String.eqb_refl in Hl.
  - rewrite lookup_insert_ne in Ef by done. by apply Hr.
Qed.
Lemma step_wf c c' : FOMs_ok -> config_wf c -> step c c' -> config_wf c'.
Proof.
  intros HF Hc. pose proof (c_states _ Hc) as Hm. destruct 1 as [m m' rb Hs|m m' Hs|f m m' rb Hl Hs|f m m' rb Hs|f m mv rb|m rb|m rb].
  - by eapply service_config.
  - split; [|done..]. by eapply exclusive_wf.
  - by eapply registration_config.
  - pose proof (stateFor_wf m f HF Hm) as Hw. destruct (rate_change_spec opts ports f m m' rb Hw Hs) as (s & Ef & Eo & Em & Es & Hp & Hr).
    destruct (rate_change_known m m' f rb s Hw Hs ltac:(by rewrite Em, lookup_insert_eq)) as [Ho Hk]. split; [by eapply rate_change_wf|by intros rb' [= <-]|]. simpl. intros rb' st [= <-] E Ea.
    rewrite Em, Ef, lookup_insert_eq in E. injection E as <-. rewrite Ef. split_and!; [done..|by rewrite Hr].
  - destruct rb as [rb|]; [by apply move_rollback|]. split; [|done..]. by apply move_wf.
  - by split.
  - split; [|done..]. simpl. unfold applyRollback. destruct (fed m !! r_fed rb) as [st|] eqn:E; [|exact Hm].
    destruct (Z.eqb_spec (address st) (r_origin rb)) as [Ea|]; [|exact Hm]. simpl. apply map_Forall_insert_2; [|exact Hm]. by apply (c_rollback _ Hc rb st).
Qed.
Lemma reachable_config_wf c : FOMs_ok -> rtc step (Build_Manager ∅ None 0, None) c -> config_wf c.
Proof.
  intros HF Hr. assert (config_wf (Build_Manager ∅ None 0, None)) as H0 by (split; [apply map_Forall_empty|done..]).
  revert H0. generalize (Build_Manager ∅ None 0, @None pendingRollback) as c0, Hr. clear Hr. intros c0 Hr. induction Hr as [|c1 c2 c3 Hs _ IH]; [done|]. intros H1. apply IH. by eapply step_wf.
Qed.
(** The services with an admission are steps, whatever the hook answers. *)
Lemma unchanged_step m f : rtc step (m, None) (publish m f (stateFor opts m f), None).
Proof. apply rtc_once, step_service, s_refresh. Qed.
Lemma commit_is_steps m f who rhs : associationRollback m = None -> rtc step (m, None) (mgr (CommitRegionModifications opts m f who rhs), None).
Proof.
  intros Hn. unfold CommitRegionModifications. destruct (locked opts m f (commitRegions who rhs)) as [m' r] eqn:E.
  assert (forall m1, associationRollback m1 = None -> set_rollback m1 None = m1) as Hset by (intros [? ? ?]; simpl; by intros ->).
  assert (associationRollback m' = None) as Hn' by (unfold locked in E; destruct (commitRegions _ _ _); by injection E as <- _).
  destruct r as [w|e|s]; simpl.
  - assert (step (m, None) (m', Some (Build_pendingRollback f (address (stateFor opts m f)) w))) as Hb by by eapply step_begin, rate_commit.
    unfold finishRateMutation. destruct (onRateDemandChanged opts) as [hook|]; [destruct (hook f)|]; simpl; (eapply rtc_l; [exact Hb|]); apply rtc_once; constructor.
  - unfold finishRateMutation. simpl. rewrite Hset by done. unfold locked, commitRegions, checked in E. destruct (checkAll _ rhs); [done| |done]. simpl in E. injection E as <- _. apply unchanged_step.
  - unfold finishRateMutation. simpl. rewrite Hset by done. unfold locked, commitRegions, checked in E. destruct (checkAll _ rhs); [done|done|]. simpl in E. injection E as <- _. apply unchanged_step.
Qed.
Lemma set_rollback_id m : associationRollback m = None -> set_rollback m None = m.
Proof. destruct m; simpl. by intros ->. Qed.
Lemma applyRollback_projection m rb : associationRollback (applyRollback m rb) = associationRollback m.
Proof. unfold applyRollback. destruct (fed m !! r_fed rb); [|done]. by case_match. Qed.
Lemma locked_projection {A} m f (c : change A) : associationRollback (locked opts m f c).1 = associationRollback m.
Proof. unfold locked. by destruct (c (stateFor opts m f)). Qed.
Lemma subscription_is_steps m f c interest : associationRollback m = None -> wf_in loose (stateFor opts m f) -> subscription_change c ->
  let mr := locked opts m f c in
  rtc step (m, None) (mgr (afterInterest mr.1 f (rollbackFor f (address (stateFor opts m f)) mr.2) (_ ← mr.2; Ret ()) interest), None).
Proof.
  intros Hn Hw Hc. cbv zeta. pose proof (subscription_revocable c Hc _ _ Hw) as Hr. pose proof (locked_projection m f c) as Hn'. rewrite Hn in Hn'.
  destruct (locked opts m f c) as [m' r] eqn:E. simpl in Hn' |- *. pose proof E as E'. unfold locked in E'. destruct (c (stateFor opts m f)) as [st res] eqn:Ec. injection E' as <- ->.
  destruct r as [[w|]|e|s]; simpl in *; subst.
  - assert (step (m, None) (publish m f st, Some (Build_pendingRollback f (address (stateFor opts m f)) w))) as Hb by by eapply step_begin, rate_subscription.
    unfold afterInterest. destruct (interest _) as [es [u|e|s]]; (eapply rtc_l; [exact Hb|]); apply rtc_once; simpl.
    + rewrite <- (set_rollback_id (publish m f st)) at 2 by done. constructor.
    + rewrite <- (set_rollback_id (applyRollback _ _)) by (by rewrite applyRollback_projection). constructor.
    + rewrite <- (set_rollback_id (applyRollback _ _)) by (by rewrite applyRollback_projection). constructor.
  - unfold afterInterest. destruct (interest _) as [es [u|e|s]]; apply unchanged_step.
  - apply unchanged_step.
  - apply unchanged_step.
Qed.
Lemma andThen_mgr r es : mgr (andThen r es) = mgr r.
Proof. unfold andThen. by destruct (ret r). Qed.
Lemma subscribe_is_steps m f sub cls attrs rhs o : associationRollback m = None -> wf_in loose (stateFor opts m f) ->
  rtc step (m, None) (mgr (SubscribeObjectClassAttributesWithRegionsAndOptions opts m f sub cls attrs rhs o), None).
Proof.
  intros Hn Hw. unfold SubscribeObjectClassAttributesWithRegionsAndOptions. destruct (_ ≫= _) as [required| |]; [|apply rtc_refl..].
  pose proof (subscription_is_steps m f _ (fun m => objectInterest opts m f sub cls) Hn Hw (sub_attributes sub cls attrs rhs required o)) as H. cbv zeta in H.
  destruct (locked _ _ _ _) as [m' r]. rewrite andThen_mgr. exact H.
Qed.
Lemma unsubscribe_is_steps m f sub cls attrs rhs : associationRollback m = None -> wf_in loose (stateFor opts m f) ->
  rtc step (m, None) (mgr (UnsubscribeObjectClassAttributesWithRegions opts m f sub cls attrs rhs), None).
Proof.
  intros Hn Hw. unfold UnsubscribeObjectClassAttributesWithRegions. destruct (objectContext _ _ _) as [required| |]; [|apply rtc_refl..].
  pose proof (subscription_is_steps m f _ (fun m => objectInterest opts m f sub cls) Hn Hw (unsub_attributes sub cls attrs rhs required)) as H. cbv zeta in H.
  destruct (locked _ _ _ _) as [m' r]. exact H.
Qed.
Lemma groups_is_steps m f sub cls groups o : associationRollback m = None -> wf_in loose (stateFor opts m f) ->
  rtc step (m, None) (mgr (changeObjectRegionGroups opts m f sub cls groups o), None).
Proof.
  intros Hn Hw. unfold changeObjectRegionGroups. destruct (_ ≫= _) as [required| |]; [|apply rtc_refl..].
  pose proof (fun i => subscription_is_steps m f _ i Hn Hw (change_groups sub cls groups (match o with Some _ => required | None => ∅ end) o)) as H. cbv zeta in H.
  destruct (locked _ _ _ _) as [m' r]. rewrite andThen_mgr. apply H.
Qed.
Lemma interaction_is_steps m f sub cls rhs active : associationRollback m = None -> wf_in loose (stateFor opts m f) ->
  rtc step (m, None) (mgr (SubscribeInteractionClassWithRegionsAndOptions opts m f sub cls rhs active), None) /\
  rtc step (m, None) (mgr (UnsubscribeInteractionClassWithRegions opts m f sub cls rhs), None).
Proof.
  intros Hn Hw. unfold SubscribeInteractionClassWithRegionsAndOptions, UnsubscribeInteractionClassWithRegions, changeInteraction.
  destruct (interactionContext _ _) as [context| |]; [|split; apply rtc_refl..].
  pose proof (subscription_is_steps m f _ (fun m => interactionInterest opts m f sub cls) Hn Hw (sub_interaction sub cls rhs context active)) as H1.
  pose proof (subscription_is_steps m f _ (fun m => interactionInterest opts m f sub cls) Hn Hw (unsub_interaction sub cls rhs context)) as H2. cbv zeta in H1, H2.
  split; [destruct (locked opts m f (subscribeInteraction _ _ _ _ _)) as [m1 r1]; exact H1|destruct (locked opts m f (unsubscribeInteraction _ _ _ _)) as [m1 r1]; exact H2].
Qed.
Lemma association_is_steps m f caller obj groups mode : associationRollback m = None ->
  rtc step (m, None) (mgr (changeAssociationGroupsMode opts ports m f caller obj groups mode), None).
Proof.
  intros Hn. unfold changeAssociationGroupsMode. destruct (beginAssociation opts ports m f caller obj groups mode) as [[m' rb] r] eqn:E.
  assert (rb = None -> rtc step (m, None) (m', None) /\ associationRollback m' = None) as Hnone.
  { intros ->. unfold beginAssociation in E. destruct (prepareAssociationGroups _ _ _ _ _ _ _) as [[[gs owners] required]| |]; [|by injection E as <- _..].
    pose proof (locked_projection m f (changeAssociations caller obj gs owners required mode)) as Hp. rewrite Hn in Hp.
    destruct (locked _ _ _ _) as [m1 [[|]| |]] eqn:El; try done; injection E as <- _; simpl in Hp; (split; [|done]); unfold locked, changeAssociations, checked in El.
    - destruct (validateGroups _ _ _ _); [|done..]. simpl in El. destruct (_ && _); [done|]. destruct (List.filter (changesAssociations mode) gs); [|done]. injection El as <-. apply unchanged_step.
    - destruct (validateGroups _ _ _ _); simpl in El; [destruct (_ && _); [done|]; by destruct (List.filter (changesAssociations mode) gs)|injection El as <- _; apply unchanged_step|done].
    - destruct (validateGroups _ _ _ _); simpl in El; [destruct (_ && _); [done|]; by destruct (List.filter (changesAssociations mode) gs)|done|injection El as <- _; apply unchanged_step]. }
  destruct rb as [rb|].
  - assert (r = Ret ()) as ->.
    { unfold beginAssociation in E. destruct (prepareAssociationGroups _ _ _ _ _ _ _) as [[[gs owners] required]| |]; [|done..]. destruct (locked _ _ _ _) as [m1 [[|]| |]]; try done. by injection E as _ _ <-. }
    assert (step (m, None) (m', Some rb)) as Hb by by eapply step_begin, rate_association.
    unfold finishRateMutation. destruct (onRateDemandChanged opts) as [hook|]; [destruct (hook f)|]; simpl; (eapply rtc_l; [exact Hb|]); apply rtc_once; constructor.
  - destruct (Hnone eq_refl) as [Hs Hp]. unfold finishRateMutation. destruct r; simpl; by rewrite set_rollback_id.
Qed.
End Reach.
