(* ===== verification/DdmTheorems.v ===== *)
(** * Data distribution management: what the services promise

    The theorems about the services, with a small federation they are applied
    to: federate 1 subscribes attribute 7 of class 5 with region 1, federate 2
    associates its region 2 with that attribute of instance 9; and a registration
    inside a commit that is refused. *)
From stdpp Require Import gmap.
From S2P Require Import Prelude GoBytes FomDimension Ddm DdmRegion DdmSubscribe DdmAssociate DdmRoute DdmInvariant DdmSubscriptionProofs DdmWindow DdmReach.
Open Scope Z_scope.

(** ** A small federation *)
Definition demoFOM : FOMHandle := Build_FOMHandle true (Some [Build_Dimension "x" 100 "NA"; Build_Dimension "y" 50 "[0..50)"]) (Some (fun _ _ => Some [1; 2])) (Some (fun _ => Some [1; 2])) None None None (fun _ _ => None) None.
Definition demoOptions : Options := Build_Options asciiNd (fun _ => Ret demoFOM) None None None None false None false.
Definition demoPorts : AssociationPorts := Build_AssociationPorts None None.
Definition demo0 : Manager := Build_Manager ∅ None 0.
Definition demo1 : Manager := (CreateRegion demoOptions demo0 "F" 1 1 [1]).1.
Definition demo2 : Manager := (CreateRegion demoOptions demo1 "F" 2 1 [1]).1.
Definition demo3 : Manager := (SetRangeBounds demoOptions demo2 "F" 1 1 1 (Build_Range 10 20)).1.
Definition demo4 : Manager := (SetRangeBounds demoOptions demo3 "F" 2 2 1 (Build_Range 15 30)).1.
Definition demo5 : Manager := mgr (CommitRegionModifications demoOptions demo4 "F" 1 [1]).
Definition demo6 : Manager := mgr (CommitRegionModifications demoOptions demo5 "F" 2 [2]).
Definition demo7 : Manager := mgr (SubscribeObjectClassAttributesWithRegions demoOptions demo6 "F" 1 5 [7] [1]).
Definition demo8 : Manager := mgr (AssociateRegionGroupsForUpdates demoOptions demoPorts demo7 "F" 2 9 [Build_AttributeRegionGroup [7] [2]]).
Lemma demo_FOMs : FOMs_ok demoOptions.
Proof. intros f h [= <-] ds [= <-]. repeat constructor; vm_compute; congruence. Qed.
Lemma demo6_reached loose : rtc (step demoOptions demoPorts loose) (demo0, None) (demo6, None).
Proof.
  apply (rtc_l _ _ (demo1, None)); [exact (step_service _ _ _ demo0 _ None (s_create _ _ "F" 1 1 [1]))|].
  apply (rtc_l _ _ (demo2, None)); [exact (step_service _ _ _ demo1 _ None (s_create _ _ "F" 2 1 [1]))|].
  apply (rtc_l _ _ (demo3, None)); [exact (step_exclusive _ _ _ demo2 _ (s_bounds _ _ "F" 1 1 1 (Build_Range 10 20)))|].
  apply (rtc_l _ _ (demo4, None)); [exact (step_exclusive _ _ _ demo3 _ (s_bounds _ _ "F" 2 2 1 (Build_Range 15 30)))|].
  transitivity (demo5, @None pendingRollback).
  - apply (commit_is_steps demoOptions demoPorts loose demo4 "F" 1 [1]). vm_compute. reflexivity.
  - apply (commit_is_steps demoOptions demoPorts loose demo5 "F" 2 [2]). vm_compute. reflexivity.
Qed.
Lemma demo8_reached : rtc (step demoOptions demoPorts false) (demo0, None) (demo8, None).
Proof.
  transitivity (demo6, @None pendingRollback); [apply demo6_reached|]. transitivity (demo7, @None pendingRollback).
  - pose proof (stateFor_wf demoOptions demo6 "F" demo_FOMs (c_states _ _ (reachable_config_wf _ _ _ _ demo_FOMs (demo6_reached false)))) as Hw.
    apply (subscribe_is_steps demoOptions demoPorts false demo6 "F" 1 5 [7] [1] (Build_SubscriptionOptions true "")); [vm_compute; reflexivity|exact Hw].
  - apply (association_is_steps demoOptions demoPorts false demo7 "F" 2 9 [Build_AttributeRegionGroup [7] [2]] associationAdd). vm_compute. reflexivity.
Qed.
Lemma demo8_wf : config_wf false (demo8, None).
Proof. exact (reachable_config_wf _ _ _ _ demo_FOMs demo8_reached). Qed.
Definition demoState : federationDDMState := default (newFederationDDMState 0) (fed demo8 !! "F").
Lemma demoState_at : fed demo8 !! "F" = Some demoState.
Proof. vm_compute. reflexivity. Qed.
Lemma demoState_wf : ddm_wf demoState.
Proof. exact (c_states _ _ demo8_wf "F" demoState demoState_at). Qed.
Example demo_regions : map (fun rh => committed <$> regionsOf demoState !! rh) [1; 2] = [Some {[1 := Build_Range 10 20]}; Some {[1 := Build_Range 15 30]}].
Proof. vm_compute. reflexivity. Qed.


(** ** Routing *)
Lemma publisher_there {loose} m f st obj a pub : fed m !! f = Some st -> wf_in loose st -> PublisherRegionsFor m f obj a = Some pub ->
  pub <> [] /\ Forall (fun rh => is_Some (regionsOf st !! rh)) pub.
Proof.
  intros E Hw. unfold PublisherRegionsFor. rewrite E. simpl. intros (per & Ep & Ea)%bind_Some. destruct (w_pubs st Hw obj per Ep) as [_ Hp]. destruct (Hp a pub Ea) as [Hn Hf]. split; [done|].
  eapply Forall_impl; [exact Hf|]. intros rh (h & rs & Er & _). by exists rs.
Qed.
Lemma row_usable {K} `{Countable K} {O} st (m : gmap K (list (rowOf O))) k row : subs_ok (usable st) m -> row ∈ default [] (m !! k) ->
  Forall (fun rh => usable st (subscriber row) rh) (regions row).
Proof.
  intros Hm Hrow. destruct (m !! k) as [rows|] eqn:E; [|by apply elem_of_nil in Hrow]. destruct (Hm k rows E) as (_ & Hf & _). rewrite Forall_forall in Hf.
  by destruct (Hf row Hrow) as (_ & _ & Hu).
Qed.
Lemma usable_there st h rhs : Forall (usable st h) rhs -> Forall (fun rh => is_Some (regionsOf st !! rh)) rhs.
Proof. intros H. eapply Forall_impl; [exact H|]. intros rh (rs & Er & _). by exists rs. Qed.
(** C13: an update of an attribute goes, in handle order, to exactly the
    federates with a subscription to it one of whose regions meets a committed
    region associated with the attribute: both specify or default a common
    dimension, and on each one they have a common point. *)
Theorem update_routing_exact {loose} m f st obj cls a pub : fed m !! f = Some st -> wf_in loose st -> PublisherRegionsFor m f obj a = Some pub ->
  exists l, SubscribersForUpdate m f cls a pub = Some l /\ StronglySorted Z.lt l /\
    forall h, h ∈ l <-> exists row rh rs rh' rs', row ∈ default [] (objSubs st !! (cls, a)) /\ subscriber row = h /\
      rh ∈ pub /\ regionsOf st !! rh = Some rs /\ template rs = false /\ rh' ∈ regions row /\ regionsOf st !! rh' = Some rs' /\
      meet (realizationOf st (availableTo st cls a).1 (availableTo st cls a).2 rs) (realizationOf st (availableTo st cls a).1 (availableTo st cls a).2 rs').
Proof.
  intros E Hw Hp. destruct (publisher_there m f st obj a pub E Hw Hp) as [Hn Hu]. unfold SubscribersForUpdate. rewrite bool_decide_false, E by done.
  eexists. split; [done|]. split; [apply sortCompact_sorted|]. intros h. rewrite subscribersWhere_in. split.
  - intros (row & Hrow & <- & Ho). pose proof (usable_there _ _ _ (row_usable st _ _ row (w_obj st Hw) Hrow)) as Hr.
    apply regionsOverlap_meet in Ho as (p & s & Hp' & Hs & Hm); [|by apply (objectRealizations_ok st Hw)..].
    apply (objectRealizations_in st Hw) in Hp' as (rh & rs & ? & ? & ? & ->); [|done..]. apply (objectRealizations_in st Hw) in Hs as (rh' & rs' & ? & ? & _ & ->); [|done..].
    exists row, rh, rs, rh', rs'. by split_and!.
  - intros (row & rh & rs & rh' & rs' & Hrow & Es & Hrh & Ers & Ht & Hrh' & Ers' & Hm). exists row. split_and!; [done..|]. pose proof (row_usable st _ _ row (w_obj st Hw) Hrow) as Hr.
    assert (template rs' = false) as Ht'. { rewrite Forall_forall in Hr. destruct (Hr rh' Hrh') as (x & Ex & _ & Hx). congruence. }
    apply usable_there in Hr. apply regionsOverlap_meet; [by apply (objectRealizations_ok st Hw)..|]. do 2 eexists. split_and!; [| |exact Hm]; (apply (objectRealizations_in st Hw); [done|]); eauto 6.
Qed.
Lemma update_routing_exact_witness : exists l, SubscribersForUpdate demo8 "F" 5 7 [2] = Some l /\ l = [1] /\ StronglySorted Z.lt l.
Proof.
  destruct (update_routing_exact demo8 "F" demoState 9 5 7 [2] demoState_at demoState_wf) as (l & E & Hs & _); [vm_compute; reflexivity|].
  exists l. split; [exact E|]. split; [|exact Hs]. vm_compute in E. injection E as <-. reflexivity.
Defined.

(** ** Subscriptions as a table *)
(** The table a subscription service implements: (class, attribute), federate
    and region to the options of the subscription. *)
Definition subscribed (st : federationDDMState) (key : objAttrKey) (h rh : Z) (o : objectOptions) : Prop := holds (default [] (objSubs st !! key)) h rh o.
Definition named (sub : FederateHandle) (cls : ObjectClassHandle) (attrs : list AttributeHandle) (rhs : list RegionHandle) (key : objAttrKey) (h rh : Z) : Prop :=
  key.1 = cls /\ key.2 ∈ attrs /\ h = sub /\ rh ∈ rhs.
Lemma add_subscribed {loose} st cls a sub rhs o key h rh x : wf_in loose st -> rhs <> [] ->
  subscribed (addObjectSubscriptionLocked st (cls, a) (Row sub rhs o)) key h rh x <->
  (key = (cls, a) /\ h = sub /\ rh ∈ rhs /\ x = o) \/ (~ (key = (cls, a) /\ h = sub /\ rh ∈ rhs) /\ subscribed st key h rh x).
Proof.
  intros Hw Hr. unfold subscribed. simpl. destruct (decide (key = (cls, a))) as [->|Hk].
  - rewrite lookup_insert_eq. simpl. rewrite (addRow_holds (usable st)) by (done || eapply default_rows_ok, w_obj, Hw). tauto.
  - rewrite lookup_insert_ne by done. tauto.
Qed.
Lemma remove_subscribed st cls a sub rhs key h rh x : rhs <> [] ->
  subscribed (removeObjectSubscriptionRegions st (cls, a) sub rhs) key h rh x <-> subscribed st key h rh x /\ ~ (key = (cls, a) /\ h = sub /\ rh ∈ rhs).
Proof.
  intros Hr. unfold subscribed. simpl. rewrite default_put. destruct (decide (key = (cls, a))) as [->|Hk]; [|tauto].
  rewrite remove_holds by done. tauto.
Qed.
Lemma add_all {loose} st cls attrs sub rhs o key h rh x : wf_in loose st -> rhs <> [] -> Forall (usable st sub) rhs ->
  subscribed (fold_left (fun st a => addObjectSubscriptionLocked st (cls, a) (Row sub rhs o)) attrs st) key h rh x <->
  (named sub cls attrs rhs key h rh /\ x = o) \/ (~ named sub cls attrs rhs key h rh /\ subscribed st key h rh x).
Proof.
  unfold named. intros Hw Hr. revert st Hw. induction attrs as [|a attrs IH]; intros st Hw Hu; simpl; [set_solver|].
  rewrite IH; [|by apply addObject_wf|exact Hu]. rewrite add_subscribed by done. destruct key as [k a']. simpl. rewrite elem_of_cons, pair_equal_spec.
  destruct (decide (k = cls)), (decide (a' = a)), (decide (a' ∈ attrs)), (decide (h = sub)), (decide (rh ∈ rhs)); tauto.
Qed.
Lemma remove_all st cls attrs sub rhs key h rh x : rhs <> [] ->
  subscribed (fold_left (fun st a => removeObjectSubscriptionRegions st (cls, a) sub rhs) attrs st) key h rh x <-> subscribed st key h rh x /\ ~ named sub cls attrs rhs key h rh.
Proof.
  unfold named. intros Hr. revert st. induction attrs as [|a attrs IH]; intros st; simpl; [set_solver|].
  rewrite IH, remove_subscribed by done. destruct key as [k a']. simpl. rewrite elem_of_cons, pair_equal_spec. tauto.
Qed.
(** C14: the subscriptions of object classes are a table from (class, attribute),
    federate and region to options: subscribing with regions overwrites exactly
    the entries named, unsubscribing deletes exactly these, whatever rows they
    were kept in, and a refused service changes nothing. *)
Theorem subscription_table {loose} st sub cls attrs rhs required o : wf_in loose st ->
  (forall key h rh x y, subscribed st key h rh x -> subscribed st key h rh y -> x = y) /\
  (match subscribeAttributes sub cls attrs rhs required o st with
   | (st', Ret (Some _)) => forall key h rh x, subscribed st' key h rh x <->
       (named sub cls attrs rhs key h rh /\ x = Build_objectOptions (negb (Active o)) (UpdateRateDesignator o)) \/ (~ named sub cls attrs rhs key h rh /\ subscribed st key h rh x)
   | (st', _) => st' = st end) /\
  (match unsubscribeAttributes sub cls attrs rhs required st with
   | (st', Ret (Some _)) => forall key h rh x, subscribed st' key h rh x <-> subscribed st key h rh x /\ ~ named sub cls attrs rhs key h rh
   | (st', _) => st' = st end).
Proof.
  intros Hw. split; [intros key h rh x y; eapply holds_fun, default_rows_ok, (w_obj st Hw)|]. unfold subscribeAttributes, unsubscribeAttributes, checked.
  destruct (validateObjectRegions st sub attrs rhs required) as [u| |] eqn:Hv; [|done..]. simpl. case_bool_decide as Hr; [done|]. simpl.
  apply validateObjectRegions_usable in Hv. split; intros key h rh x; [by apply (add_all (loose := loose))|by apply remove_all].
Qed.
Lemma subscription_table_witness : let st' := (subscribeAttributes 1 5 [7; 8] [1] ∅ (Build_SubscriptionOptions false "slow") demoState).1 in
  subscribed demoState (5, 7) 1 1 (Build_objectOptions false "") /\ subscribed st' (5, 7) 1 1 (Build_objectOptions true "slow") /\ ~ subscribed st' (5, 7) 1 1 (Build_objectOptions false "").
Proof.
  pose proof (subscription_table demoState 1 5 [7; 8] [1] ∅ (Build_SubscriptionOptions false "slow") demoState_wf) as (Hf & H & _). cbv zeta.
  assert (subscribed demoState (5, 7) 1 1 (Build_objectOptions false "")) as H0.
  { exists (Row 1 [1] (Build_objectOptions false "")). split; [|split_and!; [done|by left|done]]. apply list_elem_of_In. vm_compute. by left. }
  assert (named 1 5 [7; 8] [1] (5, 7) 1 1) as Hn by (split_and!; [done|by left|done|by left]).
  destruct (subscribeAttributes _ _ _ _ _ _ _) as [st' r] eqn:E.
  pose proof (f_equal snd E) as Er. vm_compute in Er. subst r.
  split; [exact H0|]. split; [apply H; left; split; [exact Hn|reflexivity]|]. intros H1. apply H in H1 as [[_ H1]|[H1 _]]; [discriminate H1|exact (H1 Hn)].
Defined.

(** ** Ranges *)
(** A range takes effect when it is committed and not before: setting one
    changes the realization of no region; committing is refused as a whole, with
    no effect, unless the caller owns every region and each template among them
    has all its dimensions set; otherwise each region named takes its pending
    ranges, keeps the ranges of other dimensions, and no other region changes. *)
Theorem pending_until_commit {loose} st who : wf_in loose st ->
  (forall rh dim b rh', materializeOne (setRangeBounds who rh dim b st).1 rh' = materializeOne st rh') /\
  forall rhs, match commitRegions who rhs st with
  | (st', Ret _) => Forall (fun rh => committable st who rh = Ret ()) rhs /\
      forall rh, regionsOf st' !! rh = (rs ← regionsOf st !! rh; Some (if decide (rh ∈ rhs) then Build_regionState false (owner rs) (space rs) (dims rs) (pending rs ∪ committed rs) ∅ else rs))
  | (st', _) => st' = st /\ ~ Forall (fun rh => committable st who rh = Ret ()) rhs
  end.
Proof.
  intros Hw. split.
  - intros rh dim b rh'. unfold setRangeBounds. destruct (regionsOf st !! rh) as [rs|] eqn:E; [|done]. repeat (match goal with |- context [if ?b then _ else _] => destruct b end; [done|]).
    unfold materializeOne. simpl. destruct (conveyed st !! rh'); [done|]. destruct (decide (rh' = rh)) as [->|]; [by rewrite lookup_insert_eq, E|by rewrite lookup_insert_ne].
  - intros rhs. unfold commitRegions, checked. pose proof (checkAll_Ret (committable st who) rhs) as Hc. destruct (checkAll _ rhs) as [[]| |]; simpl; [|split; [done|]; by rewrite <- Hc..].
    split; [by apply Hc|]. clear Hc Hw. revert st. induction rhs as [|x l IH]; intros st rh; simpl; [by destruct (regionsOf st !! rh)|].
    rewrite IH, commitOne_regions. destruct (regionsOf st !! rh) as [rs|]; [|by destruct (decide (rh = x))]. destruct (decide (rh = x)) as [->|]; simpl.
    + destruct (decide (x ∈ l)), (decide (x ∈ x :: l)) as [|Hn]; try done; [by rewrite map_empty_union|exfalso; set_solver|exfalso; set_solver].
    + destruct (decide (rh ∈ l)), (decide (rh ∈ x :: l)) as [Hn|Hn]; try done; exfalso; set_solver.
Qed.
Lemma pending_until_commit_witness : exists st' w, commitRegions 1 [1] (setRangeBounds 1 1 1 (Build_Range 40 50) demoState).1 = (st', Ret w) /\
  committed <$> regionsOf st' !! 1 = Some {[1 := Build_Range 40 50]}.
Proof.
  assert (ddm_wf (setRangeBounds 1 1 1 (Build_Range 40 50) demoState).1) as Hw by (apply setRangeBounds_wf, demoState_wf).
  destruct (pending_until_commit _ 1 Hw) as [_ H]. specialize (H [1]). destruct (commitRegions 1 [1] _) as [st' r] eqn:E.
  pose proof (f_equal snd E) as Er. vm_compute in Er. subst r.
  eexists st', _. split; [done|]. destruct H as [_ H]. rewrite (H 1). vm_compute. reflexivity.
Defined.

(** ** Refused changes *)
(** An ownership change while the hook decides on an unassociation. *)
Lemma refused_change_undone_witness : exists m' rb st, rate_change demoOptions demoPorts "F" demo8 m' rb /\
  fed (applyRollback (fold_left (moveManager "F") [OwnershipMoved 9 {[7 := 2]} {[7 := 3]}] m') rb) !! "F" = Some st /\
  st ≡ moves [OwnershipMoved 9 {[7 := 2]} {[7 := 3]}] (stateFor demoOptions demo8 "F").
Proof.
  pose proof (stateFor_wf demoOptions demo8 "F" demo_FOMs (c_states _ _ demo8_wf)) as Hw.
  destruct (beginAssociation demoOptions demoPorts demo8 "F" 2 9 [Build_AttributeRegionGroup [7] [2]] associationRemove) as [[m' o] r] eqn:E.
  assert (exists rb, o = Some rb) as [rb ->].
  { destruct o as [rb|]; [by exists rb|]. exfalso. pose proof (f_equal (fun x => match x.1.2 with Some _ => true | None => false end) E) as Eo. vm_compute in Eo. discriminate. }
  assert (r = Ret ()) as ->. { pose proof (f_equal snd E) as Eo. vm_compute in Eo. exact (eq_sym Eo). }
  pose proof (rate_association demoOptions demoPorts "F" demo8 _ _ _ _ _ _ E) as Hc.
  destruct (refused_change_undone demoOptions demoPorts "F" demo8 m' rb [OwnershipMoved 9 {[7 := 2]} {[7 := 3]}] Hw Hc) as (st & Est & Eq).
  exists m', rb, st. split; [exact Hc|]. split; [|exact Eq]. rewrite Est. apply lookup_insert_eq.
Defined.

(** ** Resignation *)
(** A federate that resigned leaves no region, subscription, pending
    association or lease; associations of others with its regions lose these, and
    everything else of the others stays as it was. *)
Theorem resigned_leaves_nothing {loose} st h : wf_in loose st -> let st' := removeFederateState st h in
  (forall rh, regionsOf st' !! rh = (rs ← regionsOf st !! rh; if owner rs =? h then None else Some rs)) /\
  (forall k, objSubs st' !! k = (objSubs st !! k ≫= fun rows => nonempty (withoutSubscriber h rows))) /\
  (forall k, intSubs st' !! k = (intSubs st !! k ≫= fun rows => nonempty (withoutSubscriber h rows))) /\
  (forall obj a, (objPubs st' !! obj ≫= fun per => per !! a) = (objPubs st !! obj ≫= fun per => per !! a) ≫= fun rhs => nonempty (keepRegions st' rhs)) /\
  (forall obj c a, pendingAt (inactivePubs st') obj c a = if decide (c = h) then None else pendingAt (inactivePubs st) obj c a) /\
  (forall rh, leaseholders st' rh = delete h (leaseholders st rh)).
Proof.
  intros Hw st'. unfold st'. destruct (resigned_shape st h Hw) as (R & y & HR & -> & _ & Hy). pose proof (releaseConveyedReceiver_holders h st) as Hl. split_and!.
  - exact HR.
  - intros k. exact (resigned_rows st h (objSubs st) R k (w_obj st Hw) HR).
  - intros k. exact (resigned_rows st h (intSubs st) R k (w_int st Hw) HR).
  - intros obj a. simpl. rewrite lookup_omap. destruct (objPubs st !! obj) as [per|]; [|done]. simpl. rewrite keepMap_if.
    etrans; [|apply (lookup_omap (fun rhs => nonempty (keepRegions (set_regionsOf (releaseConveyedReceiver st h) (nextRegionHandle st) R) rhs)) per a)].
    fold (keepAssociations (set_regionsOf (releaseConveyedReceiver st h) (nextRegionHandle st) R) per).
    unfold keepMap. case_bool_decide as E; [rewrite E, lookup_empty; done|done].
  - exact Hy.
  - exact Hl.
Qed.
Lemma resigned_leaves_nothing_witness : let st' := removeFederateState demoState 2 in regionsOf st' !! 2 = None /\ objSubs st' !! (5, 7) = objSubs demoState !! (5, 7).
Proof.
  destruct (resigned_leaves_nothing demoState 2 demoState_wf) as (H1 & H2 & _). cbv zeta in H1, H2 |- *. rewrite H1, H2. split; vm_compute; reflexivity.
Defined.

(** ** Conveyed regions *)
Lemma rangesOf_map (b : regionBounds) src s : NewRegionRealizationSnapshot src (map (fun dr : DimensionHandle * Range => Build_RegionDimensionRange dr.1 dr.2) (map_to_list b)) = Ret s ->
  source s = src /\ src <> 0 /\ rangesOf s = b.
Proof.
  unfold NewRegionRealizationSnapshot. destruct (Z.eqb_spec src 0); [done|]. intros (u & _ & [= <-])%bind_Ret_inv. split_and!; [done..|]. unfold rangesOf. simpl.
  set (l := map (fun dr : DimensionHandle * Range => Build_RegionDimensionRange dr.1 dr.2) (map_to_list b)).
  pose proof (merge_sort_Permutation dimensionLe l) as Hp. apply (fold_insert_eq rd_Dimension Bounds b).
  - rewrite Hp. unfold l. rewrite map_map. apply (NoDup_fst_map_to_list b).
  - intros e. rewrite Hp. unfold l. intros ([d r] & -> & Hin)%list_elem_of_fmap. by apply elem_of_map_to_list in Hin.
  - intros d [r Er]. rewrite Hp. unfold l. rewrite map_map. apply list_elem_of_fmap. exists (d, r). split; [done|by apply elem_of_map_to_list].
Qed.
Lemma captureAll_spec realize_ rhs next copies : captureAll next rhs realize_ = Ret copies ->
  map Designator copies = map (fun i => next + 1 + Z.of_nat i) (seq 0 (length rhs)) /\ map (fun c => source (Realization c)) copies = rhs /\
  Forall (fun c => realize_ [source (Realization c)] = [rangesOf (Realization c)]) copies.
Proof.
  revert next copies. induction rhs as [|rh l IH]; intros next copies; simpl; [by intros [= <-]|]. destruct (realize_ [rh]) as [|b [|]] eqn:E; [done| |done].
  intros (s & (Hs & _ & Hr)%rangesOf_map & (cs & Hc & [= <-])%bind_Ret_inv)%bind_Ret_inv. apply IH in Hc as (H1 & H2 & H3). split_and!.
  - simpl. f_equal; [lia|]. rewrite H1, <- seq_shift, map_map. apply map_ext. lia.
  - simpl. by rewrite Hs, H2.
  - constructor; [|done]. simpl. by rewrite Hs, Hr.
Qed.
(** Each region conveyed with a callback gets a designator of its own that no
    region and no conveyed region has or had, and that is skipped from then on;
    with it goes the realization the region has at that moment. *)
Theorem conveyed_designators_fresh {loose} st rhs realize_ st' copies : wf_in loose st -> captureRealizations st rhs realize_ = Ret (st', copies) ->
  NoDup (map Designator copies) /\ map (fun c => source (Realization c)) copies = sortCompact rhs /\
  Forall (fun c => nextRegionHandle st < Designator c <= nextRegionHandle st' /\ regionsOf st' !! Designator c = None /\ conveyed st' !! Designator c = None /\
    realize_ [source (Realization c)] = [rangesOf (Realization c)]) copies /\ wf_in loose st'.
Proof.
  intros Hw Hc. pose proof (capture_wf st rhs realize_ st' copies Hw Hc) as Hw'. unfold captureRealizations in Hc. case_bool_decide as Hr.
  { injection Hc as <- <-. subst rhs. split_and!; [constructor|done|constructor|done]. }
  cbv zeta in Hc. destruct (_ <? _); [done|]. apply bind_Ret_inv in Hc as (cs & (Hd & Hs & Hrl)%captureAll_spec & [= <- <-]).
  assert (length cs = length (sortCompact rhs)) as Hlen by (rewrite <- Hs; by rewrite length_map).
  split_and!; [|done| |done].
  - rewrite Hd. apply NoDup_fmap_2; [intros i j; lia|]. apply NoDup_ListNoDup, seq_NoDup.
  - rewrite Forall_forall in Hrl |- *. intros c Hin. assert (nextRegionHandle st < Designator c <= nextRegionHandle st + Z.of_nat (length cs)) as Hb.
    { apply (list_elem_of_fmap_2 Designator) in Hin. change (fmap Designator cs) with (map Designator cs) in Hin. rewrite Hd in Hin.
      apply list_elem_of_In, in_map_iff in Hin as (i & <- & Hi%in_seq). lia. }
    simpl. split_and!; [lia|lia| | |by apply Hrl].
    + destruct (regionsOf st !! Designator c) eqn:E; [|done]. pose proof (w_handles st Hw (Designator c) ltac:(left; by rewrite E)). lia.
    + destruct (conveyed st !! Designator c) eqn:E; [|done]. pose proof (w_handles st Hw (Designator c) ltac:(right; by rewrite E)). lia.
Qed.
Lemma conveyed_designators_fresh_witness : exists st' copies, captureRealizations demoState [2] (objectRealizations demoState 5 7) = Ret (st', copies) /\ NoDup (map Designator copies).
Proof.
  destruct (captureRealizations demoState [2] (objectRealizations demoState 5 7)) as [[st' copies]| |] eqn:E; [|vm_compute in E; discriminate E..].
  exists st', copies. split; [done|]. by destruct (conveyed_designators_fresh _ _ _ _ _ demoState_wf E) as (H & _).
Defined.

(** ** A registration while a commit is being decided *)
(** [PrepareObjectRegistration] takes [Manager.mu] only: it may use a region
    between its first commit and the refusal of that commit, which makes the
    region a template again.  The instance is then associated with a region that
    has no realization, and its updates reach no subscriber. *)
Definition strand0 : Manager := (SetRangeBounds demoOptions demo1 "F" 1 1 1 (Build_Range 10 20)).1.
Definition strandWhat : rollback := match (locked demoOptions strand0 "F" (commitRegions 1 [1])).2 with Ret w => w | _ => RollRegions ∅ end.
Definition strand1 : Manager := (locked demoOptions strand0 "F" (commitRegions 1 [1])).1.
Definition strandUndo : pendingRollback := Build_pendingRollback "F" (address (stateFor demoOptions strand0 "F")) strandWhat.
Definition strand2 : Manager :=
  match PrepareObjectRegistration demoOptions strand1 "F" 1 5 {[7 := [1]]} with Ret r => commitRegistration strand1 "F" r 9 | _ => strand1 end.
Definition strand3 : Manager := set_rollback (applyRollback strand2 strandUndo) None.
Lemma strand_reached : rtc (step demoOptions demoPorts true) (demo0, None) (strand3, None).
Proof.
  apply (rtc_l _ _ (demo1, None)); [exact (step_service _ _ _ demo0 _ None (s_create _ _ "F" 1 1 [1]))|].
  apply (rtc_l _ _ (strand0, None)); [exact (step_exclusive _ _ _ demo1 _ (s_bounds _ _ "F" 1 1 1 (Build_Range 10 20)))|].
  apply (rtc_l _ _ (strand1, Some strandUndo)); [|apply (rtc_l _ _ (strand2, Some strandUndo)); [|apply rtc_once, step_refused]].
  - apply (step_begin _ _ _ "F"), (rate_commit _ _ _ _ 1 [1]). unfold strand1, strandWhat. destruct (locked _ _ _ _) as [m r] eqn:E.
    pose proof (f_equal snd E) as Er. vm_compute in Er. subst r. done.
  - apply (step_register _ _ _ "F"); [by left|]. assert (exists r, PrepareObjectRegistration demoOptions strand1 "F" 1 5 {[7 := [1]]} = Ret r) as [r E] by (eexists; vm_compute; reflexivity).
    unfold strand2. rewrite E. apply (s_register demoOptions "F" strand1 1 5 (bindingGroups {[7 := [1]]}) false r 9), E.
Qed.
Theorem refused_commit_strands_registration : rtc (step demoOptions demoPorts true) (demo0, None) (strand3, None) /\
  PublisherRegionsFor strand3 "F" 9 7 = Some [1] /\ (st ← fed strand3 !! "F"; template <$> regionsOf st !! 1) = Some true.
Proof. split; [exact strand_reached|]. vm_compute. done. Qed.
