(* ===== verification/DdmRestore.v ===== *)
(** * Data distribution management: a saved state restores

    Importing the export of a state gives that state back, up to the order of
    the rows of a subscription table; the dimensions are those of the federation
    that imports, to be refreshed at the next use. *)
From stdpp Require Import gmap.
From S2P Require Import Prelude GoBytes FomDimension Ddm DdmRegion DdmSubscribe DdmAssociate DdmRoute DdmInvariant DdmSubscriptionProofs DdmWindow DdmTheorems.
Open Scope Z_scope.

(** ** Ordered tables *)
Lemma keysOf_in {A} (m : gmap Z A) k : k ∈ keysOf m <-> is_Some (m !! k).
Proof. unfold keysOf. rewrite sortHandles_in, elem_of_elements, elem_of_dom. done. Qed.
Lemma keysOf_NoDup {A} (m : gmap Z A) : NoDup (keysOf m).
Proof. unfold keysOf. apply sortHandles_NoDup, NoDup_elements. Qed.
(** A table listed by its keys, one record per entry. *)
Lemma listed {K} `{Countable K} {A B} (f : K -> A -> B) (key : B -> K) (m : gmap K A) (keys : list K) : (forall k a, key (f k a) = k) -> NoDup keys ->
  map key (omap (fun k => a ← m !! k; Some (f k a)) keys) = List.filter (fun k => bool_decide (is_Some (m !! k))) keys /\
  NoDup (map key (omap (fun k => a ← m !! k; Some (f k a)) keys)) /\
  (forall b, b ∈ omap (fun k => a ← m !! k; Some (f k a)) keys <-> exists k a, k ∈ keys /\ m !! k = Some a /\ b = f k a).
Proof.
  intros Hk Hn. assert (map key (omap (fun k => a ← m !! k; Some (f k a)) keys) = List.filter (fun k => bool_decide (is_Some (m !! k))) keys) as E.
  { clear Hn. induction keys as [|k l IH]; [done|]. simpl. destruct (m !! k) as [a|]; simpl; [rewrite Hk; f_equal; exact IH|exact IH]. }
  split_and!; [done| |].
  - rewrite E. apply NoDup_ListNoDup, List.NoDup_filter, NoDup_ListNoDup, Hn.
  - intros b. rewrite list_elem_of_omap. setoid_rewrite bind_Some. split; [intros (k & Hin & a & Ea & [= <-]); by exists k, a|intros (k & a & Hin & Ea & ->); exists k; eauto].
Qed.
Lemma rebuild {A B V} (f : Z -> A -> B) (key : B -> Z) (val : B -> V) (g : A -> V) (m : gmap Z A) : (forall k a, key (f k a) = k) -> (forall k a, m !! k = Some a -> val (f k a) = g a) ->
  fold_insert key val (omap (fun k => a ← m !! k; Some (f k a)) (keysOf m)) ∅ = g <$> m.
Proof.
  intros Hk Hv. destruct (listed f key m (keysOf m) Hk (keysOf_NoDup m)) as (E & Hn & Hin). apply fold_insert_eq; [done| |].
  - intros b (k & a & _ & Ea & ->)%Hin. rewrite Hk, lookup_fmap, Ea. simpl. by rewrite (Hv k).
  - intros k Hs. rewrite E. rewrite lookup_fmap, fmap_is_Some in Hs. apply list_elem_of_In, filter_In. split; [by apply list_elem_of_In, keysOf_in|by apply bool_decide_eq_true].
Qed.
Lemma ranges_round m : importRanges (exportRanges m) = m.
Proof. unfold importRanges, exportRanges. rewrite (rebuild _ rg_Dimension _ id) by (done || by intros k []). apply map_fmap_id. Qed.
Lemma regions_round st : fold_insert rs_Handle importRegion (exportRegions st) ∅ = regionsOf st.
Proof.
  unfold exportRegions. rewrite (rebuild _ rs_Handle importRegion id) by (done || intros k []; unfold importRegion; simpl; by rewrite !ranges_round). apply map_fmap_id.
Qed.
Lemma recipients_round (rows : gmap FederateHandle bool) : fold_insert cr_Federate cr_Active (omap (fun h => a ← rows !! h; Some (Build_ConveyedRegionRecipientState h a)) (keysOf rows)) ∅ = rows.
Proof. rewrite (rebuild _ cr_Federate cr_Active id) by done. apply map_fmap_id. Qed.
Lemma conveyed_round {loose} st : wf_in loose st -> let live := List.filter (fun e => negb (bool_decide (c_Recipients e = []))) (exportConveyed st) in
  live = exportConveyed st /\ fold_insert c_Designator c_Realization live ∅ = conveyed st /\ fold_insert c_Designator importRecipients live ∅ = conveyedRecipients st.
Proof.
  intros Hw. cbv zeta. assert (List.filter (fun e => negb (bool_decide (c_Recipients e = []))) (exportConveyed st) = exportConveyed st) as ->.
  { unfold exportConveyed. induction (keysOf (conveyed st)) as [|k l IH]; [done|]. simpl. destruct (conveyed st !! k) as [s|] eqn:E; simpl; [|exact IH].
    rewrite bool_decide_false; [simpl; f_equal; exact IH|]. intros E0. destruct (proj1 (w_leases st Hw k) ltac:(by rewrite E)) as [rows Er]. rewrite Er in E0. simpl in E0.
    apply (w_receivers st Hw k rows Er). rewrite <- (recipients_round rows), E0. done. }
  split_and!; [done| |].
  - unfold exportConveyed. rewrite (rebuild _ c_Designator c_Realization id) by done. apply map_fmap_id.
  - assert (exportConveyed st = omap (fun rh => rows ← conveyedRecipients st !! rh; Some (Build_ConveyedRegionState rh (default (Build_RegionRealizationSnapshot 0 []) (conveyed st !! rh))
      (omap (fun h => a ← rows !! h; Some (Build_ConveyedRegionRecipientState h a)) (keysOf rows)))) (keysOf (conveyedRecipients st))) as ->.
    { unfold exportConveyed. assert (keysOf (conveyedRecipients st) = keysOf (conveyed st)) as ->.
      { unfold keysOf. f_equal. f_equal. apply set_eq. intros k. rewrite !elem_of_dom. symmetry. eapply w_leases, Hw. }
      assert (forall k, is_Some (conveyed st !! k) <-> is_Some (conveyedRecipients st !! k)) as Hl by eapply w_leases, Hw.
      induction (keysOf (conveyed st)) as [|k l IH]; [done|]. simpl. specialize (Hl k). destruct (conveyed st !! k) as [s|], (conveyedRecipients st !! k) as [rows|]; simpl; [f_equal; exact IH| | |exact IH].
      - by destruct (proj1 Hl ltac:(done)).
      - by destruct (proj2 Hl ltac:(done)). }
    rewrite (rebuild _ c_Designator importRecipients id); [apply map_fmap_id|done|]. intros k rows _. unfold importRecipients. simpl. apply recipients_round.
Qed.

(** ** Tables of rows *)
Section Grouped.
Context {K A : Type} `{Countable K}.
Definition at_key (k : K) (l : list (K * A)) : list A := omap (fun ka : K * A => if decide (ka.1 = k) then Some ka.2 else None) l.
Lemma appended l (m : gmap K (list A)) k : fold_left appendTo l m !! k = match at_key k l with [] => m !! k | x => Some (default [] (m !! k) ++ x) end.
Proof.
  revert m. induction l as [|[k' a] l IH]; intros m; [done|]. unfold at_key in *. simpl. rewrite IH. unfold appendTo. simpl.
  destruct (decide (k' = k)) as [->|Hk]; [|by rewrite lookup_insert_ne]. rewrite lookup_insert_eq. simpl. change (list_omap _ _ ?f l) with (omap f l). destruct (omap _ l); [done|]. by rewrite <- app_assoc.
Qed.
Lemma at_key_flat (rows : K -> list A) keys k : NoDup keys -> at_key k (flat_map (fun k => map (fun a => (k, a)) (rows k)) keys) = if decide (k ∈ keys) then rows k else [].
Proof.
  assert (forall l l', at_key k (l ++ l') = at_key k l ++ at_key k l') as Happ by (intros l l'; apply omap_app).
  assert (forall k' l, at_key k (map (fun a => (k', a)) l) = if decide (k' = k) then l else []) as Hmap.
  { intros k' l. unfold at_key. induction l as [|a l IH]; simpl; [by destruct (decide _)|]. destruct (decide (k' = k)); simpl; [f_equal; exact IH|exact IH]. }
  induction 1 as [|k' keys Hni _ IH]; simpl; [by destruct (decide (k ∈ []))|]. rewrite Happ, Hmap, IH.
  destruct (decide (k' = k)) as [->|Hne], (decide (k ∈ keys)), (decide (k ∈ _ :: keys)) as [Hc|Hc]; rewrite ?app_nil_r; try done; exfalso; set_solver.
Qed.
End Grouped.
Lemma sortHandles_id l : StronglySorted Z.lt l -> sortHandles l = l.
Proof.
  intros Hs. unfold sortHandles. apply (StronglySorted_unique Z.le); [apply StronglySorted_merge_sort; [intros ???; lia|intros x y; lia]| |apply merge_sort_Permutation].
  induction Hs as [|x l _ IH Hf]; constructor; [done|]. eapply Forall_impl; [exact Hf|]. simpl. lia.
Qed.
Lemma sortedRows_perm {O} (U : FederateHandle -> RegionHandle -> Prop) (rows : list (rowOf O)) : rows_ok U rows -> sortedRows rows ≡ₚ rows.
Proof.
  intros [Hf _]. unfold sortedRows. rewrite merge_sort_Permutation. apply reflexive_eq. induction Hf as [|[s l o] rows (_ & Hs & _) _ IH]; [done|]. simpl in *. by rewrite IH, sortHandles_id.
Qed.
Lemma table_round {K} `{Countable K} {O} U (m : gmap K (list (rowOf O))) keys : subs_ok U m -> NoDup keys -> (forall k, k ∈ keys <-> is_Some (m !! k)) ->
  rows_equiv (fold_left appendTo (flat_map (fun k => map (fun row => (k, row)) (sortedRows (default [] (m !! k)))) keys) ∅) m.
Proof.
  intros Hm Hn Hk k. rewrite appended, at_key_flat, lookup_empty by done. destruct (decide (k ∈ keys)) as [Hin|Hni].
  - apply Hk in Hin as [rows E]. rewrite E. simpl. destruct (Hm k rows E) as [Hne Hok]. pose proof (sortedRows_perm U rows Hok) as Hp.
    destruct (sortedRows rows) as [|x l]; [by apply Permutation_nil_l in Hp|]. constructor. exact Hp.
  - destruct (m !! k) eqn:E; [|constructor]. destruct Hni. apply Hk. by rewrite E.
Qed.
Lemma map_flat_map {A B C} (f : B -> C) (g : A -> list B) l : map f (flat_map g l) = flat_map (fun a => map f (g a)) l.
Proof. induction l as [|a l IH]; [done|]. simpl. by rewrite map_app, IH. Qed.
Lemma objSubs_round {loose} st : wf_in loose st -> rows_equiv
  (fold_left appendTo (map (fun e => ((os_ObjectClass e, os_Attribute e), Row (os_Subscriber e) (os_Regions e) (Build_objectOptions (os_Passive e) (os_UpdateRateDesignator e)))) (exportObjectSubscriptions st)) ∅)
  (objSubs st).
Proof.
  intros Hw. unfold exportObjectSubscriptions. rewrite map_flat_map.
  replace (flat_map _ _) with (flat_map (fun k => map (fun row : subscription => (k, row)) (sortedRows (default [] (objSubs st !! k)))) (merge_sort pairLe (elements (dom (objSubs st))))).
  - apply (table_round (usable st)); [eapply w_obj, Hw|rewrite merge_sort_Permutation; apply NoDup_elements|]. intros k. by rewrite merge_sort_Permutation, elem_of_elements, elem_of_dom.
  - apply flat_map_ext. intros [c a]. rewrite map_map. apply map_ext. by intros [s l []].
Qed.
Lemma intSubs_round {loose} st : wf_in loose st -> rows_equiv
  (fold_left appendTo (map (fun e => (is_InteractionClass e, Row (is_Subscriber e) (is_Regions e) (is_Passive e))) (exportInteractionSubscriptions st)) ∅) (intSubs st).
Proof.
  intros Hw. unfold exportInteractionSubscriptions. rewrite map_flat_map.
  replace (flat_map _ _) with (flat_map (fun k => map (fun row : interactionSubscription => (k, row)) (sortedRows (default [] (intSubs st !! k)))) (keysOf (intSubs st))).
  - apply (table_round (usable st)); [eapply w_int, Hw|apply keysOf_NoDup|]. intros k. apply keysOf_in.
  - apply flat_map_ext. intros c. rewrite map_map. apply map_ext. by intros [s l o].
Qed.

(** ** Associations *)
(** A loop of insertions whose entries agree with [g] at their keys. *)
Lemma fold_insert_agree {K A V} `{Countable K} (key : A -> K) (val : A -> V) (g : K -> option V) l : (forall e, e ∈ l -> g (key e) = Some (val e)) ->
  (forall k, is_Some (g k) -> exists e, e ∈ l /\ key e = k) -> forall k, fold_insert key val l ∅ !! k = g k.
Proof.
  intros Hg Hall k. assert (forall m, fold_insert key val l m !! k = if decide (k ∈ map key l) then g k else m !! k) as E.
  { clear Hall. unfold fold_insert. induction l as [|e l IH]; intros m; simpl; [by destruct (decide (k ∈ []))|]. rewrite IH by (intros; apply Hg; by right).
    destruct (decide (k ∈ map key l)), (decide (k ∈ key e :: map key l)) as [Hk|Hk]; try done; [exfalso; set_solver| |].
    - apply elem_of_cons in Hk as [->|]; [|done]. rewrite lookup_insert_eq. symmetry. apply Hg. by left.
    - apply lookup_insert_ne. set_solver. }
  rewrite E. case_decide as Hk; [done|]. rewrite lookup_empty. destruct (g k) eqn:Eg; [|done]. destruct Hk. destruct (Hall k) as (e & He & <-); [by rewrite Eg|]. by apply list_elem_of_fmap_2.
Qed.
Section Nested.
Context {K : Type} `{Countable K} {A E : Type} (ko : E -> K) (ka : E -> Z) (v : E -> A).
Definition nested (m : gmap K (gmap Z A)) (k : K) (a : Z) : option A := m !! k ≫= fun per => per !! a.
Lemma insertInto_nested (m : gmap K (gmap Z A)) (k : K) (a : Z) (x : A) k' a' : nested (insertInto m k a x) k' a' = if decide ((k', a') = (k, a)) then Some x else nested m k' a'.
Proof.
  unfold nested, insertInto. destruct (decide (k' = k)) as [->|Hk].
  - rewrite lookup_insert_eq. simpl. destruct (decide (a' = a)) as [->|]; [rewrite lookup_insert_eq; by destruct (decide _)|]. rewrite lookup_insert_ne by done.
    destruct (decide _) as [[= ?]|]; [done|]. destruct (m !! k); simpl; [done|]. by rewrite lookup_empty.
  - rewrite lookup_insert_ne by done. by destruct (decide _) as [[= ? ?]|].
Qed.
Lemma fold_nested (l : list E) (m : gmap K (gmap Z A)) (u : gmap (K * Z) A) : (forall k a, nested m k a = u !! (k, a)) ->
  forall k a, nested (fold_left (fun m e => insertInto m (ko e) (ka e) (v e)) l m) k a = fold_insert (fun e => (ko e, ka e)) v l u !! (k, a).
Proof.
  unfold fold_insert. revert m u. induction l as [|e l IH]; intros m u Hu; [done|]. simpl. apply IH. intros k a. rewrite insertInto_nested, Hu.
  destruct (decide ((k, a) = (ko e, ka e))) as [->|]; [by rewrite lookup_insert_eq|by rewrite lookup_insert_ne].
Qed.
Lemma fold_nonempty l (m : gmap K (gmap Z A)) : map_Forall (fun _ per => per <> ∅) m -> map_Forall (fun _ per => per <> ∅) (fold_left (fun m e => insertInto m (ko e) (ka e) (v e)) l m).
Proof. revert m. induction l as [|e l IH]; intros m Hm; [done|]. simpl. apply IH, map_Forall_insert_2; [apply insert_non_empty|done]. Qed.
Lemma nested_ext (m m' : gmap K (gmap Z A)) : map_Forall (fun _ per => per <> ∅) m -> map_Forall (fun _ per => per <> ∅) m' -> (forall k a, nested m k a = nested m' k a) -> m = m'.
Proof.
  intros Hm Hm' He. apply map_eq. intros k. unfold nested in He. specialize (He k). destruct (m !! k) as [x|] eqn:E1, (m' !! k) as [y|] eqn:E2; simpl in He; [|exfalso..|done].
  - f_equal. by apply map_eq.
  - apply (Hm k x E1). apply map_eq. intros a. by rewrite He, lookup_empty.
  - apply (Hm' k y E2). apply map_eq. intros a. by rewrite <- He, lookup_empty.
Qed.
End Nested.
Lemma publications_round {loose} st : wf_in loose st ->
  fold_left (fun m e => insertInto m (op_Object e) (op_Attribute e) (op_Regions e)) (exportPublications st) ∅ = objPubs st.
Proof.
  intros Hw. assert (forall e, e ∈ exportPublications st <-> nested (objPubs st) (op_Object e) (op_Attribute e) = Some (op_Regions e)) as Hin.
  { intros e. unfold exportPublications. rewrite list_elem_of_In, in_flat_map. setoid_rewrite <- list_elem_of_In. setoid_rewrite keysOf_in. setoid_rewrite list_elem_of_omap. setoid_rewrite keysOf_in.
    unfold nested. split.
    - intros (obj & [per Ep] & a & _ & (rhs & Er & [= <-])%bind_Some). rewrite Ep in *. simpl in *. by rewrite Ep.
    - intros (per & Ep & Ea)%bind_Some. exists (op_Object e). rewrite Ep. split; [done|]. simpl. exists (op_Attribute e). rewrite Ea. split; [done|]. simpl. by destruct e. }
  apply nested_ext.
  - apply fold_nonempty, map_Forall_empty.
  - intros o per Eo. by destruct (w_pubs st Hw o per Eo).
  - intros k a. rewrite (fold_nested _ _ _ _ _ ∅); [|intros; unfold nested; by rewrite !lookup_empty].
    apply (fold_insert_agree _ _ (fun ka => nested (objPubs st) ka.1 ka.2)).
    + intros e He. by apply Hin.
    + intros [k' a'] [rhs Er]. exists (Build_ObjectPublicationState k' a' rhs). split; [|done]. by apply Hin.
Qed.
Definition tidyRows (rows : gmap FederateHandle associations) : Prop := rows <> ∅ /\ map_Forall (fun _ per => per <> ∅) rows.
Lemma pendingAt_ext (m m' : gmap ObjectHandle (gmap FederateHandle associations)) : map_Forall (fun _ => tidyRows) m -> map_Forall (fun _ => tidyRows) m' ->
  (forall o c a, pendingAt m o c a = pendingAt m' o c a) -> m = m'.
Proof.
  intros Hm Hm' E. apply map_eq. intros o. unfold pendingAt in E. specialize (E o). pose proof (map_Forall_empty (fun (_ : FederateHandle) (per : associations) => per <> ∅)) as He.
  destruct (m !! o) as [x|] eqn:E1, (m' !! o) as [y|] eqn:E2; simpl in E; [|exfalso..|done].
  - f_equal. apply nested_ext; [apply (Hm o x E1)|apply (Hm' o y E2)|exact E].
  - destruct (Hm o x E1) as [Hn Hx]. apply Hn. apply nested_ext; [done..|]. intros c a. unfold nested. rewrite lookup_empty. apply E.
  - destruct (Hm' o y E2) as [Hn Hx]. apply Hn. apply nested_ext; [done..|]. intros c a. unfold nested. rewrite lookup_empty. symmetry. apply E.
Qed.
Definition importInactive (m : gmap ObjectHandle (gmap FederateHandle associations)) (e : InactiveAssociationState) : gmap ObjectHandle (gmap FederateHandle associations) :=
  <[ia_Object e := insertInto (default ∅ (m !! ia_Object e)) (ia_Federate e) (ia_Attribute e) (ia_Regions e)]> m.
Lemma importInactive_at m e o c a : pendingAt (importInactive m e) o c a = if decide ((o, c, a) = (ia_Object e, ia_Federate e, ia_Attribute e)) then Some (ia_Regions e) else pendingAt m o c a.
Proof.
  unfold pendingAt, importInactive. destruct (decide (o = ia_Object e)) as [->|Ho].
  - rewrite lookup_insert_eq. simpl. pose proof (insertInto_nested (default ∅ (m !! ia_Object e)) (ia_Federate e) (ia_Attribute e) (ia_Regions e) c a) as H. unfold nested in H. rewrite H.
    destruct (decide ((c, a) = _)) as [[= -> ->]|Hn]; destruct (decide _) as [Hd|Hd]; try done; [congruence|]. destruct (m !! ia_Object e); simpl; [done|]. by rewrite lookup_empty.
  - rewrite lookup_insert_ne by done. by destruct (decide _) as [[= ? ? ?]|].
Qed.
Lemma inactive_round {loose} st : wf_in loose st -> fold_left importInactive (exportInactive st) ∅ = inactivePubs st.
Proof.
  intros Hw.
  assert (forall e, e ∈ exportInactive st <-> pendingAt (inactivePubs st) (ia_Object e) (ia_Federate e) (ia_Attribute e) = Some (ia_Regions e)) as Hin.
  { intros e. unfold exportInactive, inactiveAt, inactiveFor. rewrite list_elem_of_omap. split.
    - intros ([[o a] c] & _ & E). simpl in E. apply bind_Some in E as (rhs & E & [= <-]). simpl. unfold pendingAt. destruct (inactivePubs st !! o); done.
    - intros Hp. exists (ia_Object e, ia_Attribute e, ia_Federate e). simpl. unfold pendingAt in Hp. pose proof Hp as (rows & E1 & (per & E2 & E3)%bind_Some)%bind_Some. split.
      + unfold inactiveKeys. rewrite merge_sort_Permutation. apply list_elem_of_In, in_flat_map. exists (ia_Object e, rows). split; [by apply list_elem_of_In, elem_of_map_to_list|].
        apply in_flat_map. exists (ia_Federate e, per). split; [by apply list_elem_of_In, elem_of_map_to_list|]. simpl. apply in_map_iff. exists (ia_Attribute e). split; [done|].
        apply list_elem_of_In, elem_of_elements, elem_of_dom. by exists (ia_Regions e).
      + rewrite E1. simpl. rewrite E2. simpl. rewrite E3. simpl. by destruct e. }
  assert (forall l (m : gmap ObjectHandle (gmap FederateHandle associations)) (u : gmap (Z * Z * Z) (list RegionHandle)), (forall o c a, pendingAt m o c a = u !! (o, c, a)) ->
    forall o c a, pendingAt (fold_left importInactive l m) o c a = fold_insert (fun e => (ia_Object e, ia_Federate e, ia_Attribute e)) ia_Regions l u !! (o, c, a)) as Hfold.
  { unfold fold_insert. induction l as [|e l IH]; intros m u Hu; [done|]. simpl. apply IH. intros o c a. rewrite importInactive_at, Hu.
    destruct (decide ((o, c, a) = _)) as [->|]; [by rewrite lookup_insert_eq|by rewrite lookup_insert_ne]. }
  apply pendingAt_ext.
  - assert (forall l m, map_Forall (fun _ => tidyRows) m -> map_Forall (fun _ => tidyRows) (fold_left importInactive l m)) as H; [|apply H, map_Forall_empty].
    induction l as [|e l IH]; intros m Hm; [done|]. simpl. apply IH, map_Forall_insert_2; [|done]. split; [apply insert_non_empty|]. apply map_Forall_insert_2; [apply insert_non_empty|].
    destruct (m !! ia_Object e) as [rows|] eqn:E; simpl; [exact (proj2 (Hm _ rows E))|apply map_Forall_empty].
  - intros o rows Eo. destruct (w_inactive st Hw o rows Eo) as (? & ? & _). done.
  - intros o c a. rewrite (Hfold _ _ ∅); [|intros; unfold pendingAt; by rewrite !lookup_empty].
    apply (fold_insert_agree _ _ (fun k => pendingAt (inactivePubs st) k.1.1 k.1.2 k.2)).
    + intros e He. by apply Hin.
    + intros [[o' c'] a'] [rhs Er]. exists (Build_InactiveAssociationState o' a' c' rhs). split; [|done]. by apply Hin.
Qed.

(** ** The whole state *)
(** Importing the export of a state into a federation with the same
    dimensions rebuilds every region with its committed and pending ranges, every
    conveyed region with its leases, every subscription and every association;
    the state is the same up to the order of the rows of a table, and its
    dimensions are read again from the object model at the next use. *)
Theorem saved_state_imports {loose} st : wf_in loose st ->
  importFederation st (exportFederation st) ≡ set_declarations st (fom st) (dimDefaults st) (routingSpaces st) (dimensions st) (dimUpperBound st) (permissive st) (nextDimHandle st) 0.
Proof.
  intros Hw. destruct (conveyed_round st Hw) as (_ & H1 & H2). pose proof (regions_round st) as H3. pose proof (publications_round st Hw) as H4. pose proof (inactive_round st Hw) as H5.
  assert (fold_left (fun n e => Z.max n (c_Designator e)) (exportConveyed st) (nextRegionHandle st) = nextRegionHandle st) as H6.
  { assert (forall e, e ∈ exportConveyed st -> c_Designator e <= nextRegionHandle st) as Hle.
    { intros e. unfold exportConveyed. rewrite list_elem_of_omap. intros (k & _ & (s & Es & [= <-])%bind_Some). simpl. apply (w_handles st Hw). right. by rewrite Es. }
    clear -Hle. induction (exportConveyed st) as [|e l IH]; [done|]. simpl. rewrite Z.max_l by (apply Hle; by left). apply IH. intros e' He'. apply Hle. by right. }
  split_and!; [|exact (objSubs_round st Hw)|exact (intSubs_round st Hw)].
  unfold importFederation, exportFederation, set_subscriptions, set_declarations. simpl. cbv zeta in H1, H2. rewrite H1, H2, H3, H4, H6. f_equal. exact H5.
Qed.
Lemma saved_state_imports_witness : importFederation demoState (exportFederation demoState) ≡
  set_declarations demoState (fom demoState) (dimDefaults demoState) (routingSpaces demoState) (dimensions demoState) (dimUpperBound demoState) (permissive demoState) (nextDimHandle demoState) 0.
Proof. exact (saved_state_imports demoState demoState_wf). Defined.
