(* ===== verification/Decl.v ===== *)
(** * Declaration management: state and advice ([rti/internal/hla/declaration])

    The state of a federation ([manager.go], [transaction.go]), what the
    manager asks of the object model ([options.go]), which publications are
    relevant to a subscriber ([options.go]), the update rate demanded of an
    attribute and the advisories that follow from both ([update_rate.go]).

    [map[FederateHandle]struct{}] is a [gset]; a nil inner map reads as the
    empty one.  The optional interfaces of a model handle are optional fields
    of [FOMHandle], and [None] is the nil handle.  [address] is the identity of
    the state a pointer refers to: a change publishes a clone at a new one. *)
From stdpp Require Import gmap.
From S2P Require Import Prelude GoFloat.
Open Scope Z_scope.

Abbreviation FederationName := string.
Abbreviation FederateHandle := Z.
Abbreviation ObjectHandle := Z.
Abbreviation ObjectClassHandle := Z.
Abbreviation InteractionClassHandle := Z.
Abbreviation AttributeHandle := Z.

Inductive decl_error :=
| ErrObjectClassNotFound
| ErrInteractionClassNotFound
| ErrAttributeNotFound
| ErrObjectHandleInvalid
| ErrObjectClassNotPublished
| ErrAttributeNotPublished
| ErrInvalidUpdateRateDesignator
| ErrInvalidAdvisorySwitch
| AdvisorySwitchAlreadySetError (Kind : Z) (Enabled : bool)
| errFOM                         (** of the repository *)
| errOutbox                      (** of the outbox *)
| errContext                     (** of a cancelled context *)
| errPort                        (** of the object or ownership manager *)
| decl_errorf (msg : string).
#[export] Instance decl_error_eq_dec : EqDecision decl_error.
Proof. solve_decision. Defined.

(** ** Advisory switches, options *)
Definition AdvisoryObjectClassRelevance : Z := 1.
Definition AdvisoryAttributeRelevance : Z := 2.
Definition AdvisoryAttributeScope : Z := 3.
Definition AdvisoryInteractionRelevance : Z := 4.
Record SubscriptionOptions := Opts { Active : bool; UpdateRateDesignator : string }.
#[export] Instance SubscriptionOptions_eq_dec : EqDecision SubscriptionOptions.
Proof. solve_decision. Defined.
(** [[4]bool], indexed by the kind less one. *)
Record switchDefaults := Defaults { d_ObjectClass : bool; d_Attribute : bool; d_Scope : bool; d_Interaction : bool }.
#[export] Instance switchDefaults_eq_dec : EqDecision switchDefaults.
Proof. solve_decision. Defined.
Definition defaultAt (d : switchDefaults) (kind : Z) : bool :=
  if kind =? AdvisoryObjectClassRelevance then d_ObjectClass d
  else if kind =? AdvisoryAttributeRelevance then d_Attribute d
  else if kind =? AdvisoryAttributeScope then d_Scope d else d_Interaction d.

(** ** The object model *)
Record FOMNames := {
  ObjectClassName : ObjectClassHandle -> option string;
  InteractionClassName : InteractionClassHandle -> option string;
  AttributeName : ObjectClassHandle -> AttributeHandle -> option string;
}.
Record FOMAncestry := {
  ObjectClassAncestors : ObjectClassHandle -> list ObjectClassHandle;
  InteractionClassAncestors : InteractionClassHandle -> list InteractionClassHandle;
}.
Record fomHandle := {
  IsValid : bool;
  LookupAttribute : ObjectClassHandle -> string -> option AttributeHandle;
  names : option FOMNames;
  ancestry : option FOMAncestry;
  UpdateRateValue : option (string -> option f64);
  AdvisorySwitchDefault : option (Z -> option bool);
  AttributeHandles : option (ObjectClassHandle -> list AttributeHandle);
}.
Abbreviation FOMHandle := (option fomHandle).

(** ** State *)
Abbreviation objAttrKey := (Z * Z)%type.
Abbreviation objectPublicationKey := (Z * Z)%type.     (** class, federate *)
Record rateObject := RateObject { class : ObjectClassHandle; owners : gmap AttributeHandle FederateHandle }.
Record RegionalUpdateRateSubscription := Demand { r_Object : ObjectHandle; r_Attribute : AttributeHandle; r_Subscriber : FederateHandle; r_Options : SubscriptionOptions }.
#[export] Instance RegionalUpdateRateSubscription_eq_dec : EqDecision RegionalUpdateRateSubscription.
Proof. solve_decision. Defined.
Record adviceKey := AdviceKey { Kind : Z; Recipient : FederateHandle; Class : Z; Object : ObjectHandle; Attribute : AttributeHandle }.
#[export] Instance adviceKey_eq_dec : EqDecision adviceKey.
Proof. solve_decision. Defined.
#[export] Instance adviceKey_countable : Countable adviceKey.
Proof.
  by refine (inj_countable' (fun k => (Kind k, Recipient k, Class k, Object k, Attribute k)) (fun '(a, b, c, d, e) => AdviceKey a b c d e) _); intros [].
Defined.

Record federationState := {
  address : Z;
  objPubs : gmap objAttrKey (gset FederateHandle);
  objPubHistory : gmap objectPublicationKey bool;
  objSubs : gmap objAttrKey (gset FederateHandle);
  intPubs : gmap InteractionClassHandle (gset FederateHandle);
  intSubs : gmap InteractionClassHandle (gset FederateHandle);
  objSubSnapshots : gmap objAttrKey (list FederateHandle);
  intSubSnapshots : gmap InteractionClassHandle (list FederateHandle);
  objOptions : gmap objAttrKey (gmap FederateHandle SubscriptionOptions);
  intActive : gmap InteractionClassHandle (gmap FederateHandle bool);
  switches : gmap FederateHandle (gmap Z bool);
  defaults : switchDefaults;
  regionalObjects : gmap objAttrKey (gset FederateHandle);
  regionalInteractions : gmap InteractionClassHandle (gset FederateHandle);
  rateObjects : gmap ObjectHandle rateObject;
  regionalRates : list RegionalUpdateRateSubscription;
  pendingAdvice : gset adviceKey;
}.
Definition newFederationState (a : Z) : federationState :=
  Build_federationState a ∅ ∅ ∅ ∅ ∅ ∅ ∅ ∅ ∅ ∅ (Defaults true true true true) ∅ ∅ ∅ [] ∅.

Section Setters.
Context (st : federationState).
Definition set_address x := Build_federationState x (objPubs st) (objPubHistory st) (objSubs st) (intPubs st) (intSubs st) (objSubSnapshots st) (intSubSnapshots st) (objOptions st) (intActive st) (switches st) (defaults st) (regionalObjects st) (regionalInteractions st) (rateObjects st) (regionalRates st) (pendingAdvice st).
Definition set_objPubs x := Build_federationState (address st) x (objPubHistory st) (objSubs st) (intPubs st) (intSubs st) (objSubSnapshots st) (intSubSnapshots st) (objOptions st) (intActive st) (switches st) (defaults st) (regionalObjects st) (regionalInteractions st) (rateObjects st) (regionalRates st) (pendingAdvice st).
Definition set_objPubHistory x := Build_federationState (address st) (objPubs st) x (objSubs st) (intPubs st) (intSubs st) (objSubSnapshots st) (intSubSnapshots st) (objOptions st) (intActive st) (switches st) (defaults st) (regionalObjects st) (regionalInteractions st) (rateObjects st) (regionalRates st) (pendingAdvice st).
Definition set_objSubs x := Build_federationState (address st) (objPubs st) (objPubHistory st) x (intPubs st) (intSubs st) (objSubSnapshots st) (intSubSnapshots st) (objOptions st) (intActive st) (switches st) (defaults st) (regionalObjects st) (regionalInteractions st) (rateObjects st) (regionalRates st) (pendingAdvice st).
Definition set_intPubs x := Build_federationState (address st) (objPubs st) (objPubHistory st) (objSubs st) x (intSubs st) (objSubSnapshots st) (intSubSnapshots st) (objOptions st) (intActive st) (switches st) (defaults st) (regionalObjects st) (regionalInteractions st) (rateObjects st) (regionalRates st) (pendingAdvice st).
Definition set_intSubs x := Build_federationState (address st) (objPubs st) (objPubHistory st) (objSubs st) (intPubs st) x (objSubSnapshots st) (intSubSnapshots st) (objOptions st) (intActive st) (switches st) (defaults st) (regionalObjects st) (regionalInteractions st) (rateObjects st) (regionalRates st) (pendingAdvice st).
Definition set_objSubSnapshots x := Build_federationState (address st) (objPubs st) (objPubHistory st) (objSubs st) (intPubs st) (intSubs st) x (intSubSnapshots st) (objOptions st) (intActive st) (switches st) (defaults st) (regionalObjects st) (regionalInteractions st) (rateObjects st) (regionalRates st) (pendingAdvice st).
Definition set_intSubSnapshots x := Build_federationState (address st) (objPubs st) (objPubHistory st) (objSubs st) (intPubs st) (intSubs st) (objSubSnapshots st) x (objOptions st) (intActive st) (switches st) (defaults st) (regionalObjects st) (regionalInteractions st) (rateObjects st) (regionalRates st) (pendingAdvice st).
Definition set_objOptions x := Build_federationState (address st) (objPubs st) (objPubHistory st) (objSubs st) (intPubs st) (intSubs st) (objSubSnapshots st) (intSubSnapshots st) x (intActive st) (switches st) (defaults st) (regionalObjects st) (regionalInteractions st) (rateObjects st) (regionalRates st) (pendingAdvice st).
Definition set_intActive x := Build_federationState (address st) (objPubs st) (objPubHistory st) (objSubs st) (intPubs st) (intSubs st) (objSubSnapshots st) (intSubSnapshots st) (objOptions st) x (switches st) (defaults st) (regionalObjects st) (regionalInteractions st) (rateObjects st) (regionalRates st) (pendingAdvice st).
Definition set_switches x := Build_federationState (address st) (objPubs st) (objPubHistory st) (objSubs st) (intPubs st) (intSubs st) (objSubSnapshots st) (intSubSnapshots st) (objOptions st) (intActive st) x (defaults st) (regionalObjects st) (regionalInteractions st) (rateObjects st) (regionalRates st) (pendingAdvice st).
Definition set_defaults x := Build_federationState (address st) (objPubs st) (objPubHistory st) (objSubs st) (intPubs st) (intSubs st) (objSubSnapshots st) (intSubSnapshots st) (objOptions st) (intActive st) (switches st) x (regionalObjects st) (regionalInteractions st) (rateObjects st) (regionalRates st) (pendingAdvice st).
Definition set_regionalObjects x := Build_federationState (address st) (objPubs st) (objPubHistory st) (objSubs st) (intPubs st) (intSubs st) (objSubSnapshots st) (intSubSnapshots st) (objOptions st) (intActive st) (switches st) (defaults st) x (regionalInteractions st) (rateObjects st) (regionalRates st) (pendingAdvice st).
Definition set_regionalInteractions x := Build_federationState (address st) (objPubs st) (objPubHistory st) (objSubs st) (intPubs st) (intSubs st) (objSubSnapshots st) (intSubSnapshots st) (objOptions st) (intActive st) (switches st) (defaults st) (regionalObjects st) x (rateObjects st) (regionalRates st) (pendingAdvice st).
Definition set_rateObjects x := Build_federationState (address st) (objPubs st) (objPubHistory st) (objSubs st) (intPubs st) (intSubs st) (objSubSnapshots st) (intSubSnapshots st) (objOptions st) (intActive st) (switches st) (defaults st) (regionalObjects st) (regionalInteractions st) x (regionalRates st) (pendingAdvice st).
Definition set_regionalRates x := Build_federationState (address st) (objPubs st) (objPubHistory st) (objSubs st) (intPubs st) (intSubs st) (objSubSnapshots st) (intSubSnapshots st) (objOptions st) (intActive st) (switches st) (defaults st) (regionalObjects st) (regionalInteractions st) (rateObjects st) x (pendingAdvice st).
Definition set_pendingAdvice x := Build_federationState (address st) (objPubs st) (objPubHistory st) (objSubs st) (intPubs st) (intSubs st) (objSubSnapshots st) (intSubSnapshots st) (objOptions st) (intActive st) (switches st) (defaults st) (regionalObjects st) (regionalInteractions st) (rateObjects st) (regionalRates st) x.
End Setters.

(** ** Tables of declarants *)
Section Tables.
Context {K : Type} `{Countable K}.
Implicit Types (t : gmap K (gset FederateHandle)).
Definition membersAt t k : gset FederateHandle := default ∅ (t !! k).
Definition declares t k (h : FederateHandle) : bool := bool_decide (h ∈ membersAt t k).
Definition addMember t k h : gmap K (gset FederateHandle) := <[k := {[h]} ∪ membersAt t k]> t.
(** [delete(set, h)], and the key with the last member. *)
Definition dropFrom (h : FederateHandle) (set : gset FederateHandle) : option (gset FederateHandle) :=
  let set := set ∖ {[h]} in if bool_decide (set = ∅) then None else Some set.
Definition removeMember t k h : gmap K (gset FederateHandle) :=
  match t !! k with
  | None => t
  | Some set => match dropFrom h set with Some set => <[k := set]> t | None => delete k t end
  end.
(** The loops that remove [h] under every key that [p] selects. *)
Definition removeMembers (p : K -> bool) t h : gmap K (gset FederateHandle) :=
  map_imap (fun k set => if p k then dropFrom h set else Some set) t.
Context {V : Type}.
Implicit Types (o : gmap K (gmap FederateHandle V)).
Definition optionAt o k (h : FederateHandle) : option V := row ← o !! k; row !! h.
Definition setOption o k (h : FederateHandle) (v : V) : gmap K (gmap FederateHandle V) := <[k := <[h := v]> (default ∅ (o !! k))]> o.
Definition dropOption (h : FederateHandle) (row : gmap FederateHandle V) : option (gmap FederateHandle V) :=
  let row := delete h row in if bool_decide (row = ∅) then None else Some row.
Definition removeOption o k h : gmap K (gmap FederateHandle V) :=
  match o !! k with
  | None => o
  | Some row => match dropOption h row with Some row => <[k := row]> o | None => delete k o end
  end.
Definition removeOptions o h : gmap K (gmap FederateHandle V) := omap (dropOption h) o.
End Tables.
Definition sortedHandles (set : gset FederateHandle) : list FederateHandle := sortHandles (elements set).

(** ** Options and switches *)
Definition objectOptions (st : federationState) (key : objAttrKey) (sub : FederateHandle) : SubscriptionOptions :=
  default (Opts true "") (optionAt (objOptions st) key sub).
Definition interactionActive (st : federationState) (cls : InteractionClassHandle) (sub : FederateHandle) : bool :=
  default true (optionAt (intActive st) cls sub).
Definition validKind (kind : Z) : bool := (AdvisoryObjectClassRelevance <=? kind) && (kind <=? AdvisoryInteractionRelevance).
Definition defaultSwitches (model : FOMHandle) : switchDefaults :=
  match model ≫= AdvisorySwitchDefault with
  | None => Defaults true true true true
  | Some value =>
      Defaults (default true (value AdvisoryObjectClassRelevance)) (default true (value AdvisoryAttributeRelevance))
        (default true (value AdvisoryAttributeScope)) (default true (value AdvisoryInteractionRelevance))
  end.
Definition switchEnabled (st : federationState) (h : FederateHandle) (kind : Z) : bool :=
  validKind kind && default (defaultAt (defaults st) kind) (kinds ← switches st !! h; kinds !! kind).
Definition validateSubscriptionOptions (model : FOMHandle) (options : SubscriptionOptions) : outcome decl_error () :=
  if bool_decide (UpdateRateDesignator options = ""%string) then Ret ()
  else match model ≫= UpdateRateValue with
       | Some rates => if bool_decide (is_Some (rates (UpdateRateDesignator options))) then Ret () else Fail ErrInvalidUpdateRateDesignator
       | None => Fail ErrInvalidUpdateRateDesignator
       end.
(** 0 stands for no privilege attribute. *)
Definition deletePrivilege (model : FOMHandle) (cls : ObjectClassHandle) : AttributeHandle :=
  default 0 (fom ← model; LookupAttribute fom cls "HLAprivilegeToDeleteObject").
Definition publishedAttributes (st : federationState) (pub : FederateHandle) (cls : ObjectClassHandle) : list AttributeHandle :=
  sortHandles (omap (fun kp : objAttrKey * gset FederateHandle => if (kp.1.1 =? cls) && bool_decide (pub ∈ kp.2) then Some kp.1.2 else None) (map_to_list (objPubs st))).
Definition publishedOf (st : option federationState) (pub : FederateHandle) (cls : ObjectClassHandle) : list AttributeHandle :=
  match st with Some st => publishedAttributes st pub cls | None => [] end.

(** ** Relevance *)
Abbreviation relevanceKey := (Z * Z * Z)%type.     (** kind, publisher, class *)
Definition matchingAttribute (model : FOMHandle) (pub sub : objAttrKey) : bool :=
  if pub.1 =? sub.1 then pub.2 =? sub.2
  else match fom ← model; hierarchy ← ancestry fom; Some (fom, hierarchy) with
       | None => false
       | Some (fom, hierarchy) =>
           if negb (bool_decide (sub.1 ∈ ObjectClassAncestors hierarchy pub.1)) then false
           else match names fom with
                | None => false
                | Some n =>
                    match AttributeName n sub.1 sub.2 with
                    | None => false
                    | Some name => bool_decide (LookupAttribute fom pub.1 name = Some pub.2)
                    end
                end
       end.
(** A loop over a table that ends at its first success. *)
Definition someMember {K} `{Countable K} (t : gmap K (gset FederateHandle)) (p : K -> FederateHandle -> bool) : bool :=
  existsb (fun ks : K * gset FederateHandle => existsb (p ks.1) (elements ks.2)) (map_to_list t).
Definition publicationRelevant (st : federationState) (model : FOMHandle) (pubKey : objAttrKey) (publisher : FederateHandle) : bool :=
  someMember (objSubs st) (fun subKey sub => matchingAttribute model pubKey subKey && negb (sub =? publisher) && Active (objectOptions st subKey sub))
  || someMember (regionalObjects st) (fun subKey sub => matchingAttribute model pubKey subKey && negb (sub =? publisher)).
(** Every (key, publisher) of a table. *)
Definition publications {K} `{Countable K} (t : gmap K (gset FederateHandle)) : list (K * FederateHandle) :=
  flat_map (fun ks : K * gset FederateHandle => map (pair ks.1) (elements ks.2)) (map_to_list t).
Definition objectRelevance (st : federationState) (model : FOMHandle) (result : gmap relevanceKey bool) : gmap relevanceKey bool :=
  fold_left (fun result (kp : objAttrKey * FederateHandle) =>
    let key := (AdvisoryObjectClassRelevance, kp.2, kp.1.1) in
    if default false (result !! key) then result
    else <[key := publicationRelevant st model kp.1 kp.2]> result) (publications (objPubs st)) result.
Definition ancestors (model : FOMHandle) (cls : InteractionClassHandle) : list InteractionClassHandle :=
  match fom ← model; ancestry fom with Some hierarchy => InteractionClassAncestors hierarchy cls | None => [cls] end.
Definition interactionRelevant (st : federationState) (model : FOMHandle) (cls : InteractionClassHandle) (publisher : FederateHandle) : bool :=
  existsb (fun parent =>
    existsb (fun sub => negb (sub =? publisher) && interactionActive st parent sub) (elements (membersAt (intSubs st) parent))
    || existsb (fun sub => negb (sub =? publisher)) (elements (membersAt (regionalInteractions st) parent))) (ancestors model cls).
Definition interactionRelevance (st : federationState) (model : FOMHandle) (result : gmap relevanceKey bool) : gmap relevanceKey bool :=
  fold_left (fun result (kp : InteractionClassHandle * FederateHandle) =>
    <[(AdvisoryInteractionRelevance, kp.2, kp.1) := interactionRelevant st model kp.1 kp.2]> result) (publications (intPubs st)) result.
Definition relevant (st : federationState) (model : FOMHandle) : gmap relevanceKey bool :=
  interactionRelevance st model (objectRelevance st model ∅).

(** ** Update rates *)
Record UpdateRateDemand := RateDemand { Relevant : bool; Default : bool; Designator : string; Rate : f64 }.
#[export] Instance UpdateRateDemand_eq_dec : EqDecision UpdateRateDemand.
Proof. intros x y. unfold Decision. repeat decide equality. Defined.
(** [==] on the struct, whose rate compares as a float. *)
Definition demandEq (a b : UpdateRateDemand) : bool :=
  eqb (Relevant a) (Relevant b) && eqb (Default a) (Default b) && bool_decide (Designator a = Designator b) && f64_eqb (Rate a) (Rate b).
Definition noDemand : UpdateRateDemand := RateDemand false false "" f64_zero.
Definition defaultDemand : UpdateRateDemand := RateDemand true true "" f64_zero.
Definition addAttributeDemand (model : FOMHandle) (owner : FederateHandle) (demand : UpdateRateDemand) (e : FederateHandle * SubscriptionOptions) : UpdateRateDemand :=
  if (e.1 =? owner) || negb (Active e.2) then demand
  else if bool_decide (UpdateRateDesignator e.2 = ""%string) then defaultDemand
  else if Default demand then demand
  else match model ≫= UpdateRateValue with
       | None => demand
       | Some rates =>
           match rates (UpdateRateDesignator e.2) with
           | None => demand
           | Some rate =>
               if negb (Relevant demand) || f64_ltb (Rate demand) rate
                  || (f64_eqb rate (Rate demand) && String.ltb (UpdateRateDesignator e.2) (Designator demand))
               then RateDemand true false (UpdateRateDesignator e.2) rate
               else demand
           end
       end.
(** The subscriptions that bear on an attribute, in the order of the loops. *)
Definition demandEntries (st : federationState) (model : FOMHandle) (obj : ObjectHandle) (cls : ObjectClassHandle) (attr : AttributeHandle) : list (FederateHandle * SubscriptionOptions) :=
  flat_map (fun ks : objAttrKey * gset FederateHandle =>
      if matchingAttribute model (cls, attr) ks.1 then map (fun sub => (sub, objectOptions st ks.1 sub)) (elements ks.2) else []) (map_to_list (objSubs st))
  ++ map (fun e => (r_Subscriber e, r_Options e)) (List.filter (fun e => (r_Object e =? obj) && (r_Attribute e =? attr)) (regionalRates st)).
Definition attributeDemand (st : federationState) (model : FOMHandle) (obj : ObjectHandle) (attr : AttributeHandle) : UpdateRateDemand :=
  let state := default (RateObject 0 ∅) (rateObjects st !! obj) in
  let owner := default 0 (owners state !! attr) in
  fold_left (addAttributeDemand model owner) (demandEntries st model obj (class state) attr) noDemand.

(** ** Advice *)
Definition momFederate : FederateHandle := 2 ^ 64 - 1.      (** [^core.FederateHandle(0)] *)
Definition rateOwners (st : federationState) : list (ObjectHandle * AttributeHandle * FederateHandle) :=
  flat_map (fun os : ObjectHandle * rateObject => map (fun ao : AttributeHandle * FederateHandle => (os.1, ao.1, ao.2)) (map_to_list (owners os.2))) (map_to_list (rateObjects st)).
Definition desiredAdvice (st : federationState) (model : FOMHandle) : gmap adviceKey UpdateRateDemand :=
  let result := fold_left (fun (result : gmap adviceKey UpdateRateDemand) (kv : relevanceKey * bool) =>
      if kv.1.1.2 =? momFederate then result
      else <[AdviceKey kv.1.1.1 kv.1.1.2 kv.1.2 0 0 := RateDemand kv.2 false "" f64_zero]> result) (map_to_list (relevant st model)) ∅ in
  fold_left (fun (result : gmap adviceKey UpdateRateDemand) (e : ObjectHandle * AttributeHandle * FederateHandle) =>
      if negb (e.2 =? 0) && negb (e.2 =? momFederate)
      then <[AdviceKey AdvisoryAttributeRelevance e.2 0 e.1.1 e.1.2 := attributeDemand st model e.1.1 e.1.2]> result
      else result) (rateOwners st) result.

Inductive OutboundEvent :=
| startRegistrationEvent (cls : ObjectClassHandle)
| stopRegistrationEvent (cls : ObjectClassHandle)
| turnInteractionsOnEvent (cls : InteractionClassHandle)
| turnInteractionsOffEvent (cls : InteractionClassHandle)
| UpdateRateAdvisory (obj : ObjectHandle) (attributes : list AttributeHandle) (enabled : bool) (designator : option string).
#[export] Instance OutboundEvent_eq_dec : EqDecision OutboundEvent.
Proof. solve_decision. Defined.
Record OutboxDelivery := Delivery { d_Recipient : FederateHandle; d_Event : OutboundEvent }.
#[export] Instance OutboxDelivery_eq_dec : EqDecision OutboxDelivery.
Proof. solve_decision. Defined.

(** [compareAdvice] is not positive. *)
Definition adviceLe (a b : adviceKey) : Prop :=
  Recipient a < Recipient b \/ Recipient a = Recipient b /\
  (Kind a < Kind b \/ Kind a = Kind b /\
  (Class a < Class b \/ Class a = Class b /\
  (Object a < Object b \/ Object a = Object b /\ Attribute a <= Attribute b))).
#[export] Instance adviceLe_dec : RelDecision adviceLe.
Proof. intros a b. unfold adviceLe. apply _. Defined.
Definition adviceEvent (key : adviceKey) (demand : UpdateRateDemand) : option OutboundEvent :=
  if Kind key =? AdvisoryObjectClassRelevance then
    Some (if Relevant demand then startRegistrationEvent (Class key) else stopRegistrationEvent (Class key))
  else if Kind key =? AdvisoryInteractionRelevance then
    Some (if Relevant demand then turnInteractionsOnEvent (Class key) else turnInteractionsOffEvent (Class key))
  else if Kind key =? AdvisoryAttributeRelevance then
    Some (UpdateRateAdvisory (Object key) [Attribute key] (Relevant demand)
      (if Relevant demand && negb (Default demand) then Some (Designator demand) else None))
  else None.
(** What is no longer wanted, or not by an enabled switch, is forgotten. *)
Definition keptAdvice (st : federationState) (desired : gmap adviceKey UpdateRateDemand) : gset adviceKey :=
  filter (fun key => is_Some (desired !! key) /\ switchEnabled st (Recipient key) (Kind key) = true) (pendingAdvice st).
Definition pendingDeliveries (st : federationState) (desired : gmap adviceKey UpdateRateDemand) : federationState * list OutboxDelivery :=
  let kept := keptAdvice st desired in
  (set_pendingAdvice st kept,
   omap (fun key => event ← adviceEvent key (default noDemand (desired !! key)); Some (Delivery (Recipient key) event))
     (merge_sort adviceLe (elements kept))).
