(* ===== verification/DeclChange.v ===== *)
(** * Declaration management: one change ([options.go], [transaction.go])

    Every service that changes declarations clones the state, mutates the
    clone, works out which advisories the change calls for, secures the outbox
    and publishes the clone; a refused change restores the previous state,
    unless it is mandatory.

    The outbox, the repository of object models and the two ports of an
    unpublication are fields of [Options]: what they answer is theirs.  A reply
    carries the manager, what was asked of the outside in order, and the value
    or error returned. *)
From stdpp Require Import gmap.
From S2P Require Import Prelude GoFloat Decl.
Open Scope Z_scope.

(** ** The outside *)
(** [OutboxReservation], by what its [Commit] answers. *)
Inductive reservation :=
| ReserveError (e : decl_error)
| NilReservation
| Reservation (Commit : option decl_error).
Record Outbox := {
  Send : FederationName -> OutboxDelivery -> option decl_error;
  Reserve : option (FederationName -> list OutboxDelivery -> reservation);     (** of a [ReservableOutbox] *)
}.
Abbreviation Selection := (gmap ObjectHandle (list AttributeHandle)).
Abbreviation Projection := (FederateHandle -> ObjectHandle -> list AttributeHandle -> outcome decl_error (ObjectClassHandle * ObjectClassHandle * list AttributeHandle)).
(** [core.PreparedObjectClassUnpublication], [core.PreparedOwnershipUnpublication]. *)
Record ObjectPlan := { SelectAttributes : list AttributeHandle -> Selection; ProjectKnownObjectAttributes : Projection }.
Record OwnershipPlan := { PrepareCallbackProjections : option (Projection -> option decl_error); DispatchResult : option decl_error }.
(** The two preparations of an unpublication answer anew at each attempt. *)
Record Options := {
  foms : option (FederationName -> FOMHandle * option decl_error);
  advisoryOutbox : option Outbox;
  onSubscribeObjectClass : bool;
  onPublishObjectClass : bool;
  unpublicationObjects : option (nat -> FederationName -> FederateHandle -> ObjectClassHandle -> list AttributeHandle -> outcome decl_error (option ObjectPlan));
  unpublicationOwnership : option (nat -> FederationName -> FederateHandle -> Selection -> outcome decl_error (option OwnershipPlan));
}.

Inductive effect :=
| Commits (f : FederationName) (ds : list OutboxDelivery) (ok : bool)     (** of a reservation *)
| Sends (f : FederationName) (d : OutboxDelivery) (ok : bool)
| ReleasesReservation
| SubscribeHook (f : FederationName) (sub : FederateHandle) (cls : ObjectClassHandle) (attrs : list AttributeHandle)
| PublishHook (f : FederationName) (pub : FederateHandle) (cls : ObjectClassHandle) (attrs : list AttributeHandle)
| ReleasesObjects
| ReleasesOwnership
| CommitsOwnership
| Dispatches (ok : bool).

Record Manager := { fed : gmap FederationName federationState; nextAddress : Z }.
Definition New : Manager := Build_Manager ∅ 1.
Definition publish (m : Manager) (f : FederationName) (st : federationState) : Manager := Build_Manager (<[f := st]> (fed m)) (nextAddress m).
Definition forget (m : Manager) (f : FederationName) : Manager := Build_Manager (delete f (fed m)) (nextAddress m).
Definition allocate (m : Manager) : Manager := Build_Manager (fed m) (nextAddress m + 1).
Record reply (A : Type) := Reply { after : Manager; effects : list effect; result : outcome decl_error A }.
Arguments Reply {A} _ _ _.
Arguments after {A} _.
Arguments effects {A} _.
Arguments result {A} _.
Definition errOf (e : option decl_error) : outcome decl_error () := match e with Some e => Fail e | None => Ret () end.
Definition isNone (e : option decl_error) : bool := match e with Some _ => false | None => true end.
Definition discard {A} (r : outcome decl_error A) : outcome decl_error () := _ ← r; Ret ().

Section Change.
Context (opts : Options).

Definition model (f : FederationName) : FOMHandle * option decl_error :=
  match foms opts with Some get => get f | None => (None, None) end.
Definition modelFor (f : FederationName) : outcome decl_error FOMHandle :=
  match model f with (fom, None) => Ret fom | (_, Some e) => Fail e end.

(** A clone, with the defaults of the object model when it is new. *)
Definition cloneFederationState (m : Manager) (f : FederationName) (fom : FOMHandle) : federationState :=
  match fed m !! f with
  | Some st => set_address st (nextAddress m)
  | None => set_defaults (newFederationState (nextAddress m)) (defaultSwitches fom)
  end.

(** The deferred assignment of a mandatory change comes last. *)
Definition commitDeclarationChange (outbox : Outbox) (m : Manager) (f : FederationName) (candidate : federationState) (ds : list OutboxDelivery) (mandatory : bool) : reply () :=
  let restore (m' : Manager) := match fed m !! f with Some previous => publish m' f previous | None => forget m' f end in
  let deferred (m' : Manager) := if mandatory then publish m' f candidate else m' in
  let finish (es : list effect) (e : option decl_error) :=
    let m' := publish m f candidate in
    Reply (deferred (if isNone e then m' else restore m')) es (errOf e) in
  match ds with
  | [] => finish [] None
  | d :: rest =>
      match Reserve outbox with
      | Some reserve =>
          match reserve f ds with
          | ReserveError e => Reply (deferred m) [] (Fail e)
          | NilReservation => Reply (deferred m) [] (Fail (decl_errorf "declaration: outbox returned nil reservation"))
          | Reservation e => finish [Commits f ds (isNone e); ReleasesReservation] e
          end
      | None =>
          if negb (bool_decide (rest = [])) then Reply (deferred m) [] (Fail (decl_errorf "declaration: atomic advisory fanout requires a reservable outbox"))
          else let e := Send outbox f d in finish [Sends f d (isNone e)] e
      end
  end.

(** The advisories a change calls for: of what it altered, and of what is
    relevant under a switch that was off. *)
Definition callsFor (previous : option federationState) (st : federationState) (before : gmap adviceKey UpdateRateDemand) (key : adviceKey) (value : UpdateRateDemand) : bool :=
  let newlyEnabled := match previous with Some p => negb (switchEnabled p (Recipient key) (Kind key)) && Relevant value | None => false end in
  (negb (demandEq (default noDemand (before !! key)) value) || newlyEnabled) && switchEnabled st (Recipient key) (Kind key).
Definition noteAdvice (calls : adviceKey -> UpdateRateDemand -> bool) (after : gmap adviceKey UpdateRateDemand) (st : federationState) : federationState :=
  set_pendingAdvice st (pendingAdvice st ∪ dom (filter (fun kv : adviceKey * UpdateRateDemand => calls kv.1 kv.2 = true) after)).

(** [mutate] returns with the state what the service's closure captures. *)
Definition changeWith {A} (m : Manager) (f : FederationName) (fom : FOMHandle) (mutate : federationState -> outcome decl_error (federationState * A)) (mandatory : bool) : reply A :=
  let previous := fed m !! f in
  let st := cloneFederationState m f fom in
  let m := allocate m in
  let before := desiredAdvice st fom in
  match mutate st with
  | Fail e => Reply m [] (Fail e)
  | Panic s => Reply m [] (Panic s)
  | Ret (st, a) =>
      match advisoryOutbox opts with
      | None => Reply (publish m f st) [] (Ret a)
      | Some outbox =>
          let after' := desiredAdvice st fom in
          let '(st, ds) := pendingDeliveries (noteAdvice (callsFor previous st before) after' st) after' in
          let r := commitDeclarationChange outbox m f st ds mandatory in
          match result r with
          | Ret _ => Reply (publish (after r) f (set_pendingAdvice st ∅)) (effects r) (Ret a)
          | Fail e => Reply (after r) (effects r) (Fail e)
          | Panic s => Reply (after r) (effects r) (Panic s)
          end
      end
  end.
Definition changeChecked {A} (m : Manager) (f : FederationName) (mutate : federationState -> outcome decl_error (federationState * A)) (mandatory : bool) : reply A :=
  match model f with
  | (fom, None) => changeWith m f fom mutate mandatory
  | (fom, Some e) => if mandatory then changeWith m f fom mutate mandatory else Reply m [] (Fail e)
  end.
Definition changeMode (m : Manager) (f : FederationName) (mutate : federationState -> federationState) (mandatory : bool) : reply () :=
  changeChecked m f (fun st => Ret (mutate st, ())) mandatory.
Definition change (m : Manager) (f : FederationName) (mutate : federationState -> federationState) : reply () := changeMode m f mutate false.
Definition changeMandatory (m : Manager) (f : FederationName) (mutate : federationState -> federationState) : reply () := changeMode m f mutate true.
End Change.
