(* ===== verification/DeclService.v ===== *)
(** * Declaration management: the services

    Publication and subscription ([manager.go], [options.go],
    [unsubscribe.go]), switches ([options.go]), regional interests
    ([regional_interest.go]), update rates ([update_rate.go],
    [update_rate_integration.go]), resignation, queries and their cached
    snapshots ([manager.go], [registration.go], [delivery_rate.go]). *)
From stdpp Require Import gmap.
From S2P Require Import Prelude GoFloat Decl DeclChange.
Open Scope Z_scope.

(** ** Mutations of the state *)
(** The privilege to delete is published with the first attribute and until it
    is itself published or unpublished.  What was added is what the closure
    captures. *)
Definition addPublication (pub : FederateHandle) (cls : ObjectClassHandle) (acc : federationState * list AttributeHandle) (a : AttributeHandle) : federationState * list AttributeHandle :=
  let '(st, added) := acc in
  if declares (objPubs st) (cls, a) pub then acc
  else (set_objPubs st (addMember (objPubs st) (cls, a) pub), added ++ [a]).
Definition addPublications (st : federationState) (pub : FederateHandle) (cls : ObjectClassHandle) (attrs : list AttributeHandle) : federationState * list AttributeHandle :=
  fold_left (addPublication pub cls) attrs (st, []).
Definition publishAttributes (privilege : AttributeHandle) (pub : FederateHandle) (cls : ObjectClassHandle) (attrs : list AttributeHandle) (st : federationState) : federationState * list AttributeHandle :=
  let before := publishedAttributes st pub cls in
  let '(st, added) := addPublications st pub cls attrs in
  if (privilege =? 0) || bool_decide (attrs = []) then (st, sortHandles added)
  else
    let key := (cls, pub) in
    let touched := match objPubHistory st !! key with Some touched => touched | None => bool_decide (privilege ∈ before) end in
    let touched := touched || bool_decide (privilege ∈ attrs) in
    let st := set_objPubHistory st (<[key := touched]> (objPubHistory st)) in
    if touched || declares (objPubs st) (cls, privilege) pub then (st, sortHandles added)
    else (set_objPubs st (addMember (objPubs st) (cls, privilege) pub), sortHandles (added ++ [privilege])).
Definition subscribeAttribute (sub : FederateHandle) (cls : ObjectClassHandle) (options : SubscriptionOptions) (st : federationState) (attr : AttributeHandle) : federationState :=
  let key := (cls, attr) in
  let st := set_objSubs st (addMember (objSubs st) key sub) in
  let st := set_objOptions st (setOption (objOptions st) key sub options) in
  set_objSubSnapshots st (delete key (objSubSnapshots st)).
Definition subscribedAttributes (st : federationState) (sub : FederateHandle) (cls : ObjectClassHandle) : list AttributeHandle :=
  omap (fun ks : objAttrKey * gset FederateHandle => if (ks.1.1 =? cls) && bool_decide (sub ∈ ks.2) then Some ks.1.2 else None) (map_to_list (objSubs st)).
Definition unsubscribeAttribute (sub : FederateHandle) (cls : ObjectClassHandle) (st : federationState) (attr : AttributeHandle) : federationState :=
  let key := (cls, attr) in
  if negb (declares (objSubs st) key sub) then st
  else
    let st := set_objSubs st (removeMember (objSubs st) key sub) in
    let st := set_objSubSnapshots st (delete key (objSubSnapshots st)) in
    set_objOptions st (removeOption (objOptions st) key sub).
Definition subscribeInteraction (sub : FederateHandle) (cls : InteractionClassHandle) (active : bool) (st : federationState) : federationState :=
  let st := set_intSubs st (addMember (intSubs st) cls sub) in
  let st := set_intActive st (setOption (intActive st) cls sub active) in
  set_intSubSnapshots st (delete cls (intSubSnapshots st)).
Definition unsubscribeInteraction (sub : FederateHandle) (cls : InteractionClassHandle) (st : federationState) : federationState :=
  let st := set_intSubs st (removeMember (intSubs st) cls sub) in
  let st := set_intSubSnapshots st (delete cls (intSubSnapshots st)) in
  set_intActive st (removeOption (intActive st) cls sub).
Definition setRegionalObjectInterest (sub : FederateHandle) (cls : ObjectClassHandle) (attrs : list AttributeHandle) (st : federationState) : federationState :=
  let table := removeMembers (fun key => key.1 =? cls) (regionalObjects st) sub in
  set_regionalObjects st (fold_left (fun t attr => addMember t (cls, attr) sub) attrs table).
Definition setRegionalInteractionInterest (sub : FederateHandle) (cls : InteractionClassHandle) (active : bool) (st : federationState) : federationState :=
  set_regionalInteractions st
    (if active then addMember (regionalInteractions st) cls sub else removeMember (regionalInteractions st) cls sub).
Definition removeRateParticipant (h : FederateHandle) (st : federationState) : federationState :=
  let st := set_rateObjects st ((fun state => RateObject (class state) ((fun owner => if owner =? h then 0 else owner) <$> owners state)) <$> rateObjects st) in
  let st := set_regionalRates st (List.filter (fun e => negb (r_Subscriber e =? h)) (regionalRates st)) in
  set_pendingAdvice st (filter (fun key => Recipient key <> h) (pendingAdvice st)).
Definition removeFederate (h : FederateHandle) (st : federationState) : federationState :=
  let st := removeRateParticipant h st in
  let st := set_intPubs st (removeMembers (fun _ => true) (intPubs st) h) in
  let st := set_intSubs st (removeMembers (fun _ => true) (intSubs st) h) in
  let st := set_regionalInteractions st (removeMembers (fun _ => true) (regionalInteractions st) h) in
  let st := set_regionalObjects st (removeMembers (fun _ => true) (regionalObjects st) h) in
  let st := set_objPubs st (removeMembers (fun _ => true) (objPubs st) h) in
  let st := set_objPubHistory st (filter (fun kt : objectPublicationKey * bool => kt.1.2 <> h) (objPubHistory st)) in
  let st := set_objSubs st (removeMembers (fun _ => true) (objSubs st) h) in
  let st := set_objSubSnapshots st ∅ in
  let st := set_intSubSnapshots st ∅ in
  let st := set_objOptions st (removeOptions (objOptions st) h) in
  let st := set_intActive st (removeOptions (intActive st) h) in
  set_switches st (delete h (switches st)).

Section Services.
Context (opts : Options).
Implicit Types (m : Manager) (f : FederationName).

(** ** Publication *)
Definition withHook (r : reply (list AttributeHandle)) (hook : list AttributeHandle -> list effect) : reply () :=
  Reply (after r) (effects r ++ match result r with Ret attrs => hook attrs | _ => [] end) (discard (result r)).
Definition PublishObjectClassAttributes m f (pub : FederateHandle) (cls : ObjectClassHandle) (attrs : list AttributeHandle) : reply () :=
  match modelFor opts f with
  | Ret fom =>
      let privilege := deletePrivilege fom cls in
      let attrs := sortCompact attrs in
      withHook (changeChecked opts m f (fun st => Ret (publishAttributes privilege pub cls attrs st)) false)
        (fun added => if onPublishObjectClass opts && negb (bool_decide (added = [])) then [PublishHook f pub cls added] else [])
  | Fail e => Reply m [] (Fail e)
  | Panic s => Reply m [] (Panic s)
  end.
Definition PublishInteractionClass m f (pub : FederateHandle) (cls : InteractionClassHandle) : reply () :=
  change opts m f (fun st => set_intPubs st (addMember (intPubs st) cls pub)).
(** In place: no clone, no advisory. *)
Definition UnpublishInteractionClass m f (pub : FederateHandle) (cls : InteractionClassHandle) : reply () :=
  match fed m !! f with
  | None => Reply m [] (Ret ())
  | Some st => Reply (publish m f (set_intPubs st (removeMember (intPubs st) cls pub))) [] (Ret ())
  end.

(** ** Subscription *)
Definition ValidateSubscriptionOptions f (options : SubscriptionOptions) : outcome decl_error () :=
  if bool_decide (UpdateRateDesignator options = ""%string) then Ret ()
  else fom ← modelFor opts f; validateSubscriptionOptions fom options.
Definition validateObjectAttributes (fom : FOMHandle) (cls : ObjectClassHandle) (attrs : list AttributeHandle) : outcome decl_error () :=
  match fom ≫= names with
  | None => Ret ()
  | Some n =>
      if negb (bool_decide (is_Some (ObjectClassName n cls))) then Fail ErrObjectClassNotFound
      else if forallb (fun attr => bool_decide (is_Some (AttributeName n cls attr))) attrs then Ret () else Fail ErrAttributeNotFound
  end.
Definition guarded m (guard : outcome decl_error ()) (k : reply ()) : reply () :=
  match guard with Ret _ => k | Fail e => Reply m [] (Fail e) | Panic s => Reply m [] (Panic s) end.
Definition SubscribeObjectClassAttributesWithOptions m f (sub : FederateHandle) (cls : ObjectClassHandle) (attrs : list AttributeHandle) (options : SubscriptionOptions) : reply () :=
  guarded m (_ ← ValidateSubscriptionOptions f options; fom ← modelFor opts f; validateObjectAttributes fom cls attrs)
    (let r := change opts m f (fun st => fold_left (subscribeAttribute sub cls options) attrs st) in
     Reply (after r) (effects r ++ match result r with Ret _ => if onSubscribeObjectClass opts then [SubscribeHook f sub cls attrs] else [] | _ => [] end) (result r)).
Definition SubscribeObjectClassAttributes m f sub cls attrs : reply () :=
  SubscribeObjectClassAttributesWithOptions m f sub cls attrs (Opts true "").
(** [cancelled] is what [ctx.Err()] says. *)
Definition unsubscribeObject (cancelled : bool) m f (sub : FederateHandle) (cls : ObjectClassHandle) (attrs : list AttributeHandle) (whole : bool) : reply () :=
  if cancelled then Reply m [] (Fail errContext)
  else guarded m (fom ← modelFor opts f; validateObjectAttributes fom cls attrs)
    (if negb whole && bool_decide (attrs = []) then Reply m [] (Ret ())
     else change opts m f (fun st =>
       fold_left (unsubscribeAttribute sub cls) (if whole then subscribedAttributes st sub cls else sortCompact attrs) st)).
Definition UnsubscribeObjectClass cancelled m f sub cls : reply () := unsubscribeObject cancelled m f sub cls [] true.
Definition UnsubscribeObjectClassAttributeSet cancelled m f sub cls attrs : reply () := unsubscribeObject cancelled m f sub cls attrs false.
Definition UnsubscribeObjectClassAttributes cancelled m f sub cls attrs : reply () :=
  if bool_decide (attrs = []) then UnsubscribeObjectClass cancelled m f sub cls else UnsubscribeObjectClassAttributeSet cancelled m f sub cls attrs.
Definition SubscribeInteractionClassWithOptions m f (sub : FederateHandle) (cls : InteractionClassHandle) (active : bool) : reply () :=
  guarded m (fom ← modelFor opts f;
      match fom ≫= names with
      | Some n => if bool_decide (is_Some (InteractionClassName n cls)) then Ret () else Fail ErrInteractionClassNotFound
      | None => Ret ()
      end)
    (change opts m f (subscribeInteraction sub cls active)).
Definition SubscribeInteractionClass m f sub cls : reply () := SubscribeInteractionClassWithOptions m f sub cls true.
Definition UnsubscribeInteractionClass m f (sub : FederateHandle) (cls : InteractionClassHandle) : reply () :=
  change opts m f (unsubscribeInteraction sub cls).

(** ** Switches *)
Definition setSwitch (h : FederateHandle) (kind : Z) (enabled : bool) (st : federationState) : outcome decl_error (federationState * ()) :=
  if eqb (switchEnabled st h kind) enabled then Fail (AdvisorySwitchAlreadySetError kind enabled)
  else Ret (set_switches st (<[h := <[kind := enabled]> (default ∅ (switches st !! h))]> (switches st)), ()).
Definition SetAdvisorySwitch m f (h : FederateHandle) (kind : Z) (enabled : bool) : reply () :=
  if negb (validKind kind) then Reply m [] (Fail ErrInvalidAdvisorySwitch)
  else changeChecked opts m f (setSwitch h kind enabled) false.
Definition AdvisorySwitchEnabled m f (h : FederateHandle) (kind : Z) : bool :=
  if negb (validKind kind) then false
  else match fed m !! f with
       | Some st => switchEnabled st h kind
       | None => defaultAt (defaultSwitches (model opts f).1) kind
       end.
Definition RetryAdvisories m f : reply () := change opts m f (fun st => st).

(** ** Regional interests, update rates *)
Definition SetRegionalObjectSubscriptionInterest m f sub cls activeAttrs : reply () :=
  change opts m f (setRegionalObjectInterest sub cls activeAttrs).
Definition SetRegionalInteractionSubscriptionInterest m f sub cls active : reply () :=
  change opts m f (setRegionalInteractionInterest sub cls active).
Definition SyncObjectUpdateRateOwners m f (obj : ObjectHandle) (cls : ObjectClassHandle) (owners : gmap AttributeHandle FederateHandle) : reply () :=
  if (obj =? 0) || (cls =? 0) then Reply m [] (Fail ErrObjectHandleInvalid)
  else if bool_decide (is_Some (owners !! 0)) then Reply m [] (Fail ErrAttributeNotFound)
  else changeMandatory opts m f (fun st => set_rateObjects st (<[obj := RateObject cls owners]> (rateObjects st))).
Definition RemoveObjectUpdateRate m f (obj : ObjectHandle) : reply () :=
  changeMandatory opts m f (fun st =>
    let st := set_rateObjects st (delete obj (rateObjects st)) in
    set_regionalRates st (List.filter (fun e => negb (r_Object e =? obj)) (regionalRates st))).
Fixpoint validateRates f (seen entries : list RegionalUpdateRateSubscription) : outcome decl_error () :=
  match entries with
  | [] => Ret ()
  | e :: entries =>
      if (r_Object e =? 0) || (r_Attribute e =? 0) || (r_Subscriber e =? 0) then Fail (decl_errorf "declaration: invalid regional rate target")
      else _ ← ValidateSubscriptionOptions f (r_Options e);
        if bool_decide (e ∈ seen) then Fail (decl_errorf "declaration: duplicate regional rate demand")
        else validateRates f (e :: seen) entries
  end.
Definition SetRegionalUpdateRateSubscriptions m f (entries : list RegionalUpdateRateSubscription) : reply () :=
  guarded m (validateRates f [] entries) (change opts m f (fun st => set_regionalRates st entries)).
Fixpoint validateDesignators f (entries : list RegionalUpdateRateSubscription) : outcome decl_error () :=
  match entries with
  | [] => Ret ()
  | e :: entries => _ ← ValidateSubscriptionOptions f (r_Options e); validateDesignators f entries
  end.
Definition SetRegionalObjectInterestAndUpdateRates m f sub cls attrs (rates : list RegionalUpdateRateSubscription) : reply () :=
  guarded m (validateDesignators f rates)
    (change opts m f (fun st => set_regionalRates (setRegionalObjectInterest sub cls attrs st) rates)).
Definition SyncRegionalUpdateRateSubscriptions m f (rates : list RegionalUpdateRateSubscription) : reply () :=
  changeMandatory opts m f (fun st => set_regionalRates st rates).
Definition SyncObjectUpdateRateState m f (obj : ObjectHandle) (cls : ObjectClassHandle) (owners : gmap AttributeHandle FederateHandle) (rates : list RegionalUpdateRateSubscription) : reply () :=
  changeMandatory opts m f (fun st => set_regionalRates (set_rateObjects st (<[obj := RateObject cls owners]> (rateObjects st))) rates).

(** ** Lifecycle *)
Definition OnFederateResign m f (h : FederateHandle) : Manager * list effect :=
  let r := changeMandatory opts m f (removeFederate h) in (after r, effects r).
Definition OnFederationDestroyed m f : Manager := forget m f.
End Services.

(** ** Queries *)
Section Queries.
Implicit Types (m : Manager) (f : FederationName).

Definition SubscribersFor m f (cls : ObjectClassHandle) (attrs : list AttributeHandle) : list FederateHandle :=
  match fed m !! f with
  | None => []
  | Some st =>
      if bool_decide (attrs = []) then []
      else sortedHandles (fold_left (fun union a => union ∪ membersAt (objSubs st) (cls, a)) attrs ∅)
  end.
Definition InteractionSubscribersFor m f (cls : InteractionClassHandle) : list FederateHandle :=
  match fed m !! f with Some st => sortedHandles (membersAt (intSubs st) cls) | None => [] end.
(** A snapshot is computed once and kept by the state. *)
Definition ObjectSubscribersSnapshot m f (cls : ObjectClassHandle) (attrs : list AttributeHandle) : Manager * list FederateHandle :=
  match attrs with
  | [a] =>
      match fed m !! f with
      | None => (m, [])
      | Some st =>
          match objSubSnapshots st !! (cls, a) with
          | Some snapshot => (m, snapshot)
          | None =>
              let snapshot := sortedHandles (membersAt (objSubs st) (cls, a)) in
              (publish m f (set_objSubSnapshots st (<[(cls, a) := snapshot]> (objSubSnapshots st))), snapshot)
          end
      end
  | _ => (m, SubscribersFor m f cls attrs)
  end.
Definition InteractionSubscribersSnapshot m f (cls : InteractionClassHandle) : Manager * list FederateHandle :=
  match fed m !! f with
  | None => (m, [])
  | Some st =>
      match intSubSnapshots st !! cls with
      | Some snapshot => (m, snapshot)
      | None =>
          let snapshot := sortedHandles (membersAt (intSubs st) cls) in
          (publish m f (set_intSubSnapshots st (<[cls := snapshot]> (intSubSnapshots st))), snapshot)
      end
  end.
Definition PublishersFor m f (cls : ObjectClassHandle) (attr : AttributeHandle) : list FederateHandle :=
  match fed m !! f with Some st => sortedHandles (membersAt (objPubs st) (cls, attr)) | None => [] end.
Definition InteractionPublishersFor m f (cls : InteractionClassHandle) : list FederateHandle :=
  match fed m !! f with Some st => sortedHandles (membersAt (intPubs st) cls) | None => [] end.
Definition ValidateObjectPublication m f (publisher : FederateHandle) (cls : ObjectClassHandle) (attrs : list AttributeHandle) : outcome decl_error () :=
  match fed m !! f with
  | None => Fail ErrObjectClassNotPublished
  | Some st =>
      if negb (existsb (fun ks : objAttrKey * gset FederateHandle => (ks.1.1 =? cls) && bool_decide (publisher ∈ ks.2)) (map_to_list (objPubs st)))
      then Fail ErrObjectClassNotPublished
      else if forallb (fun attr => declares (objPubs st) (cls, attr) publisher) attrs then Ret () else Fail ErrAttributeNotPublished
  end.
Definition PublishesObjectAttribute m f (cls : ObjectClassHandle) (attr : AttributeHandle) (publisher : FederateHandle) : bool :=
  match fed m !! f with Some st => declares (objPubs st) (cls, attr) publisher | None => false end.
Definition PublishesInteraction m f (cls : InteractionClassHandle) (publisher : FederateHandle) : bool :=
  match fed m !! f with Some st => declares (intPubs st) cls publisher | None => false end.
Definition PublishedObjectAttributes m f (publisher : FederateHandle) (cls : ObjectClassHandle) : list AttributeHandle :=
  publishedOf (fed m !! f) publisher cls.
Definition ObjectSubscriptionOptions m f (sub : FederateHandle) (cls : ObjectClassHandle) (attr : AttributeHandle) : option SubscriptionOptions :=
  match fed m !! f with
  | Some st => if declares (objSubs st) (cls, attr) sub then Some (objectOptions st (cls, attr) sub) else None
  | None => None
  end.
Definition RegionalAttributeSubscriptionOptions m f (sub : FederateHandle) (obj : ObjectHandle) (attr : AttributeHandle) : list SubscriptionOptions :=
  match fed m !! f with
  | Some st => map r_Options (List.filter (fun e => (r_Subscriber e =? sub) && (r_Object e =? obj) && (r_Attribute e =? attr)) (regionalRates st))
  | None => []
  end.
Definition EffectiveAttributeUpdateRate (opts : Options) m f (obj : ObjectHandle) (attr : AttributeHandle) : option UpdateRateDemand :=
  match modelFor opts f with
  | Ret fom =>
      st ← fed m !! f; state ← rateObjects st !! obj; _ ← owners state !! attr; Some (attributeDemand st fom obj attr)
  | _ => None
  end.
Definition classHasSubscribersLocked (st : federationState) (cls : ObjectClassHandle) : bool :=
  existsb (fun ks : objAttrKey * gset FederateHandle => (ks.1.1 =? cls) && negb (bool_decide (ks.2 = ∅))) (map_to_list (objSubs st)).
Definition classPublishersLocked (st : federationState) (cls : ObjectClassHandle) : list FederateHandle :=
  sortedHandles (list_to_set (omap (fun kp : objAttrKey * FederateHandle => if kp.1.1 =? cls then Some kp.2 else None) (publications (objPubs st)))).
(** [Snapshot], the rollup for the administration service: the classes of each
    federate that publishes or subscribes. *)
Record DeclarationFederatePubSub := PubSub {
  PublishedObjectClasses : list ObjectClassHandle;
  SubscribedObjectClasses : list ObjectClassHandle;
  PublishedInteractionClasses : list InteractionClassHandle;
  SubscribedInteractionClasses : list InteractionClassHandle;
}.
Definition classesOf {K} `{Countable K} (cls : K -> Z) (t : gmap K (gset FederateHandle)) (h : FederateHandle) : list Z :=
  sortCompact (omap (fun kp : K * FederateHandle => if kp.2 =? h then Some (cls kp.1) else None) (publications t)).
Definition declarants (st : federationState) : gset FederateHandle :=
  list_to_set (map snd (publications (objPubs st)) ++ map snd (publications (objSubs st)) ++ map snd (publications (intPubs st)) ++ map snd (publications (intSubs st))).
Definition Snapshot m f : list ObjectClassHandle * gmap FederateHandle DeclarationFederatePubSub :=
  match fed m !! f with
  | None => ([], ∅)
  | Some st =>
      (sortCompact (map (fun ks : objAttrKey * gset FederateHandle => ks.1.1) (map_to_list (objPubs st))),
       set_to_map (fun h => (h, PubSub (classesOf fst (objPubs st) h) (classesOf fst (objSubs st) h) (classesOf id (intPubs st) h) (classesOf id (intSubs st) h))) (declarants st))
  end.
End Queries.
