(* ===== verification/DeclUnpublish.v ===== *)
(** * Declaration management: unpublication of object attributes ([unpublication.go])

    The one service that works with two other managers: the object manager
    pins the instances concerned, the ownership manager prepares to divest
    their attributes, and both plans are committed with the declaration.  The
    state is read before and compared after the plans are made; when another
    service changed it in between, the attempt is repeated.  [others i] is what
    other services did to the manager during attempt [i]. *)
From stdpp Require Import gmap.
From S2P Require Import Prelude GoFloat Decl DeclChange DeclService.
Open Scope Z_scope.

Section Unpublish.
Context (opts : Options).
Implicit Types (m : Manager) (f : FederationName) (pub : FederateHandle) (cls : ObjectClassHandle).

Definition unpublicationCandidates m f pub cls (attrs : list AttributeHandle) (whole : bool) (fom : FOMHandle) : outcome decl_error (list AttributeHandle) :=
  _ ← validateObjectAttributes fom cls attrs;
  Ret (sortCompact (if whole then match fom ≫= AttributeHandles with Some available => available cls | None => PublishedObjectAttributes m f pub cls end else attrs)).
Definition prepareObjects (i : nat) f pub cls (attrs : list AttributeHandle) : outcome decl_error ObjectPlan :=
  match unpublicationObjects opts with
  | None => Panic "nil unpublicationObjects"
  | Some prepare =>
      plan ← prepare i f pub cls attrs;
      match plan with Some plan => Ret plan | None => Fail (decl_errorf "unpublication object preparation returned nil") end
  end.
Definition prepareObjectUnpublication (i : nat) f pub cls (attrs : list AttributeHandle) : outcome decl_error (option ObjectPlan) :=
  match unpublicationObjects opts, unpublicationOwnership opts with
  | None, None => Ret None
  | Some _, Some _ => Some <$> prepareObjects i f pub cls attrs
  | _, _ => Fail (decl_errorf "unpublication requires both object and ownership ports")
  end.
(** Publication grew since the plan was made: the plan is made anew. *)
Inductive expansion :=
| Expanded (candidates : list AttributeHandle) (plan : option ObjectPlan)
| RetryWith (candidates : list AttributeHandle) (plan : ObjectPlan)
| ExpandFails (e : decl_error)
| ExpandPanics (msg : string).
Definition expandUnpublication (i : nat) f pub cls (candidates expected : list AttributeHandle) (plan : option ObjectPlan) : expansion :=
  let added := List.filter (fun attr => negb (bool_decide (attr ∈ candidates))) expected in
  if bool_decide (added = []) then Expanded candidates plan
  else
    let candidates := sortCompact (candidates ++ added) in
    match plan with
    | None => Expanded candidates None
    | Some _ =>
        match prepareObjects i f pub cls candidates with
        | Ret plan => RetryWith candidates plan
        | Fail e => ExpandFails e
        | Panic s => ExpandPanics s
        end
    end.
(** The last explicit attribute takes the implicit privilege with it. *)
Definition selectUnpublicationAttributes (expected candidates : list AttributeHandle) (privilege : AttributeHandle) (touched : bool) : list AttributeHandle :=
  let selected := List.filter (fun attr => bool_decide (attr ∈ candidates)) expected in
  if negb (privilege =? 0) && negb touched && bool_decide (privilege ∈ expected) && negb (bool_decide (privilege ∈ selected))
     && (Z.of_nat (length selected) =? Z.of_nat (length expected) - 1)
  then sortHandles (selected ++ [privilege]) else selected.
(** [None] without an object plan; a failed projection releases the plan. *)
Definition prepareOwnershipUnpublication (i : nat) f pub (selected : list AttributeHandle) (plan : option ObjectPlan) : list effect * outcome decl_error (option OwnershipPlan) :=
  match plan with
  | None => ([], Ret None)
  | Some objects =>
      match unpublicationOwnership opts with
      | None => ([], Panic "nil unpublicationOwnership")
      | Some prepare =>
          match prepare i f pub (SelectAttributes objects selected) with
          | Fail e => ([], Fail e)
          | Panic s => ([], Panic s)
          | Ret None => ([], Fail (decl_errorf "unpublication ownership preparation returned nil"))
          | Ret (Some ownership) =>
              match PrepareCallbackProjections ownership with
              | None => ([], Ret (Some ownership))
              | Some project =>
                  match project (ProjectKnownObjectAttributes objects) with
                  | None => ([], Ret (Some ownership))
                  | Some e => ([ReleasesOwnership], Fail e)
                  end
              end
          end
      end
  end.

Definition removePublications pub cls (selected : list AttributeHandle) (st : federationState) : federationState :=
  set_objPubs st (fold_left (fun t attr => removeMember t (cls, attr) pub) selected (objPubs st)).
Definition unpublishAttributes pub cls (candidates selected : list AttributeHandle) (privilege : AttributeHandle) (st : federationState) : federationState :=
  let st := removePublications pub cls selected st in
  if bool_decide (publishedAttributes st pub cls = []) then set_objPubHistory st (delete (cls, pub) (objPubHistory st))
  else if negb (privilege =? 0) && bool_decide (privilege ∈ candidates) then set_objPubHistory st (<[(cls, pub) := true]> (objPubHistory st))
  else st.
Definition commitUnpublicationLocked m f pub cls (fom : FOMHandle) (candidates selected : list AttributeHandle) (privilege : AttributeHandle) (ownership : option OwnershipPlan) : reply () :=
  let st := cloneFederationState m f fom in
  let m := allocate m in
  let before := desiredAdvice st fom in
  let st := unpublishAttributes pub cls candidates selected privilege st in
  let after' := desiredAdvice st fom in
  let st := noteAdvice (fun key value => negb (demandEq (default noDemand (before !! key)) value) && switchEnabled st (Recipient key) (Kind key)) after' st in
  let committed := match ownership with Some _ => [CommitsOwnership] | None => [] end in
  match advisoryOutbox opts with
  | None => Reply (publish m f (set_pendingAdvice st ∅)) committed (Ret ())
  | Some outbox =>
      let '(st, ds) := pendingDeliveries st after' in
      let r := commitDeclarationChange outbox m f st ds false in
      match result r with
      | Ret _ => Reply (publish (after r) f (set_pendingAdvice st ∅)) (effects r ++ committed) (Ret ())
      | _ => r
      end
  end.
Definition releaseObjects (plan : option ObjectPlan) : list effect := match plan with Some _ => [ReleasesObjects] | None => [] end.
Definition releaseOwnership (plan : option OwnershipPlan) : list effect := match plan with Some _ => [ReleasesOwnership] | None => [] end.
Definition dispatchUnpublication (objects : option ObjectPlan) (ownership : option OwnershipPlan) : list effect * outcome decl_error () :=
  (releaseObjects objects ++ match ownership with Some p => [Dispatches (isNone (DispatchResult p))] | None => [] end,
   match ownership with Some p => errOf (DispatchResult p) | None => Ret () end).

(** One attempt: it ends with the effects so far and a result, or leaves what
    the next one starts from.  [m] is the manager at the read, [m'] the manager
    when the lock is taken again. *)
Inductive attempt :=
| Ends (r : reply ())
| Again (m : Manager) (es : list effect) (candidates : list AttributeHandle) (plan : option ObjectPlan).
Definition attemptUnpublication (i : nat) (others : Manager -> Manager) m f pub cls (candidates : list AttributeHandle) (whole : bool) (fom : FOMHandle) (privilege : AttributeHandle) (plan : option ObjectPlan) : attempt :=
  let expectedState := fed m !! f in
  let expected := publishedOf expectedState pub cls in
  let touched := match expectedState with Some st => default false (objPubHistory st !! (cls, pub)) | None => false end in
  let m' := others m in
  match (if whole then expandUnpublication i f pub cls candidates expected plan else Expanded candidates plan) with
  | ExpandFails e => Ends (Reply m' [ReleasesObjects] (Fail e))
  | ExpandPanics s => Ends (Reply m' [ReleasesObjects] (Panic s))
  | RetryWith candidates plan => Again m' [ReleasesObjects] candidates (Some plan)
  | Expanded candidates plan =>
      let selected := selectUnpublicationAttributes expected candidates privilege touched in
      match prepareOwnershipUnpublication i f pub selected plan with
      | (es, Fail e) => Ends (Reply m' (es ++ releaseObjects plan) (Fail e))
      | (es, Panic s) => Ends (Reply m' (es ++ releaseObjects plan) (Panic s))
      | (es, Ret ownership) =>
          if bool_decide (address <$> fed m' !! f = address <$> expectedState) && bool_decide (publishedOf (fed m' !! f) pub cls = expected)
          then
            let r := commitUnpublicationLocked m' f pub cls fom candidates selected privilege ownership in
            match result r with
            | Ret _ =>
                let '(ds, e) := dispatchUnpublication plan ownership in
                Ends (Reply (after r) (es ++ effects r ++ ds ++ releaseObjects plan) e)
            | e => Ends (Reply (after r) (es ++ effects r ++ releaseOwnership ownership ++ releaseObjects plan) e)
            end
          else Again m' (es ++ releaseOwnership ownership) candidates plan
      end
  end.
(** The loop; [None] when the fuel runs out. *)
Fixpoint unpublishPrepared (fuel i : nat) (cancelled : nat -> bool) (others : nat -> Manager -> Manager) m f pub cls (candidates : list AttributeHandle) (whole : bool) (fom : FOMHandle) (privilege : AttributeHandle) (plan : option ObjectPlan) : option (reply ()) :=
  match fuel with
  | O => None
  | S fuel =>
      if cancelled i then Some (Reply m (releaseObjects plan) (Fail errContext))
      else match attemptUnpublication i (others i) m f pub cls candidates whole fom privilege plan with
           | Ends r => Some r
           | Again m es candidates plan =>
               (fun r => Reply (after r) (es ++ effects r) (result r)) <$> unpublishPrepared fuel (S i) cancelled others m f pub cls candidates whole fom privilege plan
           end
  end.
Definition unpublishObject (fuel : nat) (cancelled : nat -> bool) (others : nat -> Manager -> Manager) m f pub cls (attrs : list AttributeHandle) (whole : bool) : option (reply ()) :=
  if cancelled O then Some (Reply m [] (Fail errContext))
  else
    match (fom ← modelFor opts f; candidates ← unpublicationCandidates m f pub cls attrs whole fom; Ret (fom, candidates)) with
    | Fail e => Some (Reply m [] (Fail e))
    | Panic s => Some (Reply m [] (Panic s))
    | Ret (fom, candidates) =>
        if negb whole && bool_decide (candidates = []) then Some (Reply m [] (Ret ()))
        else
          let privilege := deletePrivilege fom cls in
          let projectionAttrs := if negb (privilege =? 0) && negb (bool_decide (privilege ∈ candidates)) then sortHandles (candidates ++ [privilege]) else candidates in
          match prepareObjectUnpublication O f pub cls projectionAttrs with
          | Fail e => Some (Reply m [] (Fail e))
          | Panic s => Some (Reply m [] (Panic s))
          | Ret plan => unpublishPrepared fuel 1 cancelled others m f pub cls candidates whole fom privilege plan
          end
    end.
Definition UnpublishObjectClass fuel cancelled others m f pub cls := unpublishObject fuel cancelled others m f pub cls [] true.
Definition UnpublishObjectClassAttributeSet fuel cancelled others m f pub cls attrs := unpublishObject fuel cancelled others m f pub cls attrs false.
Definition UnpublishObjectClassAttributes fuel cancelled others m f pub cls (attrs : list AttributeHandle) :=
  if bool_decide (attrs = []) then UnpublishObjectClass fuel cancelled others m f pub cls else UnpublishObjectClassAttributeSet fuel cancelled others m f pub cls attrs.
End Unpublish.
