(* ===== verification/DeclSnapshot.v ===== *)
(** * Declaration management: saved states ([state.go], [options_state.go],
    [publication_history.go], [update_rate_state.go])

    Export lists every table in order, without the caches; a restore validates
    every record and builds the state its commit will publish. *)
From stdpp Require Import gmap.
From S2P Require Import Prelude GoFloat Decl DeclChange DeclService.
Open Scope Z_scope.

Record ObjectDeclarationState := ObjectDeclaration { o_Class : ObjectClassHandle; o_Attribute : AttributeHandle; o_Federates : list FederateHandle }.
Record InteractionDeclarationState := InteractionDeclaration { i_Class : InteractionClassHandle; i_Federates : list FederateHandle }.
Record ObjectPublicationHistoryState := PublicationHistory { h_Class : ObjectClassHandle; h_Federate : FederateHandle; DeletePrivilegeTouched : bool }.
Record ObjectSubscriptionOptionsState := ObjectOptionsState { oo_Class : ObjectClassHandle; oo_Attribute : AttributeHandle; oo_Federate : FederateHandle; oo_Options : SubscriptionOptions }.
Record InteractionSubscriptionOptionsState := InteractionOptionsState { io_Class : InteractionClassHandle; io_Federate : FederateHandle; io_Active : bool }.
Record AdvisorySwitchState := SwitchState { s_Federate : FederateHandle; s_Kind : Z; s_Enabled : bool }.
Record UpdateRateOwnerState := RateOwner { u_Attribute : AttributeHandle; u_Owner : FederateHandle }.
Record UpdateRateObjectState := RateObjectState { u_Object : ObjectHandle; u_Class : ObjectClassHandle; u_Owners : list UpdateRateOwnerState }.
(** A nil publication history, of an older save, is [None]. *)
Record ManagerState := {
  ObjectPublications : list ObjectDeclarationState;
  ObjectPublicationHistory : option (list ObjectPublicationHistoryState);
  ObjectSubscriptions : list ObjectDeclarationState;
  InteractionPublications : list InteractionDeclarationState;
  InteractionSubscriptions : list InteractionDeclarationState;
  ObjectOptions : list ObjectSubscriptionOptionsState;
  InteractionOptions : list InteractionSubscriptionOptionsState;
  AdvisorySwitches : list AdvisorySwitchState;
  AdvisoryDefaults : option switchDefaults;
  RegionalObjectInterests : list ObjectDeclarationState;
  RegionalInteractionInterests : list InteractionDeclarationState;
  UpdateRateObjects : list UpdateRateObjectState;
  RegionalUpdateRates : list RegionalUpdateRateSubscription;
  PendingAdvisories : list adviceKey;
}.
Definition emptyState : ManagerState := Build_ManagerState [] None [] [] [] [] [] [] None [] [] [] [] [].

(** ** Export *)
Definition pairLe (a b : Z * Z) : Prop := a.1 < b.1 \/ a.1 = b.1 /\ a.2 <= b.2.
#[export] Instance pairLe_dec : RelDecision pairLe.
Proof. intros a b. unfold pairLe. apply _. Defined.
Definition tripleLe (a b : Z * Z * Z) : Prop := pairLe a.1 b.1 /\ a.1 <> b.1 \/ a.1 = b.1 /\ a.2 <= b.2.
#[export] Instance tripleLe_dec : RelDecision tripleLe.
Proof. intros a b. unfold tripleLe. apply _. Defined.
Definition keysOf {A} (t : gmap Z A) : list Z := sortHandles (elements (dom t)).
Definition pairsOf {A} (t : gmap (Z * Z) A) : list (Z * Z) := merge_sort pairLe (elements (dom t)).
Definition listed {K A B} `{Countable K} (build : K -> A -> B) (t : gmap K A) (keys : list K) : list B := omap (fun k => build k <$> t !! k) keys.
(** The cells (key, federate) of a two-level table, in order. *)
Definition cells {K} `{Countable K} {A} (t : gmap K (gmap Z A)) : list (K * Z) :=
  flat_map (fun kr : K * gmap Z A => map (fun h => (kr.1, h)) (elements (dom kr.2))) (map_to_list t).
Definition exportObjectDeclarations (t : gmap objAttrKey (gset FederateHandle)) : list ObjectDeclarationState :=
  listed (fun k set => ObjectDeclaration k.1 k.2 (sortedHandles set)) t (pairsOf t).
Definition exportInteractionDeclarations (t : gmap InteractionClassHandle (gset FederateHandle)) : list InteractionDeclarationState :=
  listed (fun cls set => InteractionDeclaration cls (sortedHandles set)) t (keysOf t).
Definition exportPublicationHistory (st : federationState) : option (list ObjectPublicationHistoryState) :=
  match listed (fun k touched => PublicationHistory k.1 k.2 touched) (objPubHistory st) (pairsOf (objPubHistory st)) with [] => None | l => Some l end.
Definition exportObjectOptions (st : federationState) : list ObjectSubscriptionOptionsState :=
  omap (fun k : Z * Z * Z => ObjectOptionsState k.1.1 k.1.2 k.2 <$> optionAt (objOptions st) k.1 k.2) (merge_sort tripleLe (cells (objOptions st))).
Definition exportInteractionOptions (st : federationState) : list InteractionSubscriptionOptionsState :=
  omap (fun k : Z * Z => InteractionOptionsState k.1 k.2 <$> optionAt (intActive st) k.1 k.2) (merge_sort pairLe (cells (intActive st))).
Definition exportSwitches (st : federationState) : list AdvisorySwitchState :=
  omap (fun k : Z * Z => SwitchState k.1 k.2 <$> optionAt (switches st) k.1 k.2) (merge_sort pairLe (cells (switches st))).
Definition exportRateObjects (st : federationState) : list UpdateRateObjectState :=
  listed (fun obj v => RateObjectState obj (class v) (listed RateOwner (owners v) (keysOf (owners v)))) (rateObjects st) (keysOf (rateObjects st)).
Definition optionsLe (a b : SubscriptionOptions) : Prop :=
  Active a = false /\ Active b = true \/ Active a = Active b /\ String.leb (UpdateRateDesignator a) (UpdateRateDesignator b) = true.
#[export] Instance optionsLe_dec : RelDecision optionsLe.
Proof. intros a b. unfold optionsLe. apply _. Defined.
Definition rateKey (e : RegionalUpdateRateSubscription) : Z * Z * Z := (r_Object e, r_Attribute e, r_Subscriber e).
Definition rateLe (a b : RegionalUpdateRateSubscription) : Prop :=
  tripleLe (rateKey a) (rateKey b) /\ rateKey a <> rateKey b \/ rateKey a = rateKey b /\ optionsLe (r_Options a) (r_Options b).
#[export] Instance rateLe_dec : RelDecision rateLe.
Proof. intros a b. unfold rateLe. apply _. Defined.
Definition exportFederation (st : federationState) : ManagerState := {|
  ObjectPublications := exportObjectDeclarations (objPubs st);
  ObjectPublicationHistory := exportPublicationHistory st;
  ObjectSubscriptions := exportObjectDeclarations (objSubs st);
  InteractionPublications := exportInteractionDeclarations (intPubs st);
  InteractionSubscriptions := exportInteractionDeclarations (intSubs st);
  ObjectOptions := exportObjectOptions st;
  InteractionOptions := exportInteractionOptions st;
  AdvisorySwitches := exportSwitches st;
  AdvisoryDefaults := Some (defaults st);
  RegionalObjectInterests := exportObjectDeclarations (regionalObjects st);
  RegionalInteractionInterests := exportInteractionDeclarations (regionalInteractions st);
  UpdateRateObjects := exportRateObjects st;
  RegionalUpdateRates := merge_sort rateLe (regionalRates st);
  PendingAdvisories := merge_sort adviceLe (elements (pendingAdvice st));
|}.
Definition ExportState (m : Manager) (f : FederationName) : ManagerState :=
  match fed m !! f with Some st => exportFederation st | None => emptyState end.

(** ** Restore *)
(** A loop over records that ends at the first error. *)
Fixpoint foldM {E A B} (step : B -> A -> outcome E B) (l : list A) (b : B) : outcome E B :=
  match l with [] => Ret b | a :: l => b ← step b a; foldM step l b end.
Definition require (b : bool) (msg : string) : outcome decl_error () := if b then Ret () else Fail (decl_errorf msg).
Arguments require b msg%_string.

Definition restoreDeclarant (members : gset FederateHandle) (h : FederateHandle) : outcome decl_error (gset FederateHandle) :=
  _ ← require (negb (h =? 0)) "zero federate handle";
  _ ← require (negb (bool_decide (h ∈ members))) "duplicate federate handle";
  Ret ({[h]} ∪ members).
Definition restoreDeclarants (handles : list FederateHandle) : outcome decl_error (gset FederateHandle) :=
  _ ← require (negb (bool_decide (handles = []))) "empty federate set";
  foldM restoreDeclarant handles ∅.
Definition restoreObjectDeclaration (t : gmap objAttrKey (gset FederateHandle)) (e : ObjectDeclarationState) : outcome decl_error (gmap objAttrKey (gset FederateHandle)) :=
  _ ← require (negb ((o_Class e =? 0) || (o_Attribute e =? 0))) "zero class or attribute handle";
  _ ← require (negb (bool_decide (is_Some (t !! (o_Class e, o_Attribute e))))) "duplicate class/attribute";
  members ← restoreDeclarants (o_Federates e);
  Ret (<[(o_Class e, o_Attribute e) := members]> t).
Definition restoreObjectDeclarations (entries : list ObjectDeclarationState) : outcome decl_error (gmap objAttrKey (gset FederateHandle)) := foldM restoreObjectDeclaration entries ∅.
Definition restoreInteractionDeclaration (t : gmap InteractionClassHandle (gset FederateHandle)) (e : InteractionDeclarationState) : outcome decl_error (gmap InteractionClassHandle (gset FederateHandle)) :=
  _ ← require (negb (i_Class e =? 0)) "zero class handle";
  _ ← require (negb (bool_decide (is_Some (t !! i_Class e)))) "duplicate class";
  members ← restoreDeclarants (i_Federates e);
  Ret (<[i_Class e := members]> t).
Definition restoreInteractionDeclarations (entries : list InteractionDeclarationState) : outcome decl_error (gmap InteractionClassHandle (gset FederateHandle)) := foldM restoreInteractionDeclaration entries ∅.

(** An implicit privilege is published, and not alone. *)
Definition historyConsistent (fom : FOMHandle) (cls : ObjectClassHandle) (attrs : list AttributeHandle) (touched : bool) : bool :=
  match fom with
  | None => true
  | Some _ =>
      let privilege := deletePrivilege fom cls in
      negb (privilege =? 0) && (touched || ((2 <=? Z.of_nat (length attrs)) && bool_decide (privilege ∈ attrs)))
  end.
Definition restoreHistoryRecord (fom : FOMHandle) (st : federationState) (e : ObjectPublicationHistoryState) : outcome decl_error federationState :=
  let key := (h_Class e, h_Federate e) in
  _ ← require (negb ((h_Class e =? 0) || (h_Federate e =? 0))) "zero class or federate";
  _ ← require (negb (bool_decide (is_Some (objPubHistory st !! key)))) "duplicate class/federate";
  let attrs := publishedAttributes st (h_Federate e) (h_Class e) in
  _ ← require (negb (bool_decide (attrs = []))) "no active publication";
  _ ← require (historyConsistent fom (h_Class e) attrs (DeletePrivilegeTouched e)) "inconsistent implicit privilege";
  Ret (set_objPubHistory st (<[key := DeletePrivilegeTouched e]> (objPubHistory st))).
Definition activePublications (st : federationState) : gset objectPublicationKey :=
  list_to_set (map (fun kp : objAttrKey * FederateHandle => (kp.1.1, kp.2)) (publications (objPubs st))).
(** Without a history the explicit publications of an older save stand. *)
Definition restoreMissing (fom : FOMHandle) (saved : bool) (st : federationState) (key : objectPublicationKey) : outcome decl_error federationState :=
  let privilege := deletePrivilege fom key.1 in
  if privilege =? 0 then Ret st
  else if bool_decide (is_Some (objPubHistory st !! key)) then Ret st
  else if saved then Fail (decl_errorf "declaration publication history: missing active class/federate")
  else
    let explicit := declares (objPubs st) (key.1, privilege) key.2 in
    let st := set_objPubHistory st (<[key := explicit]> (objPubHistory st)) in
    Ret (if explicit then st else set_objPubs st (addMember (objPubs st) (key.1, privilege) key.2)).
Definition restoreMissingPublicationHistory (fom : FOMHandle) (saved : bool) (st : federationState) : outcome decl_error federationState :=
  foldM (restoreMissing fom saved) (elements (activePublications st)) st.
Definition restorePublicationHistory (fom : FOMHandle) (history : option (list ObjectPublicationHistoryState)) (st : federationState) : outcome decl_error federationState :=
  st ← foldM (restoreHistoryRecord fom) (default [] history) st;
  restoreMissingPublicationHistory fom (bool_decide (is_Some history)) st.

Definition restoreObjectOption (fom : FOMHandle) (st : federationState) (e : ObjectSubscriptionOptionsState) : outcome decl_error federationState :=
  let key := (oo_Class e, oo_Attribute e) in
  _ ← require (declares (objSubs st) key (oo_Federate e)) "declaration: options for absent object subscription";
  _ ← require (negb (bool_decide (is_Some (optionAt (objOptions st) key (oo_Federate e))))) "declaration: duplicate object subscription options";
  _ ← validateSubscriptionOptions fom (oo_Options e);
  Ret (set_objOptions st (setOption (objOptions st) key (oo_Federate e) (oo_Options e))).
Definition restoreInteractionOption (st : federationState) (e : InteractionSubscriptionOptionsState) : outcome decl_error federationState :=
  _ ← require (declares (intSubs st) (io_Class e) (io_Federate e)) "declaration: options for absent interaction subscription";
  _ ← require (negb (bool_decide (is_Some (optionAt (intActive st) (io_Class e) (io_Federate e))))) "declaration: duplicate interaction subscription options";
  Ret (set_intActive st (setOption (intActive st) (io_Class e) (io_Federate e) (io_Active e))).
Definition restoreAdvisorySwitch (st : federationState) (e : AdvisorySwitchState) : outcome decl_error federationState :=
  _ ← require (negb (s_Federate e =? 0) && validKind (s_Kind e)) "declaration: invalid advisory switch record";
  _ ← require (negb (bool_decide (is_Some (optionAt (switches st) (s_Federate e) (s_Kind e))))) "declaration: duplicate advisory switch record";
  Ret (set_switches st (setOption (switches st) (s_Federate e) (s_Kind e) (s_Enabled e))).
Definition restoreOptions (fom : FOMHandle) (s : ManagerState) (st : federationState) : outcome decl_error federationState :=
  let st := match AdvisoryDefaults s with Some d => set_defaults st d | None => st end in
  st ← foldM (restoreObjectOption fom) (ObjectOptions s) st;
  st ← foldM restoreInteractionOption (InteractionOptions s) st;
  foldM restoreAdvisorySwitch (AdvisorySwitches s) st.

Definition restoreOwner (v : rateObject) (o : UpdateRateOwnerState) : outcome decl_error rateObject :=
  _ ← require (negb (u_Attribute o =? 0)) "declaration: invalid update-rate attribute";
  _ ← require (negb (bool_decide (is_Some (owners v !! u_Attribute o)))) "declaration: duplicate update-rate owner";
  Ret (RateObject (class v) (<[u_Attribute o := u_Owner o]> (owners v))).
Definition restoreRateObject (st : federationState) (e : UpdateRateObjectState) : outcome decl_error federationState :=
  _ ← require (negb ((u_Object e =? 0) || (u_Class e =? 0))) "declaration: invalid update-rate object";
  _ ← require (negb (bool_decide (is_Some (rateObjects st !! u_Object e)))) "declaration: duplicate update-rate object";
  v ← foldM restoreOwner (u_Owners e) (RateObject (u_Class e) ∅);
  Ret (set_rateObjects st (<[u_Object e := v]> (rateObjects st))).
Definition checkRateDemand (fom : FOMHandle) (seen : list RegionalUpdateRateSubscription) (e : RegionalUpdateRateSubscription) : outcome decl_error (list RegionalUpdateRateSubscription) :=
  _ ← require (negb ((r_Object e =? 0) || (r_Attribute e =? 0) || (r_Subscriber e =? 0))) "declaration: invalid regional update-rate demand";
  _ ← require (negb (bool_decide (e ∈ seen))) "declaration: duplicate regional update-rate demand";
  _ ← validateSubscriptionOptions fom (r_Options e);
  Ret (e :: seen).
Definition restorePending (desired : gmap adviceKey UpdateRateDemand) (st : federationState) (key : adviceKey) : outcome decl_error federationState :=
  _ ← require (bool_decide (is_Some (desired !! key))) "declaration: orphan pending advisory";
  _ ← require (negb (bool_decide (key ∈ pendingAdvice st))) "declaration: duplicate pending advisory";
  _ ← require (switchEnabled st (Recipient key) (Kind key)) "declaration: disabled pending advisory";
  Ret (set_pendingAdvice st ({[key]} ∪ pendingAdvice st)).
Definition restoreRateDemands (fom : FOMHandle) (s : ManagerState) (st : federationState) : outcome decl_error federationState :=
  _ ← foldM (checkRateDemand fom) (RegionalUpdateRates s) [];
  let st := set_regionalRates st (RegionalUpdateRates s) in
  foldM (restorePending (desiredAdvice st fom)) (PendingAdvisories s) st.
Definition restoreUpdateRates (fom : FOMHandle) (s : ManagerState) (st : federationState) : outcome decl_error federationState :=
  st ← foldM restoreRateObject (UpdateRateObjects s) st;
  restoreRateDemands fom s st.

Definition emptyRestoredState (st : federationState) (s : ManagerState) : bool :=
  bool_decide (objPubs st = ∅) && bool_decide (objSubs st = ∅) && bool_decide (intPubs st = ∅) && bool_decide (intSubs st = ∅)
  && bool_decide (regionalObjects st = ∅) && bool_decide (regionalInteractions st = ∅) && bool_decide (dom (switches st) = ∅)
  && bool_decide (AdvisoryDefaults s = None) && bool_decide (dom (rateObjects st) = ∅) && bool_decide (regionalRates st = []) && bool_decide (pendingAdvice st = ∅).
Definition restoreFederation (a : Z) (fom : FOMHandle) (s : ManagerState) : outcome decl_error federationState :=
  let st := newFederationState a in
  t ← restoreObjectDeclarations (ObjectPublications s); let st := set_objPubs st t in
  st ← restorePublicationHistory fom (ObjectPublicationHistory s) st;
  t ← restoreObjectDeclarations (ObjectSubscriptions s); let st := set_objSubs st t in
  t ← restoreInteractionDeclarations (InteractionPublications s); let st := set_intPubs st t in
  t ← restoreInteractionDeclarations (InteractionSubscriptions s); let st := set_intSubs st t in
  t ← restoreObjectDeclarations (RegionalObjectInterests s); let st := set_regionalObjects st t in
  t ← restoreInteractionDeclarations (RegionalInteractionInterests s); let st := set_regionalInteractions st t in
  st ← restoreOptions fom s st;
  restoreUpdateRates fom s st.
(** The commit that a validated restore returns, as a function of the manager. *)
Definition prepareRestore (m : Manager) (f : FederationName) (s : option ManagerState) (fom : FOMHandle) : outcome decl_error (Manager -> Manager) :=
  let s := default emptyState s in
  st ← restoreFederation (nextAddress m) fom s;
  Ret (fun m => if emptyRestoredState st s then forget m f else publish (allocate m) f (set_address st (nextAddress m))).
Definition PrepareRestore (opts : Options) (m : Manager) (f : FederationName) (s : option ManagerState) : outcome decl_error (Manager -> Manager) :=
  fom ← modelFor opts f; prepareRestore m f s fom.
Definition PrepareRestoreWithFOM (m : Manager) (f : FederationName) (s : option ManagerState) (fom : FOMHandle) : outcome decl_error (Manager -> Manager) :=
  _ ← require (match fom with Some fom => IsValid fom | None => false end) "declaration: valid saved FOM candidate required";
  prepareRestore m f s fom.
Definition ImportState (opts : Options) (m : Manager) (f : FederationName) (s : option ManagerState) : outcome decl_error Manager :=
  commit ← PrepareRestore opts m f s; Ret (commit m).
