(* ===== verification/DeclTables.v ===== *)
(** * Declaration management: tables, advice and rates

    What a lookup sees after each operation on a table of declarants, in terms
    of membership, and the attributes a federate publishes as a set; which advice
    a state calls for; the update rate demanded of an attribute. *)
From stdpp Require Import gmap.
From S2P Require Import Prelude GoFloat Decl.
Open Scope Z_scope.

Definition tidy {K} `{Countable K} (t : gmap K (gset FederateHandle)) : Prop := map_Forall (fun _ set => set <> ∅) t.
Definition tidyRows {K V} `{Countable K} (o : gmap K (gmap FederateHandle V)) : Prop := map_Forall (fun _ row => row <> ∅) o.

Section Tables.
Context {K : Type} `{Countable K}.
Implicit Types (t : gmap K (gset FederateHandle)).

Lemma declares_spec t k h : declares t k h = true <-> h ∈ membersAt t k.
Proof. unfold declares. by rewrite bool_decide_eq_true. Qed.
Lemma dropFrom_members h set : default ∅ (dropFrom h set) = set ∖ {[h]}.
Proof. unfold dropFrom. case_bool_decide as E; simpl; [by rewrite E|done]. Qed.
Lemma dropFrom_tidy h set set' : dropFrom h set = Some set' -> set' <> ∅.
Proof. unfold dropFrom. case_bool_decide; [done|]. by intros [= <-]. Qed.

Lemma add_at t k h k' : membersAt (addMember t k h) k' = if decide (k' = k) then {[h]} ∪ membersAt t k else membersAt t k'.
Proof.
  unfold addMember. unfold membersAt at 1. case_decide as E; [subst; by rewrite lookup_insert_eq|]. by rewrite lookup_insert_ne.
Qed.
Lemma add_in t k h k' h' : h' ∈ membersAt (addMember t k h) k' <-> k' = k /\ h' = h \/ h' ∈ membersAt t k'.
Proof. rewrite add_at. case_decide; subst; set_solver. Qed.
Lemma add_tidy t k h : tidy t -> tidy (addMember t k h).
Proof. intros Ht. apply map_Forall_insert_2; [set_solver|done]. Qed.

Lemma remove_at t k h k' : membersAt (removeMember t k h) k' = if decide (k' = k) then membersAt t k ∖ {[h]} else membersAt t k'.
Proof.
  unfold removeMember. destruct (t !! k) as [set|] eqn:E.
  - assert (Hs : membersAt t k = set) by (unfold membersAt; by rewrite E). pose proof (dropFrom_members h set) as Hd. rewrite Hs, <- Hd.
    destruct (dropFrom h set) as [set'|]; unfold membersAt; case_decide as D; subst; simpl; rewrite ?lookup_insert_eq, ?lookup_delete_eq, ?lookup_insert_ne, ?lookup_delete_ne by done; done.
  - case_decide; [|done]. subst. unfold membersAt. rewrite E. set_solver.
Qed.
Lemma remove_in t k h k' h' : h' ∈ membersAt (removeMember t k h) k' <-> h' ∈ membersAt t k' /\ ~ (k' = k /\ h' = h).
Proof. rewrite remove_at. case_decide; subst; set_solver. Qed.
Lemma remove_tidy t k h : tidy t -> tidy (removeMember t k h).
Proof.
  intros Ht. unfold removeMember. destruct (t !! k) as [set|]; [|done]. destruct (dropFrom h set) eqn:E; [apply map_Forall_insert_2; [by eapply dropFrom_tidy|done]|by apply map_Forall_delete].
Qed.

Lemma removes_at p t h k : membersAt (removeMembers p t h) k = if p k then membersAt t k ∖ {[h]} else membersAt t k.
Proof.
  unfold removeMembers. unfold membersAt at 1. rewrite map_lookup_imap. unfold membersAt. destruct (t !! k) as [set|]; simpl.
  - destruct (p k); [apply dropFrom_members|done].
  - destruct (p k); [set_solver|done].
Qed.
Lemma removes_in p t h k h' : h' ∈ membersAt (removeMembers p t h) k <-> h' ∈ membersAt t k /\ ~ (p k = true /\ h' = h).
Proof. rewrite removes_at. destruct (p k); set_solver. Qed.
Lemma removes_tidy p t h : tidy t -> tidy (removeMembers p t h).
Proof.
  intros Ht k set. unfold removeMembers. rewrite map_lookup_imap. destruct (t !! k) as [set'|] eqn:E; simpl; [|done].
  destruct (p k); [apply dropFrom_tidy|intros [= <-]; by apply (Ht k)].
Qed.
Lemma adds_in {A} (key : A -> K) (l : list A) t h k h' : h' ∈ membersAt (fold_left (fun t a => addMember t (key a) h) l t) k <-> h' = h /\ k ∈ map key l \/ h' ∈ membersAt t k.
Proof. revert t. induction l as [|a l IH]; intros t; simpl; [set_solver|]. rewrite IH, add_in. set_solver. Qed.
Lemma adds_tidy {A} (key : A -> K) (l : list A) t h : tidy t -> tidy (fold_left (fun t a => addMember t (key a) h) l t).
Proof. revert t. induction l as [|a l IH]; intros t Ht; [done|]. by apply IH, add_tidy. Qed.
Lemma removes_list_in {A} (key : A -> K) (l : list A) t h k h' : h' ∈ membersAt (fold_left (fun t a => removeMember t (key a) h) l t) k <-> h' ∈ membersAt t k /\ ~ (h' = h /\ k ∈ map key l).
Proof. revert t. induction l as [|a l IH]; intros t; simpl; [set_solver|]. rewrite IH, remove_in. set_solver. Qed.
Lemma removes_list_tidy {A} (key : A -> K) (l : list A) t h : tidy t -> tidy (fold_left (fun t a => removeMember t (key a) h) l t).
Proof. revert t. induction l as [|a l IH]; intros t Ht; [done|]. by apply IH, remove_tidy. Qed.
Lemma members_nonempty t k : tidy t -> t !! k = None <-> membersAt t k = ∅.
Proof. intros Ht. unfold membersAt. destruct (t !! k) as [set|] eqn:E; simpl; [|done]. split; [done|]. intros ->. by destruct (Ht k ∅ E). Qed.
Lemma tidy_ext t t' : tidy t -> tidy t' -> (forall k h, h ∈ membersAt t k <-> h ∈ membersAt t' k) -> t = t'.
Proof.
  intros Ht Ht' Heq. apply map_eq. intros k. assert (Hm : membersAt t k = membersAt t' k) by (apply set_eq; intros h; apply Heq).
  pose proof (members_nonempty t k Ht) as H1. pose proof (members_nonempty t' k Ht') as H2. unfold membersAt in *.
  destruct (t !! k) as [set|], (t' !! k) as [set'|]; simpl in *; [congruence| | |done]; exfalso; [destruct H1|destruct H2]; naive_solver.
Qed.
Lemma publications_in t k h : (k, h) ∈ publications t <-> h ∈ membersAt t k.
Proof.
  unfold publications. rewrite list_elem_of_In, in_flat_map. setoid_rewrite <- list_elem_of_In. setoid_rewrite elem_of_map_to_list'. unfold membersAt. split.
  - intros ([k' set] & Hl & Hin). simpl in *. apply list_elem_of_In, in_map_iff in Hin as (h' & [= -> ->] & Hin). rewrite Hl. simpl. by apply list_elem_of_In, elem_of_elements in Hin.
  - intros Hin. destruct (t !! k) as [set|] eqn:E; simpl in Hin; [|set_solver]. exists (k, set). split; [done|]. apply list_elem_of_In, in_map_iff. exists h. split; [done|]. by apply list_elem_of_In, elem_of_elements.
Qed.
Lemma someMember_spec t p : someMember t p = true <-> exists k h, h ∈ membersAt t k /\ p k h = true.
Proof.
  unfold someMember. rewrite existsb_exists. setoid_rewrite <- list_elem_of_In. setoid_rewrite elem_of_map_to_list'. setoid_rewrite existsb_exists. setoid_rewrite <- list_elem_of_In. setoid_rewrite elem_of_elements. unfold membersAt. split.
  - intros ([k set] & Hl & h & Hin & Hp). exists k, h. simpl in *. by rewrite Hl.
  - intros (k & h & Hin & Hp). destruct (t !! k) as [set|] eqn:E; simpl in Hin; [|set_solver]. exists (k, set). split; [done|]. by exists h.
Qed.
End Tables.

Section Rows.
Context {K V : Type} `{Countable K}.
Implicit Types (o : gmap K (gmap FederateHandle V)).
Lemma optionAt_set o k h v k' h' : optionAt (setOption o k h v) k' h' = if decide (k' = k /\ h' = h) then Some v else optionAt o k' h'.
Proof.
  unfold setOption, optionAt. destruct (decide (k' = k)) as [->|Hk]; [|rewrite lookup_insert_ne, decide_False by naive_solver; done].
  rewrite lookup_insert_eq. simpl. destruct (decide (h' = h)) as [->|Hh]; [by rewrite lookup_insert_eq, decide_True|].
  rewrite lookup_insert_ne, decide_False by naive_solver. by destruct (o !! k).
Qed.
Lemma setOption_tidy o k h v : tidyRows o -> tidyRows (setOption o k h v).
Proof. intros Ho. apply map_Forall_insert_2; [apply insert_non_empty|done]. Qed.
Lemma dropOption_at h row h' : (row ← dropOption h row; row !! h') = if decide (h' = h) then @None V else row !! h'.
Proof.
  unfold dropOption. assert (Hd : delete h row !! h' = if decide (h' = h) then None else row !! h').
  { case_decide; subst; [apply lookup_delete_eq|by rewrite lookup_delete_ne]. }
  rewrite <- Hd. case_bool_decide as E; simpl; [by rewrite E|done].
Qed.
Lemma dropOption_tidy h row row' : @dropOption V h row = Some row' -> row' <> ∅.
Proof. unfold dropOption. case_bool_decide; [done|]. by intros [= <-]. Qed.
Lemma optionAt_remove o k h k' h' : optionAt (removeOption o k h) k' h' = if decide (k' = k /\ h' = h) then None else optionAt o k' h'.
Proof.
  unfold removeOption. destruct (o !! k) as [row|] eqn:E.
  - pose proof (dropOption_at h row h') as Hd. unfold optionAt. destruct (decide (k' = k)) as [->|Hk].
    + rewrite E. simpl. destruct (dropOption h row) as [row'|]; rewrite ?lookup_insert_eq, ?lookup_delete_eq; simpl in *; rewrite Hd; repeat case_decide; naive_solver.
    + rewrite (decide_False (P := k' = k /\ h' = h)) by naive_solver. by destruct (dropOption h row); rewrite ?lookup_insert_ne, ?lookup_delete_ne by done.
  - case_decide as D; [|done]. destruct D as [-> ->]. unfold optionAt. by rewrite E.
Qed.
Lemma removeOption_tidy o k h : tidyRows o -> tidyRows (removeOption o k h).
Proof.
  intros Ho. unfold removeOption. destruct (o !! k) as [row|]; [|done]. destruct (dropOption h row) eqn:E; [apply map_Forall_insert_2; [by eapply dropOption_tidy|done]|by apply map_Forall_delete].
Qed.
Lemma optionAt_removes o h k h' : optionAt (removeOptions o h) k h' = if decide (h' = h) then None else optionAt o k h'.
Proof.
  unfold removeOptions, optionAt. rewrite lookup_omap. destruct (o !! k) as [row|]; simpl; [apply dropOption_at|by case_decide].
Qed.
Lemma removeOptions_tidy o h : tidyRows o -> tidyRows (removeOptions o h).
Proof. intros Ho k row. unfold removeOptions. rewrite lookup_omap. destruct (o !! k); simpl; [apply dropOption_tidy|done]. Qed.
Lemma rows_ext o o' : tidyRows o -> tidyRows o' -> (forall k h, optionAt o k h = optionAt o' k h) -> o = o'.
Proof.
  intros Ho Ho' Heq. apply map_eq. intros k. unfold optionAt in Heq. specialize (Heq k).
  destruct (o !! k) as [row|] eqn:E, (o' !! k) as [row'|] eqn:E'; simpl in Heq; [f_equal; by apply map_eq| | |done]; exfalso; [destruct (Ho _ _ E)|destruct (Ho' _ _ E')]; apply map_eq; intros h; rewrite lookup_empty; by rewrite Heq || by rewrite <- Heq.
Qed.
End Rows.

(** ** What a federate publishes *)
Lemma published_in st pub cls a : a ∈ publishedAttributes st pub cls <-> pub ∈ membersAt (objPubs st) (cls, a).
Proof.
  unfold publishedAttributes. rewrite sortHandles_in, list_elem_of_omap. unfold membersAt. split.
  - intros ([[c a'] set] & Hl & Hs). apply elem_of_map_to_list in Hl. simpl in Hs. destruct (Z.eqb_spec c cls); [|done]. case_bool_decide; [|done]. injection Hs as ->. subst. by rewrite Hl.
  - intros Hin. destruct (objPubs st !! (cls, a)) as [set|] eqn:E; simpl in Hin; [|set_solver]. exists ((cls, a), set). split; [by apply elem_of_map_to_list|]. simpl. by rewrite Z.eqb_refl, bool_decide_true.
Qed.
Lemma published_NoDup st pub cls : NoDup (publishedAttributes st pub cls).
Proof.
  unfold publishedAttributes. apply sortHandles_NoDup.
  pose proof (NoDup_fst_map_to_list (objPubs st)) as Hnd. induction (map_to_list (objPubs st)) as [|[[c a] set] l IH]; simpl in *; [constructor|]. apply NoDup_cons in Hnd as [Hn Hnd].
  destruct (Z.eqb_spec c cls); simpl; [|by apply IH]. case_bool_decide; simpl; [|by apply IH]. constructor; [|by apply IH].
  rewrite list_elem_of_omap. intros ([[c' a'] set'] & Hin & Hs). simpl in Hs. destruct (Z.eqb_spec c' cls); [|done]. case_bool_decide; [|done]. injection Hs as ->. subst.
  apply Hn, list_elem_of_fmap. by exists ((cls, a), set').
Qed.
Lemma published_sorted st pub cls : StronglySorted Z.lt (publishedAttributes st pub cls).
Proof.
  pose proof (published_NoDup st pub cls) as Hnd. unfold publishedAttributes in *. pose proof (sortHandles_sorted (omap (fun kp : objAttrKey * gset FederateHandle => if (kp.1.1 =? cls) && bool_decide (pub ∈ kp.2) then Some kp.1.2 else None) (map_to_list (objPubs st)))) as Hs.
  induction Hs as [|a l Hs IH Hf]; constructor; inversion Hnd; subst; [by apply IH|]. rewrite Forall_forall in *. intros b Hb. specialize (Hf b Hb). assert (a <> b) by (intros ->; done). lia.
Qed.
Lemma published_ext st st' pub cls : (forall a, pub ∈ membersAt (objPubs st) (cls, a) <-> pub ∈ membersAt (objPubs st') (cls, a)) -> publishedAttributes st pub cls = publishedAttributes st' pub cls.
Proof. intros Heq. apply sorted_lt_ext; try apply published_sorted. intros a. rewrite !published_in. apply Heq. Qed.
Lemma published_same st st' pub cls : objPubs st = objPubs st' -> publishedAttributes st pub cls = publishedAttributes st' pub cls.
Proof. intros E. unfold publishedAttributes. by rewrite E. Qed.
Lemma published_nonempty st pub cls : publishedAttributes st pub cls <> [] <-> exists a, pub ∈ membersAt (objPubs st) (cls, a).
Proof.
  setoid_rewrite <- published_in. destruct (publishedAttributes st pub cls) as [|a l]; split; try done; [intros (a & Ha); set_solver|]. exists a. set_solver.
Qed.
Lemma sortedHandles_ext (s s' : gset FederateHandle) : s = s' -> sortedHandles s = sortedHandles s'.
Proof. by intros ->. Qed.
Lemma sortedHandles_in (s : gset FederateHandle) h : h ∈ sortedHandles s <-> h ∈ s.
Proof. unfold sortedHandles. by rewrite sortHandles_in, elem_of_elements. Qed.

(** * Declaration management: which advice a state calls for

    [desiredAdvice] as a relation between the tables: who is told of the
    registration of a class, of an interaction, and of the rate of an
    attribute. *)
(** A loop that inserts [val a] at [key a] when [keep a], where the key tells the value. *)
Section InsertLoop.
Context {A K V : Type} `{Countable K} (keep : A -> bool) (key : A -> K) (val : A -> V).
Lemma insert_loop l m k v : (forall a b, a ∈ l -> b ∈ l -> key a = key b -> val a = val b) ->
  fold_left (fun (m : gmap K V) a => if keep a then <[key a := val a]> m else m) l m !! k = Some v <->
  (exists a, a ∈ l /\ keep a = true /\ key a = k /\ val a = v) \/ (forall a, a ∈ l -> keep a = true -> key a <> k) /\ m !! k = Some v.
Proof.
  revert m. induction l as [|a l IH]; intros m Hf; simpl.
  { split; [intros E; right; split; [by intros a Ha%elem_of_nil|done]|]. by intros [(a & Ha%elem_of_nil & _)|[_ E]]. }
  rewrite IH by (intros b c Hb Hc; apply Hf; by right). clear IH.
  destruct (keep a) eqn:E.
  2:{ split; (intros [(b & Hb & Hkb & Hv)|[Hn Hm]]; [left|right; split; [|done]]).
      - exists b. split; [by right|done].
      - intros b [->|Hb]%elem_of_cons; [congruence|by apply Hn].
      - apply elem_of_cons in Hb as [->|Hb]; [congruence|]. by exists b.
      - intros b Hb. apply Hn. by right. }
  rewrite lookup_insert_Some. split.
  - intros [(b & Hb & Hr)|[Hn [[Hk Hv]|[Hk Hm]]]].
    + left. exists b. split; [by right|done].
    + left. exists a. split; [by left|done].
    + right. split; [|done]. intros b [->|Hb]%elem_of_cons; [done|by apply Hn].
  - intros [(b & Hb & Hkb & Hk & Hv)|[Hn Hm]].
    + destruct (decide (Exists (fun c => keep c = true /\ key c = k) l)) as [Hex|Hno].
      * apply Exists_exists in Hex as (c & Hc & Hkc & Hck). left. exists c. split; [done|]. split; [done|]. split; [done|]. rewrite <- Hv. apply Hf; [by right|done|congruence].
      * rewrite Exists_exists in Hno. apply elem_of_cons in Hb as [->|Hb]; [|by destruct Hno; exists b]. right. split; [|auto]. intros c Hc Hkc Hck. apply Hno. by exists c.
    + right. split; [intros b Hb; apply Hn; by right|]. right. split; [apply Hn; [by left|done]|done].
Qed.
End InsertLoop.

(** ** Relevance *)
Section Relevance.
Context (st : federationState) (model : FOMHandle).

(** The declared interest of another federate in a published attribute. *)
Definition interestedInAttribute (pubKey : objAttrKey) (publisher : FederateHandle) : Prop := exists subKey sub,
  matchingAttribute model pubKey subKey = true /\ sub <> publisher /\
  (sub ∈ membersAt (objSubs st) subKey /\ Active (objectOptions st subKey sub) = true \/ sub ∈ membersAt (regionalObjects st) subKey).
Definition interestedInInteraction (cls : InteractionClassHandle) (publisher : FederateHandle) : Prop := exists parent sub,
  parent ∈ ancestors model cls /\ sub <> publisher /\
  (sub ∈ membersAt (intSubs st) parent /\ interactionActive st parent sub = true \/ sub ∈ membersAt (regionalInteractions st) parent).
Lemma publicationRelevant_spec pubKey publisher : publicationRelevant st model pubKey publisher = true <-> interestedInAttribute pubKey publisher.
Proof.
  unfold publicationRelevant, interestedInAttribute. rewrite orb_true_iff, !someMember_spec. setoid_rewrite andb_true_iff. setoid_rewrite andb_true_iff. setoid_rewrite negb_true_iff. setoid_rewrite Z.eqb_neq. naive_solver.
Qed.
Lemma interactionRelevant_spec cls publisher : interactionRelevant st model cls publisher = true <-> interestedInInteraction cls publisher.
Proof.
  unfold interactionRelevant, interestedInInteraction. rewrite existsb_exists. setoid_rewrite orb_true_iff. setoid_rewrite existsb_exists. setoid_rewrite andb_true_iff. setoid_rewrite <- list_elem_of_In. setoid_rewrite elem_of_elements. setoid_rewrite negb_true_iff. setoid_rewrite Z.eqb_neq. naive_solver.
Qed.

(** A publisher's entry is the disjunction over what it publishes of the class. *)
Lemma objectRelevance_fold (l : list (objAttrKey * FederateHandle)) (result : gmap relevanceKey bool) (kind : Z) (p : FederateHandle) (cls : Z) (b : bool) :
  let final := fold_left (fun (result : gmap relevanceKey bool) (kp : objAttrKey * FederateHandle) =>
    let key := (AdvisoryObjectClassRelevance, kp.2, kp.1.1) in
    if default false (result !! key) then result else <[key := publicationRelevant st model kp.1 kp.2]> result) l result in
  let mine (kp : objAttrKey * FederateHandle) := (kp.1.1 =? cls) && (kp.2 =? p) in
  final !! (kind, p, cls) = Some b <->
  if (kind =? AdvisoryObjectClassRelevance) && existsb mine l
  then b = default false (result !! (kind, p, cls)) || existsb (fun kp => mine kp && publicationRelevant st model kp.1 kp.2) l
  else result !! (kind, p, cls) = Some b.
Proof.
  cbv zeta. revert result. induction l as [|[[c a] q] l IH]; intros result; simpl; [by rewrite andb_false_r|]. rewrite IH. clear IH. simpl.
  destruct (Z.eqb_spec kind AdvisoryObjectClassRelevance) as [->|Hk]; simpl.
  2:{ destruct (default false (result !! (AdvisoryObjectClassRelevance, q, c))); [reflexivity|]. rewrite lookup_insert_ne by congruence. reflexivity. } 
  destruct (Z.eqb_spec c cls) as [->|Hc]; simpl.
  2:{ destruct (default false (result !! (AdvisoryObjectClassRelevance, q, c))); [reflexivity|]. rewrite lookup_insert_ne by congruence. reflexivity. } 
  destruct (Z.eqb_spec q p) as [->|Hq]; simpl.
  2:{ destruct (default false (result !! (AdvisoryObjectClassRelevance, q, cls))); [reflexivity|]. rewrite lookup_insert_ne by congruence. reflexivity. } 
  destruct (default false (result !! _)) eqn:E.
  - rewrite E. simpl. destruct (existsb (fun kp => (kp.1.1 =? cls) && (kp.2 =? p)) l).
    { reflexivity. }
    destruct (result !! _) as [b'|]; [|done]. simpl in E. subst. naive_solver.
  - rewrite lookup_insert_eq. simpl. destruct (existsb (fun kp => (kp.1.1 =? cls) && (kp.2 =? p)) l) eqn:Ex; [reflexivity|].
    assert (existsb (fun kp => (kp.1.1 =? cls) && (kp.2 =? p) && publicationRelevant st model kp.1 kp.2) l = false) as ->; [|rewrite orb_false_r; naive_solver].
    apply not_true_iff_false. intros (kp & Hin & Hp)%existsb_exists. apply andb_true_iff in Hp as [Hp _]. apply not_true_iff_false in Ex. apply Ex, existsb_exists. by exists kp.
Qed.
Lemma objectRelevance_at p cls b : objectRelevance st model ∅ !! (AdvisoryObjectClassRelevance, p, cls) = Some b <->
  (exists a, p ∈ membersAt (objPubs st) (cls, a)) /\ (b = true <-> exists a, p ∈ membersAt (objPubs st) (cls, a) /\ interestedInAttribute (cls, a) p).
Proof.
  unfold objectRelevance. rewrite objectRelevance_fold, Z.eqb_refl, lookup_empty. simpl.
  assert (Hm : forall m q, (forall kp : objAttrKey * FederateHandle, m kp = (kp.1.1 =? cls) && (kp.2 =? p) && q kp) -> existsb m (publications (objPubs st)) = true <-> exists a, p ∈ membersAt (objPubs st) (cls, a) /\ q ((cls, a), p) = true).
  { intros m q Hq. rewrite existsb_exists. setoid_rewrite <- list_elem_of_In. setoid_rewrite Hq. clear Hq. setoid_rewrite andb_true_iff. setoid_rewrite andb_true_iff. setoid_rewrite Z.eqb_eq. split.
    - intros ([[c a] h] & Hin & [Hc Hh] & Hq). simpl in *. subst. apply publications_in in Hin. by exists a.
    - intros (a & Hin & Hq). exists ((cls, a), p). by rewrite publications_in. }
  pose proof (Hm _ (fun _ => true) (fun kp => eq_sym (andb_true_r _))) as H1. specialize (Hm _ (fun kp => publicationRelevant st model kp.1 kp.2) (fun kp => eq_refl)). simpl in Hm, H1. setoid_rewrite publicationRelevant_spec in Hm.
  destruct (existsb (fun kp => (kp.1.1 =? cls) && (kp.2 =? p)) _).
  - split; [intros ->; naive_solver|]. intros [_ Hb]. apply eq_true_iff_eq. rewrite Hb, Hm. done.
  - split; [done|]. intros [Hp _]. assert (false = true); [|done]. apply H1. destruct Hp as (a & Ha). by exists a.
Qed.
Lemma objectRelevance_kind kind p cls : kind <> AdvisoryObjectClassRelevance -> objectRelevance st model ∅ !! (kind, p, cls) = None.
Proof.
  intros Hk. destruct (objectRelevance st model ∅ !! _) as [b|] eqn:E; [|done]. unfold objectRelevance in E. rewrite objectRelevance_fold, (proj2 (Z.eqb_neq _ _) Hk), lookup_empty in E. done.
Qed.
Lemma relevant_at kind p cls b : relevant st model !! (kind, p, cls) = Some b <->
  kind = AdvisoryInteractionRelevance /\ p ∈ membersAt (intPubs st) cls /\ b = interactionRelevant st model cls p
  \/ kind = AdvisoryObjectClassRelevance /\ objectRelevance st model ∅ !! (kind, p, cls) = Some b.
Proof.
  unfold relevant, interactionRelevance. rewrite (insert_loop (fun _ => true) (fun kp : InteractionClassHandle * FederateHandle => (AdvisoryInteractionRelevance, kp.2, kp.1)) (fun kp => interactionRelevant st model kp.1 kp.2)).
  2:{ intros [c q] [c' q'] _ _ [= -> ->]. done. }
  split.
  - intros [([c q] & Hin & _ & [= <- -> ->] & <-)|[Hn E]]; [left; by rewrite publications_in in Hin|]. right. split; [|done].
    destruct (decide (kind = AdvisoryObjectClassRelevance)) as [->|Hk]; [done|]. by rewrite objectRelevance_kind in E.
  - intros [(-> & Hin & ->)|[-> E]]; [left; exists (cls, p); by rewrite publications_in|]. right. split; [|done]. by intros a _ _ [=].
Qed.
End Relevance.

(** ** Advice *)
Section Advice.
Context (st : federationState) (model : FOMHandle).

Lemma rateOwners_in obj attr owner : (obj, attr, owner) ∈ rateOwners st <-> exists state, rateObjects st !! obj = Some state /\ owners state !! attr = Some owner.
Proof.
  unfold rateOwners. rewrite list_elem_of_In, in_flat_map. setoid_rewrite in_map_iff. setoid_rewrite <- list_elem_of_In. split.
  - intros ([o state] & Hs%elem_of_map_to_list & ([a h] & [= -> -> ->] & Ho%elem_of_map_to_list)). by exists state.
  - intros (state & Hs & Ho). exists (obj, state). split; [by apply elem_of_map_to_list|]. exists (attr, owner). split; [done|]. by apply elem_of_map_to_list.
Qed.
Definition relevanceAdvice (key : adviceKey) (d : UpdateRateDemand) : Prop := exists b,
  Recipient key <> momFederate /\ Object key = 0 /\ Attribute key = 0 /\ relevant st model !! (Kind key, Recipient key, Class key) = Some b /\ d = RateDemand b false "" f64_zero.
Definition rateAdvice (key : adviceKey) (d : UpdateRateDemand) : Prop :=
  Kind key = AdvisoryAttributeRelevance /\ Class key = 0 /\ Recipient key <> 0 /\ Recipient key <> momFederate /\
  (exists state, rateObjects st !! Object key = Some state /\ owners state !! Attribute key = Some (Recipient key)) /\
  d = attributeDemand st model (Object key) (Attribute key).
Lemma relevant_kind key d : relevanceAdvice key d -> Kind key = AdvisoryObjectClassRelevance \/ Kind key = AdvisoryInteractionRelevance.
Proof. intros (b & _ & _ & _ & E & _). apply relevant_at in E. tauto. Qed.
Lemma relevance_loop key d :
  fold_left (fun (result : gmap adviceKey UpdateRateDemand) (kv : relevanceKey * bool) =>
      if kv.1.1.2 =? momFederate then result
      else <[AdviceKey kv.1.1.1 kv.1.1.2 kv.1.2 0 0 := RateDemand kv.2 false "" f64_zero]> result) (map_to_list (relevant st model)) ∅ !! key = Some d <-> relevanceAdvice key d.
Proof.
  set (loop := fold_left _ _ _).
  assert (loop = fold_left (fun (result : gmap adviceKey UpdateRateDemand) (kv : relevanceKey * bool) =>
      if negb (kv.1.1.2 =? momFederate) then <[AdviceKey kv.1.1.1 kv.1.1.2 kv.1.2 0 0 := RateDemand kv.2 false "" f64_zero]> result else result) (map_to_list (relevant st model)) ∅) as ->.
  { unfold loop. generalize (∅ : gmap adviceKey UpdateRateDemand). induction (map_to_list (relevant st model)) as [|kv l IH]; intros m; simpl; [done|]. rewrite IH. by destruct (_ =? momFederate). }
  rewrite (insert_loop (fun kv : relevanceKey * bool => negb (kv.1.1.2 =? momFederate)) (fun kv => AdviceKey kv.1.1.1 kv.1.1.2 kv.1.2 0 0) (fun kv => RateDemand kv.2 false "" f64_zero)).
  2:{ intros [[[k p] c] b] [[[k' p'] c'] b'] Hin%elem_of_map_to_list Hin'%elem_of_map_to_list [= -> -> ->]. congruence. }
  unfold relevanceAdvice. destruct key as [k p c o a]. simpl. split.
  - intros [([[[k' p'] c'] b] & Hin%elem_of_map_to_list & Hm%negb_true_iff%Z.eqb_neq & [= -> -> -> <- <-] & <-)|[_ E]]; [by exists b|by rewrite lookup_empty in E].
  - intros (b & Hm & -> & -> & E & ->). left. exists ((k, p, c), b). split; [by apply elem_of_map_to_list|]. split; [by apply negb_true_iff, Z.eqb_neq|done].
Qed.
Lemma desired_at key d : desiredAdvice st model !! key = Some d <-> relevanceAdvice key d \/ rateAdvice key d.
Proof.
  unfold desiredAdvice. cbv zeta.
  rewrite (insert_loop (fun e : ObjectHandle * AttributeHandle * FederateHandle => negb (e.2 =? 0) && negb (e.2 =? momFederate))
    (fun e => AdviceKey AdvisoryAttributeRelevance e.2 0 e.1.1 e.1.2) (fun e => attributeDemand st model e.1.1 e.1.2)).
  2:{ intros [[o a] h] [[o' a'] h'] _ _ [= -> -> ->]. done. }
  rewrite relevance_loop. setoid_rewrite andb_true_iff. setoid_rewrite negb_true_iff. setoid_rewrite Z.eqb_neq. split.
  - intros [([[o a] h] & Hin%rateOwners_in & Hn & <- & <-)|[_ E]]; [right; by destruct Hn|by left].
  - intros [Hr|(Hk & Hc & H0 & Hm & Hs & Hd)]; [right|left].
    + split; [|done]. intros [[o a] h] _ _ <-. apply relevant_kind in Hr. simpl in Hr. unfold AdvisoryAttributeRelevance, AdvisoryObjectClassRelevance, AdvisoryInteractionRelevance in Hr. lia.
    + exists (Object key, Attribute key, Recipient key). rewrite rateOwners_in. destruct key. simpl in *. by subst.
Qed.
End Advice.

(** ** Deliveries *)
#[export] Instance adviceLe_total : Total adviceLe.
Proof. intros [k r c o a] [k' r' c' o' a']. unfold adviceLe. simpl. lia. Qed.
#[export] Instance adviceLe_trans : Transitive adviceLe.
Proof. intros [k r c o a] [k' r' c' o' a'] [k2 r2 c2 o2 a2]. unfold adviceLe. simpl. lia. Qed.
Lemma keptAdvice_in st desired key : key ∈ keptAdvice st desired <-> key ∈ pendingAdvice st /\ is_Some (desired !! key) /\ switchEnabled st (Recipient key) (Kind key) = true.
Proof. unfold keptAdvice. rewrite elem_of_filter. tauto. Qed.
Lemma deliveries_in st desired d : d ∈ (pendingDeliveries st desired).2 <->
  exists key value event, key ∈ pendingAdvice st /\ switchEnabled st (Recipient key) (Kind key) = true /\ desired !! key = Some value /\ adviceEvent key value = Some event /\ d = Delivery (Recipient key) event.
Proof.
  unfold pendingDeliveries. cbv zeta. simpl. rewrite list_elem_of_omap. setoid_rewrite merge_sort_Permutation. setoid_rewrite elem_of_elements. setoid_rewrite keptAdvice_in. split.
  - intros (key & (Hp & [value Hv] & Hs) & Hd). rewrite Hv in Hd. simpl in Hd. destruct (adviceEvent key value) as [event|] eqn:Ee; [|done]. injection Hd as <-. by exists key, value, event.
  - intros (key & value & event & Hp & Hs & Hv & Ee & ->). exists key. rewrite Hv. simpl. rewrite Ee. eauto.
Qed.
(** Recipients are served in order. *)
Lemma deliveries_sorted st desired : StronglySorted Z.le (map d_Recipient (pendingDeliveries st desired).2).
Proof.
  unfold pendingDeliveries. cbv zeta. simpl. pose proof (StronglySorted_merge_sort adviceLe (elements (keptAdvice st desired))) as Hs. induction Hs as [|key l Hs IH Hf]; simpl; [constructor|].
  destruct (adviceEvent key _) as [event|]; simpl; [|done]. constructor; [done|]. simpl. rewrite Forall_forall in Hf. apply Forall_forall. intros h. rewrite list_elem_of_fmap. intros (d & -> & Hd). apply list_elem_of_omap in Hd as (key' & Hk & Hd).
  specialize (Hf key' Hk). destruct (adviceEvent key' _) as [event'|]; [|done]. injection Hd as <-. simpl. unfold adviceLe in Hf. lia.
Qed.
Lemma adviceEvent_some key value : Kind key = AdvisoryObjectClassRelevance \/ Kind key = AdvisoryInteractionRelevance \/ Kind key = AdvisoryAttributeRelevance -> is_Some (adviceEvent key value).
Proof. unfold adviceEvent. intros [->|[->| ->]]; simpl; eauto. Qed.

(** * Declaration management: the update rate demanded of an attribute

    The loops of [attributeDemand] run over Go maps, in any order; what they
    find is the first of the demands under a total order, so that the order
    does not matter. *)
Lemma ltb_leb s t : String.ltb s t = negb (String.leb t s).
Proof. unfold String.ltb, String.leb. rewrite String.compare_antisym. by destruct (String.compare t s). Qed.

Section Demand.
Context (model : FOMHandle) (owner : FederateHandle).
Abbreviation entry := (FederateHandle * SubscriptionOptions)%type.
(** A named rate is a number: the parser of object models reads decimals. *)
Hypothesis rates_number : forall rates name rate, model ≫= UpdateRateValue = Some rates -> rates name = Some rate -> f64_isNaN rate = false.

Definition rateOf (name : string) : option f64 := rates ← model ≫= UpdateRateValue; rates name.
Definition counts (e : entry) : bool := negb (e.1 =? owner) && Active e.2.
Definition undesignated (e : entry) : bool := counts e && bool_decide (UpdateRateDesignator e.2 = ""%string).
(** The named rate an entry demands. *)
Definition named (e : entry) (name : string) (rate : f64) : Prop :=
  counts e = true /\ UpdateRateDesignator e.2 = name /\ name <> ""%string /\ rateOf name = Some rate.
(** A higher rate comes first, then the smaller designator. *)
Definition precedes (rate : f64) (name : string) (rate' : f64) (name' : string) : Prop :=
  f64_val rate' < f64_val rate \/ f64_val rate' = f64_val rate /\ String.le name name'.
Definition demandSpec (l : list entry) (d : UpdateRateDemand) : Prop :=
  (exists e, e ∈ l /\ undesignated e = true) /\ d = defaultDemand \/
  (forall e, e ∈ l -> undesignated e = false) /\
   ((forall e name rate, e ∈ l -> ~ named e name rate) /\ d = noDemand \/
    exists e name rate, e ∈ l /\ named e name rate /\ d = RateDemand true false name rate /\
      forall e' name' rate', e' ∈ l -> named e' name' rate' -> precedes rate name rate' name').

Lemma precedes_trans r n r' n' r2 n2 : precedes r n r' n' -> precedes r' n' r2 n2 -> precedes r n r2 n2.
Proof. unfold precedes. intros [H|[H Hn]] [H'|[H' Hn']]; [left; lia..|]. right. split; [lia|]. by etrans. Qed.
Lemma rate_step rate name d : f64_isNaN rate = false -> f64_isNaN (Rate d) = false ->
  f64_ltb (Rate d) rate || (f64_eqb rate (Rate d) && String.ltb name (Designator d)) = true <-> ~ precedes (Rate d) (Designator d) rate name.
Proof.
  intros Hr Hd. unfold f64_ltb, f64_eqb, f64_cmp2, precedes. rewrite Hr, Hd, ltb_leb. simpl. rewrite orb_true_iff, andb_true_iff, negb_true_iff, Z.ltb_lt, Z.eqb_eq. unfold String.le.
  destruct (String.leb (Designator d) name); simpl; [split; [intros [?|[_ ?]]; [|done]; intros [?|[? _]]; lia|intros Hn; left; assert (~ f64_val rate < f64_val (Rate d)) by tauto; assert (f64_val rate <> f64_val (Rate d)) by (intros E; apply Hn; right; done); lia]|].
  split; [intros [?|[? _]] [?|[? []]]; lia|]. intros Hn. assert (~ f64_val rate < f64_val (Rate d)) by tauto. destruct (Z.eq_dec (f64_val rate) (f64_val (Rate d))); [right|left]; [done|lia].
Qed.
Lemma precedes_total r n r' n' : ~ precedes r n r' n' -> precedes r' n' r n.
Proof.
  unfold precedes. intros Hn. destruct (Z.lt_trichotomy (f64_val r) (f64_val r')) as [|[E|]]; [by left| |by destruct Hn; left]. right. split; [done|]. destruct (total String.le n' n); [done|]. destruct Hn. right. done.
Qed.
Lemma demand_step l e d : demandSpec l d -> demandSpec (l ++ [e]) (addAttributeDemand model owner d e).
Proof.
  intros Hs. unfold addAttributeDemand.
  assert (Hin : forall e', e' ∈ l ++ [e] <-> e' ∈ l \/ e' = e) by (intros e'; by rewrite elem_of_app, list_elem_of_singleton).
  destruct (counts e) eqn:Ec.
  2:{ assert ((e.1 =? owner) || negb (Active e.2) = true) as -> by (unfold counts in Ec; destruct (e.1 =? owner), (Active e.2); done).
      assert (Hu : undesignated e = false) by (unfold undesignated; by rewrite Ec). assert (Hn : forall name rate, ~ named e name rate) by (intros name rate [H _]; congruence).
      destruct Hs as [[(e' & He & Hd) ->]|[Hnu [[Hnn ->]|(e' & name & rate & He & Hne & -> & Hp)]]].
      - left. split; [|done]. exists e'. rewrite Hin. auto.
      - right. split; [intros x [?| ->]%Hin; auto|]. left. split; [|done]. intros x name rate [?| ->]%Hin; [by apply Hnn|done].
      - right. split; [intros x [?| ->]%Hin; auto|]. right. exists e', name, rate. rewrite Hin. split; [auto|]. split; [done|]. split; [done|]. intros x n r [?| ->]%Hin Hx; [by eapply Hp|by destruct (Hn n r)]. }
  assert ((e.1 =? owner) || negb (Active e.2) = false) as -> by (unfold counts in Ec; destruct (e.1 =? owner), (Active e.2); done).
  case_bool_decide as Ed; [left; split; [|done]; exists e; rewrite Hin; split; [auto|]; unfold undesignated; by rewrite Ec, bool_decide_true|].
  assert (Hu : undesignated e = false) by (unfold undesignated; by rewrite Ec, bool_decide_false).
  destruct Hs as [[(e' & He & Hd) ->]|[Hnu Hs]]; [left; split; [|done]; exists e'; rewrite Hin; auto|].
  assert (Hnd : Default d = false) by (by destruct Hs as [[_ ->]|(? & ? & ? & _ & _ & -> & _)]). rewrite Hnd.
  right. split; [intros x [?| ->]%Hin; auto|].
  assert (Hkeep : rateOf (UpdateRateDesignator e.2) = None -> (forall e' name rate, e' ∈ l ++ [e] -> ~ named e' name rate) /\ d = noDemand \/
    exists e' name rate, e' ∈ l ++ [e] /\ named e' name rate /\ d = RateDemand true false name rate /\ forall x n r, x ∈ l ++ [e] -> named x n r -> precedes rate name r n).
  { intros En. assert (Hn : forall name rate, ~ named e name rate) by (intros name rate (_ & <- & _ & Hr); congruence).
    destruct Hs as [[Hnn ->]|(e' & name & rate & He & Hne & -> & Hp)]; [left|right].
    - split; [|done]. intros x name rate [?| ->]%Hin; [by apply Hnn|done].
    - exists e', name, rate. rewrite Hin. split; [auto|]. split; [done|]. split; [done|]. intros x n r [?| ->]%Hin Hx; [by eapply Hp|by destruct (Hn n r)]. }
  unfold rateOf in Hkeep. destruct (model ≫= UpdateRateValue) as [rates|] eqn:Er; simpl in Hkeep; [|by apply Hkeep].
  destruct (rates (UpdateRateDesignator e.2)) as [rate|] eqn:Ev; [|by apply Hkeep]. clear Hkeep.
  assert (Hnamed : named e (UpdateRateDesignator e.2) rate) by (split; [done|]; split; [done|]; split; [done|]; unfold rateOf; by rewrite Er).
  assert (Hself : forall n r, named e n r -> n = UpdateRateDesignator e.2 /\ r = rate) by (intros n r (_ & <- & _ & Hr); unfold rateOf in Hr; rewrite Er in Hr; simpl in Hr; split; congruence).
  right. destruct Hs as [[Hnn ->]|(e' & name & rate' & He & Hne & -> & Hp)]; simpl.
  - exists e, (UpdateRateDesignator e.2), rate. rewrite Hin. split; [auto|]. split; [done|]. split; [done|]. intros x n r [?| ->]%Hin Hx; [by destruct (Hnn x n r)|]. apply Hself in Hx as [-> ->]. right. split; [done|]. by reflexivity.
  - assert (Hnum : f64_isNaN rate = false) by (by eapply rates_number). assert (Hnum' : f64_isNaN rate' = false) by (destruct Hne as (_ & _ & _ & Hr); unfold rateOf in Hr; rewrite Er in Hr; by eapply rates_number).
    pose proof (rate_step rate (UpdateRateDesignator e.2) (RateDemand true false name rate') Hnum Hnum') as Hstep. simpl in Hstep.
    destruct (f64_ltb rate' rate || (f64_eqb rate rate' && String.ltb (UpdateRateDesignator e.2) name)).
    + assert (Hb : precedes rate (UpdateRateDesignator e.2) rate' name) by (apply precedes_total; by apply Hstep).
      exists e, (UpdateRateDesignator e.2), rate. rewrite Hin. split; [auto|]. split; [done|]. split; [done|]. intros x n r [?| ->]%Hin Hx; [eapply precedes_trans; [exact Hb|by eapply Hp]|]. apply Hself in Hx as [-> ->]. right. by split.
    + assert (Hb : precedes rate' name rate (UpdateRateDesignator e.2)).
      { destruct (decide (precedes rate' name rate (UpdateRateDesignator e.2))) as [|Hn]; [done|]. by apply Hstep in Hn. }
      exists e', name, rate'. rewrite Hin. split; [auto|]. split; [done|]. split; [done|]. intros x n r [?| ->]%Hin Hx; [by eapply Hp|]. by apply Hself in Hx as [-> ->].
Qed.
Lemma demand_fold l : demandSpec l (fold_left (addAttributeDemand model owner) l noDemand).
Proof.
  induction l as [|e l IH] using rev_ind; [|rewrite fold_left_app; by apply demand_step].
  right. split; [by intros e He%elem_of_nil|]. left. split; [by intros e name rate He%elem_of_nil|done].
Qed.
(** The specification determines the demand, and sees only membership. *)
Lemma demandSpec_unique l l' d d' : (forall e, e ∈ l <-> e ∈ l') -> demandSpec l d -> demandSpec l' d' -> d = d'.
Proof.
  intros Hl [[(e & He & Hu) ->]|[Hnu Hs]] [[(e' & He' & Hu') ->]|[Hnu' Hs']]; [done| | |].
  - rewrite (Hnu' e) in Hu by (by apply Hl). done.
  - rewrite (Hnu e') in Hu' by (by apply Hl). done.
  - destruct Hs as [[Hn ->]|(e & name & rate & He & Hne & -> & Hp)], Hs' as [[Hn' ->]|(e' & name' & rate' & He' & Hne' & -> & Hp')]; [done| | |].
    + by destruct (Hn e' name' rate'); [apply Hl|].
    + by destruct (Hn' e name rate); [apply Hl|].
    + pose proof (Hp e' name' rate' (proj2 (Hl e') He') Hne') as H1. pose proof (Hp' e name rate (proj1 (Hl e) He) Hne) as H2.
      assert (name = name') as <-.
      { destruct H1 as [|[E1 H1]], H2 as [|[E2 H2]]; try lia. by apply (anti_symm String.le). }
      destruct Hne as (_ & _ & _ & Hr), Hne' as (_ & _ & _ & Hr'). congruence.
Qed.
End Demand.

(** Who bears on an attribute: subscribers to it or to what it inherits, and
    regional demands. *)
Lemma entries_in st model obj cls attr e : e ∈ demandEntries st model obj cls attr <->
  (exists k, matchingAttribute model (cls, attr) k = true /\ e.1 ∈ membersAt (objSubs st) k /\ e.2 = objectOptions st k e.1) \/
  (exists r, r ∈ regionalRates st /\ r_Object r = obj /\ r_Attribute r = attr /\ e = (r_Subscriber r, r_Options r)).
Proof.
  unfold demandEntries. rewrite elem_of_app, !list_elem_of_In, in_flat_map, in_map_iff. setoid_rewrite filter_In. setoid_rewrite andb_true_iff. setoid_rewrite Z.eqb_eq. setoid_rewrite <- list_elem_of_In. setoid_rewrite elem_of_map_to_list'. unfold membersAt.
  apply Morphisms_Prop.or_iff_morphism; [|naive_solver]. split.
  - intros ([k set] & Hk & He). simpl in *. destruct (matchingAttribute model (cls, attr) k) eqn:Em; [|by apply elem_of_nil in He]. apply list_elem_of_fmap in He as (h & -> & Hh). apply elem_of_elements in Hh. exists k. simpl. by rewrite Hk.
  - destruct e as [h o]. simpl. intros (k & Em & Hh & ->). destruct (objSubs st !! k) as [set|] eqn:Ek; simpl in Hh; [|by apply not_elem_of_empty in Hh]. exists (k, set). split; [done|]. simpl. rewrite Em. apply list_elem_of_fmap. exists h. by rewrite elem_of_elements.
Qed.
