(* ===== verification/DeclInvariant.v ===== *)
(** * Declaration management: the invariant of a federation's state

    No table keeps an empty set, a cached snapshot is what the query would
    compute, options belong to subscriptions, and the history of a publication
    agrees with the attributes published: the privilege to delete is implicit
    only beside an attribute published by name.  Every mutation a service makes
    preserves it. *)
From stdpp Require Import gmap.
From S2P Require Import Prelude GoFloat Decl DeclChange DeclService DeclUnpublish DeclSnapshot DeclTables.
Open Scope Z_scope.

(** ** The history of publications *)
Record history_ok (fom : FOMHandle) (st : federationState) : Prop := {
  h_entry : forall cls pub touched, objPubHistory st !! (cls, pub) = Some touched ->
    publishedAttributes st pub cls <> [] /\ historyConsistent fom cls (publishedAttributes st pub cls) touched = true;
  h_complete : forall cls pub, deletePrivilege fom cls <> 0 -> publishedAttributes st pub cls <> [] -> is_Some (objPubHistory st !! (cls, pub));
}.

Record tables_ok (st : federationState) : Prop := {
  w_objPubs : tidy (objPubs st);
  w_objSubs : tidy (objSubs st);
  w_intPubs : tidy (intPubs st);
  w_intSubs : tidy (intSubs st);
  w_regionalObjects : tidy (regionalObjects st);
  w_regionalInteractions : tidy (regionalInteractions st);
  w_objOptions : tidyRows (objOptions st);
  w_intActive : tidyRows (intActive st);
  w_switches : tidyRows (switches st);
}.
Record subscriptions_ok (st : federationState) : Prop := {
  w_objSnapshot : forall k snapshot, objSubSnapshots st !! k = Some snapshot -> snapshot = sortedHandles (membersAt (objSubs st) k);
  w_intSnapshot : forall k snapshot, intSubSnapshots st !! k = Some snapshot -> snapshot = sortedHandles (membersAt (intSubs st) k);
  w_objOption : forall k h o, optionAt (objOptions st) k h = Some o -> h ∈ membersAt (objSubs st) k;
  w_intOption : forall k h o, optionAt (intActive st) k h = Some o -> h ∈ membersAt (intSubs st) k;
  w_switch : forall h kind e, optionAt (switches st) h kind = Some e -> validKind kind = true;
}.
Record decl_wf (fom : FOMHandle) (st : federationState) : Prop := {
  w_tables : tables_ok st;
  w_subscriptions : subscriptions_ok st;
  w_history : history_ok fom st;
}.

Create HintDb decl.
#[export] Hint Resolve w_objPubs w_objSubs w_intPubs w_intSubs w_regionalObjects w_regionalInteractions w_objOptions w_intActive w_switches
  w_objSnapshot w_intSnapshot w_objOption w_intOption w_switch w_tables w_subscriptions w_history
  add_tidy remove_tidy removes_tidy adds_tidy removes_list_tidy setOption_tidy removeOption_tidy removeOptions_tidy : decl.

(** The parts of the state each clause reads. *)
Lemma tables_same st st' : objPubs st = objPubs st' -> objSubs st = objSubs st' -> intPubs st = intPubs st' -> intSubs st = intSubs st' ->
  regionalObjects st = regionalObjects st' -> regionalInteractions st = regionalInteractions st' -> objOptions st = objOptions st' -> intActive st = intActive st' -> switches st = switches st' ->
  tables_ok st -> tables_ok st'.
Proof. intros E1 E2 E3 E4 E5 E6 E7 E8 E9 []. by constructor; rewrite <- ?E1, <- ?E2, <- ?E3, <- ?E4, <- ?E5, <- ?E6, <- ?E7, <- ?E8, <- ?E9. Qed.
Lemma subscriptions_same st st' : objSubs st = objSubs st' -> intSubs st = intSubs st' -> objOptions st = objOptions st' -> intActive st = intActive st' -> switches st = switches st' ->
  objSubSnapshots st = objSubSnapshots st' -> intSubSnapshots st = intSubSnapshots st' -> subscriptions_ok st -> subscriptions_ok st'.
Proof. intros E1 E2 E3 E4 E5 E6 E7 []. by constructor; rewrite <- ?E1, <- ?E2, <- ?E3, <- ?E4, <- ?E5, <- ?E6, <- ?E7. Qed.
Lemma history_same fom st st' : objPubs st = objPubs st' -> objPubHistory st = objPubHistory st' -> history_ok fom st -> history_ok fom st'.
Proof. intros E1 E2 [He Hc]. constructor; setoid_rewrite <- E2; setoid_rewrite <- (published_same st st' _ _ E1); [apply He|apply Hc]. Qed.
#[export] Hint Extern 1 (tables_ok _) => (eapply tables_same; [..|by apply w_tables]; reflexivity) : decl.

Ltac keep_tables := eapply tables_same; [..|eassumption]; reflexivity.
Ltac keep_subscriptions := eapply subscriptions_same; [..|eassumption]; reflexivity.
Ltac keep_history := eapply history_same; [..|eassumption]; reflexivity.

Section Mutations.
Context (fom : FOMHandle).
Implicit Types (st : federationState).

Lemma new_decl_wf a : decl_wf fom (newFederationState a).
Proof.
  split; [| |].
  - constructor; apply map_Forall_empty.
  - constructor; simpl; unfold optionAt; intros *; by rewrite ?lookup_empty.
  - constructor; [by intros ???; simpl; rewrite lookup_empty|]. intros cls pub _ Hp. by destruct Hp.
Qed.
(** The fields no clause reads. *)
Lemma wf_address st x : decl_wf fom st -> decl_wf fom (set_address st x).
Proof. intros [Ht Hs Hh]. split; [keep_tables|keep_subscriptions|keep_history]. Qed.
Lemma wf_defaults st x : decl_wf fom st -> decl_wf fom (set_defaults st x).
Proof. intros [Ht Hs Hh]. split; [keep_tables|keep_subscriptions|keep_history]. Qed.
Lemma wf_rateObjects st x : decl_wf fom st -> decl_wf fom (set_rateObjects st x).
Proof. intros [Ht Hs Hh]. split; [keep_tables|keep_subscriptions|keep_history]. Qed.
Lemma wf_regionalRates st x : decl_wf fom st -> decl_wf fom (set_regionalRates st x).
Proof. intros [Ht Hs Hh]. split; [keep_tables|keep_subscriptions|keep_history]. Qed.
Lemma wf_pendingAdvice st x : decl_wf fom st -> decl_wf fom (set_pendingAdvice st x).
Proof. intros [Ht Hs Hh]. split; [keep_tables|keep_subscriptions|keep_history]. Qed.
Lemma wf_intPubs st x : tidy x -> decl_wf fom st -> decl_wf fom (set_intPubs st x).
Proof. intros Hx [[] Hs Hh]. split; [by constructor|keep_subscriptions|keep_history]. Qed.
Lemma wf_regionalObjects st x : tidy x -> decl_wf fom st -> decl_wf fom (set_regionalObjects st x).
Proof. intros Hx [[] Hs Hh]. split; [by constructor|keep_subscriptions|keep_history]. Qed.
Lemma wf_regionalInteractions st x : tidy x -> decl_wf fom st -> decl_wf fom (set_regionalInteractions st x).
Proof. intros Hx [[] Hs Hh]. split; [by constructor|keep_subscriptions|keep_history]. Qed.
Lemma wf_objSnapshots st x : (forall k snapshot, x !! k = Some snapshot -> snapshot = sortedHandles (membersAt (objSubs st) k)) -> decl_wf fom st -> decl_wf fom (set_objSubSnapshots st x).
Proof. intros Hx [Ht [] Hh]. split; [keep_tables|by constructor|keep_history]. Qed.
Lemma wf_intSnapshots st x : (forall k snapshot, x !! k = Some snapshot -> snapshot = sortedHandles (membersAt (intSubs st) k)) -> decl_wf fom st -> decl_wf fom (set_intSubSnapshots st x).
Proof. intros Hx [Ht [] Hh]. split; [keep_tables|by constructor|keep_history]. Qed.

(** ** Publication *)
Lemma wf_publications st pubs history : tidy pubs -> history_ok fom (set_objPubHistory (set_objPubs st pubs) history) -> decl_wf fom st -> decl_wf fom (set_objPubHistory (set_objPubs st pubs) history).
Proof. intros Hp Hh [[] Hs _]. split; [by constructor|keep_subscriptions|done]. Qed.
Lemma add_fold pub cls attrs st added : exists pubs added', fold_left (addPublication pub cls) attrs (st, added) = (set_objPubs st pubs, added')
  /\ (tidy (objPubs st) -> tidy pubs)
  /\ (forall k h, h ∈ membersAt pubs k <-> h = pub /\ k ∈ map (pair cls) attrs \/ h ∈ membersAt (objPubs st) k)
  /\ (forall a, a ∈ added' <-> a ∈ added \/ a ∈ attrs /\ pub ∉ membersAt (objPubs st) (cls, a)).
Proof.
  revert st added. induction attrs as [|a attrs IH]; intros st added; simpl.
  { exists (objPubs st), added. split; [by destruct st|]. split; [done|]. split; set_solver. }
  destruct (declares (objPubs st) (cls, a) pub) eqn:E.
  - apply declares_spec in E. destruct (IH st added) as (pubs & added' & -> & Ht & Hi & Ha). exists pubs, added'. split; [done|]. split; [done|]. split; [set_solver|].
    intros b. rewrite Ha, elem_of_cons. destruct (decide (b = a)) as [->|]; naive_solver.
  - assert (E' : pub ∉ membersAt (objPubs st) (cls, a)) by (rewrite <- declares_spec; by rewrite E).
    destruct (IH (set_objPubs st (addMember (objPubs st) (cls, a) pub)) (added ++ [a])) as (pubs & added' & -> & Ht & Hi & Ha). exists pubs, added'. split; [done|].
    split; [intros; apply Ht; simpl; by apply add_tidy|]. split; [intros k h; rewrite Hi; simpl; rewrite add_in; set_solver|].
    intros b. rewrite Ha. simpl. rewrite add_in, elem_of_cons, elem_of_app, list_elem_of_singleton. destruct (decide (b = a)) as [->|]; naive_solver.
Qed.

Lemma two_distinct (l : list Z) a b : a ∈ l -> b ∈ l -> a <> b -> 2 <= Z.of_nat (length l).
Proof. intros Ha Hb Hn. destruct l as [|c [|d l]]; [set_solver| |simpl; lia]. apply list_elem_of_singleton in Ha, Hb. congruence. Qed.
Lemma consistent_grows cls l l' touched : NoDup l -> l ⊆ l' -> historyConsistent fom cls l touched = true -> historyConsistent fom cls l' touched = true.
Proof.
  intros Hnd Hs. unfold historyConsistent. destruct fom; [|done]. pose proof (submseteq_length _ _ (NoDup_submseteq l l' Hnd Hs)) as Hl.
  rewrite !andb_true_iff, !orb_true_iff, !andb_true_iff, !bool_decide_eq_true, !Z.leb_le. intros [Hp [Ht|[H2 Hin]]]; [auto|]. split; [done|]. right. split; [lia|set_solver].
Qed.

Lemma consistent_intro cls l touched : deletePrivilege fom cls <> 0 -> touched = true \/ 2 <= Z.of_nat (length l) /\ deletePrivilege fom cls ∈ l -> historyConsistent fom cls l touched = true.
Proof.
  unfold historyConsistent. destruct fom; [|done]. intros Hp Ht. rewrite (proj2 (Z.eqb_neq _ _) Hp). destruct Ht as [->|[Hl Hin]]; [done|]. rewrite bool_decide_true by done. by rewrite (proj2 (Z.leb_le _ _) Hl), orb_true_r.
Qed.

(** A publication touches one federate and class only. *)
Definition implicitPrivilege (privilege : AttributeHandle) (pub : FederateHandle) (cls : ObjectClassHandle) (attrs : list AttributeHandle) st : bool :=
  match objPubHistory st !! (cls, pub) with Some touched => negb touched | None => negb (bool_decide (privilege ∈ publishedAttributes st pub cls)) end
  && negb (bool_decide (privilege ∈ attrs)).
Lemma publish_eq privilege pub cls attrs st : exists pubs,
  (publishAttributes privilege pub cls attrs st).1 = set_objPubHistory (set_objPubs st pubs)
     (if (privilege =? 0) || bool_decide (attrs = []) then objPubHistory st else <[(cls, pub) := negb (implicitPrivilege privilege pub cls attrs st)]> (objPubHistory st))
  /\ (tidy (objPubs st) -> tidy pubs)
  /\ (forall k h, h ∈ membersAt pubs k <-> h ∈ membersAt (objPubs st) k \/ h = pub /\ (k ∈ map (pair cls) attrs \/
       k = (cls, privilege) /\ (privilege =? 0) || bool_decide (attrs = []) = false /\ implicitPrivilege privilege pub cls attrs st = true)).
Proof.
  unfold publishAttributes, addPublications. destruct (add_fold pub cls attrs st []) as (pubs & added & -> & Ht & Hi & _).
  destruct ((privilege =? 0) || bool_decide (attrs = [])) eqn:Ep; [exists pubs; split; [by destruct st|]; split; [done|]; intros k h; rewrite Hi; naive_solver|].
  set (touched := match _ !! _ with Some touched => touched | None => _ end).
  assert (Et : implicitPrivilege privilege pub cls attrs st = negb (touched || bool_decide (privilege ∈ attrs))).
  { unfold implicitPrivilege, touched. simpl. by destruct (objPubHistory st !! (cls, pub)); rewrite negb_orb. }
  rewrite Et, negb_involutive. destruct (touched || bool_decide (privilege ∈ attrs)) eqn:Etouched; simpl.
  - exists pubs. split; [done|]. split; [done|]. intros k h. rewrite Hi. naive_solver.
  - destruct (declares pubs (cls, privilege) pub) eqn:Ed; simpl.
    + apply declares_spec in Ed. exists pubs. split; [done|]. split; [done|]. intros k h. rewrite Hi. pose proof (proj1 (Hi (cls, privilege) pub) Ed). naive_solver.
    + exists (addMember pubs (cls, privilege) pub). split; [done|]. split; [intros; by apply add_tidy, Ht|]. intros k h. rewrite add_in, Hi. naive_solver.
Qed.
Lemma publishAttributes_wf pub cls attrs st : decl_wf fom st -> decl_wf fom (publishAttributes (deletePrivilege fom cls) pub cls attrs st).1.
Proof.
  intros Hw. set (privilege := deletePrivilege fom cls). destruct (publish_eq privilege pub cls attrs st) as (pubs & -> & Ht & Hi). apply wf_publications; [apply Ht, (w_objPubs _ (w_tables _ _ Hw))| |done].
  pose proof (w_history _ _ Hw) as [He Hc].
  assert (Hother : forall c p, (c, p) <> (cls, pub) -> publishedAttributes (set_objPubs st pubs) p c = publishedAttributes st p c).
  { intros c p Hn. apply published_ext. intros a. simpl. rewrite Hi, list_elem_of_In, in_map_iff. naive_solver. }
  assert (Hgrow : forall c p, publishedAttributes st p c ⊆ publishedAttributes (set_objPubs st pubs) p c).
  { intros c p a. rewrite !published_in. simpl. rewrite Hi. auto. }
  assert (Hkeep : forall c p touched, objPubHistory st !! (c, p) = Some touched ->
    publishedAttributes (set_objPubs st pubs) p c <> [] /\ historyConsistent fom c (publishedAttributes (set_objPubs st pubs) p c) touched = true).
  { intros c p touched E. destruct (He c p touched E) as [Hne Hcons]. split.
    - intros E0. pose proof (Hgrow c p) as Hs. rewrite E0 in Hs. destruct (publishedAttributes st p c) as [|a l]; [done|]. by apply (not_elem_of_nil a), Hs; left.
    - eapply consistent_grows; [apply published_NoDup|apply Hgrow|done]. }
  change (history_ok fom (set_objPubHistory (set_objPubs st pubs) (if (privilege =? 0) || bool_decide (attrs = []) then objPubHistory st else <[(cls, pub):=negb (implicitPrivilege privilege pub cls attrs st)]> (objPubHistory st)))).
  destruct ((privilege =? 0) || bool_decide (attrs = [])) eqn:Ep.
  - constructor; [intros c p touched E; apply Hkeep; exact E|]. intros c p Hp Hne. simpl in *. apply Hc; [done|]. intros E. apply Hne. rewrite <- E. apply published_ext. intros a. simpl. rewrite Hi.
    apply orb_true_iff in Ep as [Ep|Ep]; [|apply bool_decide_eq_true in Ep as ->; set_solver].
    split; [|auto]. intros [?|[-> [Hin|(? & Hx & ?)]]]; [done| |done]. apply list_elem_of_In, in_map_iff in Hin as (b & [= <- <-] & _). unfold privilege in Ep. apply Z.eqb_eq in Ep. done.
  - apply orb_false_iff in Ep as [Hp0 Hne]. apply Z.eqb_neq in Hp0. apply bool_decide_eq_false in Hne.
    assert (Hin : forall a, a ∈ attrs -> a ∈ publishedAttributes (set_objPubs st pubs) pub cls).
    { intros a Ha. rewrite published_in. simpl. apply Hi. right. split; [done|]. left. apply list_elem_of_In, in_map, list_elem_of_In, Ha. }
    destruct attrs as [|a0 attrs']; [done|]. pose proof (Hin a0 (list_elem_of_here _ _)) as Ha0.
    constructor.
    + intros c p touched. simpl. rewrite lookup_insert_Some. intros [[[= <- <-] <-]|[Hn E]]; [|apply Hkeep; exact E]. split.
      * rewrite published_nonempty. exists a0. by apply published_in in Ha0.
      * apply consistent_intro; [done|]. destruct (implicitPrivilege _ _ _ _ _) eqn:Ei; [right|by left].
        assert (Hpriv : privilege ∈ publishedAttributes (set_objPubs st pubs) pub cls).
        { rewrite published_in. simpl. apply Hi. right. split; [done|]. right. split; [done|]. by split. }
        split; [|done]. apply (two_distinct _ a0 privilege); [done|done|].
        intros ->. unfold implicitPrivilege in Ei. apply andb_true_iff in Ei as [_ Ei]. rewrite bool_decide_true in Ei by set_solver. done.
    + intros c p Hp Hpn. simpl. destruct (decide ((c, p) = (cls, pub))) as [E|Hn]; [rewrite E, lookup_insert_eq; eauto|]. rewrite lookup_insert_ne by congruence. apply Hc; [done|].
      intros E. apply Hpn. rewrite <- E. apply (Hother c p Hn).
Qed.

(** ** Unpublication *)
Lemma filter_split {A} (p : A -> bool) (l : list A) : Z.of_nat (length (List.filter p l)) + Z.of_nat (length (List.filter (fun a => negb (p a)) l)) = Z.of_nat (length l).
Proof. induction l as [|a l IH]; simpl; [done|]. destruct (p a); simpl; lia. Qed.
Lemma filter_sorted (p : Z -> bool) (l : list Z) : StronglySorted Z.lt l -> StronglySorted Z.lt (List.filter p l).
Proof.
  induction 1 as [|a l Hs IH Hf]; simpl; [constructor|]. destruct (p a); [|done]. constructor; [done|]. rewrite Forall_forall in *. intros b Hb. apply Hf. apply list_elem_of_In, filter_In in Hb as [Hb _]. by apply list_elem_of_In.
Qed.
Lemma filter_elem {A} (p : A -> bool) (l : list A) a : a ∈ List.filter p l <-> a ∈ l /\ p a = true.
Proof. by rewrite !list_elem_of_In, filter_In. Qed.
Lemma removed_in pub cls selected st k h : h ∈ membersAt (objPubs (removePublications pub cls selected st)) k <-> h ∈ membersAt (objPubs st) k /\ ~ (h = pub /\ k ∈ map (pair cls) selected).
Proof. apply (removes_list_in (pair cls)). Qed.
Lemma pair_in (cls : Z) (l : list Z) c a : (c, a) ∈ map (pair cls) l <-> c = cls /\ a ∈ l.
Proof. rewrite !list_elem_of_In, in_map_iff. naive_solver. Qed.
Lemma published_removed pub cls selected st :
  publishedAttributes (removePublications pub cls selected st) pub cls = List.filter (fun a => negb (bool_decide (a ∈ selected))) (publishedAttributes st pub cls).
Proof.
  apply sorted_lt_ext; [apply published_sorted|apply filter_sorted, published_sorted|]. intros a.
  rewrite filter_elem, !published_in, removed_in, pair_in, negb_true_iff, bool_decide_eq_false. naive_solver.
Qed.
Lemma published_removed_other pub cls selected st p c : (c, p) <> (cls, pub) -> publishedAttributes (removePublications pub cls selected st) p c = publishedAttributes st p c.
Proof. intros Hn. apply published_ext. intros a. rewrite removed_in, pair_in. naive_solver. Qed.
Definition selectedNow (st : federationState) (pub : FederateHandle) (cls : ObjectClassHandle) (candidates : list AttributeHandle) : list AttributeHandle :=
  selectUnpublicationAttributes (publishedAttributes st pub cls) candidates (deletePrivilege fom cls) (default false (objPubHistory st !! (cls, pub))).
(** What stays published with an implicit privilege is more than it. *)
Lemma implicit_remains (privilege : Z) (expected candidates : list Z) : NoDup expected -> privilege <> 0 -> privilege ∈ expected -> privilege ∉ candidates ->
  let rest := List.filter (fun a => negb (bool_decide (a ∈ selectUnpublicationAttributes expected candidates privilege false))) expected in
  rest = [] \/ privilege ∈ rest /\ 2 <= Z.of_nat (length rest).
Proof.
  intros Hnd Hp0 Hin Hp. unfold selectUnpublicationAttributes. cbv zeta. set (chosen := List.filter (fun attr => bool_decide (attr ∈ candidates)) expected).
  assert (Hch : forall a, a ∈ chosen <-> a ∈ expected /\ a ∈ candidates) by (intros a; unfold chosen; by rewrite filter_elem, bool_decide_eq_true).
  assert (Hpc : privilege ∉ chosen) by (rewrite Hch; tauto).
  rewrite (proj2 (Z.eqb_neq _ _) Hp0), (bool_decide_true (privilege ∈ expected)), (bool_decide_false (privilege ∈ chosen)) by done. simpl.
  assert (Hc : chosen ++ [privilege] ⊆+ expected).
  { apply NoDup_submseteq; [|intros a; rewrite elem_of_app, list_elem_of_singleton, Hch; naive_solver].
    apply NoDup_app. split; [apply NoDup_ListNoDup, List.NoDup_filter, NoDup_ListNoDup, Hnd|]. split; [|apply NoDup_singleton]. by intros a Ha ->%list_elem_of_singleton. }
  pose proof (submseteq_length _ _ Hc) as Hlen. rewrite length_app in Hlen. simpl in Hlen.
  destruct (Z.eqb_spec (Z.of_nat (length chosen)) (Z.of_nat (length expected) - 1)) as [Elen|Elen]; [left|right].
  - assert (Hall : expected ⊆+ chosen ++ [privilege]).
    { apply Permutation_submseteq. symmetry. apply submseteq_length_Permutation; [done|]. rewrite length_app. simpl. lia. }
    apply elem_of_nil_inv. intros a. rewrite filter_elem, negb_true_iff, bool_decide_eq_false, sortHandles_in. intros [Ha Hb]. apply Hb. by eapply elem_of_submseteq.
  - split; [by rewrite filter_elem, negb_true_iff, bool_decide_eq_false|].
    pose proof (filter_split (fun attr => bool_decide (attr ∈ chosen)) expected) as Hs.
    assert (Hcc : List.filter (fun attr => bool_decide (attr ∈ chosen)) expected = chosen).
    { unfold chosen at 2. apply filter_ext_in. intros a Ha%list_elem_of_In. apply bool_decide_ext. rewrite Hch. tauto. }
    rewrite Hcc in Hs. lia.
Qed.
Lemma unpublishAttributes_wf pub cls candidates st : decl_wf fom st ->
  decl_wf fom (unpublishAttributes pub cls candidates (selectedNow st pub cls candidates) (deletePrivilege fom cls) st).
Proof.
  intros Hw. set (selected := selectedNow st pub cls candidates). set (st' := removePublications pub cls selected st). pose proof (w_history _ _ Hw) as [He Hc].
  assert (Ht : tidy (objPubs st')) by apply (removes_list_tidy (pair cls)), (w_objPubs _ (w_tables _ _ Hw)).
  assert (Hpub : decl_wf fom (set_objPubHistory (set_objPubs st (objPubs st')) (objPubHistory (unpublishAttributes pub cls candidates selected (deletePrivilege fom cls) st)))).
  { apply wf_publications; [done| |done].
    assert (Hother : forall c p, (c, p) <> (cls, pub) -> publishedAttributes (set_objPubs st (objPubs st')) p c = publishedAttributes st p c).
    { intros c p Hn. rewrite <- (published_removed_other pub cls selected st p c Hn). by apply published_same. }
    assert (Hhist : forall c p, (c, p) <> (cls, pub) -> objPubHistory (unpublishAttributes pub cls candidates selected (deletePrivilege fom cls) st) !! (c, p) = objPubHistory st !! (c, p)).
    { intros c p Hn. unfold unpublishAttributes. cbv zeta. case_bool_decide; simpl; [by rewrite lookup_delete_ne|]. destruct (_ && _); simpl; [by rewrite lookup_insert_ne|done]. }
    assert (Hsame : publishedAttributes (set_objPubs st (objPubs st')) pub cls = publishedAttributes st' pub cls) by (by apply published_same).
    pose proof (published_removed pub cls selected st) as Hrest. fold st' in Hrest.
    constructor.
    - intros c p touched E. destruct (decide ((c, p) = (cls, pub))) as [[= -> ->]|Hn]; [|simpl in E; rewrite Hhist in E by done; erewrite (published_ext _ (set_objPubs st (objPubs st'))) by done; rewrite Hother by done; by apply He].
      erewrite (published_ext _ (set_objPubs st (objPubs st'))) by done. rewrite Hsame. simpl in E. unfold unpublishAttributes in E. cbv zeta in E. fold st' in E. revert E. case_bool_decide as En; simpl; [by rewrite lookup_delete_eq|].
      intros E. split; [done|]. destruct (negb (deletePrivilege fom cls =? 0) && bool_decide (deletePrivilege fom cls ∈ candidates)) eqn:Ep; simpl in E.
      + rewrite lookup_insert_eq in E. injection E as <-. apply andb_true_iff in Ep as [Ep _]. apply negb_true_iff, Z.eqb_neq in Ep. apply consistent_intro; auto.
      + destruct (He cls pub touched E) as [_ Hcons]. destruct touched; [revert Hcons; unfold historyConsistent; by destruct fom|]. unfold historyConsistent in Hcons |- *. destruct fom eqn:Ef; [|done]. rewrite <- Ef in *. simpl in *.
        rewrite !andb_true_iff, negb_true_iff, bool_decide_eq_true, Z.leb_le, Z.eqb_neq in Hcons |- *. destruct Hcons as (Hp0 & _ & Hin). rewrite (proj2 (Z.eqb_neq _ _) Hp0) in Ep. apply bool_decide_eq_false in Ep.
        destruct (implicit_remains _ _ candidates (published_NoDup st pub cls) Hp0 Hin Ep) as [E0|[Hi Hl]]; [destruct En; rewrite Hrest; unfold selected, selectedNow; by rewrite E|].
        rewrite Hrest. unfold selected, selectedNow. by rewrite E.
    - intros c p Hp Hne. erewrite (published_ext _ (set_objPubs st (objPubs st'))) in Hne by done. simpl. destruct (decide ((c, p) = (cls, pub))) as [[= -> ->]|Hn]; [|rewrite Hhist by done; apply Hc; [done|by rewrite <- Hother]].
      rewrite Hsame in Hne. unfold unpublishAttributes. cbv zeta. fold st'. rewrite bool_decide_false by done. destruct (_ && _); simpl; [rewrite lookup_insert_eq; eauto|]. apply Hc; [done|]. intros E. apply Hne. rewrite Hrest, E. done. }
  unfold unpublishAttributes in *. cbv zeta in *. fold st' in Hpub |- *. case_bool_decide; [exact Hpub|]. destruct (_ && _); exact Hpub.
Qed.
End Mutations.
