(* ===== verification/DeclPreserve.v ===== *)
(** * Declaration management: the invariant under every service

    Every mutation preserves the invariant; what a change does; the invariant
    over every service. *)
From stdpp Require Import gmap.
From S2P Require Import Prelude GoFloat Decl DeclChange DeclService DeclUnpublish DeclSnapshot DeclTables DeclInvariant.
Open Scope Z_scope.

Lemma fold_left_inv {A B} (P : A -> Prop) (step : A -> B -> A) l a : P a -> (forall a b, P a -> P (step a b)) -> P (fold_left step l a).
Proof. intros Ha Hs. revert a Ha. induction l as [|b l IH]; intros a Ha; [done|]. by apply IH, Hs. Qed.

Section Mutations.
Context (fom : FOMHandle).
Implicit Types (st : federationState).

(** ** Subscription *)
Lemma subscribeAttribute_wf sub cls options st attr : decl_wf fom st -> decl_wf fom (subscribeAttribute sub cls options st attr).
Proof.
  intros [[] [] Hh]. split; [constructor; simpl; auto with decl| |keep_history]. constructor; simpl; try done.
  - intros k snapshot. rewrite lookup_delete_Some. intros [Hn E]. rewrite add_at, decide_False by done. by apply w_objSnapshot.
  - intros k h o. rewrite optionAt_set, add_in. case_decide; [tauto|]. intros E. right. by eapply w_objOption.
Qed.
Lemma unsubscribeAttribute_wf sub cls st attr : decl_wf fom st -> decl_wf fom (unsubscribeAttribute sub cls st attr).
Proof.
  intros Hw. unfold unsubscribeAttribute. destruct (negb _); [done|]. destruct Hw as [[] [] Hh]. split; [constructor; simpl; auto with decl| |keep_history]. constructor; simpl; try done.
  - intros k snapshot. rewrite lookup_delete_Some. intros [Hn E]. rewrite remove_at, decide_False by done. by apply w_objSnapshot.
  - intros k h o. rewrite optionAt_remove, remove_in. case_decide; [done|]. intros E. split; [by eapply w_objOption|done].
Qed.
Lemma subscribeInteraction_wf sub cls active st : decl_wf fom st -> decl_wf fom (subscribeInteraction sub cls active st).
Proof.
  intros [[] [] Hh]. split; [constructor; simpl; auto with decl| |keep_history]. constructor; simpl; try done.
  - intros k snapshot. rewrite lookup_delete_Some. intros [Hn E]. rewrite add_at, decide_False by done. by apply w_intSnapshot.
  - intros k h o. rewrite optionAt_set, add_in. case_decide; [tauto|]. intros E. right. by eapply w_intOption.
Qed.
Lemma unsubscribeInteraction_wf sub cls st : decl_wf fom st -> decl_wf fom (unsubscribeInteraction sub cls st).
Proof.
  intros [[] [] Hh]. split; [constructor; simpl; auto with decl| |keep_history]. constructor; simpl; try done.
  - intros k snapshot. rewrite lookup_delete_Some. intros [Hn E]. rewrite remove_at, decide_False by done. by apply w_intSnapshot.
  - intros k h o. rewrite optionAt_remove, remove_in. case_decide; [done|]. intros E. split; [by eapply w_intOption|done].
Qed.

(** ** Interests, switches *)
Lemma setRegionalObjectInterest_wf sub cls attrs st : decl_wf fom st -> decl_wf fom (setRegionalObjectInterest sub cls attrs st).
Proof. intros Hw. apply wf_regionalObjects; [|done]. apply (adds_tidy (pair cls)), removes_tidy, w_regionalObjects, (w_tables _ _ Hw). Qed.
Lemma setRegionalInteractionInterest_wf sub cls active st : decl_wf fom st -> decl_wf fom (setRegionalInteractionInterest sub cls active st).
Proof. intros Hw. apply wf_regionalInteractions; [|done]. pose proof (w_regionalInteractions _ (w_tables _ _ Hw)). destruct active; auto with decl. Qed.
Lemma switches_eq st h kind enabled : <[h := <[kind := enabled]> (default ∅ (switches st !! h))]> (switches st) = setOption (switches st) h kind enabled.
Proof. done. Qed.
Lemma setSwitch_wf h kind enabled st st' u : validKind kind = true -> setSwitch h kind enabled st = Ret (st', u) -> decl_wf fom st -> decl_wf fom st'.
Proof.
  unfold setSwitch. destruct (eqb _ _); [done|]. intros Hk [= <- _] [[] [] Hh]. rewrite switches_eq. split; [constructor; simpl; auto with decl| |keep_history]. constructor; simpl; try done.
  intros h' kind' e. rewrite optionAt_set. case_decide as D; [destruct D; by subst|]. apply w_switch.
Qed.

(** ** Resignation *)
Lemma removeFederate_history h st : history_ok fom st -> history_ok fom (removeFederate h st).
Proof.
  intros [He Hc].
  assert (Hp : forall c p, p <> h -> publishedAttributes (removeFederate h st) p c = publishedAttributes st p c).
  { intros c p Hn. apply published_ext. intros a. simpl. rewrite removes_in. naive_solver. }
  assert (Hgone : forall c, publishedAttributes (removeFederate h st) h c = []).
  { intros c. apply elem_of_nil_inv. intros a. rewrite published_in. simpl. rewrite removes_in. naive_solver. }
  constructor.
  - intros c p touched E. simpl in E. apply map_lookup_filter_Some in E as [E Hn]. simpl in Hn. rewrite Hp by done. by apply He.
  - intros c p Hpriv Hne. destruct (decide (p = h)) as [->|Hn]; [by rewrite Hgone in Hne|]. rewrite Hp in Hne by done. destruct (Hc c p Hpriv Hne) as [touched E]. exists touched. simpl. by apply map_lookup_filter_Some.
Qed.
Lemma removeFederate_wf h st : decl_wf fom st -> decl_wf fom (removeFederate h st).
Proof.
  intros [[] [] Hh]. split; [| |by apply removeFederate_history].
  - constructor; simpl; auto with decl. by apply map_Forall_delete.
  - constructor; simpl; try (intros *; by rewrite lookup_empty).
    + intros k h' o. rewrite optionAt_removes, removes_in. case_decide; [done|]. intros E. split; [by eapply w_objOption|naive_solver].
    + intros k h' o. rewrite optionAt_removes, removes_in. case_decide; [done|]. intros E. split; [by eapply w_intOption|naive_solver].
    + intros h' kind e. unfold optionAt. destruct (decide (h' = h)) as [->|Hn]; [by rewrite lookup_delete_eq|]. rewrite lookup_delete_ne by done. apply (w_switch h').
Qed.
End Mutations.

(** ** Changes *)
(** [change_facts]: a reply publishes a state of the federation concerned or
    leaves every state as it was. *)
Section Changes.
Context (opts : Options).
Implicit Types (m : Manager) (f : FederationName).

Definition fomOf f : FOMHandle := (model opts f).1.
Definition all_wf m : Prop := forall f st, fed m !! f = Some st -> decl_wf (fomOf f) st.

Lemma clone_wf m f fom : all_wf m -> decl_wf (fomOf f) (cloneFederationState m f fom).
Proof.
  intros Hm. unfold cloneFederationState. destruct (fed m !! f) as [st|] eqn:E; [apply wf_address, Hm, E|]. apply wf_defaults, new_decl_wf.
Qed.
Lemma publish_all_wf m f st : all_wf m -> decl_wf (fomOf f) st -> all_wf (publish m f st).
Proof. intros Hm Hst f' st'. simpl. rewrite lookup_insert_Some. intros [[<- <-]|[_ E]]; [done|by apply Hm]. Qed.
Lemma forget_all_wf m f : all_wf m -> all_wf (forget m f).
Proof. intros Hm f' st'. simpl. rewrite lookup_delete_Some. intros [_ E]. by apply Hm. Qed.
Lemma allocate_all_wf m : all_wf m -> all_wf (allocate m).
Proof. done. Qed.

(** What a commit leaves: the candidate published, or the tables of before. *)
Definition restored m f (m' : Manager) : Manager := match fed m !! f with Some previous => publish m' f previous | None => forget m' f end.
Lemma restored_fed m f st : fed (restored m f (publish m f st)) = fed m.
Proof.
  unfold restored. destruct (fed m !! f) as [previous|] eqn:E; simpl.
  - by rewrite insert_insert_eq, insert_id.
  - by rewrite delete_insert_id.
Qed.
Lemma restored_nextAddress m f m' : nextAddress (restored m f m') = nextAddress m'.
Proof. unfold restored. by destruct (fed m !! f). Qed.
Lemma publish_publish m f st st' : publish (publish m f st) f st' = publish m f st'.
Proof. unfold publish. simpl. by rewrite insert_insert_eq. Qed.
Lemma manager_eq m m' : fed m = fed m' -> nextAddress m = nextAddress m' -> m = m'.
Proof. destruct m, m'. simpl. by intros -> ->. Qed.
Lemma restored_same m f st : restored m f (publish m f st) = m.
Proof. apply manager_eq; [apply restored_fed|by rewrite restored_nextAddress]. Qed.
Lemma restored_publish m f st st' : publish (restored m f (publish m f st)) f st' = publish m f st'.
Proof. by rewrite restored_same. Qed.

(** The deliveries an effect list carried through. *)
Definition delivered (es : list effect) : list OutboxDelivery :=
  flat_map (fun e => match e with Commits _ ds true => ds | Sends _ d true => [d] | _ => [] end) es.
Lemma delivered_app es es' : delivered (es ++ es') = delivered es ++ delivered es'.
Proof. apply flat_map_app. Qed.
Lemma commit_cases outbox m f candidate ds mandatory : let r := commitDeclarationChange outbox m f candidate ds mandatory in
  match result r with
  | Ret _ => after r = publish m f candidate /\ delivered (effects r) = ds
  | _ => after r = (if mandatory then publish m f candidate else m) /\ delivered (effects r) = []
  end.
Proof.
  cbv zeta. unfold commitDeclarationChange. cbv zeta. fold (restored m f (publish m f candidate)).
  assert (Hrestore : (if mandatory then publish (restored m f (publish m f candidate)) f candidate else restored m f (publish m f candidate)) = if mandatory then publish m f candidate else m) by (destruct mandatory; [apply restored_publish|apply restored_same]).
  assert (Hdone : (if mandatory then publish (publish m f candidate) f candidate else publish m f candidate) = publish m f candidate) by (destruct mandatory; [apply publish_publish|done]).
  destruct ds as [|d rest]; simpl; [by rewrite Hdone|].
  destruct (Reserve outbox) as [reserve|].
  - destruct (reserve f (d :: rest)) as [e| |e]; simpl; try done. destruct e as [e|]; simpl; [by rewrite Hrestore|]. by rewrite Hdone, app_nil_r.
  - case_bool_decide as E; simpl; [|done]. subst. destruct (Send outbox f d) as [e|]; simpl; [by rewrite Hrestore|by rewrite Hdone].
Qed.
Lemma commit_no_panic outbox m f candidate ds mandatory s : result (commitDeclarationChange outbox m f candidate ds mandatory) <> Panic s.
Proof.
  unfold commitDeclarationChange. cbv zeta. destruct ds; [done|]. destruct (Reserve outbox); [destruct (r f _) as [| |[|]]; done|]. destruct (negb _); [done|]. by destruct (Send _ _ _).
Qed.
End Changes.

(** * Declaration management: what a change does, and the invariant over every
    history of services *)
Section Change.
Context (opts : Options).
Implicit Types (m : Manager) (f : FederationName).

(** [Outcome of a change]: refused by the mutation, published with its advice
    delivered, or stopped by the outbox. *)
Definition changeCase {A} m f fom (mutate : federationState -> outcome decl_error (federationState * A)) (mandatory : bool) (r : reply A) : Prop :=
  let st0 := cloneFederationState m f fom in
  match mutate st0 with
  | Fail e => r = Reply (allocate m) [] (Fail e)
  | Panic s => r = Reply (allocate m) [] (Panic s)
  | Ret (st, a) =>
      match advisoryOutbox opts with
      | None => r = Reply (publish (allocate m) f st) [] (Ret a)
      | Some _ =>
          let desired := desiredAdvice st fom in
          let noted := noteAdvice (callsFor (fed m !! f) st (desiredAdvice st0 fom)) desired st in
          let ds := (pendingDeliveries noted desired).2 in
          result r = Ret a /\ after r = publish (allocate m) f (set_pendingAdvice st ∅) /\ delivered (effects r) = ds
          \/ (exists e, result r = Fail e) /\ delivered (effects r) = [] /\
             after r = if mandatory then publish (allocate m) f (set_pendingAdvice st (keptAdvice noted desired)) else allocate m
      end
  end.
Lemma changeWith_case {A} m f fom (mutate : federationState -> outcome decl_error (federationState * A)) mandatory :
  changeCase m f fom mutate mandatory (changeWith opts m f fom mutate mandatory).
Proof.
  unfold changeCase, changeWith. cbv zeta. destruct (mutate _) as [[st a]|e|s]; [|done|done]. destruct (advisoryOutbox opts) as [outbox|]; [|done].
  set (desired := desiredAdvice st fom). set (noted := noteAdvice _ _ st). unfold pendingDeliveries. cbv zeta.
  pose proof (commit_cases outbox (allocate m) f (set_pendingAdvice noted (keptAdvice noted desired)) (omap (fun key => event ← adviceEvent key (default noDemand (desired !! key)); Some (Delivery (Recipient key) event)) (merge_sort adviceLe (elements (keptAdvice noted desired)))) mandatory) as Hc.
  pose proof (commit_no_panic outbox (allocate m) f (set_pendingAdvice noted (keptAdvice noted desired)) (omap (fun key => event ← adviceEvent key (default noDemand (desired !! key)); Some (Delivery (Recipient key) event)) (merge_sort adviceLe (elements (keptAdvice noted desired)))) mandatory) as Hp.
  cbv zeta in Hc. destruct (result (commitDeclarationChange _ _ _ _ _ _)) as [[]|e|s]; simpl in *.
  - left. destruct Hc as [-> ->]. split; [done|]. split; [by rewrite publish_publish|done].
  - right. destruct Hc as [-> ->]. split; [by exists e|]. done.
  - by destruct (Hp s).
Qed.

(** The states a change leaves satisfy what the clone and the mutation do. *)
Section States.
Context (P : FederationName -> federationState -> Prop).
Hypothesis P_pending : forall f st x, P f st -> P f (set_pendingAdvice st x).
Definition all_states m : Prop := forall f st, fed m !! f = Some st -> P f st.
Lemma publish_states m f st : all_states m -> P f st -> all_states (publish m f st).
Proof. intros Hm Hst f' st'. simpl. rewrite lookup_insert_Some. intros [[<- <-]|[_ E]]; [done|by apply Hm]. Qed.
Lemma changeWith_states {A} m f fom (mutate : federationState -> outcome decl_error (federationState * A)) mandatory : all_states m ->
  (forall st a, mutate (cloneFederationState m f fom) = Ret (st, a) -> P f st) ->
  all_states (after (changeWith opts m f fom mutate mandatory)).
Proof.
  intros Hm Hst. pose proof (changeWith_case m f fom mutate mandatory) as Hc. unfold changeCase in Hc. cbv zeta in Hc.
  destruct (mutate _) as [[st a]|e|s]; [|by rewrite Hc|by rewrite Hc]. specialize (Hst st a eq_refl).
  destruct (advisoryOutbox opts); [|rewrite Hc; by apply publish_states].
  destruct Hc as [(_ & -> & _)|(_ & _ & ->)]; [by apply publish_states, P_pending|]. destruct mandatory; [by apply publish_states, P_pending|done].
Qed.
Lemma changeChecked_states {A} m f (mutate : federationState -> outcome decl_error (federationState * A)) mandatory : all_states m ->
  (forall st a, mutate (cloneFederationState m f (fomOf opts f)) = Ret (st, a) -> P f st) ->
  all_states (after (changeChecked opts m f mutate mandatory)).
Proof.
  intros Hm Hst. unfold changeChecked. unfold fomOf in Hst. destruct (model opts f) as [fom [e|]]; simpl in *; [destruct mandatory; [|done]|]; by apply changeWith_states.
Qed.
End States.

(** ** The invariant *)
Lemma checked_change_wf {A} m f (mutate : federationState -> outcome decl_error (federationState * A)) mandatory : all_wf opts m ->
  (forall st st' a, decl_wf (fomOf opts f) st -> mutate st = Ret (st', a) -> decl_wf (fomOf opts f) st') ->
  all_wf opts (after (changeChecked opts m f mutate mandatory)).
Proof.
  intros Hm Hst. apply (changeChecked_states (fun f st => decl_wf (fomOf opts f) st)); [intros; by apply wf_pendingAdvice|done|].
  intros st a E. eapply Hst; [|exact E]. by apply clone_wf.
Qed.
Lemma change_wf m f mutate mandatory : all_wf opts m -> (forall st, decl_wf (fomOf opts f) st -> decl_wf (fomOf opts f) (mutate st)) -> all_wf opts (after (changeMode opts m f mutate mandatory)).
Proof. intros Hm Hst. apply checked_change_wf; [done|]. intros st st' a Hw [= <- _]. by apply Hst. Qed.
Lemma modelFor_fom f fom : modelFor opts f = Ret fom -> fom = fomOf opts f.
Proof. unfold modelFor, fomOf. destruct (model opts f) as [fom' [e|]]; [done|]. by intros [= ->]. Qed.
Lemma guarded_wf m guard r : all_wf opts m -> all_wf opts (after r) -> all_wf opts (after (guarded m guard r)).
Proof. unfold guarded. by destruct guard. Qed.
Lemma fold_change_wf {B} f (step : federationState -> B -> federationState) l st : (forall st b, decl_wf (fomOf opts f) st -> decl_wf (fomOf opts f) (step st b)) -> decl_wf (fomOf opts f) st -> decl_wf (fomOf opts f) (fold_left step l st).
Proof. intros Hs Hw. by apply fold_left_inv. Qed.
Hint Resolve subscribeAttribute_wf unsubscribeAttribute_wf subscribeInteraction_wf unsubscribeInteraction_wf setRegionalObjectInterest_wf setRegionalInteractionInterest_wf removeFederate_wf
  wf_rateObjects wf_regionalRates wf_pendingAdvice change_wf guarded_wf fold_change_wf : decl.

(** The commit of an unpublication, as one step. *)
Definition commitNow m f pub cls candidates ownership : reply () :=
  let fom := fomOf opts f in
  let selected := match fed m !! f with Some st => selectedNow fom st pub cls candidates | None => [] end in
  commitUnpublicationLocked opts m f pub cls fom candidates selected (deletePrivilege fom cls) ownership.
Lemma commitUnpublication_cases m f pub cls fom candidates selected privilege ownership :
  let st0 := cloneFederationState m f fom in
  let st := unpublishAttributes pub cls candidates selected privilege st0 in
  let desired := desiredAdvice st fom in
  let noted := noteAdvice (fun key value => negb (demandEq (default noDemand (desiredAdvice st0 fom !! key)) value) && switchEnabled st (Recipient key) (Kind key)) desired st in
  let r := commitUnpublicationLocked opts m f pub cls fom candidates selected privilege ownership in
  result r = Ret () /\ after r = publish (allocate m) f (set_pendingAdvice st ∅) /\ delivered (effects r) = match advisoryOutbox opts with Some _ => (pendingDeliveries noted desired).2 | None => [] end
  \/ (exists e, result r = Fail e) /\ after r = allocate m /\ delivered (effects r) = [].
Proof.
  cbv zeta. unfold commitUnpublicationLocked. cbv zeta. set (st := unpublishAttributes _ _ _ _ _ _). set (desired := desiredAdvice st fom). set (noted := noteAdvice _ _ st).
  assert (Hown : delivered (match ownership with Some _ => [CommitsOwnership] | None => [] end) = []) by (by destruct ownership).
  destruct (advisoryOutbox opts) as [outbox|]; [|by left]. unfold pendingDeliveries. cbv zeta.
  set (ds := omap _ (merge_sort adviceLe _)). set (candidate := set_pendingAdvice noted _).
  pose proof (commit_cases outbox (allocate m) f candidate ds false) as Hc. pose proof (commit_no_panic outbox (allocate m) f candidate ds false) as Hp. cbv zeta in Hc.
  destruct (result (commitDeclarationChange _ _ _ _ _ _)) as [[]|e|s] eqn:E; simpl in *; [left|right|by destruct (Hp s)].
  - destruct Hc as [-> Hd]. split; [done|]. split; [by rewrite publish_publish|]. by rewrite delivered_app, Hd, Hown, app_nil_r.
  - rewrite E. destruct Hc as [-> ->]. split; [by exists e|done].
Qed.
Lemma commitNow_wf m f pub cls candidates ownership : all_wf opts m -> all_wf opts (after (commitNow m f pub cls candidates ownership)).
Proof.
  intros Hm. unfold commitNow. cbv zeta. set (selected := match fed m !! f with Some _ => _ | None => _ end).
  pose proof (commitUnpublication_cases m f pub cls (fomOf opts f) candidates selected (deletePrivilege (fomOf opts f) cls) ownership) as Hc. cbv zeta in Hc.
  destruct Hc as [(_ & -> & _)|(_ & -> & _)]; [|done]. apply publish_all_wf; [done|]. apply wf_pendingAdvice.
  assert (Hsel : selected = selectedNow (fomOf opts f) (cloneFederationState m f (fomOf opts f)) pub cls candidates).
  { unfold selected, cloneFederationState. destruct (fed m !! f) as [st|]; [done|]. unfold selectedNow, selectUnpublicationAttributes. cbv zeta. simpl.
    change (publishedAttributes (set_defaults (newFederationState (nextAddress m)) (defaultSwitches (fomOf opts f))) pub cls) with (@nil Z). by rewrite (bool_decide_false (_ ∈ [])), andb_false_r by set_solver. }
  rewrite Hsel. apply unpublishAttributes_wf, clone_wf, Hm.
Qed.
End Change.
