(* ===== verification/DeclRestore.v ===== *)
(** * Declaration management: restores and histories

    What a restore accepts satisfies the invariant, and so does the state after
    every history of services. *)
From stdpp Require Import gmap.
From S2P Require Import Prelude GoFloat Decl DeclChange DeclService DeclUnpublish DeclSnapshot DeclTables DeclInvariant DeclPreserve.
Open Scope Z_scope.

Section FoldM.
Context {E A B : Type} (step : B -> A -> outcome E B).
Lemma foldM_inv (P : B -> Prop) l b b' : P b -> (forall b a b', a ∈ l -> P b -> step b a = Ret b' -> P b') -> foldM step l b = Ret b' -> P b'.
Proof.
  revert b. induction l as [|a l IH]; intros b Hb Hs; simpl; [by intros [= <-]|]. intros Hr. bind_inv Hr.
  apply (IH r); [|intros; eapply Hs; [by right|done..]|done]. eapply Hs; [by left|done..].
Qed.
(** Each element leaves [Q] behind, which later steps keep. *)
Lemma foldM_all (P : B -> Prop) (Q : A -> B -> Prop) l b b' : P b ->
  (forall b a b', a ∈ l -> P b -> step b a = Ret b' -> P b' /\ Q a b') -> (forall b a a' b', a' ∈ l -> P b -> Q a b -> step b a' = Ret b' -> Q a b') ->
  foldM step l b = Ret b' -> forall a, a ∈ l -> Q a b'.
Proof.
  revert b. induction l as [|a l IH]; intros b Hb H1 H2; simpl; [intros _ a Ha%elem_of_nil; done|]. intros Hr. bind_inv Hr.
  destruct (H1 _ a _ (list_elem_of_here _ _) Hb Hr0) as [Hpr Hqr].
  intros a' [->|Ha']%elem_of_cons; [|eapply (IH r); [done| | |done|done]; intros; [eapply H1|eapply H2]; try done; by right].
  refine (proj2 (foldM_inv (fun b => P b /\ Q a b) l r b' (conj Hpr Hqr) _ Hr)). intros b0 a0 b1 Ha0 [HP HQ] Es.
  split; [eapply H1|eapply H2]; try done; by right.
Qed.
End FoldM.
Lemma require_inv b msg {A} (k : outcome decl_error A) r : (_ ← require b msg; k) = Ret r -> b = true /\ k = Ret r.
Proof. by destruct b. Qed.
Ltac require_inv H := let Hb := fresh "Hb" in apply require_inv in H as [Hb H].

Lemma restoreDeclarants_nonempty handles members : restoreDeclarants handles = Ret members -> members <> ∅.
Proof.
  unfold restoreDeclarants. intros Hr. require_inv Hr. destruct handles as [|h handles]; [done|]. simpl in Hr. bind_inv Hr. unfold restoreDeclarant in Hr0. do 2 require_inv Hr0. injection Hr0 as <-.
  revert Hr. apply (foldM_inv _ (fun s => s <> ∅)); [set_solver|]. intros s h' s' _ _ E. unfold restoreDeclarant in E. do 2 require_inv E. injection E as <-. set_solver.
Qed.
Lemma restoreObjectDeclarations_tidy entries t : restoreObjectDeclarations entries = Ret t -> tidy t.
Proof.
  apply foldM_inv; [apply map_Forall_empty|]. intros t0 e t' _ Ht E. unfold restoreObjectDeclaration in E. do 2 require_inv E. bind_inv E. injection E as <-. apply map_Forall_insert_2; [by eapply restoreDeclarants_nonempty|done].
Qed.
Lemma restoreInteractionDeclarations_tidy entries t : restoreInteractionDeclarations entries = Ret t -> tidy t.
Proof.
  apply foldM_inv; [apply map_Forall_empty|]. intros t0 e t' _ Ht E. unfold restoreInteractionDeclaration in E. do 2 require_inv E. bind_inv E. injection E as <-. apply map_Forall_insert_2; [by eapply restoreDeclarants_nonempty|done].
Qed.

(** ** The history *)
Section History.
Context (fom : FOMHandle).
Implicit Types (st : federationState).
Definition entries_ok st : Prop := forall cls pub touched, objPubHistory st !! (cls, pub) = Some touched ->
  publishedAttributes st pub cls <> [] /\ historyConsistent fom cls (publishedAttributes st pub cls) touched = true.
(** The fields a restore of the history leaves alone. *)
Definition onlyHistory st st' : Prop := exists pubs history, st' = set_objPubHistory (set_objPubs st pubs) history /\ (tidy (objPubs st) -> tidy pubs).
Lemma onlyHistory_refl st : onlyHistory st st.
Proof. exists (objPubs st), (objPubHistory st). by destruct st. Qed.
Lemma onlyHistory_trans st st' st2 : onlyHistory st st' -> onlyHistory st' st2 -> onlyHistory st st2.
Proof. intros (p & h & -> & Hp) (p' & h' & -> & Hp'). exists p', h'. split; [done|]. intros Ht. by apply Hp', Hp. Qed.
Lemma onlyHistory_history st h : onlyHistory st (set_objPubHistory st h).
Proof. exists (objPubs st), h. by destruct st. Qed.
Lemma onlyHistory_pubs st h p : (tidy (objPubs st) -> tidy p) -> onlyHistory st (set_objPubs (set_objPubHistory st h) p).
Proof. intros Hp. by exists p, h. Qed.
Lemma restoreHistoryRecord_ok st e st' : entries_ok st -> restoreHistoryRecord fom st e = Ret st' -> entries_ok st' /\ onlyHistory st st' /\ objPubs st' = objPubs st.
Proof.
  intros He Hr. unfold restoreHistoryRecord in Hr. do 4 require_inv Hr. injection Hr as <-. split; [|split; [|done]].
  - intros cls pub touched. simpl. rewrite lookup_insert_Some. rewrite (published_same _ st pub cls) by done. intros [[[= <- <-] <-]|[_ E]]; [|by apply He]. split; [|done]. by apply negb_true_iff, bool_decide_eq_false in Hb1.
  - apply onlyHistory_history.
Qed.
Lemma restoreMissing_ok saved st key st' : entries_ok st -> (exists a, key.2 ∈ membersAt (objPubs st) (key.1, a)) -> restoreMissing fom saved st key = Ret st' ->
  entries_ok st' /\ onlyHistory st st' /\ (deletePrivilege fom key.1 <> 0 -> is_Some (objPubHistory st' !! key))
  /\ (forall k, is_Some (objPubHistory st !! k) -> is_Some (objPubHistory st' !! k))
  /\ (forall c p, (exists a, p ∈ membersAt (objPubs st) (c, a)) <-> exists a, p ∈ membersAt (objPubs st') (c, a)).
Proof.
  destruct key as [c p]. simpl. intros He (a0 & Ha0). unfold restoreMissing. simpl. destruct (Z.eqb_spec (deletePrivilege fom c) 0) as [Hp0|Hp0].
  { intros [= <-]. split; [done|]. split; [apply onlyHistory_refl|]. done. }
  case_bool_decide as Eh; [intros [= <-]; split; [done|]; split; [apply onlyHistory_refl|done]|]. destruct saved; [done|].
  set (privilege := deletePrivilege fom c) in *. set (explicit := declares (objPubs st) (c, privilege) p). intros [= <-].
  assert (Hnone : objPubHistory st !! (c, p) = None) by (destruct (objPubHistory st !! (c, p)) eqn:E; [destruct Eh; eauto|done]).
  destruct explicit eqn:Ee.
  - split; [|split; [|split; [intros _; simpl; rewrite lookup_insert_eq; eauto|split; [|done]]]].
    + intros c' p' touched. simpl. rewrite lookup_insert_Some, (published_same _ st) by done. intros [[[= <- <-] <-]|[_ E]]; [|by apply He].
      split; [apply published_nonempty; by exists a0|]. apply consistent_intro; auto.
    + apply onlyHistory_history.
    + intros k Hk. simpl. destruct (decide (k = (c, p))) as [->|Hn]; [rewrite lookup_insert_eq; eauto|by rewrite lookup_insert_ne].
  - assert (Hnot : p ∉ membersAt (objPubs st) (c, privilege)) by (rewrite <- declares_spec; fold explicit; by rewrite Ee).
    assert (Hgrow : forall st2 c' p', objPubs st2 = addMember (objPubs st) (c, privilege) p -> publishedAttributes st p' c' ⊆ publishedAttributes st2 p' c').
    { intros st2 c' p' E2 a. rewrite !published_in, E2, add_in. auto. }
    split; [|split; [|split; [intros _; simpl; rewrite lookup_insert_eq; eauto|split]]].
    + intros c' p' touched E. simpl in E. rewrite lookup_insert_Some in E. destruct E as [[[= <- <-] <-]|[_ E]].
      * split; [apply published_nonempty; exists a0; simpl; rewrite add_in; auto|]. apply consistent_intro; [done|]. right.
        assert (Hin : privilege ∈ publishedAttributes (set_objPubs (set_objPubHistory st (<[(c, p):=false]> (objPubHistory st))) (addMember (objPubs st) (c, privilege) p)) p c) by (rewrite published_in; simpl; rewrite add_in; auto).
        split; [|done]. apply (two_distinct _ a0 privilege); [rewrite published_in; simpl; rewrite add_in; auto|done|]. intros ->. done.
      * destruct (He c' p' touched E) as [Hne Hc]. split; [|eapply consistent_grows; [apply published_NoDup|by apply Hgrow|done]].
        rewrite published_nonempty in *. destruct Hne as (a & Ha). exists a. simpl. rewrite add_in. auto.
    + apply onlyHistory_pubs. intros Ht. by apply add_tidy.
    + intros k Hk. simpl. destruct (decide (k = (c, p))) as [->|Hn]; [rewrite lookup_insert_eq; eauto|by rewrite lookup_insert_ne].
    + intros c' p'. simpl. setoid_rewrite add_in. split; [intros (a & Ha); exists a; auto|]. intros (a & [[[= -> ->] ->]|Ha]); [by exists a0|by exists a].
Qed.
Lemma active_in st c p : (c, p) ∈ activePublications st <-> exists a, p ∈ membersAt (objPubs st) (c, a).
Proof.
  unfold activePublications. rewrite elem_of_list_to_set, list_elem_of_In, in_map_iff. setoid_rewrite <- list_elem_of_In. split.
  - intros ([[c' a] p'] & [= -> ->] & Hin%publications_in). by exists a.
  - intros (a & Ha%publications_in). by exists ((c, a), p).
Qed.
Lemma restorePublicationHistory_ok history st st' : objPubHistory st = ∅ -> restorePublicationHistory fom history st = Ret st' -> history_ok fom st' /\ onlyHistory st st'.
Proof.
  intros Eh Hr. unfold restorePublicationHistory in Hr. bind_inv Hr. rename r into st1.
  assert (H1 : entries_ok st1 /\ onlyHistory st st1 /\ objPubs st1 = objPubs st).
  { revert Hr0. apply (foldM_inv _ (fun st1 => entries_ok st1 /\ onlyHistory st st1 /\ objPubs st1 = objPubs st)).
    - split; [intros c p touched; by rewrite Eh, lookup_empty|]. split; [apply onlyHistory_refl|done].
    - intros b a b' _ (H1 & H2 & H3) E. destruct (restoreHistoryRecord_ok _ _ _ H1 E) as (? & ? & ->). split; [done|]. split; [by eapply onlyHistory_trans|done]. }
  destruct H1 as (He & Ho & _). unfold restoreMissingPublicationHistory in Hr.
  set (P := fun b => entries_ok b /\ onlyHistory st b /\ (forall c p, (exists a, p ∈ membersAt (objPubs st1) (c, a)) <-> exists a, p ∈ membersAt (objPubs b) (c, a))).
  assert (Hstep : forall b key b', key ∈ elements (activePublications st1) -> P b -> restoreMissing fom (bool_decide (is_Some history)) b key = Ret b' ->
     P b' /\ (deletePrivilege fom key.1 <> 0 -> is_Some (objPubHistory b' !! key)) /\ (forall k, is_Some (objPubHistory b !! k) -> is_Some (objPubHistory b' !! k))).
  { intros b key b' Hin (P1 & P2 & P3) E. apply elem_of_elements in Hin. destruct key as [c p]. apply active_in, P3 in Hin.
    destruct (restoreMissing_ok _ b (c, p) b' P1 Hin E) as (Q1 & Q2 & Q3 & Q4 & Q5). split; [|done]. split; [done|]. split; [by eapply onlyHistory_trans|]. intros c' p'. by rewrite P3, Q5. }
  assert (HP : P st1) by done.
  assert (Hall : P st').
  { revert Hr. apply foldM_inv; [done|]. intros b key b' Hin Hb E. by destruct (Hstep b key b' Hin Hb E). }
  pose proof (foldM_all _ P (fun key b => deletePrivilege fom key.1 <> 0 -> is_Some (objPubHistory b !! key)) _ _ _ HP
    (fun b key b' Hin Hb E => conj (proj1 (Hstep b key b' Hin Hb E)) (proj1 (proj2 (Hstep b key b' Hin Hb E))))
    (fun b key key' b' Hin Hb Hq E Hp => proj2 (proj2 (Hstep b key' b' Hin Hb E)) key (Hq Hp)) Hr) as Hkeys.
  destruct Hall as (P1 & P2 & P3). split; [|done]. constructor; [done|]. intros cls pub Hp Hne. apply published_nonempty, P3 in Hne. apply (Hkeys (cls, pub)); [|done]. apply elem_of_elements. by apply active_in.
Qed.
End History.

(** ** The whole state *)
Section Federation.
Context (fom : FOMHandle).
Lemma restoreObjectOption_wf st e st' : decl_wf fom st -> restoreObjectOption fom st e = Ret st' -> decl_wf fom st'.
Proof.
  intros [[] [] Hh] Hr. unfold restoreObjectOption in Hr. do 2 require_inv Hr. bind_inv Hr. injection Hr as <-. apply declares_spec in Hb. split; [constructor; simpl; auto with decl| |keep_history].
  constructor; simpl; try done. intros k h o. rewrite optionAt_set. case_decide as D; [destruct D; by subst|]. apply w_objOption.
Qed.
Lemma restoreInteractionOption_wf st e st' : decl_wf fom st -> restoreInteractionOption st e = Ret st' -> decl_wf fom st'.
Proof.
  intros [[] [] Hh] Hr. unfold restoreInteractionOption in Hr. do 2 require_inv Hr. injection Hr as <-. apply declares_spec in Hb. split; [constructor; simpl; auto with decl| |keep_history].
  constructor; simpl; try done. intros k h o. rewrite optionAt_set. case_decide as D; [destruct D; by subst|]. apply w_intOption.
Qed.
Lemma restoreAdvisorySwitch_wf st e st' : decl_wf fom st -> restoreAdvisorySwitch st e = Ret st' -> decl_wf fom st'.
Proof.
  intros [[] [] Hh] Hr. unfold restoreAdvisorySwitch in Hr. do 2 require_inv Hr. injection Hr as <-. apply andb_true_iff in Hb as [_ Hk]. split; [constructor; simpl; auto with decl| |keep_history].
  constructor; simpl; try done. intros h kind o. rewrite optionAt_set. case_decide as D; [destruct D; by subst|]. apply w_switch.
Qed.
Lemma restoreOptions_wf s st st' : decl_wf fom st -> restoreOptions fom s st = Ret st' -> decl_wf fom st'.
Proof.
  intros Hw Hr. unfold restoreOptions in Hr. cbv zeta in Hr.
  assert (Hd : decl_wf fom (match AdvisoryDefaults s with Some d => set_defaults st d | None => st end)) by (destruct (AdvisoryDefaults s); [by apply wf_defaults|done]).
  bind_inv Hr. bind_inv Hr. revert Hr. apply foldM_inv; [|intros b e b' _; apply restoreAdvisorySwitch_wf].
  revert Hr1. apply foldM_inv; [|intros b e b' _; apply restoreInteractionOption_wf].
  revert Hr0. apply foldM_inv; [done|intros b e b' _; apply restoreObjectOption_wf].
Qed.
Lemma restoreUpdateRates_wf s st st' : decl_wf fom st -> restoreUpdateRates fom s st = Ret st' -> decl_wf fom st'.
Proof.
  intros Hw Hr. unfold restoreUpdateRates in Hr. bind_inv Hr. unfold restoreRateDemands in Hr. bind_inv Hr. cbv zeta in Hr. revert Hr. apply foldM_inv.
  - apply wf_regionalRates. revert Hr0. apply foldM_inv; [done|]. intros b e b' _ Hb E. unfold restoreRateObject in E. do 2 require_inv E. bind_inv E. injection E as <-. by apply wf_rateObjects.
  - intros b e b' _ Hb E. unfold restorePending in E. do 3 require_inv E. injection E as <-. by apply wf_pendingAdvice.
Qed.
Lemma restoreFederation_wf a s st : restoreFederation a fom s = Ret st -> decl_wf fom st.
Proof.
  intros Hr. unfold restoreFederation in Hr. cbv zeta in Hr. bind_inv Hr. bind_inv Hr.
  destruct (restorePublicationHistory_ok fom _ _ _ (eq_refl : objPubHistory (set_objPubs (newFederationState a) r) = ∅) Hr1) as [Hh (pubs & history & -> & Hp)].
  do 5 bind_inv Hr. bind_inv Hr. revert Hr. apply restoreUpdateRates_wf. revert Hr7. apply restoreOptions_wf.
  apply restoreObjectDeclarations_tidy in Hr0, Hr2, Hr5. apply restoreInteractionDeclarations_tidy in Hr3, Hr4, Hr6.
  split; [| |keep_history].
  - constructor; simpl; try done; try apply map_Forall_empty. by apply Hp.
  - constructor; simpl; unfold optionAt; intros *; by rewrite ?lookup_empty.
Qed.
End Federation.
Lemma commit_restore_wf opts m f s fom commit m' : fom = fomOf opts f -> prepareRestore m f s fom = Ret commit -> all_wf opts m' -> all_wf opts (commit m').
Proof.
  intros -> Hr Hm. unfold prepareRestore in Hr. cbv zeta in Hr. bind_inv Hr. injection Hr as <-. destruct (emptyRestoredState _ _); [by apply forget_all_wf|].
  apply publish_all_wf; [done|]. apply wf_address. by eapply restoreFederation_wf.
Qed.
Lemma ImportState_wf opts m f s m' : ImportState opts m f s = Ret m' -> all_wf opts m -> all_wf opts m'.
Proof.
  intros Hr Hm. unfold ImportState, PrepareRestore in Hr. bind_inv Hr. injection Hr as <-. bind_inv Hr0. eapply commit_restore_wf; [by apply modelFor_fom|done..].
Qed.

(** * Declaration management: histories of services

    A request is a call of a service that may change the manager; [perform]
    serves it.  The invariant holds after every history of requests, and every
    request leaves a state under a new address or its publications as they
    were, which is what the comparison of an unpublication relies on. *)
Inductive request :=
| QPublish (f : FederationName) (pub : FederateHandle) (cls : ObjectClassHandle) (attrs : list AttributeHandle)
| QUnpublish (f : FederationName) (pub : FederateHandle) (cls : ObjectClassHandle) (candidates : list AttributeHandle) (ownership : option OwnershipPlan)
| QPublishInteraction (f : FederationName) (pub : FederateHandle) (cls : InteractionClassHandle)
| QUnpublishInteraction (f : FederationName) (pub : FederateHandle) (cls : InteractionClassHandle)
| QSubscribe (f : FederationName) (sub : FederateHandle) (cls : ObjectClassHandle) (attrs : list AttributeHandle) (options : SubscriptionOptions)
| QUnsubscribe (f : FederationName) (cancelled : bool) (sub : FederateHandle) (cls : ObjectClassHandle) (attrs : list AttributeHandle) (whole : bool)
| QSubscribeInteraction (f : FederationName) (sub : FederateHandle) (cls : InteractionClassHandle) (active : bool)
| QUnsubscribeInteraction (f : FederationName) (sub : FederateHandle) (cls : InteractionClassHandle)
| QSetSwitch (f : FederationName) (h : FederateHandle) (kind : Z) (enabled : bool)
| QRetry (f : FederationName)
| QRegionalObjects (f : FederationName) (sub : FederateHandle) (cls : ObjectClassHandle) (attrs : list AttributeHandle)
| QRegionalInteraction (f : FederationName) (sub : FederateHandle) (cls : InteractionClassHandle) (active : bool)
| QSyncOwners (f : FederationName) (obj : ObjectHandle) (cls : ObjectClassHandle) (owners : gmap AttributeHandle FederateHandle)
| QRemoveObject (f : FederationName) (obj : ObjectHandle)
| QSetRates (f : FederationName) (rates : list RegionalUpdateRateSubscription)
| QInterestAndRates (f : FederationName) (sub : FederateHandle) (cls : ObjectClassHandle) (attrs : list AttributeHandle) (rates : list RegionalUpdateRateSubscription)
| QSyncRates (f : FederationName) (rates : list RegionalUpdateRateSubscription)
| QSyncObject (f : FederationName) (obj : ObjectHandle) (cls : ObjectClassHandle) (owners : gmap AttributeHandle FederateHandle) (rates : list RegionalUpdateRateSubscription)
| QResign (f : FederationName) (h : FederateHandle)
| QDestroy (f : FederationName)
| QObjectSnapshot (f : FederationName) (cls : ObjectClassHandle) (attrs : list AttributeHandle)
| QInteractionSnapshot (f : FederationName) (cls : InteractionClassHandle)
| QRestore (f : FederationName) (s : option ManagerState).

Section Histories.
Context (opts : Options).
Implicit Types (m : Manager) (q : request).
Definition perform q m : reply () :=
  match q with
  | QPublish f pub cls attrs => PublishObjectClassAttributes opts m f pub cls attrs
  | QUnpublish f pub cls candidates ownership => commitNow opts m f pub cls candidates ownership
  | QPublishInteraction f pub cls => PublishInteractionClass opts m f pub cls
  | QUnpublishInteraction f pub cls => UnpublishInteractionClass m f pub cls
  | QSubscribe f sub cls attrs options => SubscribeObjectClassAttributesWithOptions opts m f sub cls attrs options
  | QUnsubscribe f cancelled sub cls attrs whole => unsubscribeObject opts cancelled m f sub cls attrs whole
  | QSubscribeInteraction f sub cls active => SubscribeInteractionClassWithOptions opts m f sub cls active
  | QUnsubscribeInteraction f sub cls => UnsubscribeInteractionClass opts m f sub cls
  | QSetSwitch f h kind enabled => SetAdvisorySwitch opts m f h kind enabled
  | QRetry f => RetryAdvisories opts m f
  | QRegionalObjects f sub cls attrs => SetRegionalObjectSubscriptionInterest opts m f sub cls attrs
  | QRegionalInteraction f sub cls active => SetRegionalInteractionSubscriptionInterest opts m f sub cls active
  | QSyncOwners f obj cls owners => SyncObjectUpdateRateOwners opts m f obj cls owners
  | QRemoveObject f obj => RemoveObjectUpdateRate opts m f obj
  | QSetRates f rates => SetRegionalUpdateRateSubscriptions opts m f rates
  | QInterestAndRates f sub cls attrs rates => SetRegionalObjectInterestAndUpdateRates opts m f sub cls attrs rates
  | QSyncRates f rates => SyncRegionalUpdateRateSubscriptions opts m f rates
  | QSyncObject f obj cls owners rates => SyncObjectUpdateRateState opts m f obj cls owners rates
  | QResign f h => let '(m, es) := OnFederateResign opts m f h in Reply m es (Ret ())
  | QDestroy f => Reply (OnFederationDestroyed m f) [] (Ret ())
  | QObjectSnapshot f cls attrs => Reply (ObjectSubscribersSnapshot m f cls attrs).1 [] (Ret ())
  | QInteractionSnapshot f cls => Reply (InteractionSubscribersSnapshot m f cls).1 [] (Ret ())
  | QRestore f s => match ImportState opts m f s with Ret m' => Reply m' [] (Ret ()) | Fail e => Reply m [] (Fail e) | Panic s => Reply m [] (Panic s) end
  end.
Definition run (qs : list request) m : Manager := fold_left (fun m q => after (perform q m)) qs m.

(** ** The invariant *)
Lemma snapshot_wf m f cls attrs : all_wf opts m -> all_wf opts (ObjectSubscribersSnapshot m f cls attrs).1.
Proof.
  intros Hm. unfold ObjectSubscribersSnapshot. destruct attrs as [|a [|]]; try done. destruct (fed m !! f) as [st|] eqn:E; [|done]. destruct (objSubSnapshots st !! _) eqn:Es; [done|]. simpl.
  apply publish_all_wf; [done|]. pose proof (Hm f st E) as Hw. apply wf_objSnapshots; [|done]. intros k snapshot. rewrite lookup_insert_Some. intros [[<- <-]|[_ Ek]]; [done|]. by apply (w_objSnapshot _ (w_subscriptions _ _ Hw)).
Qed.
Lemma interactionSnapshot_wf m f cls : all_wf opts m -> all_wf opts (InteractionSubscribersSnapshot m f cls).1.
Proof.
  intros Hm. unfold InteractionSubscribersSnapshot. destruct (fed m !! f) as [st|] eqn:E; [|done]. destruct (intSubSnapshots st !! _) eqn:Es; [done|]. simpl.
  apply publish_all_wf; [done|]. pose proof (Hm f st E) as Hw. apply wf_intSnapshots; [|done]. intros k snapshot. rewrite lookup_insert_Some. intros [[<- <-]|[_ Ek]]; [done|]. by apply (w_intSnapshot _ (w_subscriptions _ _ Hw)).
Qed.
Lemma perform_wf q m : all_wf opts m -> all_wf opts (after (perform q m)).
Proof.
  intros Hm. destruct q; simpl.
  - unfold PublishObjectClassAttributes. destruct (modelFor opts f) as [fom|e|s] eqn:E; [|done|done]. simpl. apply checked_change_wf; [done|]. apply modelFor_fom in E as ->. intros st st' a Hw [= E]. pose proof (publishAttributes_wf (fomOf opts f) pub cls (sortCompact attrs) st Hw) as Hp. by rewrite E in Hp.
  - by apply commitNow_wf.
  - apply change_wf; [done|]. intros st Hw. apply wf_intPubs; [|done]. apply add_tidy, w_intPubs, (w_tables _ _ Hw).
  - unfold UnpublishInteractionClass. destruct (fed m !! f) as [st|] eqn:E; [|done]. simpl. pose proof (Hm f st E) as Hw. apply publish_all_wf; [done|]. apply wf_intPubs; [|done]. apply remove_tidy, w_intPubs, (w_tables _ _ Hw).
  - apply guarded_wf; [done|]. simpl. apply change_wf; [done|]. intros st Hw. apply fold_change_wf; [|done]. intros. by apply subscribeAttribute_wf.
  - unfold unsubscribeObject. destruct cancelled; [done|]. apply guarded_wf; [done|]. destruct (_ && _); [done|]. apply change_wf; [done|]. intros st Hw. apply fold_change_wf; [|done]. intros. by apply unsubscribeAttribute_wf.
  - apply guarded_wf; [done|]. apply change_wf; [done|]. intros. by apply subscribeInteraction_wf.
  - apply change_wf; [done|]. intros. by apply unsubscribeInteraction_wf.
  - unfold SetAdvisorySwitch. destruct (validKind kind) eqn:Ek; simpl; [|done]. apply checked_change_wf; [done|]. intros st st' a Hw E. by eapply setSwitch_wf.
  - by apply change_wf.
  - apply change_wf; [done|]. intros. by apply setRegionalObjectInterest_wf.
  - apply change_wf; [done|]. intros. by apply setRegionalInteractionInterest_wf.
  - unfold SyncObjectUpdateRateOwners. destruct (_ || _); [done|]. case_bool_decide; [done|]. apply change_wf; [done|]. intros. by apply wf_rateObjects.
  - apply change_wf; [done|]. intros. by apply wf_regionalRates, wf_rateObjects.
  - apply guarded_wf; [done|]. apply change_wf; [done|]. intros. by apply wf_regionalRates.
  - apply guarded_wf; [done|]. apply change_wf; [done|]. intros. by apply wf_regionalRates, setRegionalObjectInterest_wf.
  - apply change_wf; [done|]. intros. by apply wf_regionalRates.
  - apply change_wf; [done|]. intros. by apply wf_regionalRates, wf_rateObjects.
  - apply change_wf; [done|]. intros. by apply removeFederate_wf.
  - by apply forget_all_wf.
  - by apply snapshot_wf.
  - by apply interactionSnapshot_wf.
  - destruct (ImportState opts m f s) as [m'|e|msg] eqn:E; [|done|done]. by eapply ImportState_wf.
Qed.
Lemma run_wf qs m : all_wf opts m -> all_wf opts (run qs m).
Proof. intros Hm. apply (fold_left_inv (all_wf opts)); [done|]. intros. by apply perform_wf. Qed.
End Histories.
