(* ===== verification/DeclAtomic.v ===== *)
(** * Declaration management: unpublication among other services

    An unpublication reads, prepares outside the lock, and compares addresses
    before it commits.  As every service publishes under a new address what it
    alters of the publications, the commit acts on the publications as they
    are then: an unpublication is one step, wherever other services come in
    between.  It returns once they leave the federation alone. *)
From stdpp Require Import gmap.
From S2P Require Import Prelude GoFloat Decl DeclChange DeclService DeclUnpublish DeclSnapshot DeclTables DeclInvariant DeclPreserve DeclRestore.
Open Scope Z_scope.

(** ** Addresses *)
Definition samePublications (st st' : federationState) : Prop := address st = address st' /\ objPubs st = objPubs st' /\ objPubHistory st = objPubHistory st'.
Definition evolves (m m' : Manager) : Prop := nextAddress m <= nextAddress m' /\ forall f st', fed m' !! f = Some st' ->
  nextAddress m <= address st' < nextAddress m' \/ exists st, fed m !! f = Some st /\ samePublications st st'.
Definition fresh (m : Manager) : Prop := forall f st, fed m !! f = Some st -> address st < nextAddress m.

Lemma evolves_refl m : evolves m m.
Proof. split; [done|]. intros f st E. right. by exists st. Qed.
Lemma evolves_trans m m1 m2 : evolves m m1 -> evolves m1 m2 -> evolves m m2.
Proof.
  intros [Hn1 H1] [Hn2 H2]. split; [lia|]. intros f st2 E2. destruct (H2 f st2 E2) as [Hf|(st1 & E1 & Ha & Hp & Hh)]; [left; lia|].
  destruct (H1 f st1 E1) as [Hf|(st & E & Ha' & Hp' & Hh')]; [left; lia|]. right. exists st. split; [done|]. unfold samePublications. split; [lia|]. split; congruence.
Qed.
Lemma evolves_fresh m m' : fresh m -> evolves m m' -> fresh m'.
Proof. intros Hf [Hn He] f st E. destruct (He f st E) as [|(st0 & E0 & Ha & _)]; [lia|]. specialize (Hf f st0 E0). lia. Qed.
(** Equal addresses before and after: nothing published changed. *)
Lemma evolves_same m m' f : fresh m -> evolves m m' -> address <$> fed m' !! f = address <$> fed m !! f ->
  match fed m !! f, fed m' !! f with Some st, Some st' => samePublications st st' | None, None => True | _, _ => False end.
Proof.
  intros Hf [Hn He] Ea. destruct (fed m !! f) as [st|] eqn:E, (fed m' !! f) as [st'|] eqn:E'; try done. injection Ea as Ea.
  destruct (He f st' E') as [H|(st0 & E0 & Hs)]; [specialize (Hf f st E); lia|]. rewrite E in E0. by injection E0 as <-.
Qed.

Section Evolution.
Context (opts : Options).
Lemma publish_evolves m f st : address st = nextAddress m -> evolves m (publish (allocate m) f st).
Proof. intros Ha. split; [simpl; lia|]. intros f' st'. simpl. rewrite lookup_insert_Some. intros [[<- <-]|[_ E]]; [left; lia|]. right. by exists st'. Qed.
Lemma allocate_evolves m : evolves m (allocate m).
Proof. split; [simpl; lia|]. intros f st E. right. by exists st. Qed.
Lemma inPlace_evolves m f st st' : fed m !! f = Some st -> samePublications st st' -> evolves m (publish m f st').
Proof. intros E Hs. split; [done|]. intros f' st2. simpl. rewrite lookup_insert_Some. intros [[<- <-]|[_ E2]]; right; [by exists st|by exists st2]. Qed.
Lemma clone_address m f fom : address (cloneFederationState m f fom) = nextAddress m.
Proof. unfold cloneFederationState. by destruct (fed m !! f). Qed.
Lemma forget_evolves m f : evolves m (forget m f).
Proof. split; [done|]. intros f' st'. simpl. rewrite lookup_delete_Some. intros [_ E]. right. by exists st'. Qed.
Lemma changeWith_evolves {A} m f fom (mutate : federationState -> outcome decl_error (federationState * A)) mandatory : (forall st st' a, mutate st = Ret (st', a) -> address st' = address st) ->
  evolves m (after (changeWith opts m f fom mutate mandatory)).
Proof.
  intros Ha. pose proof (changeWith_case opts m f fom mutate mandatory) as Hc. unfold changeCase in Hc. cbv zeta in Hc.
  destruct (mutate _) as [[st a]|e|s] eqn:E; [|rewrite Hc; apply allocate_evolves..]. apply Ha in E. rewrite clone_address in E.
  destruct (advisoryOutbox opts); [|rewrite Hc; by apply publish_evolves].
  destruct Hc as [(_ & -> & _)|(_ & _ & ->)]; [by apply publish_evolves|]. destruct mandatory; [by apply publish_evolves|apply allocate_evolves].
Qed.
Lemma checked_evolves {A} m f (mutate : federationState -> outcome decl_error (federationState * A)) mandatory : (forall st st' a, mutate st = Ret (st', a) -> address st' = address st) ->
  evolves m (after (changeChecked opts m f mutate mandatory)).
Proof. intros Ha. unfold changeChecked. destruct (model opts f) as [fom [e|]]; [destruct mandatory; [|apply evolves_refl]|]; by apply changeWith_evolves. Qed.
Lemma mode_evolves m f mutate mandatory : (forall st, address (mutate st) = address st) -> evolves m (after (changeMode opts m f mutate mandatory)).
Proof. intros Ha. apply checked_evolves. intros st st' a [= <- _]. apply Ha. Qed.
Lemma guarded_evolves m guard r : evolves m (after r) -> evolves m (after (guarded m guard r)).
Proof. intros Hr. unfold guarded. destruct guard; [done|apply evolves_refl..]. Qed.
Lemma fold_address {B} (step : federationState -> B -> federationState) l st : (forall st b, address (step st b) = address st) -> address (fold_left step l st) = address st.
Proof. intros Hs. apply (fold_left_inv (fun s => address s = address st)); [done|]. intros. by rewrite Hs. Qed.
Lemma unsubscribeAttribute_address sub cls st attr : address (unsubscribeAttribute sub cls st attr) = address st.
Proof. unfold unsubscribeAttribute. by destruct (negb _). Qed.
Lemma unpublishAttributes_address pub cls candidates selected privilege st : address (unpublishAttributes pub cls candidates selected privilege st) = address st.
Proof. unfold unpublishAttributes. cbv zeta. case_bool_decide; [done|]. by destruct (_ && _). Qed.
Lemma commit_evolves m f pub cls fom candidates selected privilege ownership : evolves m (after (commitUnpublicationLocked opts m f pub cls fom candidates selected privilege ownership)).
Proof.
  pose proof (commitUnpublication_cases opts m f pub cls fom candidates selected privilege ownership) as Hc. cbv zeta in Hc.
  destruct Hc as [(_ & -> & _)|(_ & -> & _)]; [|apply allocate_evolves]. apply publish_evolves. simpl. by rewrite unpublishAttributes_address, clone_address.
Qed.
Lemma perform_evolves q m : evolves m (after (perform opts q m)).
Proof.
  destruct q; simpl; try (by apply mode_evolves).
  - unfold PublishObjectClassAttributes. destruct (modelFor opts f) as [fom|e|s]; [|apply evolves_refl..]. simpl. apply checked_evolves. intros st st' a [= E].
    destruct (publish_eq (deletePrivilege fom cls) pub cls (sortCompact attrs) st) as (pubs & Ep & _). rewrite E in Ep. simpl in Ep. by rewrite Ep.
  - apply commit_evolves.
  - unfold UnpublishInteractionClass. destruct (fed m !! f) as [st|] eqn:E; [|apply evolves_refl]. by eapply inPlace_evolves.
  - apply guarded_evolves. simpl. apply mode_evolves. intros st. by apply fold_address.
  - unfold unsubscribeObject. destruct cancelled; [apply evolves_refl|]. apply guarded_evolves. destruct (_ && _); [apply evolves_refl|]. apply mode_evolves. intros st. apply fold_address. intros. apply unsubscribeAttribute_address.
  - apply guarded_evolves. by apply mode_evolves.
  - unfold SetAdvisorySwitch. destruct (negb _); [apply evolves_refl|]. apply checked_evolves. intros st st' a. unfold setSwitch. destruct (eqb _ _); [done|]. by intros [= <- _].
  - unfold SyncObjectUpdateRateOwners. destruct (_ || _); [apply evolves_refl|]. case_bool_decide; [apply evolves_refl|]. by apply mode_evolves.
  - apply guarded_evolves. by apply mode_evolves.
  - apply guarded_evolves. by apply mode_evolves.
  - apply forget_evolves.
  - unfold ObjectSubscribersSnapshot. destruct attrs as [|a [|]]; try apply evolves_refl. destruct (fed m !! f) as [st|] eqn:E; [|apply evolves_refl]. destruct (objSubSnapshots st !! _); [apply evolves_refl|]. by eapply inPlace_evolves.
  - unfold InteractionSubscribersSnapshot. destruct (fed m !! f) as [st|] eqn:E; [|apply evolves_refl]. destruct (intSubSnapshots st !! _); [apply evolves_refl|]. by eapply inPlace_evolves.
  - destruct (ImportState opts m f s) as [m'|e|msg] eqn:E; [|apply evolves_refl..]. unfold ImportState, PrepareRestore, prepareRestore in E. bind_inv E. injection E as <-. bind_inv Hr. cbv zeta in Hr. bind_inv Hr. injection Hr as <-.
    destruct (emptyRestoredState _ _); [apply forget_evolves|]. by apply publish_evolves.
Qed.
Lemma run_evolves qs m : evolves m (run opts qs m).
Proof. revert m. induction qs as [|q qs IH]; intros m; [apply evolves_refl|]. eapply evolves_trans; [apply perform_evolves|apply IH]. Qed.
End Evolution.

(** ** One step *)
Section Atomic.
Context (opts : Options) (f : FederationName) (pub : FederateHandle) (cls : ObjectClassHandle).
Abbreviation fom := (fomOf opts f).
Abbreviation privilege := (deletePrivilege fom cls).
Implicit Types (m : Manager).

(** Refused: the manager is left as it was found. *)
Definition refused m (r : reply ()) : Prop := after r = m /\ CommitsOwnership ∉ effects r /\ result r <> Ret ().
(** Committed: the whole unpublication is the commit, at [m]. *)
Definition committed m candidates (r : reply ()) : Prop := exists plan ownership, let c := commitNow opts m f pub cls candidates ownership in
  after r = after c /\ result r = match result c with Ret _ => (dispatchUnpublication plan ownership).2 | e => e end
  /\ (result c = Ret () -> is_Some ownership -> CommitsOwnership ∈ effects r) /\ (result c <> Ret () -> CommitsOwnership ∉ effects r).
Definition settles (whole : bool) candidates m (r : reply ()) : Prop := refused m r \/
  exists candidates', (if whole then candidates ⊆ candidates' /\ publishedOf (fed m !! f) pub cls ⊆ candidates' else candidates' = candidates) /\ committed m candidates' r.

Lemma select_nil candidates p touched : selectUnpublicationAttributes [] candidates p touched = [].
Proof. unfold selectUnpublicationAttributes. cbv zeta. simpl. by rewrite andb_false_r. Qed.
Lemma no_commit_release (plan : option ObjectPlan) : CommitsOwnership ∉ releaseObjects plan.
Proof. destruct plan; simpl; [|set_solver]. by intros ?%list_elem_of_singleton. Qed.
Lemma no_commit_ownership (plan : option OwnershipPlan) : CommitsOwnership ∉ releaseOwnership plan.
Proof. destruct plan; simpl; [|set_solver]. by intros ?%list_elem_of_singleton. Qed.
Lemma commit_effects outbox m candidate ds mandatory : CommitsOwnership ∉ effects (commitDeclarationChange outbox m f candidate ds mandatory).
Proof.
  unfold commitDeclarationChange. cbv zeta. destruct ds as [|d ds]; simpl; [by intros ?%elem_of_nil|]. destruct (Reserve outbox) as [reserve|].
  - destruct (reserve f (d :: ds)) as [e| |e]; simpl; try (by intros ?%elem_of_nil). rewrite !elem_of_cons, elem_of_nil. by intros [|[|]].
  - destruct (negb _); simpl; [by intros ?%elem_of_nil|]. by intros ?%list_elem_of_singleton.
Qed.
Lemma commitLocked_effects m candidates selected p ownership : let c := commitUnpublicationLocked opts m f pub cls fom candidates selected p ownership in
  CommitsOwnership ∈ effects c <-> result c = Ret () /\ is_Some ownership.
Proof.
  cbv zeta. unfold commitUnpublicationLocked. cbv zeta. set (st := unpublishAttributes _ _ _ _ _ _).
  assert (Ho : CommitsOwnership ∈ (match ownership with Some _ => [CommitsOwnership] | None => [] end : list effect) <-> is_Some ownership) by (destruct ownership; rewrite ?list_elem_of_singleton, ?elem_of_nil, ?is_Some_alt; naive_solver).
  destruct (advisoryOutbox opts) as [outbox|]; [|simpl; rewrite Ho; naive_solver]. destruct (pendingDeliveries _ _) as [st' ds].
  pose proof (commit_effects outbox (allocate m) st' ds false) as Hn. destruct (result (commitDeclarationChange _ _ _ _ _ _)) as [[]|e|s] eqn:E; simpl; [rewrite elem_of_app, Ho; naive_solver|rewrite E; naive_solver..].
Qed.
Lemma prepare_effects i selected plan : CommitsOwnership ∉ (prepareOwnershipUnpublication opts i f pub selected plan).1.
Proof.
  unfold prepareOwnershipUnpublication. destruct plan as [objects|]; [|by intros ?%elem_of_nil]. destruct (unpublicationOwnership opts) as [prepare|]; [|by intros ?%elem_of_nil].
  destruct (prepare _ _ _ _) as [[ownership|]|e|s]; try (by intros ?%elem_of_nil). destruct (PrepareCallbackProjections ownership) as [project|]; [|by intros ?%elem_of_nil].
  destruct (project _); [by intros ?%list_elem_of_singleton|by intros ?%elem_of_nil].
Qed.
Lemma expand_cases i candidates expected plan : match expandUnpublication opts i f pub cls candidates expected plan with
  | Expanded candidates' _ | RetryWith candidates' _ => candidates ⊆ candidates' /\ expected ⊆ candidates'
  | _ => True
  end.
Proof.
  unfold expandUnpublication. cbv zeta. set (added := List.filter _ expected).
  assert (Hadd : forall a, a ∈ added <-> a ∈ expected /\ a ∉ candidates) by (intros a; unfold added; by rewrite filter_elem, negb_true_iff, bool_decide_eq_false).
  case_bool_decide as En; [split; [done|]; intros a Ha; destruct (decide (a ∈ candidates)); [done|]; exfalso; rewrite En in Hadd; by apply (elem_of_nil a), Hadd|].
  assert (Hc : candidates ⊆ sortCompact (candidates ++ added) /\ expected ⊆ sortCompact (candidates ++ added)).
  { split; intros a Ha; rewrite sortCompact_in, elem_of_app, Hadd; destruct (decide (a ∈ candidates)); tauto. }
  destruct plan; [|done]. by destruct (prepareObjects _ _ _ _ _ _).
Qed.
(** An attempt commits on what is published when it commits. *)
Lemma attempt_cases i others m candidates whole plan : fresh m -> evolves m (others m) ->
  match attemptUnpublication opts i others m f pub cls candidates whole fom privilege plan with
  | Ends r => settles whole candidates (others m) r
  | Again m' es candidates' _ => m' = others m /\ CommitsOwnership ∉ es /\ (if whole then candidates ⊆ candidates' else candidates' = candidates)
  end.
Proof.
  intros Hf He. unfold attemptUnpublication. cbv zeta. set (expected := publishedOf (fed m !! f) pub cls).
  assert (Hrel : CommitsOwnership ∉ [ReleasesObjects]) by (by intros ?%list_elem_of_singleton).
  assert (Hexp : match (if whole then expandUnpublication opts i f pub cls candidates expected plan else Expanded candidates plan) with
    | Expanded candidates' _ | RetryWith candidates' _ => if whole then candidates ⊆ candidates' /\ expected ⊆ candidates' else candidates' = candidates | _ => True end).
  { destruct whole; [apply expand_cases|done]. }
  destruct (if whole then _ else _) as [candidates' plan'|candidates' plan'|e|msg]; [|split; [done|]; split; [done|]; by destruct whole; [destruct Hexp|]|left; by split|left; by split].
  set (touched := match fed m !! f with Some st => _ | None => false end). set (selected := selectUnpublicationAttributes _ _ _ _).
  pose proof (prepare_effects i selected plan') as Hpe. destruct (prepareOwnershipUnpublication _ _ _ _ _ _) as [es [ownership|e|msg]]; simpl in Hpe.
  2,3: left; split; [done|]; split; [simpl; rewrite elem_of_app; intros [?|?%no_commit_release]; done|done].
  case_bool_decide as Ea; simpl; [|split; [done|]; split; [rewrite elem_of_app; intros [?|?%no_commit_ownership]; done|by destruct whole; [destruct Hexp|]]].
  case_bool_decide as Ep; simpl; [|split; [done|]; split; [rewrite elem_of_app; intros [?|?%no_commit_ownership]; done|by destruct whole; [destruct Hexp|]]].
  pose proof (evolves_same m (others m) f Hf He Ea) as Hsame.
  assert (Hnow : commitUnpublicationLocked opts (others m) f pub cls fom candidates' selected privilege ownership = commitNow opts (others m) f pub cls candidates' ownership).
  { unfold commitNow. cbv zeta. f_equal. unfold selected, selectedNow, expected, touched, publishedOf.
    destruct (fed m !! f) as [st|], (fed (others m) !! f) as [st'|]; try done; [|apply select_nil]. destruct Hsame as (_ & Hp & Hh). by rewrite Hh, (published_same st st'). }
  rewrite Hnow. set (c := commitNow opts (others m) f pub cls candidates' ownership).
  assert (Hce : CommitsOwnership ∈ effects c <-> result c = Ret () /\ is_Some ownership) by apply commitLocked_effects.
  assert (Hset : forall r, after r = after c -> result r = match result c with Ret _ => (dispatchUnpublication plan' ownership).2 | e => e end ->
    (result c = Ret () -> is_Some ownership -> CommitsOwnership ∈ effects r) -> (result c <> Ret () -> CommitsOwnership ∉ effects r) -> settles whole candidates (others m) r).
  { intros r H1 H2 H3 H4. right. exists candidates'. split; [|by exists plan', ownership]. destruct whole; [|done]. rewrite Ep. done. }
  destruct (result c) as [[]|e|msg] eqn:Er.
  - apply Hset; try done. intros _ Ho. simpl. rewrite !elem_of_app. right. left. by apply Hce.
  - apply Hset; try done. intros _. simpl. rewrite !elem_of_app, Hce. intros [?|[[??]|[?%no_commit_ownership|?%no_commit_release]]]; done.
  - apply Hset; try done. intros _. simpl. rewrite !elem_of_app, Hce. intros [?|[[??]|[?%no_commit_ownership|?%no_commit_release]]]; done.
Qed.

(** The loop, among histories of other services. *)
Lemma loop_settles fuel i cancelled (qs : nat -> list request) m candidates whole plan r : fresh m ->
  unpublishPrepared opts fuel i cancelled (fun i => run opts (qs i)) m f pub cls candidates whole fom privilege plan = Some r ->
  exists others candidates', (if whole then candidates ⊆ candidates' else candidates' = candidates) /\ settles whole candidates' (run opts others m) r.
Proof.
  revert i m candidates plan r. induction fuel as [|fuel IH]; intros i m candidates plan r Hf; simpl; [done|].
  destruct (cancelled i).
  { intros [= <-]. exists [], candidates. split; [by destruct whole|]. left. split; [done|]. split; [apply no_commit_release|done]. }
  pose proof (attempt_cases i (run opts (qs i)) m candidates whole plan Hf (run_evolves opts (qs i) m)) as Ha.
  destruct (attemptUnpublication _ _ _ _ _ _ _ _ _ _ _ _) as [r0|m1 es candidates1 plan1].
  - intros [= <-]. exists (qs i), candidates. by split; [destruct whole|].
  - destruct Ha as (-> & Hes & Hc). destruct (unpublishPrepared _ _ _ _ _ _ _ _ _ _ _ _ _ _) as [r1|] eqn:E; [|done]. intros [= <-].
    destruct (IH _ _ _ _ _ (evolves_fresh _ _ Hf (run_evolves opts (qs i) m)) E) as (others & candidates' & Hc' & Hs).
    exists (qs i ++ others), candidates'. split; [destruct whole; [by etrans|by subst]|]. unfold run. rewrite fold_left_app. fold (run opts (qs i) m). fold (run opts others (run opts (qs i) m)).
    destruct Hs as [(H1 & H2 & H3)|(c & Hcc & p & o & H1 & H2 & H3 & H4)]; [left; split; [done|]; split; [|done]; simpl; rewrite elem_of_app; tauto|right].
    exists c. split; [done|]. exists p, o. split; [done|]. split; [done|]. split; simpl; setoid_rewrite elem_of_app; [intros; right; by apply H3|intros Hr [?|?]; [done|by apply H4]].
Qed.

(** ** The loop ends *)
(** A quiet attempt ends, or widens its candidates once. *)
Lemma quiet_attempt i m candidates whole plan : (whole = true -> publishedOf (fed m !! f) pub cls ⊆ candidates) ->
  exists r, attemptUnpublication opts i (fun m => m) m f pub cls candidates whole fom privilege plan = Ends r.
Proof.
  intros Hw. unfold attemptUnpublication. cbv zeta. set (expected := publishedOf (fed m !! f) pub cls) in *.
  assert (Hx : (if whole then expandUnpublication opts i f pub cls candidates expected plan else Expanded candidates plan) = Expanded candidates plan).
  { destruct whole; [|done]. unfold expandUnpublication. cbv zeta. rewrite bool_decide_true; [done|]. apply elem_of_nil_inv. intros a. rewrite filter_elem, negb_true_iff, bool_decide_eq_false. intros [Ha Hn]. by apply Hn, (Hw eq_refl). }
  rewrite Hx. destruct (prepareOwnershipUnpublication _ _ _ _ _ _) as [es [ownership|e|msg]]; [|by eexists..].
  rewrite !bool_decide_true by done. simpl. destruct (result _); by eexists.
Qed.
Lemma quiet_again i m candidates whole plan m' es candidates' plan' : attemptUnpublication opts i (fun m => m) m f pub cls candidates whole fom privilege plan = Again m' es candidates' plan' ->
  m' = m /\ (whole = true -> publishedOf (fed m !! f) pub cls ⊆ candidates').
Proof.
  unfold attemptUnpublication. cbv zeta. set (expected := publishedOf (fed m !! f) pub cls). pose proof (expand_cases i candidates expected plan) as Hx.
  destruct (if whole then _ else _) as [c p|c p|e|msg] eqn:E; try done.
  - destruct (prepareOwnershipUnpublication _ _ _ _ _ _) as [es' [ownership|e|msg]]; try done. rewrite !bool_decide_true by done. simpl. by destruct (result _).
  - intros [= <- _ <- _]. split; [done|]. intros ->. rewrite E in Hx. apply Hx.
Qed.
Lemma loop_returns k i cancelled others m candidates whole plan : (forall j, (i + k <= j)%nat -> others j = fun m => m) ->
  is_Some (unpublishPrepared opts (k + 2) i cancelled others m f pub cls candidates whole fom privilege plan).
Proof.
  revert i m candidates plan. induction k as [|k IH]; intros i m candidates plan Hq.
  - simpl. destruct (cancelled i); [by eexists|]. rewrite Hq by lia. destruct (attemptUnpublication _ _ _ _ _ _ _ _ _ _ _ _) as [r|m1 es c p] eqn:E; [by eexists|].
    apply quiet_again in E as [-> Hw]. destruct (cancelled (S i)); [by eexists|]. rewrite Hq by lia. destruct (quiet_attempt (S i) m c whole p Hw) as [r ->]. by eexists.
  - simpl. destruct (cancelled i); [by eexists|]. destruct (attemptUnpublication _ _ _ _ _ _ _ _ _ _ _ _) as [r|m1 es c p]; [by eexists|].
    destruct (IH (S i) m1 c p) as [r Hr]; [intros j Hj; apply Hq; lia|]. rewrite Hr. by eexists.
Qed.
End Atomic.
