(* ===== verification/DeclRound.v ===== *)
(** * Declaration management: a saved state restores *)
From stdpp Require Import gmap.
From S2P Require Import Prelude GoFloat Decl DeclChange DeclService DeclUnpublish DeclSnapshot DeclTables DeclInvariant DeclPreserve DeclRestore.
Open Scope Z_scope.

(** ** Rebuilding a table record by record *)
Section Rebuild.
Context {M K V B R : Type} `{EqDecision K} (lk : M -> K -> option V) (ins : M -> K -> V -> M) (F : M -> B) (step : B -> R -> outcome decl_error B) (build : K -> V -> R) (t : M) (I : M -> Prop).
Hypothesis lk_ins : forall m k v k', lk (ins m k v) k' = if decide (k' = k) then Some v else lk m k'.
Hypothesis I_ins : forall m k v, I m -> I (ins m k v).
Hypothesis step_ok : forall m k v, I m -> lk m k = None -> lk t k = Some v -> step (F m) (build k v) = Ret (F (ins m k v)).
Lemma rebuild_fold keys m : I m -> NoDup keys -> (forall k, k ∈ keys -> lk m k = None) ->
  exists m', foldM step (omap (fun k => build k <$> lk t k) keys) (F m) = Ret (F m') /\ I m' /\ forall k, lk m' k = if decide (k ∈ keys) then lk t k else lk m k.
Proof.
  revert m. induction keys as [|k keys IH]; intros m Hm Hnd Hfree.
  { exists m. split; [done|]. split; [done|]. intros k. rewrite decide_False; [done|apply not_elem_of_nil]. }
  inversion Hnd as [|? ? Hn Hnd']; subst. cbn [omap list_omap foldM]. destruct (lk t k) as [v|] eqn:E; cbn [fmap option_fmap option_map foldM].
  - rewrite step_ok by (done || by apply Hfree; left). simpl. destruct (IH (ins m k v)) as (m' & -> & HI & Hl); [by apply I_ins|done| |].
    { intros k' Hk'. rewrite lk_ins, decide_False; [apply Hfree; by right|]. by intros ->. }
    exists m'. split; [done|]. split; [done|]. intros k'. rewrite Hl, lk_ins. destruct (decide (k' = k)) as [->|Hne].
    + rewrite decide_False by done. rewrite decide_True by (by left). done.
    + destruct (decide (k' ∈ keys)); [rewrite decide_True by (by right)|rewrite decide_False by (rewrite elem_of_cons; tauto)]; done.
  - destruct (IH m) as (m' & -> & HI & Hl); [done|done|intros k' Hk'; apply Hfree; by right|]. exists m'. split; [done|]. split; [done|]. intros k'. rewrite Hl. destruct (decide (k' = k)) as [->|Hne].
    + rewrite decide_False by done. rewrite decide_True by (by left). rewrite E. apply Hfree. by left.
    + destruct (decide (k' ∈ keys)); [rewrite decide_True by (by right)|rewrite decide_False by (rewrite elem_of_cons; tauto)]; done.
Qed.
End Rebuild.

Lemma pairsOf_in {A} (t : gmap (Z * Z) A) k : k ∈ pairsOf t <-> is_Some (t !! k).
Proof. unfold pairsOf. by rewrite merge_sort_Permutation, elem_of_elements, elem_of_dom. Qed.
Lemma pairsOf_NoDup {A} (t : gmap (Z * Z) A) : NoDup (pairsOf t).
Proof. unfold pairsOf. rewrite merge_sort_Permutation. apply NoDup_elements. Qed.
Lemma rowKeys_in {A} (t : gmap Z A) k : k ∈ keysOf t <-> is_Some (t !! k).
Proof. unfold keysOf. by rewrite sortHandles_in, elem_of_elements, elem_of_dom. Qed.
Lemma rowKeys_NoDup {A} (t : gmap Z A) : NoDup (keysOf t).
Proof. apply sortHandles_NoDup, NoDup_elements. Qed.
Lemma rebuild_map {K V B R} `{Countable K} (F : gmap K V -> B) (step : B -> R -> outcome decl_error B) (build : K -> V -> R) (t : gmap K V) keys :
  NoDup keys -> (forall k, k ∈ keys <-> is_Some (t !! k)) ->
  (forall m k v, m !! k = None -> t !! k = Some v -> step (F m) (build k v) = Ret (F (<[k := v]> m))) ->
  foldM step (listed build t keys) (F ∅) = Ret (F t).
Proof.
  intros Hnd Hk Hs. destruct (rebuild_fold (fun m k => m !! k) (fun m k v => <[k := v]> m) F step build t (fun _ => True)) with (keys := keys) (m := ∅ : gmap K V) as (m' & Hf & _ & Hl); try done.
  - intros m k v k'. case_decide; subst; [apply lookup_insert_eq|by apply lookup_insert_ne].
  - auto.
  - unfold listed. rewrite Hf. do 2 f_equal. apply map_eq. intros k. rewrite Hl, lookup_empty. case_decide as D; [done|]. rewrite Hk in D. destruct (t !! k); [destruct D; eauto|done].
Qed.
Lemma cells_in {K A} `{Countable K} (t : gmap K (gmap Z A)) k h : (k, h) ∈ cells t <-> is_Some (optionAt t k h).
Proof.
  unfold cells, optionAt. rewrite list_elem_of_In, in_flat_map. setoid_rewrite in_map_iff. setoid_rewrite <- list_elem_of_In. setoid_rewrite elem_of_map_to_list'. split.
  - intros ([k' row] & Hr & h' & [= -> ->] & Hh). simpl in *. rewrite Hr. simpl. by apply elem_of_elements, elem_of_dom in Hh.
  - destruct (t !! k) as [row|] eqn:E; simpl; [|by intros []]. intros Hh. exists (k, row). split; [done|]. exists h. split; [done|]. by apply elem_of_elements, elem_of_dom.
Qed.
Lemma cells_NoDup {K A} `{Countable K} (t : gmap K (gmap Z A)) : NoDup (cells t).
Proof.
  unfold cells. pose proof (NoDup_fst_map_to_list t) as Hnd. induction (map_to_list t) as [|[k row] l IH]; simpl in *; [constructor|]. apply NoDup_cons in Hnd as [Hn Hnd]. apply NoDup_app. split; [|split; [|by apply IH]].
  - apply NoDup_fmap_2; [by intros h h' [= ->]|apply NoDup_elements].
  - intros [k' h] Hin. apply list_elem_of_fmap in Hin as (h' & [= -> ->] & _). rewrite list_elem_of_In, in_flat_map. setoid_rewrite in_map_iff. intros ([k2 row2] & Hin & h2 & [= -> ->] & _). apply Hn, list_elem_of_fmap. exists (k, row2). by rewrite list_elem_of_In.
Qed.
Lemma rebuild_cells {K V B R} `{Countable K} (F : gmap K (gmap Z V) -> B) (step : B -> R -> outcome decl_error B) (build : K * Z -> V -> R) (t : gmap K (gmap Z V)) keys :
  tidyRows t -> NoDup keys -> (forall k, k ∈ keys <-> is_Some (optionAt t k.1 k.2)) ->
  (forall m k v, optionAt m k.1 k.2 = None -> optionAt t k.1 k.2 = Some v -> step (F m) (build k v) = Ret (F (setOption m k.1 k.2 v))) ->
  foldM step (omap (fun k => build k <$> optionAt t k.1 k.2) keys) (F ∅) = Ret (F t).
Proof.
  intros Ht Hnd Hk Hs. destruct (rebuild_fold (fun m k => optionAt m k.1 k.2) (fun m k v => setOption m k.1 k.2 v) F step build t tidyRows) with (keys := keys) (m := ∅ : gmap K (gmap Z V)) as (m' & Hf & Ht' & Hl); try done.
  - intros m [k h] v [k' h']. simpl. rewrite optionAt_set. apply decide_ext. naive_solver.
  - intros. by apply setOption_tidy.
  - auto.
  - rewrite Hf. do 2 f_equal. apply rows_ext; [done..|]. intros k h. specialize (Hl (k, h)). simpl in Hl. rewrite Hl. case_decide as D; [done|]. rewrite Hk in D. simpl in D. unfold optionAt at 1. rewrite lookup_empty. simpl. destruct (optionAt t k h); [destruct D; eauto|done].
Qed.

(** ** Tables *)
Lemma restoreDeclarants_list l s : NoDup l -> (forall h, h ∈ l -> h <> 0 /\ h ∉ s) -> foldM restoreDeclarant l s = Ret (list_to_set l ∪ s).
Proof.
  revert s. induction l as [|h l IH]; intros s Hnd Hl; simpl; [by rewrite (left_id_L ∅ (∪))|]. inversion Hnd as [|? ? Hn Hnd']; subst. destruct (Hl h (list_elem_of_here _ _)) as [H0 Hs].
  unfold restoreDeclarant. rewrite (proj2 (Z.eqb_neq _ _) H0), bool_decide_false by done. simpl. rewrite IH; [f_equal; set_solver|done|]. intros h' Hh'. destruct (Hl h') as [H1 H2]; [by right|]. split; [done|]. intros [->%elem_of_singleton|?]%elem_of_union; done.
Qed.
Lemma restoreDeclarants_sorted set : set <> ∅ -> (forall h, h ∈ set -> h <> 0) -> restoreDeclarants (sortedHandles set) = Ret set.
Proof.
  intros Hne H0. unfold restoreDeclarants. rewrite bool_decide_false; simpl.
  - rewrite restoreDeclarants_list; [f_equal; apply set_eq; intros h; rewrite elem_of_union, elem_of_list_to_set, sortedHandles_in; set_solver|apply sortHandles_NoDup, NoDup_elements|]. intros h Hh%sortedHandles_in. split; [by apply H0|set_solver].
  - intros E. apply Hne, set_eq. intros h. rewrite <- sortedHandles_in, E. set_solver.
Qed.
(** No handle of the table is zero. *)
Definition objectHandles (t : gmap objAttrKey (gset FederateHandle)) : Prop := forall k h, h ∈ membersAt t k -> k.1 <> 0 /\ k.2 <> 0 /\ h <> 0.
Definition interactionHandles (t : gmap InteractionClassHandle (gset FederateHandle)) : Prop := forall k h, h ∈ membersAt t k -> k <> 0 /\ h <> 0.
Lemma members_some {K} `{Countable K} (t : gmap K (gset FederateHandle)) k set : tidy t -> t !! k = Some set -> exists h, h ∈ set /\ forall h, h ∈ set -> h ∈ membersAt t k.
Proof.
  intros Ht E. destruct (set_choose_L set) as (h & Hh); [by apply (Ht k)|]. exists h. split; [done|]. intros h'. unfold membersAt. by rewrite E.
Qed.
Lemma object_table_round t : tidy t -> objectHandles t -> restoreObjectDeclarations (exportObjectDeclarations t) = Ret t.
Proof.
  intros Ht Hh. unfold restoreObjectDeclarations, exportObjectDeclarations. apply (rebuild_map (fun m => m)); [apply pairsOf_NoDup|apply pairsOf_in|].
  intros m [c a] set Hm Et. destruct (members_some t (c, a) set Ht Et) as (h & Hin & Hset). destruct (Hh (c, a) h (Hset h Hin)) as (Hc & Ha & _). simpl in *.
  unfold restoreObjectDeclaration. simpl. rewrite (proj2 (Z.eqb_neq _ _) Hc), (proj2 (Z.eqb_neq _ _) Ha), Hm. simpl. rewrite restoreDeclarants_sorted; [done|by apply (Ht (c, a))|]. intros h' Hh'. apply (Hh (c, a)). by apply Hset.
Qed.
Lemma interaction_table_round t : tidy t -> interactionHandles t -> restoreInteractionDeclarations (exportInteractionDeclarations t) = Ret t.
Proof.
  intros Ht Hh. unfold restoreInteractionDeclarations, exportInteractionDeclarations. apply (rebuild_map (fun m => m)); [apply rowKeys_NoDup|apply rowKeys_in|].
  intros m c set Hm Et. destruct (members_some t c set Ht Et) as (h & Hin & Hset). destruct (Hh c h (Hset h Hin)) as (Hc & _).
  unfold restoreInteractionDeclaration. simpl. rewrite (proj2 (Z.eqb_neq _ _) Hc), Hm. simpl. rewrite restoreDeclarants_sorted; [done|by apply (Ht c)|]. intros h' Hh'. apply (Hh c). by apply Hset.
Qed.

(** ** The whole state *)
(** What a restore checks beyond the invariant: no zero handle, rates the
    object model names, no demand twice, pending advisories that are due. *)
Record saveable (fom : FOMHandle) (st : federationState) : Prop := {
  s_wf : decl_wf fom st;
  s_objPubs : objectHandles (objPubs st);
  s_objSubs : objectHandles (objSubs st);
  s_intPubs : interactionHandles (intPubs st);
  s_intSubs : interactionHandles (intSubs st);
  s_regionalObjects : objectHandles (regionalObjects st);
  s_regionalInteractions : interactionHandles (regionalInteractions st);
  s_options : forall k h o, optionAt (objOptions st) k h = Some o -> validateSubscriptionOptions fom o = Ret ();
  s_switches : forall h kind e, optionAt (switches st) h kind = Some e -> h <> 0;
  s_rates : forall obj v, rateObjects st !! obj = Some v -> obj <> 0 /\ class v <> 0 /\ owners v !! 0 = None;
  s_demands : NoDup (regionalRates st);
  s_demand : forall e, e ∈ regionalRates st -> r_Object e <> 0 /\ r_Attribute e <> 0 /\ r_Subscriber e <> 0 /\ validateSubscriptionOptions fom (r_Options e) = Ret ();
  s_pending : forall key, key ∈ pendingAdvice st -> is_Some (desiredAdvice st fom !! key) /\ switchEnabled st (Recipient key) (Kind key) = true;
}.
(** What a restore gives back: the state without its caches, at the new
    address, with the regional demands in order. *)
Definition restoredState (a : Z) (st : federationState) : federationState :=
  Build_federationState a (objPubs st) (objPubHistory st) (objSubs st) (intPubs st) (intSubs st) ∅ ∅ (objOptions st) (intActive st) (switches st) (defaults st)
    (regionalObjects st) (regionalInteractions st) (rateObjects st) (merge_sort rateLe (regionalRates st)) (pendingAdvice st).

Section Round.
Context (fom : FOMHandle).
Implicit Types (st : federationState).

Lemma history_round st0 st : decl_wf fom st -> objectHandles (objPubs st) -> objPubs st0 = objPubs st -> objPubHistory st0 = ∅ ->
  restorePublicationHistory fom (exportPublicationHistory st) st0 = Ret (set_objPubHistory st0 (objPubHistory st)).
Proof.
  intros Hw Hh Ep Eh. destruct (w_history _ _ Hw) as [He Hc]. unfold restorePublicationHistory.
  assert (Hrec : foldM (restoreHistoryRecord fom) (default [] (exportPublicationHistory st)) st0 = Ret (set_objPubHistory st0 (objPubHistory st))).
  { assert (Hl : foldM (restoreHistoryRecord fom) (listed (fun k touched => PublicationHistory k.1 k.2 touched) (objPubHistory st) (pairsOf (objPubHistory st))) (set_objPubHistory st0 ∅) = Ret (set_objPubHistory st0 (objPubHistory st))).
    { apply (rebuild_map (set_objPubHistory st0)); [apply pairsOf_NoDup|apply pairsOf_in|]. intros m [c p] touched Hm Et. destruct (He c p touched Et) as [Hne Hcons].
      pose proof Hne as (a & Ha)%published_nonempty. destruct (Hh (c, a) p Ha) as (H1 & _ & H2). simpl in *.
      assert (Epub : publishedAttributes (set_objPubHistory st0 m) p c = publishedAttributes st p c) by (by apply published_same).
      unfold restoreHistoryRecord. simpl. rewrite (proj2 (Z.eqb_neq _ _) H1), (proj2 (Z.eqb_neq _ _) H2), Hm, Epub, bool_decide_false, Hcons by done. done. }
    assert (Est : set_objPubHistory st0 ∅ = st0) by (rewrite <- Eh; by destruct st0). rewrite Est in Hl.
    unfold exportPublicationHistory. by destruct (listed _ _ _). }
  rewrite Hrec. cbn [mbind outcome_bind]. unfold restoreMissingPublicationHistory.
  assert (Hact : forall key, key ∈ elements (activePublications (set_objPubHistory st0 (objPubHistory st))) -> restoreMissing fom (bool_decide (is_Some (exportPublicationHistory st))) (set_objPubHistory st0 (objPubHistory st)) key = Ret (set_objPubHistory st0 (objPubHistory st))).
  { intros [c p] Hin. apply elem_of_elements, active_in in Hin. simpl in Hin. rewrite Ep in Hin. unfold restoreMissing. destruct (Z.eqb_spec (deletePrivilege fom (c, p).1) 0) as [|Hp]; [done|]. simpl in *.
    rewrite bool_decide_true; [done|]. apply Hc; [done|]. by apply published_nonempty. }
  induction (elements _) as [|key l IH]; [done|]. cbn [foldM]. rewrite Hact by (by left). apply IH. intros key' Hk. apply Hact. by right.
Qed.
Lemma objectOptions_round st0 st : decl_wf fom st -> (forall k h o, optionAt (objOptions st) k h = Some o -> validateSubscriptionOptions fom o = Ret ()) ->
  objSubs st0 = objSubs st -> objOptions st0 = ∅ -> foldM (restoreObjectOption fom) (exportObjectOptions st) st0 = Ret (set_objOptions st0 (objOptions st)).
Proof.
  intros Hw Hv Es Eo. assert (Est : st0 = set_objOptions st0 ∅) by (rewrite <- Eo; by destruct st0). rewrite Est at 1. unfold exportObjectOptions.
  apply (rebuild_cells (set_objOptions st0) (restoreObjectOption fom) (fun k => ObjectOptionsState k.1.1 k.1.2 k.2)); [apply w_objOptions, (w_tables _ _ Hw)|rewrite merge_sort_Permutation; apply cells_NoDup|intros [k h]; by rewrite merge_sort_Permutation, cells_in|].
  intros m [[c a] h] o Hm Ho. simpl in *. unfold restoreObjectOption. simpl. assert (declares (objSubs st0) (c, a) h = true) as -> by (rewrite declares_spec, Es; by eapply (w_objOption _ (w_subscriptions _ _ Hw))).
  rewrite Hm. simpl. by rewrite (Hv _ _ _ Ho).
Qed.
Lemma interactionOptions_round st0 st : decl_wf fom st -> intSubs st0 = intSubs st -> intActive st0 = ∅ ->
  foldM restoreInteractionOption (exportInteractionOptions st) st0 = Ret (set_intActive st0 (intActive st)).
Proof.
  intros Hw Es Eo. assert (Est : st0 = set_intActive st0 ∅) by (rewrite <- Eo; by destruct st0). rewrite Est at 1. unfold exportInteractionOptions.
  apply (rebuild_cells (set_intActive st0) restoreInteractionOption (fun k => InteractionOptionsState k.1 k.2)); [apply w_intActive, (w_tables _ _ Hw)|rewrite merge_sort_Permutation; apply cells_NoDup|intros [k h]; by rewrite merge_sort_Permutation, cells_in|].
  intros m [c h] o Hm Ho. simpl in *. unfold restoreInteractionOption. simpl. assert (declares (intSubs st0) c h = true) as -> by (rewrite declares_spec, Es; by eapply (w_intOption _ (w_subscriptions _ _ Hw))). by rewrite Hm.
Qed.
Lemma switches_round st0 st : decl_wf fom st -> (forall h kind e, optionAt (switches st) h kind = Some e -> h <> 0) -> switches st0 = ∅ ->
  foldM restoreAdvisorySwitch (exportSwitches st) st0 = Ret (set_switches st0 (switches st)).
Proof.
  intros Hw H0 Eo. assert (Est : st0 = set_switches st0 ∅) by (rewrite <- Eo; by destruct st0). rewrite Est at 1. unfold exportSwitches.
  apply (rebuild_cells (set_switches st0) restoreAdvisorySwitch (fun k => SwitchState k.1 k.2)); [apply w_switches, (w_tables _ _ Hw)|rewrite merge_sort_Permutation; apply cells_NoDup|intros [k h]; by rewrite merge_sort_Permutation, cells_in|].
  intros m [h kind] e Hm Ho. simpl in *. unfold restoreAdvisorySwitch. simpl. rewrite (proj2 (Z.eqb_neq _ _) (H0 _ _ _ Ho)), (w_switch _ (w_subscriptions _ _ Hw) _ _ _ Ho), Hm. done.
Qed.
Lemma rateObjects_round st0 st : (forall obj v, rateObjects st !! obj = Some v -> obj <> 0 /\ class v <> 0 /\ owners v !! 0 = None) -> rateObjects st0 = ∅ ->
  foldM restoreRateObject (exportRateObjects st) st0 = Ret (set_rateObjects st0 (rateObjects st)).
Proof.
  intros H0 Eo. assert (Est : st0 = set_rateObjects st0 ∅) by (rewrite <- Eo; by destruct st0). rewrite Est at 1. unfold exportRateObjects.
  apply (rebuild_map (set_rateObjects st0)); [apply rowKeys_NoDup|apply rowKeys_in|]. intros m obj v Hm Ev. destruct (H0 obj v Ev) as (H1 & H2 & H3).
  unfold restoreRateObject. simpl. rewrite (proj2 (Z.eqb_neq _ _) H1), (proj2 (Z.eqb_neq _ _) H2), Hm. simpl.
  assert (foldM restoreOwner (listed RateOwner (owners v) (keysOf (owners v))) (RateObject (class v) ∅) = Ret (RateObject (class v) (owners v))) as ->; [|by destruct v].
  apply (rebuild_map (RateObject (class v))); [apply rowKeys_NoDup|apply rowKeys_in|]. intros m' a h Hm' Ea. unfold restoreOwner. simpl. rewrite Hm'. destruct (Z.eqb_spec a 0) as [->|]; [congruence|done].
Qed.
Lemma demands_round l : NoDup l -> (forall e, e ∈ l -> r_Object e <> 0 /\ r_Attribute e <> 0 /\ r_Subscriber e <> 0 /\ validateSubscriptionOptions fom (r_Options e) = Ret ()) ->
  forall seen, (forall e, e ∈ l -> e ∉ seen) -> exists seen', foldM (checkRateDemand fom) l seen = Ret seen'.
Proof.
  induction l as [|e l IH]; intros Hnd Hl seen Hs; simpl; [by exists seen|]. inversion Hnd as [|? ? Hn Hnd']; subst. destruct (Hl e (list_elem_of_here _ _)) as (H1 & H2 & H3 & H4).
  assert (checkRateDemand fom seen e = Ret (e :: seen)) as ->.
  { unfold checkRateDemand. rewrite (proj2 (Z.eqb_neq _ _) H1), (proj2 (Z.eqb_neq _ _) H2), (proj2 (Z.eqb_neq _ _) H3), bool_decide_false by (apply Hs; by left). simpl. by rewrite H4. }
  apply IH; [done|intros; apply Hl; by right|]. intros e' He' [->|?]%elem_of_cons; [done|]. by eapply Hs; [right|].
Qed.
Lemma desired_alive st st' key : objPubs st = objPubs st' -> intPubs st = intPubs st' -> rateObjects st = rateObjects st' -> is_Some (desiredAdvice st fom !! key) -> is_Some (desiredAdvice st' fom !! key).
Proof.
  intros E1 E2 E3 [d Hd]. apply desired_at in Hd as [(b & Hm & Ho & Ha & Hr & _)|(Hk & Hc & H0 & Hm & Hs & _)].
  - apply relevant_at in Hr as [(Hk & Hp & _)|(Hk & Hr)].
    + eexists. apply desired_at. left. eexists. split; [done|]. split; [done|]. split; [done|]. split; [|done]. apply relevant_at. left. rewrite <- E2. done.
    + rewrite Hk in Hr. apply objectRelevance_at in Hr as [Hp _]. rewrite E1 in Hp. destruct (objectRelevance st' fom ∅ !! (AdvisoryObjectClassRelevance, Recipient key, Class key)) as [b'|] eqn:E.
      * eexists. apply desired_at. left. exists b'. rewrite Hk. split; [done|]. split; [done|]. split; [done|]. split; [|done]. apply relevant_at. by right.
      * exfalso. destruct Hp as (a & Hp).
        assert (Hd : exists b', b' = true <-> exists a, Recipient key ∈ membersAt (objPubs st') (Class key, a) /\ interestedInAttribute st' fom (Class key, a) (Recipient key)).
        { exists (existsb (fun a => bool_decide (Recipient key ∈ membersAt (objPubs st') (Class key, a)) && publicationRelevant st' fom (Class key, a) (Recipient key)) (publishedAttributes st' (Recipient key) (Class key))).
          rewrite existsb_exists. setoid_rewrite <- list_elem_of_In. setoid_rewrite published_in. setoid_rewrite andb_true_iff. setoid_rewrite bool_decide_eq_true. setoid_rewrite publicationRelevant_spec. naive_solver. }
        destruct Hd as (b' & Hb). assert (Hs : objectRelevance st' fom ∅ !! (AdvisoryObjectClassRelevance, Recipient key, Class key) = Some b') by (apply objectRelevance_at; split; [by exists a|done]). congruence.
  - eexists. apply desired_at. right. unfold rateAdvice. rewrite <- E3. do 5 (split; [done|]). done.
Qed.
Lemma pending_round desired st0 l : NoDup l -> (forall key, key ∈ l -> is_Some (desired !! key) /\ switchEnabled st0 (Recipient key) (Kind key) = true) ->
  forall s, (forall key, key ∈ l -> key ∉ s) -> foldM (restorePending desired) l (set_pendingAdvice st0 s) = Ret (set_pendingAdvice st0 (list_to_set l ∪ s)).
Proof.
  induction l as [|key l IH]; intros Hnd Hl s Hs; cbn [foldM]; [by replace (list_to_set [] ∪ s) with s by set_solver|]. inversion Hnd as [|? ? Hn Hnd']; subst. destruct (Hl key (list_elem_of_here _ _)) as [H1 H2].
  assert (restorePending desired (set_pendingAdvice st0 s) key = Ret (set_pendingAdvice st0 ({[key]} ∪ s))) as ->.
  { unfold restorePending. rewrite (bool_decide_true (is_Some _)) by done. simpl. rewrite bool_decide_false by (apply Hs; by left). simpl.
    by assert (switchEnabled (set_pendingAdvice st0 s) (Recipient key) (Kind key) = true) as -> by done. }
  cbn [mbind outcome_bind]. rewrite IH; [do 2 f_equal; set_solver|done|intros; apply Hl; by right|]. intros key' Hk' [->%elem_of_singleton|Hin]%elem_of_union; [done|]. by eapply Hs; [right|].
Qed.
End Round.

#[export] Instance rateLe_total : Total rateLe.
Proof.
  intros [o a s [x n]] [o' a' s' [x' n']]. unfold rateLe, tripleLe, pairLe, optionsLe, rateKey. simpl.
  destruct (Z.lt_trichotomy o o') as [|[->|]]; [left; left; split; [left; split; [lia|intros [=]; lia]|intros [=]; lia]| |right; left; split; [left; split; [lia|intros [=]; lia]|intros [=]; lia]].
  destruct (Z.lt_trichotomy a a') as [|[->|]]; [left; left; split; [left; split; [lia|intros [=]; lia]|intros [=]; lia]| |right; left; split; [left; split; [lia|intros [=]; lia]|intros [=]; lia]].
  destruct (Z.lt_trichotomy s s') as [|[->|]]; [left; left; split; [right; split; [done|lia]|intros [=]; lia]| |right; left; split; [right; split; [done|lia]|intros [=]; lia]].
  destruct x, x'; [|right; right; auto|left; right; auto|]; (destruct (String.leb_total n n'); [left|right]; right; auto).
Qed.
Section Restored.
Context (fom : FOMHandle).
(** A saved state restores to itself, as far as anything observes. *)
Lemma saved_restores a st : saveable fom st -> restoreFederation a fom (exportFederation st) = Ret (restoredState a st).
Proof.
  intros []. destruct s_wf0 as [Ht Hs Hh]. pose proof (Build_decl_wf fom st Ht Hs Hh) as Hw. unfold restoreFederation. cbv zeta. cbn [exportFederation ObjectPublications ObjectPublicationHistory ObjectSubscriptions InteractionPublications InteractionSubscriptions RegionalObjectInterests RegionalInteractionInterests].
  rewrite (object_table_round (objPubs st)) by (done || apply Ht). cbn [mbind outcome_bind].
  rewrite (history_round fom (set_objPubs (newFederationState a) (objPubs st)) st) by done. cbn [mbind outcome_bind].
  rewrite (object_table_round (objSubs st)) by (done || apply Ht). cbn [mbind outcome_bind].
  rewrite (interaction_table_round (intPubs st)) by (done || apply Ht). cbn [mbind outcome_bind].
  rewrite (interaction_table_round (intSubs st)) by (done || apply Ht). cbn [mbind outcome_bind].
  rewrite (object_table_round (regionalObjects st)) by (done || apply Ht). cbn [mbind outcome_bind].
  rewrite (interaction_table_round (regionalInteractions st)) by (done || apply Ht). cbn [mbind outcome_bind].
  unfold restoreOptions. cbn [exportFederation AdvisoryDefaults ObjectOptions InteractionOptions AdvisorySwitches].
  rewrite (objectOptions_round fom _ st) by done. cbn [mbind outcome_bind].
  rewrite (interactionOptions_round fom _ st) by done. cbn [mbind outcome_bind].
  rewrite (switches_round fom _ st) by done. cbn [mbind outcome_bind].
  unfold restoreUpdateRates. cbn [exportFederation UpdateRateObjects].
  rewrite (rateObjects_round _ st) by done. cbn [mbind outcome_bind]. unfold restoreRateDemands. cbn [exportFederation RegionalUpdateRates PendingAdvisories].
  destruct (demands_round fom (merge_sort rateLe (regionalRates st))) with (seen := @nil RegionalUpdateRateSubscription) as (seen & ->).
  { by rewrite merge_sort_Permutation. }
  { intros e. rewrite merge_sort_Permutation. apply s_demand0. }
  { intros e _ H. by apply elem_of_nil in H. }
  cbn [mbind outcome_bind]. set (st0 := set_regionalRates _ _).
  assert (E0 : st0 = set_pendingAdvice st0 ∅) by done. rewrite E0 at 2. rewrite pending_round.
  - rewrite (right_id_L ∅ (∪)). f_equal. unfold restoredState. assert (Hp : (list_to_set (merge_sort adviceLe (elements (pendingAdvice st))) : gset adviceKey) = pendingAdvice st).
    { apply set_eq. intros key. by rewrite elem_of_list_to_set, merge_sort_Permutation, elem_of_elements. }
    rewrite Hp. reflexivity.
  - rewrite merge_sort_Permutation. apply NoDup_elements.
  - intros key. rewrite merge_sort_Permutation, elem_of_elements. intros Hin. destruct (s_pending0 key Hin) as [Hd He]. split; [|done]. by eapply desired_alive; [..|exact Hd].
  - intros key _. apply not_elem_of_empty.
Qed.
End Restored.
