(* ===== verification/DeclTheorems.v ===== *)
(** * Declaration management: what the manager promises

    The theorems on the whole component, each at a demonstration federation:
    publishers 10 and 11 and subscribers 20 and 21 of a class, its subclass and
    an interaction. *)
From stdpp Require Import gmap.
From S2P Require Import Prelude GoFloat Decl DeclChange DeclService DeclUnpublish DeclSnapshot DeclTables DeclInvariant DeclPreserve DeclRestore DeclAtomic DeclRound.
Open Scope Z_scope.

(** ** A demonstration federation *)
Definition demoNames : list (ObjectClassHandle * AttributeHandle * string) :=
  [(1, 1, "HLAprivilegeToDeleteObject"); (1, 2, "position"); (1, 3, "speed"); (2, 1, "HLAprivilegeToDeleteObject"); (2, 2, "position"); (2, 3, "speed"); (2, 4, "fuel")]%string.
Definition demoModel : fomHandle := {|
  IsValid := true;
  LookupAttribute := fun cls name => snd <$> (fst <$> List.find (fun e => (e.1.1 =? cls) && bool_decide (e.2 = name)) demoNames);
  names := Some {|
    ObjectClassName := fun cls => if cls =? 1 then Some "Vehicle"%string else if cls =? 2 then Some "Truck"%string else None;
    InteractionClassName := fun cls => if cls =? 7 then Some "Fire"%string else None;
    AttributeName := fun cls attr => snd <$> List.find (fun e => (e.1.1 =? cls) && (e.1.2 =? attr)) demoNames |};
  ancestry := Some {| ObjectClassAncestors := fun cls => if cls =? 2 then [2; 1] else [cls]; InteractionClassAncestors := fun cls => [cls] |};
  UpdateRateValue := Some (fun name => if bool_decide (name = "fast"%string) then Some (f64_of_int 10) else if bool_decide (name = "slow"%string) then Some (f64_of_int 1) else None);
  AdvisorySwitchDefault := None;
  AttributeHandles := Some (fun cls => if cls =? 1 then [1; 2; 3] else if cls =? 2 then [1; 2; 3; 4] else []) |}.
Definition isOff (d : OutboxDelivery) : bool := match d_Event d with turnInteractionsOffEvent _ | stopRegistrationEvent _ => true | _ => false end.
(** An outbox without room for the advice to stop. *)
Definition demoOutbox : Outbox := {| Send := fun _ _ => None; Reserve := Some (fun _ ds => if existsb isOff ds then ReserveError errOutbox else Reservation None) |}.
Definition demoOptions : Options := Build_Options (Some (fun _ => (Some demoModel, None))) (Some demoOutbox) true true None None.
Definition demoRequests : list request :=
  [QPublish "f" 10 1 [2]; QPublish "f" 11 2 [2; 4]; QSubscribe "f" 20 1 [2] (Opts true "slow"); QSubscribe "f" 21 1 [2; 3] (Opts true "fast");
   QPublishInteraction "f" 10 7; QSubscribeInteraction "f" 20 7 true; QSetSwitch "f" 11 1 false; QSyncOwners "f" 5 2 {[2 := 11; 4 := 11]}; QObjectSnapshot "f" 1 [2]].
Definition demo : Manager := run demoOptions demoRequests New.

(** ** The invariant *)
Lemma New_wf opts : all_wf opts New.
Proof. intros f st E. simpl in E. by rewrite lookup_empty in E. Qed.
(** C15: After every history of services, whatever the outbox, the object model and the ports answer, the state of every federation satisfies the invariant of the component: no table keeps an empty set, cached subscriber snapshots are current, options belong to subscriptions, an implicit delete privilege is published only beside an attribute published by name, and no two states share an address in time. *)
Theorem decl_reachable_wf opts qs : all_wf opts (run opts qs New) /\ fresh (run opts qs New).
Proof.
  split; [apply run_wf, New_wf|]. apply (evolves_fresh New); [|apply run_evolves]. intros f st E. simpl in E. by rewrite lookup_empty in E.
Qed.

(** ** Snapshots *)
Lemma SubscribersFor_one m f cls a : SubscribersFor m f cls [a] = match fed m !! f with Some st => sortedHandles (membersAt (objSubs st) (cls, a)) | None => [] end.
Proof. unfold SubscribersFor. destruct (fed m !! f); [|done]. simpl. by rewrite (left_id_L ∅ (∪)). Qed.
Lemma cached_publish m f st st' : fed m !! f = Some st -> objSubs st' = objSubs st -> intSubs st' = intSubs st ->
  (forall f' cls attrs, SubscribersFor (publish m f st') f' cls attrs = SubscribersFor m f' cls attrs) /\
  (forall f' cls, InteractionSubscribersFor (publish m f st') f' cls = InteractionSubscribersFor m f' cls).
Proof.
  intros E E1 E2. split; intros f' cls; [intros attrs; unfold SubscribersFor|unfold InteractionSubscribersFor]; simpl; (destruct (decide (f' = f)) as [->|Hn]; [rewrite lookup_insert_eq, E; by rewrite ?E1, ?E2|by rewrite lookup_insert_ne by done]).
Qed.
(** In every reachable manager the cached snapshot queries answer what the uncached queries answer, and computing a snapshot changes the answer of no query. *)
Theorem snapshots_refine_queries opts qs f cls attrs : let m := run opts qs New in
  let '(m', snapshot) := ObjectSubscribersSnapshot m f cls attrs in let '(m2, interactions) := InteractionSubscribersSnapshot m f cls in
  snapshot = SubscribersFor m f cls attrs /\ interactions = InteractionSubscribersFor m f cls /\
  (forall f' cls' attrs', SubscribersFor m' f' cls' attrs' = SubscribersFor m f' cls' attrs') /\ (forall f' cls', InteractionSubscribersFor m2 f' cls' = InteractionSubscribersFor m f' cls').
Proof.
  cbv zeta. pose proof (run_wf opts qs New (New_wf opts)) as Hm. set (m := run opts qs New) in *.
  assert (Ho : let r := ObjectSubscribersSnapshot m f cls attrs in r.2 = SubscribersFor m f cls attrs /\ forall f' cls' attrs', SubscribersFor r.1 f' cls' attrs' = SubscribersFor m f' cls' attrs').
  { unfold ObjectSubscribersSnapshot. destruct attrs as [|a [|b attrs]]; [done| |done]. rewrite SubscribersFor_one. destruct (fed m !! f) as [st|] eqn:E; [|done].
    destruct (objSubSnapshots st !! (cls, a)) as [snapshot|] eqn:Es; simpl; [split; [by apply (w_objSnapshot _ (w_subscriptions _ _ (Hm f st E)))|done]|]. split; [done|]. by apply (cached_publish m f st). }
  assert (Hi : let r := InteractionSubscribersSnapshot m f cls in r.2 = InteractionSubscribersFor m f cls /\ forall f' cls', InteractionSubscribersFor r.1 f' cls' = InteractionSubscribersFor m f' cls').
  { unfold InteractionSubscribersSnapshot. unfold InteractionSubscribersFor at 1. destruct (fed m !! f) as [st|] eqn:E; [|done].
    destruct (intSubSnapshots st !! cls) as [snapshot|] eqn:Es; simpl; [split; [by apply (w_intSnapshot _ (w_subscriptions _ _ (Hm f st E)))|done]|]. split; [done|]. by apply (cached_publish m f st). }
  destruct (ObjectSubscribersSnapshot m f cls attrs) as [m' snapshot], (InteractionSubscribersSnapshot m f cls) as [m2 interactions]. naive_solver.
Qed.

(** ** All or nothing *)
Definition mandatory (q : request) : bool := match q with QSyncOwners _ _ _ _ | QRemoveObject _ _ | QSyncRates _ _ | QSyncObject _ _ _ _ _ | QResign _ _ => true | _ => false end.
Definition unchanged (m : Manager) (r : reply ()) : Prop := forall e, result r = Fail e -> fed (after r) = fed m /\ delivered (effects r) = [].
Section Refused.
Context (opts : Options).
Implicit Types (m : Manager).
Lemma same_unchanged m e : unchanged m (Reply m [] (Fail e)).
Proof. by intros e' _. Qed.
Lemma checked_unchanged {A} m f (mutate : federationState -> outcome decl_error (federationState * A)) e : let r := changeChecked opts m f mutate false in
  result r = Fail e -> fed (after r) = fed m /\ delivered (effects r) = [].
Proof.
  cbv zeta. unfold changeChecked. destruct (model opts f) as [fom [e'|]]; [done|]. pose proof (changeWith_case opts m f fom mutate false) as Hc. unfold changeCase in Hc. cbv zeta in Hc.
  destruct (mutate _) as [[st a]|e'|s]; [|by rewrite Hc|by rewrite Hc]. destruct (advisoryOutbox opts); [|by rewrite Hc]. destruct Hc as [(-> & _)|(_ & -> & ->)]; done.
Qed.
Lemma change_unchanged m f mutate : unchanged m (change opts m f mutate).
Proof. intros e. apply checked_unchanged. Qed.
Lemma guarded_unchanged m guard r : unchanged m r -> unchanged m (guarded m guard r).
Proof. intros Hr. unfold guarded. destruct guard; [done|apply same_unchanged|done]. Qed.
Lemma perform_unchanged q m : mandatory q = false -> unchanged m (perform opts q m).
Proof.
  intros Hq. destruct q; try done; simpl; try apply change_unchanged.
  - unfold PublishObjectClassAttributes. destruct (modelFor opts f) as [fom|e|s]; [|apply same_unchanged|by intros e [=]]. intros e. simpl. set (r := changeChecked _ _ _ _ _).
    intros Hr. assert (Hf : result r = Fail e) by (revert Hr; destruct (result r); simpl; congruence). destruct (checked_unchanged m f _ e Hf) as [H1 H2]. rewrite Hf, app_nil_r. done.
  - intros e Hr. unfold commitNow in *. cbv zeta in *. pose proof (commitUnpublication_cases opts m f pub cls (fomOf opts f) candidates (match fed m !! f with Some st => selectedNow (fomOf opts f) st pub cls candidates | None => [] end) (deletePrivilege (fomOf opts f) cls) ownership) as Hc. cbv zeta in Hc.
    destruct Hc as [(E & _)|(_ & -> & ->)]; [by rewrite E in Hr|done].
  - unfold UnpublishInteractionClass. intros e. destruct (fed m !! f); by intros [=].
  - apply guarded_unchanged. intros e. simpl. intros Hr. rewrite Hr, app_nil_r. by eapply change_unchanged.
  - unfold unsubscribeObject. destruct cancelled; [apply same_unchanged|]. apply guarded_unchanged. destruct (_ && _); [by intros e [=]|apply change_unchanged].
  - apply guarded_unchanged, change_unchanged.
  - unfold SetAdvisorySwitch. destruct (negb _); [apply same_unchanged|]. intros e. apply checked_unchanged.
  - apply guarded_unchanged, change_unchanged.
  - apply guarded_unchanged, change_unchanged.
  - destruct (ImportState opts m f s) as [m'|e|msg]; [by intros e [=]|apply same_unchanged|by intros e [=]].
Qed.
(** What an unpublication does beside its commit delivers no advisory. *)
Definition silent (es : list effect) : Prop := delivered es = [] /\ CommitsOwnership ∉ es.
Lemma silent_app es es' : silent es -> silent es' -> silent (es ++ es').
Proof. intros [H1 H2] [H3 H4]. split; [by rewrite delivered_app, H1, H3|]. rewrite elem_of_app. tauto. Qed.
Lemma silent_objects plan : silent (releaseObjects plan).
Proof. split; [by destruct plan|apply no_commit_release]. Qed.
Lemma silent_ownership plan : silent (releaseOwnership plan).
Proof. split; [by destruct plan|apply no_commit_ownership]. Qed.
Lemma silent_prepare i f pub selected plan : silent (prepareOwnershipUnpublication opts i f pub selected plan).1.
Proof.
  split; [|apply prepare_effects]. unfold prepareOwnershipUnpublication. destruct plan as [objects|]; [|done]. destruct (unpublicationOwnership opts) as [prepare|]; [|done].
  destruct (prepare _ _ _ _) as [[ownership|]|e|s]; try done. destruct (PrepareCallbackProjections ownership) as [project|]; [|done]. by destruct (project _).
Qed.
(** An unpublication failed: nothing happened beside what other services did, or
    it is done and the ownership manager could not dispatch its callbacks. *)
Definition dispatchFails f pub e : Prop :=
  exists prepare i owners plan, unpublicationOwnership opts = Some prepare /\ prepare i f pub owners = Ret (Some plan) /\ DispatchResult plan = Some e.
Definition failedAs f pub m (r : reply ()) e : Prop :=
  (fed (after r) = fed m /\ silent (effects r)) \/ (CommitsOwnership ∈ effects r /\ Dispatches false ∈ effects r /\ dispatchFails f pub e).
Lemma prepared_plan i f pub selected plan es p e : prepareOwnershipUnpublication opts i f pub selected plan = (es, Ret (Some p)) -> DispatchResult p = Some e -> dispatchFails f pub e.
Proof.
  unfold prepareOwnershipUnpublication, dispatchFails. destruct plan as [objects|]; [|done]. destruct (unpublicationOwnership opts) as [prepare|]; [|done].
  destruct (prepare i f pub _) as [[ownership|]|e'|s] eqn:E; try done. intros H He. exists prepare, i, (SelectAttributes objects selected), ownership. do 2 (split; [done|]).
  destruct (PrepareCallbackProjections ownership) as [project|]; [destruct (project _)|]; congruence.
Qed.
Lemma attempt_fails i others m f pub cls candidates whole privilege plan :
  match attemptUnpublication opts i others m f pub cls candidates whole (fomOf opts f) privilege plan with
  | Ends r => forall e, result r = Fail e -> failedAs f pub (others m) r e
  | Again m' es _ _ => m' = others m /\ silent es
  end.
Proof.
  assert (Hs1 : silent [ReleasesObjects]) by (split; [done|by intros ?%list_elem_of_singleton]).
  unfold attemptUnpublication. cbv zeta. destruct (if whole then _ else _) as [candidates' plan'|candidates' plan'|e0|msg]; [|done|by left|by left].
  set (selected := selectUnpublicationAttributes _ _ _ _). pose proof (silent_prepare i f pub selected plan') as Hp.
  destruct (prepareOwnershipUnpublication _ _ _ _ _ _) as [es [ownership|e0|msg]] eqn:Eo; simpl in Hp;
    [|left; split; [done|]; apply silent_app; [done|apply silent_objects]..].
  destruct (_ && _); [|split; [done|]; apply silent_app; [done|apply silent_ownership]].
  pose proof (commitUnpublication_cases opts (others m) f pub cls (fomOf opts f) candidates' selected privilege ownership) as Hc. cbv zeta in Hc.
  pose proof (commitLocked_effects opts f pub cls (others m) candidates' selected privilege ownership) as He. cbv zeta in He.
  set (c := commitUnpublicationLocked _ _ _ _ _ _ _ _ _ _) in *. destruct Hc as [(Er & _)|(Hr & Ef & Ed)].
  - rewrite Er. destruct (dispatchUnpublication plan' ownership) as [ds d] eqn:E. intros e. simpl. intros ->. right.
    unfold dispatchUnpublication in E. destruct ownership as [p|]; [|by injection E]. injection E as <- E.
    destruct (DispatchResult p) as [e'|] eqn:Ep; simpl in E; [|done]. injection E as ->. simpl. rewrite !elem_of_app.
    split; [right; left; by apply He|split; [right; right; left; right; by apply list_elem_of_singleton|by eapply prepared_plan]].
  - assert (Hq : silent (effects c)) by (split; [done|]; rewrite He; intros [E _]; rewrite E in Hr; by destruct Hr).
    assert (He' : result c <> Ret ()) by (intros E; rewrite E in Hr; by destruct Hr).
    destruct (result c) as [[]|e0|msg]; [done|..]; intros e _; left; (split; [simpl; by rewrite Ef|]);
      repeat apply silent_app; auto using silent_ownership, silent_objects.
Qed.
(** What other services did during the first [n] attempts. *)
Definition during (qs : nat -> list request) (i n : nat) : list request := concat (qs <$> seq i n).
Lemma loop_fails fuel i cancelled (qs : nat -> list request) m f pub cls candidates whole privilege plan r e :
  unpublishPrepared opts fuel i cancelled (fun i => run opts (qs i)) m f pub cls candidates whole (fomOf opts f) privilege plan = Some r ->
  result r = Fail e -> exists n, failedAs f pub (run opts (during qs i n) m) r e.
Proof.
  revert i m candidates plan r. induction fuel as [|fuel IH]; intros i m candidates plan r; simpl; [done|].
  destruct (cancelled i).
  { intros [= <-] _. exists O. left. split; [done|apply silent_objects]. }
  pose proof (attempt_fails i (run opts (qs i)) m f pub cls candidates whole privilege plan) as Ha.
  destruct (attemptUnpublication _ _ _ _ _ _ _ _ _ _ _ _) as [r0|m1 es candidates1 plan1].
  - intros [= <-] Hr. exists 1%nat. unfold during. simpl. rewrite app_nil_r. by apply Ha.
  - destruct Ha as [-> Hes]. destruct (unpublishPrepared _ _ _ _ _ _ _ _ _ _ _ _ _ _) as [r1|] eqn:E; [|done]. intros [= <-] Hr.
    destruct (IH _ _ _ _ _ E Hr) as (n & Hn). exists (S n). unfold during, run in *. simpl. rewrite fold_left_app.
    destruct Hn as [[H1 H2]|(H1 & H2 & H3)]; [left; split; [done|by apply silent_app]|right]. simpl. rewrite !elem_of_app. auto.
Qed.

End Refused.
(** An unpublication that is cancelled after another service came in between. *)
Definition meanwhile (i : nat) : list request := match i with 1%nat => [QPublish "f" 10 1 [3]] | _ => [] end.
Definition cancelledUnpublication : option (reply ()) := unpublishObject demoOptions 3 (Nat.eqb 2) (fun i => run demoOptions (meanwhile i)) demo "f" 10 1 [] true.

(** ** Advisories *)
(** C17: A change that succeeds delivers exactly the advisories it owes, to recipients in order: for each key of the advice the new state calls for, whose recipient's switch is on, and that the change altered, that was relevant under a switch just turned on, or that was pending.  Nothing stays pending. *)
Theorem advisories_exact opts m f mutate outbox fom : advisoryOutbox opts = Some outbox -> model opts f = (fom, None) -> result (change opts m f mutate) = Ret () ->
  let st0 := cloneFederationState m f fom in let st := mutate st0 in let r := change opts m f mutate in
  (forall d, d ∈ delivered (effects r) <-> exists key value event,
     desiredAdvice st fom !! key = Some value /\ switchEnabled st (Recipient key) (Kind key) = true /\
     (key ∈ pendingAdvice st \/ demandEq (default noDemand (desiredAdvice st0 fom !! key)) value = false \/
      Relevant value = true /\ exists previous, fed m !! f = Some previous /\ switchEnabled previous (Recipient key) (Kind key) = false) /\
     adviceEvent key value = Some event /\ d = Delivery (Recipient key) event) /\
  StronglySorted Z.le (map d_Recipient (delivered (effects r))) /\
  exists st', fed (after r) !! f = Some st' /\ pendingAdvice st' = ∅ /\ desiredAdvice st' fom = desiredAdvice st fom.
Proof.
  intros Ho Hm Hr. cbv zeta. unfold change, changeMode, changeChecked in *. rewrite Hm in *. pose proof (changeWith_case opts m f fom (fun st => Ret (mutate st, ())) false) as Hc. unfold changeCase in Hc. cbv zeta in Hc. rewrite Ho in Hc.
  set (st0 := cloneFederationState m f fom) in *. set (st := mutate st0) in *. destruct Hc as [(_ & -> & ->)|((e & E) & _)]; [|by rewrite E in Hr].
  split; [|split; [apply deliveries_sorted|exists (set_pendingAdvice st ∅); split; [apply lookup_insert_eq|done]]].
  assert (Hcalls : forall key value, switchEnabled st (Recipient key) (Kind key) = true -> callsFor (fed m !! f) st (desiredAdvice st0 fom) key value = true <->
    demandEq (default noDemand (desiredAdvice st0 fom !! key)) value = false \/ Relevant value = true /\ exists previous, fed m !! f = Some previous /\ switchEnabled previous (Recipient key) (Kind key) = false).
  { intros key value Hs. unfold callsFor. rewrite Hs, andb_true_r, orb_true_iff, negb_true_iff. destruct (fed m !! f) as [previous|]; [rewrite andb_true_iff, negb_true_iff|]; naive_solver. }
  intros d. rewrite deliveries_in. unfold noteAdvice. simpl. split.
  - intros (key & value & event & Hp & Hs & Hv & He & ->). exists key, value, event. do 2 (split; [done|]). split; [|done]. apply elem_of_union in Hp as [Hp|Hp]; [by left|right]. apply Hcalls; [done|].
    apply elem_of_dom in Hp as [value' Hp]. apply map_lookup_filter_Some in Hp as [Hv' Hp]. simpl in Hp. congruence.
  - intros (key & value & event & Hv & Hs & Hp & He & ->). exists key, value, event. split; [|done]. apply elem_of_union. destruct Hp as [Hp|Hp]; [by left|right]. apply elem_of_dom. exists value. apply map_lookup_filter_Some. split; [done|]. by apply Hcalls.
Qed.
Lemma advisories_exact_witness : Delivery 10 (startRegistrationEvent 1) ∈ delivered (effects (change demoOptions (run demoOptions [QPublish "f" 10 1 [2]] New) "f" (fun st => subscribeAttribute 20 1 (Opts true "") st 2))).
Proof.
  set (m := run demoOptions [QPublish "f" 10 1 [2]] New).
  destruct (advisories_exact demoOptions m "f" (fun st => subscribeAttribute 20 1 (Opts true "") st 2) demoOutbox (Some demoModel) eq_refl eq_refl) as [H _]; [vm_compute; reflexivity|].
  apply H. exists (AdviceKey 1 10 1 0 0), (RateDemand true false "" f64_zero), (startRegistrationEvent 1). split; [vm_compute; reflexivity|]. split; [vm_compute; reflexivity|]. split; [right; left; vm_compute; reflexivity|]. split; reflexivity.
Defined.

(** The advice a state calls for: a publisher of a class, other than the management federate, is told whether another federate actively subscribes to, or has a regional interest in, an attribute it publishes there, by itself or through an ancestor of the class; a publisher of an interaction likewise; an owner of an attribute is told its rate.  There is no other advice. *)
Theorem advice_exact st fom key d : desiredAdvice st fom !! key = Some d <->
  (exists p cls b, key = AdviceKey AdvisoryObjectClassRelevance p cls 0 0 /\ d = RateDemand b false "" f64_zero /\ p <> momFederate /\ (exists a, p ∈ membersAt (objPubs st) (cls, a)) /\
     (b = true <-> exists a, p ∈ membersAt (objPubs st) (cls, a) /\ interestedInAttribute st fom (cls, a) p)) \/
  (exists p cls b, key = AdviceKey AdvisoryInteractionRelevance p cls 0 0 /\ d = RateDemand b false "" f64_zero /\ p <> momFederate /\ p ∈ membersAt (intPubs st) cls /\
     (b = true <-> interestedInInteraction st fom cls p)) \/
  (exists h obj a state, key = AdviceKey AdvisoryAttributeRelevance h 0 obj a /\ h <> 0 /\ h <> momFederate /\ rateObjects st !! obj = Some state /\ owners state !! a = Some h /\ d = attributeDemand st fom obj a).
Proof.
  rewrite desired_at. destruct key as [k p c o a]. unfold relevanceAdvice, rateAdvice. simpl. split.
  - intros [(b & Hm & -> & -> & Hr & ->)|(-> & -> & H0 & Hm & (state & Hs & Ho) & ->)]; [|right; right; by exists p, o, a, state].
    apply relevant_at in Hr as [(-> & Hp & ->)|(-> & Hr)]; [right; left|left].
    + exists p, c, (interactionRelevant st fom c p). do 4 (split; [done|]). apply interactionRelevant_spec.
    + apply objectRelevance_at in Hr as [Hp Hb]. by exists p, c, b.
  - intros [(p' & cls & b & [= -> -> -> -> ->] & -> & Hm & Hp & Hb)|[(p' & cls & b & [= -> -> -> -> ->] & -> & Hm & Hp & Hb)|(h & obj & a' & state & [= -> -> -> -> ->] & H0 & Hm & Hs & Ho & ->)]]; [left|left|right].
    + exists b. do 3 (split; [done|]). split; [|done]. apply relevant_at. right. split; [done|]. by apply objectRelevance_at.
    + exists b. do 3 (split; [done|]). split; [|done]. apply relevant_at. left. split; [done|]. split; [done|]. apply eq_true_iff_eq. by rewrite Hb, interactionRelevant_spec.
    + do 4 (split; [done|]). split; [by exists state|done].
Qed.

(** C18: The update rate demanded of an attribute is the unrestricted one when another federate actively subscribes without a designator, else the highest rate named by the active subscriptions of others, by the smallest designator that names it, else none; the order in which the tables of subscriptions are traversed has no effect. *)
Theorem rate_demand_first st fom obj attr :
  (forall rates name rate, fom ≫= UpdateRateValue = Some rates -> rates name = Some rate -> f64_isNaN rate = false) ->
  let state := default (RateObject 0 ∅) (rateObjects st !! obj) in let owner := default 0 (owners state !! attr) in
  let entries := demandEntries st fom obj (class state) attr in
  demandSpec fom owner entries (attributeDemand st fom obj attr) /\
  forall entries', (forall e, e ∈ entries <-> e ∈ entries') -> fold_left (addAttributeDemand fom owner) entries' noDemand = attributeDemand st fom obj attr.
Proof.
  intros Hn. cbv zeta. split; [by apply demand_fold|]. intros entries' He. eapply demandSpec_unique; [|by apply demand_fold..]. intros e. by rewrite He.
Qed.
Definition demoState : federationState := default (newFederationState 0) (fed demo !! "f"%string).
Lemma rate_demand_first_witness : attributeDemand demoState (Some demoModel) 5 2 = RateDemand true false "fast" (f64_of_int 10) /\
  demandSpec (Some demoModel) 11 (demandEntries demoState (Some demoModel) 5 2 2) (RateDemand true false "fast" (f64_of_int 10)).
Proof.
  assert (E : attributeDemand demoState (Some demoModel) 5 2 = RateDemand true false "fast" (f64_of_int 10)) by (vm_compute; reflexivity). split; [exact E|]. rewrite <- E.
  refine (proj1 (rate_demand_first demoState (Some demoModel) 5 2 _)). intros rates name rate [= <-]. case_bool_decide; [intros [= <-]; vm_compute; reflexivity|]. case_bool_decide; [intros [= <-]; vm_compute; reflexivity|done].
Defined.

(** ** Resignation *)
Record declaresNothing (h : FederateHandle) (st : federationState) : Prop := {
  n_objPubs : forall k, h ∉ membersAt (objPubs st) k;
  n_objSubs : forall k, h ∉ membersAt (objSubs st) k;
  n_intPubs : forall k, h ∉ membersAt (intPubs st) k;
  n_intSubs : forall k, h ∉ membersAt (intSubs st) k;
  n_regionalObjects : forall k, h ∉ membersAt (regionalObjects st) k;
  n_regionalInteractions : forall k, h ∉ membersAt (regionalInteractions st) k;
  n_history : forall c, objPubHistory st !! (c, h) = None;
  n_objOptions : forall k, optionAt (objOptions st) k h = None;
  n_intActive : forall k, optionAt (intActive st) k h = None;
  n_switches : switches st !! h = None;
  n_rates : forall e, e ∈ regionalRates st -> r_Subscriber e <> h;
  n_owners : forall obj v a, rateObjects st !! obj = Some v -> owners v !! a <> Some h;
  n_pending : forall key, key ∈ pendingAdvice st -> Recipient key <> h;
  n_snapshots : objSubSnapshots st = ∅ /\ intSubSnapshots st = ∅;
}.
Record keepsOthers (h : FederateHandle) (st st' : federationState) : Prop := {
  k_objPubs : forall k h', h' <> h -> h' ∈ membersAt (objPubs st') k <-> h' ∈ membersAt (objPubs st) k;
  k_objSubs : forall k h', h' <> h -> h' ∈ membersAt (objSubs st') k <-> h' ∈ membersAt (objSubs st) k;
  k_intPubs : forall k h', h' <> h -> h' ∈ membersAt (intPubs st') k <-> h' ∈ membersAt (intPubs st) k;
  k_intSubs : forall k h', h' <> h -> h' ∈ membersAt (intSubs st') k <-> h' ∈ membersAt (intSubs st) k;
  k_regionalObjects : forall k h', h' <> h -> h' ∈ membersAt (regionalObjects st') k <-> h' ∈ membersAt (regionalObjects st) k;
  k_regionalInteractions : forall k h', h' <> h -> h' ∈ membersAt (regionalInteractions st') k <-> h' ∈ membersAt (regionalInteractions st) k;
  k_history : forall c h', h' <> h -> objPubHistory st' !! (c, h') = objPubHistory st !! (c, h');
  k_objOptions : forall k h', h' <> h -> optionAt (objOptions st') k h' = optionAt (objOptions st) k h';
  k_intActive : forall k h', h' <> h -> optionAt (intActive st') k h' = optionAt (intActive st) k h';
  k_switches : forall h', h' <> h -> switches st' !! h' = switches st !! h';
}.
(** What is left of each field. *)
Record removedFrom (h : FederateHandle) (st st' : federationState) : Prop := {
  e_objPubs : objPubs st' = removeMembers (fun _ => true) (objPubs st) h;
  e_objSubs : objSubs st' = removeMembers (fun _ => true) (objSubs st) h;
  e_intPubs : intPubs st' = removeMembers (fun _ => true) (intPubs st) h;
  e_intSubs : intSubs st' = removeMembers (fun _ => true) (intSubs st) h;
  e_regionalObjects : regionalObjects st' = removeMembers (fun _ => true) (regionalObjects st) h;
  e_regionalInteractions : regionalInteractions st' = removeMembers (fun _ => true) (regionalInteractions st) h;
  e_history : objPubHistory st' = filter (fun kt : objectPublicationKey * bool => kt.1.2 <> h) (objPubHistory st);
  e_objOptions : objOptions st' = removeOptions (objOptions st) h;
  e_intActive : intActive st' = removeOptions (intActive st) h;
  e_switches : switches st' = delete h (switches st);
  e_rates : regionalRates st' = List.filter (fun e => negb (r_Subscriber e =? h)) (regionalRates st);
  e_owners : rateObjects st' = (fun state => RateObject (class state) ((fun owner => if owner =? h then 0 else owner) <$> owners state)) <$> rateObjects st;
  e_pending : pendingAdvice st' = filter (fun key => Recipient key <> h) (pendingAdvice st);
  e_snapshots : objSubSnapshots st' = ∅ /\ intSubSnapshots st' = ∅;
}.
Lemma removeFederate_fields h st : removedFrom h st (removeFederate h st).
Proof. by constructor. Qed.
Lemma removed_owner h st st' obj v a : removedFrom h st st' -> h <> 0 -> rateObjects st' !! obj = Some v -> owners v !! a <> Some h.
Proof.
  intros [] H0. rewrite e_owners0, lookup_fmap. destruct (rateObjects st !! obj) as [v0|]; simpl; [|done]. intros [= <-]. simpl. rewrite lookup_fmap. destruct (owners v0 !! a) as [o|]; simpl; [|done]. destruct (Z.eqb_spec o h); congruence.
Qed.
Lemma removed_declares_nothing h st st' x : removedFrom h st st' -> h <> 0 -> (forall key, key ∈ x -> Recipient key <> h) -> declaresNothing h (set_pendingAdvice st' x).
Proof.
  intros Hr H0 Hx. pose proof Hr as []. constructor; simpl; try done;
    try (intros k; rewrite ?e_objPubs0, ?e_objSubs0, ?e_intPubs0, ?e_intSubs0, ?e_regionalObjects0, ?e_regionalInteractions0, removes_in; naive_solver).
  - intros c. rewrite e_history0. apply map_lookup_filter_None. right. intros b _ []. done.
  - intros k. by rewrite e_objOptions0, optionAt_removes, decide_True.
  - intros k. by rewrite e_intActive0, optionAt_removes, decide_True.
  - rewrite e_switches0. apply lookup_delete_eq.
  - intros e. rewrite e_rates0, filter_elem, negb_true_iff, Z.eqb_neq. tauto.
  - intros obj v a. by eapply removed_owner.
Qed.
Lemma removed_keeps_others h st st' x : removedFrom h st st' -> keepsOthers h st (set_pendingAdvice st' x).
Proof.
  intros []. constructor; simpl;
    try (intros k h' Hn; rewrite ?e_objPubs0, ?e_objSubs0, ?e_intPubs0, ?e_intSubs0, ?e_regionalObjects0, ?e_regionalInteractions0, removes_in; naive_solver).
  - intros c h' Hn. rewrite e_history0. destruct (objPubHistory st !! (c, h')) eqn:E; [by apply map_lookup_filter_Some|]. apply map_lookup_filter_None. by left.
  - intros k h' Hn. by rewrite e_objOptions0, optionAt_removes, decide_False.
  - intros k h' Hn. by rewrite e_intActive0, optionAt_removes, decide_False.
  - intros h' Hn. rewrite e_switches0. by apply lookup_delete_ne.
Qed.
Lemma removed_unadvised h st st' fom key d : removedFrom h st st' -> h <> 0 -> desiredAdvice st' fom !! key = Some d -> Recipient key <> h.
Proof.
  intros Hr H0 Hd Hk. apply advice_exact in Hd as [(p & cls & b & -> & _ & _ & (a & Ha) & _)|[(p & cls & b & -> & _ & _ & Ha & _)|(h' & obj & a & state & -> & _ & _ & Hs & Ha & _)]]; simpl in Hk; subst.
  - rewrite (e_objPubs _ _ _ Hr), removes_in in Ha. naive_solver.
  - rewrite (e_intPubs _ _ _ Hr), removes_in in Ha. naive_solver.
  - by apply (removed_owner h st st' obj state a).
Qed.
(** Resignation always succeeds, whatever the outbox and the repository of object models answer: afterwards the federate appears nowhere in the declarations of the federation, no advisory is pending for it, and the declarations of every other federate are as they were. *)
Theorem resigned_declares_nothing opts m f h : h <> 0 -> exists st', fed (OnFederateResign opts m f h).1 !! f = Some st' /\ declaresNothing h st' /\ forall st, fed m !! f = Some st -> keepsOthers h st st'.
Proof.
  intros H0. unfold OnFederateResign, changeMandatory, changeMode, changeChecked. simpl.
  assert (Hw : forall fom, exists st', fed (after (changeWith opts m f fom (fun st => Ret (removeFederate h st, ())) true)) !! f = Some st' /\ declaresNothing h st' /\ forall st, fed m !! f = Some st -> keepsOthers h st st').
  { intros fom. pose proof (changeWith_case opts m f fom (fun st => Ret (removeFederate h st, ())) true) as Hc. unfold changeCase in Hc. cbv zeta in Hc. set (st0 := cloneFederationState m f fom) in *.
    pose proof (removeFederate_fields h st0) as Hr. set (st1 := removeFederate h st0) in *. clearbody st1.
    assert (Hx : exists x, fed (after (changeWith opts m f fom (fun st => Ret (removeFederate h st, ())) true)) !! f = Some (set_pendingAdvice st1 x) /\ forall key, key ∈ x -> Recipient key <> h).
    { destruct (advisoryOutbox opts).
      - destruct Hc as [(_ & -> & _)|(_ & _ & ->)]; simpl; rewrite lookup_insert_eq; eexists; (split; [done|]); [by intros key Hk%not_elem_of_empty|].
        intros key (_ & [d Hd] & _)%keptAdvice_in. by eapply removed_unadvised.
      - rewrite Hc. simpl. rewrite lookup_insert_eq. exists (pendingAdvice st1). split; [by destruct st1|]. intros key. rewrite (e_pending _ _ _ Hr), elem_of_filter. tauto. }
    destruct Hx as (x & Hf & Hx). exists (set_pendingAdvice st1 x). split; [done|]. split; [by eapply removed_declares_nothing|].
    intros st E. assert (Hst : st0 = set_address st (nextAddress m)) by (unfold st0, cloneFederationState; by rewrite E). rewrite Hst in Hr. destruct (removed_keeps_others h _ st1 x Hr). by constructor. }
  destruct (model opts f) as [fom [e|]]; apply Hw.
Qed.
Lemma resigned_declares_nothing_witness : exists st', fed (OnFederateResign demoOptions demo "f" 20).1 !! "f"%string = Some st' /\ declaresNothing 20 st' /\ pendingAdvice st' <> ∅.
Proof.
  destruct (resigned_declares_nothing demoOptions demo "f" 20) as (st' & E & Hn & _); [done|]. exists st'. split; [exact E|]. split; [exact Hn|].
  assert (Ho : match fed (OnFederateResign demoOptions demo "f" 20).1 !! "f"%string with Some st => negb (bool_decide (pendingAdvice st = ∅)) | None => false end = true) by (vm_compute; reflexivity).
  rewrite E in Ho. intros Hp. rewrite Hp in Ho. discriminate Ho.
Defined.

(** ** Publication *)
(** An accepted publication adds exactly the attributes named, for that federate and class, and the delete privilege as long as the federate has neither published nor unpublished it by name; nothing else of the publications changes. *)
Theorem publication_effect opts m f pub cls attrs fom : modelFor opts f = Ret fom -> result (PublishObjectClassAttributes opts m f pub cls attrs) = Ret () ->
  let privilege := deletePrivilege fom cls in let before := cloneFederationState m f fom in
  exists st', fed (after (PublishObjectClassAttributes opts m f pub cls attrs)) !! f = Some st' /\ forall h c a, h ∈ membersAt (objPubs st') (c, a) <->
    h ∈ membersAt (objPubs before) (c, a) \/ h = pub /\ c = cls /\ (a ∈ attrs \/ a = privilege /\ privilege <> 0 /\ attrs <> [] /\ privilege ∉ attrs /\
      match objPubHistory before !! (cls, pub) with Some touched => touched = false | None => pub ∉ membersAt (objPubs before) (cls, privilege) end).
Proof.
  intros Hm Hr. cbv zeta. unfold PublishObjectClassAttributes in *. rewrite Hm in *. simpl in *. set (mutate := fun st => Ret (publishAttributes (deletePrivilege fom cls) pub cls (sortCompact attrs) st)) in *.
  assert (Hmod : model opts f = (fom, None)) by (unfold modelFor in Hm; destruct (model opts f) as [fom' [e|]]; congruence).
  unfold changeChecked in *. rewrite Hmod in *. pose proof (changeWith_case opts m f fom mutate false) as Hc. unfold changeCase in Hc. cbv zeta in Hc. unfold mutate in Hc at 1. set (before := cloneFederationState m f fom) in *.
  destruct (publish_eq (deletePrivilege fom cls) pub cls (sortCompact attrs) before) as (pubs & Ep & _ & Hi).
  destruct (publishAttributes _ _ _ _ before) as [st added] eqn:Est. simpl in Ep.
  assert (Hst : exists st', fed (after (changeWith opts m f fom mutate false)) !! f = Some st' /\ objPubs st' = pubs).
  { destruct (advisoryOutbox opts); [|rewrite Hc; exists st; simpl; rewrite lookup_insert_eq; by rewrite Ep].
    destruct Hc as [(_ & -> & _)|((e & E) & _)]; [exists (set_pendingAdvice st ∅); simpl; rewrite lookup_insert_eq; by rewrite Ep|]. by rewrite E in Hr. }
  destruct Hst as (st' & Hf & Hpubs). exists st'. split; [done|]. intros h c a. rewrite Hpubs, Hi, pair_in, sortCompact_in. unfold implicitPrivilege.
  assert (Hnil : sortCompact attrs = [] <-> attrs = []).
  { split; [|by intros ->]. intros E. apply elem_of_nil_inv. intros x Hx. apply (not_elem_of_nil x). rewrite <- E. by apply sortCompact_in. }
  rewrite orb_false_iff, Z.eqb_neq, bool_decide_eq_false, Hnil, andb_true_iff, !negb_true_iff, bool_decide_eq_false, sortCompact_in.
  destruct (objPubHistory before !! (cls, pub)) as [touched|]; rewrite ?negb_true_iff, ?bool_decide_eq_false, ?published_in; rewrite pair_equal_spec; tauto.
Qed.
Lemma demo_new_history : objPubHistory (cloneFederationState New "f" (Some demoModel)) !! (1, 10) = None.
Proof. reflexivity. Qed.
Lemma demo_new_members : membersAt (objPubs (cloneFederationState New "f" (Some demoModel))) (1, 1) = ∅.
Proof. reflexivity. Qed.
Lemma publication_effect_witness : exists st', fed (after (PublishObjectClassAttributes demoOptions New "f" 10 1 [3; 2])) !! "f"%string = Some st' /\ 10 ∈ membersAt (objPubs st') (1, 1) /\ 10 ∈ membersAt (objPubs st') (1, 3).
Proof.
  destruct (publication_effect demoOptions New "f" 10 1 [3; 2] (Some demoModel)) as (st' & E & H); [reflexivity|vm_compute; reflexivity|]. exists st'. split; [exact E|].
  assert (Hp : deletePrivilege (Some demoModel) 1 = 1) by (vm_compute; reflexivity).
  split; apply H; right; (split; [reflexivity|]); (split; [reflexivity|]); [right; rewrite Hp|left; left].
  split; [reflexivity|]. split; [lia|]. split; [discriminate|]. split; [rewrite !elem_of_cons, elem_of_nil; lia|]. rewrite demo_new_history, demo_new_members. apply not_elem_of_empty.
Defined.

(** ** Unpublication *)
(** C19: Wherever other services come in between, an unpublication is one step: it either leaves the manager as those services left it, commits no ownership plan and reports why, or acts as its commit alone would at one moment of their history, with the attributes it was given, or with every attribute the federate publishes of the class at that moment. *)
Theorem unpublication_linearizes opts fuel cancelled qs m f pub cls attrs whole r : fresh m ->
  unpublishObject opts fuel cancelled (fun i => run opts (qs i)) m f pub cls attrs whole = Some r ->
  exists others, let m' := run opts others m in
    refused m' r \/ attrs = [] /\ whole = false /\ r = Reply m [] (Ret ()) \/
    exists candidates, (if whole then publishedOf (fed m' !! f) pub cls ⊆ candidates else forall a, a ∈ candidates <-> a ∈ attrs) /\ committed opts f pub cls m' candidates r.
Proof.
  intros Hf. unfold unpublishObject.
  assert (Hrefuse : forall e, e <> Ret () -> exists others, let m' := run opts others m in refused m' (Reply m [] e) \/ attrs = [] /\ whole = false /\ Reply m [] e = Reply m [] (Ret ()) \/
    exists candidates, (if whole then publishedOf (fed m' !! f) pub cls ⊆ candidates else forall a, a ∈ candidates <-> a ∈ attrs) /\ committed opts f pub cls m' candidates (Reply m [] e)).
  { intros e He. exists []. left. split; [done|]. split; [apply not_elem_of_nil|done]. }
  destruct (cancelled O); [intros [= <-]; by apply Hrefuse|].
  destruct (_ ≫= _) as [[fom candidates]|e|s] eqn:E; [|intros [= <-]; by apply Hrefuse..].
  apply bind_Ret_inv in E as (fom' & Hm%modelFor_fom & E). apply bind_Ret_inv in E as (candidates' & Hr & [= -> ->]). subst.
  assert (Hc : whole = false -> forall a, a ∈ candidates <-> a ∈ attrs) by (intros ->; unfold unpublicationCandidates in Hr; bind_inv Hr; injection Hr as <-; intros a; apply sortCompact_in).
  destruct (negb whole && bool_decide (candidates = [])) eqn:En.
  { intros [= <-]. apply andb_true_iff in En as [Ew En]. apply negb_true_iff in Ew. apply bool_decide_eq_true in En. exists []. right. left. split; [|done].
    apply elem_of_nil_inv. intros a Ha. apply (Hc Ew) in Ha. rewrite En in Ha. by apply not_elem_of_nil in Ha. }
  destruct (prepareObjectUnpublication _ _ _ _ _ _) as [plan|e|s]; [|intros [= <-]; by apply Hrefuse..]. intros Hl.
  destruct (loop_settles opts f pub cls fuel 1 cancelled qs m candidates whole plan r Hf Hl) as (others & candidates' & Hcc & [Hs|(c & Hcw & Hs)]); exists others; [by left|right; right].
  exists c. split; [|done]. destruct whole; [apply Hcw|]. subst. by apply Hc.
Qed.
Lemma demo_fresh : fresh demo.
Proof. apply (evolves_fresh New); [|apply run_evolves]. intros f st E. simpl in E. by rewrite lookup_empty in E. Qed.
(** Another federate publishes the class while the first unpublishes it. *)
Definition demoOthers (i : nat) : list request := match i with 1%nat => [QPublish "f" 10 1 [3]] | _ => [] end.
Definition grantingOutbox : Outbox := {| Send := fun _ _ => None; Reserve := Some (fun _ _ => Reservation None) |}.
Definition grantingOptions : Options := Build_Options (Some (fun _ => (Some demoModel, None))) (Some grantingOutbox) true true None None.
Definition demoUnpublication : option (reply ()) := unpublishObject grantingOptions 3 (fun _ => false) (fun i => run grantingOptions (demoOthers i)) demo "f" 10 1 [] true.
Lemma unpublication_linearizes_witness : (publishedOf (r ← demoUnpublication; fed (after r) !! "f"%string) 10 1 = []) /\ exists r others, demoUnpublication = Some r /\ result r = Ret () /\
  (refused (run grantingOptions others demo) r \/ [] = ([] : list Z) /\ true = false /\ r = Reply demo [] (Ret ()) \/ exists candidates, publishedOf (fed (run grantingOptions others demo) !! "f"%string) 10 1 ⊆ candidates /\ committed grantingOptions "f" 10 1 (run grantingOptions others demo) candidates r).
Proof.
  split; [vm_compute; reflexivity|]. assert (H : exists r, demoUnpublication = Some r /\ result r = Ret ()).
  { destruct demoUnpublication as [r|] eqn:E; [|vm_compute in E; discriminate E]. exists r. split; [reflexivity|]. assert (Hr : result <$> demoUnpublication = Some (Ret ())) by (vm_compute; reflexivity). rewrite E in Hr. injection Hr as Hr. exact Hr. }
  destruct H as (r & E & Hr). exists r. destruct (unpublication_linearizes grantingOptions 3 (fun _ => false) demoOthers demo "f" 10 1 [] true r demo_fresh E) as (others & Ho). exists others. split; [exact E|]. split; [exact Hr|exact Ho].
Defined.
(** An unpublication returns: when from attempt [k] on the other services leave the manager alone, [k + 2] attempts are enough, whatever the ports answer. *)
Theorem unpublication_returns opts k cancelled others m f pub cls attrs whole : (forall j, (k < j)%nat -> others j = fun m => m) ->
  is_Some (unpublishObject opts (k + 2) cancelled others m f pub cls attrs whole).
Proof.
  intros Hq. unfold unpublishObject. destruct (cancelled O); [by eexists|]. destruct (_ ≫= _) as [[fom candidates]|e|s] eqn:E; [|by eexists..].
  apply bind_Ret_inv in E as (fom' & Hm%modelFor_fom & E). apply bind_Ret_inv in E as (candidates' & Hr & [= -> ->]). subst. destruct (negb whole && _); [by eexists|].
  destruct (prepareObjectUnpublication _ _ _ _ _ _) as [plan|e|s]; [|by eexists..]. apply loop_returns. intros j Hj. apply Hq. lia.
Qed.
Lemma unpublication_returns_witness : is_Some demoUnpublication.
Proof. apply (unpublication_returns grantingOptions 1). intros j Hj. destruct j as [|[|j]]; [lia|lia|reflexivity]. Defined.

Lemma select_spec expected candidates p touched a : NoDup expected -> a ∈ selectUnpublicationAttributes expected candidates p touched <->
  a ∈ expected /\ (a ∈ candidates \/ a = p /\ p <> 0 /\ touched = false /\ forall b, b ∈ expected -> b = p \/ b ∈ candidates).
Proof.
  intros Hnd. unfold selectUnpublicationAttributes. cbv zeta. set (chosen := List.filter _ expected).
  assert (Hch : forall b, b ∈ chosen <-> b ∈ expected /\ b ∈ candidates) by (intros b; unfold chosen; by rewrite filter_elem, bool_decide_eq_true).
  assert (Hcnd : NoDup chosen) by (apply NoDup_ListNoDup, List.NoDup_filter, NoDup_ListNoDup, Hnd).
  assert (Hlen : p ∈ expected -> p ∉ chosen -> (Z.of_nat (length chosen) =? Z.of_nat (length expected) - 1) = true <-> forall b, b ∈ expected -> b = p \/ b ∈ candidates).
  { intros Hin Hp. assert (Hc : p :: chosen ⊆+ expected).
    { apply NoDup_submseteq; [by constructor|]. intros b [->|Hb]%elem_of_cons; [done|]. by apply Hch. }
    rewrite Z.eqb_eq. split.
    - intros El b Hb. assert (Hall : p :: chosen ≡ₚ expected) by (apply submseteq_length_Permutation; [done|simpl; lia]). rewrite <- Hall in Hb. apply elem_of_cons in Hb as [|Hb]; [by left|right]. by apply Hch.
    - intros Hall. assert (Hb : expected ⊆+ p :: chosen).
      { apply NoDup_submseteq; [done|]. intros b Hb. destruct (Hall b Hb) as [->|]; [by left|right]. by apply Hch. }
      apply submseteq_length in Hc, Hb. simpl in *. lia. }
  destruct (negb (p =? 0) && negb touched && bool_decide (p ∈ expected) && negb (bool_decide (p ∈ chosen)) && (Z.of_nat (length chosen) =? Z.of_nat (length expected) - 1)) eqn:Ec.
  - rewrite !andb_true_iff, !negb_true_iff, bool_decide_eq_true, bool_decide_eq_false, Z.eqb_neq in Ec. destruct Ec as ((((Hp0 & Ht) & Hin) & Hp) & El). pose proof (proj1 (Hlen Hin Hp) El) as Hall.
    rewrite sortHandles_in, elem_of_app, list_elem_of_singleton, Hch. naive_solver.
  - rewrite Hch. split; [tauto|]. intros [Ha [Hc|(-> & Hp0 & Ht & Hall)]]; [done|]. destruct (decide (p ∈ chosen)) as [Hp|Hp]; [by apply Hch|].
    rewrite (proj2 (Z.eqb_neq _ _) Hp0), Ht, (bool_decide_true (p ∈ expected)), (bool_decide_false (p ∈ chosen)) in Ec by done. simpl in Ec. rewrite (proj2 (Hlen Ha Hp) Hall) in Ec. done.
Qed.
(** A committed unpublication removes exactly the candidates from what the federate publishes of the class, with the delete privilege when it was implicit and nothing else is left, and touches no other publication. *)
Theorem unpublication_effect opts m f pub cls candidates ownership : let fom := fomOf opts f in let before := cloneFederationState m f fom in let privilege := deletePrivilege fom cls in
  let c := commitNow opts m f pub cls candidates ownership in result c = Ret () ->
  exists st', fed (after c) !! f = Some st' /\ forall h k a, h ∈ membersAt (objPubs st') (k, a) <-> h ∈ membersAt (objPubs before) (k, a) /\
    ~ (h = pub /\ k = cls /\ (a ∈ candidates \/ a = privilege /\ privilege <> 0 /\ default false (objPubHistory before !! (cls, pub)) = false /\
        forall b, pub ∈ membersAt (objPubs before) (cls, b) -> b = privilege \/ b ∈ candidates)).
Proof.
  cbv zeta. intros Hr. set (fom := fomOf opts f). set (before := cloneFederationState m f fom).
  pose proof (commitUnpublication_cases opts m f pub cls fom candidates (match fed m !! f with Some st => selectedNow fom st pub cls candidates | None => [] end) (deletePrivilege fom cls) ownership) as Hc. cbv zeta in Hc.
  destruct Hc as [(_ & Ha & _)|((e & E) & _)]; [|unfold commitNow in Hr; cbv zeta in Hr; fold fom in Hr; by rewrite E in Hr].
  unfold commitNow. cbv zeta. fold fom. rewrite Ha. eexists. split; [simpl; apply lookup_insert_eq|]. intros h k a. simpl. fold before.
  assert (Hu : forall selected, objPubs (unpublishAttributes pub cls candidates selected (deletePrivilege fom cls) before) = objPubs (removePublications pub cls selected before)).
  { intros selected. unfold unpublishAttributes. cbv zeta. case_bool_decide; [done|]. by destruct (_ && _). }
  rewrite Hu, removed_in, pair_in.
  assert (Hs : forall a, a ∈ match fed m !! f with Some st => selectedNow fom st pub cls candidates | None => [] end <-> a ∈ selectUnpublicationAttributes (publishedAttributes before pub cls) candidates (deletePrivilege fom cls) (default false (objPubHistory before !! (cls, pub)))).
  { intros x. unfold before, cloneFederationState. destruct (fed m !! f) as [st|]; [done|].
    change (publishedAttributes (set_defaults (newFederationState (nextAddress m)) (defaultSwitches fom)) pub cls) with (@nil Z). by rewrite select_nil. }
  rewrite Hs, select_spec by apply published_NoDup. setoid_rewrite published_in. naive_solver.
Qed.
Lemma unpublication_effect_witness : exists st', fed (after (commitNow grantingOptions demo "f" 10 1 [2] None)) !! "f"%string = Some st' /\ 10 ∉ membersAt (objPubs st') (1, 1) /\ 10 ∉ membersAt (objPubs st') (1, 2).
Proof.
  destruct (unpublication_effect grantingOptions demo "f" 10 1 [2] None) as (st' & E & H); [vm_compute; reflexivity|]. exists st'. split; [exact E|].
  assert (Hp : publishedAttributes (cloneFederationState demo "f" (Some demoModel)) 10 1 = [1; 2]) by (vm_compute; reflexivity).
  split; intros [_ Hn]%H; apply Hn; (split; [reflexivity|]); (split; [reflexivity|]); [right|left; left].
  split; [reflexivity|]. split; [discriminate|]. split; [vm_compute; reflexivity|]. intros b Hb. apply published_in in Hb. change (fomOf grantingOptions "f") with (Some demoModel) in *. rewrite Hp in Hb. apply elem_of_cons in Hb as [->|Hb]; [left; reflexivity|right; exact Hb].
Defined.

(** The checks of a restore, decided on a concrete state. *)
Lemma objectHandles_check t : Forall (fun kp : objAttrKey * FederateHandle => kp.1.1 <> 0 /\ kp.1.2 <> 0 /\ kp.2 <> 0) (publications t) -> objectHandles t.
Proof. rewrite Forall_forall. intros Hf k h Hin%publications_in. by apply (Hf (k, h)). Qed.
Lemma interactionHandles_check t : Forall (fun kp : InteractionClassHandle * FederateHandle => kp.1 <> 0 /\ kp.2 <> 0) (publications t) -> interactionHandles t.
Proof. rewrite Forall_forall. intros Hf k h Hin%publications_in. by apply (Hf (k, h)). Qed.
Definition validated (fom : FOMHandle) (o : SubscriptionOptions) : bool := match validateSubscriptionOptions fom o with Ret _ => true | _ => false end.
Lemma validated_Ret fom o : validated fom o = true -> validateSubscriptionOptions fom o = Ret ().
Proof. unfold validated. by destruct (validateSubscriptionOptions fom o) as [[]| |]. Qed.
Definition saveableb (fom : FOMHandle) (st : federationState) : bool :=
  bool_decide (Forall (fun kp : objAttrKey * FederateHandle => kp.1.1 <> 0 /\ kp.1.2 <> 0 /\ kp.2 <> 0) (publications (objPubs st) ++ publications (objSubs st) ++ publications (regionalObjects st)))
  && bool_decide (Forall (fun kp : InteractionClassHandle * FederateHandle => kp.1 <> 0 /\ kp.2 <> 0) (publications (intPubs st) ++ publications (intSubs st) ++ publications (regionalInteractions st)))
  && forallb (fun kh : objAttrKey * Z => validated fom (default (Opts true "") (optionAt (objOptions st) kh.1 kh.2))) (cells (objOptions st))
  && bool_decide (Forall (fun hk : Z * Z => hk.1 <> 0) (cells (switches st)))
  && bool_decide (Forall (fun ov : Z * rateObject => ov.1 <> 0 /\ class ov.2 <> 0 /\ owners ov.2 !! 0 = None) (map_to_list (rateObjects st)))
  && bool_decide (NoDup (regionalRates st))
  && forallb (fun e => bool_decide (r_Object e <> 0 /\ r_Attribute e <> 0 /\ r_Subscriber e <> 0) && validated fom (r_Options e)) (regionalRates st)
  && forallb (fun key => bool_decide (is_Some (desiredAdvice st fom !! key)) && switchEnabled st (Recipient key) (Kind key)) (elements (pendingAdvice st)).
Lemma saveableb_sound fom st : decl_wf fom st -> saveableb fom st = true -> saveable fom st.
Proof.
  intros Hw. unfold saveableb. rewrite !andb_true_iff, !bool_decide_eq_true, !forallb_forall, !Forall_app. setoid_rewrite <- list_elem_of_In.
  intros (((((((Ho & Hi) & Hopt) & Hsw) & Hr) & Hnd) & Hd) & Hp). destruct Ho as (Ho1 & Ho2 & Ho3), Hi as (Hi1 & Hi2 & Hi3). constructor; try done; try (by apply objectHandles_check); try (by apply interactionHandles_check).
  - intros k h o E. apply validated_Ret. specialize (Hopt (k, h)). rewrite cells_in in Hopt. simpl in Hopt. rewrite E in Hopt. apply Hopt. by eexists.
  - intros h kind e E. apply (proj1 (Forall_forall _ _) Hsw (h, kind)). apply cells_in. by eexists.
  - intros obj v E. apply (proj1 (Forall_forall _ _) Hr (obj, v)). by apply elem_of_map_to_list.
  - intros e He. specialize (Hd e He). apply andb_true_iff in Hd as [Hn%bool_decide_eq_true Hv%validated_Ret]. naive_solver.
  - intros key Hk. specialize (Hp key). rewrite elem_of_elements, andb_true_iff, bool_decide_eq_true in Hp. by apply Hp.
Qed.
(** A federation with an advisory that its outbox refused. *)
Definition refusedRequests : list request := demoRequests ++ [QResign "f" 20].
Abbreviation refusedDemo := (run demoOptions refusedRequests New).
Definition refusedState : federationState := default (newFederationState 0) (fed refusedDemo !! "f"%string).
Lemma reached_wf opts qs f st : fed (run opts qs New) !! f = Some st -> decl_wf (fomOf opts f) st.
Proof. apply run_wf, New_wf. Qed.
Lemma default_at {A} (d : A) (o : option A) : match o with Some _ => true | None => false end = true -> o = Some (default d o).
Proof. by destruct o. Qed.
Lemma refusedState_at : fed refusedDemo !! "f"%string = Some refusedState.
Proof. apply default_at. vm_compute. reflexivity. Qed.
Lemma refusedState_wf : decl_wf (Some demoModel) refusedState.
Proof. exact (reached_wf demoOptions refusedRequests "f" refusedState refusedState_at). Qed.
(** [UnpublishInteractionClass] changes the state in place and leaves a pending
    advisory without its publication: what is then saved does not restore. *)
Lemma orphan_pending_not_restorable : let m := run demoOptions [QUnpublishInteraction "f" 10 7] refusedDemo in
  ImportState demoOptions New "f" (Some (ExportState m "f")) = Fail (decl_errorf "declaration: orphan pending advisory").
Proof. vm_compute. reflexivity. Qed.
