(* ===== verification/Fed.v ===== *)
(** * Federation management: state, environment and queries

    The record of a federation execution and the manager's tables
    ([rti/internal/hla/federation/manager.go]), the outside world a call sees
    (clock, journal, repository of object models, preparations and hooks), the
    members a handle or an identity names, and the read-only services
    ([manager.go], [automatic_resign.go], [joined_modules.go]).

    A [*federationState] is an address into [objects], as a destroyed execution
    stays reachable by the calls that looked it up before. *)
From stdpp Require Import gmap strings pretty.
From Stdlib Require Import Strings.Byte.
From S2P Require Import Prelude GoBytes GoUtf8.
Open Scope Z_scope.

Abbreviation FederationName := string.
Abbreviation FederateHandle := Z.
Abbreviation ResignAction := Z.
Abbreviation Mode := Z.
Abbreviation TransportMode := Z.

Definition InvalidFederateHandle : FederateHandle := 0.
Definition ResignActionUnspecified : ResignAction := 0.
Definition ResignActionUnconditionallyDivestAttributes : ResignAction := 1.
Definition ResignActionDeleteThenDivest : ResignAction := 2.
Definition ResignActionCancelThenDelete : ResignAction := 3.
Definition ResignActionCancelPendingOwnership : ResignAction := 4.
Definition ResignActionNoAction : ResignAction := 5.
Definition ResignActionDeleteObjects : ResignAction := 6.
Definition ModeUnspecified : Mode := 0.
Definition ModeVerbose : Mode := 1.
Definition ModeBestEffort : Mode := 2.
Definition TransportModeUnspecified : TransportMode := 0.
Definition TransportModeGRPC : TransportMode := 1.
Definition TransportModeDDS : TransportMode := 2.
(** [^uint32(0)] *)
Definition maxUint32 : Z := 2 ^ 32 - 1.

(** [errOf] is [errors.New] or [fmt.Errorf] without [%w]; [errWrap] with it. *)
Inductive federation_error :=
| ErrFederationInvalidName
| ErrFederationAlreadyExists
| ErrFederationNotFound
| ErrFederationHasFederatesJoined
| ErrFederationGenerationMismatch
| ErrFederateNotJoined
| ErrFederateNameAlreadyInUse
| ErrResignActionUnsupported
| ErrCouldNotCreateLogicalTimeFactory
| errContext
| errOf (what : string)
| errWrap (what : string) (e : federation_error)
| errOutside (what : Z).

Record FOMModule := Module_ { Path : string; XML : list byte }.
(** What the manager asks of a handle: the answers of the type assertions to
    [core.AutomaticResignDefault] and [core.FOMMIMSelection]. *)
Record FOMHandle := FOM_ {
  fom_id : Z;
  AutomaticResignAction : option ResignAction;
  SelectedMIM : option (option FOMModule);
}.
#[export] Instance FOMModule_eq_dec : EqDecision FOMModule.
Proof. solve_decision. Defined.
#[export] Instance FOMHandle_eq_dec : EqDecision FOMHandle.
Proof. solve_decision. Defined.

Record MemberIdentity := Identity {
  Federation : FederationName;
  Generation : Z;
  Name : string;
  Handle : FederateHandle;
  Incarnation : Z;
}.
Record CreateFederationRequest := {
  c_Name : FederationName;
  c_FOMModules : list FOMModule;
  c_MIMModule : option FOMModule;
  c_Mode : Mode;
  c_StallTimeout : Z;
  c_Seed : Z;
  c_TransportMode : TransportMode;
  c_DDSDomainID : Z;
  c_LogicalTimeImplementationName : string;
}.
Record JoinFederationRequest := {
  j_Federation : FederationName;
  j_FederateName : string;
  j_FederateType : string;
  j_ExpectedGeneration : option Z;
  j_AdditionalFOMModules : list FOMModule;
  j_ExpectedMIMModule : option FOMModule;
}.

(** A Go map answers the zero value for a key it does not have: zero (also for
    the zero time), or the empty string. *)
Definition zeroOf (o : option Z) : Z := default 0 o.
Definition emptyOf (o : option string) : string := default "" o.

(** ** The state of one execution *)
Record federationState := State {
  name : FederationName;
  mode : Mode;
  stallTimeout : Z;
  seed : Z;
  generation : Z;
  logicalTimeImplementationName : string;
  transportMode : TransportMode;
  ddsDomainID : Z;
  destroying : bool;
  fom : FOMHandle;
  nextFederateHandle : Z;
  nameToHandle : gmap string FederateHandle;
  handleToName : gmap FederateHandle string;
  membershipIncarnation : gmap FederateHandle Z;
  automaticResign : gmap string ResignAction;
  joinedAt : gmap FederateHandle Z;
  federateType : gmap FederateHandle string;
  joinedModules : gmap FederateHandle (list FOMModule);
}.
(** The maps a membership is spread over, replaced together. *)
Record roster := Roster {
  r_names : gmap string FederateHandle;
  r_handles : gmap FederateHandle string;
  r_incarnations : gmap FederateHandle Z;
  r_directives : gmap string ResignAction;
  r_joined : gmap FederateHandle Z;
  r_types : gmap FederateHandle string;
  r_modules : gmap FederateHandle (list FOMModule);
}.
Definition rosterOf (fs : federationState) : roster :=
  Roster (nameToHandle fs) (handleToName fs) (membershipIncarnation fs) (automaticResign fs) (joinedAt fs) (federateType fs) (joinedModules fs).
Definition emptyRoster : roster := Roster ∅ ∅ ∅ ∅ ∅ ∅ ∅.
Definition withState (fs : federationState) (dying : bool) (f : FOMHandle) (next : Z) (r : roster) : federationState :=
  State (name fs) (mode fs) (stallTimeout fs) (seed fs) (generation fs) (logicalTimeImplementationName fs) (transportMode fs) (ddsDomainID fs)
    dying f next (r_names r) (r_handles r) (r_incarnations r) (r_directives r) (r_joined r) (r_types r) (r_modules r).
Definition set_roster (fs : federationState) (r : roster) : federationState := withState fs (destroying fs) (fom fs) (nextFederateHandle fs) r.
Definition set_destroying (fs : federationState) : federationState := withState fs true (fom fs) (nextFederateHandle fs) (rosterOf fs).
Definition set_fom (fs : federationState) (f : FOMHandle) : federationState := withState fs (destroying fs) f (nextFederateHandle fs) (rosterOf fs).
Definition set_next (fs : federationState) (next : Z) : federationState := withState fs (destroying fs) (fom fs) next (rosterOf fs).
Definition set_directives (fs : federationState) (d : gmap string ResignAction) : federationState :=
  let r := rosterOf fs in set_roster fs (Roster (r_names r) (r_handles r) (r_incarnations r) d (r_joined r) (r_types r) (r_modules r)).
Definition set_modules (fs : federationState) (ms : gmap FederateHandle (list FOMModule)) : federationState :=
  let r := rosterOf fs in set_roster fs (Roster (r_names r) (r_handles r) (r_incarnations r) (r_directives r) (r_joined r) (r_types r) ms).

(** ** The manager *)
Record Manager := {
  objects : gmap Z federationState;
  nextObject : Z;
  federations : gmap FederationName Z;
  generations : gmap FederationName Z;
  generationBase : Z;
  generationSpan : Z;
  DefaultStallTimeout : Z;
}.
Definition stateAt (m : Manager) (id : Z) : option federationState := objects m !! id.
Definition lookupFederation (m : Manager) (f : FederationName) : option (Z * federationState) :=
  id ← federations m !! f; fs ← stateAt m id; Some (id, fs).
Definition store (m : Manager) (id : Z) (fs : federationState) : Manager :=
  {| objects := <[id := fs]> (objects m); nextObject := nextObject m; federations := federations m; generations := generations m;
     generationBase := generationBase m; generationSpan := generationSpan m; DefaultStallTimeout := DefaultStallTimeout m |}.
Definition unlist (m : Manager) (f : FederationName) : Manager :=
  {| objects := objects m; nextObject := nextObject m; federations := delete f (federations m); generations := generations m;
     generationBase := generationBase m; generationSpan := generationSpan m; DefaultStallTimeout := DefaultStallTimeout m |}.

(** [New]; the clock and the repository are required, the epoch and the span
    are [uint32]. *)
Definition defaultStallTimeoutSeconds : Z := 60.
Definition New (clock foms : bool) (stall epoch span : Z) : outcome federation_error Manager :=
  check clock orelse errOf "federation: Options.Clock is required" ;;
  check foms orelse errOf "federation: Options.FOMs is required" ;;
  Ret {| objects := ∅; nextObject := 1; federations := ∅; generations := ∅;
         generationBase := wrapU 32 epoch; generationSpan := wrapU 32 span;
         DefaultStallTimeout := if stall =? 0 then defaultStallTimeoutSeconds else stall |}.

(** ** The outside world of one call *)
Inductive journalRecord :=
| FederationJoined (WallNS : Z) (FederateName : string) (FederateHandle : FederateHandle) (FederateType : string)
    (AdditionalFOMModules : list FOMModule) (FOMRevision : Z) (FOMDigest : string)
| FederationResigned (WallNS : Z) (FederateHandle : FederateHandle) (Action : ResignAction).
(** [core.FOMExtensionPreparation]: its model, the revision and digest of its
    view, and how its two fallible steps end. *)
Record extension := Extension {
  x_FOM : FOMHandle;
  x_Revision : Z;
  x_Digest : string;
  x_PrepareCommit : outcome federation_error ();
  x_Commit : outcome federation_error ();
}.
(** [ResignPreparation]; [p_finalizer] says that it is a [ResignFinalizer]. *)
Record preparation := Preparation { p_Commit : outcome federation_error (); p_finalizer : bool }.
Record Environment := {
  ResolveTimeImplementation : option (string -> outcome federation_error string);
  Now : Z;
  EventLog : option (FederationName -> journalRecord -> outcome federation_error ());
  Load : list FOMModule -> outcome federation_error FOMHandle;
  LoadWithMIM : option (list FOMModule -> FOMModule -> outcome federation_error FOMHandle);
  Get : FederationName -> outcome federation_error FOMHandle;
  PrepareJoinFOM : option (FederationName -> list FOMModule -> outcome federation_error (option extension));
  PrepareResign : option (FederationName -> FederateHandle -> ResignAction -> outcome federation_error (option preparation));
  OnFederateLost : option (MemberIdentity -> outcome federation_error ());
  OnFederationDestroying : option (FederationName -> outcome federation_error ());
}.

(** What a call did to the outside, in order.  The optional hooks that cannot
    fail are recorded whether or not they are set. *)
Inductive effect :=
| Journal (f : FederationName) (r : journalRecord)
| CreateSetup (generation : Z)
| DestroyingHook (f : FederationName)
| ExtensionReserved
| ExtensionPublished
| ExtensionReleased
| JoinedHook (f : FederationName) (h : FederateHandle) (federateName : string) (type : string)
| JoinSetup (identity : MemberIdentity)
| LostHook (identity : MemberIdentity)
| ResignPrepared (f : FederationName) (h : FederateHandle) (action : ResignAction)
| ResignCommitted
| ResignReleased
| ResigningHook (f : FederationName) (h : FederateHandle) (action : ResignAction)
| OutcomeHook (f : FederationName) (h : FederateHandle) (action : ResignAction) (commit : outcome federation_error ())
| ResignedHook (f : FederationName) (h : FederateHandle)
| AfterResign.
Record reply (A : Type) := Reply { after : Manager; effects : list effect; result : outcome federation_error A }.
Arguments Reply {A} _ _ _.
Arguments after {A} _.
Arguments effects {A} _.
Arguments result {A} _.

(** A call refused before it did anything. *)
Definition refuse {A} (m : Manager) (e : federation_error) : reply A := Reply m [] (Fail e).
(** [if err := guard; err != nil { return err }] before anything was done. *)
Definition passing {A B} (m : Manager) (guard : outcome federation_error B) (k : B -> reply A) : reply A :=
  match guard with Ret b => k b | Fail e => Reply m [] (Fail e) | Panic s => Reply m [] (Panic s) end.
(** Effects that come before those of the rest of the call. *)
Definition before {A} (es : list effect) (r : reply A) : reply A := Reply (after r) (es ++ effects r) (result r).
(** A deferred effect. *)
Definition deferred {A} (r : reply A) (es : list effect) : reply A := Reply (after r) (effects r ++ es) (result r).

(** ** Handles *)
(** [(generation << 32) | local], the local part alone in generation 0. *)
Definition assignedHandle (generation localHandle : Z) : FederateHandle :=
  if 0 <? generation then wrapU 64 (Z.lor (Z.shiftl generation 32) localHandle) else localHandle.
(** [uint64(at.UnixNano())] *)
Definition journalWallNS (at_ : Z) : Z := wrapU 64 at_.
Definition validResignAction (action : ResignAction) : bool :=
  (action =? ResignActionUnconditionallyDivestAttributes) || (action =? ResignActionDeleteThenDivest)
  || (action =? ResignActionCancelThenDelete) || (action =? ResignActionCancelPendingOwnership)
  || (action =? ResignActionNoAction) || (action =? ResignActionDeleteObjects).

(** ** Queries *)
(** The listed execution, one that is being destroyed counting as absent. *)
Definition liveFederation (m : Manager) (f : FederationName) : option federationState :=
  '(_, fs) ← lookupFederation m f; if destroying fs then None else Some fs.
Definition LogicalTimeImplementationFor (m : Manager) (f : FederationName) : option string := logicalTimeImplementationName <$> liveFederation m f.
Definition TransportFor (m : Manager) (f : FederationName) : option (TransportMode * Z) :=
  '(_, fs) ← lookupFederation m f; Some (transportMode fs, ddsDomainID fs).
Definition ModeFor (m : Manager) (f : FederationName) : option Mode := mode <$> liveFederation m f.
Definition GenerationFor (m : Manager) (f : FederationName) : option Z := generation <$> liveFederation m f.
Definition FOMFor (m : Manager) (f : FederationName) : outcome federation_error FOMHandle :=
  match liveFederation m f with Some fs => Ret (fom fs) | None => Fail ErrFederationNotFound end.
Definition EventLogMetadataFor (m : Manager) (f : FederationName) : option (Z * Mode * Z) :=
  fs ← liveFederation m f; Some (generation fs, mode fs, seed fs).

Definition sortedNames {V} (t : gmap string V) : list string := merge_sort String.le (elements (dom t)).
Definition sortedMembers (fs : federationState) : list FederateHandle := sortHandles (elements (dom (handleToName fs))).
Record FederationSummary := Summary {
  s_Name : FederationName; s_Mode : Mode; s_FederatesJoined : Z; s_Generation : Z; s_LogicalTime : string }.
Definition summary (fs : federationState) : outcome federation_error FederationSummary :=
  let joined := Z.of_nat (size (handleToName fs)) in
  check negb (maxUint32 <? joined) orelse errOf "federation: member count exceeds wire representation" ;;
  Ret (Summary (name fs) (mode fs) joined (generation fs) (logicalTimeImplementationName fs)).
Definition List_ (m : Manager) : outcome federation_error (list FederationSummary) :=
  foldr (fun f acc => match lookupFederation m f with
                      | Some (_, fs) => s ← summary fs; l ← acc; Ret (s :: l)
                      | None => acc
                      end) (Ret []) (sortedNames (federations m)).
Record FederationMember := Member { m_Handle : FederateHandle; m_Name : string; m_FederateType : string }.
Definition member (fs : federationState) (h : FederateHandle) : option FederationMember :=
  n ← handleToName fs !! h; Some (Member h n (emptyOf (federateType fs !! h))).
Definition ListMembers (m : Manager) (f : FederationName) : list FederationMember :=
  match lookupFederation m f with Some (_, fs) => omap (member fs) (sortedMembers fs) | None => [] end.
Definition MembersOf (m : Manager) (f : FederationName) : list FederateHandle :=
  match lookupFederation m f with Some (_, fs) => sortedMembers fs | None => [] end.
Definition FederateTypeOf (m : Manager) (f : FederationName) (h : FederateHandle) : option string :=
  '(_, fs) ← lookupFederation m f; _ ← handleToName fs !! h; Some (emptyOf (federateType fs !! h)).
Record FederateInfo := Info { i_Handle : FederateHandle; i_Name : string; i_JoinedAt : Z; i_Type : string }.
Record FederationRoster := RosterOf {
  o_Name : FederationName; o_Generation : Z; o_Mode : Mode; o_Federates : list FederateInfo;
  o_TransportMode : TransportMode; o_DDSDomainID : Z; o_LogicalTime : string }.
Definition info (fs : federationState) (h : FederateHandle) : option FederateInfo :=
  n ← handleToName fs !! h; Some (Info h n (zeroOf (joinedAt fs !! h)) (emptyOf (federateType fs !! h))).
Definition rosterSnapshot (fs : federationState) : FederationRoster :=
  RosterOf (name fs) (generation fs) (mode fs) (omap (info fs) (sortedMembers fs)) (transportMode fs) (ddsDomainID fs) (logicalTimeImplementationName fs).
Definition Snapshot (m : Manager) : list FederationRoster :=
  omap (fun f => '(_, fs) ← lookupFederation m f; Some (rosterSnapshot fs)) (sortedNames (federations m)).
Definition identityOf (f : FederationName) (fs : federationState) (h : FederateHandle) : outcome federation_error MemberIdentity :=
  match handleToName fs !! h with
  | Some n => Ret (Identity f (generation fs) n h (zeroOf (membershipIncarnation fs !! h)))
  | None => Fail ErrFederateNotJoined
  end.
Definition MemberIdentity_ (m : Manager) (f : FederationName) (h : FederateHandle) : outcome federation_error MemberIdentity :=
  match liveFederation m f with Some fs => identityOf f fs h | None => Fail ErrFederationNotFound end.
Definition JoinedModules (cancelled : bool) (m : Manager) (f : FederationName) (h : FederateHandle) : outcome federation_error (list FOMModule) :=
  if cancelled then Fail errContext
  else match lookupFederation m f with
       | None => Fail ErrFederationNotFound
       | Some (_, fs) =>
           match handleToName fs !! h, joinedModules fs !! h with
           | None, _ => Fail ErrFederateNotJoined
           | Some _, Some modules => Ret modules
           | Some _, None => Fail (errOf "federation: join module history unavailable")
           end
       end.
