(* ===== verification/FedService.v ===== *)
(** * Federation management: the services

    Creation and destruction, joining, resignation, automatic resign directives
    and the admission of members ([manager.go], [automatic_resign.go],
    [selected_mim.go], [local_validation.go]).

    Each service first looks the execution up, then takes its gates, then looks
    again: the part under the gates takes the address that was found first, so
    that what other calls did in between is in the manager it is given. *)
From stdpp Require Import gmap strings pretty.
From Stdlib Require Import Strings.Byte.
From S2P Require Import Prelude GoBytes LogicalTime GoUtf8 Fed.
Open Scope Z_scope.

(** ** Creation *)
(** [core.ResolveLogicalTimeImplementationCapabilities] *)
Definition ResolveLogicalTimeImplementationCapabilities (n : string) (supported : list string) : outcome federation_error string :=
  let n := if String.eqb n "" then Representation_String HLAfloat64Time else n in
  if (String.eqb n (Representation_String HLAfloat64Time) || String.eqb n (Representation_String HLAinteger64Time)) && existsb (String.eqb n) supported
  then Ret n else Fail ErrCouldNotCreateLogicalTimeFactory.
Definition ResolveLogicalTimeImplementationName (n : string) : outcome federation_error string :=
  ResolveLogicalTimeImplementationCapabilities n [Representation_String HLAfloat64Time].

(** What is settled before the manager's table is locked: the time
    representation and the object model. *)
Definition prepareCreate (env : Environment) (req : CreateFederationRequest) : outcome federation_error (string * FOMHandle) :=
  check negb (String.eqb (c_Name req) "") orelse ErrFederationInvalidName ;;
  timeImplementation ← default ResolveLogicalTimeImplementationName (ResolveTimeImplementation env) (c_LogicalTimeImplementationName req);
  fom ← match c_MIMModule req with
        | Some mim =>
            if String.eqb (Path mim) "HLAstandardMIM" then Fail (errOf "federation: explicit MIM designator must not be HLAstandardMIM")
            else match LoadWithMIM env with
                 | None => Fail (errOf "explicit MIM selection is unsupported")
                 | Some load => mapErr (errWrap "create") (load (c_FOMModules req) mim)
                 end
        | None => mapErr (errWrap "create") (Load env (c_FOMModules req))
        end;
  Ret (timeImplementation, fom).
Definition newFederationState (m : Manager) (req : CreateFederationRequest) (timeImplementation : string) (f : FOMHandle) (generation : Z) : federationState :=
  withState
    (State (c_Name req) (if c_Mode req =? ModeUnspecified then ModeVerbose else c_Mode req)
       (if c_StallTimeout req =? 0 then wrapS 64 (DefaultStallTimeout m * 1000000000) else c_StallTimeout req)
       (c_Seed req) generation timeImplementation
       (if c_TransportMode req =? TransportModeUnspecified then TransportModeGRPC else c_TransportMode req)
       (c_DDSDomainID req) false f 0 ∅ ∅ ∅ ∅ ∅ ∅ ∅)
    false f 0 emptyRoster.
(** The section under [m.mu]: the address and the generation of the execution. *)
Definition publishFederation (m : Manager) (req : CreateFederationRequest) (timeImplementation : string) (f : FOMHandle) : outcome federation_error (Manager * (Z * Z)) :=
  match federations m !! c_Name req with
  | Some _ => Fail ErrFederationAlreadyExists
  | None =>
      let generation := default (generationBase m) (generations m !! c_Name req) in
      check negb (maxUint32 <? generation) orelse errOf "generation exhausted" ;;
      check negb ((0 <? generationSpan m) && (wrapU 64 (generationBase m + generationSpan m) <=? generation)) orelse errOf "reserved generation block exhausted" ;;
      let id := nextObject m in
      Ret ({| objects := <[id := newFederationState m req timeImplementation f generation]> (objects m); nextObject := id + 1;
              federations := <[c_Name req := id]> (federations m);
              generations := <[c_Name req := wrapU 64 (generation + 1)]> (generations m);
              generationBase := generationBase m; generationSpan := generationSpan m; DefaultStallTimeout := DefaultStallTimeout m |}, (id, generation))
  end.
(** A failed setup removes the execution; its generation is not recycled. *)
Definition withdrawFederation (m : Manager) (f : FederationName) (id : Z) : Manager :=
  match stateAt m id with Some fs => unlist (store m id (set_destroying fs)) f | None => unlist m f end.
Definition createFederation (env : Environment) (m : Manager) (req : CreateFederationRequest) (setup : option (Z -> outcome federation_error ())) : reply () :=
  passing m (prepareCreate env req) (fun tf =>
  passing m (publishFederation m req tf.1 tf.2) (fun '(m', (id, generation)) =>
    match setup with
    | None => Reply m' [] (Ret ())
    | Some setup => match setup generation with
                    | Fail e => Reply (withdrawFederation m' (c_Name req) id) [CreateSetup generation] (Fail e)
                    | r => Reply m' [CreateSetup generation] r
                    end
    end)).
Definition CreateFederation env m req : reply () := createFederation env m req None.
Definition CreateFederationWithSetup env m req (setup : bool) : reply () := createFederation env m req (Some (fun _ => Ret ())).
Definition CreateFederationWithCheckedSetup env m req setup : reply () := createFederation env m req setup.

(** ** Destruction *)
(** [current == fs]: the execution found first is still the listed one. *)
Definition stillListed (m : Manager) (f : FederationName) (id : Z) : bool := bool_decide (federations m !! f = Some id).
(** Up to the mark that makes the execution absent to new calls. *)
Definition beginDestroy (m : Manager) (f : FederationName) (id : Z) (expected : option Z) : outcome federation_error Manager :=
  match stateAt m id with
  | Some fs =>
      check stillListed m f id orelse ErrFederationNotFound ;;
      check match expected with Some e => generation fs =? e | None => true end orelse errWrap "expected, current" ErrFederationGenerationMismatch ;;
      check (size (handleToName fs) =? 0)%nat orelse ErrFederationHasFederatesJoined ;;
      Ret (store m id (set_destroying fs))
  | None => Fail ErrFederationNotFound
  end.
Definition destroyLocked (env : Environment) (m : Manager) (f : FederationName) (id : Z) (expected : option Z) : reply () :=
  passing m (beginDestroy m f id expected) (fun m' =>
    match OnFederationDestroying env with
    | None => Reply (unlist m' f) [] (Ret ())
    | Some hook => match hook f with
                   | Panic s => Reply m' [DestroyingHook f] (Panic s)
                   | r => Reply (unlist m' f) [DestroyingHook f] (mapErr (errWrap "destroy cleanup") r)
                   end
    end).
Definition destroyFederation (env : Environment) (m : Manager) (f : FederationName) (expected : option Z) : reply () :=
  match federations m !! f with
  | None => refuse m ErrFederationNotFound
  | Some id => destroyLocked env m f id expected
  end.
Definition DestroyFederation env m f : reply () := destroyFederation env m f None.
Definition DestroyFederationGeneration env m f expected : reply () := destroyFederation env m f (Some expected).

(** ** Joining *)
(** The execution of a join or a resignation, under its gates. *)
Definition gatedFederation (m : Manager) (f : FederationName) (id : Z) : outcome federation_error federationState :=
  match stateAt m id with
  | Some fs => check stillListed m f id && negb (destroying fs) orelse ErrFederationNotFound ;; Ret fs
  | None => Fail ErrFederationNotFound
  end.
(** [strings.TrimSpace(s) == ""] *)
Definition IsSpace (r : Z) : bool :=
  existsb (Z.eqb r) [9; 10; 11; 12; 13; 32; 0x85; 0xA0; 0x1680; 0x2028; 0x2029; 0x202F; 0x205F; 0x3000] || between 0x2000 0x200A r.
Definition isBlank (s : string) : bool := forallb IsSpace (runes_of s).
Definition validateExpectedMIM (env : Environment) (f : FederationName) (expected : FOMModule) : outcome federation_error () :=
  check negb (isBlank (Path expected)) && negb (bool_decide (XML expected = [])) orelse errOf "federation: expected MIM requires designator and XML" ;;
  handle ← mapErr (errWrap "federation: expected MIM lookup") (Get env f);
  match SelectedMIM handle with
  | None => Fail (errOf "federation: expected MIM selection is unavailable")
  | Some actual => check bool_decide (actual = Some expected) orelse errOf "federation: selected MIM does not match join expectation" ;; Ret ()
  end.
(** [for suffix := uint64(1); ; suffix++]: the first name not in use.  [fuel]
    bounds the iterations. *)
Fixpoint firstUnused (fuel : nat) (names : gmap string FederateHandle) (base candidate : string) (suffix : Z) : option string :=
  match fuel with
  | O => None
  | S fuel => match names !! candidate with
              | None => Some candidate
              | Some _ => firstUnused fuel names base (base +:+ "-" +:+ pretty suffix) (wrapU 64 (suffix + 1))
              end
  end.
Definition generatedName (names : gmap string FederateHandle) (assigned : FederateHandle) : option string :=
  let base := "HLAfederate-" +:+ pretty assigned in firstUnused (S (size names)) names base base 1.
Definition federateName (fs : federationState) (req : JoinFederationRequest) (assigned : FederateHandle) : option string :=
  if String.eqb (j_FederateName req) "" then generatedName (nameToHandle fs) assigned else Some (j_FederateName req).

Definition enterRoster (r : roster) (n : string) (h : FederateHandle) (now : Z) (type : string) : roster :=
  Roster (<[n := h]> (r_names r)) (<[h := n]> (r_handles r)) (<[h := h]> (r_incarnations r)) (r_directives r)
    (<[h := now]> (r_joined r)) (<[h := type]> (r_types r)) (r_modules r).
(** The rollback of a join whose journal record was not written. *)
Definition leaveRoster (r : roster) (n : string) (h : FederateHandle) : roster :=
  Roster (delete n (r_names r)) (delete h (r_handles r)) (delete h (r_incarnations r)) (r_directives r)
    (delete h (r_joined r)) (delete h (r_types r)) (r_modules r).
Definition appendJournal (env : Environment) (f : FederationName) (rec : journalRecord) : list effect * outcome federation_error () :=
  match EventLog env with None => ([], Ret ()) | Some append => ([Journal f rec], append f rec) end.
Definition joinRecord (env : Environment) (req : JoinFederationRequest) (n : string) (h : FederateHandle) (ext : option extension) : journalRecord :=
  FederationJoined (journalWallNS (Now env)) n h (j_FederateType req) (j_AdditionalFOMModules req)
    (match ext with Some x => x_Revision x | None => 0 end) (match ext with Some x => x_Digest x | None => "" end).
(** What a join does once its record is written and its model is published. *)
Definition settleMember (fs : federationState) (req : JoinFederationRequest) (n : string) (h : FederateHandle) : federationState :=
  let fs := set_modules fs (<[h := j_AdditionalFOMModules req]> (joinedModules fs)) in
  set_directives fs (<[n := default ResignActionNoAction (AutomaticResignAction (fom fs))]> (automaticResign fs)).
Definition joinPrepared (env : Environment) (m : Manager) (id : Z) (fs : federationState) (req : JoinFederationRequest) (setup : bool) (ext : option extension) : reply FederateHandle :=
  let f := j_Federation req in
  let local := wrapU 64 (nextFederateHandle fs + 1) in
  let fs := set_next fs local in
  if maxUint32 <? local then Reply (store m id fs) [] (Fail (errOf "federation: federate handle space exhausted"))
  else
    let h := assignedHandle (generation fs) local in
    match federateName fs req h with
    | None => Reply (store m id fs) [] (Panic "no name found")
    | Some n =>
        let entered := set_roster fs (enterRoster (rosterOf fs) n h (Now env) (j_FederateType req)) in
        let '(logged, appended) := appendJournal env f (joinRecord env req n h ext) in
        match appended with
        | Fail e => Reply (store m id (set_roster entered (leaveRoster (rosterOf entered) n h))) logged (Fail (errWrap "eventlog append" e))
        | Panic s => Reply (store m id entered) logged (Panic s)
        | Ret _ =>
            let finish fs published :=
              Reply (store m id (settleMember fs req n h)) (logged ++ published ++ [JoinedHook f h n (j_FederateType req)]
                ++ (if setup then [JoinSetup (Identity f (generation fs) n h h)] else [])) (Ret h) in
            match ext with
            | None => finish entered []
            | Some x => match x_Commit x with
                        | Ret _ => finish (set_fom entered (x_FOM x)) [ExtensionPublished]
                        | Fail e => Reply (store m id entered) (logged ++ [ExtensionPublished]) (Fail (errWrap "publish reserved join FOM" e))
                        | Panic s => Reply (store m id entered) (logged ++ [ExtensionPublished]) (Panic s)
                        end
            end
        end
    end.
Definition validateJoin (env : Environment) (m : Manager) (id : Z) (req : JoinFederationRequest) : outcome federation_error federationState :=
  fs ← gatedFederation m (j_Federation req) id;
  check match j_ExpectedGeneration req with Some e => generation fs =? e | None => true end orelse errWrap "expected, current" ErrFederationGenerationMismatch ;;
  check negb (bool_decide (is_Some (nameToHandle fs !! j_FederateName req))) orelse ErrFederateNameAlreadyInUse ;;
  _ ← match j_ExpectedMIMModule req with Some mim => validateExpectedMIM env (j_Federation req) mim | None => Ret () end;
  Ret fs.
Definition prepareExtension (env : Environment) (req : JoinFederationRequest) : outcome federation_error extension :=
  match PrepareJoinFOM env with
  | None => Fail (errOf "federation: additional FOM modules are not supported")
  | Some prepare =>
      ext ← mapErr (errWrap "prepare join FOM") (prepare (j_Federation req) (j_AdditionalFOMModules req));
      match ext with Some x => Ret x | None => Fail (errOf "federation: missing FOM preparation") end
  end.
Definition joinLocked (env : Environment) (m : Manager) (id : Z) (req : JoinFederationRequest) (setup : bool) : reply FederateHandle :=
  passing m (validateJoin env m id req) (fun fs =>
    if bool_decide (j_AdditionalFOMModules req = []) then joinPrepared env m id fs req setup None
    else passing m (prepareExtension env req) (fun x =>
      deferred (match x_PrepareCommit x with
                | Ret _ => before [ExtensionReserved] (joinPrepared env m id fs req setup (Some x))
                | Fail e => Reply m [ExtensionReserved] (Fail (errWrap "reserve join FOM" e))
                | Panic s => Reply m [ExtensionReserved] (Panic s)
                end) [ExtensionReleased])).
Definition JoinFederationWithSetup (env : Environment) (m : Manager) (req : JoinFederationRequest) (setup : bool) : reply FederateHandle :=
  match federations m !! j_Federation req with
  | None => refuse m ErrFederationNotFound
  | Some id => joinLocked env m id req setup
  end.
Definition JoinFederation env m req : reply FederateHandle := JoinFederationWithSetup env m req false.

(** ** Admission of members *)
(** What is checked once the gate is taken. *)
Definition admitMember (m : Manager) (f : FederationName) (id : Z) (h : FederateHandle) : outcome federation_error () :=
  fs ← gatedFederation m f id;
  check bool_decide (is_Some (handleToName fs !! h)) orelse ErrFederateNotJoined ;; Ret ().
Definition AcquireMember (m : Manager) (f : FederationName) (h : FederateHandle) : outcome federation_error Z :=
  check negb (h =? InvalidFederateHandle) orelse ErrFederateNotJoined ;;
  match federations m !! f with
  | None => Fail ErrFederationNotFound
  | Some id => _ ← admitMember m f id h; Ret id
  end.
Definition AcquireMemberLease := AcquireMember.
Definition ValidateMember (m : Manager) (f : FederationName) (h : FederateHandle) : outcome federation_error () := _ ← AcquireMember m f h; Ret ().
Definition admitGeneration (m : Manager) (f : FederationName) (id : Z) (expected : Z) : outcome federation_error () :=
  fs ← gatedFederation m f id;
  check generation fs =? expected orelse ErrFederationGenerationMismatch ;; Ret ().
Definition AcquireGeneration (m : Manager) (f : FederationName) (expected : Z) : outcome federation_error Z :=
  match federations m !! f with
  | None => Fail ErrFederationNotFound
  | Some id => _ ← admitGeneration m f id expected; Ret id
  end.
Definition admitSnapshot (late : bool) (m : Manager) (f : FederationName) (id : Z) (h : FederateHandle) (expected : Z) : outcome federation_error () :=
  check negb late orelse errContext ;;
  fs ← gatedFederation m f id;
  check generation fs =? expected orelse ErrFederationGenerationMismatch ;;
  check bool_decide (is_Some (handleToName fs !! h)) orelse ErrFederateNotJoined ;; Ret ().
(** [early] and [late] are what [ctx.Err()] says before and after the gate. *)
Definition AcquireMemberSnapshot (early late : bool) (m : Manager) (f : FederationName) (h : FederateHandle) (expected : Z) : outcome federation_error Z :=
  check negb early orelse errContext ;;
  check negb (h =? InvalidFederateHandle) orelse ErrFederateNotJoined ;;
  match federations m !! f with
  | None => Fail ErrFederationNotFound
  | Some id => _ ← admitSnapshot late m f id h expected; Ret id
  end.

(** ** Resignation *)
(** The member, its name and the action that is carried out. *)
Definition resolveResignMember (fs : federationState) (h : FederateHandle) (action : ResignAction) (expected : option MemberIdentity) (automatic : bool) : outcome federation_error (FederateHandle * string * ResignAction) :=
  h ← match expected with
      | None => Ret h
      | Some identity =>
          match nameToHandle fs !! Name identity with
          | Some currentHandle =>
              check (Generation identity =? generation fs) && negb (Incarnation identity =? 0)
                && (zeroOf (membershipIncarnation fs !! currentHandle) =? Incarnation identity) orelse ErrFederateNotJoined ;;
              Ret currentHandle
          | None => Fail ErrFederateNotJoined
          end
      end;
  match handleToName fs !! h with
  | None => Fail ErrFederateNotJoined
  | Some n =>
      let action := if automatic then zeroOf (automaticResign fs !! n) else action in
      Ret (h, n, if (size (handleToName fs) =? 1)%nat then ResignActionDeleteObjects else action)
  end.
Definition removeMember (r : roster) (n : string) (h : FederateHandle) : roster :=
  Roster (delete n (r_names r)) (delete h (r_handles r)) (delete h (r_incarnations r)) (delete n (r_directives r))
    (delete h (r_joined r)) (delete h (r_types r)) (delete h (r_modules r)).
Definition commitResign (env : Environment) (m : Manager) (f : FederationName) (id : Z) (fs : federationState) (h : FederateHandle) (n : string) (action : ResignAction) (prepared : option preparation) : reply () :=
  let '(logged, appended) := appendJournal env f (FederationResigned (journalWallNS (Now env)) h action) in
  match appended with
  | Fail e => Reply m logged (Fail (errWrap "eventlog append" e))
  | Panic s => Reply m logged (Panic s)
  | Ret _ =>
      let committed := match prepared with Some p => p_Commit p | None => Ret () end in
      let es := logged ++ (match prepared with Some _ => [ResignCommitted] | None => [] end) in
      match committed with
      | Panic s => Reply m es (Panic s)
      | _ =>
          Reply (store m id (set_roster fs (removeMember (rosterOf fs) n h)))
            (es ++ [ResigningHook f h action; OutcomeHook f h action committed; ResignedHook f h]
               ++ match prepared with Some p => if p_finalizer p then [AfterResign] else [] | None => [] end)
            committed
      end
  end.
(** [condition] is what the function of that name answers, where there is one. *)
Definition resignLocked (env : Environment) (m : Manager) (f : FederationName) (id : Z) (h : FederateHandle) (action : ResignAction) (expected : option MemberIdentity) (condition : option bool) (automatic : bool) : reply () :=
  passing m (gatedFederation m f id) (fun fs =>
  passing m (resolveResignMember fs h action expected automatic) (fun '(h, n, action) =>
    if match condition with Some false => true | _ => false end then Reply m [] (Ret ())
    else
      let '(lost, continue) := match expected, OnFederateLost env with
        | Some i, Some hook => if automatic then let i := Identity (Federation i) (Generation i) (Name i) h (Incarnation i) in ([LostHook i], hook i) else ([], Ret ())
        | _, _ => ([], Ret ())
        end in
      before lost (passing m continue (fun _ =>
        match PrepareResign env with
        | None => commitResign env m f id fs h n action None
        | Some prepare =>
            before [ResignPrepared f h action] (passing m (prepare f h action) (fun prepared =>
              deferred (commitResign env m f id fs h n action prepared) (match prepared with Some _ => [ResignReleased] | None => [] end)))
        end)))).
Definition resignFederation (env : Environment) (m : Manager) (f : FederationName) (h : FederateHandle) (action : ResignAction) (expected : option MemberIdentity) (condition : option bool) (automatic : bool) : reply () :=
  if negb (validResignAction action) then refuse m ErrResignActionUnsupported
  else match federations m !! f with
       | None => refuse m ErrFederationNotFound
       | Some id => resignLocked env m f id h action expected condition automatic
       end.
Definition ResignFederation env m f h action : reply () := resignFederation env m f h action None None false.
Definition ResignFederationIdentity env m identity action : reply () :=
  resignFederation env m (Federation identity) (Handle identity) action (Some identity) None false.
Definition AutomaticResignFederation env m identity (disconnected : bool) : reply () :=
  resignFederation env m (Federation identity) (Handle identity) ResignActionNoAction (Some identity) (Some disconnected) true.

(** ** Automatic resign directives *)
Definition directiveOf (m : Manager) (f : FederationName) (h : FederateHandle) : outcome federation_error (Z * federationState * string) :=
  match lookupFederation m f with
  | None => Fail ErrFederationNotFound
  | Some (id, fs) => match handleToName fs !! h with Some n => Ret (id, fs, n) | None => Fail ErrFederateNotJoined end
  end.
Definition SetAutomaticResignDirective (m : Manager) (f : FederationName) (h : FederateHandle) (action : ResignAction) : reply () :=
  if negb (validResignAction action) then refuse m ErrResignActionUnsupported
  else passing m (directiveOf m f h) (fun '(id, fs, n) =>
    Reply (store m id (set_directives fs (<[n := action]> (automaticResign fs)))) [] (Ret ())).
Definition GetAutomaticResignDirective (m : Manager) (f : FederationName) (h : FederateHandle) : outcome federation_error ResignAction :=
  '(_, fs, n) ← directiveOf m f h; Ret (zeroOf (automaticResign fs !! n)).
Record AutomaticResignDirective := Directive { d_Name : string; d_Action : ResignAction }.
Record AutomaticResignState := DirectiveState { Version : Z; Directives : list AutomaticResignDirective }.
Definition exportDirectives (fs : federationState) : AutomaticResignState :=
  DirectiveState 1 (omap (fun n => Directive n <$> automaticResign fs !! n) (sortedNames (automaticResign fs))).
Definition ExportAutomaticResignState (m : Manager) (f : FederationName) : outcome federation_error AutomaticResignState :=
  match lookupFederation m f with Some (_, fs) => Ret (exportDirectives fs) | None => Fail ErrFederationNotFound end.
Fixpoint validateDirectives (ds : list AutomaticResignDirective) (names : gset string) : outcome federation_error () :=
  match ds with
  | [] => Ret ()
  | d :: ds =>
      check negb (String.eqb (d_Name d) "") && negb (bool_decide (d_Name d ∈ names)) && validResignAction (d_Action d)
        orelse errOf "automatic resign: invalid or duplicate directive" ;;
      validateDirectives ds ({[d_Name d]} ∪ names)
  end.
Definition ValidateAutomaticResignState (s : AutomaticResignState) : outcome federation_error () :=
  check Version s =? 1 orelse errOf "automatic resign: unsupported state version" ;; validateDirectives (Directives s) ∅.
Fixpoint importDirectives (fs : federationState) (ds : list AutomaticResignDirective) (values : gmap string ResignAction) : outcome federation_error (gmap string ResignAction) :=
  match ds with
  | [] => Ret values
  | d :: ds => check bool_decide (is_Some (nameToHandle fs !! d_Name d)) orelse errOf "automatic resign: unknown federate" ;;
               importDirectives fs ds (<[d_Name d := d_Action d]> values)
  end.
Definition ImportAutomaticResignState (m : Manager) (f : FederationName) (s : AutomaticResignState) : reply () :=
  passing m (ValidateAutomaticResignState s) (fun _ =>
    match lookupFederation m f with
    | None => refuse m ErrFederationNotFound
    | Some (id, fs) =>
        passing m (check (length (Directives s) =? size (nameToHandle fs))%nat orelse errOf "automatic resign: roster mismatch" ;;
                   importDirectives fs (Directives s) ∅)
          (fun values => Reply (store m id (set_directives fs values)) [] (Ret ()))
    end).
