(* ===== verification/FedRestore.v ===== *)
(** * Federation management: restoration of identities, interleaved calls

    Handles reserved for a restored execution ([restore_handles.go]) and the
    replacement of the live roster by the saved one ([restore_transition.go]).
    [PrepareRestoreIdentity] holds the roster's lock until the reservation it
    returns is committed or released.  Then calls that interleave at their
    gates, as a step relation on a world of executions and holders. *)
From stdpp Require Import gmap strings.
From S2P Require Import Prelude GoBytes Fed FedService.
Open Scope Z_scope.

(** ** Handles *)
Definition liveGeneration (m : Manager) (f : FederationName) (expected : Z) : outcome federation_error (Z * federationState) :=
  match lookupFederation m f with
  | Some (id, fs) =>
      check negb (destroying fs) orelse ErrFederationNotFound ;;
      check generation fs =? expected orelse ErrFederationGenerationMismatch ;; Ret (id, fs)
  | None => Fail ErrFederationNotFound
  end.
(** The largest [uint64] is the internal producer of the management objects. *)
Definition handleLimit (generation : Z) : Z := if generation =? maxUint32 then maxUint32 - 1 else maxUint32.
Definition restoreHandle (generation localHandle : Z) : FederateHandle := Z.lor (wrapU 64 (Z.shiftl generation 32)) localHandle.
(** The loop over [result]: each turn takes the next local handle. *)
Fixpoint takeHandles (generation next : Z) (count : nat) : Z * list FederateHandle :=
  match count with
  | O => (next, [])
  | S count =>
      let next := wrapU 64 (next + 1) in
      let '(last, hs) := takeHandles generation next count in (last, restoreHandle generation next :: hs)
  end.
Definition ReserveRestoreHandles (m : Manager) (f : FederationName) (expected : Z) (count : Z) : reply (list FederateHandle) :=
  if count <=? 0 then refuse m (errOf "restore handle count must be positive")
  else passing m (liveGeneration m f expected) (fun '(id, fs) =>
    let limit := handleLimit expected in
    if (limit <? nextFederateHandle fs) || (limit - nextFederateHandle fs <? count) then refuse m (errOf "restore federate handles exhausted")
    else
      let '(last, hs) := takeHandles expected (nextFederateHandle fs) (Z.to_nat count) in
      Reply (store m id (set_next fs last)) [] (Ret hs)).

(** ** Identities *)
Record RestoreIdentity := {
  ri_Name : string;
  CurrentHandle : FederateHandle;
  SavedHandle : FederateHandle;
  SavedModules : list FOMModule;
  ModulesKnown : bool;
  SavedAutomaticResign : option ResignAction;
}.
Definition validIdentity (fs : federationState) (r : roster) (identity : RestoreIdentity) (generation : Z) : bool :=
  let saved := SavedHandle identity in
  let local := Z.land saved maxUint32 in
  negb (String.eqb (ri_Name identity) "") && negb (CurrentHandle identity =? 0) && negb (SavedHandle identity =? 0)
  && (zeroOf (nameToHandle fs !! ri_Name identity) =? CurrentHandle identity) && String.eqb (emptyOf (handleToName fs !! CurrentHandle identity)) (ri_Name identity)
  && (zeroOf (r_names r !! ri_Name identity) =? 0) && String.eqb (emptyOf (r_handles r !! SavedHandle identity)) ""
  && (Z.shiftr saved 32 =? generation) && negb (local =? 0) && (local <=? nextFederateHandle fs).
(** The modules of a session that rejoined are not those the participant saved;
    without a history [JoinedModules] reports that there is none. *)
Definition restoredModules (fs : federationState) (identity : RestoreIdentity) : option (list FOMModule) :=
  if ModulesKnown identity then Some (SavedModules identity)
  else if CurrentHandle identity =? SavedHandle identity then joinedModules fs !! CurrentHandle identity
  else None.
Definition restoredDirective (fs : federationState) (identity : RestoreIdentity) : ResignAction :=
  match SavedAutomaticResign identity with Some action => action | None => zeroOf (automaticResign fs !! ri_Name identity) end.
Definition restoreMember (fs : federationState) (r : roster) (identity : RestoreIdentity) : roster :=
  let n := ri_Name identity in let saved := SavedHandle identity in let current := CurrentHandle identity in
  Roster (<[n := saved]> (r_names r)) (<[saved := n]> (r_handles r))
    (<[saved := zeroOf (membershipIncarnation fs !! current)]> (r_incarnations r))
    (<[n := restoredDirective fs identity]> (r_directives r))
    (<[saved := zeroOf (joinedAt fs !! current)]> (r_joined r))
    (<[saved := emptyOf (federateType fs !! current)]> (r_types r))
    (match restoredModules fs identity with Some modules => <[saved := modules]> (r_modules r) | None => r_modules r end).
Definition badIdentities : federation_error := errOf "federation restore: participant names/handles are not a same-generation bijection".
Fixpoint restoreMembers (fs : federationState) (generation : Z) (identities : list RestoreIdentity) (r : roster) : outcome federation_error roster :=
  match identities with
  | [] => Ret r
  | identity :: identities =>
      check validIdentity fs r identity generation && validResignAction (restoredDirective fs identity) orelse badIdentities ;;
      restoreMembers fs generation identities (restoreMember fs r identity)
  end.
(** The reservation: the execution whose roster is locked and its replacement. *)
Record restoreIdentityReservation := { v_id : Z; v_roster : roster; v_done : bool }.
Definition prepareRoster (fs : federationState) (generation : Z) (identities : list RestoreIdentity) : outcome federation_error roster :=
  check negb (bool_decide (identities = [])) && (length identities =? size (handleToName fs))%nat orelse badIdentities ;;
  restoreMembers fs generation identities emptyRoster.
Definition PrepareRestoreIdentity (m : Manager) (f : FederationName) (expected : Z) (identities : list RestoreIdentity) : outcome federation_error restoreIdentityReservation :=
  '(id, fs) ← liveGeneration m f expected;
  r ← prepareRoster fs expected identities;
  Ret {| v_id := id; v_roster := r; v_done := false |}.
Definition Commit (m : Manager) (v : restoreIdentityReservation) : Manager * restoreIdentityReservation :=
  if v_done v then (m, v)
  else (match stateAt m (v_id v) with Some fs => store m (v_id v) (set_roster fs (v_roster v)) | None => m end,
        {| v_id := v_id v; v_roster := v_roster v; v_done := true |}).
Definition Release (m : Manager) (v : restoreIdentityReservation) : Manager * restoreIdentityReservation :=
  (m, {| v_id := v_id v; v_roster := v_roster v; v_done := true |}).

(** * Federation management: calls that interleave

    A world is the manager with what running calls hold: leases of the
    operation gates, exclusive or shared, and rosters locked by a restoration.
    A request is the section of a call that runs under its gates; the address it
    names is whatever its first lookup found, however long ago.  [perform]
    blocks ([None]) where the gate or the roster is held against it.  Creation
    with a setup and destruction keep the gate over a call to the outside, the
    restoration of identities keeps the roster, and they are two requests each.
    A restoration does not touch the gate: it runs under the shared lease of the
    call that asks for it, whoever else holds one.  Its callers hold the
    checkpoint admission of [save_restore/admission.go], another lock, which
    every service takes shared before its lease: so a join or a resignation is
    never halfway through when a roster is prepared or replaced, and each is
    one request here. *)
Inductive hold :=
| SharedMember (f : FederationName) (h : FederateHandle)
| SharedGeneration (f : FederationName)
| ExclusiveSnapshot (f : FederationName)
| Creating (f : FederationName)
| Destroying (f : FederationName).
#[export] Instance hold_eq_dec : EqDecision hold.
Proof. solve_decision. Defined.
Definition exclusive (x : hold) : bool := match x with SharedMember _ _ | SharedGeneration _ => false | _ => true end.
(** Held by the manager's own call, which alone gives it back. *)
Definition internal (x : hold) : bool := match x with Creating _ | Destroying _ => true | _ => false end.

Record world := World {
  mgr : Manager;
  holds : list (Z * hold);
  restoring : gmap Z restoreIdentityReservation;
  (** handles joins and reservations have answered, the latest first *)
  issued : list (FederationName * FederateHandle);
}.
Definition holdersOf (w : world) (id : Z) : list hold := omap (fun x : Z * hold => if x.1 =? id then Some x.2 else None) (holds w).
(** [operations.Lock], [operations.RLock] and [fs.mu] can be taken. *)
Definition gateFree (w : world) (id : Z) : bool := bool_decide (holdersOf w id = []).
Definition gateShared (w : world) (id : Z) : bool := forallb (fun x => negb (exclusive x)) (holdersOf w id).
Definition rosterFree (w : world) (id : Z) : bool := bool_decide (restoring w !! id = None).
Definition dropHold (x : Z * hold) (l : list (Z * hold)) : list (Z * hold) :=
  match list_find (fun y => y = x) l with Some (i, _) => take i l ++ drop (S i) l | None => l end.

Inductive request :=
| QCreate (env : Environment) (req : CreateFederationRequest)
| QCreateBegin (env : Environment) (req : CreateFederationRequest)
| QCreateEnd (f : FederationName) (id : Z) (setupOk : bool)
| QDestroyBegin (f : FederationName) (id : Z) (expected : option Z)
| QDestroyEnd (f : FederationName) (id : Z)
| QJoin (env : Environment) (id : Z) (req : JoinFederationRequest)
| QResign (env : Environment) (f : FederationName) (id : Z) (h : FederateHandle) (action : ResignAction)
    (expected : option MemberIdentity) (condition : option bool) (automatic : bool)
| QAcquire (f : FederationName) (id : Z) (h : FederateHandle)
| QAcquireGeneration (f : FederationName) (id : Z) (expected : Z)
| QAcquireSnapshot (f : FederationName) (id : Z) (h : FederateHandle) (expected : Z)
| QRelease (id : Z) (x : hold)
| QSetDirective (f : FederationName) (h : FederateHandle) (action : ResignAction)
| QImportDirectives (f : FederationName) (s : AutomaticResignState)
| QReserve (f : FederationName) (expected : Z) (count : Z)
| QPrepareRestore (f : FederationName) (expected : Z) (identities : list RestoreIdentity)
| QCommitRestore (id : Z)
| QReleaseRestore (id : Z).

Definition with_mgr (w : world) (m : Manager) : world := World m (holds w) (restoring w) (issued w).
Definition with_hold (w : world) (id : Z) (x : hold) : world := World (mgr w) ((id, x) :: holds w) (restoring w) (issued w).
Definition without_hold (w : world) (id : Z) (x : hold) : world := World (mgr w) (dropHold (id, x) (holds w)) (restoring w) (issued w).
Definition with_issued (w : world) (f : FederationName) (hs : list FederateHandle) : world :=
  World (mgr w) (holds w) (restoring w) (map (pair f) hs ++ issued w).
Definition enabled (b : bool) (w : world) : option world := if b then Some w else None.
(** The gate is kept when the call was admitted. *)
Definition admitted (w : world) (guard : outcome federation_error ()) (id : Z) (x : hold) : world :=
  match guard with Ret _ => with_hold w id x | _ => w end.
Definition held (w : world) (id : Z) (x : hold) : bool := bool_decide ((id, x) ∈ holds w).
Definition listedId (m : Manager) (f : FederationName) : Z := zeroOf (federations m !! f).

Definition perform (q : request) (w : world) : option world :=
  let m := mgr w in
  match q with
  | QCreate env req => Some (with_mgr w (after (createFederation env m req None)))
  | QCreateBegin env req =>
      Some (match (tf ← prepareCreate env req; publishFederation m req tf.1 tf.2) with
            | Ret (m', (id, _)) => with_hold (with_mgr w m') id (Creating (c_Name req))
            | _ => w
            end)
  | QCreateEnd f id setupOk =>
      enabled (held w id (Creating f)) (without_hold (with_mgr w (if setupOk then m else withdrawFederation m f id)) id (Creating f))
  | QDestroyBegin f id expected =>
      enabled (gateFree w id && rosterFree w id)
        (match beginDestroy m f id expected with Ret m' => with_hold (with_mgr w m') id (Destroying f) | _ => w end)
  | QDestroyEnd f id => enabled (held w id (Destroying f)) (without_hold (with_mgr w (unlist m f)) id (Destroying f))
  | QJoin env id req =>
      let r := joinLocked env m id req true in
      enabled (gateFree w id && rosterFree w id)
        (with_issued (with_mgr w (after r)) (j_Federation req) (match result r with Ret h => [h] | _ => [] end))
  | QResign env f id h action expected condition automatic =>
      enabled (gateFree w id && rosterFree w id)
        (if validResignAction action then with_mgr w (after (resignLocked env m f id h action expected condition automatic)) else w)
  | QAcquire f id h => enabled (gateShared w id && rosterFree w id) (admitted w (admitMember m f id h) id (SharedMember f h))
  | QAcquireGeneration f id expected => enabled (gateShared w id) (admitted w (admitGeneration m f id expected) id (SharedGeneration f))
  | QAcquireSnapshot f id h expected =>
      enabled (gateFree w id && rosterFree w id) (admitted w (admitSnapshot false m f id h expected) id (ExclusiveSnapshot f))
  | QRelease id x =>
      enabled (held w id x && negb (internal x)) (without_hold w id x)
  | QSetDirective f h action => enabled (rosterFree w (listedId m f)) (with_mgr w (after (SetAutomaticResignDirective m f h action)))
  | QImportDirectives f s => enabled (rosterFree w (listedId m f)) (with_mgr w (after (ImportAutomaticResignState m f s)))
  | QReserve f expected count =>
      let r := ReserveRestoreHandles m f expected count in
      enabled (rosterFree w (listedId m f)) (with_issued (with_mgr w (after r)) f (match result r with Ret hs => reverse hs | _ => [] end))
  | QPrepareRestore f expected identities =>
      enabled (rosterFree w (listedId m f))
        (match PrepareRestoreIdentity m f expected identities with
         | Ret v => World m (holds w) (<[v_id v := v]> (restoring w)) (issued w)
         | _ => w
         end)
  | QCommitRestore id =>
      match restoring w !! id with Some v => Some (World (Commit m v).1 (holds w) (delete id (restoring w)) (issued w)) | None => None end
  | QReleaseRestore id =>
      match restoring w !! id with Some v => Some (World (Release m v).1 (holds w) (delete id (restoring w)) (issued w)) | None => None end
  end.
Fixpoint run (qs : list request) (w : world) : option world :=
  match qs with [] => Some w | q :: qs => w' ← perform q w; run qs w' end.
Definition startsFrom (m : Manager) : world := World m [] ∅ [].

(** ** What the manager relies on outside *)
(** The default directive of a model is an action; a journal and a reserved
    publication do not panic, and the latter does not fail ("a prepared commit
    must not fail after the enclosing join record has been appended"). *)
Definition lawfulFOM (f : FOMHandle) : Prop := match AutomaticResignAction f with Some a => validResignAction a = true | None => True end.
Record lawful (env : Environment) : Prop := {
  lawful_load modules f : Load env modules = Ret f -> lawfulFOM f;
  lawful_mim load modules mim f : LoadWithMIM env = Some load -> load modules mim = Ret f -> lawfulFOM f;
  lawful_journal append f rec : EventLog env = Some append -> no_panic (append f rec);
  lawful_extension prepare f modules x : PrepareJoinFOM env = Some prepare -> prepare f modules = Ret (Some x) ->
    x_PrepareCommit x = Ret () -> x_Commit x = Ret () /\ lawfulFOM (x_FOM x);
}.
Definition lawfulRequest (q : request) : Prop :=
  match q with QCreate env _ | QCreateBegin env _ | QJoin env _ _ | QResign env _ _ _ _ _ _ _ => lawful env | _ => True end.
