(* ===== verification/FedRoster.v ===== *)
(** * Federation management: rosters, worlds and generated names

    The coordinates of a handle, the well-formedness of a roster (the two name
    maps are inverse, the other maps have a row for each member and no other,
    every handle was assigned) and that entering, leaving, settling and
    restoring members preserve it; the invariant of a world; the search for a
    generated name. *)
From stdpp Require Import gmap strings pretty.
From S2P Require Import Prelude GoBytes Fed FedService FedRestore.
Open Scope Z_scope.

(** ** Coordinates *)
Definition coordinate (l : Z) : Prop := 1 <= l <= maxUint32.
Lemma lor_shiftl_add g l : 0 <= g -> 0 <= l < 2 ^ 32 -> Z.lor (Z.shiftl g 32) l = g * 2 ^ 32 + l.
Proof.
  intros Hg Hl. pose proof (Z.add_lor_land (Z.shiftl g 32) l) as E. enough (Z.land (Z.shiftl g 32) l = 0) by (rewrite Z.shiftl_mul_pow2 in * by lia; lia).
  apply Z.bits_inj'. intros i Hi. rewrite Z.land_spec, Z.bits_0.
  destruct (Z.lt_ge_cases i 32) as [Hlt|Hge]; [by rewrite Z.shiftl_spec_low by lia|]. rewrite (Z.bits_above_log2 l i); [by rewrite andb_false_r|lia|].
  destruct (Z.eq_dec l 0) as [->|]; [simpl; lia|]. apply Z.lt_le_trans with 32; [|done]. apply Z.log2_lt_pow2; lia.
Qed.
Lemma assignedHandle_eq g l : 0 <= g <= maxUint32 -> 0 <= l <= maxUint32 -> assignedHandle g l = g * 2 ^ 32 + l.
Proof.
  unfold assignedHandle, maxUint32. intros Hg Hl. destruct (Z.ltb_spec 0 g); [|lia]. rewrite lor_shiftl_add by lia. apply wrapU_id. unfold inU, maxU. lia.
Qed.
Lemma restoreHandle_assigned g l : 0 <= g <= maxUint32 -> 0 <= l <= maxUint32 -> restoreHandle g l = assignedHandle g l.
Proof.
  intros Hg Hl. rewrite assignedHandle_eq by done. unfold restoreHandle, maxUint32 in *. rewrite wrapU_id; [by apply lor_shiftl_add; lia|].
  rewrite Z.shiftl_mul_pow2 by lia. unfold inU, maxU. lia.
Qed.
(** Two executions of a name, or two turns of one, give different handles. *)
Lemma assignedHandle_inj g l g' l' : 0 <= g <= maxUint32 -> 0 <= l <= maxUint32 -> 0 <= g' <= maxUint32 -> 0 <= l' <= maxUint32 ->
  assignedHandle g l = assignedHandle g' l' -> g = g' /\ l = l'.
Proof. intros ????. rewrite !assignedHandle_eq by done. unfold maxUint32 in *. lia. Qed.
Lemma assignedHandle_pos g l : 0 <= g <= maxUint32 -> coordinate l -> 0 < assignedHandle g l.
Proof. unfold coordinate. intros ??. rewrite assignedHandle_eq by lia. lia. Qed.
(** Reading the coordinates of a handle back. *)
Lemma handle_coordinates h g : 0 <= h -> 0 <= g <= maxUint32 -> Z.shiftr h 32 = g -> h = assignedHandle g (Z.land h maxUint32).
Proof.
  intros Hh Hg E. change maxUint32 with (Z.ones 32) at 1. rewrite Z.land_ones by lia. rewrite Z.shiftr_div_pow2 in E by lia.
  pose proof (Z.mod_pos_bound h (2 ^ 32) ltac:(lia)). rewrite assignedHandle_eq by (unfold maxUint32 in *; lia). subst g. pose proof (Z.div_mod h (2 ^ 32) ltac:(lia)). lia.
Qed.

(** ** Well-formed rosters *)
(** [h] is a handle of generation [g] with a local part among the first [n]. *)
Definition assignedIn (g n h : Z) : Prop := exists l, coordinate l /\ l <= n /\ h = assignedHandle g l.
Lemma assignedIn_mono g n n' h : n <= n' -> assignedIn g n h -> assignedIn g n' h.
Proof. intros Hn (l & Hl & Hln & ->). exists l. split; [done|]. split; [lia|done]. Qed.
Lemma assignedIn_fresh g n h l : 0 <= g <= maxUint32 -> coordinate l -> n < l -> assignedIn g n h -> h <> assignedHandle g l.
Proof. intros Hg Hl Hn (l' & Hl' & Hln & ->) E. unfold coordinate in *. apply assignedHandle_inj in E as [_ E]; lia. Qed.

Record roster_wf (g n : Z) (r : roster) : Prop := {
  rw_inverse nm h : r_names r !! nm = Some h <-> r_handles r !! h = Some nm;
  rw_named : r_names r !! "" = None;
  rw_handles h : is_Some (r_handles r !! h) -> assignedIn g n h;
  rw_incarnations h : is_Some (r_incarnations r !! h) <-> is_Some (r_handles r !! h);
  rw_incarnation h i : r_incarnations r !! h = Some i -> assignedIn g n i;
  rw_sessions h h' i : r_incarnations r !! h = Some i -> r_incarnations r !! h' = Some i -> h = h';
  rw_directives nm : is_Some (r_directives r !! nm) <-> is_Some (r_names r !! nm);
  rw_directive nm a : r_directives r !! nm = Some a -> validResignAction a = true;
  rw_joined h : is_Some (r_joined r !! h) <-> is_Some (r_handles r !! h);
  rw_types h : is_Some (r_types r !! h) <-> is_Some (r_handles r !! h);
  rw_modules h : is_Some (r_modules r !! h) -> is_Some (r_handles r !! h);
}.
Lemma roster_mono g n n' r : n <= n' -> roster_wf g n r -> roster_wf g n' r.
Proof. intros Hn Hr. constructor; try apply Hr; intros; (eapply assignedIn_mono; [done|]); [by apply Hr|by eapply rw_incarnation]. Qed.
Lemma empty_roster_wf g n : roster_wf g n emptyRoster.
Proof. constructor; simpl; intros; rewrite ?lookup_empty in *; try done; try (by destruct H); split; (intros [? [=]] || intros [=]). Qed.

Lemma is_Some_insert {K V} `{Countable K} (t : gmap K V) k v j : is_Some (<[k := v]> t !! j) <-> j = k \/ is_Some (t !! j).
Proof. destruct (decide (j = k)) as [->|Hne]; [rewrite lookup_insert_eq; naive_solver|rewrite lookup_insert_ne by done; naive_solver]. Qed.
Lemma is_Some_delete {K V} `{Countable K} (t : gmap K V) k j : is_Some (delete k t !! j) <-> j <> k /\ is_Some (t !! j).
Proof. destruct (decide (j = k)) as [->|Hne]; [rewrite lookup_delete_eq; split; [by intros [? [=]]|by intros [[] _]]|rewrite lookup_delete_ne by done; naive_solver]. Qed.

(** A row entered for a new name under a new handle. *)
Definition addRow (r : roster) (nm : string) (h : FederateHandle) (i : Z) (a : ResignAction) (now : Z) (type : string) (ms : option (list FOMModule)) : roster :=
  Roster (<[nm := h]> (r_names r)) (<[h := nm]> (r_handles r)) (<[h := i]> (r_incarnations r)) (<[nm := a]> (r_directives r))
    (<[h := now]> (r_joined r)) (<[h := type]> (r_types r)) (match ms with Some ms => <[h := ms]> (r_modules r) | None => r_modules r end).
Lemma addRow_wf g n r nm h i a now type ms : roster_wf g n r -> nm <> ""%string -> r_names r !! nm = None -> r_handles r !! h = None ->
  assignedIn g n h -> assignedIn g n i -> (forall h', r_incarnations r !! h' <> Some i) -> validResignAction a = true ->
  roster_wf g n (addRow r nm h i a now type ms).
Proof.
  intros Hr Hnm En Eh Hh Hi Hfresh Ha. constructor; simpl.
  - intros nm' h'. rewrite !lookup_insert_Some. split; intros [[<- <-]|[Hne E]]; try (by left); right.
    + split; [intros <-; apply Hr in E; congruence|by apply Hr].
    + split; [intros <-; apply Hr in E; congruence|by apply Hr].
  - rewrite lookup_insert_ne by done. apply Hr.
  - intros h'. rewrite is_Some_insert. intros [->|]; [done|by apply Hr].
  - intros h'. rewrite !is_Some_insert. by rewrite (rw_incarnations _ _ _ Hr).
  - intros h' i'. rewrite lookup_insert_Some. intros [[<- <-]|[_ E]]; [done|by eapply rw_incarnation].
  - intros h1 h2 i'. rewrite !lookup_insert_Some. intros [[<- <-]|[_ E1]] [[<- E]|[_ E2]]; try done; subst; [by apply Hfresh in E2|by apply Hfresh in E1|by eapply rw_sessions].
  - intros nm'. rewrite !is_Some_insert. by rewrite (rw_directives _ _ _ Hr).
  - intros nm' a'. rewrite lookup_insert_Some. intros [[<- <-]|[_ E]]; [done|by eapply rw_directive].
  - intros h'. rewrite !is_Some_insert. by rewrite (rw_joined _ _ _ Hr).
  - intros h'. rewrite !is_Some_insert. by rewrite (rw_types _ _ _ Hr).
  - intros h'. destruct ms; rewrite ?is_Some_insert; intros Hs; [destruct Hs as [->|Hs]; [by left|right]|right]; by apply (rw_modules _ _ _ Hr).
Qed.
(** The row of a member removed. *)
Lemma removeMember_wf g n r nm h : roster_wf g n r -> r_handles r !! h = Some nm -> roster_wf g n (removeMember r nm h).
Proof.
  intros Hr Eh. assert (Hnames : forall nm', nm' <> nm <-> (forall h', r_names r !! nm' = Some h' -> h' <> h)).
  { intros nm'. split; [intros Hne h' E ->; apply Hr in E; congruence|]. intros Hall ->. apply (Hall h); [by apply Hr|done]. }
  constructor; simpl.
  - intros nm' h'. rewrite !lookup_delete_Some. split; intros [Hne E].
    + split; [|by apply Hr]. intros <-. apply Hr in E. congruence.
    + split; [|by apply Hr]. intros <-. apply Hr in Eh, E. congruence.
  - apply lookup_delete_None. right. apply Hr.
  - intros h'. rewrite is_Some_delete. intros [_ ?]. by apply Hr.
  - intros h'. rewrite !is_Some_delete. by rewrite (rw_incarnations _ _ _ Hr).
  - intros h' i. rewrite lookup_delete_Some. intros [_ E]. by eapply rw_incarnation.
  - intros h1 h2 i. rewrite !lookup_delete_Some. intros [_ E1] [_ E2]. by eapply rw_sessions.
  - intros nm'. rewrite !is_Some_delete. by rewrite (rw_directives _ _ _ Hr).
  - intros nm' a. rewrite lookup_delete_Some. intros [_ E]. by eapply rw_directive.
  - intros h'. rewrite !is_Some_delete. by rewrite (rw_joined _ _ _ Hr).
  - intros h'. rewrite !is_Some_delete. by rewrite (rw_types _ _ _ Hr).
  - intros h'. rewrite !is_Some_delete. intros [? ?]. split; [done|by apply (rw_modules _ _ _ Hr)].
Qed.
(** A join that is rolled back leaves the roster as it was. *)
Lemma leave_enter g n r nm h now type : roster_wf g n r -> r_names r !! nm = None -> r_handles r !! h = None -> leaveRoster (enterRoster r nm h now type) nm h = r.
Proof.
  intros Hr En Eh. unfold leaveRoster, enterRoster. simpl.
  assert (H1 : r_incarnations r !! h = None) by (apply eq_None_not_Some; rewrite (rw_incarnations _ _ _ Hr), Eh; by intros [? [=]]).
  assert (H2 : r_joined r !! h = None) by (apply eq_None_not_Some; rewrite (rw_joined _ _ _ Hr), Eh; by intros [? [=]]).
  assert (H3 : r_types r !! h = None) by (apply eq_None_not_Some; rewrite (rw_types _ _ _ Hr), Eh; by intros [? [=]]).
  rewrite !delete_insert_id by done. by destruct r.
Qed.

(** ** Directives *)
Definition with_directives (r : roster) (d : gmap string ResignAction) : roster :=
  Roster (r_names r) (r_handles r) (r_incarnations r) d (r_joined r) (r_types r) (r_modules r).
Lemma with_directives_wf g n r d : roster_wf g n r -> (forall nm, is_Some (d !! nm) <-> is_Some (r_names r !! nm)) -> (forall nm a, d !! nm = Some a -> validResignAction a = true) ->
  roster_wf g n (with_directives r d).
Proof. intros Hr Hd Ha. constructor; simpl; try apply Hr; [apply Hd|apply Ha]. Qed.
Lemma validDirectives_in ds names : validateDirectives ds names = Ret () -> NoDup (map d_Name ds) /\ forall d, d ∈ ds -> d_Name d <> ""%string /\ d_Name d ∉ names /\ validResignAction (d_Action d) = true.
Proof.
  revert names. induction ds as [|d ds IH]; intros names; simpl; [intros _; split; [constructor|by intros d ?%elem_of_nil]|].
  destruct (String.eqb_spec (d_Name d) ""), (bool_decide_reflect (d_Name d ∈ names)), (validResignAction (d_Action d)) eqn:Ea; simpl; try done.
  intros [Hnd Hall]%IH. split.
  - constructor; [|done]. intros (d' & E & Hd')%list_elem_of_fmap. apply Hall in Hd'. rewrite <- E in Hd'. set_solver.
  - intros d' [->|Hd']%elem_of_cons; [done|]. apply Hall in Hd' as (? & ? & ?). set_solver.
Qed.
Lemma importDirectives_eq fs ds values values' : importDirectives fs ds values = Ret values' ->
  values' = fold_insert d_Name d_Action ds values /\ forall d, d ∈ ds -> is_Some (nameToHandle fs !! d_Name d).
Proof.
  revert values. induction ds as [|d ds IH]; intros values; simpl; [intros [= <-]; split; [done|by intros d ?%elem_of_nil]|].
  case_bool_decide as Hd; [|done]. intros [-> Hall]%IH. split; [done|]. intros d' [->|?]%elem_of_cons; [done|by apply Hall].
Qed.

(** * Federation management: the invariant of a world

    What holds between any two requests, and how one execution's record may be
    replaced by the next ([advances]) without disturbing the rest of the world:
    the counter does not go back and no session appears but with a fresh
    incarnation.  [k] counts the requests served so far, which bounds the
    counter of handles. *)
(** ** States *)
Record fs_wf (k : Z) (fs : federationState) : Prop := {
  fw_generation : 0 <= generation fs <= maxUint32;
  fw_next : 0 <= nextFederateHandle fs <= maxUint32 + k;
  fw_roster : roster_wf (generation fs) (nextFederateHandle fs) (rosterOf fs);
  fw_fom : lawfulFOM (fom fs);
}.
Lemma fs_wf_mono k k' fs : k <= k' -> fs_wf k fs -> fs_wf k' fs.
Proof. intros Hk []. constructor; [done|lia|done..]. Qed.

(** A session: who joined, under the incarnation of the joining. *)
Definition sessionIn (r : roster) (nm : string) (i : Z) : Prop := exists h, r_handles r !! h = Some nm /\ r_incarnations r !! h = Some i.
Definition session (fs : federationState) (nm : string) (i : Z) : Prop := sessionIn (rosterOf fs) nm i.
Definition newIn (fs : federationState) (next' i : Z) : Prop := exists l, coordinate l /\ nextFederateHandle fs < l <= next' /\ i = assignedHandle (generation fs) l.
Record evolvesTo (fs fs' : federationState) : Prop := {
  ev_name : name fs' = name fs;
  ev_generation : generation fs' = generation fs;
  ev_next : nextFederateHandle fs <= nextFederateHandle fs';
  ev_session nm i : session fs' nm i -> session fs nm i \/ newIn fs (nextFederateHandle fs') i;
}.
#[export] Instance evolvesTo_preorder : PreOrder evolvesTo.
Proof.
  split; [constructor; try done; lia || by left|]. intros fs1 fs2 fs3 [Hn1 Hg1 Hx1 Hs1] [Hn2 Hg2 Hx2 Hs2].
  constructor; [congruence|congruence|lia|]. intros nm i [H|(l & Hl & Hln & ->)]%Hs2.
  - apply Hs1 in H as [|(l & Hl & Hln & ->)]; [by left|]. right. exists l. split; [done|]. split; [lia|done].
  - right. exists l. split; [done|]. split; [lia|]. by rewrite Hg1.
Qed.
(** The record of an execution replaced within one request. *)
Definition advances (k : Z) (fs fs' : federationState) : Prop := evolvesTo fs fs' /\ fs_wf (k + 1) fs' /\ destroying fs' = destroying fs.

(** ** Managers *)
Record manager_wf (k : Z) (m : Manager) : Prop := {
  mw_listed f id : federations m !! f = Some id -> exists fs, objects m !! id = Some fs /\ name fs = f;
  mw_state id fs : objects m !! id = Some fs -> id < nextObject m /\ fs_wf k fs /\ exists g, generations m !! name fs = Some g /\ generation fs < g;
  mw_generations f g : generations m !! f = Some g -> 0 <= g <= maxUint32 + 1;
  mw_unique id id' fs fs' : objects m !! id = Some fs -> objects m !! id' = Some fs' -> name fs = name fs' -> generation fs = generation fs' -> id = id';
  mw_base : 0 <= generationBase m <= maxUint32;
  mw_span : 0 <= generationSpan m <= maxUint32;
}.
Definition evolvesM (m m' : Manager) : Prop := forall id fs, objects m !! id = Some fs -> exists fs', objects m' !! id = Some fs' /\ evolvesTo fs fs'.
#[export] Instance evolvesM_preorder : PreOrder evolvesM.
Proof.
  split; [intros m id fs E; by exists fs|]. intros m1 m2 m3 H1 H2 id fs1 E1. destruct (H1 id fs1 E1) as (fs2 & E2 & Ev). destruct (H2 id fs2 E2) as (fs3 & E3 & Ev').
  exists fs3. split; [done|]. by transitivity fs2.
Qed.
Lemma manager_mono k k' m : k <= k' -> manager_wf k m -> manager_wf k' m.
Proof. intros Hk []. constructor; try done. intros id fs E. destruct (mw_state0 id fs E) as (? & ? & ?). split; [done|]. split; [by eapply fs_wf_mono|done]. Qed.
Lemma store_wf k m id fs fs' : manager_wf k m -> 0 <= k -> objects m !! id = Some fs -> evolvesTo fs fs' -> fs_wf (k + 1) fs' ->
  manager_wf (k + 1) (store m id fs') /\ evolvesM m (store m id fs').
Proof.
  intros Hm Hk E Hev Hw. destruct Hev as [Hn Hg Hx Hs] eqn:Eev. split.
  - constructor; simpl; try apply Hm.
    + intros f id' El. apply (mw_listed _ _ Hm) in El as (fs0 & E0 & Hf). destruct (decide (id' = id)) as [->|]; [|exists fs0; by rewrite lookup_insert_ne].
      exists fs'. rewrite lookup_insert_eq. split; [done|]. congruence.
    + intros id' fs0. rewrite lookup_insert_Some. intros [[<- <-]|[_ E0]].
      * destruct (mw_state _ _ Hm id fs E) as (? & _ & g & Eg & Hlt). split; [done|]. split; [done|]. exists g. by rewrite Hn, Hg.
      * destruct (mw_state _ _ Hm id' fs0 E0) as (? & ? & ?). split; [done|]. split; [eapply fs_wf_mono; [|done]; lia|done].
    + intros id1 id2 fs1 fs2. rewrite !lookup_insert_Some. intros [[<- <-]|[Hne1 E1]] [[<- <-]|[Hne2 E2]]; rewrite ?Hn, ?Hg; intros En Eg; [done|by apply (mw_unique _ _ Hm id id2 fs fs2)|by apply (mw_unique _ _ Hm id1 id fs1 fs)|by apply (mw_unique _ _ Hm id1 id2 fs1 fs2)].
  - intros id' fs0 E0. simpl. destruct (decide (id' = id)) as [->|]; [|exists fs0; rewrite lookup_insert_ne by done; split; [done|reflexivity]].
    exists fs'. rewrite lookup_insert_eq. rewrite E in E0. by injection E0 as <-.
Qed.
Lemma unlist_wf k m f : manager_wf k m -> manager_wf k (unlist m f).
Proof. intros Hm. constructor; simpl; try apply Hm. intros f' id. rewrite lookup_delete_Some. intros [_ E]. by apply Hm. Qed.
Lemma publish_federation_wf k m req t f m' id g : manager_wf k m -> 0 <= k -> lawfulFOM f -> publishFederation m req t f = Ret (m', (id, g)) ->
  manager_wf k m' /\ evolvesM m m' /\ id = nextObject m /\ federations m !! c_Name req = None /\ federations m' = <[c_Name req := id]> (federations m)
  /\ objects m' = <[id := newFederationState m req t f g]> (objects m).
Proof.
  intros Hm Hk Hf. unfold publishFederation. destruct (federations m !! c_Name req) eqn:El; [done|]. cbv zeta. set (g0 := default _ _).
  destruct (Z.ltb_spec maxUint32 g0); [done|]. simpl. destruct ((0 <? generationSpan m) && _) eqn:Esp; [done|]. simpl. intros [= <- <- <-].
  assert (Hg : 0 <= g0 <= maxUint32). { split; [|done]. unfold g0. destruct (generations m !! c_Name req) as [g1|] eqn:E1; simpl; [pose proof (mw_generations _ _ Hm _ _ E1); lia|apply (mw_base _ _ Hm)]. }
  assert (Hw : wrapU 64 (g0 + 1) = g0 + 1) by (apply wrapU_id; unfold inU, maxU, maxUint32 in *; lia).
  assert (Hfresh : objects m !! nextObject m = None). { destruct (objects m !! nextObject m) eqn:E; [|done]. apply (mw_state _ _ Hm) in E as [? _]. lia. }
  assert (Hold : forall id fs, objects m !! id = Some fs -> name fs = c_Name req -> generation fs < g0).
  { intros i fs E En. destruct (mw_state _ _ Hm i fs E) as (_ & _ & g1 & E1 & Hlt). rewrite En in E1. unfold g0. by rewrite E1. }
  split_and!; [|intros i fs E; exists fs; simpl; rewrite lookup_insert_ne by congruence; split; [done|reflexivity]|done..].
  constructor; simpl; try apply Hm.
  - intros f' i. rewrite lookup_insert_Some. intros [[<- <-]|[Hne E]]; [eexists; by rewrite lookup_insert_eq|].
    apply (mw_listed _ _ Hm) in E as (fs & E & En). exists fs. rewrite lookup_insert_ne by congruence. done.
  - intros i fs. rewrite lookup_insert_Some. intros [[<- <-]|[Hne E]]; simpl.
    + split; [lia|]. split; [|exists (g0 + 1); rewrite Hw, lookup_insert_eq; split; [done|lia]].
      constructor; simpl; [done|unfold maxUint32; lia| |done]. apply empty_roster_wf.
    + destruct (mw_state _ _ Hm i fs E) as (? & ? & g1 & E1 & ?). split; [lia|]. split; [done|]. destruct (decide (name fs = c_Name req)) as [En|].
      * exists (g0 + 1). rewrite Hw, En, lookup_insert_eq. specialize (Hold i fs E En). split; [done|lia].
      * exists g1. by rewrite lookup_insert_ne.
  - intros f' g1. rewrite lookup_insert_Some. intros [[<- <-]|[_ E]]; [rewrite Hw; lia|by eapply (mw_generations _ _ Hm)].
  - intros i j fs fs'. rewrite !lookup_insert_Some. intros [[<- <-]|[? E1]] [[<- <-]|[? E2]]; simpl; intros Hn Hgg; try done.
    + symmetry in Hn. pose proof (Hold j fs' E2 Hn). lia.
    + pose proof (Hold i fs E1 Hn). lia.
    + by eapply (mw_unique _ _ Hm).
Qed.

(** ** Holds *)
Definition holdName (x : hold) : FederationName :=
  match x with SharedMember f _ | SharedGeneration f | ExclusiveSnapshot f | Creating f | Destroying f => f end.
(** What a hold promises of the execution it is held on.  A lease on a member
    keeps the execution, not the handle: a restoration may give the member
    another one meanwhile. *)
Definition promises (x : hold) (fs : federationState) : Prop :=
  match x with
  | Creating _ => destroying fs = false /\ handleToName fs = ∅
  | Destroying _ => destroying fs = true /\ handleToName fs = ∅
  | _ => destroying fs = false
  end.
Definition holdOk (m : Manager) (id : Z) (x : hold) : Prop :=
  federations m !! holdName x = Some id /\ exists fs, objects m !! id = Some fs /\ promises x fs.
(** What a restoration has prepared for a roster with members: the same
    sessions under other handles. *)
Record replaces (fs : federationState) (r : roster) : Prop := {
  rp_members : handleToName fs <> ∅;
  rp_roster : roster_wf (generation fs) (nextFederateHandle fs) r;
  rp_sessions nm i : sessionIn r nm i <-> session fs nm i;
}.
Record holds_wf (w : world) : Prop := {
  hw_exclusive id x : x ∈ holdersOf w id -> exclusive x = true -> holdersOf w id = [x];
  hw_hold id x : (id, x) ∈ holds w -> holdOk (mgr w) id x;
  hw_destroying f id fs : federations (mgr w) !! f = Some id -> objects (mgr w) !! id = Some fs -> destroying fs = true -> (id, Destroying f) ∈ holds w;
  hw_restoring id v : restoring w !! id = Some v -> v_id v = id /\ v_done v = false /\ exists fs, objects (mgr w) !! id = Some fs /\ replaces fs (v_roster v);
}.
Definition issued_wf (m : Manager) (l : list (FederationName * FederateHandle)) : Prop :=
  NoDup l /\ forall f h, (f, h) ∈ l -> exists id fs, objects m !! id = Some fs /\ name fs = f /\ assignedIn (generation fs) (nextFederateHandle fs) h.
Record world_wf (k : Z) (w : world) : Prop := {
  ww_manager : manager_wf k (mgr w);
  ww_holds : holds_wf w;
  ww_issued : issued_wf (mgr w) (issued w);
}.

Lemma issued_evolves m m' l : evolvesM m m' -> issued_wf m l -> issued_wf m' l.
Proof.
  intros Hev [Hnd Hl]. split; [done|]. intros f h Hin. destruct (Hl f h Hin) as (id & fs & E & En & Ha). destruct (Hev id fs E) as (fs' & E' & [Hn Hg Hx _]).
  exists id, fs'. split; [done|]. split; [congruence|]. rewrite Hg. by eapply assignedIn_mono.
Qed.
(** Handles of the local parts the request counted are new, in all executions of the name. *)
Lemma issued_new k m m' l f id fs fs' hs : manager_wf k m -> evolvesM m m' -> issued_wf m l -> objects m !! id = Some fs -> name fs = f -> objects m' !! id = Some fs' -> generation fs' = generation fs ->
  NoDup hs -> (forall h, h ∈ hs -> newIn fs (nextFederateHandle fs') h) -> issued_wf m' (map (pair f) hs ++ l).
Proof.
  intros Hm Hev Hi E En E' Hg Hnd Hnew. pose proof (issued_evolves m m' l Hev Hi) as [Hndl Hl]. split.
  - apply NoDup_app. split; [by apply NoDup_fmap_2; [intros ??[=]|]|]. split; [|done].
    intros [f' h] (h' & [= -> ->] & Hh)%list_elem_of_fmap Hin. destruct Hi as [_ Hold]. destruct (Hold f h' Hin) as (id0 & fs0 & E0 & En0 & (l0 & Hl0 & Hle0 & Eh0)).
    destruct (Hnew h' Hh) as (l1 & Hl1 & Hle1 & Eh1). destruct (mw_state _ _ Hm id fs E) as (_ & Hw & _). destruct (mw_state _ _ Hm id0 fs0 E0) as (_ & Hw0 & _).
    unfold coordinate in *. destruct (assignedHandle_inj (generation fs0) l0 (generation fs) l1) as [Eg El]; [apply Hw0|lia|apply Hw|lia|congruence|].
    assert (id0 = id) as -> by (eapply (mw_unique _ _ Hm); [done..|congruence|done]). rewrite E in E0. injection E0 as <-. lia.
  - intros f' h [(h' & [= -> ->] & Hh)%list_elem_of_fmap|Hin]%elem_of_app; [|by apply Hl]. exists id, fs'. split; [done|].
    destruct (Hev id fs E) as (fs1 & E1 & [Hn1 _ _ _]). rewrite E' in E1. injection E1 as <-. split; [congruence|].
    destruct (Hnew h' Hh) as (l1 & Hl1 & Hle1 & Eh1). exists l1. rewrite Hg. split; [done|]. split; [lia|done].
Qed.

(** ** Holds as lists *)
Lemma holders_in w id x : x ∈ holdersOf w id <-> (id, x) ∈ holds w.
Proof.
  unfold holdersOf. rewrite list_elem_of_omap. split.
  - intros ([id' y] & Hin & E). simpl in E. destruct (Z.eqb_spec id' id) as [->|]; [|done]. by injection E as ->.
  - intros Hin. exists (id, x). split; [done|]. simpl. by rewrite Z.eqb_refl.
Qed.
Lemma dropHold_split x l : x ∈ l -> exists l1 l2, l = l1 ++ x :: l2 /\ dropHold x l = l1 ++ l2.
Proof.
  intros Hin. unfold dropHold. destruct (list_find (fun y => y = x) l) as [[i y]|] eqn:E.
  - apply list_find_Some in E as (Ei & -> & _). exists (take i l), (drop (S i) l). split; [symmetry; by apply take_drop_middle|done].
  - apply list_find_None in E. rewrite Forall_forall in E. by destruct (E x Hin).
Qed.
Lemma holders_app l1 l2 id : omap (fun x : Z * hold => if x.1 =? id then Some x.2 else None) (l1 ++ l2) =
  omap (fun x : Z * hold => if x.1 =? id then Some x.2 else None) l1 ++ omap (fun x : Z * hold => if x.1 =? id then Some x.2 else None) l2.
Proof. apply omap_app. Qed.

(** * Federation management: generated names

    A federate that joins without a name is given one: the loop that looks for
    an unused name ends, since its candidates differ from one another and fewer
    names are in use than it has turns. *)
(** ** Inverse maps have one size *)
Lemma omap_length_le {A B} (f : A -> option B) l : (length (omap f l) <= length l)%nat.
Proof. induction l as [|a l IH]; [done|]. cbn [omap list_omap length]. destruct (f a); simpl in *; [by apply le_n_S|by apply le_S]. Qed.
Lemma list_to_set_size_le {A} `{Countable A} (l : list A) : (size (list_to_set l : gset A) <= length l)%nat.
Proof. induction l as [|a l IH]; [done|]. rewrite list_to_set_cons, size_union_alt, size_singleton. apply le_n_S. etransitivity; [|exact IH]. apply subseteq_size. set_solver. Qed.
Lemma inverse_size_le {K V} `{Countable K, Countable V} (t : gmap K V) (u : gmap V K) : (forall k v, t !! k = Some v -> u !! v = Some k) -> (size t <= size u)%nat.
Proof.
  intros Hinv. rewrite <- (size_dom (D := gset K) t), <- (size_dom (D := gset V) u).
  transitivity (size (list_to_set (omap (fun v => u !! v) (elements (dom u : gset V))) : gset K)).
  - apply subseteq_size. intros k [v E]%elem_of_dom. apply elem_of_list_to_set, list_elem_of_omap. exists v. specialize (Hinv k v E). split; [|done]. apply elem_of_elements, elem_of_dom. by rewrite Hinv.
  - etransitivity; [apply list_to_set_size_le|]. etransitivity; [apply omap_length_le|]. done.
Qed.
Section Sizes.
Context (g n : Z) (r : roster) (Hr : roster_wf g n r).
Lemma roster_size : size (r_names r) = size (r_handles r).
Proof. apply Nat.le_antisymm; apply inverse_size_le; intros ??; apply Hr. Qed.
Lemma roster_bounded : Z.of_nat (size (r_handles r)) <= maxUint32.
Proof.
  rewrite <- (size_dom (D := gset Z)). transitivity (Z.of_nat (length (map (assignedHandle g) (seqZ 1 maxUint32)))).
  - apply inj_le. etransitivity; [|apply list_to_set_size_le]. apply subseteq_size. intros h Hh%elem_of_dom. apply Hr in Hh as (l & Hl & _ & ->).
    apply elem_of_list_to_set, list_elem_of_fmap. exists l. split; [done|]. apply elem_of_seqZ. unfold coordinate in Hl. lia.
  - rewrite length_map, length_seqZ. unfold maxUint32. lia.
Qed.
End Sizes.

(** ** The search *)
Definition suffixed (base : string) (k : Z) : string := base +:+ "-" +:+ pretty k.
Lemma string_app_length (s t : string) : String.length (s +:+ t) = (String.length s + String.length t)%nat.
Proof. induction s as [|a s IH]; simpl; [done|]. by rewrite IH. Qed.
Lemma suffixed_inj base : Inj (=) (=) (suffixed base).
Proof. intros k k' E. unfold suffixed in E. apply (inj (String.append base)) in E. apply (inj (String.append "-")) in E. by apply (inj (pretty (A := Z))) in E. Qed.
Lemma suffixed_base base k : suffixed base k <> base.
Proof. intros E. apply (f_equal String.length) in E. unfold suffixed in E. rewrite string_app_length in E. simpl in E. lia. Qed.
(** The search that fails has found all its candidates in use. *)
Lemma firstUnused_None fuel names base candidate suffix : 0 <= suffix -> suffix + Z.of_nat fuel < 2 ^ 64 -> firstUnused (S fuel) names base candidate suffix = None ->
  forall nm, nm ∈ candidate :: map (suffixed base) (seqZ suffix (Z.of_nat fuel)) -> is_Some (names !! nm).
Proof.
  revert candidate suffix. induction fuel as [|fuel IH]; intros candidate suffix Hs Hb Hn nm Hin.
  - simpl in *. destruct (names !! candidate) as [v|] eqn:E; [|done]. apply list_elem_of_singleton in Hin as ->. by rewrite E.
  - cbn [firstUnused] in Hn. destruct (names !! candidate) as [v|] eqn:E; [|done]. apply elem_of_cons in Hin as [->|Hin]; [by rewrite E|].
    replace (wrapU 64 (suffix + 1)) with (suffix + 1) in Hn by (symmetry; apply wrapU_id; unfold inU, maxU; lia).
    apply (IH (suffixed base suffix) (suffix + 1)); [lia|lia|exact Hn|]. rewrite seqZ_cons in Hin by lia. simpl in Hin.
    replace (Z.pred (Z.of_nat (S fuel))) with (Z.of_nat fuel) in Hin by lia. by rewrite Z.add_1_r.
Qed.
Lemma firstUnused_unused fuel names base candidate suffix nm : firstUnused fuel names base candidate suffix = Some nm -> names !! nm = None /\ (nm = candidate \/ exists k, nm = suffixed base k).
Proof.
  revert candidate suffix. induction fuel as [|fuel IH]; intros candidate suffix; simpl; [done|]. destruct (names !! candidate) eqn:E.
  - intros Hn%IH. destruct Hn as [? [->|?]]; split; try done; right; [by eexists|done].
  - intros [= <-]. split; [done|by left].
Qed.
Lemma generatedName_found names h : Z.of_nat (size names) < 2 ^ 64 - 2 -> exists nm, generatedName names h = Some nm /\ names !! nm = None /\ nm <> ""%string.
Proof.
  intros Hsz. unfold generatedName. cbv zeta. set (base := "HLAfederate-" +:+ pretty h). destruct (firstUnused (S (size names)) names base base 1) as [nm|] eqn:E.
  - exists nm. split; [done|]. apply firstUnused_unused in E as [E Hnm]. split; [done|]. destruct Hnm as [->|[k ->]]; done.
  - exfalso. pose proof (firstUnused_None (size names) names base base 1) as Hall.
    assert (0 <= 1) as H1 by done. assert (1 + Z.of_nat (size names) < 2 ^ 64) as H2 by (revert Hsz; generalize (Z.of_nat (size names)); lia). specialize (Hall H1 H2 E).
    assert (Hnd : NoDup (base :: map (suffixed base) (seqZ 1 (Z.of_nat (size names))))).
    { constructor; [|apply NoDup_fmap_2; [apply suffixed_inj|apply NoDup_seqZ]]. intros (k & Ek & _)%list_elem_of_fmap. symmetry in Ek. by apply suffixed_base in Ek. }
    assert (Hle : (length (base :: map (suffixed base) (seqZ 1 (Z.of_nat (size names)))) <= size (dom names : gset string))%nat).
    { rewrite <- (size_list_to_set (C := gset string)) by done. apply subseteq_size. intros nm Hnm%elem_of_list_to_set. apply elem_of_dom. by apply Hall. }
    rewrite size_dom in Hle. cbn [length] in Hle. rewrite length_map, length_seqZ in Hle. lia.
Qed.
(** The name a join settles on: the one it asks for, else a generated one. *)
Lemma federateName_found k fs req h : fs_wf k fs -> (j_FederateName req = ""%string \/ nameToHandle fs !! j_FederateName req = None) ->
  exists nm, federateName fs req h = Some nm /\ nm <> ""%string /\ nameToHandle fs !! nm = None /\ (j_FederateName req <> ""%string -> nm = j_FederateName req).
Proof.
  intros Hw Hfree. unfold federateName. destruct (String.eqb_spec (j_FederateName req) "") as [E|Hne].
  - destruct (generatedName_found (nameToHandle fs) h) as (nm & Hnm & Hu & Hne).
    + pose proof (roster_size _ _ _ (fw_roster _ _ Hw)) as Es. pose proof (roster_bounded _ _ _ (fw_roster _ _ Hw)) as Hb. change (r_names (rosterOf fs)) with (nameToHandle fs) in Es. unfold maxUint32 in Hb. lia.
    + exists nm. split; [done|]. split; [done|]. split; [done|]. by intros [].
  - destruct Hfree as [|Hfree]; [done|]. by exists (j_FederateName req).
Qed.
