(* ===== verification/FedSteps.v ===== *)
(** * Federation management: services and requests keep the invariant

    The cases of a join and of a resignation, and that every service replaces
    the record it works on by one that [advances] from it; hence every request
    keeps the invariant of the world. *)
From stdpp Require Import gmap strings.
From S2P Require Import Prelude GoBytes Fed FedService FedRestore FedRoster.
Open Scope Z_scope.

Lemma rosterOf_set fs d f n r : rosterOf (withState fs d f n r) = r.
Proof. by destruct r. Qed.
Lemma set_roster_same fs : set_roster fs (rosterOf fs) = fs.
Proof. by destruct fs. Qed.
Lemma rollback_eq g n fs nm h now type : roster_wf g n (rosterOf fs) -> nameToHandle fs !! nm = None -> handleToName fs !! h = None ->
  let entered := set_roster fs (enterRoster (rosterOf fs) nm h now type) in set_roster entered (leaveRoster (rosterOf entered) nm h) = fs.
Proof.
  intros Hr En Eh. cbv zeta. unfold set_roster at 2 3. rewrite rosterOf_set. rewrite (leave_enter g n) by done. by destruct fs.
Qed.

(** ** Replacing one field *)
Lemma advances_next k fs n : 0 <= k -> fs_wf k fs -> nextFederateHandle fs <= n <= maxUint32 + k + 1 -> advances k fs (set_next fs n).
Proof.
  intros Hk Hw Hn. split; [|split; [|done]].
  - constructor; [done|done|simpl; lia|]. intros nm i Hs. left. exact Hs.
  - constructor; [apply Hw|simpl; pose proof (fw_next _ _ Hw); lia| |apply Hw]. eapply roster_mono; [|apply Hw]. simpl. lia.
Qed.
Lemma advances_roster k fs r f n : 0 <= k -> fs_wf k fs -> nextFederateHandle fs <= n <= maxUint32 + k + 1 -> roster_wf (generation fs) n r -> lawfulFOM f ->
  (forall nm i, sessionIn r nm i -> session fs nm i \/ newIn fs n i) -> advances k fs (withState fs (destroying fs) f n r).
Proof.
  intros Hk Hw Hn Hr Hf Hs. split; [|split; [|done]].
  - constructor; [done|done|simpl; lia|]. intros nm i. unfold session. rewrite rosterOf_set. apply Hs.
  - constructor; [apply Hw|simpl; pose proof (fw_next _ _ Hw); lia| |done]. by rewrite rosterOf_set.
Qed.
Lemma advances_directives k fs d : 0 <= k -> fs_wf k fs -> (forall nm, is_Some (d !! nm) <-> is_Some (nameToHandle fs !! nm)) -> (forall nm a, d !! nm = Some a -> validResignAction a = true) ->
  advances k fs (set_directives fs d).
Proof.
  intros Hk Hw Hd Ha. apply advances_roster; [done|done|pose proof (fw_next _ _ Hw); lia| |apply Hw|by left]. apply with_directives_wf; [apply Hw|done|done].
Qed.

(** ** Joining *)
Section Join.
Context (k : Z) (env : Environment) (req : JoinFederationRequest) (fs : federationState) (ext : option extension).
Hypothesis (Hk : 0 <= k < 2 ^ 63) (Hw : fs_wf k fs) (Henv : lawful env) (Hfree : nameToHandle fs !! j_FederateName req = None).
Hypothesis (Hext : forall x, ext = Some x -> x_Commit x = Ret () /\ lawfulFOM (x_FOM x)).
Let local : Z := nextFederateHandle fs + 1.
Let h : FederateHandle := assignedHandle (generation fs) local.
Definition joinedFOM : FOMHandle := match ext with Some x => x_FOM x | None => fom fs end.
Definition joinedState (nm : string) : federationState :=
  withState fs (destroying fs) joinedFOM local
    (addRow (rosterOf fs) nm h h (default ResignActionNoAction (AutomaticResignAction joinedFOM)) (Now env) (j_FederateType req) (Some (j_AdditionalFOMModules req))).
Definition joinedEffects (nm : string) (setup : bool) : list effect :=
  match EventLog env with Some _ => [Journal (j_Federation req) (joinRecord env req nm h ext)] | None => [] end
  ++ match ext with Some _ => [ExtensionPublished] | None => [] end
  ++ JoinedHook (j_Federation req) h nm (j_FederateType req) :: (if setup then [JoinSetup (Identity (j_Federation req) (generation fs) nm h h)] else []).

Lemma local_wrap : wrapU 64 (nextFederateHandle fs + 1) = local.
Proof. apply wrapU_id. pose proof (fw_next _ _ Hw). unfold inU, maxU, maxUint32 in *. lia. Qed.
Lemma handle_fresh : local <= maxUint32 -> handleToName fs !! h = None.
Proof.
  intros Hl. apply eq_None_not_Some. intros Hin. apply (rw_handles _ _ _ (fw_roster _ _ Hw)) in Hin.
  eapply (assignedIn_fresh _ _ _ local) in Hin; [done|apply Hw|pose proof (fw_next _ _ Hw); unfold coordinate; lia|lia].
Qed.
Lemma joined_advances nm : local <= maxUint32 -> nm <> ""%string -> nameToHandle fs !! nm = None -> advances k fs (joinedState nm).
Proof.
  intros Hl Hnm En. pose proof (fw_next _ _ Hw) as Hn. pose proof (fw_roster _ _ Hw) as Hr.
  assert (Hnew : newIn fs local h) by (exists local; unfold coordinate; split; [lia|]; split; [lia|done]).
  assert (Hin : assignedIn (generation fs) local h) by (exists local; unfold coordinate; split; [lia|]; split; [lia|done]).
  assert (Hlaw : lawfulFOM joinedFOM) by (unfold joinedFOM; destruct ext as [x|]; [by destruct (Hext x eq_refl)|apply Hw]).
  apply advances_roster; [lia|done|lia| |done|].
  - apply addRow_wf; [eapply roster_mono; [|done]; lia|done|done|by apply handle_fresh|done|done| |].
    + intros h' E. apply (rw_incarnation _ _ _ Hr) in E. eapply (assignedIn_fresh _ _ _ local) in E; [done|apply Hw|unfold coordinate; lia|lia].
    + unfold lawfulFOM in Hlaw. by destruct (AutomaticResignAction joinedFOM).
  - intros nm' i (h' & E1 & E2). simpl in E1, E2. apply lookup_insert_Some in E2 as [[_ <-]|[Hne E2]]; [by right|].
    rewrite lookup_insert_ne in E1 by done. left. by exists h'.
Qed.
(** A join ends in one of three ways. *)
Lemma joinPrepared_cases m id setup : let r := joinPrepared env m id fs req setup ext in
  (maxUint32 < local /\ r = Reply (store m id (set_next fs local)) [] (Fail (errOf "federation: federate handle space exhausted")))
  \/ local <= maxUint32 /\ exists nm, nm <> ""%string /\ nameToHandle fs !! nm = None /\ federateName fs req h = Some nm /\
     ((exists e append, EventLog env = Some append /\ append (j_Federation req) (joinRecord env req nm h ext) = Fail e
        /\ r = Reply (store m id (set_next fs local)) [Journal (j_Federation req) (joinRecord env req nm h ext)] (Fail (errWrap "eventlog append" e)))
      \/ r = Reply (store m id (joinedState nm)) (joinedEffects nm setup) (Ret h)).
Proof.
  cbv zeta. unfold joinPrepared. rewrite local_wrap. destruct (Z.ltb_spec maxUint32 local) as [Hlt|Hle]; [by left|right]. split; [done|].
  simpl generation. fold h. destruct (federateName_found k fs req h Hw ltac:(by right)) as (nm & Enm & Hnm & En & _). exists nm.
  split; [done|]. split; [done|]. split; [done|].
  replace (federateName (set_next fs local) req h) with (Some nm) by (rewrite <- Enm; done). cbv beta iota.
  pose proof (handle_fresh Hle) as Eh. unfold appendJournal. destruct (EventLog env) as [append|] eqn:El.
  - destruct (append _ _) as [[]|e|s] eqn:Ea; [right|left|by destruct (lawful_journal _ Henv append _ _ El _ Ea)].
    + unfold joinedEffects, joinedState, joinedFOM. rewrite El. destruct ext as [x|]; [|done]. destruct (Hext x eq_refl) as [-> _]. done.
    + exists e, append. split; [done|]. split; [done|]. f_equal. f_equal. apply (rollback_eq (generation fs) (nextFederateHandle fs) (set_next fs local)); [apply Hw|done..].
  - right. unfold joinedEffects, joinedState, joinedFOM. rewrite El. destruct ext as [x|]; [|done]. destruct (Hext x eq_refl) as [-> _]. done.
Qed.
End Join.

(** ** Resigning *)
Definition resignedState (fs : federationState) (nm : string) (h : FederateHandle) : federationState := set_roster fs (removeMember (rosterOf fs) nm h).
Lemma resigned_advances k fs nm h : 0 <= k -> fs_wf k fs -> handleToName fs !! h = Some nm -> advances k fs (resignedState fs nm h).
Proof.
  intros Hk Hw E. apply advances_roster; [done|done|pose proof (fw_next _ _ Hw); lia| |apply Hw|].
  - apply removeMember_wf; [apply Hw|done].
  - intros nm' i (h' & E1 & E2). simpl in E1, E2. apply lookup_delete_Some in E1 as [_ E1], E2 as [_ E2]. left. by exists h'.
Qed.
(** The member is resolved, or the resignation is refused. *)
Lemma resolve_joined fs h action expected automatic h' nm action' : resolveResignMember fs h action expected automatic = Ret (h', nm, action') -> handleToName fs !! h' = Some nm.
Proof.
  unfold resolveResignMember. intros H. bind_inv H. clear Hr. destruct (handleToName fs !! r) eqn:E; [|done]. by injection H as <- <- _.
Qed.
Lemma resolve_identity fs h action i automatic h' nm action' k : fs_wf k fs -> resolveResignMember fs h action (Some i) automatic = Ret (h', nm, action') ->
  nm = Name i /\ generation fs = Generation i /\ Incarnation i <> 0 /\ nameToHandle fs !! nm = Some h' /\ membershipIncarnation fs !! h' = Some (Incarnation i).
Proof.
  intros Hw H. pose proof (resolve_joined _ _ _ _ _ _ _ _ H) as Ej. unfold resolveResignMember in H. destruct (nameToHandle fs !! Name i) as [h0|] eqn:En; [|done].
  destruct (Z.eqb_spec (Generation i) (generation fs)), (Z.eqb_spec (Incarnation i) 0), (Z.eqb_spec (zeroOf (membershipIncarnation fs !! h0)) (Incarnation i)) as [Ei|]; simpl in H; try done.
  pose proof (rw_inverse _ _ _ (fw_roster _ _ Hw) (Name i) h0) as Hinv. simpl in Hinv. pose proof (proj1 Hinv En) as E0. rewrite E0 in H. injection H as <- <- _.
  split; [done|]. split; [done|]. split; [done|]. split; [done|]. destruct (membershipIncarnation fs !! h0); simpl in Ei; congruence.
Qed.
(** What a resignation leaves: the manager, or the member removed. *)
Lemma commitResign_cases env m f id fs h nm action prepared : let r := commitResign env m f id fs h nm action prepared in
  after r = m \/ after r = store m id (resignedState fs nm h).
Proof.
  cbv zeta. unfold commitResign. destruct (appendJournal _ _ _) as [logged [[]|e|s]]; [|by left..]. destruct (match prepared with Some p => _ | None => _ end); [by right..|by left].
Qed.
Lemma resignLocked_cases env m f id h action expected condition automatic : let r := resignLocked env m f id h action expected condition automatic in
  after r = m \/ exists fs h' nm action', gatedFederation m f id = Ret fs /\ resolveResignMember fs h action expected automatic = Ret (h', nm, action')
    /\ after r = store m id (resignedState fs nm h').
Proof.
  cbv zeta. unfold resignLocked, passing. destruct (gatedFederation m f id) as [fs|e|s] eqn:Eg; [|by left..].
  destruct (resolveResignMember _ _ _ _ _) as [[[h' nm] action']|e|s] eqn:Er; [|by left..]. destruct (match condition with Some false => true | _ => false end); [by left|].
  destruct (match expected with Some i => _ | None => _ end) as [lost continue]. simpl. destruct continue as [[]|e|s]; simpl; [|by left..].
  destruct (PrepareResign env) as [prepare|].
  - simpl. destruct (prepare f h' action') as [prepared|e|s]; simpl; [|by left..]. destruct (commitResign_cases env m f id fs h' nm action' prepared) as [->| ->]; [by left|right; by exists fs, h', nm, action'].
  - destruct (commitResign_cases env m f id fs h' nm action' None) as [->| ->]; [by left|right; by exists fs, h', nm, action'].
Qed.

(** ** Directives *)
Lemma fold_insert_dom {A V} (key : A -> string) (val : A -> V) l (t : gmap string V) nm : is_Some (fold_insert key val l t !! nm) <-> nm ∈ map key l \/ is_Some (t !! nm).
Proof.
  revert t. unfold fold_insert. induction l as [|a l IH]; intros t; simpl; [rewrite elem_of_nil; tauto|]. rewrite IH, is_Some_insert, elem_of_cons. tauto.
Qed.
(** Names without repetition, all in the roster and as many: the roster's. *)
Lemma names_cover (t : gmap string Z) l : NoDup l -> (forall nm, nm ∈ l -> is_Some (t !! nm)) -> length l = size t -> forall nm, nm ∈ l <-> is_Some (t !! nm).
Proof.
  intros Hnd Hall Hlen nm. split; [apply Hall|]. intros Hs%elem_of_dom. assert (E : list_to_set l = dom t).
  { apply (set_subseteq_size_eq (C := gset string)); [|rewrite size_list_to_set by done; rewrite size_dom; lia]. intros x Hx%elem_of_list_to_set. by apply elem_of_dom, Hall. }
  rewrite <- E in Hs. by apply elem_of_list_to_set in Hs.
Qed.
Lemma imported_directives fs s values : ValidateAutomaticResignState s = Ret () -> length (Directives s) = size (nameToHandle fs) -> importDirectives fs (Directives s) ∅ = Ret values ->
  (forall nm, is_Some (values !! nm) <-> is_Some (nameToHandle fs !! nm)) /\ (forall d, d ∈ Directives s -> values !! d_Name d = Some (d_Action d)) /\ (forall nm a, values !! nm = Some a -> validResignAction a = true).
Proof.
  unfold ValidateAutomaticResignState. destruct (Version s =? 1); [|done]. intros [Hnd Hv]%validDirectives_in Hlen [-> Hall]%importDirectives_eq.
  assert (Hcover := names_cover (nameToHandle fs) (map d_Name (Directives s)) Hnd). rewrite length_map in Hcover. specialize (Hcover ltac:(intros nm (d & -> & Hd)%list_elem_of_fmap; by apply Hall) Hlen).
  split; [intros nm; rewrite fold_insert_dom, lookup_empty, Hcover; split; [intros [?|[? [=]]]; done|by left]|].
  assert (Hval : forall d, d ∈ Directives s -> fold_insert d_Name d_Action (Directives s) ∅ !! d_Name d = Some (d_Action d)) by (intros; by apply fold_insert_in).
  split; [done|]. intros nm a E. assert (Hin : nm ∈ map d_Name (Directives s)).
  { assert (Hs : is_Some (fold_insert d_Name d_Action (Directives s) ∅ !! nm)) by (by rewrite E). apply fold_insert_dom in Hs as [|[? [=]]]; done. }
  apply list_elem_of_fmap in Hin as (d & -> & Hd). rewrite Hval in E by done. injection E as <-. by apply Hv.
Qed.

(** ** Handles for a restoration *)
Lemma takeHandles_eq g count n : 0 <= g <= maxUint32 -> 0 <= n -> n + Z.of_nat count <= maxUint32 ->
  takeHandles g n count = (n + Z.of_nat count, map (assignedHandle g) (seqZ (n + 1) (Z.of_nat count))).
Proof.
  intros Hg. revert n. induction count as [|count IH]; intros n Hn Hb; cbn [takeHandles]; [by rewrite Z.add_0_r|].
  replace (wrapU 64 (n + 1)) with (n + 1) by (symmetry; apply wrapU_id; unfold inU, maxU, maxUint32 in *; lia). cbv zeta. rewrite IH by lia.
  rewrite (seqZ_cons (n + 1)) by lia. cbn [map]. rewrite restoreHandle_assigned by lia. f_equal; [lia|]. f_equal. f_equal. f_equal; lia.
Qed.
Lemma handleLimit_le g : handleLimit g <= maxUint32.
Proof. unfold handleLimit. destruct (g =? maxUint32); unfold maxUint32; lia. Qed.

(** ** Identities *)
Lemma emptyOf_Some r g n h : roster_wf g n r -> emptyOf (r_handles r !! h) = ""%string -> r_handles r !! h = None.
Proof. intros Hr. destruct (r_handles r !! h) as [nm|] eqn:E; [|done]. simpl. intros ->. apply Hr in E. by rewrite (rw_named _ _ _ Hr) in E. Qed.
Lemma zeroOf_None r g n nm : 0 <= g <= maxUint32 -> roster_wf g n r -> zeroOf (r_names r !! nm) = 0 -> r_names r !! nm = None.
Proof.
  intros Hg Hr. destruct (r_names r !! nm) as [h|] eqn:E; [|done]. simpl. intros ->. apply Hr in E. destruct (rw_handles _ _ _ Hr 0) as (l & Hl & _ & E0); [by rewrite E|].
  pose proof (assignedHandle_pos g l Hg Hl). lia.
Qed.
Section Restore.
Context (k : Z) (fs : federationState) (Hw : fs_wf k fs).
(** The part of the saved roster built so far. *)
Definition partial (r : roster) : Prop := roster_wf (generation fs) (nextFederateHandle fs) r /\ forall nm i, sessionIn r nm i -> session fs nm i.
Lemma restoreMember_partial r identity : partial r -> validIdentity fs r identity (generation fs) = true -> validResignAction (restoredDirective fs identity) = true ->
  partial (restoreMember fs r identity) /\ nameToHandle fs !! ri_Name identity = Some (CurrentHandle identity) /\ assignedIn (generation fs) (nextFederateHandle fs) (SavedHandle identity)
  /\ r_names r !! ri_Name identity = None /\ r_handles r !! SavedHandle identity = None.
Proof.
  intros [Hr Hs] Hv Ha. unfold validIdentity in Hv. cbv zeta in Hv. rewrite !andb_true_iff, !negb_true_iff, !String.eqb_eq, !String.eqb_neq, !Z.eqb_eq, !Z.eqb_neq, Z.leb_le in Hv.
  destruct Hv as (((((((((Hnm & Hc0) & Hs0) & Hc) & Ecn) & Hn0) & Hh0) & Hg) & Hl0) & Hl).
  pose proof (fw_generation _ _ Hw) as Hgen. apply (zeroOf_None _ _ _ _ Hgen Hr) in Hn0. apply (emptyOf_Some _ _ _ _ Hr) in Hh0.
  assert (En : nameToHandle fs !! ri_Name identity = Some (CurrentHandle identity)) by (destruct (nameToHandle fs !! ri_Name identity); simpl in Hc; congruence).
  pose proof (proj1 (rw_inverse _ _ _ (fw_roster _ _ Hw) _ _) En) as Eh. simpl in Eh.
  assert (Hsaved : assignedIn (generation fs) (nextFederateHandle fs) (SavedHandle identity)).
  { assert (Hpos : 0 <= SavedHandle identity) by (apply (Z.shiftr_nonneg _ 32); lia). exists (Z.land (SavedHandle identity) maxUint32). split_and!; [|done|by apply handle_coordinates].
    change maxUint32 with (Z.ones 32) in *. rewrite Z.land_ones in * by lia. pose proof (Z.mod_pos_bound (SavedHandle identity) (2 ^ 32) ltac:(lia)). unfold coordinate, maxUint32. lia. }
  assert (Hi : is_Some (membershipIncarnation fs !! CurrentHandle identity)) by (apply (rw_incarnations _ _ _ (fw_roster _ _ Hw)); simpl; by rewrite Eh).
  destruct Hi as [i Ei]. pose proof (rw_incarnation _ _ _ (fw_roster _ _ Hw) _ _ Ei) as Hin.
  split; [|done]. change (restoreMember fs r identity) with (addRow r (ri_Name identity) (SavedHandle identity) (zeroOf (membershipIncarnation fs !! CurrentHandle identity))
    (restoredDirective fs identity) (zeroOf (joinedAt fs !! CurrentHandle identity)) (emptyOf (federateType fs !! CurrentHandle identity)) (restoredModules fs identity)).
  rewrite Ei. simpl. split.
  - apply addRow_wf; try done. intros h' E'. assert (Hh' : is_Some (r_handles r !! h')) by (apply Hr; by rewrite E'). destruct Hh' as [nm' Enm'].
    destruct (Hs nm' i) as (h0 & E0 & Ei0); [by exists h'|]. simpl in E0, Ei0. assert (h0 = CurrentHandle identity) as -> by (by eapply (rw_sessions _ _ _ (fw_roster _ _ Hw))).
    assert (nm' = ri_Name identity) as -> by congruence. apply Hr in Enm'. congruence.
  - intros nm' i' (h' & E1 & E2). simpl in E1, E2. apply lookup_insert_Some in E1 as [[<- <-]|[Hne E1]].
    + rewrite lookup_insert_eq in E2. injection E2 as <-. by exists (CurrentHandle identity).
    + rewrite lookup_insert_ne in E2 by done. apply Hs. by exists h'.
Qed.
Lemma restoreMembers_partial identities r r' : partial r -> restoreMembers fs (generation fs) identities r = Ret r' -> partial r'.
Proof.
  revert r. induction identities as [|identity identities IH]; intros r Hp; simpl; [by intros [= <-]|].
  destruct (validIdentity _ _ _ _) eqn:Ev; [|done]. destruct (validResignAction _) eqn:Ea; [|done]. simpl. apply IH. by apply restoreMember_partial.
Qed.
Lemma prepareRoster_partial identities r : prepareRoster fs (generation fs) identities = Ret r -> partial r.
Proof.
  unfold prepareRoster. destruct (_ && _); [|done]. apply restoreMembers_partial. split; [apply empty_roster_wf|]. intros nm i (h & E & _). simpl in E. by rewrite lookup_empty in E.
Qed.
Lemma restored_advances r : 0 <= k -> partial r -> advances k fs (set_roster fs r).
Proof. intros Hk [Hr Hs]. apply advances_roster; [done|done|pose proof (fw_next _ _ Hw); lia|done|apply Hw|]. intros nm i H. left. by apply Hs. Qed.
End Restore.

(** The row of a restored participant. *)
Definition restoredRow (fs : federationState) (r : roster) (x : RestoreIdentity) : Prop :=
  r_names r !! ri_Name x = Some (SavedHandle x) /\ r_handles r !! SavedHandle x = Some (ri_Name x) /\ r_incarnations r !! SavedHandle x = membershipIncarnation fs !! CurrentHandle x
  /\ r_directives r !! ri_Name x = Some (restoredDirective fs x) /\ r_modules r !! SavedHandle x = restoredModules fs x.
Section Rows.
Context (k : Z) (fs : federationState) (Hw : fs_wf k fs).
Lemma restoreMember_rows r x : partial fs r -> validIdentity fs r x (generation fs) = true -> validResignAction (restoredDirective fs x) = true ->
  restoredRow fs (restoreMember fs r x) x /\ forall y, restoredRow fs r y -> restoredRow fs (restoreMember fs r x) y.
Proof.
  intros Hp Hv Ha. destruct (restoreMember_partial k fs Hw r x Hp Hv Ha) as (_ & En & _ & Hnone & Hfree). destruct Hp as [Hr _].
  assert (Hi : is_Some (membershipIncarnation fs !! CurrentHandle x)) by (apply (rw_incarnations _ _ _ (fw_roster _ _ Hw)); apply (rw_inverse _ _ _ (fw_roster _ _ Hw)) in En; simpl in *; by rewrite En).
  destruct Hi as [i Ei]. assert (Hmod : r_modules r !! SavedHandle x = None) by (apply eq_None_not_Some; intros Hs; apply (rw_modules _ _ _ Hr) in Hs; rewrite Hfree in Hs; by destruct Hs).
  split.
  - unfold restoredRow, restoreMember. simpl. rewrite Ei. simpl. rewrite !lookup_insert_eq. split_and!; try done. destruct (restoredModules fs x); [by rewrite lookup_insert_eq|done].
  - intros y (H1 & H2 & H3 & H4 & H5). assert (Hn : ri_Name x <> ri_Name y) by congruence. assert (Hh : SavedHandle x <> SavedHandle y) by congruence.
    unfold restoredRow, restoreMember. simpl. rewrite !lookup_insert_ne by done. split_and!; try done. destruct (restoredModules fs x); [by rewrite lookup_insert_ne|done].
Qed.
Lemma restoreMembers_rows ids r r' : partial fs r -> restoreMembers fs (generation fs) ids r = Ret r' ->
  (forall x, x ∈ ids -> restoredRow fs r' x /\ nameToHandle fs !! ri_Name x = Some (CurrentHandle x)) /\ (forall y, restoredRow fs r y -> restoredRow fs r' y)
  /\ NoDup (map ri_Name ids) /\ (forall x, x ∈ ids -> r_names r !! ri_Name x = None) /\ (forall nm, is_Some (r_names r' !! nm) <-> nm ∈ map ri_Name ids \/ is_Some (r_names r !! nm)).
Proof.
  revert r. induction ids as [|x ids IH]; intros r Hp; simpl.
  - intros [= <-]. split_and!; [by intros x ?%elem_of_nil|done|constructor|by intros x ?%elem_of_nil|intros nm; rewrite elem_of_nil; tauto].
  - destruct (validIdentity fs r x (generation fs)) eqn:Ev; [|done]. destruct (validResignAction (restoredDirective fs x)) eqn:Ea; [|done]. simpl. intros H.
    destruct (restoreMember_partial k fs Hw r x Hp Ev Ea) as (Hp' & En & _ & Hnone & _). destruct (restoreMember_rows r x Hp Ev Ea) as [Hrow Hkeep].
    destruct (IH _ Hp' H) as (H1 & H2 & H3 & H4 & H5). assert (Hother : forall y, y ∈ ids -> ri_Name y <> ri_Name x /\ r_names r !! ri_Name y = None).
    { intros y Hy. specialize (H4 y Hy). simpl in H4. apply lookup_insert_None in H4 as [? ?]. done. }
    split_and!.
    + intros y [->|Hy]%elem_of_cons; [split; [by apply H2|done]|by apply H1].
    + intros y Hy. by apply H2, Hkeep.
    + constructor; [|done]. intros (y & E & Hy)%list_elem_of_fmap. by destruct (Hother y Hy).
    + intros y [->|Hy]%elem_of_cons; [done|by apply Hother].
    + intros nm. rewrite H5. simpl. rewrite is_Some_insert, elem_of_cons. tauto.
Qed.
(** The prepared roster: each identity under its saved handle, nobody else. *)
Lemma prepareRoster_exact ids r : prepareRoster fs (generation fs) ids = Ret r ->
  (forall x, x ∈ ids -> restoredRow fs r x) /\ (forall nm, is_Some (r_names r !! nm) <-> is_Some (nameToHandle fs !! nm)) /\ replaces fs r.
Proof.
  intros Hr1. destruct (prepareRoster_partial k fs Hw _ _ Hr1) as [Hrw Hsub]. pose proof (fw_roster _ _ Hw) as Hro. unfold prepareRoster in Hr1. destruct (bool_decide_reflect (ids = [])) as [|Hne]; [done|].
  destruct (Nat.eqb_spec (length ids) (size (handleToName fs))) as [Hlen|]; [|done]. simpl in Hr1.
  destruct (restoreMembers_rows ids emptyRoster r) as (H1 & _ & H3 & _ & H5); [split; [apply empty_roster_wf|intros nm i (h & Eh & _); simpl in Eh; by rewrite lookup_empty in Eh]|done|].
  assert (Hcover : forall nm, nm ∈ map ri_Name ids <-> is_Some (nameToHandle fs !! nm)).
  { apply names_cover; [done| |rewrite length_map, Hlen; symmetry; apply (roster_size _ _ _ Hro)]. intros nm (x & -> & Hx)%list_elem_of_fmap. destruct (H1 x Hx) as [_ Ex]. by rewrite Ex. }
  split; [intros x Hx; by apply H1|]. split; [intros nm; rewrite H5, <- Hcover; simpl; rewrite lookup_empty; split; [intros [?|[? [=]]]; done|by left]|].
  constructor; [|done|].
  - intros E. rewrite E, map_size_empty in Hlen. by destruct ids.
  - intros nm i. split; [apply Hsub|]. intros (h & Eh & Ei). simpl in Eh, Ei. assert (Enm : nameToHandle fs !! nm = Some h) by (by apply (rw_inverse _ _ _ Hro)).
    assert (Hin : nm ∈ map ri_Name ids) by (apply Hcover; by rewrite Enm). apply list_elem_of_fmap in Hin as (x & -> & Hx). destruct (H1 x Hx) as [(R1 & R2 & R3 & _) Ec].
    assert (CurrentHandle x = h) as <- by congruence. exists (SavedHandle x). split; [done|]. by rewrite R3.
Qed.
End Rows.

(** * Federation management: every request keeps the invariant

    A request either replaces the record of one execution, or lists or unlists
    one, or takes or gives back a hold. *)
Lemma with_issued_nil w f : with_issued w f [] = w.
Proof. by destruct w. Qed.
Lemma with_mgr_same w : with_mgr w (mgr w) = w.
Proof. by destruct w. Qed.
Lemma gateFree_none w id x : gateFree w id = true -> (id, x) ∉ holds w.
Proof. unfold gateFree. intros E%bool_decide_eq_true Hin%holders_in. rewrite E in Hin. by apply elem_of_nil in Hin. Qed.
Lemma rosterFree_none w id : rosterFree w id = true -> restoring w !! id = None.
Proof. apply bool_decide_eq_true. Qed.
Lemma holders_cons w id x j : holdersOf (with_hold w id x) j = if id =? j then x :: holdersOf w j else holdersOf w j.
Proof. unfold holdersOf. simpl. by destruct (id =? j). Qed.
Lemma holders_drop w id x j : (id, x) ∈ holds w -> exists l1 l2, holdersOf w j = l1 ++ (if id =? j then [x] else []) ++ l2 /\ holdersOf (without_hold w id x) j = l1 ++ l2.
Proof.
  intros (l1 & l2 & E & Ed)%dropHold_split. unfold holdersOf. simpl. rewrite Ed, E, !holders_app. eexists _, _. split; [|done]. simpl. by destruct (id =? j).
Qed.
Lemma dropped_in w id x y : y ∈ holds (without_hold w id x) -> y ∈ holds w.
Proof.
  simpl. destruct (decide ((id, x) ∈ holds w)) as [Hin|Hn].
  - destruct (dropHold_split _ _ Hin) as (l1 & l2 & -> & ->). rewrite !elem_of_app, elem_of_cons. tauto.
  - unfold dropHold. destruct (list_find _ _) as [[i z]|] eqn:E; [|done]. apply list_find_Some in E as (E & -> & _). by apply list_elem_of_lookup_2 in E.
Qed.
(** Only the dropped hold is gone. *)
Lemma dropped_other w id x y : y ∈ holds w -> y <> (id, x) -> y ∈ holds (without_hold w id x).
Proof.
  intros Hin Hne. simpl. destruct (decide ((id, x) ∈ holds w)) as [Hx|Hn].
  - destruct (dropHold_split _ _ Hx) as (l1 & l2 & E & ->). rewrite E, elem_of_app, elem_of_cons in Hin. rewrite elem_of_app. naive_solver.
  - unfold dropHold. destruct (list_find _ _) as [[i z]|] eqn:E; [|done]. apply list_find_Some in E as (E & -> & _). by apply list_elem_of_lookup_2 in E.
Qed.

(** The state of an address is settled by a guard of its name. *)
Lemma gated_listed m f id fs : gatedFederation m f id = Ret fs -> objects m !! id = Some fs /\ federations m !! f = Some id /\ destroying fs = false.
Proof.
  unfold gatedFederation, stateAt, stillListed. destruct (objects m !! id) as [fs0|]; [|done]. case_bool_decide; [|done]. destruct (destroying fs0) eqn:Ed; [done|]. simpl. by intros [= <-].
Qed.
Lemma lookup_listed m f id fs : lookupFederation m f = Some (id, fs) -> federations m !! f = Some id /\ objects m !! id = Some fs.
Proof.
  unfold lookupFederation, stateAt. destruct (federations m !! f) as [i|]; [|done]. simpl. destruct (objects m !! i) as [fs0|] eqn:E; [|done]. simpl. by intros [= <- <-].
Qed.

Section Preserve.
Context (k : Z) (w : world) (Hk : 0 <= k < 2 ^ 63) (Hw : world_wf k w).
Abbreviation m := (mgr w).
(** What a request must establish. *)
Definition kept (w' : world) : Prop := world_wf (k + 1) w' /\ evolvesM m (mgr w').

Lemma listed_name f id fs : federations m !! f = Some id -> objects m !! id = Some fs -> name fs = f.
Proof. intros El E. destruct (mw_listed _ _ (ww_manager _ _ Hw) f id El) as (fs0 & E0 & Hn). rewrite E in E0. by injection E0 as <-. Qed.
Lemma state_wf id fs : objects m !! id = Some fs -> fs_wf k fs.
Proof. intros E. by apply (mw_state _ _ (ww_manager _ _ Hw)) in E as (_ & ? & _). Qed.
Lemma kept_same : kept w.
Proof.
  split; [|reflexivity]. constructor; [eapply manager_mono; [|apply Hw]; lia|apply Hw|apply Hw].
Qed.
(** Holds that only look at the manager where it did not change. *)
Lemma holdOk_frame m' id x : holdOk m id x -> federations m' !! holdName x = federations m !! holdName x -> objects m' !! id = objects m !! id -> holdOk m' id x.
Proof. intros [Hf Ho] Ef Eo. unfold holdOk. by rewrite Ef, Eo. Qed.

(** ** A record replaced *)
Lemma kept_store id fs fs' hs : objects m !! id = Some fs -> advances k fs fs' -> restoring w !! id = None ->
  (forall x, (id, x) ∈ holds w -> promises x fs -> promises x fs') -> NoDup hs -> (forall h, h ∈ hs -> newIn fs (nextFederateHandle fs') h) ->
  kept (with_issued (with_mgr w (store m id fs')) (name fs) hs).
Proof.
  intros E (Hev & Hw' & Hd) Hr Hp Hnd Hnew. pose proof Hw as [Hm Hh Hi]. destruct (store_wf k m id fs fs' Hm ltac:(lia) E Hev Hw') as [Hm' Hevm].
  assert (E' : objects (store m id fs') !! id = Some fs') by (simpl; by rewrite lookup_insert_eq). split; [|done]. constructor; [done| |].
  - constructor; simpl.
    + apply (hw_exclusive _ Hh).
    + intros j x Hin. pose proof (hw_hold _ Hh j x Hin) as [Hl (fs0 & E0 & Hx)]. destruct (decide (j = id)) as [->|Hne].
      * split; [done|]. exists fs'. split; [done|]. rewrite E in E0. injection E0 as <-. by apply Hp.
      * split; [done|]. exists fs0. simpl. by rewrite lookup_insert_ne.
    + intros f j fs0 El. rewrite lookup_insert_Some. intros [[<- <-]|[Hne E0]] Hd0; [apply (hw_destroying _ Hh f id fs); congruence|by apply (hw_destroying _ Hh f j fs0)].
    + intros j v Ev. destruct (hw_restoring _ Hh j v Ev) as (? & ? & fs0 & E0 & ?). split; [done|]. split; [done|]. exists fs0. by rewrite lookup_insert_ne by congruence.
  - apply (issued_new k m (store m id fs') (issued w) (name fs) id fs fs' hs); [done|done|done|done|done|done|apply Hev|done|done].
Qed.
Lemma kept_store' id fs fs' : objects m !! id = Some fs -> advances k fs fs' -> restoring w !! id = None ->
  (forall x, (id, x) ∈ holds w -> promises x fs -> promises x fs') -> kept (with_mgr w (store m id fs')).
Proof. intros. rewrite <- (with_issued_nil _ (name fs)). apply kept_store; [done..|constructor|]. by intros h ?%elem_of_nil. Qed.

(** ** Holds taken and given back *)
Lemma kept_hold id x m' : manager_wf (k + 1) m' -> evolvesM m m' -> (forall j y, (j, y) ∈ holds w -> holdOk m' j y) -> holdOk m' id x ->
  (if exclusive x then gateFree w id else gateShared w id) = true ->
  (forall f j fs, federations m' !! f = Some j -> objects m' !! j = Some fs -> destroying fs = true -> (j, Destroying f) = (id, x) \/ (j, Destroying f) ∈ holds w) ->
  (forall j v, restoring w !! j = Some v -> objects m' !! j = objects m !! j) ->
  kept (with_hold (with_mgr w m') id x).
Proof.
  intros Hm' Hev Hold Hx Hgate Hd Hr. pose proof Hw as [Hm Hh Hi]. split; [|done]. constructor; [done| |by eapply issued_evolves].
  constructor.
  - intros j y. rewrite holders_cons. change (holdersOf (with_mgr w m') j) with (holdersOf w j). destruct (Z.eqb_spec id j) as [<-|]; [|apply (hw_exclusive _ Hh)].
    destruct (exclusive x) eqn:Ex.
    + apply bool_decide_eq_true in Hgate. rewrite Hgate. by intros ->%list_elem_of_singleton.
    + intros [->|Hin]%elem_of_cons Hy; [congruence|]. unfold gateShared in Hgate. rewrite forallb_forall in Hgate. apply list_elem_of_In, Hgate in Hin. by rewrite Hy in Hin.
  - intros j y [[= -> ->]|Hin]%elem_of_cons; [done|by apply Hold].
  - intros f j fs El E Hds. destruct (Hd f j fs El E Hds) as [->|]; [by left|by right].
  - intros j v Ev. destruct (hw_restoring _ Hh j v Ev) as (? & ? & fs & E & ?). split; [done|]. split; [done|]. exists fs. simpl. by rewrite (Hr j v Ev).
Qed.
Lemma kept_admitted guard id x fs : (guard = Ret () -> federations m !! holdName x = Some id /\ objects m !! id = Some fs /\ promises x fs) -> internal x = false ->
  (if exclusive x then gateFree w id else gateShared w id) = true -> kept (admitted w guard id x).
Proof.
  intros Hg Hi Hgate. unfold admitted. destruct guard as [[]|e|s]; [|apply kept_same..]. destruct (Hg eq_refl) as (Hl & E & Hp). pose proof Hw as [Hm Hh _].
  rewrite <- (with_mgr_same w). apply kept_hold; [eapply manager_mono; [|done]; lia|reflexivity|apply Hh|by split; [|exists fs]|done| |done].
  intros f j fs0 El E0 Hd. right. by eapply (hw_destroying _ Hh).
Qed.
(** Under a new manager, which the holds that remain still suit. *)
Lemma kept_release id x m' : manager_wf (k + 1) m' -> evolvesM m m' -> (id, x) ∈ holds w -> (forall j y, (j, y) ∈ holds (without_hold w id x) -> holdOk m' j y) ->
  (forall f j fs, federations m' !! f = Some j -> objects m' !! j = Some fs -> destroying fs = true -> (j, Destroying f) ∈ holds (without_hold w id x)) ->
  (forall j v, restoring w !! j = Some v -> objects m' !! j = objects m !! j) ->
  kept (without_hold (with_mgr w m') id x).
Proof.
  intros Hm' Hev Hin Hold Hd Hr. pose proof Hw as [Hm Hh Hi]. split; [|done]. constructor; [done| |by eapply issued_evolves]. constructor.
  - intros j y. destruct (holders_drop w id x j Hin) as (l1 & l2 & E & Ed). change (holdersOf (without_hold (with_mgr w m') id x) j) with (holdersOf (without_hold w id x) j). rewrite Ed.
    intros Hy Ey. pose proof (hw_exclusive _ Hh j y) as He. rewrite E in He. destruct (Z.eqb_spec id j) as [<-|].
    + assert (Hy' : y ∈ l1 ++ [x] ++ l2) by (rewrite !elem_of_app in *; tauto). specialize (He Hy' Ey). apply (f_equal length) in He. rewrite !length_app in He. simpl in He.
      destruct l1, l2; simpl in He; try lia. by apply elem_of_nil in Hy.
    + apply He; done.
  - apply Hold.
  - apply Hd.
  - intros j v Ev. destruct (hw_restoring _ Hh j v Ev) as (? & ? & fs & E & ?). split; [done|]. split; [done|]. exists fs. simpl. by rewrite (Hr j v Ev).
Qed.
End Preserve.
