(* ===== verification/FedHistory.v ===== *)
(** * Federation management: histories of requests

    The invariant holds after every history of requests served for lawful
    callers, however they interleave, and no execution goes back ([run_kept]);
    a lease keeps the sessions of its execution, and the rows of its members
    where no restoration is committed ([lease_run]). *)
From stdpp Require Import gmap strings.
From S2P Require Import Prelude GoBytes Fed FedService FedRestore FedRoster FedSteps.
Open Scope Z_scope.

Lemma prepareCreate_lawful env req t f : lawful env -> prepareCreate env req = Ret (t, f) -> lawfulFOM f.
Proof.
  intros Hl H. unfold prepareCreate in H. destruct (negb _); [|done]. bind_inv H. bind_inv H. injection H as _ <-. destruct (c_MIMModule req) as [mim|].
  - destruct (String.eqb _ _); [done|]. destruct (LoadWithMIM env) as [load|] eqn:E; [|done]. apply mapErr_Ret_inv in Hr0. by eapply lawful_mim.
  - apply mapErr_Ret_inv in Hr0. by eapply lawful_load.
Qed.
Lemma prepareExtension_lawful env req x : lawful env -> prepareExtension env req = Ret x -> x_PrepareCommit x = Ret () -> x_Commit x = Ret () /\ lawfulFOM (x_FOM x).
Proof.
  intros Hl H Hp. unfold prepareExtension in H. destruct (PrepareJoinFOM env) as [prepare|] eqn:E; [|done]. bind_inv H. apply mapErr_Ret_inv in Hr. destruct r as [y|]; [|done]. injection H as ->.
  by eapply lawful_extension.
Qed.
Lemma validateJoin_inv env m id req fs : validateJoin env m id req = Ret fs -> gatedFederation m (j_Federation req) id = Ret fs /\ nameToHandle fs !! j_FederateName req = None
  /\ forall e, j_ExpectedGeneration req = Some e -> generation fs = e.
Proof.
  intros H. unfold validateJoin in H. bind_inv H. destruct (match j_ExpectedGeneration req with Some e => _ | None => true end) eqn:Eg; [|done]. case_bool_decide as Hn; [done|]. simpl in H. bind_inv H. injection H as <-.
  split; [done|]. split; [by apply eq_None_not_Some|]. intros e Ee. rewrite Ee in Eg. by apply Z.eqb_eq in Eg.
Qed.
(** A join prepares, and then ends as [joinPrepared_cases] says. *)
Lemma joinLocked_cases env m id req setup : lawful env -> let r := joinLocked env m id req setup in
  (after r = m /\ (forall h, result r <> Ret h))
  \/ exists fs ext, validateJoin env m id req = Ret fs /\ (forall x, ext = Some x -> x_Commit x = Ret () /\ lawfulFOM (x_FOM x))
     /\ let p := joinPrepared env m id fs req setup ext in after r = after p /\ result r = result p
     /\ effects r = match ext with Some _ => [ExtensionReserved] ++ effects p ++ [ExtensionReleased] | None => effects p end.
Proof.
  intros Hl. cbv zeta. unfold joinLocked. destruct (validateJoin env m id req) as [fs|e|s] eqn:Ev; [|by left..]. simpl. case_bool_decide.
  - right. exists fs, None. by split_and!.
  - destruct (prepareExtension env req) as [x|e|s] eqn:Ex; [|by left..]. simpl. destruct (x_PrepareCommit x) as [[]|e|s] eqn:Ep; [|by left..]. right. exists fs, (Some x).
    split; [done|]. split; [|done]. intros y [= <-]. by eapply prepareExtension_lawful.
Qed.
Lemma ports_known_wf k fs env req setup ext m id h : 0 <= k < 2 ^ 63 -> fs_wf k fs -> lawful env -> nameToHandle fs !! j_FederateName req = None ->
  (forall x, ext = Some x -> x_Commit x = Ret () /\ lawfulFOM (x_FOM x)) -> result (joinPrepared env m id fs req setup ext) = Ret h ->
  h = assignedHandle (generation fs) (nextFederateHandle fs + 1) /\ nextFederateHandle fs + 1 <= maxUint32.
Proof.
  intros Hk Hw Hl Hf Hx. destruct (joinPrepared_cases k env req fs ext Hk Hw Hl Hf Hx m id setup) as [[_ ->]|(Hle & nm & _ & _ & _ & [(e & ap & _ & _ & ->)| ->])]; simpl; [done|done|]. by intros [= <-].
Qed.

Section History.
Context (k : Z) (w : world) (Hk : 0 <= k < 2 ^ 63) (Hw : world_wf k w).
Abbreviation m := (mgr w).
Abbreviation kept := (kept k w).

Lemma kept_mgr m' : manager_wf (k + 1) m' -> evolvesM m m' -> (forall j y, (j, y) ∈ holds w -> holdOk m' j y) ->
  (forall f j fs, federations m' !! f = Some j -> objects m' !! j = Some fs -> destroying fs = true -> (j, Destroying f) ∈ holds w) ->
  (forall j v, restoring w !! j = Some v -> objects m' !! j = objects m !! j) -> kept (with_mgr w m').
Proof.
  intros Hm' Hev Hold Hd Hr. destruct Hw as [Hm Hh Hi]. split; [|done]. constructor; [done| |by eapply issued_evolves]. constructor; [apply (hw_exclusive _ Hh)|done|done|].
  intros j v Ev. destruct (hw_restoring _ Hh j v Ev) as (? & ? & fs & E & ?). split; [done|]. split; [done|]. exists fs. simpl. by rewrite (Hr j v Ev).
Qed.
(** Listing a new execution. *)
Lemma published env req t f m' id g : lawful env -> prepareCreate env req = Ret (t, f) -> publishFederation m req t f = Ret (m', (id, g)) ->
  manager_wf (k + 1) m' /\ evolvesM m m' /\ (forall j y, (j, y) ∈ holds w -> holdOk m' j y)
  /\ (forall f j fs, federations m' !! f = Some j -> objects m' !! j = Some fs -> destroying fs = true -> (j, Destroying f) ∈ holds w)
  /\ (forall j v, restoring w !! j = Some v -> objects m' !! j = objects m !! j)
  /\ holdOk m' id (Creating (c_Name req)) /\ gateFree w id = true.
Proof.
  intros Hl Hp Hpub. pose proof Hw as [Hm Hh Hi]. destruct (publish_federation_wf k m req t f m' id g Hm ltac:(lia) (prepareCreate_lawful _ _ _ _ Hl Hp) Hpub) as (Hm' & Hev & -> & Hnone & Ef & Eo).
  assert (Hfresh : forall j fs, objects m !! j = Some fs -> j <> nextObject m) by (intros j fs E ->; apply (mw_state _ _ Hm) in E as [? _]; lia).
  split; [eapply manager_mono; [|done]; lia|]. split; [done|]. split_and!.
  - intros j y Hin. pose proof (hw_hold _ Hh j y Hin) as Ho. pose proof Ho as [El (fs & E & _)]. apply (holdOk_frame w); [done| |].
    + rewrite Ef, lookup_insert_ne; [done|congruence].
    + rewrite Eo, lookup_insert_ne; [done|]. intros <-. by apply Hfresh in E.
  - intros f' j fs. rewrite Ef, Eo, lookup_insert_Some. intros [[<- <-]|[Hne El]].
    + rewrite lookup_insert_eq. by intros [= <-].
    + destruct (mw_listed _ _ Hm f' j El) as (fs0 & E0 & _). rewrite lookup_insert_ne by (intros <-; by apply Hfresh in E0). by apply (hw_destroying _ Hh).
  - intros j v Ev. destruct (hw_restoring _ Hh j v Ev) as (_ & _ & fs & E & _). rewrite Eo, lookup_insert_ne; [done|]. intros <-. by apply Hfresh in E.
  - split; [rewrite Ef; apply lookup_insert_eq|]. eexists. rewrite Eo, lookup_insert_eq. split; [done|]. done.
  - unfold gateFree. apply bool_decide_eq_true. destruct (holdersOf w (nextObject m)) as [|x l] eqn:E; [done|]. assert (Hin : (nextObject m, x) ∈ holds w) by (apply holders_in; rewrite E; by left).
    apply (hw_hold _ Hh) in Hin as [_ (fs & E0 & _)]. by apply Hfresh in E0.
Qed.
Lemma create_kept env req : lawful env -> kept (with_mgr w (after (createFederation env m req None))).
Proof.
  intros Hl. unfold createFederation, passing. destruct (prepareCreate env req) as [[t f]|e|s] eqn:Ep; [|rewrite with_mgr_same; by apply kept_same..]. simpl.
  destruct (publishFederation m req t f) as [[m' [id g]]|e|s] eqn:Epub; [|rewrite with_mgr_same; by apply kept_same..]. simpl. destruct (published _ _ _ _ _ _ _ Hl Ep Epub) as (? & ? & ? & ? & ? & _). by apply kept_mgr.
Qed.
Lemma createBegin_kept env req w' : lawful env -> perform (QCreateBegin env req) w = Some w' -> kept w'.
Proof.
  intros Hl [= <-]. destruct (prepareCreate env req) as [[t f]|e|s] eqn:Ep; [|by apply kept_same..]. simpl.
  destruct (publishFederation m req t f) as [[m' [id g]]|e|s] eqn:Epub; [|by apply kept_same..]. destruct (published _ _ _ _ _ _ _ Hl Ep Epub) as (? & ? & ? & Hd & ? & ? & ?).
  apply kept_hold; try done. intros f' j fs El E Hds. right. by eapply Hd.
Qed.

(** A hold that is exclusive is the only one. *)
Lemma sole id x y : (id, x) ∈ holds w -> exclusive x = true -> (id, y) ∈ holds w -> y = x.
Proof. intros Hx%holders_in Ex Hy%holders_in. rewrite (hw_exclusive _ (ww_holds _ _ Hw) id x Hx Ex) in Hy. by apply list_elem_of_singleton in Hy. Qed.
Lemma sole_dropped id x y : (id, x) ∈ holds w -> exclusive x = true -> (id, y) ∉ holds (without_hold w id x).
Proof.
  intros Hx Ex Hy. destruct (holders_drop w id x id Hx) as (l1 & l2 & E & Ed). rewrite Z.eqb_refl in E. pose proof (hw_exclusive _ (ww_holds _ _ Hw) id x) as He.
  apply holders_in in Hx, Hy. specialize (He Hx Ex). rewrite E in He. apply (f_equal length) in He. rewrite !length_app in He. simpl in He. destruct l1, l2; simpl in He; try lia. rewrite Ed in Hy. by apply elem_of_nil in Hy.
Qed.
(** An execution that is being created or destroyed has no roster to restore. *)
Lemma internal_restoring id x v : (id, x) ∈ holds w -> internal x = true -> restoring w !! id <> Some v.
Proof.
  intros Hx Ix Ev. pose proof (ww_holds _ _ Hw) as Hh. destruct (hw_restoring _ Hh id v Ev) as (_ & _ & fs & E & [Hm _ _]). destruct (hw_hold _ Hh id x Hx) as [_ (fs0 & E0 & Hp)].
  rewrite E in E0. injection E0 as <-. by destruct x; destruct Hp.
Qed.
(** The execution of an exclusive internal hold unlisted. *)
Lemma unlisted_kept id x m0 : (id, x) ∈ holds w -> internal x = true -> manager_wf (k + 1) m0 -> evolvesM m m0 -> federations m0 = federations m -> (forall j, j <> id -> objects m0 !! j = objects m !! j) ->
  kept (without_hold (with_mgr w (unlist m0 (holdName x))) id x).
Proof.
  intros Hx Ix Hm0 Hev Ef Eo. pose proof Hw as [Hm Hh Hi]. assert (Ex : exclusive x = true) by (by destruct x). pose proof (hw_hold _ Hh id x Hx) as [El _].
  apply kept_release; [done|done|by apply unlist_wf|done|done| | |].
  - intros j y Hy. assert (Hne : j <> id) by (intros ->; by apply (sole_dropped id x y)). apply dropped_in in Hy. pose proof (hw_hold _ Hh j y Hy) as Ho. pose proof Ho as [Elj _].
    apply (holdOk_frame w); [done| |by apply Eo]. simpl. rewrite Ef, lookup_delete_ne; [done|]. intros En. rewrite En in El. congruence.
  - intros f j fs. simpl. rewrite Ef, lookup_delete_Some. intros [Hne Ej] E Hd. assert (Hid : j <> id).
    { intros ->. destruct (mw_listed _ _ Hm _ _ El) as (fs1 & E1 & N1). destruct (mw_listed _ _ Hm _ _ Ej) as (fs2 & E2 & N2). congruence. }
    rewrite Eo in E by done. change ((j, Destroying f) ∈ holds (without_hold w id x)). apply dropped_other; [by apply (hw_destroying _ Hh f j fs)|congruence].
  - intros j v Ev. apply Eo. intros ->. by apply (internal_restoring id x v Hx Ix) in Ev.
Qed.
Lemma release_kept id x : (id, x) ∈ holds w -> internal x = false -> kept (without_hold w id x).
Proof.
  intros Hx Ix. pose proof Hw as [Hm Hh Hi]. cut (kept (without_hold (with_mgr w m) id x)); [by rewrite with_mgr_same|]. apply kept_release; [done|done|eapply manager_mono; [|done]; lia|reflexivity|done| | |done].
  - intros j y Hy. apply dropped_in in Hy. by apply (hw_hold _ Hh).
  - intros f j fs El E Hd. apply dropped_other; [by eapply (hw_destroying _ Hh)|]. intros [= _ <-]. done.
Qed.
Lemma createEnd_kept f id ok w' : perform (QCreateEnd f id ok) w = Some w' -> kept w'.
Proof.
  simpl. unfold enabled, held. case_bool_decide as Hin; [|done]. intros [= <-]. pose proof Hw as [Hm Hh Hi]. destruct ok.
  - apply kept_release; [done|done|eapply manager_mono; [|done]; lia|reflexivity|done| | |done].
    + intros j y Hy. apply dropped_in in Hy. by apply (hw_hold _ Hh).
    + intros f' j fs' El' E' Hd. apply dropped_other; [by eapply (hw_destroying _ Hh)|]. by intros [=].
  - pose proof (hw_hold _ Hh _ _ Hin) as [_ (fs & E & Hp)]. simpl in Hp. unfold withdrawFederation, stateAt. rewrite E.
    assert (Ha : evolvesTo fs (set_destroying fs) /\ fs_wf (k + 1) (set_destroying fs)).
    { pose proof (state_wf k w Hw id fs E) as Hs. split; [constructor; [done|done|simpl; lia|by left]|]. destruct (fs_wf_mono k (k + 1) fs ltac:(lia) Hs). by constructor. }
    destruct Ha as [Ha1 Ha2]. destruct (store_wf k m id fs (set_destroying fs) Hm ltac:(lia) E Ha1 Ha2). apply (unlisted_kept id (Creating f) (store m id (set_destroying fs))); try done. intros j Hj. simpl. by rewrite lookup_insert_ne.
Qed.
Lemma destroyEnd_kept f id w' : perform (QDestroyEnd f id) w = Some w' -> kept w'.
Proof.
  simpl. unfold enabled, held. case_bool_decide as Hin; [|done]. intros [= <-]. apply (unlisted_kept id (Destroying f) m); try done. eapply manager_mono; [|apply Hw]. lia.
Qed.
Lemma destroyBegin_kept f id expected w' : perform (QDestroyBegin f id expected) w = Some w' -> kept w'.
Proof.
  simpl. unfold enabled. destruct (gateFree w id) eqn:Eg, (rosterFree w id) eqn:Er; try done. simpl. intros [= <-]. destruct (beginDestroy m f id expected) as [m'|e|s] eqn:Eb; [|by apply kept_same..].
  unfold beginDestroy, stateAt, stillListed in Eb. destruct (objects m !! id) as [fs|] eqn:E; [|done]. case_bool_decide as El; [|done]. destruct (match expected with Some e => _ | None => true end); [|done].
  destruct (Nat.eqb_spec (size (handleToName fs)) 0) as [Es|]; [|done]. simpl in Eb. injection Eb as <-. pose proof Hw as [Hm Hh Hi]. pose proof (state_wf k w Hw id fs E) as Hs.
  assert (Ha1 : evolvesTo fs (set_destroying fs)) by (constructor; [done|done|simpl; lia|by left]).
  assert (Ha2 : fs_wf (k + 1) (set_destroying fs)) by (destruct (fs_wf_mono k (k + 1) fs ltac:(lia) Hs); by constructor).
  destruct (store_wf k m id fs (set_destroying fs) Hm ltac:(lia) E Ha1 Ha2) as [Hm' Hev]. apply kept_hold; [done|done|done| | |done| |].
  - intros j y Hin. apply (holdOk_frame w); [by apply (hw_hold _ Hh)|done|]. simpl. rewrite lookup_insert_ne; [done|]. intros ->. by apply (gateFree_none w j y).
  - split; [done|]. exists (set_destroying fs). simpl. rewrite lookup_insert_eq. split; [done|]. split; [done|]. by apply map_size_empty_iff.
  - intros f' j fs'. simpl. intros El'. rewrite lookup_insert_Some. intros [[<- <-]|[Hne E']] Hd; [left|right; by eapply (hw_destroying _ Hh)].
    f_equal. f_equal. rewrite <- (listed_name k w Hw f' id fs El' E). by apply (listed_name k w Hw f id fs).
  - intros j v Ev. simpl. rewrite lookup_insert_ne; [done|]. intros ->. apply rosterFree_none in Er. congruence.
Qed.
Lemma no_promise id : gateFree w id = true -> forall fs fs' x, (id, x) ∈ holds w -> promises x fs -> promises x fs'.
Proof. intros Hg fs fs' x Hin. by destruct (gateFree_none w id x Hg). Qed.
Lemma join_kept env id req w' : lawful env -> perform (QJoin env id req) w = Some w' -> kept w'.
Proof.
  intros Hl. cbn [perform]. cbv zeta. unfold enabled. destruct (gateFree w id) eqn:Eg, (rosterFree w id) eqn:Er; try done. simpl andb. cbv iota. intros [= <-]. apply rosterFree_none in Er.
  destruct (joinLocked_cases env m id req true Hl) as [[-> Hn]|(fs & ext & Ev & Hx & Ea & Eres & _)].
  - destruct (result _) as [h|e|s] eqn:E; [by destruct (Hn h)|rewrite with_issued_nil, with_mgr_same; by apply kept_same..].
  - rewrite Ea, Eres. apply validateJoin_inv in Ev as (Hg & Hfree & _). apply gated_listed in Hg as (E & El & Hd). pose proof (state_wf k w Hw id fs E) as Hs.
    rewrite <- (listed_name k w Hw (j_Federation req) id fs El E). pose proof (fw_next _ _ Hs) as Hnx.
    destruct (joinPrepared_cases k env req fs ext Hk Hs Hl Hfree Hx m id true) as [[Hlt ->]|(Hle & nm & Hnm & En & _ & [(e & append & _ & _ & ->)| ->])]; simpl after; simpl result; cbv iota.
    + rewrite with_issued_nil. apply (kept_store' k w Hk Hw id fs); [done|apply advances_next; lia || done|done|by apply no_promise].
    + rewrite with_issued_nil. apply (kept_store' k w Hk Hw id fs); [done|apply advances_next; lia || done|done|by apply no_promise].
    + apply kept_store; [done|done|done|by apply joined_advances|done|by apply no_promise|apply NoDup_singleton|]. intros h ->%list_elem_of_singleton. exists (nextFederateHandle fs + 1). unfold coordinate. simpl. split; [lia|]. split; [lia|done].
Qed.
Lemma resign_kept env f id h action expected condition automatic w' : perform (QResign env f id h action expected condition automatic) w = Some w' -> kept w'.
Proof.
  simpl. unfold enabled. destruct (gateFree w id) eqn:Eg, (rosterFree w id) eqn:Er; try done. simpl. intros [= <-]. apply rosterFree_none in Er. destruct (validResignAction action); [|by apply kept_same].
  destruct (resignLocked_cases env m f id h action expected condition automatic) as [->|(fs & h' & nm & action' & Hg & Hres & ->)]; [rewrite with_mgr_same; by apply kept_same|].
  apply gated_listed in Hg as (E & El & Hd). apply resolve_joined in Hres. apply (kept_store' k w Hk Hw id fs); [done|apply resigned_advances; [lia|by eapply state_wf|done]|done|by apply no_promise].
Qed.
Lemma acquire_kept f id h w' : perform (QAcquire f id h) w = Some w' -> kept w'.
Proof.
  simpl. unfold enabled. destruct (gateShared w id) eqn:Eg, (rosterFree w id) eqn:Er; try done. simpl. intros [= <-].
  destruct (objects m !! id) as [fs|] eqn:E.
  - apply (kept_admitted k w Hw _ id _ fs); [|done|done]. unfold admitMember. intros H. bind_inv H. case_bool_decide as Hj; [|done]. apply gated_listed in Hr as (E' & El & Hd). rewrite E in E'. injection E' as <-. done.
  - unfold admitMember, gatedFederation, stateAt. rewrite E. by apply kept_same.
Qed.
Lemma acquireGeneration_kept f id g w' : perform (QAcquireGeneration f id g) w = Some w' -> kept w'.
Proof.
  simpl. unfold enabled. destruct (gateShared w id) eqn:Eg; try done. simpl. intros [= <-]. destruct (objects m !! id) as [fs|] eqn:E.
  - apply (kept_admitted k w Hw _ id _ fs); [|done|done]. unfold admitGeneration. intros H. bind_inv H. apply gated_listed in Hr as (E' & El & Hd). rewrite E in E'. by injection E' as <-.
  - unfold admitGeneration, gatedFederation, stateAt. rewrite E. by apply kept_same.
Qed.
Lemma acquireSnapshot_kept f id h g w' : perform (QAcquireSnapshot f id h g) w = Some w' -> kept w'.
Proof.
  simpl. unfold enabled. destruct (gateFree w id) eqn:Eg, (rosterFree w id) eqn:Er; try done. simpl. intros [= <-]. destruct (objects m !! id) as [fs|] eqn:E.
  - apply (kept_admitted k w Hw _ id _ fs); [|done|done]. unfold admitSnapshot. simpl. intros H. bind_inv H. apply gated_listed in Hr as (E' & El & Hd). rewrite E in E'. by injection E' as <-.
  - unfold admitSnapshot, gatedFederation, stateAt. simpl. rewrite E. by apply kept_same.
Qed.
(** Services that a lease does not keep out leave the roster as it is. *)
Lemma promises_roster x fs d f n r : destroying fs = d -> r_handles r = handleToName fs -> promises x fs -> promises x (withState fs d f n r).
Proof. intros <- E. destruct x; simpl; by rewrite ?E. Qed.
Lemma directive_kept f h action w' : perform (QSetDirective f h action) w = Some w' -> kept w'.
Proof.
  simpl. unfold enabled. destruct (rosterFree _ _) eqn:Er; [|done]. intros [= <-]. apply rosterFree_none in Er. unfold SetAutomaticResignDirective. destruct (validResignAction action) eqn:Ev; simpl; [|rewrite with_mgr_same; by apply kept_same].
  destruct (directiveOf m f h) as [[[id fs] nm]|e|s] eqn:E; simpl; [|rewrite with_mgr_same; by apply kept_same..]. unfold directiveOf in E. destruct (lookupFederation m f) as [[id0 fs0]|] eqn:El; [|done]. destruct (handleToName fs0 !! h) as [nm0|] eqn:En; [|done]. injection E as -> -> ->.
  apply lookup_listed in El as [El E]. unfold listedId in Er. rewrite El in Er. pose proof (state_wf k w Hw id fs E) as Hs. apply (kept_store' k w Hk Hw id fs); [done| |done|intros x _; by apply promises_roster].
  pose proof (rw_directives _ _ _ (fw_roster _ _ Hs)) as Hdir. pose proof (proj2 (rw_inverse _ _ _ (fw_roster _ _ Hs) nm h) En) as Enm. simpl in Hdir, Enm. apply advances_directives; [lia|done| |].
  - intros nm'. rewrite is_Some_insert, Hdir. split; [intros [->|]; [by rewrite Enm|done]|by right].
  - intros nm' a. rewrite lookup_insert_Some. intros [[<- <-]|[_ Ea]]; [done|by apply (rw_directive _ _ _ (fw_roster _ _ Hs) nm')].
Qed.
Lemma import_kept f s w' : perform (QImportDirectives f s) w = Some w' -> kept w'.
Proof.
  simpl. unfold enabled. destruct (rosterFree _ _) eqn:Er; [|done]. intros [= <-]. apply rosterFree_none in Er. unfold ImportAutomaticResignState, passing. destruct (ValidateAutomaticResignState s) as [[]|e|msg] eqn:Ev; simpl; [|rewrite with_mgr_same; by apply kept_same..].
  destruct (lookupFederation m f) as [[id fs]|] eqn:El; simpl; [|rewrite with_mgr_same; by apply kept_same]. destruct (Nat.eqb_spec (length (Directives s)) (size (nameToHandle fs))) as [Hlen|]; simpl; [|rewrite with_mgr_same; by apply kept_same].
  destruct (importDirectives fs (Directives s) ∅) as [values|e|msg] eqn:Ei; simpl; [|rewrite with_mgr_same; by apply kept_same..]. apply lookup_listed in El as [El E]. unfold listedId in Er. rewrite El in Er.
  destruct (imported_directives fs s values Ev Hlen Ei) as (Hd & _ & Ha). apply (kept_store' k w Hk Hw id fs); [done|apply advances_directives; [lia|by eapply state_wf|done|done]|done|intros x _; by apply promises_roster].
Qed.
Lemma live_listed f g id fs : liveGeneration m f g = Ret (id, fs) -> federations m !! f = Some id /\ objects m !! id = Some fs /\ destroying fs = false /\ generation fs = g.
Proof.
  unfold liveGeneration. destruct (lookupFederation m f) as [[id0 fs0]|] eqn:El; [|done]. destruct (destroying fs0) eqn:Ed; [done|]. destruct (Z.eqb_spec (generation fs0) g); [|done]. simpl. intros [= -> ->]. by apply lookup_listed in El as [? ?].
Qed.
Lemma reserve_kept f g count w' : perform (QReserve f g count) w = Some w' -> kept w'.
Proof.
  cbn [perform]. cbv zeta. unfold enabled. destruct (rosterFree _ _) eqn:Er; [|done]. intros [= <-]. apply rosterFree_none in Er. unfold ReserveRestoreHandles, passing. destruct (Z.leb_spec count 0); [simpl; rewrite with_issued_nil, with_mgr_same; by apply kept_same|].
  destruct (liveGeneration m f g) as [[id fs]|e|s] eqn:El; [|simpl; rewrite with_issued_nil, with_mgr_same; by apply kept_same..]. apply live_listed in El as (El & E & Hd & <-). cbv zeta. pose proof (state_wf k w Hw id fs E) as Hs.
  destruct (Z.ltb_spec (handleLimit (generation fs)) (nextFederateHandle fs)); [simpl; rewrite with_issued_nil, with_mgr_same; by apply kept_same|]. destruct (Z.ltb_spec (handleLimit (generation fs) - nextFederateHandle fs) count); [simpl; rewrite with_issued_nil, with_mgr_same; by apply kept_same|].
  simpl orb. cbv iota. pose proof (handleLimit_le (generation fs)). pose proof (fw_next _ _ Hs). rewrite takeHandles_eq by (apply Hs || lia). cbn [after result]. rewrite <- (listed_name k w Hw f id fs El E).
  unfold listedId in Er. rewrite El in Er. apply (kept_store k w Hk Hw id fs); [done|apply advances_next; [lia|done|lia]|done|intros x _; by apply promises_roster| |].
  - rewrite reverse_Permutation. apply (NoDup_fmap_2_strong (assignedHandle (generation fs))); [|apply NoDup_seqZ]. intros a b Ha Hb Eab. apply elem_of_seqZ in Ha, Hb. apply assignedHandle_inj in Eab; [lia|apply Hs|lia|apply Hs|lia].
  - intros h Hh. rewrite elem_of_reverse in Hh. apply list_elem_of_fmap in Hh as (l & -> & Hl). apply elem_of_seqZ in Hl. exists l. unfold coordinate. simpl. split; [lia|]. split; [lia|done].
Qed.
Lemma prepareRestore_kept f g identities w' : perform (QPrepareRestore f g identities) w = Some w' -> kept w'.
Proof.
  cbn [perform]. cbv zeta. unfold enabled. destruct (rosterFree _ _) eqn:Er; [|done]. intros [= <-]. apply rosterFree_none in Er.
  destruct (PrepareRestoreIdentity m f g identities) as [v|e|s] eqn:Ep; [|by apply kept_same..]. unfold PrepareRestoreIdentity in Ep. bind_inv Ep. destruct r as [id fs]. bind_inv Ep. injection Ep as <-. simpl.
  apply live_listed in Hr as (El & E & Hd & <-). unfold listedId in *. rewrite El in *. simpl in *. pose proof (state_wf k w Hw id fs E) as Hs. destruct (prepareRoster_exact k fs Hs _ _ Hr0) as (_ & _ & Hrep).
  pose proof Hw as [Hm Hh Hi]. split; [|reflexivity]. constructor; [eapply manager_mono; [|done]; lia| |done]. constructor; [apply (hw_exclusive _ Hh)|apply (hw_hold _ Hh)|apply (hw_destroying _ Hh)|].
  intros j v. simpl. rewrite lookup_insert_Some. intros [[<- <-]|[Hne Ev]]; [|by apply (hw_restoring _ Hh)]. simpl. split; [done|]. split; [done|]. by exists fs.
Qed.
Lemma finish_restore_kept id w1 : kept w1 -> kept (World (mgr w1) (holds w1) (delete id (restoring w1)) (issued w1)).
Proof.
  intros [[Hm Hh Hi] Hev]. split; [|done]. constructor; [done| |done]. constructor; [apply (hw_exclusive _ Hh)|apply (hw_hold _ Hh)|apply (hw_destroying _ Hh)|]. intros j v. simpl. rewrite lookup_delete_Some. intros [_ Ev]. by apply (hw_restoring _ Hh).
Qed.
End History.

Lemma commitRestore_kept k w id w' : 0 <= k < 2 ^ 63 -> world_wf k w -> perform (QCommitRestore id) w = Some w' -> kept k w w'.
Proof.
  intros Hk Hw. cbn [perform]. destruct (restoring w !! id) as [v|] eqn:Ev; [|done]. intros [= <-]. pose proof (ww_holds _ _ Hw) as Hh. destruct (hw_restoring _ Hh id v Ev) as (<- & Hd & fs & E & [Hm0 Hr Hses]).
  unfold Commit, stateAt. rewrite Hd, E. cbn [fst]. pose proof (state_wf k w Hw _ fs E) as Hsw.
  (* the roster's lock is given back with the replacement in place *)
  pose proof (ww_manager _ _ Hw) as Hm. destruct (restored_advances k fs Hsw (v_roster v)) as (Hev & Hw' & _); [lia|split; [done|intros; by apply Hses]|]. destruct (store_wf k (mgr w) _ fs _ Hm ltac:(lia) E Hev Hw') as [Hm' Hevm].
  split; [|done]. constructor; [done| |eapply issued_evolves; [done|apply Hw]]. constructor; simpl.
  - apply (hw_exclusive _ Hh).
  - intros j x Hin. pose proof (hw_hold _ Hh j x Hin) as [El (fs0 & E0 & Hx)]. split; [done|]. destruct (decide (j = v_id v)) as [->|]; [|exists fs0; simpl; by rewrite lookup_insert_ne].
    exists (set_roster fs (v_roster v)). simpl. rewrite lookup_insert_eq. split; [done|]. rewrite E in E0. injection E0 as <-. destruct x; try done; by destruct Hx.
  - intros f' j fs0 El. rewrite lookup_insert_Some. intros [[<- <-]|[Hne E0]] Hd0; [by apply (hw_destroying _ Hh f' _ fs)|by apply (hw_destroying _ Hh f' j fs0)].
  - intros j v'. rewrite lookup_delete_Some. intros [Hne Ev']. destruct (hw_restoring _ Hh j v' Ev') as (? & ? & fs0 & ? & ?). split; [done|]. split; [done|]. exists fs0. by rewrite lookup_insert_ne.
Qed.

(** ** Histories *)
Lemma perform_kept k q w w' : 0 <= k < 2 ^ 63 -> world_wf k w -> lawfulRequest q -> perform q w = Some w' -> kept k w w'.
Proof.
  intros Hk Hw Hl Hp. destruct q; simpl in Hl.
  - injection Hp as <-. by apply create_kept.
  - by eapply createBegin_kept.
  - by eapply createEnd_kept.
  - by eapply destroyBegin_kept.
  - by eapply destroyEnd_kept.
  - by eapply join_kept.
  - by eapply resign_kept.
  - by eapply acquire_kept.
  - by eapply acquireGeneration_kept.
  - by eapply acquireSnapshot_kept.
  - cbn [perform] in Hp. unfold enabled, held in Hp. case_bool_decide; [|done]. destruct (internal x) eqn:Ei; [done|]. simpl in Hp. injection Hp as <-. by apply release_kept.
  - by eapply directive_kept.
  - by eapply import_kept.
  - by eapply reserve_kept.
  - by eapply prepareRestore_kept.
  - by eapply commitRestore_kept.
  - cbn [perform] in Hp. destruct (restoring w !! id); [|done]. injection Hp as <-. apply (finish_restore_kept k w id w). by apply kept_same.
Qed.
Lemma run_kept qs k w w' : 0 <= k -> k + Z.of_nat (length qs) <= 2 ^ 63 -> world_wf k w -> Forall lawfulRequest qs -> run qs w = Some w' ->
  world_wf (k + Z.of_nat (length qs)) w' /\ evolvesM (mgr w) (mgr w').
Proof.
  revert k w. induction qs as [|q qs IH]; intros k w Hk Hb Hw Hl Hr; simpl in Hr.
  - injection Hr as <-. rewrite Z.add_0_r. split; [done|reflexivity].
  - destruct (perform q w) as [w1|] eqn:E; [|done]. simpl in Hr. cbn [length] in *. inversion Hl as [|? ? Hq Hqs]; subst. destruct (perform_kept k q w w1 ltac:(lia) Hw Hq E) as [Hw1 Hev].
    destruct (IH (k + 1) w1 ltac:(lia) ltac:(lia) Hw1 Hqs Hr) as [Hw' Hev']. split; [by replace (k + Z.of_nat (S (length qs))) with (k + 1 + Z.of_nat (length qs)) by lia|by transitivity (mgr w1)].
Qed.
(** The world of a new manager. *)
Lemma fed_New_wf clock foms stall epoch span m : New clock foms stall epoch span = Ret m -> world_wf 0 (startsFrom m).
Proof.
  unfold New. destruct clock, foms; simpl; try done. intros [= <-]. assert (Hu : forall z, 0 <= wrapU 32 z <= maxUint32) by (intros z; pose proof (wrapU_range 32 z ltac:(lia)) as H; unfold inU, maxU, maxUint32 in *; lia).
  constructor; simpl.
  - constructor; simpl; intros; rewrite ?lookup_empty in *; done.
  - constructor; simpl.
    + intros id x Hin%holders_in. by apply elem_of_nil in Hin.
    + intros id x Hin. by apply elem_of_nil in Hin.
    + intros f id fs. by rewrite lookup_empty.
    + intros id v. by rewrite lookup_empty.
  - split; [constructor|]. intros f h Hin. by apply elem_of_nil in Hin.
Qed.
(** What is reached by fewer than [2 ^ 63] requests of lawful callers. *)
Definition reachable (m : Manager) (w : world) : Prop := exists qs, Forall lawfulRequest qs /\ Z.of_nat (length qs) < 2 ^ 63 /\ run qs (startsFrom m) = Some w.
Lemma reachable_bounded clock foms stall epoch span m w : New clock foms stall epoch span = Ret m -> reachable m w -> exists k, 0 <= k < 2 ^ 63 /\ world_wf k w.
Proof.
  intros Hn (qs & Hl & Hb & Hr). apply fed_New_wf in Hn. destruct (run_kept qs 0 _ w ltac:(lia) ltac:(lia) Hn Hl Hr) as [Hw _]. exists (Z.of_nat (length qs)). split; [lia|done].
Qed.

(** ** What a lease keeps *)
(** But for the counter and the directives, the execution is as it was. *)
Definition sameMembers (fs fs' : federationState) : Prop := exists n d, fs' = set_directives (set_next fs n) d.
(** The sessions are those that were, whatever handles they have. *)
Definition sameSessions (fs fs' : federationState) : Prop :=
  destroying fs' = destroying fs /\ fom fs' = fom fs /\ forall nm i, session fs' nm i <-> session fs nm i.
#[export] Instance sameMembers_preorder : PreOrder sameMembers.
Proof.
  split.
  - intros fs. exists (nextFederateHandle fs), (automaticResign fs). by destruct fs.
  - intros fs1 fs2 fs3 (n & d & ->) (n' & d' & ->). by exists n', d'.
Qed.
#[export] Instance sameSessions_preorder : PreOrder sameSessions.
Proof.
  split; [by intros fs|]. intros fs1 fs2 fs3 (D1 & F1 & S1) (D2 & F2 & S2). split; [congruence|]. split; [congruence|]. intros nm i. by rewrite S2, S1.
Qed.
Lemma sameMembers_sessions fs fs' : sameMembers fs fs' -> sameSessions fs fs'.
Proof. by intros (n & d & ->). Qed.
(** A lease ends with its own release only. *)
Lemma lease_kept q w w' id x : perform q w = Some w' -> internal x = false -> q <> QRelease id x -> (id, x) ∈ holds w -> (id, x) ∈ holds w'.
Proof.
  intros Hp Ix Hq Hin. assert (Hadm : forall guard j y, (id, x) ∈ holds (admitted w guard j y)) by (intros [] ? ?; simpl; [by right|done..]).
  destruct q; cbn [perform] in Hp; unfold enabled in Hp; repeat case_match; simplify_eq; simpl; try done; try (by right); try (by apply Hadm); apply dropped_other; try done; intros ?; by simplify_eq.
Qed.

Section Leased.
Context (k : Z) (w : world) (Hk : 0 <= k < 2 ^ 63) (Hw : world_wf k w).
Context (id : Z) (x : hold) (fs : federationState) (Hx : (id, x) ∈ holds w) (Ix : internal x = false) (E : objects (mgr w) !! id = Some fs).
Definition unmoved (m' : Manager) : Prop := exists fs', objects m' !! id = Some fs' /\ sameMembers fs fs'.
Lemma unmoved_same m' : objects m' !! id = objects (mgr w) !! id -> unmoved m'.
Proof. intros Eo. exists fs. rewrite Eo. by split. Qed.
Lemma unmoved_other j fs1 : j <> id -> unmoved (store (mgr w) j fs1).
Proof. intros Hne. apply unmoved_same. simpl. by rewrite lookup_insert_ne. Qed.
Lemma unmoved_store j fs0 n d : objects (mgr w) !! j = Some fs0 -> unmoved (store (mgr w) j (set_directives (set_next fs0 n) d)).
Proof.
  intros E0. destruct (decide (j = id)) as [->|Hne]; [|by apply unmoved_other]. exists (set_directives (set_next fs n) d). simpl. rewrite lookup_insert_eq. split; [congruence|by exists n, d].
Qed.
Lemma unmoved_directives j fs0 d : objects (mgr w) !! j = Some fs0 -> unmoved (store (mgr w) j (set_directives fs0 d)).
Proof. intros E0. by apply (unmoved_store j fs0 (nextFederateHandle fs0) d). Qed.
Lemma unmoved_next j fs0 n : objects (mgr w) !! j = Some fs0 -> unmoved (store (mgr w) j (set_next fs0 n)).
Proof. intros E0. by apply (unmoved_store j fs0 n (automaticResign fs0)). Qed.
Lemma gated_other j : gateFree w j = true -> j <> id.
Proof. intros Hg ->. by apply (gateFree_none w id x Hg). Qed.
Lemma internal_other j y : (j, y) ∈ holds w -> internal y = true -> j <> id.
Proof. intros Hy Iy ->. assert (exclusive y = true) as Ey by (by destruct y). assert (x = y) by (by apply (sole k w Hw id)). congruence. Qed.
Lemma unmoved_published env req t f m' i g : lawful env -> prepareCreate env req = Ret (t, f) -> publishFederation (mgr w) req t f = Ret (m', (i, g)) -> unmoved m'.
Proof.
  intros Hl Hp Hpub. pose proof (ww_manager _ _ Hw) as Hm. destruct (publish_federation_wf k _ req t f m' i g Hm ltac:(lia) (prepareCreate_lawful _ _ _ _ Hl Hp) Hpub) as (_ & _ & -> & _ & _ & Eo).
  apply unmoved_same. rewrite Eo, lookup_insert_ne; [done|]. intros <-. apply (mw_state _ _ Hm) in E as [? _]. lia.
Qed.
(** No request but the commit of a restoration moves a member. *)
Lemma unmoved_perform q w' : lawfulRequest q -> perform q w = Some w' -> q <> QCommitRestore id -> unmoved (mgr w').
Proof.
  intros Hl Hp Hq. assert (Hsame : unmoved (mgr w)) by (by apply unmoved_same). assert (Hadm : forall guard j y, unmoved (mgr (admitted w guard j y))) by (by intros []).
  destruct q as [env req|env req|f j ok|f j expected|f j|env j req|env f j h action expected condition automatic|f j h|f j expected|f j h expected|j y|f h action|f s|f expected count|f expected ids|j|j];
    cbn [perform] in Hp; cbv zeta in Hp; unfold enabled in Hp; simpl in Hl.
  - injection Hp as <-. unfold createFederation, passing. destruct (prepareCreate env req) as [[t f]|e|s] eqn:Ep; [|done..]. simpl.
    destruct (publishFederation (mgr w) req t f) as [[m' [i g]]|e|s] eqn:Epub; [|done..]. by eapply unmoved_published.
  - injection Hp as <-. destruct (prepareCreate env req) as [[t f]|e|s] eqn:Ep; [|done..]. simpl.
    destruct (publishFederation (mgr w) req t f) as [[m' [i g]]|e|s] eqn:Epub; [|done..]. by eapply unmoved_published.
  - unfold held in Hp. case_bool_decide as Hj; [|done]. injection Hp as <-. destruct ok; [done|]. simpl. unfold withdrawFederation. destruct (stateAt _ j); [|by apply unmoved_same].
    apply unmoved_same. simpl. rewrite lookup_insert_ne; [done|by eapply internal_other].
  - destruct (gateFree w j) eqn:Eg; [|done]. destruct (rosterFree w j); [|done]. injection Hp as <-. unfold beginDestroy. destruct (stateAt _ j) as [fs0|]; [|done]. destruct (stillListed _ _ _); [|done].
    destruct (match expected with Some e => _ | None => true end); [|done]. destruct (_ =? 0)%nat; [|done]. apply unmoved_other. by apply gated_other.
  - unfold held in Hp. case_bool_decide as Hj; [|done]. injection Hp as <-. by apply unmoved_same.
  - destruct (gateFree w j) eqn:Eg; [|done]. destruct (rosterFree w j); [|done]. injection Hp as <-. simpl. destruct (joinLocked_cases env (mgr w) j req true Hl) as [[-> _]|(fs0 & ext & Ev & Hext & -> & _)]; [done|].
    apply validateJoin_inv in Ev as (Hgd & Hfree & _). apply gated_listed in Hgd as (E0 & _).
    destruct (joinPrepared_cases k env req fs0 ext Hk (state_wf k w Hw j fs0 E0) Hl Hfree Hext (mgr w) j true) as [[_ ->]|(_ & nm & _ & _ & _ & [(e & append & _ & _ & ->)| ->])]; apply unmoved_other; by apply gated_other.
  - destruct (gateFree w j) eqn:Eg; [|done]. destruct (rosterFree w j); [|done]. injection Hp as <-. destruct (validResignAction action); [|done]. simpl.
    destruct (resignLocked_cases env (mgr w) f j h action expected condition automatic) as [->|(fs0 & h' & nm & action' & _ & _ & ->)]; [done|]. apply unmoved_other. by apply gated_other.
  - case_match; [|done]. by injection Hp as <-.
  - case_match; [|done]. by injection Hp as <-.
  - case_match; [|done]. by injection Hp as <-.
  - case_match; [|done]. by injection Hp as <-.
  - case_match; [|done]. injection Hp as <-. unfold SetAutomaticResignDirective, passing, directiveOf. destruct (validResignAction action); [|done]. simpl. destruct (lookupFederation (mgr w) f) as [[j fs0]|] eqn:El; [|done].
    destruct (handleToName fs0 !! h) as [nm|]; [|done]. simpl. apply lookup_listed in El as [_ E0]. by apply unmoved_directives.
  - case_match; [|done]. injection Hp as <-. unfold ImportAutomaticResignState, passing. destruct (ValidateAutomaticResignState s); [|done..]. simpl. destruct (lookupFederation (mgr w) f) as [[j fs0]|] eqn:El; [|done].
    destruct (_ =? _)%nat; [|done]. simpl. destruct (importDirectives _ _ _); [|done..]. apply lookup_listed in El as [_ E0]. by apply unmoved_directives.
  - case_match; [|done]. injection Hp as <-. unfold ReserveRestoreHandles, passing. destruct (count <=? 0); [done|]. destruct (liveGeneration (mgr w) f expected) as [[j fs0]|e|s] eqn:El; [|done..].
    apply live_listed in El as (_ & E0 & _). cbv zeta. destruct (_ || _); [done|]. destruct (takeHandles _ _ _) as [last hs]. simpl. by apply unmoved_next.
  - case_match; [|done]. injection Hp as <-. by destruct (PrepareRestoreIdentity _ _ _ _).
  - destruct (restoring w !! j) as [v|] eqn:Ev; [|done]. injection Hp as <-. destruct (hw_restoring _ (ww_holds _ _ Hw) j v Ev) as (<- & Hd & fs0 & E0 & _). simpl. unfold Commit, stateAt. rewrite Hd, E0. simpl.
    apply unmoved_other. congruence.
  - destruct (restoring w !! j); [|done]. by injection Hp as <-.
Qed.
(** And that commit leaves the sessions. *)
Lemma sessions_perform q w' : lawfulRequest q -> perform q w = Some w' -> exists fs', objects (mgr w') !! id = Some fs' /\ sameSessions fs fs'.
Proof.
  intros Hl Hp. assert (Hother : q <> QCommitRestore id -> exists fs', objects (mgr w') !! id = Some fs' /\ sameSessions fs fs').
  { intros Hq. destruct (unmoved_perform q w' Hl Hp Hq) as (fs' & E' & Hs). exists fs'. split; [done|by apply sameMembers_sessions]. }
  destruct q as [| | | | | | | | | | | | | | |j|]; try (by apply Hother). destruct (decide (j = id)) as [->|Hne]; [|by apply Hother; congruence]. clear Hother.
  cbn [perform] in Hp. destruct (restoring w !! id) as [v|] eqn:Ev; [|done]. injection Hp as <-. destruct (hw_restoring _ (ww_holds _ _ Hw) id v Ev) as (<- & Hd & fs0 & E0 & [_ _ Hs]).
  rewrite E in E0. injection E0 as <-. exists (set_roster fs (v_roster v)). simpl. unfold Commit, stateAt. rewrite Hd, E. simpl. rewrite lookup_insert_eq. split; [done|]. split; [done|]. split; [done|].
  intros nm i. unfold session at 1, set_roster. rewrite rosterOf_set. apply Hs.
Qed.
End Leased.
(** Over a history in which the lease is not given back. *)
Lemma lease_run qs k w w' id x fs : 0 <= k -> k + Z.of_nat (length qs) <= 2 ^ 63 -> world_wf k w -> Forall lawfulRequest qs -> run qs w = Some w' ->
  (id, x) ∈ holds w -> internal x = false -> QRelease id x ∉ qs -> objects (mgr w) !! id = Some fs ->
  (id, x) ∈ holds w' /\ exists fs', objects (mgr w') !! id = Some fs' /\ sameSessions fs fs' /\ (QCommitRestore id ∉ qs -> sameMembers fs fs').
Proof.
  revert k w fs. induction qs as [|q qs IH]; intros k w fs Hk Hb Hw Hl Hr Hx Ix Hq E; simpl in Hr.
  - injection Hr as <-. split; [done|]. by exists fs.
  - destruct (perform q w) as [w1|] eqn:Ep; [|done]. simpl in Hr. cbn [length] in Hb. inversion Hl as [|? ? Hlq Hlqs]; subst. apply not_elem_of_cons in Hq as [Hq Hqs].
    destruct (perform_kept k q w w1 ltac:(lia) Hw Hlq Ep) as [Hw1 _]. destruct (sessions_perform k w ltac:(lia) Hw id x fs Hx Ix E q w1 Hlq Ep) as (fs1 & E1 & Hs1).
    destruct (IH (k + 1) w1 fs1 ltac:(lia) ltac:(lia) Hw1 Hlqs Hr ltac:(eapply lease_kept; [done|done|congruence|done]) Ix Hqs E1) as (Hx' & fs' & E' & Hs & Hm).
    split; [done|]. exists fs'. split; [done|]. split; [by transitivity fs1|]. intros [Hc Hcs]%not_elem_of_cons. transitivity fs1; [|by apply Hm].
    destruct (unmoved_perform k w ltac:(lia) Hw id x fs Hx Ix E q w1 Hlq Ep ltac:(congruence)) as (fs2 & E2 & Hm2). by simplify_eq.
Qed.
