(* ===== verification/FedTheorems.v ===== *)
(** * Federation management: what it promises

    The invariant of every history, leases, handles, joins and resignations on
    every branch, retired sessions, generated names, the round trip of resign
    directives, and the restoration of a roster; each with a concrete run. *)
From stdpp Require Import gmap strings pretty.
From S2P Require Import Prelude GoBytes Fed FedService FedRestore FedRoster FedSteps FedHistory.
Open Scope Z_scope.

(** ** A small federation *)
Module demo.
Definition model : FOMHandle := FOM_ 1 (Some ResignActionCancelThenDelete) (Some None).
(** A journal that refuses the records of one federate. *)
Definition refuses (nm : string) (f : FederationName) (r : journalRecord) : outcome federation_error () :=
  match r with FederationJoined _ n _ _ _ _ _ => if String.eqb n nm then Fail (errOutside 1) else Ret () | _ => Ret () end.
Definition env : Environment :=
  {| ResolveTimeImplementation := None; Now := 7; EventLog := Some (refuses "bad"); Load := fun _ => Ret model; LoadWithMIM := None; Get := fun _ => Ret model;
     PrepareJoinFOM := None; PrepareResign := Some (fun _ _ _ => Ret (Some (Preparation (Ret ()) true))); OnFederateLost := None; OnFederationDestroying := None |}.
Definition create : CreateFederationRequest :=
  {| c_Name := "war"; c_FOMModules := []; c_MIMModule := None; c_Mode := 0; c_StallTimeout := 0; c_Seed := 1; c_TransportMode := 0; c_DDSDomainID := 0; c_LogicalTimeImplementationName := "" |}.
Definition join (nm : string) : JoinFederationRequest :=
  {| j_Federation := "war"; j_FederateName := nm; j_FederateType := "t"; j_ExpectedGeneration := None; j_AdditionalFOMModules := []; j_ExpectedMIMModule := None |}.
Definition empty : Manager :=
  {| objects := ∅; nextObject := 1; federations := ∅; generations := ∅; generationBase := 3; generationSpan := 0; DefaultStallTimeout := 60 |}.
Definition ofRun (qs : list request) : world := default (startsFrom empty) (run qs (startsFrom empty)).
(** One federate by its name, one whose record is refused, one without a name. *)
Definition joins : list request := [QCreate env create; QJoin env 1 (join "a"); QJoin env 1 (join "bad"); QJoin env 1 (join "")].
Abbreviation joined := (ofRun joins).
Lemma empty_new : New true true 0 3 0 = Ret empty.
Proof. vm_compute. reflexivity. Qed.
Lemma env_lawful : lawful env.
Proof.
  constructor.
  - by intros modules f [= <-].
  - done.
  - intros append f rec [= <-] s. unfold refuses. destruct rec; [destruct (String.eqb _ _)|]; done.
  - done.
Qed.
Lemma lawful_run qs w : forallb (fun q => match q with QCreate _ _ | QCreateBegin _ _ | QJoin _ _ _ | QResign _ _ _ _ _ _ _ _ => false | _ => true end) qs = true ->
  Z.of_nat (length qs) < 100 -> run (joins ++ qs) (startsFrom empty) = Some w -> reachable empty w.
Proof.
  intros Hq Hb Hr. exists (joins ++ qs). split; [|split; [rewrite length_app; simpl; lia|done]]. apply Forall_app. split.
  - repeat (constructor; [apply env_lawful|]). constructor.
  - apply Forall_forall. intros q Hin%list_elem_of_In. rewrite forallb_forall in Hq. specialize (Hq q Hin). by destruct q.
Qed.
Definition h1 : FederateHandle := 3 * 2 ^ 32 + 1.
Definition h3 : FederateHandle := 3 * 2 ^ 32 + 3.
End demo.

Lemma acquire_eq m f id fs h : federations m !! f = Some id -> objects m !! id = Some fs -> destroying fs = false -> is_Some (handleToName fs !! h) -> h <> InvalidFederateHandle ->
  AcquireMember m f h = Ret id.
Proof.
  intros El E Hd Hj Hh. apply Z.eqb_neq in Hh. unfold AcquireMember, admitMember, gatedFederation, stillListed, stateAt. rewrite Hh, El, E, Hd. simpl. rewrite bool_decide_eq_true_2 by done. simpl. by rewrite bool_decide_eq_true_2.
Qed.

(** ** Every history *)
(** C21: In every world that fewer than [2 ^ 63] requests of lawful callers reach from a new manager, however they interleave, the invariant holds: names and handles of a roster are inverse to one another, each member has its session, directive, type and time of joining, executions of one name have generations of their own, leases exclude one another and the execution they were taken on is listed, not being destroyed (and without members while it is created), a prepared restoration has the sessions of the roster it replaces, and the handles answered so far were answered once. *)
Theorem federation_reachable_wf (clock foms : bool) (stall epoch span : Z) (m : Manager) (w : world) :
  New clock foms stall epoch span = Ret m -> reachable m w -> exists k, 0 <= k < 2 ^ 63 /\ world_wf k w.
Proof. apply reachable_bounded. Qed.
Lemma federation_reachable_wf_witness : exists k, 0 <= k < 2 ^ 63 /\ world_wf k demo.joined.
Proof.
  apply (federation_reachable_wf true true 0 3 0 demo.empty); [apply demo.empty_new|]. apply (demo.lawful_run []); [done|done|]. vm_compute. reflexivity.
Defined.

(** ** Leases *)
(** Validation reads the listing and the members only. *)
Lemma validate_same m m' f id fs fs' h : federations m !! f = Some id -> federations m' !! f = Some id -> objects m !! id = Some fs -> objects m' !! id = Some fs' -> sameMembers fs fs' ->
  ValidateMember m' f h = ValidateMember m f h.
Proof.
  intros El El' E E' (n & d & ->). unfold ValidateMember, AcquireMember. destruct (h =? InvalidFederateHandle); [done|]. simpl. rewrite El, El'. unfold admitMember, gatedFederation, stillListed, stateAt. rewrite El, El', E, E'. simpl. by destruct (bool_decide (Some id = Some id)), (destroying fs).
Qed.
Definition leasing : list request := demo.joins ++ [QAcquire "war" 1 demo.h1].
(** Meanwhile another lease comes and goes, and a directive is set. *)
Definition meanwhile : list request := [QAcquire "war" 1 demo.h3; QSetDirective "war" demo.h3 ResignActionNoAction; QRelease 1 (SharedMember "war" demo.h3); QReserve "war" 3 2].
(** A restoration under the lease: the member is given the handle it had been
    skipped over, its session goes on, and the leased handle is not joined. *)
Definition moved : list RestoreIdentity :=
  [{| ri_Name := "a"; CurrentHandle := demo.h1; SavedHandle := 3 * 2 ^ 32 + 2; SavedModules := []; ModulesKnown := true; SavedAutomaticResign := None |};
   {| ri_Name := "HLAfederate-12884901891"; CurrentHandle := demo.h3; SavedHandle := demo.h3; SavedModules := []; ModulesKnown := false; SavedAutomaticResign := None |}].
Example restored_under_lease : let w := demo.ofRun (leasing ++ [QPrepareRestore "war" 3 moved; QCommitRestore 1]) in
  holds w = [(1, SharedMember "war" demo.h1)] /\ ValidateMember (mgr w) "war" (3 * 2 ^ 32 + 2) = Ret () /\ ValidateMember (mgr w) "war" demo.h1 = Fail ErrFederateNotJoined.
Proof. split_and!; vm_compute; reflexivity. Qed.

(** ** Handles *)
(** C23: No handle is answered twice for a federation name, by joins or by reservations for a restoration, through resignations, refused joins, destruction and recreation of the execution. *)
Theorem handles_never_reused (clock foms : bool) (stall epoch span : Z) (m : Manager) (w : world) :
  New clock foms stall epoch span = Ret m -> reachable m w -> NoDup (issued w).
Proof. intros Hn Hr. destruct (reachable_bounded _ _ _ _ _ _ _ Hn Hr) as (k & _ & Hw). apply (ww_issued _ _ Hw). Qed.
(** Resignation of both, destruction and a new execution: four handles. *)
Definition again : list request :=
  demo.joins ++ [QResign demo.env "war" 1 demo.h1 ResignActionNoAction None None false; QResign demo.env "war" 1 demo.h3 ResignActionNoAction None None false;
    QDestroyBegin "war" 1 None; QDestroyEnd "war" 1; QCreate demo.env demo.create; QJoin demo.env 2 (demo.join "a"); QReserve "war" 4 1].
Lemma handles_never_reused_witness : NoDup (issued (demo.ofRun again)) /\ map snd (issued (demo.ofRun again)) = [4 * 2 ^ 32 + 2; 4 * 2 ^ 32 + 1; demo.h3; demo.h1].
Proof.
  split; [|vm_compute; reflexivity]. apply (handles_never_reused true true 0 3 0 demo.empty); [apply demo.empty_new|]. exists again. split; [|split; [done|vm_compute; reflexivity]]. repeat (constructor; [first [apply demo.env_lawful|done]|]). constructor.
Defined.

(** ** Joining *)
(** The rows of every execution as they were, but for a counter that may have
    taken one turn. *)
Definition sameRosters (m m' : Manager) : Prop := federations m' = federations m /\ generations m' = generations m /\ forall id fs, objects m !! id = Some fs ->
  objects m' !! id = Some fs \/ objects m' !! id = Some (set_next fs (nextFederateHandle fs + 1)).
Lemma sameRosters_refl m : sameRosters m m.
Proof. split; [done|]. split; [done|]. by left. Qed.
Lemma sameRosters_next m id fs : objects m !! id = Some fs -> sameRosters m (store m id (set_next fs (nextFederateHandle fs + 1))).
Proof.
  intros E. split; [done|]. split; [done|]. intros j fs' E'. simpl. destruct (decide (j = id)) as [->|]; [right; rewrite lookup_insert_eq; congruence|left; by rewrite lookup_insert_ne].
Qed.
(** A join that is refused, at whatever step, leaves every roster, model and listing as it was; no hook reports it; at most one handle is skipped, and that only once everything before the journal passed. *)
Theorem refused_join_keeps_roster (clock foms : bool) (stall epoch span : Z) (m0 : Manager) (w : world) env req setup e :
  New clock foms stall epoch span = Ret m0 -> reachable m0 w -> lawful env ->
  let r := JoinFederationWithSetup env (mgr w) req setup in result r = Fail e ->
  sameRosters (mgr w) (after r) /\ (forall f h n t, JoinedHook f h n t ∉ effects r) /\ (forall i, JoinSetup i ∉ effects r) /\ ExtensionPublished ∉ effects r.
Proof.
  intros Hn Hr Hl. cbv zeta. destruct (reachable_bounded _ _ _ _ _ _ _ Hn Hr) as (k & Hk & Hw). unfold JoinFederationWithSetup. destruct (federations (mgr w) !! j_Federation req) as [id|] eqn:El.
  2: { intros _. simpl. split; [apply sameRosters_refl|]. split_and!; intros; apply not_elem_of_nil. }
  unfold joinLocked, passing. destruct (validateJoin env (mgr w) id req) as [fs|e'|s] eqn:Ev; [|intros _; split; [apply sameRosters_refl|]; split_and!; intros; apply not_elem_of_nil..].
  pose proof (validateJoin_inv _ _ _ _ _ Ev) as (Hg & Hfree & _). apply gated_listed in Hg as (E & _ & Hd). pose proof (state_wf k w Hw id fs E) as Hs.
  assert (Hcase : forall ext, (forall x, ext = Some x -> x_Commit x = Ret () /\ lawfulFOM (x_FOM x)) -> let p := joinPrepared env (mgr w) id fs req setup ext in result p = Fail e ->
    sameRosters (mgr w) (after p) /\ forall y, y ∈ effects p -> exists f rec, y = Journal f rec).
  { intros ext Hx. cbv zeta. destruct (joinPrepared_cases k env req fs ext Hk Hs Hl Hfree Hx (mgr w) id setup) as [[_ ->]|(_ & nm & _ & _ & _ & [(e1 & append & _ & _ & ->)| ->])]; [| |done]; intros _; simpl.
    - split; [by apply sameRosters_next|]. by intros y ?%elem_of_nil.
    - split; [by apply sameRosters_next|]. intros y ->%list_elem_of_singleton. by eexists _, _. }
  case_bool_decide.
  - intros Hf. destruct (Hcase None ltac:(done) Hf) as [Hsame Hes]. split; [done|]. split_and!; intros; intros Hin; by apply Hes in Hin as (? & ? & ?).
  - destruct (prepareExtension env req) as [x|e'|s] eqn:Ex; [|intros _; split; [apply sameRosters_refl|]; split_and!; intros; apply not_elem_of_nil..]. simpl. destruct (x_PrepareCommit x) as [[]|e'|s] eqn:Ep.
    + simpl. intros Hf. destruct (Hcase (Some x)) as [Hsame Hes]; [intros y [= <-]; by eapply prepareExtension_lawful|done|]. split; [done|].
      split_and!; intros; rewrite elem_of_cons, elem_of_app, list_elem_of_singleton; intros [?|[Hin|?]]; try done; by apply Hes in Hin as (? & ? & ?).
    + intros _. split; [apply sameRosters_refl|]. simpl. split_and!; intros; rewrite !elem_of_cons, elem_of_nil; naive_solver.
    + done.
Qed.
Lemma refused_join_keeps_roster_witness : let r := JoinFederation demo.env (mgr demo.joined) (demo.join "bad") in
  sameRosters (mgr demo.joined) (after r) /\ result r = Fail (errWrap "eventlog append" (errOutside 1)).
Proof.
  cbv zeta. split; [|vm_compute; reflexivity]. apply (refused_join_keeps_roster true true 0 3 0 demo.empty demo.joined demo.env (demo.join "bad") false (errWrap "eventlog append" (errOutside 1))).
  - apply demo.empty_new.
  - apply (demo.lawful_run []); [done|done|]. vm_compute. reflexivity.
  - apply demo.env_lawful.
  - vm_compute. reflexivity.
Defined.

(** C25: A join that succeeds answers the next handle of the execution, which no member had; the member is entered under the name it asked for, or an unused generated one, with the directive of the (extended) model; it is validated from then on; and the outside saw the journal record first, then the publication of the model, the hook and the setup. *)
Theorem join_outcome (clock foms : bool) (stall epoch span : Z) (m0 : Manager) (w : world) env req setup h :
  New clock foms stall epoch span = Ret m0 -> reachable m0 w -> lawful env ->
  let r := JoinFederationWithSetup env (mgr w) req setup in result r = Ret h ->
  exists id fs ext nm, federations (mgr w) !! j_Federation req = Some id /\ objects (mgr w) !! id = Some fs /\ destroying fs = false
    /\ h = assignedHandle (generation fs) (nextFederateHandle fs + 1) /\ handleToName fs !! h = None /\ nameToHandle fs !! nm = None
    /\ nm <> ""%string /\ (j_FederateName req <> ""%string -> nm = j_FederateName req)
    /\ after r = store (mgr w) id (joinedState env req fs ext nm)
    /\ effects r = match ext with Some _ => ExtensionReserved :: joinedEffects env req fs ext nm setup ++ [ExtensionReleased] | None => joinedEffects env req fs ext nm setup end
    /\ ValidateMember (after r) (j_Federation req) h = Ret ().
Proof.
  intros Hn Hr Hl. cbv zeta. destruct (reachable_bounded _ _ _ _ _ _ _ Hn Hr) as (k & Hk & Hw). unfold JoinFederationWithSetup. destruct (federations (mgr w) !! j_Federation req) as [id|] eqn:El; [|done].
  intros Hres. destruct (joinLocked_cases env (mgr w) id req setup Hl) as [[_ Hno]|(fs & ext & Ev & Hx & Ea & Er & Ee)]; [by destruct (Hno h)|].
  pose proof (validateJoin_inv _ _ _ _ _ Ev) as (Hg & Hfree & _). apply gated_listed in Hg as (E & _ & Hd). pose proof (state_wf k w Hw id fs E) as Hs. rewrite Er in Hres.
  destruct (joinPrepared_cases k env req fs ext Hk Hs Hl Hfree Hx (mgr w) id setup) as [[_ Hp]|(Hle & nm & Hnm & En & Efn & [(e1 & append & _ & _ & Hp)|Hp])]; rewrite Hp in *; [done|done|]. simpl in Hres, Ea, Ee. injection Hres as <-.
  exists id, fs, ext, nm. split; [done|]. split; [done|]. split; [done|]. split; [done|]. split; [by apply (handle_fresh k)|]. split; [done|]. split; [done|]. split; [|split; [done|split; [by destruct ext|]]].
  - intros Hne. unfold federateName in Efn. apply String.eqb_neq in Hne. rewrite Hne in Efn. by injection Efn.
  - unfold ValidateMember. rewrite (acquire_eq _ _ id (joinedState env req fs ext nm)); [done|by rewrite Ea| |done| |].
    + rewrite Ea. simpl. by rewrite lookup_insert_eq.
    + simpl. by rewrite lookup_insert_eq.
    + pose proof (assignedHandle_pos (generation fs) (nextFederateHandle fs + 1) (fw_generation _ _ Hs)) as Hpos. pose proof (fw_next _ _ Hs). unfold coordinate, InvalidFederateHandle in *. lia.
Qed.
Lemma join_outcome_witness : exists nm, effects (JoinFederation demo.env (mgr demo.joined) (demo.join "")) =
  [Journal "war" (FederationJoined 7 nm (3 * 2 ^ 32 + 4) "t" [] 0 ""); JoinedHook "war" (3 * 2 ^ 32 + 4) nm "t"] /\ nm <> ""%string.
Proof.
  destruct (join_outcome true true 0 3 0 demo.empty demo.joined demo.env (demo.join "") false (3 * 2 ^ 32 + 4)) as (id & fs & ext & nm & El & E & _ & _ & _ & _ & Hnm & _).
  - apply demo.empty_new.
  - apply (demo.lawful_run []); [done|done|]. vm_compute. reflexivity.
  - apply demo.env_lawful.
  - vm_compute. reflexivity.
  - exists "HLAfederate-12884901892"%string. split; [vm_compute; reflexivity|done].
Defined.

(** The loop that generates a name ends: a federate that joins without a name gets one, not empty and not in use, within as many turns as names are in use and one more. *)
Theorem generated_name_found (clock foms : bool) (stall epoch span : Z) (m0 : Manager) (w : world) id fs (h : FederateHandle) :
  New clock foms stall epoch span = Ret m0 -> reachable m0 w -> objects (mgr w) !! id = Some fs ->
  exists nm, firstUnused (S (size (nameToHandle fs))) (nameToHandle fs) ("HLAfederate-" +:+ pretty h) ("HLAfederate-" +:+ pretty h) 1 = Some nm
    /\ nameToHandle fs !! nm = None /\ nm <> ""%string.
Proof.
  intros Hn Hr E. destruct (reachable_bounded _ _ _ _ _ _ _ Hn Hr) as (k & Hk & Hw). pose proof (state_wf k w Hw id fs E) as Hs. apply generatedName_found.
  pose proof (roster_size _ _ _ (fw_roster _ _ Hs)) as Es. pose proof (roster_bounded _ _ _ (fw_roster _ _ Hs)) as Hb. change (r_names (rosterOf fs)) with (nameToHandle fs) in Es. unfold maxUint32 in Hb. lia.
Qed.
Lemma generated_name_found_witness : exists fs nm, objects (mgr demo.joined) !! 1 = Some fs /\ generatedName (nameToHandle fs) demo.h3 = Some nm /\ nameToHandle fs !! nm = None.
Proof.
  destruct (objects (mgr demo.joined) !! 1) as [fs|] eqn:E; [|by vm_compute in E].
  destruct (generated_name_found true true 0 3 0 demo.empty demo.joined 1 fs demo.h3) as (nm & H1 & H2 & _); [apply demo.empty_new| |done|by exists fs, nm].
  apply (demo.lawful_run []); [done|done|]. vm_compute. reflexivity.
Defined.
