(* ===== verification/FedSession.v ===== *)
(** * Federation management: the end of sessions

    Resignation on its branches, identities of sessions that are over, the
    round trip of resign directives, the restoration of a saved roster, and the
    last handle of the last generation. *)
From stdpp Require Import gmap strings.
From S2P Require Import Prelude GoBytes Fed FedService FedRestore FedRoster FedSteps FedHistory FedTheorems.
Open Scope Z_scope.

(** ** Resignation *)
(** The action that is carried out: the last member deletes its objects. *)
Definition carriedOut (fs : federationState) (nm : string) (action : ResignAction) (automatic : bool) : ResignAction :=
  if (size (handleToName fs) =? 1)%nat then ResignActionDeleteObjects else if automatic then zeroOf (automaticResign fs !! nm) else action.
(** The journal takes the record. *)
Definition journals (env : Environment) (f : FederationName) (r : journalRecord) : Prop := match EventLog env with Some append => append f r = Ret () | None => True end.
Definition journalled (env : Environment) (f : FederationName) (r : journalRecord) : list effect := match EventLog env with Some _ => [Journal f r] | None => [] end.
Definition resignRecord (env : Environment) (h : FederateHandle) (action : ResignAction) : journalRecord := FederationResigned (journalWallNS (Now env)) h action.
(** What the outside sees of a resignation, in order. *)
Definition resignEffects (env : Environment) (f : FederationName) (h : FederateHandle) (action : ResignAction) (p : preparation) : list effect :=
  ResignPrepared f h action :: journalled env f (resignRecord env h action) ++ [ResignCommitted; ResigningHook f h action; OutcomeHook f h action (p_Commit p); ResignedHook f h]
  ++ (if p_finalizer p then [AfterResign] else []) ++ [ResignReleased].
(** C26: A member that resigns, its services being prepared and its record journalled, leaves the roster (and nothing else changes) even where the commit of the services reports an error; the action is the one asked for, or deletion for the last member; preparation comes before the journal, the journal before the commit, the hooks after, and the preparation is released last. *)
Theorem resign_outcome env m f id fs h nm action prepare p :
  federations m !! f = Some id -> objects m !! id = Some fs -> destroying fs = false -> handleToName fs !! h = Some nm -> validResignAction action = true ->
  PrepareResign env = Some prepare -> prepare f h (carriedOut fs nm action false) = Ret (Some p) -> no_panic (p_Commit p) ->
  journals env f (resignRecord env h (carriedOut fs nm action false)) ->
  ResignFederation env m f h action = Reply (store m id (resignedState fs nm h)) (resignEffects env f h (carriedOut fs nm action false) p) (p_Commit p).
Proof.
  intros El E Hd Hj Hv Hp Hpr Hc Hlog. unfold ResignFederation, resignFederation. rewrite Hv, El. unfold resignLocked, gatedFederation, stillListed, stateAt. rewrite E, Hd, bool_decide_eq_true_2 by done.
  unfold resolveResignMember. simpl. rewrite Hj. simpl. unfold carriedOut in *. rewrite Hp, Hpr. simpl. unfold commitResign, appendJournal, resignEffects, journalled, journals, resignRecord in *.
  destruct (EventLog env) as [append|]; simpl; [rewrite Hlog|]; destruct (p_Commit p) as [[]|e|s]; try (by destruct (Hc s)); unfold deferred, before; simpl; by destruct (p_finalizer p).
Qed.
Lemma resign_outcome_witness : result (ResignFederation demo.env (mgr demo.joined) "war" demo.h1 ResignActionNoAction) = Ret ()
  /\ AcquireMember (after (ResignFederation demo.env (mgr demo.joined) "war" demo.h1 ResignActionNoAction)) "war" demo.h1 = Fail ErrFederateNotJoined.
Proof.
  split; [|vm_compute; reflexivity]. destruct (objects (mgr demo.joined) !! 1) as [fs|] eqn:E; [|by vm_compute in E].
  rewrite (resign_outcome demo.env (mgr demo.joined) "war" 1 fs demo.h1 "a" ResignActionNoAction (fun _ _ _ => Ret (Some (Preparation (Ret ()) true))) (Preparation (Ret ()) true)); try done.
  - vm_compute in E. injection E as <-. reflexivity.
  - vm_compute in E. injection E as <-. reflexivity.
Defined.
(** A resignation that is refused leaves the manager as it was, unless the services reported an error at their commit: then the member is gone nevertheless. *)
Theorem refused_resignation env m f h action expected condition automatic e :
  let r := resignFederation env m f h action expected condition automatic in result r = Fail e ->
  (after r = m /\ ResignCommitted ∉ effects r) \/ (ResignCommitted ∈ effects r /\ exists id fs h' nm, objects m !! id = Some fs /\ handleToName fs !! h' = Some nm /\ after r = store m id (resignedState fs nm h')).
Proof.
  cbv zeta. unfold resignFederation. destruct (validResignAction action); simpl; [|left; split; [done|apply not_elem_of_nil]]. destruct (federations m !! f) as [id|]; simpl; [|left; split; [done|apply not_elem_of_nil]].
  unfold resignLocked, passing. destruct (gatedFederation m f id) as [fs|e'|s] eqn:Eg; [|left; split; [done|apply not_elem_of_nil]..].
  destruct (resolveResignMember _ _ _ _ _) as [[[h' nm] action']|e'|s] eqn:Er; [|left; split; [done|apply not_elem_of_nil]..]. destruct (match condition with Some false => true | _ => false end); [done|].
  destruct (match expected with Some i => _ | None => _ end) as [lost continue] eqn:Elost.
  assert (Hlost : ResignCommitted ∉ lost). { destruct expected as [i|]; [|injection Elost as <- _; apply not_elem_of_nil]. destruct (OnFederateLost env); [|injection Elost as <- _; apply not_elem_of_nil]. destruct automatic; injection Elost as <- _; [by intros ?%list_elem_of_singleton|apply not_elem_of_nil]. }
  apply gated_listed in Eg as (E & _). apply resolve_joined in Er.
  assert (Hcommit : forall prepared, let c := commitResign env m f id fs h' nm action' prepared in result c = Fail e -> (after c = m /\ ResignCommitted ∉ effects c) \/ (ResignCommitted ∈ effects c /\ after c = store m id (resignedState fs nm h'))).
  { intros prepared. cbv zeta. unfold commitResign, appendJournal. destruct (EventLog env) as [append|]; [destruct (append _ _) as [[]|e1|s]|]; simpl; try done.
    - destruct prepared as [p|]; [|done]. destruct (p_Commit p) as [[]|e1|s]; try done. intros _. right. split; [|done]. simpl. right. left.
    - intros _. left. split; [done|]. by intros ?%list_elem_of_singleton.
    - destruct prepared as [p|]; [|done]. destruct (p_Commit p) as [[]|e1|s]; try done. intros _. right. split; [|done]. simpl. left. }
  destruct continue as [[]|e'|s]; simpl; [|intros _; left; split; [done|rewrite elem_of_app, elem_of_nil; tauto]..]. destruct (PrepareResign env) as [prepare|].
  - simpl. destruct (prepare f h' action') as [prepared|e'|s]; simpl; [|intros _; left; split; [done|rewrite elem_of_app, elem_of_cons, elem_of_nil; intros [?|[?|?]]; done]..].
    intros Hf. destruct (Hcommit prepared Hf) as [[Ha Hes]|[Hes Ha]]; [left|right].
    + split; [done|]. rewrite elem_of_app, elem_of_cons, elem_of_app. intros [?|[?|[?|Hin]]]; try done. destruct prepared; simpl in Hin; [by apply list_elem_of_singleton in Hin|by apply elem_of_nil in Hin].
    + split; [rewrite elem_of_app, elem_of_cons, elem_of_app; tauto|]. by exists id, fs, h', nm.
  - intros Hf. destruct (Hcommit None Hf) as [[Ha Hes]|[Hes Ha]]; [left|right].
    + split; [done|]. rewrite elem_of_app. tauto.
    + split; [rewrite elem_of_app; tauto|]. by exists id, fs, h', nm.
Qed.
Lemma refused_resignation_witness : let r := ResignFederation demo.env (mgr demo.joined) "war" 9 ResignActionNoAction in
  (after r = mgr demo.joined /\ ResignCommitted ∉ effects r) \/ (ResignCommitted ∈ effects r /\ exists id fs h' nm, objects (mgr demo.joined) !! id = Some fs /\ handleToName fs !! h' = Some nm /\ after r = store (mgr demo.joined) id (resignedState fs nm h')).
Proof. apply (refused_resignation demo.env (mgr demo.joined) "war" 9 ResignActionNoAction None None false ErrFederateNotJoined). vm_compute. reflexivity. Defined.

(** ** Sessions that are over *)
(** The identity is one of an execution [fs] that has counted past its incarnation. *)
Definition identifies (i : MemberIdentity) (fs : federationState) : Prop :=
  name fs = Federation i /\ generation fs = Generation i /\ assignedIn (generation fs) (nextFederateHandle fs) (Incarnation i).
Lemma resolve_no_panic fs h action expected automatic s : resolveResignMember fs h action expected automatic <> Panic s.
Proof.
  unfold resolveResignMember. destruct expected as [i|]; simpl; [destruct (nameToHandle fs !! Name i); simpl; [destruct (_ && _); simpl|]|]; try done; by destruct (handleToName fs !! _).
Qed.
(** C24: The identity of a session that is over never resigns anyone again, automatically or not: whatever requests follow (the same name joins again, a roster is restored, the execution is destroyed and created again), the resignation is refused and nothing happens. *)
Theorem retired_session_refused (clock foms : bool) (stall epoch span : Z) (m0 : Manager) (qs0 qs : list request) (w w' : world) id fs i env h action condition automatic :
  New clock foms stall epoch span = Ret m0 -> Forall lawfulRequest (qs0 ++ qs) -> Z.of_nat (length (qs0 ++ qs)) < 2 ^ 63 -> run qs0 (startsFrom m0) = Some w -> run qs w = Some w' ->
  objects (mgr w) !! id = Some fs -> identifies i fs -> ~ session fs (Name i) (Incarnation i) ->
  let r := resignFederation env (mgr w') (Federation i) h action (Some i) condition automatic in after r = mgr w' /\ effects r = [] /\ exists e, result r = Fail e.
Proof.
  intros Hn Hl Hb Hr0 Hr E (Hname & Hgen & Hi) Hover. cbv zeta. apply Forall_app in Hl as [Hl0 Hl]. rewrite length_app in Hb. apply fed_New_wf in Hn.
  destruct (run_kept qs0 0 _ w ltac:(lia) ltac:(lia) Hn Hl0 Hr0) as [Hw _]. destruct (run_kept qs (0 + Z.of_nat (length qs0)) w w' ltac:(lia) ltac:(lia) Hw Hl Hr) as [Hw' Hev].
  unfold resignFederation. destruct (negb _); [by split_and!; [..|eexists]|]. destruct (federations (mgr w') !! Federation i) as [id'|] eqn:El; [|by split_and!; [..|eexists]].
  unfold resignLocked, passing, gatedFederation, stillListed, stateAt. destruct (objects (mgr w') !! id') as [fs'|] eqn:E'; [|by split_and!; [..|eexists]]. rewrite bool_decide_eq_true_2 by done. destruct (destroying fs'); simpl; [by split_and!; [..|eexists]|].
  pose proof (state_wf _ w' Hw' id' fs' E') as Hs'. destruct (resolveResignMember fs' h action (Some i) automatic) as [[[h' nm] action']|e|s] eqn:Er; [|by split_and!; [..|eexists]|by apply resolve_no_panic in Er].
  exfalso. destruct (resolve_identity _ _ _ _ _ _ _ _ _ Hs' Er) as (-> & Hg' & _ & Enm & Einc). destruct (Hev id fs E) as (fs1 & E1 & [Hn1 Hg1 Hx1 Hses1]).
  assert (id' = id) as ->. { apply (mw_unique _ _ (ww_manager _ _ Hw') id' id fs' fs1); [done|done| |congruence]. rewrite (listed_name _ w' Hw' (Federation i) id' fs' El E'). congruence. }
  rewrite E1 in E'. injection E' as ->. destruct (Hses1 (Name i) (Incarnation i)) as [?|(l & Hl1 & Hlt & Eq)]; [|done|].
  - exists h'. split; [|done]. simpl. by apply (rw_inverse _ _ _ (fw_roster _ _ Hs')).
  - eapply (assignedIn_fresh _ _ _ l) in Hi; [done|apply (fw_generation _ _ (state_wf _ w Hw id fs E))|done|lia].
Qed.
(** Resigned by its handle, joined again under its name. *)
Definition resigned : list request := demo.joins ++ [QResign demo.env "war" 1 demo.h1 ResignActionNoAction None None false].
Definition rejoin : list request := [QJoin demo.env 1 (demo.join "a")].
Lemma retired_session_refused_witness :
  let i := Identity "war" 3 "a" demo.h1 demo.h1 in let r := ResignFederationIdentity demo.env (mgr (demo.ofRun (resigned ++ rejoin))) i ResignActionNoAction in
  after r = mgr (demo.ofRun (resigned ++ rejoin)) /\ effects r = [] /\ exists e, result r = Fail e.
Proof.
  cbv zeta. destruct (objects (mgr (demo.ofRun resigned)) !! 1) as [fs|] eqn:E; [|by vm_compute in E].
  apply (retired_session_refused true true 0 3 0 demo.empty resigned rejoin (demo.ofRun resigned) (demo.ofRun (resigned ++ rejoin)) 1 fs (Identity "war" 3 "a" demo.h1 demo.h1)).
  - apply demo.empty_new.
  - repeat (constructor; [first [apply demo.env_lawful|done]|]). constructor.
  - done.
  - vm_compute. reflexivity.
  - vm_compute. reflexivity.
  - done.
  - vm_compute in E. injection E as <-. split; [done|]. split; [done|]. exists 1. unfold coordinate, maxUint32. simpl. split; [lia|]. split; [lia|done].
  - vm_compute in E. injection E as <-. intros (h & Eh & Ei). vm_compute in Eh, Ei. destruct h as [|p|p]; [done| |done]. do 40 (destruct p as [p|p|]; try done).
Defined.

(** ** Directives *)
Lemma validateDirectives_ok ds (seen : gset string) : NoDup (map d_Name ds) -> (forall d, d ∈ ds -> d_Name d <> ""%string /\ d_Name d ∉ seen /\ validResignAction (d_Action d) = true) ->
  validateDirectives ds seen = Ret ().
Proof.
  revert seen. induction ds as [|d ds IH]; intros seen Hnd Hall; simpl; [done|]. destruct (Hall d ltac:(by left)) as (Hn & Hs & Ha). apply String.eqb_neq in Hn. rewrite Hn, bool_decide_eq_false_2, Ha by done. simpl.
  inversion Hnd as [|? ? Hni Hnd']; subst. apply IH; [done|]. intros d' Hd'. destruct (Hall d' ltac:(by right)) as (? & ? & ?). split; [done|]. split; [|done]. rewrite not_elem_of_union, not_elem_of_singleton. split; [|done].
  intros E. apply Hni. rewrite <- E. by apply list_elem_of_fmap_2.
Qed.
Lemma importDirectives_ok fs ds values : (forall d, d ∈ ds -> is_Some (nameToHandle fs !! d_Name d)) -> importDirectives fs ds values = Ret (fold_insert d_Name d_Action ds values).
Proof.
  revert values. induction ds as [|d ds IH]; intros values Hall; simpl; [done|]. rewrite bool_decide_eq_true_2 by (apply Hall; by left). apply IH. intros d' Hd'. apply Hall. by right.
Qed.
Lemma exported_in (t : gmap string ResignAction) d : d ∈ omap (fun n => Directive n <$> t !! n) (sortedNames t) <-> t !! d_Name d = Some (d_Action d).
Proof.
  unfold sortedNames. rewrite list_elem_of_omap. setoid_rewrite merge_sort_Permutation. setoid_rewrite elem_of_elements. setoid_rewrite elem_of_dom. split.
  - intros (n & _ & E). destruct (t !! n) eqn:En; [|done]. by injection E as <-.
  - intros E. exists (d_Name d). rewrite E. split; [done|]. by destruct d.
Qed.
Lemma exported_names (t : gmap string ResignAction) : map d_Name (omap (fun n => Directive n <$> t !! n) (sortedNames t)) = sortedNames t.
Proof.
  assert (Hall : forall n, n ∈ sortedNames t -> is_Some (t !! n)) by (intros n; unfold sortedNames; by rewrite merge_sort_Permutation, elem_of_elements, elem_of_dom).
  induction (sortedNames t) as [|n l IH]; [done|]. cbn [omap list_omap]. destruct (Hall n ltac:(by left)) as [a Ea]. rewrite Ea. simpl. f_equal. apply IH. intros n' Hn'. apply Hall. by right.
Qed.
(** Directives that are exported are imported into the roster they came from, whatever directives its members have by then, and the manager is the one they were exported from. *)
Theorem directives_roundtrip (clock foms : bool) (stall epoch span : Z) (m0 : Manager) (w : world) f id fs d :
  New clock foms stall epoch span = Ret m0 -> reachable m0 w -> lookupFederation (mgr w) f = Some (id, fs) ->
  exists s, ExportAutomaticResignState (mgr w) f = Ret s /\ ImportAutomaticResignState (store (mgr w) id (set_directives fs d)) f s = Reply (mgr w) [] (Ret ()).
Proof.
  intros Hn Hr El. destruct (reachable_bounded _ _ _ _ _ _ _ Hn Hr) as (k & Hk & Hw). pose proof (lookup_listed _ _ _ _ El) as [Ef E]. pose proof (fw_roster _ _ (state_wf k w Hw id fs E)) as Hro.
  exists (exportDirectives fs). unfold ExportAutomaticResignState. rewrite El. split; [done|]. unfold ImportAutomaticResignState, ValidateAutomaticResignState, exportDirectives. simpl.
  set (ds := omap _ _). assert (Hin : forall x, x ∈ ds -> automaticResign fs !! d_Name x = Some (d_Action x)) by (intros x; apply exported_in). assert (Hnames : map d_Name ds = sortedNames (automaticResign fs)) by apply exported_names.
  assert (Hnd : NoDup (map d_Name ds)) by (rewrite Hnames; unfold sortedNames; rewrite merge_sort_Permutation; apply NoDup_elements).
  assert (Hdir : forall x, x ∈ ds -> is_Some (nameToHandle fs !! d_Name x)) by (intros x Hx%Hin; apply (rw_directives _ _ _ Hro); simpl; by rewrite Hx).
  rewrite validateDirectives_ok; [|done|].
  2: { intros x Hx. pose proof (Hin x Hx) as Ex. split; [|split; [apply not_elem_of_empty|by apply (rw_directive _ _ _ Hro) in Ex]]. intros Eq. apply Hdir in Hx. rewrite Eq in Hx. pose proof (rw_named _ _ _ Hro) as Hno. simpl in Hno. rewrite Hno in Hx. by destruct Hx. }
  simpl. unfold lookupFederation, stateAt. simpl. rewrite Ef. simpl. rewrite lookup_insert_eq. simpl.
  assert (Hlen : length ds = size (nameToHandle fs)).
  { rewrite <- (length_map d_Name), Hnames. unfold sortedNames. rewrite (Permutation_length (merge_sort_Permutation _ _)). change (size (dom (automaticResign fs)) = size (nameToHandle fs)). rewrite <- (size_dom (D := gset string) (nameToHandle fs)).
    f_equal. apply set_eq. intros n. rewrite !elem_of_dom. apply (rw_directives _ _ _ Hro). }
  rewrite Hlen, Nat.eqb_refl. rewrite importDirectives_ok by done. simpl. rewrite (fold_insert_eq _ _ (automaticResign fs)); [|done|done|].
  - f_equal. unfold store. simpl. rewrite insert_insert_eq. replace (set_directives _ _) with fs by (by destruct fs). rewrite insert_id by done. by destruct (mgr w).
  - intros n Hs. rewrite Hnames. unfold sortedNames. by rewrite merge_sort_Permutation, elem_of_elements, elem_of_dom.
Qed.
Lemma directives_roundtrip_witness : exists fs s, lookupFederation (mgr demo.joined) "war" = Some (1, fs) /\ length (Directives s) = 2%nat /\
  ImportAutomaticResignState (store (mgr demo.joined) 1 (set_directives fs ∅)) "war" s = Reply (mgr demo.joined) [] (Ret ()).
Proof.
  destruct (lookupFederation (mgr demo.joined) "war") as [[id fs]|] eqn:E; [|by vm_compute in E]. assert (id = 1) as -> by (vm_compute in E; by injection E).
  destruct (directives_roundtrip true true 0 3 0 demo.empty demo.joined "war" 1 fs ∅) as (s & Hs & Hi).
  - apply demo.empty_new.
  - apply (demo.lawful_run []); [done|done|]. vm_compute. reflexivity.
  - done.
  - exists fs, s. split; [done|]. split; [|done]. vm_compute in Hs. by injection Hs as <-.
Defined.

(** ** Restoration *)
(** C27: A roster is restored exactly: the prepared restoration replaces the live roster by one with the same names and the same sessions, each under its saved handle, with the saved or the present directive and the modules that are known; nothing else of the execution changes. *)
Theorem restored_roster_exact (clock foms : bool) (stall epoch span : Z) (m0 : Manager) (w : world) f g ids v :
  New clock foms stall epoch span = Ret m0 -> reachable m0 w -> PrepareRestoreIdentity (mgr w) f g ids = Ret v ->
  exists id fs r, federations (mgr w) !! f = Some id /\ objects (mgr w) !! id = Some fs /\ generation fs = g /\ (Commit (mgr w) v).1 = store (mgr w) id (set_roster fs r)
    /\ (forall x, x ∈ ids -> restoredRow fs r x) /\ (forall nm, is_Some (r_names r !! nm) <-> is_Some (nameToHandle fs !! nm)) /\ (forall nm i, sessionIn r nm i <-> session fs nm i)
    /\ roster_wf (generation fs) (nextFederateHandle fs) r.
Proof.
  intros Hn Hr Hp. destruct (reachable_bounded _ _ _ _ _ _ _ Hn Hr) as (k & Hk & Hw). unfold PrepareRestoreIdentity in Hp. bind_inv Hp. destruct r as [id fs]. bind_inv Hp. injection Hp as <-.
  apply live_listed in Hr0 as (El & E & Hd & <-). destruct (prepareRoster_exact k fs (state_wf k w Hw id fs E) ids r Hr1) as (Hrow & Hnames & [_ Hrw Hs]).
  exists id, fs, r. split; [done|]. split; [done|]. split; [done|]. split; [unfold Commit, stateAt; simpl; by rewrite E|]. done.
Qed.
(** The two members exchange handles. *)
Definition swap : list RestoreIdentity :=
  [{| ri_Name := "a"; CurrentHandle := demo.h1; SavedHandle := demo.h3; SavedModules := []; ModulesKnown := true; SavedAutomaticResign := Some ResignActionNoAction |};
   {| ri_Name := "HLAfederate-12884901891"; CurrentHandle := demo.h3; SavedHandle := demo.h1; SavedModules := []; ModulesKnown := false; SavedAutomaticResign := None |}].
Lemma restored_roster_exact_witness : exists v r, PrepareRestoreIdentity (mgr demo.joined) "war" 3 swap = Ret v /\ v_roster v = r /\ r_names r !! "a"%string = Some demo.h3 /\ r_incarnations r !! demo.h3 = Some demo.h1.
Proof.
  destruct (PrepareRestoreIdentity (mgr demo.joined) "war" 3 swap) as [v|e|s] eqn:E; [|by vm_compute in E..].
  destruct (restored_roster_exact true true 0 3 0 demo.empty demo.joined "war" 3 swap v) as (id & fs & r & _); [apply demo.empty_new| |done|].
  { apply (demo.lawful_run []); [done|done|]. vm_compute. reflexivity. }
  exists v, (v_roster v). split; [done|]. split; [done|]. vm_compute in E. injection E as <-. split; vm_compute; reflexivity.
Defined.

(** ** The last handle *)
(** [^core.FederateHandle(0)], the internal producer of the management objects. *)
Definition momProducer : FederateHandle := 2 ^ 64 - 1.
Definition lastManager : Manager :=
  {| objects := ∅; nextObject := 1; federations := ∅; generations := ∅; generationBase := maxUint32; generationSpan := 0; DefaultStallTimeout := 60 |}.
Abbreviation lastCreated := (after (CreateFederation demo.env lastManager demo.create)).
Lemma reserved_all : exists w, run [QCreate demo.env demo.create; QReserve "war" maxUint32 (maxUint32 - 1)] (startsFrom lastManager) = Some w /\ exists fs, objects lastCreated !! 1 = Some fs
  /\ mgr w = store lastCreated 1 (set_next fs (maxUint32 - 1)).
Proof.
  destruct (objects lastCreated !! 1) as [fs|] eqn:E; [|by vm_compute in E].
  assert (El : liveGeneration lastCreated "war" maxUint32 = Ret (1, fs)) by (vm_compute in E; injection E as <-; vm_compute; reflexivity).
  assert (Enx : nextFederateHandle fs = 0) by (vm_compute in E; by injection E as <-).
  assert (E1 : perform (QCreate demo.env demo.create) (startsFrom lastManager) = Some (startsFrom lastCreated)) by reflexivity.
  cbn [run]. rewrite E1. clear E1. generalize dependent lastCreated. intros m1 E El. exists (with_issued (with_mgr (startsFrom m1) (store m1 1 (set_next fs (maxUint32 - 1)))) "war"
    (reverse (map (assignedHandle maxUint32) (seqZ (0 + 1) (Z.of_nat (Z.to_nat (maxUint32 - 1))))))).
  split; [|by exists fs]. cbn [mbind option_bind]. unfold perform at 1. cbv zeta. cbn [mgr startsFrom].
  assert (Er : ReserveRestoreHandles m1 "war" maxUint32 (maxUint32 - 1) = Reply (store m1 1 (set_next fs (maxUint32 - 1))) [] (Ret (map (assignedHandle maxUint32) (seqZ (0 + 1) (Z.of_nat (Z.to_nat (maxUint32 - 1))))))).
  { unfold ReserveRestoreHandles, passing. change (maxUint32 - 1 <=? 0) with false. cbv iota. rewrite El. cbv zeta. rewrite Enx. change (handleLimit maxUint32) with (maxUint32 - 1).
    change ((maxUint32 - 1 <? 0) || (maxUint32 - 1 - 0 <? maxUint32 - 1)) with false. cbv iota. rewrite takeHandles_eq by (unfold maxUint32; lia). rewrite Z.add_0_l. by rewrite Z2Nat.id at 1 by (unfold maxUint32; lia). }
  rewrite Er. done.
Qed.
(** C28: A reservation for a restoration never answers the handle of the internal producer, but a join does: in the last generation, once every other handle is reserved, the next federate is given it. *)
Theorem last_handle_is_producer :
  (forall k w f g count hs, world_wf k w -> result (ReserveRestoreHandles (mgr w) f g count) = Ret hs -> momProducer ∉ hs)
  /\ exists m w, New true true 0 maxUint32 0 = Ret m /\ reachable m w /\ result (JoinFederation demo.env (mgr w) (demo.join "a")) = Ret momProducer.
Proof.
  split.
  - intros k w f g count hs Hw. unfold ReserveRestoreHandles, passing. destruct (Z.leb_spec count 0); [done|]. destruct (liveGeneration (mgr w) f g) as [[id fs]|e|s] eqn:El; [|done..]. apply live_listed in El as (_ & E & _ & <-).
    pose proof (state_wf k w Hw id fs E) as Hs. pose proof (fw_next _ _ Hs). cbv zeta. destruct (Z.ltb_spec (handleLimit (generation fs)) (nextFederateHandle fs)); [done|]. destruct (Z.ltb_spec (handleLimit (generation fs) - nextFederateHandle fs) count); [done|].
    pose proof (handleLimit_le (generation fs)). simpl orb. cbv iota. rewrite takeHandles_eq by (apply Hs || lia). cbn [result]. intros [= <-] Hin. apply list_elem_of_fmap in Hin as (l & El & Hl). apply elem_of_seqZ in Hl. pose proof (fw_generation _ _ Hs) as Hg.
    rewrite assignedHandle_eq in El by lia. unfold momProducer, handleLimit, maxUint32 in *. destruct (Z.eqb_spec (generation fs) (2 ^ 32 - 1)); lia.
  - destruct reserved_all as (w & Hr & fs & E & Em). exists lastManager, w. split; [vm_compute; reflexivity|]. split.
    + exists [QCreate demo.env demo.create; QReserve "war" maxUint32 (maxUint32 - 1)]. split; [|split; [done|done]]. constructor; [apply demo.env_lawful|]. by constructor.
    + rewrite Em. vm_compute in E. injection E as <-. vm_compute. reflexivity.
Qed.
