(* ===== verification/Sav.v ===== *)
(** * Save and restore: data, ports and the state of a call

    The types of the coordinator ([rti/internal/hla/save_restore/manager.go],
    [events.go], [history.go], [progress.go], [core/checkpoint.go]) and what it
    is composed with ([OptionsOf]).

    The coordinator talks to many ports in the middle of a call.  A call is a
    computation [proto]: it reads and changes the manager, adds to the record of
    what it did outside, and ends with a value, an error or a panic (the call of
    a nil function).  A port answers as a function of everything done so far;
    what others do between two calls enters that record as [Happened]. *)
From stdpp Require Import gmap strings.
From Stdlib Require Import Strings.Byte.
From S2P Require Import Prelude GoBytes LogicalTime TimeScalar Fed.
Open Scope Z_scope.

(** ** States, reasons and statuses *)
Inductive SaveState := StateIdle | StateInitiated | StateSaved | StateNotSaved.
Inductive RestoreState := RestoreIdle | RestoreLoading | RestoreInitiated | RestoreCompleted | RestoreFailed.
Inductive SaveFailureReason :=
| SaveFailureNone | RTIUnableToSave | FederateReportedFailureDuringSave | FederateResignedDuringSave
| RTIDetectedFailureDuringSave | SaveTimeCannotBeHonored | SaveAborted.
Inductive RestoreFailureReason :=
| RestoreFailureNone | RTIUnableToRestore | FederateReportedFailureDuringRestore | FederateResignedDuringRestore
| RTIDetectedFailureDuringRestore | RestoreAborted.
Inductive SaveStatus := NoSaveInProgress | FederateInstructedToSave | FederateSaving | FederateWaitingForFederationToSave.
Inductive RestoreStatus :=
| NoRestoreInProgress | FederateRestoreRequestPending | FederateWaitingForRestoreToBegin | FederatePreparedToRestore
| FederateRestoring | FederateWaitingForFederationToRestore.
Inductive eventKind := evtSaveRequested | evtFederationSaved | evtFederationNotSaved | evtRestoreRequested | evtFederationRestored.
#[export] Instance SaveState_eq_dec : EqDecision SaveState.
Proof. solve_decision. Defined.
#[export] Instance RestoreState_eq_dec : EqDecision RestoreState.
Proof. solve_decision. Defined.
#[export] Instance SaveFailureReason_eq_dec : EqDecision SaveFailureReason.
Proof. solve_decision. Defined.
#[export] Instance RestoreFailureReason_eq_dec : EqDecision RestoreFailureReason.
Proof. solve_decision. Defined.

(** ** Errors *)
(** [errText] is [errors.New] or [fmt.Errorf] without [%w], [errWraps] with it,
    [errJoined] is [errors.Join], [errPort] the error of a port. *)
Inductive save_error :=
| ErrSaveAlreadyInProgress
| ErrRestoreAlreadyInProgress
| ErrSaveNotInProgress
| ErrRestoreNotInProgress
| ErrFederateNotInSave
| ErrFederateNotInRestore
| ErrFederationHalted
| ErrFederationNotFound
| ErrFederateNotJoined
| ErrRetractionHistoryUnavailable
| ErrSaveNotInitiated
| ErrScheduledSaveUnsupported
| ErrInvalidScheduledSaveTime
| ErrScheduledSaveParticipantsChanged
| ErrSaveBundleNotFound
| ErrSaveBundleIncompatible
| ErrBundleCorrupt
| ErrClientStateTooLarge
| ErrRestoreStateCommitted
| errText (what : string)
| errWraps (what : string) (es : list save_error)
| errJoined (es : list save_error)
| errPort (n : Z).
(** [errors.Is]; [target] tells the sentinel. *)
Fixpoint errors_Is (target : save_error -> bool) (e : save_error) : bool :=
  target e || match e with errWraps _ es | errJoined es => existsb (errors_Is target) es | _ => false end.
Definition isParticipantsChanged (e : save_error) : bool := match e with ErrScheduledSaveParticipantsChanged => true | _ => false end.
Definition isIncompatible (e : save_error) : bool := match e with ErrSaveBundleIncompatible => true | _ => false end.
(** [errors.Join] of possibly nil errors. *)
Definition errors_Join (es : list (option save_error)) : option save_error :=
  match omap id es with [] => None | es' => Some (errJoined es') end.
(** [fmt.Errorf("%w: ...", ErrSaveBundleIncompatible)] *)
Definition incompatible (what : string) : save_error := errWraps what [ErrSaveBundleIncompatible].

(** ** Saved data *)
Definition MaxClientStateBytes : Z := 2 ^ 20.
Definition maxFederationClientStateBytes : Z := 8 * 2 ^ 20.

Record RestoreParticipant := Participant {
  p_Name : string;
  p_CurrentHandle : FederateHandle;
  p_SavedHandle : FederateHandle;
  p_SavedModules : list FOMModule;
  p_ModulesKnown : bool;
  p_SavedAutomaticResign : option ResignAction;
}.
#[export] Instance RestoreParticipant_eq_dec : EqDecision RestoreParticipant.
Proof. solve_decision. Defined.

Record SaveHistoryKey := HistoryKey { k_Federation : FederationName; k_Generation : Z; k_HasGeneration : bool }.
#[export] Instance SaveHistoryKey_eq_dec : EqDecision SaveHistoryKey.
Proof. solve_decision. Defined.
#[export] Instance SaveHistoryKey_countable : Countable SaveHistoryKey.
Proof.
  refine (inj_countable' (fun k => (k_Federation k, k_Generation k, k_HasGeneration k)) (fun x => HistoryKey x.1.1 x.1.2 x.2) _).
  by intros [].
Defined.
Definition historyKey (fed : FederationName) (generation : option Z) : SaveHistoryKey :=
  match generation with Some g => HistoryKey fed g true | None => HistoryKey fed 0 false end.

Section Data.
Context {T : Type}.

Record SaveHistoryOf := SaveHistory { h_Known : bool; h_HasSave : bool; h_Name : string; h_Time : option T }.
(** A nil slice of names, types or modules is [None]. *)
Record ManifestOf := Manifest {
  mf_Version : Z;
  mf_Federation : FederationName;
  mf_FederationGeneration : option Z;
  mf_FOMSHA256 : string;
  mf_LogicalTimeImplementationName : string;
  mf_Label : string;
  mf_SaveTime : option T;
  mf_Federates : list FederateHandle;
  mf_FederateNames : option (list string);
  mf_FederateTypes : option (list string);
  mf_FederateModules : option (list (list FOMModule));
  mf_FederateClientStates : list (list byte);
  mf_EventLogBytes : Z;
  mf_ManagerSnapshots : gmap string (list byte);
}.
Definition emptyManifest : ManifestOf := Manifest 0 "" None "" "" "" None [] None None None [] 0 ∅.

Inductive OutboundEventOf :=
| InitiateSaveEvent (label : string) (saveTime : option T)
| SavedEvent (label : string)
| NotSavedEvent (label : string) (reason : SaveFailureReason)
| InitiateRestoreEvent (label : string) (handle : FederateHandle) (name : string) (clientState : list byte)
| RestoredEvent (label : string) (nextRetractionHandle : Z)
| NotRestoredEvent (label : string) (reason : RestoreFailureReason)
| RestoreRequestSucceededEvent (label : string)
| RestoreRequestFailedEvent (label : string) (cause : save_error)
| RestoreBegunEvent.
Record OutboxDeliveryOf := Delivery { Recipient : FederateHandle; Event : OutboundEventOf }.

(** ** What was done outside, in order *)
Inductive effectOf :=
| Happened (n : Z)
| Appended (f : FederationName) (kind : eventKind) (label : string)
| Sent (f : FederationName) (h : FederateHandle) (e : OutboundEventOf) (failure : option save_error)
| ReservedOutbox (f : FederationName) (deliveries : list OutboxDeliveryOf) (r : Z)
| CommittedOutbox (r : Z) (failure : option save_error)
| ReleasedOutbox (r : Z)
| ReservedTime (r : Z)
| CommittedTime (r : Z)
| PausedTime (r : Z) (hs : list FederateHandle)
| ReleasedTime (r : Z)
| ResumedTime (f : FederationName)
| SaveObserved (f : FederationName)
| StoredHistory (k : SaveHistoryKey) (h : SaveHistoryOf)
| DiscardedSave (k : SaveHistoryKey) (label : string)
| WrotePart (data : list byte)
| PublishedBundle (f : FederationName) (generation : option Z) (m : ManifestOf)
| AbortedBundle (f : FederationName)
| PreparedSnapshot (key : string) (c : Z)
| AppliedSnapshot (key : string) (data : list byte) (failure : option save_error)
| CommittedSnapshot (key : string) (c : Z)
| ReleasedSnapshot (key : string) (c : Z).
End Data.
Arguments SaveHistoryOf : clear implicits.
Arguments ManifestOf : clear implicits.
Arguments OutboundEventOf : clear implicits.
Arguments OutboxDeliveryOf : clear implicits.
Arguments effectOf : clear implicits.

(** ** The ports ([OptionsOf]) *)
(** [(A, error)]; a port does not panic. *)
Abbreviation answer A := (save_error + A)%type.
Definition wrapError {A} (f : save_error -> save_error) (r : answer A) : answer A := match r with inl e => inl (f e) | inr a => inr a end.
Section Ports.
Context {T : Type}.
(** What a port answers may depend on everything done so far. *)
Definition portOf (A : Type) : Type := list (effectOf T) -> A.
(** [io.Reader]: what it yields, and how it ends, [None] being [io.EOF]. *)
Record Reader := { r_data : list byte; r_end : option save_error }.
Record FOMCandidate := { c_FOM : Z; c_IsValid : bool }.

(** [ManagerSnapshotter], with the answers of the type assertions to
    [PreparedSnapshotter], [PreparedRestoreSnapshotter] (whose result may be nil
    next to an error, and may tell a [Candidate]), [core.TransitionSnapshotter],
    [FOMAwareSnapshotter], [SnapshotDigestValidator] and
    [RetractionHistoryPreview].  A commit function is a number. *)
Record SnapshotterOf := {
  Marshal : portOf (FederationName -> answer (list byte));
  Unmarshal : portOf (FederationName -> list byte -> answer ());
  PrepareRestore : option (portOf (FederationName -> list byte -> answer (option Z)));
  PrepareRestoreState : option (portOf (FederationName -> list byte -> option Z * option save_error));
  Candidate : option (portOf (Z -> option FOMCandidate));
  CommitPrepared : portOf (Z -> option save_error);
  PrepareRestoreParticipants : option (portOf (FederationName -> list byte -> list RestoreParticipant -> answer (list RestoreParticipant)));
  PrepareRestoreWithFOM : option (portOf (FederationName -> list byte -> FOMCandidate -> answer (option Z)));
  ValidateSnapshotDigest : option (portOf (list byte -> string -> option save_error));
  PreviewNextRetractionHandle : option (portOf (FederationName -> list byte -> FederateHandle -> answer Z));
}.
Record ClientStateValidationRequest := ValidationRequest {
  v_Federation : FederationName; v_Label : string; v_SourceGeneration : Z; v_SourceHandle : FederateHandle;
  v_LogicalTimeImplementationName : string; v_State : list byte }.
Record ClientStateRebindRequest := RebindRequest {
  b_Federation : FederationName; b_Label : string; b_SourceGeneration : Z; b_TargetGeneration : Z;
  b_SourceHandle : FederateHandle; b_TargetHandle : FederateHandle; b_LogicalTimeImplementationName : string;
  b_FederateHandles : gmap FederateHandle FederateHandle; b_State : list byte; b_ReboundState : list byte }.

Record OptionsOf := {
  (** [core.Outbox]; [Reserve] when it is a [core.ReservableOutbox] *)
  Send : portOf (FederationName -> FederateHandle -> OutboundEventOf T -> option save_error);
  Reserve : option (portOf (FederationName -> list (OutboxDeliveryOf T) -> option Z * option save_error));
  CommitReservation : portOf (Z -> option save_error);
  EventLog : bool;
  (** [Storage], keyed by a generation where it is a [GenerationStorage] *)
  generationStorage : bool;
  Writer : portOf (FederationName -> option Z -> string -> answer ());
  WriteTo : portOf (list byte -> Z * option save_error);
  CloseWriter : portOf (option save_error);
  Exists : portOf (FederationName -> option Z -> string -> bool);
  OpenReader : portOf (FederationName -> option Z -> string -> answer Reader);
  DiscardUncommittedSave : option (portOf (SaveHistoryKey -> string -> option save_error));
  (** [json.Marshal] and [json.Unmarshal] of a manifest *)
  json_Marshal : ManifestOf T -> answer (list byte);
  json_Unmarshal : list byte -> answer (ManifestOf T);
  LoadSaveHistory : option (portOf (SaveHistoryKey -> answer (SaveHistoryOf T)));
  StoreSaveHistory : portOf (SaveHistoryKey -> SaveHistoryOf T -> option save_error);
  OnSaveCompleted : bool;
  Members : option (portOf (FederationName -> list FederateHandle));
  Halted : option (portOf (FederationName -> bool));
  (** the functions [ready] and [release], either of which may be nil *)
  ScheduledTime : option (portOf (FederationName -> T -> list FederateHandle -> (option Z * option Z) * option save_error));
  timeReadyOf : portOf (Z -> answer bool);
  ResumeTime : option (portOf (FederationName -> option save_error));
  ValidateSaveRequest : option (portOf (FederationName -> FederateHandle -> T -> list FederateHandle -> option save_error));
  PrepareScheduledTime : option (portOf (FederationName -> T -> list FederateHandle -> bool -> answer (option Z)));
  PrepareImmediateTime : option (portOf (FederationName -> list FederateHandle -> bool -> answer (option Z)));
  (** [core.ScheduledSaveReservation] *)
  ReadyMembers : portOf (Z -> answer (list FederateHandle));
  PauseMembers : portOf (Z -> list FederateHandle -> option save_error);
  CheckpointLabels : option (portOf (FederationName -> string -> Z -> answer Z));
  PrepareRestoreTransition : option (portOf (FederationName -> list RestoreParticipant -> list (OutboxDeliveryOf T) -> option Z * option save_error));
  PrepareRestoreTransitionWithManifest :
    option (portOf (FederationName -> ManifestOf T -> list RestoreParticipant -> list (OutboxDeliveryOf T) -> option Z * option save_error));
  RebindRestore : option (portOf (FederationName -> Z -> ManifestOf T -> answer (ManifestOf T)));
  ValidateClientState : option (portOf (ClientStateValidationRequest -> option save_error));
  ValidateRestoreCallbackRecovery : option (portOf (FederationName -> ManifestOf T -> option save_error));
  RebindClientState : option (portOf (ClientStateRebindRequest -> answer (list byte)));
  ValidateRestoreSnapshots : option (portOf (FederationName -> ManifestOf T -> option FOMCandidate -> option save_error));
  Roster : option (portOf (FederationName -> list FederationMember));
  JoinedModules : option (portOf (FederationName -> FederateHandle -> answer (list FOMModule)));
  Generation : option (portOf (FederationName -> option Z));
  FOMSHA256 : option (portOf (FederationName -> option string));
  LogicalTimeImplementation : option (portOf (FederationName -> option string));
  ManagerSnapshots : gmap string SnapshotterOf;
  RequiredSnapshots : list string;
}.

(** ** The manager *)
(** The part of an active save that changes while it is active. *)
Record saveProgress := Progress {
  state : SaveState;
  waiting : bool;
  initiated : gset FederateHandle;
  required : gset FederateHandle;
  federates : list FederateHandle;
  begun : gset FederateHandle;
  complete : gset FederateHandle;
  notComp : gset FederateHandle;
  callbackEntered : gset FederateHandle;
  clientStates : gmap FederateHandle (list byte);
  releaseTime : option Z;
}.
(** [*activeSaveOf[T]]; [ident] is its address.  [participantTime],
    [timeReady] and [releaseTime] are the reservation they belong to. *)
Record activeSaveOf := ActiveSave {
  ident : Z;
  requester : FederateHandle;
  label : string;
  saveTime : option T;
  dynamic : bool;
  participantTime : option Z;
  timeReady : option Z;
  generation : option Z;
  fomSHA256 : string;
  progress : saveProgress;
}.
(** A commit of a plan; one of [PreparedSnapshotter] cannot fail. *)
Record preparedCommit := PreparedCommit { pc_key : string; pc_commit : Z; pc_fallible : bool }.
Record snapshotPreparation := Plan {
  commits : list preparedCommit;
  releases : list (string * Z);
  savedFOM : option FOMCandidate;
}.
Record activeRestoreOf := ActiveRestore {
  r_ident : Z;
  r_label : string;
  r_state : RestoreState;
  r_required : gset FederateHandle;
  r_complete : gset FederateHandle;
  r_notComp : gset FederateHandle;
  r_callbackEntered : gset FederateHandle;
  postHandles : gmap FederateHandle FederateHandle;
  manifest : ManifestOf T;
  commit : option (list preparedCommit);
  release : option (list (string * Z));
  participants : list RestoreParticipant;
  targetGeneration : option Z;
  targetFOMSHA256 : string;
}.
Record ManagerOf := Manager_ {
  saves : gmap FederationName activeSaveOf;
  restore : gmap FederationName activeRestoreOf;
  completed : gmap (FederationName * string) SaveState;
  completedRestore : gmap (FederationName * string) RestoreState;
  history : gmap SaveHistoryKey (SaveHistoryOf T);
  pendingSchedules : gmap FederationName Z;
  (** the generation of the save or restore that ended *)
  pendingResumes : gmap FederationName (option Z);
  nextIdent : Z;
}.
Definition emptyManager : ManagerOf := Manager_ ∅ ∅ ∅ ∅ ∅ ∅ ∅ 1.
End Ports.
Arguments portOf : clear implicits.
Arguments SnapshotterOf : clear implicits.
Arguments OptionsOf : clear implicits.
Arguments activeSaveOf : clear implicits.
Arguments activeRestoreOf : clear implicits.
Arguments ManagerOf : clear implicits.

(** ** Calls *)
Section Calls.
Context {T : Type}.
Record callState := Call { mgr : ManagerOf T; trace : list (effectOf T) }.
Definition proto (A : Type) : Type := callState -> outcome save_error A * callState.
#[export] Instance proto_ret : MRet proto := fun A a w => (Ret a, w).
#[export] Instance proto_bind : MBind proto := fun A B f m w =>
  match m w with
  | (Ret a, w') => f a w'
  | (Fail e, w') => (Fail e, w')
  | (Panic s, w') => (Panic s, w')
  end.
Definition raise {A} (e : save_error) : proto A := fun w => (Fail e, w).
Definition lift {A} (o : outcome save_error A) : proto A := fun w => (o, w).
Definition answered {A} (r : answer A) : proto A := match r with inl e => raise e | inr a => mret a end.
(** The error of a call as a value: [err := m()]. *)
Definition attempt {A} (m : proto A) : proto (save_error + A) := fun w =>
  match m w with
  | (Ret a, w') => (Ret (inr a), w')
  | (Fail e, w') => (Ret (inl e), w')
  | (Panic s, w') => (Panic s, w')
  end.
Definition failureOf {A} (r : save_error + A) : option save_error := match r with inl e => Some e | inr _ => None end.
(** [if err != nil { return err }] *)
Definition returning (failure : option save_error) : proto () := match failure with Some e => raise e | None => mret () end.
Definition guard_ (b : bool) (e : save_error) : proto () := if b then mret () else raise e.
(** A function or an interface that is nil where it is called. *)
Definition nonNil {A} (o : option A) : proto A := match o with Some a => mret a | None => fun w => (Panic "nil dereference", w) end.
Definition ask {A} (port : portOf T A) : proto A := fun w => (Ret (port (trace w)), w).
Definition emit (e : effectOf T) : proto () := fun w => (Ret (), Call (mgr w) (trace w ++ [e])).
Definition getManager : proto (ManagerOf T) := fun w => (Ret (mgr w), w).
Definition change (f : ManagerOf T -> ManagerOf T) : proto () := fun w => (Ret (), Call (f (mgr w)) (trace w)).
(** [for _, a := range l { if err := body(a); err != nil { return err } }] *)
Fixpoint forEach {A} (l : list A) (body : A -> proto ()) : proto () :=
  match l with [] => mret () | a :: l' => _ ← body a; forEach l' body end.
Fixpoint foldEach {A B} (body : B -> A -> proto B) (l : list A) (b : B) : proto B :=
  match l with [] => mret b | a :: l' => b ← body b a; foldEach body l' b end.
Fixpoint mapEach {A B} (body : A -> proto B) (l : list A) : proto (list B) :=
  match l with [] => mret [] | a :: l' => b ← body a; bs ← mapEach body l'; mret (b :: bs) end.
(** A deferred function, after the body has returned or failed. *)
Definition deferring {A} (m : proto A) (after : proto ()) : proto A :=
  r ← attempt m; _ ← after; match r with inl e => raise e | inr a => mret a end.
End Calls.
Arguments callState : clear implicits.
Arguments proto : clear implicits.

Section Updates.
Context {T : Type}.
Implicit Types (m : ManagerOf T) (p : saveProgress).
Definition set_saves m v : ManagerOf T := Manager_ v (restore m) (completed m) (completedRestore m) (history m) (pendingSchedules m) (pendingResumes m) (nextIdent m).
Definition set_restore m v : ManagerOf T := Manager_ (saves m) v (completed m) (completedRestore m) (history m) (pendingSchedules m) (pendingResumes m) (nextIdent m).
Definition set_completed m v : ManagerOf T := Manager_ (saves m) (restore m) v (completedRestore m) (history m) (pendingSchedules m) (pendingResumes m) (nextIdent m).
Definition set_completedRestore m v : ManagerOf T := Manager_ (saves m) (restore m) (completed m) v (history m) (pendingSchedules m) (pendingResumes m) (nextIdent m).
Definition set_history m v : ManagerOf T := Manager_ (saves m) (restore m) (completed m) (completedRestore m) v (pendingSchedules m) (pendingResumes m) (nextIdent m).
Definition set_schedules m v : ManagerOf T := Manager_ (saves m) (restore m) (completed m) (completedRestore m) (history m) v (pendingResumes m) (nextIdent m).
Definition set_resumes m v : ManagerOf T := Manager_ (saves m) (restore m) (completed m) (completedRestore m) (history m) (pendingSchedules m) v (nextIdent m).
Definition set_ident m v : ManagerOf T := Manager_ (saves m) (restore m) (completed m) (completedRestore m) (history m) (pendingSchedules m) (pendingResumes m) v.

Definition set_state p v : saveProgress := Progress v (waiting p) (initiated p) (required p) (federates p) (begun p) (complete p) (notComp p) (callbackEntered p) (clientStates p) (releaseTime p).
Definition set_waiting p v : saveProgress := Progress (state p) v (initiated p) (required p) (federates p) (begun p) (complete p) (notComp p) (callbackEntered p) (clientStates p) (releaseTime p).
Definition set_initiated p v : saveProgress := Progress (state p) (waiting p) v (required p) (federates p) (begun p) (complete p) (notComp p) (callbackEntered p) (clientStates p) (releaseTime p).
Definition set_required p v f : saveProgress := Progress (state p) (waiting p) (initiated p) v f (begun p) (complete p) (notComp p) (callbackEntered p) (clientStates p) (releaseTime p).
Definition set_begun p v : saveProgress := Progress (state p) (waiting p) (initiated p) (required p) (federates p) v (complete p) (notComp p) (callbackEntered p) (clientStates p) (releaseTime p).
Definition set_complete p v c : saveProgress := Progress (state p) (waiting p) (initiated p) (required p) (federates p) (begun p) v (notComp p) (callbackEntered p) c (releaseTime p).
Definition set_notComp p v : saveProgress := Progress (state p) (waiting p) (initiated p) (required p) (federates p) (begun p) (complete p) v (callbackEntered p) (clientStates p) (releaseTime p).
Definition set_entered p v : saveProgress := Progress (state p) (waiting p) (initiated p) (required p) (federates p) (begun p) (complete p) (notComp p) v (clientStates p) (releaseTime p).
Definition set_releaseTime p v : saveProgress := Progress (state p) (waiting p) (initiated p) (required p) (federates p) (begun p) (complete p) (notComp p) (callbackEntered p) (clientStates p) v.
Definition set_progress (as_ : activeSaveOf T) (p : saveProgress) : activeSaveOf T :=
  ActiveSave (ident as_) (requester as_) (label as_) (saveTime as_) (dynamic as_) (participantTime as_) (timeReady as_) (generation as_) (fomSHA256 as_) p.

(** [m.saves[fed]] changed through the pointer. *)
Definition update_save (fed : FederationName) (f : saveProgress -> saveProgress) m : ManagerOf T :=
  set_saves m (alter (fun as_ => set_progress as_ (f (progress as_))) fed (saves m)).
Definition update_restore (fed : FederationName) (f : activeRestoreOf T -> activeRestoreOf T) m : ManagerOf T :=
  set_restore m (alter f fed (restore m)).
End Updates.

(** [sortedHandles] *)
Definition sortedHandles (s : gset FederateHandle) : list FederateHandle := sortHandles (elements s).
(** [saveParticipantStarted] of an active save *)
Definition saveParticipantStarted {T} (as_ : activeSaveOf T) (h : FederateHandle) : bool :=
  match participantTime as_ with
  | None => negb (waiting (progress as_))
  | Some _ => bool_decide (h ∈ initiated (progress as_))
  end.
(** [allRequiredRespondedOf]; [len] counts before the members are looked at. *)
Definition allRequiredResponded (p : saveProgress) : bool :=
  negb (bool_decide (required p = ∅))
  && negb (Z.of_nat (size (complete p)) + Z.of_nat (size (notComp p)) <? Z.of_nat (size (required p)))
  && forallb (fun h => bool_decide (h ∈ complete p) || bool_decide (h ∈ notComp p)) (elements (required p)).
