(* ===== verification/SavService.v ===== *)
(** * Save and restore: shared steps, bundles and requests

    Sends and reservations, the current members, provenance
    ([save_restore/manager.go], [progress.go], [time_implementation.go]), the
    history of successful saves ([history.go]), the end of a save
    ([finalizeSave], [emitSaveOutcome]) and the time barrier it gives back
    ([scheduled.go]); the layout of a bundle, its writer and its reader
    ([manifest.go]); requests of a save and its initiation. *)
From stdpp Require Import gmap strings.
From Stdlib Require Import Strings.Byte.
From S2P Require Import Prelude GoBytes LogicalTime TimeScalar Fed Sav.
Open Scope Z_scope.

Section Steps.
Context {T : Type} `{LogicalTimeScalar T} (opts : OptionsOf T).
Implicit Types (fed : FederationName) (h : FederateHandle).
(** [ctx.Err()] *)
Abbreviation context := (portOf T (option save_error)).

Definition ctxErr (ctx : context) : proto T () := e ← ask ctx; returning e.
Definition send fed h (e : OutboundEventOf T) : proto T (option save_error) :=
  r ← ask (fun tr => Send opts tr fed h e); _ ← emit (Sent fed h e r); mret r.
Definition appendEvent fed (kind : eventKind) (label : string) : proto T () :=
  if EventLog opts then emit (Appended fed kind label) else mret ().
(** [Reserve] of a reservable outbox; a reservation it answers is held. *)
Definition reserveDeliveries (port : portOf T (option Z * option save_error)) fed (ds : list (OutboxDeliveryOf T)) : proto T (option Z * option save_error) :=
  x ← ask port;
  _ ← match x.1 with Some r => emit (ReservedOutbox fed ds r) | None => mret () end;
  mret x.
Definition releaseDeliveries (r : Z) : proto T () := emit (ReleasedOutbox r).
Definition commitDeliveries (r : Z) : proto T () :=
  e ← ask (fun tr => CommitReservation opts tr r); _ ← emit (CommittedOutbox r e); returning e.
Definition releaseBarrier (r : option Z) : proto T () := match r with Some r => emit (ReleasedTime r) | None => mret () end.

(** ** Members and provenance *)
Definition askMembers fed : proto T (list FederateHandle) :=
  match Members opts with Some members => ask (fun tr => members tr fed) | None => mret [] end.
Definition currentMembers fed : proto T (gset FederateHandle) :=
  match Members opts, Roster opts with
  | Some members, _ => l ← ask (fun tr => members tr fed); mret (list_to_set l)
  | None, Some roster => l ← ask (fun tr => roster tr fed); mret (list_to_set (m_Handle <$> l))
  | None, None => mret ∅
  end.
Definition resolveProvenance fed (requireFOM : bool) : proto T (option Z * string) :=
  match Generation opts with
  | None => mret (None, "")
  | Some generation =>
      g ← ask (fun tr => generation tr fed);
      match g with
      | None => raise ErrFederationNotFound
      | Some g =>
          match FOMSHA256 opts with
          | None => mret (Some g, "")
          | Some fom =>
              d ← ask (fun tr => fom tr fed);
              _ ← guard_ (negb (bool_decide (d = None) && requireFOM)) ErrFederationNotFound;
              mret (Some g, emptyOf d)
          end
      end
  end.
Definition timeImplementationFor fed : proto T string :=
  name ← match LogicalTimeImplementation opts with
         | None => mret (Representation_String ScalarRepresentation)
         | Some f =>
             r ← ask (fun tr => f tr fed);
             match r with
             | Some n => if bool_decide (n = "") then raise (incompatible "federation time implementation unavailable") else mret n
             | None => raise (incompatible "federation time implementation unavailable")
             end
         end;
  match ParseRepresentation name with
  | Ret resolved =>
      _ ← guard_ (bool_decide (resolved = ScalarRepresentation)) (incompatible "time implementation");
      mret (Representation_String resolved)
  | _ => raise (incompatible "time implementation")
  end.
(** [(generation == nil) != (as.generation == nil) || *generation != *as.generation] *)
Definition sameGeneration (a b : option Z) : bool := bool_decide (a = b).

(** ** The history of successful saves *)
Definition validTime (t : T) : bool := match ScalarTimeValue t with Ret _ => true | _ => false end.
Definition SaveHistory_Validate (h : SaveHistoryOf T) : option save_error :=
  let named := negb (bool_decide (h_Name h = "")) || bool_decide (is_Some (h_Time h)) in
  if negb (h_Known h) && (h_HasSave h || named) then Some (errText "savepoint: unknown history contains a save")
  else if negb (h_HasSave h) && named then Some (errText "savepoint: no-save history contains save metadata")
  else match h_Time h with
       | Some t => if validTime t then None else Some (errText "savepoint: invalid last save time")
       | None => None
       end.
Definition noHistory : SaveHistoryOf T := SaveHistory false false "" None.
Definition setSaveHistory (key : SaveHistoryKey) (h : SaveHistoryOf T) : proto T () :=
  change (fun m => set_history m (<[key := h]> (history m))).
Definition storeHistory (key : SaveHistoryKey) (h : SaveHistoryOf T) : proto T (option save_error) :=
  r ← ask (fun tr => StoreSaveHistory opts tr key h);
  _ ← match r with None => emit (StoredHistory key h) | Some _ => mret () end;
  mret r.
Definition loadSaveHistory fed (fresh : bool) : proto T () :=
  g ← resolveProvenance fed false;
  let key := historyKey fed g.1 in
  m ← getManager;
  h ← match LoadSaveHistory opts with
      | None => mret (default noHistory (history m !! key))
      | Some load => r ← ask (fun tr => load tr key); answered r
      end;
  _ ← returning (SaveHistory_Validate h);
  if fresh && negb (h_Known h) then
    let h' := SaveHistory true false "" None in
    _ ← match LoadSaveHistory opts with
        | None => mret ()
        | Some _ => r ← storeHistory key h'; returning r
        end;
    setSaveHistory key h'
  else setSaveHistory key h.
Definition InitializeSaveHistory fed : proto T () := loadSaveHistory fed true.
Definition RecoverSaveHistory fed : proto T () := loadSaveHistory fed false.
(** A failed store of the decision discards the bundle just written, where the
    store of bundles can. *)
Definition commitSaveHistory (key : SaveHistoryKey) (h : SaveHistoryOf T) : proto T () :=
  _ ← returning (SaveHistory_Validate h);
  match LoadSaveHistory opts with
  | None => setSaveHistory key h
  | Some _ =>
      r ← storeHistory key h;
      match r with
      | None => setSaveHistory key h
      | Some e =>
          match DiscardUncommittedSave opts with
          | None => raise (errWraps "savepoint: history write" [e])
          | Some discard =>
              c ← ask (fun tr => discard tr key (h_Name h));
              _ ← emit (DiscardedSave key (h_Name h));
              match c with
              | Some _ => raise (errWraps "savepoint: history write; uncommitted bundle cleanup" [e])
              | None => raise (errWraps "savepoint: history write" [e])
              end
          end
      end
  end.

(** ** The end of a save *)
(** [as] has left [m.saves], so that its [releaseTime] is seen by nobody. *)
Definition releaseSaveTime fed (as_ : option (activeSaveOf T)) : proto T () :=
  match as_ with
  | Some a =>
      match releaseTime (progress a) with
      | Some r =>
          _ ← emit (ReleasedTime r);
          match ResumeTime opts with
          | Some _ => change (fun m => set_resumes m (<[fed := generation a]> (pendingResumes m)))
          | None => mret ()
          end
      | None => mret ()
      end
  | None => mret ()
  end.
Definition dropSave fed (label : string) (final : SaveState) (m : ManagerOf T) : ManagerOf T :=
  let m := set_saves m (delete fed (saves m)) in
  let m := set_schedules m (delete fed (pendingSchedules m)) in
  set_completed m (<[(fed, label) := final]> (completed m)).
Definition finalizeSave fed (label : string) (failed : bool) : proto T () :=
  m ← getManager;
  _ ← change (dropSave fed label (if failed then StateNotSaved else StateSaved));
  releaseSaveTime fed (saves m !! fed).
Definition outcomeEvent (label : string) (reason : SaveFailureReason) : OutboundEventOf T :=
  if bool_decide (reason = SaveFailureNone) then SavedEvent label else NotSavedEvent label reason.
(** A fan-out that goes on after a failed send and joins the errors. *)
Definition sendAll fed (e : OutboundEventOf T) (l : list FederateHandle) (failure : option save_error) : proto T (option save_error) :=
  foldEach (fun failure h => r ← send fed h e; mret (errors_Join [failure; r])) l failure.
Definition emitSaveOutcome fed (label : string) (feds : list FederateHandle) (reason : SaveFailureReason) : proto T (option save_error) :=
  _ ← appendEvent fed (if bool_decide (reason = SaveFailureNone) then evtFederationSaved else evtFederationNotSaved) label;
  sendAll fed (outcomeEvent label reason) feds None.

(** A save given up: it ends as not saved, and those of [recipients] hear of it. *)
Definition endNotSaved fed (as_ : activeSaveOf T) (recipients : list FederateHandle) (reason : SaveFailureReason) (cause : save_error) : proto T () :=
  _ ← finalizeSave fed (label as_) true;
  r ← emitSaveOutcome fed (label as_) recipients reason;
  returning (errors_Join [Some cause; r]).
Definition liveOf (live : gset FederateHandle) (l : list FederateHandle) : list FederateHandle := filter (fun h => h ∈ live) l.
Definition failureReason (live : gset FederateHandle) (feds : list FederateHandle) (cause : save_error) : SaveFailureReason :=
  if errors_Is isParticipantsChanged cause then
    (if forallb (fun h => bool_decide (h ∈ live)) feds then RTIDetectedFailureDuringSave else FederateResignedDuringSave)
  else SaveTimeCannotBeHonored.
Definition failScheduledSave fed (as_ : activeSaveOf T) (cause : save_error) : proto T () :=
  live ← currentMembers fed;
  let feds := federates (progress as_) in
  let recipients := if errors_Is isIncompatible cause then [] else liveOf live feds in
  endNotSaved fed as_ recipients (failureReason live feds cause) cause.
Definition failParticipantInitiation fed (as_ : activeSaveOf T) (cause : save_error) : proto T () :=
  live ← currentMembers fed;
  endNotSaved fed as_ (liveOf live (federates (progress as_))) RTIUnableToSave cause.
Definition validateScheduledIdentity fed (as_ : activeSaveOf T) : proto T () :=
  live ← currentMembers fed;
  _ ← guard_ (bool_decide (sortedHandles live = federates (progress as_))) ErrScheduledSaveParticipantsChanged;
  g ← resolveProvenance fed false;
  guard_ (sameGeneration g.1 (generation as_) && bool_decide (g.2 = fomSHA256 as_)) ErrSaveBundleIncompatible.
End Steps.

(** * Save and restore: the layout of a bundle ([save_restore/manifest.go])

    A bundle is the manifest and an event-log slice, each after its length in
    eight little-endian bytes.  The JSON of a manifest is a port. *)
Definition bundleFormatVersionV1 : Z := 1.
Definition bundleFormatVersionV2 : Z := 2.
Definition maxManifestBytes : Z := 16 * 1024 * 1024.
Definition maxEventLogBytes : Z := 1024 * 1024 * 1024.
Definition manifestVersion (generation : option Z) : Z := match generation with None => bundleFormatVersionV1 | Some _ => bundleFormatVersionV2 end.
Definition supportedVersion (v : Z) : bool := (v =? bundleFormatVersionV1) || (v =? bundleFormatVersionV2).
(** [binary.LittleEndian.PutUint64] and [Uint64]. *)
Definition lenPrefix (n : Z) : list byte := putLE 8 n.
Definition corrupt (what : string) : save_error := errWraps what [ErrBundleCorrupt].

(** ** Reading *)
(** [io.ReadFull] of [n] bytes; the error is that of the reader, [None] for the
    two of an early end. *)
Definition ReadFull (n : nat) (r : Reader) : outcome (option save_error) (list byte * Reader) :=
  if (length (r_data r) <? n)%nat then Fail (r_end r)
  else Ret (take n (r_data r), {| r_data := drop n (r_data r); r_end := r_end r |}).
Definition readLenPrefix (r : Reader) (context : string) : outcome save_error (Z * Reader) :=
  x ← mapErr (fun e => match e with None => corrupt (context +:+ " truncated") | Some e => errWraps ("savepoint: read len: " +:+ context) [e] end) (ReadFull 8 r);
  Ret (getLE x.1, x.2).
Definition readEventLog (r : Reader) (manifestBytes : Z) : outcome save_error (list byte * Reader) :=
  '(eventLogLen, r) ← readLenPrefix r "event-log header";
  check eventLogLen =? manifestBytes orelse corrupt "event-log length mismatch" ;;
  check eventLogLen <=? maxEventLogBytes orelse corrupt "event-log length exceeds 1 GiB cap" ;;
  if eventLogLen =? 0 then Ret ([], r)
  else mapErr (fun _ => corrupt "event-log slice truncated") (ReadFull (Z.to_nat eventLogLen) r).

Section Bundle.
Context {T : Type} `{LogicalTimeScalar T} (opts : OptionsOf T).
Implicit Types (fed : FederationName) (m : ManifestOf T).

Definition readManifest (r : Reader) : outcome save_error (ManifestOf T * Reader) :=
  '(manifestLen, r) ← readLenPrefix r "header";
  check negb (manifestLen =? 0) && (manifestLen <=? maxManifestBytes) orelse corrupt "manifest length out of range" ;;
  '(manifestBytes, r) ← mapErr (fun _ => corrupt "manifest body truncated") (ReadFull (Z.to_nat manifestLen) r);
  m ← match json_Unmarshal opts manifestBytes with inr m => Ret m | inl _ => Fail (corrupt "manifest unmarshal") end;
  check supportedVersion (mf_Version m) orelse corrupt "unsupported manifest version" ;;
  Ret (m, r).
Definition ReadBundle (r : Reader) : outcome save_error (ManifestOf T * list byte) :=
  '(m, r) ← readManifest r;
  '(eventLog, _) ← readEventLog r (mf_EventLogBytes m);
  Ret (m, eventLog).

(** ** Writing *)
Definition with_version m (v : Z) : ManifestOf T :=
  Manifest v (mf_Federation m) (mf_FederationGeneration m) (mf_FOMSHA256 m) (mf_LogicalTimeImplementationName m) (mf_Label m) (mf_SaveTime m)
    (mf_Federates m) (mf_FederateNames m) (mf_FederateTypes m) (mf_FederateModules m) (mf_FederateClientStates m) (mf_EventLogBytes m) (mf_ManagerSnapshots m).
Definition with_eventLogBytes m (n : Z) : ManifestOf T :=
  Manifest (mf_Version m) (mf_Federation m) (mf_FederationGeneration m) (mf_FOMSHA256 m) (mf_LogicalTimeImplementationName m) (mf_Label m) (mf_SaveTime m)
    (mf_Federates m) (mf_FederateNames m) (mf_FederateTypes m) (mf_FederateModules m) (mf_FederateClientStates m) n (mf_ManagerSnapshots m).
Definition with_clientStates m (l : list (list byte)) : ManifestOf T :=
  Manifest (mf_Version m) (mf_Federation m) (mf_FederationGeneration m) (mf_FOMSHA256 m) (mf_LogicalTimeImplementationName m) (mf_Label m) (mf_SaveTime m)
    (mf_Federates m) (mf_FederateNames m) (mf_FederateTypes m) (mf_FederateModules m) l (mf_EventLogBytes m) (mf_ManagerSnapshots m).

(** The manifest as it is written: the default version, the size of the slice. *)
Definition sealedManifest m (eventLog : list byte) : ManifestOf T :=
  with_eventLogBytes (if mf_Version m =? 0 then with_version m bundleFormatVersionV1 else m) (zlen eventLog).
Definition writeBundlePart (what : string) (data : list byte) : proto T () :=
  x ← ask (fun tr => WriteTo opts tr data);
  _ ← emit (WrotePart (take (Z.to_nat x.1) data));
  match x.2 with
  | Some e => raise (errWraps what [e])
  | None => guard_ (x.1 =? zlen data) (errWraps what [errText "short write"])
  end.
Definition WriteBundle m (eventLog : list byte) : proto T () :=
  let m := sealedManifest m eventLog in
  _ ← guard_ (supportedVersion (mf_Version m)) (errText "savepoint: unsupported manifest version");
  _ ← guard_ (zlen eventLog <=? maxEventLogBytes) (errText "savepoint: event log exceeds bundle reader limit");
  manifestBytes ← answered (wrapError (fun e => errWraps "savepoint: marshal manifest" [e]) (json_Marshal opts m));
  _ ← guard_ (zlen manifestBytes <=? maxManifestBytes) (errText "savepoint: manifest length exceeds bundle reader limit");
  _ ← writeBundlePart "savepoint: write manifest len" (lenPrefix (zlen manifestBytes));
  _ ← writeBundlePart "savepoint: write manifest body" manifestBytes;
  _ ← writeBundlePart "savepoint: write event-log len" (lenPrefix (zlen eventLog));
  if bool_decide (eventLog = []) then mret () else writeBundlePart "savepoint: write event-log slice" eventLog.

(** [writeBundle]: the preflights, then the bundle, which its close publishes. *)
Definition writeBundle fed (label : string) (generation : option Z) m : proto T () :=
  _ ← match ValidateRestoreCallbackRecovery opts with
      | Some validate => e ← ask (fun tr => validate tr fed m);
          returning ((fun e => errWraps "source callback recovery preflight" [ErrSaveBundleIncompatible; e]) <$> e)
      | None => mret ()
      end;
  _ ← match ValidateRestoreSnapshots opts with
      | Some validate => e ← ask (fun tr => validate tr fed m None);
          returning ((fun e => errWraps "savepoint: inconsistent manager snapshots" [e]) <$> e)
      | None => mret ()
      end;
  w ← ask (fun tr => Writer opts tr fed generation label);
  _ ← answered (wrapError (fun e => errWraps "savepoint: open bundle writer" [e]) w);
  r ← attempt (WriteBundle (with_eventLogBytes m 0) []);
  match r with
  | inl e => _ ← emit (AbortedBundle fed); raise (errWraps "savepoint: write bundle" [e])
  | inr _ =>
      e ← ask (CloseWriter opts);
      match e with
      | Some e => raise (errWraps "savepoint: publish bundle" [e])
      | None => emit (PublishedBundle fed generation (sealedManifest (with_eventLogBytes m 0) []))
      end
  end.
(** [LoadManifest] *)
Definition LoadManifest fed (label : string) : proto T (ManifestOf T) :=
  g ← resolveProvenance opts fed false;
  rdr ← ask (fun tr => OpenReader opts tr fed g.1 label);
  r ← answered rdr;
  x ← lift (ReadBundle r); mret x.1.
End Bundle.

(** * Save and restore: the services of the save protocol

    Requests, initiation and progress of scheduled saves
    ([save_restore/manager.go], [scheduled.go], [participants.go]), the reports
    of the participants ([progress.go], [client_state.go]), aborts and lost
    federates ([federate_lost.go]).  Each service runs under the operation lock
    of its federation, and its caller holds the checkpoint admission. *)
Section Service.
Context {T : Type} `{LogicalTimeScalar T} (opts : OptionsOf T).
Implicit Types (fed : FederationName) (h : FederateHandle).
Abbreviation context := (portOf T (option save_error)).

(** ** Requesting a save *)
Definition validateSaveAvailability (ctx : context) fed : proto T () :=
  _ ← ctxErr ctx;
  match Halted opts with
  | Some halted => b ← ask (fun tr => halted tr fed); guard_ (negb b) ErrFederationHalted
  | None => mret ()
  end.
Definition authorizeSaveRequest fed (req : FederateHandle) (at_ : option T) (members : list FederateHandle) : proto T () :=
  _ ← guard_ (negb (req =? InvalidFederateHandle) && bool_decide (req ∈ members)) ErrFederateNotJoined;
  match at_ with
  | None => mret ()
  | Some t =>
      match ValidateSaveRequest opts with
      | None => raise ErrScheduledSaveUnsupported
      | Some validate => e ← ask (fun tr => validate tr fed req t members); returning e
      end
  end.
(** The save a request may replace: one none of whose participants has started. *)
Definition replaceableSave fed : proto T (option (activeSaveOf T)) :=
  m ← getManager;
  _ ← guard_ (bool_decide (restore m !! fed = None)) ErrRestoreAlreadyInProgress;
  match saves m !! fed with
  | None => mret None
  | Some previous =>
      _ ← guard_ (waiting (progress previous) && bool_decide (initiated (progress previous) = ∅)) ErrSaveAlreadyInProgress;
      mret (Some previous)
  end.
(** [reserveSaveTime]: the functions [ready] and [release] of a barrier. *)
Definition reserveSaveTime (ctx : context) fed (target : T) (members : list FederateHandle) : proto T (Z * Z) :=
  _ ← ctxErr ctx;
  _ ← guard_ (validTime target) ErrInvalidScheduledSaveTime;
  match ScheduledTime opts, Members opts, members with
  | Some schedule, Some _, _ :: _ =>
      x ← ask (fun tr => schedule tr fed target members);
      let '(ready, rel, e) := x in
      _ ← match rel with Some r => emit (ReservedTime r) | None => mret () end;
      match e, ready, rel with
      | None, Some a, Some b =>
          e ← ask ctx;
          match e with None => mret (a, b) | Some e => _ ← releaseBarrier rel; raise e end
      | None, _, _ => _ ← releaseBarrier rel; raise (errText "savepoint: invalid scheduled checkpoint coordinator reservation")
      | Some e, _, _ => _ ← releaseBarrier rel; raise e
      end
  | _, _, _ => raise ErrScheduledSaveUnsupported
  end.
(** The barrier of a save: [timeReady], [releaseTime] and [participantTime]. *)
Record barrier := Barrier { b_ready : option Z; b_release : option Z; b_participant : option Z }.
Definition participantBarrier (r : answer (option Z)) : proto T barrier :=
  r ← answered r;
  match r with
  | None => raise ErrScheduledSaveUnsupported
  | Some r => _ ← emit (ReservedTime r); mret (Barrier None (Some r) (Some r))
  end.
Definition reserveSaveTiming (ctx : context) fed (at_ : option T) (members : list FederateHandle) (replacing : bool) : proto T barrier :=
  match at_ with
  | Some t =>
      match PrepareScheduledTime opts with
      | Some prepare => r ← ask (fun tr => prepare tr fed t members replacing); participantBarrier r
      | None =>
          if replacing then raise ErrScheduledSaveUnsupported
          else x ← reserveSaveTime ctx fed t members; mret (Barrier (Some x.1) (Some x.2) None)
      end
  | None =>
      match PrepareImmediateTime opts with
      | Some prepare => r ← ask (fun tr => prepare tr fed members replacing); participantBarrier r
      | None => mret (Barrier None None None)
      end
  end.
(** [newActiveSave] with the fields its caller sets. *)
Definition newActiveSave (id : Z) (req : FederateHandle) (lbl : string) (at_ : option T) (members : list FederateHandle) (b : barrier) (g : option Z * string) : activeSaveOf T :=
  let required := match Members opts with Some _ => list_to_set members | None => ∅ end in
  let started := match b_participant b, at_ with Some _, None => required | _, _ => ∅ end in
  ActiveSave id req lbl at_ (bool_decide (Members opts = None)) (b_participant b) (b_ready b) g.1 g.2
    (Progress StateInitiated (bool_decide (is_Some at_)) started required (sortedHandles required) ∅ ∅ ∅ ∅ ∅ (b_release b)).
Definition initiateEvent (as_ : activeSaveOf T) : OutboundEventOf T := InitiateSaveEvent (label as_) (saveTime as_).
Definition deliveriesTo (l : list FederateHandle) (e : OutboundEventOf T) : list (OutboxDeliveryOf T) := (fun h => Delivery h e) <$> l.
Definition reserveInitiation (ctx : context) fed (as_ : activeSaveOf T) (recipients : list FederateHandle) : proto T Z :=
  match Reserve opts with
  | None => raise ErrScheduledSaveUnsupported
  | Some reserve =>
      let ds := deliveriesTo recipients (initiateEvent as_) in
      x ← reserveDeliveries (fun tr => reserve tr fed ds) fed ds;
      match x with
      | (Some r, None) => e ← ask ctx; match e with None => mret r | Some e => _ ← releaseDeliveries r; raise e end
      | (Some r, Some e) => _ ← releaseDeliveries r; raise e
      | (None, Some e) => raise e
      | (None, None) => raise (errText "savepoint: missing initiation reservation")
      end
  end.
Definition forgetCompleted fed (previous : option (activeSaveOf T)) (m : ManagerOf T) : ManagerOf T :=
  match previous with
  | Some p => set_schedules (set_completed m (delete (fed, label p) (completed m))) (delete fed (pendingSchedules m))
  | None => m
  end.
Definition placeSave fed (as_ : activeSaveOf T) (m : ManagerOf T) : ManagerOf T :=
  let m := set_saves m (<[fed := as_]> (saves m)) in
  let m := set_completed m (<[(fed, label as_) := StateInitiated]> (completed m)) in
  let m := set_ident m (nextIdent m + 1) in
  if waiting (progress as_) then set_schedules m (<[fed := ident as_]> (pendingSchedules m)) else m.
Definition installSave fed (as_ : activeSaveOf T) (previous : option (activeSaveOf T)) : proto T () :=
  _ ← match participantTime as_ with Some r => emit (CommittedTime r) | None => mret () end;
  _ ← match previous with Some p => releaseBarrier (releaseTime (progress p)) | None => mret () end;
  change (fun m => placeSave fed as_ (forgetCompleted fed previous m)).

(** ** Initiation *)
(** The callbacks in turn; at the first that fails the save ends as not saved
    and all are told. *)
Definition initiateSave fed (as_ : activeSaveOf T) : proto T () :=
  match federates (progress as_) with
  | [] =>
      r ← send opts fed InvalidFederateHandle (initiateEvent as_);
      match r with Some e => _ ← finalizeSave opts fed (label as_) true; raise e | None => mret () end
  | recipients =>
      forEach recipients (fun h =>
        r ← send opts fed h (initiateEvent as_);
        match r with
        | Some e => endNotSaved opts fed as_ recipients RTIUnableToSave e
        | None => mret ()
        end)
  end.
Definition publishSaveInitiation fed (as_ : activeSaveOf T) (immediate : option Z) : proto T () :=
  _ ← appendEvent opts fed evtSaveRequested (label as_);
  if waiting (progress as_) then mret ()
  else match immediate with
       | Some r =>
           x ← attempt (commitDeliveries opts r);
           match x with
           | inl e => _ ← releaseDeliveries r; failParticipantInitiation opts fed as_ e
           | inr _ => mret ()
           end
       | None => initiateSave fed as_
       end.

Definition requestFederationSave (ctx : context) fed (req : FederateHandle) (lbl : string) (at_ : option T) (requestAware : bool) : proto T () :=
  _ ← validateSaveAvailability ctx fed;
  g ← resolveProvenance opts fed false;
  members ← askMembers opts fed;
  _ ← if requestAware then authorizeSaveRequest fed req at_ members else mret ();
  previous ← replaceableSave fed;
  b ← reserveSaveTiming ctx fed at_ members (bool_decide (is_Some previous));
  e ← ask ctx;
  match e with
  | Some e => _ ← releaseBarrier (b_release b); raise e
  | None =>
      m ← getManager;
      let as_ := newActiveSave (nextIdent m) req lbl at_ members b g in
      match previous, at_ with
      | Some _, None =>
          x ← attempt (reserveInitiation ctx fed as_ (federates (progress as_)));
          match x with
          | inl e => _ ← releaseBarrier (b_release b); raise e
          | inr r =>
              deferring (_ ← installSave fed as_ previous; publishSaveInitiation fed as_ (Some r)) (releaseDeliveries r)
          end
      | _, _ => _ ← installSave fed as_ previous; publishSaveInitiation fed as_ None
      end
  end.
Definition RequestFederationSave (ctx : context) fed (lbl : string) (at_ : option T) : proto T () :=
  requestFederationSave ctx fed InvalidFederateHandle lbl at_ false.
Definition RequestFederationSaveFrom (ctx : context) fed (req : FederateHandle) (lbl : string) (at_ : option T) : proto T () :=
  requestFederationSave ctx fed req lbl at_ true.
End Service.
