(* ===== verification/SavReport.v ===== *)
(** * Save and restore: reports, progress and the end of a save

    The reports of the participants ([save_restore/progress.go],
    [client_state.go], [manager.go]), the bundle and the decision of a completed
    save, the progress of a scheduled one ([scheduled.go], [participants.go]),
    aborts, lost federates ([federate_lost.go]), admission ([admission.go],
    [callback_admission.go]) and the queries ([metrics.go]). *)
From stdpp Require Import gmap strings.
From Stdlib Require Import Strings.Byte.
From S2P Require Import Prelude GoBytes LogicalTime TimeScalar Fed Sav SavService.
Open Scope Z_scope.

Section Report.
Context {T : Type} `{LogicalTimeScalar T} (opts : OptionsOf T).
Implicit Types (fed : FederationName) (h : FederateHandle).
Abbreviation context := (portOf T (option save_error)).

(** ** Reports *)
Definition markBegun h (as_ : activeSaveOf T) (p : saveProgress) : saveProgress :=
  let p := if dynamic as_ then let r := {[h]} ∪ required p in set_required p r (sortedHandles r) else p in
  set_begun p ({[h]} ∪ begun p).
Definition FederateSaveBegun fed h : proto T () :=
  m ← getManager;
  _ ← guard_ (bool_decide (restore m !! fed = None)) ErrRestoreAlreadyInProgress;
  match saves m !! fed with
  | None => raise ErrSaveNotInitiated
  | Some as_ =>
      let p := progress as_ in
      _ ← guard_ (saveParticipantStarted as_ h && negb (h =? InvalidFederateHandle)) ErrSaveNotInitiated;
      _ ← guard_ (bool_decide (h ∉ begun p)) ErrSaveNotInitiated;
      _ ← guard_ (bool_decide (h ∉ complete p)) ErrSaveNotInitiated;
      _ ← guard_ (bool_decide (h ∉ notComp p)) ErrSaveNotInitiated;
      _ ← guard_ (dynamic as_ || bool_decide (h ∈ required p)) ErrSaveNotInitiated;
      change (update_save fed (markBegun h as_))
  end.
Definition statesSize (m : gmap FederateHandle (list byte)) : Z := map_fold (fun _ st n => zlen st + n) 0 m.
Definition validateClientStateAdmission (p : saveProgress) (st : list byte) : option save_error :=
  if MaxClientStateBytes <? zlen st then Some ErrClientStateTooLarge
  else if maxFederationClientStateBytes <? zlen st + statesSize (clientStates p) then Some ErrClientStateTooLarge
  else None.
Definition markReport h (ok : bool) (st : list byte) (p : saveProgress) : saveProgress :=
  let p := set_begun p (begun p ∖ {[h]}) in
  if ok then set_complete p ({[h]} ∪ complete p) (if bool_decide (st = []) then clientStates p else <[h := st]> (clientStates p))
  else set_notComp p ({[h]} ∪ notComp p).
(** The save once its last participant has reported, and whether one failed. *)
Definition markFederateAndAggregate fed h (ok : bool) (st : list byte) : proto T (option (activeSaveOf T * bool)) :=
  m ← getManager;
  _ ← guard_ (bool_decide (restore m !! fed = None)) ErrRestoreAlreadyInProgress;
  match saves m !! fed with
  | None => raise ErrFederateNotInSave
  | Some as_ =>
      _ ← guard_ (bool_decide (h ∈ begun (progress as_))) ErrFederateNotInSave;
      _ ← returning (validateClientStateAdmission (progress as_) st);
      _ ← change (update_save fed (markReport h ok st));
      let as_ := set_progress as_ (markReport h ok st (progress as_)) in
      mret (if allRequiredResponded (progress as_) then Some (as_, negb (bool_decide (notComp (progress as_) = ∅))) else None)
  end.
Definition validateSaveReport fed (as_ : option (activeSaveOf T)) h : proto T () :=
  match as_ with
  | Some a =>
      if bool_decide (is_Some (saveTime a)) && saveParticipantStarted a h then
        r ← attempt (validateScheduledIdentity opts fed a);
        match r with inl e => failScheduledSave opts fed a e | inr _ => mret () end
      else mret ()
  | None => mret ()
  end.

(** ** The bundle of a completed save *)
Definition collectManagerSnapshots fed : proto T (gmap string (list byte)) :=
  foldEach (fun (out : gmap string (list byte)) key =>
    match ManagerSnapshots opts !! key with
    | None => mret out
    | Some snapper =>
        r ← ask (fun tr => Marshal snapper tr fed);
        data ← answered (wrapError (fun e => errWraps ("savepoint: Marshal: " +:+ key) [e]) r);
        mret (<[key := data]> out)
    end) (sortedNames (ManagerSnapshots opts)) ∅.
Definition collectModules fed (feds : list FederateHandle) : proto T (option (list (list FOMModule))) :=
  match JoinedModules opts with
  | None => mret None
  | Some joined =>
      l ← mapEach (fun h => r ← ask (fun tr => joined tr fed h); answered r) feds;
      mret (Some l)
  end.
Definition rosterColumn (field : FederationMember -> string) (ms : list FederationMember) (feds : list FederateHandle) : list string :=
  let byHandle := fold_left (fun t mem => <[m_Handle mem := field mem]> t) ms (∅ : gmap FederateHandle string) in
  (fun h => emptyOf (byHandle !! h)) <$> feds.
(** [federateNamesFor] and [federateTypesFor] *)
Definition federatesColumn (field : FederationMember -> string) fed (feds : list FederateHandle) : proto T (option (list string)) :=
  match Roster opts with
  | None => mret None
  | Some roster => ms ← ask (fun tr => roster tr fed); mret (Some (rosterColumn field ms feds))
  end.
Definition clientStatesFor (p : saveProgress) (feds : list FederateHandle) : list (list byte) :=
  if bool_decide (clientStates p = ∅) then [] else (fun h => default [] (clientStates p !! h)) <$> feds.
Definition reserveSaveTerminal (ctx : context) fed (lbl : string) (recipients : list FederateHandle) : proto T (option Z) :=
  _ ← ctxErr ctx;
  match Reserve opts with
  | None => mret None
  | Some reserve =>
      let ds := deliveriesTo recipients (SavedEvent lbl) in
      x ← reserveDeliveries (fun tr => reserve tr fed ds) fed ds;
      match x with
      | (Some r, None) => mret (Some r)
      | (Some r, Some e) => _ ← releaseDeliveries r; raise (errWraps "savepoint: reserve save completion callbacks" [e])
      | (None, Some e) => raise (errWraps "savepoint: reserve save completion callbacks" [e])
      | (None, None) => raise (errWraps "savepoint: reserve save completion callbacks" [errText "nil completion reservation"])
      end
  end.
(** What a save that is being closed out came to: the reservation of its
    callbacks, whether it failed, and the error of the failed reservation. *)
Record closing := Closing { cl_failed : bool; cl_completion : option Z; cl_error : option save_error }.
Definition saveManifest fed (as_ : activeSaveOf T) (snapshots : gmap string (list byte)) (timeImpl : string) (modules : option (list (list FOMModule)))
    (names types : option (list string)) : ManifestOf T :=
  let feds := federates (progress as_) in
  Manifest (manifestVersion (generation as_)) fed (generation as_) (fomSHA256 as_) timeImpl (label as_) (saveTime as_) feds names types modules
    (clientStatesFor (progress as_) feds) 0 snapshots.
Definition markNotSaved fed : proto T () := change (update_save fed (fun p => set_state p StateNotSaved)).
Definition persistCompletedSave (ctx : context) fed (as_ : activeSaveOf T) : proto T closing :=
  let feds := federates (progress as_) in
  contents ← attempt (snapshots ← collectManagerSnapshots fed; timeImpl ← timeImplementationFor opts fed; modules ← collectModules fed feds; mret (snapshots, timeImpl, modules));
  match contents with
  | inl _ => _ ← markNotSaved fed; mret (Closing true None None)
  | inr (snapshots, timeImpl, modules) =>
      reserved ← attempt (reserveSaveTerminal ctx fed (label as_) feds);
      match reserved with
      | inl e => mret (Closing true None (Some e))
      | inr completion =>
          names ← federatesColumn m_Name fed feds;
          types ← federatesColumn m_FederateType fed feds;
          w ← attempt (writeBundle opts fed (label as_) (generation as_) (saveManifest fed as_ snapshots timeImpl modules names types));
          match w with
          | inl _ => _ ← markNotSaved fed; mret (Closing true completion None)
          | inr _ => mret (Closing false completion None)
          end
      end
  end.
Definition savedHistory (as_ : activeSaveOf T) : SaveHistoryOf T := SaveHistory true true (label as_) (saveTime as_).
Definition publishSaveDecision fed (lbl : string) (r : Z) : proto T () :=
  x ← attempt (commitDeliveries opts r);
  match x with
  | inl e => raise (errWraps "savepoint: successful save decision committed; callback reservation violated publication contract" [e])
  | inr _ =>
      _ ← if OnSaveCompleted opts then emit (SaveObserved fed) else mret ();
      appendEvent opts fed evtFederationSaved lbl
  end.
Definition publishLegacySaveOutcome fed (as_ : activeSaveOf T) (reason : SaveFailureReason) (failed : bool) (completionErr : option save_error) : proto T () :=
  d ← emitSaveOutcome opts fed (label as_) (federates (progress as_)) reason;
  _ ← (if failed then mret ()
       else match d with
            | None =>
                _ ← setSaveHistory (historyKey fed (generation as_)) (savedHistory as_);
                if OnSaveCompleted opts then emit (SaveObserved fed) else mret ()
            | Some _ => change (fun m => set_completed m (<[(fed, label as_) := StateNotSaved]> (completed m)))
            end);
  returning (errors_Join [completionErr; d]).
(** The decision once the bundle is written, or could not be. *)
Definition decideSave fed (as_ : activeSaveOf T) (reported : bool) (c : closing) : proto T () :=
  e ← match cl_failed c, cl_completion c with
      | false, Some _ => x ← attempt (commitSaveHistory opts (historyKey fed (generation as_)) (savedHistory as_)); mret (failureOf x)
      | _, _ => mret (cl_error c)
      end;
  let failed := cl_failed c || (bool_decide (is_Some (cl_completion c)) && match e with Some _ => true | None => false end) in
  let reason := if reported then FederateReportedFailureDuringSave else if failed then RTIUnableToSave else SaveFailureNone in
  _ ← match failed, cl_completion c with true, Some r => releaseDeliveries r | _, _ => mret () end;
  _ ← finalizeSave opts fed (label as_) failed;
  match failed, cl_completion c with
  | false, Some r => publishSaveDecision fed (label as_) r
  | _, _ => publishLegacySaveOutcome fed as_ reason failed e
  end.
(** The last report closes the save out; [deferring] is the deferred release. *)
Definition closeOutSave (ctx : context) fed (as_ : activeSaveOf T) (reported : bool) : proto T () :=
  c ← if reported then mret (Closing true None None) else persistCompletedSave ctx fed as_;
  match cl_completion c with
  | Some r => deferring (decideSave fed as_ reported c) (releaseDeliveries r)
  | None => decideSave fed as_ reported c
  end.
Definition recordFederateSave (ctx : context) fed h (ok : bool) (st : list byte) : proto T () :=
  m ← getManager;
  _ ← validateSaveReport fed (saves m !! fed) h;
  closed ← markFederateAndAggregate fed h ok st;
  match closed with
  | None => mret ()
  | Some (as_, reported) => closeOutSave ctx fed as_ reported
  end.
Definition FederateSaveComplete (ctx : context) fed h : proto T () := recordFederateSave ctx fed h true [].
Definition FederateSaveNotComplete (ctx : context) fed h : proto T () := recordFederateSave ctx fed h false [].
Definition FederateSaveCompleteWithClientState (ctx : context) fed h (st : list byte) : proto T () := recordFederateSave ctx fed h true st.
End Report.

(** * Save and restore: progress, aborts, losses, admission and queries

    The progress of a scheduled save and the resumption of time after it
    ([save_restore/scheduled.go], [participants.go]), aborted saves and
    destroyed executions ([manager.go]), lost federates ([federate_lost.go]),
    who is admitted while a save or a restore runs ([admission.go],
    [callback_admission.go]) and the queries ([progress.go], [metrics.go]). *)
Section Control.
Context {T : Type} `{LogicalTimeScalar T} (opts : OptionsOf T).
Implicit Types (fed : FederationName) (h : FederateHandle).
Abbreviation context := (portOf T (option save_error)).

(** ** Progress of a scheduled save *)
Definition markInitiated (recipients : list FederateHandle) (p : saveProgress) : saveProgress :=
  let p := set_initiated p (list_to_set recipients ∪ initiated p) in
  set_waiting p (bool_decide (size (initiated p) < size (required p))%nat).
(** [delete(pendingSchedules, fed)] once nobody is waited for. *)
Definition settleSchedule fed (m : ManagerOf T) : ManagerOf T :=
  match saves m !! fed with
  | Some a => if waiting (progress a) then m else set_schedules m (delete fed (pendingSchedules m))
  | None => m
  end.
Definition progressParticipants (ctx : context) fed (as_ : activeSaveOf T) (r : Z) : proto T () :=
  ready ← ask (fun tr => ReadyMembers opts tr r);
  match ready with
  | inl e => failScheduledSave opts fed as_ e
  | inr ready =>
      let recipients := filter (fun h => h ∉ initiated (progress as_)) ready in
      match recipients with
      | [] => mret ()
      | _ =>
          e ← ask (fun tr => PauseMembers opts tr r recipients);
          match e with
          | Some e => failScheduledSave opts fed as_ e
          | None =>
              _ ← emit (PausedTime r recipients);
              x ← attempt (reserveInitiation opts ctx fed as_ recipients);
              match x with
              | inl e => failParticipantInitiation opts fed as_ e
              | inr v =>
                  deferring
                    (_ ← change (fun m => settleSchedule fed (update_save fed (markInitiated recipients) m));
                     y ← attempt (commitDeliveries opts v);
                     match y with
                     | inl e => _ ← releaseDeliveries v; failParticipantInitiation opts fed as_ e
                     | inr _ => mret ()
                     end)
                    (releaseDeliveries v)
              end
          end
      end
  end.
Definition HasPendingScheduledSave (m : ManagerOf T) fed : bool :=
  bool_decide (is_Some (pendingSchedules m !! fed)) || bool_decide (is_Some (pendingResumes m !! fed)).
Definition forgetResume fed : proto T () := change (fun m => set_resumes m (delete fed (pendingResumes m))).
Definition resumeSaveTime fed : proto T () :=
  m ← getManager;
  match pendingResumes m !! fed with
  | None => mret ()
  | Some g =>
      if bool_decide (is_Some (saves m !! fed)) || bool_decide (is_Some (restore m !! fed)) then mret ()
      else
        r ← attempt (resolveProvenance opts fed false);
        match r with
        | inl e => _ ← forgetResume fed; raise e
        | inr (live, _) =>
            if negb (sameGeneration live g) then forgetResume fed
            else
              resume ← nonNil (ResumeTime opts);
              e ← ask (fun tr => resume tr fed);
              _ ← emit (ResumedTime fed);
              _ ← returning e;
              forgetResume fed
        end
  end.
(** The check of the schedule under its lock and the step it takes. *)
Definition progressLocked (ctx : context) fed : proto T () :=
  m ← getManager;
  match pendingSchedules m !! fed, saves m !! fed with
  | Some id, Some as_ =>
      if negb (bool_decide (ident as_ = id)) || negb (waiting (progress as_)) then mret ()
      else
        _ ← ctxErr ctx;
        r ← attempt (validateScheduledIdentity opts fed as_);
        match r with
        | inl e => failScheduledSave opts fed as_ e
        | inr _ =>
            stopped ← match Halted opts with Some halted => ask (fun tr => halted tr fed) | None => mret false end;
            if stopped : bool then failScheduledSave opts fed as_ ErrFederationHalted
            else match participantTime as_ with
                 | Some r => progressParticipants ctx fed as_ r
                 | None =>
                     t ← nonNil (timeReady as_);
                     ready ← ask (fun tr => timeReadyOf opts tr t);
                     match ready with
                     | inl e => failScheduledSave opts fed as_ e
                     | inr false => mret ()
                     | inr true =>
                         _ ← change (fun m => settleSchedule fed (update_save fed (fun p => set_waiting p false) m));
                         initiateSave opts fed as_
                     end
                 end
        end
  | _, _ => mret ()
  end.
Definition ProgressScheduledSave (ctx : context) fed : proto T () :=
  m ← getManager;
  if HasPendingScheduledSave m fed then
    r ← attempt (progressLocked ctx fed);
    s ← attempt (resumeSaveTime fed);
    returning (errors_Join [failureOf r; failureOf s])
  else mret ().

(** ** The end of a save from outside *)
Definition AbortSave fed : proto T () :=
  m ← getManager;
  match saves m !! fed with
  | None => raise ErrSaveNotInProgress
  | Some as_ =>
      _ ← change (dropSave fed (label as_) StateNotSaved);
      _ ← releaseSaveTime opts fed (Some as_);
      r ← emitSaveOutcome opts fed (label as_) (federates (progress as_)) SaveAborted;
      returning r
  end.
(** What a plan holds, the last prepared first. *)
Definition releasePlan (l : list (string * Z)) : proto T () := forEach (reverse l) (fun x => emit (ReleasedSnapshot x.1 x.2)).
(** [releaseRestoreOf]; the restore has left [m.restore], or is about to. *)
Definition releaseRestore (ar : option (activeRestoreOf T)) : proto T () :=
  match a ← ar; release a with Some l => releasePlan l | None => mret () end.
Definition forgetFederation fed (m : ManagerOf T) : ManagerOf T :=
  Manager_ (delete fed (saves m)) (delete fed (restore m))
    (filter (fun x => x.1.1 <> fed) (completed m)) (filter (fun x => x.1.1 <> fed) (completedRestore m))
    (filter (fun x => k_Federation x.1 <> fed) (history m)) (delete fed (pendingSchedules m)) (pendingResumes m) (nextIdent m).
Definition OnFederationDestroyed fed : proto T () :=
  m ← getManager;
  _ ← change (forgetFederation fed);
  _ ← releaseSaveTime opts fed (saves m !! fed);
  _ ← forgetResume fed;
  releaseRestore (restore m !! fed).
(** Only participants that were told of the save and are still joined hear of
    the fault; the reports of the caller go with the same reservation. *)
Definition deliverLossOutcome fed (ds : list (OutboxDeliveryOf T)) : proto T (option Z) :=
  match ds with
  | [] => mret None
  | _ =>
      match Reserve opts with
      | None => raise (errText "savepoint: detected loss requires reservable delivery")
      | Some reserve =>
          x ← reserveDeliveries (fun tr => reserve tr fed ds) fed ds;
          match x with
          | (Some r, Some e) => _ ← releaseDeliveries r; raise e
          | (None, Some e) => raise e
          | (None, None) => raise (errText "savepoint: missing fault outcome reservation")
          | (Some r, None) =>
              y ← attempt (commitDeliveries opts r);
              match y with
              | inl e => _ ← releaseDeliveries r; raise e
              | inr _ => mret (Some r)
              end
          end
      end
  end.
Definition FederateLost fed (lost : FederateHandle) (reports : list (OutboxDeliveryOf T)) : proto T () :=
  m ← getManager;
  let as_ := match saves m !! fed with Some a => if bool_decide (lost ∈ required (progress a)) then Some a else None | None => None end in
  live ← currentMembers opts fed;
  let outcome := match as_ with
                 | Some a => deliveriesTo (liveOf live (filter (fun h => h <> lost /\ saveParticipantStarted a h) (federates (progress a))))
                               (NotSavedEvent (label a) RTIDetectedFailureDuringSave)
                 | None => []
                 end in
  r ← deliverLossOutcome fed (reports ++ outcome);
  let rest := match as_ with
              | Some a => _ ← finalizeSave opts fed (label a) true; appendEvent opts fed evtFederationNotSaved (label a)
              | None => mret ()
              end in
  match r with Some v => deferring rest (releaseDeliveries v) | None => rest end.

(** ** Admission while a save or a restore runs *)
Definition acquireService (m : ManagerOf T) fed h : outcome save_error () :=
  let saving := match saves m !! fed with
                | None => false
                | Some a => if h =? InvalidFederateHandle then negb (waiting (progress a)) || negb (bool_decide (initiated (progress a) = ∅))
                            else saveParticipantStarted a h
                end in
  if saving then Fail ErrSaveAlreadyInProgress
  else if bool_decide (is_Some (restore m !! fed)) then Fail ErrRestoreAlreadyInProgress
  else Ret ().
Definition AcquireService (m : ManagerOf T) fed : outcome save_error () := acquireService m fed InvalidFederateHandle.
Definition AcquireFederateService (m : ManagerOf T) fed h : outcome save_error () := acquireService m fed h.
Definition AcquireLoss (m : ManagerOf T) fed : outcome save_error () :=
  if bool_decide (is_Some (restore m !! fed)) then Fail ErrRestoreAlreadyInProgress else Ret ().
Definition CheckFederateCallback (m : ManagerOf T) fed h : outcome save_error () :=
  let saving := match saves m !! fed with
                | Some a => let p := progress a in bool_decide (h ∈ callbackEntered p ∪ begun p ∪ complete p ∪ notComp p)
                | None => false
                end in
  if saving then Fail ErrSaveAlreadyInProgress
  else match restore m !! fed with
       | Some a => if bool_decide (h ∈ r_callbackEntered a) then Fail ErrRestoreAlreadyInProgress else Ret ()
       | None => Ret ()
       end.
Definition set_restoreEntered (a : activeRestoreOf T) (v : gset FederateHandle) : activeRestoreOf T :=
  ActiveRestore (r_ident a) (r_label a) (r_state a) (r_required a) (r_complete a) (r_notComp a) v (postHandles a) (manifest a) (commit a) (release a)
    (participants a) (targetGeneration a) (targetFOMSHA256 a).
Definition ObserveCheckpointCallbackEntry (m : ManagerOf T) fed h (lbl : string) (isRestore : bool) : ManagerOf T :=
  if isRestore then
    match restore m !! fed with
    | Some a =>
        if (negb (bool_decide (lbl = "")) && negb (bool_decide (lbl = r_label a))) || negb (bool_decide (h ∈ r_required a)) then m
        else update_restore fed (fun a => set_restoreEntered a ({[h]} ∪ r_callbackEntered a)) m
    | None => m
    end
  else
    match saves m !! fed with
    | Some a =>
        if negb (bool_decide (lbl = label a)) || negb (saveParticipantStarted a h) then m
        else update_save fed (fun p => set_entered p ({[h]} ∪ callbackEntered p)) m
    | None => m
    end.

(** ** Queries *)
Definition QuerySaveState (m : ManagerOf T) fed (lbl : string) : SaveState :=
  let final := default StateIdle (completed m !! (fed, lbl)) in
  match saves m !! fed with
  | Some a => if bool_decide (label a = lbl) then state (progress a) else final
  | None => final
  end.
Definition QueryRestoreState (m : ManagerOf T) fed (lbl : string) : RestoreState :=
  let final := default RestoreIdle (completedRestore m !! (fed, lbl)) in
  match restore m !! fed with
  | Some a => if bool_decide (r_label a = lbl) then r_state a else final
  | None => final
  end.
Definition saveStatusOf (as_ : option (activeSaveOf T)) h : SaveStatus :=
  match as_ with
  | Some a =>
      let p := progress a in
      if saveParticipantStarted a h then
        if bool_decide (h ∈ complete p) || bool_decide (h ∈ notComp p) then FederateWaitingForFederationToSave
        else if bool_decide (h ∈ begun p) then FederateSaving
        else if bool_decide (h ∈ required p) then FederateInstructedToSave
        else NoSaveInProgress
      else NoSaveInProgress
  | None => NoSaveInProgress
  end.
Definition QueryFederationSaveStatus fed : proto T (string * list (FederateHandle * SaveStatus)) :=
  live ← currentMembers opts fed;
  m ← getManager;
  _ ← guard_ (bool_decide (restore m !! fed = None)) ErrRestoreAlreadyInProgress;
  let as_ := saves m !! fed in
  let members := match as_ with Some a => live ∪ required (progress a) | None => live end in
  mret (match as_ with Some a => label a | None => "" end, (fun h => (h, saveStatusOf as_ h)) <$> sortedHandles members).
Definition restoreStatusOf (ar : option (activeRestoreOf T)) h : FederateHandle * RestoreStatus :=
  match ar with
  | Some a =>
      let '(post, st) := match postHandles a !! h with
                         | Some saved => (saved, FederateRestoring)
                         | None => (InvalidFederateHandle, if bool_decide (r_state a = RestoreLoading) then FederateRestoreRequestPending else NoRestoreInProgress)
                         end in
      (post, if bool_decide (h ∈ r_complete a) || bool_decide (h ∈ r_notComp a) then FederateWaitingForFederationToRestore else st)
  | None => (InvalidFederateHandle, NoRestoreInProgress)
  end.
Definition QueryFederationRestoreStatus fed : proto T (string * list (FederateHandle * (FederateHandle * RestoreStatus))) :=
  live ← currentMembers opts fed;
  m ← getManager;
  _ ← guard_ (bool_decide (saves m !! fed = None)) ErrSaveAlreadyInProgress;
  let ar := restore m !! fed in
  let members := match ar with Some a => live ∪ r_required a | None => live end in
  mret (match ar with Some a => r_label a | None => "" end, (fun h => (h, restoreStatusOf ar h)) <$> sortedHandles members).
Record SavepointSnapshot := SnapshotOf { sn_SaveLabel : string; sn_SaveState : SaveState; sn_RestoreLabel : string; sn_RestoreState : RestoreState }.
Definition Snapshot (m : ManagerOf T) fed : SavepointSnapshot :=
  let s := match saves m !! fed with Some a => (label a, state (progress a)) | None => ("", StateIdle) end in
  let r := match restore m !! fed with Some a => (r_label a, r_state a) | None => ("", RestoreIdle) end in
  SnapshotOf s.1 s.2 r.1 r.2.
Record MOMMetrics := Metrics { mm_FederateState : Z; mm_NextSaveName : string; mm_NextSaveTime : option T; mm_LastSave : SaveHistoryOf T }.
Definition QueryMOMMetrics fed h : proto T MOMMetrics :=
  key ← match Generation opts with
        | None => mret (Some (historyKey fed None))
        | Some g => x ← ask (fun tr => g tr fed); mret (match x with Some g => Some (historyKey fed (Some g)) | None => None end)
        end;
  m ← getManager;
  let last := match key with Some k => default noHistory (history m !! k) | None => noHistory end in
  let '(nm, at_, st) := match saves m !! fed with
                        | Some a => (label a, saveTime a, if bool_decide (h ∈ required (progress a)) && saveParticipantStarted a h then 3 else 1)
                        | None => ("", None, 1)
                        end in
  let st := match restore m !! fed with Some a => if bool_decide (h ∈ r_required a) then 5 else st | None => st end in
  mret (Metrics st nm at_ last).
End Control.
