(* ===== verification/SavRestore.v ===== *)
(** * Save and restore: the restore protocol

    Provenance, routing and participants of a bundle
    ([save_restore/manager.go], [restore_transition.go],
    [retraction_restore.go], [time_implementation.go], [client_state.go]), its
    translation to another execution ([cross_generation.go]) and the preparation
    of the snapshots it holds ([complete_state.go]).  The digests that are
    compared without regard to case are ASCII.  Then a request, the reports of
    the participants and what the last of them decides, and construction. *)
From stdpp Require Import gmap strings.
From Stdlib Require Import Strings.Byte.
From S2P Require Import Prelude GoBytes LogicalTime TimeScalar Fed Sav SavService SavReport.
Open Scope Z_scope.

(** [strings.EqualFold] of ASCII strings. *)
Definition foldAscii (a : Ascii.ascii) : Ascii.ascii :=
  let n := Ascii.nat_of_ascii a in if ((65 <=? n) && (n <=? 90))%nat then Ascii.ascii_of_nat (n + 32) else a.
Fixpoint EqualFold (s t : string) : bool :=
  match s, t with
  | EmptyString, EmptyString => true
  | String a s', String b t' => bool_decide (foldAscii a = foldAscii b) && EqualFold s' t'
  | _, _ => false
  end.

Section Source.
Context {T : Type} `{LogicalTimeScalar T} `{EqDecision T} (opts : OptionsOf T).
Implicit Types (fed : FederationName) (h : FederateHandle) (mf : ManifestOf T).
Abbreviation context := (portOf T (option save_error)).

(** ** Validation *)
Fixpoint statesWithin (l : list (list byte)) (total : Z) : bool :=
  match l with
  | [] => true
  | st :: l' =>
      let total := total + zlen st in
      (zlen st <=? MaxClientStateBytes) && (total <=? maxFederationClientStateBytes) && statesWithin l' total
  end.
Definition validateClientStates mf : option save_error :=
  match mf_FederateClientStates mf with
  | [] => None
  | states =>
      if negb (zlen states =? zlen (mf_Federates mf)) then Some (incompatible "runtime checkpoint roster mismatch")
      else if statesWithin states 0 then None else Some (incompatible "runtime checkpoint limit")
  end.
Definition validateRestoreTimeImplementation fed mf : proto T () :=
  live ← timeImplementationFor opts fed;
  let savedName := if bool_decide (mf_LogicalTimeImplementationName mf = "") then Representation_String HLAfloat64Time else mf_LogicalTimeImplementationName mf in
  match ParseRepresentation savedName with
  | Ret saved => guard_ (bool_decide (Representation_String saved = live)) (incompatible "saved time implementation")
  | _ => raise (incompatible "saved time implementation")
  end.
Definition validateSavedFOM mf : proto T () :=
  match mf_ManagerSnapshots mf !! "fom"%string with
  | None => mret ()
  | Some data =>
      match s ← ManagerSnapshots opts !! "fom"%string; ValidateSnapshotDigest s with
      | None => raise (incompatible "saved FOM digest validator missing")
      | Some validate => e ← ask (fun tr => validate tr data (mf_FOMSHA256 mf)); returning ((fun _ => incompatible "saved FOM digest") <$> e)
      end
  end.
Definition validateRestoreProvenance fed (lbl : string) (g : option Z) (fom : string) mf : proto T () :=
  _ ← guard_ (bool_decide (mf_Federation mf = fed) && bool_decide (mf_Label mf = lbl)) (incompatible "bundle of another save");
  _ ← validateRestoreTimeImplementation fed mf;
  _ ← validateSavedFOM mf;
  match g with
  | None => mret ()
  | Some g =>
      _ ← guard_ (mf_Version mf =? bundleFormatVersionV2) (incompatible "bundle format version is not generation-aware");
      _ ← guard_ (bool_decide (is_Some (mf_FederationGeneration mf))) (incompatible "bundle has no federation generation");
      _ ← guard_ (bool_decide (mf_FederationGeneration mf = Some g)) (incompatible "bundle generation");
      match FOMSHA256 opts with
      | None => mret ()
      | Some _ =>
          _ ← guard_ (negb (bool_decide (mf_FOMSHA256 mf = ""))) (incompatible "bundle has no FOM digest");
          guard_ (bool_decide (is_Some (mf_ManagerSnapshots mf !! "fom"%string)) || EqualFold (mf_FOMSHA256 mf) fom) (incompatible "bundle FOM sha256")
      end
  end.
Definition restoreRetractionHints fed mf : proto T (gmap FederateHandle Z) :=
  match ManagerSnapshots opts !! "retractions"%string with
  | None => mret ∅
  | Some snapshot =>
      match PreviewNextRetractionHandle snapshot, mf_ManagerSnapshots mf !! "retractions"%string with
      | Some preview, Some data =>
          foldEach (fun (hints : gmap FederateHandle Z) saved =>
            r ← ask (fun tr => preview tr fed data saved);
            next ← answered (wrapError (fun e => errWraps "restore retraction history" [e]) r);
            _ ← guard_ (negb (next =? 0)) ErrRetractionHistoryUnavailable;
            mret (<[saved := next]> hints)) (mf_Federates mf) ∅
      | _, _ => raise ErrRetractionHistoryUnavailable
      end
  end.

(** ** Where a restore comes from *)
Definition resolveRestoreSourceGeneration fed (lbl : string) (g saved : option Z) : proto T (option Z * bool) :=
  match saved, g, CheckpointLabels opts with
  | Some s, None, _ => raise ErrSaveBundleIncompatible
  | Some s, Some _, _ => mret (Some s, false)
  | None, Some g, Some resolve =>
      r ← ask (fun tr => resolve tr fed lbl g); resolved ← answered r;
      mret (Some resolved, negb (resolved =? g))
  | None, _, _ => mret (g, false)
  end.
Record restoreSource := RestoreSource { s_manifest : ManifestOf T; s_generation : option Z; s_sourceGeneration : option Z; s_fomSHA256 : string }.
Definition loadRestoreSource fed (lbl : string) (savedGeneration : option Z) : proto T restoreSource :=
  '(g, fom) ← resolveProvenance opts fed true;
  '(source, resolvedLabel) ← resolveRestoreSourceGeneration fed lbl g savedGeneration;
  ex ← ask (fun tr => Exists opts tr fed source lbl);
  _ ← guard_ ex ErrSaveBundleNotFound;
  rdr ← ask (fun tr => OpenReader opts tr fed source lbl);
  rdr ← answered rdr;
  x ← lift (mapErr (fun e => errWraps "savepoint: read bundle" [e]) (ReadBundle opts rdr));
  let mf := x.1 in
  _ ← validateRestoreProvenance fed lbl source fom mf;
  _ ← guard_ (negb (resolvedLabel && negb (EqualFold (mf_FOMSHA256 mf) fom))) (incompatible "recreated-execution FDD differs from committed checkpoint");
  _ ← returning (validateClientStates mf);
  _ ← match ValidateRestoreCallbackRecovery opts with
      | Some validate => e ← ask (fun tr => validate tr fed mf);
          returning ((fun e => errWraps "callback recovery preflight" [ErrSaveBundleIncompatible; e]) <$> e)
      | None => mret ()
      end;
  mret (RestoreSource mf g source fom).

(** ** Routing by name *)
Definition currentByName (roster : list FederationMember) : gmap string FederateHandle :=
  fold_left (fun t mem => <[m_Name mem := m_Handle mem]> t) roster ∅.
Definition routeOf (byName : gmap string FederateHandle) (x : FederateHandle * string) : FederateHandle :=
  if bool_decide (x.2 = "") then x.1 else default x.1 (byName !! x.2).
Definition routeHandles fed mf : proto T (list FederateHandle) :=
  match Roster opts with
  | Some roster =>
      let names := default [] (mf_FederateNames mf) in
      if zlen names =? zlen (mf_Federates mf) then
        ms ← ask (fun tr => roster tr fed); mret (routeOf (currentByName ms) <$> zip (mf_Federates mf) names)
      else mret (mf_Federates mf)
  | None => mret (mf_Federates mf)
  end.
(** The table from current to saved handles, refused on a repeated or invalid
    recipient. *)
Fixpoint routeTable (l : list (FederateHandle * FederateHandle)) (t : gmap FederateHandle FederateHandle) : option (gmap FederateHandle FederateHandle) :=
  match l with
  | [] => Some t
  | (h, saved) :: l' =>
      if bool_decide (is_Some (t !! h)) || (h =? InvalidFederateHandle) then None else routeTable l' (<[h := saved]> t)
  end.
Definition restoreRouting fed mf : proto T (list FederateHandle * gmap FederateHandle FederateHandle) :=
  recipients ← routeHandles fed mf;
  match routeTable (zip recipients (mf_Federates mf)) ∅ with
  | Some t => if bool_decide (t = ∅) then raise ErrSaveBundleIncompatible else mret (recipients, t)
  | None => raise ErrSaveBundleIncompatible
  end.

(** ** Participants of a complete restore *)
Definition hasRestoreTransition : bool :=
  bool_decide (is_Some (PrepareRestoreTransition opts)) || bool_decide (is_Some (PrepareRestoreTransitionWithManifest opts)).
Fixpoint rosterTables (l : list FederationMember) (byName : gmap string FederateHandle) (types : gmap string string) :
    option (gmap string FederateHandle * gmap string string) :=
  match l with
  | [] => Some (byName, types)
  | mem :: l' =>
      if bool_decide (m_Name mem = "") || negb (zeroOf (byName !! m_Name mem) =? 0) then None
      else rosterTables l' (<[m_Name mem := m_Handle mem]> byName) (<[m_Name mem := m_FederateType mem]> types)
  end.
Definition restoreRoster fed mf : proto T (gmap string FederateHandle * gmap string string) :=
  match Roster opts with
  | None => mret (∅, ∅)
  | Some roster =>
      _ ← guard_ (zlen (default [] (mf_FederateNames mf)) =? zlen (mf_Federates mf)) (incompatible "participant names missing");
      ms ← ask (fun tr => roster tr fed);
      match rosterTables ms ∅ ∅ with Some t => mret t | None => raise (incompatible "empty or duplicate live name") end
  end.
Definition restoreParticipant mf (i : nat) (saved : FederateHandle) (byName : gmap string FederateHandle) (types : gmap string string) : outcome save_error RestoreParticipant :=
  let modules := match mf_FederateModules mf with Some l => default [] (l !! i) | None => [] end in
  let known := bool_decide (is_Some (mf_FederateModules mf)) in
  match Roster opts with
  | None => Ret (Participant "" saved saved modules known None)
  | Some _ =>
      let nm := emptyOf (default [] (mf_FederateNames mf) !! i) in
      let changed := match mf_FederateTypes mf with
                     | Some ts => negb (bool_decide (emptyOf (ts !! i) = emptyOf (types !! nm)))
                     | None => false
                     end in
      check negb changed orelse incompatible "participant type changed" ;;
      Ret (Participant nm (zeroOf (byName !! nm)) saved modules known None)
  end.
Fixpoint matchParticipants mf (current : gset FederateHandle) (byName : gmap string FederateHandle) (types : gmap string string)
    (l : list FederateHandle) (i : nat) (seenSaved seenCurrent : gset FederateHandle) : outcome save_error (list RestoreParticipant) :=
  match l with
  | [] => Ret []
  | saved :: l' =>
      p ← restoreParticipant mf i saved byName types;
      let cur := p_CurrentHandle p in
      check negb ((saved =? 0) || (cur =? 0) || bool_decide (saved ∈ seenSaved) || bool_decide (cur ∈ seenCurrent) || negb (bool_decide (cur ∈ current)))
        orelse incompatible "missing or duplicate participant identity" ;;
      check (saved =? cur) || hasRestoreTransition orelse incompatible "identity transition is not configured" ;;
      rest ← matchParticipants mf current byName types l' (S i) ({[saved]} ∪ seenSaved) ({[cur]} ∪ seenCurrent);
      Ret (p :: rest)
  end.
(** The snapshots whose state the identity transition publishes, in one of the
    orders of the map. *)
Definition transitionParticipants fed mf (l : list (string * SnapshotterOf T)) (ps : list RestoreParticipant) : proto T (list RestoreParticipant) :=
  foldEach (fun ps (x : string * SnapshotterOf T) =>
    match PrepareRestoreParticipants x.2 with
    | None => mret ps
    | Some prepare =>
        _ ← guard_ hasRestoreTransition (incompatible "snapshot needs identity transition");
        r ← ask (fun tr => prepare tr fed (default [] (mf_ManagerSnapshots mf !! x.1)) ps);
        answered r
    end) l ps.
Definition restoreParticipants fed mf : proto T (list RestoreParticipant) :=
  let n := zlen (mf_Federates mf) in
  _ ← guard_ (match mf_FederateTypes mf with Some ts => (zlen ts =? n) && bool_decide (is_Some (Roster opts)) | None => true end)
        (incompatible "participant type census missing or malformed");
  _ ← guard_ (match mf_FederateModules mf with Some ms => zlen ms =? n | None => true end) (incompatible "participant module baseline count changed");
  current ← currentMembers opts fed;
  _ ← guard_ (Z.of_nat (size current) =? n) (incompatible "participant count changed");
  '(byName, types) ← restoreRoster fed mf;
  ps ← lift (matchParticipants mf current byName types (mf_Federates mf) 0 ∅ ∅);
  transitionParticipants fed mf (map_to_list (ManagerSnapshots opts)) ps.
End Source.

(** * Save and restore: translation and preparation of a bundle

    The translation of a bundle of another execution
    ([save_restore/cross_generation.go], [client_state_rebind.go]) and the
    preparation of its snapshots: all together before anything is committed
    ([complete_state.go]), or one at a time with reversal in the legacy
    composition ([manager.go], [applyManagerSnapshots]). *)
Section Prepare.
Context {T : Type} `{LogicalTimeScalar T} `{EqDecision T} (opts : OptionsOf T).
Implicit Types (fed : FederationName) (h : FederateHandle) (mf : ManifestOf T).
Abbreviation context := (portOf T (option save_error)).

(** ** Another execution *)
(** [uint64(h)>>32 != generation || uint64(h)&0xffffffff == 0] *)
Definition foreignHandle (g h : Z) : bool := negb (Z.shiftr h 32 =? g) || (Z.land h (2 ^ 32 - 1) =? 0).
Definition validateCrossGenerationClients fed mf (g : Z) (l : list (FederateHandle * list byte)) : proto T () :=
  forEach l (fun x =>
    if bool_decide (x.2 = []) then mret ()
    else match ValidateClientState opts, RebindClientState opts with
         | Some validate, Some _ =>
             e ← ask (fun tr => validate tr (ValidationRequest fed (mf_Label mf) g x.1 (mf_LogicalTimeImplementationName mf) x.2));
             returning ((fun e => errWraps "SDK runtime preflight" [ErrSaveBundleIncompatible; e]) <$> e)
         | _, _ => raise (incompatible "SDK runtime translation is not configured")
         end).
Definition completeTranslation : bool :=
  bool_decide (is_Some (RebindRestore opts)) && bool_decide (is_Some (ValidateRestoreSnapshots opts)) && bool_decide (is_Some (Roster opts))
  && negb (bool_decide (RequiredSnapshots opts = [])) && hasRestoreTransition opts.
Definition validateCrossGenerationSource fed mf : proto T Z :=
  _ ← returning (validateClientStates mf);
  _ ← guard_ completeTranslation (incompatible "complete cross-generation restore is not configured");
  _ ← guard_ (bool_decide (is_Some (mf_ManagerSnapshots mf !! "fom"%string))) (incompatible "cross-generation restore requires the saved FOM image");
  match mf_FederationGeneration mf with
  | None => raise (incompatible "source execution generation missing")
  | Some g =>
      _ ← guard_ (forallb (fun h => negb (foreignHandle g h)) (mf_Federates mf)) (incompatible "saved participant belongs to another execution");
      _ ← restoreParticipants opts fed mf;
      _ ← validateCrossGenerationClients fed mf g (zip (mf_Federates mf) (mf_FederateClientStates mf));
      mret g
  end.
Definition sameTranslation fed (g : Z) (source rebound : ManifestOf T) : bool :=
  bool_decide (mf_FederationGeneration rebound = Some g) && bool_decide (mf_Federation rebound = fed) && bool_decide (mf_Label rebound = mf_Label source)
  && (mf_Version rebound =? mf_Version source) && bool_decide (mf_FOMSHA256 rebound = mf_FOMSHA256 source)
  && bool_decide (mf_LogicalTimeImplementationName rebound = mf_LogicalTimeImplementationName source)
  && bool_decide (mf_FederateNames rebound = mf_FederateNames source) && bool_decide (mf_FederateTypes rebound = mf_FederateTypes source)
  && bool_decide (mf_SaveTime rebound = mf_SaveTime source) && bool_decide (mf_FederateModules rebound = mf_FederateModules source)
  && (mf_EventLogBytes rebound =? mf_EventLogBytes source) && (zlen (mf_Federates rebound) =? zlen (mf_Federates source))
  && bool_decide (default [] (mf_ManagerSnapshots rebound !! "fom"%string) = default [] (mf_ManagerSnapshots source !! "fom"%string)).
(** From saved to translated handles. *)
Fixpoint crossGenerationHandles (g : Z) (l : list (FederateHandle * FederateHandle)) (seen : gset FederateHandle) (t : gmap FederateHandle FederateHandle) :
    option (gmap FederateHandle FederateHandle) :=
  match l with
  | [] => Some t
  | (saved, h) :: l' =>
      if foreignHandle g h || bool_decide (h ∈ seen) then None else crossGenerationHandles g l' ({[h]} ∪ seen) (<[saved := h]> t)
  end.
(** [graph] is the state the translated bundle holds, when it holds one for each
    participant. *)
Definition rebindClients fed (g target : Z) (source : ManifestOf T) (handles : gmap FederateHandle FederateHandle)
    (l : list ((FederateHandle * FederateHandle) * (list byte * list byte))) : proto T (list (list byte)) :=
  mapEach (fun x : (FederateHandle * FederateHandle) * (list byte * list byte) =>
    let '((saved, to), (st, graph)) := x in
    if bool_decide (st = []) then mret []
    else
      rebind ← nonNil (RebindClientState opts);
      r ← ask (fun tr => rebind tr (RebindRequest fed (mf_Label source) g target saved to (mf_LogicalTimeImplementationName source) handles st graph));
      translated ← answered (wrapError (fun e => errWraps "SDK runtime translation" [ErrSaveBundleIncompatible; e]) r);
      _ ← guard_ (negb (bool_decide (translated = [])) && (zlen translated <=? MaxClientStateBytes)) (incompatible "SDK runtime translation returned empty or oversized state");
      mret translated) l.
Definition rebindCrossGenerationClients fed (g target : Z) (source rebound : ManifestOf T) (handles : gmap FederateHandle FederateHandle) : proto T (ManifestOf T) :=
  let states := mf_FederateClientStates source in
  let graph := if zlen (mf_FederateClientStates rebound) =? zlen states then mf_FederateClientStates rebound else (fun _ => []) <$> states in
  l ← rebindClients fed g target source handles (zip (zip (mf_Federates source) (mf_Federates rebound)) (zip states graph));
  mret (with_clientStates rebound l).
Definition with_target (a : activeRestoreOf T) (g : Z) (digest : string) : activeRestoreOf T :=
  ActiveRestore (r_ident a) (r_label a) (r_state a) (r_required a) (r_complete a) (r_notComp a) (r_callbackEntered a) (postHandles a) (manifest a)
    (commit a) (release a) (participants a) (Some g) digest.
Definition prepareCrossGeneration fed (target : Z) (digest : string) mf : proto T (ManifestOf T) :=
  g ← validateCrossGenerationSource fed mf;
  rebind ← nonNil (RebindRestore opts);
  r ← ask (fun tr => rebind tr fed target mf);
  rebound ← answered (wrapError (fun e => errWraps "source execution translation" [ErrSaveBundleIncompatible; e]) r);
  _ ← guard_ (sameTranslation fed target mf rebound) (incompatible "invalid cross-generation translation");
  match crossGenerationHandles target (zip (mf_Federates mf) (mf_Federates rebound)) ∅ ∅ with
  | None => raise (incompatible "translated participant belongs to another execution")
  | Some handles =>
      rebound ← rebindCrossGenerationClients fed g target mf rebound handles;
      _ ← returning (validateClientStates rebound);
      _ ← change (update_restore fed (fun a => with_target a target digest));
      mret rebound
  end.

(** ** All snapshots before any commit *)
Definition emptyPlan : snapshotPreparation := Plan [] [] None.
Definition addCommit (p : snapshotPreparation) (key : string) (c : option Z) (fallible : bool) : snapshotPreparation :=
  match c with Some c => Plan (commits p ++ [PreparedCommit key c fallible]) (releases p) (savedFOM p) | None => p end.
Definition prepared (key : string) (c : option Z) : proto T () := match c with Some c => emit (PreparedSnapshot key c) | None => mret () end.
(** One step of a plan: the plan so far, and how the step ended. *)
Definition prepareLeased fed (key : string) (data : list byte) (s : SnapshotterOf T) (port : portOf T (option Z * option save_error)) (p : snapshotPreparation) :
    proto T (snapshotPreparation * option save_error) :=
  x ← ask port;
  _ ← prepared key x.1;
  let p := match x.1 with Some c => Plan (commits p) (releases p ++ [(key, c)]) (savedFOM p) | None => p end in
  match x with
  | (Some c, None) =>
      fom ← match Candidate s with
            | Some cand => if bool_decide (key = "fom"%string) then ask (fun tr => cand tr c) else mret (savedFOM p)
            | None => mret (savedFOM p)
            end;
      mret (Plan (commits p ++ [PreparedCommit key c true]) (releases p) fom, None)
  | (_, e) => mret (p, Some (errWraps ("savepoint: prepare " +:+ key) [default (errText "nil prepared snapshot") e]))
  end.
Definition prepareSnapshot fed (key : string) (data : list byte) (hasSavedFOM : bool) (p : snapshotPreparation) : proto T (snapshotPreparation * option save_error) :=
  match ManagerSnapshots opts !! key with
  | None => mret (p, Some (incompatible ("unsupported snapshot " +:+ key)))
  | Some s =>
      if bool_decide (is_Some (PrepareRestoreParticipants s)) then mret (p, None)
      else match PrepareRestoreWithFOM s, hasSavedFOM with
           | Some port, true =>
               match savedFOM p with
               | Some fom =>
                   if c_IsValid fom then
                     r ← ask (fun tr => port tr fed data fom);
                     match r with
                     | inr (Some c) => _ ← prepared key (Some c); mret (addCommit p key (Some c) false, None)
                     | inr None => mret (p, Some (errWraps ("savepoint: prepare " +:+ key) [errText "nil prepared snapshot"]))
                     | inl e => mret (p, Some (errWraps ("savepoint: prepare " +:+ key) [e]))
                     end
                   else mret (p, Some (incompatible (key +:+ " needs a valid saved FOM candidate")))
               | None => mret (p, Some (incompatible (key +:+ " needs a valid saved FOM candidate")))
               end
           | _, _ =>
               match PrepareRestoreState s with
               | Some port => prepareLeased fed key data s (fun tr => port tr fed data) p
               | None =>
                   match PrepareRestore s with
                   | None => mret (p, Some (incompatible ("unsupported snapshot " +:+ key)))
                   | Some port =>
                       r ← ask (fun tr => port tr fed data);
                       match r with
                       | inr c => _ ← prepared key c; mret (addCommit p key c false, None)
                       | inl e => mret (p, Some (errWraps ("savepoint: prepare " +:+ key) [e]))
                       end
                   end
               end
           end
  end.
(** The keys in order, the object model first. *)
Definition preparationKeys (snapshots : gmap string (list byte)) : list string :=
  let keys := sortedNames snapshots in
  if bool_decide ("fom"%string ∈ keys) then "fom"%string :: filter (fun k => k <> "fom"%string) keys else keys.
Fixpoint prepareAll fed (snapshots : gmap string (list byte)) (keys : list string) (p : snapshotPreparation) : proto T snapshotPreparation :=
  match keys with
  | [] => mret p
  | key :: keys' =>
      x ← prepareSnapshot fed key (default [] (snapshots !! key)) (bool_decide (is_Some (snapshots !! "fom"%string))) p;
      match x.2 with
      | Some e => _ ← releasePlan (releases x.1); raise e
      | None => prepareAll fed snapshots keys' x.1
      end
  end.
Definition prepareCompleteManifest fed mf : proto T (list preparedCommit * list (string * Z)) :=
  let snapshots := mf_ManagerSnapshots mf in
  _ ← guard_ (forallb (fun k => bool_decide (is_Some (snapshots !! k))) (RequiredSnapshots opts)) (incompatible "required snapshot is missing");
  p ← prepareAll fed snapshots (preparationKeys snapshots) emptyPlan;
  _ ← match ValidateRestoreSnapshots opts with
      | Some validate =>
          e ← ask (fun tr => validate tr fed mf (savedFOM p));
          match e with Some _ => _ ← releasePlan (releases p); raise (incompatible "saved state graph") | None => mret () end
      | None => mret ()
      end;
  mret (commits p, releases p).
Definition runCommit (c : preparedCommit) : proto T () :=
  e ← match ManagerSnapshots opts !! pc_key c with
      | Some s => if pc_fallible c then ask (fun tr => CommitPrepared s tr (pc_commit c)) else mret None
      | None => mret None
      end;
  _ ← emit (CommittedSnapshot (pc_key c) (pc_commit c));
  returning e.
Definition runCommits (l : list preparedCommit) : proto T () := forEach l runCommit.

(** ** One snapshot at a time, with reversal *)
Record reversible := Reversible { v_key : string; v_snapper : SnapshotterOf T; v_before : list byte; v_after : list byte }.
Definition applySnapshot fed (x : reversible) (data : list byte) : proto T (option save_error) :=
  r ← ask (fun tr => Unmarshal (v_snapper x) tr fed data);
  _ ← emit (AppliedSnapshot (v_key x) data (failureOf r));
  mret (failureOf r).
(** Undoing [l], the last applied first. *)
Fixpoint revertSnapshots fed (l : list reversible) (failure : save_error) : proto T save_error :=
  match l with
  | [] => mret failure
  | x :: l' =>
      e ← applySnapshot fed x (v_before x);
      revertSnapshots fed l' (match e with Some e => errJoined [failure; errWraps ("savepoint: rollback " +:+ v_key x) [e]] | None => failure end)
  end.
Fixpoint applyLegacySnapshots fed (l applied : list reversible) : proto T () :=
  match l with
  | [] => mret ()
  | x :: l' =>
      e ← applySnapshot fed x (v_after x);
      match e with
      | Some e => failure ← revertSnapshots fed (x :: applied) (errWraps ("savepoint: Unmarshal " +:+ v_key x) [e]); raise failure
      | None => applyLegacySnapshots fed l' (x :: applied)
      end
  end.
Definition planLegacy fed (snapshots : gmap string (list byte)) (keys : list string) (plan : list preparedCommit * list reversible) : proto T (list preparedCommit * list reversible) :=
  foldEach (fun plan key =>
      match ManagerSnapshots opts !! key with
      | None => mret plan
      | Some s =>
          let data := default [] (snapshots !! key) in
          match PrepareRestore s with
          | Some port =>
              r ← ask (fun tr => port tr fed data);
              c ← answered (wrapError (fun e => errWraps ("savepoint: PrepareRestore: " +:+ key) [e]) r);
              _ ← prepared key c;
              mret (match c with Some c => plan.1 ++ [PreparedCommit key c false] | None => plan.1 end, plan.2)
          | None =>
              _ ← guard_ (negb (bool_decide (data = []))) (errText (key +:+ " needs PrepareRestore for a present empty snapshot"));
              r ← ask (fun tr => Marshal s tr fed);
              before ← answered (wrapError (fun e => errWraps ("savepoint: capture rollback for " +:+ key) [e]) r);
              _ ← guard_ (negb (bool_decide (before = []))) (errText (key +:+ " needs PrepareRestore for an empty rollback image"));
              mret (plan.1, plan.2 ++ [Reversible key s before data])
          end
      end) keys plan.
Definition applyManagerSnapshots fed (snapshots : gmap string (list byte)) : proto T () :=
  if bool_decide (snapshots = ∅) then mret ()
  else
    plan ← planLegacy fed snapshots (sortedNames snapshots) ([], []);
    _ ← applyLegacySnapshots fed plan.2 [];
    runCommits plan.1.
End Prepare.

(** * Save and restore: the restore protocol ([save_restore/manager.go])

    A request reserves the execution, loads and prepares a bundle and tells the
    participants; each reports once; the last report imports the prepared state
    and publishes the outcome, or tells that the restore failed.  The reservation
    of a request ([reserveRestoreRequest]) takes only the lock of the tables, and
    comes before the operation lock. *)
Section Restore.
Context {T : Type} `{LogicalTimeScalar T} `{EqDecision T} (opts : OptionsOf T).
Implicit Types (fed : FederationName) (h : FederateHandle) (mf : ManifestOf T).
Abbreviation context := (portOf T (option save_error)).

Definition strict : bool := negb (bool_decide (RequiredSnapshots opts = [])).

(** ** A request *)
Definition loadingRestore (id : Z) (lbl : string) : activeRestoreOf T :=
  ActiveRestore id lbl RestoreLoading ∅ ∅ ∅ ∅ ∅ emptyManifest None None [] None "".
Definition reserveRestoreRequest fed (lbl : string) : proto T Z :=
  m ← getManager;
  _ ← guard_ (bool_decide (saves m !! fed = None)) ErrSaveAlreadyInProgress;
  _ ← guard_ (bool_decide (restore m !! fed = None)) ErrRestoreAlreadyInProgress;
  _ ← change (fun m => set_ident (set_restore m (<[fed := loadingRestore (nextIdent m) lbl]> (restore m))) (nextIdent m + 1));
  mret (nextIdent m).
Definition dropRestore fed (lbl : string) (final : RestoreState) (m : ManagerOf T) : ManagerOf T :=
  set_completedRestore (set_restore m (delete fed (restore m))) (<[(fed, lbl) := final]> (completedRestore m)).
Definition requestRestoreFailed fed (req : option FederateHandle) (lbl : string) (e : save_error) : proto T save_error :=
  match req with
  | None => mret e
  | Some r => d ← send opts fed r (RestoreRequestFailedEvent lbl e);
      mret (match d with Some d => errJoined [e; d] | None => e end)
  end.
Definition with_participants (a : activeRestoreOf T) (ps : list RestoreParticipant) : activeRestoreOf T :=
  ActiveRestore (r_ident a) (r_label a) (r_state a) (r_required a) (r_complete a) (r_notComp a) (r_callbackEntered a) (postHandles a) (manifest a)
    (commit a) (release a) ps (targetGeneration a) (targetFOMSHA256 a).
Definition with_plan (a : activeRestoreOf T) (c : option (list preparedCommit)) (r : option (list (string * Z))) : activeRestoreOf T :=
  ActiveRestore (r_ident a) (r_label a) (r_state a) (r_required a) (r_complete a) (r_notComp a) (r_callbackEntered a) (postHandles a) (manifest a)
    c r (participants a) (targetGeneration a) (targetFOMSHA256 a).
Definition initiatedRestore mf (routes : gmap FederateHandle FederateHandle) (a : activeRestoreOf T) : activeRestoreOf T :=
  ActiveRestore (r_ident a) (r_label a) RestoreInitiated (dom routes) ∅ ∅ (r_callbackEntered a) routes mf
    (commit a) (release a) (participants a) (targetGeneration a) (targetFOMSHA256 a).
(** The snapshots of the bundle: prepared all together, or applied at once. *)
Definition prepareBundle fed mf : proto T () :=
  p ← attempt (if strict then x ← prepareCompleteManifest opts fed mf; change (update_restore fed (fun a => with_plan a (Some x.1) (Some x.2)))
               else applyManagerSnapshots opts fed (mf_ManagerSnapshots mf));
  returning ((fun e => errWraps "savepoint: prepare manager snapshots" [e]) <$> failureOf p).
Definition fillParticipants fed mf : proto T () :=
  if strict then ps ← restoreParticipants opts fed mf; change (update_restore fed (fun a => with_participants a ps)) else mret ().
Definition stageRestore fed (lbl : string) mf : proto T (list FederateHandle) :=
  _ ← restoreRetractionHints opts fed mf;
  _ ← fillParticipants fed mf;
  '(recipients, routes) ← restoreRouting opts fed mf;
  _ ← prepareBundle fed mf;
  _ ← change (fun m => set_completedRestore (update_restore fed (initiatedRestore mf routes) m) (<[(fed, lbl) := RestoreInitiated]> (completedRestore m)));
  mret recipients.
(** The part of a request whose errors the requester is told: the recipients and
    the handles they had when the save was made. *)
Definition prepareRestore fed (lbl : string) (savedGeneration : option Z) : proto T (list FederateHandle * list FederateHandle) :=
  source ← loadRestoreSource opts fed lbl savedGeneration;
  mf ← match s_generation source, s_sourceGeneration source with
       | Some g, Some s => if g =? s then mret (s_manifest source) else prepareCrossGeneration opts fed g (s_fomSHA256 source) (s_manifest source)
       | _, _ => mret (s_manifest source)
       end;
  recipients ← stageRestore fed lbl mf;
  mret (recipients, mf_Federates (s_manifest source)).
Definition releaseUninitiatedRestore fed (id : Z) : proto T () :=
  m ← getManager;
  match restore m !! fed with
  | Some a =>
      if r_ident a =? id then _ ← releaseRestore (Some a); change (dropRestore fed (r_label a) RestoreFailed)
      else mret ()
  | None => mret ()
  end.

(** ** Telling the participants *)
(** A notification that cannot be sent fails the restore. *)
Definition failRestoreNotification fed (cause : save_error) : proto T () :=
  m ← getManager;
  match restore m !! fed with
  | None => raise cause
  | Some a =>
      _ ← change (dropRestore fed (r_label a) RestoreFailed);
      _ ← releaseRestore (Some a);
      d ← sendAll opts fed (NotRestoredEvent (r_label a) RTIUnableToRestore) (sortedHandles (r_required a)) (Some cause);
      returning d
  end.
Definition notify fed h (e : OutboundEventOf T) : proto T () :=
  d ← send opts fed h e; match d with Some cause => failRestoreNotification fed cause | None => mret () end.
Fixpoint firstOccurrences (l : list FederateHandle) (seen : gset FederateHandle) : list FederateHandle :=
  match l with
  | [] => []
  | h :: l' => if bool_decide (h ∈ seen) then firstOccurrences l' seen else h :: firstOccurrences l' ({[h]} ∪ seen)
  end.
Definition restoreBegunRecipients fed (ps : list FederateHandle) : proto T (list FederateHandle) :=
  match Roster opts with
  | Some roster => ms ← ask (fun tr => roster tr fed); mret (sortHandles (m_Handle <$> ms))
  | None => mret (sortHandles (firstOccurrences ps ∅))
  end.
Definition initiateRestoreEvent mf (lbl : string) (i : nat) (saved : FederateHandle) : OutboundEventOf T :=
  let names := default [] (mf_FederateNames mf) in
  let nm := if zlen names =? zlen (mf_Federates mf) then emptyOf (names !! i) else "" in
  InitiateRestoreEvent lbl saved nm (default [] (mf_FederateClientStates mf !! i)).
Definition notifyRestoreInitiated fed (lbl : string) (req : option FederateHandle) (recipients sourceHandles : list FederateHandle) : proto T () :=
  m ← getManager;
  let mf := match restore m !! fed with Some a => manifest a | None => emptyManifest end in
  _ ← match req with Some r => notify fed r (RestoreRequestSucceededEvent lbl) | None => mret () end;
  begun ← restoreBegunRecipients fed recipients;
  _ ← forEach begun (fun h => notify fed h RestoreBegunEvent);
  forEach (zip (seq 0 (length recipients)) (zip recipients sourceHandles)) (fun x => notify fed x.2.1 (initiateRestoreEvent mf lbl x.1 x.2.2)).
Definition continueRestore fed (lbl : string) (req : option FederateHandle) (savedGeneration : option Z) (id : Z) : proto T () :=
  m ← getManager;
  _ ← guard_ (match restore m !! fed with Some a => r_ident a =? id | None => false end) ErrRestoreNotInProgress;
  x ← attempt (prepareRestore fed lbl savedGeneration);
  match x with
  | inl e =>
      e ← requestRestoreFailed fed req lbl e;
      _ ← releaseUninitiatedRestore fed id;
      raise e
  | inr (recipients, sourceHandles) =>
      _ ← appendEvent opts fed evtRestoreRequested lbl;
      notifyRestoreInitiated fed lbl req recipients sourceHandles
  end.
Definition requestFederationRestore fed (lbl : string) (req : option FederateHandle) (savedGeneration : option Z) : proto T () :=
  id ← reserveRestoreRequest fed lbl; continueRestore fed lbl req savedGeneration id.
Definition RequestFederationRestore fed (lbl : string) : proto T () := requestFederationRestore fed lbl None None.
Definition RequestFederationRestoreBy fed (req : FederateHandle) (lbl : string) : proto T () := requestFederationRestore fed lbl (Some req) None.
Definition RequestFederationRestoreFrom fed (req : FederateHandle) (lbl : string) (g : Z) : proto T () := requestFederationRestore fed lbl (Some req) (Some g).
End Restore.

(** * Save and restore: the end of a restore

    The reports of the participants and what the last of them decides
    ([save_restore/manager.go], [terminal_delivery.go], [cross_generation.go]),
    aborted restores, construction ([NewOf]), and the requests a coordinator
    serves. *)
Section Finish.
Context {T : Type} `{LogicalTimeScalar T} `{EqDecision T} (opts : OptionsOf T).
Implicit Types (fed : FederationName) (h : FederateHandle) (mf : ManifestOf T).
Abbreviation context := (portOf T (option save_error)).

(** ** Reports *)
Definition markRestored h (ok : bool) (a : activeRestoreOf T) : activeRestoreOf T :=
  ActiveRestore (r_ident a) (r_label a) (r_state a) (r_required a) (if ok then {[h]} ∪ r_complete a else r_complete a) (if ok then r_notComp a else {[h]} ∪ r_notComp a)
    (r_callbackEntered a) (postHandles a) (manifest a) (commit a) (release a) (participants a) (targetGeneration a) (targetFOMSHA256 a).
Definition restoreDone (a : activeRestoreOf T) : bool :=
  negb (bool_decide (r_required a = ∅)) && (Z.of_nat (size (r_complete a)) + Z.of_nat (size (r_notComp a)) =? Z.of_nat (size (r_required a))).
Definition markFederateRestore fed h (ok : bool) : proto T (activeRestoreOf T) :=
  m ← getManager;
  _ ← guard_ (bool_decide (saves m !! fed = None)) ErrSaveAlreadyInProgress;
  match restore m !! fed with
  | None => raise ErrFederateNotInRestore
  | Some a =>
      _ ← guard_ (bool_decide (r_state a = RestoreInitiated)) ErrFederateNotInRestore;
      _ ← guard_ (bool_decide (h ∈ r_required a)) ErrFederateNotInRestore;
      _ ← guard_ (negb (bool_decide (h ∈ r_complete a)) && negb (bool_decide (h ∈ r_notComp a))) ErrFederateNotInRestore;
      _ ← change (update_restore fed (markRestored h ok));
      mret (markRestored h ok a)
  end.

(** ** What the last report decides *)
Definition validateCompleteCommit fed mf : proto T () :=
  '(g, digest) ← resolveProvenance opts fed true;
  _ ← validateRestoreProvenance opts fed (mf_Label mf) g digest mf;
  _ ← restoreParticipants opts fed mf; mret ().
Definition validateRestoreTarget fed (a : activeRestoreOf T) : proto T () :=
  _ ← validateRestoreTimeImplementation opts fed (manifest a);
  _ ← match targetGeneration a with
      | None => mret ()
      | Some target =>
          '(g, digest) ← resolveProvenance opts fed true;
          guard_ (bool_decide (g = Some target) && bool_decide (digest = targetFOMSHA256 a)) (incompatible "target execution or FOM changed during restore")
      end;
  validateCompleteCommit fed (manifest a).
Definition restoredDeliveries (a : activeRestoreOf T) (recipients : list FederateHandle) (hints : gmap FederateHandle Z) (translated : bool) : list (OutboxDeliveryOf T) :=
  (fun h => Delivery h (RestoredEvent (r_label a) (zeroOf (hints !! (if translated then zeroOf (postHandles a !! h) else h))))) <$> recipients.
(** A reservation that comes with an error is given back. *)
Definition heldReservation (missing : string) (x : option Z * option save_error) : proto T Z :=
  match x with
  | (Some r, None) => mret r
  | (Some r, Some e) => _ ← releaseDeliveries r; raise e
  | (None, Some e) => raise e
  | (None, None) => raise (errText missing)
  end.
Definition reserveRestoreTerminal (ctx : context) fed (a : activeRestoreOf T) (recipients : list FederateHandle) (hints : gmap FederateHandle Z) : proto T Z :=
  _ ← ctxErr ctx;
  reserve ← nonNil (Reserve opts);
  let ds := restoredDeliveries a recipients hints false in
  x ← reserveDeliveries (fun tr => reserve tr fed ds) fed ds;
  heldReservation "savepoint: restore completion reservation is nil" (match x with (r, Some e) => (r, Some (errWraps "savepoint: reserve restore completion callbacks" [e])) | _ => x end).
Definition reservePreparedRestoreTerminal (ctx : context) fed (a : activeRestoreOf T) (recipients : list FederateHandle) (hints : gmap FederateHandle Z) : proto T Z :=
  if hasRestoreTransition opts then
    current ← restoreParticipants opts fed (manifest a);
    _ ← guard_ (bool_decide (current = participants a)) (incompatible "restore participants changed during protocol");
    let ds := restoredDeliveries a recipients hints true in
    x ← match PrepareRestoreTransitionWithManifest opts, PrepareRestoreTransition opts with
        | Some prepare, _ => reserveDeliveries (fun tr => prepare tr fed (manifest a) (participants a) ds) fed ds
        | None, Some prepare => reserveDeliveries (fun tr => prepare tr fed (participants a) ds) fed ds
        | None, None => mret (None, None)
        end;
    heldReservation "savepoint: nil restore transition reservation" x
  else reserveRestoreTerminal ctx fed a recipients hints.
(** The checks and the reservation that come before the import; the reservation
    is none in the legacy composition. *)
Definition prepareRestoreCompletion (ctx : context) fed (a : activeRestoreOf T) (recipients : list FederateHandle) : proto T (option Z) :=
  _ ← match commit a with
      | Some _ => _ ← ctxErr ctx; validateRestoreTarget fed a
      | None => mret ()
      end;
  if strict opts then
    hints ← restoreRetractionHints opts fed (manifest a);
    r ← reservePreparedRestoreTerminal ctx fed a recipients hints; mret (Some r)
  else mret None.
Definition commitPreparedRestore (ctx : context) fed (a : activeRestoreOf T) : proto T () :=
  match commit a with
  | None => mret ()
  | Some plan =>
      _ ← ctxErr ctx;
      _ ← if hasRestoreTransition opts then mret () else validateRestoreTarget fed a;
      runCommits opts plan
  end.
Definition notifyRestoreCompleted fed (a : activeRestoreOf T) (recipients : list FederateHandle) (failure : option RestoreFailureReason) (commitErr : option save_error) : proto T () :=
  match failure with
  | None =>
      _ ← appendEvent opts fed evtFederationRestored (r_label a);
      if strict opts then
        _ ← match commitErr, ResumeTime opts with
            | None, Some _ => change (fun m => set_resumes m (<[fed := mf_FederationGeneration (manifest a)]> (pendingResumes m)))
            | _, _ => mret ()
            end;
        returning commitErr
      else d ← sendAll opts fed (RestoredEvent (r_label a) 0) recipients commitErr; returning d
  | Some reason => d ← sendAll opts fed (NotRestoredEvent (r_label a) reason) recipients commitErr; returning d
  end.
(** [failed] is what the participants reported; [p] is how the preparation of
    the outcome ended. *)
Definition importRestore (ctx : context) fed (a : activeRestoreOf T) (failed : bool) (p : save_error + option Z) : proto T (option save_error) :=
  match p with
  | inl e => mret (Some e)
  | inr _ => if failed then mret None else x ← attempt (commitPreparedRestore ctx fed a); mret (failureOf x)
  end.
Definition restoreFailure (failed : bool) (c : option save_error) : option RestoreFailureReason :=
  if failed then Some FederateReportedFailureDuringRestore else match c with Some _ => Some RTIUnableToRestore | None => None end.
(** Capacity is given back before any failure is told of. *)
Definition publishRestore (reservation : option Z) (failure : option RestoreFailureReason) : proto T (option save_error) :=
  match reservation, failure with
  | Some r, Some _ => _ ← releaseDeliveries r; mret None
  | Some r, None => x ← attempt (commitDeliveries opts r); mret (failureOf x)
  | None, _ => mret None
  end.
(** State is imported already when the publication fails: nobody is told. *)
Definition concludeRestore fed (a : activeRestoreOf T) (recipients : list FederateHandle) (failure : option RestoreFailureReason) (c published : option save_error) : proto T () :=
  match published with
  | Some e =>
      _ ← change (dropRestore fed (r_label a) RestoreFailed);
      raise (errWraps "" [ErrRestoreStateCommitted; e])
  | None =>
      _ ← change (dropRestore fed (r_label a) (match failure with None => RestoreCompleted | Some _ => RestoreFailed end));
      notifyRestoreCompleted fed a recipients failure c
  end.
Definition finishRestore (ctx : context) fed (a : activeRestoreOf T) (failed : bool) : proto T () :=
  let recipients := sortedHandles (r_required a) in
  p ← if failed then mret (inr None) else attempt (prepareRestoreCompletion ctx fed a recipients);
  let reservation := match p with inr (Some r) => Some r | _ => None end in
  let rest :=
    c ← importRestore ctx fed a failed p;
    published ← publishRestore reservation (restoreFailure failed c);
    concludeRestore fed a recipients (restoreFailure failed c) c published in
  deferring (match reservation with Some r => deferring rest (releaseDeliveries r) | None => rest end) (releaseRestore (Some a)).
Definition recordFederateRestore (ctx : context) fed h (ok : bool) : proto T () :=
  a ← markFederateRestore fed h ok;
  if restoreDone a then finishRestore ctx fed a (negb (bool_decide (r_notComp a = ∅))) else mret ().
Definition FederateRestoreComplete (ctx : context) fed h : proto T () := recordFederateRestore ctx fed h true.
Definition FederateRestoreNotComplete (ctx : context) fed h : proto T () := recordFederateRestore ctx fed h false.
Definition AbortRestore fed : proto T () :=
  m ← getManager;
  match restore m !! fed with
  | None => raise ErrRestoreNotInProgress
  | Some a =>
      _ ← change (dropRestore fed (r_label a) RestoreFailed);
      _ ← releaseRestore (Some a);
      d ← sendAll opts fed (NotRestoredEvent (r_label a) RestoreAborted) (sortedHandles (r_required a)) None;
      returning d
  end.

(** ** Construction *)
Definition canPrepareSnapshot (s : SnapshotterOf T) : bool :=
  bool_decide (is_Some (PrepareRestore s)) || bool_decide (is_Some (PrepareRestoreState s)) || bool_decide (is_Some (PrepareRestoreParticipants s)).
Fixpoint validRequiredSnapshots (l : list string) (seen : gset string) : bool :=
  match l with
  | [] => true
  | key :: l' =>
      negb (bool_decide (key = "")) && negb (bool_decide (key ∈ seen))
      && match ManagerSnapshots opts !! key with Some s => canPrepareSnapshot s | None => false end
      && validRequiredSnapshots l' ({[key]} ∪ seen)
  end.
Definition validateSnapshotOptions : outcome save_error () :=
  if negb (strict opts) then Ret () else
  check bool_decide (is_Some (Members opts)) orelse errText "savepoint.New: required snapshots need a Members resolver" ;;
  check bool_decide (is_Some (Reserve opts)) orelse errText "savepoint.New: required snapshots need a reservable outbox" ;;
  check validRequiredSnapshots (RequiredSnapshots opts) ∅ orelse errText "savepoint.New: required snapshot" ;;
  check forallb (fun x => canPrepareSnapshot x.2) (map_to_list (ManagerSnapshots opts)) orelse errText "savepoint.New: complete-state snapshot needs PrepareRestore" ;;
  Ret ().
(** [NewOf]; [outbox] and [store] say that the two required ports are given. *)
Definition NewOf (outbox store : bool) : outcome save_error (ManagerOf T) :=
  check outbox orelse errText "savepoint.New: Options.Outbox is required" ;;
  check store orelse errText "savepoint.New: Options.BundleStore is required" ;;
  check negb (bool_decide (is_Some (LoadSaveHistory opts))) || bool_decide (is_Some (Reserve opts))
    orelse errText "savepoint.New: durable history requires a reservable outbox" ;;
  check negb (bool_decide (is_Some (Generation opts))) || generationStorage opts
    orelse errText "savepoint.New: generation resolver requires generation-aware BundleStore" ;;
  _ ← validateSnapshotOptions;
  Ret emptyManager.
End Finish.
