(* ===== verification/SavCalls.v ===== *)
(** * Save and restore: reasoning about calls

    [evolves safe R c]: however the call [c] ends, the state it leaves is in the
    preorder [R] with the one it found, and with [safe] it does not panic.
    [calm] and [quiet] calls leave the manager and the [marks] alone, which is
    all but a few steps of every service (listed in the second part).  [vp c Q v]: from a state with the view
    [v] (the manager and the marks), whatever the ports answer, the call ends in
    [Q]. *)
From stdpp Require Import gmap strings.
From Stdlib Require Import Strings.Byte.
From S2P Require Import Prelude GoBytes LogicalTime TimeScalar Fed Sav SavService SavReport SavRestore.
Open Scope Z_scope.

Section Evolves.
Context {T : Type}.
Definition panics {A} (r : outcome save_error A) : Prop := match r with Panic _ => True | _ => False end.
(** With [safe] the call does not panic either. *)
Definition evolves (safe : bool) (R : relation (callState T)) {A} (c : proto T A) : Prop :=
  forall w, R w (c w).2 /\ (safe = true -> ~ panics (c w).1).

Section Rules.
Context (safe : bool) (R : relation (callState T)) `{!PreOrder R}.
Implicit Types (A B : Type).
Lemma evolves_bind {A B} (c : proto T A) (f : A -> proto T B) : evolves safe R c -> (forall a, evolves safe R (f a)) -> evolves safe R (c ≫= f).
Proof.
  intros Hc Hf w. unfold mbind, proto_bind. destruct (Hc w) as [H1 H2]. destruct (c w) as [[a|e|s] w']; simpl in *; [|split; [done|tauto]..].
  destruct (Hf a w') as [H3 H4]. split; [by etrans|done].
Qed.
Lemma evolves_attempt {A} (c : proto T A) : evolves safe R c -> evolves safe R (attempt c).
Proof. intros Hc w. unfold attempt. destruct (Hc w) as [H1 H2]. destruct (c w) as [[a|e|s] w']; simpl in *; (split; [done|tauto]). Qed.
Lemma evolves_pure {A} (c : proto T A) : (forall w, exists r, c w = (r, w) /\ ~ panics r) -> evolves safe R c.
Proof. intros Hc w. destruct (Hc w) as (r & -> & Hr). split; [reflexivity|done]. Qed.
Lemma evolves_mret {A} (a : A) : evolves safe R (mret a).
Proof. apply evolves_pure. intros w. exists (Ret a). split; [done|simpl; tauto]. Qed.
Lemma evolves_raise {A} e : evolves safe R (raise e : proto T A).
Proof. apply evolves_pure. intros w. exists (Fail e). split; [done|simpl; tauto]. Qed.
Lemma evolves_lift {A} (o : outcome save_error A) : no_panic o -> evolves safe R (lift o).
Proof. intros Ho. apply evolves_pure. intros w. exists o. split; [done|]. destruct o; simpl; try tauto. by destruct (Ho msg). Qed.
Lemma evolves_ask {A} (port : portOf T A) : evolves safe R (ask port).
Proof. apply evolves_pure. intros w. exists (Ret (port (trace w))). split; [done|simpl; tauto]. Qed.
Lemma evolves_getManager : evolves safe R getManager.
Proof. apply evolves_pure. intros w. exists (Ret (mgr w)). split; [done|simpl; tauto]. Qed.
Lemma evolves_returning e : evolves safe R (returning e).
Proof. destruct e; [apply evolves_raise|apply evolves_mret]. Qed.
Lemma evolves_guard b e : evolves safe R (guard_ b e).
Proof. destruct b; [apply evolves_mret|apply evolves_raise]. Qed.
Lemma evolves_answered {A} (r : answer A) : evolves safe R (answered r).
Proof. destruct r; [apply evolves_raise|apply evolves_mret]. Qed.
Lemma evolves_forEach {A} (l : list A) body : (forall a, evolves safe R (body a)) -> evolves safe R (forEach l body).
Proof. intros Hb. induction l as [|a l IH]; [apply evolves_mret|]. by apply evolves_bind. Qed.
Lemma evolves_foldEach {A B} (body : B -> A -> proto T B) l b : (forall b a, evolves safe R (body b a)) -> evolves safe R (foldEach body l b).
Proof. intros Hb. revert b. induction l as [|a l IH]; intros b; [apply evolves_mret|]. by apply evolves_bind. Qed.
Lemma evolves_mapEach {A B} (body : A -> proto T B) l : (forall a, evolves safe R (body a)) -> evolves safe R (mapEach body l).
Proof.
  intros Hb. induction l as [|a l IH]; [apply evolves_mret|]. apply evolves_bind; [done|]. intros b.
  apply evolves_bind; [done|]. intros bs. apply evolves_mret.
Qed.
Lemma evolves_deferring {A} (c : proto T A) after : evolves safe R c -> evolves safe R after -> evolves safe R (deferring c after).
Proof.
  intros Hc Ha. apply evolves_bind; [by apply evolves_attempt|]. intros r. apply evolves_bind; [done|]. intros _.
  destruct r; [apply evolves_raise|apply evolves_mret].
Qed.
End Rules.
Lemma evolves_nonNil (R : relation (callState T)) `{!PreOrder R} {A} (o : option A) : evolves false R (nonNil o).
Proof. intros w. split; [|done]. destruct o; simpl; reflexivity. Qed.
Lemma evolves_weaken (R R' : relation (callState T)) safe {A} (c : proto T A) : (forall w w', R w w' -> R' w w') -> evolves true R c -> evolves safe R' c.
Proof. intros HR Hc w. destruct (Hc w) as [H1 H2]. eauto. Qed.

(** ** What is kept of the record *)
(** The barriers of time, the bundles published and the snapshots committed. *)
Definition isMark (e : effectOf T) : bool :=
  match e with ReservedTime _ | ReleasedTime _ | PublishedBundle _ _ _ | CommittedSnapshot _ _ => true | _ => false end.
Definition marks (w : callState T) : list (effectOf T) := filter isMark (trace w).
Definition still (w w' : callState T) : Prop := mgr w' = mgr w /\ marks w' = marks w.
#[export] Instance still_preorder : PreOrder still.
Proof. split; [by intros w|]. intros a b c [H1 H2] [H3 H4]. split; congruence. Qed.
Lemma calm_emit safe (e : effectOf T) : isMark e = false -> evolves safe still (emit e).
Proof.
  intros He w. split; [|tauto]. split; [done|]. unfold marks. simpl. rewrite filter_app, filter_cons_False by (rewrite He; simpl; tauto). by rewrite app_nil_r.
Qed.
Lemma marks_emit (e : effectOf T) (w : callState T) : isMark e = true -> marks (Call (mgr w) (trace w ++ [e])) = marks w ++ [e].
Proof. intros He. unfold marks. simpl. rewrite filter_app, filter_cons_True by (by rewrite He). done. Qed.
End Evolves.

(** ** Calls from a view *)
Section View.
Context {T : Type}.
Record view := View { vm : ManagerOf T; vt : list (effectOf T) }.
Definition viewOf (w : callState T) : view := View (mgr w) (marks w).
(** The view once [es] was done. *)
Definition after (es : list (effectOf T)) (v : view) : view := View (vm v) (vt v ++ es).
Definition vp {A} (c : proto T A) (Q : outcome save_error A -> view -> Prop) (v : view) : Prop :=
  forall w, viewOf w = v -> Q (c w).1 (viewOf (c w).2).
Implicit Types (A B : Type) (v : view).
Lemma vp_conseq {A} (c : proto T A) (Q Q' : outcome save_error A -> view -> Prop) v : vp c Q v -> (forall r v', Q r v' -> Q' r v') -> vp c Q' v.
Proof. intros H HQ w Hw. apply HQ, H, Hw. Qed.
Lemma vp_bind {A B} (c : proto T A) (f : A -> proto T B) Q v :
  vp c (fun r v' => match r with Ret a => vp (f a) Q v' | Fail e => Q (Fail e) v' | Panic s => Q (Panic s) v' end) v -> vp (c ≫= f) Q v.
Proof.
  intros H w Hw. specialize (H w Hw). unfold mbind, proto_bind. destruct (c w) as [[a|e|s] w']; simpl in *; [|done..]. by apply H.
Qed.
Lemma vp_attempt {A} (c : proto T A) Q v :
  vp c (fun r v' => match r with Ret a => Q (Ret (inr a)) v' | Fail e => Q (Ret (inl e)) v' | Panic s => Q (Panic s) v' end) v -> vp (attempt c) Q v.
Proof. intros H w Hw. specialize (H w Hw). unfold attempt. by destruct (c w) as [[a|e|s] w']. Qed.
Lemma vp_mret {A} (a : A) (Q : outcome save_error A -> view -> Prop) v : Q (Ret a) v -> vp (mret a) Q v.
Proof. by intros HQ w <-. Qed.
Lemma vp_raise {A} e (Q : outcome save_error A -> view -> Prop) v : Q (Fail e) v -> vp (raise e) Q v.
Proof. by intros HQ w <-. Qed.
Lemma vp_getManager (Q : outcome save_error (ManagerOf T) -> view -> Prop) v : Q (Ret (vm v)) v -> vp getManager Q v.
Proof. by intros HQ w <-. Qed.
Lemma vp_change f (Q : outcome save_error () -> view -> Prop) v : Q (Ret ()) (View (f (vm v)) (vt v)) -> vp (change f) Q v.
Proof. by intros HQ w <-. Qed.
Lemma vp_mark e (Q : outcome save_error () -> view -> Prop) v : isMark e = true -> Q (Ret ()) (View (vm v) (vt v ++ [e])) -> vp (emit e) Q v.
Proof. intros He HQ w <-. unfold viewOf. simpl in *. by rewrite marks_emit. Qed.
Lemma after_nil v : after [] v = v.
Proof. unfold after. rewrite app_nil_r. by destruct v. Qed.
Lemma after_app es es' v : after es' (after es v) = after (es ++ es') v.
Proof. unfold after. simpl. by rewrite app_assoc. Qed.
Lemma vp_guard b e (Q : outcome save_error () -> view -> Prop) v : (b = true -> Q (Ret ()) v) -> (b = false -> Q (Fail e) v) -> vp (guard_ b e) Q v.
Proof. intros H1 H2 w <-. destruct b; [by apply H1|by apply H2]. Qed.
Lemma vp_returning e (Q : outcome save_error () -> view -> Prop) v : (e = None -> Q (Ret ()) v) -> (forall e', e = Some e' -> Q (Fail e') v) -> vp (returning e) Q v.
Proof. intros H1 H2 w <-. destruct e; [by apply H2|by apply H1]. Qed.
Lemma vp_nonNil {A} (o : option A) (Q : outcome save_error A -> view -> Prop) v : is_Some o -> (forall a, o = Some a -> Q (Ret a) v) -> vp (nonNil o) Q v.
Proof. intros [a ->] HQ. apply vp_mret. by apply HQ. Qed.
Lemma vp_ask {A} (port : portOf T A) (Q : outcome save_error A -> view -> Prop) v : (forall a, Q (Ret a) v) -> vp (ask port) Q v.
Proof. intros HQ w <-. apply HQ. Qed.
Lemma vp_calm {A} (c : proto T A) (Q : outcome save_error A -> view -> Prop) v :
  evolves true still c -> (forall a, Q (Ret a) v) -> (forall e, Q (Fail e) v) -> vp c Q v.
Proof.
  intros Hc H1 H2 w <-. destruct (Hc w) as [[Hm Ht] Hp]. unfold viewOf. rewrite Hm, Ht.
  destruct (c w) as [[a|e|s] w']; simpl in *; [done|done|tauto].
Qed.
Lemma vp_quiet {A} (c : proto T A) (Q : outcome save_error A -> view -> Prop) v : evolves false still c -> (forall r, Q r v) -> vp c Q v.
Proof. intros Hc HQ w <-. destruct (Hc w) as [[Hm Ht] Hp]. unfold viewOf. rewrite Hm, Ht. apply HQ. Qed.
(** [total c]: the call returns, without an error. *)
Definition total {A} (c : proto T A) : Prop := forall w, exists a, (c w).1 = Ret a.
Lemma total_bind {A B} (c : proto T A) (f : A -> proto T B) : total c -> (forall a, total (f a)) -> total (c ≫= f).
Proof. intros Hc Hf w. unfold mbind, proto_bind. destruct (Hc w) as (a & Ha). destruct (c w) as [r w']; simpl in *; subst r. apply Hf. Qed.
Lemma total_mret {A} (a : A) : total (mret a).
Proof. intros w. by exists a. Qed.
Lemma total_ask {A} (port : portOf T A) : total (ask port).
Proof. intros w. by eexists. Qed.
Lemma total_emit e : total (emit e).
Proof. intros w. by eexists. Qed.
Lemma total_foldEach {A B} (body : B -> A -> proto T B) l b : (forall b a, total (body b a)) -> total (foldEach body l b).
Proof. intros Hb. revert b. induction l as [|a l IH]; intros b; [apply total_mret|]. by apply total_bind. Qed.
Lemma total_attempt (R : relation (callState T)) {A} (c : proto T A) : evolves true R c -> total (attempt c).
Proof. intros Hc w. unfold attempt. destruct (Hc w) as [_ Hp]. destruct (c w) as [[a|e|s] w']; simpl in *; [by eexists..|tauto]. Qed.
Lemma vp_total {A} (c : proto T A) (Q : outcome save_error A -> view -> Prop) v : evolves true still c -> total c -> (forall a, Q (Ret a) v) -> vp c Q v.
Proof.
  intros Hc Ht HQ w <-. destruct (Hc w) as [[Hm Hl] _]. destruct (Ht w) as (a & ->). unfold viewOf. by rewrite Hm, Hl.
Qed.
Lemma vp_deferring {A} (c : proto T A) after Q v : evolves true still after -> total after -> vp c Q v -> vp (deferring c after) Q v.
Proof.
  intros Ha Ht Hc. apply vp_bind, vp_attempt. eapply vp_conseq; [exact Hc|]. simpl. intros r v' HQ. destruct r as [a|e|s]; [| |done].
  - apply vp_bind, vp_total; [done..|]. intros _. by apply vp_mret.
  - apply vp_bind, vp_total; [done..|]. intros _. by apply vp_raise.
Qed.
End View.
Arguments view : clear implicits.

Abbreviation calm := (evolves true still).
Abbreviation quiet := (evolves false still).
Lemma calm_quiet {T A} (c : proto T A) : calm c -> quiet c.
Proof. by apply evolves_weaken. Qed.

Create HintDb calls.
Create HintDb totals.
(** Takes a call apart; leaves what it does not know to the hints. *)
Ltac evolve :=
  repeat first
  [ progress cbv beta zeta
  | solve [auto with calls nocore]
  | solve [apply calm_quiet; auto with calls nocore]
  | apply evolves_bind; [apply _| |intros ?]
  | apply evolves_deferring; [apply _| |]
  | apply evolves_attempt | apply evolves_mret; apply _ | apply evolves_raise; apply _
  | apply evolves_ask; apply _ | apply evolves_getManager; apply _ | apply evolves_returning; apply _ | apply evolves_guard; apply _
  | apply evolves_answered; apply _ | apply evolves_nonNil; apply _
  | apply evolves_forEach; [apply _|intros ?] | apply evolves_foldEach; [apply _|intros ? ?] | apply evolves_mapEach; [apply _|intros ?]
  | match goal with
    | |- evolves _ _ (match ?x with _ => _ end) => destruct x
    | |- evolves _ _ (let '(_, _) := ?x in _) => destruct x
    end ].

(** Shows that a call is [total]. *)
Ltac totally :=
  repeat first
  [ progress cbv beta zeta
  | solve [auto with totals nocore]
  | apply total_bind; [|intros ?] | (eapply (total_attempt still); solve [evolve]) | apply total_mret | apply total_ask | apply total_emit | apply total_foldEach; intros ? ?
  | match goal with |- total (match ?x with _ => _ end) => destruct x end ].

(** * Save and restore: the steps that change neither the manager nor the marks *)
#[export] Hint Extern 1 (evolves _ still (emit _)) => (apply calm_emit; reflexivity) : calls.

Section Quiet.
Context {T : Type} `{LogicalTimeScalar T} `{EqDecision T} (opts : OptionsOf T).
Implicit Types (fed : FederationName) (h : FederateHandle) (mf : ManifestOf T).

(** Unfolds a step once and takes it apart. *)
Ltac quietly c := unfold c; evolve.

Lemma calm_ctxErr ctx : calm (ctxErr (T := T) ctx).
Proof. quietly @ctxErr. Qed.
Lemma calm_send fed h e : calm (send opts fed h e).
Proof. quietly @send. Qed.
Lemma calm_appendEvent fed k lbl : calm (appendEvent opts fed k lbl).
Proof. quietly @appendEvent. Qed.
Lemma calm_reserveDeliveries port fed ds : calm (reserveDeliveries (T := T) port fed ds).
Proof. quietly @reserveDeliveries. Qed.
Lemma calm_releaseDeliveries r : calm (releaseDeliveries (T := T) r).
Proof. quietly @releaseDeliveries. Qed.
Lemma calm_commitDeliveries r : calm (commitDeliveries opts r).
Proof. quietly @commitDeliveries. Qed.
Lemma calm_askMembers fed : calm (askMembers opts fed).
Proof. quietly @askMembers. Qed.
Lemma calm_currentMembers fed : calm (currentMembers opts fed).
Proof. quietly @currentMembers. Qed.
Lemma calm_resolveProvenance fed b : calm (resolveProvenance opts fed b).
Proof. quietly @resolveProvenance. Qed.
Lemma calm_timeImplementationFor fed : calm (timeImplementationFor opts fed).
Proof. quietly @timeImplementationFor. Qed.
Lemma calm_storeHistory k hist : calm (storeHistory opts k hist).
Proof. quietly @storeHistory. Qed.
Hint Resolve calm_ctxErr calm_send calm_appendEvent calm_reserveDeliveries calm_releaseDeliveries calm_commitDeliveries calm_askMembers
  calm_currentMembers calm_resolveProvenance calm_timeImplementationFor calm_storeHistory : calls.
Lemma calm_sendAll fed e l f : calm (sendAll opts fed e l f).
Proof. quietly @sendAll. Qed.
Hint Resolve calm_sendAll : calls.
Lemma calm_emitSaveOutcome fed lbl l r : calm (emitSaveOutcome opts fed lbl l r).
Proof. quietly @emitSaveOutcome. Qed.
Lemma calm_validateScheduledIdentity fed a : calm (validateScheduledIdentity opts fed a).
Proof. quietly @validateScheduledIdentity. Qed.
Lemma calm_writeBundlePart what data : calm (writeBundlePart opts what data).
Proof. quietly @writeBundlePart. Qed.
Hint Resolve calm_emitSaveOutcome calm_validateScheduledIdentity calm_writeBundlePart : calls.
Lemma calm_WriteBundle mf l : calm (WriteBundle opts mf l).
Proof. quietly @WriteBundle. Qed.
Hint Resolve calm_WriteBundle : calls.
Lemma calm_validateSaveAvailability ctx fed : calm (validateSaveAvailability opts ctx fed).
Proof. quietly @validateSaveAvailability. Qed.
Lemma calm_authorizeSaveRequest fed h at_ l : calm (authorizeSaveRequest opts fed h at_ l).
Proof. quietly @authorizeSaveRequest. Qed.
Lemma calm_replaceableSave fed : calm (replaceableSave (T := T) fed).
Proof. quietly @replaceableSave. Qed.
Lemma calm_reserveInitiation ctx fed a l : calm (reserveInitiation opts ctx fed a l).
Proof. quietly @reserveInitiation. Qed.
Hint Resolve calm_validateSaveAvailability calm_authorizeSaveRequest calm_replaceableSave calm_reserveInitiation : calls.

(** *** Steps without errors *)
Lemma total_send fed h e : total (send opts fed h e).
Proof. unfold send. totally. Qed.
Lemma total_appendEvent fed k lbl : total (appendEvent opts fed k lbl).
Proof. unfold appendEvent. totally. Qed.
Lemma total_askMembers fed : total (askMembers opts fed).
Proof. unfold askMembers. totally. Qed.
Lemma total_currentMembers fed : total (currentMembers opts fed).
Proof. unfold currentMembers. totally. Qed.
Lemma total_releaseDeliveries r : total (releaseDeliveries (T := T) r).
Proof. unfold releaseDeliveries. totally. Qed.
Hint Resolve total_send total_appendEvent : totals.
Lemma total_sendAll fed e l f : total (sendAll opts fed e l f).
Proof. unfold sendAll. totally. Qed.
Hint Resolve total_sendAll : totals.
Lemma total_emitSaveOutcome fed lbl l r : total (emitSaveOutcome opts fed lbl l r).
Proof. unfold emitSaveOutcome. totally. Qed.

(** *** Reports *)
Lemma calm_collectManagerSnapshots fed : calm (collectManagerSnapshots opts fed).
Proof. quietly @collectManagerSnapshots. Qed.
Lemma calm_collectModules fed l : calm (collectModules opts fed l).
Proof. quietly @collectModules. Qed.
Lemma calm_federatesColumn f fed l : calm (federatesColumn opts f fed l).
Proof. quietly @federatesColumn. Qed.
Lemma total_federatesColumn f fed l : total (federatesColumn opts f fed l).
Proof. unfold federatesColumn. totally. Qed.
Lemma calm_reserveSaveTerminal ctx fed lbl l : calm (reserveSaveTerminal opts ctx fed lbl l).
Proof. quietly @reserveSaveTerminal. Qed.
Lemma calm_publishSaveDecision fed lbl r : calm (publishSaveDecision opts fed lbl r).
Proof. quietly @publishSaveDecision. Qed.
Lemma calm_deliverLossOutcome fed ds : calm (deliverLossOutcome opts fed ds).
Proof. quietly @deliverLossOutcome. Qed.
Lemma calm_releasePlan l : calm (releasePlan (T := T) l).
Proof. quietly @releasePlan. Qed.
Hint Resolve calm_collectManagerSnapshots calm_collectModules calm_federatesColumn calm_reserveSaveTerminal calm_publishSaveDecision
  calm_deliverLossOutcome calm_releasePlan : calls.
Lemma calm_releaseRestore a : calm (releaseRestore (T := T) a).
Proof. quietly @releaseRestore. Qed.
Lemma calm_QueryFederationSaveStatus fed : calm (QueryFederationSaveStatus opts fed).
Proof. quietly @QueryFederationSaveStatus. Qed.

(** *** Sources and preparations *)
Lemma calm_validateRestoreTimeImplementation fed mf : calm (validateRestoreTimeImplementation opts fed mf).
Proof. quietly @validateRestoreTimeImplementation. Qed.
Lemma calm_validateSavedFOM mf : calm (validateSavedFOM opts mf).
Proof. quietly @validateSavedFOM. Qed.
Hint Resolve calm_validateRestoreTimeImplementation calm_validateSavedFOM calm_releaseRestore : calls.
Lemma calm_validateRestoreProvenance fed lbl g d mf : calm (validateRestoreProvenance opts fed lbl g d mf).
Proof. quietly @validateRestoreProvenance. Qed.
Lemma calm_restoreRetractionHints fed mf : calm (restoreRetractionHints opts fed mf).
Proof. quietly @restoreRetractionHints. Qed.
Lemma calm_resolveRestoreSourceGeneration fed lbl g s : calm (resolveRestoreSourceGeneration opts fed lbl g s).
Proof. quietly @resolveRestoreSourceGeneration. Qed.
Hint Resolve calm_validateRestoreProvenance calm_restoreRetractionHints calm_resolveRestoreSourceGeneration : calls.
Lemma readLenPrefix_no_panic r c : no_panic (readLenPrefix r c).
Proof. unfold readLenPrefix, ReadFull. by case_match. Qed.
Lemma ReadBundle_no_panic r : no_panic (ReadBundle opts r).
Proof.
  unfold ReadBundle, readManifest. apply bind_no_panic.
  - apply bind_no_panic; [apply readLenPrefix_no_panic|]. intros [n r1] _. case_match; [|done].
    apply bind_no_panic; [unfold ReadFull; by case_match|]. intros [bs r2] _. apply bind_no_panic; [by case_match|]. intros mf _. by case_match.
  - intros [mf r1] _. apply bind_no_panic; [|by intros []]. unfold readEventLog. apply bind_no_panic; [apply readLenPrefix_no_panic|].
    intros [n r2] _. repeat (case_match; try done). unfold ReadFull. by case_match.
Qed.
Lemma calm_readBundle r : calm (lift (T := T) (mapErr (fun e => errWraps "savepoint: read bundle" [e]) (ReadBundle opts r))).
Proof. apply evolves_lift; [apply _|]. apply mapErr_no_panic, ReadBundle_no_panic. Qed.
Lemma calm_matchParticipants mf cur n t l i s1 s2 : calm (lift (T := T) (matchParticipants opts mf cur n t l i s1 s2)).
Proof.
  apply evolves_lift; [apply _|]. revert i s1 s2. induction l as [|x l IH]; intros i s1 s2; [done|]. cbn [matchParticipants].
  apply bind_no_panic; [unfold restoreParticipant; by repeat case_match|]. intros p _. repeat case_match; try done.
  apply bind_no_panic; [apply IH|done].
Qed.
Hint Resolve calm_readBundle calm_matchParticipants : calls.
Lemma calm_loadRestoreSource fed lbl s : calm (loadRestoreSource opts fed lbl s).
Proof. quietly @loadRestoreSource. Qed.
Lemma calm_routeHandles fed mf : calm (routeHandles opts fed mf).
Proof. quietly @routeHandles. Qed.
Lemma calm_restoreRoster fed mf : calm (restoreRoster opts fed mf).
Proof. quietly @restoreRoster. Qed.
Lemma calm_transitionParticipants fed mf l ps : calm (transitionParticipants opts fed mf l ps).
Proof. quietly @transitionParticipants. Qed.
Hint Resolve calm_loadRestoreSource calm_routeHandles calm_restoreRoster calm_transitionParticipants : calls.
Lemma calm_restoreRouting fed mf : calm (restoreRouting opts fed mf).
Proof. quietly @restoreRouting. Qed.
Lemma calm_restoreParticipants fed mf : calm (restoreParticipants opts fed mf).
Proof. quietly @restoreParticipants. Qed.
Hint Resolve calm_restoreRouting calm_restoreParticipants : calls.
Lemma calm_validateCrossGenerationClients fed mf g l : calm (validateCrossGenerationClients opts fed mf g l).
Proof. quietly @validateCrossGenerationClients. Qed.
Hint Resolve calm_validateCrossGenerationClients : calls.
Lemma calm_validateCrossGenerationSource fed mf : calm (validateCrossGenerationSource opts fed mf).
Proof. quietly @validateCrossGenerationSource. Qed.
Lemma quiet_rebindClients fed g t mf hs l : quiet (rebindClients opts fed g t mf hs l).
Proof. quietly @rebindClients. Qed.
Hint Resolve calm_validateCrossGenerationSource quiet_rebindClients : calls.
Lemma quiet_rebindCrossGenerationClients fed g t s r hs : quiet (rebindCrossGenerationClients opts fed g t s r hs).
Proof. quietly @rebindCrossGenerationClients. Qed.
Lemma calm_prepared key c : calm (prepared (T := T) key c).
Proof. quietly @prepared. Qed.
Hint Resolve quiet_rebindCrossGenerationClients calm_prepared : calls.
Lemma calm_prepareLeased fed key data s port p : calm (prepareLeased (T := T) fed key data s port p).
Proof. quietly @prepareLeased. Qed.
Hint Resolve calm_prepareLeased : calls.
Lemma calm_prepareSnapshot fed key data b p : calm (prepareSnapshot opts fed key data b p).
Proof. quietly @prepareSnapshot. Qed.
Hint Resolve calm_prepareSnapshot : calls.
Lemma calm_prepareAll fed s keys p : calm (prepareAll opts fed s keys p).
Proof. revert p. induction keys as [|key keys IH]; intros p; cbn [prepareAll]; evolve. Qed.
Hint Resolve calm_prepareAll : calls.
Lemma calm_prepareCompleteManifest fed mf : calm (prepareCompleteManifest opts fed mf).
Proof. quietly @prepareCompleteManifest. Qed.
Lemma calm_applySnapshot fed x data : calm (applySnapshot (T := T) fed x data).
Proof. quietly @applySnapshot. Qed.
Hint Resolve calm_applySnapshot : calls.
Lemma calm_revertSnapshots fed l f : calm (revertSnapshots (T := T) fed l f).
Proof. revert f. induction l as [|x l IH]; intros f; cbn [revertSnapshots]; evolve. Qed.
Hint Resolve calm_revertSnapshots : calls.
Lemma calm_applyLegacySnapshots fed l applied : calm (applyLegacySnapshots (T := T) fed l applied).
Proof. revert applied. induction l as [|x l IH]; intros applied; cbn [applyLegacySnapshots]; evolve. Qed.
Lemma calm_planLegacy fed s keys p : calm (planLegacy opts fed s keys p).
Proof. quietly @planLegacy. Qed.

(** *** Restores *)
Lemma calm_requestRestoreFailed fed r lbl e : calm (requestRestoreFailed opts fed r lbl e).
Proof. quietly @requestRestoreFailed. Qed.
Lemma calm_restoreBegunRecipients fed ps : calm (restoreBegunRecipients opts fed ps).
Proof. quietly @restoreBegunRecipients. Qed.
Lemma calm_validateCompleteCommit fed mf : calm (validateCompleteCommit opts fed mf).
Proof. quietly @validateCompleteCommit. Qed.
Hint Resolve calm_validateCompleteCommit : calls.
Lemma calm_validateRestoreTarget fed a : calm (validateRestoreTarget opts fed a).
Proof. quietly @validateRestoreTarget. Qed.
Lemma calm_heldReservation what x : calm (heldReservation (T := T) what x).
Proof. quietly @heldReservation. Qed.
Hint Resolve calm_validateRestoreTarget calm_heldReservation : calls.
Lemma quiet_reserveRestoreTerminal ctx fed a l hs : quiet (reserveRestoreTerminal opts ctx fed a l hs).
Proof. quietly @reserveRestoreTerminal. Qed.
Hint Resolve quiet_reserveRestoreTerminal : calls.
Lemma quiet_reservePreparedRestoreTerminal ctx fed a l hs : quiet (reservePreparedRestoreTerminal opts ctx fed a l hs).
Proof. quietly @reservePreparedRestoreTerminal. Qed.
Hint Resolve quiet_reservePreparedRestoreTerminal : calls.
Lemma quiet_prepareRestoreCompletion ctx fed a l : quiet (prepareRestoreCompletion opts ctx fed a l).
Proof. quietly @prepareRestoreCompletion. Qed.
End Quiet.
#[export] Hint Resolve calm_ctxErr calm_send calm_appendEvent calm_reserveDeliveries calm_releaseDeliveries calm_commitDeliveries calm_askMembers
  calm_currentMembers calm_resolveProvenance calm_storeHistory calm_sendAll calm_emitSaveOutcome calm_validateScheduledIdentity
  calm_WriteBundle calm_validateSaveAvailability calm_authorizeSaveRequest calm_replaceableSave calm_reserveInitiation
  calm_collectManagerSnapshots calm_collectModules calm_federatesColumn calm_reserveSaveTerminal calm_publishSaveDecision calm_timeImplementationFor
  calm_deliverLossOutcome calm_releasePlan calm_releaseRestore calm_loadRestoreSource calm_routeHandles calm_restoreRouting calm_restoreParticipants
  calm_restoreRetractionHints calm_validateCrossGenerationSource quiet_rebindCrossGenerationClients calm_prepareCompleteManifest calm_applyLegacySnapshots calm_planLegacy
  calm_validateRestoreTarget calm_heldReservation calm_requestRestoreFailed calm_restoreBegunRecipients quiet_prepareRestoreCompletion : calls.
#[export] Hint Resolve total_send total_appendEvent total_askMembers total_currentMembers total_releaseDeliveries total_sendAll total_emitSaveOutcome
  total_federatesColumn : totals.
