(* ===== verification/SavEffect.v ===== *)
(** * Save and restore: what each service of the save protocol does

    A service leaves the manager in one of a few ways, whatever the ports
    answer: unchanged, with a save placed or advanced, or with the save of the
    federation ended ([endView]).  The relations below list them. *)
From stdpp Require Import gmap strings.
From Stdlib Require Import Strings.Byte.
From S2P Require Import Prelude GoBytes LogicalTime TimeScalar Fed Sav SavService SavReport SavRestore SavCalls.
Open Scope Z_scope.

(** Steps through what leaves the view alone. *)
Ltac vcalm := apply vp_calm; [solve [evolve]|..]; cbv beta iota.
Ltac vskip := apply vp_bind, vp_calm; [solve [evolve]|..]; cbv beta iota.
Ltac vtotal := apply vp_bind, vp_total; [solve [evolve]|solve [totally]|]; cbv beta iota.

Section Effect.
Context {T : Type} `{LogicalTimeScalar T} `{EqDecision T} (opts : OptionsOf T).
Implicit Types (fed : FederationName) (h : FederateHandle) (v : view T) (a : activeSaveOf T).

(** ** The end of a save *)
Definition resumedTime fed a (m : ManagerOf T) : ManagerOf T :=
  match releaseTime (progress a), ResumeTime opts with
  | Some _, Some _ => set_resumes m (<[fed := generation a]> (pendingResumes m))
  | _, _ => m
  end.
Definition released (a : option (activeSaveOf T)) : list (effectOf T) :=
  match a ← a; releaseTime (progress a) with Some r => [ReleasedTime r] | None => [] end.
Definition endView fed (lbl : string) (final : SaveState) v : view T :=
  let m := dropSave fed lbl final (vm v) in
  View (match saves (vm v) !! fed with Some a => resumedTime fed a m | None => m end) (vt v ++ released (saves (vm v) !! fed)).

Lemma vp_releaseBarrier r (Q : outcome save_error () -> view T -> Prop) v :
  Q (Ret ()) (View (vm v) (vt v ++ match r with Some r => [ReleasedTime r] | None => [] end)) -> vp (releaseBarrier r) Q v.
Proof.
  intros HQ. destruct r as [r|]; simpl; [by apply vp_mark|]. apply vp_mret. rewrite app_nil_r in HQ. by destruct v.
Qed.
Lemma vp_releaseSaveTime fed a (Q : outcome save_error () -> view T -> Prop) v :
  Q (Ret ()) (View (resumedTime fed a (vm v)) (vt v ++ released (Some a))) -> vp (releaseSaveTime opts fed (Some a)) Q v.
Proof.
  unfold resumedTime, released. simpl. intros HQ. destruct (releaseTime (progress a)) as [r|].
  - apply vp_bind, vp_mark; [done|]. destruct (ResumeTime opts); [by apply vp_change|by apply vp_mret].
  - apply vp_mret. rewrite app_nil_r in HQ. by destruct v.
Qed.
Lemma vp_finalizeSave fed lbl (failed : bool) (Q : outcome save_error () -> view T -> Prop) v :
  Q (Ret ()) (endView fed lbl (if failed then StateNotSaved else StateSaved) v) -> vp (finalizeSave opts fed lbl failed) Q v.
Proof.
  unfold endView. intros HQ. apply vp_bind, vp_getManager. apply vp_bind, vp_change.
  destruct (saves (vm v) !! fed) as [a|]; [by apply vp_releaseSaveTime|]. apply vp_mret. simpl in HQ. by rewrite app_nil_r in HQ.
Qed.
Lemma vp_endNotSaved fed a l reason cause (Q : outcome save_error () -> view T -> Prop) v :
  (forall e, Q (Fail e) (endView fed (label a) StateNotSaved v)) -> vp (endNotSaved opts fed a l reason cause) Q v.
Proof.
  intros HQ. apply vp_bind, vp_finalizeSave. vtotal. intros d. by apply vp_raise.
Qed.
Lemma vp_failScheduledSave fed a cause (Q : outcome save_error () -> view T -> Prop) v :
  (forall e, Q (Fail e) (endView fed (label a) StateNotSaved v)) -> vp (failScheduledSave opts fed a cause) Q v.
Proof. intros HQ. vtotal. intros live. by apply vp_endNotSaved. Qed.
Lemma vp_failParticipantInitiation fed a cause (Q : outcome save_error () -> view T -> Prop) v :
  (forall e, Q (Fail e) (endView fed (label a) StateNotSaved v)) -> vp (failParticipantInitiation opts fed a cause) Q v.
Proof. intros HQ. vtotal. intros live. by apply vp_endNotSaved. Qed.

(** ** Requests *)
(** What a reservation of time came to: the barrier of the save, held or none. *)
Inductive barrier_held (at_ : option T) : barrier -> list (effectOf T) -> Prop :=
| held_functions ready r : is_Some at_ -> barrier_held at_ (Barrier (Some ready) (Some r) None) [ReservedTime r]
| held_participants r : barrier_held at_ (Barrier None (Some r) (Some r)) [ReservedTime r]
| held_nothing : at_ = None -> barrier_held at_ (Barrier None None None) [].
(** A barrier that was reserved and given back at once. *)
Definition forfeited (es : list (effectOf T)) : Prop := es = [] \/ exists r, es = [ReservedTime r; ReleasedTime r].

Lemma vp_replaceableSave fed (Q : outcome save_error (option (activeSaveOf T)) -> view T -> Prop) v :
  (restore (vm v) !! fed = None ->
   (forall p, saves (vm v) !! fed = Some p -> waiting (progress p) = true /\ initiated (progress p) = ∅) -> Q (Ret (saves (vm v) !! fed)) v) ->
  (forall e, Q (Fail e) v) -> vp (replaceableSave fed) Q v.
Proof.
  intros HQ He. apply vp_bind, vp_getManager. apply vp_bind, vp_guard; [|done]. intros Hr%bool_decide_eq_true.
  destruct (saves (vm v) !! fed) as [p|] eqn:E; [|by apply vp_mret, HQ].
  apply vp_bind, vp_guard; [|done]. intros [Hw Hi%bool_decide_eq_true]%andb_true_iff. apply vp_mret, HQ; [done|]. by intros p' [= <-].
Qed.
Lemma vp_participantBarrier at_ r (Q : outcome save_error barrier -> view T -> Prop) v :
  (forall b es, barrier_held at_ b es -> Q (Ret b) (View (vm v) (vt v ++ es))) -> (forall e, Q (Fail e) v) -> vp (participantBarrier r) Q v.
Proof.
  intros HQ He. unfold participantBarrier. vskip; [|done]. intros [r'|]; [|by apply vp_raise].
  apply vp_bind, vp_mark; [done|]. apply vp_mret. apply HQ. constructor.
Qed.
Lemma vp_reserveSaveTime ctx fed t l (Q : outcome save_error (Z * Z) -> view T -> Prop) v :
  (forall ready r, Q (Ret (ready, r)) (View (vm v) (vt v ++ [ReservedTime r]))) ->
  (forall e es, forfeited es -> Q (Fail e) (View (vm v) (vt v ++ es))) -> vp (reserveSaveTime opts ctx fed t l) Q v.
Proof.
  intros HQ He. assert (Hv : forall e, Q (Fail e) v) by (intros e; specialize (He e [] ltac:(by left)); rewrite app_nil_r in He; by destruct v).
  unfold reserveSaveTime. vskip; [|done]. intros _. apply vp_bind, vp_guard; [|done]. intros _.
  destruct (ScheduledTime opts) as [schedule|]; [|by apply vp_raise]. destruct (Members opts); [|by apply vp_raise]. destruct l as [|x l]; [by apply vp_raise|].
  vtotal. intros [[ready rel] e]. destruct rel as [r|].
  - apply vp_bind, vp_mark; [done|].
    assert (Hf : forall e, vp (_ ← releaseBarrier (Some r); raise e) Q (View (vm v) (vt v ++ [ReservedTime r]))).
    { intros e'. apply vp_bind, vp_releaseBarrier, vp_raise. simpl. rewrite <- app_assoc. apply He. right. by exists r. }
    destruct e as [e|]; [done|]. destruct ready as [ready|]; [|done]. vtotal. intros [e|]; [done|by apply vp_mret].
  - apply vp_bind, vp_mret. assert (Hf : forall e, vp (_ ← releaseBarrier None; raise e) Q v) by (intros e'; by apply vp_bind, vp_mret, vp_raise).
    destruct e as [e|]; [done|]. by destruct ready.
Qed.
Lemma vp_reserveSaveTiming ctx fed at_ l replacing (Q : outcome save_error barrier -> view T -> Prop) v :
  (forall b es, barrier_held at_ b es -> Q (Ret b) (View (vm v) (vt v ++ es))) ->
  (forall e es, forfeited es -> Q (Fail e) (View (vm v) (vt v ++ es))) -> vp (reserveSaveTiming opts ctx fed at_ l replacing) Q v.
Proof.
  intros HQ He. assert (Hv : forall e, Q (Fail e) v) by (intros e; specialize (He e [] ltac:(by left)); rewrite app_nil_r in He; by destruct v).
  unfold reserveSaveTiming. destruct at_ as [t|].
  - destruct (PrepareScheduledTime opts); [vtotal; intros r; by apply (vp_participantBarrier (Some t))|].
    destruct replacing; [by apply vp_raise|]. apply vp_bind, vp_reserveSaveTime; [|done]. intros ready r. apply vp_mret. simpl.
    apply HQ. by constructor.
  - destruct (PrepareImmediateTime opts); [vtotal; intros r; by apply (vp_participantBarrier None)|].
    apply vp_mret. specialize (HQ (Barrier None None None) []). rewrite app_nil_r in HQ. destruct v. by apply HQ; constructor.
Qed.

(** A placed save. *)
Definition placeView fed a (previous : option (activeSaveOf T)) v : view T :=
  View (placeSave fed a (forgetCompleted fed previous (vm v))) (vt v ++ released previous).
Lemma vp_installSave fed a previous (Q : outcome save_error () -> view T -> Prop) v :
  Q (Ret ()) (placeView fed a previous v) -> vp (installSave fed a previous) Q v.
Proof.
  intros HQ. apply vp_bind. apply vp_total; [destruct (participantTime a); evolve|destruct (participantTime a); totally|]. intros _.
  apply vp_bind. unfold placeView, released in HQ. destruct previous as [p|]; simpl in *.
  - apply vp_releaseBarrier. simpl. by apply vp_change.
  - apply vp_mret, vp_change. by rewrite app_nil_r in HQ.
Qed.
Lemma vp_initiateSave fed a (Q : outcome save_error () -> view T -> Prop) v :
  Q (Ret ()) v -> (forall e, Q (Fail e) (endView fed (label a) StateNotSaved v)) -> vp (initiateSave opts fed a) Q v.
Proof.
  intros HQ He. unfold initiateSave. destruct (federates (progress a)) as [|x l] eqn:El.
  - vtotal. intros [e|]; [|by apply vp_mret]. apply vp_bind, vp_finalizeSave. by apply vp_raise.
  - generalize (x :: l) at 2 as l'. clear El. intros l'. generalize (x :: l) as k. clear x l. induction k as [|y k IH]; [by apply vp_mret|].
    cbn [forEach]. apply vp_bind. vtotal. intros [e|]; [by apply vp_endNotSaved|by apply vp_mret].
Qed.
Lemma vp_publishSaveInitiation fed a immediate (Q : outcome save_error () -> view T -> Prop) v :
  Q (Ret ()) v -> (forall e, Q (Fail e) (endView fed (label a) StateNotSaved v)) -> vp (publishSaveInitiation opts fed a immediate) Q v.
Proof.
  intros HQ He. vtotal. intros _. destruct (waiting (progress a)); [by apply vp_mret|]. destruct immediate as [r|]; [|by apply vp_initiateSave].
  apply vp_bind, vp_attempt. vcalm; [intros _; by apply vp_mret|]. intros e. vtotal. intros _. by apply vp_failParticipantInitiation.
Qed.

(** How a request may leave the manager: as it was, with the save placed, or
    with the placed save ended because its callbacks could not be published. *)
Inductive request_view fed (req : FederateHandle) (lbl : string) (at_ : option T) v : outcome save_error () -> view T -> Prop :=
| request_refused e es : forfeited es -> request_view fed req lbl at_ v (Fail e) (View (vm v) (vt v ++ es))
| request_placed b es members g a r v' :
    restore (vm v) !! fed = None ->
    (forall p, saves (vm v) !! fed = Some p -> waiting (progress p) = true /\ initiated (progress p) = ∅) ->
    barrier_held at_ b es -> a = newActiveSave opts (nextIdent (vm v)) req lbl at_ members b g ->
    v' = placeView fed a (saves (vm v) !! fed) (View (vm v) (vt v ++ es)) ->
    match r with Ret _ => True | Fail _ => False | Panic _ => False end -> request_view fed req lbl at_ v r v'
| request_ended b es members g a e v' :
    restore (vm v) !! fed = None ->
    (forall p, saves (vm v) !! fed = Some p -> waiting (progress p) = true /\ initiated (progress p) = ∅) ->
    barrier_held at_ b es -> a = newActiveSave opts (nextIdent (vm v)) req lbl at_ members b g ->
    v' = endView fed lbl StateNotSaved (placeView fed a (saves (vm v) !! fed) (View (vm v) (vt v ++ es))) ->
    request_view fed req lbl at_ v (Fail e) v'.

Lemma barrier_forfeit at_ b es : barrier_held at_ b es -> forfeited (es ++ match b_release b with Some r => [ReleasedTime r] | None => [] end).
Proof. intros []; [right; by eexists..|by left]. Qed.
Lemma vp_requestFederationSave ctx fed req lbl at_ aware v :
  vp (requestFederationSave opts ctx fed req lbl at_ aware) (request_view fed req lbl at_ v) v.
Proof.
  assert (Hv : forall e, request_view fed req lbl at_ v (Fail e) v).
  { intros e. pose proof (request_refused fed req lbl at_ v e [] ltac:(by left)) as Hr. rewrite app_nil_r in Hr. by destruct v. }
  unfold requestFederationSave. vskip; [|done]. intros _. vskip; [|done]. intros g. vtotal. intros members.
  vskip; [|done]. intros _. apply vp_bind, vp_replaceableSave; [|done]. intros Hr Hp.
  apply vp_bind, vp_reserveSaveTiming; [|by constructor]. intros b es Hb. vtotal. intros ctxe.
  assert (Hf : forall e, vp (_ ← releaseBarrier (b_release b); raise e) (request_view fed req lbl at_ v) (View (vm v) (vt v ++ es))).
  { intros e. apply vp_bind, vp_releaseBarrier, vp_raise. simpl. rewrite <- app_assoc. constructor. by eapply barrier_forfeit. }
  destruct ctxe as [e|]; [apply Hf|]. apply vp_bind, vp_getManager. simpl.
  set (a := newActiveSave opts (nextIdent (vm v)) req lbl at_ members b g).
  assert (Hi : forall imm, vp (_ ← installSave fed a (saves (vm v) !! fed); publishSaveInitiation opts fed a imm)
    (request_view fed req lbl at_ v) (View (vm v) (vt v ++ es))).
  { intros imm. apply vp_bind, vp_installSave. apply vp_publishSaveInitiation.
    - by eapply request_placed.
    - intros e. by eapply request_ended. }
  destruct (saves (vm v) !! fed) as [p|] eqn:Ep; [|apply Hi]. destruct at_ as [t|]; [apply Hi|].
  apply vp_bind, vp_attempt. vcalm; [|apply Hf]. intros r. apply vp_deferring; [evolve|totally|apply Hi].
Qed.

(** ** Reports *)
(** [FederateSaveBegun] changes its save, or refuses and changes nothing. *)
Definition mayBegin (m : ManagerOf T) fed h a : bool :=
  let p := progress a in
  bool_decide (restore m !! fed = None) && (saveParticipantStarted a h && negb (h =? InvalidFederateHandle)) && bool_decide (h ∉ begun p)
  && bool_decide (h ∉ complete p) && bool_decide (h ∉ notComp p) && (dynamic a || bool_decide (h ∈ required p)).
Lemma vp_FederateSaveBegun fed h (Q : outcome save_error () -> view T -> Prop) v :
  (forall a, saves (vm v) !! fed = Some a -> mayBegin (vm v) fed h a = true -> Q (Ret ()) (View (update_save fed (markBegun h a) (vm v)) (vt v))) ->
  ((forall a, saves (vm v) !! fed = Some a -> mayBegin (vm v) fed h a = false) -> forall e, Q (Fail e) v) -> vp (FederateSaveBegun fed h) Q v.
Proof.
  intros HQ He. unfold mayBegin in *. apply vp_bind, vp_getManager.
  destruct (saves (vm v) !! fed) as [a|]; [|apply vp_bind, vp_guard; intros _; [apply vp_raise|]; by apply He].
  specialize (HQ a eq_refl). assert (He' := fun Hb => He ltac:(intros ? [= <-]; exact Hb)). clear He. cbv zeta in *.
  repeat match goal with |- vp (_ ← guard_ ?b _; _) Q v =>
    destruct b; simpl in HQ, He'; apply vp_bind, vp_guard; intros Hb; try discriminate Hb; try (by apply He'); clear Hb; cbv beta iota end.
  apply vp_change. by apply HQ.
Qed.

Lemma vp_validateSaveReport fed (o : option (activeSaveOf T)) h (Q : outcome save_error () -> view T -> Prop) v :
  Q (Ret ()) v -> (forall b e, o = Some b -> is_Some (saveTime b) -> saveParticipantStarted b h = true -> Q (Fail e) (endView fed (label b) StateNotSaved v)) ->
  vp (validateSaveReport opts fed o h) Q v.
Proof.
  intros HQ He. unfold validateSaveReport. destruct o as [b|]; [|by apply vp_mret].
  destruct (bool_decide _ && _) eqn:Eb; [|by apply vp_mret]. apply andb_true_iff in Eb as [Ht%bool_decide_eq_true Hs].
  apply vp_bind, vp_attempt. vcalm; [intros _; by apply vp_mret|]. intros e. apply vp_failScheduledSave. intros e'. by apply He.
Qed.
(** A report of a participant that has begun. *)
Definition reportView fed h (ok : bool) (st : list byte) v : view T := View (update_save fed (markReport h ok st) (vm v)) (vt v).
Lemma vp_markFederateAndAggregate fed h ok st (Q : outcome save_error (option (activeSaveOf T * bool)) -> view T -> Prop) v :
  (forall e, Q (Fail e) v) ->
  (forall a, saves (vm v) !! fed = Some a -> restore (vm v) !! fed = None -> h ∈ begun (progress a) -> validateClientStateAdmission (progress a) st = None ->
   let p := markReport h ok st (progress a) in
   Q (Ret (if allRequiredResponded p then Some (set_progress a p, negb (bool_decide (notComp p = ∅))) else None)) (reportView fed h ok st v)) ->
  vp (markFederateAndAggregate fed h ok st) Q v.
Proof.
  intros He HQ. apply vp_bind, vp_getManager. apply vp_bind, vp_guard; [|done]. intros Hr%bool_decide_eq_true.
  destruct (saves (vm v) !! fed) as [a|]; [|by apply vp_raise]. apply vp_bind, vp_guard; [|done]. intros Hb%bool_decide_eq_true.
  apply vp_bind, vp_returning; [|done]. intros Hc. apply vp_bind, vp_change. apply vp_mret. by apply HQ.
Qed.

(** The last report: the save ends as saved, its history with it, or it ends
    as not saved. *)
Definition recordHistory a fed (m : ManagerOf T) : ManagerOf T := set_history m (<[historyKey fed (generation a) := savedHistory a]> (history m)).
Definition closedView fed a (saved : bool) v : view T :=
  if saved then endView fed (label a) StateSaved (View (recordHistory a fed (vm v)) (vt v)) else endView fed (label a) StateNotSaved v.

Definition failedView fed v : view T := View (update_save fed (fun p => set_state p StateNotSaved) (vm v)) (vt v).
Lemma endView_failed fed lbl final v : endView fed lbl final (failedView fed v) = endView fed lbl final v.
Proof.
  unfold endView, failedView, dropSave, update_save. simpl. rewrite delete_alter, decide_True by done. rewrite lookup_alter_eq.
  destruct (saves (vm v) !! fed) as [a|]; simpl; [|reflexivity]. unfold resumedTime, released. simpl. destruct (releaseTime _), (ResumeTime opts); reflexivity.
Qed.
Lemma endView_history fed lbl final hist v :
  endView fed lbl final (View (set_history (vm v) hist) (vt v)) = View (set_history (vm (endView fed lbl final v)) hist) (vt (endView fed lbl final v)).
Proof.
  unfold endView. simpl. destruct (saves (vm v) !! fed) as [a|]; [|reflexivity]. unfold resumedTime. destruct (releaseTime _), (ResumeTime opts); reflexivity.
Qed.
Lemma endView_twice fed lbl v :
  View (set_completed (vm (endView fed lbl StateSaved v)) (<[(fed, lbl) := StateNotSaved]> (completed (vm (endView fed lbl StateSaved v))))) (vt (endView fed lbl StateSaved v))
  = endView fed lbl StateNotSaved v.
Proof.
  unfold endView, dropSave. simpl. destruct (saves (vm v) !! fed) as [a|]; simpl.
  - unfold resumedTime. destruct (releaseTime _), (ResumeTime opts); simpl; by rewrite insert_insert_eq.
  - by rewrite insert_insert_eq.
Qed.
Lemma vp_commitSaveHistory key hist (Q : outcome save_error () -> view T -> Prop) v :
  Q (Ret ()) (View (set_history (vm v) (<[key := hist]> (history (vm v)))) (vt v)) -> (forall e, Q (Fail e) v) -> vp (commitSaveHistory opts key hist) Q v.
Proof.
  intros HQ He. unfold commitSaveHistory. apply vp_bind, vp_returning; [intros _|done]. destruct (LoadSaveHistory opts); [|by apply vp_change].
  apply vp_bind, vp_total; [evolve|unfold storeHistory; totally|]. intros [e|]; [|by apply vp_change].
  destruct (DiscardUncommittedSave opts); [|by apply vp_raise]. vtotal. intros c. vtotal. intros _. destruct c; by apply vp_raise.
Qed.
(** The manifest of the save [a], as it is published. *)
Definition bundleOf fed a (mf : ManifestOf T) : Prop :=
  exists snapshots timeImpl modules names types, mf = sealedManifest (with_eventLogBytes (saveManifest fed a snapshots timeImpl modules names types) 0) [].
Lemma vp_writeBundle fed lbl g mf (Q : outcome save_error () -> view T -> Prop) v :
  Q (Ret ()) (after [PublishedBundle fed g (sealedManifest (with_eventLogBytes mf 0) [])] v) -> (forall e, Q (Fail e) v) -> vp (writeBundle opts fed lbl g mf) Q v.
Proof.
  intros HQ He. unfold writeBundle. vskip; [intros _|done]. vskip; [intros _|done].
  vtotal. intros w. vskip; [intros _|done].
  apply vp_bind, vp_attempt. vcalm; [intros _|intros e; vtotal; intros _; by apply vp_raise].
  vtotal. intros [e|]; [by apply vp_raise|]. by apply vp_mark.
Qed.
Lemma vp_persistCompletedSave ctx fed a (Q : outcome save_error closing -> view T -> Prop) v :
  (forall c, cl_failed c = true -> Q (Ret c) v) -> (forall c, cl_failed c = true -> Q (Ret c) (failedView fed v)) ->
  (forall completion mf, bundleOf fed a mf -> Q (Ret (Closing false completion None)) (after [PublishedBundle fed (generation a) mf] v)) ->
  vp (persistCompletedSave opts ctx fed a) Q v.
Proof.
  intros HQ He Hp. unfold persistCompletedSave. apply vp_bind, vp_attempt. vcalm.
  2: { intros e. apply vp_bind, vp_change, vp_mret. by apply He. }
  intros [[snapshots timeImpl] modules]. apply vp_bind, vp_attempt. vcalm; [|intros e; by apply vp_mret, HQ]. intros completion.
  vtotal. intros names. vtotal. intros types. apply vp_bind, vp_attempt, vp_writeBundle; [apply vp_mret, Hp; unfold bundleOf; eauto 10|].
  intros e. apply vp_bind, vp_change, vp_mret. by apply He.
Qed.
Lemma vp_publishLegacySaveOutcome fed a reason (failed : bool) ce (Q : outcome save_error () -> view T -> Prop) v :
  (forall r, Q r (endView fed (label a) StateNotSaved v)) ->
  (failed = false -> forall r, Q r (closedView fed a true v)) ->
  vp (publishLegacySaveOutcome opts fed a reason failed ce) Q (endView fed (label a) (if failed then StateNotSaved else StateSaved) v).
Proof.
  intros HQ Hs. unfold publishLegacySaveOutcome. vtotal. intros d. apply vp_bind. destruct failed.
  - apply vp_mret. apply vp_quiet; [evolve|done].
  - destruct d as [e|].
    + apply vp_change. rewrite endView_twice. apply vp_quiet; [evolve|done].
    + apply vp_bind, vp_change. unfold closedView, recordHistory in Hs. rewrite endView_history in Hs.
      replace (history (vm (endView fed (label a) StateSaved v))) with (history (vm v)).
      2: { unfold endView. destruct (saves (vm v) !! fed); [|done]. unfold resumedTime. simpl. by destruct (releaseTime _), (ResumeTime opts). }
      apply vp_total; [destruct (OnSaveCompleted opts); evolve|destruct (OnSaveCompleted opts); totally|]. intros _.
      apply vp_quiet; [evolve|]. intros r. by apply Hs.
Qed.
(** What a save that is closed out has published. *)
Definition closing_marks fed a (reported saved : bool) (es : list (effectOf T)) : Prop :=
  (es = [] /\ saved = false) \/ (reported = false /\ exists mf, bundleOf fed a mf /\ es = [PublishedBundle fed (generation a) mf]).
Definition closed_out fed a (reported : bool) v (v' : view T) : Prop :=
  exists (saved : bool) es, closing_marks fed a reported saved es /\ v' = closedView fed a saved (after es v).
Lemma vp_failedOutcome fed a reason ce (Q : outcome save_error () -> view T -> Prop) v :
  (forall r, Q r (endView fed (label a) StateNotSaved v)) ->
  vp (_ ← finalizeSave opts fed (label a) true; publishLegacySaveOutcome opts fed a reason true ce) Q v.
Proof. intros HQ. apply vp_bind, vp_finalizeSave. by apply (vp_publishLegacySaveOutcome fed a reason true). Qed.
Lemma vp_decideSave_failed fed a reported completion ce (Q : outcome save_error () -> view T -> Prop) v :
  (forall r, Q r (endView fed (label a) StateNotSaved v)) -> vp (decideSave opts fed a reported (Closing true completion ce)) Q v.
Proof.
  intros HQ. unfold decideSave. simpl. apply vp_bind, vp_mret. destruct completion; simpl.
  - vtotal. intros _. by apply vp_failedOutcome.
  - apply vp_bind, vp_mret. by apply vp_failedOutcome.
Qed.
Lemma vp_decideSave_written fed a completion ce (Q : outcome save_error () -> view T -> Prop) v :
  (forall r saved, Q r (closedView fed a saved v)) -> vp (decideSave opts fed a false (Closing false completion ce)) Q v.
Proof.
  intros HQ. unfold decideSave. simpl. destruct completion as [r|].
  - apply vp_bind, vp_bind, vp_attempt, vp_commitSaveHistory.
    + apply vp_mret. simpl. apply vp_bind, vp_mret. apply vp_bind, vp_finalizeSave. apply vp_quiet; [apply calm_quiet; evolve|]. intros x. apply (HQ x true).
    + intros e. apply vp_mret. simpl. vtotal. intros _. apply vp_failedOutcome. intros x. apply (HQ x false).
  - apply vp_bind, vp_mret. simpl. apply vp_bind, vp_mret. apply vp_bind, vp_finalizeSave. apply (vp_publishLegacySaveOutcome fed a _ false).
    + intros x. apply (HQ x false).
    + intros _ x. apply (HQ x true).
Qed.
Lemma vp_closeOutSave ctx fed a (reported : bool) v : vp (closeOutSave opts ctx fed a reported) (fun _ v' => closed_out fed a reported v v') v.
Proof.
  assert (Hk : forall c v1 (Q : outcome save_error () -> view T -> Prop), vp (decideSave opts fed a reported c) Q v1 ->
    vp (match cl_completion c with Some r => deferring (decideSave opts fed a reported c) (releaseDeliveries r) | None => decideSave opts fed a reported c end) Q v1).
  { intros c v1 Q Hc. destruct (cl_completion c); [apply vp_deferring; [evolve|totally|done]|done]. }
  assert (Hno : forall c v1, cl_failed c = true -> endView fed (label a) StateNotSaved v1 = endView fed (label a) StateNotSaved v ->
    vp (match cl_completion c with Some r => deferring (decideSave opts fed a reported c) (releaseDeliveries r) | None => decideSave opts fed a reported c end)
      (fun _ v' => closed_out fed a reported v v') v1).
  { intros [failed completion ce] v1 Hf E. simpl in Hf. subst failed. apply Hk, vp_decideSave_failed. intros _. rewrite E.
    exists false, []. split; [by left|]. by rewrite after_nil. }
  unfold closeOutSave. apply vp_bind. destruct reported.
  - by apply vp_mret, Hno.
  - apply vp_persistCompletedSave; [intros c Hc; by apply Hno|intros c Hc; apply Hno; [done|apply endView_failed]|].
    intros completion mf Hmf. apply Hk, vp_decideSave_written. intros _ saved. exists saved, [PublishedBundle fed (generation a) mf].
    split; [right; eauto|done].
Qed.

(** How a report may leave the manager. *)
Inductive report_view fed h (ok : bool) (st : list byte) v : outcome save_error () -> view T -> Prop :=
| report_refused e : report_view fed h ok st v (Fail e) v
| report_broken a e :
    saves (vm v) !! fed = Some a -> is_Some (saveTime a) -> saveParticipantStarted a h = true ->
    report_view fed h ok st v (Fail e) (endView fed (label a) StateNotSaved v)
| report_counted a :
    saves (vm v) !! fed = Some a -> restore (vm v) !! fed = None -> h ∈ begun (progress a) -> validateClientStateAdmission (progress a) st = None ->
    allRequiredResponded (markReport h ok st (progress a)) = false ->
    report_view fed h ok st v (Ret ()) (reportView fed h ok st v)
| report_closed a r v' :
    saves (vm v) !! fed = Some a -> restore (vm v) !! fed = None -> h ∈ begun (progress a) -> validateClientStateAdmission (progress a) st = None ->
    let p := markReport h ok st (progress a) in
    allRequiredResponded p = true -> closed_out fed (set_progress a p) (negb (bool_decide (notComp p = ∅))) (reportView fed h ok st v) v' ->
    report_view fed h ok st v r v'.
Lemma vp_recordFederateSave ctx fed h ok st v : vp (recordFederateSave opts ctx fed h ok st) (report_view fed h ok st v) v.
Proof.
  unfold recordFederateSave. apply vp_bind, vp_getManager. apply vp_bind, vp_validateSaveReport.
  2: { intros b e Eb Ht Hs. by eapply report_broken. }
  apply vp_bind, vp_markFederateAndAggregate; [intros e; constructor|]. intros a Ha Hr Hb Hc. simpl.
  destruct (allRequiredResponded _) eqn:Ed; [|apply vp_mret; by eapply report_counted].
  eapply vp_conseq; [apply vp_closeOutSave|]. intros r v' Hv'. by eapply report_closed.
Qed.
End Effect.

(** * Save and restore: what progress, aborts, losses and restores do

    The other services, in the way of [SavEffect]: how each may leave the
    manager, whatever the ports answer. *)
Section ControlEffect.
Context {T : Type} `{LogicalTimeScalar T} `{EqDecision T} (opts : OptionsOf T).
Implicit Types (fed : FederationName) (h : FederateHandle) (v : view T) (a : activeSaveOf T).
Abbreviation endView := (endView opts).

(** ** Progress *)
(** What one step of a waiting save [a] may do. *)
Inductive progress_view fed a v : outcome save_error () -> view T -> Prop :=
| progress_same r : progress_view fed a v r v
| progress_ended e : progress_view fed a v (Fail e) (endView fed (label a) StateNotSaved v)
| progress_started l r v' :
    is_Some (participantTime a) -> l <> [] ->
    v' = View (settleSchedule fed (update_save fed (markInitiated l) (vm v))) (vt v) ->
    progress_view fed a v r v'
| progress_started_ended l e v' :
    is_Some (participantTime a) ->
    v' = endView fed (label a) StateNotSaved (View (settleSchedule fed (update_save fed (markInitiated l) (vm v))) (vt v)) ->
    progress_view fed a v (Fail e) v'
| progress_all r v' :
    participantTime a = None ->
    v' = View (settleSchedule fed (update_save fed (fun p => set_waiting p false) (vm v))) (vt v) ->
    progress_view fed a v r v'
| progress_all_ended e v' :
    participantTime a = None ->
    v' = endView fed (label a) StateNotSaved (View (settleSchedule fed (update_save fed (fun p => set_waiting p false) (vm v))) (vt v)) ->
    progress_view fed a v (Fail e) v'.
Lemma vp_progressParticipants ctx fed a r v : is_Some (participantTime a) -> vp (progressParticipants opts ctx fed a r) (progress_view fed a v) v.
Proof.
  intros Hpt. unfold progressParticipants. vtotal. intros [e|ready]; [apply vp_failScheduledSave; constructor|].
  destruct (filter _ ready) as [|x l] eqn:El; [apply vp_mret; constructor|]. rewrite <- El. assert (Hne : filter (fun h => h ∉ initiated (progress a)) ready <> []) by (by rewrite El).
  vtotal. intros [e|]; [apply vp_failScheduledSave; constructor|]. vtotal. intros _. apply vp_bind, vp_attempt. vcalm.
  2: { intros e. apply vp_failParticipantInitiation. constructor. }
  intros rv. apply vp_deferring; [evolve|totally|]. apply vp_bind, vp_change, vp_bind, vp_attempt. vcalm.
  - intros _. apply vp_mret. by eapply progress_started.
  - intros e. vtotal. intros _. apply vp_failParticipantInitiation. intros e'. by eapply progress_started_ended.
Qed.
Inductive locked_view fed v : outcome save_error () -> view T -> Prop :=
| locked_same r : locked_view fed v r v
| locked_step a r v' :
    saves (vm v) !! fed = Some a -> pendingSchedules (vm v) !! fed = Some (ident a) -> waiting (progress a) = true ->
    progress_view fed a v r v' -> locked_view fed v r v'.
Lemma vp_progressLocked ctx fed v : vp (progressLocked opts ctx fed) (locked_view fed v) v.
Proof.
  unfold progressLocked. apply vp_bind, vp_getManager. destruct (pendingSchedules (vm v) !! fed) as [id|] eqn:Ep; [|apply vp_mret; constructor].
  destruct (saves (vm v) !! fed) as [a|] eqn:Ea; [|apply vp_mret; constructor].
  destruct (_ || _) eqn:Eb; [apply vp_mret; constructor|]. apply orb_false_iff in Eb as [Ei%negb_false_iff%bool_decide_eq_true Ew%negb_false_iff]. subst id.
  assert (Hs : forall r v', progress_view fed a v r v' -> locked_view fed v r v') by (intros; by eapply locked_step).
  vskip; [|constructor]. intros _. apply vp_bind, vp_attempt. vcalm; [intros _|intros e; apply vp_failScheduledSave; intros; apply Hs; constructor].
  apply vp_bind, vp_total; [destruct (Halted opts); evolve|destruct (Halted opts); totally|]. intros stopped.
  destruct stopped; [apply vp_failScheduledSave; intros; apply Hs; constructor|].
  destruct (participantTime a) as [r|] eqn:Ept; [eapply vp_conseq; [by apply vp_progressParticipants; rewrite Ept|done]|].
  apply vp_bind. destruct (timeReady a) as [t|]; [|intros w <-; by constructor]. apply vp_mret. vtotal. intros [e|[]].
  - apply vp_failScheduledSave. intros. apply Hs. constructor.
  - apply vp_bind, vp_change. apply vp_initiateSave; [apply Hs; by eapply progress_all|]. intros e. apply Hs. by eapply progress_all_ended.
  - apply vp_mret. constructor.
Qed.
Definition forgottenResume fed (m : ManagerOf T) : ManagerOf T := set_resumes m (delete fed (pendingResumes m)).
Lemma vp_resumeSaveTime fed (Q : outcome save_error () -> view T -> Prop) v :
  (forall r, Q r v) -> (forall r, Q r (View (forgottenResume fed (vm v)) (vt v))) -> vp (resumeSaveTime opts fed) Q v.
Proof.
  intros HQ He. unfold resumeSaveTime. apply vp_bind, vp_getManager. destruct (pendingResumes (vm v) !! fed) as [g|]; [|by apply vp_mret].
  destruct (_ || _); [by apply vp_mret|]. apply vp_bind, vp_attempt. vcalm; [|intros e; by apply vp_bind, vp_change, vp_raise].
  intros [live d]. destruct (negb _); [by apply vp_change|]. apply vp_bind. destruct (ResumeTime opts) as [resume|]; [|intros w <-; apply HQ].
  apply vp_mret. vtotal. intros e. vtotal. intros _. apply vp_bind, vp_returning; [|done]. intros _. by apply vp_change.
Qed.
Lemma vp_ProgressScheduledSave ctx fed v :
  vp (ProgressScheduledSave opts ctx fed) (fun _ v' => exists r1 v1, locked_view fed v r1 v1 /\ (v' = v1 \/ v' = View (forgottenResume fed (vm v1)) (vt v1))) v.
Proof.
  unfold ProgressScheduledSave. apply vp_bind, vp_getManager.
  destruct (HasPendingScheduledSave _ _); [|apply vp_mret; exists (Ret ()), v; split; [constructor|by left]].
  apply vp_bind, vp_attempt. eapply vp_conseq; [apply vp_progressLocked|]. simpl. intros r v1 Hv1.
  assert (Hk : forall x : option save_error, vp (s ← attempt (resumeSaveTime opts fed); returning (errors_Join [x; failureOf s]))
    (fun _ v' => exists r1 v1, locked_view fed v r1 v1 /\ (v' = v1 \/ v' = View (forgottenResume fed (vm v1)) (vt v1))) v1).
  { intros x. apply vp_bind, vp_attempt. apply vp_resumeSaveTime; intros r'; destruct r'; try (apply vp_quiet; [evolve|intros _]); eauto 6. }
  destruct r as [[]|e|s]; [apply (Hk None)|apply (Hk (Some e))|]. exists (Panic s), v1. split; [done|by left].
Qed.

(** ** Aborts, losses and destruction *)
Lemma vp_AbortSave fed (Q : outcome save_error () -> view T -> Prop) v :
  (saves (vm v) !! fed = None -> Q (Fail ErrSaveNotInProgress) v) ->
  (forall a r, saves (vm v) !! fed = Some a -> Q r (endView fed (label a) StateNotSaved v)) -> vp (AbortSave opts fed) Q v.
Proof.
  intros Hn HQ. apply vp_bind, vp_getManager. destruct (saves (vm v) !! fed) as [a|] eqn:Ea; [|by apply vp_raise, Hn].
  apply vp_bind, vp_change. apply vp_bind, vp_releaseSaveTime. vtotal. intros d. apply vp_quiet; [evolve|]. intros r.
  specialize (HQ a r eq_refl). unfold SavEffect.endView in HQ. by rewrite Ea in HQ.
Qed.
Lemma vp_FederateLost fed lost reports v :
  vp (FederateLost opts fed lost reports) (fun r v' => v' = v \/ exists a, saves (vm v) !! fed = Some a /\ lost ∈ required (progress a) /\ r = Ret () /\
    v' = endView fed (label a) StateNotSaved v) v.
Proof.
  unfold FederateLost. apply vp_bind, vp_getManager. vtotal. intros live. vskip; [|by left]. intros r.
  set (o := match saves (vm v) !! fed with Some a => if bool_decide (lost ∈ required (progress a)) then Some a else None | None => None end).
  assert (Ho : forall a, o = Some a -> saves (vm v) !! fed = Some a /\ lost ∈ required (progress a)).
  { unfold o. intros a. destruct (saves (vm v) !! fed) as [b|]; [|done]. case_bool_decide; [|done]. by intros [= ->]. }
  assert (Hrest : vp (match o with Some a => _ ← finalizeSave opts fed (label a) true; appendEvent opts fed evtFederationNotSaved (label a) | None => mret () end)
    (fun r v' => v' = v \/ exists a, saves (vm v) !! fed = Some a /\ lost ∈ required (progress a) /\ r = Ret () /\ v' = endView fed (label a) StateNotSaved v) v).
  { destruct o as [a|]; [|apply vp_mret; by left]. destruct (Ho a eq_refl) as [Ha Hl]. apply vp_bind, vp_finalizeSave.
    apply vp_total; [evolve|totally|]. intros []. right. eauto. }
  destruct r as [rv|]; [|exact Hrest]. apply vp_deferring; [evolve|totally|exact Hrest].
Qed.
Definition destroyedView fed v : view T :=
  View (forgottenResume fed (forgetFederation fed (vm v))) (vt v ++ released (saves (vm v) !! fed)).
Lemma forEach_total {A} (l : list A) (body : A -> proto T ()) : (forall x, total (body x)) -> total (forEach l body).
Proof. intros Hb. induction l as [|x l IH]; [apply total_mret|]. by apply total_bind. Qed.
Lemma vp_OnFederationDestroyed fed v : vp (OnFederationDestroyed opts fed) (fun r v' => r = Ret () /\ v' = destroyedView fed v) v.
Proof.
  unfold OnFederationDestroyed. apply vp_bind, vp_getManager. apply vp_bind, vp_change.
  assert (Hk : forall m', set_resumes m' (delete fed (pendingResumes m')) = forgottenResume fed (forgetFederation fed (vm v)) ->
    vp (_ ← forgetResume fed; releaseRestore (restore (vm v) !! fed)) (fun r v' => r = Ret () /\ v' = destroyedView fed v) (View m' (vt v ++ released (saves (vm v) !! fed)))).
  { intros m' E. apply vp_bind, vp_change. simpl. apply vp_total; [evolve| |intros []; by rewrite E].
    unfold releaseRestore, releasePlan. destruct (_ ≫= _); [|totally]. apply forEach_total. intros. totally. }
  apply vp_bind. destruct (saves (vm v) !! fed) as [a|] eqn:Ea.
  - apply vp_releaseSaveTime. apply Hk. unfold resumedTime, forgottenResume. simpl. destruct (releaseTime _), (ResumeTime opts); try done.
    simpl. by rewrite delete_insert_eq.
  - apply vp_mret. specialize (Hk (forgetFederation fed (vm v)) eq_refl). simpl in *. by rewrite app_nil_r in Hk.
Qed.
End ControlEffect.
