(* ===== verification/SavWorld.v ===== *)
(** * Save and restore: restores and histories of requests

    What the services of the restore protocol leave behind, and the requests a
    coordinator serves ([request], [perform], [serveAll]): each leaves the
    manager in one of the ways [step_view] lists. *)
From stdpp Require Import gmap strings.
From Stdlib Require Import Strings.Byte.
From S2P Require Import Prelude GoBytes LogicalTime TimeScalar Fed Sav SavService SavReport SavRestore SavCalls SavEffect.
Open Scope Z_scope.

Section RestoreEffect.
Context {T : Type} `{LogicalTimeScalar T} `{EqDecision T} (opts : OptionsOf T).
Implicit Types (fed : FederationName) (h : FederateHandle) (v : view T) (a : activeRestoreOf T).

(** The view with [a] as the restore of [fed]. *)
Definition restoringView fed a v : view T := View (set_restore (vm v) (<[fed := a]> (restore (vm v)))) (vt v).
Definition droppedView fed (lbl : string) (final : RestoreState) v : view T := View (dropRestore fed lbl final (vm v)) (vt v).
Lemma update_restoring fed f a v : update_restore fed f (vm (restoringView fed a v)) = vm (restoringView fed (f a) v).
Proof. unfold update_restore, restoringView, set_restore. simpl. by rewrite alter_insert_eq. Qed.
Lemma restoring_lookup fed a v : restore (vm (restoringView fed a v)) !! fed = Some a.
Proof. simpl. apply lookup_insert_eq. Qed.
Lemma vp_update_restore fed f a (Q : outcome save_error () -> view T -> Prop) v :
  Q (Ret ()) (restoringView fed (f a) v) -> vp (change (update_restore fed f)) Q (restoringView fed a v).
Proof. intros HQ. apply vp_change. by rewrite update_restoring. Qed.

(** ** Commits of snapshots *)
Definition committedBy (l : list preparedCommit) : list (effectOf T) := (fun c => CommittedSnapshot (pc_key c) (pc_commit c)) <$> l.
Lemma vp_runCommits l (Q : outcome save_error () -> view T -> Prop) v :
  Q (Ret ()) (after (committedBy l) v) -> (forall k e, k `prefix_of` l -> Q (Fail e) (after (committedBy k) v)) -> vp (runCommits opts l) Q v.
Proof.
  revert v. unfold runCommits. induction l as [|c l IH]; intros v HQ He; [apply vp_mret; by rewrite <- (after_nil v)|]. cbn [forEach].
  assert (Hs : forall k, after (committedBy (c :: k)) v = after (committedBy k) (after (committedBy [c]) v)) by (intros k; by rewrite after_app).
  apply vp_bind. unfold runCommit. apply vp_bind.
  apply vp_total; [destruct (ManagerSnapshots opts !! _); [destruct (pc_fallible c)|]; evolve|destruct (ManagerSnapshots opts !! _); [destruct (pc_fallible c)|]; totally|].
  intros [e|]; apply vp_bind, vp_mark; try done.
  - apply vp_raise. apply (He [c]). by exists l.
  - apply vp_mret. apply IH; [by rewrite Hs in HQ|]. intros k e Hk. specialize (He (c :: k) e). rewrite Hs in He. by apply He, prefix_cons.
Qed.
(** What is committed while a request is prepared: nothing, unless snapshots are
    applied one at a time. *)
Definition imported (es : list (effectOf T)) : Prop := Forall (fun e => exists key c, e = CommittedSnapshot key c) es /\ (strict opts = true -> es = []).
Lemma imported_nil : imported [].
Proof. by split. Qed.
Lemma imported_commits l : strict opts = false -> imported (committedBy l).
Proof. intros Hs. split; [|by rewrite Hs]. apply Forall_fmap, Forall_true. intros c. simpl. eauto. Qed.
Lemma vp_applyManagerSnapshots fed s (Q : outcome save_error () -> view T -> Prop) v : strict opts = false ->
  (forall es, imported es -> Q (Ret ()) (after es v)) -> (forall es e, imported es -> Q (Fail e) (after es v)) -> vp (applyManagerSnapshots opts fed s) Q v.
Proof.
  intros Hs HQ He. assert (Hv : forall e, Q (Fail e) v) by (intros e; rewrite <- (after_nil v); apply He, imported_nil).
  unfold applyManagerSnapshots. case_bool_decide; [apply vp_mret; rewrite <- (after_nil v); apply HQ, imported_nil|].
  vskip; [|done]. intros plan. vskip; [|done]. intros _. apply vp_runCommits; [by apply HQ, imported_commits|]. intros k e _. by apply He, imported_commits.
Qed.

(** ** Translation to another execution *)
Lemma vp_validateCrossGenerationClients fed mf g l (Q : outcome save_error () -> view T -> Prop) v :
  (Forall (fun x : FederateHandle * list byte => x.2 <> [] -> is_Some (RebindClientState opts)) l -> Q (Ret ()) v) -> (forall e, Q (Fail e) v) ->
  vp (validateCrossGenerationClients opts fed mf g l) Q v.
Proof.
  intros HQ He. unfold validateCrossGenerationClients. revert HQ. induction l as [|[saved st] l IH]; intros HQ; [by apply vp_mret, HQ|]. cbn [forEach].
  apply vp_bind. simpl. case_bool_decide as Est.
  - apply vp_mret. apply IH. intros Hl. apply HQ. constructor; [done|exact Hl].
  - destruct (ValidateClientState opts) as [validate|]; [|by apply vp_raise]. destruct (RebindClientState opts) as [rebind|] eqn:Er; [|by apply vp_raise].
    vtotal. intros e. apply vp_returning; [|done]. intros _. apply IH. intros Hl. apply HQ. constructor; [eauto|exact Hl].
Qed.
Lemma vp_validateCrossGenerationSource fed mf (Q : outcome save_error Z -> view T -> Prop) v :
  (forall g, completeTranslation opts = true ->
     Forall (fun x : FederateHandle * list byte => x.2 <> [] -> is_Some (RebindClientState opts)) (zip (mf_Federates mf) (mf_FederateClientStates mf)) -> Q (Ret g) v) ->
  (forall e, Q (Fail e) v) -> vp (validateCrossGenerationSource opts fed mf) Q v.
Proof.
  intros HQ He. unfold validateCrossGenerationSource. vskip; [|done]. intros _. apply vp_bind, vp_guard; [|done]. intros Hc.
  apply vp_bind, vp_guard; [|done]. intros _. destruct (mf_FederationGeneration mf) as [g|]; [|by apply vp_raise].
  apply vp_bind, vp_guard; [|intros _; apply He]. intros _. vskip; [|done]. intros _. apply vp_bind, vp_validateCrossGenerationClients; [|done].
  intros Hl. by apply vp_mret, HQ.
Qed.
Lemma vp_rebindClients fed g t mf hs l (Q : outcome save_error (list (list byte)) -> view T -> Prop) v :
  Forall (fun x : (FederateHandle * FederateHandle) * (list byte * list byte) => x.2.1 <> [] -> is_Some (RebindClientState opts)) l ->
  (forall r, Q (Ret r) v) -> (forall e, Q (Fail e) v) -> vp (rebindClients opts fed g t mf hs l) Q v.
Proof.
  intros Hl HQ He. revert Q HQ He. unfold rebindClients. induction Hl as [|[[saved to] [st graph]] l Hx Hl IH]; intros Q HQ He; [by apply vp_mret|]. cbn [mapEach].
  simpl in Hx. apply vp_bind. case_bool_decide as Est; cbv beta iota.
  - apply vp_mret. cbv beta iota. apply vp_bind. apply IH; [|done]. intros r. by apply vp_mret.
  - apply vp_bind, vp_nonNil; [by apply Hx|]. intros rebind _. vtotal. intros r. vskip; [|done]. intros tr.
    apply vp_bind, vp_guard; [|done]. intros _. apply vp_mret. cbv beta iota. apply vp_bind. apply IH; [|done]. intros bs. by apply vp_mret.
Qed.
Lemma zip_client_states (fs gs : list FederateHandle) (sts graph : list (list byte)) (P : list byte -> Prop) :
  Forall (fun x : FederateHandle * list byte => P x.2) (zip fs sts) ->
  Forall (fun x : (FederateHandle * FederateHandle) * (list byte * list byte) => P x.2.1) (zip (zip fs gs) (zip sts graph)).
Proof.
  revert gs sts graph. induction fs as [|f fs IH]; intros [|g gs] [|st sts] [|gr graph] Hf; simpl; try constructor; inversion Hf; subst; [done|by apply IH].
Qed.
Lemma vp_prepareCrossGeneration fed target digest mf a (Q : outcome save_error (ManifestOf T) -> view T -> Prop) v :
  (forall r, Q (Ret r) (restoringView fed (with_target a target digest) v)) -> (forall e, Q (Fail e) (restoringView fed a v)) ->
  vp (prepareCrossGeneration opts fed target digest mf) Q (restoringView fed a v).
Proof.
  intros HQ He. unfold prepareCrossGeneration. apply vp_bind, vp_validateCrossGenerationSource; [|done]. intros g Hc Hl.
  unfold completeTranslation in Hc. rewrite !andb_true_iff in Hc. destruct Hc as [[[[Hrb%bool_decide_eq_true _] _] _] _].
  apply vp_bind, vp_nonNil; [done|]. intros rebind _. vtotal. intros r. vskip; [|done]. intros rebound. apply vp_bind, vp_guard; [|done]. intros _.
  destruct (crossGenerationHandles _ _ _ _) as [hs|]; [|by apply vp_raise]. apply vp_bind. unfold rebindCrossGenerationClients. apply vp_bind, vp_rebindClients; [|intros l|done].
  - by apply (zip_client_states _ _ _ _ (fun st => st <> [] -> is_Some (RebindClientState opts))).
  - apply vp_mret. vskip; [|done]. intros _. apply vp_bind, vp_update_restore. by apply vp_mret.
Qed.

(** ** Requests *)
(** The restore while its request is prepared: only its plan, participants and
    target have been filled in. *)
Definition loading (id : Z) (lbl : string) a : Prop :=
  r_ident a = id /\ r_label a = lbl /\ r_state a = RestoreLoading /\ r_required a = ∅ /\ r_complete a = ∅ /\ r_notComp a = ∅ /\ r_callbackEntered a = ∅ /\ postHandles a = ∅.
(** The bundle [mf] has been routed to [recipients]. *)
Definition routed mf (recipients : list FederateHandle) (routes : gmap FederateHandle FederateHandle) : Prop :=
  routeTable (zip recipients (mf_Federates (T := T) mf)) ∅ = Some routes /\ routes <> ∅.
Definition preparedView fed (lbl : string) a mf routes v : view T :=
  View (set_completedRestore (vm (restoringView fed (initiatedRestore mf routes a) v)) (<[(fed, lbl) := RestoreInitiated]> (completedRestore (vm v)))) (vt v).
Lemma vp_restoreRouting fed mf (Q : outcome save_error (list FederateHandle * gmap FederateHandle FederateHandle) -> view T -> Prop) v :
  (forall recipients routes, routed mf recipients routes -> Q (Ret (recipients, routes)) v) -> (forall e, Q (Fail e) v) ->
  vp (restoreRouting opts fed mf) Q v.
Proof.
  intros HQ He. unfold restoreRouting. vskip; [|done]. intros recipients. destruct (routeTable _ _) as [t|] eqn:Et; [|by apply vp_raise].
  case_bool_decide; [by apply vp_raise|]. apply vp_mret. by apply HQ.
Qed.
Definition planned (a : activeRestoreOf T) : Prop := strict opts = true -> is_Some (commit a) /\ is_Some (release a).
Lemma vp_fillParticipants fed id lbl mf a (Q : outcome save_error () -> view T -> Prop) v :
  loading id lbl a -> (forall b, loading id lbl b -> Q (Ret ()) (restoringView fed b v)) -> (forall e, Q (Fail e) (restoringView fed a v)) ->
  vp (fillParticipants opts fed mf) Q (restoringView fed a v).
Proof.
  intros Ha HQ He. unfold fillParticipants. destruct (strict opts); [|by apply vp_mret, HQ]. vskip; [|done]. intros ps. apply vp_update_restore. by apply HQ.
Qed.
Lemma vp_prepareBundle fed id lbl mf a (Q : outcome save_error () -> view T -> Prop) v :
  loading id lbl a -> (forall b es, loading id lbl b -> planned b -> imported es -> Q (Ret ()) (restoringView fed b (after es v))) ->
  (forall e es, imported es -> Q (Fail e) (restoringView fed a (after es v))) ->
  vp (prepareBundle opts fed mf) Q (restoringView fed a v).
Proof.
  intros Ha HQ He. apply vp_bind, vp_attempt. unfold planned in HQ.
  destruct (strict opts) eqn:Es; [|apply vp_applyManagerSnapshots; [done|intros es Hes..]; [by apply vp_mret, HQ|intros e Hi; by apply vp_raise, He]].
  specialize (fun b Hb Hp => HQ b [] Hb Hp imported_nil). specialize (fun e => He e [] imported_nil). rewrite after_nil in *.
  vskip; [|intros e; by apply vp_raise]. intros x. apply vp_update_restore. apply vp_mret. by apply HQ.
Qed.
Lemma vp_stageRestore fed id lbl mf a v : loading id lbl a ->
  vp (stageRestore opts fed lbl mf)
    (fun r v' => match r with
                 | Ret recipients => exists routes b es, loading id lbl b /\ planned b /\ imported es /\ routed mf recipients routes /\ v' = preparedView fed lbl b mf routes (after es v)
                 | Fail _ => exists b es, loading id lbl b /\ imported es /\ v' = restoringView fed b (after es v)
                 | Panic _ => False
                 end) (restoringView fed a v).
Proof.
  intros Ha. assert (Hf : forall b, loading id lbl b -> exists b' es, loading id lbl b' /\ imported es /\ restoringView fed b v = restoringView fed b' (after es v)).
  { intros b Hb. exists b, []. rewrite after_nil. split; [done|]. split; [apply imported_nil|done]. }
  vskip; [|intros e; eauto]. intros _. apply vp_bind, (vp_fillParticipants fed id lbl); [done| |intros e; eauto]. intros b Hb.
  apply vp_bind, vp_restoreRouting; [|intros e; eauto]. intros recipients routes Hr.
  apply vp_bind, (vp_prepareBundle fed id lbl); [done| |intros e es Hi; eauto]. intros c es Hc Hp Hi.
  apply vp_bind, vp_change, vp_mret. exists routes, c, es. rewrite update_restoring. done.
Qed.
Lemma vp_prepareRestore fed lbl saved id a v : loading id lbl a ->
  vp (prepareRestore opts fed lbl saved)
    (fun r v' => match r with
                 | Ret (recipients, _) => exists mf routes b es, loading id lbl b /\ planned b /\ imported es /\ routed mf recipients routes /\ v' = preparedView fed lbl b mf routes (after es v)
                 | Fail _ => exists b es, loading id lbl b /\ imported es /\ v' = restoringView fed b (after es v)
                 | Panic _ => False
                 end) (restoringView fed a v).
Proof.
  intros Ha. assert (Hf : forall b, loading id lbl b -> exists b' es, loading id lbl b' /\ imported es /\ restoringView fed b v = restoringView fed b' (after es v)).
  { intros b Hb. exists b, []. rewrite after_nil. split; [done|]. split; [apply imported_nil|done]. }
  unfold prepareRestore. vskip; [|intros e; eauto]. intros source.
  set (Q := fun r v' => match r with Ret (recipients, _) => _ | Fail _ => _ | Panic _ => False end).
  assert (Hk : forall mf b, loading id lbl b -> vp (recipients ← stageRestore opts fed lbl mf; mret (recipients, mf_Federates (s_manifest source))) Q (restoringView fed b v)).
  { intros mf b Hb. apply vp_bind. eapply vp_conseq; [by apply (vp_stageRestore fed id lbl mf b v)|]. intros [rs|e|s] v'; [|done..]. intros (routes & c & es & Hc).
    apply vp_mret. exists mf, routes, c, es. done. }
  apply vp_bind. destruct (s_generation source) as [g|], (s_sourceGeneration source) as [s|]; try (apply vp_mret; by apply Hk).
  destruct (g =? s); [apply vp_mret; by apply Hk|]. apply vp_prepareCrossGeneration; [|intros e; simpl; eauto]. intros mf. by apply Hk.
Qed.

(** ** The request as a whole *)
(** Refused, failed before or after its participants were told, or under way. *)
Inductive restore_view fed (lbl : string) v : outcome save_error () -> view T -> Prop :=
| restore_refused e : is_Some (saves (vm v) !! fed) \/ is_Some (restore (vm v) !! fed) -> restore_view fed lbl v (Fail e) v
| restore_failed e es v' :
    saves (vm v) !! fed = None -> restore (vm v) !! fed = None -> imported es ->
    v' = after es (View (set_ident (set_completedRestore (vm v) (<[(fed, lbl) := RestoreFailed]> (completedRestore (vm v)))) (nextIdent (vm v) + 1)) (vt v)) ->
    restore_view fed lbl v (Fail e) v'
| restore_running mf recipients routes b es v' :
    saves (vm v) !! fed = None -> restore (vm v) !! fed = None -> imported es -> loading (nextIdent (vm v)) lbl b -> planned b -> routed mf recipients routes ->
    v' = preparedView fed lbl b mf routes (after es (View (set_ident (vm v) (nextIdent (vm v) + 1)) (vt v))) ->
    restore_view fed lbl v (Ret ()) v'.

Lemma vp_failRestoreNotification fed cause a (Q : outcome save_error () -> view T -> Prop) v :
  restore (vm v) !! fed = Some a -> (forall e, Q (Fail e) (droppedView fed (r_label a) RestoreFailed v)) -> vp (failRestoreNotification opts fed cause) Q v.
Proof.
  intros Ha HQ. unfold failRestoreNotification. apply vp_bind, vp_getManager. rewrite Ha. apply vp_bind, vp_change.
  apply vp_bind, vp_total; [evolve| |intros _].
  { unfold releaseRestore, releasePlan. destruct (_ ≫= _); [|totally]. apply forEach_total. intros. totally. }
  apply vp_bind. unfold sendAll. generalize (sortedHandles (r_required a)) as l. intros l.
  assert (Hs : forall l c, vp (foldEach (fun failure h => r ← send opts fed h (NotRestoredEvent (r_label a) RTIUnableToRestore); mret (errors_Join [failure; r])) l (Some c))
    (fun r v' => exists c', r = Ret (Some c') /\ v' = droppedView fed (r_label a) RestoreFailed v) (droppedView fed (r_label a) RestoreFailed v)).
  { clear l. intros l. induction l as [|x l IH]; intros c; [apply vp_mret; eauto|]. cbn [foldEach]. apply vp_bind. vtotal. intros r. apply vp_mret.
    cbv beta iota. unfold errors_Join. destruct r; apply IH. }
  eapply vp_conseq; [apply Hs|]. intros r v' (c' & -> & ->). by apply vp_raise.
Qed.
Lemma vp_notify fed h e a (Q : outcome save_error () -> view T -> Prop) v :
  restore (vm v) !! fed = Some a -> Q (Ret ()) v -> (forall e, Q (Fail e) (droppedView fed (r_label a) RestoreFailed v)) -> vp (notify opts fed h e) Q v.
Proof. intros Ha HQ He. vtotal. intros [c|]; [by eapply vp_failRestoreNotification|by apply vp_mret]. Qed.
Lemma vp_forEach_notify {A} fed (l : list A) body a (Q : outcome save_error () -> view T -> Prop) v :
  restore (vm v) !! fed = Some a -> (forall x, exists h e, body x = notify opts fed h e) ->
  Q (Ret ()) v -> (forall e, Q (Fail e) (droppedView fed (r_label a) RestoreFailed v)) -> vp (forEach l body) Q v.
Proof.
  intros Ha Hb HQ He. induction l as [|x l IH]; [by apply vp_mret|]. cbn [forEach]. destruct (Hb x) as (h & e & ->).
  apply vp_bind. by eapply vp_notify.
Qed.
Lemma vp_notifyRestoreInitiated fed lbl req rs hs a (Q : outcome save_error () -> view T -> Prop) v :
  restore (vm v) !! fed = Some a -> Q (Ret ()) v -> (forall e, Q (Fail e) (droppedView fed (r_label a) RestoreFailed v)) ->
  vp (notifyRestoreInitiated opts fed lbl req rs hs) Q v.
Proof.
  intros Ha HQ He. unfold notifyRestoreInitiated. apply vp_bind, vp_getManager. rewrite Ha. apply vp_bind.
  assert (Hk : vp (begun ← restoreBegunRecipients opts fed rs; _ ← forEach begun (fun h => notify opts fed h RestoreBegunEvent);
    forEach (zip (seq 0 (length rs)) (zip rs hs)) (fun x => notify opts fed x.2.1 (initiateRestoreEvent (manifest a) lbl x.1 x.2.2))) Q v).
  { apply vp_bind, vp_total; [evolve|unfold restoreBegunRecipients; totally|]. intros l. apply vp_bind.
    eapply vp_forEach_notify; [done|intros x; by exists x, RestoreBegunEvent| |done].
    eapply vp_forEach_notify; [done|intros x; by eexists _, _|done..]. }
  destruct req as [r|]; [|by apply vp_mret]. by eapply vp_notify.
Qed.
Lemma dropped_restoring fed lbl final a v :
  droppedView fed lbl final (restoringView fed a v) = View (set_completedRestore (set_restore (vm v) (delete fed (restore (vm v)))) (<[(fed, lbl) := final]> (completedRestore (vm v)))) (vt v).
Proof. unfold droppedView, dropRestore, restoringView. simpl. by rewrite delete_insert_eq. Qed.
Lemma vp_requestFederationRestore fed lbl req saved v : vp (requestFederationRestore opts fed lbl req saved) (restore_view fed lbl v) v.
Proof.
  unfold requestFederationRestore, reserveRestoreRequest. apply vp_bind, vp_bind, vp_getManager.
  apply vp_bind, vp_guard; [intros Hs%bool_decide_eq_true|intros Hs%bool_decide_eq_false; apply restore_refused; left; by apply not_eq_None_Some].
  apply vp_bind, vp_guard; [intros Hr%bool_decide_eq_true|intros Hr%bool_decide_eq_false; apply restore_refused; right; by apply not_eq_None_Some].
  apply vp_bind, vp_change, vp_mret. set (id := nextIdent (vm v)). set (v1 := View (set_ident (vm v) (id + 1)) (vt v)).
  set (a0 := loadingRestore id lbl). change (vp (continueRestore opts fed lbl req saved id) (restore_view fed lbl v) (restoringView fed a0 v1)).
  unfold continueRestore. apply vp_bind, vp_getManager. rewrite restoring_lookup. apply vp_bind, vp_guard; [intros _|simpl; by rewrite Z.eqb_refl].
  apply vp_bind, vp_attempt. eapply vp_conseq; [by apply (vp_prepareRestore fed lbl saved id a0 v1)|].
  assert (Hd : forall b e es, imported es -> restore_view fed lbl v (Fail e) (droppedView fed lbl RestoreFailed (restoringView fed b (after es v1)))).
  { intros b e es Hi. apply (restore_failed _ _ _ _ es); [done..|]. rewrite dropped_restoring. unfold after, v1, set_restore. simpl. f_equal. rewrite delete_id by done.
    unfold set_completedRestore, set_ident. simpl. by destruct (vm v). }
  intros [[rs hs]|e|s] v'; [|intros (b & es & Hb & Hi & ->)|done].
  - intros (mf & routes & b & es & Hb & Hp & Hi & Hroute & ->). vtotal. intros _. eapply vp_notifyRestoreInitiated; [simpl; apply lookup_insert_eq|by eapply restore_running|].
    intros e. specialize (Hd (initiatedRestore mf routes b) e es Hi). destruct Hb as (_ & Hl & _). simpl. rewrite Hl.
    unfold droppedView, dropRestore, preparedView in *. simpl in *. unfold set_completedRestore in *. simpl in *. rewrite insert_insert_eq. exact Hd.
  - cbv beta iota. apply vp_bind, vp_total; [evolve|unfold requestRestoreFailed; totally|]. intros e'. apply vp_bind. unfold releaseUninitiatedRestore.
    apply vp_bind, vp_getManager. rewrite restoring_lookup. destruct Hb as (Hid & Hl & Hb). rewrite Hid, Z.eqb_refl.
    apply vp_bind, vp_total; [evolve| |intros _]. { unfold releaseRestore, releasePlan. destruct (_ ≫= _); [|totally]. apply forEach_total. intros. totally. }
    apply vp_change. rewrite Hl. apply vp_raise. by apply Hd.
Qed.

(** ** Reports *)
Definition finishedView fed a (final : RestoreState) (resume : bool) v : view T :=
  let m := dropRestore fed (r_label a) final (vm v) in
  View (if resume then set_resumes m (<[fed := mf_FederationGeneration (manifest a)]> (pendingResumes m)) else m) (vt v).
(** What the end of the restore [a] has committed: the plan, in its order, or
    as much of it as went without an error. *)
Definition import_marks a (failed : bool) (final : RestoreState) (es : list (effectOf T)) : Prop :=
  exists l, l `prefix_of` default [] (commit a) /\ es = committedBy l /\ (failed = true -> l = []) /\
    (final = RestoreCompleted -> failed = false /\ l = default [] (commit a)).
Inductive restored_view fed h (ok : bool) v : outcome save_error () -> view T -> Prop :=
| restored_refused e : restored_view fed h ok v (Fail e) v
| restored_counted a :
    restore (vm v) !! fed = Some a -> r_state a = RestoreInitiated -> h ∈ r_required a -> h ∉ r_complete a -> h ∉ r_notComp a ->
    restoreDone (markRestored h ok a) = false ->
    restored_view fed h ok v (Ret ()) (restoringView fed (markRestored h ok a) v)
| restored_finished a r final resume es :
    restore (vm v) !! fed = Some a -> r_state a = RestoreInitiated -> h ∈ r_required a -> h ∉ r_complete a -> h ∉ r_notComp a ->
    let b := markRestored h ok a in
    restoreDone b = true -> import_marks b (negb (bool_decide (r_notComp b = ∅))) final es -> final = RestoreCompleted \/ final = RestoreFailed ->
    (resume = true -> final = RestoreCompleted /\ is_Some (ResumeTime opts)) ->
    restored_view fed h ok v r (finishedView fed b final resume (after es (restoringView fed b v))).

Lemma total_releaseRestore o : total (releaseRestore (T := T) o).
Proof. unfold releaseRestore, releasePlan. destruct (_ ≫= _); [|totally]. apply forEach_total. intros. totally. Qed.
Section Valid.
Hypothesis valid : strict opts = true -> is_Some (Reserve opts).
Lemma calm_reserveRestoreTerminal ctx fed a l hs : strict opts = true -> calm (reserveRestoreTerminal opts ctx fed a l hs).
Proof.
  intros Hs. unfold reserveRestoreTerminal. destruct (valid Hs) as [reserve ->]. apply evolves_bind; [apply _|evolve|]. intros _.
  apply evolves_bind; [apply _|simpl; evolve|]. intros x. apply evolves_bind; [apply _|evolve|]. intros y. apply calm_heldReservation.
Qed.
Lemma calm_prepareRestoreCompletion ctx fed a l : calm (prepareRestoreCompletion opts ctx fed a l).
Proof.
  unfold prepareRestoreCompletion. apply evolves_bind; [apply _|destruct (commit a); evolve|]. intros _.
  pose proof (calm_reserveRestoreTerminal ctx fed a l) as Hc.
  destruct (strict opts); [|evolve]. apply evolves_bind; [apply _|evolve|]. intros hs. apply evolves_bind; [apply _| |intros r; evolve].
  unfold reservePreparedRestoreTerminal. destruct (hasRestoreTransition opts); [evolve|by apply Hc].
Qed.
Lemma vp_notifyRestoreCompleted fed a l failure ce (Q : outcome save_error () -> view T -> Prop) v :
  (forall r, Q r v) ->
  (forall r, failure = None -> is_Some (ResumeTime opts) -> Q r (View (set_resumes (vm v) (<[fed := mf_FederationGeneration (manifest a)]> (pendingResumes (vm v)))) (vt v))) ->
  vp (notifyRestoreCompleted opts fed a l failure ce) Q v.
Proof.
  intros HQ Hr. unfold notifyRestoreCompleted. destruct failure as [reason|].
  { vtotal. intros d. apply vp_quiet; [evolve|done]. }
  vtotal. intros _. destruct (strict opts); [|vtotal; intros d; apply vp_quiet; [evolve|done]].
  apply vp_bind. destruct ce as [e|]; [apply vp_mret, vp_quiet; [evolve|done]|].
  destruct (ResumeTime opts) as [resume|]; [|apply vp_mret, vp_quiet; [evolve|done]]. apply vp_change, vp_quiet; [evolve|]. intros r. by apply Hr.
Qed.
Lemma vp_importRestore ctx fed a (failed : bool) p (Q : outcome save_error (option save_error) -> view T -> Prop) v :
  (failed = false -> Q (Ret None) (after (committedBy (default [] (commit a))) v)) -> (failed = true -> Q (Ret None) v) ->
  (forall l e, l `prefix_of` default [] (commit a) -> (failed = true -> l = []) -> Q (Ret (Some e)) (after (committedBy l) v)) ->
  vp (importRestore opts ctx fed a failed p) Q v.
Proof.
  intros HQ Hf He. assert (Hv : forall e, Q (Ret (Some e)) v) by (intros e; rewrite <- (after_nil v); apply (He []); [apply prefix_nil|done]).
  unfold importRestore. destruct p as [e|r]; [by apply vp_mret|]. destruct failed; [by apply vp_mret, Hf|]. specialize (HQ eq_refl).
  apply vp_bind, vp_attempt. unfold commitPreparedRestore. destruct (commit a) as [plan|]; simpl in *.
  2: { apply vp_mret, vp_mret. simpl. by rewrite <- (after_nil v). }
  vskip; [intros _|intros e; by apply vp_mret]. apply vp_bind, vp_calm; [destruct (hasRestoreTransition opts); evolve| |intros e; by apply vp_mret].
  intros _. apply vp_runCommits; [by apply vp_mret|]. intros k e Hk. by apply vp_mret, He.
Qed.
(** How a restore that is being finished may end. *)
Definition finish_view fed a (failed : bool) v (v' : view T) : Prop :=
  exists final resume es, import_marks a failed final es /\ (final = RestoreCompleted \/ final = RestoreFailed) /\
    (resume = true -> final = RestoreCompleted /\ is_Some (ResumeTime opts)) /\ v' = finishedView fed a final resume (after es v).
Lemma vp_concludeRestore fed a (failed : bool) hs c published es v :
  import_marks a failed (match restoreFailure failed c with None => RestoreCompleted | Some _ => RestoreFailed end) es ->
  vp (concludeRestore opts fed a hs (restoreFailure failed c) c published) (fun _ v' => finish_view fed a failed v v') (after es v).
Proof.
  intros Hm. assert (Hf : finish_view fed a failed v (droppedView fed (r_label a) RestoreFailed (after es v))).
  { exists RestoreFailed, false, es. split; [|split; [by right|done]]. destruct Hm as (l & Hl & He & Hn & _). by exists l. }
  unfold concludeRestore. destruct published as [e|]; [by apply vp_bind, vp_change, vp_raise|]. apply vp_bind, vp_change.
  destruct (restoreFailure failed c) as [reason|]; [by apply vp_notifyRestoreCompleted|]. apply vp_notifyRestoreCompleted.
  - intros r. exists RestoreCompleted, false, es. split; [done|]. split; [by left|done].
  - intros r _ Hr. exists RestoreCompleted, true, es. split; [done|]. split; [by left|done].
Qed.
Lemma vp_finishRestore ctx fed a (failed : bool) v : vp (finishRestore opts ctx fed a failed) (fun _ v' => finish_view fed a failed v v') v.
Proof.
  unfold finishRestore. apply vp_bind, vp_total; [|destruct failed; [totally|apply (total_attempt still), calm_prepareRestoreCompletion]|].
  { destruct failed; [evolve|apply evolves_attempt, calm_prepareRestoreCompletion]. }
  intros p. apply vp_deferring; [evolve|apply total_releaseRestore|]. set (reservation := match p with inr (Some r) => Some r | _ => None end).
  assert (Hend : forall c es, import_marks a failed (match restoreFailure failed c with None => RestoreCompleted | Some _ => RestoreFailed end) es ->
    vp (published ← publishRestore opts reservation (restoreFailure failed c);
      concludeRestore opts fed a (sortedHandles (r_required a)) (restoreFailure failed c) c published) (fun _ v' => finish_view fed a failed v v') (after es v)).
  { intros c es Hm. apply vp_bind, vp_total; [unfold publishRestore; evolve|unfold publishRestore; totally|]. intros published. by apply vp_concludeRestore. }
  assert (Hrest : vp (c ← importRestore opts ctx fed a failed p; published ← publishRestore opts reservation (restoreFailure failed c);
    concludeRestore opts fed a (sortedHandles (r_required a)) (restoreFailure failed c) c published) (fun _ v' => finish_view fed a failed v v') v).
  { apply vp_bind, vp_importRestore.
    - intros ->. apply Hend. by exists (default [] (commit a)).
    - intros ->. specialize (Hend None []). rewrite after_nil in Hend. apply Hend. exists []. split; [apply prefix_nil|done].
    - intros l e Hl Hn. apply Hend. exists l. split; [done|]. split; [done|]. split; [done|]. by destruct failed. }
  destruct reservation as [r|]; [|exact Hrest]. apply vp_deferring; [evolve|totally|exact Hrest].
Qed.
Lemma vp_recordFederateRestore ctx fed h ok v : vp (recordFederateRestore opts ctx fed h ok) (restored_view fed h ok v) v.
Proof.
  unfold recordFederateRestore, markFederateRestore. apply vp_bind, vp_bind, vp_getManager. apply vp_bind, vp_guard; [|constructor]. intros _.
  destruct (restore (vm v) !! fed) as [a|] eqn:Ea; [|apply vp_raise; constructor]. apply vp_bind, vp_guard; [|constructor]. intros Hs%bool_decide_eq_true.
  apply vp_bind, vp_guard; [|constructor]. intros Hr%bool_decide_eq_true. apply vp_bind, vp_guard; [|constructor].
  intros [H1%negb_true_iff%bool_decide_eq_false H2%negb_true_iff%bool_decide_eq_false]%andb_true_iff. apply vp_bind, vp_change, vp_mret.
  assert (Hv : View (update_restore fed (markRestored h ok) (vm v)) (vt v) = restoringView fed (markRestored h ok a) v).
  { unfold restoringView, update_restore. f_equal. f_equal. apply map_eq. intros f. destruct (decide (f = fed)) as [->|Hn].
    - by rewrite lookup_alter_eq, lookup_insert_eq, Ea.
    - by rewrite lookup_alter_ne, lookup_insert_ne. }
  cbv beta iota. rewrite Hv. destruct (restoreDone _) eqn:Ed; [|apply vp_mret; by eapply restored_counted].
  eapply vp_conseq; [apply vp_finishRestore|]. intros r v' (final & resume & es & Hm & Hor & Hre & ->). by eapply restored_finished.
Qed.
End Valid.
Lemma vp_AbortRestore fed (Q : outcome save_error () -> view T -> Prop) v :
  (restore (vm v) !! fed = None -> Q (Fail ErrRestoreNotInProgress) v) ->
  (forall a r, restore (vm v) !! fed = Some a -> Q r (droppedView fed (r_label a) RestoreFailed v)) -> vp (AbortRestore opts fed) Q v.
Proof.
  intros Hn HQ. apply vp_bind, vp_getManager. destruct (restore (vm v) !! fed) as [a|] eqn:Ea; [|by apply vp_raise, Hn].
  apply vp_bind, vp_change. apply vp_bind, vp_total; [evolve|apply total_releaseRestore|]. intros _. vtotal. intros d.
  apply vp_quiet; [evolve|]. intros r. by apply HQ.
Qed.
End RestoreEffect.

(** * Save and restore: histories of requests

    A request is one call of the coordinator under the checkpoint admission of
    its federation (which transports take before a checkpoint control call), so
    requests are atomic with respect to each other; [QOther] is what others do
    in between.  [step_view] says how each request may leave the manager. *)
Section Requests.
Context {T : Type} `{LogicalTimeScalar T} `{EqDecision T} (opts : OptionsOf T).
Implicit Types (fed : FederationName) (h : FederateHandle) (v : view T) (w : callState T).
Abbreviation context := (portOf T (option save_error)).

Inductive request :=
| QSave (ctx : context) (fed : FederationName) (req : FederateHandle) (lbl : string) (at_ : option T) (requestAware : bool)
| QBegun (fed : FederationName) (h : FederateHandle)
| QReport (ctx : context) (fed : FederationName) (h : FederateHandle) (ok : bool) (st : list byte)
| QAbortSave (fed : FederationName)
| QProgress (ctx : context) (fed : FederationName)
| QLost (fed : FederationName) (lost : FederateHandle) (reports : list (OutboxDeliveryOf T))
| QHistory (fed : FederationName) (fresh : bool)
| QRestore (fed : FederationName) (lbl : string) (req : option FederateHandle) (saved : option Z)
| QRestoreReport (ctx : context) (fed : FederationName) (h : FederateHandle) (ok : bool)
| QAbortRestore (fed : FederationName)
| QObserve (fed : FederationName) (h : FederateHandle) (lbl : string) (isRestore : bool)
| QDestroyed (fed : FederationName)
| QOther (fed : FederationName) (n : Z).
Definition federationOf (q : request) : FederationName :=
  match q with
  | QSave _ fed _ _ _ _ | QBegun fed _ | QReport _ fed _ _ _ | QAbortSave fed | QProgress _ fed | QLost fed _ _ | QHistory fed _ | QRestore fed _ _ _
  | QRestoreReport _ fed _ _ | QAbortRestore fed | QObserve fed _ _ _ | QDestroyed fed | QOther fed _ => fed
  end.
Definition perform (q : request) : proto T () :=
  match q with
  | QSave ctx fed req lbl at_ aware => requestFederationSave opts ctx fed req lbl at_ aware
  | QBegun fed h => FederateSaveBegun fed h
  | QReport ctx fed h ok st => recordFederateSave opts ctx fed h ok st
  | QAbortSave fed => AbortSave opts fed
  | QProgress ctx fed => ProgressScheduledSave opts ctx fed
  | QLost fed lost reports => FederateLost opts fed lost reports
  | QHistory fed fresh => loadSaveHistory opts fed fresh
  | QRestore fed lbl req saved => requestFederationRestore opts fed lbl req saved
  | QRestoreReport ctx fed h ok => recordFederateRestore opts ctx fed h ok
  | QAbortRestore fed => AbortRestore opts fed
  | QObserve fed h lbl b => change (fun m => ObserveCheckpointCallbackEntry m fed h lbl b)
  | QDestroyed fed => OnFederationDestroyed opts fed
  | QOther _ n => emit (Happened n)
  end.
Definition serve w (q : request) : callState T := (perform q w).2.
Definition serveAll (qs : list request) w : callState T := fold_left serve qs w.
Definition start : callState T := Call emptyManager [].
(** The options [NewOf] accepts. *)
Definition accepted : Prop := NewOf opts true true = Ret emptyManager.

Lemma accepted_reservable : accepted -> strict opts = true -> is_Some (Reserve opts).
Proof.
  unfold accepted, NewOf, validateSnapshotOptions. intros Ha Hs. rewrite Hs in Ha. simpl in Ha.
  destruct (_ || _); [|done]. destruct (_ || _); [|done]. destruct (bool_decide _); [|done]. by case_bool_decide.
Qed.

(** ** How a request may leave the manager *)
Definition recordedView (k : SaveHistoryKey) (hist : SaveHistoryOf T) v : view T := View (set_history (vm v) (<[k := hist]> (history (vm v)))) (vt v).
Definition step_view (q : request) v (r : outcome save_error ()) (v' : view T) : Prop :=
  match q with
  | QSave _ fed req lbl at_ _ => request_view opts fed req lbl at_ v r v'
  | QBegun fed h => v' = v \/ exists a, saves (vm v) !! fed = Some a /\ mayBegin (vm v) fed h a = true /\ v' = View (update_save fed (markBegun h a) (vm v)) (vt v)
  | QReport _ fed h ok st => report_view opts fed h ok st v r v'
  | QAbortSave fed => v' = v \/ exists a, saves (vm v) !! fed = Some a /\ v' = endView opts fed (label a) StateNotSaved v
  | QProgress _ fed => exists r1 v1, locked_view opts fed v r1 v1 /\ (v' = v1 \/ v' = View (forgottenResume fed (vm v1)) (vt v1))
  | QLost fed lost _ => v' = v \/ exists a, saves (vm v) !! fed = Some a /\ lost ∈ required (progress a) /\ r = Ret () /\ v' = endView opts fed (label a) StateNotSaved v
  | QHistory fed _ => v' = v \/ exists g hist, v' = recordedView (historyKey fed g) hist v
  | QRestore fed lbl _ _ => restore_view opts fed lbl v r v'
  | QRestoreReport _ fed h ok => restored_view opts fed h ok v r v'
  | QAbortRestore fed => v' = v \/ exists a, restore (vm v) !! fed = Some a /\ v' = droppedView fed (r_label a) RestoreFailed v
  | QObserve fed h lbl b => v' = View (ObserveCheckpointCallbackEntry (vm v) fed h lbl b) (vt v)
  | QDestroyed fed => v' = destroyedView fed v
  | QOther _ _ => v' = v
  end.
Lemma vp_loadSaveHistory fed fresh v :
  vp (loadSaveHistory opts fed fresh) (fun _ v' => v' = v \/ exists g hist, v' = recordedView (historyKey fed g) hist v) v.
Proof.
  unfold loadSaveHistory. vskip; [|by left]. intros g. apply vp_bind, vp_getManager.
  assert (Hset : forall hist, vp (setSaveHistory (historyKey fed g.1) hist) (fun _ v' => v' = v \/ exists g hist, v' = recordedView (historyKey fed g) hist v) v).
  { intros hist. apply vp_change. right. by exists g.1, hist. }
  apply vp_bind. apply vp_calm; [destruct (LoadSaveHistory opts); evolve| |by left]. intros hist. vskip; [|by left]. intros _.
  destruct (fresh && negb (h_Known hist)); [|apply Hset]. apply vp_bind, vp_calm; [destruct (LoadSaveHistory opts); evolve| |by left]. intros _. apply Hset.
Qed.
Lemma vp_perform q v : accepted -> vp (perform q) (step_view q v) v.
Proof.
  intros Ha. destruct q; simpl.
  - apply vp_requestFederationSave.
  - apply vp_FederateSaveBegun; [intros a E Hb; right; eauto|by left].
  - apply vp_recordFederateSave.
  - apply vp_AbortSave; [by left|intros a r E; right; eauto].
  - apply vp_ProgressScheduledSave.
  - apply vp_FederateLost.
  - apply vp_loadSaveHistory.
  - apply vp_requestFederationRestore.
  - apply vp_recordFederateRestore, accepted_reservable, Ha.
  - apply vp_AbortRestore; [by left|intros a r E; right; eauto].
  - by apply vp_change.
  - eapply vp_conseq; [apply vp_OnFederationDestroyed|]. by intros r v' [_ ->].
  - apply vp_total; [evolve|totally|done].
Qed.
Lemma step_perform q w : accepted -> step_view q (viewOf w) (perform q w).1 (viewOf (serve w q)).
Proof. intros Ha. by apply (vp_perform q (viewOf w) Ha w). Qed.

(** Induction over histories. *)
Lemma serveAll_inv (P : view T -> Prop) qs w : accepted ->
  P (viewOf w) -> (forall q v r v', P v -> step_view q v r v' -> P v') -> P (viewOf (serveAll qs w)).
Proof.
  intros Ha Hw Hs. revert w Hw. induction qs as [|q qs IH]; intros w Hw; [done|]. apply IH. eapply Hs; [exact Hw|]. by apply step_perform.
Qed.
End Requests.
