(* ===== verification/SavInvariant.v ===== *)
(** * Save and restore: the invariant of the tables

    [manager_wf] is what holds of the coordinator between requests.
    [elsewhere fed] is that nothing changed but the rows of [fed]. *)
From stdpp Require Import gmap strings.
From Stdlib Require Import Strings.Byte.
From S2P Require Import Prelude GoBytes LogicalTime TimeScalar Fed Sav SavService SavReport SavRestore SavCalls SavEffect SavWorld.
Open Scope Z_scope.

Section Invariant.
Context {T : Type} `{LogicalTimeScalar T} `{EqDecision T} (opts : OptionsOf T).
Implicit Types (fed : FederationName) (h : FederateHandle) (v : view T) (m : ManagerOf T) (a : activeSaveOf T).

(** ** The invariant *)
(** A save that is under way: who reported has begun, who has begun was told,
    and somebody has still to report. *)
Record save_wf fed m a : Prop := {
  sw_state : state (progress a) = StateInitiated;
  sw_federates : federates (progress a) = sortedHandles (required (progress a));
  sw_begun_complete : begun (progress a) ## complete (progress a);
  sw_begun_notComp : begun (progress a) ## notComp (progress a);
  sw_complete_notComp : complete (progress a) ## notComp (progress a);
  sw_members : begun (progress a) ∪ complete (progress a) ∪ notComp (progress a) ⊆ required (progress a);
  sw_open : allRequiredResponded (progress a) = false;
  sw_started : forall h, h ∈ begun (progress a) ∪ complete (progress a) ∪ notComp (progress a) -> saveParticipantStarted a h = true;
  sw_states : dom (clientStates (progress a)) ⊆ complete (progress a);
  sw_size : statesSize (clientStates (progress a)) <= maxFederationClientStateBytes;
  sw_barrier : waiting (progress a) = true -> is_Some (saveTime a) /\ is_Some (releaseTime (progress a)) /\ (participantTime a = None -> is_Some (timeReady a));
  sw_participants : is_Some (participantTime a) -> releaseTime (progress a) = participantTime a;
  sw_completed : completed m !! (fed, label a) = Some StateInitiated;
  sw_ident : ident a < nextIdent m;
  sw_pending : pendingSchedules m !! fed = if waiting (progress a) then Some (ident a) else None;
}.
Record restore_wf fed m (a : activeRestoreOf T) : Prop := {
  rw_state : r_state a = RestoreInitiated;
  rw_disjoint : r_complete a ## r_notComp a;
  rw_members : r_complete a ∪ r_notComp a ⊆ r_required a;
  rw_some : r_required a <> ∅;
  rw_valid : InvalidFederateHandle ∉ r_required a;
  rw_open : restoreDone a = false;
  rw_routes : dom (postHandles a) = r_required a;
  rw_planned : planned opts a;
  rw_completed : completedRestore m !! (fed, r_label a) = Some RestoreInitiated;
  rw_ident : r_ident a < nextIdent m;
}.
Record fed_wf fed m : Prop := {
  fw_save : forall a, saves m !! fed = Some a -> save_wf fed m a;
  fw_restore : forall b, restore m !! fed = Some b -> restore_wf fed m b;
  fw_exclusive : saves m !! fed = None \/ restore m !! fed = None;
  fw_pending : saves m !! fed = None -> pendingSchedules m !! fed = None;
  fw_resume : is_Some (pendingResumes m !! fed) -> is_Some (ResumeTime opts);
  fw_initiated : forall lbl, completed m !! (fed, lbl) = Some StateInitiated -> exists a, saves m !! fed = Some a /\ label a = lbl;
  fw_restoring : forall lbl st, completedRestore m !! (fed, lbl) = Some st ->
    st = RestoreCompleted \/ st = RestoreFailed \/ (st = RestoreInitiated /\ exists b, restore m !! fed = Some b /\ r_label b = lbl);
}.
Definition manager_wf m : Prop := forall fed, fed_wf fed m.

Lemma empty_wf : manager_wf emptyManager.
Proof.
  intros fed. split; simpl; intros *; rewrite ?lookup_empty; try done; try (by left); intros []; done.
Qed.

(** ** The rows of the other federations *)
Record elsewhere fed m m' : Prop := {
  ew_saves : forall f, f <> fed -> saves m' !! f = saves m !! f;
  ew_restore : forall f, f <> fed -> restore m' !! f = restore m !! f;
  ew_completed : forall f l, f <> fed -> completed m' !! (f, l) = completed m !! (f, l);
  ew_completedRestore : forall f l, f <> fed -> completedRestore m' !! (f, l) = completedRestore m !! (f, l);
  ew_history : forall k, k_Federation k <> fed -> history m' !! k = history m !! k;
  ew_pending : forall f, f <> fed -> pendingSchedules m' !! f = pendingSchedules m !! f;
  ew_resumes : forall f, f <> fed -> pendingResumes m' !! f = pendingResumes m !! f;
  ew_ident : nextIdent m <= nextIdent m';
}.
#[export] Instance elsewhere_preorder fed : PreOrder (elsewhere fed).
Proof.
  split; [intros m; by split|]. intros m1 m2 m3 H1 H2.
  split; intros; try (etrans; [by apply H2|by apply H1]). pose proof (ew_ident _ _ _ H1). pose proof (ew_ident _ _ _ H2). lia.
Qed.
Lemma save_wf_mono fed m m' a :
  save_wf fed m a -> completed m' !! (fed, label a) = completed m !! (fed, label a) -> pendingSchedules m' !! fed = pendingSchedules m !! fed ->
  nextIdent m <= nextIdent m' -> save_wf fed m' a.
Proof. intros [] E1 E2 E3. split; try done; [by rewrite E1|lia|by rewrite E2]. Qed.
Lemma restore_wf_mono fed m m' (a : activeRestoreOf T) :
  restore_wf fed m a -> completedRestore m' !! (fed, r_label a) = completedRestore m !! (fed, r_label a) -> nextIdent m <= nextIdent m' -> restore_wf fed m' a.
Proof. intros [] E1 E3. split; try done; [by rewrite E1|lia]. Qed.
Lemma elsewhere_wf fed m m' : elsewhere fed m m' -> manager_wf m -> fed_wf fed m' -> manager_wf m'.
Proof.
  intros He Hm Hf f. destruct (decide (f = fed)) as [->|Hn]; [done|]. specialize (Hm f). destruct Hm as [H1 H2 H3 H4 H5 H6 H7].
  pose proof (ew_ident _ _ _ He). split; rewrite ?(ew_saves _ _ _ He), ?(ew_restore _ _ _ He), ?(ew_pending _ _ _ He), ?(ew_resumes _ _ _ He) by done; try done.
  - intros a Ha. eapply save_wf_mono; [by apply H1|by apply (ew_completed _ _ _ He)|by apply (ew_pending _ _ _ He)|done].
  - intros a Ha. eapply restore_wf_mono; [by apply H2|by apply (ew_completedRestore _ _ _ He)|done].
  - intros lbl. rewrite (ew_completed _ _ _ He) by done. apply H6.
  - intros lbl st. rewrite (ew_completedRestore _ _ _ He) by done. apply H7.
Qed.

(** What changes in the rows of one federation, one change at a time. *)
Ltac rows := split; simpl; intros; try lia; rewrite ?lookup_insert_ne, ?lookup_delete_ne, ?lookup_alter_ne by congruence; try done.
Lemma elsewhere_saves fed m x : elsewhere fed m (set_saves m (<[fed := x]> (saves m))).
Proof. rows. Qed.
Lemma elsewhere_update fed f m : elsewhere fed m (update_save fed f m).
Proof. rows. Qed.
Lemma elsewhere_update_restore fed f m : elsewhere fed m (update_restore fed f m).
Proof. rows. Qed.
Lemma elsewhere_schedules_delete fed m : elsewhere fed m (set_schedules m (delete fed (pendingSchedules m))).
Proof. rows. Qed.
Lemma elsewhere_schedules fed i m : elsewhere fed m (set_schedules m (<[fed := i]> (pendingSchedules m))).
Proof. rows. Qed.
Lemma elsewhere_resumes fed g m : elsewhere fed m (set_resumes m (<[fed := g]> (pendingResumes m))).
Proof. rows. Qed.
Lemma elsewhere_forgottenResume fed m : elsewhere fed m (forgottenResume fed m).
Proof. rows. Qed.
Lemma elsewhere_completed fed lbl st m : elsewhere fed m (set_completed m (<[(fed, lbl) := st]> (completed m))).
Proof. rows. Qed.
Lemma elsewhere_completed_delete fed lbl m : elsewhere fed m (set_completed m (delete (fed, lbl) (completed m))).
Proof. rows. Qed.
Lemma elsewhere_ident fed m i : nextIdent m <= i -> elsewhere fed m (set_ident m i).
Proof. intros Hi. rows. Qed.
Lemma elsewhere_prepared fed lbl b mf routes v : elsewhere fed (vm v) (vm (preparedView fed lbl b mf routes v)).
Proof. rows. Qed.
Lemma elsewhere_dropSave fed lbl st m : elsewhere fed m (dropSave fed lbl st m).
Proof. rows. Qed.
Lemma elsewhere_dropRestore fed lbl st m : elsewhere fed m (dropRestore fed lbl st m).
Proof. rows. Qed.
Lemma elsewhere_completedRestore fed lbl st m : elsewhere fed m (set_completedRestore m (<[(fed, lbl) := st]> (completedRestore m))).
Proof. rows. Qed.
Lemma elsewhere_restore fed x m : elsewhere fed m (set_restore m (<[fed := x]> (restore m))).
Proof. rows. Qed.
Lemma elsewhere_history fed g hist m : elsewhere fed m (set_history m (<[historyKey fed g := hist]> (history m))).
Proof.
  rows. rewrite lookup_insert_ne; [done|]. intros <-. by destruct g.
Qed.
Lemma elsewhere_settleSchedule fed m : elsewhere fed m (settleSchedule fed m).
Proof. unfold settleSchedule. destruct (saves m !! fed) as [a|]; [|done]. destruct (waiting _); [done|apply elsewhere_schedules_delete]. Qed.
Lemma elsewhere_forgetCompleted fed p m : elsewhere fed m (forgetCompleted fed p m).
Proof. destruct p as [p|]; [|done]. rows. Qed.
Lemma elsewhere_placeSave fed a m : elsewhere fed m (placeSave fed a m).
Proof. unfold placeSave. destruct (waiting _); rows. Qed.
Lemma elsewhere_resumedTime fed a m : elsewhere fed m (resumedTime opts fed a m).
Proof. unfold resumedTime. destruct (releaseTime _), (ResumeTime opts); try done. apply elsewhere_resumes. Qed.
Lemma elsewhere_endView fed lbl st v : elsewhere fed (vm v) (vm (endView opts fed lbl st v)).
Proof. unfold endView. simpl. destruct (saves _ !! _); [etrans; [|apply elsewhere_resumedTime]|]; apply elsewhere_dropSave. Qed.
Lemma elsewhere_forgetFederation fed m : elsewhere fed m (forgetFederation fed m).
Proof.
  assert (Hf : forall V (t : gmap (FederationName * string) V) f (l : string), f <> fed ->
    filter (fun x : (FederationName * string) * V => x.1.1 <> fed) t !! (f, l) = t !! (f, l)).
  { intros V t f l Hn. rewrite map_lookup_filter. destruct (t !! (f, l)); simpl; [|done]. by rewrite option_guard_True. }
  split; simpl; intros; rewrite ?lookup_delete_ne by done; try lia; try done; try by apply Hf.
  rewrite map_lookup_filter. destruct (history m !! k); simpl; [|done]. by rewrite option_guard_True.
Qed.
End Invariant.
