(* ===== verification/SavPreserve.v ===== *)
(** * Save and restore: every request preserves the invariant

    First the operations on one federation, then [perform] and histories. *)
From stdpp Require Import gmap strings.
From Stdlib Require Import Strings.Byte.
From S2P Require Import Prelude GoBytes LogicalTime TimeScalar Fed Sav SavService SavReport SavRestore SavCalls SavEffect SavWorld SavInvariant.
Open Scope Z_scope.

Section Preserve.
Context {T : Type} `{LogicalTimeScalar T} `{EqDecision T} (opts : OptionsOf T).
Implicit Types (fed : FederationName) (h : FederateHandle) (v : view T) (m : ManagerOf T) (a : activeSaveOf T) (b : activeRestoreOf T) (p : saveProgress).
Abbreviation fed_wf := (fed_wf opts).
Abbreviation restore_wf := (restore_wf opts).

(** ** The rows of a federation but for its save *)
Record base_wf fed m : Prop := {
  bw_restore : forall b, restore m !! fed = Some b -> restore_wf fed m b;
  bw_exclusive : saves m !! fed = None \/ restore m !! fed = None;
  bw_resume : is_Some (pendingResumes m !! fed) -> is_Some (ResumeTime opts);
  bw_initiated : forall lbl, completed m !! (fed, lbl) = Some StateInitiated -> exists a, saves m !! fed = Some a /\ label a = lbl;
  bw_restoring : forall lbl st, completedRestore m !! (fed, lbl) = Some st ->
    st = RestoreCompleted \/ st = RestoreFailed \/ (st = RestoreInitiated /\ exists b, restore m !! fed = Some b /\ r_label b = lbl);
}.
Lemma fed_base fed m : fed_wf fed m -> base_wf fed m.
Proof. by intros [? ? ? ? ? ? ?]. Qed.
Lemma base_fed fed m : base_wf fed m -> (forall a, saves m !! fed = Some a -> save_wf fed m a) -> (saves m !! fed = None -> pendingSchedules m !! fed = None) -> fed_wf fed m.
Proof. by intros [] ? ?. Qed.

(** ** The end of a save *)
Lemma end_wf fed a st v :
  base_wf fed (vm v) -> saves (vm v) !! fed = Some a -> st <> StateInitiated -> fed_wf fed (vm (endView opts fed (label a) st v)).
Proof.
  intros [B1 B2 B3 B4 B5] Ha Hst. unfold endView. simpl. rewrite Ha.
  assert (Hd : fed_wf fed (dropSave fed (label a) st (vm v))).
  { split; simpl; rewrite ?lookup_delete_eq; try done; [|by left|].
    - intros b Hb. eapply restore_wf_mono; [by apply B1|done|simpl; lia].
    - intros lbl. destruct (decide (lbl = label a)) as [->|Hn]; [rewrite lookup_insert_eq; by intros [= ?]|].
      rewrite lookup_insert_ne by congruence. intros (a' & Ha' & <-)%B4. congruence. }
  unfold resumedTime. destruct (releaseTime _), (ResumeTime opts) eqn:Er; try done. destruct Hd as [D1 D2 D3 D4 D5 D6 D7].
  split; try done; intros x Hx; [destruct (D1 x Hx)|destruct (D2 x Hx)]; by split.
Qed.

(** ** A save that goes on *)
Lemma update_save_lookup fed f m a : saves m !! fed = Some a -> saves (update_save fed f m) !! fed = Some (set_progress a (f (progress a))).
Proof. intros Ha. simpl. by rewrite lookup_alter_eq, Ha. Qed.
Lemma base_update fed f m : base_wf fed m -> base_wf fed (update_save fed f m).
Proof.
  intros [B1 B2 B3 B4 B5]. split; simpl; try done; rewrite ?lookup_alter_eq.
  - intros b Hb. eapply restore_wf_mono; [by apply B1|done|simpl; lia].
  - destruct B2 as [->|B2]; [by left|by right].
  - intros lbl (a & Ha & Hl)%B4. rewrite Ha. simpl. by eexists.
Qed.
Lemma base_settle fed m : base_wf fed m -> base_wf fed (settleSchedule fed m).
Proof.
  intros [B1 B2 B3 B4 B5]. unfold settleSchedule. destruct (saves m !! fed) as [a|] eqn:Ea; [|by split; rewrite ?Ea].
  destruct (waiting _); split; simpl; rewrite ?Ea; try done; intros b Hb; (eapply restore_wf_mono; [by apply B1|done|simpl; lia]).
Qed.
Lemma settle_saves fed m : saves (settleSchedule fed m) = saves m.
Proof. unfold settleSchedule. destruct (saves m !! fed) as [a|]; [|done]. by destruct (waiting _). Qed.
Lemma settle_pending fed m a : saves m !! fed = Some a ->
  pendingSchedules (settleSchedule fed m) !! fed = if waiting (progress a) then pendingSchedules m !! fed else None.
Proof. intros Ha. unfold settleSchedule. rewrite Ha. destruct (waiting _); [done|]. simpl. by rewrite lookup_delete_eq. Qed.
Lemma settle_completed fed m : completed (settleSchedule fed m) = completed m /\ nextIdent (settleSchedule fed m) = nextIdent m.
Proof. unfold settleSchedule. destruct (saves m !! fed) as [a|]; [|done]. by destruct (waiting _). Qed.
(** The parts of [save_wf] that are about the participants. *)
Record counts_wf (started : FederateHandle -> bool) p : Prop := {
  cw_state : state p = StateInitiated;
  cw_federates : federates p = sortedHandles (required p);
  cw_begun_complete : begun p ## complete p;
  cw_begun_notComp : begun p ## notComp p;
  cw_complete_notComp : complete p ## notComp p;
  cw_members : begun p ∪ complete p ∪ notComp p ⊆ required p;
  cw_open : allRequiredResponded p = false;
  cw_started : forall h, h ∈ begun p ∪ complete p ∪ notComp p -> started h = true;
  cw_states : dom (clientStates p) ⊆ complete p;
  cw_size : statesSize (clientStates p) <= maxFederationClientStateBytes;
}.
Lemma save_counts fed m a : save_wf fed m a -> counts_wf (saveParticipantStarted a) (progress a).
Proof. by intros []. Qed.
Lemma counts_save fed m m' a p :
  save_wf fed m a -> counts_wf (saveParticipantStarted (set_progress a p)) p -> waiting p = waiting (progress a) -> releaseTime p = releaseTime (progress a) ->
  completed m' = completed m -> pendingSchedules m' = pendingSchedules m -> nextIdent m' = nextIdent m -> save_wf fed m' (set_progress a p).
Proof.
  intros [] [] Hw Hr Ec Ep En. split; simpl; rewrite ?Hw, ?Hr, ?Ec, ?Ep, ?En; done.
Qed.
Lemma update_wf fed f m a :
  fed_wf fed m -> saves m !! fed = Some a -> counts_wf (saveParticipantStarted (set_progress a (f (progress a)))) (f (progress a)) ->
  waiting (f (progress a)) = waiting (progress a) -> releaseTime (f (progress a)) = releaseTime (progress a) -> fed_wf fed (update_save fed f m).
Proof.
  intros Hf Ha Hc Hw Hr. pose proof (fed_base _ _ Hf) as Hb. apply base_fed; [by apply base_update| |by rewrite (update_save_lookup fed f m a Ha)].
  rewrite (update_save_lookup fed f m a Ha). intros ? [= <-]. eapply counts_save; [by eapply fw_save|done..].
Qed.

(** ** Counting participants *)
Lemma responded_false p : (exists h, h ∈ required p /\ h ∉ complete p /\ h ∉ notComp p) -> allRequiredResponded p = false.
Proof.
  intros (h & Hr & Hc & Hn). unfold allRequiredResponded. apply andb_false_intro2. apply not_true_is_false. rewrite forallb_forall. intros Hall.
  specialize (Hall h). rewrite <- list_elem_of_In, elem_of_elements in Hall. specialize (Hall Hr).
  apply orb_true_iff in Hall as [?%bool_decide_eq_true|?%bool_decide_eq_true]; done.
Qed.
Lemma begun_wf fed m h a : save_wf fed m a -> mayBegin m fed h a = true -> counts_wf (saveParticipantStarted (set_progress a (markBegun h a (progress a)))) (markBegun h a (progress a)).
Proof.
  intros Hs Hb. unfold mayBegin in Hb. rewrite !andb_true_iff in Hb.
  destruct Hb as [[[[[_ [Hst _]] H1%bool_decide_eq_true] H2%bool_decide_eq_true] H3%bool_decide_eq_true] Hreq].
  assert (Hstarted : forall h', saveParticipantStarted (set_progress a (markBegun h a (progress a))) h' = saveParticipantStarted a h').
  { intros h'. unfold saveParticipantStarted, markBegun. simpl. by destruct (participantTime a), (dynamic a). }
  assert (Hin : h ∈ required (markBegun h a (progress a))).
  { unfold markBegun. destruct (dynamic a); simpl in *; [set_solver|by apply bool_decide_eq_true in Hreq]. }
  assert (Hsub : required (progress a) ⊆ required (markBegun h a (progress a))) by (unfold markBegun; destruct (dynamic a); simpl; set_solver).
  pose proof (sw_started _ _ _ Hs) as Hold. destruct Hs. split.
  - unfold markBegun. by destruct (dynamic a).
  - unfold markBegun. by destruct (dynamic a).
  - unfold markBegun. destruct (dynamic a); simpl; set_solver.
  - unfold markBegun. destruct (dynamic a); simpl; set_solver.
  - unfold markBegun. by destruct (dynamic a).
  - replace (begun (markBegun h a (progress a))) with ({[h]} ∪ begun (progress a)) by (unfold markBegun; by destruct (dynamic a)).
    replace (complete (markBegun h a (progress a))) with (complete (progress a)) by (unfold markBegun; by destruct (dynamic a)).
    replace (notComp (markBegun h a (progress a))) with (notComp (progress a)) by (unfold markBegun; by destruct (dynamic a)). set_solver.
  - apply responded_false. exists h. split; [done|]. unfold markBegun. by destruct (dynamic a).
  - intros h' Hh'. rewrite Hstarted. destruct (decide (h' = h)) as [->|Hn]; [done|]. apply Hold. unfold markBegun in Hh'. destruct (dynamic a); simpl in Hh'; set_solver.
  - unfold markBegun. by destruct (dynamic a).
  - unfold markBegun. by destruct (dynamic a).
Qed.

Lemma statesSize_insert t h st : t !! h = None -> statesSize (<[h := st]> t) = zlen st + statesSize t.
Proof.
  intros Hn. unfold statesSize. rewrite map_fold_insert_L; [done| |done]. intros. lia.
Qed.
Lemma reported_wf fed m h ok st a : save_wf fed m a -> h ∈ begun (progress a) -> validateClientStateAdmission (progress a) st = None ->
  allRequiredResponded (markReport h ok st (progress a)) = false ->
  counts_wf (saveParticipantStarted (set_progress a (markReport h ok st (progress a)))) (markReport h ok st (progress a)).
Proof.
  intros Hs Hb Hst Ho.
  assert (Hstarted : forall h', saveParticipantStarted (set_progress a (markReport h ok st (progress a))) h' = saveParticipantStarted a h').
  { intros h'. unfold saveParticipantStarted, markReport. simpl. by destruct (participantTime a), ok. }
  assert (Hnc : clientStates (progress a) !! h = None).
  { apply not_elem_of_dom. intros Hin%(sw_states _ _ _ Hs). pose proof (sw_begun_complete _ _ _ Hs). set_solver. }
  pose proof (sw_started _ _ _ Hs) as Hold. destruct Hs. unfold markReport in *. destruct ok; split; try exact Ho; try done; cbn -[statesSize maxFederationClientStateBytes] in *.
  - set_solver.
  - set_solver.
  - set_solver.
  - set_solver.
  - intros h' Hh'. rewrite Hstarted. apply Hold. set_solver.
  - case_bool_decide; [set_solver|]. rewrite dom_insert. set_solver.
  - case_bool_decide; [done|]. rewrite statesSize_insert by done. unfold validateClientStateAdmission in Hst. zbool; first [done|lia].
  - set_solver.
  - set_solver.
  - set_solver.
  - set_solver.
  - intros h' Hh'. rewrite Hstarted. apply Hold. set_solver.
Qed.
Lemma fresh_counts started p : state p = StateInitiated -> federates p = sortedHandles (required p) -> begun p = ∅ -> complete p = ∅ -> notComp p = ∅ -> clientStates p = ∅ ->
  counts_wf started p.
Proof.
  intros H1 H2 H3 H4 H5 H6. split; rewrite ?H3, ?H4, ?H5, ?H6; try done; try set_solver.
  destruct (decide (required p = ∅)) as [He|Hn].
  - unfold allRequiredResponded. by rewrite bool_decide_true.
  - apply set_choose_L in Hn as (h & Hh). apply responded_false. exists h. rewrite H4, H5. set_solver.
Qed.

(** ** Placing and starting *)
Lemma placed_wf fed v req lbl at_ members bar g es :
  fed_wf fed (vm v) -> restore (vm v) !! fed = None -> barrier_held at_ bar es ->
  let a := newActiveSave opts (nextIdent (vm v)) req lbl at_ members bar g in
  forall v0, vm v0 = vm v ->
  fed_wf fed (vm (placeView fed a (saves (vm v) !! fed) v0)).
Proof.
  intros Hf Hr Hb a v0 E. destruct Hf as [F1 F2 F3 F4 F5 F6 F7].
  assert (Hw : waiting (progress a) = bool_decide (is_Some at_)) by done.
  assert (Hm : vm (placeView fed a (saves (vm v) !! fed) v0) =
    Manager_ (<[fed := a]> (saves (vm v))) (restore (vm v))
      (<[(fed, lbl) := StateInitiated]> (completed (forgetCompleted fed (saves (vm v) !! fed) (vm v)))) (completedRestore (vm v)) (history (vm v))
      (if waiting (progress a) then <[fed := nextIdent (vm v)]> (pendingSchedules (forgetCompleted fed (saves (vm v) !! fed) (vm v)))
       else pendingSchedules (forgetCompleted fed (saves (vm v) !! fed) (vm v))) (pendingResumes (vm v)) (nextIdent (vm v) + 1)).
  { unfold placeView, placeSave. simpl. rewrite E. unfold forgetCompleted. destruct (saves (vm v) !! fed); by destruct (bool_decide _). }
  rewrite Hm. clear Hm.
  assert (Hp : pendingSchedules (forgetCompleted fed (saves (vm v) !! fed) (vm v)) !! fed = None).
  { unfold forgetCompleted. destruct (saves (vm v) !! fed) eqn:Es; simpl; [by rewrite lookup_delete_eq|by apply F4]. }
  split; simpl; rewrite ?lookup_insert_eq; try done.
  - intros ? [= <-]. destruct (fresh_counts (saveParticipantStarted a) (progress a)) as []; try done. split; try done.
    + rewrite Hw. intros Ht%bool_decide_eq_true. unfold a, newActiveSave. simpl. destruct Hb as [? ?|? ?|Hn]; simpl; [eauto|eauto|]. by destruct Ht; rewrite Hn in *.
    + intros Ht. unfold a, newActiveSave in *. simpl in *. by destruct Hb; destruct Ht.
    + simpl. by rewrite lookup_insert_eq.
    + simpl. lia.
    + simpl. destruct (bool_decide _); [by rewrite lookup_insert_eq|done].
  - intros b Hb'. by rewrite Hr in Hb'.
  - by right.
  - intros l. destruct (decide (l = lbl)) as [->|Hn]; [intros _; by exists a|]. rewrite lookup_insert_ne by congruence.
    unfold forgetCompleted. destruct (saves (vm v) !! fed) as [p|] eqn:Es; simpl.
    + destruct (decide (l = label p)) as [->|Hn']; [by rewrite lookup_delete_eq|]. rewrite lookup_delete_ne by congruence.
      intros (p' & Hp' & <-)%F6. congruence.
    + intros (p' & Hp' & _)%F6. congruence.
Qed.
Lemma advanced_wf fed m a f :
  fed_wf fed m -> saves m !! fed = Some a -> waiting (progress a) = true -> counts_wf (saveParticipantStarted (set_progress a (f (progress a)))) (f (progress a)) ->
  releaseTime (f (progress a)) = releaseTime (progress a) -> fed_wf fed (settleSchedule fed (update_save fed f m)).
Proof.
  intros Hf Ha Hw Hc Hr. pose proof (fw_save _ _ _ Hf _ Ha) as Hs. pose proof (update_save_lookup fed f m a Ha) as Hl.
  apply base_fed; [apply base_settle, base_update, fed_base, Hf| |rewrite settle_saves, Hl; done].
  rewrite settle_saves, Hl. intros ? [= <-]. destruct (settle_completed fed (update_save fed f m)) as [Ec En].
  destruct Hc, Hs. rewrite Hw in *. split; simpl; try done; rewrite ?Hr, ?Ec, ?En; try done.
  - intros _. by apply sw_barrier.
  - rewrite (settle_pending _ _ _ Hl). simpl. rewrite sw_pending. done.
Qed.
Lemma started_counts started started' p q : counts_wf started p -> (forall h, started h = true -> started' h = true) ->
  state q = state p -> federates q = federates p -> required q = required p -> begun q = begun p -> complete q = complete p -> notComp q = notComp p -> clientStates q = clientStates p ->
  counts_wf started' q.
Proof.
  intros Hc Hs E1 E2 E3 E4 E5 E6 E7. pose proof (cw_started _ _ Hc) as Hst. destruct Hc. split; rewrite ?E1, ?E2, ?E3, ?E4, ?E5, ?E6, ?E7; try done.
  - unfold allRequiredResponded in *. by rewrite E3, E5, E6.
  - intros h Hh. by apply Hs, Hst.
Qed.

(** ** Restores *)
Lemma routeTable_valid l t t' : routeTable l t = Some t' -> t !! InvalidFederateHandle = None -> t' !! InvalidFederateHandle = None.
Proof.
  revert t. induction l as [|[h saved] l IH]; intros t; [by intros [= ->]|]. cbn [routeTable]. destruct (_ || _) eqn:E; [done|].
  apply orb_false_iff in E as [_ E%Z.eqb_neq]. intros Ht Hn. eapply IH; [exact Ht|]. by rewrite lookup_insert_ne.
Qed.
Lemma restoreDone_fresh b : r_complete b = ∅ -> r_notComp b = ∅ -> r_required b <> ∅ -> restoreDone b = false.
Proof.
  intros E1 E2 Hn. unfold restoreDone. rewrite E1, E2, size_empty. apply andb_false_intro2, Z.eqb_neq. intros E.
  apply Hn, leibniz_equiv, size_empty_inv. lia.
Qed.
Lemma restore_prepared_wf fed lbl b mf rs routes v v0 :
  fed_wf fed (vm v0) -> saves (vm v0) !! fed = None -> restore (vm v0) !! fed = None -> loading (nextIdent (vm v0)) lbl b -> planned opts b -> routed mf rs routes ->
  vm v = set_ident (vm v0) (nextIdent (vm v0) + 1) -> fed_wf fed (vm (preparedView fed lbl b mf routes v)).
Proof.
  intros [F1 F2 F3 F4 F5 F6 F7] Hs Hrn (L1 & L2 & L3 & L4 & L5 & L6 & L7 & L8) Hp [Hr Hne] Ev. unfold preparedView, restoringView. cbn [vm]. rewrite Ev. split; simpl; rewrite ?Hs; try done.
  - intros b' Hb'. rewrite lookup_insert_eq in Hb'. injection Hb' as <-.
    assert (Hnd : dom routes <> ∅) by (intros E; apply Hne; by apply dom_empty_iff_L). split; simpl; try done.
    + apply not_elem_of_dom. by eapply routeTable_valid.
    + by apply restoreDone_fresh.
    + by rewrite L2, lookup_insert_eq.
    + rewrite L1. lia.
  - by left.
  - intros _. by apply F4.
  - intros l (a & Ha & _)%F6. congruence.
  - intros l st. destruct (decide (l = lbl)) as [->|Hn].
    + rewrite lookup_insert_eq. intros [= <-]. right; right. split; [done|]. eexists. by rewrite lookup_insert_eq.
    + rewrite lookup_insert_ne by congruence. intros [?|[?|(_ & b' & Hb' & Hl)]]%F7; [by left|by right; left|].
      congruence.
Qed.
Lemma counted_wf fed h ok v b :
  fed_wf fed (vm v) -> restore (vm v) !! fed = Some b -> h ∈ r_required b -> h ∉ r_complete b -> h ∉ r_notComp b ->
  restoreDone (markRestored h ok b) = false -> fed_wf fed (vm (restoringView fed (markRestored h ok b) v)).
Proof.
  intros [F1 F2 F3 F4 F5 F6 F7] Hb Hr Hc Hn Hd. assert (Hs : saves (vm v) !! fed = None) by (destruct F3; [done|congruence]).
  pose proof (F2 _ Hb) as Hw. split; simpl; rewrite ?Hs; try done.
  - intros b' Hb'. rewrite lookup_insert_eq in Hb'. injection Hb' as <-. destruct Hw. split; try done; unfold markRestored; simpl.
    + destruct ok; set_solver.
    + destruct ok; set_solver.
  - by left.
  - intros _. by apply F4.
  - intros l (a & Ha & _)%F6. congruence.
  - intros l st [?|[?|(? & b' & Hb' & Hl)]]%F7; [by left|by right; left|]. right; right. split; [done|]. rewrite Hb in Hb'. injection Hb' as <-.
    exists (markRestored h ok b). by rewrite lookup_insert_eq.
Qed.
Lemma dropped_wf fed b final m0 m :
  fed_wf fed m -> restore m !! fed = Some b -> final = RestoreCompleted \/ final = RestoreFailed ->
  saves m0 = saves m -> completed m0 = completed m -> completedRestore m0 = completedRestore m -> pendingSchedules m0 = pendingSchedules m ->
  nextIdent m0 = nextIdent m -> (is_Some (pendingResumes m0 !! fed) -> is_Some (ResumeTime opts)) -> fed_wf fed (dropRestore fed (r_label b) final m0).
Proof.
  intros [F1 F2 F3 F4 F5 F6 F7] Hb Hf E1 E2 E3 E4 E5 E6. assert (Hs : saves m !! fed = None) by (destruct F3; [done|congruence]).
  split; simpl; rewrite ?E1, ?E2, ?E3, ?E4, ?Hs, ?lookup_delete_eq; try done.
  - by left.
  - intros _. by apply F4.
  - intros l (a & Ha & _)%F6. congruence.
  - intros l st. destruct (decide (l = r_label b)) as [->|Hn].
    + rewrite lookup_insert_eq. intros [= <-]. destruct Hf; [by left|by right; left].
    + rewrite lookup_insert_ne by congruence. intros [?|[?|(? & b' & Hb' & Hl)]]%F7; [by left|by right; left|]. congruence.
Qed.
Lemma forgottenResume_wf fed m : fed_wf fed m -> fed_wf fed (forgottenResume fed m).
Proof.
  intros [F1 F2 F3 F4 F5 F6 F7]. split; try done.
  - intros a Ha. eapply save_wf_mono; [by apply F1|done|done|simpl; lia].
  - intros b Hb. eapply restore_wf_mono; [by apply F2|done|simpl; lia].
  - simpl. rewrite lookup_delete_eq. by intros [].
Qed.
Lemma destroyed_wf fed v : fed_wf fed (vm (destroyedView fed v)).
Proof.
  assert (Hf : forall V (t : gmap (FederationName * string) V) (l : string), filter (fun x : (FederationName * string) * V => x.1.1 <> fed) t !! (fed, l) = None).
  { intros V t l. rewrite map_lookup_filter. destruct (t !! (fed, l)); simpl; [|done]. rewrite option_guard_False; [done|]. simpl. tauto. }
  split; simpl; intros *; rewrite ?lookup_delete_eq, ?Hf; try done; try (by left); intros []; done.
Qed.
End Preserve.

(** * Save and restore: one request

    A request touches the rows of its federation only ([step_elsewhere]) and
    keeps the invariant ([request_wf]). *)
Section Steps.
Context {T : Type} `{LogicalTimeScalar T} `{EqDecision T} (opts : OptionsOf T).
Implicit Types (fed : FederationName) (h : FederateHandle) (v : view T) (m : ManagerOf T) (a : activeSaveOf T) (b : activeRestoreOf T) (p : saveProgress).
Abbreviation fed_wf := (fed_wf opts).

(** ** The other federations *)
Lemma elsewhere_then fed m1 m2 m3 : elsewhere fed m1 m2 -> elsewhere fed m2 m3 -> elsewhere fed m1 m3.
Proof. intros H1 H2. by etrans. Qed.
Lemma elsewhere_place fed a prev v : elsewhere fed (vm v) (vm (placeView fed a prev v)).
Proof. eapply elsewhere_then; [apply elsewhere_forgetCompleted|apply elsewhere_placeSave]. Qed.
Lemma elsewhere_closed fed a saved v : elsewhere fed (vm v) (vm (closedView opts fed a saved v)).
Proof.
  unfold closedView. destruct saved; [|apply elsewhere_endView]. eapply elsewhere_then; [|apply elsewhere_endView]. apply elsewhere_history.
Qed.
Lemma elsewhere_progress fed a v r v' : progress_view opts fed a v r v' -> elsewhere fed (vm v) (vm v').
Proof.
  assert (Hu : forall f, elsewhere fed (vm v) (settleSchedule fed (update_save fed f (vm v)))).
  { intros f. eapply elsewhere_then; [apply elsewhere_update|apply elsewhere_settleSchedule]. }
  intros []; subst; try done; try apply Hu; [apply elsewhere_endView|..]; (eapply elsewhere_then; [|apply elsewhere_endView]); apply Hu.
Qed.
Lemma elsewhere_restoring fed b v : elsewhere fed (vm v) (vm (restoringView fed b v)).
Proof. apply elsewhere_restore. Qed.
Lemma elsewhere_finished fed b final resume v : elsewhere fed (vm v) (vm (finishedView fed b final resume v)).
Proof. unfold finishedView. cbn [vm]. destruct resume; [eapply elsewhere_then; [|apply elsewhere_resumes]|]; apply elsewhere_dropRestore. Qed.
Lemma step_elsewhere q v r v' : step_view opts q v r v' -> elsewhere (federationOf q) (vm v) (vm v').
Proof.
  destruct q; simpl.
  - intros []; subst; [done|..]; [|eapply elsewhere_then; [|apply elsewhere_endView]];
      apply (elsewhere_place fed _ _ (View (vm v) (vt v ++ es))).
  - intros [->|(a & _ & _ & ->)]; [done|apply elsewhere_update].
  - intros [| | |a0 r0 v0 _ _ _ _ p _ (saved & es & _ & ->)]; [done|apply elsewhere_endView|apply elsewhere_update|].
    eapply elsewhere_then; [|apply (elsewhere_closed fed _ _ (after es _))]. apply elsewhere_update.
  - intros [->|(a & _ & ->)]; [done|apply elsewhere_endView].
  - intros (r1 & v1 & Hl & Hv'). assert (He : elsewhere fed (vm v) (vm v1)).
    { destruct Hl as [|a r2 v2 _ _ _ Hp]; [done|by eapply elsewhere_progress]. }
    destruct Hv' as [->| ->]; [done|]. eapply elsewhere_then; [exact He|apply elsewhere_forgottenResume].
  - intros [->|(a & _ & _ & _ & ->)]; [done|apply elsewhere_endView].
  - intros [->|(g & hist & ->)]; [done|apply elsewhere_history].
  - intros []; subst; [done|..].
    + eapply elsewhere_then; [apply elsewhere_completedRestore|]. apply elsewhere_ident. simpl. lia.
    + eapply elsewhere_then; [|apply (elsewhere_prepared fed lbl b mf routes (after es _))]. apply elsewhere_ident. simpl. lia.
  - intros []; [done|apply elsewhere_restoring|]. eapply elsewhere_then; [apply (elsewhere_restoring fed b)|apply (elsewhere_finished fed b final resume (after es _))].
  - intros [->|(b & _ & ->)]; [done|apply elsewhere_dropRestore].
  - intros ->. simpl. unfold ObserveCheckpointCallbackEntry. destruct isRestore.
    + destruct (restore (vm v) !! fed); [|done]. destruct (_ || _); [done|apply elsewhere_update_restore].
    + destruct (saves (vm v) !! fed); [|done]. destruct (_ || _); [done|apply elsewhere_update].
  - intros ->. eapply elsewhere_then; [apply elsewhere_forgetFederation|apply elsewhere_forgottenResume].
  - by intros ->.
Qed.

(** ** The federation of the request *)
Lemma closed_wf fed a0 p saved v : fed_wf fed (vm v) -> saves (vm v) !! fed = Some a0 -> forall f es, p = f (progress a0) ->
  fed_wf fed (vm (closedView opts fed (set_progress a0 p) saved (after es (View (update_save fed f (vm v)) (vt v))))).
Proof.
  intros Hf Ha f es ->. pose proof (base_update opts fed f _ (fed_base _ _ _ Hf)) as Hb. pose proof (update_save_lookup fed f _ _ Ha) as Hl.
  unfold closedView. destruct saved.
  - apply end_wf; simpl; [|done|done]. destruct Hb as [B1 B2 B3 B4 B5]. split; simpl; try done.
    intros b Hb. eapply restore_wf_mono; [by apply B1|done|simpl; lia].
  - by apply end_wf.
Qed.
Lemma initiated_counts fed m a l : save_wf fed m a -> is_Some (participantTime a) ->
  counts_wf (saveParticipantStarted (set_progress a (markInitiated l (progress a)))) (markInitiated l (progress a)).
Proof.
  intros Hs [r Hr]. eapply started_counts; [by eapply save_counts| |done..]. intros h. unfold saveParticipantStarted, markInitiated. simpl. rewrite Hr.
  rewrite !bool_decide_eq_true. set_solver.
Qed.
Lemma resumed_counts fed m a : save_wf fed m a -> participantTime a = None ->
  counts_wf (saveParticipantStarted (set_progress a (set_waiting (progress a) false))) (set_waiting (progress a) false).
Proof. intros Hs Hr. eapply started_counts; [by eapply save_counts| |done..]. intros h. unfold saveParticipantStarted. simpl. by rewrite Hr. Qed.
Lemma advanced_end fed a f v : fed_wf fed (vm v) -> saves (vm v) !! fed = Some a ->
  fed_wf fed (vm (endView opts fed (label a) StateNotSaved (View (settleSchedule fed (update_save fed f (vm v))) (vt v)))).
Proof.
  intros Hf Ha. apply (end_wf opts fed (set_progress a (f (progress a)))); [|by simpl; rewrite settle_saves, (update_save_lookup fed f _ _ Ha)|done].
  apply base_settle, base_update, fed_base, Hf.
Qed.
Lemma progress_wf fed a v r v' : fed_wf fed (vm v) -> saves (vm v) !! fed = Some a -> waiting (progress a) = true ->
  progress_view opts fed a v r v' -> fed_wf fed (vm v').
Proof.
  intros Hf Ha Hw Hp. pose proof (fw_save _ _ _ Hf _ Ha) as Hs. destruct Hp; subst; try done.
  - apply end_wf; [by apply fed_base|done|done].
  - eapply advanced_wf; [done..| |done]. by eapply initiated_counts.
  - by apply advanced_end.
  - eapply advanced_wf; [done..| |done]. by eapply resumed_counts.
  - by apply advanced_end.
Qed.
Lemma observed_wf fed h lbl isRestore m : fed_wf fed m -> fed_wf fed (ObserveCheckpointCallbackEntry m fed h lbl isRestore).
Proof.
  intros Hf. unfold ObserveCheckpointCallbackEntry. destruct isRestore.
  - destruct (restore m !! fed) as [b|] eqn:Eb; [|done]. destruct (_ || _); [done|]. destruct Hf as [F1 F2 F3 F4 F5 F6 F7].
    assert (Hs : saves m !! fed = None) by (destruct F3; [done|congruence]).
    split; simpl; rewrite ?Hs; try done; rewrite ?lookup_alter_eq, ?Eb; simpl.
    + intros ? [= <-]. destruct (F2 b Eb). by split.
    + by left.
    + intros _. by apply F4.
    + intros l (a & Ha & _)%F6. congruence.
    + intros l st [?|[?|(? & b' & Hb' & Hl)]]%F7; [by left|by right; left|]. right; right. split; [done|]. rewrite Eb in Hb'. injection Hb' as <-. eauto.
  - destruct (saves m !! fed) as [a|] eqn:Ea; [|done]. destruct (_ || _); [done|]. eapply update_wf; [done..| |done|done].
    eapply started_counts; [by eapply save_counts, fw_save| |done..]. done.
Qed.
Lemma finished_wf fed h ok b final resume es v :
  fed_wf fed (vm v) -> restore (vm v) !! fed = Some b -> final = RestoreCompleted \/ final = RestoreFailed -> (resume = true -> is_Some (ResumeTime opts)) ->
  fed_wf fed (vm (finishedView fed (markRestored h ok b) final resume (after es (restoringView fed (markRestored h ok b) v)))).
Proof.
  intros Hf Hb Hfin Hr. pose proof (fw_resume _ _ _ Hf) as Hpr. unfold finishedView. cbn [vm].
  assert (Hd : forall t, (is_Some (t !! fed) -> is_Some (ResumeTime opts)) -> fed_wf fed (dropRestore fed (r_label b) final (set_resumes (vm (restoringView fed (markRestored h ok b) v)) t))).
  { intros t Ht. by eapply dropped_wf. }
  destruct resume; [|by apply (Hd (pendingResumes (vm v)))]. specialize (Hd (<[fed := mf_FederationGeneration (manifest b)]> (pendingResumes (vm v))) (fun _ => Hr eq_refl)).
  by destruct ok.
Qed.
Lemma step_fed_wf q v r v' : fed_wf (federationOf q) (vm v) -> step_view opts q v r v' -> fed_wf (federationOf q) (vm v').
Proof.
  destruct q; simpl; intros Hf.
  - intros []; subst; [done|by eapply placed_wf|]. apply (end_wf opts fed (newActiveSave opts (nextIdent (vm v)) req lbl at_ members b g)); [|simpl; unfold placeSave; destruct (waiting _); simpl; by rewrite lookup_insert_eq|done].
    apply fed_base. by eapply placed_wf.
  - intros [->|(a & Ha & Hb & ->)]; [done|]. eapply update_wf; [done|done| | |]; [by eapply begun_wf; [eapply fw_save|]|..]; unfold markBegun; by destruct (dynamic a).
  - intros [| | |a0 r0 v0 Ha _ _ _ p _ (saved & es & _ & ->)]; [done|by apply end_wf; [apply fed_base|..]| |by eapply closed_wf].
    eapply update_wf; [done|done| | |]; [by eapply reported_wf; [eapply fw_save|..]|..]; unfold markReport; by destruct ok.
  - intros [->|(a & Ha & ->)]; [done|]. by apply end_wf; [apply fed_base|..].
  - intros (r1 & v1 & Hl & Hv'). assert (He : fed_wf fed (vm v1)) by (destruct Hl as [|a r2 v2 Ha _ Hw Hp]; [done|by eapply progress_wf]).
    destruct Hv' as [->| ->]; [done|by apply forgottenResume_wf].
  - intros [->|(a & Ha & _ & _ & ->)]; [done|]. by apply end_wf; [apply fed_base|..].
  - intros [->|(g & hist & ->)]; [done|]. destruct Hf as [F1 F2 F3 F4 F5 F6 F7]. split; try done; intros x Hx; [destruct (F1 x Hx)|destruct (F2 x Hx)]; by split.
  - intros []; subst; [done| |by eapply restore_prepared_wf]. destruct Hf as [F1 F2 F3 F4 F5 F6 F7]. split; simpl; try done.
    + intros a Ha. congruence.
    + intros b Hb. congruence.
    + intros l st. destruct (decide (l = lbl)) as [->|Hn]; [rewrite lookup_insert_eq; intros [= <-]; by right; left|]. rewrite lookup_insert_ne by congruence. apply F7.
  - intros []; [done|by apply counted_wf|by apply finished_wf; naive_solver].
  - intros [->|(b & Hb & ->)]; [done|]. eapply dropped_wf; [done|done|by right|done..|]. apply (fw_resume _ _ _ Hf).
  - intros ->. by apply observed_wf.
  - intros ->. apply destroyed_wf.
  - by intros ->.
Qed.
Lemma request_wf q v r v' : manager_wf opts (vm v) -> step_view opts q v r v' -> manager_wf opts (vm v').
Proof.
  intros Hw Hs. eapply elsewhere_wf; [by eapply step_elsewhere|done|]. eapply step_fed_wf; [apply Hw|done].
Qed.
Lemma reachable_wf qs : accepted opts -> manager_wf opts (mgr (serveAll opts qs start)).
Proof.
  intros Ha. apply (serveAll_inv opts (fun v => manager_wf opts (vm v)) qs start Ha); [apply empty_wf|]. intros q v r v'. apply request_wf.
Qed.
End Steps.
