(* ===== verification/SavDecision.v ===== *)
(** * Save and restore: barriers, decisions and what participants see

    Every barrier the coordinator reserves is given back once, or is held by the
    save that is under way; what decides a save or a restore; the protocol each
    participant sees ([save_spec]). *)
From stdpp Require Import gmap strings.
From Stdlib Require Import Strings.Byte.
From S2P Require Import Prelude GoBytes LogicalTime TimeScalar Fed Sav SavService SavReport SavRestore SavCalls SavEffect SavWorld SavInvariant SavPreserve.
Open Scope Z_scope.

Section Barriers.
Context {T : Type} `{LogicalTimeScalar T} `{EqDecision T} (opts : OptionsOf T).
Implicit Types (fed : FederationName) (h : FederateHandle) (v : view T) (m : ManagerOf T) (a : activeSaveOf T) (r : Z).

Definition isReserved r (e : effectOf T) : bool := match e with ReservedTime r' => r' =? r | _ => false end.
Definition isReleased r (e : effectOf T) : bool := match e with ReleasedTime r' => r' =? r | _ => false end.
Definition reservedTimes r (es : list (effectOf T)) : nat := length (filter (isReserved r) es).
Definition releasedTimes r (es : list (effectOf T)) : nat := length (filter (isReleased r) es).
Definition holds r a : nat := if bool_decide (releaseTime (progress a) = Some r) then 1 else 0.
(** How many saves under way hold the barrier [r]. *)
Definition heldBy r (t : gmap FederationName (activeSaveOf T)) : nat := map_fold (fun _ a n => holds r a + n)%nat 0%nat t.
Definition accounted r v : Prop := reservedTimes r (vt v) = (releasedTimes r (vt v) + heldBy r (saves (vm v)))%nat.

(** ** Counting *)
Lemma reserved_app r es es' : reservedTimes r (es ++ es') = (reservedTimes r es + reservedTimes r es')%nat.
Proof. unfold reservedTimes. by rewrite filter_app, length_app. Qed.
Lemma released_app r es es' : releasedTimes r (es ++ es') = (releasedTimes r es + releasedTimes r es')%nat.
Proof. unfold releasedTimes. by rewrite filter_app, length_app. Qed.
Lemma marks_counted r (w : callState T) : reservedTimes r (marks w) = reservedTimes r (trace w) /\ releasedTimes r (marks w) = releasedTimes r (trace w).
Proof.
  unfold marks. induction (trace w) as [|e es [IH1 IH2]]; [done|]. change (e :: es) with ([e] ++ es).
  rewrite filter_app, !reserved_app, !released_app, IH1, IH2. split; f_equal; by destruct e.
Qed.
Lemma held_split r t fed a : t !! fed = Some a -> heldBy r t = (holds r a + heldBy r (delete fed t))%nat.
Proof. intros Ha. unfold heldBy. rewrite (map_fold_delete_L _ _ fed a t); [done|intros; lia|done]. Qed.
Lemma held_insert r t fed a : heldBy r (<[fed := a]> t) = (holds r a + heldBy r (delete fed t))%nat.
Proof. rewrite (held_split r _ fed a) by apply lookup_insert_eq. by rewrite delete_insert_eq. Qed.
Definition heldAt r (o : option (activeSaveOf T)) : nat := match o with Some a => holds r a | None => 0 end.
Lemma held_at r t fed : heldBy r t = (heldAt r (t !! fed) + heldBy r (delete fed t))%nat.
Proof. destruct (t !! fed) as [a|] eqn:E; [by apply held_split|]. by rewrite delete_id. Qed.
Lemma released_count r (o : option (activeSaveOf T)) : releasedTimes r (released o) = heldAt r o /\ reservedTimes r (released o) = 0%nat.
Proof.
  destruct o as [a|]; [|done]. unfold released, heldAt, holds. simpl. destruct (releaseTime (progress a)) as [r'|]; [|done].
  unfold releasedTimes. cbn. destruct (Z.eqb_spec r' r) as [->|Hn]; [by rewrite bool_decide_true|]. rewrite bool_decide_false by congruence. done.
Qed.
Lemma barrier_count at_ b es r a : barrier_held at_ b es -> releaseTime (progress a) = b_release b -> reservedTimes r es = holds r a /\ releasedTimes r es = 0%nat.
Proof.
  intros Hb Ha. unfold holds. rewrite Ha. destruct Hb as [x r' _|r'|_]; simpl; [..|done]; (split; [|done]); unfold reservedTimes; cbn;
    destruct (Z.eqb_spec r' r) as [->|Hn]; try (by rewrite bool_decide_true); rewrite bool_decide_false by congruence; done.
Qed.
Lemma forfeited_count r es : forfeited es -> reservedTimes r es = releasedTimes r es.
Proof. intros [->|(r' & ->)]; [done|]. unfold reservedTimes, releasedTimes. cbn. by destruct (r' =? r). Qed.

(** ** The ways a request may leave the manager *)
Lemma accounted_after r es v : reservedTimes r es = releasedTimes r es -> accounted r v -> accounted r (after es v).
Proof. unfold accounted, after. simpl. rewrite reserved_app, released_app. lia. Qed.
Lemma accounted_saves r v v' : saves (vm v') = saves (vm v) -> vt v' = vt v -> accounted r v -> accounted r v'.
Proof. unfold accounted. by intros -> ->. Qed.
Lemma accounted_drop r fed v v' : saves (vm v') = delete fed (saves (vm v)) -> vt v' = vt v ++ released (saves (vm v) !! fed) -> accounted r v -> accounted r v'.
Proof.
  unfold accounted. intros -> ->. rewrite reserved_app, released_app, (held_at r (saves (vm v)) fed).
  destruct (released_count r (saves (vm v) !! fed)) as [-> ->]. lia.
Qed.
Lemma accounted_end r fed lbl st v : accounted r v -> accounted r (endView opts fed lbl st v).
Proof.
  apply (accounted_drop r fed); [|done]. unfold endView. simpl. destruct (saves (vm v) !! fed) as [a|]; [|done].
  unfold resumedTime. by destruct (releaseTime _), (ResumeTime opts).
Qed.
Lemma accounted_update r fed f v : (forall p, releaseTime (f p) = releaseTime p) -> accounted r v -> accounted r (View (update_save fed f (vm v)) (vt v)).
Proof.
  unfold accounted. simpl. intros Hf ->. f_equal. rewrite (held_at r (saves (vm v)) fed), (held_at r (alter _ _ _) fed), lookup_alter_eq, delete_alter.
  rewrite decide_True by done. f_equal. destruct (saves (vm v) !! fed) as [a|]; [|done]. unfold heldAt, holds. simpl. by rewrite Hf.
Qed.
Lemma accounted_settled r fed f v : (forall p, releaseTime (f p) = releaseTime p) -> accounted r v -> accounted r (View (settleSchedule fed (update_save fed f (vm v))) (vt v)).
Proof. intros Hf Hv. apply (accounted_saves r (View (update_save fed f (vm v)) (vt v))); [apply settle_saves|reflexivity|by apply accounted_update]. Qed.
Lemma accounted_place r fed at_ b es req lbl members g v : barrier_held at_ b es -> accounted r v ->
  let a := newActiveSave opts (nextIdent (vm v)) req lbl at_ members b g in
  accounted r (placeView fed a (saves (vm v) !! fed) (View (vm v) (vt v ++ es))).
Proof.
  intros Hb Hv a. destruct (barrier_count at_ b es r a Hb eq_refl) as [E1 E2]. destruct (released_count r (saves (vm v) !! fed)) as [E3 E4].
  assert (Hs : saves (placeSave fed a (forgetCompleted fed (saves (vm v) !! fed) (vm v))) = <[fed := a]> (saves (vm v))).
  { unfold placeSave, forgetCompleted. by destruct (waiting _), (saves (vm v) !! fed). }
  unfold accounted, placeView in *. cbn [vm vt]. rewrite Hs, held_insert. rewrite (held_at r (saves (vm v)) fed) in Hv.
  rewrite !reserved_app, !released_app, E1, E2, E3, E4. lia.
Qed.
Lemma accounted_closed r fed a saved v : accounted r v -> accounted r (closedView opts fed a saved v).
Proof. intros Hv. unfold closedView. destruct saved; apply accounted_end; [by eapply accounted_saves|done]. Qed.
Lemma closing_count r fed a reported saved es : closing_marks fed a reported saved es -> reservedTimes r es = releasedTimes r es.
Proof. by intros [[-> _]|(_ & mf & _ & ->)]. Qed.
Lemma imports_count r es : Forall (fun e => exists key c, e = CommittedSnapshot (T := T) key c) es -> reservedTimes r es = releasedTimes r es.
Proof. induction 1 as [|e es (key & c & ->) _ IH]; [done|]. exact IH. Qed.
Lemma imported_count r es : imported opts es -> reservedTimes r es = releasedTimes r es.
Proof. intros [Hes _]. by apply imports_count. Qed.
Lemma committed_count r l : reservedTimes r (committedBy l) = releasedTimes r (committedBy l).
Proof. apply imports_count, Forall_fmap, Forall_true. intros c. simpl. eauto. Qed.
Lemma accounted_progress r fed a v x v' : progress_view opts fed a v x v' -> accounted r v -> accounted r v'.
Proof. intros [] Hv; subst; try done; repeat apply accounted_end; try done; by apply accounted_settled. Qed.
Lemma accounted_step r q v x v' : accounted r v -> step_view opts q v x v' -> accounted r v'.
Proof.
  intros Hv. destruct q; simpl.
  - intros []; subst; [by apply (accounted_after r es), Hv; apply forfeited_count|by apply (accounted_place r fed at_)|by apply accounted_end, (accounted_place r fed at_)].
  - intros [->|(a & _ & _ & ->)]; [done|]. apply accounted_update; [|done]. intros p. unfold markBegun. by destruct (dynamic a).
  - intros [| | |a x0 v0 _ _ _ _ p _ (saved & es & Hes & ->)]; [done|by apply accounted_end|..].
    + apply accounted_update; [|done]. intros p. unfold markReport. by destruct ok.
    + apply accounted_closed, accounted_after; [by eapply closing_count|]. apply accounted_update; [|done]. intros p'. unfold markReport. by destruct ok.
  - intros [->|(a & _ & ->)]; [done|by apply accounted_end].
  - intros (r1 & v1 & Hl & Hv'). assert (He : accounted r v1) by (destruct Hl as [|a r2 v2 _ _ _ Hp]; [done|by eapply accounted_progress]).
    destruct Hv' as [->| ->]; [done|by eapply accounted_saves].
  - intros [->|(a & _ & _ & _ & ->)]; [done|by apply accounted_end].
  - intros [->|(g & hist & ->)]; [done|by eapply accounted_saves].
  - intros []; subst; [done|..]; apply (accounted_saves r (after es v)); try done; (apply accounted_after; [by apply imported_count|done]).
  - intros [|a _ _ _ _ _ _|a x0 final resume es _ _ _ _ _ b _ (l & _ & -> & _) _ _]; [done|by eapply accounted_saves|].
    apply (accounted_saves r (after (committedBy l) v)); [by destruct resume|done|]. apply accounted_after; [apply committed_count|done].
  - intros [->|(b & _ & ->)]; [done|by eapply accounted_saves].
  - intros ->. unfold ObserveCheckpointCallbackEntry. destruct isRestore.
    + destruct (restore (vm v) !! fed); [|by destruct v]. destruct (_ || _); [by destruct v|by eapply accounted_saves].
    + destruct (saves (vm v) !! fed); [|by destruct v]. destruct (_ || _); [by destruct v|by apply accounted_update].
  - intros ->. by apply (accounted_drop r fed v).
  - by intros ->.
Qed.
Lemma reachable_accounted r qs : accepted opts -> accounted r (viewOf (serveAll opts qs start)).
Proof. intros Ha. apply (serveAll_inv opts (accounted r) qs start Ha); [done|]. intros q v x v'. apply accounted_step. Qed.
End Barriers.

(** * Save and restore: what decides a save or a restore

    Which requests turn a label into a saved or a restored one, and which import
    state. *)
Section Decision.
Context {T : Type} `{LogicalTimeScalar T} `{EqDecision T} (opts : OptionsOf T).
Implicit Types (fed : FederationName) (h : FederateHandle) (v : view T) (m : ManagerOf T) (a : activeSaveOf T) (b : activeRestoreOf T).

(** ** Saves *)
Definition keepsSaved v v' : Prop := forall k, completed (vm v') !! k = Some StateSaved -> completed (vm v) !! k = Some StateSaved.
Lemma keeps_same v v' : completed (vm v') = completed (vm v) -> keepsSaved v v'.
Proof. by intros E k; rewrite E. Qed.
Lemma keeps_trans v1 v2 v3 : keepsSaved v1 v2 -> keepsSaved v2 v3 -> keepsSaved v1 v3.
Proof. unfold keepsSaved. auto. Qed.
Lemma keeps_insert v v' k st : st <> StateSaved -> completed (vm v') = <[k := st]> (completed (vm v)) -> keepsSaved v v'.
Proof.
  intros Hst E k'. rewrite E. destruct (decide (k' = k)) as [->|Hn]; [rewrite lookup_insert_eq; by intros [= ?]|by rewrite lookup_insert_ne].
Qed.
Lemma completed_end fed lbl st v : completed (vm (endView opts fed lbl st v)) = <[(fed, lbl) := st]> (completed (vm v)).
Proof. unfold endView. simpl. destruct (saves (vm v) !! fed) as [a|]; [|done]. unfold resumedTime. by destruct (releaseTime _), (ResumeTime opts). Qed.
Lemma saves_end fed lbl st v : saves (vm (endView opts fed lbl st v)) = delete fed (saves (vm v)).
Proof. unfold endView. simpl. destruct (saves (vm v) !! fed) as [a|]; [|done]. unfold resumedTime. by destruct (releaseTime _), (ResumeTime opts). Qed.
Lemma keeps_end fed lbl v : keepsSaved v (endView opts fed lbl StateNotSaved v).
Proof. by eapply keeps_insert; [|apply completed_end]. Qed.
Lemma keeps_settled fed f v : keepsSaved v (View (settleSchedule fed (update_save fed f (vm v))) (vt v)).
Proof. apply keeps_same. cbn [vm]. by destruct (settle_completed fed (update_save fed f (vm v))) as [-> _]. Qed.
Lemma keeps_place fed a v v0 : vm v0 = vm v -> keepsSaved v (placeView fed a (saves (vm v) !! fed) v0).
Proof.
  intros E k. unfold placeView. cbn [vm]. rewrite E.
  assert (Hc : completed (placeSave fed a (forgetCompleted fed (saves (vm v) !! fed) (vm v))) = <[(fed, label a) := StateInitiated]> (completed (forgetCompleted fed (saves (vm v) !! fed) (vm v)))).
  { unfold placeSave. by destruct (waiting _). }
  rewrite Hc. destruct (decide (k = (fed, label a))) as [->|Hn]; [rewrite lookup_insert_eq; by intros [= ?]|]. rewrite lookup_insert_ne by congruence.
  unfold forgetCompleted. destruct (saves (vm v) !! fed) as [p|]; simpl; [|done].
  destruct (decide (k = (fed, label p))) as [->|Hn']; [by rewrite lookup_delete_eq|by rewrite lookup_delete_ne].
Qed.
Lemma keeps_forget fed v : keepsSaved v (destroyedView fed v).
Proof. intros k. simpl. rewrite map_lookup_filter. intros (st & Hs & Hg)%bind_Some. by simplify_option_eq. Qed.
(** How a label becomes a saved one. *)
Definition savedBy q v v' : Prop :=
  exists ctx fed h ok st a mf, q = QReport (T := T) ctx fed h ok st /\ saves (vm v) !! fed = Some a /\ h ∈ begun (progress a) /\
    let p := markReport h ok st (progress a) in
    allRequiredResponded p = true /\ notComp p = ∅ /\ bundleOf fed (set_progress a p) mf /\
    v' = closedView opts fed (set_progress a p) true (after [PublishedBundle fed (generation a) mf] (reportView fed h ok st v)).
Lemma step_saved q v x v' : step_view opts q v x v' -> keepsSaved v v' \/ savedBy q v v'.
Proof.
  destruct q; simpl.
  - intros []; subst; left; [by apply keeps_same|by apply keeps_place|]. eapply keeps_trans; [|apply keeps_end]. by apply (keeps_place fed).
  - intros [->|(a & _ & _ & ->)]; left; by apply keeps_same.
  - intros [| | |a x0 v0 Ha _ Hb _ p Hp (saved & es & Hes & ->)]; [by left; apply keeps_same|by left; apply keeps_end|by left; apply keeps_same|].
    destruct saved; [right|left; eapply keeps_trans; [|apply keeps_end]; by apply keeps_same].
    destruct Hes as [[_ ?]|(Hr & mf & Hmf & ->)]; [done|]. apply negb_false_iff, bool_decide_eq_true in Hr. by exists ctx, fed, h, ok, st, a, mf.
  - intros [->|(a & _ & ->)]; left; [by apply keeps_same|apply keeps_end].
  - intros (r1 & v1 & Hl & Hv'). left. assert (He : keepsSaved v v1).
    { destruct Hl as [|a r2 v2 _ _ _ []]; subst; try apply keeps_end; try apply keeps_settled; try (by apply keeps_same); (eapply keeps_trans; [|apply keeps_end]); apply keeps_settled. }
    destruct Hv' as [->| ->]; [done|]. eapply keeps_trans; [exact He|by apply keeps_same].
  - intros [->|(a & _ & _ & _ & ->)]; left; [by apply keeps_same|apply keeps_end].
  - intros [->|(g & hist & ->)]; left; by apply keeps_same.
  - intros []; subst; left; by apply keeps_same.
  - intros []; subst; left; try (by apply keeps_same). apply keeps_same. by destruct resume.
  - intros [->|(b & _ & ->)]; left; by apply keeps_same.
  - intros ->. left. apply keeps_same. unfold ObserveCheckpointCallbackEntry.
    destruct isRestore; [destruct (restore _ !! _)|destruct (saves _ !! _)]; simpl; try done; by destruct (_ || _).
  - intros ->. left. apply keeps_forget.
  - intros ->. left. by apply keeps_same.
Qed.
Lemma all_responded p h : allRequiredResponded p = true -> h ∈ required p -> h ∈ complete p \/ h ∈ notComp p.
Proof.
  intros [_ Hall]%andb_true_iff Hh. rewrite forallb_forall in Hall. specialize (Hall h). rewrite <- list_elem_of_In, elem_of_elements in Hall.
  apply Hall in Hh. apply orb_true_iff in Hh as [?%bool_decide_eq_true|?%bool_decide_eq_true]; auto.
Qed.
Lemma report_ok h ok st p : notComp (markReport h ok st p) = ∅ -> ok = true /\ notComp p = ∅.
Proof. unfold markReport. destruct ok; simpl; [done|]. set_solver. Qed.
Lemma report_all h st p : begun p ∪ complete p ∪ notComp p ⊆ required p -> h ∈ begun p ->
  allRequiredResponded (markReport h true st p) = true -> notComp p = ∅ -> {[h]} ∪ complete p = required p.
Proof.
  intros Hm Hb Hall Hn. apply set_eq. intros h'. split; [set_solver|]. intros Hr. destruct (all_responded _ h' Hall Hr) as [Hc|Hc]; [done|]. simpl in Hc. set_solver.
Qed.

Lemma bundle_fields fed a mf : bundleOf fed a mf ->
  mf_Federation mf = fed /\ mf_Label mf = label a /\ mf_SaveTime mf = saveTime a /\ mf_Federates mf = federates (progress a) /\
  mf_FederateClientStates mf = clientStatesFor (progress a) (federates (progress a)).
Proof.
  intros (snapshots & timeImpl & modules & names & types & ->). unfold sealedManifest, saveManifest, with_eventLogBytes, manifestVersion. cbn [mf_Version].
  by destruct (generation a).
Qed.

(** ** Restores *)
Definition isImport (e : effectOf T) : bool := match e with CommittedSnapshot _ _ => true | _ => false end.
Definition importsOf (es : list (effectOf T)) : list (effectOf T) := filter isImport es.
Lemma imports_app es es' : importsOf (es ++ es') = importsOf es ++ importsOf es'.
Proof. apply filter_app. Qed.
Lemma imports_marks (w : callState T) : importsOf (marks w) = importsOf (trace w).
Proof.
  unfold marks. induction (trace w) as [|e es IH]; [done|]. change (e :: es) with ([e] ++ es). rewrite filter_app, !imports_app, IH. f_equal. by destruct e.
Qed.
Lemma imports_committed l : importsOf (committedBy l) = committedBy l.
Proof. unfold committedBy. induction l as [|c l IH]; [done|]. unfold importsOf in *. cbn [fmap list_fmap]. rewrite filter_cons_True by done. f_equal. exact IH. Qed.
Lemma imports_released (o : option (activeSaveOf T)) : importsOf (released o) = [].
Proof. unfold released. destruct o as [a|]; [|done]. simpl. by destruct (releaseTime _). Qed.
Lemma imports_forfeited es : forfeited es -> importsOf es = [].
Proof. by intros [->|(r & ->)]. Qed.
Lemma imports_held at_ bar es : barrier_held at_ bar es -> importsOf es = [].
Proof. by intros []. Qed.
Lemma imports_closing fed a reported saved es : closing_marks fed a reported saved es -> importsOf es = [].
Proof. by intros [[-> _]|(_ & mf & _ & ->)]. Qed.
(** Nothing is imported and no label becomes a restored one. *)
Record keepsRestored v v' : Prop := {
  kr_imports : importsOf (vt v') = importsOf (vt v);
  kr_labels : forall k, completedRestore (vm v') !! k = Some RestoreCompleted -> completedRestore (vm v) !! k = Some RestoreCompleted;
}.
Lemma keeps_restored_same v v' es : completedRestore (vm v') = completedRestore (vm v) -> vt v' = vt v ++ es -> importsOf es = [] -> keepsRestored v v'.
Proof. intros E1 E2 E3. split; [by rewrite E2, imports_app, E3, app_nil_r|by intros k; rewrite E1]. Qed.
Lemma restored_insert v v' k st es : st <> RestoreCompleted -> completedRestore (vm v') = <[k := st]> (completedRestore (vm v)) -> vt v' = vt v ++ es -> importsOf es = [] ->
  keepsRestored v v'.
Proof.
  intros Hst E1 E2 E3. split; [by rewrite E2, imports_app, E3, app_nil_r|]. intros k'. rewrite E1.
  destruct (decide (k' = k)) as [->|Hn]; [rewrite lookup_insert_eq; by intros [= ?]|by rewrite lookup_insert_ne].
Qed.
Lemma restored_quiet v v' : completedRestore (vm v') = completedRestore (vm v) -> vt v' = vt v -> keepsRestored v v'.
Proof. intros E1 E2. apply (keeps_restored_same v v' []); [done|by rewrite app_nil_r|done]. Qed.
Lemma restored_trans v1 v2 v3 : keepsRestored v1 v2 -> keepsRestored v2 v3 -> keepsRestored v1 v3.
Proof. intros [I1 L1] [I2 L2]. split; [congruence|auto]. Qed.
Lemma restored_end fed lbl st v : keepsRestored v (endView opts fed lbl st v).
Proof.
  apply (keeps_restored_same _ _ (released (saves (vm v) !! fed))); [|done|apply imports_released].
  unfold endView. simpl. destruct (saves (vm v) !! fed) as [a|]; [|done]. unfold resumedTime. by destruct (releaseTime _), (ResumeTime opts).
Qed.
Lemma settle_restored fed m : completedRestore (settleSchedule fed m) = completedRestore m.
Proof. unfold settleSchedule. destruct (saves m !! fed) as [a|]; [|done]. by destruct (waiting _). Qed.
Lemma restored_settled fed f v : keepsRestored v (View (settleSchedule fed (update_save fed f (vm v))) (vt v)).
Proof. apply restored_quiet; [|done]. cbn [vm]. by rewrite settle_restored. Qed.
Lemma restored_place fed a at_ bar es v : barrier_held at_ bar es -> keepsRestored v (placeView fed a (saves (vm v) !! fed) (View (vm v) (vt v ++ es))).
Proof.
  intros Hb. apply (keeps_restored_same _ _ (es ++ released (saves (vm v) !! fed))).
  - unfold placeView, placeSave, forgetCompleted. by destruct (waiting _), (saves (vm v) !! fed).
  - simpl. by rewrite app_assoc.
  - by rewrite imports_app, imports_released, (imports_held _ _ _ Hb).
Qed.
Lemma restored_closed fed a saved v : keepsRestored v (closedView opts fed a saved v).
Proof. unfold closedView. destruct saved; [|apply restored_end]. eapply restored_trans; [|apply restored_end]. by apply restored_quiet. Qed.
(** How state is imported, and a label becomes a restored one. *)
Definition importedBy q v v' : Prop :=
  exists ctx fed h b l, q = QRestoreReport (T := T) ctx fed h true /\ restore (vm v) !! fed = Some b /\ h ∈ r_required b /\ h ∉ r_complete b /\ r_notComp b = ∅ /\
    restoreDone (markRestored h true b) = true /\ l `prefix_of` default [] (commit b) /\ importsOf (vt v') = importsOf (vt v) ++ committedBy l /\
    forall k, completedRestore (vm v') !! k = Some RestoreCompleted -> completedRestore (vm v) !! k = Some RestoreCompleted \/ (k = (fed, r_label b) /\ l = default [] (commit b)).
Lemma step_restored q v x v' : strict opts = true -> step_view opts q v x v' -> keepsRestored v v' \/ importedBy q v v'.
Proof.
  intros Hst. destruct q; simpl.
  - intros []; subst; left; [apply (keeps_restored_same v _ es); [done..|by apply imports_forfeited]|by eapply restored_place|].
    eapply restored_trans; [|apply restored_end]. by eapply (restored_place fed).
  - intros [->|(a & _ & _ & ->)]; left; by apply restored_quiet.
  - intros [| | |a x0 v0 Ha _ Hb _ p Hp (saved & es & Hes & ->)]; left; [by apply restored_quiet|apply restored_end|by apply restored_quiet|].
    eapply restored_trans; [|apply restored_closed]. apply (keeps_restored_same v _ es); [done..|by eapply imports_closing].
  - intros [->|(a & _ & ->)]; left; [by apply restored_quiet|apply restored_end].
  - intros (r1 & v1 & Hl & Hv'). left. assert (He : keepsRestored v v1).
    { destruct Hl as [|a r2 v2 _ _ _ []]; subst; try apply restored_end; try apply restored_settled; try (by apply restored_quiet); (eapply restored_trans; [|apply restored_end]); apply restored_settled. }
    destruct Hv' as [->| ->]; [done|]. eapply restored_trans; [exact He|by apply restored_quiet].
  - intros [->|(a & _ & _ & _ & ->)]; left; [by apply restored_quiet|apply restored_end].
  - intros [->|(g & hist & ->)]; left; by apply restored_quiet.
  - intros [|e es v1 _ _ [_ Hes] E|mf rs routes b es v1 _ _ [_ Hes] _ _ _ E]; left; subst; [by apply restored_quiet|..]; rewrite (Hes Hst).
    + by apply (restored_insert v _ (fed, lbl) RestoreFailed []).
    + by apply (restored_insert v _ (fed, lbl) RestoreInitiated []).
  - intros [|a _ _ _ _ _ _|a x0 final resume es Ha _ Hr Hc Hn b Hd (l & Hl & -> & Hf & Hfin) Hfinal _]; [left; by apply restored_quiet..|].
    destruct (negb (bool_decide (r_notComp b = ∅))) eqn:Ef.
    + left. rewrite (Hf eq_refl). assert (final = RestoreFailed) as -> by (destruct Hfinal as [Ec|Ec]; [destruct (Hfin Ec)|]; done).
      by destruct resume; apply (restored_insert v _ (fed, r_label a) RestoreFailed []).
    + right. apply negb_false_iff, bool_decide_eq_true in Ef. assert (ok = true) as -> by (destruct ok; [done|unfold b in Ef; simpl in Ef; set_solver]).
      exists ctx, fed, h, a, l. do 7 (split; [done|]). split.
      { destruct resume; unfold finishedView, after; simpl; rewrite imports_app, imports_committed; reflexivity. }
      assert (Ec : completedRestore (vm (finishedView fed b final resume (after (committedBy l) (restoringView fed b v)))) = <[(fed, r_label a) := final]> (completedRestore (vm v))) by (by destruct resume).
      intros k. rewrite Ec. destruct (decide (k = (fed, r_label a))) as [->|Hk]; [|rewrite lookup_insert_ne by congruence; by left].
      rewrite lookup_insert_eq. intros [= ->]. right. split; [done|]. apply (Hfin eq_refl).
  - intros [->|(b & _ & ->)]; left; [by apply restored_quiet|]. apply (restored_insert v _ (fed, r_label b) RestoreFailed []); [done..|by simpl; rewrite app_nil_r|done].
  - intros ->. left. unfold ObserveCheckpointCallbackEntry. apply restored_quiet; [|done].
    destruct isRestore; [destruct (restore _ !! _)|destruct (saves _ !! _)]; simpl; try done; by destruct (_ || _).
  - intros ->. left. split; [simpl; by rewrite imports_app, imports_released, app_nil_r|]. intros k. simpl. rewrite map_lookup_filter. intros (st & Hs & Hg)%bind_Some. by simplify_option_eq.
  - intros ->. left. by apply restored_quiet.
Qed.
Lemma restore_all h b : r_complete b ⊆ r_required b -> h ∈ r_required b -> h ∉ r_complete b -> r_notComp b = ∅ ->
  restoreDone (markRestored h true b) = true -> {[h]} ∪ r_complete b = r_required b.
Proof.
  intros Hm Hr Hc Hn [_ Hs%Z.eqb_eq]%andb_true_iff. simpl in Hs. rewrite Hn, size_empty in Hs.
  apply set_subseteq_size_eq; [set_solver|lia].
Qed.
End Decision.

(** * Save and restore: what the participants of a save see

    [save_spec] is the protocol of a save as its participants know it: whom the
    save awaits, whether it is open to others and has a time, who was told, and a
    status for each federate; and how a request may change these.  Every request
    of the coordinator is a step of it. *)
Record session := Session {
  awaited : gset FederateHandle;
  openTo : bool;                        (** anybody may join *)
  timed : bool;
  told : FederateHandle -> bool;
  statusOf : FederateHandle -> SaveStatus;
}.
(** What a save still has to hear, but from [h], nobody. *)
Definition decidedBy (s : session) (h : FederateHandle) : Prop :=
  forall h', h' ∈ awaited s -> h' <> h -> statusOf s h' = FederateWaitingForFederationToSave.
Definition idle (s : session) : Prop := timed s = true /\ forall h, statusOf s h = NoSaveInProgress.
(** The same save, in which only the status of [h] changed. *)
Definition sameBut (h : FederateHandle) (s s' : session) : Prop :=
  openTo s' = openTo s /\ timed s' = timed s /\ (forall h', told s' h' = told s h') /\ forall h', h' <> h -> statusOf s' h' = statusOf s h'.

Section Spec.
Context {T : Type}.
Implicit Types (fed : FederationName) (h : FederateHandle) (σ : option session) (s : session).
Inductive save_spec fed : request (T := T) -> relation (option session) :=
| spec_stay q σ : save_spec fed q σ σ
(** A request replaces no save but one that waits for its time and told nobody;
    an immediate one tells every participant, a timed one nobody. *)
| spec_request ctx req lbl at_ aware σ s' :
    (forall s, σ = Some s -> idle s) -> timed s' = bool_decide (is_Some at_) ->
    (forall h, h ∈ awaited s' -> told s' h = bool_decide (at_ = None)) -> (is_Some at_ -> forall h, told s' h = false) ->
    (forall h, statusOf s' h = if told s' h && bool_decide (h ∈ awaited s') then FederateInstructedToSave else NoSaveInProgress) ->
    save_spec fed (QSave ctx fed req lbl at_ aware) σ (Some s')
| spec_request_fails ctx req lbl at_ aware σ : (forall s, σ = Some s -> idle s) -> save_spec fed (QSave ctx fed req lbl at_ aware) σ None
(** At its time a save tells participants that were not told before. *)
| spec_tell ctx s s' :
    timed s = true -> awaited s' = awaited s -> openTo s' = openTo s -> timed s' = timed s -> (forall h, told s h = true -> told s' h = true) ->
    (forall h, told s h = false -> statusOf s h = NoSaveInProgress) ->
    (forall h, statusOf s' h = if told s' h && negb (told s h) && bool_decide (h ∈ awaited s) then FederateInstructedToSave else statusOf s h) ->
    save_spec fed (QProgress ctx fed) (Some s) (Some s')
| spec_begin h s s' :
    h <> InvalidFederateHandle -> told s h = true ->
    (if openTo s then awaited s' = {[h]} ∪ awaited s /\ (statusOf s h = FederateInstructedToSave \/ statusOf s h = NoSaveInProgress)
     else awaited s' = awaited s /\ h ∈ awaited s /\ statusOf s h = FederateInstructedToSave) ->
    sameBut h s s' -> statusOf s' h = FederateSaving -> save_spec fed (QBegun fed h) (Some s) (Some s')
(** A report ends the save exactly when it is the last one awaited. *)
| spec_report ctx h ok st s s' :
    statusOf s h = FederateSaving -> ~ decidedBy s h -> awaited s' = awaited s -> sameBut h s s' -> statusOf s' h = FederateWaitingForFederationToSave ->
    save_spec fed (QReport ctx fed h ok st) (Some s) (Some s')
| spec_decide ctx h ok st s : statusOf s h = FederateSaving -> decidedBy s h -> save_spec fed (QReport ctx fed h ok st) (Some s) None
(** The participants of a timed save changed under it, or it failed at its time. *)
| spec_broken ctx h ok st s : timed s = true -> told s h = true -> save_spec fed (QReport ctx fed h ok st) (Some s) None
| spec_late ctx s : timed s = true -> save_spec fed (QProgress ctx fed) (Some s) None
| spec_lost lost g s : lost ∈ awaited s -> save_spec fed (QLost fed lost g) (Some s) None
| spec_abort s : save_spec fed (QAbortSave fed) (Some s) None
| spec_destroyed σ : save_spec fed (QDestroyed fed) σ None.
End Spec.

Section Status.
Context {T : Type} `{LogicalTimeScalar T} `{EqDecision T} (opts : OptionsOf T).
Implicit Types (fed : FederationName) (h : FederateHandle) (v : view T) (m : ManagerOf T) (a : activeSaveOf T).
Definition pictureOf a : session :=
  Session (required (progress a)) (dynamic a) (bool_decide (is_Some (saveTime a))) (saveParticipantStarted a) (saveStatusOf (Some a)).
Definition pictureIn m fed : option session := pictureOf <$> saves m !! fed.

(** ** Statuses *)
Lemma picture_active m fed a : saves m !! fed = Some a -> pictureIn m fed = Some (pictureOf a).
Proof. unfold pictureIn. by intros ->. Qed.
Lemma picture_none m fed : saves m !! fed = None -> pictureIn m fed = None.
Proof. unfold pictureIn. by intros ->. Qed.
Lemma picture_same m m' fed : saves m' !! fed = saves m !! fed -> pictureIn m' fed = pictureIn m fed.
Proof. unfold pictureIn. by intros ->. Qed.
Lemma spec_same fed (q : request (T := T)) m m' : saves m' !! fed = saves m !! fed -> save_spec fed q (pictureIn m fed) (pictureIn m' fed).
Proof. intros E. rewrite (picture_same _ _ _ E). constructor. Qed.
Lemma status_untold a h : saveParticipantStarted a h = false -> saveStatusOf (Some a) h = NoSaveInProgress.
Proof. unfold saveStatusOf. by intros ->. Qed.
(** A participant that has not reported and has not begun. *)
Lemma status_fresh a h : h ∉ begun (progress a) -> h ∉ complete (progress a) -> h ∉ notComp (progress a) ->
  saveStatusOf (Some a) h = if saveParticipantStarted a h && bool_decide (h ∈ required (progress a)) then FederateInstructedToSave else NoSaveInProgress.
Proof.
  intros H1 H2 H3. unfold saveStatusOf. rewrite (bool_decide_false _ H1), (bool_decide_false _ H2), (bool_decide_false _ H3). by destruct (saveParticipantStarted a h).
Qed.
Lemma unstarted_fresh fed m a h : save_wf fed m a -> saveParticipantStarted a h = false -> h ∉ begun (progress a) ∪ complete (progress a) ∪ notComp (progress a).
Proof. intros Hs Hn Hin. pose proof (sw_started _ _ _ Hs h Hin). congruence. Qed.
Lemma saving_status fed m a h : save_wf fed m a -> h ∈ begun (progress a) -> saveStatusOf (Some a) h = FederateSaving.
Proof.
  intros Hs Hb. pose proof (sw_started _ _ _ Hs h) as Hst. pose proof (sw_begun_complete _ _ _ Hs). pose proof (sw_begun_notComp _ _ _ Hs).
  unfold saveStatusOf. rewrite Hst by set_solver. rewrite (bool_decide_false (h ∈ complete _)), (bool_decide_false (h ∈ notComp _)) by set_solver. simpl. by rewrite bool_decide_true.
Qed.
Lemma waiting_status fed m a h : save_wf fed m a ->
  saveStatusOf (Some a) h = FederateWaitingForFederationToSave <-> h ∈ complete (progress a) \/ h ∈ notComp (progress a).
Proof.
  intros Hs. pose proof (sw_started _ _ _ Hs h) as Hst. unfold saveStatusOf. split.
  - destruct (saveParticipantStarted a h); [|done]. destruct (_ || _) eqn:E; [apply orb_true_iff in E as [?%bool_decide_eq_true|?%bool_decide_eq_true]; auto|].
    by destruct (bool_decide (h ∈ begun (progress a))), (bool_decide (h ∈ required (progress a))).
  - intros Hin. rewrite Hst by set_solver. destruct Hin as [Hin|Hin]; rewrite (bool_decide_true _ Hin); [done|]. by rewrite orb_true_r.
Qed.
(** The implementation counts before it looks at the members; on a well-formed
    save it decides when everybody else has reported. *)
Lemma responded_decided fed m a h ok st : save_wf fed m a -> h ∈ begun (progress a) ->
  allRequiredResponded (markReport h ok st (progress a)) = true <-> decidedBy (pictureOf a) h.
Proof.
  intros Hs Hb. pose proof (sw_members _ _ _ Hs) as Hmem. set (p := markReport h ok st (progress a)).
  assert (Ereq : required p = required (progress a)) by (unfold p, markReport; by destruct ok).
  assert (Hin : forall h', h' <> h -> h' ∈ complete p \/ h' ∈ notComp p <-> h' ∈ complete (progress a) \/ h' ∈ notComp (progress a)).
  { intros h' Hn. unfold p, markReport. destruct ok; simpl; set_solver. }
  assert (Hself : h ∈ complete p \/ h ∈ notComp p) by (unfold p, markReport; destruct ok; simpl; set_solver).
  unfold decidedBy. cbn [awaited statusOf pictureOf]. setoid_rewrite (waiting_status fed m a _ Hs). split.
  - intros Hall h' Hr Hn. apply Hin; [done|]. apply (all_responded p h' Hall). by rewrite Ereq.
  - intros Hd. assert (Hall : forall h', h' ∈ required p -> h' ∈ complete p \/ h' ∈ notComp p).
    { intros h' Hr. rewrite Ereq in Hr. destruct (decide (h' = h)) as [->|Hn]; [done|]. apply Hin; auto. }
    unfold allRequiredResponded. rewrite bool_decide_false by (rewrite Ereq; set_solver). cbn [negb andb]. apply andb_true_iff. split.
    + apply negb_true_iff, Z.ltb_ge. assert (Hsub : required p ⊆ complete p ∪ notComp p) by (intros h' Hr; apply elem_of_union, Hall, Hr).
      apply subseteq_size in Hsub. pose proof (size_union_alt (complete p) (notComp p)) as Hu. pose proof (subseteq_size (notComp p ∖ complete p) (notComp p) ltac:(set_solver)). lia.
    + apply forallb_forall. intros h' Hr%list_elem_of_In. rewrite elem_of_elements in Hr. apply orb_true_iff. rewrite !bool_decide_eq_true. by apply Hall.
Qed.

(** ** The ways a request may leave the manager *)
Lemma end_none fed lbl st v : saves (vm (endView opts fed lbl st v)) !! fed = None.
Proof. by rewrite saves_end, lookup_delete_eq. Qed.
Lemma closed_none fed a saved v : saves (vm (closedView opts fed a saved v)) !! fed = None.
Proof. unfold closedView. destruct saved; apply end_none. Qed.
Lemma idle_picture fed m : fed_wf opts fed m -> (forall p, saves m !! fed = Some p -> waiting (progress p) = true /\ initiated (progress p) = ∅) ->
  forall s, pictureIn m fed = Some s -> idle s.
Proof.
  intros Hf Hp s. unfold pictureIn. destruct (saves m !! fed) as [a|] eqn:Ea; [|done]. intros [= <-]. destruct (Hp a eq_refl) as [Hw Hi].
  destruct (sw_barrier _ _ _ (fw_save _ _ _ Hf a Ea) Hw) as (Ht & _). split; [by apply bool_decide_eq_true|]. intros h. apply status_untold.
  unfold saveParticipantStarted. rewrite Hw, Hi. by destruct (participantTime a).
Qed.
(** A save at its time, its participants as before, more of them told. *)
Lemma spec_started fed ctx a a' m m' : save_wf fed m a -> waiting (progress a) = true -> saves m !! fed = Some a -> saves m' !! fed = Some a' ->
  begun (progress a') = begun (progress a) -> complete (progress a') = complete (progress a) -> notComp (progress a') = notComp (progress a) ->
  required (progress a') = required (progress a) -> dynamic a' = dynamic a -> saveTime a' = saveTime a -> (forall h, saveParticipantStarted a h = true -> saveParticipantStarted a' h = true) ->
  save_spec fed (QProgress (T := T) ctx fed) (pictureIn m fed) (pictureIn m' fed).
Proof.
  intros Hs Hw Ha Ha' E1 E2 E3 E4 E5 E6 Hst. rewrite (picture_active _ _ _ Ha), (picture_active _ _ _ Ha').
  destruct (sw_barrier _ _ _ Hs Hw) as (Ht & _). apply spec_tell; cbn [pictureOf awaited openTo timed told statusOf]; [by apply bool_decide_eq_true|done|done|by rewrite E6|done|apply status_untold|].
  intros h. destruct (saveParticipantStarted a h) eqn:En.
  - rewrite andb_false_r. unfold saveStatusOf. by rewrite (Hst _ En), En, E1, E2, E3, E4.
  - assert (Hf := unstarted_fresh fed m a h Hs En). rewrite (status_untold a h En), status_fresh by (rewrite ?E1, ?E2, ?E3; set_solver). rewrite E4, andb_true_r. done.
Qed.
Lemma spec_placed fed ctx req req' lbl at_ aware members bar es g es' v : fed_wf opts fed (vm v) ->
  (forall p, saves (vm v) !! fed = Some p -> waiting (progress p) = true /\ initiated (progress p) = ∅) -> barrier_held at_ bar es ->
  let a := newActiveSave opts (nextIdent (vm v)) req lbl at_ members bar g in
  save_spec fed (QSave (T := T) ctx fed req' lbl at_ aware) (pictureIn (vm v) fed) (pictureIn (vm (placeView fed a (saves (vm v) !! fed) (View (vm v) (vt v ++ es')))) fed).
Proof.
  intros Hf Hp Hb a. assert (Hs : saves (vm (placeView fed a (saves (vm v) !! fed) (View (vm v) (vt v ++ es')))) !! fed = Some a).
  { unfold placeView, placeSave. simpl. destruct (bool_decide (is_Some at_)); simpl; by rewrite lookup_insert_eq. }
  rewrite (picture_active _ _ _ Hs). apply spec_request; cbn [pictureOf awaited openTo timed told statusOf]; [by apply idle_picture|done|..].
  - intros h Hh. unfold saveParticipantStarted, a, newActiveSave in *. cbn [participantTime progress initiated waiting required] in *.
    destruct (b_participant bar), at_ as [t|]; [by rewrite !bool_decide_false by (set_solver || done)|by rewrite !bool_decide_true|done|done].
  - intros [t ->] h. unfold saveParticipantStarted, a, newActiveSave. cbn. destruct (b_participant bar); [|done]. by apply bool_decide_eq_false, not_elem_of_empty.
  - intros h. apply status_fresh; apply not_elem_of_empty.
Qed.
Lemma settled_lookup fed f v a : saves (vm v) !! fed = Some a ->
  saves (vm (View (settleSchedule fed (update_save fed f (vm v))) (vt v))) !! fed = Some (set_progress a (f (progress a))).
Proof. intros Ha. cbn [vm]. rewrite settle_saves. by apply update_save_lookup. Qed.
Lemma spec_progress fed ctx a v x v' : fed_wf opts fed (vm v) -> saves (vm v) !! fed = Some a -> waiting (progress a) = true -> progress_view opts fed a v x v' ->
  save_spec fed (QProgress (T := T) ctx fed) (pictureIn (vm v) fed) (pictureIn (vm v') fed).
Proof.
  intros Hf Ha Hw Hp. pose proof (fw_save _ _ _ Hf _ Ha) as Hs.
  assert (Hend : forall v0 lbl st, save_spec fed (QProgress (T := T) ctx fed) (pictureIn (vm v) fed) (pictureIn (vm (endView opts fed lbl st v0)) fed)).
  { intros v0 lbl st. rewrite (picture_none _ _ (end_none fed lbl st v0)), (picture_active _ _ _ Ha). apply spec_late, bool_decide_eq_true. apply (sw_barrier _ _ _ Hs Hw). }
  destruct Hp as [| |l x0 v0 [r Hr] _ ->|l e v0 _ ->|x0 v0 Hn ->|e v0 _ ->]; [constructor|by apply Hend|..|by apply Hend].
  - eapply spec_started; [exact Hs|done|exact Ha|by apply settled_lookup|done..|]. intros h. unfold saveParticipantStarted. simpl. rewrite Hr, !bool_decide_eq_true. set_solver.
  - by apply Hend.
  - eapply spec_started; [exact Hs|done|exact Ha|by apply settled_lookup|done..|]. intros h. unfold saveParticipantStarted. simpl. by rewrite Hn.
Qed.
Lemma spec_begun fed h a v : fed_wf opts fed (vm v) -> saves (vm v) !! fed = Some a -> mayBegin (vm v) fed h a = true ->
  save_spec fed (QBegun (T := T) fed h) (pictureIn (vm v) fed) (pictureIn (update_save fed (markBegun h a) (vm v)) fed).
Proof.
  intros Hf Ha Hb. unfold mayBegin in Hb. rewrite !andb_true_iff, negb_true_iff, Z.eqb_neq, orb_true_iff in Hb. destruct Hb as [[[[[_ [Hst Hv]] H1%bool_decide_eq_true] H2%bool_decide_eq_true] H3%bool_decide_eq_true] Hreq].
  rewrite (picture_active _ _ _ Ha), (picture_active _ _ _ (update_save_lookup fed (markBegun h a) _ _ Ha)). set (p := markBegun h a (progress a)).
  assert (Hp : begun p = {[h]} ∪ begun (progress a) /\ complete p = complete (progress a) /\ notComp p = notComp (progress a) /\ waiting p = waiting (progress a) /\ initiated p = initiated (progress a) /\
    required p = if dynamic a then {[h]} ∪ required (progress a) else required (progress a)) by (unfold p, markBegun; by destruct (dynamic a)).
  destruct Hp as (Eb & Ec & En & Ew & Ei & Er).
  assert (Hst' : forall h', saveParticipantStarted (set_progress a p) h' = saveParticipantStarted a h') by (intros h'; unfold saveParticipantStarted; cbn [progress set_progress participantTime]; by rewrite Ew, Ei).
  assert (Hfresh := status_fresh a h H1 H2 H3). rewrite Hst in Hfresh. cbn [andb] in Hfresh.
  apply spec_begin; cbn [pictureOf awaited openTo timed told statusOf]; [done|done|..].
  - cbn [set_progress progress dynamic]. rewrite Er. destruct (dynamic a); (split; [done|]); rewrite Hfresh; [case_bool_decide; auto|]. destruct Hreq as [|Hr]; [done|]. rewrite Hr. by apply bool_decide_eq_true in Hr.
  - split_and!; [done..|exact Hst'|]. intros h' Hn. cbn [statusOf pictureOf]. unfold saveStatusOf. rewrite Hst'. cbn [progress set_progress]. rewrite Eb, Ec, En, Er.
    rewrite (bool_decide_ext (h' ∈ {[h]} ∪ begun (progress a)) (h' ∈ begun (progress a))) by set_solver.
    by rewrite (bool_decide_ext (h' ∈ (if dynamic a then _ else _)) (h' ∈ required (progress a))) by (destruct (dynamic a); set_solver).
  - unfold saveStatusOf. rewrite Hst', Hst. cbn [progress set_progress]. rewrite Eb, Ec, En, (bool_decide_false _ H2), (bool_decide_false _ H3). by rewrite bool_decide_true by set_solver.
Qed.
Lemma spec_reported fed ctx h ok st a v : fed_wf opts fed (vm v) -> saves (vm v) !! fed = Some a -> h ∈ begun (progress a) ->
  allRequiredResponded (markReport h ok st (progress a)) = false ->
  save_spec fed (QReport (T := T) ctx fed h ok st) (pictureIn (vm v) fed) (pictureIn (vm (reportView fed h ok st v)) fed).
Proof.
  intros Hf Ha Hb Hall. pose proof (fw_save _ _ _ Hf _ Ha) as Hs. pose proof (update_save_lookup fed (markReport h ok st) _ _ Ha) as Ha'.
  rewrite (picture_active _ _ _ Ha). unfold reportView. cbn [vm]. rewrite (picture_active _ _ _ Ha'). set (p := markReport h ok st (progress a)) in *.
  assert (Hp : begun p = begun (progress a) ∖ {[h]} /\ waiting p = waiting (progress a) /\ initiated p = initiated (progress a) /\ required p = required (progress a)) by (unfold p, markReport; by destruct ok).
  destruct Hp as (Eb & Ew & Ei & Er).
  assert (Hc : forall h', h' ∈ complete p \/ h' ∈ notComp p <-> h' = h \/ h' ∈ complete (progress a) \/ h' ∈ notComp (progress a)) by (intros h'; unfold p, markReport; destruct ok; simpl; set_solver).
  assert (Hst' : forall h', saveParticipantStarted (set_progress a p) h' = saveParticipantStarted a h') by (intros h'; unfold saveParticipantStarted; cbn [progress set_progress participantTime]; by rewrite Ew, Ei).
  assert (Hor : forall h', bool_decide (h' ∈ complete p) || bool_decide (h' ∈ notComp p) = bool_decide (h' = h) || (bool_decide (h' ∈ complete (progress a)) || bool_decide (h' ∈ notComp (progress a)))).
  { intros h'. apply eq_true_iff_eq. rewrite !orb_true_iff, !bool_decide_eq_true. apply Hc. }
  apply spec_report; cbn [pictureOf awaited openTo timed told statusOf].
  - by eapply saving_status.
  - rewrite <- (responded_decided fed (vm v) a h ok st Hs Hb). fold p. by rewrite Hall.
  - exact Er.
  - split_and!; [done..|exact Hst'|]. intros h' Hn. cbn [statusOf pictureOf]. unfold saveStatusOf. rewrite Hst'. cbn [progress set_progress]. rewrite Hor, Eb, Er, (bool_decide_false (h' = h)) by done.
    by rewrite (bool_decide_ext (h' ∈ begun (progress a) ∖ {[h]}) (h' ∈ begun (progress a))) by set_solver.
  - unfold saveStatusOf. rewrite Hst', (sw_started _ _ _ Hs h) by set_solver. cbn [progress set_progress]. by rewrite Hor, bool_decide_true.
Qed.
Lemma observed_saves fed h lbl isRestore m f : pictureIn (ObserveCheckpointCallbackEntry m f h lbl isRestore) fed = pictureIn m fed.
Proof.
  unfold ObserveCheckpointCallbackEntry. destruct isRestore.
  - destruct (restore m !! f); [|done]. by destruct (_ || _).
  - destruct (saves m !! f) as [a|] eqn:Ea; [|done]. destruct (_ || _); [done|]. unfold pictureIn. simpl. destruct (decide (f = fed)) as [->|Hn].
    + by rewrite lookup_alter_eq, Ea.
    + by rewrite lookup_alter_ne.
Qed.
Lemma step_status q v x v' : manager_wf opts (vm v) -> step_view opts q v x v' -> save_spec (federationOf q) q (pictureIn (vm v) (federationOf q)) (pictureIn (vm v') (federationOf q)).
Proof.
  intros Hw. pose proof (Hw (federationOf q)) as Hf. destruct q; simpl in *.
  - intros [|b es members g a x0 v0 _ Hp Hb -> -> _|b es members g a e v0 _ Hp _ _ ->]; [constructor|by eapply spec_placed|].
    rewrite (picture_none _ _ (end_none _ _ _ _)). apply spec_request_fails. by apply idle_picture.
  - intros [->|(a & Ha & Hb & ->)]; [constructor|by apply spec_begun].
  - intros [|a e Ha Ht Hst|a Ha _ Hb _ Hall|a x0 v0 Ha _ Hb _ p Hall (saved & es & _ & ->)]; [constructor|..|by eapply spec_reported|].
    + rewrite (picture_none _ _ (end_none _ _ _ _)), (picture_active _ _ _ Ha). apply spec_broken; [by apply bool_decide_eq_true|done].
    + rewrite (picture_none _ _ (closed_none _ _ _ _)), (picture_active _ _ _ Ha). pose proof (fw_save _ _ _ Hf _ Ha) as Hs. apply spec_decide; [by eapply saving_status|].
      by apply (responded_decided fed (vm v) a h ok st Hs Hb).
  - intros [->|(a & Ha & ->)]; [constructor|]. rewrite (picture_none _ _ (end_none _ _ _ _)), (picture_active _ _ _ Ha). constructor.
  - intros (r1 & v1 & Hl & Hv'). assert (Hs : pictureIn (vm v') fed = pictureIn (vm v1) fed) by (by destruct Hv' as [->| ->]). rewrite Hs.
    destruct Hl as [|a r2 v2 Ha _ Hwt Hp]; [constructor|by eapply spec_progress].
  - intros [->|(a & Ha & Hl & _ & ->)]; [constructor|]. rewrite (picture_none _ _ (end_none _ _ _ _)), (picture_active _ _ _ Ha). by constructor.
  - intros [->|(g & hist & ->)]; constructor.
  - intros []; subst; by apply spec_same.
  - intros []; try (by apply spec_same). apply spec_same. by destruct resume.
  - intros [->|(b & _ & ->)]; by apply spec_same.
  - intros ->. cbn [vm]. rewrite observed_saves. constructor.
  - intros ->. rewrite (picture_none (vm (destroyedView fed v))) by apply lookup_delete_eq. constructor.
  - intros ->. constructor.
Qed.
End Status.
