(* ===== verification/SavRound.v ===== *)
(** * Save and restore: bundles and snapshots come back

    What [WriteBundle] has written is what [ReadBundle] reads, a truncated bundle
    is refused; the reversal of snapshots applied one at a time; who is restored
    from what. *)
From stdpp Require Import gmap strings.
From Stdlib Require Import Strings.Byte.
From S2P Require Import Prelude GoBytes LogicalTime TimeScalar Fed Sav SavService SavReport SavRestore SavCalls.
Open Scope Z_scope.

Section Round.
Context {T : Type} `{LogicalTimeScalar T} `{EqDecision T} (opts : OptionsOf T).
Implicit Types (mf : ManifestOf T) (w : callState T) (es : list (effectOf T)).

(** ** Inversion of calls *)
Lemma bind_ret {A B} (c : proto T A) (f : A -> proto T B) w b w' : (c ≫= f) w = (Ret b, w') -> exists a w1, c w = (Ret a, w1) /\ f a w1 = (Ret b, w').
Proof. unfold mbind, proto_bind. destruct (c w) as [[a|e|s] w1]; [eauto|done..]. Qed.
Lemma guard_ret b (e : save_error) w x w' : guard_ (T := T) b e w = (Ret x, w') -> b = true /\ w' = w.
Proof. destruct b; [by intros [= _ <-]|done]. Qed.

(** ** Writing *)
(** The bytes written, in order. *)
Definition writtenBy es : list byte := concat (omap (fun e => match e with WrotePart d => Some d | _ => None end) es).
Lemma written_app es es' : writtenBy (es ++ es') = writtenBy es ++ writtenBy es'.
Proof. unfold writtenBy. by rewrite omap_app, concat_app. Qed.
(** The call has added [es] to the record and left the manager alone. *)
Definition added w es w' : Prop := mgr w' = mgr w /\ trace w' = trace w ++ es.
Lemma added_trans w1 es w2 es' w3 : added w1 es w2 -> added w2 es' w3 -> added w1 (es ++ es') w3.
Proof. intros [M1 T1] [M2 T2]. split; [congruence|]. by rewrite T2, T1, app_assoc. Qed.
Lemma writeBundlePart_ret what data w w' : writeBundlePart opts what data w = (Ret (), w') -> exists es, added w es w' /\ writtenBy es = data.
Proof.
  unfold writeBundlePart. intros (x & w1 & Hx & (u & w2 & Hemit & Hr)%bind_ret)%bind_ret. injection Hx as <- <-. injection Hemit as <- <-.
  destruct (WriteTo opts (trace w) data) as [n [e|]]; [done|]. apply guard_ret in Hr as [Hn%Z.eqb_eq ->]. simpl in *.
  exists [WrotePart data]. split; [split; [done|]|]; simpl.
  - f_equal. f_equal. f_equal. apply take_ge. unfold zlen in Hn. lia.
  - unfold writtenBy. simpl. by rewrite app_nil_r.
Qed.
(** A bundle as it lies in a file. *)
Definition bundleBytes (manifestBytes eventLog : list byte) : list byte :=
  lenPrefix (zlen manifestBytes) ++ manifestBytes ++ lenPrefix (zlen eventLog) ++ eventLog.
Lemma WriteBundle_ret mf eventLog w w' : WriteBundle opts mf eventLog w = (Ret (), w') ->
  exists es bs, added w es w' /\ json_Marshal opts (sealedManifest mf eventLog) = inr bs /\ zlen bs <= maxManifestBytes /\ zlen eventLog <= maxEventLogBytes /\
    supportedVersion (mf_Version (sealedManifest mf eventLog)) = true /\ writtenBy es = bundleBytes bs eventLog.
Proof.
  unfold WriteBundle. intros (x1 & w1 & [Hv ->]%guard_ret & (x2 & w2 & [Hl%Z.leb_le ->]%guard_ret & (bs & w3 & Hj & Hr)%bind_ret)%bind_ret)%bind_ret.
  destruct (json_Marshal opts (sealedManifest mf eventLog)) as [e|bs']; [done|]. injection Hj as -> <-.
  apply bind_ret in Hr as (x4 & w4 & [Hb%Z.leb_le ->]%guard_ret & (x5 & w5 & H5 & (x6 & w6 & H6 & (x7 & w7 & H7 & H8)%bind_ret)%bind_ret)%bind_ret).
  destruct x5, x6, x7. apply writeBundlePart_ret in H5 as (e1 & A1 & W1), H6 as (e2 & A2 & W2), H7 as (e3 & A3 & W3).
  assert (Hlast : exists e4, added w7 e4 w' /\ writtenBy e4 = eventLog).
  { case_bool_decide as El; [|by apply writeBundlePart_ret in H8]. injection H8 as <-. exists []. split; [split; [done|by rewrite app_nil_r]|by rewrite El]. }
  destruct Hlast as (e4 & A4 & W4). exists (e1 ++ e2 ++ e3 ++ e4), bs. split; [repeat (eapply added_trans; [done|]); done|].
  do 4 (split; [done|]). rewrite !written_app, W1, W2, W3, W4. reflexivity.
Qed.

(** ** Reading *)
Definition readerOf (data : list byte) (e : option save_error) : Reader := {| r_data := data; r_end := e |}.
(** [n] bytes of a prefix of [x ++ y]: those of [x], or an early end. *)
Lemma ReadFull_prefix x y data e : data `prefix_of` x ++ y ->
  ((length data < length x)%nat /\ ReadFull (length x) (readerOf data e) = Fail e) \/
  exists rest, data = x ++ rest /\ rest `prefix_of` y /\ ReadFull (length x) (readerOf data e) = Ret (x, readerOf rest e).
Proof.
  intros [k Hk]. unfold ReadFull. simpl. destruct (Nat.ltb_spec (length data) (length x)) as [Hl|Hl]; [by left|]. right.
  exists (drop (length x) data). assert (Ht : take (length x) data = x).
  { apply (f_equal (take (length x))) in Hk. rewrite take_app_length in Hk. rewrite take_app_le in Hk by lia. by symmetry. }
  split; [|split].
  - rewrite <- Ht at 1. by rewrite take_drop.
  - exists k. apply (f_equal (drop (length x))) in Hk. rewrite drop_app_length in Hk. by rewrite drop_app_le in Hk by lia.
  - by rewrite Ht.
Qed.
Lemma length_lenPrefix n : length (lenPrefix n) = 8%nat.
Proof. apply length_putLE. Qed.
Lemma getLE_lenPrefix n : 0 <= n < 2 ^ 64 -> getLE (lenPrefix n) = n.
Proof. intros Hn. unfold lenPrefix. rewrite getLE_putLE. by apply Z.mod_small. Qed.
#[local] Opaque lenPrefix.
Lemma readLenPrefix_prefix n y data e what : 0 <= n < 2 ^ 64 -> data `prefix_of` lenPrefix n ++ y ->
  ((length data < 8)%nat /\ exists err, readLenPrefix (readerOf data e) what = Fail err) \/
  exists rest, data = lenPrefix n ++ rest /\ rest `prefix_of` y /\ readLenPrefix (readerOf data e) what = Ret (n, readerOf rest e).
Proof.
  intros Hn Hp. unfold readLenPrefix. pose proof (ReadFull_prefix _ _ _ e Hp) as Hr. rewrite length_lenPrefix in Hr.
  destruct Hr as [[Hl ->]|(rest & Hd & Hy & ->)]; [left; split; [done|by eexists]|right]. exists rest. split; [done|]. split; [done|]. cbv beta iota delta [mapErr mbind outcome_bind]. cbn [fst snd]. by rewrite getLE_lenPrefix.
Qed.
Section Manifest.
Context (mf : ManifestOf T) (bs eventLog : list byte).
Hypothesis decodes : json_Unmarshal opts bs = inr mf.
Hypothesis nonempty : bs <> [].
Hypothesis small : zlen bs <= maxManifestBytes.
Hypothesis smallLog : zlen eventLog <= maxEventLogBytes.
Hypothesis version : supportedVersion (mf_Version mf) = true.
Hypothesis size : mf_EventLogBytes mf = zlen eventLog.
Lemma zlen_positive : 0 < zlen bs.
Proof. unfold zlen. destruct bs; [done|]. simpl. lia. Qed.
Lemma readManifest_prefix y data e : data `prefix_of` lenPrefix (zlen bs) ++ bs ++ y ->
  ((length data < 8 + length bs)%nat /\ exists err, readManifest opts (readerOf data e) = Fail err) \/
  exists rest, data = lenPrefix (zlen bs) ++ bs ++ rest /\ rest `prefix_of` y /\ readManifest opts (readerOf data e) = Ret (mf, readerOf rest e).
Proof.
  intros Hp. pose proof zlen_positive as Hz. unfold readManifest. assert (Hb : 0 <= zlen bs < 2 ^ 64) by (unfold maxManifestBytes in small; lia).
  destruct (readLenPrefix_prefix _ _ data e "header" Hb Hp) as [[Hl (err & ->)]|(r1 & -> & Hr1 & ->)]; [left; split; [lia|by eexists]|]. simpl.
  rewrite (proj2 (Z.eqb_neq (zlen bs) 0)) by lia. rewrite (proj2 (Z.leb_le (zlen bs) maxManifestBytes)) by done. simpl.
  assert (Hn : Z.to_nat (zlen bs) = length bs) by (unfold zlen; lia). rewrite Hn. rewrite length_app, length_lenPrefix.
  destruct (ReadFull_prefix _ _ _ e Hr1) as [[Hl ->]|(r2 & -> & Hr2 & ->)]; [left; split; [lia|by eexists]|right]. exists r2. split; [done|]. split; [done|]. cbv beta iota delta [mapErr mbind outcome_bind]. rewrite decodes. cbn. by rewrite version.
Qed.
Lemma readEventLog_prefix y data e : data `prefix_of` lenPrefix (zlen eventLog) ++ eventLog ++ y ->
  ((length data < 8 + length eventLog)%nat /\ exists err, readEventLog (readerOf data e) (zlen eventLog) = Fail err) \/
  exists rest, data = lenPrefix (zlen eventLog) ++ eventLog ++ rest /\ rest `prefix_of` y /\ readEventLog (readerOf data e) (zlen eventLog) = Ret (eventLog, readerOf rest e).
Proof.
  intros Hp. unfold readEventLog. assert (Hb : 0 <= zlen eventLog < 2 ^ 64) by (unfold zlen, maxEventLogBytes in *; lia).
  destruct (readLenPrefix_prefix _ _ data e "event-log header" Hb Hp) as [[Hl (err & ->)]|(r1 & -> & Hr1 & ->)]; [left; split; [lia|by eexists]|]. simpl.
  rewrite Z.eqb_refl. rewrite (proj2 (Z.leb_le (zlen eventLog) maxEventLogBytes)) by done. simpl. rewrite length_app, length_lenPrefix.
  destruct (Z.eqb_spec (zlen eventLog) 0) as [E|E].
  - assert (El : eventLog = []) by (apply nil_length_inv; unfold zlen in E; lia). right. exists r1. rewrite El in Hr1 |- *. done.
  - assert (Hn : Z.to_nat (zlen eventLog) = length eventLog) by (unfold zlen; lia). rewrite Hn.
    destruct (ReadFull_prefix _ _ _ e Hr1) as [[Hl ->]|(r2 & -> & Hr2 & ->)]; [left; split; [lia|by eexists]|right]. exists r2. done.
Qed.
(** What reading does with a bundle, with what follows it or without its end. *)
Lemma ReadBundle_prefix y data e : data `prefix_of` bundleBytes bs eventLog ++ y ->
  ((length data < length (bundleBytes bs eventLog))%nat /\ exists err, ReadBundle opts (readerOf data e) = Fail err) \/
  ((length (bundleBytes bs eventLog) <= length data)%nat /\ ReadBundle opts (readerOf data e) = Ret (mf, eventLog)).
Proof.
  assert (Hlen : length (bundleBytes bs eventLog) = (8 + length bs + (8 + length eventLog))%nat) by (unfold bundleBytes; rewrite !length_app, !length_lenPrefix; lia).
  rewrite Hlen. unfold bundleBytes. rewrite <- !app_assoc. intros Hp. unfold ReadBundle.
  destruct (readManifest_prefix _ _ e Hp) as [[Hl (err & ->)]|(r1 & -> & Hr1 & ->)]; [left; split; [lia|by eexists]|]. simpl. rewrite size.
  destruct (readEventLog_prefix _ _ e Hr1) as [[Hl (err & ->)]|(r2 & -> & Hr2 & ->)]; [left|right].
  - split; [rewrite !length_app, length_lenPrefix; lia|by eexists].
  - split; [rewrite !length_app, !length_lenPrefix; lia|done].
Qed.
End Manifest.

(** ** Reversal *)
Implicit Types (fed : FederationName) (l : list (reversible (T := T))).
(** Snapshots and how their managers answered to having them applied. *)
Definition application : Type := reversible (T := T) * option save_error.
Implicit Types (ps : list application).
Definition appliedBy (pick : reversible (T := T) -> list byte) ps : list (effectOf T) := (fun p => AppliedSnapshot (v_key p.1) (pick p.1) p.2) <$> ps.
(** [x] is among the errors that [e] joins and wraps. *)
Inductive reportedIn (x : save_error) : save_error -> Prop :=
| reported_it : reportedIn x x
| reported_joined errs e : e ∈ errs -> reportedIn x e -> reportedIn x (errJoined errs).
Definition rollbackError (key : string) (e : save_error) : save_error := errWraps ("savepoint: rollback " +:+ key) [e].
Definition rollbacksReported ps e : Prop := forall p x, p ∈ ps -> p.2 = Some x -> reportedIn (rollbackError (v_key p.1) x) e.
Lemma applySnapshot_effect fed x data w : exists o, applySnapshot fed x data w = (Ret o, Call (mgr w) (trace w ++ [AppliedSnapshot (v_key x) data o])).
Proof. by eexists. Qed.
Lemma revertSnapshots_effect fed l failure w : exists ps e, ps.*1 = l /\ revertSnapshots fed l failure w = (Ret e, Call (mgr w) (trace w ++ appliedBy v_before ps)) /\
  rollbacksReported ps e /\ forall x, reportedIn x failure -> reportedIn x e.
Proof.
  revert failure w. induction l as [|x l IH]; intros failure w.
  { exists [], failure. unfold appliedBy. simpl. rewrite app_nil_r. split; [done|]. split; [by destruct w|]. split; [by intros p x ?%not_elem_of_nil|done]. }
  cbn [revertSnapshots]. unfold mbind at 1, proto_bind. destruct (applySnapshot_effect fed x (v_before x) w) as (o & ->).
  match goal with |- exists _ _, _ /\ revertSnapshots _ _ ?f _ = _ /\ _ =>
    destruct (IH f (Call (mgr w) (trace w ++ [AppliedSnapshot (v_key x) (v_before x) o]))) as (ps & e & <- & -> & Hall & He) end.
  exists ((x, o) :: ps), e. split; [done|]. split; [simpl; by rewrite <- app_assoc|]. split.
  - intros p y [->|Hp]%elem_of_cons; [|by apply Hall]. intros [= ->]. apply He. apply (reported_joined _ _ (rollbackError (v_key x) y)); [|apply reported_it].
    apply elem_of_cons. right. by apply list_elem_of_singleton.
  - intros y Hy. apply He. destruct o; [|done]. eapply reported_joined; [apply list_elem_of_here|done].
Qed.
(** A failed application: what was applied, up to the one that failed, and its
    reversal, the last applied first. *)
Lemma applyLegacy_effect fed l applied w : exists r w', applyLegacySnapshots fed l applied w = (r, w') /\
  ((r = Ret () /\ exists ps, added w (appliedBy v_after ps) w') \/
   exists e l1 x l2 ps qs, r = Fail e /\ l = l1 ++ x :: l2 /\ ps.*1 = l1 ++ [x] /\ qs.*1 = x :: reverse l1 ++ applied /\
     added w (appliedBy v_after ps ++ appliedBy v_before qs) w' /\ rollbacksReported qs e).
Proof.
  revert applied w. induction l as [|x l IH]; intros applied w.
  { exists (Ret ()), w. split; [done|]. left. split; [done|]. exists []. split; [done|by rewrite app_nil_r]. }
  cbn [applyLegacySnapshots]. unfold mbind at 1, proto_bind. destruct (applySnapshot_effect fed x (v_after x) w) as ([e|] & ->).
  - unfold mbind, proto_bind. match goal with |- context [revertSnapshots _ _ ?f ?w1] => destruct (revertSnapshots_effect fed (x :: applied) f w1) as (qs & e' & Hq & -> & Hall & _) end.
    eexists _, _. split; [reflexivity|]. right. exists e', [], x, l, [(x, Some e)], qs. do 4 (split; [done|]). split; [|done]. split; [done|]. simpl. by rewrite <- app_assoc.
  - destruct (IH (x :: applied) (Call (mgr w) (trace w ++ [AppliedSnapshot (v_key x) (v_after x) None]))) as (r & w' & -> & Hr). exists r, w'. split; [done|].
    destruct Hr as [[-> (ps & Hm & Ht)]|(e & l1 & y & l2 & ps & qs & -> & -> & Hp & Hq & [Hm Ht] & Hall)].
    + left. split; [done|]. exists ((x, None) :: ps). split; [done|]. rewrite Ht. simpl. by rewrite <- app_assoc.
    + right. exists e, (x :: l1), y, l2, ((x, None) :: ps), qs. do 2 (split; [done|]). split; [rewrite fmap_cons; by rewrite Hp|].
      split; [by rewrite Hq, reverse_cons, <- app_assoc|]. split; [|done]. split; [done|]. rewrite Ht. simpl. by rewrite <- !app_assoc.
Qed.
(** The data last applied under a key, and how it was answered. *)
Definition lastApplied (key : string) es : option (list byte * option save_error) :=
  foldl (fun o e => match e with AppliedSnapshot k d r => if bool_decide (k = key) then Some (d, r) else o | _ => o end) None es.
Lemma lastApplied_app key es es' : lastApplied key (es ++ es') = match lastApplied key es' with Some d => Some d | None => lastApplied key es end.
Proof.
  unfold lastApplied. rewrite foldl_app. match goal with |- foldl _ ?o0 _ = _ => generalize o0 as o end.
  induction es' as [|e es' IH] using rev_ind; intros o; [by destruct o|]. rewrite !foldl_app. simpl. destruct e; try apply IH. case_bool_decide; [done|apply IH].
Qed.
Lemma lastApplied_none key pick ps : key ∉ v_key <$> ps.*1 -> lastApplied key (appliedBy pick ps) = None.
Proof.
  induction ps as [|p ps IH]; [done|]. rewrite !fmap_cons, not_elem_of_cons. intros [Hk Hn]. change (appliedBy pick (p :: ps)) with ([AppliedSnapshot (v_key p.1) (pick p.1) p.2] ++ appliedBy pick ps).
  rewrite lastApplied_app, IH by done. cbn. by rewrite bool_decide_false by congruence.
Qed.
Lemma lastApplied_here pick ps p : NoDup (v_key <$> ps.*1) -> p ∈ ps -> lastApplied (v_key p.1) (appliedBy pick ps) = Some (pick p.1, p.2).
Proof.
  induction ps as [|q ps IH]; [by intros _ ?%not_elem_of_nil|]. rewrite !fmap_cons. intros [Hn Hd]%NoDup_cons Hx. change (appliedBy pick (q :: ps)) with ([AppliedSnapshot (v_key q.1) (pick q.1) q.2] ++ appliedBy pick ps).
  rewrite lastApplied_app. apply elem_of_cons in Hx as [->|Hx]; [|by rewrite IH]. rewrite lastApplied_none by done. cbn. by rewrite bool_decide_true.
Qed.

(** ** The snapshots of a bundle, one at a time *)
Definition isApplied (e : effectOf T) : bool := match e with AppliedSnapshot _ _ _ => true | _ => false end.
Definition appliesOf w : list (effectOf T) := filter isApplied (trace w).
Definition unapplied w w' : Prop := trace w `prefix_of` trace w' /\ appliesOf w' = appliesOf w.
#[local] Instance unapplied_preorder : PreOrder unapplied.
Proof. split; [by intros w|]. intros x y z [H1 H2] [H3 H4]. split; [by etrans|congruence]. Qed.
Lemma emit_unapplied (e : effectOf T) : isApplied e = false -> evolves true unapplied (emit e).
Proof.
  intros He w. split; [|simpl; tauto]. split; [by eexists|]. unfold appliesOf. simpl. rewrite filter_app, filter_cons_False by (rewrite He; simpl; tauto). by rewrite app_nil_r.
Qed.
Hint Extern 1 (evolves _ unapplied (emit _)) => (apply emit_unapplied; reflexivity) : calls.
Lemma planLegacy_unapplied fed snapshots keys plan : evolves true unapplied (planLegacy opts fed snapshots keys plan).
Proof. unfold planLegacy, prepared. evolve. Qed.
Lemma evolved {A} (c : proto T A) w r w' : evolves true unapplied c -> c w = (r, w') -> unapplied w w'.
Proof. intros Hc E. pose proof (proj1 (Hc w)) as Hu. by rewrite E in Hu. Qed.
(** [x] reverts to what its manager answered in the course of the request, after
    [w0] and by [w1], when nothing had been applied. *)
Definition imaged fed w0 w1 (x : reversible (T := T)) : Prop :=
  ManagerSnapshots opts !! v_key x = Some (v_snapper x) /\ exists w, unapplied w0 w /\ unapplied w w1 /\ Marshal (v_snapper x) (trace w) fed = inr (v_before x).
Record plan_ok fed w0 w1 (keys : list string) (plan : list preparedCommit * list (reversible (T := T))) : Prop := {
  po_keys : NoDup ((v_key <$> plan.2) ++ keys);
  po_quiet : unapplied w0 w1;
  po_imaged : Forall (imaged fed w0 w1) plan.2;
  po_commits : Forall (fun c => pc_fallible c = false) plan.1;
}.
Lemma imaged_later fed w0 w1 w2 l : unapplied w1 w2 -> Forall (imaged fed w0 w1) l -> Forall (imaged fed w0 w2) l.
Proof. intros H2 Hl. eapply Forall_impl; [exact Hl|]. intros x [Hs (w & H0 & H1 & Hm)]. split; [done|]. exists w. split_and!; [done|by etrans|done]. Qed.
Lemma planLegacy_ok fed snapshots keys plan w0 w plan' w' : plan_ok fed w0 w keys plan -> planLegacy opts fed snapshots keys plan w = (Ret plan', w') -> plan_ok fed w0 w' [] plan'.
Proof.
  revert plan w. induction keys as [|key keys IH]; intros plan w Hp; [by intros [= <- <-]|]. unfold planLegacy in *. cbn [foldEach].
  intros (q & w1 & Hq & Hrest)%bind_ret. refine (IH q w1 _ Hrest). clear IH Hrest. destruct Hp as [Hk Hu Hi Hc].
  assert (Hstep : unapplied w w1).
  { eapply evolved; [|exact Hq]. unfold prepared. evolve. }
  assert (Hu1 : unapplied w0 w1) by (by etrans). pose proof (imaged_later fed w0 w w1 _ Hstep Hi) as Hi1.
  assert (Hdrop : NoDup ((v_key <$> plan.2) ++ keys)) by (apply NoDup_app in Hk as (H1 & H2 & [_ H3]%NoDup_cons); apply NoDup_app; split; [done|]; split; [set_solver|done]).
  destruct (ManagerSnapshots opts !! key) as [s|] eqn:Es; [|injection Hq as <- _; by split]. destruct (PrepareRestore s) as [port|].
  - apply bind_ret in Hq as (r & w2 & _ & (c & w3 & _ & (u & w4 & _ & Hq)%bind_ret)%bind_ret). injection Hq as <- _. split; [done|done|done|]. simpl.
    destruct c; [|done]. apply Forall_app. split; [done|]. by constructor.
  - apply bind_ret in Hq as (u & w2 & Hg & (r & w3 & Hr & (before & w4 & Hb & (u2 & w5 & Hg2 & Hq)%bind_ret)%bind_ret)%bind_ret).
    apply guard_ret in Hg as [_ ->].
    injection Hq as <- _. injection Hr as <- <-.
    split; simpl; [by rewrite fmap_app, <- app_assoc|done| |done]. apply Forall_app. split; [done|]. constructor; [|done].
    split; [done|]. exists w. split_and!; [done|done|]. simpl. destruct (Marshal s (trace w) fed); [done|]. by injection Hb as -> _.
Qed.
Lemma runCommits_total cs w : Forall (fun c => pc_fallible c = false) cs -> exists w', runCommits opts cs w = (Ret (), w').
Proof.
  intros Hl. revert w. unfold runCommits. induction Hl as [|c cs Hc Hl IH]; intros w; [by eexists|]. cbn [forEach]. unfold mbind, proto_bind, runCommit, mbind, proto_bind.
  rewrite Hc. destruct (ManagerSnapshots opts !! pc_key c); simpl; apply IH.
Qed.
Lemma appliedBy_filter pick ps : filter isApplied (appliedBy pick ps) = appliedBy pick ps.
Proof. induction ps as [|x ps IH]; [done|]. unfold appliedBy in *. cbn [fmap list_fmap]. rewrite filter_cons_True by done. f_equal. exact IH. Qed.
(** What a failed request leaves under a key it applied anything to. *)
Definition revertedAt fed w0 w1 e es key : Prop :=
  exists s w before failure, ManagerSnapshots opts !! key = Some s /\ unapplied w0 w /\ trace w `prefix_of` trace w1 /\ Marshal s (trace w) fed = inr before /\
    lastApplied key es = Some (before, failure) /\ forall x, failure = Some x -> reportedIn (rollbackError key x) e.
Lemma reverted_images fed w0 w1 e l1 x l2 ps qs key d r : NoDup (v_key <$> l1 ++ x :: l2) -> Forall (imaged fed w0 w1) (l1 ++ x :: l2) ->
  ps.*1 = l1 ++ [x] -> qs.*1 = x :: reverse l1 -> rollbacksReported qs e ->
  let es := appliedBy v_after ps ++ appliedBy v_before qs in AppliedSnapshot key d r ∈ es -> revertedAt fed w0 w1 e es key.
Proof.
  intros Hd Hi Ep Eq Hall es Hin. assert (Hperm : l1 ++ [x] ≡ₚ x :: reverse l1) by (rewrite reverse_Permutation; by rewrite Permutation_app_comm).
  assert (Hy : exists q, q ∈ qs /\ v_key q.1 = key).
  { assert (Hz : exists z, z ∈ qs.*1 /\ v_key z = key).
    { unfold es in Hin. apply elem_of_app in Hin as [(y & [= -> _ _] & Hy)%list_elem_of_fmap|(y & [= -> _ _] & Hy)%list_elem_of_fmap]; exists y.1; (split; [|done]); [|by apply list_elem_of_fmap_2].
      rewrite Eq, <- Hperm, <- Ep. by apply list_elem_of_fmap_2. }
    destruct Hz as (z & (q & -> & Hq)%list_elem_of_fmap & Hk). by exists q. }
  destruct Hy as (q & Hq & <-). rewrite cons_middle, app_assoc in Hd, Hi.
  assert (Himg : imaged fed w0 w1 q.1).
  { rewrite Forall_forall in Hi. apply Hi, elem_of_app. left. rewrite Hperm, <- Eq. by apply list_elem_of_fmap_2. }
  destruct Himg as [Hs (w & H0 & [H1 _] & Hm)]. exists (v_snapper q.1), w, (v_before q.1), q.2. do 4 (split; [done|]). split; [|intros y Hy; by apply Hall].
  unfold es. rewrite lastApplied_app. rewrite fmap_app in Hd. apply NoDup_app in Hd as (Hd & _). rewrite (lastApplied_here v_before qs q); [done| |done].
  rewrite Eq. by rewrite <- Hperm.
Qed.
Lemma applyManager_reverts fed snapshots w e w' : applyManagerSnapshots opts fed snapshots w = (Fail e, w') ->
  exists es, appliesOf w' = appliesOf w ++ es /\ forall key d r, AppliedSnapshot key d r ∈ es -> revertedAt fed w w' e es key.
Proof.
  assert (Hs : NoDup (sortedNames snapshots)) by (unfold sortedNames; rewrite merge_sort_Permutation; apply NoDup_elements).
  unfold applyManagerSnapshots. case_bool_decide; [done|]. unfold mbind, proto_bind. pose proof (planLegacy_unapplied fed snapshots (sortedNames snapshots) ([], []) w) as [[_ Hu] _].
  destruct (planLegacy opts fed snapshots (sortedNames snapshots) ([], []) w) as [[plan|e1|s1] w1] eqn:Ep; [|intros [= <- <-]; exists []; rewrite app_nil_r; split; [exact Hu|]; by intros key d r ?%not_elem_of_nil|done].
  apply (planLegacy_ok _ _ _ _ w) in Ep; [|split; simpl; [done|done|by constructor..]]. destruct Ep as [Hk _ Hi Hc]. rewrite app_nil_r in Hk.
  destruct (applyLegacy_effect fed plan.2 [] w1) as (r & w2 & -> & [[-> Ha]|(e2 & l1 & x & l2 & ps & qs & -> & El & Hp & Hq & [Hm Ht] & Hall)]).
  - destruct (runCommits_total plan.1 w2 Hc) as (w3 & ->). done.
  - intros [= <- <-]. rewrite app_nil_r in Hq. rewrite El in Hk, Hi. exists (appliedBy v_after ps ++ appliedBy v_before qs). split.
    + unfold appliesOf. rewrite Ht, !filter_app, !appliedBy_filter. f_equal. exact Hu.
    + intros key d r Hin. destruct (reverted_images fed w w1 e2 l1 x l2 ps qs key d r Hk Hi Hp Hq Hall Hin) as (s & w3 & before & failure & H1 & H2 & H3 & H4 & H5).
      exists s, w3, before, failure. split_and!; [done|done..|rewrite Ht; etrans; [exact H3|by eexists]|done|apply H5|apply H5].
Qed.
End Round.

(** * Save and restore: who is restored from what

    The table of a restore: its recipients are distinct, and each is sent the
    saved handle of its name. *)
Lemma routeTable_spec l t t' : routeTable l t = Some t' ->
  NoDup l.*1 /\ InvalidFederateHandle ∉ l.*1 /\ (forall h, h ∈ l.*1 -> t !! h = None) /\
  (forall h saved, (h, saved) ∈ l -> t' !! h = Some saved) /\ (forall h, h ∉ l.*1 -> t' !! h = t !! h).
Proof.
  revert t. induction l as [|[h saved] l IH]; intros t; cbn [routeTable].
  { intros [= ->]. split; [by apply NoDup_nil|]. split; [by apply not_elem_of_nil|]. split; [by intros h ?%not_elem_of_nil|]. split; [by intros h s ?%not_elem_of_nil|done]. }
  destruct (_ || _) eqn:E; [done|]. apply orb_false_iff in E as [Hn%bool_decide_eq_false Hi%Z.eqb_neq]. rewrite <- eq_None_not_Some in Hn.
  intros (Hd & Hv & Hf & Hin & Hout)%IH. cbn [fmap list_fmap fst].
  assert (Hnot : h ∉ l.*1) by (intros Hh; specialize (Hf h Hh); by rewrite lookup_insert_eq in Hf). split; [by apply NoDup_cons|]. split; [|split; [|split]].
  - rewrite not_elem_of_cons. split; [congruence|done].
  - intros h' [->|Hh]%elem_of_cons; [done|]. specialize (Hf h' Hh). destruct (decide (h' = h)) as [->|Hne]; [done|by rewrite lookup_insert_ne in Hf].
  - intros h' s [[= -> ->]|Hh]%elem_of_cons; [|by apply Hin]. rewrite Hout by done. apply lookup_insert_eq.
  - intros h' [Hne Hh]%not_elem_of_cons. rewrite Hout by done. by rewrite lookup_insert_ne.
Qed.
Lemma currentByName_last before mem later : Forall (fun x => m_Name x <> m_Name mem) later -> currentByName (before ++ mem :: later) !! m_Name mem = Some (m_Handle mem).
Proof.
  intros Hl. unfold currentByName. rewrite fold_left_app. cbn [fold_left]. set (t := fold_left _ before _). clearbody t.
  induction later as [|x later IH] using rev_ind; [apply lookup_insert_eq|].
  rewrite fold_left_app. cbn [fold_left]. apply Forall_app in Hl as [Hl Hx]. inversion_clear Hx as [|? ? Hx0 _]. rewrite lookup_insert_ne by exact Hx0. by apply IH.
Qed.
Section Route.
Context {T : Type} `{LogicalTimeScalar T} `{EqDecision T} (opts : OptionsOf T).
Implicit Types (fed : FederationName) (mf : ManifestOf T) (w : callState T).
(** The recipients of the participants saved in [mf]. *)
Definition recipientsOf w fed mf : list FederateHandle :=
  match Roster opts with
  | Some roster =>
      let names := default [] (mf_FederateNames mf) in
      if zlen names =? zlen (mf_Federates mf) then routeOf (currentByName (roster (trace w) fed)) <$> zip (mf_Federates mf) names else mf_Federates mf
  | None => mf_Federates mf
  end.
Lemma length_recipients w fed mf : length (recipientsOf w fed mf) = length (mf_Federates mf).
Proof.
  unfold recipientsOf. destruct (Roster opts); [|done]. destruct (Z.eqb_spec (zlen (default [] (mf_FederateNames mf))) (zlen (mf_Federates mf))) as [E|]; [|done].
  rewrite length_fmap, length_zip_with. unfold zlen in E. lia.
Qed.
Lemma restoreRouting_ret fed mf w rs t w' : restoreRouting opts fed mf w = (Ret (rs, t), w') ->
  w' = w /\ rs = recipientsOf w fed mf /\ t <> ∅ /\ routeTable (zip rs (mf_Federates mf)) ∅ = Some t.
Proof.
  unfold restoreRouting. intros (l & w1 & Hl & Hr)%bind_ret. assert (Hw : l = recipientsOf w fed mf /\ w1 = w).
  { unfold recipientsOf. unfold routeHandles in Hl. destruct (Roster opts); [|by injection Hl as <- <-]. cbv zeta in *.
    destruct (zlen _ =? zlen _); by injection Hl as <- <-. }
  destruct Hw as [-> ->]. destruct (routeTable _ _) as [t'|] eqn:Et; [|done]. case_bool_decide as En; [done|]. by injection Hr as <- <- <-.
Qed.
Lemma restoreRouting_exact fed mf w rs t w' : restoreRouting opts fed mf w = (Ret (rs, t), w') ->
  w' = w /\ rs = recipientsOf w fed mf /\ NoDup rs /\ InvalidFederateHandle ∉ rs /\ dom t = list_to_set rs /\
  forall i h saved, rs !! i = Some h -> mf_Federates mf !! i = Some saved -> t !! h = Some saved.
Proof.
  intros (-> & Hrs & _ & Ht)%restoreRouting_ret. split; [done|]. split; [done|].
  assert (Hlen : length rs = length (mf_Federates mf)) by (rewrite Hrs; apply length_recipients).
  destruct (routeTable_spec _ _ _ Ht) as (Hd & Hv & _ & Hin & Hout). rewrite fst_zip in Hd, Hv, Hout by lia. split; [done|]. split; [done|]. split.
  - apply set_eq. intros h. rewrite elem_of_dom, elem_of_list_to_set. split.
    + intros [s Hs]. destruct (decide (h ∈ rs)) as [|Hn]; [done|]. by rewrite Hout in Hs.
    + intros [i Hi]%list_elem_of_lookup. destruct (lookup_lt_is_Some_2 (mf_Federates mf) i) as [s Hs]; [rewrite <- Hlen; by eapply lookup_lt_Some|].
      exists s. apply Hin. apply list_elem_of_lookup. exists i. rewrite lookup_zip_with, Hi. simpl. by rewrite Hs.
  - intros i h saved Hi Hs. apply Hin. apply list_elem_of_lookup. exists i. rewrite lookup_zip_with, Hi. simpl. by rewrite Hs.
Qed.
Lemma recipient_by_name fed mf w roster names i saved before mem later :
  Roster opts = Some roster -> mf_FederateNames mf = Some names -> length names = length (mf_Federates mf) -> mf_Federates mf !! i = Some saved ->
  names !! i = Some (m_Name mem) -> m_Name mem <> "" -> roster (trace w) fed = before ++ mem :: later -> Forall (fun x => m_Name x <> m_Name mem) later ->
  recipientsOf w fed mf !! i = Some (m_Handle mem).
Proof.
  intros Er En Hlen Hs Hn Hne Hl Hlast. unfold recipientsOf. rewrite Er, En. cbn [default]. rewrite (proj2 (Z.eqb_eq _ _)) by (unfold zlen; simpl; lia).
  rewrite list_lookup_fmap, lookup_zip_with, Hs. cbn. rewrite Hn. cbn. unfold routeOf. cbn. rewrite bool_decide_false by done. by rewrite Hl, currentByName_last.
Qed.
End Route.
