(* ===== verification/SavLive.v ===== *)
(** * Save and restore: a save whose participants cooperate completes

    [settles c P]: the call [c] returns a value with [P], whatever was done
    before.  Ports that answer without an error make the steps of an immediate
    save settle, so that the save is under way after its request, and is saved
    after the last of its participants has reported, in whatever order they do. *)
From stdpp Require Import gmap strings.
From Stdlib Require Import Strings.Byte.
From S2P Require Import Prelude GoBytes LogicalTime TimeScalar Fed Sav SavService SavReport SavRestore SavCalls SavEffect SavWorld SavInvariant SavPreserve SavDecision.
Open Scope Z_scope.

Section Settles.
Context {T : Type}.
Implicit Types (A B : Type).
Definition settles {A} (c : proto T A) (P : A -> Prop) : Prop := forall w, exists a, (c w).1 = Ret a /\ P a.
Lemma settles_bind {A B} (c : proto T A) (f : A -> proto T B) P Q : settles c P -> (forall a, P a -> settles (f a) Q) -> settles (c ≫= f) Q.
Proof. intros Hc Hf w. unfold mbind, proto_bind. destruct (Hc w) as (a & Ha & HP). destruct (c w) as [r w']. simpl in Ha. subst r. by apply Hf. Qed.
Lemma settles_mret {A} (a : A) (P : A -> Prop) : P a -> settles (mret a) P.
Proof. intros HP w. by exists a. Qed.
Lemma settles_ask {A} (port : portOf T A) (P : A -> Prop) : (forall tr, P (port tr)) -> settles (ask port) P.
Proof. intros HP w. by eexists. Qed.
Lemma settles_emit e (P : () -> Prop) : P () -> settles (emit e) P.
Proof. intros HP w. by eexists. Qed.
Lemma settles_guard b e (P : () -> Prop) : b = true -> P () -> settles (guard_ b e) P.
Proof. intros -> HP w. by eexists. Qed.
Lemma settles_attempt {A} (c : proto T A) (P : A -> Prop) (Q : save_error + A -> Prop) : settles c P -> (forall a, P a -> Q (inr a)) -> settles (attempt c) Q.
Proof. intros Hc HQ w. unfold attempt. destruct (Hc w) as (a & Ha & HP). destruct (c w) as [r w']. simpl in Ha. subst r. eexists. split; [done|]. by apply HQ. Qed.
Lemma settles_weaken {A} (c : proto T A) (P Q : A -> Prop) : settles c P -> (forall a, P a -> Q a) -> settles c Q.
Proof. intros Hc HQ w. destruct (Hc w) as (a & Ha & HP). eauto. Qed.
Lemma settles_total {A} (c : proto T A) : total c -> settles c (fun _ => True).
Proof. intros Hc w. destruct (Hc w) as (a & Ha). eauto. Qed.
Lemma settles_forEach {A} (l : list A) (body : A -> proto T ()) : (forall a, settles (body a) (fun _ => True)) -> settles (forEach l body) (fun _ => True).
Proof. intros Hb. induction l as [|a l IH]; [by apply settles_mret|]. cbn [forEach]. eapply settles_bind; [apply Hb|done]. Qed.
Lemma settles_mapEach {A B} (body : A -> proto T B) l (P : A -> B -> Prop) : (forall a, settles (body a) (P a)) -> settles (mapEach body l) (Forall2 P l).
Proof.
  intros Hb. induction l as [|a l IH]; [apply settles_mret; constructor|]. cbn [mapEach]. eapply settles_bind; [apply Hb|]. intros b Hab.
  eapply settles_bind; [apply IH|]. intros bs Hbs. apply settles_mret. by constructor.
Qed.
Lemma settles_foldEach {A B} (body : B -> A -> proto T B) l b (P : B -> Prop) : P b -> (forall b a, P b -> settles (body b a) P) -> settles (foldEach body l b) P.
Proof. intros HP Hb. revert b HP. induction l as [|a l IH]; intros b HP; [by apply settles_mret|]. cbn [foldEach]. eapply settles_bind; [by apply Hb|done]. Qed.
Lemma vp_settled {A} (c : proto T A) (P : A -> Prop) (Q : outcome save_error A -> view T -> Prop) v : calm c -> settles c P -> (forall a, P a -> Q (Ret a) v) -> vp c Q v.
Proof. intros Hc Hs HQ w <-. destruct (Hc w) as [[Hm Ht] _]. destruct (Hs w) as (a & -> & HP). unfold viewOf. rewrite Hm, Ht. by apply HQ. Qed.
Lemma vp_settles {A} (c : proto T A) (P : A -> Prop) (Q Q' : outcome save_error A -> view T -> Prop) v :
  settles c P -> vp c Q v -> (forall a v', P a -> Q (Ret a) v' -> Q' (Ret a) v') -> vp c Q' v.
Proof. intros Hs Hc HQ w Hw. specialize (Hc w Hw). destruct (Hs w) as (a & Ha & HP). rewrite Ha in *. by apply HQ. Qed.
End Settles.

Section Willing.
Context {T : Type} `{LogicalTimeScalar T} `{EqDecision T} (opts : OptionsOf T) (fed : FederationName) (members : list FederateHandle) (lbl : string).
Implicit Types (h : FederateHandle) (v : view T) (a : activeSaveOf T) (mf : ManifestOf T).
Abbreviation context := (portOf T (option save_error)).

(** ** The manifests of the save *)
(** The generation and the digest of its modules, as the ports answer them. *)
Definition provenance (g : option Z * string) : Prop :=
  match Generation opts with
  | None => g = (None, "")
  | Some generation => exists tr n, generation tr fed = Some n /\ g.1 = Some n /\
      match FOMSHA256 opts with None => g.2 = "" | Some fom => exists tr, g.2 = emptyOf (fom tr fed) end
  end.
Definition columnOf (field : FederationMember -> string) (c : option (list string)) : Prop :=
  match Roster opts with None => c = None | Some roster => exists tr, c = Some (rosterColumn field (roster tr fed) (sortedHandles (list_to_set members))) end.
Definition modulesOf (c : option (list (list FOMModule))) : Prop :=
  match JoinedModules opts with
  | None => c = None
  | Some joined => exists l, c = Some l /\ Forall2 (fun h ms => exists tr, joined tr fed h = inr ms) (sortedHandles (list_to_set members)) l
  end.
Definition snapshotsOf (t : gmap string (list byte)) : Prop :=
  forall key data, t !! key = Some data -> exists s tr, ManagerSnapshots opts !! key = Some s /\ Marshal s tr fed = inr data.
Definition statesBytes (l : list (list byte)) : Z := foldr (fun st n => zlen st + n) 0 l.
(** What an immediate save of [fed] under [lbl] may write: the answers of its own
    ports, for its own members, and client states within the bound of a
    federation. *)
Record ownManifest mf : Prop := {
  om_federation : mf_Federation mf = fed;
  om_label : mf_Label mf = lbl;
  om_time : mf_SaveTime mf = None;
  om_version : mf_Version mf = manifestVersion (mf_FederationGeneration mf);
  om_provenance : provenance (mf_FederationGeneration mf, mf_FOMSHA256 mf);
  om_implementation : mf_LogicalTimeImplementationName mf = Representation_String ScalarRepresentation;
  om_federates : mf_Federates mf = sortedHandles (list_to_set members);
  om_names : columnOf m_Name (mf_FederateNames mf);
  om_types : columnOf m_FederateType (mf_FederateTypes mf);
  om_modules : modulesOf (mf_FederateModules mf);
  om_snapshots : snapshotsOf (mf_ManagerSnapshots mf);
  om_states : statesBytes (mf_FederateClientStates mf) <= maxFederationClientStateBytes;
  om_log : mf_EventLogBytes mf = 0;
}.
Lemma own_sealed mf : ownManifest mf -> sealedManifest (with_eventLogBytes mf 0) [] = mf.
Proof.
  intros Hm. destruct mf as [version ? generation ? ? ? ? ? ? ? ? ? log ?]. pose proof (om_version _ Hm) as Ev. pose proof (om_log _ Hm) as El. simpl in Ev, El. subst. by destruct generation.
Qed.

(** Ports that answer without an error for the federation [fed], whose members
    are [members]; what the save writes passes the preflights and encodes within
    the limit of a manifest. *)
Record willing : Prop := {
  w_send : forall tr h e, Send opts tr fed h e = None;
  w_reserve : forall reserve, Reserve opts = Some reserve -> forall tr ds, exists r, reserve tr fed ds = (Some r, None);
  w_commit : forall tr r, CommitReservation opts tr r = None;
  w_halted : forall halted, Halted opts = Some halted -> forall tr, halted tr fed = false;
  w_members : exists ms, Members opts = Some ms /\ forall tr, ms tr fed = members;
  w_immediate : forall prepare, PrepareImmediateTime opts = Some prepare -> forall tr l b, exists r, prepare tr fed l b = inr (Some r);
  w_generation : forall g, Generation opts = Some g -> forall tr, is_Some (g tr fed);
  w_time : forall f, LogicalTimeImplementation opts = Some f -> forall tr, f tr fed = Some (Representation_String ScalarRepresentation);
  w_marshal : forall key s, ManagerSnapshots opts !! key = Some s -> forall tr, exists data, Marshal s tr fed = inr data;
  w_modules : forall joined, JoinedModules opts = Some joined -> forall tr h, exists ms, joined tr fed h = inr ms;
  w_recovery : forall validate, ValidateRestoreCallbackRecovery opts = Some validate -> forall tr mf, ownManifest mf -> validate tr fed mf = None;
  w_graph : forall validate, ValidateRestoreSnapshots opts = Some validate -> forall tr mf, ownManifest mf -> validate tr fed mf None = None;
  w_writer : forall tr g, exists u, Writer opts tr fed g lbl = inr u;
  w_write : forall tr data, WriteTo opts tr data = (zlen data, None);
  w_close : forall tr, CloseWriter opts tr = None;
  w_json : forall mf, ownManifest mf -> exists bs, json_Marshal opts mf = inr bs /\ zlen bs <= maxManifestBytes;
  w_store : forall tr k hist, StoreSaveHistory opts tr k hist = None;
}.
Context (Hw : willing) (ctx : context) (Hctx : forall tr, ctx tr = None).

(** ** Steps that settle *)
Lemma ParseRepresentation_scalar : ParseRepresentation (Representation_String ScalarRepresentation) = Ret ScalarRepresentation.
Proof. unfold ScalarRepresentation. by destruct integerScalar. Qed.
Lemma settles_ctxErr : settles (ctxErr ctx) (fun _ => True).
Proof. eapply settles_bind; [apply (settles_ask _ (eq None)); intros; by rewrite Hctx|]. intros e <-. by apply settles_mret. Qed.
Lemma settles_send h e : settles (send opts fed h e) (eq None).
Proof.
  eapply settles_bind; [apply (settles_ask _ (eq None)); intros; by rewrite w_send|]. intros r <-. eapply settles_bind; [by apply (settles_emit _ (fun _ => True))|].
  intros _ _. by apply settles_mret.
Qed.
Lemma settles_sendAll e l : settles (sendAll opts fed e l None) (eq None).
Proof.
  unfold sendAll. apply settles_foldEach; [done|]. intros b x <-. eapply settles_bind; [apply settles_send|]. intros r <-. by apply settles_mret.
Qed.
Lemma settles_emitSaveOutcome name l reason : settles (emitSaveOutcome opts fed name l reason) (eq None).
Proof. eapply settles_bind; [apply settles_total, total_appendEvent|]. intros _ _. apply settles_sendAll. Qed.
Lemma settles_validateSaveAvailability : settles (validateSaveAvailability opts ctx fed) (fun _ => True).
Proof.
  eapply settles_bind; [apply settles_ctxErr|]. intros _ _. destruct (Halted opts) as [halted|] eqn:E; [|by apply settles_mret].
  eapply settles_bind; [apply (settles_ask _ (eq false)); intros; by rewrite (w_halted Hw _ E)|]. intros b <-. by apply settles_guard.
Qed.
Lemma settles_resolveProvenance : settles (resolveProvenance opts fed false) provenance.
Proof.
  unfold resolveProvenance, provenance. destruct (Generation opts) as [g|] eqn:E; [|by apply settles_mret].
  eapply (settles_bind _ _ (fun x => exists tr n, g tr fed = Some n /\ x = Some n)).
  { apply settles_ask. intros tr. destruct (w_generation Hw _ E tr) as [n Hn]. eauto. }
  intros x (tr & n & Hn & ->). destruct (FOMSHA256 opts) as [fom|]; [|apply settles_mret; by exists tr, n].
  eapply settles_bind; [apply (settles_ask _ (fun d => exists tr, d = fom tr fed)); eauto|]. intros d (tr' & ->).
  eapply settles_bind; [apply (settles_guard _ _ (fun _ => True)); [by rewrite andb_false_r|done]|]. intros _ _. apply settles_mret. exists tr, n. eauto.
Qed.
Lemma settles_askMembers : settles (askMembers opts fed) (eq members).
Proof. unfold askMembers. destruct (w_members Hw) as (ms & -> & Hms). apply settles_ask. intros tr. by rewrite Hms. Qed.
Lemma settles_timeImplementationFor : settles (timeImplementationFor opts fed) (eq (Representation_String ScalarRepresentation)).
Proof.
  unfold timeImplementationFor. eapply (settles_bind _ _ (eq (Representation_String ScalarRepresentation))).
  - destruct (LogicalTimeImplementation opts) as [f|] eqn:E; [|by apply settles_mret].
    eapply settles_bind; [apply (settles_ask _ (eq (Some (Representation_String ScalarRepresentation)))); intros; by rewrite (w_time Hw _ E)|].
    intros r <-. rewrite bool_decide_false by (unfold ScalarRepresentation; by destruct integerScalar). by apply settles_mret.
  - intros nm <-. rewrite ParseRepresentation_scalar. eapply settles_bind; [apply (settles_guard _ _ (fun _ => True)); [by apply bool_decide_eq_true|done]|].
    intros _ _. by apply settles_mret.
Qed.
Lemma settles_collectManagerSnapshots : settles (collectManagerSnapshots opts fed) snapshotsOf.
Proof.
  unfold collectManagerSnapshots. apply settles_foldEach; [by intros key data|]. intros out key Hout. destruct (ManagerSnapshots opts !! key) as [s|] eqn:E; [|by apply settles_mret].
  eapply settles_bind; [apply (settles_ask _ (fun r => exists tr data, Marshal s tr fed = inr data /\ r = inr data))|].
  { intros tr. destruct (w_marshal Hw _ _ E tr) as (data & Hd). eauto. }
  intros r (tr & data & Hd & ->). eapply settles_bind; [by apply (settles_mret _ (eq data))|]. intros d <-. apply settles_mret.
  intros k x [[<- <-]|[_ Hx]]%lookup_insert_Some; [by exists s, tr|by apply Hout].
Qed.
Lemma settles_collectModules : settles (collectModules opts fed (sortedHandles (list_to_set members))) modulesOf.
Proof.
  unfold collectModules, modulesOf. destruct (JoinedModules opts) as [joined|] eqn:E; [|by apply settles_mret].
  eapply settles_bind; [apply (settles_mapEach _ _ (fun h ms => exists tr, joined tr fed h = inr ms))|intros ms Hms; apply settles_mret; by exists ms].
  intros h. eapply settles_bind; [apply (settles_ask _ (fun r => exists tr ms, joined tr fed h = inr ms /\ r = inr ms)); intros tr; destruct (w_modules Hw _ E tr h); eauto|].
  intros r (tr & ms & Hms & ->). apply settles_mret. by exists tr.
Qed.
Lemma settles_federatesColumn field : settles (federatesColumn opts field fed (sortedHandles (list_to_set members))) (columnOf field).
Proof.
  unfold federatesColumn, columnOf. destruct (Roster opts) as [roster|]; [|by apply settles_mret].
  eapply settles_bind; [apply (settles_ask _ (fun ms => exists tr, ms = roster tr fed)); eauto|]. intros ms (tr & ->). apply settles_mret. by exists tr.
Qed.
Lemma settles_reserveSaveTerminal name l : settles (reserveSaveTerminal opts ctx fed name l) (fun _ => True).
Proof.
  unfold reserveSaveTerminal. eapply settles_bind; [apply settles_ctxErr|]. intros _ _. destruct (Reserve opts) as [reserve|] eqn:E; [|by apply settles_mret].
  eapply (settles_bind _ _ (fun x => exists r, x = (Some r, None))).
  - unfold reserveDeliveries. eapply settles_bind; [apply (settles_ask _ (fun x => exists r, x = (Some r, None))); intros; by apply (w_reserve Hw _ E)|].
    intros x (r & ->). eapply settles_bind; [by apply (settles_emit _ (fun _ => True))|]. intros _ _. apply settles_mret. by exists r.
  - intros x (r & ->). by apply settles_mret.
Qed.
Lemma settles_writeBundlePart what data : settles (writeBundlePart opts what data) (fun _ => True).
Proof.
  eapply settles_bind; [apply (settles_ask _ (eq (zlen data, None))); intros; by rewrite w_write|]. intros x <-.
  eapply settles_bind; [by apply (settles_emit _ (fun _ => True))|]. intros _ _. simpl. apply settles_guard; [apply Z.eqb_refl|done].
Qed.
Lemma settles_WriteBundle mf : ownManifest mf -> settles (WriteBundle opts (with_eventLogBytes mf 0) []) (fun _ => True).
Proof.
  intros Hm. unfold WriteBundle. rewrite (own_sealed mf Hm). eapply settles_bind; [apply (settles_guard _ _ (fun _ => True)); [|done]|].
  { rewrite (om_version _ Hm). by destruct (mf_FederationGeneration mf). }
  intros _ _. eapply settles_bind; [by apply (settles_guard _ _ (fun _ => True))|]. intros _ _.
  destruct (w_json Hw mf Hm) as (bs & -> & Hbs). eapply settles_bind; [by apply (settles_mret bs (eq bs))|]. intros b <-.
  eapply settles_bind; [apply (settles_guard _ _ (fun _ => True)); [by apply Z.leb_le|done]|]. intros _ _.
  do 3 (eapply settles_bind; [apply settles_writeBundlePart|intros _ _]). by apply settles_mret.
Qed.
Lemma settles_preflight {A} (o : option A) (port : A -> portOf T (option save_error)) (f : save_error -> save_error) : (forall p, o = Some p -> forall tr, port p tr = None) ->
  settles (match o with Some p => e ← ask (port p); returning (f <$> e) | None => mret () end) (fun _ => True).
Proof.
  intros Hp. destruct o as [p|]; [|by apply settles_mret]. eapply settles_bind; [apply (settles_ask _ (eq None)); intros; by rewrite (Hp p)|].
  intros e <-. by apply settles_mret.
Qed.
Lemma settles_writeBundle g mf : ownManifest mf -> settles (writeBundle opts fed lbl g mf) (fun _ => True).
Proof.
  intros Hm. unfold writeBundle. eapply settles_bind; [apply settles_preflight; intros; by apply w_recovery|]. intros _ _.
  eapply settles_bind; [apply settles_preflight; intros; by apply w_graph|]. intros _ _.
  eapply settles_bind; [apply (settles_ask _ (fun r => exists u, r = inr u)); intros; apply (w_writer Hw)|]. intros r (u & ->).
  eapply settles_bind; [by apply (settles_mret _ (fun _ => True))|]. intros _ _.
  eapply settles_bind; [apply (settles_attempt _ (fun _ => True) (fun r => exists u, r = inr u)); [by apply settles_WriteBundle|by eexists]|]. intros r (u' & ->).
  eapply settles_bind; [apply (settles_ask _ (eq None)); intros; by rewrite w_close|]. intros e <-. by apply settles_emit.
Qed.
(** An immediate save of the members under [lbl]. *)
Record ownSave a : Prop := {
  os_label : label a = lbl;
  os_time : saveTime a = None;
  os_provenance : provenance (generation a, fomSHA256 a);
  os_federates : federates (progress a) = sortedHandles (list_to_set members);
  os_states : statesSize (clientStates (progress a)) <= maxFederationClientStateBytes;
}.
Lemma statesSize_delete (t : gmap FederateHandle (list byte)) h st : t !! h = Some st -> statesSize t = zlen st + statesSize (delete h t).
Proof. intros Hst. unfold statesSize. rewrite (map_fold_delete_L _ _ h st t); [done|intros; lia|done]. Qed.
Lemma states_total (t : gmap FederateHandle (list byte)) (l : list FederateHandle) : NoDup l -> statesBytes ((fun h => default [] (t !! h)) <$> l) <= statesSize t.
Proof.
  intros Hl. revert t. induction Hl as [|h l Hn Hl IH]; intros t.
  - simpl. unfold statesSize. apply (map_fold_weak_ind (fun r _ => 0 <= r)); [done|]. intros h st m r _ Hr. unfold zlen. lia.
  - change (zlen (default [] (t !! h)) + statesBytes ((fun h => default [] (t !! h)) <$> l) <= statesSize t). assert (E : ((fun h => default [] (t !! h)) <$> l) = ((fun h' => default [] (delete h t !! h')) <$> l)).
    { apply list_fmap_ext. intros i x Hx%list_elem_of_lookup_2. rewrite lookup_delete_ne; [done|]. by intros <-. }
    rewrite E. specialize (IH (delete h t)). destruct (t !! h) as [st|] eqn:Est; [rewrite (statesSize_delete t h st Est); simpl; lia|]. rewrite delete_id in IH |- * by done. exact IH.
Qed.
Lemma own_progress a p : ownSave a -> federates p = federates (progress a) -> statesSize (clientStates p) <= maxFederationClientStateBytes -> ownSave (set_progress a p).
Proof. intros [El Et Hp Hf _] Ef Hs. split; [done..| |done]. simpl. by rewrite Ef. Qed.
Lemma saveManifest_own a snapshots modules names types : ownSave a -> snapshotsOf snapshots -> modulesOf modules -> columnOf m_Name names -> columnOf m_FederateType types ->
  ownManifest (saveManifest fed a snapshots (Representation_String ScalarRepresentation) modules names types).
Proof.
  intros [El Et Hp Hf Hst] Hs Hm Hn Hty. unfold saveManifest. split; cbn; try done. unfold clientStatesFor. case_bool_decide; [done|].
  etrans; [apply states_total|exact Hst]. rewrite Hf. apply sortHandles_NoDup, NoDup_elements.
Qed.
Lemma settles_persistCompletedSave a : ownSave a -> settles (persistCompletedSave opts ctx fed a) (fun c => cl_failed c = false).
Proof.
  intros Ha. unfold persistCompletedSave. rewrite (os_federates a Ha).
  eapply (settles_bind _ _ (fun r => exists s m, r = inr (s, Representation_String ScalarRepresentation, m) /\ snapshotsOf s /\ modulesOf m)).
  { eapply settles_attempt; [eapply settles_bind; [apply settles_collectManagerSnapshots|]; intros s Hs|].
    - eapply settles_bind; [apply settles_timeImplementationFor|]. intros t <-. eapply settles_bind; [apply settles_collectModules|]. intros m Hm.
      apply (settles_mret _ (fun x => exists s m, x = (s, Representation_String ScalarRepresentation, m) /\ snapshotsOf s /\ modulesOf m)). by exists s, m.
    - intros x (s & m & -> & Hs & Hm). by exists s, m. }
  intros r (s & m & -> & Hs & Hm).
  eapply settles_bind; [apply (settles_attempt _ (fun _ => True) (fun r => exists x, r = inr x)); [apply settles_reserveSaveTerminal|by eexists]|]. intros r (completion & ->).
  eapply settles_bind; [apply settles_federatesColumn|intros names Hn]. eapply settles_bind; [apply settles_federatesColumn|intros types Ht].
  eapply settles_bind; [apply (settles_attempt _ (fun _ => True) (fun r => exists x, r = inr x)); [|by eexists]|].
  - rewrite (os_label a Ha). by apply settles_writeBundle, saveManifest_own.
  - intros r (u & ->). by apply settles_mret.
Qed.
Lemma settles_commitDeliveries r : settles (commitDeliveries opts r) (fun _ => True).
Proof.
  eapply settles_bind; [apply (settles_ask _ (eq None)); intros; by rewrite w_commit|]. intros e <-. eapply settles_bind; [by apply (settles_emit _ (fun _ => True))|].
  intros _ _. by apply settles_mret.
Qed.
Lemma settles_publishSaveDecision name r : settles (publishSaveDecision opts fed name r) (fun _ => True).
Proof.
  eapply settles_bind; [apply (settles_attempt _ (fun _ => True) (fun r => exists x, r = inr x)); [apply settles_commitDeliveries|by eexists]|].
  intros x (u & ->). eapply settles_bind; [|intros _ _; apply settles_total, total_appendEvent]. destruct (OnSaveCompleted opts); [by apply (settles_emit _ (fun _ => True))|by apply settles_mret].
Qed.
Lemma settles_storeHistory k hist : settles (storeHistory opts k hist) (eq None).
Proof.
  eapply settles_bind; [apply (settles_ask _ (eq None)); intros; by rewrite w_store|]. intros r <-.
  eapply settles_bind; [by apply (settles_emit _ (fun _ => True))|]. intros _ _. by apply settles_mret.
Qed.
Lemma settles_initiateSave a : settles (initiateSave opts fed a) (fun _ => True).
Proof.
  unfold initiateSave. destruct (federates (progress a)) as [|x l].
  - eapply settles_bind; [apply settles_send|]. intros r <-. by apply settles_mret.
  - apply settles_forEach. intros h. eapply settles_bind; [apply settles_send|]. intros r <-. by apply settles_mret.
Qed.

(** ** The request *)
Lemma vp_immediateTiming l (Q : outcome save_error barrier -> view T -> Prop) v :
  (forall b es, barrier_held None b es -> Q (Ret b) (after es v)) -> vp (reserveSaveTiming opts ctx fed None l false) Q v.
Proof.
  intros HQ. unfold reserveSaveTiming. destruct (PrepareImmediateTime opts) as [prepare|] eqn:E.
  - apply vp_bind. apply (vp_settled _ (fun r => exists n, r = inr (Some n))); [evolve|apply settles_ask; intros; by apply (w_immediate Hw _ E)|].
    intros r (n & ->). apply vp_bind, vp_mret, vp_bind, vp_mark; [done|]. apply vp_mret. apply (HQ _ [ReservedTime n]). constructor.
  - apply vp_mret. rewrite <- (after_nil v). apply HQ. by constructor.
Qed.
Definition placed (req : FederateHandle) v (v' : view T) : Prop :=
  exists b es g, barrier_held None b es /\ provenance g /\ v' = placeView fed (newActiveSave opts (nextIdent (vm v)) req lbl None members b g) None (after es v).
Lemma vp_immediateSave req (aware : bool) v :
  restore (vm v) !! fed = None -> saves (vm v) !! fed = None -> (aware = true -> req <> InvalidFederateHandle /\ req ∈ members) ->
  vp (requestFederationSave opts ctx fed req lbl None aware) (fun r v' => r = Ret () /\ placed req v v') v.
Proof.
  intros Hr Hs Ha. unfold requestFederationSave. apply vp_bind, (vp_settled _ (fun _ => True)); [evolve|apply settles_validateSaveAvailability|]. intros _ _.
  apply vp_bind, (vp_settled _ provenance); [evolve|apply settles_resolveProvenance|]. intros g Hg.
  apply vp_bind, (vp_settled _ (eq members)); [evolve|apply settles_askMembers|]. intros l <-.
  apply vp_bind, (vp_settled _ (fun _ => True)); [destruct aware; evolve|destruct aware; [|by apply settles_mret]|].
  { destruct (Ha eq_refl) as [Hn Hm]. apply (settles_bind _ _ (fun _ => True)); [|intros _ _; by apply settles_mret]. apply settles_guard; [|done].
    apply andb_true_intro. split; [by apply negb_true_iff, Z.eqb_neq|by apply bool_decide_eq_true]. }
  intros _ _. unfold replaceableSave. apply vp_bind, vp_bind, vp_getManager. rewrite Hr. apply vp_bind, vp_guard; [intros _|by rewrite bool_decide_true]. rewrite Hs. apply vp_mret.
  apply vp_bind. cbv beta iota. rewrite bool_decide_false by (by intros []). apply vp_immediateTiming. intros b es Hb. apply vp_bind, (vp_settled _ (eq None)); [evolve|apply settles_ask; intros; by rewrite Hctx|]. intros e <-.
  apply vp_bind, vp_getManager. apply vp_bind, vp_installSave. unfold publishSaveInitiation. vtotal. intros _.
  cbn [waiting progress newActiveSave]. rewrite bool_decide_false by (by intros []). set (a := newActiveSave _ _ _ _ _ _ _ _).
  eapply (vp_settles _ (fun _ => True)); [apply settles_initiateSave|apply (vp_initiateSave opts fed a (fun r v' => match r with Ret _ => placed req v v' | _ => True end)); [|done]|].
  - by exists b, es, g.
  - intros [] v' _ Hp. done.
Qed.

(** ** The last report *)
Lemma vp_commitHistory a (Q : outcome save_error () -> view T -> Prop) v : saveTime a = None ->
  Q (Ret ()) (View (recordHistory a fed (vm v)) (vt v)) -> vp (commitSaveHistory opts (historyKey fed (generation a)) (savedHistory a)) Q v.
Proof.
  intros Ht HQ. unfold commitSaveHistory. apply vp_bind.
  assert (E : SaveHistory_Validate (savedHistory a) = None) by (unfold SaveHistory_Validate, savedHistory; simpl; by rewrite Ht).
  rewrite E. apply vp_mret. destruct (LoadSaveHistory opts); [|by apply vp_change].
  apply vp_bind, (vp_settled _ (eq None)); [evolve|apply settles_storeHistory|]. intros r <-. by apply vp_change.
Qed.
Lemma vp_decideSave a completion v : saveTime a = None ->
  vp (decideSave opts fed a false (Closing false completion None)) (fun r v' => r = Ret () /\ v' = closedView opts fed a true v) v.
Proof.
  intros Ht. unfold decideSave. simpl. destruct completion as [r|].
  - apply vp_bind, vp_bind, vp_attempt, vp_commitHistory; [done|]. apply vp_mret. simpl. apply vp_bind, vp_mret. apply vp_bind, vp_finalizeSave.
    apply (vp_settled _ (fun _ => True)); [evolve|apply settles_publishSaveDecision|]. by intros [] _.
  - apply vp_bind, vp_mret. simpl. apply vp_bind, vp_mret. apply vp_bind, vp_finalizeSave.
    unfold publishLegacySaveOutcome. apply vp_bind, (vp_settled _ (eq None)); [evolve|apply settles_emitSaveOutcome|]. intros d <-.
    apply vp_bind, vp_bind, vp_change.
    apply vp_total; [destruct (OnSaveCompleted opts); evolve|destruct (OnSaveCompleted opts); totally|]. intros _. apply vp_mret. split; [done|].
    unfold closedView, recordHistory. rewrite endView_history. replace (history (vm (endView opts fed (label a) StateSaved v))) with (history (vm v)); [done|].
    unfold endView. destruct (saves (vm v) !! fed); [|done]. unfold resumedTime. simpl. by destruct (releaseTime _), (ResumeTime opts).
Qed.
Lemma vp_closeOut a v : ownSave a ->
  vp (closeOutSave opts ctx fed a false) (fun r v' => r = Ret () /\ exists mf, bundleOf fed a mf /\ v' = closedView opts fed a true (after [PublishedBundle fed (generation a) mf] v)) v.
Proof.
  intros Ha. pose proof (os_time a Ha) as Ht. unfold closeOutSave. apply vp_bind.
  eapply (vp_settles _ (fun c => cl_failed c = false)); [by apply settles_persistCompletedSave|apply (vp_persistCompletedSave opts ctx fed a (fun r v' => match r with
    | Ret c => cl_failed c = false -> cl_error c = None /\ exists mf, bundleOf fed a mf /\ v' = after [PublishedBundle fed (generation a) mf] v | _ => True end))|].
  - by intros c ->.
  - by intros c ->.
  - intros completion mf Hmf _. split; [done|]. by exists mf.
  - intros [failed completion ce] v' Hf Hq. simpl in Hf. subst failed. destruct (Hq eq_refl) as (He & mf & Hmf & ->). simpl in He. subst ce. simpl.
    assert (Hd : vp (decideSave opts fed a false (Closing false completion None)) (fun r v' => r = Ret () /\ exists mf, bundleOf fed a mf /\
      v' = closedView opts fed a true (after [PublishedBundle fed (generation a) mf] v)) (after [PublishedBundle fed (generation a) mf] v)).
    { eapply vp_conseq; [by apply vp_decideSave|]. intros r v' [-> ->]. split; [done|]. by exists mf. }
    destruct completion; [apply vp_deferring; [evolve|totally|done]|done].
Qed.
End Willing.

(** * Save and restore: the runs of an immediate save

    A [script] is what the participants of a save report, in order.  Each of
    them begins and then completes; [playable] is that all do. *)
Inductive reportEvent := Begins (h : FederateHandle) | Completes (h : FederateHandle) (st : list byte).
(** Each of [R] begins and completes once, and the last completion is the end;
    [B] have begun and [C] have completed already. *)
Fixpoint playable (R B C : gset FederateHandle) (script : list reportEvent) : bool :=
  match script with
  | [] => bool_decide (C = R)
  | Begins h :: script' => bool_decide (h ∈ R) && bool_decide (h ∉ B) && bool_decide (h ∉ C) && playable R ({[h]} ∪ B) C script'
  | Completes h st :: script' => bool_decide (h ∈ B) && (zlen st <=? MaxClientStateBytes) && playable R (B ∖ {[h]}) ({[h]} ∪ C) script'
  end.
(** The bytes of state the script hands over. *)
Fixpoint payload (script : list reportEvent) : Z :=
  match script with
  | [] => 0
  | Begins _ :: script' => payload script'
  | Completes _ st :: script' => zlen st + payload script'
  end.
Lemma payload_nonneg script : 0 <= payload script.
Proof. induction script as [|[h|h st] script IH]; simpl; [lia..|]. unfold zlen. lia. Qed.

Section Script.
Context {T : Type} `{LogicalTimeScalar T} `{EqDecision T} (opts : OptionsOf T) (fed : FederationName) (members : list FederateHandle) (lbl : string).
Context (Hw : willing opts fed members lbl) (ctx : portOf T (option save_error)) (Hctx : forall tr, ctx tr = None).
Implicit Types (h : FederateHandle) (v : view T) (w : callState T) (a : activeSaveOf T).
Definition requestOf (e : reportEvent) : request (T := T) :=
  match e with Begins h => QBegun fed h | Completes h st => QReport ctx fed h true st end.

(** The save of [fed] in the middle of a script that is still to hand over [n]
    bytes. *)
Record playing (R B C : gset FederateHandle) (n : Z) v a : Prop := {
  pl_save : saves (vm v) !! fed = Some a;
  pl_restore : restore (vm v) !! fed = None;
  pl_own : ownSave opts fed members lbl a;
  pl_static : dynamic a = false;
  pl_required : required (progress a) = R;
  pl_begun : begun (progress a) = B;
  pl_complete : complete (progress a) = C;
  pl_notComp : notComp (progress a) = ∅;
  pl_started : forall h, h ∈ R -> saveParticipantStarted a h = true;
  pl_valid : InvalidFederateHandle ∉ R;
  pl_begun_in : B ⊆ R;
  pl_complete_in : C ⊆ R;
  pl_disjoint : B ## C;
  pl_states : dom (clientStates (progress a)) ⊆ C;
  pl_size : statesSize (clientStates (progress a)) + n <= maxFederationClientStateBytes;
}.
Lemma playing_begins R B C n v a h : playing R B C n v a -> h ∈ R -> h ∉ B -> h ∉ C ->
  vp (FederateSaveBegun fed h) (fun _ v' => exists a', playing R ({[h]} ∪ B) C n v' a') v.
Proof.
  intros Hp Hr Hb Hc. destruct Hp as [Psave Prestore Pown Pstatic Prequired Pbegun Pcomplete PnotComp Pstarted Pvalid Pbegun_in Pcomplete_in Pdisjoint Pstates Psize]. apply vp_FederateSaveBegun.
  - intros a' Ha' _. rewrite Psave in Ha'. injection Ha' as <-. exists (set_progress a (set_begun (progress a) ({[h]} ∪ begun (progress a)))).
    assert (Hm : markBegun h a (progress a) = set_begun (progress a) ({[h]} ∪ begun (progress a))) by (unfold markBegun; by rewrite Pstatic).
    split; try done; simpl.
    + by rewrite lookup_alter_eq, Psave, <- Hm.
    + apply own_progress; [done..|]. apply (os_states _ _ _ _ _ Pown).
    + by rewrite Pbegun.
    + set_solver.
    + set_solver.
  - intros Hno. specialize (Hno a Psave). unfold mayBegin in Hno. rewrite Prestore, Pstatic, Prequired, Pbegun, Pcomplete, PnotComp in Hno.
    rewrite (Pstarted h Hr), !bool_decide_true in Hno by (done || set_solver). simpl in Hno. rewrite !andb_true_r in Hno.
    apply negb_false_iff, Z.eqb_eq in Hno. by subst h.
Qed.
Lemma playing_report R B C n v a h st : playing R B C (zlen st + n) v a -> 0 <= n -> h ∈ B -> zlen st <= MaxClientStateBytes -> validateClientStateAdmission (progress a) st = None.
Proof.
  intros Hp Hn Hb Hs. destruct Hp as [Psave Prestore Pown Pstatic Prequired Pbegun Pcomplete PnotComp Pstarted Pvalid Pbegun_in Pcomplete_in Pdisjoint Pstates Psize]. unfold validateClientStateAdmission. rewrite (proj2 (Z.ltb_ge _ _)) by lia. rewrite (proj2 (Z.ltb_ge _ _)) by lia. done.
Qed.
Lemma all_complete p : notComp p = ∅ -> required p <> ∅ -> complete p ⊆ required p -> allRequiredResponded p = bool_decide (complete p = required p).
Proof.
  intros Hn Hr Hc. apply eq_true_iff_eq. rewrite bool_decide_eq_true. split.
  - intros Hall. apply set_eq. intros h. split; [set_solver|]. intros Hh. destruct (all_responded _ h Hall Hh); [done|set_solver].
  - intros E. unfold allRequiredResponded. rewrite bool_decide_false by done. rewrite E, Hn, size_empty. simpl. rewrite (proj2 (Z.ltb_ge _ _)) by lia. simpl.
    apply forallb_forall. intros h Hh%list_elem_of_In. rewrite elem_of_elements in Hh. by rewrite bool_decide_true.
Qed.
Lemma vp_reported h st v a (Q : outcome save_error () -> view T -> Prop) :
  saves (vm v) !! fed = Some a -> saveTime a = None -> restore (vm v) !! fed = None -> h ∈ begun (progress a) -> validateClientStateAdmission (progress a) st = None ->
  let p := markReport h true st (progress a) in
  (if allRequiredResponded p then vp (closeOutSave opts ctx fed (set_progress a p) (negb (bool_decide (notComp p = ∅)))) Q (reportView fed h true st v) else Q (Ret ()) (reportView fed h true st v)) ->
  vp (recordFederateSave opts ctx fed h true st) Q v.
Proof.
  intros Ha Ht Hr Hb Hs p HQ. unfold recordFederateSave. apply vp_bind, vp_getManager. rewrite Ha. apply vp_bind. unfold validateSaveReport.
  rewrite bool_decide_false by (rewrite Ht; by intros []). simpl. apply vp_mret. apply vp_bind. unfold markFederateAndAggregate. apply vp_bind, vp_getManager. rewrite Hr.
  apply vp_bind, vp_guard; [intros _|by rewrite bool_decide_true]. rewrite Ha. apply vp_bind, vp_guard; [intros _|by rewrite bool_decide_true].
  rewrite Hs. apply vp_bind, vp_mret. apply vp_bind, vp_change. apply vp_mret. unfold p in HQ. cbn [progress set_progress].
  destruct (allRequiredResponded _); [exact HQ|by apply vp_mret].
Qed.
(** What the last report leaves. *)
Definition finished (lbl : string) v : Prop :=
  saves (vm v) !! fed = None /\ completed (vm v) !! (fed, lbl) = Some StateSaved.
Lemma closed_finished a v : finished (label a) (closedView opts fed a true v).
Proof. split; [apply lookup_delete_eq || (unfold closedView; rewrite saves_end; apply lookup_delete_eq)|]. unfold closedView. rewrite completed_end. apply lookup_insert_eq. Qed.
Lemma playing_reported R B C n v a h st : playing R B C (zlen st + n) v a -> 0 <= n -> h ∈ B -> ownSave opts fed members lbl (set_progress a (markReport h true st (progress a))).
Proof.
  intros Hp Hn Hb. assert (Hfresh : clientStates (progress a) !! h = None).
  { apply not_elem_of_dom. pose proof (pl_states _ _ _ _ _ _ Hp). pose proof (pl_disjoint _ _ _ _ _ _ Hp). set_solver. }
  pose proof (pl_size _ _ _ _ _ _ Hp) as Hsize. apply own_progress; [apply (pl_own _ _ _ _ _ _ Hp)|done|]. cbn -[statesSize maxFederationClientStateBytes].
  case_bool_decide; [unfold zlen in *; lia|]. rewrite statesSize_insert by done. lia.
Qed.
Lemma playing_completes R B C n v a h st : playing R B C (zlen st + n) v a -> 0 <= n -> h ∈ B -> zlen st <= MaxClientStateBytes ->
  vp (recordFederateSave opts ctx fed h true st) (fun _ v' => if bool_decide ({[h]} ∪ C = R) then finished lbl v' else exists a', playing R (B ∖ {[h]}) ({[h]} ∪ C) n v' a') v.
Proof.
  intros Hp Hn Hb Hs. pose proof (playing_report _ _ _ _ _ _ _ _ Hp Hn Hb Hs) as Hadm. pose proof (playing_reported _ _ _ _ _ _ _ _ Hp Hn Hb) as Hown. destruct Hp as [Psave Prestore Pown Pstatic Prequired Pbegun Pcomplete PnotComp Pstarted Pvalid Pbegun_in Pcomplete_in Pdisjoint Pstates Psize].
  apply (vp_reported h st v a); [done|by apply (os_time _ _ _ _ _ Pown)|done|by rewrite Pbegun|done|].
  assert (Hall : allRequiredResponded (markReport h true st (progress a)) = bool_decide ({[h]} ∪ C = R)).
  { rewrite all_complete; [by simpl; rewrite Pcomplete, Prequired|done|cbn [required markReport set_complete set_begun]; rewrite Prequired; set_solver|simpl; rewrite Pcomplete, Prequired; set_solver]. }
  rewrite Hall. destruct (bool_decide ({[h]} ∪ C = R)).
  - assert (En : notComp (markReport h true st (progress a)) = ∅) by exact PnotComp. rewrite (bool_decide_true _ En). cbn [negb].
    eapply vp_conseq; [apply (vp_closeOut opts fed members lbl Hw ctx Hctx); exact Hown|]. intros r v' (_ & mf & _ & ->). rewrite <- (os_label _ _ _ _ _ Hown). apply (closed_finished (set_progress a _)).
  - exists (set_progress a (markReport h true st (progress a))).
    assert (Hfresh : clientStates (progress a) !! h = None) by (apply not_elem_of_dom; set_solver).
    split; try done; cbn -[statesSize maxFederationClientStateBytes].
    + by rewrite lookup_alter_eq, Psave.
    + by rewrite Pbegun.
    + by rewrite Pcomplete.
    + set_solver.
    + set_solver.
    + set_solver.
    + case_bool_decide; [set_solver|]. rewrite dom_insert. set_solver.
    + case_bool_decide; [unfold zlen in *; lia|]. rewrite statesSize_insert by done. lia.
Qed.
Lemma playable_full R B : B ## R -> B ⊆ R -> R <> ∅ -> forall script, playable R B R script = true -> script = [].
Proof.
  intros Hd Hs Hr [|[h|h st] script]; [done|..]; simpl; intros Hp; rewrite !andb_true_iff, !bool_decide_eq_true in Hp; destruct Hp as [Hp _]; set_solver.
Qed.
Lemma script_finishes script R B C w a : R <> ∅ -> C <> R -> playable R B C script = true -> playing R B C (payload script) (viewOf w) a ->
  finished lbl (viewOf (serveAll opts (map requestOf script) w)).
Proof.
  intros HR. revert B C w a. induction script as [|[h|h st] script IH]; intros B C w a HC Hp Hpl; simpl in Hp.
  - apply bool_decide_eq_true in Hp. done.
  - rewrite !andb_true_iff, !bool_decide_eq_true in Hp. destruct Hp as [[[Hr Hb] Hc] Hrest].
    destruct (playing_begins _ _ _ _ _ _ _ Hpl Hr Hb Hc w eq_refl) as (a' & Ha'). by eapply IH.
  - rewrite !andb_true_iff, !bool_decide_eq_true in Hp. destruct Hp as [[Hb Hs%Z.leb_le] Hrest].
    pose proof (playing_completes _ _ _ _ _ _ _ _ Hpl (payload_nonneg script) Hb Hs w eq_refl) as Hv. destruct Hpl as [Psave Prestore Pown Pstatic Prequired Pbegun Pcomplete PnotComp Pstarted Pvalid Pbegun_in Pcomplete_in Pdisjoint Pstates Psize]. case_bool_decide as E.
    + rewrite E in Hrest. rewrite (playable_full R (B ∖ {[h]})) with (script := script); [exact Hv|set_solver|set_solver|done|done].
    + destruct Hv as (a' & Ha'). by eapply IH.
Qed.
Lemma placed_playing req n v v' : placed opts fed members lbl req v v' -> restore (vm v) !! fed = None -> InvalidFederateHandle ∉ members -> n <= maxFederationClientStateBytes ->
  exists a, playing (list_to_set members) ∅ ∅ n v' a.
Proof.
  intros (b & es & g & Hb & Hg & ->) Hr Hi Hn. destruct (w_members _ _ _ _ Hw) as (ms & Hms & _). eexists. split.
  - unfold placeView, placeSave. simpl. apply lookup_insert_eq.
  - done.
  - split; simpl; [done..|by destruct g|by rewrite Hms|]. unfold statesSize. by rewrite map_fold_empty.
  - simpl. rewrite Hms. by apply bool_decide_eq_false.
  - simpl. by rewrite Hms.
  - done.
  - done.
  - done.
  - intros h Hh. unfold saveParticipantStarted, newActiveSave. inversion Hb as [x r Hx|r|]; subst; [by destruct Hx| |done].
    simpl. rewrite Hms. by apply bool_decide_eq_true.
  - by rewrite elem_of_list_to_set.
  - set_solver.
  - set_solver.
  - set_solver.
  - set_solver.
  - simpl. unfold statesSize. rewrite map_fold_empty. lia.
Qed.
Lemma cooperative_finishes req (aware : bool) script w :
  restore (mgr w) !! fed = None -> saves (mgr w) !! fed = None -> (aware = true -> req <> InvalidFederateHandle /\ req ∈ members) ->
  members <> [] -> InvalidFederateHandle ∉ members -> playable (list_to_set members) ∅ ∅ script = true -> payload script <= maxFederationClientStateBytes ->
  finished lbl (viewOf (serveAll opts (QSave ctx fed req lbl None aware :: map requestOf script) w)).
Proof.
  intros Hr Hs Ha Hne Hi Hp Hn. destruct (vp_immediateSave opts fed members lbl Hw ctx Hctx req aware (viewOf w) Hr Hs Ha w eq_refl) as [_ Hpl].
  destruct (placed_playing req (payload script) _ _ Hpl Hr Hi Hn) as (a & Hpl').
  assert (HR : (list_to_set members : gset FederateHandle) <> ∅) by (destruct members; [done|simpl; set_solver]).
  eapply script_finishes; [exact HR|by intros E; symmetry in E|exact Hp|exact Hpl'].
Qed.
End Script.
