(* ===== verification/SavTheorems.v ===== *)
(** * Save and restore: what the coordinator promises

    The invariant of every history, the barriers of time, what decides a save
    and a restore, the protocol its participants see, saves that complete, the
    routing of a restore, the round trip of bundles and the reversal of an import
    that failed; each with a concrete run. *)
From stdpp Require Import gmap strings.
From Stdlib Require Import Strings.Byte.
From S2P Require Import Prelude GoBytes GoFloat LogicalTime TimeScalar Fed Sav SavService SavReport SavRestore SavCalls SavEffect SavWorld SavInvariant SavPreserve SavDecision SavRound SavLive.
Open Scope Z_scope.

(** ** Small coordinators *)
Module saved.
(** A manager whose snapshot is prepared and committed, and one that is applied,
    and refuses the state [refused]. *)
Definition prepared : SnapshotterOf Z :=
  {| Marshal := fun _ _ => inr [x01]; Unmarshal := fun _ _ _ => inr (); PrepareRestore := Some (fun _ _ _ => inr (Some 5)); PrepareRestoreState := None; Candidate := None;
     CommitPrepared := fun _ _ => None; PrepareRestoreParticipants := None; PrepareRestoreWithFOM := None; ValidateSnapshotDigest := None; PreviewNextRetractionHandle := None |}.
Definition applied (refused : list byte) : SnapshotterOf Z :=
  {| Marshal := fun _ _ => inr [x01]; Unmarshal := fun _ _ d => if bool_decide (d = refused) then inl (errPort 3) else inr (); PrepareRestore := None; PrepareRestoreState := None;
     Candidate := None; CommitPrepared := fun _ _ => None; PrepareRestoreParticipants := None; PrepareRestoreWithFOM := None; ValidateSnapshotDigest := None;
     PreviewNextRetractionHandle := None |}.
(** The bundle of the label "l": two federates and one snapshot. *)
Definition bundle : ManifestOf Z :=
  Manifest 1 "war" None "" "HLAinteger64Time" "l" None [1; 2] None None None [] 0 {[ "tick"%string := [x07] ]}.
Definition options (snapshots : gmap string (SnapshotterOf Z)) (required_ : list string) (roster : option (portOf Z (FederationName -> list FederationMember))) : OptionsOf Z :=
  {| Send := fun _ _ _ _ => None; Reserve := Some (fun _ _ _ => (Some 4, None)); CommitReservation := fun _ _ => None; EventLog := true; generationStorage := false;
     Writer := fun _ _ _ _ => inr (); WriteTo := fun _ d => (zlen d, None); CloseWriter := fun _ => None; Exists := fun _ _ _ _ => true;
     OpenReader := fun _ _ _ _ => inr {| r_data := bundleBytes [x01] []; r_end := None |}; DiscardUncommittedSave := None;
     json_Marshal := fun _ => inr [x01]; json_Unmarshal := fun _ => inr bundle; LoadSaveHistory := None; StoreSaveHistory := fun _ _ _ => None; OnSaveCompleted := true;
     Members := Some (fun _ _ => [1; 2]); Halted := None; ScheduledTime := None; timeReadyOf := fun _ _ => inr true; ResumeTime := Some (fun _ _ => None); ValidateSaveRequest := None;
     PrepareScheduledTime := None; PrepareImmediateTime := Some (fun tr _ _ _ => inr (Some (Z.of_nat (length tr)))); ReadyMembers := fun _ _ => inr []; PauseMembers := fun _ _ _ => None;
     CheckpointLabels := None; PrepareRestoreTransition := None; PrepareRestoreTransitionWithManifest := None; RebindRestore := None; ValidateClientState := None;
     ValidateRestoreCallbackRecovery := None; RebindClientState := None; ValidateRestoreSnapshots := None; Roster := roster; JoinedModules := None; Generation := None; FOMSHA256 := None;
     LogicalTimeImplementation := None; ManagerSnapshots := snapshots; RequiredSnapshots := required_ |}.
Definition plain : OptionsOf Z := options ∅ [] None.
Definition complete_ : OptionsOf Z := options {[ "tick"%string := prepared ]} ["tick"%string] None.
Definition never : portOf Z (option save_error) := fun _ => None.
(** An immediate save of "war", and the reports of its two federates. *)
Definition request_ : request := QSave (T := Z) never "war" 1 "l" None true.
Definition reports : list reportEvent := [Begins 2; Completes 2 [x09]; Begins 1; Completes 1 []].
Definition toReport : list request := request_ :: map (requestOf "war" never) (take 3 reports).
Definition restoring : list request := [QRestore "war" "l" (Some 1) None; QRestoreReport never "war" 2 true].
Lemma plain_accepted : accepted plain.
Proof. vm_compute. reflexivity. Qed.
Lemma complete_accepted : accepted complete_.
Proof. vm_compute. reflexivity. Qed.
Lemma plain_willing : willing plain "war" [1; 2] "l".
Proof.
  split; try done.
  - intros reserve [= <-] tr ds. by eexists.
  - by eexists.
  - intros prepare [= <-] tr l b. by eexists.
  - by eexists.
  - intros mf _. exists [x01]. split; [done|]. vm_compute. congruence.
Qed.
End saved.

Section Theorems.
Context {T : Type} `{LogicalTimeScalar T} `{EqDecision T} (opts : OptionsOf T).
Implicit Types (fed : FederationName) (h : FederateHandle).

(** C29: After every history of requests, whatever the ports answered, the tables of the coordinator are well formed: a save under way has participants that were told, began and reported consistently and somebody still to report, no federation saves and restores at once, waiting saves are scheduled and no others, bounded client state, routes and plans of restores match their participants, and labels in progress are those of what is under way; and the next request changes the rows of its federation only. *)
Theorem save_restore_reachable_wf (qs : list request) (q : request) :
  accepted opts -> let w := serveAll opts qs start in
  manager_wf opts (mgr w) /\ elsewhere (federationOf q) (mgr w) (mgr (serve opts w q)).
Proof. intros Ha w. split; [by apply reachable_wf|]. eapply (step_elsewhere opts q (viewOf w) _ (viewOf (serve opts w q))), step_perform, Ha. Qed.

(** C30: However requests succeed, fail or panic, every barrier of time that was reserved has been given back exactly as often as it was reserved, but for the one the save under way still holds: none leaks, none is released twice. *)
Theorem barriers_accounted (qs : list request) (r : Z) :
  accepted opts -> let w := serveAll opts qs start in
  reservedTimes r (trace w) = (releasedTimes r (trace w) + heldBy r (saves (mgr w)))%nat.
Proof.
  intros Ha w. pose proof (reachable_accounted opts r qs Ha) as Hr. unfold accounted in Hr. cbn [viewOf vt vm] in Hr.
  by destruct (marks_counted r (serveAll opts qs start)) as [E1 E2]; rewrite E1, E2 in Hr.
Qed.

(** C31: A label becomes a saved one only by the report of the last participant of its save, when all its required participants have completed and none failed, after a bundle with exactly these participants and their states was published; the save is over then. *)
Theorem save_decided (qs : list request) (q : request) fed (lbl : string) :
  accepted opts -> let w := serveAll opts qs start in let w' := serve opts w q in
  completed (mgr w') !! (fed, lbl) = Some StateSaved -> completed (mgr w) !! (fed, lbl) <> Some StateSaved ->
  exists ctx h st a mf, q = QReport ctx fed h true st /\ saves (mgr w) !! fed = Some a /\ label a = lbl /\
    h ∈ begun (progress a) /\ {[h]} ∪ complete (progress a) = required (progress a) /\ notComp (progress a) = ∅ /\ saves (mgr w') !! fed = None /\
    marks w' = marks w ++ [PublishedBundle fed (generation a) mf] ++ released (Some a) /\
    mf_Federation mf = fed /\ mf_Label mf = lbl /\ mf_SaveTime mf = saveTime a /\ mf_Federates mf = sortedHandles (required (progress a)) /\
    mf_FederateClientStates mf = clientStatesFor (markReport h true st (progress a)) (mf_Federates mf).
Proof.
  intros Ha w w' Hs Hn. destruct (step_saved opts q (viewOf w) _ (viewOf w') (step_perform opts q w Ha)) as [Hk|Hb]; [by apply Hk in Hs|].
  destruct Hb as (ctx & fed' & h & ok & st & a & mf & -> & Ea & Hb & Hall & Hnone & Hmf & Ev). destruct (report_ok _ _ _ _ Hnone) as [-> Hn0].
  pose proof (fw_save _ _ _ (reachable_wf opts qs Ha fed') a Ea) as Hw. set (p := markReport h true st (progress a)) in *.
  assert (Hc : completed (mgr w') = <[(fed', label a) := StateSaved]> (completed (mgr w))).
  { change (mgr w') with (vm (viewOf w')). rewrite Ev. unfold closedView. by rewrite completed_end. }
  assert (fed = fed' /\ lbl = label a) as [-> ->].
  { destruct (decide ((fed, lbl) = (fed', label a))) as [[= -> ->]|Hne]; [done|]. rewrite Hc, lookup_insert_ne in Hs by done. done. }
  exists ctx, h, st, a, mf. do 4 (split; [done|]). split; [by apply report_all with st; [apply Hw|..]|]. split; [done|]. split.
  { change (mgr w') with (vm (viewOf w')). rewrite Ev. unfold closedView. by rewrite saves_end, lookup_delete_eq. }
  split.
  { change (marks w') with (vt (viewOf w')). rewrite Ev. unfold closedView, endView. simpl. rewrite <- app_assoc. f_equal. f_equal.
    change (saves (vm (viewOf w)) !! fed' = Some a) in Ea. simpl in Ea. by rewrite lookup_alter_eq, Ea. }
  destruct (bundle_fields _ _ _ Hmf) as (F1 & F2 & F3 & F4 & F5). rewrite F4. cbn [label saveTime progress set_progress] in *.
  replace (federates p) with (sortedHandles (required (progress a))) in * by (symmetry; exact (sw_federates _ _ _ Hw)). done.
Qed.

(** C32: With required snapshots, state is imported only by the report that ends a restore all of whose participants succeeded, in the order of the prepared plan; and a label becomes a restored one only when the whole plan was committed. *)
Theorem restore_decided (qs : list request) (q : request) :
  accepted opts -> strict opts = true -> let w := serveAll opts qs start in let w' := serve opts w q in
  (importsOf (trace w') = importsOf (trace w) /\ forall k, completedRestore (mgr w') !! k = Some RestoreCompleted -> completedRestore (mgr w) !! k = Some RestoreCompleted) \/
  exists ctx fed h b plan l, q = QRestoreReport ctx fed h true /\ restore (mgr w) !! fed = Some b /\
    {[h]} ∪ r_complete b = r_required b /\ r_notComp b = ∅ /\ commit b = Some plan /\ l `prefix_of` plan /\
    importsOf (trace w') = importsOf (trace w) ++ committedBy l /\
    forall k, completedRestore (mgr w') !! k = Some RestoreCompleted -> completedRestore (mgr w) !! k = Some RestoreCompleted \/ (k = (fed, r_label b) /\ l = plan).
Proof.
  intros Ha Hst w w'. rewrite <- !imports_marks.
  destruct (step_restored opts q (viewOf w) _ (viewOf w') Hst (step_perform opts q w Ha)) as [[Hi Hl]|(ctx & fed & h & b & l & -> & Eb & Hr & Hc & Hn & Hd & Hl & Hi & Hk)]; [by left|].
  right. pose proof (fw_restore _ _ _ (reachable_wf opts qs Ha fed) b Eb) as Hw. destruct (rw_planned _ _ _ _ Hw Hst) as [[plan Hp] _]. rewrite Hp in *.
  exists ctx, fed, h, b, plan, l. do 2 (split; [done|]). split; [apply restore_all; try done; pose proof (rw_members _ _ _ _ Hw); set_solver|]. done.
Qed.

(** C33: What the participants of a save can ask about themselves follows the protocol [save_spec].  A request replaces no save but one that waits for its time and has told nobody, and instructs all participants at once, or none if it has a time; a federate starts saving only after it was told, and only as one of the awaited participants, or by joining a save that is open; it waits after it has reported, and its report ends the save exactly when all others that are awaited have reported.  Nothing else ends a save but an abort, the loss of an awaited participant, the destruction of the federation, and failures of a save that has a time; it ends for all at once. *)
Theorem save_status_refines (qs : list request) (q : request) fed :
  accepted opts -> let w := serveAll opts qs start in
  save_spec fed q (pictureIn (mgr w) fed) (pictureIn (mgr (serve opts w q)) fed).
Proof.
  intros Ha w. pose proof (step_perform opts q w Ha) as Hs. destruct (decide (fed = federationOf q)) as [->|Hne].
  - eapply (step_status opts q (viewOf w) _ (viewOf (serve opts w q))), Hs. by apply reachable_wf.
  - apply spec_same. by apply (ew_saves _ _ _ (step_elsewhere opts q _ _ _ Hs)).
Qed.


(** C35: A restore that is routed has distinct, valid recipients and a table of exactly these, in which each recipient has the handle saved at its place; a participant saved under a name goes to the federate that has the name now. *)
Theorem restore_routing_exact fed (mf : ManifestOf T) (w w' : callState T) (rs : list FederateHandle) (t : gmap FederateHandle FederateHandle) :
  restoreRouting opts fed mf w = (Ret (rs, t), w') ->
  w' = w /\ length rs = length (mf_Federates mf) /\ NoDup rs /\ InvalidFederateHandle ∉ rs /\ dom t = list_to_set rs /\
  (forall i h saved, rs !! i = Some h -> mf_Federates mf !! i = Some saved -> t !! h = Some saved) /\
  (forall roster names i saved before mem later, Roster opts = Some roster -> mf_FederateNames mf = Some names -> length names = length (mf_Federates mf) ->
    mf_Federates mf !! i = Some saved -> names !! i = Some (m_Name mem) -> m_Name mem <> "" -> roster (trace w) fed = before ++ mem :: later ->
    Forall (fun x => m_Name x <> m_Name mem) later -> rs !! i = Some (m_Handle mem)).
Proof.
  intros (-> & -> & Hd & Hv & Ht & Hin)%restoreRouting_exact. split; [done|]. split; [apply length_recipients|]. do 4 (split; [done|]).
  intros roster names i saved before mem later Er En Hlen Hs Hn Hne Hl Hlast. by eapply recipient_by_name.
Qed.

(** C36: What [WriteBundle] has written when it returns, whatever the writer did, is read back by [ReadBundle] to the same manifest and event log, whatever follows it, if the JSON of the manifest can be read back; and every proper prefix of it is refused. *)
Theorem bundle_roundtrip (mf : ManifestOf T) (eventLog bs rest : list byte) (e : option save_error) (w w' : callState T) :
  WriteBundle opts mf eventLog w = (Ret (), w') ->
  json_Marshal opts (sealedManifest mf eventLog) = inr bs -> bs <> [] -> json_Unmarshal opts bs = inr (sealedManifest mf eventLog) ->
  exists es, trace w' = trace w ++ es /\ mgr w' = mgr w /\
    ReadBundle opts {| r_data := writtenBy es ++ rest; r_end := e |} = Ret (sealedManifest mf eventLog, eventLog) /\
    forall n, (n < length (writtenBy es))%nat -> exists err, ReadBundle opts {| r_data := take n (writtenBy es); r_end := e |} = Fail err.
Proof.
  intros (es & bs' & [Hm Ht] & Hj & Hs & Hl & Hv & Hwr)%WriteBundle_ret Hj' Hne Hu. rewrite Hj' in Hj. injection Hj as <-. exists es. do 2 (split; [done|]). rewrite Hwr.
  pose proof (fun y data => ReadBundle_prefix opts (sealedManifest mf eventLog) bs eventLog Hu Hne Hs Hl Hv eq_refl y data e) as Hread. split.
  - destruct (Hread rest (bundleBytes bs eventLog ++ rest) ltac:(done)) as [[Hlt _]|[_ Hr]]; [|exact Hr]. rewrite length_app in Hlt. lia.
  - intros n Hn. destruct (Hread [] (take n (bundleBytes bs eventLog))) as [[_ Hf]|[Hge _]]; [rewrite app_nil_r; apply prefix_take|exact Hf|]. rewrite length_take in Hge. lia.
Qed.

End Theorems.

(** ** Concrete runs *)
Import saved.
Lemma save_restore_reachable_wf_witness :
  let w := serveAll plain toReport start in
  manager_wf plain (mgr w) /\ elsewhere "war" (mgr w) (mgr (serve plain w (QReport never "war" 1 true []))) /\ is_Some (saves (mgr w) !! "war"%string).
Proof.
  destruct (save_restore_reachable_wf plain toReport (QReport never "war" 1 true []) plain_accepted) as [H1 H2]. split; [exact H1|]. split; [exact H2|].
  eexists. vm_compute. reflexivity.
Defined.
Lemma barriers_accounted_witness :
  let w := serveAll plain toReport start in
  reservedTimes 0 (trace w) = (releasedTimes 0 (trace w) + heldBy 0 (saves (mgr w)))%nat /\ heldBy 0 (saves (mgr w)) = 1%nat /\
  heldBy 0 (saves (mgr (serve plain w (QReport never "war" 1 true [])))) = 0%nat.
Proof.
  split; [exact (barriers_accounted plain toReport 0 plain_accepted)|]. split; vm_compute; reflexivity.
Defined.
Lemma save_decided_witness :
  let w := serveAll plain toReport start in
  exists ctx h st a (mf : ManifestOf Z), QReport never "war" 1 true [] = QReport ctx "war" h true st /\ saves (mgr w) !! "war"%string = Some a /\ label a = "l"%string /\ h ∈ begun (progress a) /\
    mf_Federates mf = sortedHandles (required (progress a)).
Proof.
  assert (Hs : completed (mgr (serve plain (serveAll plain toReport start) (QReport never "war" 1 true []))) !! ("war"%string, "l"%string) = Some StateSaved) by (vm_compute; reflexivity).
  assert (Hn : completed (mgr (serveAll plain toReport start)) !! ("war"%string, "l"%string) <> Some StateSaved) by (vm_compute; congruence).
  destruct (save_decided plain toReport (QReport never "war" 1 true []) "war" "l" plain_accepted Hs Hn)
    as (ctx & h & st & a & mf & H1 & H2 & H3 & H4 & _ & _ & _ & _ & _ & _ & _ & H5 & _).
  exists ctx, h, st, a, mf. split; [exact H1|]. split; [exact H2|]. split; [exact H3|]. split; [exact H4|exact H5].
Defined.
Lemma restore_decided_witness :
  let w := serveAll complete_ restoring start in let w' := serve complete_ w (QRestoreReport never "war" 1 true) in
  importsOf (trace w') = [CommittedSnapshot "tick" 5] /\ completedRestore (mgr w') !! ("war"%string, "l"%string) = Some RestoreCompleted /\
  exists ctx fed h b, QRestoreReport (T := Z) never "war" 1 true = QRestoreReport ctx fed h true /\ restore (mgr w) !! fed = Some b /\ {[h]} ∪ r_complete b = r_required b.
Proof.
  split; [vm_compute; reflexivity|]. split; [vm_compute; reflexivity|].
  destruct (restore_decided complete_ restoring (QRestoreReport never "war" 1 true) complete_accepted ltac:(vm_compute; reflexivity)) as [[Hi _]|(ctx & fed & h & b & plan & l & H1 & H2 & H3 & _)].
  - exfalso. vm_compute in Hi. discriminate Hi.
  - exists ctx, fed, h, b. split; [exact H1|]. split; [exact H2|exact H3].
Defined.
Lemma save_status_refines_witness :
  let w := serveAll plain toReport start in let last := QReport (T := Z) never "war" 1 true [] in
  save_spec "war" last (pictureIn (mgr w) "war") (pictureIn (mgr (serve plain w last)) "war") /\
  (exists s, pictureIn (mgr w) "war" = Some s /\ statusOf s 1 = FederateSaving /\ statusOf s 2 = FederateWaitingForFederationToSave) /\ pictureIn (mgr (serve plain w last)) "war" = None.
Proof.
  split; [exact (save_status_refines plain toReport (QReport never "war" 1 true []) "war" plain_accepted)|]. split; [eexists; split; [vm_compute; reflexivity|split; vm_compute; reflexivity]|vm_compute; reflexivity].
Defined.
Lemma restore_routing_exact_witness :
  let roster := fun _ _ => [Member 11 "a" "t"; Member 12 "b" "t"] in let opts := options ∅ [] (Some roster) in
  let mf := Manifest 1 "war" None "" "" "l" None [1; 2] (Some ["b"; ""]%string) None None [] 0 ∅ in
  exists rs t, (restoreRouting opts "war" mf start).1 = Ret (rs, t) /\ rs = [12; 2] /\ t !! 12 = Some 1 /\ NoDup rs.
Proof.
  intros roster opts mf. eexists _, _. split; [vm_compute; reflexivity|]. split; [reflexivity|].
  destruct (restore_routing_exact opts "war" mf start start [12; 2] _ ltac:(vm_compute; reflexivity)) as (_ & _ & Hd & _ & _ & Ht & _).
  split; [exact (Ht 0%nat 12 1 eq_refl eq_refl)|exact Hd].
Defined.
Lemma bundle_roundtrip_witness :
  exists es, trace (WriteBundle plain bundle [] start).2 = es /\ ReadBundle plain {| r_data := writtenBy es ++ [x09]; r_end := None |} = Ret (bundle, []) /\
    exists err, ReadBundle plain {| r_data := take 16 (writtenBy es); r_end := None |} = Fail err.
Proof.
  destruct (bundle_roundtrip plain bundle [] [x01] [x09] None start (WriteBundle plain bundle [] start).2) as (es & Ht & _ & Hr & Hf);
    [vm_compute; reflexivity|vm_compute; reflexivity|congruence|vm_compute; reflexivity|].
  simpl in Ht. assert (Hl : length (writtenBy es) = 17%nat) by (rewrite <- Ht; vm_compute; reflexivity).
  exists es. split; [exact Ht|]. split; [|apply Hf; rewrite Hl; lia]. rewrite Hr. vm_compute. reflexivity.
Defined.
(** "a" is applied and then "b" refused: both get back what they had; where "b"
    refuses that too, the error says so. *)
Definition stubborn : SnapshotterOf Z :=
  {| Marshal := fun _ _ => inr [x01]; Unmarshal := fun _ _ _ => inl (errPort 5); PrepareRestore := None; PrepareRestoreState := None;
     Candidate := None; CommitPrepared := fun _ _ => None; PrepareRestoreParticipants := None; PrepareRestoreWithFOM := None; ValidateSnapshotDigest := None;
     PreviewNextRetractionHandle := None |}.
Definition importing (b : SnapshotterOf Z) : OptionsOf Z := options {[ "a"%string := applied [x07]; "b"%string := b ]} [] None.
Definition imported2 (b : SnapshotterOf Z) := applyManagerSnapshots (importing b) "war" {[ "a"%string := [x06]; "b"%string := [x08] ]} start.
Definition failedWith {A} (r : outcome save_error A) : save_error := match r with Fail e => e | _ => errPort 0 end.
